(* ===== verification/_CoqProject ===== *)
-Q . S2P
Prelude.v
Decode.v
Riscv.v
Exec.v
ExecWf.v
Memory.v
MemorySpec.v
AluSpec.v
ExecMem.v
ConstOpt.v
ConstOptSpec.v
Blind.v
Fusion.v
FusionSpec.v
Block.v
Step.v
BlockMapSpec.v
DecodeSpec.v
DecodeInv.v
DecodeRvc.v
ExecRvc.v
BlockSpec.v
StepRef.v
StepShape.v
StepStay.v
StepChain.v
StepSpec.v
Float32.v
Tensix.v
Mailbox.v
MailboxSpec.v
TtInsn.v
TtMatrix.v
TtPack.v
TtSfpu.v
TensixCop.v
TensixMmio.v
MopSpec.v
TensixCopSpec.v
TensixLink.v
TensixInv.v
MatrixSpec.v
FormatSpec.v
SfpuSpec.v
Map.v
MapTree.v
MapFix.v
MapSearch.v
MapSpec.v
MapRefine.v
Mpool.v
MpoolSpec.v
Utils.v
UtilsSpec.v
IsaSpec.v
Cache.v
CacheSpec.v
Devices.v
PlicSpec.v
VirtioSpec.v
Mmu.v
MmuSpec.v
InterruptSpec.v
Buffers.v
MapClient.v
Syscall.v
SyscallSpec.v
Elf.v
ElfSpec.v
Boot.v
BootSpec.v
Gdb.v
GdbSpec.v
X64.v
Jit.v
JitGen.v
JitEmit.v
JitAlloc.v
JitSpec.v
