(* ===== verification/Prelude.v ===== *)
(** * A verification of the rv32emu interpreter and the Tensix coprocessor

    The program is librv32sim (src/Makefile): the interpreter core of
    rv32emu, an RV32IMAF/Zicsr/Zifencei/Zb* emulator extended with the Tensix
    instruction space (EXT_TT), built without the JIT compilers and without
    system emulation, and the Tensix coprocessor of src/tt_cop that five such
    harts drive.

    A hart fetches guest words, decodes them into an intermediate
    representation ([rv_insn_t]), collects them into basic blocks, rewrites
    each new block with two optimisation passes, keeps the blocks in a hash
    table and executes them through a chain of handler functions.  It reaches
    the coprocessor in three ways: a Tensix instruction in the guest code is
    handed over directly, a store to an MMIO address pushes an instruction
    into a FIFO or writes a register, and the harts and the coprocessor's
    threads talk through sixteen mailboxes.  The coprocessor expands MOP and
    REPLAY instructions, waits for semaphores and data-valid bits, and
    executes on the tile, matrix, vector and scalar units.

    ** The interpreter

    - Prelude.v (this file): machine words on [Z] ([u32], [s32], ...), bit
      operators, bit fields, generic lemmas, hint databases and tactics.
    - Decode.v: the decoder, src/rv32emu/src/decode.c and decode.h.  One
      definition per [op_*] handler and field extractor; [rv_decode] returns
      the representation it leaves behind and its boolean result.  The
      representation is the record [rv_insn].
    - Riscv.v: the hart, [struct riscv_internal] of riscv_private.h as the
      record [riscv]; CSR access, trap entry and the ecall and ebreak
      callbacks of emulate.c; the register interface of riscv.c.  The I/O
      callbacks ([riscv_io_t]) are the record [riscv_io] over a type of
      outside worlds.
    - Exec.v: the handlers.  [do_<inst>] is the body of [RVOP(<inst>, ...)]
      in rv32_template.c; [RVOP] is the macro around it (emulate.c); the
      fused, Tensix and mailbox handlers; [dispatch_table]; and [exec_block],
      the chain of tail calls through a block.  A body ends in an [outcome]
      (go on, return, jump into a chained block); [Chained] carries the
      block that a history table or a branch pointer leads to.
    - Memory.v: guest memory (io.c, io.h), the three-region layout of
      src/rv32sim.c, the callbacks of riscv.c with the coprocessor's claim
      on MMIO addresses, and the memset and memcpy traps.
    - ConstOpt.v: constant propagation, one definition per [CONSTOPT] of
      rv32_constopt.c and the pass of emulate.c.
    - Fusion.v: macro-operation fusion ([match_pattern] of emulate.c).
    - Block.v: [block_translate], the open-addressing block map and
      [block_find_or_translate].
    - Step.v: [rv_step], the loop over blocks with the links between them,
      and the loops of [rv_run] and [rv32_run_co] around it.

    ** The coprocessor

    - Float32.v: IEEE single precision on bit patterns (round to nearest
      even, subnormals, NaNs as the SSE instructions make them), since the
      source computes with the host's [float]; no contraction of [a*b+c].
    - Tensix.v: [struct tensix] (tensix.h) as records, one per unit, with
      the accessors of the arrays and the configuration registers.
    - Mailbox.v: the sixteen bounded queues and their stall flags.
    - TtInsn.v, TtMatrix.v, TtPack.v, TtSfpu.v: the handlers of tt_insn.c,
      grouped as synchronisation, configuration and scalar unit; matrix
      unit; unpacker and packer with their data formats; vector unit.
    - TensixCop.v: tensix_cop.c, that is reset, the instruction FIFOs, the
      wait gate, the MOP expander, replay, and the two ways to step.
    - TensixMmio.v: the MMIO reads and writes of tensix_cop.c.
    - TensixLink.v: the coprocessor as the instance of the interpreter's
      parameters.

    ** Containers, cache and system emulation

    Code of rv32emu that librv32sim links or that other builds of the same
    sources compile.

    - Map.v: the red-black tree of map.c on a store of nodes, with the colour
      in the low bit of the right pointer; a failed assertion and an access
      outside a node are errors of its monad.
    - Mpool.v: the memory pool of mpool.c, free chunks linked through the
      host's memory.
    - Utils.v: [sanitize_path] and the key sets of utils.c.
    - Cache.v: the block cache of the JIT builds (cache.c).
    - Devices.v: the interrupt controller, the serial port and the block
      device of system emulation (src/rv32emu/src/devices), one Module each.
    - Mmu.v: system.c and system.h, that is the Sv32 walk, the memory
      interface [mmu_io] with its dispatch to the devices, and the interrupt
      check of emulate.c, over the record [vm].

    ** The theorems

    - The instruction set.  IsaSpec.v: a machine written from the manual
      ([isa_step], RV32I, M and A without sc.w); decoding and executing one
      instruction is its step, and a call of [rv_step] with everything in
      between (block map, optimiser, links) is a run of it.
    - Decoding.  DecodeSpec.v: the encoder of the manual's formats, and
      every legal instruction decodes to itself.  DecodeInv.v: the converse.
      DecodeRvc.v: the compressed map against the manual's table on all
      2^16 words, and the type invariant of the decoder's output.
    - Type safety.  ExecWf.v: every handler and every block keeps the hart
      well formed ([rv_wf]), given well-behaved callbacks (class [IoOk]) and
      floating-point functions (class [SfOk]); MemorySpec.v provides the
      instance for the real callbacks.
    - Functional correctness.  AluSpec.v: the computational instructions
      against their meaning on integers; ExecRvc.v: the compressed ones,
      through the decoder; MemorySpec.v: guest memory is a byte array;
      ExecMem.v: loads, stores, misaligned accesses, trap entry and mret.
    - The optimiser.  ConstOptSpec.v and FusionSpec.v: each pass keeps what
      a block does; BlockSpec.v: so does the pipeline on every block that
      the translator builds.  Both spec files also prove where the passes
      are wrong (sc.w, fused mailbox loads, runs of 257 instructions), and
      the correctness theorems exclude exactly these cases.
    - The block map.  BlockMapSpec.v: it refines a finite map, and its
      probing loops end because the table is cleared at 820 of 1024 slots.
    - The execution loop.  StepRef.v has the reference, one instruction at a
      time from memory; Blind.v, StepShape.v, StepStay.v and StepChain.v show
      what handlers read, how blocks end and that links lead to what the
      memory holds; StepSpec.v concludes that [rv_step] is a run of the
      reference, and that a loop of chained blocks never returns.
    - The coprocessor's control.  MailboxSpec.v: mailboxes refine bounded
      queues; MopSpec.v: MOP expansion against the template's meaning;
      TensixCopSpec.v: a step executes the instructions of a FIFO in order
      and drops none, draining ends, a push succeeds; TensixInv.v: the
      invariant of every reachable state; TensixLink.v: guest loads and
      stores of a mailbox.
    - The coprocessor's data.  MatrixSpec.v: element-wise operations, matrix
      product, transpose and moves; FormatSpec.v: data formats round trip;
      SfpuSpec.v: the vector unit acts lane by lane, and the flag stack.
    - Containers.  MapTree.v to MapRefine.v: the tree keeps its order and its
      colours through every rotation and refines a sorted association list;
      MpoolSpec.v: chunks in use never overlap; UtilsSpec.v: a sanitized path
      is the lexical normal form; CacheSpec.v: the cache refines two bounded
      lists.
    - System emulation.  MmuSpec.v: translation against the Sv32 algorithm
      of the privileged manual, faults included; PlicSpec.v: interrupts are
      delivered once, by priority, and none is lost; VirtioSpec.v: what a
      guest writes to a sector it reads back; InterruptSpec.v: input on the
      console becomes an interrupt of the hart.

    ** Parameters, bounds and fuel

    Berkeley SoftFloat is vendored third-party code
    (src/rv32emu/src/softfloat): its functions are the fields of the record
    [softfloat].  The coprocessor enters the interpreter's files as the
    functions [tt_direct] (accept an instruction) and [mailbox_stalled], and
    as the two MMIO callbacks in Memory.v; TensixLink.v instantiates them.
    [find] is the lookup in the block map, by address.  Whether an allocation
    for fused operations succeeds is the argument [malloc_ok]; [malloc] of
    Map.v, [mem_arena] of Mpool.v and [calloc] of Cache.v choose addresses and
    may fail.  The record [console] of Devices.v is the host's terminal, and
    [on_trap] in Mmu.v the trap callback of the I/O interface.

    [translate_loop] has fuel for the length of a block, since the source
    has no bound on it; a block that needs more gives [None], and the
    theorems on translated blocks have the successful translation as their
    hypothesis.  The probing loops have as much fuel as the table has slots:
    a probe that visits them all without an end never ends.  The loops over
    a block ([exec_block], [optimize_loop], [match_loop]) are structural or
    bounded by the length of the block.  Chains of linked blocks and the
    loop of [rv_step] have fuel, and [None] stands for a call that has not
    returned; that some calls never do is a theorem.

    The coprocessor's loops over MOP and replay expansions have fuel too and
    give [None] without enough of it: a MOP or a replay buffer that contains
    itself makes the source loop for ever.  The loops with a bound that
    only the state gives have [drain_fuel] (FIFO before a direct
    instruction), [push_fuel] (store to a full FIFO) and [tmpl1_fuel] (one
    turn of a MOP template), each proved to be enough.  In TensixLink.v a
    direct instruction that runs out of fuel counts as blocked.

    The loops of Map.v have the number of nodes (or the length of the path
    array) as fuel, proved to be enough; [notify_loop] of the block device
    has 2^16, the number of values of the 16-bit counter that ends it.

    C integers keep their width: a [uint32_t] is a [Z] in [0, 2^32) and
    every operation that can leave the range is wrapped.

    ** Not modelled

    The JIT compilers (jit.c, rv32_jit.c, t2c.c) generate host code and are
    not compiled in this build.  System calls, SDL, ELF loading, the main
    program, logging and the debugger are input and output, as are the
    coprocessor's debug prints and timing counters.  Of system emulation the
    nested interpreter that runs a guest's trap handler ([__trap_handler]),
    the SBI calls and the opening of disk images are left out. *)

From Stdlib Require Import ZArith Lia Bool List.
From stdpp Require Import base list numbers gmap.

(** ** Notation for the C operators on integers *)

Declare Scope rv_scope.
Delimit Scope rv_scope with rv.

Notation "x &. y" := (Z.land x y) (at level 40, left associativity) : rv_scope.
Notation "x |. y" := (Z.lor x y) (at level 50, left associativity) : rv_scope.
Notation "x ^. y" := (Z.lxor x y) (at level 50, left associativity) : rv_scope.
Notation "x <<. y" := (Z.shiftl x y) (at level 40, left associativity) : rv_scope.
Notation "x >>. y" := (Z.shiftr x y) (at level 40, left associativity) : rv_scope.

Global Open Scope Z_scope.
Global Open Scope rv_scope.

(** ** Machine words

    An unsigned [w]-bit C integer is a [Z] in [0, 2^w); [uN] is the
    conversion (reduction modulo [2^N]), [sN] the conversion to the signed
    type of the same width (two's complement, as gcc defines it). *)

Definition wrap (n z : Z) : Z := z mod 2 ^ n.
Definition sext (n z : Z) : Z :=
  let u := z mod 2 ^ n in if u <? 2 ^ (n - 1) then u else u - 2 ^ n.

Definition u8 (z : Z) : Z := z mod 2 ^ 8.
Definition u16 (z : Z) : Z := z mod 2 ^ 16.
Definition u32 (z : Z) : Z := z mod 2 ^ 32.
Definition u64 (z : Z) : Z := z mod 2 ^ 64.
Definition s8 (z : Z) : Z := sext 8 z.
Definition s16 (z : Z) : Z := sext 16 z.
Definition s32 (z : Z) : Z := sext 32 z.
Definition s64 (z : Z) : Z := sext 64 z.

(** C truth values: [b2z] is the value of a comparison, [nz] the test of an
    integer used as a condition. *)
Definition b2z (b : bool) : Z := if b then 1 else 0.
Definition nz (z : Z) : bool := negb (z =? 0).

(** The field [x[lo+n-1 : lo]] of a word. *)
Definition bits (lo n x : Z) : Z := (x / 2 ^ lo) mod 2 ^ n.

(** ** Automation *)

(** [div_lia] turns divisions and remainders by constants into linear
    constraints and calls [lia]. *)
Ltac div_lia := Z.div_mod_to_equations; lia.

(** [splits] splits the conjunctions of the goal that are visible. *)
Ltac splits := repeat match goal with |- _ /\ _ => split end.

(** [bool_cases] splits on every boolean comparison of integers in the goal. *)
Ltac bool_cases :=
  repeat match goal with
  | |- context [?a =? ?b] => destruct (Z.eqb_spec a b)
  | |- context [?a <? ?b] => destruct (Z.ltb_spec a b)
  | |- context [?a <=? ?b] => destruct (Z.leb_spec a b)
  end.

Ltac unfold_words :=
  unfold u8, u16, u32, u64, s8, s16, s32, s64, sext, wrap, b2z, nz, bits in *.

(** [norm_pow] evaluates the powers of two with a literal exponent. *)
Ltac norm_pow :=
  repeat match goal with
  | |- context [2 ^ ?k] =>
      let v := eval vm_compute in (2 ^ k) in
      lazymatch v with Z.pow _ _ => fail | _ => idtac end;
      progress change (2 ^ k) with v in *
  | H : context [2 ^ ?k] |- _ =>
      let v := eval vm_compute in (2 ^ k) in
      progress change (2 ^ k) with v in *
  end.

Ltac word_lia := unfold_words; norm_pow; bool_cases; try div_lia.

(** The hint databases of the development: [word] for range facts,
    rewriting base [word_rw] for conversions that cancel. *)
Create HintDb word.
Create HintDb wf.
Create Rewrite HintDb word_rw.

(** ** Ranges *)

Lemma u8_range z : 0 <= u8 z < 2 ^ 8.
Proof. apply Z.mod_pos_bound. lia. Qed.

Lemma u16_range z : 0 <= u16 z < 2 ^ 16.
Proof. apply Z.mod_pos_bound. lia. Qed.

Lemma u32_range z : 0 <= u32 z < 2 ^ 32.
Proof. apply Z.mod_pos_bound. lia. Qed.

Lemma u64_range z : 0 <= u64 z < 2 ^ 64.
Proof. apply Z.mod_pos_bound. lia. Qed.

Lemma bits_range lo n x : 0 <= n -> 0 <= bits lo n x < 2 ^ n.
Proof. intros Hn. apply Z.mod_pos_bound. lia. Qed.

Lemma sext_range n z : 0 < n -> - 2 ^ (n - 1) <= sext n z < 2 ^ (n - 1).
Proof.
  intros Hn. unfold sext.
  pose proof (Z.mod_pos_bound z (2 ^ n)) as Hm.
  assert (2 ^ n = 2 * 2 ^ (n - 1)) as E
    by (rewrite <- Z.pow_succ_r by lia; f_equal; lia).
  destruct (Z.ltb_spec (z mod 2 ^ n) (2 ^ (n - 1))); lia.
Qed.

Lemma s32_range z : - 2 ^ 31 <= s32 z < 2 ^ 31.
Proof. apply (sext_range 32). lia. Qed.

Lemma u32_small z : 0 <= z < 2 ^ 32 -> u32 z = z.
Proof. apply Z.mod_small. Qed.

Lemma s32_small z : - 2 ^ 31 <= z < 2 ^ 31 -> s32 z = z.
Proof. intros. word_lia. Qed.

Lemma u32_s32 z : u32 (s32 z) = u32 z.
Proof. word_lia. Qed.

Lemma s32_u32 z : s32 (u32 z) = s32 z.
Proof. word_lia. Qed.

Lemma u32_idemp z : u32 (u32 z) = u32 z.
Proof. word_lia. Qed.

#[export] Hint Resolve u8_range u16_range u32_range u64_range s32_range : word.
#[export] Hint Rewrite u32_s32 s32_u32 u32_idemp : word_rw.

(** ** Bit fields *)

Lemma pow2_pos n : 0 <= n -> 0 < 2 ^ n.
Proof. lia. Qed.

(** Masking with a contiguous mask selects a field and leaves it in place. *)
Lemma land_mask x k n m :
  0 <= k -> 0 <= n -> m = (2 ^ n - 1) * 2 ^ k ->
  x &. m = bits k n x * 2 ^ k.
Proof.
  intros Hk Hn ->. unfold bits.
  rewrite <- Z.shiftl_mul_pow2, <- (Z.shiftl_mul_pow2 (_ mod _)) by lia.
  rewrite <- Z.shiftr_div_pow2 by lia.
  rewrite <- Z.land_ones, Z.ones_equiv, <- Z.sub_1_r by lia.
  apply Z.bits_inj'. intros i Hi.
  rewrite Z.land_spec, !Z.shiftl_spec, Z.land_spec by lia.
  destruct (Z_lt_le_dec (i - k) 0).
  - rewrite !(Z.testbit_neg_r _ (i - k)) by lia. by rewrite andb_false_r.
  - rewrite Z.shiftr_spec by lia. by replace (i - k + k) with i by lia.
Qed.

(** ... and shifting it down yields the field. *)
Lemma land_mask_shiftr x k n m :
  0 <= k -> 0 <= n -> m = (2 ^ n - 1) * 2 ^ k ->
  (x &. m) >>. k = bits k n x.
Proof.
  intros Hk Hn Hm. rewrite (land_mask x k n m), Z.shiftr_div_pow2 by done.
  apply Z.div_mul. lia.
Qed.

Lemma testbit_above b k i :
  0 <= k <= i -> 0 <= b < 2 ^ k -> Z.testbit b i = false.
Proof.
  intros Hk Hb. rewrite <- (Z.mod_small b (2 ^ k)) by lia.
  apply Z.mod_pow2_bits_high. lia.
Qed.

(** A disjunction of disjoint parts is a sum. *)
Lemma lor_add a b k :
  0 <= k -> a mod 2 ^ k = 0 -> 0 <= b < 2 ^ k -> a |. b = a + b.
Proof.
  intros Hk Ha Hb.
  rewrite <- Z.lxor_lor; [symmetry; apply Z.add_nocarry_lxor|].
  all: apply Z.bits_inj'; intros i Hi; rewrite Z.land_spec, Z.testbit_0_l.
  all: destruct (Z_lt_le_dec i k).
  all: try (rewrite <- (Z.mod_pow2_bits_low a k i), Ha, Z.testbit_0_l by lia; done).
  all: rewrite (testbit_above b k i), andb_false_r by lia; done.
Qed.

Lemma lor_add' a b k :
  0 <= k -> 0 <= a < 2 ^ k -> b mod 2 ^ k = 0 -> a |. b = a + b.
Proof. intros. rewrite Z.lor_comm, (lor_add b a k) by done. lia. Qed.

(** Sign extension keeps the fields below the sign. *)
Lemma bits_add_high lo n m z k :
  0 <= lo -> 0 <= n -> lo + n <= m -> bits lo n (z + k * 2 ^ m) = bits lo n z.
Proof.
  intros. unfold bits.
  replace (k * 2 ^ m) with (k * 2 ^ (m - lo - n) * 2 ^ n * 2 ^ lo)
    by (rewrite <- !Z.mul_assoc, <- !Z.pow_add_r by lia; do 2 f_equal; lia).
  rewrite Z.div_add by lia. by rewrite Z.mod_add by lia.
Qed.

Lemma bits_sext lo n m z :
  0 <= lo -> 0 <= n -> lo + n <= m -> bits lo n (sext m z) = bits lo n z.
Proof.
  intros. unfold sext. pose proof (Z.div_mod z (2 ^ m) ltac:(lia)) as E.
  destruct (_ <? _).
  - rewrite E at 2. rewrite Z.add_comm, Z.mul_comm. by rewrite bits_add_high.
  - rewrite E at 2.
    replace (2 ^ m * (z / 2 ^ m) + z mod 2 ^ m)
      with (z mod 2 ^ m - 2 ^ m + (z / 2 ^ m + 1) * 2 ^ m) by ring.
    by rewrite bits_add_high.
Qed.

(** [gen_bits] abstracts every field [bits lo n x] of the goal into a fresh
    variable with its range; [lor_sum k] turns the innermost disjunction of
    the goal, whose parts meet at bit [k], into a sum. *)
Ltac gen_bits :=
  repeat match goal with
  | |- context [bits ?lo ?n ?x] =>
      pose proof (bits_range lo n x ltac:(lia));
      generalize dependent (bits lo n x); intros
  end.

Ltac lor_sum k :=
  match goal with
  | |- context [?a |. ?b] =>
      assert_fails (idtac; match a with context [_ |. _] => idtac end);
      first [ rewrite (lor_add a b k) by word_lia
            | rewrite (lor_add' a b k) by word_lia ]
  end.

Ltac shifts_to_arith :=
  rewrite ?Z.shiftl_mul_pow2, ?Z.shiftr_div_pow2 by lia.

(** ** 32-bit words *)

Definition word (z : Z) : Prop := 0 <= z < 2 ^ 32.

Lemma word_u32 z : word (u32 z).
Proof. apply u32_range. Qed.

Lemma u32_word z : word z -> u32 z = z.
Proof. apply u32_small. Qed.

Lemma word_nonneg z : word z -> 0 <= z.
Proof. unfold word. lia. Qed.

(** A single bit tested with a mask. *)
Lemma nz_land_bit e k : 0 <= k -> nz (e &. (1 <<. k)) = Z.testbit e k.
Proof.
  intros Hk. rewrite Z.shiftl_1_l. unfold nz. destruct (Z.testbit e k) eqn:Hb.
  - destruct (Z.eqb_spec (e &. 2 ^ k) 0) as [E|]; [|done]. exfalso.
    assert (Z.testbit (e &. 2 ^ k) k = true) by (rewrite Z.land_spec, Z.pow2_bits_true, Hb by lia; done).
    by rewrite E, Z.testbit_0_l in *.
  - rewrite (proj2 (Z.eqb_eq _ _)); [done|]. apply Z.bits_inj'. intros i Hi.
    rewrite Z.land_spec, Z.pow2_bits_eqb, Z.testbit_0_l by lia.
    destruct (Z.eqb_spec k i) as [<-|]; [by rewrite Hb|apply andb_false_r].
Qed.

(** A non-negative number is below [2^n] when its bits from [n] up are 0. *)
Lemma bits_below z n :
  0 <= n -> 0 <= z -> (forall i, n <= i -> Z.testbit z i = false) -> z < 2 ^ n.
Proof.
  intros Hn Hz Hb. rewrite <- (Z.mod_small z (2 ^ (Z.max n (Z.log2 z + 1)))).
  - assert (z mod 2 ^ Z.max n (Z.log2 z + 1) = z mod 2 ^ n) as ->.
    { apply Z.bits_inj'. intros i Hi. rewrite !Z.testbit_mod_pow2 by lia.
      destruct (Z_lt_le_dec i n).
      - by rewrite (proj2 (Z.ltb_lt i n)), (proj2 (Z.ltb_lt i _)) by lia.
      - rewrite Hb by lia. by rewrite !andb_false_r. }
    apply Z.mod_pos_bound. lia.
  - split; [done|]. apply Z.lt_le_trans with (2 ^ (Z.log2 z + 1)).
    + destruct (decide (z = 0)) as [->|]; [done|].
      apply Z.log2_lt_pow2; lia.
    + apply Z.pow_le_mono_r; lia.
Qed.

Lemma word_testbit z i : word z -> 32 <= i -> Z.testbit z i = false.
Proof. intros Hz Hi. by apply (testbit_above z 32). Qed.

Lemma word_land_l a b : word a -> 0 <= b -> word (a &. b).
Proof.
  intros Ha Hb. split; [apply Z.land_nonneg; left; apply Ha|].
  apply bits_below; [lia | apply Z.land_nonneg; by right|].
  intros i Hi. by rewrite Z.land_spec, (word_testbit a).
Qed.
Lemma word_land a b : word a -> word b -> word (a &. b).
Proof. intros Ha Hb. apply word_land_l; [done | apply Hb]. Qed.
Lemma word_lor a b : word a -> word b -> word (a |. b).
Proof.
  intros Ha Hb. assert (0 <= a |. b) by (apply Z.lor_nonneg; split; apply Ha || apply Hb).
  split; [done|]. apply bits_below; [lia | done|].
  intros i Hi. by rewrite Z.lor_spec, !word_testbit.
Qed.
Lemma word_lxor a b : word a -> word b -> word (a ^. b).
Proof.
  intros Ha Hb. assert (0 <= a ^. b).
  { apply Z.lxor_nonneg. pose proof (word_nonneg a Ha). pose proof (word_nonneg b Hb). lia. }
  split; [done|]. apply bits_below; [lia | done|].
  intros i Hi. by rewrite Z.lxor_spec, !word_testbit.
Qed.
Lemma word_shiftr a n : word a -> 0 <= n -> word (a >>. n).
Proof.
  intros Ha Hn. rewrite Z.shiftr_div_pow2 by done. unfold word in *.
  split; [apply Z.div_pos; lia|]. apply Z.div_lt_upper_bound; [lia|]. nia.
Qed.
Lemma word_if (b : bool) x y : word x -> word y -> word (if b then x else y).
Proof. by destruct b. Qed.

#[export] Hint Resolve word_u32 word_land word_lor word_lxor word_if : word.
#[export] Hint Extern 1 (word (Zpos _)) => split; [lia | reflexivity] : word.
#[export] Hint Extern 1 (word 0) => split; [lia | reflexivity] : word.

(** ** Exhaustive checks over 16 bits *)

Definition all16 (P : Z -> bool) : bool :=
  forallb (fun h => forallb (fun l => P (256 * h + l)) (seqZ 0 256)) (seqZ 0 256).

Lemma all16_spec P c : all16 P = true -> 0 <= c < 2 ^ 16 -> P c = true.
Proof.
  unfold all16. rewrite forallb_forall. intros H Hc.
  pose proof (Z.div_mod c 256 ltac:(lia)) as E.
  rewrite E. assert (In (c / 256) (seqZ 0 256)) as Hh.
  { apply list_elem_of_In, elem_of_seqZ. div_lia. }
  specialize (H _ Hh). rewrite forallb_forall in H. apply H.
  apply list_elem_of_In, elem_of_seqZ. div_lia.
Qed.
