(* ===== verification/Decode.v ===== *)
(** * Instruction decoder (src/rv32emu/src/decode.h, decode.c)

    [rv_insn] is the intermediate representation the decoder fills in;
    [rv_decode] is the decoder, with one definition per [op_*] handler and
    per field or immediate extractor of decode.c.  Every handler takes the
    representation and the instruction word and returns the representation
    it leaves behind together with its boolean result.

    The build enables every extension of decode.c and, through [EXT_TT], the
    Tensix instruction space; [ext_tt] is the value of that switch (the
    compressed map is reachable only when it is off). *)

From Stdlib Require Import ZArith Lia Bool.
From stdpp Require Import base list numbers.
From S2P Require Import Prelude.

(** ** Opcodes *)

Inductive insn_op : Type :=
  | rv_insn_nop | rv_insn_lui | rv_insn_auipc | rv_insn_jal | rv_insn_jalr
  | rv_insn_beq | rv_insn_bne | rv_insn_blt | rv_insn_bge | rv_insn_bltu
  | rv_insn_bgeu | rv_insn_lb | rv_insn_lh | rv_insn_lw | rv_insn_lbu
  | rv_insn_lhu | rv_insn_sb | rv_insn_sh | rv_insn_sw | rv_insn_addi
  | rv_insn_slti | rv_insn_sltiu | rv_insn_xori | rv_insn_ori | rv_insn_andi
  | rv_insn_slli | rv_insn_srli | rv_insn_srai | rv_insn_add | rv_insn_sub
  | rv_insn_sll | rv_insn_slt | rv_insn_sltu | rv_insn_xor | rv_insn_srl
  | rv_insn_sra | rv_insn_or | rv_insn_and | rv_insn_fence | rv_insn_ecall
  | rv_insn_ebreak | rv_insn_wfi | rv_insn_uret | rv_insn_hret | rv_insn_mret
  | rv_insn_sfencevma | rv_insn_fencei | rv_insn_csrrw | rv_insn_csrrs
  | rv_insn_csrrc | rv_insn_csrrwi | rv_insn_csrrsi | rv_insn_csrrci
  | rv_insn_sh1add | rv_insn_sh2add | rv_insn_sh3add | rv_insn_andn
  | rv_insn_orn | rv_insn_xnor | rv_insn_clz | rv_insn_ctz | rv_insn_cpop
  | rv_insn_max | rv_insn_maxu | rv_insn_min | rv_insn_minu | rv_insn_sextb
  | rv_insn_sexth | rv_insn_zexth | rv_insn_rol | rv_insn_ror | rv_insn_rori
  | rv_insn_orcb | rv_insn_rev8 | rv_insn_clmul | rv_insn_clmulh
  | rv_insn_clmulr | rv_insn_bclr | rv_insn_bclri | rv_insn_bext
  | rv_insn_bexti | rv_insn_binv | rv_insn_binvi | rv_insn_bset
  | rv_insn_bseti | rv_insn_mul | rv_insn_mulh | rv_insn_mulhsu
  | rv_insn_mulhu | rv_insn_div | rv_insn_divu | rv_insn_rem | rv_insn_remu
  | rv_insn_lrw | rv_insn_scw | rv_insn_amoswapw | rv_insn_amoaddw
  | rv_insn_amoxorw | rv_insn_amoandw | rv_insn_amoorw | rv_insn_amominw
  | rv_insn_amomaxw | rv_insn_amominuw | rv_insn_amomaxuw | rv_insn_flw
  | rv_insn_fsw | rv_insn_fmadds | rv_insn_fmsubs | rv_insn_fnmsubs
  | rv_insn_fnmadds | rv_insn_fadds | rv_insn_fsubs | rv_insn_fmuls
  | rv_insn_fdivs | rv_insn_fsqrts | rv_insn_fsgnjs | rv_insn_fsgnjns
  | rv_insn_fsgnjxs | rv_insn_fmins | rv_insn_fmaxs | rv_insn_fcvtws
  | rv_insn_fcvtwus | rv_insn_fmvxw | rv_insn_feqs | rv_insn_flts
  | rv_insn_fles | rv_insn_fclasss | rv_insn_fcvtsw | rv_insn_fcvtswu
  | rv_insn_fmvwx | rv_insn_caddi4spn | rv_insn_clw | rv_insn_csw
  | rv_insn_cnop | rv_insn_caddi | rv_insn_cjal | rv_insn_cli
  | rv_insn_caddi16sp | rv_insn_clui | rv_insn_csrli | rv_insn_csrai
  | rv_insn_candi | rv_insn_csub | rv_insn_cxor | rv_insn_cor | rv_insn_cand
  | rv_insn_cj | rv_insn_cbeqz | rv_insn_cbnez | rv_insn_cslli
  | rv_insn_clwsp | rv_insn_cjr | rv_insn_cmv | rv_insn_cebreak
  | rv_insn_cjalr | rv_insn_cadd | rv_insn_cswsp | rv_insn_cflwsp
  | rv_insn_cfswsp | rv_insn_cflw | rv_insn_cfsw | rv_insn_ttinsn
  | rv_insn_fuse1 | rv_insn_fuse2 | rv_insn_fuse3 | rv_insn_fuse4 | rv_insn_fuse5.

(** The opcodes in the order of the C enum, which numbers them from 0. *)
Definition insn_ops : list insn_op := [
  rv_insn_nop; rv_insn_lui; rv_insn_auipc; rv_insn_jal; rv_insn_jalr;
  rv_insn_beq; rv_insn_bne; rv_insn_blt; rv_insn_bge; rv_insn_bltu;
  rv_insn_bgeu; rv_insn_lb; rv_insn_lh; rv_insn_lw; rv_insn_lbu; rv_insn_lhu;
  rv_insn_sb; rv_insn_sh; rv_insn_sw; rv_insn_addi; rv_insn_slti;
  rv_insn_sltiu; rv_insn_xori; rv_insn_ori; rv_insn_andi; rv_insn_slli;
  rv_insn_srli; rv_insn_srai; rv_insn_add; rv_insn_sub; rv_insn_sll;
  rv_insn_slt; rv_insn_sltu; rv_insn_xor; rv_insn_srl; rv_insn_sra;
  rv_insn_or; rv_insn_and; rv_insn_fence; rv_insn_ecall; rv_insn_ebreak;
  rv_insn_wfi; rv_insn_uret; rv_insn_hret; rv_insn_mret; rv_insn_sfencevma;
  rv_insn_fencei; rv_insn_csrrw; rv_insn_csrrs; rv_insn_csrrc;
  rv_insn_csrrwi; rv_insn_csrrsi; rv_insn_csrrci; rv_insn_sh1add;
  rv_insn_sh2add; rv_insn_sh3add; rv_insn_andn; rv_insn_orn; rv_insn_xnor;
  rv_insn_clz; rv_insn_ctz; rv_insn_cpop; rv_insn_max; rv_insn_maxu;
  rv_insn_min; rv_insn_minu; rv_insn_sextb; rv_insn_sexth; rv_insn_zexth;
  rv_insn_rol; rv_insn_ror; rv_insn_rori; rv_insn_orcb; rv_insn_rev8;
  rv_insn_clmul; rv_insn_clmulh; rv_insn_clmulr; rv_insn_bclr; rv_insn_bclri;
  rv_insn_bext; rv_insn_bexti; rv_insn_binv; rv_insn_binvi; rv_insn_bset;
  rv_insn_bseti; rv_insn_mul; rv_insn_mulh; rv_insn_mulhsu; rv_insn_mulhu;
  rv_insn_div; rv_insn_divu; rv_insn_rem; rv_insn_remu; rv_insn_lrw;
  rv_insn_scw; rv_insn_amoswapw; rv_insn_amoaddw; rv_insn_amoxorw;
  rv_insn_amoandw; rv_insn_amoorw; rv_insn_amominw; rv_insn_amomaxw;
  rv_insn_amominuw; rv_insn_amomaxuw; rv_insn_flw; rv_insn_fsw;
  rv_insn_fmadds; rv_insn_fmsubs; rv_insn_fnmsubs; rv_insn_fnmadds;
  rv_insn_fadds; rv_insn_fsubs; rv_insn_fmuls; rv_insn_fdivs; rv_insn_fsqrts;
  rv_insn_fsgnjs; rv_insn_fsgnjns; rv_insn_fsgnjxs; rv_insn_fmins;
  rv_insn_fmaxs; rv_insn_fcvtws; rv_insn_fcvtwus; rv_insn_fmvxw;
  rv_insn_feqs; rv_insn_flts; rv_insn_fles; rv_insn_fclasss; rv_insn_fcvtsw;
  rv_insn_fcvtswu; rv_insn_fmvwx; rv_insn_caddi4spn; rv_insn_clw;
  rv_insn_csw; rv_insn_cnop; rv_insn_caddi; rv_insn_cjal; rv_insn_cli;
  rv_insn_caddi16sp; rv_insn_clui; rv_insn_csrli; rv_insn_csrai;
  rv_insn_candi; rv_insn_csub; rv_insn_cxor; rv_insn_cor; rv_insn_cand;
  rv_insn_cj; rv_insn_cbeqz; rv_insn_cbnez; rv_insn_cslli; rv_insn_clwsp;
  rv_insn_cjr; rv_insn_cmv; rv_insn_cebreak; rv_insn_cjalr; rv_insn_cadd;
  rv_insn_cswsp; rv_insn_cflwsp; rv_insn_cfswsp; rv_insn_cflw; rv_insn_cfsw;
  rv_insn_ttinsn; rv_insn_fuse1; rv_insn_fuse2; rv_insn_fuse3; rv_insn_fuse4;
  rv_insn_fuse5
].

(** The number the C enum gives an opcode. *)
Definition insn_num (o : insn_op) : nat :=
  (match o with
  | rv_insn_nop => 0 | rv_insn_lui => 1 | rv_insn_auipc => 2
  | rv_insn_jal => 3 | rv_insn_jalr => 4 | rv_insn_beq => 5
  | rv_insn_bne => 6 | rv_insn_blt => 7 | rv_insn_bge => 8
  | rv_insn_bltu => 9 | rv_insn_bgeu => 10 | rv_insn_lb => 11
  | rv_insn_lh => 12 | rv_insn_lw => 13 | rv_insn_lbu => 14
  | rv_insn_lhu => 15 | rv_insn_sb => 16 | rv_insn_sh => 17
  | rv_insn_sw => 18 | rv_insn_addi => 19 | rv_insn_slti => 20
  | rv_insn_sltiu => 21 | rv_insn_xori => 22 | rv_insn_ori => 23
  | rv_insn_andi => 24 | rv_insn_slli => 25 | rv_insn_srli => 26
  | rv_insn_srai => 27 | rv_insn_add => 28 | rv_insn_sub => 29
  | rv_insn_sll => 30 | rv_insn_slt => 31 | rv_insn_sltu => 32
  | rv_insn_xor => 33 | rv_insn_srl => 34 | rv_insn_sra => 35
  | rv_insn_or => 36 | rv_insn_and => 37 | rv_insn_fence => 38
  | rv_insn_ecall => 39 | rv_insn_ebreak => 40 | rv_insn_wfi => 41
  | rv_insn_uret => 42 | rv_insn_hret => 43 | rv_insn_mret => 44
  | rv_insn_sfencevma => 45 | rv_insn_fencei => 46 | rv_insn_csrrw => 47
  | rv_insn_csrrs => 48 | rv_insn_csrrc => 49 | rv_insn_csrrwi => 50
  | rv_insn_csrrsi => 51 | rv_insn_csrrci => 52 | rv_insn_sh1add => 53
  | rv_insn_sh2add => 54 | rv_insn_sh3add => 55 | rv_insn_andn => 56
  | rv_insn_orn => 57 | rv_insn_xnor => 58 | rv_insn_clz => 59
  | rv_insn_ctz => 60 | rv_insn_cpop => 61 | rv_insn_max => 62
  | rv_insn_maxu => 63 | rv_insn_min => 64 | rv_insn_minu => 65
  | rv_insn_sextb => 66 | rv_insn_sexth => 67 | rv_insn_zexth => 68
  | rv_insn_rol => 69 | rv_insn_ror => 70 | rv_insn_rori => 71
  | rv_insn_orcb => 72 | rv_insn_rev8 => 73 | rv_insn_clmul => 74
  | rv_insn_clmulh => 75 | rv_insn_clmulr => 76 | rv_insn_bclr => 77
  | rv_insn_bclri => 78 | rv_insn_bext => 79 | rv_insn_bexti => 80
  | rv_insn_binv => 81 | rv_insn_binvi => 82 | rv_insn_bset => 83
  | rv_insn_bseti => 84 | rv_insn_mul => 85 | rv_insn_mulh => 86
  | rv_insn_mulhsu => 87 | rv_insn_mulhu => 88 | rv_insn_div => 89
  | rv_insn_divu => 90 | rv_insn_rem => 91 | rv_insn_remu => 92
  | rv_insn_lrw => 93 | rv_insn_scw => 94 | rv_insn_amoswapw => 95
  | rv_insn_amoaddw => 96 | rv_insn_amoxorw => 97 | rv_insn_amoandw => 98
  | rv_insn_amoorw => 99 | rv_insn_amominw => 100 | rv_insn_amomaxw => 101
  | rv_insn_amominuw => 102 | rv_insn_amomaxuw => 103 | rv_insn_flw => 104
  | rv_insn_fsw => 105 | rv_insn_fmadds => 106 | rv_insn_fmsubs => 107
  | rv_insn_fnmsubs => 108 | rv_insn_fnmadds => 109 | rv_insn_fadds => 110
  | rv_insn_fsubs => 111 | rv_insn_fmuls => 112 | rv_insn_fdivs => 113
  | rv_insn_fsqrts => 114 | rv_insn_fsgnjs => 115 | rv_insn_fsgnjns => 116
  | rv_insn_fsgnjxs => 117 | rv_insn_fmins => 118 | rv_insn_fmaxs => 119
  | rv_insn_fcvtws => 120 | rv_insn_fcvtwus => 121 | rv_insn_fmvxw => 122
  | rv_insn_feqs => 123 | rv_insn_flts => 124 | rv_insn_fles => 125
  | rv_insn_fclasss => 126 | rv_insn_fcvtsw => 127 | rv_insn_fcvtswu => 128
  | rv_insn_fmvwx => 129 | rv_insn_caddi4spn => 130 | rv_insn_clw => 131
  | rv_insn_csw => 132 | rv_insn_cnop => 133 | rv_insn_caddi => 134
  | rv_insn_cjal => 135 | rv_insn_cli => 136 | rv_insn_caddi16sp => 137
  | rv_insn_clui => 138 | rv_insn_csrli => 139 | rv_insn_csrai => 140
  | rv_insn_candi => 141 | rv_insn_csub => 142 | rv_insn_cxor => 143
  | rv_insn_cor => 144 | rv_insn_cand => 145 | rv_insn_cj => 146
  | rv_insn_cbeqz => 147 | rv_insn_cbnez => 148 | rv_insn_cslli => 149
  | rv_insn_clwsp => 150 | rv_insn_cjr => 151 | rv_insn_cmv => 152
  | rv_insn_cebreak => 153 | rv_insn_cjalr => 154 | rv_insn_cadd => 155
  | rv_insn_cswsp => 156 | rv_insn_cflwsp => 157 | rv_insn_cfswsp => 158
  | rv_insn_cflw => 159 | rv_insn_cfsw => 160 | rv_insn_ttinsn => 161
  | rv_insn_fuse1 => 162 | rv_insn_fuse2 => 163 | rv_insn_fuse3 => 164
  | rv_insn_fuse4 => 165 | rv_insn_fuse5 => 166
  end)%nat.

Lemma insn_ops_num o : insn_ops !! insn_num o = Some o.
Proof. by destruct o. Qed.

#[export] Instance insn_num_inj : Inj (=) (=) insn_num.
Proof.
  intros o1 o2 E. pose proof (insn_ops_num o1) as H1.
  rewrite E, insn_ops_num in H1. congruence.
Qed.

#[export] Instance insn_op_eq_dec : EqDecision insn_op.
Proof.
  intros o1 o2. destruct (decide (insn_num o1 = insn_num o2)) as [E|E].
  - left. by apply (inj insn_num).
  - right. by intros ->.
Defined.

(** The second column of [RV_INSN_LIST]: may the instruction change the
    control flow (it then ends a basic block). *)
Definition insn_can_branch (o : insn_op) : bool :=
  match o with
  | rv_insn_jal | rv_insn_jalr | rv_insn_beq | rv_insn_bne | rv_insn_blt
  | rv_insn_bge | rv_insn_bltu | rv_insn_bgeu | rv_insn_fence | rv_insn_ecall
  | rv_insn_ebreak | rv_insn_mret | rv_insn_sfencevma | rv_insn_fencei
  | rv_insn_csrrw | rv_insn_cjal | rv_insn_cj | rv_insn_cbeqz | rv_insn_cbnez
  | rv_insn_cjr | rv_insn_cebreak | rv_insn_cjalr => true
  | _ => false
  end.

(** The third column: the length of the instruction in bytes. *)
Definition insn_len (o : insn_op) : Z :=
  match o with
  | rv_insn_caddi4spn | rv_insn_clw | rv_insn_csw | rv_insn_cnop
  | rv_insn_caddi | rv_insn_cjal | rv_insn_cli | rv_insn_caddi16sp
  | rv_insn_clui | rv_insn_csrli | rv_insn_csrai | rv_insn_candi
  | rv_insn_csub | rv_insn_cxor | rv_insn_cor | rv_insn_cand | rv_insn_cj
  | rv_insn_cbeqz | rv_insn_cbnez | rv_insn_cslli | rv_insn_clwsp
  | rv_insn_cjr | rv_insn_cmv | rv_insn_cebreak | rv_insn_cjalr
  | rv_insn_cadd | rv_insn_cswsp | rv_insn_cflwsp | rv_insn_cfswsp
  | rv_insn_cflw | rv_insn_cfsw => 2
  | _ => 4
  end.

(** ** Decode masks (the anonymous enum of decode.h) *)

Definition INSN_6_2 : Z := 0x0000007c.
Definition FR_RD : Z := 0x00000f80.
Definition FR_FUNCT3 : Z := 0x00007000.
Definition FR_RS1 : Z := 0x000f8000.
Definition FR_RS2 : Z := 0x01f00000.
Definition FR_FUNCT7 : Z := 0xfe000000.
Definition FI_IMM_11_0 : Z := 0xfff00000.
Definition FS_IMM_4_0 : Z := 0x00000f80.
Definition FS_IMM_11_5 : Z := 0xfe000000.
Definition FB_IMM_11 : Z := 0x00000080.
Definition FB_IMM_4_1 : Z := 0x00000f00.
Definition FB_IMM_10_5 : Z := 0x7e000000.
Definition FB_IMM_12 : Z := 0x80000000.
Definition FU_IMM_31_12 : Z := 0xfffff000.
Definition FJ_IMM_19_12 : Z := 0x000ff000.
Definition FJ_IMM_11 : Z := 0x00100000.
Definition FJ_IMM_10_1 : Z := 0x7fe00000.
Definition FJ_IMM_20 : Z := 0x80000000.
Definition FR4_RS3 : Z := 0xf8000000.
Definition FC_OPCODE : Z := 0x3.
Definition FC_FUNC3 : Z := 0xe000.
Definition FC_RS1C : Z := 0x380.
Definition FC_RS2C : Z := 0x1c.
Definition FC_RS1 : Z := 0xf80.
Definition FC_RS2 : Z := 0x7c.
Definition FC_RDC : Z := 0x1c.
Definition FC_RD : Z := 0xf80.
Definition FC_IMM_12_10 : Z := 0x1c00.
Definition FCI_IMM_12 : Z := 0x1000.
Definition FCI_IMM_6_2 : Z := 0x7c.

(** ** The intermediate representation

    [opcode_fuse] and [rv_insn] are the structures of the same names.  [imm]
    is the member of the union that is an [int32_t]; [rs3], its other view,
    is the low byte of [imm].  A block is a list of [rv_insn], so the [next]
    pointer is the list's tail; [branch_taken] and [branch_untaken] name the
    block they point at by its start address, and [branch_table] is the
    history of an indirect jump. *)

Record opcode_fuse : Type := mk_fuse {
  f_imm : Z; f_rd : Z; f_rs1 : Z; f_rs2 : Z; f_opcode : insn_op
}.

Definition HISTORY_SIZE : Z := 16.

Record branch_history_table : Type := mk_bht {
  bt_PC : list Z; bt_idx : Z; bt_target : list (option Z)
}.

(** The values of the [impl] function pointer: the entry of the dispatch
    table for an opcode, or the handler of loads from the mailbox window. *)
Inductive handler : Type :=
  | do_op (o : insn_op)
  | do_lw_mailbox_impl.

Record rv_insn : Type := mk_rv_insn {
  imm : Z; rd : Z; rs1 : Z; rs2 : Z;
  opcode : insn_op; shamt : Z; rm : Z;
  imm2 : Z; fuse : list opcode_fuse; insn_pc : Z;
  impl : handler;
  branch_taken : option Z; branch_untaken : option Z;
  branch_table : option branch_history_table
}.

Definition ir_set_imm (ir : rv_insn) v : rv_insn :=
  mk_rv_insn v ir.(rd) ir.(rs1) ir.(rs2) ir.(opcode) ir.(shamt) ir.(rm)
    ir.(imm2) ir.(fuse) ir.(insn_pc) ir.(impl) ir.(branch_taken)
    ir.(branch_untaken) ir.(branch_table).
Definition ir_set_rd (ir : rv_insn) v : rv_insn :=
  mk_rv_insn ir.(imm) v ir.(rs1) ir.(rs2) ir.(opcode) ir.(shamt) ir.(rm)
    ir.(imm2) ir.(fuse) ir.(insn_pc) ir.(impl) ir.(branch_taken)
    ir.(branch_untaken) ir.(branch_table).
Definition ir_set_rs1 (ir : rv_insn) v : rv_insn :=
  mk_rv_insn ir.(imm) ir.(rd) v ir.(rs2) ir.(opcode) ir.(shamt) ir.(rm)
    ir.(imm2) ir.(fuse) ir.(insn_pc) ir.(impl) ir.(branch_taken)
    ir.(branch_untaken) ir.(branch_table).
Definition ir_set_rs2 (ir : rv_insn) v : rv_insn :=
  mk_rv_insn ir.(imm) ir.(rd) ir.(rs1) v ir.(opcode) ir.(shamt) ir.(rm)
    ir.(imm2) ir.(fuse) ir.(insn_pc) ir.(impl) ir.(branch_taken)
    ir.(branch_untaken) ir.(branch_table).
Definition ir_set_opcode (ir : rv_insn) v : rv_insn :=
  mk_rv_insn ir.(imm) ir.(rd) ir.(rs1) ir.(rs2) v ir.(shamt) ir.(rm)
    ir.(imm2) ir.(fuse) ir.(insn_pc) ir.(impl) ir.(branch_taken)
    ir.(branch_untaken) ir.(branch_table).
Definition ir_set_shamt (ir : rv_insn) v : rv_insn :=
  mk_rv_insn ir.(imm) ir.(rd) ir.(rs1) ir.(rs2) ir.(opcode) v ir.(rm)
    ir.(imm2) ir.(fuse) ir.(insn_pc) ir.(impl) ir.(branch_taken)
    ir.(branch_untaken) ir.(branch_table).
Definition ir_set_rm (ir : rv_insn) v : rv_insn :=
  mk_rv_insn ir.(imm) ir.(rd) ir.(rs1) ir.(rs2) ir.(opcode) ir.(shamt) v
    ir.(imm2) ir.(fuse) ir.(insn_pc) ir.(impl) ir.(branch_taken)
    ir.(branch_untaken) ir.(branch_table).
Definition ir_set_imm2 (ir : rv_insn) v : rv_insn :=
  mk_rv_insn ir.(imm) ir.(rd) ir.(rs1) ir.(rs2) ir.(opcode) ir.(shamt)
    ir.(rm) v ir.(fuse) ir.(insn_pc) ir.(impl) ir.(branch_taken)
    ir.(branch_untaken) ir.(branch_table).
Definition ir_set_fuse (ir : rv_insn) v : rv_insn :=
  mk_rv_insn ir.(imm) ir.(rd) ir.(rs1) ir.(rs2) ir.(opcode) ir.(shamt)
    ir.(rm) ir.(imm2) v ir.(insn_pc) ir.(impl) ir.(branch_taken)
    ir.(branch_untaken) ir.(branch_table).
Definition ir_set_insn_pc (ir : rv_insn) v : rv_insn :=
  mk_rv_insn ir.(imm) ir.(rd) ir.(rs1) ir.(rs2) ir.(opcode) ir.(shamt)
    ir.(rm) ir.(imm2) ir.(fuse) v ir.(impl) ir.(branch_taken)
    ir.(branch_untaken) ir.(branch_table).
Definition ir_set_impl (ir : rv_insn) v : rv_insn :=
  mk_rv_insn ir.(imm) ir.(rd) ir.(rs1) ir.(rs2) ir.(opcode) ir.(shamt)
    ir.(rm) ir.(imm2) ir.(fuse) ir.(insn_pc) v ir.(branch_taken)
    ir.(branch_untaken) ir.(branch_table).
Definition ir_set_branch_taken (ir : rv_insn) v : rv_insn :=
  mk_rv_insn ir.(imm) ir.(rd) ir.(rs1) ir.(rs2) ir.(opcode) ir.(shamt)
    ir.(rm) ir.(imm2) ir.(fuse) ir.(insn_pc) ir.(impl) v ir.(branch_untaken)
    ir.(branch_table).
Definition ir_set_branch_untaken (ir : rv_insn) v : rv_insn :=
  mk_rv_insn ir.(imm) ir.(rd) ir.(rs1) ir.(rs2) ir.(opcode) ir.(shamt)
    ir.(rm) ir.(imm2) ir.(fuse) ir.(insn_pc) ir.(impl) ir.(branch_taken) v
    ir.(branch_table).
Definition ir_set_branch_table (ir : rv_insn) v : rv_insn :=
  mk_rv_insn ir.(imm) ir.(rd) ir.(rs1) ir.(rs2) ir.(opcode) ir.(shamt)
    ir.(rm) ir.(imm2) ir.(fuse) ir.(insn_pc) ir.(impl) ir.(branch_taken)
    ir.(branch_untaken) v.

(** A zero-initialised representation ([mpool_calloc]). *)
Definition rv_insn0 : rv_insn :=
  mk_rv_insn 0 0 0 0 rv_insn_nop 0 0 0 [] 0 (do_op rv_insn_nop) None None None.

(** The [rs3] member of the union shares the low byte of [imm]. *)
Definition rs3 (ir : rv_insn) : Z := ir.(imm) &. 0xff.
Definition ir_set_rs3 (ir : rv_insn) (v : Z) : rv_insn :=
  ir_set_imm ir (s32 (u32 (ir.(imm)) &. 0xffffff00 |. u8 v)).

(** ** Field extraction *)

Definition decode_rd (insn : Z) : Z := (insn &. FR_RD) >>. 7.
Definition decode_rs1 (insn : Z) : Z := (insn &. FR_RS1) >>. 15.
Definition decode_rs2 (insn : Z) : Z := (insn &. FR_RS2) >>. 20.
Definition decode_funct3 (insn : Z) : Z := (insn &. FR_FUNCT3) >>. 12.
Definition decode_funct7 (insn : Z) : Z := (insn &. FR_FUNCT7) >>. 25.
Definition decode_utype_imm (insn : Z) : Z := insn &. FU_IMM_31_12.

Definition decode_jtype_imm (insn : Z) : Z :=
  let dst := 0 in
  let dst := dst |. (insn &. FJ_IMM_20) in
  let dst := dst |. u32 ((insn &. FJ_IMM_19_12) <<. 11) in
  let dst := dst |. u32 ((insn &. FJ_IMM_11) <<. 2) in
  let dst := dst |. ((insn &. FJ_IMM_10_1) >>. 9) in
  s32 dst >>. 11.

Definition decode_itype_imm (insn : Z) : Z := s32 (insn &. FI_IMM_11_0) >>. 20.

Definition decode_btype_imm (insn : Z) : Z :=
  let dst := 0 in
  let dst := dst |. (insn &. FB_IMM_12) in
  let dst := dst |. u32 ((insn &. FB_IMM_11) <<. 23) in
  let dst := dst |. ((insn &. FB_IMM_10_5) >>. 1) in
  let dst := dst |. u32 ((insn &. FB_IMM_4_1) <<. 12) in
  s32 dst >>. 19.

Definition decode_stype_imm (insn : Z) : Z :=
  let dst := 0 in
  let dst := dst |. (insn &. FS_IMM_11_5) in
  let dst := dst |. u32 ((insn &. FS_IMM_4_0) <<. 13) in
  s32 dst >>. 20.

Definition decode_r4type_rs3 (insn : Z) : Z := (insn &. FR4_RS3) >>. 27.

(** Sign extension of the low half word or byte (riscv_private.h). *)
Definition sign_extend_h (x : Z) : Z := u32 (s16 x).
Definition sign_extend_b (x : Z) : Z := u32 (s8 x).

(** *** Compressed instructions: [insn] is a [uint16_t] *)

Definition c_decode_rs1 (insn : Z) : Z := u16 ((insn &. FC_RS1) >>. 7).
Definition c_decode_rs2 (insn : Z) : Z := u16 ((insn &. FC_RS2) >>. 2).
Definition c_decode_rd (insn : Z) : Z := u16 ((insn &. FC_RD) >>. 7).
Definition c_decode_rs1c (insn : Z) : Z := u16 ((insn &. FC_RS1C) >>. 7).
Definition c_decode_rs2c (insn : Z) : Z := u16 ((insn &. FC_RS2C) >>. 2).
Definition c_decode_rdc (insn : Z) : Z := u16 ((insn &. FC_RDC) >>. 2).

Definition c_decode_caddi4spn_nzuimm (insn : Z) : Z :=
  let tmp := 0 in
  let tmp := u16 (tmp |. ((insn &. 0x1800) >>. 7)) in
  let tmp := u16 (tmp |. ((insn &. 0x780) >>. 1)) in
  let tmp := u16 (tmp |. ((insn &. 0x40) >>. 4)) in
  u16 (tmp |. ((insn &. 0x20) >>. 2)).

Definition c_decode_caddi16sp_nzimm (insn : Z) : Z :=
  let tmp := (insn &. 0x1000) >>. 3 in
  let tmp := tmp |. ((insn &. 0x40) >>. 2) in
  let tmp := tmp |. ((insn &. 0x20) <<. 1) in
  let tmp := tmp |. ((insn &. 0x18) <<. 4) in
  let tmp := tmp |. ((insn &. 0x4) <<. 3) in
  s32 (if nz (tmp &. 0x200) then 0xfffffc00 |. u32 tmp else u32 tmp).

Definition c_decode_clui_nzimm (insn : Z) : Z :=
  let tmp := u32 (((insn &. 0x1000) <<. 5) |. ((insn &. 0x7c) <<. 10)) in
  if nz (tmp &. 0x20000) then 0xfffc0000 |. tmp else tmp.

(** The loop [for (i = 0; i <= 10; ++i) tmp |= (mask >> i)]. *)
Definition c_decode_caddi_imm (insn : Z) : Z :=
  let mask := u16 ((0x1000 &. insn) <<. 3) in
  let tmp := fold_left (fun tmp i => tmp |. (mask >>. i)) (seqZ 0 11) 0 in
  let tmp := tmp |. ((insn &. 0x007C) >>. 2) in
  s32 (sign_extend_h (u32 tmp)).

Definition c_decode_citype_imm (insn : Z) : Z :=
  let tmp := ((insn &. FCI_IMM_12) >>. 7) |. ((insn &. FCI_IMM_6_2) >>. 2) in
  if nz (tmp &. 0x20) then s32 (0xffffffc0 |. tmp) else s32 tmp.

Definition CJ_IMM_11 : Z := 0x1000.
Definition CJ_IMM_4 : Z := 0x0800.
Definition CJ_IMM_9_8 : Z := 0x0600.
Definition CJ_IMM_10 : Z := 0x0100.
Definition CJ_IMM_6 : Z := 0x0080.
Definition CJ_IMM_7 : Z := 0x0040.
Definition CJ_IMM_3_1 : Z := 0x0038.
Definition CJ_IMM_5 : Z := 0x0004.
Definition CB_SHAMT_5 : Z := 0x1000.
Definition CB_SHAMT_4_0 : Z := 0x007c.

Definition c_decode_cjtype_imm (insn : Z) : Z :=
  let tmp := 0 in
  let tmp := u16 (tmp |. ((insn &. CJ_IMM_3_1) >>. 2)) in
  let tmp := u16 (tmp |. ((insn &. CJ_IMM_4) >>. 7)) in
  let tmp := u16 (tmp |. ((insn &. CJ_IMM_5) <<. 3)) in
  let tmp := u16 (tmp |. ((insn &. CJ_IMM_6) >>. 1)) in
  let tmp := u16 (tmp |. ((insn &. CJ_IMM_7) <<. 1)) in
  let tmp := u16 (tmp |. ((insn &. CJ_IMM_9_8) >>. 1)) in
  let tmp := u16 (tmp |. ((insn &. CJ_IMM_10) <<. 2)) in
  let tmp := u16 (tmp |. ((insn &. CJ_IMM_11) >>. 1)) in
  let tmp :=
    fold_left (fun tmp i => u16 (tmp |. ((0x0800 &. tmp) <<. i))) (seqZ 1 4) tmp in
  s16 tmp.

Definition c_decode_cbtype_shamt (insn : Z) : Z :=
  let tmp := 0 in
  let tmp := u8 (tmp |. ((insn &. CB_SHAMT_5) >>. 7)) in
  u8 (tmp |. ((insn &. CB_SHAMT_4_0) >>. 2)).

Definition c_decode_cbtype_imm (insn : Z) : Z :=
  let tmp := 0 in
  let tmp := u16 (tmp |. ((insn &. 0x0018) >>. 2)) in
  let tmp := u16 (tmp |. ((insn &. 0x0c00) >>. 7)) in
  let tmp := u16 (tmp |. ((insn &. 0x0004) <<. 3)) in
  let tmp := u16 (tmp |. ((insn &. 0x0060) <<. 1)) in
  let tmp := u16 (tmp |. ((insn &. 0x1000) >>. 4)) in
  fold_left (fun tmp i => u16 (tmp |. ((0x0100 &. tmp) <<. i))) (seqZ 1 8) tmp.

(** ** Formats *)

Definition decode_itype (ir : rv_insn) (insn : Z) : rv_insn :=
  let ir := ir_set_imm ir (decode_itype_imm insn) in
  let ir := ir_set_rs1 ir (u8 (decode_rs1 insn)) in
  ir_set_rd ir (u8 (decode_rd insn)).

Definition decode_utype (ir : rv_insn) (insn : Z) : rv_insn :=
  let ir := ir_set_imm ir (s32 (decode_utype_imm insn)) in
  ir_set_rd ir (u8 (decode_rd insn)).

Definition decode_stype (ir : rv_insn) (insn : Z) : rv_insn :=
  let ir := ir_set_imm ir (decode_stype_imm insn) in
  let ir := ir_set_rs2 ir (u8 (decode_rs2 insn)) in
  ir_set_rs1 ir (u8 (decode_rs1 insn)).

Definition decode_rtype (ir : rv_insn) (insn : Z) : rv_insn :=
  let ir := ir_set_rs2 ir (u8 (decode_rs2 insn)) in
  let ir := ir_set_rs1 ir (u8 (decode_rs1 insn)) in
  ir_set_rd ir (u8 (decode_rd insn)).

Definition decode_btype (ir : rv_insn) (insn : Z) : rv_insn :=
  let ir := ir_set_imm ir (decode_btype_imm insn) in
  let ir := ir_set_rs2 ir (u8 (decode_rs2 insn)) in
  ir_set_rs1 ir (u8 (decode_rs1 insn)).

Definition decode_jtype (ir : rv_insn) (insn : Z) : rv_insn :=
  let ir := ir_set_imm ir (decode_jtype_imm insn) in
  ir_set_rd ir (u8 (decode_rd insn)).

Definition decode_r4type (ir : rv_insn) (insn : Z) : rv_insn :=
  let ir := ir_set_rd ir (u8 (decode_rd insn)) in
  let ir := ir_set_rs1 ir (u8 (decode_rs1 insn)) in
  let ir := ir_set_rs2 ir (u8 (decode_rs2 insn)) in
  let ir := ir_set_rs3 ir (decode_r4type_rs3 insn) in
  ir_set_rm ir (u8 (decode_funct3 insn)).

(** ** Handlers of the base opcode map

    A handler returns the representation and its result; [ok] sets the
    opcode and succeeds, [bad] is the illegal-instruction exit. *)

Definition ok (ir : rv_insn) (o : insn_op) : rv_insn * bool :=
  (ir_set_opcode ir o, true).
Definition bad (ir : rv_insn) : rv_insn * bool := (ir, false).

Definition rv_reg_zero : Z := 0.
Definition rv_reg_ra : Z := 1.
Definition rv_reg_sp : Z := 2.

Definition op_load (ir : rv_insn) (insn : Z) : rv_insn * bool :=
  let ir := decode_itype ir insn in
  match decode_funct3 insn with
  | 0 => ok ir rv_insn_lb
  | 1 => ok ir rv_insn_lh
  | 2 => ok ir rv_insn_lw
  | 4 => ok ir rv_insn_lbu
  | 5 => ok ir rv_insn_lhu
  | _ => bad ir
  end.

Definition op_op_imm (ir : rv_insn) (insn : Z) : rv_insn * bool :=
  let ir := decode_itype ir insn in
  if ir.(rd) =? rv_reg_zero then ok ir rv_insn_nop else
  match decode_funct3 insn with
  | 0 => ok ir rv_insn_addi
  | 1 =>
      if ir.(imm) =? 0x600 then ok ir rv_insn_clz else
      if ir.(imm) =? 0x601 then ok ir rv_insn_ctz else
      if ir.(imm) =? 0x602 then ok ir rv_insn_cpop else
      if ir.(imm) =? 0x604 then ok ir rv_insn_sextb else
      if ir.(imm) =? 0x605 then ok ir rv_insn_sexth else
      if ir.(imm) >>. 5 =? 0x24 then ok ir rv_insn_bclri else
      if ir.(imm) >>. 5 =? 0x34 then ok ir rv_insn_binvi else
      if ir.(imm) >>. 5 =? 0x14 then ok ir rv_insn_bseti else
      let ir := ir_set_opcode ir rv_insn_slli in
      if nz (ir.(imm) &. (1 <<. 5)) then bad ir else (ir, true)
  | 2 => ok ir rv_insn_slti
  | 3 => ok ir rv_insn_sltiu
  | 4 => ok ir rv_insn_xori
  | 5 =>
      if ir.(imm) >>. 5 =? 0x30 then ok ir rv_insn_rori else
      if ir.(imm) =? 0x287 then ok ir rv_insn_orcb else
      if ir.(imm) =? 0x698 then ok ir rv_insn_rev8 else
      if ir.(imm) >>. 5 =? 0x24 then ok ir rv_insn_bexti else
      let ir := ir_set_opcode ir
        (if nz (ir.(imm) &. Z.lnot 0x1f) then rv_insn_srai else rv_insn_srli) in
      if nz (ir.(imm) &. (1 <<. 5)) then bad ir else (ir, true)
  | 6 => ok ir rv_insn_ori
  | 7 => ok ir rv_insn_andi
  | _ => bad ir
  end.

Definition op_auipc (ir : rv_insn) (insn : Z) : rv_insn * bool :=
  let ir := decode_utype ir insn in
  if ir.(rd) =? rv_reg_zero then ok ir rv_insn_nop else
  ok ir rv_insn_auipc.

Definition op_store (ir : rv_insn) (insn : Z) : rv_insn * bool :=
  let ir := decode_stype ir insn in
  match decode_funct3 insn with
  | 0 => ok ir rv_insn_sb
  | 1 => ok ir rv_insn_sh
  | 2 => ok ir rv_insn_sw
  | _ => bad ir
  end.

Definition op_op (ir : rv_insn) (insn : Z) : rv_insn * bool :=
  let ir := decode_rtype ir insn in
  if ir.(rd) =? rv_reg_zero then ok ir rv_insn_nop else
  let funct3 := u8 (decode_funct3 insn) in
  match decode_funct7 insn with
  | 0x00 =>
      match funct3 with
      | 0 => ok ir rv_insn_add
      | 1 => ok ir rv_insn_sll
      | 2 => ok ir rv_insn_slt
      | 3 => ok ir rv_insn_sltu
      | 4 => ok ir rv_insn_xor
      | 5 => ok ir rv_insn_srl
      | 6 => ok ir rv_insn_or
      | 7 => ok ir rv_insn_and
      | _ => bad ir
      end
  | 0x01 =>
      match funct3 with
      | 0 => ok ir rv_insn_mul
      | 1 => ok ir rv_insn_mulh
      | 2 => ok ir rv_insn_mulhsu
      | 3 => ok ir rv_insn_mulhu
      | 4 => ok ir rv_insn_div
      | 5 => ok ir rv_insn_divu
      | 6 => ok ir rv_insn_rem
      | 7 => ok ir rv_insn_remu
      | _ => bad ir
      end
  | 0x10 =>
      match funct3 with
      | 2 => ok ir rv_insn_sh1add
      | 4 => ok ir rv_insn_sh2add
      | 6 => ok ir rv_insn_sh3add
      | _ => bad ir
      end
  | 0x05 =>
      match funct3 with
      | 6 => ok ir rv_insn_max
      | 4 => ok ir rv_insn_min
      | 7 => ok ir rv_insn_maxu
      | 5 => ok ir rv_insn_minu
      | 1 => ok ir rv_insn_clmul
      | 3 => ok ir rv_insn_clmulh
      | 2 => ok ir rv_insn_clmulr
      | _ => bad ir
      end
  | 0x30 =>
      match funct3 with
      | 1 => ok ir rv_insn_rol
      | 5 => ok ir rv_insn_ror
      | _ => bad ir
      end
  | 0x04 => if nz ir.(rs2) then bad ir else ok ir rv_insn_zexth
  | 0x24 =>
      match funct3 with
      | 1 => ok ir rv_insn_bclr
      | 5 => ok ir rv_insn_bext
      | _ => bad ir
      end
  | 0x34 => if negb (funct3 =? 1) then bad ir else ok ir rv_insn_binv
  | 0x14 => if negb (funct3 =? 1) then bad ir else ok ir rv_insn_bset
  | 0x20 =>
      match funct3 with
      | 0 => ok ir rv_insn_sub
      | 5 => ok ir rv_insn_sra
      | 7 => ok ir rv_insn_andn
      | 6 => ok ir rv_insn_orn
      | 4 => ok ir rv_insn_xnor
      | _ => bad ir
      end
  | _ => bad ir
  end.

Definition op_lui (ir : rv_insn) (insn : Z) : rv_insn * bool :=
  let ir := decode_utype ir insn in
  if ir.(rd) =? rv_reg_zero then ok ir rv_insn_nop else
  ok ir rv_insn_lui.

Definition op_branch (ir : rv_insn) (insn : Z) : rv_insn * bool :=
  let ir := decode_btype ir insn in
  match decode_funct3 insn with
  | 0 => ok ir rv_insn_beq
  | 1 => ok ir rv_insn_bne
  | 4 => ok ir rv_insn_blt
  | 5 => ok ir rv_insn_bge
  | 6 => ok ir rv_insn_bltu
  | 7 => ok ir rv_insn_bgeu
  | _ => bad ir
  end.

Definition op_jalr (ir : rv_insn) (insn : Z) : rv_insn * bool :=
  ok (decode_itype ir insn) rv_insn_jalr.

Definition op_jal (ir : rv_insn) (insn : Z) : rv_insn * bool :=
  ok (decode_jtype ir insn) rv_insn_jal.

(** The argument is the immediate converted to [uint32_t]. *)
Definition csr_is_writable (csr : Z) : bool := csr <? 0xc00.

Definition op_system (ir : rv_insn) (insn : Z) : rv_insn * bool :=
  let ir := decode_itype ir insn in
  let fin (o : insn_op) :=
    let ir := ir_set_opcode ir o in
    (ir, csr_is_writable (u32 ir.(imm)) || (ir.(rs1) =? rv_reg_zero)) in
  match decode_funct3 insn with
  | 0 =>
      if insn >>. 25 =? 0x09 then fin rv_insn_sfencevma else
      match ir.(imm) with
      | 0 => fin rv_insn_ecall
      | 1 => fin rv_insn_ebreak
      | 0x105 => fin rv_insn_wfi
      | 0x002 | 0x202 => bad ir
      | 0x302 => fin rv_insn_mret
      | _ => bad ir
      end
  | 1 => fin rv_insn_csrrw
  | 2 => fin rv_insn_csrrs
  | 3 => fin rv_insn_csrrc
  | 5 => fin rv_insn_csrrwi
  | 6 => fin rv_insn_csrrsi
  | 7 => fin rv_insn_csrrci
  | _ => bad ir
  end.

Definition op_misc_mem (ir : rv_insn) (insn : Z) : rv_insn * bool :=
  match decode_funct3 insn with
  | 0 => ok ir rv_insn_fence
  | 1 => ok ir rv_insn_fencei
  | _ => bad ir
  end.

Definition op_amo (ir : rv_insn) (insn : Z) : rv_insn * bool :=
  let ir := decode_rtype ir insn in
  let funct5 := (decode_funct7 insn >>. 2) &. 0x1f in
  match funct5 with
  | 0x02 => ok ir rv_insn_lrw
  | 0x03 => ok ir rv_insn_scw
  | 0x01 => ok ir rv_insn_amoswapw
  | 0x00 => ok ir rv_insn_amoaddw
  | 0x04 => ok ir rv_insn_amoxorw
  | 0x0c => ok ir rv_insn_amoandw
  | 0x08 => ok ir rv_insn_amoorw
  | 0x10 => ok ir rv_insn_amominw
  | 0x14 => ok ir rv_insn_amomaxw
  | 0x18 => ok ir rv_insn_amominuw
  | 0x1c => ok ir rv_insn_amomaxuw
  | _ => bad ir
  end.

Definition op_load_fp (ir : rv_insn) (insn : Z) : rv_insn * bool :=
  ok (decode_itype ir insn) rv_insn_flw.

Definition op_store_fp (ir : rv_insn) (insn : Z) : rv_insn * bool :=
  ok (decode_stype ir insn) rv_insn_fsw.

Definition op_op_fp (ir : rv_insn) (insn : Z) : rv_insn * bool :=
  let ir := ir_set_rm ir (u8 (decode_funct3 insn)) in
  let ir := decode_rtype ir insn in
  match decode_funct7 insn with
  | 0x00 => ok ir rv_insn_fadds
  | 0x04 => ok ir rv_insn_fsubs
  | 0x08 => ok ir rv_insn_fmuls
  | 0x0c => ok ir rv_insn_fdivs
  | 0x2c => ok ir rv_insn_fsqrts
  | 0x10 =>
      match ir.(rm) with
      | 0 => ok ir rv_insn_fsgnjs
      | 1 => ok ir rv_insn_fsgnjns
      | 2 => ok ir rv_insn_fsgnjxs
      | _ => bad ir
      end
  | 0x60 =>
      match ir.(rs2) with
      | 0 => ok ir rv_insn_fcvtws
      | 1 => ok ir rv_insn_fcvtwus
      | _ => (ir, true)
      end
  | 0x14 =>
      match ir.(rm) with
      | 0 => ok ir rv_insn_fmins
      | 1 => ok ir rv_insn_fmaxs
      | _ => bad ir
      end
  | 0x70 =>
      match ir.(rm) with
      | 0 => ok ir rv_insn_fmvxw
      | 1 => ok ir rv_insn_fclasss
      | _ => bad ir
      end
  | 0x50 =>
      match ir.(rm) with
      | 2 => ok ir rv_insn_feqs
      | 1 => ok ir rv_insn_flts
      | 0 => ok ir rv_insn_fles
      | _ => bad ir
      end
  | 0x68 =>
      match ir.(rs2) with
      | 0 => ok ir rv_insn_fcvtsw
      | 1 => ok ir rv_insn_fcvtswu
      | _ => bad ir
      end
  | 0x78 => ok ir rv_insn_fmvwx
  | _ => bad ir
  end.

Definition op_madd (ir : rv_insn) (insn : Z) : rv_insn * bool :=
  ok (decode_r4type ir insn) rv_insn_fmadds.
Definition op_msub (ir : rv_insn) (insn : Z) : rv_insn * bool :=
  ok (decode_r4type ir insn) rv_insn_fmsubs.
Definition op_nmadd (ir : rv_insn) (insn : Z) : rv_insn * bool :=
  ok (decode_r4type ir insn) rv_insn_fnmadds.
Definition op_nmsub (ir : rv_insn) (insn : Z) : rv_insn * bool :=
  ok (decode_r4type ir insn) rv_insn_fnmsubs.

(** ** Handlers of the compressed opcode map *)

Definition op_caddi (ir : rv_insn) (insn : Z) : rv_insn * bool :=
  let ir := ir_set_rd ir (u8 (c_decode_rd insn)) in
  match ir.(rd) with
  | 0 => ok ir rv_insn_cnop
  | _ => ok (ir_set_imm ir (c_decode_citype_imm insn)) rv_insn_caddi
  end.

Definition op_caddi4spn (ir : rv_insn) (insn : Z) : rv_insn * bool :=
  let ir := ir_set_imm ir (c_decode_caddi4spn_nzuimm insn) in
  let ir := ir_set_rd ir (u8 (c_decode_rdc insn |. 0x08)) in
  if ir.(imm) =? 0 then bad ir else ok ir rv_insn_caddi4spn.

Definition op_cli (ir : rv_insn) (insn : Z) : rv_insn * bool :=
  let ir := ir_set_imm ir (c_decode_citype_imm insn) in
  let ir := ir_set_rd ir (u8 (c_decode_rd insn)) in
  ok ir rv_insn_cli.

Definition op_clui (ir : rv_insn) (insn : Z) : rv_insn * bool :=
  let ir := ir_set_rd ir (u8 (c_decode_rd insn)) in
  match ir.(rd) with
  | 0 => ok ir rv_insn_cnop
  | 2 =>
      let ir := ir_set_imm ir (c_decode_caddi16sp_nzimm insn) in
      if u32 ir.(imm) =? 0 then bad ir else ok ir rv_insn_caddi16sp
  | _ =>
      let ir := ir_set_imm ir (s32 (c_decode_clui_nzimm insn)) in
      if ir.(imm) =? 0 then bad ir else ok ir rv_insn_clui
  end.

(** [None] is the failed [assert] of the RV64/128C and reserved codes. *)
Definition op_cmisc_alu (ir : rv_insn) (insn : Z) : option (rv_insn * bool) :=
  let funct2 := u8 ((insn &. 0x0C00) >>. 10) in
  match funct2 with
  | 0 =>
      let ir := ir_set_shamt ir (c_decode_cbtype_shamt insn) in
      let ir := ir_set_rs1 ir (u8 (c_decode_rs1c insn |. 0x08)) in
      if nz (ir.(shamt) &. 0x20) then Some (bad ir) else
      Some (ok ir (if (ir.(rs1) =? 0) || (ir.(shamt) =? 0)
                   then rv_insn_cnop else rv_insn_csrli))
  | 1 =>
      let ir := ir_set_shamt ir (c_decode_cbtype_shamt insn) in
      let ir := ir_set_rs1 ir (u8 (c_decode_rs1 insn)) in
      if nz (ir.(shamt) &. 0x20) then Some (bad ir) else
      Some (ok ir rv_insn_csrai)
  | 2 =>
      let ir := ir_set_rs1 ir (u8 (c_decode_rs1c insn |. 0x08)) in
      let ir := ir_set_imm ir (c_decode_caddi_imm insn) in
      Some (ok ir rv_insn_candi)
  | 3 =>
      let ir := ir_set_rs1 ir (u8 (c_decode_rs1c insn |. 0x08)) in
      let ir := ir_set_rs2 ir (u8 (c_decode_rs2c insn |. 0x08)) in
      let ir := ir_set_rd ir ir.(rs1) in
      match ((insn &. 0x1000) >>. 10) |. ((insn &. 0x0060) >>. 5) with
      | 0 => Some (ok ir rv_insn_csub)
      | 1 => Some (ok ir rv_insn_cxor)
      | 2 => Some (ok ir rv_insn_cor)
      | 3 => Some (ok ir rv_insn_cand)
      | _ => None
      end
  | _ => Some (ir, true)
  end.

Definition op_cslli (ir : rv_insn) (insn : Z) : rv_insn * bool :=
  let tmp := 0 in
  let tmp := tmp |. ((insn &. FCI_IMM_12) >>. 7) in
  let tmp := tmp |. ((insn &. FCI_IMM_6_2) >>. 2) in
  let ir := ir_set_imm ir (s32 tmp) in
  let ir := ir_set_rd ir (u8 (c_decode_rd insn)) in
  ok ir (if nz ir.(rd) then rv_insn_cslli else rv_insn_cnop).

Definition op_clwsp (ir : rv_insn) (insn : Z) : rv_insn * bool :=
  let tmp := 0 in
  let tmp := u16 (tmp |. ((insn &. 0x70) >>. 2)) in
  let tmp := u16 (tmp |. ((insn &. 0x0c) <<. 4)) in
  let tmp := u16 (tmp |. ((insn &. 0x1000) >>. 7)) in
  let ir := ir_set_imm ir tmp in
  let ir := ir_set_rd ir (u8 (c_decode_rd insn)) in
  ok ir (if nz ir.(rd) then rv_insn_clwsp else rv_insn_cnop).

Definition op_cswsp (ir : rv_insn) (insn : Z) : rv_insn * bool :=
  let ir := ir_set_imm ir
    (s32 (((insn &. 0x1e00) >>. 7) |. ((insn &. 0x180) >>. 1))) in
  let ir := ir_set_rs2 ir (u8 (c_decode_rs2 insn)) in
  ok ir rv_insn_cswsp.

Definition op_clw (ir : rv_insn) (insn : Z) : rv_insn * bool :=
  let tmp := 0 in
  let tmp := u16 (tmp |. ((insn &. 0x40) >>. 4)) in
  let tmp := u16 (tmp |. ((insn &. FC_IMM_12_10) >>. 7)) in
  let tmp := u16 (tmp |. ((insn &. 0x20) <<. 1)) in
  let ir := ir_set_imm ir tmp in
  let ir := ir_set_rd ir (u8 (c_decode_rdc insn |. 0x08)) in
  let ir := ir_set_rs1 ir (u8 (c_decode_rs1c insn |. 0x08)) in
  ok ir rv_insn_clw.

Definition op_csw (ir : rv_insn) (insn : Z) : rv_insn * bool :=
  let tmp := 0 in
  let tmp := u32 (tmp |. ((insn &. 0x40) >>. 4)) in
  let tmp := u32 (tmp |. ((insn &. FC_IMM_12_10) >>. 7)) in
  let tmp := u32 (tmp |. ((insn &. 0x20) <<. 1)) in
  let ir := ir_set_imm ir (s32 tmp) in
  let ir := ir_set_rs1 ir (u8 (c_decode_rs1c insn |. 0x08)) in
  let ir := ir_set_rs2 ir (u8 (c_decode_rs2c insn |. 0x08)) in
  ok ir rv_insn_csw.

Definition op_cj (ir : rv_insn) (insn : Z) : rv_insn * bool :=
  ok (ir_set_imm ir (c_decode_cjtype_imm insn)) rv_insn_cj.

Definition op_cjal (ir : rv_insn) (insn : Z) : rv_insn * bool :=
  ok (ir_set_imm ir (s32 (sign_extend_h (u32 (c_decode_cjtype_imm insn)))))
     rv_insn_cjal.

Definition op_ccr (ir : rv_insn) (insn : Z) : rv_insn * bool :=
  let ir := ir_set_rs1 ir (u8 (c_decode_rs1 insn)) in
  let ir := ir_set_rs2 ir (u8 (c_decode_rs2 insn)) in
  let ir := ir_set_rd ir ir.(rs1) in
  match (insn &. 0x1000) >>. 12 with
  | 0 =>
      match ir.(rs2) with
      | 0 => if ir.(rs1) =? 0 then bad ir else ok ir rv_insn_cjr
      | _ => ok ir (if nz ir.(rd) then rv_insn_cmv else rv_insn_cnop)
      end
  | _ =>
      if (ir.(rs1) =? 0) && (ir.(rs2) =? 0) then ok ir rv_insn_ebreak
      else if nz ir.(rs1) && nz ir.(rs2) then
        ok ir (if nz ir.(rd) then rv_insn_cadd else rv_insn_cnop)
      else if nz ir.(rs1) && (ir.(rs2) =? 0) then ok ir rv_insn_cjalr
      else ok ir rv_insn_cnop
  end.

Definition op_cbeqz (ir : rv_insn) (insn : Z) : rv_insn * bool :=
  let ir := ir_set_imm ir (s32 (sign_extend_h (c_decode_cbtype_imm insn))) in
  let ir := ir_set_rs1 ir (u8 (c_decode_rs1c insn |. 0x08)) in
  ok ir rv_insn_cbeqz.

Definition op_cbnez (ir : rv_insn) (insn : Z) : rv_insn * bool :=
  let ir := ir_set_imm ir (s32 (sign_extend_h (c_decode_cbtype_imm insn))) in
  let ir := ir_set_rs1 ir (u8 (c_decode_rs1c insn |. 0x08)) in
  ok ir rv_insn_cbnez.

Definition op_cflwsp (ir : rv_insn) (insn : Z) : rv_insn * bool :=
  let tmp := 0 in
  let tmp := u16 (tmp |. ((insn &. 0x70) >>. 2)) in
  let tmp := u16 (tmp |. ((insn &. 0x0c) <<. 4)) in
  let tmp := u16 (tmp |. ((insn &. 0x1000) >>. 7)) in
  let ir := ir_set_imm ir tmp in
  let ir := ir_set_rd ir (u8 (c_decode_rd insn)) in
  ok ir rv_insn_cflwsp.

Definition op_cfswsp (ir : rv_insn) (insn : Z) : rv_insn * bool :=
  let ir := ir_set_imm ir
    (s32 (((insn &. 0x1e00) >>. 7) |. ((insn &. 0x180) >>. 1))) in
  let ir := ir_set_rs2 ir (u8 (c_decode_rs2 insn)) in
  ok ir rv_insn_cfswsp.

Definition op_cflw (ir : rv_insn) (insn : Z) : rv_insn * bool :=
  let tmp := 0 in
  let tmp := u16 (tmp |. ((insn &. 0x40) >>. 4)) in
  let tmp := u16 (tmp |. ((insn &. FC_IMM_12_10) >>. 7)) in
  let tmp := u16 (tmp |. ((insn &. 0x20) <<. 1)) in
  let ir := ir_set_imm ir tmp in
  let ir := ir_set_rd ir (u8 (c_decode_rdc insn |. 0x08)) in
  let ir := ir_set_rs1 ir (u8 (c_decode_rs1c insn |. 0x08)) in
  ok ir rv_insn_cflw.

Definition op_cfsw (ir : rv_insn) (insn : Z) : rv_insn * bool :=
  let tmp := 0 in
  let tmp := u32 (tmp |. ((insn &. 0x40) >>. 4)) in
  let tmp := u32 (tmp |. ((insn &. FC_IMM_12_10) >>. 7)) in
  let tmp := u32 (tmp |. ((insn &. 0x20) <<. 1)) in
  let ir := ir_set_imm ir (s32 tmp) in
  let ir := ir_set_rs1 ir (u8 (c_decode_rs1c insn |. 0x08)) in
  let ir := ir_set_rs2 ir (u8 (c_decode_rs2c insn |. 0x08)) in
  ok ir rv_insn_cfsw.

Definition op_unimp (ir : rv_insn) (insn : Z) : rv_insn * bool := (ir, false).

(** ** The decoder *)

Definition is_tt (ext_tt : bool) (insn : Z) : bool :=
  if ext_tt then negb (insn &. FC_OPCODE =? 3) else false.
Definition is_compressed (ext_tt : bool) (insn : Z) : bool :=
  if ext_tt then false else negb (insn &. FC_OPCODE =? 3).

Definition rv_jump_table : list (rv_insn -> Z -> rv_insn * bool) := [
  op_load;   op_load_fp;  op_unimp; op_misc_mem; op_op_imm; op_auipc; op_unimp; op_unimp;
  op_store;  op_store_fp; op_unimp; op_amo;      op_op;     op_lui;   op_unimp; op_unimp;
  op_madd;   op_msub;     op_nmsub; op_nmadd;    op_op_fp;  op_unimp; op_unimp; op_unimp;
  op_branch; op_jalr;     op_unimp; op_jal;      op_system; op_unimp; op_unimp; op_unimp
].

(** [total h] is a handler that never fails an assertion. *)
Definition total (h : rv_insn -> Z -> rv_insn * bool)
    (ir : rv_insn) (insn : Z) : option (rv_insn * bool) := Some (h ir insn).

Definition rvc_jump_table : list (rv_insn -> Z -> option (rv_insn * bool)) := [
  total op_caddi4spn; total op_caddi; total op_cslli;  total op_unimp;
  total op_unimp;     total op_cjal;  total op_unimp;  total op_unimp;
  total op_clw;       total op_cli;   total op_clwsp;  total op_unimp;
  total op_cflw;      total op_clui;  total op_cflwsp; total op_unimp;
  total op_unimp;     op_cmisc_alu;   total op_ccr;    total op_unimp;
  total op_unimp;     total op_cj;    total op_unimp;  total op_unimp;
  total op_csw;       total op_cbeqz; total op_cswsp;  total op_unimp;
  total op_cfsw;      total op_cbnez; total op_cfswsp; total op_unimp
].

(** [None] is a failed assertion; otherwise the representation and the
    result [ret]. *)
Definition rv_decode (ext_tt : bool) (ir : rv_insn) (insn : Z)
    : option (rv_insn * bool) :=
  if is_tt ext_tt insn then Some (ir, false)
  else if is_compressed ext_tt insn then
    let insn := insn &. 0x0000FFFF in
    let c_index := u16 (((insn &. FC_FUNC3) >>. 11) |. (insn &. FC_OPCODE)) in
    match rvc_jump_table !! Z.to_nat c_index with
    | Some op => op ir insn
    | None => None
    end
  else
    let index := (insn &. INSN_6_2) >>. 2 in
    match rv_jump_table !! Z.to_nat index with
    | Some op => Some (op ir insn)
    | None => None
    end.

(** ** Well-formed representations *)

(** The ranges the emulator relies on: register numbers index arrays of 32,
    the immediate is an [int32_t], the other fields fit their bytes. *)
Record insn_wf (ir : rv_insn) : Prop := mk_insn_wf {
  wf_imm : - 2 ^ 31 <= ir.(imm) < 2 ^ 31;
  wf_rd : 0 <= ir.(rd) < 32;
  wf_rs1 : 0 <= ir.(rs1) < 32;
  wf_rs2 : 0 <= ir.(rs2) < 32;
  wf_shamt : 0 <= ir.(shamt) < 64;
  wf_rm : 0 <= ir.(rm) < 8
}.
