(* ===== verification/Riscv.v ===== *)
(** * The hart: registers, CSRs and traps

    [riscv] is [struct riscv_internal] (src/rv32emu/src/riscv_private.h) without
    the parts that other files model: the block map and the memory pools
    (BlockMap.v) and the objects reached through pointers (memory and the
    Tensix coprocessor), which are the abstract world [W] of [riscv_io], the
    record of callbacks of src/rv32emu/src/riscv.h.  The CSR access functions
    and the trap handlers of src/rv32emu/src/emulate.c follow.

    Words are integers in [0, 2^32); the cycle counter has 64 bits.  The last
    two fields are the global variables of the SoftFloat library that the
    floating-point instructions set and read; [allow_misalign] is the field
    of the same name of [vm_attr_t], reached through [PRIV(rv)]. *)

From Stdlib Require Import ZArith Lia Bool.
From stdpp Require Import base list numbers.
From S2P Require Import Prelude Decode.

(** ** State *)

Record riscv : Type := mk_riscv {
  halt : bool; X : list Z; PC : Z; timer : Z; F : list Z; csr_fcsr : Z;
  csr_cycle : Z; csr_time : list Z; csr_mstatus : Z; csr_mtvec : Z;
  csr_misa : Z; csr_mtval : Z; csr_mcause : Z; csr_mscratch : Z;
  csr_mepc : Z; csr_mip : Z; csr_mie : Z; csr_mideleg : Z; csr_medeleg : Z;
  csr_mvendorid : Z; csr_marchid : Z; csr_mimpid : Z; csr_mbadaddr : Z;
  csr_sstatus : Z; csr_stvec : Z; csr_sip : Z; csr_sie : Z;
  csr_scounteren : Z; csr_sscratch : Z; csr_sepc : Z; csr_scause : Z;
  csr_stval : Z; csr_satp : Z; priv_mode : Z; compressed : bool; last_pc : Z;
  is_branch_taken : bool; core_id : Z; pre_pc : Z; allow_misalign : bool;
  softfloat_exceptionFlags : Z; softfloat_roundingMode : Z
}.

Definition set_halt (rv : riscv) v : riscv :=
  mk_riscv v rv.(X) rv.(PC) rv.(timer) rv.(F) rv.(csr_fcsr) rv.(csr_cycle)
    rv.(csr_time) rv.(csr_mstatus) rv.(csr_mtvec) rv.(csr_misa)
    rv.(csr_mtval) rv.(csr_mcause) rv.(csr_mscratch) rv.(csr_mepc)
    rv.(csr_mip) rv.(csr_mie) rv.(csr_mideleg) rv.(csr_medeleg)
    rv.(csr_mvendorid) rv.(csr_marchid) rv.(csr_mimpid) rv.(csr_mbadaddr)
    rv.(csr_sstatus) rv.(csr_stvec) rv.(csr_sip) rv.(csr_sie)
    rv.(csr_scounteren) rv.(csr_sscratch) rv.(csr_sepc) rv.(csr_scause)
    rv.(csr_stval) rv.(csr_satp) rv.(priv_mode) rv.(compressed) rv.(last_pc)
    rv.(is_branch_taken) rv.(core_id) rv.(pre_pc) rv.(allow_misalign)
    rv.(softfloat_exceptionFlags) rv.(softfloat_roundingMode).
Definition set_X (rv : riscv) v : riscv :=
  mk_riscv rv.(halt) v rv.(PC) rv.(timer) rv.(F) rv.(csr_fcsr)
    rv.(csr_cycle) rv.(csr_time) rv.(csr_mstatus) rv.(csr_mtvec)
    rv.(csr_misa) rv.(csr_mtval) rv.(csr_mcause) rv.(csr_mscratch)
    rv.(csr_mepc) rv.(csr_mip) rv.(csr_mie) rv.(csr_mideleg)
    rv.(csr_medeleg) rv.(csr_mvendorid) rv.(csr_marchid) rv.(csr_mimpid)
    rv.(csr_mbadaddr) rv.(csr_sstatus) rv.(csr_stvec) rv.(csr_sip)
    rv.(csr_sie) rv.(csr_scounteren) rv.(csr_sscratch) rv.(csr_sepc)
    rv.(csr_scause) rv.(csr_stval) rv.(csr_satp) rv.(priv_mode)
    rv.(compressed) rv.(last_pc) rv.(is_branch_taken) rv.(core_id)
    rv.(pre_pc) rv.(allow_misalign) rv.(softfloat_exceptionFlags)
    rv.(softfloat_roundingMode).
Definition set_PC (rv : riscv) v : riscv :=
  mk_riscv rv.(halt) rv.(X) v rv.(timer) rv.(F) rv.(csr_fcsr) rv.(csr_cycle)
    rv.(csr_time) rv.(csr_mstatus) rv.(csr_mtvec) rv.(csr_misa)
    rv.(csr_mtval) rv.(csr_mcause) rv.(csr_mscratch) rv.(csr_mepc)
    rv.(csr_mip) rv.(csr_mie) rv.(csr_mideleg) rv.(csr_medeleg)
    rv.(csr_mvendorid) rv.(csr_marchid) rv.(csr_mimpid) rv.(csr_mbadaddr)
    rv.(csr_sstatus) rv.(csr_stvec) rv.(csr_sip) rv.(csr_sie)
    rv.(csr_scounteren) rv.(csr_sscratch) rv.(csr_sepc) rv.(csr_scause)
    rv.(csr_stval) rv.(csr_satp) rv.(priv_mode) rv.(compressed) rv.(last_pc)
    rv.(is_branch_taken) rv.(core_id) rv.(pre_pc) rv.(allow_misalign)
    rv.(softfloat_exceptionFlags) rv.(softfloat_roundingMode).
Definition set_timer (rv : riscv) v : riscv :=
  mk_riscv rv.(halt) rv.(X) rv.(PC) v rv.(F) rv.(csr_fcsr) rv.(csr_cycle)
    rv.(csr_time) rv.(csr_mstatus) rv.(csr_mtvec) rv.(csr_misa)
    rv.(csr_mtval) rv.(csr_mcause) rv.(csr_mscratch) rv.(csr_mepc)
    rv.(csr_mip) rv.(csr_mie) rv.(csr_mideleg) rv.(csr_medeleg)
    rv.(csr_mvendorid) rv.(csr_marchid) rv.(csr_mimpid) rv.(csr_mbadaddr)
    rv.(csr_sstatus) rv.(csr_stvec) rv.(csr_sip) rv.(csr_sie)
    rv.(csr_scounteren) rv.(csr_sscratch) rv.(csr_sepc) rv.(csr_scause)
    rv.(csr_stval) rv.(csr_satp) rv.(priv_mode) rv.(compressed) rv.(last_pc)
    rv.(is_branch_taken) rv.(core_id) rv.(pre_pc) rv.(allow_misalign)
    rv.(softfloat_exceptionFlags) rv.(softfloat_roundingMode).
Definition set_F (rv : riscv) v : riscv :=
  mk_riscv rv.(halt) rv.(X) rv.(PC) rv.(timer) v rv.(csr_fcsr)
    rv.(csr_cycle) rv.(csr_time) rv.(csr_mstatus) rv.(csr_mtvec)
    rv.(csr_misa) rv.(csr_mtval) rv.(csr_mcause) rv.(csr_mscratch)
    rv.(csr_mepc) rv.(csr_mip) rv.(csr_mie) rv.(csr_mideleg)
    rv.(csr_medeleg) rv.(csr_mvendorid) rv.(csr_marchid) rv.(csr_mimpid)
    rv.(csr_mbadaddr) rv.(csr_sstatus) rv.(csr_stvec) rv.(csr_sip)
    rv.(csr_sie) rv.(csr_scounteren) rv.(csr_sscratch) rv.(csr_sepc)
    rv.(csr_scause) rv.(csr_stval) rv.(csr_satp) rv.(priv_mode)
    rv.(compressed) rv.(last_pc) rv.(is_branch_taken) rv.(core_id)
    rv.(pre_pc) rv.(allow_misalign) rv.(softfloat_exceptionFlags)
    rv.(softfloat_roundingMode).
Definition set_csr_fcsr (rv : riscv) v : riscv :=
  mk_riscv rv.(halt) rv.(X) rv.(PC) rv.(timer) rv.(F) v rv.(csr_cycle)
    rv.(csr_time) rv.(csr_mstatus) rv.(csr_mtvec) rv.(csr_misa)
    rv.(csr_mtval) rv.(csr_mcause) rv.(csr_mscratch) rv.(csr_mepc)
    rv.(csr_mip) rv.(csr_mie) rv.(csr_mideleg) rv.(csr_medeleg)
    rv.(csr_mvendorid) rv.(csr_marchid) rv.(csr_mimpid) rv.(csr_mbadaddr)
    rv.(csr_sstatus) rv.(csr_stvec) rv.(csr_sip) rv.(csr_sie)
    rv.(csr_scounteren) rv.(csr_sscratch) rv.(csr_sepc) rv.(csr_scause)
    rv.(csr_stval) rv.(csr_satp) rv.(priv_mode) rv.(compressed) rv.(last_pc)
    rv.(is_branch_taken) rv.(core_id) rv.(pre_pc) rv.(allow_misalign)
    rv.(softfloat_exceptionFlags) rv.(softfloat_roundingMode).
Definition set_csr_cycle (rv : riscv) v : riscv :=
  mk_riscv rv.(halt) rv.(X) rv.(PC) rv.(timer) rv.(F) rv.(csr_fcsr) v
    rv.(csr_time) rv.(csr_mstatus) rv.(csr_mtvec) rv.(csr_misa)
    rv.(csr_mtval) rv.(csr_mcause) rv.(csr_mscratch) rv.(csr_mepc)
    rv.(csr_mip) rv.(csr_mie) rv.(csr_mideleg) rv.(csr_medeleg)
    rv.(csr_mvendorid) rv.(csr_marchid) rv.(csr_mimpid) rv.(csr_mbadaddr)
    rv.(csr_sstatus) rv.(csr_stvec) rv.(csr_sip) rv.(csr_sie)
    rv.(csr_scounteren) rv.(csr_sscratch) rv.(csr_sepc) rv.(csr_scause)
    rv.(csr_stval) rv.(csr_satp) rv.(priv_mode) rv.(compressed) rv.(last_pc)
    rv.(is_branch_taken) rv.(core_id) rv.(pre_pc) rv.(allow_misalign)
    rv.(softfloat_exceptionFlags) rv.(softfloat_roundingMode).
Definition set_csr_time (rv : riscv) v : riscv :=
  mk_riscv rv.(halt) rv.(X) rv.(PC) rv.(timer) rv.(F) rv.(csr_fcsr)
    rv.(csr_cycle) v rv.(csr_mstatus) rv.(csr_mtvec) rv.(csr_misa)
    rv.(csr_mtval) rv.(csr_mcause) rv.(csr_mscratch) rv.(csr_mepc)
    rv.(csr_mip) rv.(csr_mie) rv.(csr_mideleg) rv.(csr_medeleg)
    rv.(csr_mvendorid) rv.(csr_marchid) rv.(csr_mimpid) rv.(csr_mbadaddr)
    rv.(csr_sstatus) rv.(csr_stvec) rv.(csr_sip) rv.(csr_sie)
    rv.(csr_scounteren) rv.(csr_sscratch) rv.(csr_sepc) rv.(csr_scause)
    rv.(csr_stval) rv.(csr_satp) rv.(priv_mode) rv.(compressed) rv.(last_pc)
    rv.(is_branch_taken) rv.(core_id) rv.(pre_pc) rv.(allow_misalign)
    rv.(softfloat_exceptionFlags) rv.(softfloat_roundingMode).
Definition set_csr_mstatus (rv : riscv) v : riscv :=
  mk_riscv rv.(halt) rv.(X) rv.(PC) rv.(timer) rv.(F) rv.(csr_fcsr)
    rv.(csr_cycle) rv.(csr_time) v rv.(csr_mtvec) rv.(csr_misa)
    rv.(csr_mtval) rv.(csr_mcause) rv.(csr_mscratch) rv.(csr_mepc)
    rv.(csr_mip) rv.(csr_mie) rv.(csr_mideleg) rv.(csr_medeleg)
    rv.(csr_mvendorid) rv.(csr_marchid) rv.(csr_mimpid) rv.(csr_mbadaddr)
    rv.(csr_sstatus) rv.(csr_stvec) rv.(csr_sip) rv.(csr_sie)
    rv.(csr_scounteren) rv.(csr_sscratch) rv.(csr_sepc) rv.(csr_scause)
    rv.(csr_stval) rv.(csr_satp) rv.(priv_mode) rv.(compressed) rv.(last_pc)
    rv.(is_branch_taken) rv.(core_id) rv.(pre_pc) rv.(allow_misalign)
    rv.(softfloat_exceptionFlags) rv.(softfloat_roundingMode).
Definition set_csr_mtvec (rv : riscv) v : riscv :=
  mk_riscv rv.(halt) rv.(X) rv.(PC) rv.(timer) rv.(F) rv.(csr_fcsr)
    rv.(csr_cycle) rv.(csr_time) rv.(csr_mstatus) v rv.(csr_misa)
    rv.(csr_mtval) rv.(csr_mcause) rv.(csr_mscratch) rv.(csr_mepc)
    rv.(csr_mip) rv.(csr_mie) rv.(csr_mideleg) rv.(csr_medeleg)
    rv.(csr_mvendorid) rv.(csr_marchid) rv.(csr_mimpid) rv.(csr_mbadaddr)
    rv.(csr_sstatus) rv.(csr_stvec) rv.(csr_sip) rv.(csr_sie)
    rv.(csr_scounteren) rv.(csr_sscratch) rv.(csr_sepc) rv.(csr_scause)
    rv.(csr_stval) rv.(csr_satp) rv.(priv_mode) rv.(compressed) rv.(last_pc)
    rv.(is_branch_taken) rv.(core_id) rv.(pre_pc) rv.(allow_misalign)
    rv.(softfloat_exceptionFlags) rv.(softfloat_roundingMode).
Definition set_csr_misa (rv : riscv) v : riscv :=
  mk_riscv rv.(halt) rv.(X) rv.(PC) rv.(timer) rv.(F) rv.(csr_fcsr)
    rv.(csr_cycle) rv.(csr_time) rv.(csr_mstatus) rv.(csr_mtvec) v
    rv.(csr_mtval) rv.(csr_mcause) rv.(csr_mscratch) rv.(csr_mepc)
    rv.(csr_mip) rv.(csr_mie) rv.(csr_mideleg) rv.(csr_medeleg)
    rv.(csr_mvendorid) rv.(csr_marchid) rv.(csr_mimpid) rv.(csr_mbadaddr)
    rv.(csr_sstatus) rv.(csr_stvec) rv.(csr_sip) rv.(csr_sie)
    rv.(csr_scounteren) rv.(csr_sscratch) rv.(csr_sepc) rv.(csr_scause)
    rv.(csr_stval) rv.(csr_satp) rv.(priv_mode) rv.(compressed) rv.(last_pc)
    rv.(is_branch_taken) rv.(core_id) rv.(pre_pc) rv.(allow_misalign)
    rv.(softfloat_exceptionFlags) rv.(softfloat_roundingMode).
Definition set_csr_mtval (rv : riscv) v : riscv :=
  mk_riscv rv.(halt) rv.(X) rv.(PC) rv.(timer) rv.(F) rv.(csr_fcsr)
    rv.(csr_cycle) rv.(csr_time) rv.(csr_mstatus) rv.(csr_mtvec)
    rv.(csr_misa) v rv.(csr_mcause) rv.(csr_mscratch) rv.(csr_mepc)
    rv.(csr_mip) rv.(csr_mie) rv.(csr_mideleg) rv.(csr_medeleg)
    rv.(csr_mvendorid) rv.(csr_marchid) rv.(csr_mimpid) rv.(csr_mbadaddr)
    rv.(csr_sstatus) rv.(csr_stvec) rv.(csr_sip) rv.(csr_sie)
    rv.(csr_scounteren) rv.(csr_sscratch) rv.(csr_sepc) rv.(csr_scause)
    rv.(csr_stval) rv.(csr_satp) rv.(priv_mode) rv.(compressed) rv.(last_pc)
    rv.(is_branch_taken) rv.(core_id) rv.(pre_pc) rv.(allow_misalign)
    rv.(softfloat_exceptionFlags) rv.(softfloat_roundingMode).
Definition set_csr_mcause (rv : riscv) v : riscv :=
  mk_riscv rv.(halt) rv.(X) rv.(PC) rv.(timer) rv.(F) rv.(csr_fcsr)
    rv.(csr_cycle) rv.(csr_time) rv.(csr_mstatus) rv.(csr_mtvec)
    rv.(csr_misa) rv.(csr_mtval) v rv.(csr_mscratch) rv.(csr_mepc)
    rv.(csr_mip) rv.(csr_mie) rv.(csr_mideleg) rv.(csr_medeleg)
    rv.(csr_mvendorid) rv.(csr_marchid) rv.(csr_mimpid) rv.(csr_mbadaddr)
    rv.(csr_sstatus) rv.(csr_stvec) rv.(csr_sip) rv.(csr_sie)
    rv.(csr_scounteren) rv.(csr_sscratch) rv.(csr_sepc) rv.(csr_scause)
    rv.(csr_stval) rv.(csr_satp) rv.(priv_mode) rv.(compressed) rv.(last_pc)
    rv.(is_branch_taken) rv.(core_id) rv.(pre_pc) rv.(allow_misalign)
    rv.(softfloat_exceptionFlags) rv.(softfloat_roundingMode).
Definition set_csr_mscratch (rv : riscv) v : riscv :=
  mk_riscv rv.(halt) rv.(X) rv.(PC) rv.(timer) rv.(F) rv.(csr_fcsr)
    rv.(csr_cycle) rv.(csr_time) rv.(csr_mstatus) rv.(csr_mtvec)
    rv.(csr_misa) rv.(csr_mtval) rv.(csr_mcause) v rv.(csr_mepc)
    rv.(csr_mip) rv.(csr_mie) rv.(csr_mideleg) rv.(csr_medeleg)
    rv.(csr_mvendorid) rv.(csr_marchid) rv.(csr_mimpid) rv.(csr_mbadaddr)
    rv.(csr_sstatus) rv.(csr_stvec) rv.(csr_sip) rv.(csr_sie)
    rv.(csr_scounteren) rv.(csr_sscratch) rv.(csr_sepc) rv.(csr_scause)
    rv.(csr_stval) rv.(csr_satp) rv.(priv_mode) rv.(compressed) rv.(last_pc)
    rv.(is_branch_taken) rv.(core_id) rv.(pre_pc) rv.(allow_misalign)
    rv.(softfloat_exceptionFlags) rv.(softfloat_roundingMode).
Definition set_csr_mepc (rv : riscv) v : riscv :=
  mk_riscv rv.(halt) rv.(X) rv.(PC) rv.(timer) rv.(F) rv.(csr_fcsr)
    rv.(csr_cycle) rv.(csr_time) rv.(csr_mstatus) rv.(csr_mtvec)
    rv.(csr_misa) rv.(csr_mtval) rv.(csr_mcause) rv.(csr_mscratch) v
    rv.(csr_mip) rv.(csr_mie) rv.(csr_mideleg) rv.(csr_medeleg)
    rv.(csr_mvendorid) rv.(csr_marchid) rv.(csr_mimpid) rv.(csr_mbadaddr)
    rv.(csr_sstatus) rv.(csr_stvec) rv.(csr_sip) rv.(csr_sie)
    rv.(csr_scounteren) rv.(csr_sscratch) rv.(csr_sepc) rv.(csr_scause)
    rv.(csr_stval) rv.(csr_satp) rv.(priv_mode) rv.(compressed) rv.(last_pc)
    rv.(is_branch_taken) rv.(core_id) rv.(pre_pc) rv.(allow_misalign)
    rv.(softfloat_exceptionFlags) rv.(softfloat_roundingMode).
Definition set_csr_mip (rv : riscv) v : riscv :=
  mk_riscv rv.(halt) rv.(X) rv.(PC) rv.(timer) rv.(F) rv.(csr_fcsr)
    rv.(csr_cycle) rv.(csr_time) rv.(csr_mstatus) rv.(csr_mtvec)
    rv.(csr_misa) rv.(csr_mtval) rv.(csr_mcause) rv.(csr_mscratch)
    rv.(csr_mepc) v rv.(csr_mie) rv.(csr_mideleg) rv.(csr_medeleg)
    rv.(csr_mvendorid) rv.(csr_marchid) rv.(csr_mimpid) rv.(csr_mbadaddr)
    rv.(csr_sstatus) rv.(csr_stvec) rv.(csr_sip) rv.(csr_sie)
    rv.(csr_scounteren) rv.(csr_sscratch) rv.(csr_sepc) rv.(csr_scause)
    rv.(csr_stval) rv.(csr_satp) rv.(priv_mode) rv.(compressed) rv.(last_pc)
    rv.(is_branch_taken) rv.(core_id) rv.(pre_pc) rv.(allow_misalign)
    rv.(softfloat_exceptionFlags) rv.(softfloat_roundingMode).
Definition set_csr_mie (rv : riscv) v : riscv :=
  mk_riscv rv.(halt) rv.(X) rv.(PC) rv.(timer) rv.(F) rv.(csr_fcsr)
    rv.(csr_cycle) rv.(csr_time) rv.(csr_mstatus) rv.(csr_mtvec)
    rv.(csr_misa) rv.(csr_mtval) rv.(csr_mcause) rv.(csr_mscratch)
    rv.(csr_mepc) rv.(csr_mip) v rv.(csr_mideleg) rv.(csr_medeleg)
    rv.(csr_mvendorid) rv.(csr_marchid) rv.(csr_mimpid) rv.(csr_mbadaddr)
    rv.(csr_sstatus) rv.(csr_stvec) rv.(csr_sip) rv.(csr_sie)
    rv.(csr_scounteren) rv.(csr_sscratch) rv.(csr_sepc) rv.(csr_scause)
    rv.(csr_stval) rv.(csr_satp) rv.(priv_mode) rv.(compressed) rv.(last_pc)
    rv.(is_branch_taken) rv.(core_id) rv.(pre_pc) rv.(allow_misalign)
    rv.(softfloat_exceptionFlags) rv.(softfloat_roundingMode).
Definition set_csr_mideleg (rv : riscv) v : riscv :=
  mk_riscv rv.(halt) rv.(X) rv.(PC) rv.(timer) rv.(F) rv.(csr_fcsr)
    rv.(csr_cycle) rv.(csr_time) rv.(csr_mstatus) rv.(csr_mtvec)
    rv.(csr_misa) rv.(csr_mtval) rv.(csr_mcause) rv.(csr_mscratch)
    rv.(csr_mepc) rv.(csr_mip) rv.(csr_mie) v rv.(csr_medeleg)
    rv.(csr_mvendorid) rv.(csr_marchid) rv.(csr_mimpid) rv.(csr_mbadaddr)
    rv.(csr_sstatus) rv.(csr_stvec) rv.(csr_sip) rv.(csr_sie)
    rv.(csr_scounteren) rv.(csr_sscratch) rv.(csr_sepc) rv.(csr_scause)
    rv.(csr_stval) rv.(csr_satp) rv.(priv_mode) rv.(compressed) rv.(last_pc)
    rv.(is_branch_taken) rv.(core_id) rv.(pre_pc) rv.(allow_misalign)
    rv.(softfloat_exceptionFlags) rv.(softfloat_roundingMode).
Definition set_csr_medeleg (rv : riscv) v : riscv :=
  mk_riscv rv.(halt) rv.(X) rv.(PC) rv.(timer) rv.(F) rv.(csr_fcsr)
    rv.(csr_cycle) rv.(csr_time) rv.(csr_mstatus) rv.(csr_mtvec)
    rv.(csr_misa) rv.(csr_mtval) rv.(csr_mcause) rv.(csr_mscratch)
    rv.(csr_mepc) rv.(csr_mip) rv.(csr_mie) rv.(csr_mideleg) v
    rv.(csr_mvendorid) rv.(csr_marchid) rv.(csr_mimpid) rv.(csr_mbadaddr)
    rv.(csr_sstatus) rv.(csr_stvec) rv.(csr_sip) rv.(csr_sie)
    rv.(csr_scounteren) rv.(csr_sscratch) rv.(csr_sepc) rv.(csr_scause)
    rv.(csr_stval) rv.(csr_satp) rv.(priv_mode) rv.(compressed) rv.(last_pc)
    rv.(is_branch_taken) rv.(core_id) rv.(pre_pc) rv.(allow_misalign)
    rv.(softfloat_exceptionFlags) rv.(softfloat_roundingMode).
Definition set_csr_mvendorid (rv : riscv) v : riscv :=
  mk_riscv rv.(halt) rv.(X) rv.(PC) rv.(timer) rv.(F) rv.(csr_fcsr)
    rv.(csr_cycle) rv.(csr_time) rv.(csr_mstatus) rv.(csr_mtvec)
    rv.(csr_misa) rv.(csr_mtval) rv.(csr_mcause) rv.(csr_mscratch)
    rv.(csr_mepc) rv.(csr_mip) rv.(csr_mie) rv.(csr_mideleg)
    rv.(csr_medeleg) v rv.(csr_marchid) rv.(csr_mimpid) rv.(csr_mbadaddr)
    rv.(csr_sstatus) rv.(csr_stvec) rv.(csr_sip) rv.(csr_sie)
    rv.(csr_scounteren) rv.(csr_sscratch) rv.(csr_sepc) rv.(csr_scause)
    rv.(csr_stval) rv.(csr_satp) rv.(priv_mode) rv.(compressed) rv.(last_pc)
    rv.(is_branch_taken) rv.(core_id) rv.(pre_pc) rv.(allow_misalign)
    rv.(softfloat_exceptionFlags) rv.(softfloat_roundingMode).
Definition set_csr_marchid (rv : riscv) v : riscv :=
  mk_riscv rv.(halt) rv.(X) rv.(PC) rv.(timer) rv.(F) rv.(csr_fcsr)
    rv.(csr_cycle) rv.(csr_time) rv.(csr_mstatus) rv.(csr_mtvec)
    rv.(csr_misa) rv.(csr_mtval) rv.(csr_mcause) rv.(csr_mscratch)
    rv.(csr_mepc) rv.(csr_mip) rv.(csr_mie) rv.(csr_mideleg)
    rv.(csr_medeleg) rv.(csr_mvendorid) v rv.(csr_mimpid) rv.(csr_mbadaddr)
    rv.(csr_sstatus) rv.(csr_stvec) rv.(csr_sip) rv.(csr_sie)
    rv.(csr_scounteren) rv.(csr_sscratch) rv.(csr_sepc) rv.(csr_scause)
    rv.(csr_stval) rv.(csr_satp) rv.(priv_mode) rv.(compressed) rv.(last_pc)
    rv.(is_branch_taken) rv.(core_id) rv.(pre_pc) rv.(allow_misalign)
    rv.(softfloat_exceptionFlags) rv.(softfloat_roundingMode).
Definition set_csr_mimpid (rv : riscv) v : riscv :=
  mk_riscv rv.(halt) rv.(X) rv.(PC) rv.(timer) rv.(F) rv.(csr_fcsr)
    rv.(csr_cycle) rv.(csr_time) rv.(csr_mstatus) rv.(csr_mtvec)
    rv.(csr_misa) rv.(csr_mtval) rv.(csr_mcause) rv.(csr_mscratch)
    rv.(csr_mepc) rv.(csr_mip) rv.(csr_mie) rv.(csr_mideleg)
    rv.(csr_medeleg) rv.(csr_mvendorid) rv.(csr_marchid) v rv.(csr_mbadaddr)
    rv.(csr_sstatus) rv.(csr_stvec) rv.(csr_sip) rv.(csr_sie)
    rv.(csr_scounteren) rv.(csr_sscratch) rv.(csr_sepc) rv.(csr_scause)
    rv.(csr_stval) rv.(csr_satp) rv.(priv_mode) rv.(compressed) rv.(last_pc)
    rv.(is_branch_taken) rv.(core_id) rv.(pre_pc) rv.(allow_misalign)
    rv.(softfloat_exceptionFlags) rv.(softfloat_roundingMode).
Definition set_csr_mbadaddr (rv : riscv) v : riscv :=
  mk_riscv rv.(halt) rv.(X) rv.(PC) rv.(timer) rv.(F) rv.(csr_fcsr)
    rv.(csr_cycle) rv.(csr_time) rv.(csr_mstatus) rv.(csr_mtvec)
    rv.(csr_misa) rv.(csr_mtval) rv.(csr_mcause) rv.(csr_mscratch)
    rv.(csr_mepc) rv.(csr_mip) rv.(csr_mie) rv.(csr_mideleg)
    rv.(csr_medeleg) rv.(csr_mvendorid) rv.(csr_marchid) rv.(csr_mimpid) v
    rv.(csr_sstatus) rv.(csr_stvec) rv.(csr_sip) rv.(csr_sie)
    rv.(csr_scounteren) rv.(csr_sscratch) rv.(csr_sepc) rv.(csr_scause)
    rv.(csr_stval) rv.(csr_satp) rv.(priv_mode) rv.(compressed) rv.(last_pc)
    rv.(is_branch_taken) rv.(core_id) rv.(pre_pc) rv.(allow_misalign)
    rv.(softfloat_exceptionFlags) rv.(softfloat_roundingMode).
Definition set_csr_sstatus (rv : riscv) v : riscv :=
  mk_riscv rv.(halt) rv.(X) rv.(PC) rv.(timer) rv.(F) rv.(csr_fcsr)
    rv.(csr_cycle) rv.(csr_time) rv.(csr_mstatus) rv.(csr_mtvec)
    rv.(csr_misa) rv.(csr_mtval) rv.(csr_mcause) rv.(csr_mscratch)
    rv.(csr_mepc) rv.(csr_mip) rv.(csr_mie) rv.(csr_mideleg)
    rv.(csr_medeleg) rv.(csr_mvendorid) rv.(csr_marchid) rv.(csr_mimpid)
    rv.(csr_mbadaddr) v rv.(csr_stvec) rv.(csr_sip) rv.(csr_sie)
    rv.(csr_scounteren) rv.(csr_sscratch) rv.(csr_sepc) rv.(csr_scause)
    rv.(csr_stval) rv.(csr_satp) rv.(priv_mode) rv.(compressed) rv.(last_pc)
    rv.(is_branch_taken) rv.(core_id) rv.(pre_pc) rv.(allow_misalign)
    rv.(softfloat_exceptionFlags) rv.(softfloat_roundingMode).
Definition set_csr_stvec (rv : riscv) v : riscv :=
  mk_riscv rv.(halt) rv.(X) rv.(PC) rv.(timer) rv.(F) rv.(csr_fcsr)
    rv.(csr_cycle) rv.(csr_time) rv.(csr_mstatus) rv.(csr_mtvec)
    rv.(csr_misa) rv.(csr_mtval) rv.(csr_mcause) rv.(csr_mscratch)
    rv.(csr_mepc) rv.(csr_mip) rv.(csr_mie) rv.(csr_mideleg)
    rv.(csr_medeleg) rv.(csr_mvendorid) rv.(csr_marchid) rv.(csr_mimpid)
    rv.(csr_mbadaddr) rv.(csr_sstatus) v rv.(csr_sip) rv.(csr_sie)
    rv.(csr_scounteren) rv.(csr_sscratch) rv.(csr_sepc) rv.(csr_scause)
    rv.(csr_stval) rv.(csr_satp) rv.(priv_mode) rv.(compressed) rv.(last_pc)
    rv.(is_branch_taken) rv.(core_id) rv.(pre_pc) rv.(allow_misalign)
    rv.(softfloat_exceptionFlags) rv.(softfloat_roundingMode).
Definition set_csr_sip (rv : riscv) v : riscv :=
  mk_riscv rv.(halt) rv.(X) rv.(PC) rv.(timer) rv.(F) rv.(csr_fcsr)
    rv.(csr_cycle) rv.(csr_time) rv.(csr_mstatus) rv.(csr_mtvec)
    rv.(csr_misa) rv.(csr_mtval) rv.(csr_mcause) rv.(csr_mscratch)
    rv.(csr_mepc) rv.(csr_mip) rv.(csr_mie) rv.(csr_mideleg)
    rv.(csr_medeleg) rv.(csr_mvendorid) rv.(csr_marchid) rv.(csr_mimpid)
    rv.(csr_mbadaddr) rv.(csr_sstatus) rv.(csr_stvec) v rv.(csr_sie)
    rv.(csr_scounteren) rv.(csr_sscratch) rv.(csr_sepc) rv.(csr_scause)
    rv.(csr_stval) rv.(csr_satp) rv.(priv_mode) rv.(compressed) rv.(last_pc)
    rv.(is_branch_taken) rv.(core_id) rv.(pre_pc) rv.(allow_misalign)
    rv.(softfloat_exceptionFlags) rv.(softfloat_roundingMode).
Definition set_csr_sie (rv : riscv) v : riscv :=
  mk_riscv rv.(halt) rv.(X) rv.(PC) rv.(timer) rv.(F) rv.(csr_fcsr)
    rv.(csr_cycle) rv.(csr_time) rv.(csr_mstatus) rv.(csr_mtvec)
    rv.(csr_misa) rv.(csr_mtval) rv.(csr_mcause) rv.(csr_mscratch)
    rv.(csr_mepc) rv.(csr_mip) rv.(csr_mie) rv.(csr_mideleg)
    rv.(csr_medeleg) rv.(csr_mvendorid) rv.(csr_marchid) rv.(csr_mimpid)
    rv.(csr_mbadaddr) rv.(csr_sstatus) rv.(csr_stvec) rv.(csr_sip) v
    rv.(csr_scounteren) rv.(csr_sscratch) rv.(csr_sepc) rv.(csr_scause)
    rv.(csr_stval) rv.(csr_satp) rv.(priv_mode) rv.(compressed) rv.(last_pc)
    rv.(is_branch_taken) rv.(core_id) rv.(pre_pc) rv.(allow_misalign)
    rv.(softfloat_exceptionFlags) rv.(softfloat_roundingMode).
Definition set_csr_scounteren (rv : riscv) v : riscv :=
  mk_riscv rv.(halt) rv.(X) rv.(PC) rv.(timer) rv.(F) rv.(csr_fcsr)
    rv.(csr_cycle) rv.(csr_time) rv.(csr_mstatus) rv.(csr_mtvec)
    rv.(csr_misa) rv.(csr_mtval) rv.(csr_mcause) rv.(csr_mscratch)
    rv.(csr_mepc) rv.(csr_mip) rv.(csr_mie) rv.(csr_mideleg)
    rv.(csr_medeleg) rv.(csr_mvendorid) rv.(csr_marchid) rv.(csr_mimpid)
    rv.(csr_mbadaddr) rv.(csr_sstatus) rv.(csr_stvec) rv.(csr_sip)
    rv.(csr_sie) v rv.(csr_sscratch) rv.(csr_sepc) rv.(csr_scause)
    rv.(csr_stval) rv.(csr_satp) rv.(priv_mode) rv.(compressed) rv.(last_pc)
    rv.(is_branch_taken) rv.(core_id) rv.(pre_pc) rv.(allow_misalign)
    rv.(softfloat_exceptionFlags) rv.(softfloat_roundingMode).
Definition set_csr_sscratch (rv : riscv) v : riscv :=
  mk_riscv rv.(halt) rv.(X) rv.(PC) rv.(timer) rv.(F) rv.(csr_fcsr)
    rv.(csr_cycle) rv.(csr_time) rv.(csr_mstatus) rv.(csr_mtvec)
    rv.(csr_misa) rv.(csr_mtval) rv.(csr_mcause) rv.(csr_mscratch)
    rv.(csr_mepc) rv.(csr_mip) rv.(csr_mie) rv.(csr_mideleg)
    rv.(csr_medeleg) rv.(csr_mvendorid) rv.(csr_marchid) rv.(csr_mimpid)
    rv.(csr_mbadaddr) rv.(csr_sstatus) rv.(csr_stvec) rv.(csr_sip)
    rv.(csr_sie) rv.(csr_scounteren) v rv.(csr_sepc) rv.(csr_scause)
    rv.(csr_stval) rv.(csr_satp) rv.(priv_mode) rv.(compressed) rv.(last_pc)
    rv.(is_branch_taken) rv.(core_id) rv.(pre_pc) rv.(allow_misalign)
    rv.(softfloat_exceptionFlags) rv.(softfloat_roundingMode).
Definition set_csr_sepc (rv : riscv) v : riscv :=
  mk_riscv rv.(halt) rv.(X) rv.(PC) rv.(timer) rv.(F) rv.(csr_fcsr)
    rv.(csr_cycle) rv.(csr_time) rv.(csr_mstatus) rv.(csr_mtvec)
    rv.(csr_misa) rv.(csr_mtval) rv.(csr_mcause) rv.(csr_mscratch)
    rv.(csr_mepc) rv.(csr_mip) rv.(csr_mie) rv.(csr_mideleg)
    rv.(csr_medeleg) rv.(csr_mvendorid) rv.(csr_marchid) rv.(csr_mimpid)
    rv.(csr_mbadaddr) rv.(csr_sstatus) rv.(csr_stvec) rv.(csr_sip)
    rv.(csr_sie) rv.(csr_scounteren) rv.(csr_sscratch) v rv.(csr_scause)
    rv.(csr_stval) rv.(csr_satp) rv.(priv_mode) rv.(compressed) rv.(last_pc)
    rv.(is_branch_taken) rv.(core_id) rv.(pre_pc) rv.(allow_misalign)
    rv.(softfloat_exceptionFlags) rv.(softfloat_roundingMode).
Definition set_csr_scause (rv : riscv) v : riscv :=
  mk_riscv rv.(halt) rv.(X) rv.(PC) rv.(timer) rv.(F) rv.(csr_fcsr)
    rv.(csr_cycle) rv.(csr_time) rv.(csr_mstatus) rv.(csr_mtvec)
    rv.(csr_misa) rv.(csr_mtval) rv.(csr_mcause) rv.(csr_mscratch)
    rv.(csr_mepc) rv.(csr_mip) rv.(csr_mie) rv.(csr_mideleg)
    rv.(csr_medeleg) rv.(csr_mvendorid) rv.(csr_marchid) rv.(csr_mimpid)
    rv.(csr_mbadaddr) rv.(csr_sstatus) rv.(csr_stvec) rv.(csr_sip)
    rv.(csr_sie) rv.(csr_scounteren) rv.(csr_sscratch) rv.(csr_sepc) v
    rv.(csr_stval) rv.(csr_satp) rv.(priv_mode) rv.(compressed) rv.(last_pc)
    rv.(is_branch_taken) rv.(core_id) rv.(pre_pc) rv.(allow_misalign)
    rv.(softfloat_exceptionFlags) rv.(softfloat_roundingMode).
Definition set_csr_stval (rv : riscv) v : riscv :=
  mk_riscv rv.(halt) rv.(X) rv.(PC) rv.(timer) rv.(F) rv.(csr_fcsr)
    rv.(csr_cycle) rv.(csr_time) rv.(csr_mstatus) rv.(csr_mtvec)
    rv.(csr_misa) rv.(csr_mtval) rv.(csr_mcause) rv.(csr_mscratch)
    rv.(csr_mepc) rv.(csr_mip) rv.(csr_mie) rv.(csr_mideleg)
    rv.(csr_medeleg) rv.(csr_mvendorid) rv.(csr_marchid) rv.(csr_mimpid)
    rv.(csr_mbadaddr) rv.(csr_sstatus) rv.(csr_stvec) rv.(csr_sip)
    rv.(csr_sie) rv.(csr_scounteren) rv.(csr_sscratch) rv.(csr_sepc)
    rv.(csr_scause) v rv.(csr_satp) rv.(priv_mode) rv.(compressed)
    rv.(last_pc) rv.(is_branch_taken) rv.(core_id) rv.(pre_pc)
    rv.(allow_misalign) rv.(softfloat_exceptionFlags)
    rv.(softfloat_roundingMode).
Definition set_csr_satp (rv : riscv) v : riscv :=
  mk_riscv rv.(halt) rv.(X) rv.(PC) rv.(timer) rv.(F) rv.(csr_fcsr)
    rv.(csr_cycle) rv.(csr_time) rv.(csr_mstatus) rv.(csr_mtvec)
    rv.(csr_misa) rv.(csr_mtval) rv.(csr_mcause) rv.(csr_mscratch)
    rv.(csr_mepc) rv.(csr_mip) rv.(csr_mie) rv.(csr_mideleg)
    rv.(csr_medeleg) rv.(csr_mvendorid) rv.(csr_marchid) rv.(csr_mimpid)
    rv.(csr_mbadaddr) rv.(csr_sstatus) rv.(csr_stvec) rv.(csr_sip)
    rv.(csr_sie) rv.(csr_scounteren) rv.(csr_sscratch) rv.(csr_sepc)
    rv.(csr_scause) rv.(csr_stval) v rv.(priv_mode) rv.(compressed)
    rv.(last_pc) rv.(is_branch_taken) rv.(core_id) rv.(pre_pc)
    rv.(allow_misalign) rv.(softfloat_exceptionFlags)
    rv.(softfloat_roundingMode).
Definition set_priv_mode (rv : riscv) v : riscv :=
  mk_riscv rv.(halt) rv.(X) rv.(PC) rv.(timer) rv.(F) rv.(csr_fcsr)
    rv.(csr_cycle) rv.(csr_time) rv.(csr_mstatus) rv.(csr_mtvec)
    rv.(csr_misa) rv.(csr_mtval) rv.(csr_mcause) rv.(csr_mscratch)
    rv.(csr_mepc) rv.(csr_mip) rv.(csr_mie) rv.(csr_mideleg)
    rv.(csr_medeleg) rv.(csr_mvendorid) rv.(csr_marchid) rv.(csr_mimpid)
    rv.(csr_mbadaddr) rv.(csr_sstatus) rv.(csr_stvec) rv.(csr_sip)
    rv.(csr_sie) rv.(csr_scounteren) rv.(csr_sscratch) rv.(csr_sepc)
    rv.(csr_scause) rv.(csr_stval) rv.(csr_satp) v rv.(compressed)
    rv.(last_pc) rv.(is_branch_taken) rv.(core_id) rv.(pre_pc)
    rv.(allow_misalign) rv.(softfloat_exceptionFlags)
    rv.(softfloat_roundingMode).
Definition set_compressed (rv : riscv) v : riscv :=
  mk_riscv rv.(halt) rv.(X) rv.(PC) rv.(timer) rv.(F) rv.(csr_fcsr)
    rv.(csr_cycle) rv.(csr_time) rv.(csr_mstatus) rv.(csr_mtvec)
    rv.(csr_misa) rv.(csr_mtval) rv.(csr_mcause) rv.(csr_mscratch)
    rv.(csr_mepc) rv.(csr_mip) rv.(csr_mie) rv.(csr_mideleg)
    rv.(csr_medeleg) rv.(csr_mvendorid) rv.(csr_marchid) rv.(csr_mimpid)
    rv.(csr_mbadaddr) rv.(csr_sstatus) rv.(csr_stvec) rv.(csr_sip)
    rv.(csr_sie) rv.(csr_scounteren) rv.(csr_sscratch) rv.(csr_sepc)
    rv.(csr_scause) rv.(csr_stval) rv.(csr_satp) rv.(priv_mode) v
    rv.(last_pc) rv.(is_branch_taken) rv.(core_id) rv.(pre_pc)
    rv.(allow_misalign) rv.(softfloat_exceptionFlags)
    rv.(softfloat_roundingMode).
Definition set_last_pc (rv : riscv) v : riscv :=
  mk_riscv rv.(halt) rv.(X) rv.(PC) rv.(timer) rv.(F) rv.(csr_fcsr)
    rv.(csr_cycle) rv.(csr_time) rv.(csr_mstatus) rv.(csr_mtvec)
    rv.(csr_misa) rv.(csr_mtval) rv.(csr_mcause) rv.(csr_mscratch)
    rv.(csr_mepc) rv.(csr_mip) rv.(csr_mie) rv.(csr_mideleg)
    rv.(csr_medeleg) rv.(csr_mvendorid) rv.(csr_marchid) rv.(csr_mimpid)
    rv.(csr_mbadaddr) rv.(csr_sstatus) rv.(csr_stvec) rv.(csr_sip)
    rv.(csr_sie) rv.(csr_scounteren) rv.(csr_sscratch) rv.(csr_sepc)
    rv.(csr_scause) rv.(csr_stval) rv.(csr_satp) rv.(priv_mode)
    rv.(compressed) v rv.(is_branch_taken) rv.(core_id) rv.(pre_pc)
    rv.(allow_misalign) rv.(softfloat_exceptionFlags)
    rv.(softfloat_roundingMode).
Definition set_is_branch_taken (rv : riscv) v : riscv :=
  mk_riscv rv.(halt) rv.(X) rv.(PC) rv.(timer) rv.(F) rv.(csr_fcsr)
    rv.(csr_cycle) rv.(csr_time) rv.(csr_mstatus) rv.(csr_mtvec)
    rv.(csr_misa) rv.(csr_mtval) rv.(csr_mcause) rv.(csr_mscratch)
    rv.(csr_mepc) rv.(csr_mip) rv.(csr_mie) rv.(csr_mideleg)
    rv.(csr_medeleg) rv.(csr_mvendorid) rv.(csr_marchid) rv.(csr_mimpid)
    rv.(csr_mbadaddr) rv.(csr_sstatus) rv.(csr_stvec) rv.(csr_sip)
    rv.(csr_sie) rv.(csr_scounteren) rv.(csr_sscratch) rv.(csr_sepc)
    rv.(csr_scause) rv.(csr_stval) rv.(csr_satp) rv.(priv_mode)
    rv.(compressed) rv.(last_pc) v rv.(core_id) rv.(pre_pc)
    rv.(allow_misalign) rv.(softfloat_exceptionFlags)
    rv.(softfloat_roundingMode).
Definition set_core_id (rv : riscv) v : riscv :=
  mk_riscv rv.(halt) rv.(X) rv.(PC) rv.(timer) rv.(F) rv.(csr_fcsr)
    rv.(csr_cycle) rv.(csr_time) rv.(csr_mstatus) rv.(csr_mtvec)
    rv.(csr_misa) rv.(csr_mtval) rv.(csr_mcause) rv.(csr_mscratch)
    rv.(csr_mepc) rv.(csr_mip) rv.(csr_mie) rv.(csr_mideleg)
    rv.(csr_medeleg) rv.(csr_mvendorid) rv.(csr_marchid) rv.(csr_mimpid)
    rv.(csr_mbadaddr) rv.(csr_sstatus) rv.(csr_stvec) rv.(csr_sip)
    rv.(csr_sie) rv.(csr_scounteren) rv.(csr_sscratch) rv.(csr_sepc)
    rv.(csr_scause) rv.(csr_stval) rv.(csr_satp) rv.(priv_mode)
    rv.(compressed) rv.(last_pc) rv.(is_branch_taken) v rv.(pre_pc)
    rv.(allow_misalign) rv.(softfloat_exceptionFlags)
    rv.(softfloat_roundingMode).
Definition set_pre_pc (rv : riscv) v : riscv :=
  mk_riscv rv.(halt) rv.(X) rv.(PC) rv.(timer) rv.(F) rv.(csr_fcsr)
    rv.(csr_cycle) rv.(csr_time) rv.(csr_mstatus) rv.(csr_mtvec)
    rv.(csr_misa) rv.(csr_mtval) rv.(csr_mcause) rv.(csr_mscratch)
    rv.(csr_mepc) rv.(csr_mip) rv.(csr_mie) rv.(csr_mideleg)
    rv.(csr_medeleg) rv.(csr_mvendorid) rv.(csr_marchid) rv.(csr_mimpid)
    rv.(csr_mbadaddr) rv.(csr_sstatus) rv.(csr_stvec) rv.(csr_sip)
    rv.(csr_sie) rv.(csr_scounteren) rv.(csr_sscratch) rv.(csr_sepc)
    rv.(csr_scause) rv.(csr_stval) rv.(csr_satp) rv.(priv_mode)
    rv.(compressed) rv.(last_pc) rv.(is_branch_taken) rv.(core_id) v
    rv.(allow_misalign) rv.(softfloat_exceptionFlags)
    rv.(softfloat_roundingMode).
Definition set_allow_misalign (rv : riscv) v : riscv :=
  mk_riscv rv.(halt) rv.(X) rv.(PC) rv.(timer) rv.(F) rv.(csr_fcsr)
    rv.(csr_cycle) rv.(csr_time) rv.(csr_mstatus) rv.(csr_mtvec)
    rv.(csr_misa) rv.(csr_mtval) rv.(csr_mcause) rv.(csr_mscratch)
    rv.(csr_mepc) rv.(csr_mip) rv.(csr_mie) rv.(csr_mideleg)
    rv.(csr_medeleg) rv.(csr_mvendorid) rv.(csr_marchid) rv.(csr_mimpid)
    rv.(csr_mbadaddr) rv.(csr_sstatus) rv.(csr_stvec) rv.(csr_sip)
    rv.(csr_sie) rv.(csr_scounteren) rv.(csr_sscratch) rv.(csr_sepc)
    rv.(csr_scause) rv.(csr_stval) rv.(csr_satp) rv.(priv_mode)
    rv.(compressed) rv.(last_pc) rv.(is_branch_taken) rv.(core_id)
    rv.(pre_pc) v rv.(softfloat_exceptionFlags) rv.(softfloat_roundingMode).
Definition set_softfloat_exceptionFlags (rv : riscv) v : riscv :=
  mk_riscv rv.(halt) rv.(X) rv.(PC) rv.(timer) rv.(F) rv.(csr_fcsr)
    rv.(csr_cycle) rv.(csr_time) rv.(csr_mstatus) rv.(csr_mtvec)
    rv.(csr_misa) rv.(csr_mtval) rv.(csr_mcause) rv.(csr_mscratch)
    rv.(csr_mepc) rv.(csr_mip) rv.(csr_mie) rv.(csr_mideleg)
    rv.(csr_medeleg) rv.(csr_mvendorid) rv.(csr_marchid) rv.(csr_mimpid)
    rv.(csr_mbadaddr) rv.(csr_sstatus) rv.(csr_stvec) rv.(csr_sip)
    rv.(csr_sie) rv.(csr_scounteren) rv.(csr_sscratch) rv.(csr_sepc)
    rv.(csr_scause) rv.(csr_stval) rv.(csr_satp) rv.(priv_mode)
    rv.(compressed) rv.(last_pc) rv.(is_branch_taken) rv.(core_id)
    rv.(pre_pc) rv.(allow_misalign) v rv.(softfloat_roundingMode).
Definition set_softfloat_roundingMode (rv : riscv) v : riscv :=
  mk_riscv rv.(halt) rv.(X) rv.(PC) rv.(timer) rv.(F) rv.(csr_fcsr)
    rv.(csr_cycle) rv.(csr_time) rv.(csr_mstatus) rv.(csr_mtvec)
    rv.(csr_misa) rv.(csr_mtval) rv.(csr_mcause) rv.(csr_mscratch)
    rv.(csr_mepc) rv.(csr_mip) rv.(csr_mie) rv.(csr_mideleg)
    rv.(csr_medeleg) rv.(csr_mvendorid) rv.(csr_marchid) rv.(csr_mimpid)
    rv.(csr_mbadaddr) rv.(csr_sstatus) rv.(csr_stvec) rv.(csr_sip)
    rv.(csr_sie) rv.(csr_scounteren) rv.(csr_sscratch) rv.(csr_sepc)
    rv.(csr_scause) rv.(csr_stval) rv.(csr_satp) rv.(priv_mode)
    rv.(compressed) rv.(last_pc) rv.(is_branch_taken) rv.(core_id)
    rv.(pre_pc) rv.(allow_misalign) rv.(softfloat_exceptionFlags) v.

(** Register access: [rv->X[i]], [rv->X[i] = v] and the same for [F]. *)
Definition getX (rv : riscv) (i : Z) : Z := rv.(X) !!! Z.to_nat i.
Definition setX (rv : riscv) (i v : Z) : riscv :=
  set_X rv (<[Z.to_nat i := v]> rv.(X)).
Definition getF (rv : riscv) (i : Z) : Z := rv.(F) !!! Z.to_nat i.
Definition setF (rv : riscv) (i v : Z) : riscv :=
  set_F rv (<[Z.to_nat i := v]> rv.(F)).

(** ** CSR numbers and status bits (riscv_private.h, riscv.h) *)

Definition CSR_FFLAGS : Z := 0x001.
Definition CSR_FRM : Z := 0x002.
Definition CSR_FCSR : Z := 0x003.
Definition CSR_SSTATUS : Z := 0x100.
Definition CSR_SIE : Z := 0x104.
Definition CSR_STVEC : Z := 0x105.
Definition CSR_SCOUNTEREN : Z := 0x106.
Definition CSR_SSCRATCH : Z := 0x140.
Definition CSR_SEPC : Z := 0x141.
Definition CSR_SCAUSE : Z := 0x142.
Definition CSR_STVAL : Z := 0x143.
Definition CSR_SIP : Z := 0x144.
Definition CSR_SATP : Z := 0x180.
Definition CSR_MVENDORID : Z := 0xF11.
Definition CSR_MARCHID : Z := 0xF12.
Definition CSR_MIMPID : Z := 0xF13.
Definition CSR_MHARTID : Z := 0xF14.
Definition CSR_MSTATUS : Z := 0x300.
Definition CSR_MISA : Z := 0x301.
Definition CSR_MEDELEG : Z := 0x302.
Definition CSR_MIDELEG : Z := 0x303.
Definition CSR_MIE : Z := 0x304.
Definition CSR_MTVEC : Z := 0x305.
Definition CSR_MCOUNTEREN : Z := 0x306.
Definition CSR_MSCRATCH : Z := 0x340.
Definition CSR_MEPC : Z := 0x341.
Definition CSR_MCAUSE : Z := 0x342.
Definition CSR_MTVAL : Z := 0x343.
Definition CSR_MIP : Z := 0x344.
Definition CSR_CYCLE : Z := 0xC00.
Definition CSR_TIME : Z := 0xC01.
Definition CSR_INSTRET : Z := 0xC02.
Definition CSR_CYCLEH : Z := 0xC80.
Definition CSR_TIMEH : Z := 0xC81.
Definition CSR_INSTRETH : Z := 0xC82.

Definition MSTATUS_MIE_SHIFT : Z := 3.
Definition MSTATUS_MPIE_SHIFT : Z := 7.
Definition MSTATUS_MPP_SHIFT : Z := 11.
Definition MSTATUS_MIE : Z := 1 <<. MSTATUS_MIE_SHIFT.
Definition MSTATUS_MPIE : Z := 1 <<. MSTATUS_MPIE_SHIFT.
Definition MSTATUS_MPP : Z := 3 <<. MSTATUS_MPP_SHIFT.
Definition SSTATUS_SIE_SHIFT : Z := 1.
Definition SSTATUS_SPIE_SHIFT : Z := 5.
Definition SSTATUS_SPP_SHIFT : Z := 8.
Definition SSTATUS_SIE : Z := 1 <<. SSTATUS_SIE_SHIFT.
Definition RV_PRIV_U_MODE : Z := 0.
Definition RV_PRIV_S_MODE : Z := 1.
Definition RV_PRIV_M_MODE : Z := 3.
Definition RV_PRIV_IS_U_OR_S_MODE (rv : riscv) : bool :=
  rv.(priv_mode) <=? RV_PRIV_S_MODE.

Definition ILLEGAL_INSN : Z := 2.
Definition BREAKPOINT : Z := 3.
Definition LOAD_MISALIGNED : Z := 4.
Definition STORE_MISALIGNED : Z := 6.
Definition ECALL_M : Z := 11.

Definition FFLAG_MASK : Z := 0x1f.

(** ** CSR access *)

(** [csr_ptr] is what [csr_get_ptr] points at: a 32-bit field of [riscv], or
    a half of the 64-bit cycle counter. *)
Inductive csr_ptr : Type :=
  | p_mstatus | p_mtvec | p_misa | p_medeleg | p_mideleg | p_mscratch | p_mepc
  | p_mcause | p_mtval | p_mip | p_cycle (hi : bool) | p_time (i : nat) | p_fcsr
  | p_sstatus | p_sie | p_stvec | p_scounteren | p_sscratch | p_sepc | p_scause
  | p_stval | p_sip | p_satp.

Definition csr_load (rv : riscv) (p : csr_ptr) : Z :=
  match p with
  | p_mstatus => rv.(csr_mstatus) | p_mtvec => rv.(csr_mtvec)
  | p_misa => rv.(csr_misa) | p_medeleg => rv.(csr_medeleg)
  | p_mideleg => rv.(csr_mideleg) | p_mscratch => rv.(csr_mscratch)
  | p_mepc => rv.(csr_mepc) | p_mcause => rv.(csr_mcause)
  | p_mtval => rv.(csr_mtval) | p_mip => rv.(csr_mip)
  | p_cycle false => u32 rv.(csr_cycle)
  | p_cycle true => rv.(csr_cycle) >>. 32
  | p_time i => rv.(csr_time) !!! i
  | p_fcsr => rv.(csr_fcsr) | p_sstatus => rv.(csr_sstatus)
  | p_sie => rv.(csr_sie) | p_stvec => rv.(csr_stvec)
  | p_scounteren => rv.(csr_scounteren) | p_sscratch => rv.(csr_sscratch)
  | p_sepc => rv.(csr_sepc) | p_scause => rv.(csr_scause)
  | p_stval => rv.(csr_stval) | p_sip => rv.(csr_sip) | p_satp => rv.(csr_satp)
  end.

Definition csr_store (rv : riscv) (p : csr_ptr) (v : Z) : riscv :=
  match p with
  | p_mstatus => set_csr_mstatus rv v | p_mtvec => set_csr_mtvec rv v
  | p_misa => set_csr_misa rv v | p_medeleg => set_csr_medeleg rv v
  | p_mideleg => set_csr_mideleg rv v | p_mscratch => set_csr_mscratch rv v
  | p_mepc => set_csr_mepc rv v | p_mcause => set_csr_mcause rv v
  | p_mtval => set_csr_mtval rv v | p_mip => set_csr_mip rv v
  | p_cycle false => set_csr_cycle rv ((rv.(csr_cycle) >>. 32) * 2 ^ 32 + v)
  | p_cycle true => set_csr_cycle rv (v * 2 ^ 32 + u32 rv.(csr_cycle))
  | p_time i => set_csr_time rv (<[i := v]> rv.(csr_time))
  | p_fcsr => set_csr_fcsr rv v | p_sstatus => set_csr_sstatus rv v
  | p_sie => set_csr_sie rv v | p_stvec => set_csr_stvec rv v
  | p_scounteren => set_csr_scounteren rv v | p_sscratch => set_csr_sscratch rv v
  | p_sepc => set_csr_sepc rv v | p_scause => set_csr_scause rv v
  | p_stval => set_csr_stval rv v | p_sip => set_csr_sip rv v
  | p_satp => set_csr_satp rv v
  end.

Definition update_time (rv : riscv) : riscv :=
  set_csr_time rv [rv.(timer) &. 0xFFFFFFFF; u32 (rv.(timer) >>. 32)].

(** [None] is the null pointer. *)
Definition csr_get_ptr (rv : riscv) (csr : Z) : riscv * option csr_ptr :=
  let c := csr &. 0xFFF in
  if c =? CSR_MSTATUS then (rv, Some p_mstatus) else
  if c =? CSR_MTVEC then (rv, Some p_mtvec) else
  if c =? CSR_MISA then (rv, Some p_misa) else
  if c =? CSR_MEDELEG then (rv, Some p_medeleg) else
  if c =? CSR_MIDELEG then (rv, Some p_mideleg) else
  if c =? CSR_MSCRATCH then (rv, Some p_mscratch) else
  if c =? CSR_MEPC then (rv, Some p_mepc) else
  if c =? CSR_MCAUSE then (rv, Some p_mcause) else
  if c =? CSR_MTVAL then (rv, Some p_mtval) else
  if c =? CSR_MIP then (rv, Some p_mip) else
  if c =? CSR_CYCLE then (rv, Some (p_cycle false)) else
  if c =? CSR_CYCLEH then (rv, Some (p_cycle true)) else
  if c =? CSR_TIME then (update_time rv, Some (p_time 0)) else
  if c =? CSR_TIMEH then (update_time rv, Some (p_time 1)) else
  if c =? CSR_INSTRET then (rv, Some (p_cycle false)) else
  if c =? CSR_INSTRETH then (rv, Some (p_cycle true)) else
  if c =? CSR_FFLAGS then (rv, Some p_fcsr) else
  if c =? CSR_FCSR then (rv, Some p_fcsr) else
  if c =? CSR_SSTATUS then (rv, Some p_sstatus) else
  if c =? CSR_SIE then (rv, Some p_sie) else
  if c =? CSR_STVEC then (rv, Some p_stvec) else
  if c =? CSR_SCOUNTEREN then (rv, Some p_scounteren) else
  if c =? CSR_SSCRATCH then (rv, Some p_sscratch) else
  if c =? CSR_SEPC then (rv, Some p_sepc) else
  if c =? CSR_SCAUSE then (rv, Some p_scause) else
  if c =? CSR_STVAL then (rv, Some p_stval) else
  if c =? CSR_SIP then (rv, Some p_sip) else
  if c =? CSR_SATP then (rv, Some p_satp) else
  (rv, None).

(** Each returns the new state and the old value; [csr] is the immediate
    converted to [uint32_t]. *)
Definition csr_csrrw (rv : riscv) (csr val : Z) : riscv * Z :=
  match csr_get_ptr rv csr with
  | (rv, None) => (rv, 0)
  | (rv, Some c) =>
      let out := csr_load rv c in
      let out := if csr =? CSR_FFLAGS then out &. FFLAG_MASK else out in
      (csr_store rv c val, out)
  end.

Definition csr_csrrs (rv : riscv) (csr val : Z) : riscv * Z :=
  match csr_get_ptr rv csr with
  | (rv, None) => (rv, 0)
  | (rv, Some c) =>
      let out := csr_load rv c in
      let res := if csr =? CSR_FFLAGS then out &. FFLAG_MASK else out in
      (csr_store rv c (out |. val), res)
  end.

Definition csr_csrrc (rv : riscv) (csr val : Z) : riscv * Z :=
  match csr_get_ptr rv csr with
  | (rv, None) => (rv, 0)
  | (rv, Some c) =>
      let out := csr_load rv c in
      let res := if csr =? CSR_FFLAGS then out &. FFLAG_MASK else out in
      (csr_store rv c (out &. u32 (Z.lnot val)), res)
  end.

(** ** Traps *)

Definition rv_trap_default_handler (rv : riscv) : riscv :=
  let rv := set_csr_mepc rv
    (u32 (rv.(csr_mepc) + (if rv.(compressed) then 2 else 4))) in
  set_PC rv rv.(csr_mepc).

(** The switch on the vector mode that ends [_trap_handler]. *)
Definition trap_vector (rv : riscv) (base mode cause : Z) : riscv :=
  match mode with
  | 0 => set_PC rv base
  | 1 => set_PC rv (u32 (base + 4 * (cause &. 0x7fffffff)))
  | _ => rv
  end.

Definition _trap_handler (rv : riscv) : riscv :=
  if RV_PRIV_IS_U_OR_S_MODE rv then
    let sstatus_sie := (rv.(csr_sstatus) &. SSTATUS_SIE) >>. SSTATUS_SIE_SHIFT in
    let rv := set_csr_sstatus rv
      (rv.(csr_sstatus) |. u32 (sstatus_sie <<. SSTATUS_SPIE_SHIFT)) in
    let rv := set_csr_sstatus rv (rv.(csr_sstatus) &. u32 (Z.lnot SSTATUS_SIE)) in
    let rv := set_csr_sstatus rv
      (rv.(csr_sstatus) |. u32 (rv.(priv_mode) <<. SSTATUS_SPP_SHIFT)) in
    let rv := set_priv_mode rv RV_PRIV_S_MODE in
    let base := rv.(csr_stvec) &. u32 (Z.lnot 0x3) in
    let mode := rv.(csr_stvec) &. 0x3 in
    let cause := rv.(csr_scause) in
    let rv := set_csr_sepc rv rv.(PC) in
    trap_vector rv base mode cause
  else
    let mstatus_mie := (rv.(csr_mstatus) &. MSTATUS_MIE) >>. MSTATUS_MIE_SHIFT in
    let rv := set_csr_mstatus rv
      (rv.(csr_mstatus) |. u32 (mstatus_mie <<. MSTATUS_MPIE_SHIFT)) in
    let rv := set_csr_mstatus rv (rv.(csr_mstatus) &. u32 (Z.lnot MSTATUS_MIE)) in
    let rv := set_csr_mstatus rv
      (rv.(csr_mstatus) |. u32 (rv.(priv_mode) <<. MSTATUS_MPP_SHIFT)) in
    let rv := set_priv_mode rv RV_PRIV_M_MODE in
    let base := rv.(csr_mtvec) &. u32 (Z.lnot 0x3) in
    let mode := rv.(csr_mtvec) &. 0x3 in
    let cause := rv.(csr_mcause) in
    let rv := set_csr_mepc rv rv.(PC) in
    if rv.(csr_mtvec) =? 0 then rv_trap_default_handler rv
    else trap_vector rv base mode cause.

Definition trap_handler (rv : riscv) : riscv := _trap_handler rv.

(** The macro [SET_CAUSE_AND_TVAL_THEN_TRAP]; [on_trap] is the callback. *)
Definition SET_CAUSE_AND_TVAL_THEN_TRAP (on_trap : riscv -> riscv)
    (rv : riscv) (cause tval : Z) : riscv :=
  let rv :=
    if RV_PRIV_IS_U_OR_S_MODE rv
    then set_csr_stval (set_csr_scause rv cause) tval
    else set_csr_mtval (set_csr_mcause rv cause) tval in
  on_trap rv.

(** ** The I/O interface

    [riscv_io_t]: the callbacks through which the interpreter reaches memory,
    devices and the host.  [W] is the state behind them. *)
Record riscv_io (W : Type) : Type := mk_riscv_io {
  mem_ifetch : riscv -> W -> Z -> Z;
  mem_read_w : riscv -> W -> Z -> Z * W;
  mem_read_s : riscv -> W -> Z -> Z * W;
  mem_read_b : riscv -> W -> Z -> Z * W;
  mem_write_w : riscv -> W -> Z -> Z -> W;
  mem_write_s : riscv -> W -> Z -> Z -> W;
  mem_write_b : riscv -> W -> Z -> Z -> W;
  on_ecall : riscv -> W -> riscv * W;
  on_ebreak : riscv -> W -> riscv * W;
  on_trap : riscv -> riscv
}.
Arguments mem_ifetch {W}. Arguments mem_read_w {W}. Arguments mem_read_s {W}.
Arguments mem_read_b {W}. Arguments mem_write_w {W}. Arguments mem_write_s {W}.
Arguments mem_write_b {W}. Arguments on_ecall {W}. Arguments on_ebreak {W}.
Arguments on_trap {W}.

Definition ebreak_handler (on_trap : riscv -> riscv) (rv : riscv) : riscv :=
  SET_CAUSE_AND_TVAL_THEN_TRAP on_trap rv BREAKPOINT rv.(PC).

(** [syscall_handler] (src/rv32emu/src/syscall.c) works on the host. *)
Definition ecall_handler {W : Type} (on_trap : riscv -> riscv)
    (syscall_handler : riscv -> W -> riscv * W) (rv : riscv) (w : W) : riscv * W :=
  let rv := SET_CAUSE_AND_TVAL_THEN_TRAP on_trap rv ECALL_M 0 in
  syscall_handler rv w.

(** ** Creation and the register interface (src/rv32emu/src/riscv.c)

    [rv_new] allocates a zeroed structure: [None] is the failed assertion on
    an odd start address.  [allow_misalign] is what [rv32_create] chose. *)

Definition rv_zero (core : Z) : riscv :=
  {| halt := false; X := repeat 0 32; PC := 0; timer := 0; F := repeat 0 32;
     csr_fcsr := 0; csr_cycle := 0; csr_time := [0; 0]; csr_mstatus := 0;
     csr_mtvec := 0; csr_misa := 0; csr_mtval := 0; csr_mcause := 0;
     csr_mscratch := 0; csr_mepc := 0; csr_mip := 0; csr_mie := 0;
     csr_mideleg := 0; csr_medeleg := 0; csr_mvendorid := 0; csr_marchid := 0;
     csr_mimpid := 0; csr_mbadaddr := 0; csr_sstatus := 0; csr_stvec := 0;
     csr_sip := 0; csr_sie := 0; csr_scounteren := 0; csr_sscratch := 0;
     csr_sepc := 0; csr_scause := 0; csr_stval := 0; csr_satp := 0;
     priv_mode := 0; compressed := false; last_pc := 0; is_branch_taken := false;
     core_id := core; pre_pc := 0; allow_misalign := false;
     softfloat_exceptionFlags := 0; softfloat_roundingMode := 0 |}.

Definition N_RV_REGS : Z := 32.

Definition rv_set_pc (rv : riscv) (pc : Z) : riscv * bool :=
  if nz (pc &. 1) then (rv, false) else (set_PC rv pc, true).
Definition rv_get_pc (rv : riscv) : Z := rv.(PC).
Definition rv_set_reg (rv : riscv) (reg v : Z) : riscv :=
  if (reg <? N_RV_REGS) && negb (reg =? rv_reg_zero) then setX rv reg v else rv.
Definition rv_get_reg (rv : riscv) (reg : Z) : Z :=
  if reg <? N_RV_REGS then getX rv reg else 0xffffffff.
Definition rv_halt (rv : riscv) : riscv := set_halt rv true.
Definition rv_has_halted (rv : riscv) : bool := rv.(halt).

Definition rv_new (start core : Z) : option riscv :=
  match rv_set_pc (rv_zero core) start with
  | (rv, true) => Some rv
  | (_, false) => None
  end.
