(* ===== verification/Exec.v ===== *)
(** * The instruction handlers (src/rv32emu/src/rv32_template.c, emulate.c)

    One definition [do_<inst>] per [RVOP] of rv32_template.c, with the code
    the interpreter executes, and the handlers of emulate.c that are written
    by hand ([do_fuse1] .. [do_fuse5], [do_lw_mailbox]).  The code of an
    [RVOP] runs between [cycle++] and the label [nextop]; how it leaves is an
    [outcome], and [RVOP] is what the macro does with it.

    C leaves a shift by 32 or more undefined; gcc on x86-64 without
    optimisation shifts by the count modulo 32, which is what [shl32] and
    [shr32] do. *)

From Stdlib Require Import ZArith Lia Bool.
From stdpp Require Import base list numbers.
From S2P Require Import Prelude Decode Riscv.

(** ** Helpers of the C code *)

Definition shl32 (x n : Z) : Z := u32 (x <<. (n mod 32)).
Definition shr32 (x n : Z) : Z := x >>. (n mod 32).

(** [rv_clz] and [rv_ctz] (common.h) are called on non-zero words. *)
Definition rv_clz (v : Z) : Z := 31 - Z.log2 v.
Definition rv_ctz (v : Z) : Z := Z.log2 (v &. (- v)).
Definition rv_popcount (v : Z) : Z :=
  fold_left (fun n i => n + b2z (Z.testbit v i)) (seqZ 0 32) 0.

(** ** SoftFloat

    The operations of the SoftFloat library the handlers call: each takes
    the rounding mode it uses and returns the result with the exception
    flags it raises. *)
Record softfloat : Type := mk_softfloat {
  f32_mulAdd : Z -> Z -> Z -> Z -> Z * Z;
  f32_add : Z -> Z -> Z -> Z * Z;
  f32_sub : Z -> Z -> Z -> Z * Z;
  f32_mul : Z -> Z -> Z -> Z * Z;
  f32_div : Z -> Z -> Z -> Z * Z;
  f32_sqrt : Z -> Z -> Z * Z;
  f32_to_i32 : Z -> Z -> Z * Z;
  f32_to_ui32 : Z -> Z -> Z * Z;
  i32_to_f32 : Z -> Z -> Z * Z;
  ui32_to_f32 : Z -> Z -> Z * Z;
  f32_eq : Z -> Z -> bool * Z;
  f32_lt : Z -> Z -> bool * Z;
  f32_le : Z -> Z -> bool * Z;
  f32_lt_quiet : Z -> Z -> bool * Z;
  f32_isSignalingNaN : Z -> bool
}.

Definition FMASK_SIGN : Z := 0x80000000.
Definition FMASK_EXPN : Z := 0x7f800000.
Definition FMASK_FRAC : Z := 0x007fffff.
Definition FMASK_QNAN : Z := 0x00400000.
Definition FFLAG_INVALID_OP : Z := 0x10.
Definition FFLAG_DIV_BY_ZERO : Z := 0x08.
Definition FFLAG_OVERFLOW : Z := 0x04.
Definition FFLAG_UNDERFLOW : Z := 0x02.
Definition FFLAG_INEXACT : Z := 0x01.
Definition RV_NAN : Z := 0x7fc00000.

Definition calc_fclass (f : Z) : Z :=
  let sign := f &. FMASK_SIGN in
  let expn := f &. FMASK_EXPN in
  let frac := f &. FMASK_FRAC in
  if nz expn then
    if negb (expn =? FMASK_EXPN) then (if nz sign then 0x002 else 0x040)
    else if nz frac then (if nz (frac &. FMASK_QNAN) then 0x200 else 0x100)
    else if sign =? 0 then 0x080
    else 0x001
  else if nz frac then (if nz sign then 0x004 else 0x020)
  else (if nz sign then 0x008 else 0x010).

Definition is_nan (f : Z) : bool :=
  let expn := f &. FMASK_EXPN in
  let frac := f &. FMASK_FRAC in
  (expn =? FMASK_EXPN) && nz frac.

(** The flag bits of SoftFloat: inexact, underflow, overflow, infinite
    (division by zero) and invalid, from bit 0 up. *)
Definition set_fflag (rv : riscv) : riscv :=
  let fl := rv.(softfloat_exceptionFlags) in
  let add bit flag (rv : riscv) :=
    if nz (fl &. bit) then set_csr_fcsr rv (rv.(csr_fcsr) |. flag) else rv in
  let rv := add 16 FFLAG_INVALID_OP rv in
  let rv := add 8 FFLAG_DIV_BY_ZERO rv in
  let rv := add 4 FFLAG_OVERFLOW rv in
  let rv := add 2 FFLAG_UNDERFLOW rv in
  let rv := add 1 FFLAG_INEXACT rv in
  set_softfloat_exceptionFlags rv 0.

(** [None] is the unreachable default of the switch. *)
Definition set_rounding_mode (rv : riscv) (rm : Z) : option riscv :=
  let frm := (rv.(csr_fcsr) >>. 5) &. u32 (Z.lnot (1 <<. 3)) in
  let rm := if rm =? 7 then u8 frm else rm in
  match rm with
  | 0 | 1 | 2 | 3 | 4 => Some (set_softfloat_roundingMode rv rm)
  | _ => None
  end.

(** ** Outcomes *)

(** [nextop PC]: fall through to the label [nextop]; [end_op PC]: jump to
    [end_op]; [ret b]: [return b] with the state already stored; [tail t PC
    bt]: tail call of the block that starts at [t], after the branch table
    of the instruction was replaced by [bt]; [unreachable]: undefined. *)
Inductive outcome : Type :=
  | nextop (pc : Z)
  | end_op (pc : Z)
  | ret (b : bool)
  | tail (t : Z) (pc : Z) (bt : option branch_history_table)
  | unreachable.

Section handlers.
Context {W : Type} (io : riscv_io W) (sf : softfloat).
(** [block_find(&rv->block_map, pc)]: the start address of the block found. *)
Context (block_find_pc : Z -> option Z).

Definition code : Type := riscv -> W -> rv_insn -> Z -> Z -> riscv * W * outcome.

(** [rv->X[ir->rd] = e; ] *)
Definition wr_rd (e : riscv -> rv_insn -> Z -> Z) : code :=
  fun rv w ir cycle pc => (setX rv ir.(rd) (e rv ir pc), w, nextop pc).

(** [RV_EXC_MISALIGN_HANDLER(mask, type, compress, 1)]: trap and return
    false, or go on with [k]. *)
Definition RV_EXC_MISALIGN_HANDLER (rv : riscv) (w : W) (cycle pc addr mask type : Z)
    (compress : bool) (k : riscv * W * outcome) : riscv * W * outcome :=
  if negb rv.(allow_misalign) && nz (addr &. mask) then
    let rv := set_compressed rv compress in
    let rv := set_csr_cycle rv cycle in
    let rv := set_PC rv pc in
    (SET_CAUSE_AND_TVAL_THEN_TRAP io.(on_trap) rv type addr, w, ret false)
  else k.

(** The part of a jump after the program counter is known: chain to the
    block of [branch_taken], or leave. *)
Definition jump_taken (rv : riscv) (w : W) (ir : rv_insn) (pc : Z)
    : riscv * W * outcome :=
  match ir.(branch_taken) with
  | Some t => (set_last_pc rv pc, w, tail t pc ir.(branch_table))
  | None => (rv, w, end_op pc)
  end.

(** [LOOKUP_OR_UPDATE_BRANCH_HISTORY_TABLE]: the loop finds the first entry
    equal to [PC]. *)
Fixpoint bht_find (pcs : list Z) (pc : Z) : option nat :=
  match pcs with
  | [] => None
  | p :: pcs => if p =? pc then Some 0%nat else S <$> bht_find pcs pc
  end.

Definition LOOKUP_OR_UPDATE_BRANCH_HISTORY_TABLE (rv : riscv) (w : W)
    (ir : rv_insn) (pc : Z) : riscv * W * outcome :=
  match ir.(branch_table) with
  | None => (rv, w, unreachable)
  | Some bt =>
      match bht_find bt.(bt_PC) pc with
      | Some i =>
          match bt.(bt_target) !!! i with
          | Some t => (rv, w, tail t pc (Some bt))
          | None => (rv, w, unreachable)
          end
      | None =>
          match block_find_pc pc with
          | Some t =>
              let i := Z.to_nat bt.(bt_idx) in
              let bt := mk_bht (<[i := pc]> bt.(bt_PC))
                ((bt.(bt_idx) + 1) mod HISTORY_SIZE)
                (<[i := Some t]> bt.(bt_target)) in
              (rv, w, tail t pc (Some bt))
          | None => (rv, w, end_op pc)
          end
      end
  end.

(** ** RV32I *)

Definition do_nop : code := fun rv w ir cycle pc =>
  (setX rv rv_reg_zero 0, w, nextop pc).
Definition do_lui : code := wr_rd (fun rv ir pc => u32 ir.(imm)).
Definition do_auipc : code := wr_rd (fun rv ir pc => u32 (ir.(imm) + pc)).

Definition do_jal : code := fun rv w ir cycle pc0 =>
  let pc := pc0 in
  let PC := u32 (pc + ir.(imm)) in
  let rv := if nz ir.(rd) then setX rv ir.(rd) (u32 (pc + 4)) else rv in
  jump_taken rv w ir PC.

Definition do_jalr : code := fun rv w ir cycle pc0 =>
  let pc := pc0 in
  let PC := u32 (getX rv ir.(rs1) + ir.(imm)) &. u32 (Z.lnot 1) in
  let rv := if nz ir.(rd) then setX rv ir.(rd) (u32 (pc + 4)) else rv in
  LOOKUP_OR_UPDATE_BRANCH_HISTORY_TABLE rv w ir PC.

(** [BRANCH_FUNC(type, cond)] in the build without JIT and SYSTEM: [untaken]
    is the value of the condition, which is the negation of the branch's. *)
Definition BRANCH_FUNC (untaken : Z -> Z -> bool) : code := fun rv w ir cycle PC =>
  if untaken (getX rv ir.(rs1)) (getX rv ir.(rs2)) then
    let rv := set_is_branch_taken rv false in
    match ir.(branch_untaken) with
    | None => (rv, w, nextop PC)
    | Some _ => (rv, w, end_op (u32 (PC + 4)))
    end
  else
    let rv := set_is_branch_taken rv true in
    (rv, w, end_op (u32 (PC + ir.(imm)))).

Definition do_beq : code := BRANCH_FUNC (fun x y => negb (x =? y)).
Definition do_bne : code := BRANCH_FUNC (fun x y => x =? y).
Definition do_blt : code := BRANCH_FUNC (fun x y => s32 y <=? s32 x).
Definition do_bge : code := BRANCH_FUNC (fun x y => s32 x <? s32 y).
Definition do_bltu : code := BRANCH_FUNC (fun x y => y <=? x).
Definition do_bgeu : code := BRANCH_FUNC (fun x y => x <? y).

Definition load_addr (rv : riscv) (ir : rv_insn) : Z :=
  u32 (getX rv ir.(rs1) + ir.(imm)).

Definition do_lb : code := fun rv w ir cycle pc =>
  let addr := load_addr rv ir in
  let '(v, w) := io.(mem_read_b) rv w addr in
  (setX rv ir.(rd) (sign_extend_b v), w, nextop pc).
Definition do_lh : code := fun rv w ir cycle pc =>
  let addr := load_addr rv ir in
  RV_EXC_MISALIGN_HANDLER rv w cycle pc addr 1 LOAD_MISALIGNED false (
  let '(v, w) := io.(mem_read_s) rv w addr in
  (setX rv ir.(rd) (sign_extend_h v), w, nextop pc)).
Definition do_lw : code := fun rv w ir cycle pc =>
  let addr := load_addr rv ir in
  RV_EXC_MISALIGN_HANDLER rv w cycle pc addr 3 LOAD_MISALIGNED false (
  let '(v, w) := io.(mem_read_w) rv w addr in
  (setX rv ir.(rd) v, w, nextop pc)).
Definition do_lbu : code := fun rv w ir cycle pc =>
  let addr := load_addr rv ir in
  let '(v, w) := io.(mem_read_b) rv w addr in
  (setX rv ir.(rd) v, w, nextop pc).
Definition do_lhu : code := fun rv w ir cycle pc =>
  let addr := load_addr rv ir in
  RV_EXC_MISALIGN_HANDLER rv w cycle pc addr 1 LOAD_MISALIGNED false (
  let '(v, w) := io.(mem_read_s) rv w addr in
  (setX rv ir.(rd) v, w, nextop pc)).

Definition do_sb : code := fun rv w ir cycle pc =>
  let addr := load_addr rv ir in
  (rv, io.(mem_write_b) rv w addr (u8 (getX rv ir.(rs2))), nextop pc).
Definition do_sh : code := fun rv w ir cycle pc =>
  let addr := load_addr rv ir in
  RV_EXC_MISALIGN_HANDLER rv w cycle pc addr 1 STORE_MISALIGNED false
  (rv, io.(mem_write_s) rv w addr (u16 (getX rv ir.(rs2))), nextop pc).
Definition do_sw : code := fun rv w ir cycle pc =>
  let addr := load_addr rv ir in
  RV_EXC_MISALIGN_HANDLER rv w cycle pc addr 3 STORE_MISALIGNED false
  (rv, io.(mem_write_w) rv w addr (getX rv ir.(rs2)), nextop pc).

Definition do_addi : code :=
  wr_rd (fun rv ir pc => u32 (getX rv ir.(rs1) + ir.(imm))).
Definition do_slti : code :=
  wr_rd (fun rv ir pc => if s32 (getX rv ir.(rs1)) <? ir.(imm) then 1 else 0).
Definition do_sltiu : code :=
  wr_rd (fun rv ir pc => if getX rv ir.(rs1) <? u32 ir.(imm) then 1 else 0).
Definition do_xori : code :=
  wr_rd (fun rv ir pc => getX rv ir.(rs1) ^. u32 ir.(imm)).
Definition do_ori : code :=
  wr_rd (fun rv ir pc => getX rv ir.(rs1) |. u32 ir.(imm)).
Definition do_andi : code :=
  wr_rd (fun rv ir pc => getX rv ir.(rs1) &. u32 ir.(imm)).

(** [shift_func]; [None] is the unreachable default. *)
Definition shift_func (rv : riscv) (o : insn_op) (rd rs1 imm : Z) : option riscv :=
  match o with
  | rv_insn_slli => Some (setX rv rd (u32 (getX rv rs1 <<. (imm &. 0x1f))))
  | rv_insn_srli => Some (setX rv rd (getX rv rs1 >>. (imm &. 0x1f)))
  | rv_insn_srai => Some (setX rv rd (u32 (s32 (getX rv rs1) >>. (imm &. 0x1f))))
  | _ => None
  end.

Definition do_shift : code := fun rv w ir cycle pc =>
  match shift_func rv ir.(opcode) ir.(rd) ir.(rs1) ir.(imm) with
  | Some rv => (rv, w, nextop pc)
  | None => (rv, w, unreachable)
  end.
Definition do_slli : code := do_shift.
Definition do_srli : code := do_shift.
Definition do_srai : code := do_shift.

Definition do_add : code :=
  wr_rd (fun rv ir pc => u32 (getX rv ir.(rs1) + getX rv ir.(rs2))).
Definition do_sub : code :=
  wr_rd (fun rv ir pc => u32 (getX rv ir.(rs1) - getX rv ir.(rs2))).
Definition do_sll : code :=
  wr_rd (fun rv ir pc => u32 (getX rv ir.(rs1) <<. (getX rv ir.(rs2) &. 0x1f))).
Definition do_slt : code :=
  wr_rd (fun rv ir pc =>
    if s32 (getX rv ir.(rs1)) <? s32 (getX rv ir.(rs2)) then 1 else 0).
Definition do_sltu : code :=
  wr_rd (fun rv ir pc => if getX rv ir.(rs1) <? getX rv ir.(rs2) then 1 else 0).
Definition do_xor : code :=
  wr_rd (fun rv ir pc => getX rv ir.(rs1) ^. getX rv ir.(rs2)).
Definition do_srl : code :=
  wr_rd (fun rv ir pc => getX rv ir.(rs1) >>. (getX rv ir.(rs2) &. 0x1f)).
Definition do_sra : code :=
  wr_rd (fun rv ir pc => u32 (s32 (getX rv ir.(rs1)) >>. (getX rv ir.(rs2) &. 0x1f))).
Definition do_or : code :=
  wr_rd (fun rv ir pc => getX rv ir.(rs1) |. getX rv ir.(rs2)).
Definition do_and : code :=
  wr_rd (fun rv ir pc => getX rv ir.(rs1) &. getX rv ir.(rs2)).

Definition do_fence : code := fun rv w ir cycle PC => (rv, w, end_op (u32 (PC + 4))).

Definition do_ecall : code := fun rv w ir cycle PC =>
  let rv := set_compressed rv false in
  let rv := set_csr_cycle rv cycle in
  let rv := set_PC rv PC in
  let '(rv, w) := io.(on_ecall) rv w in
  (rv, w, ret true).
Definition do_ebreak : code := fun rv w ir cycle PC =>
  let rv := set_compressed rv false in
  let rv := set_csr_cycle rv cycle in
  let rv := set_PC rv PC in
  let '(rv, w) := io.(on_ebreak) rv w in
  (rv, w, ret true).
Definition do_wfi : code := fun rv w ir cycle PC => (rv, w, end_op (u32 (PC + 4))).
Definition do_uret : code := fun rv w ir cycle PC => (rv, w, ret false).
Definition do_hret : code := fun rv w ir cycle PC => (rv, w, ret false).

Definition do_mret : code := fun rv w ir cycle PC =>
  let rv := set_priv_mode rv
    ((rv.(csr_mstatus) &. MSTATUS_MPP) >>. MSTATUS_MPP_SHIFT) in
  let rv := set_csr_mstatus rv (rv.(csr_mstatus) &. u32 (Z.lnot MSTATUS_MPP)) in
  let mstatus_mpie := (rv.(csr_mstatus) &. MSTATUS_MPIE) >>. MSTATUS_MPIE_SHIFT in
  let rv := set_csr_mstatus rv
    (rv.(csr_mstatus) |. u32 (mstatus_mpie <<. MSTATUS_MIE_SHIFT)) in
  let rv := set_csr_mstatus rv (rv.(csr_mstatus) |. MSTATUS_MPIE) in
  (set_PC rv rv.(csr_mepc), w, ret true).

Definition do_sfencevma : code := fun rv w ir cycle PC =>
  (rv, w, end_op (u32 (PC + 4))).
Definition do_fencei : code := fun rv w ir cycle PC =>
  let PC := u32 (PC + 4) in
  (set_PC (set_csr_cycle rv cycle) PC, w, ret true).

(** ** Zicsr *)

(** [rv->X[ir->rd] = ir->rd ? tmp : rv->X[ir->rd]]. *)
Definition wr_csr (ir : rv_insn) (w : W) (pc : Z) (r : riscv * Z)
    : riscv * W * outcome :=
  let '(rv, tmp) := r in
  (setX rv ir.(rd) (if nz ir.(rd) then tmp else getX rv ir.(rd)), w, nextop pc).

Definition do_csrrw : code := fun rv w ir cycle pc =>
  wr_csr ir w pc (csr_csrrw rv (u32 ir.(imm)) (getX rv ir.(rs1))).
Definition do_csrrs : code := fun rv w ir cycle pc =>
  wr_csr ir w pc (csr_csrrs rv (u32 ir.(imm))
    (if ir.(rs1) =? rv_reg_zero then 0 else getX rv ir.(rs1))).
Definition do_csrrc : code := fun rv w ir cycle pc =>
  wr_csr ir w pc (csr_csrrc rv (u32 ir.(imm))
    (if ir.(rs1) =? rv_reg_zero then 0 else getX rv ir.(rs1))).
Definition do_csrrwi : code := fun rv w ir cycle pc =>
  wr_csr ir w pc (csr_csrrw rv (u32 ir.(imm)) ir.(rs1)).
Definition do_csrrsi : code := fun rv w ir cycle pc =>
  wr_csr ir w pc (csr_csrrs rv (u32 ir.(imm)) ir.(rs1)).
Definition do_csrrci : code := fun rv w ir cycle pc =>
  wr_csr ir w pc (csr_csrrc rv (u32 ir.(imm)) ir.(rs1)).

(** ** RV32M *)

Definition do_mul : code := wr_rd (fun rv ir pc =>
  let multiplicand := s32 (getX rv ir.(rs1)) in
  let multiplier := s32 (getX rv ir.(rs2)) in
  u64 (multiplicand * multiplier) &. ((1 <<. 32) - 1)).
Definition do_mulh : code := wr_rd (fun rv ir pc =>
  let multiplicand := s32 (getX rv ir.(rs1)) in
  let multiplier := s32 (getX rv ir.(rs2)) in
  u32 (u64 (multiplicand * multiplier) >>. 32)).
Definition do_mulhsu : code := wr_rd (fun rv ir pc =>
  let multiplicand := s32 (getX rv ir.(rs1)) in
  let umultiplier := getX rv ir.(rs2) in
  u32 (u64 (u64 multiplicand * umultiplier) >>. 32)).
Definition do_mulhu : code := wr_rd (fun rv ir pc =>
  u32 (u64 (getX rv ir.(rs1) * getX rv ir.(rs2)) >>. 32)).

(** C's [/] and [%] on signed integers truncate: [Z.quot] and [Z.rem]. *)
Definition do_div : code := wr_rd (fun rv ir pc =>
  let dividend := s32 (getX rv ir.(rs1)) in
  let divisor := s32 (getX rv ir.(rs2)) in
  if divisor =? 0 then 0xffffffff
  else if (divisor =? -1) && (getX rv ir.(rs1) =? 0x80000000)
  then getX rv ir.(rs1)
  else u32 (Z.quot dividend divisor)).
Definition do_divu : code := wr_rd (fun rv ir pc =>
  let udividend := getX rv ir.(rs1) in
  let udivisor := getX rv ir.(rs2) in
  if udivisor =? 0 then 0xffffffff else udividend / udivisor).
Definition do_rem : code := wr_rd (fun rv ir pc =>
  let dividend := s32 (getX rv ir.(rs1)) in
  let divisor := s32 (getX rv ir.(rs2)) in
  u32 (if divisor =? 0 then dividend
       else if (divisor =? -1) && (getX rv ir.(rs1) =? 0x80000000) then 0
       else Z.rem dividend divisor)).
Definition do_remu : code := wr_rd (fun rv ir pc =>
  let udividend := getX rv ir.(rs1) in
  let udivisor := getX rv ir.(rs2) in
  if udivisor =? 0 then udividend else udividend mod udivisor).

(** ** RV32A *)

Definition do_lrw : code := fun rv w ir cycle pc =>
  let addr := getX rv ir.(rs1) in
  RV_EXC_MISALIGN_HANDLER rv w cycle pc addr 3 LOAD_MISALIGNED false (
  if nz ir.(rd) then
    let '(v, w) := io.(mem_read_w) rv w addr in
    (setX rv ir.(rd) v, w, nextop pc)
  else (rv, w, nextop pc)).

Definition do_scw : code := fun rv w ir cycle pc =>
  let addr := getX rv ir.(rs1) in
  RV_EXC_MISALIGN_HANDLER rv w cycle pc addr 3 STORE_MISALIGNED false (
  let w := io.(mem_write_w) rv w addr (getX rv ir.(rs2)) in
  (setX rv ir.(rd) 0, w, nextop pc)).

(** The nine read-modify-write instructions share their shape: [f] computes
    the word written back from the one read and the operand. *)
Definition amo_op (f : Z -> Z -> Z) : code := fun rv w ir cycle pc =>
  let addr := getX rv ir.(rs1) in
  RV_EXC_MISALIGN_HANDLER rv w cycle pc addr 3 LOAD_MISALIGNED false (
  let '(value1, w) := io.(mem_read_w) rv w addr in
  let value2 := getX rv ir.(rs2) in
  let rv := if nz ir.(rd) then setX rv ir.(rd) value1 else rv in
  (rv, io.(mem_write_w) rv w addr (f value1 value2), nextop pc)).

Definition do_amoswapw : code := amo_op (fun value1 value2 => value2).
Definition do_amoaddw : code := amo_op (fun value1 value2 => u32 (value1 + value2)).
Definition do_amoxorw : code := amo_op (fun value1 value2 => value1 ^. value2).
Definition do_amoandw : code := amo_op (fun value1 value2 => value1 &. value2).
Definition do_amoorw : code := amo_op (fun value1 value2 => value1 |. value2).
Definition do_amominw : code := amo_op (fun value1 value2 =>
  if s32 value1 <? s32 value2 then value1 else value2).
Definition do_amomaxw : code := amo_op (fun value1 value2 =>
  if s32 value2 <? s32 value1 then value1 else value2).
Definition do_amominuw : code := amo_op (fun value1 value2 =>
  if value1 <? value2 then value1 else value2).
Definition do_amomaxuw : code := amo_op (fun value1 value2 =>
  if value2 <? value1 then value1 else value2).

(** ** RV32F *)

Definition do_flw : code := fun rv w ir cycle pc =>
  let addr := load_addr rv ir in
  RV_EXC_MISALIGN_HANDLER rv w cycle pc addr 3 LOAD_MISALIGNED false (
  let '(v, w) := io.(mem_read_w) rv w addr in
  (setF rv ir.(rd) v, w, nextop pc)).
Definition do_fsw : code := fun rv w ir cycle pc =>
  let addr := load_addr rv ir in
  RV_EXC_MISALIGN_HANDLER rv w cycle pc addr 3 STORE_MISALIGNED false
  (rv, io.(mem_write_w) rv w addr (getF rv ir.(rs2)), nextop pc).

(** A SoftFloat call accumulates its flags in the library's global. *)
Definition raise (rv : riscv) (flags : Z) : riscv :=
  set_softfloat_exceptionFlags rv (rv.(softfloat_exceptionFlags) |. flags).

(** [set_rounding_mode(rv, ir->rm); rv->F[ir->rd] = e; set_fflag(rv);] *)
Definition fp_arith (e : Z -> riscv -> rv_insn -> Z * Z) : code :=
  fun rv w ir cycle pc =>
  match set_rounding_mode rv ir.(rm) with
  | None => (rv, w, unreachable)
  | Some rv =>
      let '(v, fl) := e rv.(softfloat_roundingMode) rv ir in
      (set_fflag (setF (raise rv fl) ir.(rd) v), w, nextop pc)
  end.

Definition do_fmadds : code := fp_arith (fun m rv ir =>
  sf.(f32_mulAdd) m (getF rv ir.(rs1)) (getF rv ir.(rs2)) (getF rv (rs3 ir))).
Definition do_fmsubs : code := fp_arith (fun m rv ir =>
  let tmp := getF rv (rs3 ir) ^. FMASK_SIGN in
  sf.(f32_mulAdd) m (getF rv ir.(rs1)) (getF rv ir.(rs2)) tmp).
Definition do_fnmsubs : code := fp_arith (fun m rv ir =>
  let tmp := getF rv ir.(rs1) ^. FMASK_SIGN in
  sf.(f32_mulAdd) m tmp (getF rv ir.(rs2)) (getF rv (rs3 ir))).
Definition do_fnmadds : code := fp_arith (fun m rv ir =>
  let tmp1 := getF rv ir.(rs1) ^. FMASK_SIGN in
  let tmp2 := getF rv (rs3 ir) ^. FMASK_SIGN in
  sf.(f32_mulAdd) m tmp1 (getF rv ir.(rs2)) tmp2).
Definition do_fadds : code := fp_arith (fun m rv ir =>
  sf.(f32_add) m (getF rv ir.(rs1)) (getF rv ir.(rs2))).
Definition do_fsubs : code := fp_arith (fun m rv ir =>
  sf.(f32_sub) m (getF rv ir.(rs1)) (getF rv ir.(rs2))).
Definition do_fmuls : code := fp_arith (fun m rv ir =>
  sf.(f32_mul) m (getF rv ir.(rs1)) (getF rv ir.(rs2))).
Definition do_fdivs : code := fp_arith (fun m rv ir =>
  sf.(f32_div) m (getF rv ir.(rs1)) (getF rv ir.(rs2))).
Definition do_fsqrts : code := fp_arith (fun m rv ir =>
  sf.(f32_sqrt) m (getF rv ir.(rs1))).

Definition do_fsgnjs : code := fun rv w ir cycle pc =>
  (setF rv ir.(rd) ((getF rv ir.(rs1) &. u32 (Z.lnot FMASK_SIGN))
                    |. (getF rv ir.(rs2) &. FMASK_SIGN)), w, nextop pc).
Definition do_fsgnjns : code := fun rv w ir cycle pc =>
  (setF rv ir.(rd) ((getF rv ir.(rs1) &. u32 (Z.lnot FMASK_SIGN))
                    |. (u32 (Z.lnot (getF rv ir.(rs2))) &. FMASK_SIGN)), w, nextop pc).
Definition do_fsgnjxs : code := fun rv w ir cycle pc =>
  (setF rv ir.(rd) (getF rv ir.(rs1) ^. (getF rv ir.(rs2) &. FMASK_SIGN)),
   w, nextop pc).

(** [fmins] ([swap] false) and [fmaxs] ([swap] true) differ in the order of
    the quiet comparison and in the operand whose sign decides a tie. *)
Definition fp_minmax (swap : bool) : code := fun rv w ir cycle pc =>
  let a := getF rv ir.(rs1) in
  let b := getF rv ir.(rs2) in
  let rv :=
    if sf.(f32_isSignalingNaN) a || sf.(f32_isSignalingNaN) b
    then set_csr_fcsr rv (rv.(csr_fcsr) |. FFLAG_INVALID_OP) else rv in
  let '(lt, fl1) := if swap then sf.(f32_lt_quiet) b a else sf.(f32_lt_quiet) a b in
  let rv := raise rv fl1 in
  let '(first, rv) :=
    if lt then (true, rv) else
    let '(eq, fl2) := sf.(f32_eq) a b in
    (eq && nz ((if swap then b else a) &. FMASK_SIGN), raise rv fl2) in
  let v := if is_nan a && is_nan b then RV_NAN
           else if first || is_nan b then a else b in
  (setF rv ir.(rd) v, w, nextop pc).
Definition do_fmins : code := fp_minmax false.
Definition do_fmaxs : code := fp_minmax true.

(** [if (ir->rd) rv->X[ir->rd] = ret;] *)
Definition setX_nz (rv : riscv) (rd v : Z) : riscv :=
  if nz rd then setX rv rd v else rv.

Definition fp_to_int (e : Z -> Z -> Z * Z) : code := fun rv w ir cycle pc =>
  match set_rounding_mode rv ir.(rm) with
  | None => (rv, w, unreachable)
  | Some rv =>
      let '(v, fl) := e (getF rv ir.(rs1)) rv.(softfloat_roundingMode) in
      (set_fflag (setX_nz (raise rv fl) ir.(rd) (u32 v)), w, nextop pc)
  end.
Definition do_fcvtws : code := fp_to_int (fun a m => sf.(f32_to_i32) a m).
Definition do_fcvtwus : code := fp_to_int (fun a m => sf.(f32_to_ui32) a m).
Definition do_fmvxw : code := fun rv w ir cycle pc =>
  (setX_nz rv ir.(rd) (getF rv ir.(rs1)), w, nextop pc).

Definition fp_cmp (e : Z -> Z -> bool * Z) : code := fun rv w ir cycle pc =>
  let '(b, fl) := e (getF rv ir.(rs1)) (getF rv ir.(rs2)) in
  (set_fflag (setX_nz (raise rv fl) ir.(rd) (b2z b)), w, nextop pc).
Definition do_feqs : code := fp_cmp (fun a b => sf.(f32_eq) a b).
Definition do_flts : code := fp_cmp (fun a b => sf.(f32_lt) a b).
Definition do_fles : code := fp_cmp (fun a b => sf.(f32_le) a b).
Definition do_fclasss : code := fun rv w ir cycle pc =>
  (setX_nz rv ir.(rd) (calc_fclass (getF rv ir.(rs1))), w, nextop pc).
Definition do_fcvtsw : code := fp_arith (fun m rv ir =>
  sf.(i32_to_f32) m (s32 (getX rv ir.(rs1)))).
Definition do_fcvtswu : code := fp_arith (fun m rv ir =>
  sf.(ui32_to_f32) m (getX rv ir.(rs1))).
Definition do_fmvwx : code := fun rv w ir cycle pc =>
  (setF rv ir.(rd) (getX rv ir.(rs1)), w, nextop pc).

(** ** RV32C *)

Definition do_caddi4spn : code :=
  wr_rd (fun rv ir pc => u32 (getX rv rv_reg_sp + u16 ir.(imm))).
Definition do_clw : code := fun rv w ir cycle pc =>
  let addr := load_addr rv ir in
  RV_EXC_MISALIGN_HANDLER rv w cycle pc addr 3 LOAD_MISALIGNED true (
  let '(v, w) := io.(mem_read_w) rv w addr in
  (setX rv ir.(rd) v, w, nextop pc)).
Definition do_csw : code := fun rv w ir cycle pc =>
  let addr := load_addr rv ir in
  RV_EXC_MISALIGN_HANDLER rv w cycle pc addr 3 STORE_MISALIGNED true
  (rv, io.(mem_write_w) rv w addr (getX rv ir.(rs2)), nextop pc).
Definition do_cnop : code := fun rv w ir cycle pc => (rv, w, nextop pc).
Definition do_caddi : code :=
  wr_rd (fun rv ir pc => u32 (getX rv ir.(rd) + s16 ir.(imm))).
Definition do_cjal : code := fun rv w ir cycle PC =>
  let rv := setX rv rv_reg_ra (u32 (PC + 2)) in
  let PC := u32 (PC + ir.(imm)) in
  jump_taken rv w ir PC.
Definition do_cli : code := wr_rd (fun rv ir pc => u32 ir.(imm)).
Definition do_caddi16sp : code :=
  wr_rd (fun rv ir pc => u32 (getX rv ir.(rd) + ir.(imm))).
Definition do_clui : code := wr_rd (fun rv ir pc => u32 ir.(imm)).
Definition do_csrli : code := fun rv w ir cycle pc =>
  (setX rv ir.(rs1) (shr32 (getX rv ir.(rs1)) ir.(shamt)), w, nextop pc).

(** [for (i = 0; i < shamt; ++i) X |= mask >> i]. *)
Definition do_csrai : code := fun rv w ir cycle pc =>
  let mask := 0x80000000 &. getX rv ir.(rs1) in
  let rv := setX rv ir.(rs1) (shr32 (getX rv ir.(rs1)) ir.(shamt)) in
  let rv := fold_left
    (fun rv i => setX rv ir.(rs1) (getX rv ir.(rs1) |. shr32 mask i))
    (seqZ 0 ir.(shamt)) rv in
  (rv, w, nextop pc).
Definition do_candi : code := fun rv w ir cycle pc =>
  (setX rv ir.(rs1) (getX rv ir.(rs1) &. u32 ir.(imm)), w, nextop pc).
Definition do_csub : code :=
  wr_rd (fun rv ir pc => u32 (getX rv ir.(rs1) - getX rv ir.(rs2))).
Definition do_cxor : code :=
  wr_rd (fun rv ir pc => getX rv ir.(rs1) ^. getX rv ir.(rs2)).
Definition do_cor : code :=
  wr_rd (fun rv ir pc => getX rv ir.(rs1) |. getX rv ir.(rs2)).
Definition do_cand : code :=
  wr_rd (fun rv ir pc => getX rv ir.(rs1) &. getX rv ir.(rs2)).
Definition do_cj : code := fun rv w ir cycle PC =>
  let PC := u32 (PC + ir.(imm)) in
  jump_taken rv w ir PC.

(** Unlike [BRANCH_FUNC], the compressed branches chain in every build. *)
Definition c_branch (untaken : bool) : code := fun rv w ir cycle PC =>
  if untaken then
    let rv := set_is_branch_taken rv false in
    match ir.(branch_untaken) with
    | None => (rv, w, nextop PC)
    | Some t =>
        let PC := u32 (PC + 2) in
        (set_last_pc rv PC, w, tail t PC ir.(branch_table))
    end
  else
    let rv := set_is_branch_taken rv true in
    jump_taken rv w ir (u32 (PC + ir.(imm))).
Definition do_cbeqz : code := fun rv w ir cycle PC =>
  c_branch (nz (getX rv ir.(rs1))) rv w ir cycle PC.
Definition do_cbnez : code := fun rv w ir cycle PC =>
  c_branch (getX rv ir.(rs1) =? 0) rv w ir cycle PC.

Definition do_cslli : code :=
  wr_rd (fun rv ir pc => shl32 (getX rv ir.(rd)) (u8 ir.(imm))).
Definition sp_addr (rv : riscv) (ir : rv_insn) : Z :=
  u32 (getX rv rv_reg_sp + ir.(imm)).
Definition do_clwsp : code := fun rv w ir cycle pc =>
  let addr := sp_addr rv ir in
  RV_EXC_MISALIGN_HANDLER rv w cycle pc addr 3 LOAD_MISALIGNED true (
  let '(v, w) := io.(mem_read_w) rv w addr in
  (setX rv ir.(rd) v, w, nextop pc)).
Definition do_cjr : code := fun rv w ir cycle PC =>
  let PC := getX rv ir.(rs1) in
  LOOKUP_OR_UPDATE_BRANCH_HISTORY_TABLE rv w ir PC.
Definition do_cmv : code := wr_rd (fun rv ir pc => getX rv ir.(rs2)).
Definition do_cebreak : code := fun rv w ir cycle PC =>
  let rv := set_compressed rv true in
  let rv := set_csr_cycle rv cycle in
  let rv := set_PC rv PC in
  let '(rv, w) := io.(on_ebreak) rv w in
  (rv, w, ret true).
Definition do_cjalr : code := fun rv w ir cycle PC =>
  let jump_to := s32 (getX rv ir.(rs1)) in
  let rv := setX rv rv_reg_ra (u32 (PC + 2)) in
  let PC := u32 jump_to in
  LOOKUP_OR_UPDATE_BRANCH_HISTORY_TABLE rv w ir PC.
Definition do_cadd : code :=
  wr_rd (fun rv ir pc => u32 (getX rv ir.(rs1) + getX rv ir.(rs2))).
Definition do_cswsp : code := fun rv w ir cycle pc =>
  let addr := sp_addr rv ir in
  RV_EXC_MISALIGN_HANDLER rv w cycle pc addr 3 STORE_MISALIGNED true
  (rv, io.(mem_write_w) rv w addr (getX rv ir.(rs2)), nextop pc).
Definition do_cflwsp : code := fun rv w ir cycle pc =>
  let addr := sp_addr rv ir in
  RV_EXC_MISALIGN_HANDLER rv w cycle pc addr 3 LOAD_MISALIGNED false (
  let '(v, w) := io.(mem_read_w) rv w addr in
  (setF rv ir.(rd) v, w, nextop pc)).
Definition do_cfswsp : code := fun rv w ir cycle pc =>
  let addr := sp_addr rv ir in
  RV_EXC_MISALIGN_HANDLER rv w cycle pc addr 3 STORE_MISALIGNED false
  (rv, io.(mem_write_w) rv w addr (getF rv ir.(rs2)), nextop pc).
Definition do_cflw : code := fun rv w ir cycle pc =>
  let addr := load_addr rv ir in
  RV_EXC_MISALIGN_HANDLER rv w cycle pc addr 3 LOAD_MISALIGNED false (
  let '(v, w) := io.(mem_read_w) rv w addr in
  (setF rv ir.(rd) v, w, nextop pc)).
Definition do_cfsw : code := fun rv w ir cycle pc =>
  let addr := load_addr rv ir in
  RV_EXC_MISALIGN_HANDLER rv w cycle pc addr 3 STORE_MISALIGNED false
  (rv, io.(mem_write_w) rv w addr (getF rv ir.(rs2)), nextop pc).

(** ** Zba, Zbb, Zbc, Zbs *)

Definition do_sh1add : code :=
  wr_rd (fun rv ir pc => u32 (u32 (getX rv ir.(rs1) <<. 1) + getX rv ir.(rs2))).
Definition do_sh2add : code :=
  wr_rd (fun rv ir pc => u32 (u32 (getX rv ir.(rs1) <<. 2) + getX rv ir.(rs2))).
Definition do_sh3add : code :=
  wr_rd (fun rv ir pc => u32 (u32 (getX rv ir.(rs1) <<. 3) + getX rv ir.(rs2))).
Definition do_andn : code :=
  wr_rd (fun rv ir pc => getX rv ir.(rs1) &. u32 (Z.lnot (getX rv ir.(rs2)))).
Definition do_orn : code :=
  wr_rd (fun rv ir pc => getX rv ir.(rs1) |. u32 (Z.lnot (getX rv ir.(rs2)))).
Definition do_xnor : code :=
  wr_rd (fun rv ir pc => u32 (Z.lnot (getX rv ir.(rs1) ^. getX rv ir.(rs2)))).
Definition do_clz : code := wr_rd (fun rv ir pc =>
  if nz (getX rv ir.(rs1)) then rv_clz (getX rv ir.(rs1)) else 32).
Definition do_ctz : code := wr_rd (fun rv ir pc =>
  if nz (getX rv ir.(rs1)) then rv_ctz (getX rv ir.(rs1)) else 32).
Definition do_cpop : code := wr_rd (fun rv ir pc => rv_popcount (getX rv ir.(rs1))).
Definition do_max : code := wr_rd (fun rv ir pc =>
  let x := s32 (getX rv ir.(rs1)) in
  let y := s32 (getX rv ir.(rs2)) in
  if y <? x then getX rv ir.(rs1) else getX rv ir.(rs2)).
Definition do_min : code := wr_rd (fun rv ir pc =>
  let x := s32 (getX rv ir.(rs1)) in
  let y := s32 (getX rv ir.(rs2)) in
  if x <? y then getX rv ir.(rs1) else getX rv ir.(rs2)).
Definition do_maxu : code := wr_rd (fun rv ir pc =>
  let x := getX rv ir.(rs1) in
  let y := getX rv ir.(rs2) in
  if y <? x then getX rv ir.(rs1) else getX rv ir.(rs2)).
Definition do_minu : code := wr_rd (fun rv ir pc =>
  let x := getX rv ir.(rs1) in
  let y := getX rv ir.(rs2) in
  if x <? y then getX rv ir.(rs1) else getX rv ir.(rs2)).

(** The second statement reads [rs1] after [rd] was written. *)
Definition do_sextb : code := fun rv w ir cycle pc =>
  let rv := setX rv ir.(rd) (getX rv ir.(rs1) &. 0xff) in
  let rv := if nz (getX rv ir.(rs1) &. (1 <<. 7))
            then setX rv ir.(rd) (getX rv ir.(rd) |. 0xffffff00) else rv in
  (rv, w, nextop pc).
Definition do_sexth : code := fun rv w ir cycle pc =>
  let rv := setX rv ir.(rd) (getX rv ir.(rs1) &. 0xffff) in
  let rv := if nz (getX rv ir.(rs1) &. (1 <<. 15))
            then setX rv ir.(rd) (getX rv ir.(rd) |. 0xffff0000) else rv in
  (rv, w, nextop pc).
Definition do_zexth : code := wr_rd (fun rv ir pc => getX rv ir.(rs1) &. 0x0000ffff).
Definition do_rol : code := wr_rd (fun rv ir pc =>
  let shamt := getX rv ir.(rs2) &. 0x1f in
  shl32 (getX rv ir.(rs1)) shamt |. shr32 (getX rv ir.(rs1)) (32 - shamt)).
Definition do_ror : code := wr_rd (fun rv ir pc =>
  let shamt := getX rv ir.(rs2) &. 0x1f in
  shr32 (getX rv ir.(rs1)) shamt |. shl32 (getX rv ir.(rs1)) (32 - shamt)).
Definition do_rori : code := wr_rd (fun rv ir pc =>
  let shamt := ir.(imm) &. 0x1f in
  shr32 (getX rv ir.(rs1)) shamt |. shl32 (getX rv ir.(rs1)) (32 - shamt)).
Definition do_orcb : code := fun rv w ir cycle pc =>
  let x := getX rv ir.(rs1) in
  let rv := setX rv ir.(rd) 0 in
  let rv := fold_left (fun rv i =>
    if nz (x &. u32 (0xff <<. (i * 8)))
    then setX rv ir.(rd) (getX rv ir.(rd) |. u32 (0xff <<. (i * 8))) else rv)
    (seqZ 0 4) rv in
  (rv, w, nextop pc).
Definition do_rev8 : code := wr_rd (fun rv ir pc =>
  let x := getX rv ir.(rs1) in
  u32 ((x &. 0xff) <<. 24) |. u32 ((x &. 0xff00) <<. 8)
  |. ((x &. 0xff0000) >>. 8) |. ((x &. 0xff000000) >>. 24)).

Definition do_clmul : code := wr_rd (fun rv ir pc =>
  fold_left (fun output i =>
    if nz ((getX rv ir.(rs2) >>. i) &. 1)
    then output ^. u32 (getX rv ir.(rs1) <<. i) else output) (seqZ 0 32) 0).
Definition do_clmulh : code := wr_rd (fun rv ir pc =>
  fold_left (fun output i =>
    if nz ((getX rv ir.(rs2) >>. i) &. 1)
    then output ^. (getX rv ir.(rs1) >>. (32 - i)) else output) (seqZ 1 31) 0).
Definition do_clmulr : code := wr_rd (fun rv ir pc =>
  fold_left (fun output i =>
    if nz ((getX rv ir.(rs2) >>. i) &. 1)
    then output ^. (getX rv ir.(rs1) >>. (32 - i - 1)) else output) (seqZ 0 32) 0).

Definition do_bclr : code := wr_rd (fun rv ir pc =>
  let index := getX rv ir.(rs2) &. (32 - 1) in
  getX rv ir.(rs1) &. u32 (Z.lnot (1 <<. index))).
Definition do_bclri : code := wr_rd (fun rv ir pc =>
  let index := ir.(imm) &. (32 - 1) in
  getX rv ir.(rs1) &. u32 (Z.lnot (1 <<. index))).
Definition do_bext : code := wr_rd (fun rv ir pc =>
  let index := getX rv ir.(rs2) &. (32 - 1) in
  (getX rv ir.(rs1) >>. index) &. 1).
Definition do_bexti : code := wr_rd (fun rv ir pc =>
  let index := ir.(imm) &. (32 - 1) in
  (getX rv ir.(rs1) >>. index) &. 1).
Definition do_binv : code := wr_rd (fun rv ir pc =>
  let index := getX rv ir.(rs2) &. (32 - 1) in
  getX rv ir.(rs1) ^. (1 <<. index)).
Definition do_binvi : code := wr_rd (fun rv ir pc =>
  let index := ir.(imm) &. (32 - 1) in
  getX rv ir.(rs1) ^. (1 <<. index)).
Definition do_bset : code := wr_rd (fun rv ir pc =>
  let index := getX rv ir.(rs2) &. (32 - 1) in
  getX rv ir.(rs1) |. (1 <<. index)).
Definition do_bseti : code := wr_rd (fun rv ir pc =>
  let index := ir.(imm) &. (32 - 1) in
  getX rv ir.(rs1) |. (1 <<. index)).

(** ** From code to handlers

    [fin] is how a handler ends: go to the next instruction of the block
    with [cycle] and [PC], return a boolean, or tail-call another block. *)
Inductive fin : Type :=
  | Next (cycle pc : Z)
  | Done (b : bool)
  | Tail (t : Z) (cycle pc : Z) (bt : option branch_history_table)
  | Undefined.

Definition impl_t : Type := riscv -> W -> rv_insn -> Z -> Z -> riscv * W * fin.

(** The macro [RVOP]. *)
Definition RVOP (inst : insn_op) (body : code) : impl_t := fun rv w ir cycle PC =>
  let cycle := u64 (cycle + 1) in
  match body rv w ir cycle PC with
  | (rv, w, nextop PC) => (rv, w, Next cycle (u32 (PC + insn_len inst)))
  | (rv, w, end_op PC) => (set_PC (set_csr_cycle rv cycle) PC, w, Done true)
  | (rv, w, ret b) => (rv, w, Done b)
  | (rv, w, tail t PC bt) => (rv, w, Tail t cycle PC bt)
  | (rv, w, unreachable) => (rv, w, Undefined)
  end.

(** ** Fused instructions *)

Definition do_fuse1 : impl_t := fun rv w ir cycle PC =>
  let cycle := u64 (cycle + ir.(imm2)) in
  let rv := fold_left (fun rv f => setX rv f.(f_rd) (u32 f.(f_imm)))
    (take (Z.to_nat ir.(imm2)) ir.(fuse)) rv in
  (rv, w, Next cycle (u32 (PC + ir.(imm2) * 4))).

Definition do_fuse2 : impl_t := fun rv w ir cycle PC =>
  let cycle := u64 (cycle + 2) in
  let rv := setX rv ir.(rd) (u32 ir.(imm)) in
  let rv := setX rv ir.(rs2) (u32 (getX rv ir.(rd) + getX rv ir.(rs1))) in
  (rv, w, Next cycle (u32 (PC + 8))).

(** The loops of [do_fuse3] and [do_fuse4]; [inr] is the early return of the
    misalignment handler. *)
Fixpoint fuse3_loop (fs : list opcode_fuse) (rv : riscv) (w : W) (cycle PC : Z)
    : (riscv * W) + (riscv * W) :=
  match fs with
  | [] => inl (rv, w)
  | f :: fs =>
      let addr := u32 (getX rv f.(f_rs1) + f.(f_imm)) in
      match RV_EXC_MISALIGN_HANDLER rv w cycle PC addr 3 STORE_MISALIGNED false
              (rv, io.(mem_write_w) rv w addr (getX rv f.(f_rs2)), nextop PC) with
      | (rv, w, nextop _) => fuse3_loop fs rv w cycle PC
      | (rv, w, _) => inr (rv, w)
      end
  end.

Definition do_fuse3 : impl_t := fun rv w ir cycle PC =>
  let cycle := u64 (cycle + ir.(imm2)) in
  match fuse3_loop (take (Z.to_nat ir.(imm2)) ir.(fuse)) rv w cycle PC with
  | inl (rv, w) => (rv, w, Next cycle (u32 (PC + ir.(imm2) * 4)))
  | inr (rv, w) => (rv, w, Done false)
  end.

Fixpoint fuse4_loop (fs : list opcode_fuse) (rv : riscv) (w : W) (cycle PC : Z)
    : (riscv * W) + (riscv * W) :=
  match fs with
  | [] => inl (rv, w)
  | f :: fs =>
      let addr := u32 (getX rv f.(f_rs1) + f.(f_imm)) in
      match RV_EXC_MISALIGN_HANDLER rv w cycle PC addr 3 LOAD_MISALIGNED false
              (let '(v, w) := io.(mem_read_w) rv w addr in
               (setX rv f.(f_rd) v, w, nextop PC)) with
      | (rv, w, nextop _) => fuse4_loop fs rv w cycle PC
      | (rv, w, _) => inr (rv, w)
      end
  end.

Definition do_fuse4 : impl_t := fun rv w ir cycle PC =>
  let cycle := u64 (cycle + ir.(imm2)) in
  match fuse4_loop (take (Z.to_nat ir.(imm2)) ir.(fuse)) rv w cycle PC with
  | inl (rv, w) => (rv, w, Next cycle (u32 (PC + ir.(imm2) * 4)))
  | inr (rv, w) => (rv, w, Done false)
  end.

Fixpoint fuse5_loop (fs : list opcode_fuse) (rv : riscv) : option riscv :=
  match fs with
  | [] => Some rv
  | f :: fs =>
      match shift_func rv f.(f_opcode) f.(f_rd) f.(f_rs1) f.(f_imm) with
      | Some rv => fuse5_loop fs rv
      | None => None
      end
  end.

Definition do_fuse5 : impl_t := fun rv w ir cycle PC =>
  let cycle := u64 (cycle + ir.(imm2)) in
  match fuse5_loop (take (Z.to_nat ir.(imm2)) ir.(fuse)) rv with
  | Some rv => (rv, w, Next cycle (u32 (PC + ir.(imm2) * 4)))
  | None => (rv, w, Undefined)
  end.

(** ** Tensix instructions and mailbox loads

    [tt_direct insn core w] is [tensix_set_direct] followed by
    [tensix_step_direct], [mailbox_stalled core w] the test of the stall
    flag of the core's mailbox. *)
Context (tt_direct : Z -> Z -> W -> W * bool) (mailbox_stalled : Z -> W -> bool).

Definition do_ttinsn : impl_t := fun rv w ir cycle PC =>
  let cycle := u64 (cycle + 1) in
  let insn := u32 ir.(imm) in
  let '(w, executed) := tt_direct insn rv.(core_id) w in
  if executed
  then (set_PC (set_csr_cycle rv cycle) (u32 (PC + 4)), w, Done true)
  else (set_PC (set_csr_cycle rv cycle) PC, w, Done false).

Definition do_lw_mailbox : impl_t := fun rv w ir cycle PC =>
  let cycle := u64 (cycle + 1) in
  let rs1_val := getX rv ir.(rs1) in
  let addr := u32 (rs1_val + ir.(imm)) in
  let '(v, w) := io.(mem_read_w) rv w addr in
  let rv := setX rv ir.(rd) v in
  if mailbox_stalled rv.(core_id) w then
    let rv := setX rv ir.(rs1) rs1_val in
    (set_PC (set_csr_cycle rv cycle) PC, w, Done false)
  else (set_PC (set_csr_cycle rv cycle) (u32 (PC + 4)), w, Done true).

(** ** Dispatch and execution of a block *)

Definition dispatch_table (o : insn_op) : impl_t :=
  match o with
  | rv_insn_nop => RVOP rv_insn_nop do_nop
  | rv_insn_lui => RVOP rv_insn_lui do_lui
  | rv_insn_auipc => RVOP rv_insn_auipc do_auipc
  | rv_insn_jal => RVOP rv_insn_jal do_jal
  | rv_insn_jalr => RVOP rv_insn_jalr do_jalr
  | rv_insn_beq => RVOP rv_insn_beq do_beq
  | rv_insn_bne => RVOP rv_insn_bne do_bne
  | rv_insn_blt => RVOP rv_insn_blt do_blt
  | rv_insn_bge => RVOP rv_insn_bge do_bge
  | rv_insn_bltu => RVOP rv_insn_bltu do_bltu
  | rv_insn_bgeu => RVOP rv_insn_bgeu do_bgeu
  | rv_insn_lb => RVOP rv_insn_lb do_lb
  | rv_insn_lh => RVOP rv_insn_lh do_lh
  | rv_insn_lw => RVOP rv_insn_lw do_lw
  | rv_insn_lbu => RVOP rv_insn_lbu do_lbu
  | rv_insn_lhu => RVOP rv_insn_lhu do_lhu
  | rv_insn_sb => RVOP rv_insn_sb do_sb
  | rv_insn_sh => RVOP rv_insn_sh do_sh
  | rv_insn_sw => RVOP rv_insn_sw do_sw
  | rv_insn_addi => RVOP rv_insn_addi do_addi
  | rv_insn_slti => RVOP rv_insn_slti do_slti
  | rv_insn_sltiu => RVOP rv_insn_sltiu do_sltiu
  | rv_insn_xori => RVOP rv_insn_xori do_xori
  | rv_insn_ori => RVOP rv_insn_ori do_ori
  | rv_insn_andi => RVOP rv_insn_andi do_andi
  | rv_insn_slli => RVOP rv_insn_slli do_slli
  | rv_insn_srli => RVOP rv_insn_srli do_srli
  | rv_insn_srai => RVOP rv_insn_srai do_srai
  | rv_insn_add => RVOP rv_insn_add do_add
  | rv_insn_sub => RVOP rv_insn_sub do_sub
  | rv_insn_sll => RVOP rv_insn_sll do_sll
  | rv_insn_slt => RVOP rv_insn_slt do_slt
  | rv_insn_sltu => RVOP rv_insn_sltu do_sltu
  | rv_insn_xor => RVOP rv_insn_xor do_xor
  | rv_insn_srl => RVOP rv_insn_srl do_srl
  | rv_insn_sra => RVOP rv_insn_sra do_sra
  | rv_insn_or => RVOP rv_insn_or do_or
  | rv_insn_and => RVOP rv_insn_and do_and
  | rv_insn_fence => RVOP rv_insn_fence do_fence
  | rv_insn_ecall => RVOP rv_insn_ecall do_ecall
  | rv_insn_ebreak => RVOP rv_insn_ebreak do_ebreak
  | rv_insn_wfi => RVOP rv_insn_wfi do_wfi
  | rv_insn_uret => RVOP rv_insn_uret do_uret
  | rv_insn_hret => RVOP rv_insn_hret do_hret
  | rv_insn_mret => RVOP rv_insn_mret do_mret
  | rv_insn_sfencevma => RVOP rv_insn_sfencevma do_sfencevma
  | rv_insn_fencei => RVOP rv_insn_fencei do_fencei
  | rv_insn_csrrw => RVOP rv_insn_csrrw do_csrrw
  | rv_insn_csrrs => RVOP rv_insn_csrrs do_csrrs
  | rv_insn_csrrc => RVOP rv_insn_csrrc do_csrrc
  | rv_insn_csrrwi => RVOP rv_insn_csrrwi do_csrrwi
  | rv_insn_csrrsi => RVOP rv_insn_csrrsi do_csrrsi
  | rv_insn_csrrci => RVOP rv_insn_csrrci do_csrrci
  | rv_insn_sh1add => RVOP rv_insn_sh1add do_sh1add
  | rv_insn_sh2add => RVOP rv_insn_sh2add do_sh2add
  | rv_insn_sh3add => RVOP rv_insn_sh3add do_sh3add
  | rv_insn_andn => RVOP rv_insn_andn do_andn
  | rv_insn_orn => RVOP rv_insn_orn do_orn
  | rv_insn_xnor => RVOP rv_insn_xnor do_xnor
  | rv_insn_clz => RVOP rv_insn_clz do_clz
  | rv_insn_ctz => RVOP rv_insn_ctz do_ctz
  | rv_insn_cpop => RVOP rv_insn_cpop do_cpop
  | rv_insn_max => RVOP rv_insn_max do_max
  | rv_insn_maxu => RVOP rv_insn_maxu do_maxu
  | rv_insn_min => RVOP rv_insn_min do_min
  | rv_insn_minu => RVOP rv_insn_minu do_minu
  | rv_insn_sextb => RVOP rv_insn_sextb do_sextb
  | rv_insn_sexth => RVOP rv_insn_sexth do_sexth
  | rv_insn_zexth => RVOP rv_insn_zexth do_zexth
  | rv_insn_rol => RVOP rv_insn_rol do_rol
  | rv_insn_ror => RVOP rv_insn_ror do_ror
  | rv_insn_rori => RVOP rv_insn_rori do_rori
  | rv_insn_orcb => RVOP rv_insn_orcb do_orcb
  | rv_insn_rev8 => RVOP rv_insn_rev8 do_rev8
  | rv_insn_clmul => RVOP rv_insn_clmul do_clmul
  | rv_insn_clmulh => RVOP rv_insn_clmulh do_clmulh
  | rv_insn_clmulr => RVOP rv_insn_clmulr do_clmulr
  | rv_insn_bclr => RVOP rv_insn_bclr do_bclr
  | rv_insn_bclri => RVOP rv_insn_bclri do_bclri
  | rv_insn_bext => RVOP rv_insn_bext do_bext
  | rv_insn_bexti => RVOP rv_insn_bexti do_bexti
  | rv_insn_binv => RVOP rv_insn_binv do_binv
  | rv_insn_binvi => RVOP rv_insn_binvi do_binvi
  | rv_insn_bset => RVOP rv_insn_bset do_bset
  | rv_insn_bseti => RVOP rv_insn_bseti do_bseti
  | rv_insn_mul => RVOP rv_insn_mul do_mul
  | rv_insn_mulh => RVOP rv_insn_mulh do_mulh
  | rv_insn_mulhsu => RVOP rv_insn_mulhsu do_mulhsu
  | rv_insn_mulhu => RVOP rv_insn_mulhu do_mulhu
  | rv_insn_div => RVOP rv_insn_div do_div
  | rv_insn_divu => RVOP rv_insn_divu do_divu
  | rv_insn_rem => RVOP rv_insn_rem do_rem
  | rv_insn_remu => RVOP rv_insn_remu do_remu
  | rv_insn_lrw => RVOP rv_insn_lrw do_lrw
  | rv_insn_scw => RVOP rv_insn_scw do_scw
  | rv_insn_amoswapw => RVOP rv_insn_amoswapw do_amoswapw
  | rv_insn_amoaddw => RVOP rv_insn_amoaddw do_amoaddw
  | rv_insn_amoxorw => RVOP rv_insn_amoxorw do_amoxorw
  | rv_insn_amoandw => RVOP rv_insn_amoandw do_amoandw
  | rv_insn_amoorw => RVOP rv_insn_amoorw do_amoorw
  | rv_insn_amominw => RVOP rv_insn_amominw do_amominw
  | rv_insn_amomaxw => RVOP rv_insn_amomaxw do_amomaxw
  | rv_insn_amominuw => RVOP rv_insn_amominuw do_amominuw
  | rv_insn_amomaxuw => RVOP rv_insn_amomaxuw do_amomaxuw
  | rv_insn_flw => RVOP rv_insn_flw do_flw
  | rv_insn_fsw => RVOP rv_insn_fsw do_fsw
  | rv_insn_fmadds => RVOP rv_insn_fmadds do_fmadds
  | rv_insn_fmsubs => RVOP rv_insn_fmsubs do_fmsubs
  | rv_insn_fnmsubs => RVOP rv_insn_fnmsubs do_fnmsubs
  | rv_insn_fnmadds => RVOP rv_insn_fnmadds do_fnmadds
  | rv_insn_fadds => RVOP rv_insn_fadds do_fadds
  | rv_insn_fsubs => RVOP rv_insn_fsubs do_fsubs
  | rv_insn_fmuls => RVOP rv_insn_fmuls do_fmuls
  | rv_insn_fdivs => RVOP rv_insn_fdivs do_fdivs
  | rv_insn_fsqrts => RVOP rv_insn_fsqrts do_fsqrts
  | rv_insn_fsgnjs => RVOP rv_insn_fsgnjs do_fsgnjs
  | rv_insn_fsgnjns => RVOP rv_insn_fsgnjns do_fsgnjns
  | rv_insn_fsgnjxs => RVOP rv_insn_fsgnjxs do_fsgnjxs
  | rv_insn_fmins => RVOP rv_insn_fmins do_fmins
  | rv_insn_fmaxs => RVOP rv_insn_fmaxs do_fmaxs
  | rv_insn_fcvtws => RVOP rv_insn_fcvtws do_fcvtws
  | rv_insn_fcvtwus => RVOP rv_insn_fcvtwus do_fcvtwus
  | rv_insn_fmvxw => RVOP rv_insn_fmvxw do_fmvxw
  | rv_insn_feqs => RVOP rv_insn_feqs do_feqs
  | rv_insn_flts => RVOP rv_insn_flts do_flts
  | rv_insn_fles => RVOP rv_insn_fles do_fles
  | rv_insn_fclasss => RVOP rv_insn_fclasss do_fclasss
  | rv_insn_fcvtsw => RVOP rv_insn_fcvtsw do_fcvtsw
  | rv_insn_fcvtswu => RVOP rv_insn_fcvtswu do_fcvtswu
  | rv_insn_fmvwx => RVOP rv_insn_fmvwx do_fmvwx
  | rv_insn_caddi4spn => RVOP rv_insn_caddi4spn do_caddi4spn
  | rv_insn_clw => RVOP rv_insn_clw do_clw
  | rv_insn_csw => RVOP rv_insn_csw do_csw
  | rv_insn_cnop => RVOP rv_insn_cnop do_cnop
  | rv_insn_caddi => RVOP rv_insn_caddi do_caddi
  | rv_insn_cjal => RVOP rv_insn_cjal do_cjal
  | rv_insn_cli => RVOP rv_insn_cli do_cli
  | rv_insn_caddi16sp => RVOP rv_insn_caddi16sp do_caddi16sp
  | rv_insn_clui => RVOP rv_insn_clui do_clui
  | rv_insn_csrli => RVOP rv_insn_csrli do_csrli
  | rv_insn_csrai => RVOP rv_insn_csrai do_csrai
  | rv_insn_candi => RVOP rv_insn_candi do_candi
  | rv_insn_csub => RVOP rv_insn_csub do_csub
  | rv_insn_cxor => RVOP rv_insn_cxor do_cxor
  | rv_insn_cor => RVOP rv_insn_cor do_cor
  | rv_insn_cand => RVOP rv_insn_cand do_cand
  | rv_insn_cj => RVOP rv_insn_cj do_cj
  | rv_insn_cbeqz => RVOP rv_insn_cbeqz do_cbeqz
  | rv_insn_cbnez => RVOP rv_insn_cbnez do_cbnez
  | rv_insn_cslli => RVOP rv_insn_cslli do_cslli
  | rv_insn_clwsp => RVOP rv_insn_clwsp do_clwsp
  | rv_insn_cjr => RVOP rv_insn_cjr do_cjr
  | rv_insn_cmv => RVOP rv_insn_cmv do_cmv
  | rv_insn_cebreak => RVOP rv_insn_cebreak do_cebreak
  | rv_insn_cjalr => RVOP rv_insn_cjalr do_cjalr
  | rv_insn_cadd => RVOP rv_insn_cadd do_cadd
  | rv_insn_cswsp => RVOP rv_insn_cswsp do_cswsp
  | rv_insn_cflwsp => RVOP rv_insn_cflwsp do_cflwsp
  | rv_insn_cfswsp => RVOP rv_insn_cfswsp do_cfswsp
  | rv_insn_cflw => RVOP rv_insn_cflw do_cflw
  | rv_insn_cfsw => RVOP rv_insn_cfsw do_cfsw
  | rv_insn_ttinsn => do_ttinsn
  | rv_insn_fuse1 => do_fuse1
  | rv_insn_fuse2 => do_fuse2
  | rv_insn_fuse3 => do_fuse3
  | rv_insn_fuse4 => do_fuse4
  | rv_insn_fuse5 => do_fuse5
  end.

Definition call_impl (h : handler) : impl_t :=
  match h with
  | do_op o => dispatch_table o
  | do_lw_mailbox_impl => do_lw_mailbox
  end.

(** How the execution of a chain of instructions ends: a boolean result, or
    a tail call into another block (with the index of the instruction whose
    branch table changed). *)
Inductive block_end : Type :=
  | Returned (b : bool)
  | Chained (t : Z) (cycle pc : Z) (bt : option branch_history_table)
  | Stuck.

(** Execution of a list of instructions linked by [next]: the end of every
    handler, [RVOP_NO_NEXT] included. *)
Fixpoint exec_block (irs : list rv_insn) (rv : riscv) (w : W) (cycle PC : Z)
    : riscv * W * block_end :=
  match irs with
  | [] => (set_PC (set_csr_cycle rv cycle) PC, w, Returned true)
  | ir :: next =>
      match call_impl ir.(impl) rv w ir cycle PC with
      | (rv, w, Next cycle PC) => exec_block next rv w cycle PC
      | (rv, w, Done b) => (rv, w, Returned b)
      | (rv, w, Tail t cycle PC bt) => (rv, w, Chained t cycle PC bt)
      | (rv, w, Undefined) => (rv, w, Stuck)
      end
  end.
End handlers.
