(* ===== verification/ExecWf.v ===== *)
(** * The type invariant of the hart

    [rv_wf] says that the register files have 32 words and that every CSR is
    a word.  [IoOk] is what the interpreter needs of its callbacks; under it
    every handler, and the execution of every well-formed block, preserves
    the invariant. *)

From Stdlib Require Import ZArith Lia Bool.
From stdpp Require Import base list numbers.
From S2P Require Import Prelude Decode Riscv Exec.

(** ** Register access *)

Lemma getX_setX_eq rv i v :
  0 <= i < 32 -> length rv.(X) = 32%nat -> getX (setX rv i v) i = v.
Proof. intros. apply list_lookup_total_insert_eq. lia. Qed.
Lemma getX_setX_ne rv i j v :
  0 <= i -> 0 <= j -> i <> j -> getX (setX rv i v) j = getX rv j.
Proof. intros. apply list_lookup_total_insert_ne. lia. Qed.
Lemma getX_setX rv i j v :
  0 <= i < 32 -> 0 <= j < 32 -> length rv.(X) = 32%nat ->
  getX (setX rv i v) j = if i =? j then v else getX rv j.
Proof.
  intros. destruct (Z.eqb_spec i j) as [->|].
  - by apply getX_setX_eq.
  - apply getX_setX_ne; lia.
Qed.
Lemma length_setX rv i v : length (setX rv i v).(X) = length rv.(X).
Proof. apply length_insert. Qed.
Lemma setX_setX rv i v v' : setX (setX rv i v) i v' = setX rv i v'.
Proof. unfold setX. simpl. by rewrite list_insert_insert_eq. Qed.
Lemma setX_getX rv i :
  0 <= i < 32 -> length rv.(X) = 32%nat -> setX rv i (getX rv i) = rv.
Proof.
  intros. unfold setX, getX. rewrite list_insert_id; [by destruct rv|].
  apply list_lookup_lookup_total_lt. lia.
Qed.

(** ** The invariant *)

(** The 32-bit registers other than the integer and float files. *)
Definition csrs (rv : riscv) : list Z :=
  [rv.(csr_fcsr); rv.(csr_mstatus); rv.(csr_mtvec); rv.(csr_misa);
   rv.(csr_mtval); rv.(csr_mcause); rv.(csr_mscratch); rv.(csr_mepc);
   rv.(csr_mip); rv.(csr_mie); rv.(csr_mideleg); rv.(csr_medeleg);
   rv.(csr_mvendorid); rv.(csr_marchid); rv.(csr_mimpid); rv.(csr_mbadaddr);
   rv.(csr_sstatus); rv.(csr_stvec); rv.(csr_sip); rv.(csr_sie);
   rv.(csr_scounteren); rv.(csr_sscratch); rv.(csr_sepc); rv.(csr_scause);
   rv.(csr_stval); rv.(csr_satp); rv.(priv_mode)].

Record rv_wf (rv : riscv) : Prop := mk_rv_wf {
  wf_X_len : length rv.(X) = 32%nat;
  wf_X : Forall word rv.(X);
  wf_PC : word rv.(PC);
  wf_F_len : length rv.(F) = 32%nat;
  wf_F : Forall word rv.(F);
  wf_cycle : 0 <= rv.(csr_cycle) < 2 ^ 64;
  wf_timer : 0 <= rv.(timer) < 2 ^ 64;
  wf_time_len : length rv.(csr_time) = 2%nat;
  wf_time : Forall word rv.(csr_time);
  wf_csrs : Forall word (csrs rv)
}.

Lemma getX_word rv i : rv_wf rv -> word (getX rv i).
Proof.
  intros Hwf. unfold getX. destruct (rv.(X) !! Z.to_nat i) as [v|] eqn:E.
  - rewrite (list_lookup_total_correct _ _ _ E).
    eapply Forall_lookup_1; [apply (wf_X _ Hwf) | done].
  - rewrite list_lookup_total_alt, E. split; by vm_compute.
Qed.
Lemma getF_word rv i : rv_wf rv -> word (getF rv i).
Proof.
  intros Hwf. unfold getF. destruct (rv.(F) !! Z.to_nat i) as [v|] eqn:E.
  - rewrite (list_lookup_total_correct _ _ _ E).
    eapply Forall_lookup_1; [apply (wf_F _ Hwf) | done].
  - rewrite list_lookup_total_alt, E. split; by vm_compute.
Qed.
#[export] Hint Resolve getX_word getF_word : word.

Lemma wf_setX rv i v : rv_wf rv -> word v -> rv_wf (setX rv i v).
Proof.
  intros [] Hv. constructor; simpl; try done.
  - by rewrite length_insert.
  - by apply Forall_insert.
Qed.
Lemma wf_setF rv i v : rv_wf rv -> word v -> rv_wf (setF rv i v).
Proof.
  intros [] Hv. constructor; simpl; try done.
  - by rewrite length_insert.
  - by apply Forall_insert.
Qed.
Lemma wf_set_PC rv v : rv_wf rv -> word v -> rv_wf (set_PC rv v).
Proof. intros []. by constructor. Qed.
Lemma wf_set_cycle rv v : rv_wf rv -> 0 <= v < 2 ^ 64 -> rv_wf (set_csr_cycle rv v).
Proof. intros []. by constructor. Qed.
Lemma wf_set_time rv v :
  rv_wf rv -> length v = 2%nat -> Forall word v -> rv_wf (set_csr_time rv v).
Proof. intros []. by constructor. Qed.
Lemma wf_set_compressed rv v : rv_wf rv -> rv_wf (set_compressed rv v).
Proof. intros []. by constructor. Qed.
Lemma wf_set_last_pc rv v : rv_wf rv -> rv_wf (set_last_pc rv v).
Proof. intros []. by constructor. Qed.
Lemma wf_set_is_branch_taken rv v : rv_wf rv -> rv_wf (set_is_branch_taken rv v).
Proof. intros []. by constructor. Qed.
Lemma wf_set_flags rv v : rv_wf rv -> rv_wf (set_softfloat_exceptionFlags rv v).
Proof. intros []. by constructor. Qed.
Lemma wf_set_round rv v : rv_wf rv -> rv_wf (set_softfloat_roundingMode rv v).
Proof. intros []. by constructor. Qed.
#[export] Hint Resolve wf_setX wf_setF wf_set_PC wf_set_cycle wf_set_time
  wf_set_compressed wf_set_last_pc wf_set_is_branch_taken wf_set_flags
  wf_set_round : wf.

(** A setter of one CSR keeps the invariant if the value is a word. *)
Lemma wf_csr i v rv rv' :
  rv_wf rv -> word v -> csrs rv' = <[i := v]> (csrs rv) ->
  (rv'.(X), rv'.(PC), rv'.(F), rv'.(csr_cycle), rv'.(timer), rv'.(csr_time)) =
  (rv.(X), rv.(PC), rv.(F), rv.(csr_cycle), rv.(timer), rv.(csr_time)) ->
  rv_wf rv'.
Proof.
  intros [] Hv Hc E. injection E as EX EP EF EC ET Et.
  constructor; rewrite ?EX, ?EP, ?EF, ?EC, ?ET, ?Et; try done.
  rewrite Hc. by apply Forall_insert.
Qed.

Ltac csr_setter i := intros Hwf Hv; by apply (wf_csr i _ _ _ Hwf Hv).

Lemma wf_set_fcsr rv v : rv_wf rv -> word v -> rv_wf (set_csr_fcsr rv v).
Proof. csr_setter 0%nat. Qed.
Lemma wf_set_mstatus rv v : rv_wf rv -> word v -> rv_wf (set_csr_mstatus rv v).
Proof. csr_setter 1%nat. Qed.
Lemma wf_set_mepc rv v : rv_wf rv -> word v -> rv_wf (set_csr_mepc rv v).
Proof. csr_setter 7%nat. Qed.
Lemma wf_set_mcause rv v : rv_wf rv -> word v -> rv_wf (set_csr_mcause rv v).
Proof. csr_setter 5%nat. Qed.
Lemma wf_set_mtval rv v : rv_wf rv -> word v -> rv_wf (set_csr_mtval rv v).
Proof. csr_setter 4%nat. Qed.
Lemma wf_set_sstatus rv v : rv_wf rv -> word v -> rv_wf (set_csr_sstatus rv v).
Proof. csr_setter 16%nat. Qed.
Lemma wf_set_sepc rv v : rv_wf rv -> word v -> rv_wf (set_csr_sepc rv v).
Proof. csr_setter 22%nat. Qed.
Lemma wf_set_scause rv v : rv_wf rv -> word v -> rv_wf (set_csr_scause rv v).
Proof. csr_setter 23%nat. Qed.
Lemma wf_set_stval rv v : rv_wf rv -> word v -> rv_wf (set_csr_stval rv v).
Proof. csr_setter 24%nat. Qed.
Lemma wf_set_priv rv v : rv_wf rv -> word v -> rv_wf (set_priv_mode rv v).
Proof. csr_setter 26%nat. Qed.
#[export] Hint Resolve wf_set_fcsr wf_set_mstatus wf_set_mepc wf_set_mcause
  wf_set_mtval wf_set_sstatus wf_set_sepc wf_set_scause wf_set_stval
  wf_set_priv : wf.

(** Every CSR of a well-formed hart is a word. *)
Lemma csrs_word rv v : rv_wf rv -> In v (csrs rv) -> word v.
Proof. intros [] Hin. by eapply List.Forall_forall. Qed.
#[export] Hint Extern 2 (word (csr_fcsr ?rv)) =>
  apply (csrs_word rv); [|simpl; tauto] : word.
#[export] Hint Extern 2 (word (csr_mstatus ?rv)) =>
  apply (csrs_word rv); [|simpl; tauto] : word.
#[export] Hint Extern 2 (word (csr_mtvec ?rv)) =>
  apply (csrs_word rv); [|simpl; tauto] : word.
#[export] Hint Extern 2 (word (csr_mepc ?rv)) =>
  apply (csrs_word rv); [|simpl; tauto] : word.
#[export] Hint Extern 2 (word (csr_mcause ?rv)) =>
  apply (csrs_word rv); [|simpl; tauto] : word.
#[export] Hint Extern 2 (word (csr_sstatus ?rv)) =>
  apply (csrs_word rv); [|simpl; tauto] : word.
#[export] Hint Extern 2 (word (csr_stvec ?rv)) =>
  apply (csrs_word rv); [|simpl; tauto] : word.
#[export] Hint Extern 2 (word (csr_scause ?rv)) =>
  apply (csrs_word rv); [|simpl; tauto] : word.
#[export] Hint Resolve wf_PC : word.

(** ** CSR instructions *)

Lemma csr_load_word rv p : rv_wf rv -> word (csr_load rv p).
Proof.
  intros Hwf. destruct p as [ | | | | | | | | | |[]|i| | | | | | | | | | | ]; simpl;
    try (apply (csrs_word rv); [done | simpl; tauto]).
  - rewrite Z.shiftr_div_pow2 by lia. pose proof (wf_cycle _ Hwf). unfold word.
    div_lia.
  - apply word_u32.
  - destruct (rv.(csr_time) !! i) as [v|] eqn:E.
    + rewrite (list_lookup_total_correct _ _ _ E).
      eapply Forall_lookup_1; [apply (wf_time _ Hwf) | done].
    + rewrite list_lookup_total_alt, E. split; by vm_compute.
Qed.

(** The position in [csrs] of the register a pointer denotes. *)
Definition csr_index (p : csr_ptr) : option nat :=
  match p with
  | p_fcsr => Some 0 | p_mstatus => Some 1 | p_mtvec => Some 2 | p_misa => Some 3
  | p_mtval => Some 4 | p_mcause => Some 5 | p_mscratch => Some 6
  | p_mepc => Some 7 | p_mip => Some 8 | p_mideleg => Some 10
  | p_medeleg => Some 11 | p_sstatus => Some 16 | p_stvec => Some 17
  | p_sip => Some 18 | p_sie => Some 19 | p_scounteren => Some 20
  | p_sscratch => Some 21 | p_sepc => Some 22 | p_scause => Some 23
  | p_stval => Some 24 | p_satp => Some 25
  | p_cycle _ | p_time _ => None
  end%nat.

Lemma csr_store_index_wf rv p v i :
  csr_index p = Some i -> rv_wf rv -> word v -> rv_wf (csr_store rv p v).
Proof.
  intros Hi Hwf Hv. apply (wf_csr i v rv); [done | done | |];
    destruct p; simpl in Hi; simplify_eq; reflexivity.
Qed.

Lemma csr_store_wf rv p v : rv_wf rv -> word v -> rv_wf (csr_store rv p v).
Proof.
  destruct (csr_index p) as [i|] eqn:Hi; [by eapply csr_store_index_wf|].
  destruct p as [ | | | | | | | | | |[]|i| | | | | | | | | | | ]; try done; simpl.
  - intros Hwf Hv. apply wf_set_cycle; [done|]. pose proof (u32_range rv.(csr_cycle)).
    unfold word in Hv. lia.
  - intros Hwf Hv. apply wf_set_cycle; [done|]. pose proof (wf_cycle _ Hwf).
    rewrite Z.shiftr_div_pow2 by lia. unfold word in Hv. div_lia.
  - intros Hwf Hv. apply wf_set_time; [done | |].
    + rewrite length_insert. apply Hwf.
    + apply Forall_insert; [apply Hwf | done].
Qed.

Lemma update_time_wf rv : rv_wf rv -> rv_wf (update_time rv).
Proof.
  intros Hwf. apply wf_set_time; [done | done|].
  constructor; [|constructor; [apply word_u32 | constructor]].
  change 0xFFFFFFFF with (Z.ones 32). rewrite Z.land_ones by lia. apply word_u32.
Qed.

Lemma csr_get_ptr_wf rv csr : rv_wf rv -> rv_wf (csr_get_ptr rv csr).1.
Proof.
  intros Hwf. unfold csr_get_ptr. cbv zeta.
  repeat (case_match; [by try apply update_time_wf|]). done.
Qed.

(** The three access functions, on the value and on the state. *)
Lemma csr_access_wf rv csr val :
  rv_wf rv -> word val ->
  (rv_wf (csr_csrrw rv csr val).1 /\ word (csr_csrrw rv csr val).2) /\
  (rv_wf (csr_csrrs rv csr val).1 /\ word (csr_csrrs rv csr val).2) /\
  (rv_wf (csr_csrrc rv csr val).1 /\ word (csr_csrrc rv csr val).2).
Proof.
  intros Hwf Hv. unfold csr_csrrw, csr_csrrs, csr_csrrc, FFLAG_MASK.
  pose proof (csr_get_ptr_wf rv csr Hwf) as Hg.
  destruct (csr_get_ptr rv csr) as [rv' [c|]]; simpl in *;
    pose proof (csr_load_word rv') as Hl;
    splits; try apply csr_store_wf; try apply word_if; auto with word.
Qed.

(** ** Traps *)

Lemma trap_vector_wf rv base mode cause :
  rv_wf rv -> word base -> rv_wf (trap_vector rv base mode cause).
Proof. intros. unfold trap_vector. repeat case_match; auto with wf word. Qed.

(** [wf_auto] peels the setters off a state and proves the words stored. *)
Ltac wf_auto :=
  repeat (simpl; match goal with
  | |- rv_wf (set_PC _ _) => apply wf_set_PC
  | |- rv_wf (set_csr_cycle _ _) => apply wf_set_cycle
  | |- rv_wf (set_csr_mstatus _ _) => apply wf_set_mstatus
  | |- rv_wf (set_csr_mepc _ _) => apply wf_set_mepc
  | |- rv_wf (set_csr_mcause _ _) => apply wf_set_mcause
  | |- rv_wf (set_csr_mtval _ _) => apply wf_set_mtval
  | |- rv_wf (set_csr_sstatus _ _) => apply wf_set_sstatus
  | |- rv_wf (set_csr_sepc _ _) => apply wf_set_sepc
  | |- rv_wf (set_csr_scause _ _) => apply wf_set_scause
  | |- rv_wf (set_csr_stval _ _) => apply wf_set_stval
  | |- rv_wf (set_csr_fcsr _ _) => apply wf_set_fcsr
  | |- rv_wf (set_priv_mode _ _) => apply wf_set_priv
  | |- rv_wf (set_compressed _ _) => apply wf_set_compressed
  | |- rv_wf (set_last_pc _ _) => apply wf_set_last_pc
  | |- rv_wf (set_is_branch_taken _ _) => apply wf_set_is_branch_taken
  | |- rv_wf (set_softfloat_exceptionFlags _ _) => apply wf_set_flags
  | |- rv_wf (setX _ _ _) => apply wf_setX
  | |- rv_wf (setF _ _ _) => apply wf_setF
  | |- word (_ &. _) => apply word_land
  | |- word (_ |. _) => apply word_lor
  | |- word (_ ^. _) => apply word_lxor
  | |- word (u32 _) => apply word_u32
  | |- word (if _ then _ else _) => apply word_if
  end); auto with wf word.

Lemma trap_handler_wf rv : rv_wf rv -> rv_wf (trap_handler rv).
Proof.
  intros Hwf. unfold trap_handler, _trap_handler, rv_trap_default_handler,
    RV_PRIV_S_MODE, RV_PRIV_M_MODE.
  case_match.
  - apply trap_vector_wf; wf_auto.
  - cbv zeta. case_match; [|apply trap_vector_wf]; wf_auto.
Qed.

(** ** What the interpreter needs of its callbacks *)

Class IoOk {W : Type} (io : riscv_io W) : Prop := {
  io_read_w : forall rv w a, rv_wf rv -> word a -> word (io.(mem_read_w) rv w a).1;
  io_read_s : forall rv w a, rv_wf rv -> word a ->
    0 <= (io.(mem_read_s) rv w a).1 < 2 ^ 16;
  io_read_b : forall rv w a, rv_wf rv -> word a ->
    0 <= (io.(mem_read_b) rv w a).1 < 2 ^ 8;
  io_ecall : forall rv w, rv_wf rv -> rv_wf (io.(on_ecall) rv w).1;
  io_ebreak : forall rv w, rv_wf rv -> rv_wf (io.(on_ebreak) rv w).1;
  io_trap : forall rv, rv_wf rv -> rv_wf (io.(on_trap) rv)
}.

(** SoftFloat returns 32-bit patterns. *)
Class SfOk (sf : softfloat) : Prop := {
  sf_mulAdd : forall m a b c, word (sf.(f32_mulAdd) m a b c).1;
  sf_add : forall m a b, word (sf.(f32_add) m a b).1;
  sf_sub : forall m a b, word (sf.(f32_sub) m a b).1;
  sf_mul : forall m a b, word (sf.(f32_mul) m a b).1;
  sf_div : forall m a b, word (sf.(f32_div) m a b).1;
  sf_sqrt : forall m a, word (sf.(f32_sqrt) m a).1;
  sf_i32 : forall m a, word (sf.(i32_to_f32) m a).1;
  sf_ui32 : forall m a, word (sf.(ui32_to_f32) m a).1
}.

(** ** Handlers preserve the invariant *)

Definition outcome_wf (o : outcome) : Prop :=
  match o with
  | nextop pc | end_op pc | tail _ pc _ => word pc
  | ret _ | unreachable => True
  end.

Definition code_wf {W : Type} (c : @code W) : Prop :=
  forall rv w ir cycle pc, rv_wf rv -> insn_wf ir -> 0 <= cycle < 2 ^ 64 -> word pc ->
  rv_wf (c rv w ir cycle pc).1.1 /\ outcome_wf (c rv w ir cycle pc).2.

(** Ranges of the results of the C operators on words. *)
Lemma word_half z : 0 <= z < 2 ^ 16 -> word z.
Proof. unfold word. lia. Qed.
Lemma word_byte z : 0 <= z < 2 ^ 8 -> word z.
Proof. unfold word. lia. Qed.
Lemma word_shr a b : word a -> word (a >>. (b &. 0x1f)).
Proof.
  intros. apply word_shiftr; [done|]. apply Z.land_nonneg. lia.
Qed.
Lemma word_shr32 a b : word a -> word (shr32 a b).
Proof. intros. apply word_shiftr; [done|]. apply Z.mod_pos_bound. lia. Qed.
Lemma word_shl32 a b : word (shl32 a b).
Proof. apply word_u32. Qed.
Lemma word_bit i : word (1 <<. (i &. (32 - 1))).
Proof.
  assert (i &. (32 - 1) = i mod 32) as -> by by apply (Z.land_ones i 5).
  rewrite Z.shiftl_1_l. pose proof (Z.mod_pos_bound i 32 ltac:(lia)).
  unfold word. split; [lia|]. apply Z.pow_lt_mono_r; lia.
Qed.
Lemma word_causes : word LOAD_MISALIGNED /\ word STORE_MISALIGNED.
Proof. split; split; by vm_compute. Qed.
#[export] Hint Extern 1 (word LOAD_MISALIGNED) => apply word_causes : word.
#[export] Hint Extern 1 (word STORE_MISALIGNED) => apply word_causes : word.
#[export] Hint Resolve word_shr word_shr32 word_shl32 word_bit : word.

(** Results of the handlers that are not built from the operators above. *)
Lemma fold_inv {A B} (P : A -> Prop) (f : A -> B -> A) l a :
  P a -> (forall a b, P a -> P (f a b)) -> P (fold_left f l a).
Proof. intros Ha Hf. revert a Ha. induction l; simpl; auto. Qed.

Lemma word_mul_low z : word (u64 z &. ((1 <<. 32) - 1)).
Proof.
  change ((1 <<. 32) - 1) with (Z.ones 32). rewrite Z.land_ones by lia. apply word_u32.
Qed.
Lemma word_div a b : word a -> word b -> b <> 0 -> word (a / b).
Proof.
  unfold word. intros. split; [apply Z.div_pos; lia|].
  apply Z.div_lt_upper_bound; nia.
Qed.
Lemma word_mod a b : word b -> b <> 0 -> word (a mod b).
Proof.
  unfold word. intros. pose proof (Z.mod_pos_bound a b ltac:(lia)). lia.
Qed.
Lemma rv_clz_range v : word v -> v <> 0 -> 0 <= rv_clz v < 32.
Proof.
  unfold rv_clz, word. intros. pose proof (Z.log2_nonneg v).
  assert (Z.log2 v < 32) by (apply Z.log2_lt_pow2; lia). lia.
Qed.
Lemma rv_ctz_range v : word v -> 0 <= rv_ctz v < 32.
Proof.
  intros Hv. unfold rv_ctz. split; [apply Z.log2_nonneg|].
  assert (word (v &. - v)) as Hl.
  { split; [apply Z.land_nonneg; left; apply Hv|].
    apply bits_below; [lia | apply Z.land_nonneg; left; apply Hv|].
    intros i Hi. by rewrite Z.land_spec, (word_testbit v). }
  destruct (decide (v &. - v = 0)) as [->|]; [done|].
  apply Z.log2_lt_pow2; destruct Hl; lia.
Qed.
Lemma fold_count {A} (f : A -> bool) l a :
  a <= fold_left (fun n i => n + b2z (f i)) l a <= a + Z.of_nat (length l).
Proof.
  revert a. induction l as [|x l IH]; intros a; simpl; [lia|].
  specialize (IH (a + b2z (f x))). unfold b2z in *. destruct (f x); lia.
Qed.
Lemma rv_popcount_range v : 0 <= rv_popcount v <= 32.
Proof. apply (fold_count (Z.testbit v) (seqZ 0 32) 0). Qed.
Lemma word_small z : 0 <= z <= 32 -> word z.
Proof. unfold word. lia. Qed.

Lemma wr_rd_wf {W} e :
  (forall rv ir pc, rv_wf rv -> insn_wf ir -> word pc -> word (e rv ir pc)) ->
  code_wf (wr_rd (W:=W) e).
Proof. intros He rv w ir cycle pc Hrv Hir Hc Hpc. simpl. auto with wf. Qed.

Section wf.
Context {W : Type} (io : riscv_io W) (sf : softfloat) (find : Z -> option Z).
Context `{!IoOk io, !SfOk sf}.

Lemma misalign_wf rv w cycle pc addr mask type cmp k :
  rv_wf rv -> 0 <= cycle < 2 ^ 64 -> word pc -> word addr -> word type ->
  rv_wf k.1.1 -> outcome_wf k.2 ->
  rv_wf (RV_EXC_MISALIGN_HANDLER io rv w cycle pc addr mask type cmp k).1.1 /\
  outcome_wf (RV_EXC_MISALIGN_HANDLER io rv w cycle pc addr mask type cmp k).2.
Proof using IoOk0.
  intros. unfold RV_EXC_MISALIGN_HANDLER, SET_CAUSE_AND_TVAL_THEN_TRAP.
  case_match; [|done]. split; [|done]. simpl. apply io_trap.
  case_match; wf_auto.
Qed.

Lemma jump_taken_wf rv w ir pc :
  rv_wf rv -> word pc ->
  rv_wf (jump_taken (W:=W) rv w ir pc).1.1 /\ outcome_wf (jump_taken rv w ir pc).2.
Proof. intros. unfold jump_taken. case_match; simpl; auto with wf. Qed.

Lemma bht_wf rv w ir pc :
  rv_wf rv -> word pc ->
  rv_wf (LOOKUP_OR_UPDATE_BRANCH_HISTORY_TABLE (W:=W) find rv w ir pc).1.1 /\
  outcome_wf (LOOKUP_OR_UPDATE_BRANCH_HISTORY_TABLE find rv w ir pc).2.
Proof.
  intros. unfold LOOKUP_OR_UPDATE_BRANCH_HISTORY_TABLE.
  repeat case_match; simpl; auto.
Qed.

(** The handlers that write one register with a computed word. *)
Local Ltac pure :=
  apply wr_rd_wf; intros rv ir pc Hrv Hir Hpc; cbv beta zeta.
Local Ltac intro_code := intros rv w ir cycle pc Hrv Hir Hc Hpc.

Lemma wf_mul : code_wf (W:=W) do_mul.
Proof. pure. apply word_mul_low. Qed.
Lemma wf_divu : code_wf (W:=W) do_divu.
Proof.
  pure. destruct (Z.eqb_spec (getX rv (rs2 ir)) 0); auto using word_div with word.
Qed.
Lemma wf_remu : code_wf (W:=W) do_remu.
Proof.
  pure. destruct (Z.eqb_spec (getX rv (rs2 ir)) 0); auto using word_mod with word.
Qed.
Lemma wf_clz : code_wf (W:=W) do_clz.
Proof.
  pure. unfold nz. destruct (Z.eqb_spec (getX rv (rs1 ir)) 0); simpl; auto with word.
  apply word_small.
  pose proof (rv_clz_range (getX rv (rs1 ir)) ltac:(auto with word) ltac:(done)). lia.
Qed.
Lemma wf_ctz : code_wf (W:=W) do_ctz.
Proof.
  pure. apply word_if; auto with word.
  apply word_small. pose proof (rv_ctz_range (getX rv (rs1 ir)) ltac:(auto with word)). lia.
Qed.
Lemma wf_cpop : code_wf (W:=W) do_cpop.
Proof. pure. apply word_small, rv_popcount_range. Qed.
Lemma wf_rev8 : code_wf (W:=W) do_rev8.
Proof. pure. wf_auto; apply word_shiftr; auto with word; lia. Qed.
Lemma wf_bext : code_wf (W:=W) do_bext.
Proof. pure. apply word_land; auto with word. Qed.
Lemma wf_bexti : code_wf (W:=W) do_bexti.
Proof. pure. apply word_land; auto with word. Qed.

(** The carry-less products fold words. *)
Lemma wf_clmul_fold rv ir l g :
  rv_wf rv -> (forall i, In i l -> word (g i)) ->
  word (fold_left (fun output i =>
    if nz ((getX rv ir >>. i) &. 1) then output ^. g i else output) l 0).
Proof.
  intros Hrv. generalize (0 : Z) as z, (ltac:(auto with word) : word 0).
  induction l as [|i l IH]; intros z Hz Hg; simpl; [done|].
  apply IH; [|intros; apply Hg; by right].
  apply word_if; [|done]. apply word_lxor; [done | apply Hg; by left].
Qed.
Lemma wf_clmul : code_wf (W:=W) do_clmul.
Proof. pure. apply wf_clmul_fold; auto with word. Qed.
Lemma wf_clmulh : code_wf (W:=W) do_clmulh.
Proof.
  pure. apply wf_clmul_fold; [done|]. intros i Hi.
  apply list_elem_of_In, elem_of_seqZ in Hi. apply word_shiftr; auto with word. lia.
Qed.
Lemma wf_clmulr : code_wf (W:=W) do_clmulr.
Proof.
  pure. apply wf_clmul_fold; [done|]. intros i Hi.
  apply list_elem_of_In, elem_of_seqZ in Hi. apply word_shiftr; auto with word. lia.
Qed.

(** Loads, stores and atomics. *)
Lemma word_sign_extend_h x : word (sign_extend_h x).
Proof. apply word_u32. Qed.
Lemma word_sign_extend_b x : word (sign_extend_b x).
Proof. apply word_u32. Qed.
Local Hint Resolve word_sign_extend_h word_sign_extend_b word_byte word_half : word.

Local Ltac read_word :=
  match goal with
  | |- context [mem_read_w io ?rv ?w ?a] =>
      pose proof (io_read_w rv w a); destruct (mem_read_w io rv w a)
  | |- context [mem_read_s io ?rv ?w ?a] =>
      pose proof (io_read_s rv w a); destruct (mem_read_s io rv w a)
  | |- context [mem_read_b io ?rv ?w ?a] =>
      pose proof (io_read_b rv w a); destruct (mem_read_b io rv w a)
  end; simpl in *.
Local Ltac mem_op :=
  intro_code;
  unfold do_lb, do_lh, do_lw, do_lbu, do_lhu, do_sb, do_sh, do_sw, do_flw, do_fsw,
    do_clw, do_csw, do_clwsp, do_cswsp, do_cflwsp, do_cfswsp, do_cflw, do_cfsw,
    do_lrw, do_scw, load_addr, sp_addr; cbv zeta beta;
  try (apply misalign_wf; auto with word);
  try read_word; repeat case_match; simpl in *;
  repeat match goal with H : rv_wf _ -> word _ -> _ |- _ =>
    specialize (H ltac:(auto with wf word) ltac:(auto with word)) end;
  auto with wf word.

Lemma amo_wf f :
  (forall a b, word a -> word b -> word (f a b)) -> code_wf (W:=W) (amo_op io f).
Proof using IoOk0. intros Hf. unfold amo_op. mem_op. Qed.

Lemma wf_branch f : code_wf (W:=W) (BRANCH_FUNC f).
Proof. intro_code. unfold BRANCH_FUNC. repeat case_match; simpl; auto with wf word. Qed.

Lemma wf_cbranch f : code_wf (W:=W) (fun rv w ir cycle pc =>
  c_branch (f (getX rv ir.(rs1))) rv w ir cycle pc).
Proof.
  intro_code. unfold c_branch, jump_taken. repeat case_match; simpl; auto 6 with wf word.
Qed.

Lemma wf_csr_op ir w pc r :
  rv_wf r.1 -> word r.2 -> word pc ->
  rv_wf (wr_csr (W:=W) ir w pc r).1.1 /\ outcome_wf (wr_csr ir w pc r).2.
Proof. destruct r. simpl. auto with wf word. Qed.

Lemma shift_func_wf rv o rd rs1 imm rv' :
  rv_wf rv -> shift_func rv o rd rs1 imm = Some rv' -> rv_wf rv'.
Proof. intros Hrv. destruct o; simpl; intros; simplify_eq; auto with wf word. Qed.

Lemma wf_shift : code_wf (W:=W) do_shift.
Proof.
  intro_code. unfold do_shift. case_match eqn:E; simpl; [|done].
  eauto using shift_func_wf.
Qed.

Lemma wf_ext b n m : word n -> word m -> code_wf (W:=W) (fun rv w ir cycle pc =>
  let rv := setX rv ir.(rd) (getX rv ir.(rs1) &. n) in
  let rv := if nz (getX rv ir.(rs1) &. (1 <<. b))
            then setX rv ir.(rd) (getX rv ir.(rd) |. m) else rv in
  (rv, w, nextop pc)).
Proof. intros Hn Hm. intro_code. cbv zeta. case_match; (split; [|done]); wf_auto. Qed.

Lemma wf_csrai : code_wf (W:=W) do_csrai.
Proof.
  intro_code. split; [|done]. simpl.
  apply (fold_inv rv_wf); [auto with wf word|]. intros; wf_auto.
Qed.

Lemma wf_orcb : code_wf (W:=W) do_orcb.
Proof.
  intro_code. split; [|done]. cbn [fst do_orcb].
  apply (fold_inv rv_wf); [auto with wf word|]. intros. case_match; wf_auto.
Qed.

Lemma wf_mret : code_wf (W:=W) do_mret.
Proof.
  intro_code. split; [|done]. cbn [do_mret fst]. wf_auto.
  - apply word_shiftr; [|done]. apply word_land; [auto with word|].
    split; by vm_compute.
  - split; by vm_compute.
Qed.

(** Floating point. *)
Lemma set_fflag_wf rv : rv_wf rv -> rv_wf (set_fflag rv).
Proof.
  intros Hrv. unfold set_fflag, FFLAG_INVALID_OP, FFLAG_DIV_BY_ZERO, FFLAG_OVERFLOW,
    FFLAG_UNDERFLOW, FFLAG_INEXACT. cbv zeta. apply wf_set_flags.
  repeat case_match; wf_auto.
Qed.
Lemma raise_wf rv fl : rv_wf rv -> rv_wf (raise rv fl).
Proof. apply wf_set_flags. Qed.
Lemma set_rounding_mode_wf rv m rv' :
  rv_wf rv -> set_rounding_mode rv m = Some rv' -> rv_wf rv'.
Proof.
  intros Hrv. unfold set_rounding_mode. repeat case_match; intros; simplify_eq;
    auto with wf.
Qed.
Lemma fp_arith_wf e :
  (forall m rv ir, rv_wf rv -> word (e m rv ir).1) -> code_wf (W:=W) (fp_arith e).
Proof.
  intros He. intro_code. unfold fp_arith. destruct (set_rounding_mode _ _) eqn:E; [|done].
  pose proof (set_rounding_mode_wf _ _ _ Hrv E) as Hr.
  specialize (He r.(softfloat_roundingMode) r ir Hr).
  destruct (e _ _ _) as [v fl]. simpl in *.
  auto 6 using set_fflag_wf, raise_wf with wf.
Qed.
Lemma setX_nz_wf rv i v : rv_wf rv -> word v -> rv_wf (setX_nz rv i v).
Proof. intros. unfold setX_nz. case_match; auto with wf. Qed.
Lemma fp_to_int_wf e : code_wf (W:=W) (fp_to_int e).
Proof.
  intro_code. unfold fp_to_int. destruct (set_rounding_mode _ _) eqn:E; [|done].
  pose proof (set_rounding_mode_wf _ _ _ Hrv E) as Hr.
  destruct (e _ _) as [v fl]. simpl. split; [|done].
  apply set_fflag_wf, setX_nz_wf; auto using raise_wf with wf word.
Qed.
Lemma fp_cmp_wf e : code_wf (W:=W) (fp_cmp e).
Proof.
  intro_code. unfold fp_cmp. destruct (e _ _) as [b fl]. simpl. split; [|done].
  apply set_fflag_wf, setX_nz_wf; [auto using raise_wf with wf|]. destruct b; simpl; auto with word.
Qed.
Lemma fp_minmax_wf b : code_wf (W:=W) (fp_minmax sf b).
Proof.
  intro_code. unfold fp_minmax, RV_NAN, FFLAG_INVALID_OP, raise.
  repeat case_match; simplify_eq; simpl; (split; [|done]); wf_auto.
Qed.
Lemma calc_fclass_word f : word (calc_fclass f).
Proof. unfold calc_fclass. repeat case_match; auto with word. Qed.

(** ** The dispatch table and blocks *)

Definition fin_wf (f : fin) : Prop :=
  match f with
  | Next cycle pc | Tail _ cycle pc _ => 0 <= cycle < 2 ^ 64 /\ word pc
  | Done _ | Undefined => True
  end.

Definition impl_wf (h : @impl_t W) : Prop :=
  forall rv w ir cycle pc, rv_wf rv -> insn_wf ir -> 0 <= cycle < 2 ^ 64 -> word pc ->
  rv_wf (h rv w ir cycle pc).1.1 /\ fin_wf (h rv w ir cycle pc).2.

Lemma RVOP_wf o c : code_wf c -> impl_wf (RVOP o c).
Proof.
  intros Hcode rv w ir cycle pc Hrv Hir Hc Hpc. unfold RVOP. cbv zeta.
  specialize (Hcode rv w ir (u64 (cycle + 1)) pc Hrv Hir (u64_range _) Hpc).
  destruct (c _ _ _ _ _) as [[rv' w'] out]. simpl in Hcode. destruct Hcode.
  destruct out; simpl; auto using u64_range with wf word.
Qed.

Context (tt_direct : Z -> Z -> W -> W * bool) (mailbox_stalled : Z -> W -> bool).

Lemma fuse3_loop_wf fs rv w cycle pc :
  rv_wf rv -> 0 <= cycle < 2 ^ 64 -> word pc ->
  match fuse3_loop io fs rv w cycle pc with inl s | inr s => rv_wf s.1 end.
Proof using IoOk0.
  intros Hrv Hc Hpc. revert rv w Hrv.
  induction fs as [|f fs IH]; intros rv w Hrv; simpl; [done|].
  match goal with |- context [RV_EXC_MISALIGN_HANDLER io ?r ?w ?c ?p ?a ?m ?t ?b ?k] =>
    assert (rv_wf (RV_EXC_MISALIGN_HANDLER io r w c p a m t b k).1.1) as Hm
  end.
  { apply misalign_wf; simpl; auto with word. }
  destruct (RV_EXC_MISALIGN_HANDLER _ _ _ _ _ _ _ _ _ _) as [[rv' w'] []];
    simpl in *; try done. by apply IH.
Qed.

Lemma fuse4_loop_wf fs rv w cycle pc :
  rv_wf rv -> 0 <= cycle < 2 ^ 64 -> word pc ->
  match fuse4_loop io fs rv w cycle pc with inl s | inr s => rv_wf s.1 end.
Proof using IoOk0.
  intros Hrv Hc Hpc. revert rv w Hrv.
  induction fs as [|f fs IH]; intros rv w Hrv; simpl; [done|].
  match goal with |- context [RV_EXC_MISALIGN_HANDLER io ?r ?w ?c ?p ?a ?m ?t ?b ?k] =>
    assert (rv_wf (RV_EXC_MISALIGN_HANDLER io r w c p a m t b k).1.1) as Hm
  end.
  { pose proof (io_read_w rv w (u32 (getX rv (f_rs1 f) + f_imm f)) Hrv (word_u32 _)).
    destruct (mem_read_w _ _ _ _). simpl in *.
    apply misalign_wf; simpl; auto with wf word. }
  destruct (RV_EXC_MISALIGN_HANDLER _ _ _ _ _ _ _ _ _ _) as [[rv' w'] []];
    simpl in *; try done. by apply IH.
Qed.

Lemma fuse5_loop_wf fs rv rv' : rv_wf rv -> fuse5_loop fs rv = Some rv' -> rv_wf rv'.
Proof.
  revert rv. induction fs as [|f fs IH]; intros rv Hrv; simpl; intros E; simplify_eq; [done|].
  destruct (shift_func _ _ _ _ _) eqn:Es; simplify_eq. eauto using shift_func_wf.
Qed.

Local Ltac intro_impl := intros rv w ir cycle pc Hrv Hir Hc Hpc; cbv zeta.

Lemma wf_fuse1 : impl_wf do_fuse1.
Proof.
  intro_impl. unfold do_fuse1. simpl. split; [|auto using u64_range with word].
  apply (fold_inv rv_wf); [done|]. auto with wf word.
Qed.
Lemma wf_fuse2 : impl_wf do_fuse2.
Proof. intro_impl. simpl. split; [wf_auto | auto using u64_range with word]. Qed.
Lemma wf_fuse3 : impl_wf (do_fuse3 io).
Proof using IoOk0.
  intro_impl. unfold do_fuse3. cbv zeta.
  pose proof (fuse3_loop_wf (take (Z.to_nat (imm2 ir)) (fuse ir)) rv w
    (u64 (cycle + imm2 ir)) pc Hrv (u64_range _) Hpc) as H.
  case_match; destruct_and?; case_match; simpl in *; auto using u64_range with word.
Qed.
Lemma wf_fuse4 : impl_wf (do_fuse4 io).
Proof using IoOk0.
  intro_impl. unfold do_fuse4. cbv zeta.
  pose proof (fuse4_loop_wf (take (Z.to_nat (imm2 ir)) (fuse ir)) rv w
    (u64 (cycle + imm2 ir)) pc Hrv (u64_range _) Hpc) as H.
  case_match; destruct_and?; case_match; simpl in *; auto using u64_range with word.
Qed.
Lemma wf_fuse5 : impl_wf do_fuse5.
Proof.
  intro_impl. unfold do_fuse5. cbv zeta.
  case_match eqn:E; simpl; [|done]. eauto using fuse5_loop_wf, u64_range with word.
Qed.
Lemma wf_ttinsn : impl_wf (do_ttinsn tt_direct).
Proof.
  intro_impl. unfold do_ttinsn. cbv zeta. destruct (tt_direct _ _ _).
  case_match; simpl; auto using u64_range with wf word.
Qed.
Lemma wf_lw_mailbox : impl_wf (do_lw_mailbox io mailbox_stalled).
Proof using IoOk0.
  intro_impl. unfold do_lw_mailbox. cbv zeta.
  pose proof (io_read_w rv w (u32 (getX rv (rs1 ir) + imm ir)) Hrv (word_u32 _)).
  destruct (mem_read_w _ _ _ _). simpl in *.
  case_match; simpl; (split; [|done]); wf_auto; apply u64_range.
Qed.

Lemma wf_host_call rv w cycle pc cmp (call : riscv -> W -> riscv * W) :
  (forall rv w, rv_wf rv -> rv_wf (call rv w).1) ->
  rv_wf rv -> 0 <= cycle < 2 ^ 64 -> word pc ->
  let r := (let rv := set_compressed rv cmp in
            let rv := set_csr_cycle rv cycle in
            let rv := set_PC rv pc in
            let '(rv, w) := call rv w in (rv, w, ret true)) in
  rv_wf r.1.1 /\ outcome_wf r.2.
Proof.
  intros Hcall Hrv Hc Hpc. simpl.
  pose proof (Hcall (set_PC (set_csr_cycle (set_compressed rv cmp) cycle) pc) w
    ltac:(auto with wf)).
  by destruct (call _ _).
Qed.

(** Every entry of the dispatch table preserves the invariant. *)
Lemma dispatch_wf o : impl_wf (dispatch_table io sf find tt_direct o).
Proof using IoOk0 SfOk0.
  destruct o; cbn [dispatch_table];
    try (first [ apply wf_fuse1 | apply wf_fuse2 | apply wf_fuse3 | apply wf_fuse4
               | apply wf_fuse5 | apply wf_ttinsn ]);
    apply RVOP_wf;
    try (first [ apply wf_mul | apply wf_divu | apply wf_remu | apply wf_clz
      | apply wf_ctz | apply wf_cpop | apply wf_rev8 | apply wf_bext | apply wf_bexti
      | apply wf_clmul | apply wf_clmulh | apply wf_clmulr | apply wf_branch
      | apply wf_shift | apply wf_csrai | apply wf_orcb | apply wf_mret
      | apply fp_minmax_wf | apply fp_to_int_wf | apply fp_cmp_wf
      | apply (wf_cbranch nz) | apply (wf_cbranch (fun x => x =? 0))
      | (apply (wf_ext 7); auto with word; fail) | (apply (wf_ext 15); auto with word; fail)
      | (apply amo_wf; auto with word; fail) ]).
  all: try (pure; wf_auto; fail).
  all: try (apply fp_arith_wf; intros; cbv zeta; apply SfOk0; fail).
  all: try (mem_op; fail).
  all: intro_code.
  all: try (unfold do_jal, do_cjal, do_cj; apply jump_taken_wf; repeat case_match; wf_auto).
  all: try (unfold do_jalr, do_cjr, do_cjalr; apply bht_wf; repeat case_match; wf_auto).
  all: try (apply wf_csr_op; [apply csr_access_wf | apply csr_access_wf |]; wf_auto; fail).
  all: try (apply wf_csr_op; [apply csr_access_wf | apply csr_access_wf |];
            destruct Hir; unfold word; try done; lia).
  all: try (split; [|done]; unfold do_fsgnjs, do_fsgnjns, do_fsgnjxs, FMASK_SIGN;
            wf_auto; fail).
  all: try (split; [apply setX_nz_wf; auto using calc_fclass_word with word | done]).
  all: apply wf_host_call; auto using io_ecall, io_ebreak.
Qed.

Lemma exec_keeps_wf irs rv w cycle pc :
  rv_wf rv -> Forall insn_wf irs -> 0 <= cycle < 2 ^ 64 -> word pc ->
  rv_wf (exec_block io sf find tt_direct mailbox_stalled irs rv w cycle pc).1.1 /\
  match (exec_block io sf find tt_direct mailbox_stalled irs rv w cycle pc).2 with
  | Chained _ cycle pc _ => 0 <= cycle < 2 ^ 64 /\ word pc
  | _ => True
  end.
Proof using IoOk0 SfOk0.
  intros Hrv Hirs. revert rv w cycle pc Hrv.
  induction Hirs as [|ir irs Hir Hirs IH]; intros rv w cycle pc Hrv Hc Hpc; simpl.
  - auto with wf.
  - assert (impl_wf (call_impl io sf find tt_direct mailbox_stalled ir.(impl))) as Hi
      by (destruct ir.(impl); [apply dispatch_wf | apply wf_lw_mailbox]).
    specialize (Hi rv w ir cycle pc Hrv Hir Hc Hpc).
    destruct (call_impl _ _ _ _ _ _ _ _ _ _ _) as [[rv' w'] []]; simpl in *;
      destruct_and?; auto.
Qed.

(** C23.  Memory safety of the interpreter's data: executing any block of
    well-formed instructions, fused and mailbox ones included, on a
    well-formed hart keeps 32 integer and 32 float registers, every register
    and CSR a 32-bit word and the counters 64-bit, and passes a 32-bit
    program counter on to the next block. *)
Theorem exec_block_wf irs rv w cycle pc :
  rv_wf rv -> Forall insn_wf irs -> 0 <= cycle < 2 ^ 64 -> word pc ->
  rv_wf (exec_block io sf find tt_direct mailbox_stalled irs rv w cycle pc).1.1 /\
  match (exec_block io sf find tt_direct mailbox_stalled irs rv w cycle pc).2 with
  | Chained _ cycle pc _ => 0 <= cycle < 2 ^ 64 /\ word pc
  | _ => True
  end.
Proof using IoOk0 SfOk0. apply exec_keeps_wf. Qed.
End wf.
