(* ===== verification/Memory.v ===== *)
(** * Guest memory (src/rv32emu/src/io.c, io.h) and the memory callbacks

    A [heap] is the host's memory, one byte per host address (bytes never
    written are 0, as in a fresh mapping); [memory_t] holds host addresses,
    as the C structure holds pointers.  [on_mem_*] are the callbacks that
    [rv_new] installs (src/rv32emu/src/riscv.c): word accesses go to the
    coprocessor first when there is one. *)

From Stdlib Require Import ZArith Lia Bool.
From stdpp Require Import base list numbers gmap.
From S2P Require Import Prelude Decode Riscv.

(** ** Host memory *)

Notation heap := (gmap Z Z).

(** A cell holds eight bits. *)
Definition heap_get (h : heap) (a : Z) : Z := u8 (default 0 (h !! a)).

(** [n] bytes from [a], little endian. *)
Fixpoint load (n : nat) (h : heap) (a : Z) : Z :=
  match n with
  | O => 0
  | S n => heap_get h a + 256 * load n h (a + 1)
  end.

Fixpoint store (n : nat) (h : heap) (a v : Z) : heap :=
  match n with
  | O => h
  | S n => store n (<[a := u8 v]> h) (a + 1) (v / 256)
  end.

(** The object representation of an integer of [n] bytes. *)
Fixpoint bytes_of (n : nat) (v : Z) : list Z :=
  match n with O => [] | S n => u8 v :: bytes_of n (v / 256) end.

(** ** memory_t *)

Definition HIGH_MEM_OFFSET : Z := 0xffb00000.
Definition LOCAL_MEM_SIZE : Z := 0x2000.

Record memory_t : Type := mk_memory {
  mem_base : Z; mem_size : Z; mem_high : Z; mem_local : Z; local_size : Z
}.

(** The conditional expression that every access function computes. *)
Definition host_addr (mem : memory_t) (addr : Z) : Z :=
  if addr <? HIGH_MEM_OFFSET then mem.(mem_base) + addr
  else if addr - HIGH_MEM_OFFSET <? mem.(local_size)
  then mem.(mem_local) + (addr - HIGH_MEM_OFFSET)
  else mem.(mem_high) + (addr - HIGH_MEM_OFFSET).

Definition memory_ifetch (mem : memory_t) (h : heap) (addr : Z) : Z :=
  load 4 h (mem.(mem_base) + addr).

Definition memory_read_w (mem : memory_t) (h : heap) (addr : Z) : Z :=
  load 4 h (host_addr mem addr).
Definition memory_read_s (mem : memory_t) (h : heap) (addr : Z) : Z :=
  load 2 h (host_addr mem addr).
Definition memory_read_b (mem : memory_t) (h : heap) (addr : Z) : Z :=
  load 1 h (host_addr mem addr).

Definition memory_write_w (mem : memory_t) (h : heap) (addr v : Z) : heap :=
  store 4 h (host_addr mem addr) v.
Definition memory_write_s (mem : memory_t) (h : heap) (addr v : Z) : heap :=
  store 2 h (host_addr mem addr) v.
Definition memory_write_b (mem : memory_t) (h : heap) (addr v : Z) : heap :=
  store 1 h (host_addr mem addr) v.

(** [memcpy] and [memset] on the host address of [addr]. *)
Definition memory_read (mem : memory_t) (h : heap) (addr size : Z) : list Z :=
  (fun i => heap_get h (host_addr mem addr + i)) <$> seqZ 0 size.
Definition memory_write (mem : memory_t) (h : heap) (addr : Z) (src : list Z)
    : heap * bool :=
  (fold_left (fun h p => <[host_addr mem addr + p.1 := p.2]> h)
     (zip (seqZ 0 (Z.of_nat (length src))) src) h, true).
Definition memory_fill (mem : memory_t) (h : heap) (addr size val : Z)
    : heap * bool :=
  (fold_left (fun h i => <[host_addr mem addr + i := u8 val]> h) (seqZ 0 size) h,
   true).

(** The memory that [rv32_create] describes (src/rv32sim.c). *)
Definition rv32_create_mem (base size local lsize : Z) : memory_t :=
  mk_memory base size (base + size) local (u32 lsize).

(** ** The callbacks *)

Section callbacks.
(** [T] is the coprocessor.  Its MMIO read handler answers [None] for an
    address that it does not decode, and then has changed nothing; the write
    handler returns the boolean of the C function: [false] lets the normal
    memory write follow, after what the handler may have done itself. *)
Context {T : Type}.
Context (tensix_mmio_read : Z -> Z -> T -> heap -> option (Z * T * heap)).
Context (tensix_mmio_write : Z -> Z -> Z -> T -> heap -> T * heap * bool).

Record world : Type := mk_world {
  w_mem : memory_t; w_heap : heap; w_tensix : option T
}.

Definition set_heap (w : world) (h : heap) : world :=
  mk_world w.(w_mem) h w.(w_tensix).

Definition on_mem_ifetch (rv : riscv) (w : world) (addr : Z) : Z :=
  memory_ifetch w.(w_mem) w.(w_heap) addr.

Definition on_mem_read_w (rv : riscv) (w : world) (addr : Z) : Z * world :=
  match w.(w_tensix) with
  | Some t =>
      match tensix_mmio_read rv.(core_id) addr t w.(w_heap) with
      | Some (v, t, h) => (v, mk_world w.(w_mem) h (Some t))
      | None => (memory_read_w w.(w_mem) w.(w_heap) addr, w)
      end
  | None => (memory_read_w w.(w_mem) w.(w_heap) addr, w)
  end.
Definition on_mem_read_s (rv : riscv) (w : world) (addr : Z) : Z * world :=
  (memory_read_s w.(w_mem) w.(w_heap) addr, w).
Definition on_mem_read_b (rv : riscv) (w : world) (addr : Z) : Z * world :=
  (memory_read_b w.(w_mem) w.(w_heap) addr, w).

Definition on_mem_write_w (rv : riscv) (w : world) (addr data : Z) : world :=
  match w.(w_tensix) with
  | Some t =>
      match tensix_mmio_write rv.(core_id) addr data t w.(w_heap) with
      | (t, h, true) => mk_world w.(w_mem) h (Some t)
      | (t, h, false) =>
          mk_world w.(w_mem) (memory_write_w w.(w_mem) h addr data) (Some t)
      end
  | None => set_heap w (memory_write_w w.(w_mem) w.(w_heap) addr data)
  end.
Definition on_mem_write_s (rv : riscv) (w : world) (addr data : Z) : world :=
  set_heap w (memory_write_s w.(w_mem) w.(w_heap) addr data).
Definition on_mem_write_b (rv : riscv) (w : world) (addr data : Z) : world :=
  set_heap w (memory_write_b w.(w_mem) w.(w_heap) addr data).

(** The [memset] and [memcpy] fast paths of emulate.c (called through
    [on_memset] and [on_memcpy]); [trap] is the callback [on_trap]. *)
Definition rv_reg_a0 : Z := 10.
Definition rv_reg_a1 : Z := 11.
Definition rv_reg_a2 : Z := 12.

Definition memset_handler (trap : riscv -> riscv) (rv : riscv) (w : world)
    : riscv * world :=
  let m := w.(w_mem) in
  let dest := getX rv rv_reg_a0 in
  let value := getX rv rv_reg_a1 in
  let count := getX rv rv_reg_a2 in
  if (m.(mem_size) <=? dest) || (u64 (m.(mem_size) - dest) <? count) then
    (SET_CAUSE_AND_TVAL_THEN_TRAP trap rv STORE_MISALIGNED dest, w)
  else
    let h := fold_left (fun h i => <[m.(mem_base) + dest + i := u8 value]> h)
               (seqZ 0 count) w.(w_heap) in
    (set_PC rv (getX rv rv_reg_ra &. u32 (Z.lnot 1)), set_heap w h).

(** [memcpy] of non-overlapping ranges: the source is read first. *)
Definition memcpy_handler (trap : riscv -> riscv) (rv : riscv) (w : world)
    : riscv * world :=
  let m := w.(w_mem) in
  let dest := getX rv rv_reg_a0 in
  let src := getX rv rv_reg_a1 in
  let count := getX rv rv_reg_a2 in
  if (m.(mem_size) <=? dest) || (u64 (m.(mem_size) - dest) <? count) then
    (SET_CAUSE_AND_TVAL_THEN_TRAP trap rv STORE_MISALIGNED dest, w)
  else if (m.(mem_size) <=? src) || (u64 (m.(mem_size) - src) <? count) then
    (SET_CAUSE_AND_TVAL_THEN_TRAP trap rv LOAD_MISALIGNED src, w)
  else
    let bytes := (fun i => heap_get w.(w_heap) (m.(mem_base) + src + i))
                 <$> seqZ 0 count in
    let h := fold_left (fun h p => <[m.(mem_base) + dest + p.1 := p.2]> h)
               (zip (seqZ 0 count) bytes) w.(w_heap) in
    (set_PC rv (getX rv rv_reg_ra &. u32 (Z.lnot 1)), set_heap w h).

(** The table of callbacks of [rv_new]; [syscall_handler] is the host's. *)
Context (syscall_handler : riscv -> world -> riscv * world).

Definition rv_io : riscv_io world :=
  mk_riscv_io world on_mem_ifetch on_mem_read_w on_mem_read_s on_mem_read_b
    on_mem_write_w on_mem_write_s on_mem_write_b
    (ecall_handler trap_handler syscall_handler)
    (fun rv w => (ebreak_handler trap_handler rv, w)) trap_handler.
End callbacks.
Arguments world : clear implicits.
