(* ===== verification/MemorySpec.v ===== *)
(** * Guest memory behaves as memory

    The abstract specification is a byte array indexed by guest addresses:
    [guest mem h] reads it off the host's memory.  A write through
    [memory_write_*] changes exactly the bytes it names, and a word, half
    word or byte read returns the little-endian number of its bytes. *)

From Stdlib Require Import ZArith Lia Bool.
From stdpp Require Import base list numbers gmap.
From S2P Require Import Prelude Decode Riscv Exec ExecWf Memory.

(** ** Host memory *)

Lemma heap_get_range h a : 0 <= heap_get h a < 256.
Proof. apply u8_range. Qed.

Lemma heap_get_insert h a b v :
  heap_get (<[a := v]> h) b = if decide (a = b) then u8 v else heap_get h b.
Proof.
  unfold heap_get. destruct (decide (a = b)) as [->|].
  - by rewrite lookup_insert_eq.
  - by rewrite lookup_insert_ne.
Qed.

Lemma load_range n h a : 0 <= load n h a < 256 ^ Z.of_nat n.
Proof.
  revert a. induction n as [|n IH]; intros a; simpl load; [lia|].
  specialize (IH (a + 1)). pose proof (heap_get_range h a).
  rewrite Nat2Z.inj_succ, Z.pow_succ_r by lia. nia.
Qed.

(** The byte at distance [i] from the start of a store. *)
Lemma store_get n h a v b :
  heap_get (store n h a v) b =
  if decide (a <= b < a + Z.of_nat n)
  then (v / 256 ^ (b - a)) mod 256 else heap_get h b.
Proof.
  revert h a v. induction n as [|n IH]; intros h a v; simpl store.
  - destruct (decide _); [lia | done].
  - rewrite IH, heap_get_insert. repeat destruct (decide _); try lia; try done.
    + rewrite Z.div_div by lia. f_equal. f_equal.
      replace (b - a) with (1 + (b - (a + 1))) by lia.
      rewrite Z.pow_add_r by lia. lia.
    + subst. replace (b - b) with 0 by lia. rewrite Z.div_1_r. unfold u8. norm_pow. div_lia.
Qed.

Lemma load_ext n h h' a a' :
  (forall i, 0 <= i < Z.of_nat n -> heap_get h (a + i) = heap_get h' (a' + i)) ->
  load n h a = load n h' a'.
Proof.
  revert a a'. induction n as [|n IH]; intros a a' Hi; simpl; [done|].
  rewrite (IH (a + 1) (a' + 1)).
  - specialize (Hi 0). rewrite !Z.add_0_r in Hi. rewrite Hi by lia. done.
  - intros i Hi'. specialize (Hi (1 + i)). rewrite !Z.add_assoc in Hi. apply Hi. lia.
Qed.

(** A load of what a store of the same size wrote. *)
Lemma load_store n h a v : 0 <= v < 256 ^ Z.of_nat n -> load n (store n h a v) a = v.
Proof.
  revert h a v. induction n as [|n IH]; intros h a v Hv; simpl load; simpl store.
  - simpl in Hv. lia.
  - rewrite Nat2Z.inj_succ, Z.pow_succ_r in Hv by lia.
    rewrite store_get. destruct (decide _); [lia|].
    rewrite heap_get_insert. destruct (decide _); [|done].
    rewrite IH; [unfold u8; norm_pow; div_lia|]. split; [apply Z.div_pos; lia|].
    apply Z.div_lt_upper_bound; lia.
Qed.

(** ** Guest memory *)

(** The layout [rv32_create] is given: the guest has [mem_size] bytes of
    memory from 0, the window at [HIGH_MEM_OFFSET] starts with the core's
    local memory and goes on right behind the guest's memory. *)
Record layout_ok (m : memory_t) : Prop := mk_layout_ok {
  lay_size : 0 <= m.(mem_size) <= HIGH_MEM_OFFSET;
  lay_local : 0 <= m.(local_size) <= 2 ^ 32 - HIGH_MEM_OFFSET;
  lay_high : m.(mem_high) = m.(mem_base) + m.(mem_size);
  lay_disjoint :
    m.(mem_local) + m.(local_size) <= m.(mem_base) \/
    m.(mem_base) + m.(mem_size) + (2 ^ 32 - HIGH_MEM_OFFSET) <= m.(mem_local)
}.

(** The guest addresses that have a byte of their own. *)
Definition valid (m : memory_t) (a : Z) : Prop :=
  0 <= a < m.(mem_size) \/ HIGH_MEM_OFFSET <= a < 2 ^ 32.

(** [n] bytes from [a] that lie in one region. *)
Definition in_region (m : memory_t) (a n : Z) : Prop :=
  0 <= a /\ a + n <= m.(mem_size) \/
  HIGH_MEM_OFFSET <= a /\ a + n <= HIGH_MEM_OFFSET + m.(local_size) \/
  HIGH_MEM_OFFSET + m.(local_size) <= a /\ a + n <= 2 ^ 32.

Lemma host_addr_offset m a n i :
  layout_ok m -> in_region m a n -> 0 <= i < n ->
  host_addr m (a + i) = host_addr m a + i /\ valid m (a + i).
Proof.
  intros [] Hr Hi. unfold in_region, valid, host_addr, HIGH_MEM_OFFSET in *.
  split; [|lia]. bool_cases; lia.
Qed.

Lemma host_addr_inj m a b :
  layout_ok m -> valid m a -> valid m b -> host_addr m a = host_addr m b -> a = b.
Proof.
  intros [] Ha Hb. unfold valid, host_addr, HIGH_MEM_OFFSET in *. bool_cases; lia.
Qed.

(** The guest's view of a byte. *)
Definition guest (m : memory_t) (h : heap) (a : Z) : Z := heap_get h (host_addr m a).

(** A write of [n] bytes in one region, on the guest's view. *)
Lemma guest_store m h a n v b :
  layout_ok m -> in_region m a (Z.of_nat n) -> valid m b ->
  guest m (store n h (host_addr m a) v) b =
  if decide (a <= b < a + Z.of_nat n)
  then (v / 256 ^ (b - a)) mod 256 else guest m h b.
Proof.
  intros Hl Hr Hb. unfold guest. rewrite store_get.
  destruct (decide (a <= b < a + Z.of_nat n)) as [Hin|Hout].
  - destruct (host_addr_offset m a (Z.of_nat n) (b - a) Hl Hr ltac:(lia)) as [E _].
    replace (a + (b - a)) with b in E by lia. rewrite E.
    destruct (decide _); [|lia]. by replace (host_addr m a + (b - a) - host_addr m a)
      with (b - a) by lia.
  - destruct (decide _) as [Hin|]; [exfalso | done].
    set (i := host_addr m b - host_addr m a).
    destruct (host_addr_offset m a (Z.of_nat n) i Hl Hr ltac:(lia)) as [E Hv].
    assert (a + i = b); [|lia].
    apply (host_addr_inj m); [done | done | done|]. rewrite E. lia.
Qed.

(** The bytes of a number reduced to [n] bytes. *)
Lemma div_mod_byte v n i :
  0 <= i < n -> (v mod 256 ^ n / 256 ^ i) mod 256 = (v / 256 ^ i) mod 256.
Proof.
  intros Hi. replace (256 ^ n) with (256 ^ i * (256 * 256 ^ (n - i - 1))).
  2:{ rewrite <- Z.pow_succ_r, <- Z.pow_add_r by lia. f_equal. lia. }
  rewrite Z.rem_mul_r by nia. rewrite Z.mul_comm, Z.div_add by lia.
  rewrite Z.div_small by (apply Z.mod_pos_bound; lia). rewrite Z.add_0_l.
  rewrite Z.rem_mul_r by nia. rewrite Z.mul_comm, Z.mod_add by lia.
  apply Z.mod_mod. lia.
Qed.

(** A read of [n] bytes, on the guest's view. *)
Fixpoint guest_load (n : nat) (g : Z -> Z) (a : Z) : Z :=
  match n with O => 0 | S n => g a + 256 * guest_load n g (a + 1) end.

Lemma guest_load_spec m h a n :
  layout_ok m -> in_region m a (Z.of_nat n) ->
  load n h (host_addr m a) = guest_load n (guest m h) a.
Proof.
  intros Hl Hr.
  assert (forall k i, 0 <= i -> i + Z.of_nat k <= Z.of_nat n ->
    load k h (host_addr m a + i) = guest_load k (guest m h) (a + i)) as H.
  { induction k as [|k IH]; intros i Hi Hk; simpl; [done|].
    rewrite <- !Z.add_assoc, IH by lia. unfold guest at 2.
    destruct (host_addr_offset m a (Z.of_nat n) i Hl Hr) as [-> _]; [lia | done]. }
  specialize (H n 0). rewrite !Z.add_0_r in H. apply H; lia.
Qed.

(** The guest's view after [n] bytes of [v] were stored at [a]. *)
Definition guest_upd (n a v : Z) (g : Z -> Z) (b : Z) : Z :=
  if decide (a <= b < a + n) then (v / 256 ^ (b - a)) mod 256 else g b.

(** C24.  Guest memory is a byte array: in the layout of [rv32_create], an
    access of a word, half word or byte that stays inside one region reads
    the little-endian number of its bytes as the guest sees them, and a write
    changes exactly those bytes and no other byte of any region. *)
Theorem memory_access_spec m h a v b :
  layout_ok m -> valid m b ->
  (in_region m a 4 ->
     memory_read_w m h a = guest_load 4 (guest m h) a /\
     guest m (memory_write_w m h a v) b = guest_upd 4 a v (guest m h) b) /\
  (in_region m a 2 ->
     memory_read_s m h a = guest_load 2 (guest m h) a /\
     guest m (memory_write_s m h a v) b = guest_upd 2 a v (guest m h) b) /\
  (in_region m a 1 ->
     memory_read_b m h a = guest_load 1 (guest m h) a /\
     guest m (memory_write_b m h a v) b = guest_upd 1 a v (guest m h) b).
Proof.
  intros Hl Hb. splits; intros Hr; split;
    solve [by apply guest_load_spec | by apply guest_store].
Qed.

Lemma memory_access_spec_witness :
  let m := rv32_create_mem 0x10000 0x1000 0x80000000 0x2000 in
  guest m (memory_write_w m ∅ 0xffb00004 0x11223344) 0xffb00005 = 0x33.
Proof.
  intros m. destruct (memory_access_spec m ∅ 0xffb00004 0x11223344 0xffb00005) as [H _].
  - constructor; vm_compute; intuition discriminate.
  - right. vm_compute. intuition discriminate.
  - destruct H as [_ E]; [|rewrite E; vm_compute; reflexivity].
    right; left. vm_compute. intuition discriminate.
Defined.

(** A word read back after it was written, through the same address. *)
Lemma memory_read_write_w m h a v :
  word v -> memory_read_w m (memory_write_w m h a v) a = v.
Proof. intros Hv. apply load_store. exact Hv. Qed.

(** ** The callbacks of [rv_new] meet the interpreter's requirements

    [MmioOk] is what the interpreter relies on of the coprocessor and of the
    host's system calls. *)

Section callbacks.
Context {T : Type}.
Context (mmio_read : Z -> Z -> T -> heap -> option (Z * T * heap)).
Context (mmio_write : Z -> Z -> Z -> T -> heap -> T * heap * bool).
Context (syscall_handler : riscv -> world T -> riscv * world T).

Class MmioOk : Prop := {
  mmio_word : forall c a t h v t' h',
    mmio_read c a t h = Some (v, t', h') -> word v;
  syscall_wf : forall rv w, rv_wf rv -> rv_wf (syscall_handler rv w).1
}.

Lemma trap_cause_wf rv cause tval :
  rv_wf rv -> word cause -> word tval ->
  rv_wf (SET_CAUSE_AND_TVAL_THEN_TRAP trap_handler rv cause tval).
Proof.
  intros. unfold SET_CAUSE_AND_TVAL_THEN_TRAP. apply trap_handler_wf.
  case_match; wf_auto.
Qed.

#[export] Instance rv_io_ok :
  MmioOk -> IoOk (rv_io mmio_read mmio_write syscall_handler).
Proof.
  intros [Hmmio Hsys]. split; simpl.
  - intros rv w a Hrv Ha. unfold on_mem_read_w. destruct (w_tensix w) as [t|].
    + destruct (mmio_read _ _ _ _) as [[[v t'] h']|] eqn:E; simpl; [by eapply Hmmio|].
      apply (load_range 4).
    + apply (load_range 4).
  - intros. apply (load_range 2).
  - intros. apply (load_range 1).
  - intros rv w Hrv. apply Hsys, trap_cause_wf; auto with word.
    split; by vm_compute.
  - intros. unfold ebreak_handler. apply trap_cause_wf; auto with word.
    split; by vm_compute.
  - apply trap_handler_wf.
Qed.
End callbacks.

(** A computer with no coprocessor: its callbacks, and a SoftFloat that
    answers 0 without raising flags. *)
Definition no_tensix : riscv_io (world unit) :=
  rv_io (fun _ _ _ _ => None) (fun _ _ _ t h => (t, h, false)) (fun rv w => (rv, w)).

Lemma no_tensix_ok : IoOk no_tensix.
Proof. apply rv_io_ok. split; [done | auto]. Qed.

Definition sf_zero : softfloat :=
  mk_softfloat (fun _ _ _ _ => (0, 0)) (fun _ _ _ => (0, 0)) (fun _ _ _ => (0, 0))
    (fun _ _ _ => (0, 0)) (fun _ _ _ => (0, 0)) (fun _ _ => (0, 0))
    (fun _ _ => (0, 0)) (fun _ _ => (0, 0)) (fun _ _ => (0, 0)) (fun _ _ => (0, 0))
    (fun _ _ => (false, 0)) (fun _ _ => (false, 0)) (fun _ _ => (false, 0))
    (fun _ _ => (false, 0)) (fun _ => false).

Lemma sf_zero_ok : SfOk sf_zero.
Proof. split; intros; simpl; auto with word. Qed.

Lemma rv_zero_wf core : rv_wf (rv_zero core).
Proof.
  constructor; unfold csrs, rv_zero; simpl; auto with word; try (split; lia);
    repeat (apply List.Forall_cons; [auto with word|]); apply List.Forall_nil.
Qed.

Definition mem0 : world unit :=
  mk_world (rv32_create_mem 0x10000 0x1000 0x80000000 0x2000) ∅ None.

(** [lui x1, 0x1000; sw x0, 1(x1)] on a fresh computer: the store traps. *)
Definition prog0 : list rv_insn :=
  [ir_set_impl (ir_set_rd (ir_set_imm rv_insn0 0x1000) 1) (do_op rv_insn_lui);
   ir_set_impl (ir_set_rs1 (ir_set_imm rv_insn0 1) 1) (do_op rv_insn_sw)].

Lemma exec_block_wf_witness :
  rv_wf (exec_block no_tensix sf_zero (fun _ => None) (fun _ _ w => (w, true))
           (fun _ _ => false) prog0 (rv_zero 0) mem0 0 0).1.1.
Proof.
  pose proof no_tensix_ok. pose proof sf_zero_ok.
  apply (exec_block_wf no_tensix sf_zero (fun _ => None) (fun _ _ w => (w, true))
           (fun _ _ => false)).
  - apply rv_zero_wf.
  - repeat constructor; simpl; lia.
  - lia.
  - split; lia.
Defined.
