(* ===== verification/AluSpec.v ===== *)
(** * The computational instructions against the ISA manual

    [isa_alu] gives each register-register, register-immediate and unary
    instruction of RV32I, M, Zba, Zbb, Zbc and Zbs its meaning as a function
    of the two operand words, in terms of integers rather than of the C
    expressions; [alu_exec] shows that the handlers compute it. *)

From Stdlib Require Import ZArith Lia Bool.
From stdpp Require Import base list numbers.
From S2P Require Import Prelude Decode Riscv Exec ExecWf Memory MemorySpec.

(** ** The meaning of the instructions *)

(** Bit [i] of a word, from the most significant one down and from the
    least significant one up. *)
Definition bits_down (x : Z) : list bool := Z.testbit x <$> rev (seqZ 0 32).
Definition bits_up (x : Z) : list bool := Z.testbit x <$> seqZ 0 32.

Fixpoint leading_zeros (l : list bool) : Z :=
  match l with
  | false :: l => 1 + leading_zeros l
  | _ => 0
  end.

(** The product of polynomials over GF(2): bit [n] is the parity of the
    number of pairs of set bits at positions with sum [n]. *)
Definition clmul_spec (x y : Z) : Z :=
  fold_right (fun i z => if Z.testbit y i then Z.lxor (x * 2 ^ i) z else z) 0
    (seqZ 0 32).

Definition rotl (x k : Z) : Z := u32 (x * 2 ^ k) + x / 2 ^ (32 - k).

Definition byte (x i : Z) : Z := bits (8 * i) 8 x.
Definition of_bytes (b : Z -> Z) : Z :=
  b 0 + b 1 * 2 ^ 8 + b 2 * 2 ^ 16 + b 3 * 2 ^ 24.

Definition isa_alu (o : insn_op) : option (Z -> Z -> Z) :=
  match o with
  | rv_insn_addi | rv_insn_add => Some (fun x y => u32 (x + y))
  | rv_insn_sub => Some (fun x y => u32 (x - y))
  | rv_insn_slti | rv_insn_slt => Some (fun x y => b2z (s32 x <? s32 y))
  | rv_insn_sltiu | rv_insn_sltu => Some (fun x y => b2z (x <? y))
  | rv_insn_xori | rv_insn_xor => Some Z.lxor
  | rv_insn_ori | rv_insn_or => Some Z.lor
  | rv_insn_andi | rv_insn_and => Some Z.land
  | rv_insn_slli | rv_insn_sll => Some (fun x y => u32 (x * 2 ^ (y mod 32)))
  | rv_insn_srli | rv_insn_srl => Some (fun x y => x / 2 ^ (y mod 32))
  | rv_insn_srai | rv_insn_sra => Some (fun x y => u32 (s32 x / 2 ^ (y mod 32)))
  | rv_insn_mul => Some (fun x y => u32 (x * y))
  | rv_insn_mulh => Some (fun x y => u32 (s32 x * s32 y / 2 ^ 32))
  | rv_insn_mulhsu => Some (fun x y => u32 (s32 x * y / 2 ^ 32))
  | rv_insn_mulhu => Some (fun x y => x * y / 2 ^ 32)
  | rv_insn_div => Some (fun x y =>
      if y =? 0 then u32 (-1) else u32 (Z.quot (s32 x) (s32 y)))
  | rv_insn_divu => Some (fun x y => if y =? 0 then u32 (-1) else x / y)
  | rv_insn_rem => Some (fun x y => if y =? 0 then x else u32 (Z.rem (s32 x) (s32 y)))
  | rv_insn_remu => Some (fun x y => if y =? 0 then x else x mod y)
  | rv_insn_sh1add => Some (fun x y => u32 (x * 2 + y))
  | rv_insn_sh2add => Some (fun x y => u32 (x * 4 + y))
  | rv_insn_sh3add => Some (fun x y => u32 (x * 8 + y))
  | rv_insn_andn => Some Z.ldiff
  | rv_insn_orn => Some (fun x y => Z.lor x (2 ^ 32 - 1 - y))
  | rv_insn_xnor => Some (fun x y => 2 ^ 32 - 1 - Z.lxor x y)
  | rv_insn_clz => Some (fun x _ => leading_zeros (bits_down x))
  | rv_insn_ctz => Some (fun x _ => leading_zeros (bits_up x))
  | rv_insn_cpop => Some (fun x _ => Z.of_nat (count_occ bool_dec (bits_up x) true))
  | rv_insn_max => Some (fun x y => u32 (Z.max (s32 x) (s32 y)))
  | rv_insn_min => Some (fun x y => u32 (Z.min (s32 x) (s32 y)))
  | rv_insn_maxu => Some Z.max
  | rv_insn_minu => Some Z.min
  | rv_insn_sextb => Some (fun x _ => u32 (s8 x))
  | rv_insn_sexth => Some (fun x _ => u32 (s16 x))
  | rv_insn_zexth => Some (fun x _ => u16 x)
  | rv_insn_rol => Some (fun x y => rotl x (y mod 32))
  | rv_insn_ror | rv_insn_rori => Some (fun x y => rotl x ((- y) mod 32))
  | rv_insn_orcb => Some (fun x _ =>
      of_bytes (fun i => if byte x i =? 0 then 0 else 0xff))
  | rv_insn_rev8 => Some (fun x _ => of_bytes (fun i => byte x (3 - i)))
  | rv_insn_clmul => Some (fun x y => u32 (clmul_spec x y))
  | rv_insn_clmulh => Some (fun x y => clmul_spec x y / 2 ^ 32)
  | rv_insn_clmulr => Some (fun x y => u32 (clmul_spec x y / 2 ^ 31))
  | rv_insn_bclr | rv_insn_bclri => Some (fun x y => Z.clearbit x (y mod 32))
  | rv_insn_bext | rv_insn_bexti => Some (fun x y => b2z (Z.testbit x (y mod 32)))
  | rv_insn_binv | rv_insn_binvi => Some (fun x y => Z.lxor x (2 ^ (y mod 32)))
  | rv_insn_bset | rv_insn_bseti => Some (fun x y => Z.setbit x (y mod 32))
  | _ => None
  end.

(** The second operand is the immediate in the formats that have one. *)
Definition has_imm (o : insn_op) : bool :=
  match o with
  | rv_insn_addi | rv_insn_slti | rv_insn_sltiu | rv_insn_xori | rv_insn_ori
  | rv_insn_andi | rv_insn_slli | rv_insn_srli | rv_insn_srai | rv_insn_rori
  | rv_insn_bclri | rv_insn_bexti | rv_insn_binvi | rv_insn_bseti => true
  | _ => false
  end.
Definition operand2 (rv : riscv) (ir : rv_insn) (o : insn_op) : Z :=
  if has_imm o then u32 ir.(imm) else getX rv ir.(rs2).

(** ** The C expressions *)

Lemma land_31 y : y &. 0x1f = y mod 32.
Proof. apply (Z.land_ones y 5). lia. Qed.
Lemma land_31' y : y &. (32 - 1) = y mod 32.
Proof. apply land_31. Qed.
Lemma mod32_range y : 0 <= y mod 32 < 32.
Proof. apply Z.mod_pos_bound. lia. Qed.
Lemma mod32_u32 y : u32 y mod 32 = y mod 32.
Proof. unfold u32. norm_pow. div_lia. Qed.

Lemma s32_mod x : exists k, s32 x = x + k * 2 ^ 32.
Proof.
  unfold s32, sext. pose proof (Z.div_mod x (2 ^ 32) ltac:(lia)) as E.
  destruct (_ <? _); [exists (- (x / 2 ^ 32)) | exists (- (x / 2 ^ 32) - 1)]; lia.
Qed.

Lemma u32_add_mul x k : u32 (x + k * 2 ^ 32) = u32 x.
Proof. apply Z.mod_add. lia. Qed.

Lemma mul_low x y :
  u64 (s32 x * s32 y) &. ((1 <<. 32) - 1) = u32 (x * y).
Proof.
  change ((1 <<. 32) - 1) with (Z.ones 32). rewrite Z.land_ones by lia.
  transitivity (u32 (s32 x * s32 y)); [unfold u32, u64; div_lia|].
  destruct (s32_mod x) as [k ->], (s32_mod y) as [j ->].
  replace ((x + k * 2 ^ 32) * (y + j * 2 ^ 32))
    with (x * y + (x * j + k * y + k * j * 2 ^ 32) * 2 ^ 32) by ring.
  apply u32_add_mul.
Qed.

Lemma mul_high p : u32 (u64 p >>. 32) = u32 (p / 2 ^ 32).
Proof. shifts_to_arith. unfold u32, u64. div_lia. Qed.

Lemma u64_mul_l a b : u64 (u64 a * b) = u64 (a * b).
Proof. unfold u64. apply Z.mul_mod_idemp_l. lia. Qed.

Lemma word_mul_high x y : word x -> word y -> word (x * y / 2 ^ 32).
Proof.
  unfold word. intros. split; [apply Z.div_pos; nia|].
  apply Z.div_lt_upper_bound; nia.
Qed.

Lemma s32_word x : word x -> s32 x = if x <? 2 ^ 31 then x else x - 2 ^ 32.
Proof. unfold word. intros. unfold s32, sext. by rewrite Z.mod_small. Qed.

Lemma s32_0 x : word x -> (s32 x =? 0) = (x =? 0).
Proof. intros Hx. rewrite s32_word by done. unfold word in Hx.
  destruct (Z.ltb_spec x (2 ^ 31)); bool_cases; lia. Qed.

(** The overflow case of the division needs no exception: the quotient
    [2^31] wraps to the dividend. *)
Lemma div_overflow x y :
  word x -> word y ->
  (if (s32 y =? -1) && (x =? 0x80000000) then x else u32 (Z.quot (s32 x) (s32 y))) =
  u32 (Z.quot (s32 x) (s32 y)).
Proof.
  intros Hx Hy. destruct (Z.eqb_spec (s32 y) (-1)) as [->|]; [|done].
  by destruct (Z.eqb_spec x 0x80000000) as [->|].
Qed.
Lemma rem_overflow x y :
  word x -> word y ->
  u32 (if (s32 y =? -1) && (x =? 0x80000000) then 0 else Z.rem (s32 x) (s32 y)) =
  u32 (Z.rem (s32 x) (s32 y)).
Proof.
  intros Hx Hy. destruct (Z.eqb_spec (s32 y) (-1)) as [->|]; [|done].
  by destruct (Z.eqb_spec x 0x80000000) as [->|].
Qed.

Lemma lnot_word y : word y -> u32 (Z.lnot y) = 2 ^ 32 - 1 - y.
Proof. unfold word, u32, Z.lnot. intros. div_lia. Qed.

Lemma ldiff_word x y : word x -> x &. u32 (Z.lnot y) = Z.ldiff x y.
Proof.
  intros Hx. apply Z.bits_inj'. intros i Hi. unfold u32.
  rewrite Z.land_spec, Z.ldiff_spec, Z.testbit_mod_pow2 by lia.
  destruct (Z.ltb_spec i 32); simpl; [by rewrite Z.lnot_spec|].
  by rewrite (word_testbit x).
Qed.

(** Tests of one bit. *)
Lemma bit_test y i : 0 <= i -> (y >>. i) &. 1 = b2z (Z.testbit y i).
Proof.
  intros. change 1 with (Z.ones 1) at 1. rewrite Z.land_ones by lia.
  rewrite Z.testbit_odd. change (2 ^ 1) with 2. rewrite Zmod_odd. by destruct (Z.odd _).
Qed.
Lemma nz_bit y i : 0 <= i -> nz ((y >>. i) &. 1) = Z.testbit y i.
Proof. intros. rewrite bit_test by done. by destruct (Z.testbit y i). Qed.

Lemma bit_field s k : 0 <= k -> b2z (Z.testbit s k) = bits k 1 s.
Proof.
  intros. rewrite <- bit_test by done. unfold bits.
  rewrite <- Z.shiftr_div_pow2 by done. apply (Z.land_ones _ 1). lia.
Qed.

(** Counting. *)
Lemma seqZ_snoc n : (n < 32)%nat -> rev (seqZ 0 (Z.of_nat (S n))) = Z.of_nat n :: rev (seqZ 0 (Z.of_nat n)).
Proof.
  intros. replace (Z.of_nat (S n)) with (Z.of_nat n + 1) by lia.
  rewrite seqZ_app by lia. rewrite List.rev_app_distr. simpl. done.
Qed.

Lemma clz_spec_n n x :
  (n <= 32)%nat -> 0 <= x < 2 ^ Z.of_nat n ->
  leading_zeros (Z.testbit x <$> rev (seqZ 0 (Z.of_nat n))) =
  if x =? 0 then Z.of_nat n else Z.of_nat n - 1 - Z.log2 x.
Proof.
  induction n as [|n IH]; intros Hn Hx.
  - change (2 ^ Z.of_nat 0) with 1 in Hx. replace x with 0 by lia. done.
  - rewrite seqZ_snoc by lia. cbn [fmap list_fmap leading_zeros].
    rewrite Nat2Z.inj_succ, Z.pow_succ_r in Hx by lia.
    destruct (Z.testbit x (Z.of_nat n)) eqn:E.
    + destruct (Z_lt_le_dec x (2 ^ Z.of_nat n)).
      { by rewrite (testbit_above x (Z.of_nat n)) in E by lia. }
      destruct (Z.eqb_spec x 0); [lia|].
      rewrite (Z.log2_unique x (Z.of_nat n)); [lia | lia|].
      rewrite Z.pow_succ_r by lia. lia.
    + assert (x < 2 ^ Z.of_nat n).
      { apply bits_below; [lia | lia|]. intros i Hi.
        destruct (decide (i = Z.of_nat n)) as [->|]; [done|].
        apply (testbit_above x (Z.of_nat (S n))); [lia|].
        rewrite Nat2Z.inj_succ, Z.pow_succ_r; lia. }
      rewrite IH by lia. bool_cases; lia.
Qed.

Lemma clz_spec x :
  word x -> (if nz x then rv_clz x else 32) = leading_zeros (bits_down x).
Proof.
  intros Hx. unfold bits_down. pose proof (clz_spec_n 32 x ltac:(lia) Hx) as E.
  change (Z.of_nat 32) with 32 in E. rewrite E.
  unfold nz, rv_clz. destruct (Z.eqb_spec x 0); simpl; lia.
Qed.

(** The least significant set bit. *)
Lemma land_opp_odd m : Z.odd m = true -> m &. - m = 1.
Proof.
  intros [q ->]%Z.odd_spec. apply Z.bits_inj'. intros i Hi.
  replace (- (2 * q + 1)) with (2 * Z.lnot q + 1) by (unfold Z.lnot; lia).
  rewrite Z.land_spec. destruct (decide (i = 0)) as [->|].
  - by rewrite !Z.testbit_odd_0.
  - replace i with (Z.succ (i - 1)) by lia.
    rewrite !Z.testbit_odd_succ, Z.lnot_spec by lia. rewrite andb_negb_r.
    symmetry. apply (testbit_above 1 1); lia.
Qed.

Lemma low_zeros_divide x k :
  0 <= k -> (forall i, 0 <= i < k -> Z.testbit x i = false) ->
  x = (x / 2 ^ k) * 2 ^ k.
Proof.
  intros Hk H. rewrite <- Z.shiftl_mul_pow2, <- Z.shiftr_div_pow2 by done.
  apply Z.bits_inj'. intros i Hi. rewrite Z.shiftl_spec by done.
  destruct (Z_lt_le_dec i k).
  - rewrite (Z.testbit_neg_r _ (i - k)) by lia. apply H. lia.
  - rewrite Z.shiftr_spec by lia. f_equal. lia.
Qed.

Lemma rv_ctz_first x k :
  0 <= k -> (forall i, 0 <= i < k -> Z.testbit x i = false) ->
  Z.testbit x k = true -> rv_ctz x = k.
Proof.
  intros Hk Hl Ht. unfold rv_ctz.
  assert (Z.odd (x / 2 ^ k) = true) as Ho.
  { rewrite <- Z.shiftr_div_pow2, <- Z.testbit_odd; done. }
  rewrite (low_zeros_divide x k Hk Hl), <- Z.mul_opp_l.
  rewrite <- !Z.shiftl_mul_pow2, <- Z.shiftl_land, land_opp_odd by done.
  rewrite Z.shiftl_1_l. by apply Z.log2_pow2.
Qed.

Lemma ctz_spec_n n k x :
  0 <= k -> x <> 0 -> 0 <= x < 2 ^ (k + Z.of_nat n) ->
  (forall i, 0 <= i < k -> Z.testbit x i = false) ->
  leading_zeros (Z.testbit x <$> seqZ k (Z.of_nat n)) = rv_ctz x - k.
Proof.
  revert k. induction n as [|n IH]; intros k Hk Hx Hr Hl.
  - rewrite Z.add_0_r in Hr. pose proof (low_zeros_divide x k Hk Hl) as E.
    rewrite Z.div_small in E by done. lia.
  - rewrite Nat2Z.inj_succ, seqZ_cons by lia. cbn [fmap list_fmap leading_zeros].
    rewrite Z.pred_succ.
    destruct (Z.testbit x k) eqn:E.
    + rewrite (rv_ctz_first x k) by done. lia.
    + rewrite <- Z.add_1_r.
      rewrite IH; [lia | lia | done | |].
      * by replace (k + 1 + Z.of_nat n) with (k + Z.of_nat (S n)) by lia.
      * intros i Hi. destruct (decide (i = k)) as [->|]; [done|]. apply Hl. lia.
Qed.

Lemma ctz_spec x :
  word x -> (if nz x then rv_ctz x else 32) = leading_zeros (bits_up x).
Proof.
  intros Hx. unfold nz. destruct (Z.eqb_spec x 0) as [->|]; [done|].
  pose proof (ctz_spec_n 32 0 x ltac:(lia) ltac:(done) Hx ltac:(lia)) as E.
  change (Z.of_nat 32) with 32 in E. unfold bits_up. rewrite E. simpl. lia.
Qed.

Lemma cpop_fold (l : list Z) (f : Z -> bool) a :
  fold_left (fun n i => n + b2z (f i)) l a =
  a + Z.of_nat (count_occ bool_dec (f <$> l) true).
Proof.
  revert a. induction l as [|i l IH]; intros a; cbn [fold_left fmap list_fmap count_occ].
  - simpl. lia.
  - rewrite IH. change (list_fmap Z bool f l) with (f <$> l).
    destruct (f i); simpl; rewrite ?Nat2Z.inj_succ; lia.
Qed.
Lemma cpop_spec x : rv_popcount x = Z.of_nat (count_occ bool_dec (bits_up x) true).
Proof. unfold rv_popcount. by rewrite (cpop_fold _ (Z.testbit x)). Qed.

(** Rotations.  The amount 32 that C leaves undefined arises for 0 only. *)
Lemma rotl_c x k :
  word x -> 0 <= k < 32 -> shl32 x k |. shr32 x (32 - k) = rotl x k.
Proof.
  intros Hx Hk. unfold shl32, shr32, rotl. rewrite (Z.mod_small k) by lia.
  destruct (decide (k = 0)) as [->|].
  - change ((32 - 0) mod 32) with 0. rewrite Z.shiftl_0_r, Z.shiftr_0_r.
    rewrite u32_word, Z.lor_diag by done. rewrite Z.mul_1_r, u32_word by done.
    unfold word in Hx. rewrite Z.div_small by lia. lia.
  - rewrite (Z.mod_small (32 - k)) by lia. shifts_to_arith.
    apply (lor_add _ _ k); [lia | |].
    + unfold u32. replace 32 with ((32 - k) + k) at 1 by lia.
      rewrite Z.pow_add_r, Z.mul_mod_distr_r by lia. apply Z.mod_mul. lia.
    + unfold word in Hx. split; [apply Z.div_pos; lia|].
      apply Z.div_lt_upper_bound; [lia|]. rewrite <- Z.pow_add_r by lia.
      replace (32 - k + k) with 32 by lia. lia.
Qed.

Lemma rotr_c x k :
  word x -> shr32 x (k mod 32) |. shl32 x (32 - k mod 32) = rotl x ((- k) mod 32).
Proof.
  intros Hx. rewrite Z.lor_comm. pose proof (mod32_range k).
  destruct (decide (k mod 32 = 0)) as [E|].
  - replace ((- k) mod 32) with 0 by div_lia. rewrite E.
    rewrite <- rotl_c by (done || lia). unfold shl32, shr32.
    change ((32 - 0) mod 32) with 0. change (0 mod 32) with 0. done.
  - replace ((- k) mod 32) with (32 - k mod 32) by div_lia.
    rewrite <- rotl_c by (done || lia).
    by replace (32 - (32 - k mod 32)) with (k mod 32) by lia.
Qed.

(** Bytes. *)
Lemma rev8_spec x :
  word x ->
  u32 ((x &. 0xff) <<. 24) |. u32 ((x &. 0xff00) <<. 8)
  |. ((x &. 0xff0000) >>. 8) |. ((x &. 0xff000000) >>. 24) =
  of_bytes (fun i => byte x (3 - i)).
Proof.
  intros Hx. unfold of_bytes, byte.
  change (8 * (3 - 0)) with 24. change (8 * (3 - 1)) with 16.
  change (8 * (3 - 2)) with 8. change (8 * (3 - 3)) with 0.
  rewrite (land_mask x 0 8), (land_mask x 8 8), (land_mask x 16 8),
    (land_mask x 24 8) by done.
  shifts_to_arith. gen_bits. lor_sum 24. lor_sum 16. lor_sum 8. word_lia.
Qed.

Lemma byte_mask x i :
  0 <= i < 4 -> nz (x &. u32 (0xff <<. (i * 8))) = negb (byte x i =? 0).
Proof.
  intros Hi. unfold byte.
  assert (u32 (0xff <<. (i * 8)) = (2 ^ 8 - 1) * 2 ^ (8 * i)) as ->.
  { assert (i = 0 \/ i = 1 \/ i = 2 \/ i = 3) as [->|[->|[->| ->]]] by lia; done. }
  rewrite (land_mask x (8 * i) 8) by lia. unfold nz.
  pose proof (bits_range (8 * i) 8 x). pose proof (pow2_pos (8 * i)).
  destruct (Z.eqb_spec (bits (8 * i) 8 x) 0) as [->|]; [done|].
  destruct (Z.eqb_spec (bits (8 * i) 8 x * 2 ^ (8 * i)) 0); [nia | done].
Qed.

(** A loop that only writes [rd] is a loop on the value of [rd]. *)
Lemma fold_setX {A} rv i (l : list A) f v :
  0 <= i < 32 -> length rv.(X) = 32%nat ->
  fold_left (fun rv j => setX rv i (f j (getX rv i))) l (setX rv i v) =
  setX rv i (fold_left (fun v j => f j v) l v).
Proof.
  intros Hi Hl. revert v. induction l as [|j l IH]; intros v; simpl; [done|].
  rewrite getX_setX_eq, setX_setX by done. apply IH.
Qed.

Lemma fold_left_ext {A B} (f g : A -> B -> A) l a :
  (forall a b, In b l -> f a b = g a b) -> fold_left f l a = fold_left g l a.
Proof.
  revert a. induction l as [|b l IH]; intros a H; simpl; [done|].
  rewrite H by (by left). apply IH. intros; apply H; by right.
Qed.

Lemma orcb_value x :
  fold_left (fun v i => if nz (x &. u32 (0xff <<. (i * 8)))
                        then v |. u32 (0xff <<. (i * 8)) else v) (seqZ 0 4) 0 =
  of_bytes (fun i => if byte x i =? 0 then 0 else 0xff).
Proof.
  change (seqZ 0 4) with [0; 1; 2; 3]. cbn [fold_left].
  rewrite !byte_mask by lia. unfold of_bytes.
  by repeat match goal with |- context [byte x ?i =? 0] => destruct (byte x i =? 0) end.
Qed.

(** Sign extension of a part, with two masks. *)
Lemma sext_masks x n m : 
  0 < n -> m = 2 ^ 32 - 2 ^ n -> n < 32 ->
  (if nz (x &. (1 <<. (n - 1))) then (x &. (2 ^ n - 1)) |. m else x &. (2 ^ n - 1))
  = u32 (sext n x).
Proof.
  intros Hn Hm Hn'. rewrite Z.shiftl_1_l.
  replace (2 ^ n - 1) with (Z.ones n) by (rewrite Z.ones_equiv; lia).
  rewrite Z.land_ones by lia. unfold sext. cbv zeta.
  assert (2 ^ n = 2 * 2 ^ (n - 1)) as E
    by (rewrite <- Z.pow_succ_r by lia; f_equal; lia).
  assert (2 ^ n < 2 ^ 32) by (apply Z.pow_lt_mono_r; lia).
  pose proof (Z.mod_pos_bound x (2 ^ n) ltac:(lia)) as Hr.
  rewrite (land_mask x (n - 1) 1) by lia. unfold bits. change (2 ^ 1) with 2.
  assert ((x / 2 ^ (n - 1)) mod 2 = if x mod 2 ^ n <? 2 ^ (n - 1) then 0 else 1) as ->.
  { rewrite E. rewrite (Z.mul_comm 2), Z.rem_mul_r by lia.
    pose proof (Z.mod_pos_bound x (2 ^ (n - 1)) ltac:(lia)).
    pose proof (Z.mod_pos_bound (x / 2 ^ (n - 1)) 2 ltac:(lia)).
    destruct (Z.ltb_spec (x mod 2 ^ (n - 1) + 2 ^ (n - 1) * ((x / 2 ^ (n - 1)) mod 2))
                (2 ^ (n - 1))); nia. }
  unfold nz. destruct (Z.ltb_spec (x mod 2 ^ n) (2 ^ (n - 1))).
  - simpl. symmetry. apply u32_small. lia.
  - rewrite Z.mul_1_l. destruct (Z.eqb_spec (2 ^ (n - 1)) 0); [lia|]. simpl.
    rewrite (lor_add' _ _ n); [|lia|lia|].
    + subst m. unfold u32. apply (Z.mod_unique _ _ (-1)); lia.
    + subst m. replace 32 with ((32 - n) + n) by lia. rewrite Z.pow_add_r by lia.
      replace (2 ^ (32 - n) * 2 ^ n - 2 ^ n) with ((2 ^ (32 - n) - 1) * 2 ^ n) by ring.
      apply Z.mod_mul. lia.
Qed.

(** Carry-less products: the loops of the C code apply a map that is linear
    over exclusive or (a truncation, a shift) to the terms of the sum. *)
Lemma xor_fold_left (b : Z -> bool) g l a :
  fold_left (fun z i => if b i then z ^. g i else z) l a =
  a ^. fold_right (fun i z => if b i then g i ^. z else z) 0 l.
Proof.
  revert a. induction l as [|i l IH]; intros a; simpl; [by rewrite Z.lxor_0_r|].
  rewrite IH. destruct (b i); [apply Z.lxor_assoc | done].
Qed.

Lemma xor_fold_map (b : Z -> bool) (h g g' : Z -> Z) l :
  h 0 = 0 -> (forall x y, h (x ^. y) = h x ^. h y) ->
  (forall i, In i l -> h (g i) = g' i) ->
  h (fold_right (fun i z => if b i then g i ^. z else z) 0 l) =
  fold_right (fun i z => if b i then g' i ^. z else z) 0 l.
Proof.
  intros H0 Hx Hg. induction l as [|i l IH]; simpl; [done|].
  rewrite <- IH by (intros; apply Hg; by right).
  destruct (b i); [|done]. by rewrite Hx, Hg by (by left).
Qed.

Lemma u32_lxor x y : u32 (x ^. y) = u32 x ^. u32 y.
Proof.
  apply Z.bits_inj'. intros i Hi. unfold u32.
  rewrite Z.lxor_spec, !Z.testbit_mod_pow2, Z.lxor_spec by lia.
  by destruct (i <? 32).
Qed.
Lemma div_lxor k x y : 0 <= k -> (x ^. y) / 2 ^ k = (x / 2 ^ k) ^. (y / 2 ^ k).
Proof. intros. rewrite <- !Z.shiftr_div_pow2 by done. apply Z.shiftr_lxor. Qed.

(** The loop of the handlers, with its terms [g]. *)
Lemma clmul_loop (h g : Z -> Z) x y l :
  l = seqZ 0 32 -> h 0 = 0 -> (forall x y, h (x ^. y) = h x ^. h y) ->
  (forall i, 0 <= i < 32 -> h (x * 2 ^ i) = g i) ->
  fold_left (fun output i => if nz ((y >>. i) &. 1) then output ^. g i else output) l 0
  = h (clmul_spec x y).
Proof.
  intros -> H0 Hx Hg. unfold clmul_spec.
  assert (forall i, In i (seqZ 0 32) -> 0 <= i < 32) as Hin
    by (intros i Hi; apply list_elem_of_In, elem_of_seqZ in Hi; lia).
  rewrite (xor_fold_map _ h _ g) by auto.
  rewrite <- (Z.lxor_0_l (fold_right _ _ _)), <- xor_fold_left.
  apply fold_left_ext. intros z i Hi%Hin. by rewrite nz_bit by lia.
Qed.

Lemma shiftr_term x i k :
  0 <= i <= k -> (x * 2 ^ i) / 2 ^ k = x >>. (k - i).
Proof.
  intros Hi. rewrite Z.shiftr_div_pow2 by lia.
  replace (2 ^ k) with (2 ^ (k - i) * 2 ^ i)
    by (rewrite <- Z.pow_add_r by lia; f_equal; lia).
  apply Z.div_mul_cancel_r; lia.
Qed.

Lemma clmul_ok x y :
  fold_left (fun output i => if nz ((y >>. i) &. 1)
    then output ^. u32 (x <<. i) else output) (seqZ 0 32) 0 = u32 (clmul_spec x y).
Proof.
  apply (clmul_loop u32 (fun i => u32 (x <<. i))); [done | done | apply u32_lxor|].
  intros i Hi. by rewrite Z.shiftl_mul_pow2 by lia.
Qed.
Lemma fold_left_cons_0 {A B} (f : A -> B -> A) b a l :
  f a b = a -> fold_left f (b :: l) a = fold_left f l a.
Proof. simpl. by intros ->. Qed.
Lemma clmulh_ok x y :
  word x ->
  fold_left (fun output i => if nz ((y >>. i) &. 1)
    then output ^. (x >>. (32 - i)) else output) (seqZ 1 31) 0 = clmul_spec x y / 2 ^ 32.
Proof.
  intros Hx. rewrite <- (clmul_loop (fun z => z / 2 ^ 32) (fun i => x >>. (32 - i)) x y
    (seqZ 0 32)); [|done|done|intros; by apply div_lxor|intros; apply shiftr_term; lia].
  rewrite (seqZ_cons 0 32) by lia.
  rewrite (fold_left_cons_0 _ 0); [done|].
  unfold word in Hx. rewrite (Z.shiftr_div_pow2 x), Z.div_small, Z.lxor_0_l by lia.
  by destruct (nz _).
Qed.
Lemma clmulr_ok x y :
  word x ->
  fold_left (fun output i => if nz ((y >>. i) &. 1)
    then output ^. (x >>. (32 - i - 1)) else output) (seqZ 0 32) 0 =
  u32 (clmul_spec x y / 2 ^ 31).
Proof.
  intros Hx. apply (clmul_loop (fun z => u32 (z / 2 ^ 31)) (fun i => x >>. (32 - i - 1))); [done | done | |].
  - intros. by rewrite div_lxor, u32_lxor by lia.
  - intros i Hi. rewrite shiftr_term by lia. rewrite u32_word by (apply word_shiftr; lia || done).
    f_equal. lia.
Qed.

(** The remaining expressions. *)
Lemma add_imm_c x i : u32 (x + i) = u32 (x + u32 i).
Proof. unfold u32. symmetry. apply Z.add_mod_idemp_r. lia. Qed.
Lemma slt_imm_c x i :
  - 2 ^ 31 <= i < 2 ^ 31 ->
  (if s32 x <? i then 1 else 0) = b2z (s32 x <? s32 (u32 i)).
Proof. intros. by rewrite s32_u32, (s32_small i). Qed.
Lemma shadd_c k m x y :
  0 <= k -> m = 2 ^ k -> u32 (u32 (x <<. k) + y) = u32 (x * m + y).
Proof.
  intros Hk ->. rewrite Z.shiftl_mul_pow2 by done. unfold u32.
  apply Z.add_mod_idemp_l. lia.
Qed.
Lemma orn_c x y : word y -> x |. u32 (Z.lnot y) = x |. (2 ^ 32 - 1 - y).
Proof. intros. by rewrite lnot_word. Qed.
Lemma max_c x y :
  word x -> word y -> (if s32 y <? s32 x then x else y) = u32 (Z.max (s32 x) (s32 y)).
Proof.
  intros. destruct (Z.ltb_spec (s32 y) (s32 x));
    rewrite ?(Z.max_l (s32 x)), ?(Z.max_r (s32 x)) by lia; by rewrite u32_s32, u32_word.
Qed.
Lemma min_c x y :
  word x -> word y -> (if s32 x <? s32 y then x else y) = u32 (Z.min (s32 x) (s32 y)).
Proof.
  intros. destruct (Z.ltb_spec (s32 x) (s32 y));
    rewrite ?(Z.min_l (s32 x)), ?(Z.min_r (s32 x)) by lia; by rewrite u32_s32, u32_word.
Qed.
Lemma maxu_c x y : (if y <? x then x else y) = Z.max x y.
Proof. bool_cases; lia. Qed.
Lemma minu_c x y : (if x <? y then x else y) = Z.min x y.
Proof. bool_cases; lia. Qed.
Lemma zexth_c x : x &. 0xffff = u16 x.
Proof. apply (Z.land_ones x 16). lia. Qed.
Lemma rori_c x i :
  word x -> shr32 x (i mod 32) |. shl32 x (32 - i mod 32) = rotl x ((- u32 i) mod 32).
Proof.
  intros. rewrite rotr_c by done. f_equal. unfold u32. norm_pow. div_lia.
Qed.
Lemma binv_c x k : x ^. (1 <<. k) = x ^. 2 ^ k.
Proof. by rewrite Z.shiftl_1_l. Qed.
Lemma mulhu_c x y :
  word x -> word y -> u32 (u64 (x * y) >>. 32) = x * y / 2 ^ 32.
Proof. intros. rewrite mul_high. by apply u32_word, word_mul_high. Qed.
Lemma mulhsu_c x y : u32 (u64 (u64 x * y) >>. 32) = u32 (x * y / 2 ^ 32).
Proof. by rewrite u64_mul_l, mul_high. Qed.
Lemma div_c x y :
  word x -> word y ->
  (if s32 y =? 0 then 0xffffffff
   else if (s32 y =? -1) && (x =? 0x80000000) then x
   else u32 (Z.quot (s32 x) (s32 y))) =
  (if y =? 0 then u32 (-1) else u32 (Z.quot (s32 x) (s32 y))).
Proof. intros. rewrite s32_0, div_overflow by done. by destruct (y =? 0). Qed.
Lemma rem_c x y :
  word x -> word y ->
  u32 (if s32 y =? 0 then s32 x
       else if (s32 y =? -1) && (x =? 0x80000000) then 0
       else Z.rem (s32 x) (s32 y)) =
  (if y =? 0 then x else u32 (Z.rem (s32 x) (s32 y))).
Proof.
  intros. rewrite s32_0 by done. destruct (y =? 0); [by rewrite u32_s32, u32_word|].
  by apply rem_overflow.
Qed.

(** The lemmas above, as the hint database of this file. *)
Create HintDb alu.
#[export] Hint Resolve add_imm_c slt_imm_c shadd_c ldiff_word orn_c lnot_word
  clz_spec ctz_spec cpop_spec max_c min_c maxu_c minu_c zexth_c rotl_c rotr_c rori_c
  rev8_spec clmul_ok clmulh_ok clmulr_ok bit_test binv_c mul_low mul_high mulhu_c
  mulhsu_c div_c rem_c word_lxor : alu.
#[export] Hint Extern 1 (0 <= _ mod 32) => apply mod32_range : alu.
#[export] Hint Extern 1 (0 <= _ mod 32 < 32) => apply mod32_range : alu.

(** ** The handlers *)

Section alu.
Context {W : Type} (io : riscv_io W) (sf : softfloat) (find : Z -> option Z).
Context (tt_direct : Z -> Z -> W -> W * bool).

(** What an instruction does that writes [v] and goes on. *)
Definition writes (rv : riscv) (w : W) (ir : rv_insn) (o : insn_op) (cycle pc v : Z)
    : riscv * W * fin :=
  (setX rv ir.(rd) v, w, Next (u64 (cycle + 1)) (u32 (pc + insn_len o))).

Lemma sextb_exec n m rv (w : W) ir pc :
  rv_wf rv -> insn_wf ir -> 0 < n < 32 -> m = 2 ^ 32 - 2 ^ n ->
  (let rv := setX rv ir.(rd) (getX rv ir.(rs1) &. (2 ^ n - 1)) in
   let rv := if nz (getX rv ir.(rs1) &. (1 <<. (n - 1)))
             then setX rv ir.(rd) (getX rv ir.(rd) |. m) else rv in
   (rv, w, nextop pc)) =
  (setX rv ir.(rd) (u32 (sext n (getX rv ir.(rs1)))), w, nextop pc).
Proof.
  intros [Hl] [_ Hrd Hrs1] Hn Hm. cbv zeta. do 2 f_equal.
  rewrite <- (sext_masks _ n m) by (lia || done).
  rewrite getX_setX_eq, setX_setX by done.
  assert (getX (setX rv (rd ir) (getX rv (rs1 ir) &. (2 ^ n - 1))) (rs1 ir)
          &. (1 <<. (n - 1)) = getX rv (rs1 ir) &. (1 <<. (n - 1))) as ->.
  { rewrite getX_setX by done. destruct (_ =? _); [|done].
    rewrite <- Z.land_assoc. f_equal.
    replace (2 ^ n - 1) with (Z.ones n) by (rewrite Z.ones_equiv; lia).
    rewrite Z.land_comm, Z.land_ones, Z.shiftl_1_l by lia.
    apply Z.mod_small. split; [lia|]. apply Z.pow_lt_mono_r; lia. }
  by destruct (nz _).
Qed.

Lemma RVOP_writes o (body : code) rv w ir cycle pc v :
  body rv w ir (u64 (cycle + 1)) pc = (setX rv ir.(rd) v, w, nextop pc) ->
  RVOP o body rv w ir cycle pc = writes rv w ir o cycle pc v.
Proof. intros E. unfold RVOP. by rewrite E. Qed.

Lemma wr_rd_writes o e rv w ir cycle pc v :
  e rv ir pc = v -> RVOP o (wr_rd e) rv w ir cycle pc = writes rv w ir o cycle pc v.
Proof. intros <-. by apply RVOP_writes. Qed.

Lemma orcb_exec rv w ir cycle pc :
  rv_wf rv -> insn_wf ir ->
  do_orcb (W:=W) rv w ir cycle pc =
  (setX rv ir.(rd) (of_bytes (fun i => if byte (getX rv ir.(rs1)) i =? 0 then 0 else 0xff)),
   w, nextop pc).
Proof.
  intros [Hl] [_ Hrd]. unfold do_orcb. cbv zeta. do 2 f_equal.
  set (x := getX rv (rs1 ir)). rewrite <- orcb_value.
  rewrite <- (fold_setX rv ir.(rd) (seqZ 0 4) (fun i v =>
    if nz (x &. u32 (0xff <<. (i * 8))) then v |. u32 (0xff <<. (i * 8)) else v))
    by done.
  generalize (seqZ 0 4) as l. intros l. generalize 0 as v.
  induction l as [|i l IH]; intros v; simpl; [done|].
  rewrite getX_setX_eq, !setX_setX by done. destruct (nz _); apply IH.
Qed.

Lemma shift_exec rv w ir cycle pc f :
  rv_wf rv -> In ir.(opcode) [rv_insn_slli; rv_insn_srli; rv_insn_srai] ->
  isa_alu ir.(opcode) = Some f ->
  do_shift (W:=W) rv w ir cycle pc =
  (setX rv ir.(rd) (f (getX rv ir.(rs1)) (u32 ir.(imm))), w, nextop pc).
Proof.
  intros Hrv Ho Hf. unfold do_shift. pose proof (mod32_range (imm ir)).
  destruct Ho as [E|[E|[E|[]]]]; rewrite <- E in *; simplify_eq/=;
    rewrite land_31, mod32_u32; by shifts_to_arith.
Qed.

Lemma dispatch_alu o f rv w ir cycle pc :
  isa_alu o = Some f -> rv_wf rv -> insn_wf ir -> ir.(opcode) = o ->
  dispatch_table io sf find tt_direct o rv w ir cycle pc =
  writes rv w ir o cycle pc (f (getX rv ir.(rs1)) (operand2 rv ir o)).
Proof.
  intros Hf Hrv Hir Ho.
  assert (word (getX rv ir.(rs1))) as Hx by auto with word.
  assert (word (getX rv ir.(rs2))) as Hy by auto with word.
  pose proof (mod32_range ir.(imm)) as Hi.
  pose proof (mod32_range (getX rv ir.(rs2))) as Hj.
  destruct o; try discriminate Hf; cbn [isa_alu] in Hf;
    apply (inj Some) in Hf; subst f; cbn [dispatch_table]; unfold operand2; cbn [has_imm].
  all: lazymatch goal with
    | |- context [do_slli] =>
        apply RVOP_writes, (shift_exec _ _ _ _ _ (fun x y => u32 (x * 2 ^ (y mod 32))))
    | |- context [do_srli] =>
        apply RVOP_writes, (shift_exec _ _ _ _ _ (fun x y => x / 2 ^ (y mod 32)))
    | |- context [do_srai] =>
        apply RVOP_writes, (shift_exec _ _ _ _ _ (fun x y => u32 (s32 x / 2 ^ (y mod 32))))
    | |- context [do_orcb] => apply RVOP_writes, orcb_exec
    | |- context [do_sextb] => apply RVOP_writes, (sextb_exec 8)
    | |- context [do_sexth] => apply RVOP_writes, (sextb_exec 16)
    | |- _ => apply wr_rd_writes; cbv zeta beta; rewrite ?land_31, ?land_31', ?mod32_u32
    end.
  all: try (by rewrite Ho); try (by rewrite Ho; simpl; tauto).
  all: try (shifts_to_arith; done).
  all: try lia; try (by apply shadd_c); destruct Hir; auto with alu.
Qed.

(** C7.  The computational instructions of RV32I, M, Zba, Zbb, Zbc and Zbs
    have the meaning of the manual: on a well-formed hart, the handler of
    each of them writes to [rd] the value that [isa_alu] gives for [rs1] and
    the second operand (signed and unsigned comparisons, all four high and
    low products, division with its zero and overflow cases, rotations, bit
    counts, byte reversal, carry-less products, single-bit operations),
    changes nothing else, counts one cycle and goes on with the next
    instruction. *)
Theorem alu_exec o f rv w ir cycle pc :
  isa_alu o = Some f -> rv_wf rv -> insn_wf ir -> ir.(opcode) = o ->
  dispatch_table io sf find tt_direct o rv w ir cycle pc =
  writes rv w ir o cycle pc (f (getX rv ir.(rs1)) (operand2 rv ir o)).
Proof. apply dispatch_alu. Qed.
End alu.

(** [rori x3, x1, 8] on [0x80000001] and [div x3, x1, x2] with [x2 = 0]. *)
Definition alu_hart : riscv := setX (rv_zero 0) 1 0x80000001.
Definition alu_insn (o : insn_op) : rv_insn :=
  mk_rv_insn 0x608 3 1 2 o 0 0 0 [] 0 (do_op o) None None None.

Lemma alu_exec_witness :
  let run o := dispatch_table no_tensix sf_zero (fun _ => None) (fun _ _ w => (w, true))
                 o alu_hart mem0 (alu_insn o) 7 0x100 in
  run rv_insn_rori = (setX alu_hart 3 0x01800000, mem0, Next 8 0x104) /\
  run rv_insn_div = (setX alu_hart 3 0xffffffff, mem0, Next 8 0x104).
Proof.
  assert (rv_wf alu_hart) by (apply wf_setX; [apply rv_zero_wf | auto with word]).
  assert (forall o, insn_wf (alu_insn o)) by (intros; constructor; simpl; lia).
  split; (etrans; [by eapply alu_exec | reflexivity]).
Defined.
