(* ===== verification/ExecMem.v ===== *)
(** * Loads, stores and traps

    The load and store handlers on the memory of the emulator, as the guest
    sees it ([guest]), and what a trap does to the hart. *)

From Stdlib Require Import ZArith Lia Bool.
From stdpp Require Import base list numbers gmap.
From S2P Require Import Prelude Decode Riscv Exec ExecWf Memory MemorySpec AluSpec.

(** ** The meaning of loads and stores *)

(** Bytes accessed and what becomes of the number read. *)
Definition isa_load (o : insn_op) : option (nat * (Z -> Z)) :=
  match o with
  | rv_insn_lb => Some (1%nat, fun v => u32 (s8 v))
  | rv_insn_lh => Some (2%nat, fun v => u32 (s16 v))
  | rv_insn_lw => Some (4%nat, fun v => v)
  | rv_insn_lbu => Some (1%nat, fun v => v)
  | rv_insn_lhu => Some (2%nat, fun v => v)
  | _ => None
  end.

Definition isa_store (o : insn_op) : option nat :=
  match o with
  | rv_insn_sb => Some 1%nat
  | rv_insn_sh => Some 2%nat
  | rv_insn_sw => Some 4%nat
  | _ => None
  end.

Definition aligned (rv : riscv) (a : Z) (n : nat) : Prop :=
  a mod Z.of_nat n = 0 \/ rv.(allow_misalign) = true.

(** The mask of the misalignment test. *)
Lemma misaligned_mask a k :
  0 <= k -> nz (a &. (2 ^ k - 1)) = negb (a mod 2 ^ k =? 0).
Proof.
  intros. replace (2 ^ k - 1) with (Z.ones k) by (rewrite Z.ones_equiv; lia).
  by rewrite Z.land_ones.
Qed.

Section mem.
Context {T : Type}.
Context (mmio_read : Z -> Z -> T -> heap -> option (Z * T * heap)).
Context (mmio_write : Z -> Z -> Z -> T -> heap -> T * heap * bool).
Context (syscall_handler : riscv -> world T -> riscv * world T).
Context (sf : softfloat) (find : Z -> option Z).
Context (tt_direct : Z -> Z -> world T -> world T * bool).
Let io := rv_io mmio_read mmio_write syscall_handler.

(** The coprocessor does not answer at this address and keeps its state, or
    there is none. *)
Definition plain_read (w : world T) (rv : riscv) (a : Z) : Prop :=
  match w.(w_tensix) with
  | None => True
  | Some t => mmio_read rv.(core_id) a t w.(w_heap) = None
  end.
Definition plain_write (w : world T) (rv : riscv) (a v : Z) : Prop :=
  match w.(w_tensix) with
  | None => True
  | Some t => mmio_write rv.(core_id) a v t w.(w_heap) = (t, w.(w_heap), false)
  end.

Lemma read_w_plain rv w a :
  plain_read w rv a -> on_mem_read_w mmio_read rv w a = (memory_read_w w.(w_mem) w.(w_heap) a, w).
Proof.
  unfold plain_read, on_mem_read_w. destruct (w_tensix w); [|done]. by intros ->.
Qed.
Lemma write_w_plain rv w a v :
  plain_write w rv a v ->
  on_mem_write_w mmio_write rv w a v = set_heap w (memory_write_w w.(w_mem) w.(w_heap) a v).
Proof.
  unfold plain_write, on_mem_write_w. destruct w as [m h [t|]]; simpl; [|done].
  by intros ->.
Qed.

(** The misalignment handler lets an aligned access through ... *)
Lemma misalign_pass rv (w : world T) cycle pc a k type cmp r :
  0 <= k -> a mod 2 ^ k = 0 \/ rv.(allow_misalign) = true ->
  RV_EXC_MISALIGN_HANDLER io rv w cycle pc a (2 ^ k - 1) type cmp r = r.
Proof.
  intros Hk Ha. unfold RV_EXC_MISALIGN_HANDLER. rewrite misaligned_mask by done.
  destruct Ha as [->| ->]; [by rewrite andb_false_r | done].
Qed.

(** ... and traps on any other. *)
Definition misaligned_trap (rv : riscv) (cycle pc a type : Z) : riscv :=
  SET_CAUSE_AND_TVAL_THEN_TRAP trap_handler
    (set_PC (set_csr_cycle (set_compressed rv false) cycle) pc) type a.

Lemma misalign_trap rv (w : world T) cycle pc a k type r :
  0 <= k -> a mod 2 ^ k <> 0 -> rv.(allow_misalign) = false ->
  RV_EXC_MISALIGN_HANDLER io rv w cycle pc a (2 ^ k - 1) type false r =
  (misaligned_trap rv cycle pc a type, w, ret false).
Proof.
  intros Hk Ha Hm. unfold RV_EXC_MISALIGN_HANDLER. rewrite misaligned_mask, Hm by done.
  destruct (Z.eqb_spec (a mod 2 ^ k) 0); [done|].
  unfold misaligned_trap, io, rv_io. cbn [negb andb on_trap]. reflexivity.
Qed.

Lemma dispatch_load o n ext rv w ir cycle pc :
  isa_load o = Some (n, ext) -> rv_wf rv -> layout_ok w.(w_mem) ->
  let a := u32 (getX rv ir.(rs1) + ir.(imm)) in
  aligned rv a n -> in_region w.(w_mem) a (Z.of_nat n) -> plain_read w rv a ->
  dispatch_table io sf find tt_direct o rv w ir cycle pc =
  writes rv w ir o cycle pc (ext (guest_load n (guest w.(w_mem) w.(w_heap)) a)).
Proof.
  intros Ho Hrv Hl a Ha Hr Hp. rewrite <- guest_load_spec by done.
  destruct o; try discriminate Ho; cbn [isa_load] in Ho;
    apply (inj Some), pair_equal_spec in Ho as [<- <-]; cbn [dispatch_table];
    apply RVOP_writes; unfold do_lb, do_lh, do_lw, do_lbu, do_lhu, load_addr; fold a;
    try done; cbv zeta.
  - change 1 with (2 ^ 1 - 1). by rewrite misalign_pass.
  - change 3 with (2 ^ 2 - 1). rewrite misalign_pass by done.
    unfold io, rv_io. cbn [mem_read_w]. by rewrite read_w_plain.
  - change 1 with (2 ^ 1 - 1). by rewrite misalign_pass.
Qed.

(** A load whose address is aligned (or on a hart that allows
    misaligned accesses) and lies in one region of guest memory, which the
    coprocessor does not claim, writes to [rd] the little-endian number of
    the bytes there, sign-extended for [lb] and [lh], leaves memory alone
    and goes on. *)
Theorem load_exec o n ext rv w ir cycle pc :
  isa_load o = Some (n, ext) -> rv_wf rv -> layout_ok w.(w_mem) ->
  let a := u32 (getX rv ir.(rs1) + ir.(imm)) in
  aligned rv a n -> in_region w.(w_mem) a (Z.of_nat n) -> plain_read w rv a ->
  dispatch_table io sf find tt_direct o rv w ir cycle pc =
  writes rv w ir o cycle pc (ext (guest_load n (guest w.(w_mem) w.(w_heap)) a)).
Proof. apply dispatch_load. Qed.

Lemma dispatch_store o n rv w ir cycle pc :
  isa_store o = Some n -> rv_wf rv -> layout_ok w.(w_mem) ->
  let a := u32 (getX rv ir.(rs1) + ir.(imm)) in
  let v := getX rv ir.(rs2) in
  aligned rv a n -> in_region w.(w_mem) a (Z.of_nat n) -> plain_write w rv a v ->
  exists w',
    dispatch_table io sf find tt_direct o rv w ir cycle pc =
      (rv, w', Next (u64 (cycle + 1)) (u32 (pc + 4))) /\
    w'.(w_mem) = w.(w_mem) /\ w'.(w_tensix) = w.(w_tensix) /\
    forall b, valid w.(w_mem) b ->
      guest w'.(w_mem) w'.(w_heap) b =
      guest_upd (Z.of_nat n) a v (guest w.(w_mem) w.(w_heap)) b.
Proof.
  intros Ho Hrv Hl a v Ha Hr Hp.
  exists (set_heap w (store n w.(w_heap) (host_addr w.(w_mem) a)
            (v mod 256 ^ Z.of_nat n))).
  split; [|splits; [done | done |]].
  - destruct o; try discriminate Ho; cbn [isa_store] in Ho; apply (inj Some) in Ho;
      subst n; cbn [dispatch_table]; unfold RVOP, do_sb, do_sh, do_sw, load_addr;
      cbv zeta; fold a v.
    + done.
    + change 1 with (2 ^ 1 - 1) at 2. by rewrite misalign_pass.
    + change 3 with (2 ^ 2 - 1). rewrite misalign_pass by done.
      unfold io, rv_io. cbn [mem_write_w]. rewrite write_w_plain by done.
      rewrite (Z.mod_small v); [done|]. exact (getX_word rv ir.(rs2) Hrv).
  - intros b Hb. simpl. rewrite guest_store by done. unfold guest_upd.
    destruct (decide _) as [Hd|]; [|done].
    rewrite div_mod_byte by lia. done.
Qed.

(** A store under the same conditions leaves the hart's registers
    alone and changes exactly the bytes of guest memory it names to the low
    bytes of [rs2]: every other byte the guest can see, in any region, keeps
    its value. *)
Theorem store_exec o n rv w ir cycle pc :
  isa_store o = Some n -> rv_wf rv -> layout_ok w.(w_mem) ->
  let a := u32 (getX rv ir.(rs1) + ir.(imm)) in
  let v := getX rv ir.(rs2) in
  aligned rv a n -> in_region w.(w_mem) a (Z.of_nat n) -> plain_write w rv a v ->
  exists w',
    dispatch_table io sf find tt_direct o rv w ir cycle pc =
      (rv, w', Next (u64 (cycle + 1)) (u32 (pc + 4))) /\
    w'.(w_mem) = w.(w_mem) /\ w'.(w_tensix) = w.(w_tensix) /\
    forall b, valid w.(w_mem) b ->
      guest w'.(w_mem) w'.(w_heap) b =
      guest_upd (Z.of_nat n) a v (guest w.(w_mem) w.(w_heap)) b.
Proof. apply dispatch_store. Qed.

End mem.

(** [lh] of [0x8001] at the start of local memory, [sb] next to it, and a
    misaligned [sw]. *)
Definition mem_hart : riscv := setX (setX (rv_zero 0) 1 0xffb00000) 2 0x1ff.
Definition mem_insn (o : insn_op) (i : Z) : rv_insn :=
  mk_rv_insn i 3 1 2 o 0 0 0 [] 0 (do_op o) None None None.
Definition mem1 : world unit := set_heap mem0 (<[0x80000000 := 1]> (<[0x80000001 := 0x80]> ∅)).

Lemma mem_hart_wf : rv_wf mem_hart.
Proof. apply wf_setX; [apply wf_setX; [apply rv_zero_wf|]|]; auto with word. Qed.

Lemma layout_ok_mem1 : layout_ok mem1.(w_mem).
Proof. constructor; vm_compute; intuition discriminate. Qed.

Lemma load_exec_witness :
  dispatch_table no_tensix sf_zero (fun _ => None) (fun _ _ w => (w, true)) rv_insn_lh
    mem_hart mem1 (mem_insn rv_insn_lh 0) 7 0x100 =
  (setX mem_hart 3 0xffff8001, mem1, Next 8 0x104).
Proof.
  etrans; [eapply (load_exec (fun _ _ _ _ => None) (fun _ _ _ t h => (t, h, false))
    (fun rv w => (rv, w)) sf_zero (fun _ => None) (fun _ _ w => (w, true)) rv_insn_lh)|].
  - reflexivity.
  - apply mem_hart_wf.
  - apply layout_ok_mem1.
  - left. reflexivity.
  - right. left. vm_compute. intuition discriminate.
  - exact I.
  - reflexivity.
Defined.

Lemma store_exec_witness :
  exists w', dispatch_table no_tensix sf_zero (fun _ => None) (fun _ _ w => (w, true))
    rv_insn_sb mem_hart mem1 (mem_insn rv_insn_sb 1) 7 0x100 =
    (mem_hart, w', Next 8 0x104) /\
  guest w'.(w_mem) w'.(w_heap) 0xffb00001 = 0xff /\
  guest w'.(w_mem) w'.(w_heap) 0xffb00000 = 1.
Proof.
  destruct (store_exec (fun _ _ _ _ => None) (fun _ _ _ t h => (t, h, false))
    (fun rv w => (rv, w)) sf_zero (fun _ => None) (fun _ _ w => (w, true)) rv_insn_sb
    1%nat mem_hart mem1 (mem_insn rv_insn_sb 1) 7 0x100) as (w' & E & _ & _ & H).
  - reflexivity.
  - apply mem_hart_wf.
  - apply layout_ok_mem1.
  - left. reflexivity.
  - right. left. vm_compute. intuition discriminate.
  - exact I.
  - exists w'. split; [exact E|].
    split; (rewrite H; [reflexivity | right; vm_compute; intuition discriminate]).
Defined.


(** ** Traps *)

(** A flag moved to another position. *)
Lemma move_bit s k j :
  0 <= k -> 0 <= j < 32 ->
  u32 (((s &. (1 <<. k)) >>. k) <<. j) = if Z.testbit s k then 2 ^ j else 0.
Proof.
  intros Hk Hj. rewrite Z.shiftl_1_l, (land_mask_shiftr s k 1) by lia.
  rewrite <- bit_field by done. rewrite Z.shiftl_mul_pow2 by lia.
  destruct (Z.testbit s k); cbn [b2z]; rewrite ?Z.mul_1_l, ?Z.mul_0_l; [|done].
  apply u32_small.
  assert (2 ^ j < 2 ^ 32) by (apply Z.pow_lt_mono_r; lia). lia.
Qed.

(** Where the vector of a trap points. *)
Definition vector_pc (tvec cause pc : Z) : Z :=
  match tvec mod 4 with
  | 0 => tvec - tvec mod 4
  | 1 => u32 (tvec - tvec mod 4 + 4 * (cause mod 2 ^ 31))
  | _ => pc
  end.

Lemma clear_low2 z : word z -> z &. u32 (Z.lnot 3) = z - z mod 4.
Proof.
  intros Hz. rewrite (land_mask z 2 30) by done. unfold bits, word in *. div_lia.
Qed.
Lemma low2 z : z &. 3 = z mod 4.
Proof. apply (Z.land_ones z 2). lia. Qed.
Lemma low31 z : z &. 0x7fffffff = z mod 2 ^ 31.
Proof. apply (Z.land_ones z 31). lia. Qed.

Lemma trap_vector_eq rv tvec cause :
  word tvec ->
  trap_vector rv (tvec &. u32 (Z.lnot 0x3)) (tvec &. 0x3) cause =
  set_PC rv (vector_pc tvec cause rv.(PC)).
Proof.
  intros Ht. unfold trap_vector, vector_pc. rewrite clear_low2, low2, low31 by done.
  destruct (tvec mod 4) as [|[[]|[]|]|]; (reflexivity || by destruct rv).
Qed.

(** Trap entry of a hart in user or supervisor mode (which is what
    [rv_new] creates): the cause and value are recorded in the supervisor
    CSRs, [sepc] gets the interrupted program counter, the hart is in
    supervisor mode with [SIE] clear, and continues at the vector of
    [stvec]; the integer registers and machine CSRs keep their values. *)
Theorem trap_entry_s rv cause tval :
  rv_wf rv -> rv.(priv_mode) <= RV_PRIV_S_MODE ->
  let rv' := SET_CAUSE_AND_TVAL_THEN_TRAP trap_handler rv cause tval in
  rv'.(csr_scause) = cause /\ rv'.(csr_stval) = tval /\ rv'.(csr_sepc) = rv.(PC) /\
  rv'.(priv_mode) = RV_PRIV_S_MODE /\ Z.testbit rv'.(csr_sstatus) SSTATUS_SIE_SHIFT = false /\
  rv'.(PC) = vector_pc rv.(csr_stvec) cause rv.(PC) /\
  rv'.(X) = rv.(X) /\ rv'.(F) = rv.(F) /\ rv'.(csr_mstatus) = rv.(csr_mstatus) /\
  rv'.(csr_mepc) = rv.(csr_mepc).
Proof.
  intros Hrv Hp rv'. subst rv'.
  unfold SET_CAUSE_AND_TVAL_THEN_TRAP, trap_handler, _trap_handler, RV_PRIV_IS_U_OR_S_MODE.
  rewrite (proj2 (Z.leb_le _ _) Hp). cbn [set_csr_stval set_csr_scause priv_mode].
  rewrite (proj2 (Z.leb_le _ _) Hp). cbv zeta.
  rewrite trap_vector_eq by (cbn; auto with word).
  split_and!; try reflexivity.
  cbn [csr_sstatus set_PC set_csr_sepc set_priv_mode set_csr_sstatus].
  rewrite Z.lor_spec, Z.land_spec.
  change (Z.testbit (u32 (Z.lnot SSTATUS_SIE)) SSTATUS_SIE_SHIFT) with false.
  rewrite andb_false_r. unfold u32. rewrite orb_false_l, Z.mod_pow2_bits_low by done.
  by apply Z.shiftl_spec_low.
Qed.

(** A fresh hart that traps, as [rv_new] leaves it. *)
Lemma trap_entry_s_witness :
  (SET_CAUSE_AND_TVAL_THEN_TRAP trap_handler (set_PC (rv_zero 0) 0x100) 4 2).(PC) = 0.
Proof.
  destruct (trap_entry_s (set_PC (rv_zero 0) 0x100) 4 2) as (_ & _ & _ & _ & _ & E & _).
  - apply wf_set_PC; [apply rv_zero_wf | auto with word].
  - vm_compute. discriminate.
  - etrans; [exact E | reflexivity].
Defined.

(** The status register across a machine trap and the matching [mret]. *)
Definition mstatus_trap (s priv : Z) : Z :=
  (((s |. u32 (((s &. MSTATUS_MIE) >>. MSTATUS_MIE_SHIFT) <<. MSTATUS_MPIE_SHIFT))
    &. u32 (Z.lnot MSTATUS_MIE)) |. u32 (priv <<. MSTATUS_MPP_SHIFT)).
Definition mstatus_mret (s : Z) : Z :=
  let s := s &. u32 (Z.lnot MSTATUS_MPP) in
  (s |. u32 (((s &. MSTATUS_MPIE) >>. MSTATUS_MPIE_SHIFT) <<. MSTATUS_MIE_SHIFT))
  |. MSTATUS_MPIE.

Definition mstatus_back (s i : Z) : bool :=
  match i with
  | 3 => Z.testbit s 3 || Z.testbit s 7
  | 7 => true
  | 11 | 12 => false
  | _ => Z.testbit s i
  end.

Lemma mstatus_back_ok s i :
  word s -> 0 <= i < 32 ->
  Z.testbit (mstatus_mret (mstatus_trap s RV_PRIV_M_MODE)) i = mstatus_back s i.
Proof.
  intros Hs Hi. unfold mstatus_trap, mstatus_mret, MSTATUS_MIE, MSTATUS_MPIE,
    MSTATUS_MIE_SHIFT, MSTATUS_MPIE_SHIFT. cbv zeta.
  rewrite (move_bit s 3 7), (move_bit _ 7 3) by lia.
  assert (In i (seqZ 0 32)) as Hin by (apply list_elem_of_In, elem_of_seqZ; lia).
  vm_compute in Hin.
  destruct (Z.testbit s 3) eqn:E3; destruct (Z.testbit s 7) eqn:E7;
    repeat (rewrite Z.lor_spec || rewrite Z.land_spec); rewrite E7;
    unfold mstatus_back; set (T := Z.testbit s) in *; clearbody T; clear s Hs Hi.
  all: repeat destruct Hin as [<-|Hin]; try done; vm_compute;
    rewrite ?E3, ?E7; by repeat case_match.
Qed.

Lemma mpp_back s :
  word s -> (mstatus_trap s RV_PRIV_M_MODE &. MSTATUS_MPP) >>. MSTATUS_MPP_SHIFT = 3.
Proof.
  intros Hs. rewrite (land_mask_shiftr _ 11 2) by done.
  apply Z.bits_inj'. intros i Hi. unfold bits. rewrite <- Z.shiftr_div_pow2 by lia.
  rewrite Z.testbit_mod_pow2, Z.shiftr_spec by lia.
  destruct (Z.ltb_spec i 2); [|symmetry; apply (testbit_above 3 2); lia].
  unfold mstatus_trap. rewrite Z.lor_spec.
  assert (i = 0 \/ i = 1) as [->| ->] by lia; by rewrite orb_true_r.
Qed.

(** Trap entry in machine mode with a vector set up. *)
Lemma trap_entry_m rv cause tval :
  rv_wf rv -> rv.(priv_mode) = RV_PRIV_M_MODE -> rv.(csr_mtvec) <> 0 ->
  let rv' := SET_CAUSE_AND_TVAL_THEN_TRAP trap_handler rv cause tval in
  rv'.(csr_mcause) = cause /\ rv'.(csr_mtval) = tval /\ rv'.(csr_mepc) = rv.(PC) /\
  rv'.(csr_mstatus) = mstatus_trap rv.(csr_mstatus) RV_PRIV_M_MODE /\
  rv'.(PC) = vector_pc rv.(csr_mtvec) cause rv.(PC) /\
  rv'.(X) = rv.(X) /\ rv'.(F) = rv.(F).
Proof.
  intros Hrv Hp Hv rv'. subst rv'.
  unfold SET_CAUSE_AND_TVAL_THEN_TRAP, RV_PRIV_IS_U_OR_S_MODE. rewrite Hp.
  change (RV_PRIV_M_MODE <=? RV_PRIV_S_MODE) with false. cbv iota.
  unfold trap_handler, _trap_handler, RV_PRIV_IS_U_OR_S_MODE.
  cbn [priv_mode set_csr_mtval set_csr_mcause]. rewrite Hp.
  change (RV_PRIV_M_MODE <=? RV_PRIV_S_MODE) with false. cbv iota zeta.
  cbn [priv_mode csr_mtvec set_csr_mtval set_csr_mcause set_csr_mepc set_priv_mode
       set_csr_mstatus].
  rewrite (proj2 (Z.eqb_neq _ _) Hv). rewrite trap_vector_eq by auto with word.
  rewrite Hp. split_and!; reflexivity.
Qed.


