(* ===== verification/ConstOpt.v ===== *)
(** * Constant propagation (src/rv32emu/src/rv32_constopt.c, emulate.c)

    [optimize_constant] runs over a freshly translated block and replaces
    instructions whose operands are known by loads of the result, and
    branches whose condition is known by jumps.  One definition
    [constopt_<inst>] per [CONSTOPT] of rv32_constopt.c; each works on the
    instruction and on the table of known registers. *)

From Stdlib Require Import ZArith Lia Bool.
From stdpp Require Import base list numbers.
From S2P Require Import Prelude Decode Riscv Exec.

(** ** The table of known registers *)

Record constopt_info_t : Type := mk_info {
  is_constant : list bool; const_val : list Z
}.

(** [info->is_constant[r]], [info->const_val[r]] and the assignments. *)
Definition is_const (info : constopt_info_t) (r : Z) : bool :=
  info.(is_constant) !!! Z.to_nat r.
Definition cval (info : constopt_info_t) (r : Z) : Z :=
  info.(const_val) !!! Z.to_nat r.
Definition set_const (info : constopt_info_t) (r : Z) (b : bool) : constopt_info_t :=
  mk_info (<[Z.to_nat r := b]> info.(is_constant)) info.(const_val).
Definition set_cval (info : constopt_info_t) (r v : Z) : constopt_info_t :=
  mk_info info.(is_constant) (<[Z.to_nat r := u32 v]> info.(const_val)).

Definition known (info : constopt_info_t) (r v : Z) : constopt_info_t :=
  set_cval (set_const info r true) r v.
Definition unknown (info : constopt_info_t) (r : Z) : constopt_info_t :=
  set_const info r false.

Definition opt : Type := rv_insn -> constopt_info_t -> rv_insn * constopt_info_t.

(** [ir->opcode = o; ir->impl = dispatch_table[ir->opcode];] *)
Definition become (o : insn_op) (ir : rv_insn) : rv_insn :=
  ir_set_impl (ir_set_opcode ir o) (do_op o).

(** ** The bodies that many instructions share *)

Definition keep : opt := fun ir info => (ir, info).
Definition forget_rd : opt := fun ir info => (ir, unknown info ir.(rd)).
Definition forget_rd_nz : opt := fun ir info =>
  (ir, if nz ir.(rd) then unknown info ir.(rd) else info).
Definition known_rd (v : rv_insn -> Z) : opt := fun ir info =>
  (ir, known info ir.(rd) (v ir)).
Definition link_rd : opt := fun ir info =>
  (ir, if nz ir.(rd) then known info ir.(rd) (ir.(insn_pc) + 4) else info).

(** [untaken] is the condition under which the branch is not taken. *)
Definition OPT_BRANCH_FUNC (untaken : Z -> Z -> bool) : opt := fun ir info =>
  if is_const info ir.(rs1) && is_const info ir.(rs2) then
    let ir := if untaken (cval info ir.(rs1)) (cval info ir.(rs2))
              then ir_set_imm ir 4 else ir in
    (become rv_insn_jal ir, info)
  else (ir, info).
Definition c_branch_opt (untaken : Z -> bool) : opt := fun ir info =>
  if is_const info ir.(rs1) then
    let ir := if untaken (cval info ir.(rs1)) then ir_set_imm ir 2 else ir in
    (become rv_insn_cj ir, info)
  else (ir, info).

(** Register-immediate and register-register operations; [imm] is an
    [int32_t]. *)
Definition fold_ri (f : Z -> Z -> Z) : opt := fun ir info =>
  if is_const info ir.(rs1) then
    let ir := ir_set_imm ir (s32 (f (cval info ir.(rs1)) ir.(imm))) in
    let info := known info ir.(rd) ir.(imm) in
    (become rv_insn_lui ir, info)
  else (ir, unknown info ir.(rd)).
Definition fold_rr (o : insn_op) (f : Z -> Z -> Z) : opt := fun ir info =>
  if is_const info ir.(rs1) && is_const info ir.(rs2) then
    let info := set_const info ir.(rd) true in
    let ir := ir_set_imm ir (s32 (f (cval info ir.(rs1)) (cval info ir.(rs2)))) in
    (become o ir, set_cval info ir.(rd) ir.(imm))
  else (ir, unknown info ir.(rd)).

(** Compressed operations on [rd], and those on [rs1] that set [rd]. *)
Definition fold_rd (f : Z -> Z -> Z) : opt := fun ir info =>
  if is_const info ir.(rd) then
    let ir := ir_set_imm ir (s32 (f (cval info ir.(rd)) ir.(imm))) in
    (become rv_insn_clui ir, set_cval info ir.(rd) ir.(imm))
  else (ir, info).
Definition fold_rs1 (f : Z -> rv_insn -> Z) : opt := fun ir info =>
  if is_const info ir.(rs1) then
    let ir := ir_set_imm ir (s32 (f (cval info ir.(rs1)) ir)) in
    let info := set_cval info ir.(rs1) ir.(imm) in
    (become rv_insn_clui (ir_set_rd ir ir.(rs1)), info)
  else (ir, info).

(** ** One definition per instruction *)

Definition constopt_nop : opt := keep.
Definition constopt_lui : opt := known_rd (fun ir => ir.(imm)).
Definition constopt_auipc : opt := fun ir info =>
  let ir := ir_set_imm ir (s32 (ir.(imm) + ir.(insn_pc))) in
  let info := known info ir.(rd) ir.(imm) in
  (become rv_insn_lui ir, info).
Definition constopt_jal : opt := link_rd.
Definition constopt_jalr : opt := link_rd.
Definition constopt_beq : opt := OPT_BRANCH_FUNC (fun x y => negb (x =? y)).
Definition constopt_bne : opt := OPT_BRANCH_FUNC (fun x y => x =? y).
Definition constopt_blt : opt := OPT_BRANCH_FUNC (fun x y => s32 y <=? s32 x).
Definition constopt_bge : opt := OPT_BRANCH_FUNC (fun x y => s32 x <? s32 y).
Definition constopt_bltu : opt := OPT_BRANCH_FUNC (fun x y => y <=? x).
Definition constopt_bgeu : opt := OPT_BRANCH_FUNC (fun x y => x <? y).
Definition constopt_lb : opt := forget_rd.
Definition constopt_lh : opt := forget_rd.
Definition constopt_lw : opt := forget_rd.
Definition constopt_lbu : opt := forget_rd.
Definition constopt_lhu : opt := forget_rd.
Definition constopt_sb : opt := keep.
Definition constopt_sh : opt := keep.
Definition constopt_sw : opt := keep.
Definition constopt_addi : opt := fold_ri (fun c i => i + c).
Definition constopt_slti : opt := fold_ri (fun c i => if s32 c <? i then 1 else 0).
Definition constopt_sltiu : opt := fold_ri (fun c i => if c <? u32 i then 1 else 0).
Definition constopt_xori : opt := fold_ri (fun c i => u32 i ^. c).
Definition constopt_ori : opt := fold_ri (fun c i => u32 i |. c).
Definition constopt_andi : opt := fold_ri (fun c i => u32 i &. c).
Definition constopt_slli : opt := fold_ri (fun c i => c <<. (i &. 0x1f)).
Definition constopt_srli : opt := fold_ri (fun c i => c >>. (i &. 0x1f)).
Definition constopt_srai : opt := fold_ri (fun c i => s32 c >>. (i &. 0x1f)).
Definition constopt_add : opt := fold_rr rv_insn_lui (fun a b => u32 (a + b)).
Definition constopt_sub : opt := fold_rr rv_insn_lui (fun a b => u32 (a - b)).
Definition constopt_sll : opt :=
  fold_rr rv_insn_lui (fun a b => u32 (a <<. (b &. 0x1f))).
Definition constopt_slt : opt :=
  fold_rr rv_insn_lui (fun a b => if s32 a <? s32 b then 1 else 0).
Definition constopt_sltu : opt :=
  fold_rr rv_insn_lui (fun a b => if a <? b then 1 else 0).
Definition constopt_xor : opt := fold_rr rv_insn_lui (fun a b => s32 a ^. s32 b).
Definition constopt_srl : opt := fold_rr rv_insn_lui (fun a b => a >>. (b &. 0x1f)).
Definition constopt_sra : opt :=
  fold_rr rv_insn_lui (fun a b => s32 a >>. (b &. 0x1f)).
Definition constopt_or : opt := fold_rr rv_insn_lui (fun a b => s32 a |. s32 b).
Definition constopt_and : opt := fold_rr rv_insn_lui (fun a b => s32 a &. s32 b).
Definition constopt_fence : opt := keep.
Definition constopt_ecall : opt := keep.
Definition constopt_ebreak : opt := keep.
Definition constopt_wfi : opt := keep.
Definition constopt_uret : opt := keep.
Definition constopt_hret : opt := keep.
Definition constopt_mret : opt := keep.
Definition constopt_sfencevma : opt := keep.
Definition constopt_fencei : opt := keep.
Definition constopt_csrrw : opt := forget_rd.
Definition constopt_csrrs : opt := forget_rd.
Definition constopt_csrrc : opt := forget_rd.
Definition constopt_csrrwi : opt := forget_rd.
Definition constopt_csrrsi : opt := forget_rd.
Definition constopt_csrrci : opt := forget_rd.
Definition constopt_mul : opt := fold_rr rv_insn_lui (fun a b =>
  let multiplicand := s32 a in
  let multiplier := s32 b in
  u64 (multiplicand * multiplier) &. ((1 <<. 32) - 1)).
Definition constopt_mulh : opt :=
  fold_rr rv_insn_lui (fun a b => u64 (s32 a * s32 b) >>. 32).
Definition constopt_mulhsu : opt :=
  fold_rr rv_insn_lui (fun a b => u64 (s32 a * b) >>. 32).
Definition constopt_mulhu : opt :=
  fold_rr rv_insn_lui (fun a b => s64 (a * b) >>. 32).
Definition constopt_div : opt := fold_rr rv_insn_lui (fun a b =>
  let dividend := s32 a in
  let divisor := s32 b in
  if divisor =? 0 then 0xffffffff
  else if (divisor =? -1) && (a =? 0x80000000) then a
  else u32 (Z.quot dividend divisor)).
Definition constopt_divu : opt := fold_rr rv_insn_lui (fun dividend divisor =>
  if divisor =? 0 then 0xffffffff else dividend / divisor).
Definition constopt_rem : opt := fold_rr rv_insn_lui (fun a b =>
  let dividend := s32 a in
  let divisor := s32 b in
  if divisor =? 0 then dividend
  else if (divisor =? -1) && (a =? 0x80000000) then 0
  else Z.rem dividend divisor).
Definition constopt_remu : opt := fold_rr rv_insn_lui (fun dividend divisor =>
  if divisor =? 0 then dividend else dividend mod divisor).
Definition constopt_lrw : opt := forget_rd_nz.
Definition constopt_scw : opt := keep.
Definition constopt_amoswapw : opt := forget_rd_nz.
Definition constopt_amoaddw : opt := forget_rd_nz.
Definition constopt_amoxorw : opt := forget_rd_nz.
Definition constopt_amoandw : opt := forget_rd_nz.
Definition constopt_amoorw : opt := forget_rd_nz.
Definition constopt_amominw : opt := forget_rd_nz.
Definition constopt_amomaxw : opt := forget_rd_nz.
Definition constopt_amominuw : opt := forget_rd_nz.
Definition constopt_amomaxuw : opt := forget_rd_nz.
Definition constopt_flw : opt := keep.
Definition constopt_fsw : opt := keep.
Definition constopt_fmadds : opt := keep.
Definition constopt_fmsubs : opt := keep.
Definition constopt_fnmsubs : opt := keep.
Definition constopt_fnmadds : opt := keep.
Definition constopt_fadds : opt := keep.
Definition constopt_fsubs : opt := keep.
Definition constopt_fmuls : opt := keep.
Definition constopt_fdivs : opt := keep.
Definition constopt_fsqrts : opt := keep.
Definition constopt_fsgnjs : opt := keep.
Definition constopt_fsgnjns : opt := keep.
Definition constopt_fsgnjxs : opt := keep.
Definition constopt_fmins : opt := keep.
Definition constopt_fmaxs : opt := keep.
Definition constopt_fcvtws : opt := forget_rd_nz.
Definition constopt_fcvtwus : opt := forget_rd_nz.
Definition constopt_fmvxw : opt := forget_rd_nz.
Definition constopt_feqs : opt := forget_rd_nz.
Definition constopt_flts : opt := forget_rd_nz.
Definition constopt_fles : opt := forget_rd_nz.
Definition constopt_fclasss : opt := forget_rd_nz.
Definition constopt_fcvtsw : opt := keep.
Definition constopt_fcvtswu : opt := keep.
Definition constopt_fmvwx : opt := keep.
Definition constopt_caddi4spn : opt := fun ir info =>
  if is_const info rv_reg_sp then
    let ir := ir_set_imm ir (s32 (cval info rv_reg_sp + u16 ir.(imm))) in
    let info := known info ir.(rd) ir.(imm) in
    (become rv_insn_clui ir, info)
  else (ir, unknown info ir.(rd)).
Definition constopt_clw : opt := forget_rd.
Definition constopt_csw : opt := keep.
Definition constopt_cnop : opt := keep.
Definition constopt_caddi : opt := fold_rd (fun c i => c + s16 i).
Definition constopt_cjal : opt := fun ir info =>
  (ir, known info rv_reg_ra (ir.(insn_pc) + 2)).
Definition constopt_cli : opt := known_rd (fun ir => ir.(imm)).
Definition constopt_caddi16sp : opt := fold_rd (fun c i => c + i).
Definition constopt_clui : opt := known_rd (fun ir => ir.(imm)).
Definition constopt_csrli : opt := fold_rs1 (fun c ir => shr32 c ir.(shamt)).
Definition constopt_csrai : opt := fold_rs1 (fun c ir =>
  let mask := 0x80000000 &. c in
  fold_left (fun v i => s32 (u32 v |. shr32 mask i)) (seqZ 0 ir.(shamt))
    (s32 (shr32 c ir.(shamt)))).
Definition constopt_candi : opt := fold_rs1 (fun c ir => c &. u32 ir.(imm)).
Definition constopt_csub : opt := fold_rr rv_insn_clui (fun a b => u32 (a - b)).
Definition constopt_cxor : opt := fold_rr rv_insn_clui (fun a b => a ^. b).
Definition constopt_cor : opt := fold_rr rv_insn_clui (fun a b => a |. b).
Definition constopt_cand : opt := fold_rr rv_insn_clui (fun a b => a &. b).
Definition constopt_cj : opt := keep.
Definition constopt_cbeqz : opt := c_branch_opt nz.
Definition constopt_cbnez : opt := c_branch_opt (fun c => c =? 0).
Definition constopt_cslli : opt := fold_rd (fun c i => shl32 c (u8 i)).
Definition constopt_clwsp : opt := forget_rd.
Definition constopt_cjr : opt := keep.
Definition constopt_cmv : opt := fun ir info =>
  if is_const info ir.(rs2) then
    let ir := ir_set_imm ir (s32 (cval info ir.(rs2))) in
    let info := known info ir.(rd) ir.(imm) in
    (become rv_insn_clui ir, info)
  else (ir, unknown info ir.(rd)).
Definition constopt_cebreak : opt := keep.
Definition constopt_cjalr : opt := fun ir info =>
  (ir, set_cval (set_const info rv_reg_ra true) ir.(rd) (ir.(insn_pc) + 2)).
Definition constopt_cadd : opt := fold_rr rv_insn_clui (fun a b => u32 (a + b)).
Definition constopt_cswsp : opt := keep.
Definition constopt_cflwsp : opt := keep.
Definition constopt_cfswsp : opt := keep.
Definition constopt_cflw : opt := keep.
Definition constopt_cfsw : opt := keep.
Definition constopt_sh1add : opt := forget_rd_nz.
Definition constopt_sh2add : opt := forget_rd_nz.
Definition constopt_sh3add : opt := forget_rd_nz.
Definition constopt_andn : opt := forget_rd_nz.
Definition constopt_orn : opt := forget_rd_nz.
Definition constopt_xnor : opt := forget_rd_nz.
Definition constopt_clz : opt := forget_rd_nz.
Definition constopt_ctz : opt := forget_rd_nz.
Definition constopt_cpop : opt := forget_rd_nz.
Definition constopt_max : opt := forget_rd_nz.
Definition constopt_maxu : opt := forget_rd_nz.
Definition constopt_min : opt := forget_rd_nz.
Definition constopt_minu : opt := forget_rd_nz.
Definition constopt_sextb : opt := forget_rd_nz.
Definition constopt_sexth : opt := forget_rd_nz.
Definition constopt_zexth : opt := forget_rd_nz.
Definition constopt_rol : opt := forget_rd_nz.
Definition constopt_ror : opt := forget_rd_nz.
Definition constopt_rori : opt := forget_rd_nz.
Definition constopt_orcb : opt := forget_rd_nz.
Definition constopt_rev8 : opt := forget_rd_nz.
Definition constopt_clmul : opt := forget_rd_nz.
Definition constopt_clmulh : opt := forget_rd_nz.
Definition constopt_clmulr : opt := forget_rd_nz.
Definition constopt_bclr : opt := forget_rd_nz.
Definition constopt_bclri : opt := forget_rd_nz.
Definition constopt_bext : opt := forget_rd_nz.
Definition constopt_bexti : opt := forget_rd_nz.
Definition constopt_binv : opt := forget_rd_nz.
Definition constopt_binvi : opt := forget_rd_nz.
Definition constopt_bset : opt := forget_rd_nz.
Definition constopt_bseti : opt := forget_rd_nz.
Definition constopt_ttinsn : opt := keep.

Definition constopt_table (o : insn_op) : opt :=
  match o with
  | rv_insn_nop => constopt_nop
  | rv_insn_lui => constopt_lui
  | rv_insn_auipc => constopt_auipc
  | rv_insn_jal => constopt_jal
  | rv_insn_jalr => constopt_jalr
  | rv_insn_beq => constopt_beq
  | rv_insn_bne => constopt_bne
  | rv_insn_blt => constopt_blt
  | rv_insn_bge => constopt_bge
  | rv_insn_bltu => constopt_bltu
  | rv_insn_bgeu => constopt_bgeu
  | rv_insn_lb => constopt_lb
  | rv_insn_lh => constopt_lh
  | rv_insn_lw => constopt_lw
  | rv_insn_lbu => constopt_lbu
  | rv_insn_lhu => constopt_lhu
  | rv_insn_sb => constopt_sb
  | rv_insn_sh => constopt_sh
  | rv_insn_sw => constopt_sw
  | rv_insn_addi => constopt_addi
  | rv_insn_slti => constopt_slti
  | rv_insn_sltiu => constopt_sltiu
  | rv_insn_xori => constopt_xori
  | rv_insn_ori => constopt_ori
  | rv_insn_andi => constopt_andi
  | rv_insn_slli => constopt_slli
  | rv_insn_srli => constopt_srli
  | rv_insn_srai => constopt_srai
  | rv_insn_add => constopt_add
  | rv_insn_sub => constopt_sub
  | rv_insn_sll => constopt_sll
  | rv_insn_slt => constopt_slt
  | rv_insn_sltu => constopt_sltu
  | rv_insn_xor => constopt_xor
  | rv_insn_srl => constopt_srl
  | rv_insn_sra => constopt_sra
  | rv_insn_or => constopt_or
  | rv_insn_and => constopt_and
  | rv_insn_fence => constopt_fence
  | rv_insn_ecall => constopt_ecall
  | rv_insn_ebreak => constopt_ebreak
  | rv_insn_wfi => constopt_wfi
  | rv_insn_uret => constopt_uret
  | rv_insn_hret => constopt_hret
  | rv_insn_mret => constopt_mret
  | rv_insn_sfencevma => constopt_sfencevma
  | rv_insn_fencei => constopt_fencei
  | rv_insn_csrrw => constopt_csrrw
  | rv_insn_csrrs => constopt_csrrs
  | rv_insn_csrrc => constopt_csrrc
  | rv_insn_csrrwi => constopt_csrrwi
  | rv_insn_csrrsi => constopt_csrrsi
  | rv_insn_csrrci => constopt_csrrci
  | rv_insn_mul => constopt_mul
  | rv_insn_mulh => constopt_mulh
  | rv_insn_mulhsu => constopt_mulhsu
  | rv_insn_mulhu => constopt_mulhu
  | rv_insn_div => constopt_div
  | rv_insn_divu => constopt_divu
  | rv_insn_rem => constopt_rem
  | rv_insn_remu => constopt_remu
  | rv_insn_lrw => constopt_lrw
  | rv_insn_scw => constopt_scw
  | rv_insn_amoswapw => constopt_amoswapw
  | rv_insn_amoaddw => constopt_amoaddw
  | rv_insn_amoxorw => constopt_amoxorw
  | rv_insn_amoandw => constopt_amoandw
  | rv_insn_amoorw => constopt_amoorw
  | rv_insn_amominw => constopt_amominw
  | rv_insn_amomaxw => constopt_amomaxw
  | rv_insn_amominuw => constopt_amominuw
  | rv_insn_amomaxuw => constopt_amomaxuw
  | rv_insn_flw => constopt_flw
  | rv_insn_fsw => constopt_fsw
  | rv_insn_fmadds => constopt_fmadds
  | rv_insn_fmsubs => constopt_fmsubs
  | rv_insn_fnmsubs => constopt_fnmsubs
  | rv_insn_fnmadds => constopt_fnmadds
  | rv_insn_fadds => constopt_fadds
  | rv_insn_fsubs => constopt_fsubs
  | rv_insn_fmuls => constopt_fmuls
  | rv_insn_fdivs => constopt_fdivs
  | rv_insn_fsqrts => constopt_fsqrts
  | rv_insn_fsgnjs => constopt_fsgnjs
  | rv_insn_fsgnjns => constopt_fsgnjns
  | rv_insn_fsgnjxs => constopt_fsgnjxs
  | rv_insn_fmins => constopt_fmins
  | rv_insn_fmaxs => constopt_fmaxs
  | rv_insn_fcvtws => constopt_fcvtws
  | rv_insn_fcvtwus => constopt_fcvtwus
  | rv_insn_fmvxw => constopt_fmvxw
  | rv_insn_feqs => constopt_feqs
  | rv_insn_flts => constopt_flts
  | rv_insn_fles => constopt_fles
  | rv_insn_fclasss => constopt_fclasss
  | rv_insn_fcvtsw => constopt_fcvtsw
  | rv_insn_fcvtswu => constopt_fcvtswu
  | rv_insn_fmvwx => constopt_fmvwx
  | rv_insn_caddi4spn => constopt_caddi4spn
  | rv_insn_clw => constopt_clw
  | rv_insn_csw => constopt_csw
  | rv_insn_cnop => constopt_cnop
  | rv_insn_caddi => constopt_caddi
  | rv_insn_cjal => constopt_cjal
  | rv_insn_cli => constopt_cli
  | rv_insn_caddi16sp => constopt_caddi16sp
  | rv_insn_clui => constopt_clui
  | rv_insn_csrli => constopt_csrli
  | rv_insn_csrai => constopt_csrai
  | rv_insn_candi => constopt_candi
  | rv_insn_csub => constopt_csub
  | rv_insn_cxor => constopt_cxor
  | rv_insn_cor => constopt_cor
  | rv_insn_cand => constopt_cand
  | rv_insn_cj => constopt_cj
  | rv_insn_cbeqz => constopt_cbeqz
  | rv_insn_cbnez => constopt_cbnez
  | rv_insn_cslli => constopt_cslli
  | rv_insn_clwsp => constopt_clwsp
  | rv_insn_cjr => constopt_cjr
  | rv_insn_cmv => constopt_cmv
  | rv_insn_cebreak => constopt_cebreak
  | rv_insn_cjalr => constopt_cjalr
  | rv_insn_cadd => constopt_cadd
  | rv_insn_cswsp => constopt_cswsp
  | rv_insn_cflwsp => constopt_cflwsp
  | rv_insn_cfswsp => constopt_cfswsp
  | rv_insn_cflw => constopt_cflw
  | rv_insn_cfsw => constopt_cfsw
  | rv_insn_sh1add => constopt_sh1add
  | rv_insn_sh2add => constopt_sh2add
  | rv_insn_sh3add => constopt_sh3add
  | rv_insn_andn => constopt_andn
  | rv_insn_orn => constopt_orn
  | rv_insn_xnor => constopt_xnor
  | rv_insn_clz => constopt_clz
  | rv_insn_ctz => constopt_ctz
  | rv_insn_cpop => constopt_cpop
  | rv_insn_max => constopt_max
  | rv_insn_maxu => constopt_maxu
  | rv_insn_min => constopt_min
  | rv_insn_minu => constopt_minu
  | rv_insn_sextb => constopt_sextb
  | rv_insn_sexth => constopt_sexth
  | rv_insn_zexth => constopt_zexth
  | rv_insn_rol => constopt_rol
  | rv_insn_ror => constopt_ror
  | rv_insn_rori => constopt_rori
  | rv_insn_orcb => constopt_orcb
  | rv_insn_rev8 => constopt_rev8
  | rv_insn_clmul => constopt_clmul
  | rv_insn_clmulh => constopt_clmulh
  | rv_insn_clmulr => constopt_clmulr
  | rv_insn_bclr => constopt_bclr
  | rv_insn_bclri => constopt_bclri
  | rv_insn_bext => constopt_bext
  | rv_insn_bexti => constopt_bexti
  | rv_insn_binv => constopt_binv
  | rv_insn_binvi => constopt_binvi
  | rv_insn_bset => constopt_bset
  | rv_insn_bseti => constopt_bseti
  | rv_insn_ttinsn => constopt_ttinsn
  | rv_insn_fuse1 | rv_insn_fuse2 | rv_insn_fuse3 | rv_insn_fuse4 | rv_insn_fuse5 => keep
  end.

(** ** The pass *)

Fixpoint optimize_loop (irs : list rv_insn) (info : constopt_info_t) : list rv_insn :=
  match irs with
  | [] => []
  | ir :: irs =>
      let '(ir, info) := constopt_table ir.(opcode) ir info in
      ir :: optimize_loop irs info
  end.

(** [constopt_info_t info = {.is_constant[0] = true};] *)
Definition info0 : constopt_info_t := mk_info (true :: repeat false 31) (repeat 0 32).

Definition optimize_constant (irs : list rv_insn) : list rv_insn :=
  optimize_loop irs info0.
