(* ===== verification/ConstOptSpec.v ===== *)
(** * Constant propagation preserves the meaning of a block

    [agrees info rv]: the registers that the pass believes to be constant
    hold the values it recorded.  Each [constopt_<inst>] keeps the effect of
    its instruction and the agreement, so that the optimised block and the
    block as it was translated do the same. *)

From Stdlib Require Import ZArith Lia Bool.
From stdpp Require Import base list numbers.
From S2P Require Import Prelude Decode Riscv Exec ExecWf Memory MemorySpec AluSpec ConstOpt.

(** ** What a handler may write *)

(** The integer register that an instruction writes; [nop] writes 0 to
    [x0]. *)
Definition dest (o : insn_op) (ir : rv_insn) : option Z :=
  match o with
  | rv_insn_nop => Some 0
  | rv_insn_csrli | rv_insn_csrai | rv_insn_candi => Some ir.(rs1)
  | rv_insn_beq | rv_insn_bne | rv_insn_blt | rv_insn_bge | rv_insn_bltu
  | rv_insn_bgeu | rv_insn_sb | rv_insn_sh | rv_insn_sw | rv_insn_fence
  | rv_insn_ecall | rv_insn_ebreak | rv_insn_wfi | rv_insn_uret | rv_insn_hret
  | rv_insn_mret | rv_insn_sfencevma | rv_insn_fencei | rv_insn_flw | rv_insn_fsw
  | rv_insn_fmadds | rv_insn_fmsubs | rv_insn_fnmsubs | rv_insn_fnmadds
  | rv_insn_fadds | rv_insn_fsubs | rv_insn_fmuls | rv_insn_fdivs | rv_insn_fsqrts
  | rv_insn_fsgnjs | rv_insn_fsgnjns | rv_insn_fsgnjxs | rv_insn_fmins
  | rv_insn_fmaxs | rv_insn_fcvtsw | rv_insn_fcvtswu | rv_insn_fmvwx
  | rv_insn_csw | rv_insn_cnop | rv_insn_cj | rv_insn_cbeqz | rv_insn_cbnez
  | rv_insn_cjr | rv_insn_cebreak | rv_insn_cswsp | rv_insn_cflwsp
  | rv_insn_cfswsp | rv_insn_cflw | rv_insn_cfsw => None
  | rv_insn_cjal | rv_insn_cjalr => Some rv_reg_ra
  | rv_insn_lrw | rv_insn_amoswapw | rv_insn_amoaddw | rv_insn_amoxorw
  | rv_insn_amoandw | rv_insn_amoorw | rv_insn_amominw | rv_insn_amomaxw
  | rv_insn_amominuw | rv_insn_amomaxuw | rv_insn_fcvtws | rv_insn_fcvtwus
  | rv_insn_fmvxw | rv_insn_feqs | rv_insn_flts | rv_insn_fles
  | rv_insn_fclasss => if nz ir.(rd) then Some ir.(rd) else None
  | _ => Some ir.(rd)
  end.

(** The integer registers after a step that wrote at most [d]. *)
Definition touches (d : option Z) (X X' : list Z) : Prop :=
  X' = X \/ exists i v, d = Some i /\ X' = <[Z.to_nat i := v]> X.

Definition code_frame {W} (d : rv_insn -> option Z) (c : @code W) : Prop :=
  forall rv w ir cycle pc, rv_wf rv -> insn_wf ir ->
  match c rv w ir cycle pc with
  | (rv', _, nextop pc') => pc' = pc /\ touches (d ir) rv.(X) rv'.(X)
  | _ => True
  end.

(** Operations on CSRs and flags leave the integer registers alone. *)
Lemma X_csr_store rv p v : (csr_store rv p v).(X) = rv.(X).
Proof. by destruct p as [ | | | | | | | | | |[]| | | | | | | | | | | | ]. Qed.
Lemma X_csr_get_ptr rv c : (csr_get_ptr rv c).1.(X) = rv.(X).
Proof. unfold csr_get_ptr. cbv zeta. repeat (case_match; [done|]). done. Qed.
Lemma X_csr_access rv c v :
  (csr_csrrw rv c v).1.(X) = rv.(X) /\ (csr_csrrs rv c v).1.(X) = rv.(X) /\
  (csr_csrrc rv c v).1.(X) = rv.(X).
Proof.
  unfold csr_csrrw, csr_csrrs, csr_csrrc. pose proof (X_csr_get_ptr rv c) as H.
  destruct (csr_get_ptr rv c) as [rv' [p|]]; simpl in *; rewrite ?X_csr_store; done.
Qed.
Lemma X_set_fflag rv : (set_fflag rv).(X) = rv.(X).
Proof. unfold set_fflag. cbv zeta. by repeat case_match. Qed.
Lemma X_set_rounding_mode rv m rv' : set_rounding_mode rv m = Some rv' -> rv'.(X) = rv.(X).
Proof. unfold set_rounding_mode. cbv zeta. repeat case_match; intros; by simplify_eq. Qed.

Lemma touches_setX rv i v : touches (Some i) rv.(X) (setX rv i v).(X).
Proof. right. by exists i, v. Qed.
Lemma touches_refl d X : touches d X X.
Proof. by left. Qed.
#[export] Hint Resolve touches_setX touches_refl : wf.

Section frame.
Context {W : Type} (io : riscv_io W) (sf : softfloat) (find : Z -> option Z).

Lemma frame_wr_rd e : code_frame (fun ir => Some ir.(rd)) (wr_rd (W:=W) e).
Proof. intros rv w ir cycle pc _ _. unfold wr_rd. auto with wf. Qed.

Lemma frame_misalign d rv w cycle pc a m t c (k : riscv * W * outcome) :
  match k with
  | (rv', _, nextop pc') => pc' = pc /\ touches d rv.(X) rv'.(X)
  | _ => True
  end ->
  match RV_EXC_MISALIGN_HANDLER io rv w cycle pc a m t c k with
  | (rv', _, nextop pc') => pc' = pc /\ touches d rv.(X) rv'.(X)
  | _ => True
  end.
Proof. intros H. unfold RV_EXC_MISALIGN_HANDLER. by destruct (negb _ && _). Qed.

Lemma frame_nz rv rv' i v :
  rv'.(X) = rv.(X) ->
  touches (if nz i then Some i else None) rv.(X)
    (if nz i then setX rv' i v else rv').(X).
Proof.
  intros E. unfold touches. destruct (nz i); [right|by left].
  exists i, v. split; [done|]. simpl. by rewrite E.
Qed.

Local Ltac intro_code := intros rv w ir cycle pc Hrv Hir.
Local Ltac mem_read :=
  match goal with
  | |- context [mem_read_w io ?rv ?w ?a] => destruct (mem_read_w io rv w a)
  | |- context [mem_read_s io ?rv ?w ?a] => destruct (mem_read_s io rv w a)
  | |- context [mem_read_b io ?rv ?w ?a] => destruct (mem_read_b io rv w a)
  end.

Lemma frame_amo f :
  code_frame (fun ir => if nz ir.(rd) then Some ir.(rd) else None) (amo_op (W:=W) io f).
Proof.
  intro_code. unfold amo_op. cbv zeta. apply frame_misalign. mem_read.
  split; [done | by apply frame_nz].
Qed.

Lemma frame_branch f : code_frame (fun _ => None) (BRANCH_FUNC (W:=W) f).
Proof.
  intro_code. unfold BRANCH_FUNC. destruct (f _ _); [destruct (branch_untaken ir)|];
    simpl; auto with wf.
Qed.

Lemma frame_fp_arith e : code_frame (fun _ => None) (fp_arith (W:=W) e).
Proof.
  intro_code. unfold fp_arith. destruct (set_rounding_mode _ _) eqn:E; [|done].
  destruct (e _ _ _). split; [done|]. left.
  rewrite X_set_fflag. simpl. by apply X_set_rounding_mode in E.
Qed.
Lemma frame_fp_to_int e :
  code_frame (fun ir => if nz ir.(rd) then Some ir.(rd) else None) (fp_to_int (W:=W) e).
Proof.
  intro_code. unfold fp_to_int. destruct (set_rounding_mode _ _) eqn:E; [|done].
  destruct (e _ _). split; [done|]. rewrite X_set_fflag. apply frame_nz. simpl.
  by apply X_set_rounding_mode in E.
Qed.
Lemma frame_fp_cmp e :
  code_frame (fun ir => if nz ir.(rd) then Some ir.(rd) else None) (fp_cmp (W:=W) e).
Proof.
  intro_code. unfold fp_cmp. destruct (e _ _). split; [done|]. rewrite X_set_fflag.
  by apply frame_nz.
Qed.
Lemma frame_minmax b : code_frame (fun _ => None) (fp_minmax (W:=W) sf b).
Proof.
  intro_code. unfold fp_minmax, raise. cbv zeta.
  destruct (if b then _ else _) as [[] fl]; [|destruct (f32_eq _ _ _)];
    destruct (_ || _); simpl; auto with wf.
Qed.
Lemma frame_wr_csr (ir : rv_insn) (w : W) pc (rv : riscv) (r : riscv * Z) :
  r.1.(X) = rv.(X) ->
  match wr_csr ir w pc r with
  | (rv', _, nextop pc') => pc' = pc /\ touches (Some ir.(rd)) rv.(X) rv'.(X)
  | _ => True
  end.
Proof.
  destruct r as [r v]. intros E. simpl in E. split; [done|]. rewrite <- E. auto with wf.
Qed.

Lemma frame_shift : code_frame (fun ir => Some ir.(rd)) (do_shift (W:=W)).
Proof.
  intro_code. unfold do_shift, shift_func. destruct (opcode ir); auto with wf.
Qed.

Definition impl_frame (d : rv_insn -> option Z) (len : Z) (h : @impl_t W) : Prop :=
  forall rv w ir cycle pc, rv_wf rv -> insn_wf ir ->
  match h rv w ir cycle pc with
  | (rv', _, Next cycle' pc') =>
      cycle' = u64 (cycle + 1) /\ pc' = u32 (pc + len) /\ touches (d ir) rv.(X) rv'.(X)
  | _ => True
  end.

Lemma RVOP_frame o d c : code_frame d c -> impl_frame d (insn_len o) (RVOP o c).
Proof.
  intros Hc rv w ir cycle pc Hrv Hir. unfold RVOP. cbv zeta.
  specialize (Hc rv w ir (u64 (cycle + 1)) pc Hrv Hir).
  destruct (c _ _ _ _ _) as [[rv' w'] []]; simpl in *; try done.
  destruct Hc as [-> ?]. done.
Qed.

Definition is_fused (o : insn_op) : bool :=
  match o with
  | rv_insn_fuse1 | rv_insn_fuse2 | rv_insn_fuse3 | rv_insn_fuse4 | rv_insn_fuse5 => true
  | _ => false
  end.

Lemma frame_sext n m :
  0 < n < 32 -> m = 2 ^ 32 - 2 ^ n ->
  code_frame (W:=W) (fun ir => Some ir.(rd)) (fun rv w ir cycle pc =>
   let rv := setX rv ir.(rd) (getX rv ir.(rs1) &. (2 ^ n - 1)) in
   let rv := if nz (getX rv ir.(rs1) &. (1 <<. (n - 1)))
             then setX rv ir.(rd) (getX rv ir.(rd) |. m) else rv in
   (rv, w, nextop pc)).
Proof. intros Hn Hm. intro_code. rewrite sextb_exec by done. auto with wf. Qed.
Lemma frame_orcb : code_frame (fun ir => Some ir.(rd)) (do_orcb (W:=W)).
Proof. intro_code. rewrite orcb_exec by done. auto with wf. Qed.
Lemma frame_csrai : code_frame (fun ir => Some ir.(rs1)) (do_csrai (W:=W)).
Proof.
  intro_code. unfold do_csrai. cbv zeta. split; [done|].
  rewrite (fold_setX rv ir.(rs1) _
    (fun i v => v |. shr32 (0x80000000 &. getX rv (rs1 ir)) i)); [auto with wf | |].
  - apply Hir.
  - apply Hrv.
Qed.

(** Handlers that never fall through. *)
Lemma frame_jump d rv (w : W) ir pc pc0 rv0 :
  match jump_taken rv w ir pc with
  | (rv', _, nextop pc') => pc' = pc0 /\ touches d rv0.(X) rv'.(X)
  | _ => True
  end.
Proof. unfold jump_taken. by destruct (branch_taken ir). Qed.
Lemma frame_bht d rv (w : W) ir pc pc0 rv0 :
  match LOOKUP_OR_UPDATE_BRANCH_HISTORY_TABLE find rv w ir pc with
  | (rv', _, nextop pc') => pc' = pc0 /\ touches d rv0.(X) rv'.(X)
  | _ => True
  end.
Proof.
  unfold LOOKUP_OR_UPDATE_BRANCH_HISTORY_TABLE. destruct (branch_table ir) as [bt|]; [|done].
  destruct (bht_find _ _); [by destruct (_ !!! _) | by destruct (find pc)].
Qed.
Lemma frame_cbranch f : code_frame (fun _ => None) (fun rv (w : W) ir cycle pc =>
  c_branch (f (getX rv ir.(rs1))) rv w ir cycle pc).
Proof.
  intro_code. unfold c_branch, jump_taken. destruct (f _).
  - destruct (branch_untaken ir); simpl; auto with wf.
  - by destruct (branch_taken ir).
Qed.

(** Every handler of the dispatch table but the fused ones counts one cycle,
    passes the address of the next instruction on and writes at most its
    destination. *)
Lemma dispatch_frame tt_direct o :
  is_fused o = false ->
  impl_frame (dest o) (insn_len o) (dispatch_table io sf find tt_direct o).
Proof.
  intros Ho. destruct o; try discriminate Ho; cbn [dispatch_table dest].
  all: try (apply RVOP_frame).
  all: lazymatch goal with
    | |- code_frame _ do_slli => apply frame_shift
    | |- code_frame _ do_srli => apply frame_shift
    | |- code_frame _ do_srai => apply frame_shift
    | |- code_frame _ do_orcb => apply frame_orcb
    | |- code_frame _ do_csrai => apply frame_csrai
    | |- code_frame _ do_sextb => apply (frame_sext 8); done
    | |- code_frame _ do_sexth => apply (frame_sext 16); done
    | |- code_frame _ (?c io) => idtac
    | |- code_frame _ (?c sf) =>
        first [ apply frame_fp_arith | apply frame_minmax | apply frame_fp_to_int
              | apply frame_fp_cmp ]
    | |- code_frame _ (?c find) => idtac
    | |- code_frame _ ?c => first [ apply frame_wr_rd | apply frame_branch | idtac ]
    | |- _ => idtac
    end.
  all: try apply (frame_cbranch nz); try apply (frame_cbranch (fun x => x =? 0)).
  all: try (lazymatch goal with |- context [?c io] => apply frame_amo end).
  all: intro_code;
    try (unfold do_lb, do_lh, do_lw, do_lbu, do_lhu, do_sb, do_sh, do_sw, do_flw, do_fsw,
      do_clw, do_csw, do_clwsp, do_cswsp, do_cflwsp, do_cfswsp, do_cflw, do_cfsw,
      do_lrw, do_scw; cbv zeta; try apply frame_misalign;
      try (destruct (nz (rd ir)) eqn:Hnz); try mem_read; cbn [dest];
      rewrite ?Hnz; auto with wf; fail).
  all: try (apply frame_wr_csr, X_csr_access).
  all: try (unfold do_ecall, do_ebreak, do_cebreak; cbv zeta;
            first [destruct (on_ecall _ _ _) | destruct (on_ebreak _ _ _)]; done).
  all: try (first [apply frame_jump | apply frame_bht]).
  all: try (split; [done|]; first [apply touches_setX | by apply frame_nz | apply touches_refl]).
  all: try done.
  unfold do_ttinsn. cbv zeta. by destruct (tt_direct _ _ _) as [? []].
Qed.
End frame.

(** ** Agreement *)

Record agrees (info : constopt_info_t) (rv : riscv) : Prop := mk_agrees {
  ag_len : length info.(is_constant) = 32%nat /\ length info.(const_val) = 32%nat;
  ag_val : forall r, 0 <= r < 32 -> is_const info r = true -> getX rv r = cval info r;
  ag_zero : is_const info 0 = true -> cval info 0 = 0
}.

Section agrees.
Context (info : constopt_info_t) (rv rv' : riscv).
Context (Hag : agrees info rv).

Lemma is_const_set r b j :
  0 <= r < 32 -> 0 <= j < 32 ->
  is_const (set_const info r b) j = if decide (r = j) then b else is_const info j.
Proof using Hag.
  intros. destruct (ag_len _ _ Hag). unfold is_const, set_const. simpl.
  destruct (decide (r = j)) as [->|].
  - apply list_lookup_total_insert_eq. lia.
  - apply list_lookup_total_insert_ne. lia.
Qed.
Lemma cval_set r v j :
  0 <= r < 32 -> 0 <= j < 32 ->
  cval (set_cval info r v) j = if decide (r = j) then u32 v else cval info j.
Proof using Hag.
  intros. destruct (ag_len _ _ Hag). unfold cval, set_cval. simpl.
  destruct (decide (r = j)) as [->|].
  - apply list_lookup_total_insert_eq. lia.
  - apply list_lookup_total_insert_ne. lia.
Qed.

(** What the frame of a handler says of a register it does not write. *)
Lemma touches_other d j :
  touches d rv.(X) rv'.(X) -> 0 <= j < 32 -> (forall i, d = Some i -> 0 <= i < 32) ->
  d <> Some j -> getX rv' j = getX rv j.
Proof using.
  intros [E|(i & v & -> & E)] Hj Hi Hd; unfold getX; rewrite E; [done|].
  specialize (Hi i eq_refl). apply list_lookup_total_insert_ne.
  intros ?. apply Hd. f_equal. lia.
Qed.

Lemma touches_ne r j :
  touches (Some r) rv.(X) rv'.(X) -> 0 <= r < 32 -> 0 <= j < 32 -> r <> j ->
  getX rv' j = getX rv j.
Proof using.
  intros Ht Hr Hj Hne. apply (touches_other (Some r)); try done.
  - by intros i [= <-].
  - by intros [= ->].
Qed.

Lemma agrees_none : touches None rv.(X) rv'.(X) -> agrees info rv'.
Proof using Hag.
  intros Ht. destruct Hag as [Hl Hv Hz]. split; [done | | done].
  intros r Hr Hc. rewrite (touches_other None r) by done. by apply Hv.
Qed.

Lemma agrees_unknown r :
  0 <= r < 32 -> touches (Some r) rv.(X) rv'.(X) -> agrees (unknown info r) rv'.
Proof using Hag.
  intros Hr Ht. split.
  - unfold unknown, set_const. simpl. rewrite length_insert. apply Hag.
  - intros j Hj. unfold unknown. rewrite is_const_set by done.
    destruct (decide (r = j)) as [|Hne]; [done|]. intros Hc.
    rewrite (touches_ne r j) by done. by apply Hag.
  - unfold unknown. rewrite is_const_set by lia. destruct (decide _); [done | apply Hag].
Qed.

Lemma agrees_known r v :
  0 < r < 32 -> touches (Some r) rv.(X) rv'.(X) -> getX rv' r = u32 v ->
  agrees (known info r v) rv'.
Proof using Hag.
  intros Hr Ht Hv. pose proof (agrees_unknown r ltac:(lia) Ht) as Hu.
  assert (length (is_constant (known info r v)) = 32%nat /\
          length (const_val (known info r v)) = 32%nat) as Hl.
  { unfold known, set_cval, set_const. simpl. rewrite !length_insert. apply Hag. }
  assert (forall j, 0 <= j < 32 -> is_const (known info r v) j =
            if decide (r = j) then true else is_const info j) as Hc.
  { intros. apply (is_const_set r true j); lia. }
  assert (forall j, 0 <= j < 32 -> cval (known info r v) j =
            if decide (r = j) then u32 v else cval info j) as Hcv.
  { intros. apply (cval_set r v j); lia. }
  split; [done | |].
  - intros j Hj. rewrite Hc, Hcv by lia. destruct (decide (r = j)) as [<-|Hne]; [done|].
    intros Hj'. rewrite (touches_ne r j) by (done || lia). by apply Hag.
  - rewrite Hc, Hcv by lia. destruct (decide (r = 0)); [lia | apply Hag].
Qed.

(** Recording a new value for a register that was known. *)
Lemma agrees_recorded r v :
  0 < r < 32 -> is_const info r = true ->
  touches (Some r) rv.(X) rv'.(X) -> getX rv' r = u32 v -> agrees (set_cval info r v) rv'.
Proof using Hag.
  intros Hr Hc Ht Hv.
  assert (set_cval info r v = known info r v) as ->; [|by apply agrees_known].
  unfold known, set_cval, set_const. simpl. f_equal. symmetry. apply list_insert_id.
  destruct (ag_len _ _ Hag). rewrite <- Hc. apply list_lookup_lookup_total_lt. lia.
Qed.

Lemma unknown_id r : 0 <= r < 32 -> is_const info r = false -> unknown info r = info.
Proof using Hag.
  intros Hr Hc. destruct (ag_len _ _ Hag). unfold unknown, set_const.
  rewrite list_insert_id; [by destruct info|].
  rewrite <- Hc. apply list_lookup_lookup_total_lt. lia.
Qed.
End agrees.

(** ** One instruction *)

(** The instructions that always write their destination; the decoder turns
    those with [x0] as destination into [nop]. *)
Definition comp (o : insn_op) : bool :=
  match o with
  | rv_insn_lui | rv_insn_auipc | rv_insn_caddi4spn | rv_insn_caddi | rv_insn_cli
  | rv_insn_caddi16sp | rv_insn_clui | rv_insn_csrli | rv_insn_csrai | rv_insn_candi
  | rv_insn_csub | rv_insn_cxor | rv_insn_cor | rv_insn_cand | rv_insn_cslli
  | rv_insn_cmv | rv_insn_cadd => true
  | _ => if isa_alu o is Some _ then true else false
  end.

Section sound.
Context {W : Type} (io : riscv_io W) (sf : softfloat) (find : Z -> option Z).
Context (tt_direct : Z -> Z -> W -> W * bool) (mailbox_stalled : Z -> W -> bool).
Notation call := (call_impl io sf find tt_direct mailbox_stalled).
Notation dispatch := (dispatch_table io sf find tt_direct).

(** The replacement does what the instruction does, and the table agrees
    with the registers afterwards. *)
Definition opt_sound (f : opt) (o : insn_op) : Prop :=
  forall ir info rv w cycle pc,
  ir.(opcode) = o -> ir.(impl) = do_op o -> ir.(insn_pc) = pc ->
  insn_wf ir -> rv_wf rv -> agrees info rv ->
  (comp o = true -> dest o ir <> Some 0) ->
  let '(ir', info') := f ir info in
  call ir'.(impl) rv w ir' cycle pc = dispatch o rv w ir cycle pc /\
  match dispatch o rv w ir cycle pc with
  | (rv', _, Next _ _) => agrees info' rv'
  | _ => True
  end.

(** Instructions that are left alone: the frame gives the agreement. *)
Lemma left_sound (g : rv_insn -> constopt_info_t -> constopt_info_t) o :
  is_fused o = false ->
  (forall ir info rv rv', insn_wf ir -> agrees info rv ->
     (comp o = true -> dest o ir <> Some 0) ->
     touches (dest o ir) rv.(X) rv'.(X) -> agrees (g ir info) rv') ->
  opt_sound (fun ir info => (ir, g ir info)) o.
Proof.
  intros Ho Hg ir info rv w cycle pc Eo Ei _ Hir Hrv Hag Hd. rewrite Ei. split; [done|].
  pose proof (dispatch_frame io sf find tt_direct o Ho rv w ir cycle pc Hrv Hir) as Hf.
  destruct (dispatch o rv w ir cycle pc) as [[rv' w'] []]; try done.
  destruct Hf as (_ & _ & Ht). by eapply Hg.
Qed.

Lemma keep_sound o : is_fused o = false -> dest o = (fun _ => None) -> opt_sound keep o.
Proof.
  intros Ho Hd. apply (left_sound (fun _ info => info)); [done|].
  intros ir info rv rv' _ Hag _. rewrite Hd. by apply agrees_none.
Qed.
Lemma forget_sound o :
  is_fused o = false -> dest o = (fun ir => Some ir.(rd)) -> opt_sound forget_rd o.
Proof.
  intros Ho Hd. apply (left_sound (fun ir info => unknown info ir.(rd))); [done|].
  intros ir info rv rv' [] Hag _. rewrite Hd. by apply agrees_unknown.
Qed.
Lemma forget_nz_sound o :
  is_fused o = false ->
  dest o = (fun ir => if nz ir.(rd) then Some ir.(rd) else None) ->
  opt_sound forget_rd_nz o.
Proof.
  intros Ho Hd. apply (left_sound (fun ir info =>
    if nz ir.(rd) then unknown info ir.(rd) else info)); [done|].
  intros ir info rv rv' [] Hag _. rewrite Hd.
  destruct (nz (rd ir)); [by apply agrees_unknown | by apply agrees_none].
Qed.
Lemma forget_comp_sound o :
  is_fused o = false -> comp o = true -> dest o = (fun ir => Some ir.(rd)) ->
  opt_sound forget_rd_nz o.
Proof.
  intros Ho Hc Hd. apply (left_sound (fun ir info =>
    if nz ir.(rd) then unknown info ir.(rd) else info)); [done|].
  intros ir info rv rv' [] Hag Hz. specialize (Hz Hc). rewrite Hd in *. unfold nz.
  destruct (Z.eqb_spec (rd ir) 0) as [E|]; [by rewrite E in Hz|]. by apply agrees_unknown.
Qed.
Lemma nop_sound : opt_sound keep rv_insn_nop.
Proof.
  intros ir info rv w cycle pc Eo Ei _ Hir Hrv Hag _. unfold keep. rewrite Ei.
  split; [done|]. simpl. destruct Hag as [Hl Hv Hz]. split; [done | | done].
  intros r Hr Hc. unfold rv_reg_zero. rewrite getX_setX by (lia || apply Hrv).
  destruct (Z.eqb_spec 0 r) as [<-|]; [|by apply Hv]. symmetry. by apply Hz.
Qed.

(** Instructions replaced by a load of the constant [v]: [sets o r v] says
    that [o] writes [v] to [r] and goes on. *)
Definition sets (o : insn_op) (ir : rv_insn) (rv : riscv) (w : W) (cycle pc r v : Z) : Prop :=
  dispatch o rv w ir cycle pc =
  (setX rv r v, w, Next (u64 (cycle + 1)) (u32 (pc + insn_len o))).

Lemma const_exec o' ir rv (w : W) cycle pc :
  o' = rv_insn_lui \/ o' = rv_insn_clui ->
  sets o' ir rv w cycle pc ir.(rd) (u32 ir.(imm)).
Proof. by intros [->| ->]. Qed.

Lemma const_step o o' ir rv (w : W) cycle pc r x :
  o' = rv_insn_lui \/ o' = rv_insn_clui -> insn_len o' = insn_len o ->
  sets o ir rv w cycle pc r (u32 x) ->
  forall ir', ir'.(rd) = r -> ir'.(imm) = s32 x -> ir'.(impl) = do_op o' ->
  call ir'.(impl) rv w ir' cycle pc = dispatch o rv w ir cycle pc.
Proof.
  intros Ho' Hl Hs ir' Er Ei Em. rewrite Em. cbn [call_impl].
  rewrite (const_exec o' ir') by done. rewrite Hs, Er, Ei, u32_s32, Hl. done.
Qed.

(** The value that the table gets for the register is the one written. *)
Lemma sets_known rv info r x :
  rv_wf rv -> agrees info rv -> 0 < r < 32 ->
  agrees (known info r (s32 x)) (setX rv r (u32 x)).
Proof.
  intros Hrv Hag Hr. apply (agrees_known info rv); [done | done | apply touches_setX |].
  rewrite u32_s32. apply getX_setX_eq; [lia | apply Hrv].
Qed.
Lemma sets_recorded rv info r x :
  rv_wf rv -> agrees info rv -> 0 < r < 32 -> is_const info r = true ->
  agrees (set_cval info r (s32 x)) (setX rv r (u32 x)).
Proof.
  intros Hrv Hag Hr Hc.
  apply (agrees_recorded info rv); [done | done | done | apply touches_setX |].
  rewrite u32_s32. apply getX_setX_eq; [lia | apply Hrv].
Qed.
Lemma sets_unknown rv info r x :
  agrees info rv -> 0 <= r < 32 -> agrees (unknown info r) (setX rv r x).
Proof. intros Hag Hr. apply (agrees_unknown info rv); [done | done | apply touches_setX]. Qed.

(** The value an instruction computes from operands that are known. *)
Definition computes (o : insn_op) (r : rv_insn -> Z) (x : riscv -> rv_insn -> Z -> Z) : Prop :=
  forall ir rv w cycle pc, ir.(opcode) = o -> insn_wf ir -> rv_wf rv ->
  sets o ir rv w cycle pc (r ir) (u32 (x rv ir pc)).

Lemma comp_pos o ir r :
  comp o = true -> (comp o = true -> dest o ir <> Some 0) -> dest o ir = Some r ->
  0 <= r < 32 -> 0 < r < 32.
Proof.
  intros Hc Hd E Hr. specialize (Hd Hc). rewrite E in Hd.
  destruct (decide (r = 0)) as [->|]; [done | lia].
Qed.

Lemma fold_ri_sound o f :
  comp o = true -> dest o = (fun ir => Some ir.(rd)) -> insn_len o = 4 ->
  computes o rd (fun rv ir _ => f (getX rv ir.(rs1)) ir.(imm)) ->
  opt_sound (fold_ri f) o.
Proof.
  intros Hc Hd Hl Hs ir info rv w cycle pc Eo Ei Ep Hir Hrv Hag Hz.
  assert (0 < ir.(rd) < 32) as Hr
    by (apply (comp_pos o ir); [done | done | by rewrite Hd | apply Hir]).
  specialize (Hs ir rv w cycle pc Eo Hir Hrv). unfold fold_ri.
  destruct (is_const info (rs1 ir)) eqn:Hk.
  - rewrite <- (ag_val _ _ Hag) by (done || apply Hir).
    split; [apply (const_step o rv_insn_lui ir _ _ _ _ ir.(rd) _ ltac:(auto) ltac:(done) Hs);
            done|].
    rewrite Hs. by apply sets_known.
  - rewrite Ei. split; [done|]. rewrite Hs. apply sets_unknown; [done | lia].
Qed.

Lemma fold_rr_sound o o' f :
  comp o = true -> dest o = (fun ir => Some ir.(rd)) -> insn_len o' = insn_len o ->
  o' = rv_insn_lui \/ o' = rv_insn_clui ->
  computes o rd (fun rv ir _ => f (getX rv ir.(rs1)) (getX rv ir.(rs2))) ->
  opt_sound (fold_rr o' f) o.
Proof.
  intros Hc Hd Hl Ho' Hs ir info rv w cycle pc Eo Ei Ep Hir Hrv Hag Hz.
  assert (0 < ir.(rd) < 32) as Hr
    by (apply (comp_pos o ir); [done | done | by rewrite Hd | apply Hir]).
  specialize (Hs ir rv w cycle pc Eo Hir Hrv). unfold fold_rr.
  destruct (is_const info (rs1 ir) && is_const info (rs2 ir)) eqn:Hk.
  - apply andb_true_iff in Hk as [H1 H2]. cbv zeta.
    change (cval (set_const info (rd ir) true)) with (cval info).
    rewrite <- (ag_val _ _ Hag _ (wf_rs1 _ Hir) H1), <- (ag_val _ _ Hag _ (wf_rs2 _ Hir) H2).
    split; [by apply (const_step o o' ir _ _ _ _ ir.(rd) _ Ho' Hl Hs)|].
    rewrite Hs. by apply sets_known.
  - rewrite Ei. split; [done|]. rewrite Hs. apply sets_unknown; [done | lia].
Qed.

Lemma fold_rd_sound o f :
  comp o = true -> dest o = (fun ir => Some ir.(rd)) -> insn_len o = 2 ->
  computes o rd (fun rv ir _ => f (getX rv ir.(rd)) ir.(imm)) ->
  opt_sound (fold_rd f) o.
Proof.
  intros Hc Hd Hl Hs ir info rv w cycle pc Eo Ei Ep Hir Hrv Hag Hz.
  assert (0 < ir.(rd) < 32) as Hr
    by (apply (comp_pos o ir); [done | done | by rewrite Hd | apply Hir]).
  specialize (Hs ir rv w cycle pc Eo Hir Hrv). unfold fold_rd.
  destruct (is_const info (rd ir)) eqn:Hk.
  - rewrite <- (ag_val _ _ Hag) by (done || apply Hir).
    split; [apply (const_step o rv_insn_clui ir _ _ _ _ ir.(rd) _ ltac:(auto) ltac:(done) Hs);
            done|].
    rewrite Hs. by apply sets_recorded.
  - rewrite Ei. split; [done|]. rewrite Hs.
    assert (unknown info (rd ir) = info) as <-; [|apply sets_unknown; [done | lia]].
    apply (unknown_id info rv); [done | lia | done].
Qed.

Lemma fold_rs1_sound o f :
  comp o = true -> dest o = (fun ir => Some ir.(rs1)) -> insn_len o = 2 ->
  computes o rs1 (fun rv ir _ => f (getX rv ir.(rs1)) ir) ->
  opt_sound (fold_rs1 f) o.
Proof.
  intros Hc Hd Hl Hs ir info rv w cycle pc Eo Ei Ep Hir Hrv Hag Hz.
  assert (0 < ir.(rs1) < 32) as Hr
    by (apply (comp_pos o ir); [done | done | by rewrite Hd | apply Hir]).
  specialize (Hs ir rv w cycle pc Eo Hir Hrv). unfold fold_rs1.
  destruct (is_const info (rs1 ir)) eqn:Hk.
  - rewrite <- (ag_val _ _ Hag) by (done || apply Hir).
    split; [apply (const_step o rv_insn_clui ir _ _ _ _ ir.(rs1) _ ltac:(auto) ltac:(done) Hs);
            done|].
    rewrite Hs. by apply sets_recorded.
  - rewrite Ei. split; [done|]. rewrite Hs.
    assert (unknown info (rs1 ir) = info) as <-; [|apply sets_unknown; [done | lia]].
    apply (unknown_id info rv); [done | lia | done].
Qed.

(** Instructions whose result is known whatever the table says. *)
Lemma known_rd_sound o v :
  comp o = true -> dest o = (fun ir => Some ir.(rd)) ->
  computes o rd (fun _ ir _ => v ir) ->
  opt_sound (known_rd v) o.
Proof.
  intros Hc Hd Hs ir info rv w cycle pc Eo Ei Ep Hir Hrv Hag Hz.
  assert (0 < ir.(rd) < 32) as Hr
    by (apply (comp_pos o ir); [done | done | by rewrite Hd | apply Hir]).
  specialize (Hs ir rv w cycle pc Eo Hir Hrv). unfold known_rd. rewrite Ei.
  split; [done|]. rewrite Hs.
  apply (agrees_known info rv); [done | done | apply touches_setX |].
  apply getX_setX_eq; [lia | apply Hrv].
Qed.

(** One operand in a register of its own: [c.addi4spn] and [c.mv]. *)
Lemma fold_one_sound o (s : rv_insn -> Z) x :
  comp o = true -> dest o = (fun ir => Some ir.(rd)) -> insn_len o = 2 ->
  (forall ir, insn_wf ir -> 0 <= s ir < 32) ->
  computes o rd (fun rv ir _ => x (getX rv (s ir)) ir) ->
  opt_sound (fun ir info =>
    if is_const info (s ir) then
      let ir := ir_set_imm ir (s32 (x (cval info (s ir)) ir)) in
      let info := known info ir.(rd) ir.(imm) in
      (become rv_insn_clui ir, info)
    else (ir, unknown info ir.(rd))) o.
Proof.
  intros Hc Hd Hl Hsr Hs ir info rv w cycle pc Eo Ei Ep Hir Hrv Hag Hz.
  assert (0 < ir.(rd) < 32) as Hr
    by (apply (comp_pos o ir); [done | done | by rewrite Hd | apply Hir]).
  specialize (Hs ir rv w cycle pc Eo Hir Hrv). cbv beta zeta.
  destruct (is_const info (s ir)) eqn:Hk.
  - rewrite <- (ag_val _ _ Hag) by (done || by apply Hsr).
    split; [apply (const_step o rv_insn_clui ir _ _ _ _ ir.(rd) _ ltac:(auto) ltac:(done) Hs);
            done|].
    rewrite Hs. by apply sets_known.
  - rewrite Ei. split; [done|]. rewrite Hs. apply sets_unknown; [done | lia].
Qed.

Lemma auipc_sound : opt_sound constopt_auipc rv_insn_auipc.
Proof.
  intros ir info rv w cycle pc Eo Ei Ep Hir Hrv Hag Hz.
  assert (0 < ir.(rd) < 32) as Hr
    by (apply (comp_pos rv_insn_auipc ir); [done | done | done | apply Hir]).
  assert (sets rv_insn_auipc ir rv w cycle pc ir.(rd) (u32 (ir.(imm) + pc))) as Hs by done.
  unfold constopt_auipc. cbv zeta. rewrite Ep.
  split; [apply (const_step rv_insn_auipc rv_insn_lui ir _ _ _ _ ir.(rd) _
            ltac:(auto) ltac:(done) Hs); done|].
  rewrite Hs. by apply sets_known.
Qed.

Lemma computes_wr_rd o e x :
  dispatch o = RVOP o (wr_rd e) ->
  (forall rv ir pc, rv_wf rv -> insn_wf ir -> e rv ir pc = u32 (x rv ir pc)) ->
  computes o rd x.
Proof.
  intros Hd He ir rv w cycle pc _ Hir Hrv. unfold sets. rewrite Hd.
  apply wr_rd_writes. by apply He.
Qed.

Lemma computes_shift o f :
  In o [rv_insn_slli; rv_insn_srli; rv_insn_srai] ->
  dispatch o = RVOP o do_shift ->
  (forall rv ir, rv_wf rv -> ir.(opcode) = o ->
    shift_func rv o ir.(rd) ir.(rs1) ir.(imm) =
    Some (setX rv ir.(rd) (u32 (f (getX rv ir.(rs1)) ir.(imm))))) ->
  computes o rd (fun rv ir _ => f (getX rv ir.(rs1)) ir.(imm)).
Proof.
  intros Ho Hd Hs ir rv w cycle pc Eo Hir Hrv. unfold sets. rewrite Hd.
  apply RVOP_writes. unfold do_shift. rewrite Eo, Hs by done. done.
Qed.

(** The loop of [c.srai] on an [int32_t]. *)
Lemma csrai_int32 (g : Z -> Z) l a :
  word a -> (forall i, word (g i)) ->
  u32 (fold_left (fun v i => s32 (u32 v |. g i)) l (s32 a)) =
  fold_left (fun v i => v |. g i) l a.
Proof.
  intros Ha Hg. revert a Ha. induction l as [|i l IH]; intros a Ha; simpl.
  - by rewrite u32_s32, u32_word.
  - rewrite u32_s32, (u32_word a) by done. apply IH. auto with word.
Qed.

Lemma computes_csrai : computes rv_insn_csrai rs1 (fun rv ir _ =>
  let mask := 0x80000000 &. getX rv ir.(rs1) in
  fold_left (fun v i => s32 (u32 v |. shr32 mask i)) (seqZ 0 ir.(shamt))
    (s32 (shr32 (getX rv ir.(rs1)) ir.(shamt)))).
Proof.
  intros ir rv w cycle pc Eo Hir Hrv. unfold sets. cbn [dispatch_table].
  unfold RVOP. cbv zeta. unfold do_csrai. cbv zeta.
  rewrite csrai_int32 by auto with word.
  rewrite (fold_setX rv ir.(rs1) _
    (fun i v => v |. shr32 (0x80000000 &. getX rv (rs1 ir)) i)); [done | |].
  - apply Hir.
  - apply Hrv.
Qed.

Lemma computes_rs1 o x :
  (forall ir rv w cycle pc, dispatch o rv w ir cycle pc =
    (setX rv ir.(rs1) (x rv ir), w, Next (u64 (cycle + 1)) (u32 (pc + insn_len o)))) ->
  (forall rv ir, rv_wf rv -> word (x rv ir)) ->
  computes o rs1 (fun rv ir _ => x rv ir).
Proof.
  intros Hd Hx ir rv w cycle pc _ Hir Hrv. unfold sets. rewrite Hd.
  by rewrite (u32_word (x rv ir)) by auto.
Qed.

Lemma u32_lor x y : u32 (x |. y) = u32 x |. u32 y.
Proof.
  apply Z.bits_inj'. intros i Hi. unfold u32.
  rewrite Z.lor_spec, !Z.testbit_mod_pow2, Z.lor_spec by lia. by destruct (i <? 32).
Qed.
Lemma u32_land x y : u32 (x &. y) = u32 x &. u32 y.
Proof.
  apply Z.bits_inj'. intros i Hi. unfold u32.
  rewrite Z.land_spec, !Z.testbit_mod_pow2, Z.land_spec by lia. by destruct (i <? 32).
Qed.
Lemma mulhu_signed p : u32 (u64 p >>. 32) = u32 (s64 p >>. 32).
Proof. shifts_to_arith. unfold u32, u64, s64, sext. norm_pow. bool_cases; div_lia. Qed.

Lemma constopt_sound o :
  insn_can_branch o = false -> is_fused o = false -> o <> rv_insn_scw ->
  opt_sound (constopt_table o) o.
Proof.
  intros Hb Hf Hscw. destruct o; try discriminate Hb; try discriminate Hf; try done;
    cbn [constopt_table].
  all: try exact nop_sound; try exact auipc_sound.
  all: try (by apply keep_sound).
  all: try (by apply forget_sound).
  all: try (by apply forget_nz_sound).
  all: try (by apply forget_comp_sound).
  all: try (apply fold_ri_sound; [done | done | done |]).
  all: try (apply fold_rr_sound; [done | done | done | auto |]).
  all: try (apply fold_rd_sound; [done | done | done |]).
  all: try (apply fold_rs1_sound; [done | done | done |]).
  all: try (apply known_rd_sound; [done | done |]).
  all: try apply computes_csrai.
  all: try (lazymatch goal with
    | |- opt_sound constopt_cmv _ =>
        apply (fold_one_sound rv_insn_cmv rs2 (fun v _ => v)); [done | done | done | apply wf_rs2 |]
    | |- opt_sound constopt_caddi4spn _ =>
        apply (fold_one_sound rv_insn_caddi4spn (fun _ => rv_reg_sp)
                 (fun v ir => v + u16 ir.(imm))); [done | done | done | done |]
    | |- computes rv_insn_slli _ _ => apply (computes_shift _ (fun v i => v <<. (i &. 0x1f)));
        [simpl; tauto | done | done]
    | |- computes rv_insn_srli _ _ => apply (computes_shift _ (fun v i => v >>. (i &. 0x1f)));
        [simpl; tauto | done | intros; simpl; rewrite u32_word by auto with word; done]
    | |- computes rv_insn_srai _ _ => apply (computes_shift _ (fun v i => s32 v >>. (i &. 0x1f)));
        [simpl; tauto | done | done]
    | |- computes _ rs1 _ => apply computes_rs1; [done | auto with word]
    end).
  all: try (eapply computes_wr_rd; [reflexivity|]; intros rv ir pc Hrv Hir; cbv beta zeta).
  all: try (f_equal; lia); try (by rewrite u64_mul_l); try apply mulhu_signed.
  all: try (rewrite ?(u32_lxor (s32 _)), ?(u32_lor (s32 _)), ?(u32_land (s32 _)), ?u32_s32;
            rewrite ?u32_word by auto with word; done).
  all: try (rewrite ?(Z.lxor_comm (u32 _)), ?(Z.lor_comm (u32 _)), ?(Z.land_comm (u32 _));
            symmetry; apply u32_word; auto using word_mul_low with word; fail).
  all: try (symmetry; apply u32_word; destruct (Z.eqb_spec (getX rv (rs2 ir)) 0);
            auto using word_div, word_mod with word).
  intros ir info rv w cycle pc Eo Ei _ _ _ _ _. unfold constopt_ttinsn, keep. rewrite Ei.
  split; [done|]. cbn [dispatch_table]. unfold do_ttinsn. cbv zeta.
  by destruct (tt_direct _ _ _) as [? []].
Qed.

(** ** Branches *)

(** Harts that differ at most in the flag that records the last branch. *)
Definition same_hart (rv rv' : riscv) : Prop :=
  set_is_branch_taken rv false = set_is_branch_taken rv' false.

#[local] Instance same_hart_equiv : Equivalence same_hart.
Proof.
  split; [done | intros ? ? H; exact (eq_sym H) | intros ? ? ? H H'; exact (eq_trans H H')].
Qed.

Definition same_result (r r' : riscv * W * block_end) : Prop :=
  same_hart r.1.1 r'.1.1 /\ r.1.2 = r'.1.2 /\ r.2 = r'.2.

Lemma same_result_refl r : same_result r r.
Proof. done. Qed.

Notation exec := (exec_block io sf find tt_direct mailbox_stalled).

Definition cond_branch (o : insn_op) : option (Z -> Z -> bool) :=
  match o with
  | rv_insn_beq => Some (fun x y => negb (x =? y))
  | rv_insn_bne => Some (fun x y => x =? y)
  | rv_insn_blt => Some (fun x y => s32 y <=? s32 x)
  | rv_insn_bge => Some (fun x y => s32 x <? s32 y)
  | rv_insn_bltu => Some (fun x y => y <=? x)
  | rv_insn_bgeu => Some (fun x y => x <? y)
  | _ => None
  end.
Definition cond_cbranch (o : insn_op) : option (Z -> bool) :=
  match o with
  | rv_insn_cbeqz => Some nz
  | rv_insn_cbnez => Some (fun c => c =? 0)
  | _ => None
  end.

(** What the decoder and the translator guarantee of an instruction at the
    address [pc] of a fresh block; [scw] is excluded (see [scw_unsound]). *)
Record insn_ok (ir : rv_insn) (pc : Z) : Prop := mk_insn_ok {
  ok_wf : insn_wf ir;
  ok_pc : ir.(insn_pc) = pc;
  ok_impl : ir.(impl) = do_op ir.(opcode) \/
            ir.(opcode) = rv_insn_lw /\ ir.(impl) = do_lw_mailbox_impl;
  ok_fused : is_fused ir.(opcode) = false;
  ok_scw : ir.(opcode) <> rv_insn_scw;
  ok_comp : comp ir.(opcode) = true -> dest ir.(opcode) ir <> Some 0;
  ok_branch : is_Some (cond_branch ir.(opcode)) -> ir.(rd) = 0;
  ok_fresh : ir.(branch_taken) = None /\ ir.(branch_untaken) = None
}.

Lemma branch_sound f ir info rv w cycle pc :
  cond_branch ir.(opcode) = Some f -> insn_ok ir pc -> agrees info rv ->
  ir.(impl) = do_op ir.(opcode) ->
  same_result (exec [ir] rv w cycle pc)
    (exec [(OPT_BRANCH_FUNC f ir info).1] rv w cycle pc).
Proof.
  intros Hf [Hwf _ _ _ _ _ Hb [Ht Hu]] Hag Ei. rewrite Hf in Hb. specialize (Hb ltac:(eauto)).
  unfold OPT_BRANCH_FUNC.
  destruct (is_const info (rs1 ir) && is_const info (rs2 ir)) eqn:Hk; [|apply same_result_refl].
  apply andb_true_iff in Hk as [H1 H2].
  rewrite <- (ag_val _ _ Hag _ (wf_rs1 _ Hwf) H1), <- (ag_val _ _ Hag _ (wf_rs2 _ Hwf) H2).
  assert (dispatch ir.(opcode) = RVOP ir.(opcode) (BRANCH_FUNC f) /\ insn_len ir.(opcode) = 4)
    as [Hd Hl].
  { destruct (opcode ir); try discriminate Hf; cbn [cond_branch] in Hf;
      apply (inj Some) in Hf; by subst f. }
  cbn [exec_block]. rewrite Ei. cbn [call_impl]. rewrite Hd.
  unfold RVOP, BRANCH_FUNC. cbv zeta. rewrite Hu, Hl.
  destruct (f _ _); cbn [fst become ir_set_impl ir_set_opcode ir_set_imm impl call_impl];
    unfold dispatch_table, RVOP, do_jal, jump_taken; cbn; rewrite Hb, Ht; done.
Qed.

Lemma cbranch_sound f ir info rv w cycle pc :
  cond_cbranch ir.(opcode) = Some f -> insn_ok ir pc -> agrees info rv ->
  ir.(impl) = do_op ir.(opcode) ->
  same_result (exec [ir] rv w cycle pc)
    (exec [(c_branch_opt f ir info).1] rv w cycle pc).
Proof.
  intros Hf [Hwf _ _ _ _ _ _ [Ht Hu]] Hag Ei.
  unfold c_branch_opt. destruct (is_const info (rs1 ir)) eqn:H1; [|apply same_result_refl].
  rewrite <- (ag_val _ _ Hag _ (wf_rs1 _ Hwf) H1).
  assert (insn_len ir.(opcode) = 2 /\
    dispatch ir.(opcode) = RVOP ir.(opcode) (fun rv w ir cycle pc =>
      c_branch (f (getX rv ir.(rs1))) rv w ir cycle pc)) as [Hl Hd].
  { destruct (opcode ir); try discriminate Hf; cbn [cond_cbranch] in Hf;
      apply (inj Some) in Hf; by subst f. }
  cbn [exec_block]. rewrite Ei. cbn [call_impl]. rewrite Hd.
  unfold RVOP, c_branch, jump_taken. cbv zeta. rewrite Hu, Ht, Hl.
  destruct (f _); cbn [fst become ir_set_impl ir_set_opcode ir_set_imm impl call_impl];
    unfold dispatch_table, RVOP, do_cj, jump_taken; cbn; rewrite Ht; done.
Qed.

(** ** Blocks *)

(** A fresh block: only its last instruction may end it early or load from
    the mailbox window. *)
Fixpoint block_ok (irs : list rv_insn) (pc : Z) : Prop :=
  match irs with
  | [] => True
  | ir :: rest =>
      insn_ok ir pc /\
      (rest = [] \/ insn_can_branch ir.(opcode) = false /\ ir.(impl) = do_op ir.(opcode)) /\
      block_ok rest (u32 (pc + insn_len ir.(opcode)))
  end.

(** The optimised instruction, where the original is not a branch. *)
Lemma constopt_step ir info rv w cycle pc :
  insn_ok ir pc -> insn_can_branch ir.(opcode) = false -> ir.(impl) = do_op ir.(opcode) ->
  rv_wf rv -> agrees info rv ->
  let '(ir', info') := constopt_table ir.(opcode) ir info in
  call ir'.(impl) rv w ir' cycle pc = dispatch ir.(opcode) rv w ir cycle pc /\
  match dispatch ir.(opcode) rv w ir cycle pc with
  | (rv', _, Next _ _) => agrees info' rv'
  | _ => True
  end.
Proof.
  intros [] Hb Ei Hrv Hag. by apply (constopt_sound (opcode ir)).
Qed.

Lemma constopt_last ir info rv w cycle pc :
  insn_ok ir pc -> rv_wf rv -> agrees info rv ->
  same_result (exec [ir] rv w cycle pc)
    (exec [(constopt_table ir.(opcode) ir info).1] rv w cycle pc).
Proof.
  intros Hok Hrv Hag. destruct (ok_impl _ _ Hok) as [Ei|[Eo Ei]].
  2:{ rewrite Eo. apply same_result_refl. }
  destruct (insn_can_branch ir.(opcode)) eqn:Hb.
  - destruct (cond_branch ir.(opcode)) as [f|] eqn:Hf.
    { assert (constopt_table ir.(opcode) = OPT_BRANCH_FUNC f) as ->;
        [|by apply branch_sound].
      destruct (opcode ir); try discriminate Hf; cbn [cond_branch] in Hf;
        apply (inj Some) in Hf; by subst f. }
    destruct (cond_cbranch ir.(opcode)) as [f|] eqn:Hc.
    { assert (constopt_table ir.(opcode) = c_branch_opt f) as ->;
        [|by apply cbranch_sound].
      destruct (opcode ir); try discriminate Hc; cbn [cond_cbranch] in Hc;
        apply (inj Some) in Hc; by subst f. }
    assert ((constopt_table ir.(opcode) ir info).1 = ir) as ->; [|apply same_result_refl].
    by destruct (opcode ir).
  - pose proof (constopt_step ir info rv w cycle pc Hok Hb Ei Hrv Hag) as H.
    destruct (constopt_table ir.(opcode) ir info) as [ir' info']. destruct H as [H _].
    cbn [exec_block fst]. rewrite H, Ei. apply same_result_refl.
Qed.

Context `{!IoOk io, !SfOk sf}.

Lemma optimize_sound irs info rv w cycle pc :
  rv_wf rv -> agrees info rv -> block_ok irs pc -> 0 <= cycle < 2 ^ 64 -> word pc ->
  same_result (exec irs rv w cycle pc) (exec (optimize_loop irs info) rv w cycle pc).
Proof using IoOk0 SfOk0.
  revert info rv w cycle pc.
  induction irs as [|ir irs IH]; intros info rv w cycle pc Hrv Hag Hok Hc Hpc;
    [apply same_result_refl|].
  destruct Hok as (Hi & Hlast & Hrest). cbn [optimize_loop].
  destruct irs as [|ir2 irs].
  { pose proof (constopt_last ir info rv w cycle pc Hi Hrv Hag) as H.
    by destruct (constopt_table ir.(opcode) ir info). }
  destruct Hlast as [|[Hb Ei]]; [done|].
  pose proof (constopt_step ir info rv w cycle pc Hi Hb Ei Hrv Hag) as H.
  destruct (constopt_table ir.(opcode) ir info) as [ir' info']. destruct H as [E Hag'].
  pose proof (dispatch_frame io sf find tt_direct ir.(opcode) (ok_fused _ _ Hi) rv w ir
    cycle pc Hrv (ok_wf _ _ Hi)) as Hf.
  pose proof (dispatch_wf io sf find tt_direct ir.(opcode) rv w ir cycle pc Hrv
    (ok_wf _ _ Hi) Hc Hpc) as Hw.
  remember (ir2 :: irs) as rest. cbn [exec_block]. rewrite E, Ei. cbn [call_impl].
  destruct (dispatch ir.(opcode) rv w ir cycle pc) as [[rv1 w1] []];
    try apply same_result_refl.
  simpl in Hw. destruct Hf as (-> & -> & _), Hw as (? & ? & ?). by apply IH.
Qed.

Lemma agrees_info0 rv : getX rv 0 = 0 -> agrees info0 rv.
Proof.
  intros H0. split; [done | | done].
  intros r Hr Hc. destruct (decide (r = 0)) as [->|]; [done|].
  unfold is_const, info0 in Hc. simpl in Hc.
  destruct (Z.to_nat r) as [|k] eqn:E; [lia|]. simpl in Hc.
  do 31 (destruct k as [|k]; [done|]). lia.
Qed.

End sound.

(** [lui x5, 0x1000; addi x6, x5, 4; bne x5, x6, 16] at 0x100. *)
Definition cp_insn (o : insn_op) (i d a b pc : Z) : rv_insn :=
  mk_rv_insn i d a b o 0 0 0 [] pc (do_op o) None None None.
Definition cp_block : list rv_insn :=
  [cp_insn rv_insn_lui 0x1000 5 0 0 0x100; cp_insn rv_insn_addi 4 6 5 0 0x104;
   cp_insn rv_insn_bne 16 0 5 6 0x108].


(** A defect of the pass: [CONSTOPT(scw, {})] does not invalidate [rd],
    which [sc.w] overwrites with 0.  For the block [lui x5, 0x1000; sc.w x5,
    x0, (x0); addi x6, x5, 0] the optimised code leaves [0x1000] in [x6]
    where the translated code leaves 0. *)
Theorem scw_unsound :
  let irs := [cp_insn rv_insn_lui 0x1000 5 0 0 0x100;
              cp_insn rv_insn_scw 0 5 0 0 0x104;
              cp_insn rv_insn_addi 0 6 5 0 0x108] in
  let run irs := exec_block no_tensix sf_zero (fun _ => None) (fun _ _ w => (w, true))
    (fun _ _ => false) irs (rv_zero 0) mem0 0 0x100 in
  getX (run irs).1.1 6 = 0 /\ getX (run (optimize_constant irs)).1.1 6 = 0x1000.
Proof. vm_compute. done. Qed.
