(* ===== verification/Blind.v ===== *)
(** * What a handler does not see

    Inside a block the fields [PC] and [csr_cycle] of the hart are out of
    date (the program counter and the cycle count travel as arguments), and
    the loop keeps [last_pc], [pre_pc] and [is_branch_taken] for itself.  [alike]
    harts agree on everything else.  Given callbacks that do not look at
    these fields either (class [IoBlind]), every handler takes alike harts
    to alike harts, to the same world and to the same program counter,
    whichever other blocks its instruction is chained to. *)

From Stdlib Require Import ZArith Lia Bool.
From stdpp Require Import base list numbers.
From S2P Require Import Prelude Decode Riscv Exec ExecWf Memory MemorySpec AluSpec ConstOpt ConstOptSpec.

(** ** Alike harts *)

(** Overwrite the five fields. *)
Definition over (rv : riscv) (pc cycle last : Z) (taken : bool) (pre : Z) : riscv :=
  mk_riscv rv.(halt) rv.(X) pc rv.(timer) rv.(F) rv.(csr_fcsr) cycle
    rv.(csr_time) rv.(csr_mstatus) rv.(csr_mtvec) rv.(csr_misa)
    rv.(csr_mtval) rv.(csr_mcause) rv.(csr_mscratch) rv.(csr_mepc)
    rv.(csr_mip) rv.(csr_mie) rv.(csr_mideleg) rv.(csr_medeleg)
    rv.(csr_mvendorid) rv.(csr_marchid) rv.(csr_mimpid) rv.(csr_mbadaddr)
    rv.(csr_sstatus) rv.(csr_stvec) rv.(csr_sip) rv.(csr_sie)
    rv.(csr_scounteren) rv.(csr_sscratch) rv.(csr_sepc) rv.(csr_scause)
    rv.(csr_stval) rv.(csr_satp) rv.(priv_mode) rv.(compressed) last taken
    rv.(core_id) pre rv.(allow_misalign) rv.(softfloat_exceptionFlags)
    rv.(softfloat_roundingMode).

Definition blur (rv : riscv) : riscv := over rv 0 0 0 false 0.
Definition alike (rv rv' : riscv) : Prop := blur rv = blur rv'.

#[export] Instance alike_equiv : Equivalence alike.
Proof. split; unfold alike; [done | by intros ?? -> | by intros ??? -> ->]. Qed.

Lemma alike_over rv pc cycle last taken pre :
  alike rv (over rv pc cycle last taken pre).
Proof. done. Qed.
Create HintDb blind.
#[export] Hint Resolve alike_over : blind.

Lemma over_self rv :
  over rv rv.(PC) rv.(csr_cycle) rv.(last_pc) rv.(is_branch_taken) rv.(pre_pc) = rv.
Proof. by destruct rv. Qed.

Lemma alike_inv rv rv' :
  alike rv rv' ->
  rv' = over rv rv'.(PC) rv'.(csr_cycle) rv'.(last_pc) rv'.(is_branch_taken) rv'.(pre_pc).
Proof.
  intros H. rewrite <- (over_self rv') at 1.
  change (over (blur rv') (PC rv') (csr_cycle rv') (last_pc rv') (is_branch_taken rv') (pre_pc rv') =
          over (blur rv) (PC rv') (csr_cycle rv') (last_pc rv') (is_branch_taken rv') (pre_pc rv')).
  by rewrite H.
Qed.

Lemma alike_wf rv rv' : alike rv rv' -> word rv'.(PC) -> 0 <= rv'.(csr_cycle) < 2 ^ 64 ->
  rv_wf rv -> rv_wf rv'.
Proof. intros H ? ? Hwf. rewrite (alike_inv _ _ H). destruct Hwf. by constructor. Qed.

(** ** Chained instructions *)

(** The same instruction with other links to blocks. *)
Definition rechain (ir : rv_insn) (taken untaken : option Z)
    (bt : option branch_history_table) : rv_insn :=
  ir_set_branch_table (ir_set_branch_untaken (ir_set_branch_taken ir taken) untaken) bt.

(** No entry of the history table matches an even address without having a
    target. *)
Definition bht_live (bt : branch_history_table) : Prop :=
  forall pc i, Z.even pc = true -> bht_find bt.(bt_PC) pc = Some i ->
  is_Some (bt.(bt_target) !!! i).
Definition table_live (o : insn_op) (bt : option branch_history_table) : Prop :=
  match o with
  | rv_insn_jalr => exists b, bt = Some b /\ bht_live b
  | _ => True
  end.

(** ** Control *)

Inductive ctl : Type := Go (pc : Z) | Fails | Bad.

(** Where a handler sends control, from its outcome or its result. *)
Definition ctl_of (len : Z) (r : riscv * outcome) : ctl :=
  match r.2 with
  | nextop pc => Go (u32 (pc + len))
  | end_op pc | tail _ pc _ => Go pc
  | ret true => Go r.1.(PC)
  | ret false => Fails
  | unreachable => Bad
  end.
Definition goes (r : riscv * fin) : ctl :=
  match r.2 with
  | Next _ pc | Tail _ _ pc _ => Go pc
  | Done true => Go r.1.(PC)
  | Done false => Fails
  | Undefined => Bad
  end.

(** ** Callbacks that do not look at the five fields

    The system callbacks run with an up-to-date program counter. *)
Class IoBlind {W : Type} (io : riscv_io W) : Prop := {
  bl_ifetch : forall rv p c l t q w a,
    io.(mem_ifetch) (over rv p c l t q) w a = io.(mem_ifetch) rv w a;
  bl_read_w : forall rv p c l t q w a,
    io.(mem_read_w) (over rv p c l t q) w a = io.(mem_read_w) rv w a;
  bl_read_s : forall rv p c l t q w a,
    io.(mem_read_s) (over rv p c l t q) w a = io.(mem_read_s) rv w a;
  bl_read_b : forall rv p c l t q w a,
    io.(mem_read_b) (over rv p c l t q) w a = io.(mem_read_b) rv w a;
  bl_write_w : forall rv p c l t q w a v,
    io.(mem_write_w) (over rv p c l t q) w a v = io.(mem_write_w) rv w a v;
  bl_write_s : forall rv p c l t q w a v,
    io.(mem_write_s) (over rv p c l t q) w a v = io.(mem_write_s) rv w a v;
  bl_write_b : forall rv p c l t q w a v,
    io.(mem_write_b) (over rv p c l t q) w a v = io.(mem_write_b) rv w a v;
  bl_ecall : forall rv c l t q w,
    let r := io.(on_ecall) rv w in
    let r' := io.(on_ecall) (over rv rv.(PC) c l t q) w in
    r'.2 = r.2 /\ alike r.1 r'.1 /\ r'.1.(PC) = r.1.(PC);
  bl_ebreak : forall rv c l t q w,
    let r := io.(on_ebreak) rv w in
    let r' := io.(on_ebreak) (over rv rv.(PC) c l t q) w in
    r'.2 = r.2 /\ alike r.1 r'.1 /\ r'.1.(PC) = r.1.(PC);
  bl_trap : forall rv c l t q,
    alike (io.(on_trap) rv) (io.(on_trap) (over rv rv.(PC) c l t q))
}.

(** CSRs that alias the cycle counter. *)
Definition is_counter (csr : Z) : bool :=
  let c := csr &. 0xFFF in
  (c =? CSR_CYCLE) || (c =? CSR_CYCLEH) || (c =? CSR_INSTRET) || (c =? CSR_INSTRETH).

Definition is_csr_op (o : insn_op) : bool :=
  match o with
  | rv_insn_csrrw | rv_insn_csrrs | rv_insn_csrrc | rv_insn_csrrwi | rv_insn_csrrsi
  | rv_insn_csrrci => true
  | _ => false
  end.

(** Instructions that do not read the cycle counter. *)
Definition no_counter (ir : rv_insn) : Prop :=
  is_csr_op ir.(opcode) = true -> is_counter (u32 ir.(imm)) = false.

Section csr.
Context (rv : riscv) (p c l : Z) (t : bool) (q : Z).
Notation over rv := (over rv p c l t q).

Lemma csr_get_ptr_over csr :
  csr_get_ptr (over rv) csr = (over (csr_get_ptr rv csr).1, (csr_get_ptr rv csr).2).
Proof. unfold csr_get_ptr. cbv zeta. by repeat case_match. Qed.

Lemma csr_get_ptr_cycle csr :
  is_counter csr = false -> forall b, (csr_get_ptr rv csr).2 <> Some (p_cycle b).
Proof.
  unfold is_counter. cbv zeta. rewrite !orb_false_iff. intros [[[H1 H2] H3] H4] b.
  unfold csr_get_ptr. cbv zeta. rewrite H1, H2, H3, H4. by repeat case_match.
Qed.

Lemma csr_load_over ptr : (forall b, ptr <> p_cycle b) -> csr_load (over rv) ptr = csr_load rv ptr.
Proof. intros H. destruct ptr; try done. by destruct (H hi). Qed.
Lemma csr_store_over ptr v :
  (forall b, ptr <> p_cycle b) -> csr_store (over rv) ptr v = over (csr_store rv ptr v).
Proof. intros H. destruct ptr; try done. by destruct (H hi). Qed.
End csr.

(** ** Handlers *)

Section blind.
Context {W : Type} (io : riscv_io W) (sf : softfloat) (find find' : Z -> option Z).
Context (tt_direct : Z -> Z -> W -> W * bool).
Context `{!IoBlind io}.

Definition same_out (len : Z) (r r' : riscv * W * outcome) : Prop :=
  r'.1.2 = r.1.2 /\ alike r.1.1 r'.1.1 /\
  ctl_of len (r'.1.1, r'.2) = ctl_of len (r.1.1, r.2).

(** [body'] is [body] up to the lookup in the block map. *)
Definition blind (o : insn_op) (body body' : @code W) : Prop :=
  forall rv w ir cycle cycle' pc p c l t q x y z,
  no_counter ir -> ir.(opcode) = o ->
  table_live o ir.(branch_table) -> table_live o z ->
  same_out (insn_len o) (body rv w ir cycle pc)
    (body' (over rv p c l t q) w (rechain ir x y z) cycle' pc).

Ltac intro_blind := intros rv w ir cycle cycle' pc p c l t q x y z Hc Ho Hz Hz'.

(** The second hart is the first with the fields overwritten. *)
Ltac same_over := split; [reflexivity|]; split; [apply alike_over | reflexivity].

Lemma blind_wr_rd o e :
  (forall rv ir pc p c l t q x y z, e (over rv p c l t q) (rechain ir x y z) pc = e rv ir pc) ->
  blind o (wr_rd e) (wr_rd e).
Proof. intros He. intro_blind. unfold wr_rd. rewrite He. done. Qed.

(** The state a handler stores before it calls out. *)
Definition stored (rv : riscv) (compress : bool) (cycle pc : Z) : riscv :=
  set_PC (set_csr_cycle (set_compressed rv compress) cycle) pc.
Lemma stored_over rv p c l t q compress cycle cycle' pc :
  set_PC (set_csr_cycle (set_compressed (over rv p c l t q) compress) cycle') pc =
  over (stored rv compress cycle pc) pc cycle' l t q.
Proof. done. Qed.

Lemma trap_over rv p c l t q cause tval :
  p = rv.(PC) ->
  alike (SET_CAUSE_AND_TVAL_THEN_TRAP io.(on_trap) rv cause tval)
    (SET_CAUSE_AND_TVAL_THEN_TRAP io.(on_trap) (over rv p c l t q) cause tval).
Proof using IoBlind0.
  intros ->. unfold SET_CAUSE_AND_TVAL_THEN_TRAP, RV_PRIV_IS_U_OR_S_MODE. cbv zeta.
  change (priv_mode (over rv (PC rv) c l t q)) with (priv_mode rv).
  destruct (priv_mode rv <=? RV_PRIV_S_MODE).
  - apply (bl_trap (set_csr_stval (set_csr_scause rv cause) tval) c l t q).
  - apply (bl_trap (set_csr_mtval (set_csr_mcause rv cause) tval) c l t q).
Qed.

(** The trap of a misaligned access runs with the same program counter. *)
Lemma blind_misalign len rv w cycle cycle' pc addr mask type compress k k' p c l t q :
  same_out len k k' ->
  same_out len (RV_EXC_MISALIGN_HANDLER io rv w cycle pc addr mask type compress k)
    (RV_EXC_MISALIGN_HANDLER io (over rv p c l t q) w cycle' pc addr mask type compress k').
Proof using IoBlind0.
  intros Hk. unfold RV_EXC_MISALIGN_HANDLER.
  change (allow_misalign (over rv p c l t q)) with (allow_misalign rv).
  destruct (negb (allow_misalign rv) && nz (addr &. mask)); [|done].
  split; [done|]. split; [|done]. cbn [fst snd].
  rewrite (stored_over rv p c l t q compress cycle cycle' pc). by apply trap_over.
Qed.

Lemma blind_amo o f : blind o (amo_op io f) (amo_op io f).
Proof using IoBlind0.
  intro_blind. unfold amo_op. cbv zeta. apply blind_misalign. rewrite bl_read_w.
  change (getX (over rv p c l t q) (rs1 (rechain ir x y z))) with (getX rv (rs1 ir)).
  destruct (mem_read_w _ _ _ _) as [v w']. simpl.
  destruct (nz (rd ir)); cbn; split; [|done| |done]; cbn.
  - apply (bl_write_w (setX rv (rd ir) v) p c l t q).
  - apply bl_write_w.
Qed.

Lemma blind_branch o f : insn_len o = 4 -> blind o (BRANCH_FUNC f) (BRANCH_FUNC f).
Proof.
  intros Hl. intro_blind. unfold BRANCH_FUNC.
  change (getX (over rv p c l t q) (rs1 (rechain ir x y z))) with (getX rv (rs1 ir)).
  change (getX (over rv p c l t q) (rs2 (rechain ir x y z))) with (getX rv (rs2 ir)).
  unfold same_out. rewrite Hl.
  destruct (f _ _); [|done]. simpl. by destruct (branch_untaken ir), y.
Qed.

Definition add_flag (b : bool) (flag : Z) (rv : riscv) : riscv :=
  if b then set_csr_fcsr rv (rv.(csr_fcsr) |. flag) else rv.
Lemma add_flag_over b flag rv p c l t q :
  add_flag b flag (over rv p c l t q) = over (add_flag b flag rv) p c l t q.
Proof. by destruct b. Qed.
Lemma set_fflag_flags rv :
  set_fflag rv =
  let bit i := nz (rv.(softfloat_exceptionFlags) &. i) in
  set_softfloat_exceptionFlags
    (add_flag (bit 1) FFLAG_INEXACT (add_flag (bit 2) FFLAG_UNDERFLOW
      (add_flag (bit 4) FFLAG_OVERFLOW (add_flag (bit 8) FFLAG_DIV_BY_ZERO
        (add_flag (bit 16) FFLAG_INVALID_OP rv))))) 0.
Proof. reflexivity. Qed.
Lemma set_fflag_over rv p c l t q : set_fflag (over rv p c l t q) = over (set_fflag rv) p c l t q.
Proof.
  rewrite !set_fflag_flags. cbv zeta.
  change (softfloat_exceptionFlags (over rv p c l t q)) with (softfloat_exceptionFlags rv).
  rewrite !add_flag_over. reflexivity.
Qed.
Lemma set_rounding_mode_over rv p c l t q m :
  set_rounding_mode (over rv p c l t q) m = (fun rv => over rv p c l t q) <$> set_rounding_mode rv m.
Proof. unfold set_rounding_mode. cbv zeta. simpl. by repeat case_match. Qed.

Lemma blind_fp_arith o e :
  (forall m rv ir p c l t q x y z, e m (over rv p c l t q) (rechain ir x y z) = e m rv ir) ->
  blind o (fp_arith e) (fp_arith e).
Proof.
  intros He. intro_blind. unfold fp_arith. rewrite set_rounding_mode_over.
  change (rm (rechain ir x y z)) with (rm ir).
  destruct (set_rounding_mode rv (rm ir)) as [rv1|]; simpl; [|done]. rewrite He.
  change (softfloat_roundingMode (over rv1 p c l t q)) with (softfloat_roundingMode rv1).
  destruct (e _ _ _) as [v fl].
  change (setF (raise (over rv1 p c l t q) fl) (rd ir) v)
    with (over (setF (raise rv1 fl) (rd ir) v) p c l t q).
  rewrite set_fflag_over. same_over.
Qed.

Lemma setX_nz_over rv p c l t q r v : setX_nz (over rv p c l t q) r v = over (setX_nz rv r v) p c l t q.
Proof. unfold setX_nz. by case_match. Qed.

Lemma blind_fp_to_int o e : blind o (fp_to_int e) (fp_to_int e).
Proof.
  intro_blind. unfold fp_to_int. rewrite set_rounding_mode_over.
  change (rm (rechain ir x y z)) with (rm ir).
  destruct (set_rounding_mode rv (rm ir)) as [rv1|]; simpl; [|done].
  change (getF (over rv1 p c l t q)) with (getF rv1).
  change (softfloat_roundingMode (over rv1 p c l t q)) with (softfloat_roundingMode rv1).
  destruct (e _ _) as [v fl].
  change (raise (over rv1 p c l t q) fl) with (over (raise rv1 fl) p c l t q).
  rewrite setX_nz_over, set_fflag_over. same_over.
Qed.
Lemma blind_fp_cmp o e : blind o (fp_cmp e) (fp_cmp e).
Proof.
  intro_blind. unfold fp_cmp. change (getF (over rv p c l t q)) with (getF rv). simpl.
  destruct (e _ _) as [b fl].
  change (raise (over rv p c l t q) fl) with (over (raise rv fl) p c l t q).
  rewrite setX_nz_over, set_fflag_over. same_over.
Qed.
Lemma blind_minmax o s : blind o (fp_minmax sf s) (fp_minmax sf s).
Proof.
  intro_blind. unfold fp_minmax. cbv zeta. change (getF (over rv p c l t q)) with (getF rv).
  cbn [rs1 rs2 rd rechain ir_set_branch_table ir_set_branch_untaken ir_set_branch_taken].
  destruct (f32_isSignalingNaN sf (getF rv (rs1 ir)) || f32_isSignalingNaN sf (getF rv (rs2 ir)));
  destruct (if s then f32_lt_quiet sf (getF rv (rs2 ir)) (getF rv (rs1 ir))
            else f32_lt_quiet sf (getF rv (rs1 ir)) (getF rv (rs2 ir))) as [[] fl];
  try destruct (f32_eq sf (getF rv (rs1 ir)) (getF rv (rs2 ir))) as [e fl']; done.
Qed.

Lemma blind_shift o : blind o do_shift do_shift.
Proof.
  intro_blind. unfold do_shift, shift_func. change (getX (over rv p c l t q)) with (getX rv).
  cbn [rs1 imm rd opcode rechain ir_set_branch_table ir_set_branch_untaken ir_set_branch_taken].
  destruct (opcode ir); done.
Qed.

Lemma blind_ext o n m k : blind o
  (fun rv w ir _ pc =>
    let rv := setX rv ir.(rd) (getX rv ir.(rs1) &. n) in
    let rv := if nz (getX rv ir.(rs1) &. m) then setX rv ir.(rd) (getX rv ir.(rd) |. k)
              else rv in (rv, w, nextop pc))
  (fun rv w ir _ pc =>
    let rv := setX rv ir.(rd) (getX rv ir.(rs1) &. n) in
    let rv := if nz (getX rv ir.(rs1) &. m) then setX rv ir.(rd) (getX rv ir.(rd) |. k)
              else rv in (rv, w, nextop pc)).
Proof.
  intro_blind. cbv zeta.
  change (getX (over rv p c l t q) (rs1 (rechain ir x y z))) with (getX rv (rs1 ir)).
  change (setX (over rv p c l t q) (rd (rechain ir x y z)) (getX rv (rs1 ir) &. n))
    with (over (setX rv (rd ir) (getX rv (rs1 ir) &. n)) p c l t q).
  set (rv1 := setX rv _ _). change (getX (over rv1 p c l t q)) with (getX rv1). simpl.
  by destruct (nz _).
Qed.

Lemma fold_over {A} (f : riscv -> A -> riscv) xs rv p c l t q :
  (forall rv a, f (over rv p c l t q) a = over (f rv a) p c l t q) ->
  fold_left f xs (over rv p c l t q) = over (fold_left f xs rv) p c l t q.
Proof. intros Hf. revert rv. induction xs as [|a xs IH]; intros rv; simpl; [done|]. by rewrite Hf, IH. Qed.

Lemma blind_orcb o : blind o do_orcb do_orcb.
Proof.
  intro_blind. unfold do_orcb. cbv zeta.
  change (setX (over rv p c l t q) (rd (rechain ir x y z)) 0)
    with (over (setX rv (rd ir) 0) p c l t q).
  rewrite fold_over; [same_over|]. intros rv1 a. simpl. by case_match.
Qed.

(** CSR instructions that leave the counters alone. *)
Lemma csr_access_over rv csr v p c l t q :
  is_counter csr = false ->
  csr_csrrw (over rv p c l t q) csr v = (over (csr_csrrw rv csr v).1 p c l t q, (csr_csrrw rv csr v).2) /\
  csr_csrrs (over rv p c l t q) csr v = (over (csr_csrrs rv csr v).1 p c l t q, (csr_csrrs rv csr v).2) /\
  csr_csrrc (over rv p c l t q) csr v = (over (csr_csrrc rv csr v).1 p c l t q, (csr_csrrc rv csr v).2).
Proof.
  intros Hc. pose proof (csr_get_ptr_cycle rv csr Hc) as Hp.
  unfold csr_csrrw, csr_csrrs, csr_csrrc. rewrite csr_get_ptr_over.
  destruct (csr_get_ptr rv csr) as [rv1 [ptr|]]; [|done]. cbn [fst snd] in *.
  assert (forall b, ptr <> p_cycle b) as Hptr by (intros b ->; by apply (Hp b)).
  rewrite csr_load_over by done. cbv zeta. rewrite !csr_store_over by done. done.
Qed.

Lemma blind_wr_csr o ir w pc p c l t q x y z (r : riscv * Z) :
  same_out (insn_len o) (wr_csr ir w pc r)
    (wr_csr (rechain ir x y z) w pc (over r.1 p c l t q, r.2)).
Proof.
  destruct r as [rv v]. unfold wr_csr. cbn [fst snd].
  change (getX (over rv p c l t q)) with (getX rv).
  cbn [rd rechain ir_set_branch_table ir_set_branch_untaken ir_set_branch_taken].
  change (setX (over rv p c l t q) (rd ir)) with (fun v => over (setX rv (rd ir) v) p c l t q).
  same_over.
Qed.

Lemma blind_jal : blind rv_insn_jal do_jal do_jal.
Proof.
  intro_blind. unfold do_jal, jump_taken. cbv zeta.
  cbn [rd imm branch_taken rechain ir_set_branch_table ir_set_branch_untaken ir_set_branch_taken].
  destruct (nz (rd ir)), (branch_taken ir), x; done.
Qed.

Lemma even_masked a : word a -> Z.even (a &. u32 (Z.lnot 1)) = true.
Proof.
  intros _. rewrite <- Z.negb_odd, <- Z.bit0_odd, Z.land_spec. by rewrite andb_false_r.
Qed.

Lemma lookup_bht find0 rv (w : W) ir pc bt :
  ir.(branch_table) = Some bt -> bht_live bt -> Z.even pc = true ->
  let r := LOOKUP_OR_UPDATE_BRANCH_HISTORY_TABLE find0 rv w ir pc in
  r.1 = (rv, w) /\ ctl_of 4 (r.1.1, r.2) = Go pc.
Proof.
  intros Hb Hl He. unfold LOOKUP_OR_UPDATE_BRANCH_HISTORY_TABLE. rewrite Hb. cbv zeta.
  destruct (bht_find (bt_PC bt) pc) as [i|] eqn:Ei.
  - destruct (Hl pc i He Ei) as [tg ->]. done.
  - by destruct (find0 pc).
Qed.

Lemma blind_jalr : blind rv_insn_jalr (do_jalr find) (do_jalr find').
Proof.
  intro_blind. destruct Hz as (bt & Hb & Hl). destruct Hz' as (bt' & -> & Hl').
  unfold do_jalr. cbv zeta. change (getX (over rv p c l t q)) with (getX rv).
  cbn [rd rs1 imm rechain ir_set_branch_table ir_set_branch_untaken ir_set_branch_taken].
  set (a := u32 (getX rv (rs1 ir) + imm ir) &. u32 (Z.lnot 1)).
  assert (Z.even a = true) as He by apply even_masked, word_u32.
  set (rv1 := if nz (rd ir) then setX rv (rd ir) (u32 (pc + 4)) else rv).
  assert ((if nz (rd ir) then setX (over rv p c l t q) (rd ir) (u32 (pc + 4))
           else over rv p c l t q) = over rv1 p c l t q) as -> by (unfold rv1; by destruct (nz _)).
  pose proof (lookup_bht find rv1 w ir a bt Hb Hl He) as H1. cbv zeta in H1.
  pose proof (lookup_bht find' (over rv1 p c l t q) w (rechain ir x y (Some bt')) a bt'
    eq_refl Hl' He) as H2. cbv zeta in H2.
  destruct (LOOKUP_OR_UPDATE_BRANCH_HISTORY_TABLE find _ _ _ _) as [[r w1] o1].
  destruct (LOOKUP_OR_UPDATE_BRANCH_HISTORY_TABLE find' _ _ _ _) as [[r' w2] o2].
  destruct H1 as [[= -> ->] H1], H2 as [[= -> ->] H2]. cbn [fst snd] in *.
  split; [done|]. split; [apply alike_over|]. cbn [fst snd insn_len]. by rewrite H1, H2.
Qed.

(** ** All handlers *)

Definition same_step (r r' : riscv * W * fin) : Prop :=
  r'.1.2 = r.1.2 /\ alike r.1.1 r'.1.1 /\ goes (r'.1.1, r'.2) = goes (r.1.1, r.2).

Definition blind_impl (o : insn_op) (h h' : @impl_t W) : Prop :=
  forall rv w ir cycle cycle' pc p c l t q x y z,
  no_counter ir -> ir.(opcode) = o ->
  table_live o ir.(branch_table) -> table_live o z ->
  same_step (h rv w ir cycle pc) (h' (over rv p c l t q) w (rechain ir x y z) cycle' pc).

Lemma RVOP_blind o body body' : blind o body body' -> blind_impl o (RVOP o body) (RVOP o body').
Proof.
  intros Hb. intro_blind.
  specialize (Hb rv w ir (u64 (cycle + 1)) (u64 (cycle' + 1)) pc p c l t q x y z Hc Ho Hz Hz').
  unfold RVOP. cbv zeta. destruct (body _ _ _ _ _) as [[rv1 w1] out1].
  destruct (body' _ _ _ _ _) as [[rv2 w2] out2]. destruct Hb as (Hw & Ha & Hg). cbn [fst snd] in *.
  destruct out1 as [| |[]| |], out2 as [| |[]| |]; try discriminate Hg; done.
Qed.

Ltac simpl_ir :=
  cbn [imm rd rs1 rs2 opcode shamt rm rechain ir_set_branch_table ir_set_branch_untaken
       ir_set_branch_taken].

Lemma getX_over rv p c l t q r : getX (over rv p c l t q) r = getX rv r.
Proof. done. Qed.
Lemma load_addr_over rv ir p c l t q x y z :
  load_addr (over rv p c l t q) (rechain ir x y z) = load_addr rv ir.
Proof. done. Qed.

Ltac mem_over :=
  intro_blind; cbv zeta; rewrite ?load_addr_over, ?getX_over; simpl_ir;
  try apply blind_misalign;
  rewrite ?bl_read_w, ?bl_read_s, ?bl_read_b, ?bl_write_w, ?bl_write_s, ?bl_write_b;
  try match goal with |- context [nz ?r] => destruct (nz r) end;
  rewrite ?bl_read_w;
  try match goal with
      | |- context [mem_read_w ?i ?r ?ww ?a] => destruct (mem_read_w i r ww a)
      | |- context [mem_read_s ?i ?r ?ww ?a] => destruct (mem_read_s i r ww a)
      | |- context [mem_read_b ?i ?r ?ww ?a] => destruct (mem_read_b i r ww a)
      end;
  done.

Lemma blind_mem_ops :
  Forall (fun '(o, f) => blind o (f io) (f io))
    [(rv_insn_lb, do_lb); (rv_insn_lh, do_lh); (rv_insn_lw, do_lw); (rv_insn_lbu, do_lbu);
     (rv_insn_lhu, do_lhu); (rv_insn_sb, do_sb); (rv_insn_sh, do_sh); (rv_insn_sw, do_sw);
     (rv_insn_lrw, do_lrw); (rv_insn_scw, do_scw); (rv_insn_flw, do_flw); (rv_insn_fsw, do_fsw)].
Proof using IoBlind0.
  repeat apply List.Forall_cons; try apply List.Forall_nil; unfold do_lb, do_lh, do_lw, do_lbu, do_lhu, do_sb, do_sh, do_sw,
    do_lrw, do_scw, do_flw, do_fsw; mem_over.
Qed.

Lemma blind_host o on :
  (forall rv c l t q w, (on (over rv rv.(PC) c l t q) w).2 = (on rv w).2 /\
     alike (on rv w).1 (on (over rv rv.(PC) c l t q) w).1 /\
     (on (over rv rv.(PC) c l t q) w).1.(PC) = (on rv w).1.(PC)) ->
  let body : @code W := fun rv w ir cycle PC =>
    let '(rv, w) := on (stored rv false cycle PC) w in (rv, w, ret true) in
  blind o body body.
Proof.
  intros Hon. cbv zeta. intro_blind.
  change (stored (over rv p c l t q) false cycle' pc)
    with (over (stored rv false cycle pc) pc cycle' l t q).
  specialize (Hon (stored rv false cycle pc) cycle' l t q w).
  change (PC (stored rv false cycle pc)) with pc in Hon.
  destruct (on (stored rv false cycle pc) w), (on (over _ _ _ _ _ _) w).
  destruct Hon as (? & ? & Hp). split; [done|]. split; [done|]. cbn in *. by rewrite Hp.
Qed.

Lemma blind_csr_ops :
  Forall (fun '(o, f) => blind o f f)
    [(rv_insn_csrrw, do_csrrw); (rv_insn_csrrs, do_csrrs); (rv_insn_csrrc, do_csrrc);
     (rv_insn_csrrwi, do_csrrwi); (rv_insn_csrrsi, do_csrrsi); (rv_insn_csrrci, do_csrrci)].
Proof.
  repeat apply List.Forall_cons; try apply List.Forall_nil.
  all: intro_blind.
  all: assert (is_counter (u32 (imm ir)) = false) as Hi by (apply Hc; by rewrite Ho);
    unfold do_csrrw, do_csrrs, do_csrrc, do_csrrwi, do_csrrsi, do_csrrci;
    change (getX (over rv p c l t q)) with (getX rv); simpl_ir;
    lazymatch goal with
    | |- same_out _ (wr_csr _ _ _ (_ ?r ?i ?v)) (wr_csr _ _ _ (_ (over _ ?a ?b ?d ?e ?u) _ _)) =>
        let E := fresh in
        pose proof (csr_access_over r i v a b d e u Hi) as E;
        rewrite ?(proj1 E), ?(proj1 (proj2 E)), ?(proj2 (proj2 E)); apply blind_wr_csr
    end.
Qed.

Lemma dispatch_blind o :
  is_fused o = false -> insn_len o = 4 ->
  blind_impl o (dispatch_table io sf find tt_direct o) (dispatch_table io sf find' tt_direct o).
Proof using IoBlind0.
  intros Hf Hl. destruct o; try discriminate Hf; try discriminate Hl;
    cbn [dispatch_table]; try (apply RVOP_blind).
  all: lazymatch goal with
    | |- blind _ do_slli _ => apply blind_shift
    | |- blind _ do_srli _ => apply blind_shift
    | |- blind _ do_srai _ => apply blind_shift
    | |- blind _ do_orcb _ => apply blind_orcb
    | |- blind _ do_sextb _ => apply (blind_ext _ 0xff (1 <<. 7) 0xffffff00)
    | |- blind _ do_sexth _ => apply (blind_ext _ 0xffff (1 <<. 15) 0xffff0000)
    | |- blind _ do_jal _ => apply blind_jal
    | |- blind _ (do_jalr _) _ => apply blind_jalr
    | |- blind _ (?c io) _ => idtac
    | |- blind _ (?c sf) _ =>
        first [ apply blind_fp_arith; reflexivity | apply blind_minmax
              | apply blind_fp_to_int | apply blind_fp_cmp ]
    | |- blind _ ?c _ =>
        first [ apply blind_wr_rd; reflexivity | apply blind_branch; reflexivity | idtac ]
    | |- _ => idtac
    end.
  all: lazymatch goal with
    | |- blind _ (do_ecall _) _ => apply blind_host; intros; apply bl_ecall
    | |- blind _ (do_ebreak _) _ => apply blind_host; intros; apply bl_ebreak
    | |- blind ?o (?c io) _ =>
        first [ solve [ pose proof blind_mem_ops as Hops;
                repeat (apply List.Forall_cons_iff in Hops as [? Hops]; try eassumption) ]
              | apply blind_amo ]
    | |- blind ?o (?c) _ =>
        first [ solve [ pose proof blind_csr_ops as Hops;
                repeat (apply List.Forall_cons_iff in Hops as [? Hops]; try eassumption) ]
              | intro_blind; unfold do_fmvxw, do_fclasss; rewrite ?setX_nz_over; done ]
    | |- _ => idtac
    end.
  intro_blind. unfold do_ttinsn. cbv zeta. simpl_ir.
  change (core_id (over rv p c l t q)) with (core_id rv).
  destruct (tt_direct _ _ _) as [w' []]; done.
Qed.
End blind.

(** ** The callbacks of the emulator are blind *)

(** A trap does not depend on the other fields, given the program counter. *)
Lemma trap_handler_over rv c l t q :
  alike (trap_handler rv) (trap_handler (over rv rv.(PC) c l t q)) /\
  (trap_handler (over rv rv.(PC) c l t q)).(PC) = (trap_handler rv).(PC).
Proof.
  unfold trap_handler, _trap_handler, RV_PRIV_IS_U_OR_S_MODE. cbv zeta.
  change (priv_mode (over rv (PC rv) c l t q)) with (priv_mode rv).
  destruct (priv_mode rv <=? RV_PRIV_S_MODE).
  - unfold trap_vector. simpl. by repeat case_match.
  - simpl. destruct (csr_mtvec rv =? 0); [done|]. unfold trap_vector. by repeat case_match.
Qed.

Section rv_io.
Context {T : Type}.
Context (rd : Z -> Z -> T -> heap -> option (Z * T * heap)).
Context (wr : Z -> Z -> Z -> T -> heap -> T * heap * bool).
Context (sys : riscv -> world T -> riscv * world T).
Context (Hsys : forall rv c l t q w,
  (sys (over rv rv.(PC) c l t q) w).2 = (sys rv w).2 /\
  alike (sys rv w).1 (sys (over rv rv.(PC) c l t q) w).1 /\
  (sys (over rv rv.(PC) c l t q) w).1.(PC) = (sys rv w).1.(PC)).

Lemma cause_trap_over rv c l t q cause tval :
  alike (SET_CAUSE_AND_TVAL_THEN_TRAP trap_handler rv cause tval)
    (SET_CAUSE_AND_TVAL_THEN_TRAP trap_handler (over rv rv.(PC) c l t q) cause tval) /\
  (SET_CAUSE_AND_TVAL_THEN_TRAP trap_handler (over rv rv.(PC) c l t q) cause tval).(PC) =
  (SET_CAUSE_AND_TVAL_THEN_TRAP trap_handler rv cause tval).(PC).
Proof.
  unfold SET_CAUSE_AND_TVAL_THEN_TRAP, RV_PRIV_IS_U_OR_S_MODE. cbv zeta.
  change (priv_mode (over rv (PC rv) c l t q)) with (priv_mode rv).
  destruct (priv_mode rv <=? RV_PRIV_S_MODE).
  - apply (trap_handler_over (set_csr_stval (set_csr_scause rv cause) tval) c l t q).
  - apply (trap_handler_over (set_csr_mtval (set_csr_mcause rv cause) tval) c l t q).
Qed.

Lemma rv_io_blind : IoBlind (rv_io rd wr sys).
Proof using Hsys.
  split; try done.
  - intros rv c l t q w r r'.
    destruct (cause_trap_over rv c l t q ECALL_M 0) as [Ha Hp].
    unfold r, r'. cbn [on_ecall rv_io]. unfold ecall_handler. cbv zeta.
    rewrite (alike_inv _ _ Ha), Hp. apply Hsys.
  - intros rv c l t q w r r'. unfold r, r'. cbn [on_ebreak rv_io fst snd]. unfold ebreak_handler.
    change (PC (over rv (PC rv) c l t q)) with (PC rv). split; [done|].
    apply cause_trap_over.
  - intros rv c l t q. apply trap_handler_over.
Qed.
End rv_io.

Lemma no_tensix_blind : IoBlind no_tensix.
Proof. apply rv_io_blind. done. Qed.
