(* ===== verification/Fusion.v ===== *)
(** * Macro-operation fusion (src/rv32emu/src/emulate.c)

    [match_pattern] rewrites runs of instructions of a freshly translated
    block into one fused instruction.  A block is its list of instructions
    with the counter [n_insn]; [malloc_ok] says for which instructions the
    allocation of the array of fused operations succeeds. *)

From Stdlib Require Import ZArith Lia Bool.
From stdpp Require Import base list numbers.
From S2P Require Import Prelude Decode Riscv Exec.

(** [memcpy(ir->fuse, ir, sizeof(opcode_fuse_t))]. *)
Definition to_fuse (ir : rv_insn) : opcode_fuse :=
  mk_fuse ir.(imm) ir.(rd) ir.(rs1) ir.(rs2) ir.(opcode).

(** The loops that count the instructions of a run: [next_ir] moves on while
    the opcode fits and there is a next instruction. *)
Fixpoint run_length (fits : insn_op -> bool) (rest : list rv_insn) : nat :=
  match rest with
  | [] => 0
  | next_ir :: rest => if fits next_ir.(opcode) then S (run_length fits rest) else 0
  end.

(** [remove_next_nth_ir]: [n] is a [uint8_t]. *)
Definition remove_next_nth_ir (rest : list rv_insn) (n_insn n : Z) : list rv_insn * Z :=
  let n := u8 n in
  (drop (Z.to_nat n) rest, u32 (n_insn - n)).

Section match_pattern.
Context (malloc_ok : rv_insn -> bool).

(** Fuse [ir] and the [count - 1] instructions after it into [fused];
    [first] is the entry that the instruction itself contributes. *)
Definition combine (fused : insn_op) (count : nat) (first : opcode_fuse)
    (ir : rv_insn) (rest : list rv_insn) (n_insn : Z) : rv_insn * list rv_insn * Z :=
  let ir' := ir_set_fuse ir (first :: (to_fuse <$> take (count - 1) rest)) in
  let ir' := ir_set_imm2 (ir_set_opcode ir' fused) (Z.of_nat count) in
  let ir' := ir_set_impl ir' (do_op fused) in
  let '(rest, n_insn) := remove_next_nth_ir rest n_insn (Z.of_nat count - 1) in
  (ir', rest, n_insn).

Definition combine_run (fits : insn_op -> bool) (fused : insn_op) (first : opcode_fuse)
    (ir : rv_insn) (rest : list rv_insn) (n_insn : Z) : rv_insn * list rv_insn * Z :=
  let count := S (run_length fits rest) in
  if (1 <? Z.of_nat count) && malloc_ok ir
  then combine fused count first ir rest n_insn
  else (ir, rest, n_insn).

Definition is_lui (o : insn_op) : bool := bool_decide (o = rv_insn_lui).
Definition is_sw (o : insn_op) : bool := bool_decide (o = rv_insn_sw).
Definition is_lw (o : insn_op) : bool := bool_decide (o = rv_insn_lw).
Definition is_shift (o : insn_op) : bool :=
  match o with rv_insn_slli | rv_insn_srli | rv_insn_srai => true | _ => false end.

(** [COMBINE_MEM_OPS(RW)]: the entry of the instruction itself is copied
    after its opcode was replaced. *)
Definition COMBINE_MEM_OPS (RW : bool) (ir : rv_insn) (rest : list rv_insn) (n_insn : Z)
    : rv_insn * list rv_insn * Z :=
  let fused := if RW then rv_insn_fuse4 else rv_insn_fuse3 in
  combine_run (if RW then is_lw else is_sw) fused (to_fuse (ir_set_opcode ir fused))
    ir rest n_insn.

(** [lui] followed by an [add] that uses its result. *)
Definition fuse_lui_add (ir next_ir : rv_insn) (rest : list rv_insn) (n_insn : Z)
    : rv_insn * list rv_insn * Z :=
  if (ir.(rd) =? next_ir.(rs2)) || (ir.(rd) =? next_ir.(rs1)) then
    let ir := ir_set_opcode ir rv_insn_fuse2 in
    let ir := ir_set_rs2 ir next_ir.(rd) in
    let ir := ir_set_rs1 ir
      (if ir.(rd) =? next_ir.(rs2) then next_ir.(rs1) else next_ir.(rs2)) in
    let ir := ir_set_impl ir (do_op rv_insn_fuse2) in
    let '(rest, n_insn) := remove_next_nth_ir rest n_insn 1 in
    (ir, rest, n_insn)
  else (ir, rest, n_insn).

(** The switch on the opcode; [next_ir] exists. *)
Definition match_insn (ir : rv_insn) (rest : list rv_insn) (n_insn : Z)
    : rv_insn * list rv_insn * Z :=
  match ir.(opcode) with
  | rv_insn_lui =>
      match rest with
      | next_ir :: _ =>
          match next_ir.(opcode) with
          | rv_insn_add => fuse_lui_add ir next_ir rest n_insn
          | rv_insn_lui =>
              combine_run is_lui rv_insn_fuse1
                (to_fuse (ir_set_opcode ir rv_insn_fuse1)) ir rest n_insn
          | _ => (ir, rest, n_insn)
          end
      | [] => (ir, rest, n_insn)
      end
  | rv_insn_sw => COMBINE_MEM_OPS false ir rest n_insn
  | rv_insn_lw => COMBINE_MEM_OPS true ir rest n_insn
  | rv_insn_slli | rv_insn_srli | rv_insn_srai =>
      combine_run is_shift rv_insn_fuse5 (to_fuse ir) ir rest n_insn
  | _ => (ir, rest, n_insn)
  end.

(** The loop [for (i = 0, ir = head; i < n_insn - 1; i++, ir = ir->next)];
    [fuel] bounds the number of iterations by the length of the list. *)
Fixpoint match_loop (fuel : nat) (i n_insn : Z) (irs : list rv_insn) : list rv_insn * Z :=
  match fuel, irs with
  | S fuel, ir :: rest =>
      if i <? u32 (n_insn - 1) then
        let '(ir, rest, n_insn) := match_insn ir rest n_insn in
        let '(irs, n_insn) := match_loop fuel (i + 1) n_insn rest in
        (ir :: irs, n_insn)
      else (irs, n_insn)
  | _, _ => (irs, n_insn)
  end.

Definition match_pattern (irs : list rv_insn) (n_insn : Z) : list rv_insn * Z :=
  match_loop (length irs) 0 n_insn irs.
End match_pattern.
