(* ===== verification/FusionSpec.v ===== *)
(** * Fusion preserves the meaning of a block

    [sim irs irs']: wherever the execution of [irs] does not stop with a
    failure, [irs'] does exactly the same.  [match_pattern] takes a block to
    one it simulates, as long as the block has at most 256 instructions and
    no load from the mailbox window; the theorems at the end show that both
    conditions are needed. *)

From Stdlib Require Import ZArith Lia Bool.
From stdpp Require Import base list numbers.
From S2P Require Import Prelude Decode Riscv Exec ExecWf Memory MemorySpec AluSpec ConstOpt ConstOptSpec Fusion.

Section fusion.
Context {W : Type} (io : riscv_io W) (sf : softfloat) (find : Z -> option Z).
Context (tt_direct : Z -> Z -> W -> W * bool) (mailbox_stalled : Z -> W -> bool).
Context `{!IoOk io, !SfOk sf}.
Notation call := (call_impl io sf find tt_direct mailbox_stalled).
Notation exec := (exec_block io sf find tt_direct mailbox_stalled).

Definition sim (irs irs' : list rv_insn) : Prop :=
  forall rv w cycle pc, rv_wf rv -> 0 <= cycle < 2 ^ 64 -> word pc ->
  (exec irs rv w cycle pc).2 <> Returned false ->
  exec irs' rv w cycle pc = exec irs rv w cycle pc.

#[local] Instance sim_preorder : PreOrder sim.
Proof.
  split.
  - by intros irs rv w cycle pc.
  - intros a b c Hab Hbc rv w cycle pc Hrv Hc Hpc Hr.
    rewrite <- (Hab rv w cycle pc) by done. apply Hbc; try done. by rewrite Hab.
Qed.

Lemma sim_cons ir irs irs' : insn_wf ir -> sim irs irs' -> sim (ir :: irs) (ir :: irs').
Proof using IoOk0 SfOk0.
  intros Hir Hs rv w cycle pc Hrv Hc Hpc. cbn [exec_block].
  assert (impl_wf (call ir.(impl))) as Hi
    by (destruct ir.(impl); [by apply dispatch_wf | by apply wf_lw_mailbox]).
  specialize (Hi rv w ir cycle pc Hrv Hir Hc Hpc).
  destruct (call _ _ _ _ _ _) as [[rv' w'] []]; try done.
  destruct Hi as (? & ? & ?). by apply Hs.
Qed.

(** The counters after [n] more instructions of four bytes. *)
Lemma u64_step c n : u64 (u64 (c + 1) + n) = u64 (c + (n + 1)).
Proof. unfold u64. rewrite Z.add_mod_idemp_l by lia. f_equal. lia. Qed.
Lemma u32_step p n : u32 (u32 (p + 4) + n * 4) = u32 (p + (n + 1) * 4).
Proof. unfold u32. rewrite Z.add_mod_idemp_l by lia. f_equal. lia. Qed.
Lemma u64_id c : 0 <= c < 2 ^ 64 -> u64 (c + 0) = c.
Proof. intros. rewrite Z.add_0_r. by apply Z.mod_small. Qed.
Lemma u32_id p : word p -> u32 (p + 0 * 4) = p.
Proof. intros. rewrite Z.add_0_r. by apply u32_word. Qed.

(** A run of instructions with the opcode [o] and its own handler. *)
Definition is_run (fits : insn_op -> bool) (irs : list rv_insn) : Prop :=
  Forall (fun ir => fits ir.(opcode) = true /\ ir.(impl) = do_op ir.(opcode)) irs.

Lemma run_lui irs tail rv w cycle pc :
  is_run is_lui irs -> 0 <= cycle < 2 ^ 64 -> word pc ->
  exec (irs ++ tail) rv w cycle pc =
  exec tail (fold_left (fun rv f => setX rv f.(f_rd) (u32 f.(f_imm))) (to_fuse <$> irs) rv)
    w (u64 (cycle + Z.of_nat (length irs))) (u32 (pc + Z.of_nat (length irs) * 4)).
Proof.
  intros Hr. revert rv cycle pc. induction Hr as [|ir irs [Ho Hi] Hr IH];
    intros rv cycle pc Hc Hpc.
  - simpl. rewrite u64_id, u32_id by done. done.
  - apply bool_decide_eq_true in Ho. cbn [app exec_block]. rewrite Hi, Ho.
    cbn [call_impl dispatch_table]. unfold RVOP, do_lui, wr_rd. cbn [insn_len].
    rewrite IH by auto using u64_range with word. cbn [fmap list_fmap fold_left length].
    rewrite u64_step, u32_step, Nat2Z.inj_succ. done.
Qed.

Lemma run_shift irs tail rv w cycle pc :
  is_run is_shift irs -> 0 <= cycle < 2 ^ 64 -> word pc ->
  exists rv', fuse5_loop (to_fuse <$> irs) rv = Some rv' /\
  exec (irs ++ tail) rv w cycle pc =
  exec tail rv' w (u64 (cycle + Z.of_nat (length irs)))
    (u32 (pc + Z.of_nat (length irs) * 4)).
Proof.
  intros Hr. revert rv cycle pc. induction Hr as [|ir irs [Ho Hi] Hr IH];
    intros rv cycle pc Hc Hpc.
  - exists rv. simpl. rewrite u64_id, u32_id by done. done.
  - assert (exists rv1, shift_func rv ir.(opcode) ir.(rd) ir.(rs1) ir.(imm) = Some rv1)
      as [rv1 Hs] by (destruct (opcode ir); try discriminate Ho; simpl; eauto).
    assert (forall c p, call ir.(impl) rv w ir c p =
              (rv1, w, Next (u64 (c + 1)) (u32 (p + 4)))) as Hcall.
    { intros c p. rewrite Hi. destruct (opcode ir) eqn:E; try discriminate Ho;
        cbn [call_impl dispatch_table]; unfold RVOP, do_slli, do_srli, do_srai, do_shift;
        rewrite E, Hs; done. }
    destruct (IH rv1 (u64 (cycle + 1)) (u32 (pc + 4))) as (rv' & Hl & He);
      [auto using u64_range | auto with word |].
    exists rv'. cbn [fmap list_fmap fuse5_loop to_fuse f_opcode f_rd f_rs1 f_imm].
    rewrite Hs. split; [done|]. cbn [app exec_block]. rewrite Hcall, He. cbn [length].
    rewrite u64_step, u32_step, Nat2Z.inj_succ. done.
Qed.

Lemma run_sw irs tail rv w cycle pc c0 p0 :
  is_run is_sw irs -> 0 <= cycle < 2 ^ 64 -> word pc ->
  match fuse3_loop io (to_fuse <$> irs) rv w c0 p0 with
  | inl (rv', w') =>
      exec (irs ++ tail) rv w cycle pc =
      exec tail rv' w' (u64 (cycle + Z.of_nat (length irs)))
        (u32 (pc + Z.of_nat (length irs) * 4))
  | inr _ => (exec (irs ++ tail) rv w cycle pc).2 = Returned false
  end.
Proof.
  intros Hr. revert rv w cycle pc. induction Hr as [|ir irs [Ho Hi] Hr IH];
    intros rv w cycle pc Hc Hpc.
  - simpl. rewrite u64_id, u32_id by done. done.
  - apply bool_decide_eq_true in Ho. cbn [app exec_block]. rewrite Hi, Ho.
    cbn [call_impl dispatch_table fmap list_fmap fuse3_loop to_fuse f_rs1 f_rs2 f_imm].
    unfold RVOP, do_sw, load_addr, RV_EXC_MISALIGN_HANDLER. cbv zeta.
    destruct (negb (allow_misalign rv) && _); [done|]. cbn [insn_len].
    specialize (IH rv (mem_write_w io rv w (u32 (getX rv (rs1 ir) + imm ir)) (getX rv (rs2 ir)))
      (u64 (cycle + 1)) (u32 (pc + 4)) (u64_range _) (word_u32 _)).
    change (list_fmap _ _ to_fuse irs) with (to_fuse <$> irs).
    destruct (fuse3_loop _ _ _ _ _ _) as [[rv' w']|[]]; [|done].
    rewrite IH. cbn [length]. rewrite u64_step, u32_step, Nat2Z.inj_succ. done.
Qed.

Lemma run_lw irs tail rv w cycle pc c0 p0 :
  is_run is_lw irs -> 0 <= cycle < 2 ^ 64 -> word pc ->
  match fuse4_loop io (to_fuse <$> irs) rv w c0 p0 with
  | inl (rv', w') =>
      exec (irs ++ tail) rv w cycle pc =
      exec tail rv' w' (u64 (cycle + Z.of_nat (length irs)))
        (u32 (pc + Z.of_nat (length irs) * 4))
  | inr _ => (exec (irs ++ tail) rv w cycle pc).2 = Returned false
  end.
Proof.
  intros Hr. revert rv w cycle pc. induction Hr as [|ir irs [Ho Hi] Hr IH];
    intros rv w cycle pc Hc Hpc.
  - simpl. rewrite u64_id, u32_id by done. done.
  - apply bool_decide_eq_true in Ho. cbn [app exec_block]. rewrite Hi, Ho.
    cbn [call_impl dispatch_table fmap list_fmap fuse4_loop to_fuse f_rs1 f_rd f_imm].
    unfold RVOP, do_lw, load_addr, RV_EXC_MISALIGN_HANDLER. cbv zeta.
    destruct (negb (allow_misalign rv) && _); [done|].
    destruct (mem_read_w _ _ _ _) as [v w1]. cbn [insn_len].
    specialize (IH (setX rv (rd ir) v) w1 (u64 (cycle + 1)) (u32 (pc + 4))
      (u64_range _) (word_u32 _)).
    change (list_fmap _ _ to_fuse irs) with (to_fuse <$> irs).
    destruct (fuse4_loop _ _ _ _ _ _) as [[rv' w']|[]]; [|done].
    rewrite IH. cbn [length]. rewrite u64_step, u32_step, Nat2Z.inj_succ. done.
Qed.

(** *** The fused instruction *)

(** The operations fused are those of the run: the opcode of the first entry
    is not used by the handlers of [fuse1], [fuse3] and [fuse4]. *)
Definition same_fuse (f g : opcode_fuse) : Prop :=
  f.(f_imm) = g.(f_imm) /\ f.(f_rd) = g.(f_rd) /\ f.(f_rs1) = g.(f_rs1) /\
  f.(f_rs2) = g.(f_rs2).

Definition fused_insn (fused : insn_op) (run : list rv_insn) (first : opcode_fuse)
    (ir ir' : rv_insn) : Prop :=
  ir'.(impl) = do_op fused /\ ir'.(imm2) = Z.of_nat (length (ir :: run)) /\
  ir'.(fuse) = first :: (to_fuse <$> run).

Lemma take_fuse (first : opcode_fuse) (run : list rv_insn) (ir : rv_insn) :
  take (Z.to_nat (Z.of_nat (length (ir :: run)))) (first :: (to_fuse <$> run)) =
  first :: (to_fuse <$> run).
Proof.
  rewrite Nat2Z.id. apply take_ge. simpl. by rewrite length_fmap.
Qed.

Lemma fuse1_sim ir ir' run tail first :
  is_run is_lui (ir :: run) -> fused_insn rv_insn_fuse1 run first ir ir' ->
  same_fuse first (to_fuse ir) -> sim ((ir :: run) ++ tail) (ir' :: tail).
Proof.
  intros Hr (Hi & Hn & Hf) (Ei & Ed & _) rv w cycle pc Hrv Hc Hpc _.
  rewrite run_lui by done. cbn [exec_block]. rewrite Hi. cbn [call_impl dispatch_table].
  unfold do_fuse1. rewrite Hn, Hf, take_fuse. cbn [fmap list_fmap fold_left].
  rewrite Ei, Ed. done.
Qed.
Lemma fuse5_sim ir ir' run tail :
  is_run is_shift (ir :: run) -> fused_insn rv_insn_fuse5 run (to_fuse ir) ir ir' ->
  sim ((ir :: run) ++ tail) (ir' :: tail).
Proof.
  intros Hr (Hi & Hn & Hf) rv w cycle pc Hrv Hc Hpc _.
  destruct (run_shift (ir :: run) tail rv w cycle pc Hr Hc Hpc) as (rv' & Hl & ->).
  cbn [exec_block]. rewrite Hi. cbn [call_impl dispatch_table].
  unfold do_fuse5. rewrite Hn, Hf, take_fuse. cbv zeta.
  change (to_fuse ir :: (to_fuse <$> run)) with (to_fuse <$> ir :: run). by rewrite Hl.
Qed.
Lemma fuse3_sim ir ir' run tail first :
  is_run is_sw (ir :: run) -> fused_insn rv_insn_fuse3 run first ir ir' ->
  same_fuse first (to_fuse ir) -> sim ((ir :: run) ++ tail) (ir' :: tail).
Proof.
  intros Hr (Hi & Hn & Hf) (Ei & _ & E1 & E2) rv w cycle pc Hrv Hc Hpc Hres.
  pose proof (run_sw (ir :: run) tail rv w cycle pc
    (u64 (cycle + Z.of_nat (length (ir :: run)))) pc Hr Hc Hpc) as H.
  cbn [exec_block]. rewrite Hi. cbn [call_impl dispatch_table].
  unfold do_fuse3. rewrite Hn, Hf, take_fuse. cbv zeta.
  assert (forall c p, fuse3_loop io (first :: (to_fuse <$> run)) rv w c p =
            fuse3_loop io (to_fuse <$> ir :: run) rv w c p) as ->.
  { intros. cbn [fmap list_fmap fuse3_loop]. by rewrite Ei, E1, E2. }
  destruct (fuse3_loop _ _ _ _ _ _) as [[rv' w']|[rv' w']]; [by rewrite H | done].
Qed.
Lemma fuse4_sim ir ir' run tail first :
  is_run is_lw (ir :: run) -> fused_insn rv_insn_fuse4 run first ir ir' ->
  same_fuse first (to_fuse ir) -> sim ((ir :: run) ++ tail) (ir' :: tail).
Proof.
  intros Hr (Hi & Hn & Hf) (Ei & Ed & E1 & _) rv w cycle pc Hrv Hc Hpc Hres.
  pose proof (run_lw (ir :: run) tail rv w cycle pc
    (u64 (cycle + Z.of_nat (length (ir :: run)))) pc Hr Hc Hpc) as H.
  cbn [exec_block]. rewrite Hi. cbn [call_impl dispatch_table].
  unfold do_fuse4. rewrite Hn, Hf, take_fuse. cbv zeta.
  assert (forall c p, fuse4_loop io (first :: (to_fuse <$> run)) rv w c p =
            fuse4_loop io (to_fuse <$> ir :: run) rv w c p) as ->.
  { intros. cbn [fmap list_fmap fuse4_loop]. by rewrite Ei, E1, Ed. }
  destruct (fuse4_loop _ _ _ _ _ _) as [[rv' w']|[rv' w']]; [by rewrite H | done].
Qed.

Lemma fuse2_sim ir next_ir tail n_insn :
  ir.(opcode) = rv_insn_lui -> ir.(impl) = do_op rv_insn_lui ->
  next_ir.(opcode) = rv_insn_add -> next_ir.(impl) = do_op rv_insn_add ->
  insn_wf ir -> insn_wf next_ir ->
  let '(ir', rest, _) := fuse_lui_add ir next_ir (next_ir :: tail) n_insn in
  sim (ir :: next_ir :: tail) (ir' :: rest).
Proof.
  intros Eo Ei Eo' Ei' Hir Hnext. unfold fuse_lui_add.
  destruct ((rd ir =? rs2 next_ir) || (rd ir =? rs1 next_ir)) eqn:Hb; [|done].
  cbn [remove_next_nth_ir]. intros rv w cycle pc Hrv Hc Hpc _.
  change (drop (Z.to_nat (u8 1)) (next_ir :: tail)) with tail.
  cbn [exec_block]. rewrite Ei, Ei'. cbn [call_impl dispatch_table].
  unfold RVOP, do_lui, do_add, wr_rd, do_fuse2. cbn [insn_len rd rs1 rs2 imm].
  cbn [ir_set_impl ir_set_rs1 ir_set_rs2 ir_set_opcode rd rs1 rs2 imm opcode impl
       call_impl dispatch_table]. unfold do_fuse2. cbn [rd rs1 rs2 imm].
  assert (u64 (u64 (cycle + 1) + 1) = u64 (cycle + 2)) as -> by apply (u64_step cycle 1).
  assert (u32 (u32 (pc + 4) + 4) = u32 (pc + 8)) as -> by apply (u32_step pc 1).
  set (rv1 := setX rv (rd ir) (u32 (imm ir))).
  destruct (Z.eqb_spec (rd ir) (rs2 next_ir)) as [E|].
  - rewrite <- E, (Z.add_comm (getX rv1 (rd ir))). done.
  - simpl in Hb. apply Z.eqb_eq in Hb. rewrite <- Hb. done.
Qed.

(** *** The pass *)

Context (malloc_ok : rv_insn -> bool).

Lemma run_split fits rest :
  is_run (fun _ => true) rest ->
  is_run fits (take (run_length fits rest) rest).
Proof.
  induction 1 as [|ir rest [_ Hi] Hr IH]; simpl; [constructor|].
  destruct (fits (opcode ir)) eqn:E; simpl; [|constructor]. by constructor.
Qed.
Lemma run_length_le fits rest : (run_length fits rest <= length rest)%nat.
Proof. induction rest as [|ir rest IH]; simpl; [lia|]. case_match; lia. Qed.

(** What one iteration does: the rest of the block, the counter and the
    simulation. *)
Definition iter_ok (ir : rv_insn) (rest : list rv_insn) (n : Z)
    (r : rv_insn * list rv_insn * Z) : Prop :=
  let '(ir', rest', n') := r in
  sim (ir :: rest) (ir' :: rest') /\ insn_wf ir' /\
  (exists k, rest' = drop k rest) /\
  n' = n - Z.of_nat (length rest) + Z.of_nat (length rest').

Lemma iter_same ir rest n : insn_wf ir -> iter_ok ir rest n (ir, rest, n).
Proof.
  intros Hir. split; [reflexivity|]. split; [done|]. split; [by exists 0%nat|]. lia.
Qed.

(** Fusing a run, given the simulation for that kind. *)
Lemma combine_ok fits fused first ir rest n :
  (forall run tail ir', is_run fits (ir :: run) -> fused_insn fused run first ir ir' ->
     sim ((ir :: run) ++ tail) (ir' :: tail)) ->
  fits ir.(opcode) = true -> ir.(impl) = do_op ir.(opcode) -> insn_wf ir ->
  is_run (fun _ => true) rest -> (length rest < 256)%nat ->
  Z.of_nat (length rest) <= n < 2 ^ 32 ->
  iter_ok ir rest n (combine_run malloc_ok fits fused first ir rest n).
Proof.
  intros Hsim Hfit Hi Hir Hr Hlen Hn. unfold combine_run.
  destruct (_ && malloc_ok ir); [|by apply iter_same].
  set (k := run_length fits rest). pose proof (run_length_le fits rest) as Hk. fold k in Hk.
  unfold combine, remove_next_nth_ir.
  assert (u8 (Z.of_nat (S k) - 1) = Z.of_nat k) as ->
    by (unfold u8; rewrite Z.mod_small; lia).
  rewrite Nat2Z.id. replace (S k - 1)%nat with k by lia.
  assert (u32 (n - Z.of_nat k) = n - Z.of_nat k) as -> by (apply u32_small; lia).
  split.
  - rewrite <- (take_drop k rest) at 1. apply Hsim; [by constructor; [|apply run_split]|].
    split; [done|]. split; [|done]. cbn [length]. rewrite length_take. simpl. lia.
  - split; [destruct Hir; by constructor|]. split; [by exists k|].
    rewrite length_drop. lia.
Qed.

Lemma fuse2_ok ir next_ir tail n :
  ir.(opcode) = rv_insn_lui -> ir.(impl) = do_op rv_insn_lui ->
  next_ir.(opcode) = rv_insn_add -> next_ir.(impl) = do_op rv_insn_add ->
  insn_wf ir -> insn_wf next_ir -> Z.of_nat (length (next_ir :: tail)) <= n < 2 ^ 32 ->
  iter_ok ir (next_ir :: tail) n (fuse_lui_add ir next_ir (next_ir :: tail) n).
Proof.
  intros Eo Ei Eo' Ei' Hir Hnext Hn.
  pose proof (fuse2_sim ir next_ir tail n Eo Ei Eo' Ei' Hir Hnext) as Hs.
  unfold fuse_lui_add in *. destruct (_ || _); [|by apply iter_same].
  cbn [remove_next_nth_ir] in *. split; [done|]. split.
  - destruct Hir, Hnext. constructor; try done. simpl. by destruct (_ =? _).
  - change (Z.to_nat (u8 1)) with 1%nat. split; [by exists 1%nat|].
    change (u8 1) with 1. rewrite u32_small by (simpl in Hn; lia). rewrite length_drop. cbn [length]. lia.
Qed.

Lemma match_insn_ok ir rest n :
  is_run (fun _ => true) (ir :: rest) -> Forall insn_wf (ir :: rest) ->
  (length rest < 256)%nat -> Z.of_nat (length rest) <= n < 2 ^ 32 ->
  iter_ok ir rest n (match_insn malloc_ok ir rest n).
Proof.
  intros Hr Hwf Hlen Hn. apply List.Forall_cons_iff in Hr as [[_ Hi] Hr].
  apply List.Forall_cons_iff in Hwf as [Hir Hwf]. unfold match_insn.
  destruct (opcode ir) eqn:E; try (by apply iter_same).
  - destruct rest as [|next_ir tail]; [by apply iter_same|].
    pose proof (Forall_inv Hr) as [_ Hi']. pose proof (Forall_inv Hwf) as Hnext.
    destruct (opcode next_ir) eqn:E'; try (by apply iter_same).
    + apply combine_ok; try done; try (by rewrite E).
      intros run tl ir' H1 H2. by apply fuse1_sim with (first := to_fuse (ir_set_opcode ir rv_insn_fuse1)).
    + by apply fuse2_ok.
  - apply combine_ok; try done; try (by rewrite E).
    intros run tl ir' H1 H2.
    by apply fuse4_sim with (first := to_fuse (ir_set_opcode ir rv_insn_fuse4)).
  - apply combine_ok; try done; try (by rewrite E).
    intros run tl ir' H1 H2.
    by apply fuse3_sim with (first := to_fuse (ir_set_opcode ir rv_insn_fuse3)).
  - apply combine_ok; try done; try (by rewrite E). intros. by apply fuse5_sim.
  - apply combine_ok; try done; try (by rewrite E). intros. by apply fuse5_sim.
  - apply combine_ok; try done; try (by rewrite E). intros. by apply fuse5_sim.
Qed.

Lemma match_loop_ok fuel i irs :
  (length irs <= fuel)%nat -> 0 <= i -> i + Z.of_nat (length irs) < 2 ^ 32 ->
  (length irs <= 256)%nat -> is_run (fun _ => true) irs -> Forall insn_wf irs ->
  let r := match_loop malloc_ok fuel i (i + Z.of_nat (length irs)) irs in
  sim irs r.1 /\ r.2 = i + Z.of_nat (length r.1).
Proof.
  revert i irs. induction fuel as [|fuel IH]; intros i irs Hf Hi Hn Hlen Hr Hwf;
    [by destruct irs|].
  destruct irs as [|ir rest]; [done|]. cbn [match_loop].
  rewrite u32_small by (simpl in *; lia).
  destruct (Z.ltb_spec i (i + Z.of_nat (length (ir :: rest)) - 1)); [|done].
  pose proof (match_insn_ok ir rest (i + Z.of_nat (length (ir :: rest))) Hr Hwf
    ltac:(simpl in *; lia) ltac:(simpl in *; lia)) as Hit.
  destruct (match_insn _ _ _ _) as [[ir' rest'] n'].
  destruct Hit as (Hs & Hir' & [k ->] & ->). cbn [length] in *.
  apply List.Forall_cons_iff in Hr as [_ Hr]. apply List.Forall_cons_iff in Hwf as [_ Hwf].
  pose proof (length_drop rest k) as Hd.
  specialize (IH (i + 1) (drop k rest) ltac:(lia) ltac:(lia) ltac:(lia) ltac:(lia)
    (Forall_drop _ k _ Hr) (Forall_drop _ k _ Hwf)).
  replace (i + Z.of_nat (S (length rest)) - Z.of_nat (length rest)
           + Z.of_nat (length (drop k rest)))
    with (i + 1 + Z.of_nat (length (drop k rest))) by lia.
  destruct (match_loop _ _ _ _ _) as [irs' n'']. simpl in *. destruct IH as [IH ->].
  split; [|lia]. transitivity (ir' :: drop k rest); [done | by apply sim_cons].
Qed.

Lemma match_ok irs rv w cycle pc :
  (length irs <= 256)%nat -> Forall (fun ir => ir.(impl) = do_op ir.(opcode)) irs ->
  Forall insn_wf irs -> rv_wf rv -> 0 <= cycle < 2 ^ 64 -> word pc ->
  (exec irs rv w cycle pc).2 <> Returned false ->
  let '(irs', n_insn) := match_pattern malloc_ok irs (Z.of_nat (length irs)) in
  exec irs' rv w cycle pc = exec irs rv w cycle pc /\ n_insn = Z.of_nat (length irs').
Proof using IoOk0 SfOk0.
  intros Hlen Hi Hwf Hrv Hc Hpc Hres. unfold match_pattern.
  destruct (match_loop_ok (length irs) 0 irs) as [Hs Hn]; try done; try lia.
  { unfold is_run. by eapply Forall_impl, Hi. }
  rewrite Z.add_0_l in *. destruct (match_loop _ _ _ _ _) as [irs' n]. simpl in *.
  split; [by apply Hs | done].
Qed.

End fusion.

(** [lui x5; add x6, x5, x5; slli x6; srli x6] becomes two instructions. *)
Definition fu_block : list rv_insn :=
  [cp_insn rv_insn_lui 0x1000 5 0 0 0x100; cp_insn rv_insn_add 0 6 5 5 0x104;
   cp_insn rv_insn_slli 3 6 6 0 0x108; cp_insn rv_insn_srli 1 6 6 0 0x10c].


(** A defect of [remove_next_nth_ir]: its parameter is a [uint8_t], so
    that after a run of 257 instructions was fused none of them is removed,
    and they are executed again.  For a block of 257 [lui] the optimised
    block reports 513 executed instructions and a program counter behind the
    end of the block. *)
Theorem fusion_long_run :
  let irs := repeat (cp_insn rv_insn_lui 0x1000 5 0 0 0) 257 in
  let run irs := exec_block no_tensix sf_zero (fun _ => None) (fun _ _ w => (w, true))
    (fun _ _ => false) irs (rv_zero 0) mem0 0 0 in
  (run irs).1.1.(PC) = 257 * 4 /\
  (run (match_pattern (fun _ => true) irs 257).1).1.1.(PC) = 513 * 4.
Proof. vm_compute. done. Qed.

(** A defect of the fusion of loads: a load from the mailbox window
    that follows another load is fused with it, and its handler, which
    waits while the mailbox is empty, is lost.  With a stalled mailbox the
    block as translated stops at the second load (0x104); the fused one goes
    on to 0x108. *)
Theorem fusion_mailbox_lost :
  let irs := [cp_insn rv_insn_lw 0 5 0 0 0x100;
              ir_set_impl (cp_insn rv_insn_lw 0 6 0 0 0x104) do_lw_mailbox_impl] in
  let run irs := exec_block no_tensix sf_zero (fun _ => None) (fun _ _ w => (w, true))
    (fun _ _ => true) irs (rv_zero 0) mem0 0 0x100 in
  (run irs).1.1.(PC) = 0x104 /\ (run irs).2 = Returned false /\
  (run (match_pattern (fun _ => true) irs 2).1).1.1.(PC) = 0x108 /\
  (run (match_pattern (fun _ => true) irs 2).1).2 = Returned true.
Proof. vm_compute. done. Qed.
