(* ===== verification/Block.v ===== *)
(** * Blocks: translation and the block map (src/rv32emu/src/emulate.c, riscv.c)

    A [block_t] is a run of decoded instructions up to a branch.
    [block_translate] builds one from guest memory; the block map is an
    open-addressing hash table keyed by the start address. *)

From Stdlib Require Import ZArith Lia Bool.
From stdpp Require Import base list numbers.
From S2P Require Import Prelude Decode Riscv Exec ConstOpt Fusion.

Record block_t : Type := mk_block {
  n_insn : Z; pc_start : Z; pc_end : Z; ir_list : list rv_insn
}.

(** ** Translation *)

(** [rotr32(x, k)] with [0 < k < 32]. *)
Definition rotr32 (x k : Z) : Z := (x >>. k) |. u32 (x <<. (32 - k)).

Definition insn_is_branch (o : insn_op) : bool := insn_can_branch o.

Definition insn_is_unconditional_branch (o : insn_op) : bool :=
  match o with
  | rv_insn_ecall | rv_insn_ebreak | rv_insn_jal | rv_insn_jalr | rv_insn_mret
  | rv_insn_csrrw | rv_insn_cj | rv_insn_cjalr | rv_insn_cjal | rv_insn_cjr
  | rv_insn_cebreak => true
  | _ => false
  end.
Definition insn_is_direct_branch (o : insn_op) : bool :=
  match o with rv_insn_jal | rv_insn_cjal | rv_insn_cj => true | _ => false end.
Definition insn_is_indirect_branch (o : insn_op) : bool :=
  match o with rv_insn_jalr | rv_insn_cjalr | rv_insn_cjr => true | _ => false end.

(** [calloc] and [memset(PC, -1)] of a branch history table. *)
Definition new_bht : branch_history_table :=
  mk_bht (repeat 0xffffffff 16) 0 (repeat None 16).

Section translate.
(** [ext_tt] is the build option EXT_TT, [tensix] says whether the hart has a
    coprocessor, [fetch] is the callback [mem_ifetch] and [X] the integer
    registers at translation time. *)
Context (ext_tt tensix : bool) (fetch : Z -> Z) (Xs : list Z).

Definition in_mailbox (addr : Z) : bool := (0xFFEC0000 <=? addr) && (addr <=? 0xFFEC3FFF).

(** Detection of a load from the mailbox window, on the constants that [lui]
    left in the registers (0 is unknown) and the live registers. *)
Definition mailbox_lw (lui_const : list Z) (ir : rv_insn) : bool :=
  let c := lui_const !!! Z.to_nat ir.(rs1) in
  let base := if nz c then c else Xs !!! Z.to_nat ir.(rs1) in
  bool_decide (ir.(opcode) = rv_insn_lw) && in_mailbox (u32 (base + u32 ir.(imm))).

Definition track_lui (lui_const : list Z) (ir : rv_insn) : list Z :=
  if bool_decide (ir.(opcode) = rv_insn_lui)
  then <[Z.to_nat ir.(rd) := u32 ir.(imm)]> lui_const
  else if ir.(rd) <? 32 then <[Z.to_nat ir.(rd) := 0]> lui_const else lui_const.

(** The loop of [block_translate]; [None] is a failed assertion (a zero
    word) or fuel that does not reach the end of the block.  Allocations
    succeed.  Without EXT_TT an undecodable word traps during translation;
    that branch, which this build does not have, also gives [None]. *)
Fixpoint translate_loop (fuel : nat) (pc_end : Z) (lui_const : list Z)
    : option (list rv_insn * Z) :=
  match fuel with
  | O => None
  | S fuel =>
      let insn := fetch pc_end in
      if insn =? 0 then None else
      match rv_decode ext_tt rv_insn0 insn with
      | None => None
      | Some (ir, false) =>
          if ext_tt then
            let insn := rotr32 insn 2 in
            let ir := ir_set_opcode ir rv_insn_ttinsn in
            let ir := ir_set_imm ir (s32 insn) in
            let ir := ir_set_impl ir (do_op rv_insn_ttinsn) in
            let ir := ir_set_insn_pc ir pc_end in
            Some ([ir], u32 (pc_end + 4))
          else None
      | Some (ir, true) =>
          let ir := ir_set_impl ir (do_op ir.(opcode)) in
          let ir := ir_set_insn_pc ir pc_end in
          let next := u32 (pc_end + if is_compressed ext_tt insn then 2 else 4) in
          if ext_tt && tensix && mailbox_lw lui_const ir then
            Some ([ir_set_impl ir do_lw_mailbox_impl], next)
          else
            let lui_const := if ext_tt && tensix then track_lui lui_const ir else lui_const in
            if insn_is_branch ir.(opcode) then
              let ir := if insn_is_indirect_branch ir.(opcode)
                        then ir_set_branch_table ir (Some new_bht) else ir in
              Some ([ir], next)
            else
              match translate_loop fuel next lui_const with
              | Some (irs, pc_end) => Some (ir :: irs, pc_end)
              | None => None
              end
      end
  end.

Definition block_translate (fuel : nat) (pc : Z) : option block_t :=
  match translate_loop fuel pc (repeat 0 32) with
  | Some (irs, pc_end) => Some (mk_block (Z.of_nat (length irs)) pc pc_end irs)
  | None => None
  end.
End translate.

(** The two passes that [block_find_or_translate] runs on a new block. *)
Definition optimize_block (malloc_ok : rv_insn -> bool) (b : block_t) : block_t :=
  let irs := optimize_constant b.(ir_list) in
  let '(irs, n) := match_pattern malloc_ok irs b.(n_insn) in
  mk_block n b.(pc_start) b.(pc_end) irs.

(** ** The block map *)

Definition BLOCK_MAP_CAPACITY_BITS : Z := 10.

Record block_map_t : Type := mk_block_map {
  block_capacity : Z; map_size : Z; slots : list (option block_t)
}.

(** [HASH_FUNC_IMPL(map_hash, BLOCK_MAP_CAPACITY_BITS, 1 << ...)]; the key
    is a [uint32_t] without JIT and SYSTEM. *)
Definition map_hash (val : Z) : Z :=
  (u32 (val * 0x61C88647) >>. (32 - BLOCK_MAP_CAPACITY_BITS))
  &. ((1 <<. BLOCK_MAP_CAPACITY_BITS) - 1).

Definition block_map_init (bits : Z) : block_map_t :=
  let cap := 1 <<. bits in
  mk_block_map cap 0 (repeat None (Z.to_nat cap)).

(** The loop [for (;; index++)] of [block_insert]; [None] is a loop that
    never ends, which takes more steps than there are slots. *)
Fixpoint insert_loop (fuel : nat) (s : list (option block_t)) (mask index : Z)
    (block : block_t) : option (list (option block_t)) :=
  match fuel with
  | O => None
  | S fuel =>
      let k := Z.to_nat (index &. mask) in
      match s !!! k with
      | None => Some (<[k := Some block]> s)
      | Some _ => insert_loop fuel s mask (index + 1) block
      end
  end.

Definition block_insert (map : block_map_t) (block : block_t) : option block_map_t :=
  let mask := map.(block_capacity) - 1 in
  let index := map_hash block.(pc_start) in
  match insert_loop (Z.to_nat map.(block_capacity)) map.(slots) mask index block with
  | Some s => Some (mk_block_map map.(block_capacity) (map.(map_size) + 1) s)
  | None => None
  end.

(** [block_find]: [Some None] is the result [NULL]. *)
Fixpoint find_loop (fuel : nat) (s : list (option block_t)) (mask index addr : Z)
    : option (option block_t) :=
  match fuel with
  | O => None
  | S fuel =>
      match s !!! Z.to_nat (index &. mask) with
      | None => Some None
      | Some block =>
          if block.(pc_start) =? addr then Some (Some block)
          else find_loop fuel s mask (index + 1) addr
      end
  end.

Definition block_find (map : block_map_t) (addr : Z) : option (option block_t) :=
  let index := map_hash addr in
  let mask := map.(block_capacity) - 1 in
  find_loop (Z.to_nat map.(block_capacity)) map.(slots) mask index addr.

(** [block_map_clear]: every slot becomes [NULL] (and the pools are reset). *)
Definition block_map_clear (map : block_map_t) : block_map_t :=
  mk_block_map map.(block_capacity) 0 ((fun _ => None) <$> map.(slots)).

(** [block_find_or_translate]: [prev] is the start address of the block that
    [rv->prev] points to, [translate] allocates and translates the block for
    an address ([None]: the pool is empty or the translation fails).  The
    condition is [map->size * 1.25 > map->block_capacity].  The result
    [None] is a probing loop that does not end, the block [None] is [NULL]. *)
Definition block_find_or_translate (translate : Z -> option block_t)
    (malloc_ok : rv_insn -> bool) (map : block_map_t) (prev : option Z) (pc : Z)
    : option (block_map_t * option Z * option block_t) :=
  match block_find map pc with
  | None => None
  | Some (Some block) => Some (map, prev, Some block)
  | Some None =>
      let clear := 4 * map.(block_capacity) <? 5 * map.(map_size) in
      let map := if clear then block_map_clear map else map in
      let prev := if clear then None else prev in
      match translate pc with
      | None => Some (map, prev, None)
      | Some block =>
          let block := optimize_block malloc_ok block in
          match block_insert map block with
          | Some map => Some (map, prev, Some block)
          | None => None
          end
      end
  end.
