(* ===== verification/Step.v ===== *)
(** * The execution loop (src/rv32emu/src/emulate.c, rv_step)

    A [machine] is a hart with its block map, the world behind its callbacks
    and the pointer [rv->prev].  A pointer to a block, or to its first
    instruction, is the start address of the block: the map holds one block
    per address, and blocks are only freed all at once.

    [rv_step] runs block after block.  A handler can leave a block through a
    tail call into another one ([run_chain]), in which case the loop does
    not see the blocks in between. *)

From Stdlib Require Import ZArith Lia Bool.
From stdpp Require Import base list numbers gmap.
From S2P Require Import Prelude Decode Riscv Exec Memory ConstOpt Fusion Block.

Definition TENSIX_KERNEL_ADDR_THRESHOLD : Z := 0x9f00.

(** What the loop uses of the coprocessor: whether there is one
    ([rv->tensix]), the two fields it keeps there and two functions of
    src/tt_cop; and the memory of the hart. *)
Record tensix_link (W : Type) : Type := mk_tensix_link {
  has_tensix : W -> bool;
  cores_in_kernel : W -> Z; set_cores_in_kernel : W -> Z -> W;
  had_trisc_in_kernel : W -> bool; set_had_trisc_in_kernel : W -> bool -> W;
  tensix_clear : W -> W; tensix_step : W -> Z -> W;
  clear_rta : W -> W
}.
Arguments has_tensix {W}. Arguments cores_in_kernel {W}.
Arguments set_cores_in_kernel {W}. Arguments had_trisc_in_kernel {W}.
Arguments set_had_trisc_in_kernel {W}. Arguments tensix_clear {W}.
Arguments tensix_step {W}. Arguments clear_rta {W}.

(** NCRISC leaving a kernel: clear the structure that [mem_local + 0x38]
    points to. *)
Definition clear_rta_l1_base {T : Type} (w : world T) : world T :=
  let m := w.(w_mem) in
  let rta_ptr := load 4 w.(w_heap) (m.(mem_local) + 0x38) in
  if u32 (rta_ptr + 10 * 4) <=? 0x180000 then
    set_heap w (fold_left (fun h i => <[m.(mem_base) + rta_ptr + i := 0]> h)
      (seqZ 0 (10 * 4)) w.(w_heap))
  else w.

(** ** Blocks in the map *)

(** Change the last instruction of a block ([block->ir_tail]). *)
Fixpoint update_last (f : rv_insn -> rv_insn) (irs : list rv_insn) : list rv_insn :=
  match irs with
  | [] => []
  | [ir] => [f ir]
  | ir :: rest => ir :: update_last f rest
  end.
Definition update_tail (f : rv_insn -> rv_insn) (b : block_t) : block_t :=
  mk_block b.(n_insn) b.(pc_start) b.(pc_end) (update_last f b.(ir_list)).
Definition ir_tail (b : block_t) : option rv_insn := last b.(ir_list).

(** Change the block at [t] in place. *)
Definition map_update (map : block_map_t) (t : Z) (f : block_t -> block_t) : block_map_t :=
  mk_block_map map.(block_capacity) map.(map_size)
    (List.map (option_map (fun b => if b.(pc_start) =? t then f b else b)) map.(slots)).

(** [block_find] as a function of addresses; it ends ([BlockMapSpec]). *)
Definition find_block (map : block_map_t) (a : Z) : option block_t :=
  default None (block_find map a).
Definition find_pc (map : block_map_t) (a : Z) : option Z := pc_start <$> find_block map a.

Record machine (W : Type) : Type := mk_machine {
  m_rv : riscv; m_w : W; m_map : block_map_t; m_prev : option Z;
  m_on_exit : bool; m_ncrisc_prev_kernel_pc : Z
}.
Arguments mk_machine {W}. Arguments m_rv {W}. Arguments m_w {W}.
Arguments m_map {W}. Arguments m_prev {W}. Arguments m_on_exit {W}.
Arguments m_ncrisc_prev_kernel_pc {W}.

Section machine.
Context {W : Type}.
Implicit Types m : machine W.

Definition set_rv m rv : machine W :=
  mk_machine rv m.(m_w) m.(m_map) m.(m_prev) m.(m_on_exit) m.(m_ncrisc_prev_kernel_pc).
Definition set_w m w : machine W :=
  mk_machine m.(m_rv) w m.(m_map) m.(m_prev) m.(m_on_exit) m.(m_ncrisc_prev_kernel_pc).
Definition set_map m map : machine W :=
  mk_machine m.(m_rv) m.(m_w) map m.(m_prev) m.(m_on_exit) m.(m_ncrisc_prev_kernel_pc).
Definition set_prev m prev : machine W :=
  mk_machine m.(m_rv) m.(m_w) m.(m_map) prev m.(m_on_exit) m.(m_ncrisc_prev_kernel_pc).
Definition set_on_exit m b : machine W :=
  mk_machine m.(m_rv) m.(m_w) m.(m_map) m.(m_prev) b m.(m_ncrisc_prev_kernel_pc).
Definition set_ncrisc m pc : machine W :=
  mk_machine m.(m_rv) m.(m_w) m.(m_map) m.(m_prev) m.(m_on_exit) pc.

Definition kernel_exit_core_cleanup m : machine W :=
  set_prev (set_map m (block_map_clear m.(m_map))) None.
End machine.

Section step.
Context {W : Type} (io : riscv_io W) (sf : softfloat) (tt : tensix_link W).
Context (tt_direct : Z -> Z -> W -> W * bool) (mailbox_stalled : Z -> W -> bool).
Context (malloc_ok : rv_insn -> bool).
(** [cycle_per_step] and [exit_addr] of [vm_attr_t]; [tfuel] bounds the
    length of a block, [cfuel] the number of blocks in a chain. *)
Context (cycle_per_step exit_addr : Z) (tfuel cfuel : nat).
Implicit Types m : machine W.

(** [rv->prev] is brought up to date with [rv->last_pc]. *)
Definition refresh_prev m : machine W :=
  match m.(m_prev) with
  | Some p => if p =? m.(m_rv).(last_pc) then m
              else set_prev m (find_pc m.(m_map) m.(m_rv).(last_pc))
  | None => m
  end.

(** Crossing the threshold between firmware and kernels. *)
Definition kernel_transition m : machine W :=
  let rv := m.(m_rv) in
  let pre_pc := rv.(pre_pc) in
  let enters := (pre_pc <? TENSIX_KERNEL_ADDR_THRESHOLD)
                && (TENSIX_KERNEL_ADDR_THRESHOLD <=? rv.(PC)) in
  let leaves := (TENSIX_KERNEL_ADDR_THRESHOLD <=? pre_pc)
                && (rv.(PC) <? TENSIX_KERNEL_ADDR_THRESHOLD) in
  let m :=
    if tt.(has_tensix) m.(m_w) && nz pre_pc then
      let core_bit := if rv.(core_id) <? 0 then u8 (1 <<. 3) else u8 (1 <<. rv.(core_id)) in
      if enters then
        let w := tt.(set_cores_in_kernel) m.(m_w)
                   (tt.(cores_in_kernel) m.(m_w) |. core_bit) in
        let w := if (0 <=? rv.(core_id)) && (rv.(core_id) <=? 2)
                 then tt.(set_had_trisc_in_kernel) w true else w in
        set_w m w
      else if leaves then
        let m := kernel_exit_core_cleanup m in
        let w := tt.(set_cores_in_kernel) m.(m_w)
                   (tt.(cores_in_kernel) m.(m_w) &. u8 (Z.lnot core_bit)) in
        let w := if (tt.(cores_in_kernel) w =? 0) && tt.(had_trisc_in_kernel) w
                 then tt.(tensix_clear) w else w in
        set_w m w
      else m
    else if rv.(core_id) =? 3 then
      if enters then
        if negb (m.(m_ncrisc_prev_kernel_pc) =? rv.(PC))
        then set_ncrisc (kernel_exit_core_cleanup m) rv.(PC)
        else m
      else if leaves then set_w m (tt.(clear_rta) m.(m_w))
      else m
    else m in
  set_rv m (set_pre_pc m.(m_rv) rv.(PC)).

(** The block for the program counter; [None] is a probing loop that does
    not end. *)
Definition find_or_translate m : option (machine W * option block_t) :=
  let rv := m.(m_rv) in
  match block_find_or_translate
          (block_translate true (tt.(has_tensix) m.(m_w))
             (io.(mem_ifetch) rv m.(m_w)) rv.(X) tfuel)
          malloc_ok m.(m_map) m.(m_prev) rv.(PC) with
  | Some (map, prev, b) => Some (set_prev (set_map m map) prev, b)
  | None => None
  end.

(** Which pointer of the previous block's last instruction is set to the
    new block. *)
Definition chain_tail (taken : bool) (t : Z) (last_ir : rv_insn) : rv_insn :=
  if negb (insn_is_unconditional_branch last_ir.(opcode)) then
    if taken then
      match last_ir.(branch_taken) with
      | None => ir_set_branch_taken last_ir (Some t)
      | Some _ => last_ir
      end
    else
      match last_ir.(branch_untaken) with
      | None => ir_set_branch_untaken last_ir (Some t)
      | Some _ => last_ir
      end
  else if insn_is_direct_branch last_ir.(opcode) then
    match last_ir.(branch_taken) with
    | None => ir_set_branch_taken last_ir (Some t)
    | Some _ => last_ir
    end
  else last_ir.

Definition chain_block m (block : block_t) : machine W :=
  match m.(m_prev) with
  | Some p =>
      set_map m (map_update m.(m_map) p
        (update_tail (chain_tail m.(m_rv).(is_branch_taken) block.(pc_start))))
  | None => m
  end.

(** How a chain of blocks ends: the value of the handler, or it is still
    going when the fuel is used up, about to enter the block at [t]. *)
Inductive chain_end : Type :=
  | Ended (b : bool)
  | Running (t cycle pc : Z)
  | Wrong.

(** [ir->impl(rv, ir, cycle, pc)] for the first instruction of the block at
    [t], with the tail calls into other blocks.  The branch history table
    that a tail call leaves is that of the last instruction. *)
Fixpoint run_chain (fuel : nat) (map : block_map_t) (t : Z) (rv : riscv) (w : W)
    (cycle pc : Z) : block_map_t * riscv * W * chain_end :=
  match fuel with
  | O => (map, rv, w, Running t cycle pc)
  | S fuel =>
      match find_block map t with
      | None => (map, rv, w, Wrong)
      | Some b =>
          match exec_block io sf (find_pc map) tt_direct mailbox_stalled
                  b.(ir_list) rv w cycle pc with
          | (rv, w, Returned r) => (map, rv, w, Ended r)
          | (rv, w, Chained t' cycle pc bt) =>
              let map := map_update map t
                (update_tail (fun ir => ir_set_branch_table ir bt)) in
              run_chain fuel map t' rv w cycle pc
          | (rv, w, Stuck) => (map, rv, w, Wrong)
          end
      end
  end.

(** One iteration of the loop: go on, leave it, a chain that is still
    running, or undefined behaviour. *)
Inductive verdict : Type :=
  | Again
  | Leave
  | Unfinished (t cycle pc : Z)
  | Crash.

Definition step_block m : machine W * verdict :=
  let m := kernel_transition (refresh_prev m) in
  match find_or_translate m with
  | None => (m, Crash)
  | Some (m, None) => (set_rv m (set_halt m.(m_rv) true), Leave)
  | Some (m, Some block) =>
      let m := if default (-1) (insn_pc <$> head block.(ir_list)) =? exit_addr
               then set_on_exit m true else m in
      let m := chain_block m block in
      let rv := set_last_pc m.(m_rv) m.(m_rv).(PC) in
      match run_chain cfuel m.(m_map) block.(pc_start) rv m.(m_w)
              rv.(csr_cycle) rv.(PC) with
      | (map, rv, w, Ended true) =>
          let m := set_prev (set_w (set_rv (set_map m map) rv) w) (Some block.(pc_start)) in
          (if tt.(has_tensix) w && (0 <=? rv.(core_id)) && (rv.(core_id) <=? 2)
           then set_w m (tt.(tensix_step) w rv.(core_id)) else m, Again)
      | (map, rv, w, Ended false) =>
          (set_prev (set_w (set_rv (set_map m map) rv) w) None, Leave)
      | (map, rv, w, Running t cycle pc) =>
          (set_w (set_rv (set_map m map) rv) w, Unfinished t cycle pc)
      | (map, rv, w, Wrong) => (set_w (set_rv (set_map m map) rv) w, Crash)
      end
  end.

(** The loop; [Again] is fuel that was not enough. *)
Fixpoint step_loop (fuel : nat) (cycles_target : Z) m : machine W * verdict :=
  match fuel with
  | O => (m, Again)
  | S fuel =>
      if (m.(m_rv).(csr_cycle) <? cycles_target) && negb m.(m_rv).(halt) then
        match step_block m with
        | (m, Again) => step_loop fuel cycles_target m
        | r => r
        end
      else (m, Leave)
  end.

Definition rv_step (fuel : nat) m : machine W * verdict :=
  step_loop fuel (u64 (m.(m_rv).(csr_cycle) + cycle_per_step)) m.

(** [rv_step_debug]: one instruction, without a block; [None] is a failed
    assertion or undefined behaviour. *)
Definition rv_step_debug m : option (machine W) :=
  let rv := m.(m_rv) in
  let insn := io.(mem_ifetch) rv m.(m_w) rv.(PC) in
  if insn =? 0 then None else
  match rv_decode true rv_insn0 insn with
  | None => None
  | Some (ir, false) =>
      let rv := set_compressed rv (is_compressed true insn) in
      Some (set_rv m (SET_CAUSE_AND_TVAL_THEN_TRAP io.(on_trap) rv ILLEGAL_INSN insn))
  | Some (ir, true) =>
      let ir := ir_set_impl ir (do_op ir.(opcode)) in
      let ir := ir_set_insn_pc ir rv.(PC) in
      match exec_block io sf (find_pc m.(m_map)) tt_direct mailbox_stalled [ir]
              rv m.(m_w) rv.(csr_cycle) rv.(PC) with
      | (rv, w, Returned _) => Some (set_w (set_rv m rv) w)
      | _ => None
      end
  end.

(** The default loop of [rv_run]; [Leave] is a halted hart, [Again] fuel that
    was not enough. *)
Fixpoint rv_run (n fuel : nat) m : machine W * verdict :=
  match n with
  | O => (m, Again)
  | S n =>
      if m.(m_rv).(halt) then (m, Leave) else
      match rv_step fuel m with
      | (m, Leave) => rv_run n fuel m
      | r => r
      end
  end.

(** One round of the loop of [rv32_run_co]: [mailbox_process] tells whether
    the core waits for a mailbox, [yield_cb] lets the other cores run. *)
Definition co_round (mailbox_process : W -> Z -> bool) (yield_cb : machine W -> machine W)
    (max_instructions executed : Z) (m : machine W) : machine W * Z :=
  let executed :=
    if tt.(has_tensix) m.(m_w) && mailbox_process m.(m_w) m.(m_rv).(core_id)
    then max_instructions else executed in
  let executed := executed + 1 in
  if max_instructions <=? executed then (yield_cb m, 0) else (m, executed).

Fixpoint rv32_run_co (mailbox_process : W -> Z -> bool) (yield_cb : machine W -> machine W)
    (max_instructions : Z) (n fuel : nat) (executed : Z) m : machine W * verdict :=
  match n with
  | O => (m, Again)
  | S n =>
      if m.(m_rv).(halt) then (m, Leave) else
      match rv_step fuel m with
      | (m, Leave) =>
          let '(m, executed) :=
            co_round mailbox_process yield_cb max_instructions executed m in
          rv32_run_co mailbox_process yield_cb max_instructions n fuel executed m
      | r => r
      end
  end.
End step.
