(* ===== verification/BlockMapSpec.v ===== *)
(** * The block map is a finite map

    The open-addressing table behind [block_find] and [block_insert] refines
    a [gmap] from start addresses to blocks, and the limit that
    [block_find_or_translate] keeps on its size makes every probe end. *)

From Stdlib Require Import ZArith Lia Bool.
From stdpp Require Import base list numbers gmap.
From S2P Require Import Prelude Decode Riscv Exec ConstOpt Fusion Block.

Definition cap : Z := 1024.

(** The slot that a probe at [i] looks at. *)
Definition slot (s : list (option block_t)) (i : Z) : option block_t :=
  s !!! Z.to_nat (i mod cap).

Lemma mask_mod i : i &. (cap - 1) = i mod cap.
Proof. apply (Z.land_ones i 10). lia. Qed.
Lemma map_hash_range a : 0 <= map_hash a < cap.
Proof.
  unfold map_hash, BLOCK_MAP_CAPACITY_BITS. change ((1 <<. 10) - 1) with (cap - 1).
  rewrite mask_mod. apply Z.mod_pos_bound. done.
Qed.
Lemma mod_cap_range i : 0 <= i mod cap < cap.
Proof. by apply Z.mod_pos_bound. Qed.

(** ** Probing *)

(** The first position that satisfies a decidable property. *)
Lemma least (P : nat -> Prop) `{!forall n, Decision (P n)} n :
  P n -> exists m, (m <= n)%nat /\ P m /\ forall i, (i < m)%nat -> ~ P i.
Proof.
  induction n as [n IH] using lt_wf_ind. intros Hn.
  destruct (decide (Exists P (seq 0 n))) as [He|He].
  - apply Exists_exists in He as (k & Hk & HP). apply elem_of_seq in Hk.
    destruct (IH k ltac:(lia) HP) as (m & ? & ? & ?). exists m. split; [lia | done].
  - exists n. split; [done|]. split; [done|]. intros i Hi HP. apply He.
    apply Exists_exists. exists i. split; [apply elem_of_seq; lia | done].
Qed.

Lemma find_loop_skip fuel s index a d :
  (forall i, (i < d)%nat -> exists b, slot s (index + Z.of_nat i) = Some b /\ b.(pc_start) <> a) ->
  (d <= fuel)%nat ->
  find_loop fuel s (cap - 1) index a =
  find_loop (fuel - d) s (cap - 1) (index + Z.of_nat d) a.
Proof.
  revert fuel index. induction d as [|d IH]; intros fuel index Hb Hf.
  - by rewrite Nat.sub_0_r, Z.add_0_r.
  - destruct fuel as [|fuel]; [lia|]. cbn [find_loop Nat.sub]. rewrite mask_mod.
    destruct (Hb 0%nat ltac:(lia)) as (b & Hs & Hne). rewrite Z.add_0_r in Hs.
    unfold slot in Hs. rewrite Hs, (proj2 (Z.eqb_neq _ _) Hne).
    rewrite IH; [f_equal; lia | | lia].
    intros i Hi. destruct (Hb (S i) ltac:(lia)) as (b' & Hs' & Hne').
    exists b'. split; [|done]. rewrite <- Hs'. f_equal. lia.
Qed.

Lemma insert_loop_skip fuel s index b d :
  (forall i, (i < d)%nat -> slot s (index + Z.of_nat i) <> None) -> (d <= fuel)%nat ->
  insert_loop fuel s (cap - 1) index b =
  insert_loop (fuel - d) s (cap - 1) (index + Z.of_nat d) b.
Proof.
  revert fuel index. induction d as [|d IH]; intros fuel index Hb Hf.
  - by rewrite Nat.sub_0_r, Z.add_0_r.
  - destruct fuel as [|fuel]; [lia|]. cbn [insert_loop Nat.sub]. rewrite mask_mod.
    pose proof (Hb 0%nat ltac:(lia)) as Hs. rewrite Z.add_0_r in Hs. unfold slot in Hs.
    destruct (s !!! _) as [b'|]; [|done].
    rewrite IH; [f_equal; lia | | lia].
    intros i Hi. pose proof (Hb (S i) ltac:(lia)) as Hs'.
    by replace (index + 1 + Z.of_nat i) with (index + Z.of_nat (S i)) by lia.
Qed.

(** ** The invariant *)

(** Every block is reachable by the probes for its address: the slots
    between its hash and its place are taken. *)
Record table_ok (s : list (option block_t)) : Prop := mk_table_ok {
  t_len : length s = 1024%nat;
  t_reach : forall j b, 0 <= j < cap -> slot s j = Some b ->
    exists d, (d < 1024)%nat /\ j = (map_hash b.(pc_start) + Z.of_nat d) mod cap /\
    forall i, (i < d)%nat -> slot s (map_hash b.(pc_start) + Z.of_nat i) <> None;
  t_uniq : forall j j' b b', 0 <= j < cap -> 0 <= j' < cap ->
    slot s j = Some b -> slot s j' = Some b' -> b.(pc_start) = b'.(pc_start) -> j = j'
}.

Definition used (s : list (option block_t)) : nat := length (filter is_Some s).

Lemma used_full s : Forall is_Some s -> used s = length s.
Proof.
  unfold used. induction 1 as [|o s Ho Hs IH]; [done|].
  rewrite filter_cons_True by done. simpl. by rewrite IH.
Qed.

Lemma used_insert s k b :
  s !! k = Some None -> used (<[k := Some b]> s) = S (used s).
Proof.
  unfold used. revert k. induction s as [|o s IH]; intros [|k] Hk; simplify_eq/=.
  - done.
  - destruct o as [b'|]; rewrite !filter_cons; simpl; by rewrite IH.
Qed.

Lemma free_slot s index :
  length s = 1024%nat -> (used s < 1024)%nat ->
  exists d, (d < 1024)%nat /\ slot s (index + Z.of_nat d) = None /\
  forall i, (i < d)%nat -> slot s (index + Z.of_nat i) <> None.
Proof.
  intros Hl Hu.
  assert (exists k, (k < 1024)%nat /\ s !!! k = None) as (k & Hk & Hs).
  { destruct (decide (Exists (fun k => s !!! k = None) (seq 0 1024))) as [He|He].
    - apply Exists_exists in He as (k & Hk & Hs). apply elem_of_seq in Hk.
      exists k. split; [lia | done].
    - exfalso. rewrite used_full in Hu; [lia|].
      apply Forall_lookup_2. intros k o Hko. destruct o as [b|]; [eauto|].
      exfalso. apply He, Exists_exists. exists k. apply lookup_lt_Some in Hko as Hlt.
      split; [apply elem_of_seq; lia | by apply list_lookup_total_correct]. }
  destruct (least (fun d => slot s (index + Z.of_nat d) = None)
              (Z.to_nat ((Z.of_nat k - index) mod cap))) as (m & Hm & HP & Hmin).
  - unfold slot. rewrite Z2Nat.id by apply mod_cap_range.
    rewrite Zplus_mod_idemp_r. replace (index + (Z.of_nat k - index)) with (Z.of_nat k) by lia.
    rewrite Z.mod_small by (unfold cap; lia). by rewrite Nat2Z.id.
  - exists m. split; [|done]. pose proof (mod_cap_range (Z.of_nat k - index)).
    unfold cap in *. lia.
Qed.

(** What a search finds: the block with that address, if there is one. *)
Definition holds (s : list (option block_t)) (a : Z) (b : block_t) : Prop :=
  b.(pc_start) = a /\ exists j, 0 <= j < cap /\ slot s j = Some b.

Lemma slot_mod s i : slot s (i mod cap) = slot s i.
Proof. unfold slot. by rewrite Z.mod_mod. Qed.

(** Whether the [i]-th probe for [a] hits its block. *)
Definition hit (s : list (option block_t)) (a : Z) (i : nat) : bool :=
  match slot s (map_hash a + Z.of_nat i) with Some b => b.(pc_start) =? a | None => false end.

Lemma find_spec s a :
  table_ok s -> (used s < 1024)%nat ->
  (exists b, find_loop 1024 s (cap - 1) (map_hash a) a = Some (Some b) /\ holds s a b) \/
  (find_loop 1024 s (cap - 1) (map_hash a) a = Some None /\ forall b, ~ holds s a b).
Proof.
  intros [Hl Hr Hu] Hused. destruct (free_slot s (map_hash a) Hl Hused) as (d & Hd & Hs & Hocc).
  destruct (decide (Exists (fun i => hit s a i = true) (seq 0 d))) as [He|He].
  - apply Exists_exists in He as (k & Hk & HP). apply elem_of_seq in Hk.
    destruct (least (fun i => hit s a i = true) k HP) as (m & Hm & HPm & Hmin).
    unfold hit in HPm. destruct (slot s (map_hash a + Z.of_nat m)) as [b|] eqn:Em; [|done].
    left. exists b. split.
    + rewrite (find_loop_skip _ _ _ _ m); [| |lia].
      * destruct (1024 - m)%nat eqn:E; [lia|]. cbn [find_loop]. rewrite mask_mod.
        unfold slot in Em. by rewrite Em, HPm.
      * intros i Hi. specialize (Hmin i Hi). specialize (Hocc i ltac:(lia)). unfold hit in Hmin.
        destruct (slot s (map_hash a + Z.of_nat i)) as [b'|]; [|done].
        exists b'. split; [done|]. intros Hb'. apply Hmin. by apply Z.eqb_eq.
    + split; [by apply Z.eqb_eq|]. exists ((map_hash a + Z.of_nat m) mod cap).
      rewrite slot_mod. split; [apply mod_cap_range | done].
  - assert (forall i, (i < d)%nat -> hit s a i <> true) as Hmiss.
    { intros i Hi Ht. apply He, Exists_exists. exists i.
      split; [apply elem_of_seq; lia | done]. }
    right. split.
    + rewrite (find_loop_skip _ _ _ _ d); [| |lia].
      * destruct (1024 - d)%nat eqn:E; [lia|]. cbn [find_loop]. rewrite mask_mod.
        unfold slot in Hs. by rewrite Hs.
      * intros i Hi. specialize (Hocc i Hi). specialize (Hmiss i Hi). unfold hit in Hmiss.
        destruct (slot s (map_hash a + Z.of_nat i)) as [b'|] eqn:Eb; [|done].
        exists b'. split; [done|]. intros Ha. apply Hmiss. by apply Z.eqb_eq.
    + intros b [Ha (j & Hj & Hjb)]. destruct (Hr j b Hj Hjb) as (d' & Hd' & Ej & Hocc').
      rewrite Ha in *. rewrite Ej, slot_mod in Hjb.
      destruct (lt_eq_lt_dec d' d) as [[Hlt|Heq]|Hgt].
      * apply (Hmiss d' Hlt). unfold hit. rewrite Hjb. by apply Z.eqb_eq.
      * subst d'. congruence.
      * by apply (Hocc' d).
Qed.

(** ** Insertion *)

Lemma slot_insert s k b i :
  length s = 1024%nat -> 0 <= k < cap ->
  slot (<[Z.to_nat k := Some b]> s) i = if decide (i mod cap = k) then Some b else slot s i.
Proof.
  intros Hl Hk. unfold slot. pose proof (mod_cap_range i). unfold cap in *.
  destruct (decide (i mod 1024 = k)) as [<-|].
  - apply list_lookup_total_insert_eq. lia.
  - apply list_lookup_total_insert_ne. lia.
Qed.

Section insertion.
Context (s : list (option block_t)) (b : block_t) (d : nat).
Context (Ht : table_ok s) (Hd : (d < 1024)%nat) (Hno : forall b', ~ holds s b.(pc_start) b').
Context (Hs : slot s (map_hash b.(pc_start) + Z.of_nat d) = None).
Context (Hocc : forall i, (i < d)%nat -> slot s (map_hash b.(pc_start) + Z.of_nat i) <> None).
Definition place : Z := (map_hash b.(pc_start) + Z.of_nat d) mod cap.
Definition inserted : list (option block_t) := <[Z.to_nat place := Some b]> s.

Lemma slot_inserted i :
  slot inserted i = if decide (i mod cap = place) then Some b else slot s i.
Proof using Ht. apply slot_insert; [by apply t_len | apply mod_cap_range]. Qed.

Lemma slot_place : slot s place = None.
Proof using Hs. unfold place. by rewrite slot_mod. Qed.

Lemma slot_inserted_ne i : slot s i <> None -> slot inserted i = slot s i.
Proof using Ht Hs.
  intros Hi. rewrite slot_inserted. destruct (decide _) as [E|]; [|done].
  rewrite <- slot_mod, E, slot_place in Hi. done.
Qed.

Lemma slot_inserted_inv j b' :
  0 <= j < cap -> slot inserted j = Some b' ->
  (j = place /\ b' = b) \/ (slot s j = Some b' /\ b'.(pc_start) <> b.(pc_start)).
Proof using Ht Hno.
  intros Hj. rewrite slot_inserted, Z.mod_small by done.
  destruct (decide _) as [E|]; [intros [= <-]; by left|]. intros Hb. right. split; [done|].
  intros E. apply (Hno b'). split; [done|]. by exists j.
Qed.

Lemma inserted_ok : table_ok inserted.
Proof using Ht Hno Hs Hocc Hd.
  split.
  - unfold inserted. rewrite length_insert. by apply t_len.
  - intros j b' Hj Hb'. destruct (slot_inserted_inv j b' Hj Hb') as [[-> ->]|[Hb _]].
    + exists d. split_and!; [done | done|]. intros i Hi. rewrite slot_inserted_ne; by apply Hocc.
    + destruct (t_reach s Ht j b' Hj Hb) as (d' & ? & ? & Hi). exists d'. split_and!; [done..|].
      intros i Hid. rewrite slot_inserted_ne; by apply Hi.
  - intros j j' b1 b2 Hj Hj' H1 H2 E.
    destruct (slot_inserted_inv j b1 Hj H1) as [[-> ->]|[Hb1 Hne1]],
      (slot_inserted_inv j' b2 Hj' H2) as [[-> ->]|[Hb2 Hne2]]; try congruence.
    by apply (t_uniq s Ht j j' b1 b2).
Qed.

Lemma holds_inserted a b' :
  holds inserted a b' <-> (a = b.(pc_start) /\ b' = b) \/ holds s a b'.
Proof using Ht Hno Hs.
  split.
  - intros [Ha (j & Hj & Hb)]. destruct (slot_inserted_inv j b' Hj Hb) as [[-> ->]|[Hb' _]].
    + by left.
    + right. split; [done|]. by exists j.
  - intros [[-> ->]|[Ha (j & Hj & Hb)]]; (split; [done|]).
    + exists place. split; [apply mod_cap_range|]. rewrite slot_inserted.
      by rewrite Z.mod_small, decide_True by (done || apply mod_cap_range).
    + exists j. split; [done|]. rewrite slot_inserted_ne; congruence.
Qed.
End insertion.

Lemma insert_spec s b :
  table_ok s -> (used s < 1024)%nat -> (forall b', ~ holds s b.(pc_start) b') ->
  exists s', insert_loop 1024 s (cap - 1) (map_hash b.(pc_start)) b = Some s' /\
  table_ok s' /\ used s' = S (used s) /\
  forall a b', holds s' a b' <-> (a = b.(pc_start) /\ b' = b) \/ holds s a b'.
Proof.
  intros Ht Hused Hno. pose proof Ht as [Hl _ _].
  destruct (free_slot s (map_hash b.(pc_start)) Hl Hused) as (d & Hd & Hs & Hocc).
  exists (inserted s b d). split_and!.
  - rewrite (insert_loop_skip _ _ _ _ d) by (done || lia).
    destruct (1024 - d)%nat eqn:E; [lia|]. cbn [insert_loop]. rewrite mask_mod.
    unfold slot in Hs. by rewrite Hs.
  - by apply inserted_ok.
  - apply used_insert. unfold place. rewrite <- Hs. unfold slot.
    apply list_lookup_lookup_total_lt. pose proof (mod_cap_range (map_hash (pc_start b) + Z.of_nat d)).
    unfold cap in *. lia.
  - intros a b'. by apply holds_inserted.
Qed.

(** ** The abstraction *)

(** [m] represents the finite map [g] from start addresses to blocks. *)
Record repr (m : block_map_t) (g : gmap Z block_t) : Prop := mk_repr {
  r_cap : m.(block_capacity) = cap;
  r_ok : table_ok m.(slots);
  r_size : m.(map_size) = Z.of_nat (used m.(slots));
  r_map : forall a b, g !! a = Some b <-> holds m.(slots) a b
}.

Lemma slot_empty s i : Forall (fun o => o = None) s -> length s = 1024%nat -> slot s i = None.
Proof.
  intros Hf Hl. pose proof (mod_cap_range i). unfold slot, cap in *.
  apply (Forall_lookup_total_1 (fun o => o = None)); [done | lia].
Qed.

Lemma repr_empty s : Forall (fun o => o = None) s -> length s = 1024%nat ->
  repr (mk_block_map cap 0 s) ∅.
Proof.
  intros Hf Hl. split; [done | split; [done | |] | |]; simpl.
  - intros j b _. by rewrite slot_empty.
  - intros j j' b b' _ _. by rewrite slot_empty.
  - assert (used s = 0%nat) as ->; [|done]. unfold used. clear Hl.
    induction Hf as [|o s -> Hf IH]; [done|]. by rewrite filter_cons_False by (intros [??]; done).
  - intros a b. rewrite lookup_empty. split; [done|]. intros [_ (j & _ & Hb)].
    by rewrite slot_empty in Hb.
Qed.

Lemma find_repr m g a :
  repr m g -> m.(map_size) < cap -> block_find m a = Some (g !! a).
Proof.
  intros [Hc Ht Hs Hm] Hlt. unfold block_find. rewrite Hc. change (Z.to_nat cap) with 1024%nat.
  destruct (find_spec m.(slots) a Ht) as [(b & -> & Hb)|[-> Hno]].
  - unfold cap in *. lia.
  - by rewrite (proj2 (Hm a b) Hb).
  - destruct (g !! a) as [b|] eqn:E; [|done]. by apply Hm, Hno in E.
Qed.

Lemma insert_repr m g b :
  repr m g -> m.(map_size) < cap -> g !! b.(pc_start) = None ->
  exists m', block_insert m b = Some m' /\ repr m' (<[b.(pc_start) := b]> g) /\
  m'.(map_size) = m.(map_size) + 1.
Proof.
  intros [Hc Ht Hs Hm] Hlt Hg. unfold block_insert. rewrite Hc.
  change (Z.to_nat cap) with 1024%nat.
  destruct (insert_spec m.(slots) b Ht) as (s' & -> & Ht' & Hu & Hh).
  - unfold cap in *. lia.
  - intros b' Hb'. apply Hm in Hb'. congruence.
  - eexists. split; [done|]. split; [|done]. split; [done | done | simpl; lia|].
    intros a b'. simpl. rewrite Hh, <- Hm, lookup_insert_Some. intuition congruence.
Qed.

Lemma clear_repr m g : repr m g -> repr (block_map_clear m) ∅.
Proof.
  intros [Hc [Hl _ _] _ _]. unfold block_map_clear. rewrite Hc. apply repr_empty.
  - apply Forall_fmap, Forall_true. done.
  - by rewrite length_fmap.
Qed.

(** C16.  The block map implements a finite map: a table that represents [g]
    and is not full answers [block_find] with [g]'s entry, and in both
    cases the probing loop ends; [block_insert] of a block whose address is
    new ends and represents [g] with that entry; [block_map_clear] and
    [block_map_init] represent the empty map. *)
Theorem block_map_refines m g a b :
  repr m g -> m.(map_size) < m.(block_capacity) ->
  block_find m a = Some (g !! a) /\
  (g !! b.(pc_start) = None -> exists m', block_insert m b = Some m' /\
     repr m' (<[b.(pc_start) := b]> g) /\ m'.(map_size) = m.(map_size) + 1) /\
  repr (block_map_clear m) ∅ /\
  repr (block_map_init BLOCK_MAP_CAPACITY_BITS) ∅.
Proof.
  intros Hr Hlt. rewrite (r_cap m g Hr) in Hlt. split_and!.
  - by apply find_repr.
  - by apply insert_repr.
  - by eapply clear_repr.
  - apply repr_empty; [|by rewrite repeat_length]. by apply (Forall_replicate _ 1024%nat None).
Qed.

(** Making room: the table that the new block goes into. *)
Lemma make_room m g :
  repr m g -> m.(map_size) <= 820 ->
  exists g', repr (if 4 * cap <? 5 * m.(map_size) then block_map_clear m else m) g' /\
  (if 4 * cap <? 5 * m.(map_size) then block_map_clear m else m).(map_size) <= 819 /\
  g' = if 820 <=? m.(map_size) then ∅ else g.
Proof.
  intros Hr Hsz. destruct (Z.ltb_spec (4 * cap) (5 * m.(map_size))) as [Hc|Hc].
  - exists ∅. rewrite (proj2 (Z.leb_le _ _)) by (unfold cap in *; lia).
    split_and!; [by eapply clear_repr | done | done].
  - exists g. rewrite (proj2 (Z.leb_gt _ _)) by (unfold cap in *; lia).
    split_and!; [done | unfold cap in *; lia | done].
Qed.

Lemma find_or_translate_run translate malloc_ok m g prev pc :
  repr m g -> m.(map_size) <= 820 ->
  (forall b, translate pc = Some b -> b.(pc_start) = pc) ->
  exists m' prev' r,
  block_find_or_translate translate malloc_ok m prev pc = Some (m', prev', r) /\
  m'.(map_size) <= 820 /\
  match g !! pc with
  | Some b => m' = m /\ prev' = prev /\ r = Some b
  | None =>
      let full := 820 <=? m.(map_size) in
      let g1 := if full then ∅ else g in
      prev' = (if full then None else prev) /\
      r = optimize_block malloc_ok <$> translate pc /\
      repr m' (match r with Some b => <[pc := b]> g1 | None => g1 end)
  end.
Proof.
  intros Hr Hsz Htr. unfold block_find_or_translate.
  rewrite (find_repr m g pc Hr) by (unfold cap; lia).
  destruct (g !! pc) as [b|] eqn:E; [by eexists _, _, _|].
  rewrite (r_cap m g Hr). destruct (make_room m g Hr Hsz) as (g' & Hr' & Hs' & Hg').
  assert ((4 * cap <? 5 * m.(map_size)) = (820 <=? m.(map_size))) as Hf.
  { unfold cap. apply eq_bool_prop_intro. split; intros ?%Is_true_true%Z.ltb_lt || intros ?%Is_true_true%Z.leb_le;
    apply Is_true_true; [apply Z.leb_le | apply Z.ltb_lt]; lia. }
  set (m1 := if 4 * cap <? _ then _ else _) in *. rewrite <- Hg', Hf.
  destruct (translate pc) as [b0|] eqn:Et; simpl.
  - assert ((optimize_block malloc_ok b0).(pc_start) = pc) as Hpc.
    { unfold optimize_block. destruct (match_pattern _ _ _). simpl. by apply Htr. }
    destruct (insert_repr m1 g' (optimize_block malloc_ok b0) Hr') as (m' & -> & Hr1 & Hs1).
    + unfold cap; lia.
    + rewrite Hpc, Hg'. by case_match.
    + rewrite Hpc in Hr1. eexists _, _, _. split_and!; [done | lia | done..].
  - eexists _, _, _. split_and!; [done | lia | done..].
Qed.

(** C17.  The lookup-or-translate step, on a table that represents [g] with
    at most 820 of its 1024 slots in use: the probing loops end; a known
    address gives its block and changes nothing; an unknown one gives the
    translated and optimised block, and the new table represents [g] with
    that entry, or the entry alone when 820 slots were in use, in which case
    the pointer to the previous block, now stale, is dropped; a failed
    translation gives [NULL].  The bound of 820 is kept. *)
Theorem find_or_translate_ok translate malloc_ok m g prev pc :
  repr m g -> m.(map_size) <= 820 ->
  (forall b, translate pc = Some b -> b.(pc_start) = pc) ->
  exists m' prev' r,
  block_find_or_translate translate malloc_ok m prev pc = Some (m', prev', r) /\
  m'.(map_size) <= 820 /\
  match g !! pc with
  | Some b => m' = m /\ prev' = prev /\ r = Some b
  | None =>
      let full := 820 <=? m.(map_size) in
      let g1 := if full then ∅ else g in
      prev' = (if full then None else prev) /\
      r = optimize_block malloc_ok <$> translate pc /\
      repr m' (match r with Some b => <[pc := b]> g1 | None => g1 end)
  end.
Proof. apply find_or_translate_run. Qed.

(** ** Witnesses *)

(** A block of one [jal x0, 0]. *)
Definition blk (pc : Z) : block_t :=
  mk_block 1 pc (pc + 4)
    [ir_set_impl (ir_set_opcode rv_insn0 rv_insn_jal) (do_op rv_insn_jal)].

Lemma init_repr : repr (block_map_init BLOCK_MAP_CAPACITY_BITS) ∅.
Proof. apply repr_empty; [by apply (Forall_replicate _ 1024%nat None) | done]. Qed.

Lemma block_map_refines_witness :
  exists m', block_insert (block_map_init BLOCK_MAP_CAPACITY_BITS) (blk 256) = Some m' /\
  block_find m' 256 = Some (Some (blk 256)) /\ block_find m' 260 = Some None.
Proof.
  destruct (block_map_refines _ ∅ 0 (blk 256) init_repr eq_refl) as (_ & Hi & _ & _).
  destruct (Hi eq_refl) as (m' & Hm & Hr & Hs). exists m'. split; [done|].
  assert (m'.(map_size) < m'.(block_capacity)) as Hlt by (by rewrite Hs, (r_cap _ _ Hr)).
  split; [apply (block_map_refines m' _ 256 (blk 0) Hr Hlt)
         | apply (block_map_refines m' _ 260 (blk 0) Hr Hlt)].
Defined.

Lemma find_or_translate_ok_witness :
  exists m' prev' r,
  block_find_or_translate (fun pc => Some (blk pc)) (fun _ => true)
    (block_map_init BLOCK_MAP_CAPACITY_BITS) (Some 128) 256 = Some (m', prev', r) /\
  prev' = Some 128 /\ pc_start <$> r = Some 256.
Proof.
  destruct (find_or_translate_ok (fun pc => Some (blk pc)) (fun _ => true)
    (block_map_init BLOCK_MAP_CAPACITY_BITS) ∅ (Some 128) 256 init_repr) as (m' & p' & r & H & _ & Hr).
  - done.
  - by intros b [= <-].
  - exists m', p', r. split; [done|]. destruct Hr as (-> & -> & _). done.
Defined.
