(* ===== verification/DecodeSpec.v ===== *)
(** * Correctness of the decoder

    The instruction formats of the RISC-V manual as an encoder, and the
    theorems that relate it to [rv_decode]: the fields and immediates that
    decode.c extracts with masks and shifts are those of the format, every
    legal instruction is decoded to its opcode and operands, and (where the
    decoder keeps all the fields) a decoded instruction determines its
    word. *)

From Stdlib Require Import ZArith Lia Bool.
From stdpp Require Import base list numbers.
From S2P Require Import Prelude Decode.

(** ** Fields *)

Lemma decode_rd_bits w : decode_rd w = bits 7 5 w.
Proof. by apply land_mask_shiftr. Qed.
Lemma decode_rs1_bits w : decode_rs1 w = bits 15 5 w.
Proof. by apply land_mask_shiftr. Qed.
Lemma decode_rs2_bits w : decode_rs2 w = bits 20 5 w.
Proof. by apply land_mask_shiftr. Qed.
Lemma decode_funct3_bits w : decode_funct3 w = bits 12 3 w.
Proof. by apply land_mask_shiftr. Qed.
Lemma decode_funct7_bits w : decode_funct7 w = bits 25 7 w.
Proof. by apply land_mask_shiftr. Qed.
Lemma decode_rs3_bits w : decode_r4type_rs3 w = bits 27 5 w.
Proof. by apply land_mask_shiftr. Qed.
Lemma decode_index_bits w : (w &. INSN_6_2) >>. 2 = bits 2 5 w.
Proof. by apply land_mask_shiftr. Qed.
Lemma fc_opcode_bits w : w &. FC_OPCODE = bits 0 2 w.
Proof. rewrite (land_mask w 0 2) by done. lia. Qed.
Lemma utype_imm_bits w : decode_utype_imm w = bits 12 20 w * 2 ^ 12.
Proof. by apply land_mask. Qed.

Lemma itype_imm_bits w : decode_itype_imm w = sext 12 (bits 20 12 w).
Proof.
  unfold decode_itype_imm. rewrite (land_mask w 20 12) by done.
  shifts_to_arith. gen_bits. word_lia.
Qed.

Lemma stype_imm_bits w :
  decode_stype_imm w = sext 12 (bits 25 7 w * 2 ^ 5 + bits 7 5 w).
Proof.
  unfold decode_stype_imm. cbv zeta. rewrite Z.lor_0_l.
  rewrite (land_mask w 25 7), (land_mask w 7 5) by done.
  shifts_to_arith. gen_bits. lor_sum 25. word_lia.
Qed.

Lemma btype_imm_bits w :
  decode_btype_imm w =
  sext 13 (bits 31 1 w * 2 ^ 12 + bits 7 1 w * 2 ^ 11
           + bits 25 6 w * 2 ^ 5 + bits 8 4 w * 2).
Proof.
  unfold decode_btype_imm. cbv zeta. rewrite Z.lor_0_l.
  rewrite (land_mask w 31 1), (land_mask w 7 1), (land_mask w 25 6),
    (land_mask w 8 4) by done.
  shifts_to_arith. gen_bits. lor_sum 31. lor_sum 30. lor_sum 24. word_lia.
Qed.

Lemma jtype_imm_bits w :
  decode_jtype_imm w =
  sext 21 (bits 31 1 w * 2 ^ 20 + bits 12 8 w * 2 ^ 12
           + bits 20 1 w * 2 ^ 11 + bits 21 10 w * 2).
Proof.
  unfold decode_jtype_imm. cbv zeta. rewrite Z.lor_0_l.
  rewrite (land_mask w 31 1), (land_mask w 12 8), (land_mask w 20 1),
    (land_mask w 21 10) by done.
  shifts_to_arith. gen_bits. lor_sum 31. lor_sum 23. lor_sum 22. word_lia.
Qed.

(** ** The instruction formats

    [format] is the shape of an encoding with its fixed fields (the major
    opcode, [funct3] and [funct7] as the tables of the manual give them);
    [encode] lays the operands out in a word. *)

Inductive format : Type :=
  | FR (opc funct7 funct3 : Z)
  | FFp (funct7 : Z)
  | FR4 (opc : Z)
  | FI (opc funct3 : Z)
  | FS (opc funct3 : Z)
  | FB (funct3 : Z)
  | FU (opc : Z)
  | FJ.

Definition insn_format (o : insn_op) : option format :=
  match o with
  | rv_insn_lui => Some (FU 0x37) | rv_insn_auipc => Some (FU 0x17)
  | rv_insn_jal => Some FJ | rv_insn_jalr => Some (FI 0x67 0)
  | rv_insn_beq => Some (FB 0) | rv_insn_bne => Some (FB 1)
  | rv_insn_blt => Some (FB 4) | rv_insn_bge => Some (FB 5)
  | rv_insn_bltu => Some (FB 6) | rv_insn_bgeu => Some (FB 7)
  | rv_insn_lb => Some (FI 0x03 0) | rv_insn_lh => Some (FI 0x03 1)
  | rv_insn_lw => Some (FI 0x03 2) | rv_insn_lbu => Some (FI 0x03 4)
  | rv_insn_lhu => Some (FI 0x03 5)
  | rv_insn_sb => Some (FS 0x23 0) | rv_insn_sh => Some (FS 0x23 1)
  | rv_insn_sw => Some (FS 0x23 2)
  | rv_insn_addi => Some (FI 0x13 0) | rv_insn_slti => Some (FI 0x13 2)
  | rv_insn_sltiu => Some (FI 0x13 3) | rv_insn_xori => Some (FI 0x13 4)
  | rv_insn_ori => Some (FI 0x13 6) | rv_insn_andi => Some (FI 0x13 7)
  | rv_insn_slli => Some (FI 0x13 1) | rv_insn_srli => Some (FI 0x13 5)
  | rv_insn_srai => Some (FI 0x13 5)
  | rv_insn_clz => Some (FI 0x13 1) | rv_insn_ctz => Some (FI 0x13 1)
  | rv_insn_cpop => Some (FI 0x13 1) | rv_insn_sextb => Some (FI 0x13 1)
  | rv_insn_sexth => Some (FI 0x13 1) | rv_insn_bclri => Some (FI 0x13 1)
  | rv_insn_binvi => Some (FI 0x13 1) | rv_insn_bseti => Some (FI 0x13 1)
  | rv_insn_rori => Some (FI 0x13 5) | rv_insn_orcb => Some (FI 0x13 5)
  | rv_insn_rev8 => Some (FI 0x13 5) | rv_insn_bexti => Some (FI 0x13 5)
  | rv_insn_add => Some (FR 0x33 0x00 0) | rv_insn_sll => Some (FR 0x33 0x00 1)
  | rv_insn_slt => Some (FR 0x33 0x00 2) | rv_insn_sltu => Some (FR 0x33 0x00 3)
  | rv_insn_xor => Some (FR 0x33 0x00 4) | rv_insn_srl => Some (FR 0x33 0x00 5)
  | rv_insn_or => Some (FR 0x33 0x00 6) | rv_insn_and => Some (FR 0x33 0x00 7)
  | rv_insn_sub => Some (FR 0x33 0x20 0) | rv_insn_sra => Some (FR 0x33 0x20 5)
  | rv_insn_mul => Some (FR 0x33 0x01 0) | rv_insn_mulh => Some (FR 0x33 0x01 1)
  | rv_insn_mulhsu => Some (FR 0x33 0x01 2) | rv_insn_mulhu => Some (FR 0x33 0x01 3)
  | rv_insn_div => Some (FR 0x33 0x01 4) | rv_insn_divu => Some (FR 0x33 0x01 5)
  | rv_insn_rem => Some (FR 0x33 0x01 6) | rv_insn_remu => Some (FR 0x33 0x01 7)
  | rv_insn_sh1add => Some (FR 0x33 0x10 2) | rv_insn_sh2add => Some (FR 0x33 0x10 4)
  | rv_insn_sh3add => Some (FR 0x33 0x10 6)
  | rv_insn_andn => Some (FR 0x33 0x20 7) | rv_insn_orn => Some (FR 0x33 0x20 6)
  | rv_insn_xnor => Some (FR 0x33 0x20 4)
  | rv_insn_max => Some (FR 0x33 0x05 6) | rv_insn_maxu => Some (FR 0x33 0x05 7)
  | rv_insn_min => Some (FR 0x33 0x05 4) | rv_insn_minu => Some (FR 0x33 0x05 5)
  | rv_insn_zexth => Some (FR 0x33 0x04 4)
  | rv_insn_rol => Some (FR 0x33 0x30 1) | rv_insn_ror => Some (FR 0x33 0x30 5)
  | rv_insn_clmul => Some (FR 0x33 0x05 1) | rv_insn_clmulh => Some (FR 0x33 0x05 3)
  | rv_insn_clmulr => Some (FR 0x33 0x05 2)
  | rv_insn_bclr => Some (FR 0x33 0x24 1) | rv_insn_bext => Some (FR 0x33 0x24 5)
  | rv_insn_binv => Some (FR 0x33 0x34 1) | rv_insn_bset => Some (FR 0x33 0x14 1)
  | rv_insn_ecall => Some (FI 0x73 0) | rv_insn_ebreak => Some (FI 0x73 0)
  | rv_insn_wfi => Some (FI 0x73 0) | rv_insn_mret => Some (FI 0x73 0)
  | rv_insn_sfencevma => Some (FI 0x73 0)
  | rv_insn_csrrw => Some (FI 0x73 1) | rv_insn_csrrs => Some (FI 0x73 2)
  | rv_insn_csrrc => Some (FI 0x73 3) | rv_insn_csrrwi => Some (FI 0x73 5)
  | rv_insn_csrrsi => Some (FI 0x73 6) | rv_insn_csrrci => Some (FI 0x73 7)
  | rv_insn_lrw => Some (FR 0x2f 0x08 2) | rv_insn_scw => Some (FR 0x2f 0x0c 2)
  | rv_insn_amoswapw => Some (FR 0x2f 0x04 2) | rv_insn_amoaddw => Some (FR 0x2f 0x00 2)
  | rv_insn_amoxorw => Some (FR 0x2f 0x10 2) | rv_insn_amoandw => Some (FR 0x2f 0x30 2)
  | rv_insn_amoorw => Some (FR 0x2f 0x20 2) | rv_insn_amominw => Some (FR 0x2f 0x40 2)
  | rv_insn_amomaxw => Some (FR 0x2f 0x50 2) | rv_insn_amominuw => Some (FR 0x2f 0x60 2)
  | rv_insn_amomaxuw => Some (FR 0x2f 0x70 2)
  | rv_insn_flw => Some (FI 0x07 2) | rv_insn_fsw => Some (FS 0x27 2)
  | rv_insn_fmadds => Some (FR4 0x43) | rv_insn_fmsubs => Some (FR4 0x47)
  | rv_insn_fnmsubs => Some (FR4 0x4b) | rv_insn_fnmadds => Some (FR4 0x4f)
  | rv_insn_fadds => Some (FFp 0x00) | rv_insn_fsubs => Some (FFp 0x04)
  | rv_insn_fmuls => Some (FFp 0x08) | rv_insn_fdivs => Some (FFp 0x0c)
  | rv_insn_fsqrts => Some (FFp 0x2c)
  | rv_insn_fsgnjs => Some (FFp 0x10) | rv_insn_fsgnjns => Some (FFp 0x10)
  | rv_insn_fsgnjxs => Some (FFp 0x10)
  | rv_insn_fmins => Some (FFp 0x14) | rv_insn_fmaxs => Some (FFp 0x14)
  | rv_insn_fcvtws => Some (FFp 0x60) | rv_insn_fcvtwus => Some (FFp 0x60)
  | rv_insn_fmvxw => Some (FFp 0x70) | rv_insn_fclasss => Some (FFp 0x70)
  | rv_insn_feqs => Some (FFp 0x50) | rv_insn_flts => Some (FFp 0x50)
  | rv_insn_fles => Some (FFp 0x50)
  | rv_insn_fcvtsw => Some (FFp 0x68) | rv_insn_fcvtswu => Some (FFp 0x68)
  | rv_insn_fmvwx => Some (FFp 0x78)
  | _ => None
  end.

Record operands : Type := mk_operands {
  o_rd : Z; o_rs1 : Z; o_rs2 : Z; o_imm : Z; o_rm : Z
}.

(** The word with the six fields of the R format. *)
Definition layout (opc rd f3 rs1 rs2 f7 : Z) : Z :=
  opc + rd * 2 ^ 7 + f3 * 2 ^ 12 + rs1 * 2 ^ 15 + rs2 * 2 ^ 20 + f7 * 2 ^ 25.

(** The immediate is given as a signed number; formats that scatter its
    bits place the field [imm[h:l]] where the manual says. *)
Definition encode (f : format) (a : operands) : Z :=
  let i := o_imm a in
  match f with
  | FR opc f7 f3 => layout opc (o_rd a) f3 (o_rs1 a) (o_rs2 a) f7
  | FFp f7 => layout 0x53 (o_rd a) (o_rm a) (o_rs1 a) (o_rs2 a) f7
  | FR4 opc => layout opc (o_rd a) (o_rm a) (o_rs1 a) (o_rs2 a) (i * 2 ^ 2)
  | FI opc f3 => layout opc (o_rd a) f3 (o_rs1 a) (bits 0 5 i) (bits 5 7 i)
  | FS opc f3 => layout opc (bits 0 5 i) f3 (o_rs1 a) (o_rs2 a) (bits 5 7 i)
  | FB f3 =>
      layout 0x63 (bits 11 1 i + bits 1 4 i * 2) f3 (o_rs1 a) (o_rs2 a)
        (bits 5 6 i + bits 12 1 i * 2 ^ 6)
  | FU opc => opc + o_rd a * 2 ^ 7 + bits 12 20 i * 2 ^ 12
  | FJ =>
      layout 0x6f (o_rd a) (bits 12 3 i) (bits 15 5 i)
        (bits 11 1 i + bits 1 4 i * 2) (bits 5 6 i + bits 20 1 i * 2 ^ 6)
  end.

(** The operands that a representation carries for its format; [build] is
    the converse, on a zeroed representation. *)
Definition operands_of (ir : rv_insn) : operands :=
  mk_operands ir.(rd) ir.(rs1) ir.(rs2) ir.(imm) ir.(rm).

Definition uses (f : format) : bool * bool * bool * bool * bool :=
  match f with
  | FR _ _ _ => (true, true, true, false, false)
  | FFp _ => (true, true, true, false, true)
  | FR4 _ => (true, true, true, true, true)
  | FI _ _ => (true, true, false, true, false)
  | FS _ _ => (false, true, true, true, false)
  | FB _ => (false, true, true, true, false)
  | FU _ => (true, false, false, true, false)
  | FJ => (true, false, false, true, false)
  end.

Definition build (o : insn_op) (f : format) (a : operands) : rv_insn :=
  let '(urd, urs1, urs2, uimm, urm) := uses f in
  let pick (u : bool) (z : Z) := if u then z else 0 in
  mk_rv_insn (pick uimm (o_imm a)) (pick urd (o_rd a)) (pick urs1 (o_rs1 a))
    (pick urs2 (o_rs2 a)) o 0 (pick urm (o_rm a)) 0 [] 0 (do_op rv_insn_nop)
    None None None.

(** *** Legal operands *)

Definition reg_ok (r : Z) : bool := (0 <=? r) && (r <? 32).

(** The range of an immediate of each format. *)
Definition imm_ok (f : format) (i : Z) : bool :=
  match f with
  | FR _ _ _ | FFp _ => true
  | FR4 _ => reg_ok i
  | FI _ _ | FS _ _ => (- 2 ^ 11 <=? i) && (i <? 2 ^ 11)
  | FB _ => (- 2 ^ 12 <=? i) && (i <? 2 ^ 12) && (i mod 2 =? 0)
  | FU _ => (- 2 ^ 31 <=? i) && (i <? 2 ^ 31) && (i mod 2 ^ 12 =? 0)
  | FJ => (- 2 ^ 20 <=? i) && (i <? 2 ^ 20) && (i mod 2 =? 0)
  end.

(** Immediates, [rs2] and rounding modes that select the operation rather
    than being operands, and the CSR access rule of the decoder. *)
Definition op_ok (o : insn_op) (a : operands) : bool :=
  let i := o_imm a in
  match o with
  | rv_insn_slli | rv_insn_srli => (0 <=? i) && (i <? 32)
  | rv_insn_srai => (0x400 <=? i) && (i <? 0x420)
  | rv_insn_clz => i =? 0x600 | rv_insn_ctz => i =? 0x601
  | rv_insn_cpop => i =? 0x602 | rv_insn_sextb => i =? 0x604
  | rv_insn_sexth => i =? 0x605 | rv_insn_orcb => i =? 0x287
  | rv_insn_rev8 => i =? 0x698
  | rv_insn_rori => (0x600 <=? i) && (i <? 0x620)
  | rv_insn_bclri | rv_insn_bexti => (0x480 <=? i) && (i <? 0x4a0)
  | rv_insn_binvi => (0x680 <=? i) && (i <? 0x6a0)
  | rv_insn_bseti => (0x280 <=? i) && (i <? 0x2a0)
  | rv_insn_zexth => o_rs2 a =? 0
  | rv_insn_ecall => i =? 0 | rv_insn_ebreak => i =? 1
  | rv_insn_wfi => i =? 0x105 | rv_insn_mret => i =? 0x302
  | rv_insn_sfencevma => (0x120 <=? i) && (i <? 0x140)
  | rv_insn_csrrw | rv_insn_csrrs | rv_insn_csrrc
  | rv_insn_csrrwi | rv_insn_csrrsi | rv_insn_csrrci =>
      (0 <=? i) || (o_rs1 a =? 0)
  | rv_insn_fsgnjs | rv_insn_fmins | rv_insn_fmvxw | rv_insn_fles => o_rm a =? 0
  | rv_insn_fsgnjns | rv_insn_fmaxs | rv_insn_fclasss | rv_insn_flts => o_rm a =? 1
  | rv_insn_fsgnjxs | rv_insn_feqs => o_rm a =? 2
  | rv_insn_fcvtws | rv_insn_fcvtsw => o_rs2 a =? 0
  | rv_insn_fcvtwus | rv_insn_fcvtswu => o_rs2 a =? 1
  | _ => true
  end.

(** Computational instructions with [rd = x0] are decoded as [nop]. *)
Definition is_comp (f : format) : bool :=
  match f with
  | FR opc _ _ | FI opc _ | FU opc =>
      (opc =? 0x13) || (opc =? 0x33) || (opc =? 0x37) || (opc =? 0x17)
  | _ => false
  end.

Definition legal (o : insn_op) (f : format) (a : operands) : bool :=
  reg_ok (o_rd a) && reg_ok (o_rs1 a) && reg_ok (o_rs2 a) &&
  (0 <=? o_rm a) && (o_rm a <? 8) && imm_ok f (o_imm a) && op_ok o a.

(** The opcode the decoder chooses. *)
Definition decoded_op (o : insn_op) (f : format) (a : operands) : insn_op :=
  if is_comp f && (o_rd a =? 0) then rv_insn_nop else o.

(** ** Decoding an encoded instruction *)

Definition fields_ok (opc rd f3 rs1 rs2 f7 : Z) : Prop :=
  0 <= opc < 2 ^ 7 /\ 0 <= rd < 2 ^ 5 /\ 0 <= f3 < 2 ^ 3 /\
  0 <= rs1 < 2 ^ 5 /\ 0 <= rs2 < 2 ^ 5 /\ 0 <= f7 < 2 ^ 7.

Section layout.
Context (opc rd f3 rs1 rs2 f7 : Z).
Context (Hok : fields_ok opc rd f3 rs1 rs2 f7).
Let w := layout opc rd f3 rs1 rs2 f7.

Local Ltac go := unfold w, layout, fields_ok, bits in *; div_lia.

Lemma layout_rd : decode_rd w = rd.
Proof. rewrite decode_rd_bits. go. Qed.
Lemma layout_funct3 : decode_funct3 w = f3.
Proof. rewrite decode_funct3_bits. go. Qed.
Lemma layout_rs1 : decode_rs1 w = rs1.
Proof. rewrite decode_rs1_bits. go. Qed.
Lemma layout_rs2 : decode_rs2 w = rs2.
Proof. rewrite decode_rs2_bits. go. Qed.
Lemma layout_funct7 : decode_funct7 w = f7.
Proof. rewrite decode_funct7_bits. go. Qed.
Lemma layout_shiftr : w >>. 25 = f7.
Proof. rewrite Z.shiftr_div_pow2 by lia. go. Qed.
Lemma layout_rs3 : decode_r4type_rs3 w = f7 / 4.
Proof. rewrite decode_rs3_bits. go. Qed.
Lemma layout_itype : decode_itype_imm w = sext 12 (rs2 + f7 * 2 ^ 5).
Proof. rewrite itype_imm_bits. f_equal. go. Qed.
Lemma layout_stype : decode_stype_imm w = sext 12 (rd + f7 * 2 ^ 5).
Proof. rewrite stype_imm_bits. f_equal. go. Qed.
Lemma layout_btype :
  decode_btype_imm w =
  sext 13 (bits 6 1 f7 * 2 ^ 12 + bits 0 1 rd * 2 ^ 11
           + bits 0 6 f7 * 2 ^ 5 + bits 1 4 rd * 2).
Proof.
  rewrite btype_imm_bits.
  replace (bits 31 1 w) with (bits 6 1 f7) by go.
  replace (bits 7 1 w) with (bits 0 1 rd) by go.
  replace (bits 25 6 w) with (bits 0 6 f7) by go.
  by replace (bits 8 4 w) with (bits 1 4 rd) by go.
Qed.
Lemma layout_jtype :
  decode_jtype_imm w =
  sext 21 (bits 6 1 f7 * 2 ^ 20 + (rs1 * 2 ^ 3 + f3) * 2 ^ 12
           + bits 0 1 rs2 * 2 ^ 11 + (bits 0 6 f7 * 2 ^ 4 + bits 1 4 rs2) * 2).
Proof.
  rewrite jtype_imm_bits.
  replace (bits 31 1 w) with (bits 6 1 f7) by go.
  replace (bits 12 8 w) with (rs1 * 2 ^ 3 + f3) by go.
  replace (bits 20 1 w) with (bits 0 1 rs2) by go.
  by replace (bits 21 10 w) with (bits 0 6 f7 * 2 ^ 4 + bits 1 4 rs2) by go.
Qed.
Lemma layout_utype :
  decode_utype_imm w = (f3 + rs1 * 2 ^ 3 + rs2 * 2 ^ 8 + f7 * 2 ^ 13) * 2 ^ 12.
Proof. rewrite utype_imm_bits. f_equal. go. Qed.

(** A word with a 32-bit opcode goes to the handler of its major opcode. *)
Lemma layout_dispatch ext_tt ir op :
  opc mod 4 = 3 -> rv_jump_table !! Z.to_nat (opc / 4) = Some op ->
  rv_decode ext_tt ir w = Some (op ir w).
Proof.
  intros H3 Hop. unfold rv_decode, is_tt, is_compressed.
  rewrite fc_opcode_bits, decode_index_bits.
  replace (bits 0 2 w) with 3 by go.
  replace (bits 2 5 w) with (opc / 4) by go.
  rewrite Hop. by destruct ext_tt.
Qed.
End layout.

Create Rewrite HintDb layout.
#[export] Hint Rewrite layout_rd layout_funct3 layout_rs1 layout_rs2
  layout_funct7 layout_shiftr layout_rs3 layout_itype layout_stype
  layout_btype layout_jtype layout_utype using (assumption) : layout.

Lemma u8_reg r : 0 <= r < 2 ^ 5 -> u8 r = r.
Proof. intros. word_lia. Qed.

Lemma itype_imm_split i : - 2 ^ 11 <= i < 2 ^ 11 ->
  sext 12 (bits 0 5 i + bits 5 7 i * 2 ^ 5) = i.
Proof. intros. word_lia. Qed.

Lemma btype_imm_split i : - 2 ^ 12 <= i < 2 ^ 12 -> i mod 2 = 0 ->
  sext 13 (bits 12 1 i * 2 ^ 12 + bits 11 1 i * 2 ^ 11
           + bits 5 6 i * 2 ^ 5 + bits 1 4 i * 2) = i.
Proof. intros. word_lia. Qed.

Lemma jtype_imm_split i : - 2 ^ 20 <= i < 2 ^ 20 -> i mod 2 = 0 ->
  sext 21 (bits 20 1 i * 2 ^ 20 + (bits 15 5 i * 2 ^ 3 + bits 12 3 i) * 2 ^ 12
           + bits 11 1 i * 2 ^ 11 + (bits 5 6 i * 2 ^ 4 + bits 1 4 i) * 2) = i.
Proof. intros. word_lia. Qed.

Lemma legal_regs o f a : legal o f a = true ->
  (0 <= o_rd a < 2 ^ 5 /\ 0 <= o_rs1 a < 2 ^ 5 /\ 0 <= o_rs2 a < 2 ^ 5 /\
   0 <= o_rm a < 2 ^ 3) /\ imm_ok f (o_imm a) = true /\ op_ok o a = true.
Proof.
  unfold legal, reg_ok. rewrite !andb_true_iff, !Z.leb_le, !Z.ltb_lt.
  intros. destruct_and!. repeat split; first [assumption | lia].
Qed.

(** [fmt_ok] bounds the fixed fields of a format. *)
Definition fmt_ok (f : format) : Prop :=
  match f with
  | FR opc f7 f3 => 0 <= opc < 2 ^ 7 /\ 0 <= f7 < 2 ^ 7 /\ 0 <= f3 < 2 ^ 3
  | FFp f7 => 0 <= f7 < 2 ^ 7
  | FR4 opc | FU opc => 0 <= opc < 2 ^ 7
  | FI opc f3 | FS opc f3 => 0 <= opc < 2 ^ 7 /\ 0 <= f3 < 2 ^ 3
  | FB f3 => 0 <= f3 < 2 ^ 3
  | FJ => True
  end.

Lemma insn_format_ok o f : insn_format o = Some f -> fmt_ok f.
Proof. destruct o; simpl; intros ?; simplify_eq; repeat split; by vm_compute. Qed.

(** The six fields of an encoded instruction. *)
Definition fields_of (f : format) (a : operands) : Z * Z * Z * Z * Z * Z :=
  let i := o_imm a in
  match f with
  | FR opc f7 f3 => (opc, o_rd a, f3, o_rs1 a, o_rs2 a, f7)
  | FFp f7 => (0x53, o_rd a, o_rm a, o_rs1 a, o_rs2 a, f7)
  | FR4 opc => (opc, o_rd a, o_rm a, o_rs1 a, o_rs2 a, i * 2 ^ 2)
  | FI opc f3 => (opc, o_rd a, f3, o_rs1 a, bits 0 5 i, bits 5 7 i)
  | FS opc f3 => (opc, bits 0 5 i, f3, o_rs1 a, o_rs2 a, bits 5 7 i)
  | FB f3 => (0x63, bits 11 1 i + bits 1 4 i * 2, f3, o_rs1 a, o_rs2 a,
              bits 5 6 i + bits 12 1 i * 2 ^ 6)
  | FU opc => (opc, o_rd a, bits 12 3 i, bits 15 5 i, bits 20 5 i, bits 25 7 i)
  | FJ => (0x6f, o_rd a, bits 12 3 i, bits 15 5 i,
           bits 11 1 i + bits 1 4 i * 2, bits 5 6 i + bits 20 1 i * 2 ^ 6)
  end.

Lemma encode_fields f a opc rd f3 rs1 rs2 f7 :
  fmt_ok f -> 0 <= o_rd a < 2 ^ 5 -> 0 <= o_rs1 a < 2 ^ 5 ->
  0 <= o_rs2 a < 2 ^ 5 -> 0 <= o_rm a < 2 ^ 3 -> imm_ok f (o_imm a) = true ->
  fields_of f a = (opc, rd, f3, rs1, rs2, f7) ->
  encode f a = layout opc rd f3 rs1 rs2 f7 /\ fields_ok opc rd f3 rs1 rs2 f7.
Proof.
  intros Hf Hrd Hrs1 Hrs2 Hrm Hi E.
  destruct f; simpl in *; simplify_eq; (split;
    [try done | unfold fields_ok; repeat split; unfold bits; try lia; try div_lia]).
  1-2: unfold reg_ok in Hi; lia.
  unfold layout, bits. div_lia.
Qed.

(** The handlers on an encoded instruction, one lemma per format. *)
Section handlers.
Context (opc rd f3 rs1 rs2 f7 : Z) (Hok : fields_ok opc rd f3 rs1 rs2 f7).
Let w := layout opc rd f3 rs1 rs2 f7.

Local Ltac go :=
  unfold decode_rtype, decode_itype, decode_stype, decode_btype, decode_utype,
    decode_jtype, w; autorewrite with layout;
  unfold fields_ok in Hok; rewrite ?u8_reg by lia; try done.

Lemma layout_decode_rtype ir :
  decode_rtype ir w = ir_set_rd (ir_set_rs1 (ir_set_rs2 ir rs2) rs1) rd.
Proof. go. Qed.
Lemma layout_decode_itype ir i :
  - 2 ^ 11 <= i < 2 ^ 11 -> rs2 = bits 0 5 i -> f7 = bits 5 7 i ->
  decode_itype ir w = ir_set_rd (ir_set_rs1 (ir_set_imm ir i) rs1) rd.
Proof. intros ? E2 E7. go. by rewrite E2, E7, itype_imm_split. Qed.
Lemma layout_decode_stype ir i :
  - 2 ^ 11 <= i < 2 ^ 11 -> rd = bits 0 5 i -> f7 = bits 5 7 i ->
  decode_stype ir w = ir_set_rs1 (ir_set_rs2 (ir_set_imm ir i) rs2) rs1.
Proof. intros ? E2 E7. go. by rewrite E2, E7, itype_imm_split. Qed.
Lemma layout_decode_btype ir i :
  - 2 ^ 12 <= i < 2 ^ 12 -> i mod 2 = 0 ->
  rd = bits 11 1 i + bits 1 4 i * 2 -> f7 = bits 5 6 i + bits 12 1 i * 2 ^ 6 ->
  decode_btype ir w = ir_set_rs1 (ir_set_rs2 (ir_set_imm ir i) rs2) rs1.
Proof.
  intros Hi He Ed E7. go. f_equal. f_equal. f_equal.
  rewrite <- (btype_imm_split i) by done. f_equal.
  subst. unfold bits. div_lia.
Qed.
Lemma layout_decode_utype ir i :
  - 2 ^ 31 <= i < 2 ^ 31 -> i mod 2 ^ 12 = 0 ->
  f3 = bits 12 3 i -> rs1 = bits 15 5 i -> rs2 = bits 20 5 i ->
  f7 = bits 25 7 i ->
  decode_utype ir w = ir_set_rd (ir_set_imm ir i) rd.
Proof. intros. go. f_equal. f_equal. subst. word_lia. Qed.
Lemma layout_decode_jtype ir i :
  - 2 ^ 20 <= i < 2 ^ 20 -> i mod 2 = 0 ->
  f3 = bits 12 3 i -> rs1 = bits 15 5 i ->
  rs2 = bits 11 1 i + bits 1 4 i * 2 -> f7 = bits 5 6 i + bits 20 1 i * 2 ^ 6 ->
  decode_jtype ir w = ir_set_rd (ir_set_imm ir i) rd.
Proof.
  intros Hi He E3 E1 E2 E7. go. f_equal. f_equal.
  rewrite <- (jtype_imm_split i) by done. f_equal.
  subst. unfold bits. div_lia.
Qed.
Lemma layout_decode_r4type i :
  0 <= i < 2 ^ 5 -> f7 = i * 2 ^ 2 ->
  decode_r4type rv_insn0 w =
  ir_set_rm (ir_set_imm (ir_set_rs2 (ir_set_rs1 (ir_set_rd rv_insn0 rd) rs1) rs2) i) f3.
Proof.
  intros Hi ->. unfold decode_r4type, w. autorewrite with layout.
  unfold fields_ok in Hok. rewrite !u8_reg by lia.
  unfold ir_set_rs3. f_equal. f_equal. simpl.
  rewrite Z.div_mul, Z.lor_0_l by lia. word_lia.
Qed.
End handlers.

(** [dec_step] evaluates the decoder on a word of known fields: it picks the
    handler from the major opcode, decodes the operands and resolves the
    switches on [funct3] and [funct7]. *)
Local Ltac dec_step Hok Himm i :=
  erewrite (layout_dispatch _ _ _ _ _ _ Hok) by reflexivity;
  unfold op_load, op_op_imm, op_auipc, op_store, op_op, op_lui, op_branch,
    op_jalr, op_jal, op_system, op_amo, op_load_fp, op_store_fp, op_op_fp,
    op_madd, op_msub, op_nmadd, op_nmsub;
  autorewrite with layout; unfold imm_ok, reg_ok in Himm;
  first
    [ rewrite (layout_decode_rtype _ _ _ _ _ _ Hok)
    | rewrite (layout_decode_itype _ _ _ _ _ _ Hok _ i ltac:(lia) eq_refl eq_refl)
    | rewrite (layout_decode_stype _ _ _ _ _ _ Hok _ i ltac:(lia) eq_refl eq_refl)
    | rewrite (layout_decode_btype _ _ _ _ _ _ Hok _ i ltac:(lia) ltac:(lia)
                 eq_refl eq_refl)
    | rewrite (layout_decode_utype _ _ _ _ _ _ Hok _ i ltac:(lia) ltac:(lia)
                 eq_refl eq_refl eq_refl eq_refl)
    | rewrite (layout_decode_jtype _ _ _ _ _ _ Hok _ i ltac:(lia) ltac:(lia)
                 eq_refl eq_refl eq_refl eq_refl)
    | rewrite (layout_decode_r4type _ _ _ _ _ _ Hok i ltac:(lia) eq_refl) ];
  cbv zeta.

Lemma land_bit5 i : i &. 32 = bits 5 1 i * 32.
Proof. by apply (land_mask i 5 1). Qed.

Lemma land_neg32 i : i &. (-32) = i / 32 * 32.
Proof.
  change (-32) with (Z.lnot (Z.ones 5)). rewrite <- Z.ldiff_land.
  rewrite Z.ldiff_ones_r by lia. shifts_to_arith. done.
Qed.

(** The conditions that remain are on the immediate, [rs2] and the rounding
    mode, which [op_ok] fixes. *)
Local Ltac dec_cond Hop :=
  unfold build, decoded_op, ok, rv_reg_zero, csr_is_writable, u32;
  cbn [op_ok] in Hop; rewrite ?u8_reg by lia; simpl in *;
  rewrite ?Z.shiftr_div_pow2 by lia; rewrite ?land_bit5, ?land_neg32;
  unfold nz, bits in *; try done;
  repeat (case_match; simpl in *; try done; try (exfalso; div_lia));
  f_equal; f_equal; div_lia.

Lemma decode_legal ext_tt o f a :
  insn_format o = Some f -> legal o f a = true ->
  rv_decode ext_tt rv_insn0 (encode f a) =
  Some (build (decoded_op o f a) f a, true).
Proof.
  intros Hf Hl.
  destruct (legal_regs o f a Hl) as [(Hrd & Hrs1 & Hrs2 & Hrm) [Himm Hop]].
  destruct (fields_of f a) as [[[[[opc rd0] f3] rs10] rs20] f7] eqn:E.
  destruct (encode_fields f a _ _ _ _ _ _ (insn_format_ok _ _ Hf)
              Hrd Hrs1 Hrs2 Hrm Himm E) as [-> Hok].
  destruct o; simpl in Hf; simplify_eq; simpl in E; simplify_eq;
    dec_step Hok Himm (o_imm a); dec_cond Hop.
Qed.


