(* ===== verification/DecodeInv.v ===== *)
(** * Inverting the decoder

    What a successful [rv_decode] says of the word and of the representation:
    the word is the encoding of the decoded instruction whenever the decoder
    looks at all of its fixed fields, and the representation is well formed
    (register numbers, immediates and opcodes are in the ranges the handlers
    of the emulator index with). *)

From Stdlib Require Import ZArith Lia Bool.
From stdpp Require Import base list numbers.
From S2P Require Import Prelude Decode DecodeSpec.

(** ** Encoding a decoded instruction *)

(** The opcodes for which the decoder checks every fixed field of the word,
    so that the representation determines the word. *)
Definition lossless (o : insn_op) : bool :=
  match o with
  | rv_insn_zexth | rv_insn_jalr | rv_insn_flw | rv_insn_fsw
  | rv_insn_lrw | rv_insn_scw | rv_insn_amoswapw | rv_insn_amoaddw
  | rv_insn_amoxorw | rv_insn_amoandw | rv_insn_amoorw | rv_insn_amominw
  | rv_insn_amomaxw | rv_insn_amominuw | rv_insn_amomaxuw
  | rv_insn_fmadds | rv_insn_fmsubs | rv_insn_fnmsubs | rv_insn_fnmadds => false
  | _ => true
  end.

Lemma layout_bits w : 0 <= w < 2 ^ 32 ->
  w = layout (bits 0 7 w) (bits 7 5 w) (bits 12 3 w) (bits 15 5 w)
             (bits 20 5 w) (bits 25 7 w) /\
  fields_ok (bits 0 7 w) (bits 7 5 w) (bits 12 3 w) (bits 15 5 w)
             (bits 20 5 w) (bits 25 7 w).
Proof.
  intros Hw. split; [unfold layout, bits; div_lia|].
  unfold fields_ok. repeat split; apply bits_range; lia.
Qed.

Lemma sext12_bits lo hi : 0 <= lo < 2 ^ 5 -> 0 <= hi < 2 ^ 7 ->
  bits 0 5 (sext 12 (lo + hi * 2 ^ 5)) = lo /\
  bits 5 7 (sext 12 (lo + hi * 2 ^ 5)) = hi.
Proof. intros. word_lia. Qed.

Lemma btype_bits rd f7 : 0 <= rd < 2 ^ 5 -> 0 <= f7 < 2 ^ 7 ->
  let i := sext 13 (bits 6 1 f7 * 2 ^ 12 + bits 0 1 rd * 2 ^ 11
                    + bits 0 6 f7 * 2 ^ 5 + bits 1 4 rd * 2) in
  bits 11 1 i + bits 1 4 i * 2 = rd /\ bits 5 6 i + bits 12 1 i * 2 ^ 6 = f7.
Proof.
  intros Hd H7 i. unfold i. rewrite !bits_sext by lia. unfold bits.
  split; div_lia.
Qed.

Lemma jtype_bits f3 rs1 rs2 f7 :
  0 <= f3 < 2 ^ 3 -> 0 <= rs1 < 2 ^ 5 -> 0 <= rs2 < 2 ^ 5 -> 0 <= f7 < 2 ^ 7 ->
  let i := sext 21 (bits 6 1 f7 * 2 ^ 20 + (rs1 * 2 ^ 3 + f3) * 2 ^ 12
             + bits 0 1 rs2 * 2 ^ 11 + (bits 0 6 f7 * 2 ^ 4 + bits 1 4 rs2) * 2) in
  bits 12 3 i = f3 /\ bits 15 5 i = rs1 /\
  bits 11 1 i + bits 1 4 i * 2 = rs2 /\ bits 5 6 i + bits 20 1 i * 2 ^ 6 = f7.
Proof.
  intros H3 H1 H2 H7 i. unfold i. rewrite !bits_sext by lia. unfold bits.
  repeat split; div_lia.
Qed.

Lemma utype_bits f3 rs1 rs2 f7 :
  0 <= f3 < 2 ^ 3 -> 0 <= rs1 < 2 ^ 5 -> 0 <= rs2 < 2 ^ 5 -> 0 <= f7 < 2 ^ 7 ->
  let h := f3 + rs1 * 2 ^ 3 + rs2 * 2 ^ 8 + f7 * 2 ^ 13 in
  bits 12 20 (s32 (h * 2 ^ 12)) = h.
Proof.
  intros H3 H1 H2 H7 h. unfold s32, h. rewrite bits_sext by lia. unfold bits.
  div_lia.
Qed.

(** [h] only accepts words [w] that are the encoding of what it decodes. *)
Definition faithful (h : rv_insn -> Z -> rv_insn * bool) (w : Z) : Prop :=
  forall ir f, h rv_insn0 w = (ir, true) -> lossless ir.(opcode) = true ->
  insn_format ir.(opcode) = Some f -> encode f (operands_of ir) = w.

Section inversion.
Context (rd f3 rs1 rs2 f7 : Z).

Local Ltac split_imm :=
  match goal with
  | |- context [sext 12 (?l + ?h * 2 ^ 5)] =>
      destruct (sext12_bits l h) as [-> ->]; [lia | lia |]
  end.

Local Ltac invert :=
  intros ir f H Hl Hf; unfold ok, bad in *; autorewrite with layout in H;
  match goal with Hok : fields_ok _ _ _ _ _ _ |- _ => unfold fields_ok in Hok end; rewrite ?u8_reg in H by lia;
  repeat case_match; simplify_eq; simpl in *; simplify_eq; simpl;
  repeat match goal with
  | E : negb (_ =? _) = false |- _ => apply negb_false_iff, Z.eqb_eq in E
  end; simplify_eq; try split_imm; try done.

Lemma faithful_load : fields_ok 0x03 rd f3 rs1 rs2 f7 ->
  faithful op_load (layout 0x03 rd f3 rs1 rs2 f7).
Proof. intros Hok. unfold faithful, op_load, decode_itype. invert. Qed.
Lemma faithful_store : fields_ok 0x23 rd f3 rs1 rs2 f7 ->
  faithful op_store (layout 0x23 rd f3 rs1 rs2 f7).
Proof. intros Hok. unfold faithful, op_store, decode_stype. invert. Qed.
Lemma faithful_op_imm : fields_ok 0x13 rd f3 rs1 rs2 f7 ->
  faithful op_op_imm (layout 0x13 rd f3 rs1 rs2 f7).
Proof. intros Hok. unfold faithful, op_op_imm, decode_itype. invert. Qed.
Lemma faithful_op : fields_ok 0x33 rd f3 rs1 rs2 f7 ->
  faithful op_op (layout 0x33 rd f3 rs1 rs2 f7).
Proof. intros Hok. unfold faithful, op_op, decode_rtype. invert. Qed.
Lemma faithful_op_fp : fields_ok 0x53 rd f3 rs1 rs2 f7 ->
  faithful op_op_fp (layout 0x53 rd f3 rs1 rs2 f7).
Proof. intros Hok. unfold faithful, op_op_fp, decode_rtype. invert. Qed.
Lemma faithful_system : fields_ok 0x73 rd f3 rs1 rs2 f7 ->
  faithful op_system (layout 0x73 rd f3 rs1 rs2 f7).
Proof. intros Hok. unfold faithful, op_system, decode_itype. invert. Qed.
Lemma faithful_amo : fields_ok 0x2f rd f3 rs1 rs2 f7 ->
  faithful op_amo (layout 0x2f rd f3 rs1 rs2 f7).
Proof. intros Hok. unfold faithful, op_amo, decode_rtype. invert. Qed.
Lemma faithful_branch : fields_ok 0x63 rd f3 rs1 rs2 f7 ->
  faithful op_branch (layout 0x63 rd f3 rs1 rs2 f7).
Proof.
  intros Hok. unfold faithful, op_branch, decode_btype. invert.
  all: destruct (btype_bits rd f7) as [-> ->]; [lia | lia | done].
Qed.
Lemma faithful_jal : fields_ok 0x6f rd f3 rs1 rs2 f7 ->
  faithful op_jal (layout 0x6f rd f3 rs1 rs2 f7).
Proof.
  intros Hok. unfold faithful, op_jal, decode_jtype. invert.
  destruct (jtype_bits f3 rs1 rs2 f7) as (-> & -> & -> & ->); [lia.. | done].
Qed.
Lemma faithful_lui : fields_ok 0x37 rd f3 rs1 rs2 f7 ->
  faithful op_lui (layout 0x37 rd f3 rs1 rs2 f7).
Proof.
  intros Hok. unfold faithful, op_lui, decode_utype. invert.
  rewrite utype_bits by lia. unfold layout. lia.
Qed.
Lemma faithful_auipc : fields_ok 0x17 rd f3 rs1 rs2 f7 ->
  faithful op_auipc (layout 0x17 rd f3 rs1 rs2 f7).
Proof.
  intros Hok. unfold faithful, op_auipc, decode_utype. invert.
  rewrite utype_bits by lia. unfold layout. lia.
Qed.
(** Handlers that accept nothing, or only opcodes outside the claim. *)
Lemma faithful_trivial h w :
  In h [op_unimp; op_load_fp; op_store_fp; op_misc_mem; op_jalr; op_madd;
        op_msub; op_nmadd; op_nmsub] -> faithful h w.
Proof.
  intros Hin ir f H Hl Hf. simpl in Hin.
  destruct_or!; subst; try done;
    unfold op_unimp, op_load_fp, op_store_fp, op_misc_mem, op_jalr, op_madd,
      op_msub, op_nmadd, op_nmsub, ok, bad in H;
    repeat case_match; simplify_eq; simpl in *; simplify_eq.
Qed.

Lemma faithful_table d op :
  0 <= d < 2 ^ 5 -> fields_ok (4 * d + 3) rd f3 rs1 rs2 f7 ->
  rv_jump_table !! Z.to_nat d = Some op ->
  faithful op (layout (4 * d + 3) rd f3 rs1 rs2 f7).
Proof.
  intros Hd Hok Hop.
  assert (In d (seqZ 0 32)) as Hin by (apply list_elem_of_In, elem_of_seqZ; lia).
  cbv [seqZ seq fmap list_fmap Z.of_nat Z.to_nat In] in Hin. simpl in Hin.
  destruct_or!; subst; simpl in Hop; simplify_eq; try done.
  all: first [ apply faithful_trivial; simpl; tauto
             | apply faithful_load, Hok | apply faithful_store, Hok
             | apply faithful_op_imm, Hok | apply faithful_op, Hok
             | apply faithful_op_fp, Hok | apply faithful_system, Hok
             | apply faithful_amo, Hok | apply faithful_branch, Hok
             | apply faithful_jal, Hok | apply faithful_lui, Hok
             | apply faithful_auipc, Hok ].
Qed.
End inversion.

(** C18.  The decoder is injective on what it keeps: if a 32-bit word is
    accepted and the opcode is one whose fixed fields are all checked, then
    re-encoding the decoded opcode and operands gives the word back, so no
    other word decodes to the same instruction. *)
Theorem encode_decode w ir f :
  0 <= w < 2 ^ 32 -> rv_decode true rv_insn0 w = Some (ir, true) ->
  lossless ir.(opcode) = true -> insn_format ir.(opcode) = Some f ->
  encode f (operands_of ir) = w.
Proof.
  intros Hw H Hl Hf. unfold rv_decode, is_tt, is_compressed in H.
  rewrite fc_opcode_bits, decode_index_bits in H.
  case_match eqn:E2; [done|]. apply negb_false_iff, Z.eqb_eq in E2.
  destruct (layout_bits w Hw) as [Ew Hok].
  assert (bits 0 7 w = 4 * bits 2 5 w + 3) as E7 by (unfold bits in *; div_lia).
  rewrite E7 in Ew, Hok. clear E7 E2.
  pose proof (bits_range 2 5 w ltac:(lia)) as Hr.
  destruct (rv_jump_table !! _) as [op|] eqn:Hop; [|done].
  injection H as H. rewrite Ew in H |- *.
  eapply faithful_table; eauto.
Qed.

(** [lw x5, -4(x2)]: the word 0xffc12283. *)
Lemma encode_decode_witness :
  encode (FI 0x03 2) (mk_operands 5 2 0 (-4) 0) = 0xffc12283.
Proof.
  exact (encode_decode 0xffc12283
    (build rv_insn_lw (FI 0x03 2) (mk_operands 5 2 0 (-4) 0)) (FI 0x03 2)
    ltac:(lia) eq_refl eq_refl eq_refl).
Defined.
