(* ===== verification/DecodeRvc.v ===== *)
(** * Compressed instructions and well-formedness of the representation

    [rvc_manual] is the compressed instruction set of the RISC-V manual as a
    map from 16-bit words to the base instruction each one expands to;
    [rvc_base] reads the same off the representation that [rv_decode]
    produces.  They are compared on all words.  The second part is the type
    invariant of the decoder's output. *)

From Stdlib Require Import ZArith Lia Bool.
From stdpp Require Import base list numbers.
From S2P Require Import Prelude Decode DecodeSpec.

(** ** The expansion of the manual (RV32C with F) *)

(** The field [c[lo+n-1 : lo]], with bit operations. *)
Definition cbits (lo n c : Z) : Z := (c >>. lo) &. Z.ones n.

Definition expansion : Type := insn_op * operands.

Definition x_i (o : insn_op) (rd rs1 i : Z) : option expansion :=
  Some (o, mk_operands rd rs1 0 i 0).
Definition x_r (o : insn_op) (rd rs1 rs2 : Z) : option expansion :=
  Some (o, mk_operands rd rs1 rs2 0 0).
Definition x_s (o : insn_op) (rs1 rs2 i : Z) : option expansion :=
  Some (o, mk_operands 0 rs1 rs2 i 0).
Definition x_hint : option expansion := x_i rv_insn_nop 0 0 0.

(** Immediates as the manual scatters them. *)
Definition ci_imm (c : Z) : Z := sext 6 (cbits 12 1 c * 2 ^ 5 + cbits 2 5 c).
Definition ci_shamt (c : Z) : Z := cbits 12 1 c * 2 ^ 5 + cbits 2 5 c.
Definition cj_imm (c : Z) : Z :=
  sext 12 (cbits 12 1 c * 2 ^ 11 + cbits 8 1 c * 2 ^ 10 + cbits 9 2 c * 2 ^ 8
    + cbits 6 1 c * 2 ^ 7 + cbits 7 1 c * 2 ^ 6 + cbits 2 1 c * 2 ^ 5
    + cbits 11 1 c * 2 ^ 4 + cbits 3 3 c * 2).
Definition cb_imm (c : Z) : Z :=
  sext 9 (cbits 12 1 c * 2 ^ 8 + cbits 5 2 c * 2 ^ 6 + cbits 2 1 c * 2 ^ 5
    + cbits 10 2 c * 2 ^ 3 + cbits 3 2 c * 2).
Definition cl_imm (c : Z) : Z :=
  cbits 5 1 c * 2 ^ 6 + cbits 10 3 c * 2 ^ 3 + cbits 6 1 c * 2 ^ 2.
Definition clwsp_imm (c : Z) : Z :=
  cbits 2 2 c * 2 ^ 6 + cbits 12 1 c * 2 ^ 5 + cbits 4 3 c * 2 ^ 2.
Definition cswsp_imm (c : Z) : Z := cbits 7 2 c * 2 ^ 6 + cbits 9 4 c * 2 ^ 2.
Definition caddi4spn_imm (c : Z) : Z :=
  cbits 7 4 c * 2 ^ 6 + cbits 11 2 c * 2 ^ 4 + cbits 5 1 c * 2 ^ 3 + cbits 6 1 c * 2 ^ 2.
Definition caddi16sp_imm (c : Z) : Z :=
  sext 10 (cbits 12 1 c * 2 ^ 9 + cbits 3 2 c * 2 ^ 7 + cbits 5 1 c * 2 ^ 6
    + cbits 2 1 c * 2 ^ 5 + cbits 6 1 c * 2 ^ 4).

(** [None] is a reserved or RV64-only code. *)
Definition rvc_manual (c : Z) : option expansion :=
  let rd := cbits 7 5 c in
  let rs2 := cbits 2 5 c in
  let rdc := cbits 2 3 c + 8 in
  let rs1c := cbits 7 3 c + 8 in
  match cbits 0 2 c, cbits 13 3 c with
  | 0, 0 =>
      if caddi4spn_imm c =? 0 then None
      else x_i rv_insn_addi rdc rv_reg_sp (caddi4spn_imm c)
  | 0, 2 => x_i rv_insn_lw rdc rs1c (cl_imm c)
  | 0, 3 => x_i rv_insn_flw rdc rs1c (cl_imm c)
  | 0, 6 => x_s rv_insn_sw rs1c rdc (cl_imm c)
  | 0, 7 => x_s rv_insn_fsw rs1c rdc (cl_imm c)
  | 1, 0 => if rd =? 0 then x_hint else x_i rv_insn_addi rd rd (ci_imm c)
  | 1, 1 => x_i rv_insn_jal rv_reg_ra 0 (cj_imm c)
  | 1, 2 => x_i rv_insn_addi rd 0 (ci_imm c)
  | 1, 3 =>
      if rd =? 2 then
        if caddi16sp_imm c =? 0 then None
        else x_i rv_insn_addi rv_reg_sp rv_reg_sp (caddi16sp_imm c)
      else if ci_shamt c =? 0 then None
      else if rd =? 0 then x_hint
      else x_i rv_insn_lui rd 0 (ci_imm c * 2 ^ 12)
  | 1, 4 =>
      match cbits 10 2 c with
      | 0 =>
          if cbits 12 1 c =? 1 then None
          else if ci_shamt c =? 0 then x_hint
          else x_i rv_insn_srli rs1c rs1c (ci_shamt c)
      | 1 =>
          if cbits 12 1 c =? 1 then None
          else x_i rv_insn_srai rs1c rs1c (0x400 + ci_shamt c)
      | 2 => x_i rv_insn_andi rs1c rs1c (ci_imm c)
      | _ =>
          if cbits 12 1 c =? 1 then None
          else
            match cbits 5 2 c with
            | 0 => x_r rv_insn_sub rs1c rs1c rdc
            | 1 => x_r rv_insn_xor rs1c rs1c rdc
            | 2 => x_r rv_insn_or rs1c rs1c rdc
            | _ => x_r rv_insn_and rs1c rs1c rdc
            end
      end
  | 1, 5 => x_i rv_insn_jal 0 0 (cj_imm c)
  | 1, 6 => x_s rv_insn_beq rs1c 0 (cb_imm c)
  | 1, 7 => x_s rv_insn_bne rs1c 0 (cb_imm c)
  | 2, 0 =>
      if cbits 12 1 c =? 1 then None
      else if rd =? 0 then x_hint
      else x_i rv_insn_slli rd rd (ci_shamt c)
  | 2, 2 => if rd =? 0 then None else x_i rv_insn_lw rd rv_reg_sp (clwsp_imm c)
  | 2, 3 => x_i rv_insn_flw rd rv_reg_sp (clwsp_imm c)
  | 2, 4 =>
      if cbits 12 1 c =? 0 then
        if rs2 =? 0 then
          if rd =? 0 then None else x_i rv_insn_jalr 0 rd 0
        else if rd =? 0 then x_hint
        else x_r rv_insn_add rd 0 rs2
      else
        if rs2 =? 0 then
          if rd =? 0 then x_i rv_insn_ebreak 0 0 1
          else x_i rv_insn_jalr rv_reg_ra rd 0
        else if rd =? 0 then x_hint
        else x_r rv_insn_add rd rd rs2
  | 2, 6 => x_s rv_insn_sw rv_reg_sp rs2 (cswsp_imm c)
  | 2, 7 => x_s rv_insn_fsw rv_reg_sp rs2 (cswsp_imm c)
  | _, _ => None
  end.

(** ** The expansion of a decoded compressed instruction *)

Definition rvc_base (ir : rv_insn) : option expansion :=
  match ir.(opcode) with
  | rv_insn_caddi4spn => x_i rv_insn_addi ir.(rd) rv_reg_sp ir.(imm)
  | rv_insn_clw => x_i rv_insn_lw ir.(rd) ir.(rs1) ir.(imm)
  | rv_insn_csw => x_s rv_insn_sw ir.(rs1) ir.(rs2) ir.(imm)
  | rv_insn_cnop => x_hint
  | rv_insn_caddi => x_i rv_insn_addi ir.(rd) ir.(rd) ir.(imm)
  | rv_insn_cjal => x_i rv_insn_jal rv_reg_ra 0 ir.(imm)
  | rv_insn_cli => x_i rv_insn_addi ir.(rd) 0 ir.(imm)
  | rv_insn_caddi16sp => x_i rv_insn_addi ir.(rd) ir.(rd) ir.(imm)
  | rv_insn_clui => x_i rv_insn_lui ir.(rd) 0 ir.(imm)
  | rv_insn_csrli => x_i rv_insn_srli ir.(rs1) ir.(rs1) ir.(shamt)
  | rv_insn_csrai => x_i rv_insn_srai ir.(rs1) ir.(rs1) (0x400 + ir.(shamt))
  | rv_insn_candi => x_i rv_insn_andi ir.(rs1) ir.(rs1) ir.(imm)
  | rv_insn_csub => x_r rv_insn_sub ir.(rd) ir.(rs1) ir.(rs2)
  | rv_insn_cxor => x_r rv_insn_xor ir.(rd) ir.(rs1) ir.(rs2)
  | rv_insn_cor => x_r rv_insn_or ir.(rd) ir.(rs1) ir.(rs2)
  | rv_insn_cand => x_r rv_insn_and ir.(rd) ir.(rs1) ir.(rs2)
  | rv_insn_cj => x_i rv_insn_jal 0 0 ir.(imm)
  | rv_insn_cbeqz => x_s rv_insn_beq ir.(rs1) 0 ir.(imm)
  | rv_insn_cbnez => x_s rv_insn_bne ir.(rs1) 0 ir.(imm)
  | rv_insn_cslli => x_i rv_insn_slli ir.(rd) ir.(rd) ir.(imm)
  | rv_insn_clwsp => x_i rv_insn_lw ir.(rd) rv_reg_sp ir.(imm)
  | rv_insn_cjr => x_i rv_insn_jalr 0 ir.(rs1) 0
  | rv_insn_cmv => x_r rv_insn_add ir.(rd) 0 ir.(rs2)
  | rv_insn_ebreak => x_i rv_insn_ebreak 0 0 1
  | rv_insn_cjalr => x_i rv_insn_jalr rv_reg_ra ir.(rs1) 0
  | rv_insn_cadd => x_r rv_insn_add ir.(rd) ir.(rs1) ir.(rs2)
  | rv_insn_cswsp => x_s rv_insn_sw rv_reg_sp ir.(rs2) ir.(imm)
  | rv_insn_cflwsp => x_i rv_insn_flw ir.(rd) rv_reg_sp ir.(imm)
  | rv_insn_cfswsp => x_s rv_insn_fsw rv_reg_sp ir.(rs2) ir.(imm)
  | rv_insn_cflw => x_i rv_insn_flw ir.(rd) ir.(rs1) ir.(imm)
  | rv_insn_cfsw => x_s rv_insn_fsw ir.(rs1) ir.(rs2) ir.(imm)
  | _ => None
  end.

(** Reserved codes that the decoder accepts: [c.lwsp] with [rd = x0] and
    [c.lui x0, 0] become [c.nop], [c.slli] keeps bit 5 of the amount. *)
Definition rvc_lenient (c : Z) : bool :=
  (cbits 0 2 c =? 2) && (cbits 13 3 c =? 2) && (cbits 7 5 c =? 0)
  || (cbits 0 2 c =? 1) && (cbits 13 3 c =? 3) && (cbits 7 5 c =? 0)
     && (ci_shamt c =? 0)
  || (cbits 0 2 c =? 2) && (cbits 13 3 c =? 0) && (cbits 12 1 c =? 1).

Definition expansion_eqb (x y : option expansion) : bool :=
  match x, y with
  | Some (o1, a1), Some (o2, a2) =>
      Nat.eqb (insn_num o1) (insn_num o2) && (o_rd a1 =? o_rd a2)
      && (o_rs1 a1 =? o_rs1 a2) && (o_rs2 a1 =? o_rs2 a2)
      && (o_imm a1 =? o_imm a2) && (o_rm a1 =? o_rm a2)
  | None, None => true
  | _, _ => false
  end.

Lemma expansion_eqb_eq x y : expansion_eqb x y = true -> x = y.
Proof.
  destruct x as [[o1 []]|], y as [[o2 []]|]; simpl; try done.
  rewrite !andb_true_iff, !Z.eqb_eq, Nat.eqb_eq. intros. destruct_and!.
  assert (o1 = o2) by (by apply (inj insn_num)). congruence.
Qed.

(** The decoder's answer on a 16-bit word is the manual's. *)
Definition rvc_agrees (c : Z) : bool :=
  match rv_decode false rv_insn0 c with
  | Some (ir, true) =>
      expansion_eqb (rvc_manual c) (rvc_base ir)
      && negb (expansion_eqb (rvc_base ir) None)
  | Some (_, false) | None => expansion_eqb (rvc_manual c) None
  end.

Lemma rvc_agrees_all :
  all16 (fun c => (cbits 0 2 c =? 3) || rvc_lenient c || rvc_agrees c) = true.
Proof. vm_compute. reflexivity. Qed.

Lemma cbits_0_2 c : cbits 0 2 c = c mod 4.
Proof. unfold cbits. rewrite Z.shiftr_0_r, Z.land_ones by lia. done. Qed.

Lemma rvc_agrees_ok c :
  0 <= c < 2 ^ 16 -> c mod 4 <> 3 -> rvc_lenient c = false ->
  match rv_decode false rv_insn0 c with
  | Some (ir, true) =>
      exists o a, rvc_manual c = Some (o, a) /\ rvc_base ir = Some (o, a)
  | _ => rvc_manual c = None
  end.
Proof.
  intros Hc H3 Hl. pose proof (all16_spec _ _ rvc_agrees_all Hc) as H.
  simpl in H. rewrite Hl, cbits_0_2 in H.
  destruct (Z.eqb_spec (c mod 4) 3); [done|]. simpl in H.
  unfold rvc_agrees in H.
  destruct (rv_decode false rv_insn0 c) as [[ir []]|];
    [|by apply expansion_eqb_eq..].
  apply andb_true_iff in H as [->%expansion_eqb_eq Hb].
  destruct (rvc_base ir) as [[o a]|]; [eauto | done].
Qed.

(** C27.  On all 16-bit words with a compressed opcode, apart from the
    reserved codes [rvc_lenient] lists, the decoder accepts exactly the
    instructions of the manual, and what it decodes expands to the base
    instruction and operands of the manual (illegal, reserved and RV64-only
    codes are rejected, or stopped by an assertion). *)
Theorem rvc_decode_manual c :
  0 <= c < 2 ^ 16 -> c mod 4 <> 3 -> rvc_lenient c = false ->
  match rv_decode false rv_insn0 c with
  | Some (ir, true) =>
      exists o a, rvc_manual c = Some (o, a) /\ rvc_base ir = Some (o, a)
  | _ => rvc_manual c = None
  end.
Proof. apply rvc_agrees_ok. Qed.

(** [c.addi16sp sp, -64] and the reserved word 0. *)
Lemma rvc_decode_manual_witness :
  (exists o a, rvc_manual 0x7139 = Some (o, a) /\
               Some (o, a) = x_i rv_insn_addi 2 2 (-64)) /\
  rvc_manual 0 = None.
Proof.
  split.
  - destruct (rvc_decode_manual 0x7139 ltac:(lia) ltac:(done) eq_refl)
      as (o & a & E & E'). exists o, a. split; [exact E | exact (eq_sym E')].
  - exact (rvc_decode_manual 0 ltac:(lia) ltac:(done) eq_refl).
Defined.

(** ** The type invariant of the representation *)

Lemma insn_wf0 : insn_wf rv_insn0.
Proof. constructor; simpl; lia. Qed.

Lemma bits_u8_range lo w : 0 <= u8 (bits lo 5 w) < 32.
Proof. rewrite u8_reg; apply bits_range; lia. Qed.
Lemma bits_u8_range3 lo w : 0 <= u8 (bits lo 3 w) < 8.
Proof. pose proof (bits_range lo 3 w). word_lia. Qed.
Lemma sext_s32_range n z : 0 < n <= 32 -> - 2 ^ 31 <= sext n z < 2 ^ 31.
Proof.
  intros Hn. pose proof (sext_range n z ltac:(lia)).
  pose proof (Z.pow_le_mono_r 2 (n - 1) 31). lia.
Qed.

#[export] Hint Resolve bits_u8_range bits_u8_range3 s32_range : wf.
#[export] Hint Extern 1 (_ <= sext _ _ < _) => apply sext_s32_range; lia : wf.

(** Well-formedness is preserved by the operand decoders ... *)
Section wf.
Context (ir : rv_insn) (w : Z) (Hwf : insn_wf ir).

Local Ltac go :=
  destruct Hwf; constructor; simpl;
  rewrite ?decode_rd_bits, ?decode_rs1_bits, ?decode_rs2_bits,
    ?decode_funct3_bits, ?itype_imm_bits, ?stype_imm_bits, ?btype_imm_bits,
    ?jtype_imm_bits; auto with wf.

Lemma wf_opcode o : insn_wf (ir_set_opcode ir o).
Proof using Hwf. go. Qed.
Lemma wf_rm_set : insn_wf (ir_set_rm ir (u8 (decode_funct3 w))).
Proof using Hwf. go. Qed.
Lemma wf_itype : insn_wf (decode_itype ir w).
Proof using Hwf. go. Qed.
Lemma wf_utype : insn_wf (decode_utype ir w).
Proof using Hwf. go. Qed.
Lemma wf_stype : insn_wf (decode_stype ir w).
Proof using Hwf. go. Qed.
Lemma wf_rtype : insn_wf (decode_rtype ir w).
Proof using Hwf. go. Qed.
Lemma wf_btype : insn_wf (decode_btype ir w).
Proof using Hwf. go. Qed.
Lemma wf_jtype : insn_wf (decode_jtype ir w).
Proof using Hwf. go. Qed.
Lemma wf_r4type : insn_wf (decode_r4type ir w).
Proof using Hwf. go. Qed.
End wf.
#[export] Hint Resolve wf_opcode wf_rm_set wf_itype wf_utype wf_stype wf_rtype
  wf_btype wf_jtype wf_r4type : wf.

(** ... hence by every handler of the base map. *)
Lemma wf_jump_table n op ir w :
  rv_jump_table !! n = Some op -> insn_wf ir -> insn_wf (op ir w).1.
Proof.
  intros Hop Hwf. do 32 (destruct n as [|n]; [simpl in Hop; simplify_eq;
    unfold op_load, op_load_fp, op_misc_mem, op_op_imm, op_auipc, op_store,
      op_store_fp, op_amo, op_op, op_lui, op_madd, op_msub, op_nmsub, op_nmadd,
      op_op_fp, op_branch, op_jalr, op_jal, op_system, op_unimp, ok, bad;
    repeat case_match; simpl; auto 6 with wf|]).
  done.
Qed.

Definition insn_wfb (ir : rv_insn) : bool :=
  (- 2 ^ 31 <=? ir.(imm)) && (ir.(imm) <? 2 ^ 31)
  && (0 <=? ir.(rd)) && (ir.(rd) <? 32) && (0 <=? ir.(rs1)) && (ir.(rs1) <? 32)
  && (0 <=? ir.(rs2)) && (ir.(rs2) <? 32) && (0 <=? ir.(shamt))
  && (ir.(shamt) <? 64) && (0 <=? ir.(rm)) && (ir.(rm) <? 8).

Lemma insn_wfb_wf ir : insn_wfb ir = true -> insn_wf ir.
Proof.
  unfold insn_wfb. rewrite !andb_true_iff, !Z.leb_le, !Z.ltb_lt.
  intros. destruct_and!. constructor; lia.
Qed.

(** The operands of compressed instructions whose handlers narrow them. *)
Definition rvc_operands (ir : rv_insn) : bool :=
  match ir.(opcode) with
  | rv_insn_caddi4spn => (0 <=? ir.(imm)) && (ir.(imm) <? 2 ^ 16)
  | rv_insn_caddi => (- 2 ^ 15 <=? ir.(imm)) && (ir.(imm) <? 2 ^ 15)
  | rv_insn_csrli | rv_insn_csrai => ir.(shamt) <? 32
  | _ => true
  end.

Lemma rvc_wf_all :
  all16 (fun c => (cbits 0 2 c =? 3) ||
    match rv_decode false rv_insn0 c with
    | Some (ir, b) => insn_wfb ir && (negb b || rvc_operands ir)
    | None => true
    end) = true.
Proof. vm_compute. reflexivity. Qed.

Lemma rvc_decode_wf c ir b :
  0 <= c < 2 ^ 16 -> c mod 4 <> 3 -> rv_decode false rv_insn0 c = Some (ir, b) ->
  insn_wf ir /\ (b = true -> rvc_operands ir = true).
Proof.
  intros Hc H3 E. pose proof (all16_spec _ c rvc_wf_all Hc) as H.
  simpl in H. rewrite E, cbits_0_2 in H.
  destruct (Z.eqb_spec (c mod 4) 3); [done|]. simpl in H.
  apply andb_true_iff in H as [Hw Hb]. split; [by apply insn_wfb_wf|].
  by intros ->.
Qed.

(** The compressed path only looks at the low half word. *)
Lemma rv_decode_low16 w :
  w mod 4 <> 3 ->
  rv_decode false rv_insn0 w = rv_decode false rv_insn0 (w mod 2 ^ 16).
Proof.
  intros H3. unfold rv_decode, is_tt, is_compressed.
  change 0x0000FFFF with (Z.ones 16). rewrite !Z.land_ones, !fc_opcode_bits by lia.
  rewrite Z.mod_mod by lia.
  replace (bits 0 2 (w mod 2 ^ 16)) with (w mod 4) by (unfold bits; div_lia).
  replace (bits 0 2 w) with (w mod 4) by (unfold bits; div_lia).
  by destruct (Z.eqb_spec (w mod 4) 3).
Qed.

Lemma decode_insn_wf ext_tt w ir b :
  rv_decode ext_tt rv_insn0 w = Some (ir, b) -> insn_wf ir.
Proof.
  destruct (decide (w mod 4 = 3)) as [E|E].
  - unfold rv_decode, is_tt, is_compressed.
    rewrite fc_opcode_bits. replace (bits 0 2 w) with 3 by (unfold bits; div_lia).
    assert ((if ext_tt then negb (3 =? 3) else false) = false) as ->
      by by destruct ext_tt.
    assert ((if ext_tt then false else negb (3 =? 3)) = false) as ->
      by by destruct ext_tt.
    destruct (rv_jump_table !! _) as [op|] eqn:Hop; [|done].
    intros H. simplify_eq. pose proof (wf_jump_table _ _ _ w Hop insn_wf0) as Hwf.
    by destruct (op rv_insn0 w); simplify_eq.
  - destruct ext_tt.
    + unfold rv_decode, is_tt. rewrite fc_opcode_bits.
      replace (bits 0 2 w) with (w mod 4) by (unfold bits; div_lia).
      destruct (Z.eqb_spec (w mod 4) 3); [done|]. intros. simplify_eq/=.
      apply insn_wf0.
    + rewrite rv_decode_low16 by done. intros H.
      apply (rvc_decode_wf (w mod 2 ^ 16) ir b) in H; [tauto | |].
      * apply Z.mod_pos_bound. lia.
      * replace ((w mod 2 ^ 16) mod 4) with (w mod 4) by div_lia. done.
Qed.

(** Type soundness of the decoder: whatever the word, accepted or not,
    and in both configurations, the representation left behind has register
    numbers below 32, an [int32_t] immediate, a shift amount below 64 and a
    rounding mode below 8. *)
Theorem rv_decode_wf ext_tt w ir b :
  rv_decode ext_tt rv_insn0 w = Some (ir, b) -> insn_wf ir.
Proof. apply decode_insn_wf. Qed.

Lemma rv_decode_wf_witness :
  insn_wf (build rv_insn_srai (FI 0x13 5) (mk_operands 5 6 0 0x407 0)).
Proof. exact (rv_decode_wf true 0x40735293 _ true eq_refl). Defined.
