(* ===== verification/ExecRvc.v ===== *)
(** * Compressed instructions execute as their expansions

    The handlers of the compressed computational instructions compute the
    meaning of the base instruction that the manual expands them to
    ([rvc_manual]), and go on two bytes further. *)

From Stdlib Require Import ZArith Lia Bool.
From stdpp Require Import base list numbers.
From S2P Require Import Prelude Decode Riscv Exec ExecWf Memory MemorySpec AluSpec DecodeSpec DecodeRvc.

(** ** The loop of [c.srai] *)

Lemma fold_lor {A} (g : A -> Z) l v :
  fold_left (fun v i => v |. g i) l v = v |. fold_left (fun v i => v |. g i) l 0.
Proof.
  revert v. induction l as [|i l IH]; intros v; simpl; [by rewrite Z.lor_0_r|].
  rewrite IH, Z.lor_0_l, (IH (g i)). by rewrite Z.lor_assoc.
Qed.

Lemma sign_mask n :
  (n <= 32)%nat ->
  fold_left (fun v i => v |. shr32 0x80000000 i) (seqZ 0 (Z.of_nat n)) 0 =
  2 ^ 32 - 2 ^ (32 - Z.of_nat n).
Proof.
  induction n as [|n IH]; intros Hn; [done|].
  replace (Z.of_nat (S n)) with (Z.of_nat n + 1) by lia.
  rewrite seqZ_app, fold_left_app, IH by lia.
  change (seqZ (0 + Z.of_nat n) 1) with [0 + Z.of_nat n]. cbn [fold_left].
  unfold shr32. rewrite Z.add_0_l, Z.mod_small, Z.shiftr_div_pow2 by lia.
  change 0x80000000 with (2 ^ 31). rewrite <- Z.pow_sub_r by lia.
  assert (2 ^ (32 - Z.of_nat n) = 2 * 2 ^ (31 - Z.of_nat n)) as E
    by (rewrite <- Z.pow_succ_r by lia; f_equal; lia).
  replace (32 - (Z.of_nat n + 1)) with (31 - Z.of_nat n) by lia.
  rewrite (lor_add _ _ (32 - Z.of_nat n)); [lia | lia | | lia].
  replace (2 ^ 32) with (2 ^ Z.of_nat n * 2 ^ (32 - Z.of_nat n))
    by (rewrite <- Z.pow_add_r by lia; f_equal; lia).
  replace (2 ^ Z.of_nat n * 2 ^ (32 - Z.of_nat n) - 2 ^ (32 - Z.of_nat n))
    with ((2 ^ Z.of_nat n - 1) * 2 ^ (32 - Z.of_nat n)) by ring.
  apply Z.mod_mul. lia.
Qed.

Lemma fold_lor_0 (l : list Z) v : fold_left (fun v i => v |. shr32 0 i) l v = v.
Proof.
  revert v. induction l as [|i l IH]; intros v; simpl; [done|].
  rewrite IH. unfold shr32. by rewrite Z.shiftr_0_l, Z.lor_0_r.
Qed.

Lemma csrai_value x s :
  word x -> 0 <= s < 32 ->
  fold_left (fun v i => v |. shr32 (0x80000000 &. x) i) (seqZ 0 s) (shr32 x s) =
  u32 (s32 x / 2 ^ s).
Proof.
  intros Hx Hs. unfold shr32 at 2. rewrite Z.mod_small, Z.shiftr_div_pow2 by lia.
  assert (0x80000000 &. x = if x <? 2 ^ 31 then 0 else 0x80000000) as ->.
  { rewrite Z.land_comm, (land_mask x 31 1) by done. unfold word, bits in *.
    destruct (Z.ltb_spec x (2 ^ 31)); div_lia. }
  rewrite s32_word by done.
  assert (2 ^ 32 = 2 ^ (32 - s) * 2 ^ s) as E
    by (rewrite <- Z.pow_add_r by lia; f_equal; lia).
  assert (0 <= x / 2 ^ s < 2 ^ (32 - s)) as Hv.
  { unfold word in Hx. split; [apply Z.div_pos; lia|]. apply Z.div_lt_upper_bound; lia. }
  assert (2 ^ (32 - s) <= 2 ^ 32) by (apply Z.pow_le_mono_r; lia).
  destruct (x <? 2 ^ 31).
  - rewrite fold_lor_0. symmetry. apply u32_small. lia.
  - rewrite fold_lor, <- (Z2Nat.id s), sign_mask, Z2Nat.id by lia.
    rewrite (lor_add' _ _ (32 - s)); [|lia|lia|].
    + rewrite E at 2. replace (x - 2 ^ (32 - s) * 2 ^ s)
        with (x + (- 2 ^ (32 - s)) * 2 ^ s) by ring.
      rewrite Z.div_add by lia. unfold u32. apply (Z.mod_unique _ _ (-1)); lia.
    + rewrite E. replace (2 ^ (32 - s) * 2 ^ s - 2 ^ (32 - s))
        with ((2 ^ s - 1) * 2 ^ (32 - s)) by ring.
      apply Z.mod_mul. lia.
Qed.

Lemma sext16_small i : - 2 ^ 15 <= i < 2 ^ 15 -> sext 16 i = i.
Proof. intros. word_lia. Qed.

(** ** The handlers *)

Definition operand2_of (rv : riscv) (o : insn_op) (a : operands) : Z :=
  if has_imm o then u32 (o_imm a) else getX rv (o_rs2 a).

Section rvc.
Context {W : Type} (io : riscv_io W) (sf : softfloat) (find : Z -> option Z).
Context (tt_direct : Z -> Z -> W -> W * bool).

Lemma RVOP_rvc o (body : code) rv (w : W) ir cycle pc i v :
  insn_len o = 2 ->
  body rv w ir (u64 (cycle + 1)) pc = (setX rv i v, w, nextop pc) ->
  RVOP o body rv w ir cycle pc =
  (setX rv i v, w, Next (u64 (cycle + 1)) (u32 (pc + 2))).
Proof. intros Hl E. unfold RVOP. by rewrite E, Hl. Qed.

Lemma csrai_exec rv (w : W) ir cycle pc :
  rv_wf rv -> insn_wf ir -> ir.(shamt) < 32 ->
  do_csrai rv w ir cycle pc =
  (setX rv ir.(rs1) (u32 (s32 (getX rv ir.(rs1)) / 2 ^ ir.(shamt))), w, nextop pc).
Proof.
  intros Hrv Hir Hs. unfold do_csrai. cbv zeta. do 2 f_equal.
  rewrite <- csrai_value; [|auto with word | destruct Hir; lia].
  apply (fold_setX rv ir.(rs1) _
    (fun i v => v |. shr32 (0x80000000 &. getX rv (rs1 ir)) i)); [apply Hir | apply Hrv].
Qed.

Lemma rvc_base_exec ir o a f rv w cycle pc :
  rvc_base ir = Some (o, a) -> isa_alu o = Some f ->
  rv_wf rv -> insn_wf ir -> rvc_operands ir = true -> getX rv 0 = 0 ->
  dispatch_table io sf find tt_direct ir.(opcode) rv w ir cycle pc =
  (setX rv (o_rd a) (f (getX rv (o_rs1 a)) (operand2_of rv o a)), w,
   Next (u64 (cycle + 1)) (u32 (pc + 2))).
Proof.
  intros Hb Hf Hrv Hir Hop H0. unfold rvc_base, rvc_operands in *.
  destruct (opcode ir) eqn:E; try discriminate Hb;
    unfold x_i, x_r, x_s, x_hint in Hb; apply (inj Some) in Hb;
    apply pair_equal_spec in Hb as [<- <-]; try discriminate Hf;
    cbn [isa_alu] in Hf; apply (inj Some) in Hf; subst f;
    cbn [dispatch_table o_rd o_rs1 o_rs2 o_imm]; unfold operand2_of;
    cbn [has_imm o_imm o_rs2]; rewrite ?andb_true_iff, ?Z.leb_le, ?Z.ltb_lt in Hop.
  all: apply RVOP_rvc; [reflexivity|].
  all: rewrite ?mod32_u32, ?H0, ?Z.add_0_l.
  all: lazymatch goal with
    | |- do_csrai _ _ _ _ _ = _ => rewrite csrai_exec by done
    | |- do_csrli _ _ _ _ _ = _ => unfold do_csrli, shr32
    | |- do_cslli _ _ _ _ _ = _ => unfold do_cslli, wr_rd, shl32
    | |- do_cli _ _ _ _ _ = _ => rewrite u32_idemp
    | |- do_cmv _ _ _ _ _ = _ => rewrite u32_word by auto with word
    | |- do_caddi _ _ _ _ _ = _ => unfold do_caddi, wr_rd, s16
    | |- do_caddi4spn _ _ _ _ _ = _ => unfold do_caddi4spn, wr_rd, u16
    | |- do_caddi16sp _ _ _ _ _ = _ => unfold do_caddi16sp, wr_rd
    | |- _ => idtac
    end; try reflexivity; do 3 f_equal.
  - rewrite <- add_imm_c. by rewrite Z.mod_small.
  - rewrite <- add_imm_c. by rewrite sext16_small.
  - apply add_imm_c.
  - apply Z.shiftr_div_pow2, mod32_range.
  - destruct Hir. by replace ((0x400 + shamt ir) mod 32) with (shamt ir) by div_lia.
  - rewrite Z.shiftl_mul_pow2 by apply mod32_range. unfold u8.
    by replace ((imm ir mod 2 ^ 8) mod 32) with (imm ir mod 32) by div_lia.
Qed.

(** Decoding and executing a compressed computational instruction does
    what the manual says of it: for every 16-bit word that is not one of the
    reserved codes of [rvc_lenient], if the manual expands it to the base
    instruction [o] with operands [a] and the decoder accepts it, the handler
    writes to its destination the value [isa_alu] gives to [o] on those
    operands, changes nothing else, and goes on two bytes further. *)
Theorem rvc_alu_exec c ir o a f rv w cycle pc :
  0 <= c < 2 ^ 16 -> c mod 4 <> 3 -> rvc_lenient c = false ->
  rv_decode false rv_insn0 c = Some (ir, true) -> rvc_manual c = Some (o, a) ->
  isa_alu o = Some f -> rv_wf rv -> getX rv 0 = 0 -> o_rd a <> 0 ->
  dispatch_table io sf find tt_direct ir.(opcode) rv w ir cycle pc =
  (setX rv (o_rd a) (f (getX rv (o_rs1 a)) (operand2_of rv o a)), w,
   Next (u64 (cycle + 1)) (u32 (pc + 2))).
Proof.
  intros Hc H3 Hl Hd Hm Hf Hrv H0 _.
  destruct (rvc_decode_wf c ir true Hc H3 Hd) as [Hir Hop].
  pose proof (rvc_agrees_ok c Hc H3 Hl) as H. rewrite Hd in H.
  destruct H as (o' & a' & E & Hb). rewrite Hm in E. simplify_eq.
  by apply rvc_base_exec; auto.
Qed.
End rvc.

(** [c.srai x8, 4] on [x8 = 0x80000000]. *)
Lemma rvc_alu_exec_witness :
  let rv := setX (rv_zero 0) 8 0x80000000 in
  match rv_decode false rv_insn0 0x8411 with
  | Some (ir, true) =>
      dispatch_table no_tensix sf_zero (fun _ => None) (fun _ _ w => (w, true))
        ir.(opcode) rv mem0 ir 7 0x100 =
      (setX rv 8 0xf8000000, mem0, Next 8 0x102)
  | _ => False
  end.
Proof.
  intros rv.
  assert (rv_wf rv) by (apply wf_setX; [apply rv_zero_wf | auto with word]).
  etrans; [eapply (rvc_alu_exec no_tensix sf_zero (fun _ => None)
    (fun _ _ w => (w, true)) 0x8411); try reflexivity; done || lia | reflexivity].
Defined.
