(* ===== verification/BlockSpec.v ===== *)
(** * Translation followed by the optimisation passes is correct

    The blocks that [block_translate] builds meet what the optimisation
    passes require, so that a block and its optimised form do the same. *)

From Stdlib Require Import ZArith Lia Bool.
From stdpp Require Import base list numbers gmap.
From S2P Require Import Prelude Decode Riscv Exec ExecWf Memory MemorySpec AluSpec ConstOpt ConstOptSpec Fusion FusionSpec Block DecodeSpec DecodeRvc.

(** ** What the decoder guarantees *)

Record fresh (ir : rv_insn) : Prop := mk_fresh {
  fr_taken : ir.(branch_taken) = None;
  fr_untaken : ir.(branch_untaken) = None
}.

Definition is_ttinsn (o : insn_op) : bool :=
  match o with rv_insn_ttinsn => true | _ => false end.

Record decoded (ir : rv_insn) : Prop := mk_decoded {
  de_fused : is_fused ir.(opcode) = false;
  de_comp : comp ir.(opcode) = true -> dest ir.(opcode) ir <> Some 0;
  de_branch : is_Some (cond_branch ir.(opcode)) -> ir.(rd) = 0;
  de_len : insn_len ir.(opcode) = 4;
  de_tt : is_ttinsn ir.(opcode) = false
}.

Lemma fresh_jump_table n op w :
  rv_jump_table !! n = Some op -> fresh (op rv_insn0 w).1.
Proof.
  intros Hop. do 32 (destruct n as [|n]; [simpl in Hop; simplify_eq;
    unfold op_load, op_load_fp, op_misc_mem, op_op_imm, op_auipc, op_store,
      op_store_fp, op_amo, op_op, op_lui, op_madd, op_msub, op_nmsub, op_nmadd,
      op_op_fp, op_branch, op_jalr, op_jal, op_system, op_unimp, ok, bad;
    repeat case_match; by constructor|]).
  done.
Qed.

(** Opcodes that need nothing of the operands, computational ones, and
    conditional branches. *)
Definition plain (o : insn_op) : bool :=
  negb (is_fused o) && negb (comp o) && (if cond_branch o is Some _ then false else true)
  && (insn_len o =? 4) && negb (is_ttinsn o).

Lemma decoded_plain ir o : plain o = true -> decoded (ir_set_opcode ir o).
Proof.
  unfold plain. rewrite !andb_true_iff, !negb_true_iff, Z.eqb_eq. intros [[[[Hf Hc] Hb] Hl] Ht].
  constructor; simpl; [done | by rewrite Hc | | done | done]. intros [f E]. by rewrite E in Hb.
Qed.
Lemma decoded_comp ir o :
  (ir.(rd) =? rv_reg_zero) = false -> is_fused o = false -> cond_branch o = None ->
  dest o = (fun ir => Some ir.(rd)) -> insn_len o = 4 -> is_ttinsn o = false ->
  decoded (ir_set_opcode ir o).
Proof.
  intros Hr Hf Hb Hd Hl Ht. constructor; simpl; [done | | | done | done].
  - intros _. rewrite Hd. intros [= E]. by rewrite E in Hr.
  - rewrite Hb. by intros [? [=]].
Qed.
Lemma decoded_branch ir o :
  ir.(rd) = 0 -> is_fused o = false -> comp o = false -> insn_len o = 4 ->
  is_ttinsn o = false -> decoded (ir_set_opcode ir o).
Proof. intros Hr Hf Hc Hl Ht. constructor; simpl; [done | by rewrite Hc | done | done | done]. Qed.

Ltac leaf :=
  lazymatch goal with
  | |- false = true -> _ => discriminate
  | |- _ =>
      intros _; first [ apply decoded_plain; reflexivity
        | eapply decoded_comp; [eassumption | reflexivity..]
        | apply decoded_branch; reflexivity
        | constructor; [reflexivity | discriminate | by intros [? [=]] | reflexivity | reflexivity] ]
  end.

Lemma decoded_jump_table n op w :
  rv_jump_table !! n = Some op -> (op rv_insn0 w).2 = true -> decoded (op rv_insn0 w).1.
Proof.
  intros Hop. do 32 (destruct n as [|n]; [simpl in Hop; injection Hop as <-;
    unfold op_load, op_load_fp, op_misc_mem, op_op_imm, op_auipc, op_store,
      op_store_fp, op_amo, op_op, op_lui, op_madd, op_msub, op_nmsub, op_nmadd,
      op_op_fp, op_branch, op_jalr, op_jal, op_system, op_unimp, ok, bad; cbv zeta;
    repeat case_match; cbn [fst snd]; leaf|]).
  done.
Qed.

Lemma rv_decode_fresh w ir b :
  rv_decode true rv_insn0 w = Some (ir, b) ->
  fresh ir /\ (b = true -> decoded ir).
Proof.
  unfold rv_decode, is_compressed. destruct (is_tt true w).
  { intros [= <- <-]. by split. }
  destruct (rv_jump_table !! _) as [op|] eqn:Hop; [|done]. intros H.
  pose proof (fresh_jump_table _ _ w Hop). pose proof (decoded_jump_table _ _ w Hop).
  injection H as E. rewrite E in *. done.
Qed.

(** ** Translated blocks are ready for the passes *)

Lemma decoded_insn_ok ir pc :
  fresh ir -> decoded ir -> insn_wf ir -> ir.(opcode) <> rv_insn_scw ->
  insn_ok (ir_set_insn_pc (ir_set_impl ir (do_op ir.(opcode))) pc) pc.
Proof.
  intros [] [] [] Hs. constructor; simpl; try done; by left.
Qed.

Section translate.
Context (tensix : bool) (fetch : Z -> Z) (Xs : list Z).

Lemma translate_ok fuel pc lui irs pe :
  translate_loop true tensix fetch Xs fuel pc lui = Some (irs, pe) ->
  Forall (fun ir => ir.(opcode) <> rv_insn_scw) irs -> block_ok irs pc.
Proof.
  revert pc lui irs pe. induction fuel as [|fuel IH]; intros pc lui irs pe; [done|].
  cbn [translate_loop]. destruct (_ =? 0); [done|].
  destruct (rv_decode true rv_insn0 (fetch pc)) as [[ir b]|] eqn:Hd; [|done].
  apply rv_decode_fresh in Hd as Hf. destruct Hf as [Hf Hdec].
  apply decode_insn_wf in Hd as Hwf.
  destruct b.
  - specialize (Hdec eq_refl).
    set (ir1 := ir_set_insn_pc (ir_set_impl ir (do_op (opcode ir))) pc).
    assert (ir.(opcode) <> rv_insn_scw -> insn_ok ir1 pc) as Hok
      by (intros; by apply decoded_insn_ok).
    change (is_compressed true (fetch pc)) with false. cbv iota.
    destruct (true && tensix && mailbox_lw Xs lui ir1) eqn:Hm.
    { intros [= <- <-] Hs. apply List.Forall_cons_iff in Hs as [Hs _].
      split; [|split; [by left | done]].
      destruct (Hok Hs) as [Hw ? ? ? ? ? ? ?]. constructor; try done.
      - destruct Hw. by constructor.
      - right. split; [|done]. apply andb_true_iff in Hm as [_ Hm].
        apply andb_true_iff in Hm as [Hm _]. by apply bool_decide_eq_true in Hm. }
    destruct (insn_is_branch (opcode ir1)) eqn:Hb.
    { intros [= <- <-] Hs. apply List.Forall_cons_iff in Hs as [Hs _].
      split; [|split; [by left | done]].
      destruct (insn_is_indirect_branch (opcode ir)); [|by apply Hok].
      destruct (Hok Hs) as [Hw ? ? ? ? ? ? ?]. constructor; try done.
      destruct Hw. by constructor. }
    destruct (translate_loop _ _ _ _ _ _ _) as [[rest pe']|] eqn:Ht; [|done].
    intros [= <- <-] Hs. apply List.Forall_cons_iff in Hs as [Hs Hrest].
    split; [by apply Hok|]. split; [by right|].
    assert (insn_len (opcode ir1) = 4) as -> by apply Hdec. by eapply IH.
  - intros [= <- <-] Hs. split; [|split; [by left | done]].
    destruct Hf, Hwf. constructor; simpl; try done; [|by left].
    constructor; simpl; try done. apply s32_range.
Qed.
End translate.

(** ** The passes compose *)

(** An instruction after constant propagation: well formed, and with the
    handler of its opcode. *)
Definition shape (f : opt) : Prop :=
  forall ir info, insn_wf ir -> ir.(impl) = do_op ir.(opcode) ->
  insn_wf (f ir info).1 /\ (f ir info).1.(impl) = do_op (f ir info).1.(opcode).

Lemma become_wf o ir i :
  insn_wf ir -> - 2 ^ 31 <= i < 2 ^ 31 -> insn_wf (become o (ir_set_imm ir i)).
Proof. intros [] Hi. by constructor. Qed.

Lemma shape_ri f : shape (fold_ri f).
Proof.
  intros ir info Hir Hi. unfold fold_ri. destruct (is_const _ _); [|done].
  split; [|done]. apply become_wf; [done | apply s32_range].
Qed.
Lemma shape_rr o f : shape (fold_rr o f).
Proof.
  intros ir info Hir Hi. unfold fold_rr. destruct (_ && _); [|done].
  split; [|done]. apply become_wf; [done | apply s32_range].
Qed.
Lemma shape_rd f : shape (fold_rd f).
Proof.
  intros ir info Hir Hi. unfold fold_rd. destruct (is_const _ _); [|done].
  split; [|done]. apply become_wf; [done | apply s32_range].
Qed.
Lemma shape_rs1 f : shape (fold_rs1 f).
Proof.
  intros ir info Hir Hi. unfold fold_rs1. destruct (is_const _ _); [|done].
  split; [|done]. destruct Hir. constructor; simpl; try done. apply s32_range.
Qed.
Lemma shape_branch f : shape (OPT_BRANCH_FUNC f).
Proof.
  intros ir info Hir Hi. unfold OPT_BRANCH_FUNC. destruct (_ && _); [|done].
  split; [|done]. destruct (f _ _); [by apply become_wf | destruct Hir; by constructor].
Qed.
Lemma shape_cbranch f : shape (c_branch_opt f).
Proof.
  intros ir info Hir Hi. unfold c_branch_opt. destruct (is_const _ _); [|done].
  split; [|done]. destruct (f _); [by apply become_wf | destruct Hir; by constructor].
Qed.
Lemma constopt_shape o : shape (constopt_table o).
Proof.
  destruct o; cbn [constopt_table];
    first [ apply shape_ri | apply shape_rr | apply shape_rd | apply shape_rs1
          | apply shape_branch | apply shape_cbranch
          | intros ir info Hir Hi; split; [exact Hir | exact Hi]
          | intros ir info Hir Hi;
            unfold constopt_auipc, constopt_caddi4spn, constopt_cmv;
            try (destruct (is_const _ _); [|done]); split; [|done];
            apply become_wf; [done | apply s32_range] ].
Qed.

Lemma optimize_shape irs info :
  Forall insn_wf irs -> Forall (fun ir => ir.(impl) = do_op ir.(opcode)) irs ->
  Forall insn_wf (optimize_loop irs info) /\
  Forall (fun ir => ir.(impl) = do_op ir.(opcode)) (optimize_loop irs info) /\
  length (optimize_loop irs info) = length irs.
Proof.
  revert info. induction irs as [|ir irs IH]; intros info Hwf Hi; [by split_and!|].
  apply List.Forall_cons_iff in Hwf as [Hw Hwf]. apply List.Forall_cons_iff in Hi as [Hi His].
  cbn [optimize_loop]. pose proof (constopt_shape ir.(opcode) ir info Hw Hi) as [H1 H2].
  destruct (constopt_table _ _ _) as [ir' info']. simpl in *.
  destruct (IH info' Hwf His) as (? & ? & ->). split_and!; by try constructor.
Qed.

Section pipeline.
Context {W : Type} (io : riscv_io W) (sf : softfloat) (find : Z -> option Z).
Context (tt_direct : Z -> Z -> W -> W * bool) (mailbox_stalled : Z -> W -> bool).
Context `{!IoOk io, !SfOk sf}.
Context (malloc_ok : rv_insn -> bool).
Notation exec := (exec_block io sf find tt_direct mailbox_stalled).

Lemma block_ok_wf irs pc : block_ok irs pc -> Forall insn_wf irs.
Proof.
  revert pc. induction irs as [|ir irs IH]; intros pc; [by constructor|].
  intros ([Hwf] & _ & Hr). constructor; [done | by eapply IH].
Qed.

Lemma optimize_block_ok tensix fetch Xs fuel pc b rv w cycle :
  block_translate true tensix fetch Xs fuel pc = Some b ->
  (length b.(ir_list) <= 256)%nat ->
  Forall (fun ir => ir.(opcode) <> rv_insn_scw /\ ir.(impl) = do_op ir.(opcode))
    b.(ir_list) ->
  rv_wf rv -> getX rv 0 = 0 -> 0 <= cycle < 2 ^ 64 -> word pc ->
  (exec b.(ir_list) rv w cycle pc).2 <> Returned false ->
  same_result (exec b.(ir_list) rv w cycle pc)
    (exec (optimize_block malloc_ok b).(ir_list) rv w cycle pc) /\
  (optimize_block malloc_ok b).(n_insn) =
    Z.of_nat (length (optimize_block malloc_ok b).(ir_list)).
Proof using IoOk0 SfOk0.
  unfold block_translate. destruct (translate_loop _ _ _ _ _ _ _) as [[irs pe]|] eqn:Ht; [|done].
  intros [= <-] Hlen Hok Hrv H0 Hc Hpc Hres. simpl in Hlen, Hok, Hres.
  cbn [ir_list] in *. apply Forall_and in Hok as [Hs Hi].
  pose proof (translate_ok tensix fetch Xs fuel pc _ irs pe Ht Hs) as Hb.
  pose proof (block_ok_wf irs pc Hb) as Hwf.
  assert (same_result (exec irs rv w cycle pc) (exec (optimize_constant irs) rv w cycle pc))
    as Hsame by (apply optimize_sound; try done; by apply agrees_info0).
  destruct (optimize_shape irs info0 Hwf Hi) as (Hwf' & Hi' & Hl).
  fold (optimize_constant irs) in *.
  unfold optimize_block. cbn [ir_list n_insn]. rewrite <- Hl.
  pose proof (match_ok io sf find tt_direct mailbox_stalled malloc_ok (optimize_constant irs)
    rv w cycle pc ltac:(lia) Hi' Hwf' Hrv Hc Hpc) as Hm.
  destruct (match_pattern _ _ _) as [irs' n]. cbn [ir_list n_insn].
  destruct Hsame as (H1 & H2 & H3). destruct Hm as [-> ->]; [by rewrite <- H3|].
  done.
Qed.

End pipeline.

(** [lui x5, 1; addi x6, x5, 4; jal x0, 0]. *)
Definition fetch3 (a : Z) : Z :=
  match a with 0 => 0x000012b7 | 4 => 0x00428313 | _ => 0x0000006f end.

