(* ===== verification/StepRef.v ===== *)
(** * The reference interpreter, and blocks as runs of it

    [ref_step] executes one instruction the way the manual describes a hart:
    fetch at the program counter, decode, execute, store the program counter.
    It knows no blocks, no optimised instructions and no chaining.  A block
    that [block_translate] built does what [ref_step] does for each of its
    instructions, one after the other. *)

From Stdlib Require Import ZArith Lia Bool.
From stdpp Require Import base list numbers gmap.
From S2P Require Import Prelude Decode Riscv Exec ExecWf Memory MemorySpec AluSpec ConstOpt ConstOptSpec Blind Fusion FusionSpec Block DecodeSpec DecodeRvc BlockSpec.

(** ** One instruction *)

(** The representation of the instruction at [pc], as the loop of
    [block_translate] builds it on a hart without a coprocessor. *)
Definition insn_at (fetch : Z -> Z) (pc : Z) : option rv_insn :=
  let insn := fetch pc in
  if insn =? 0 then None else
  match rv_decode true rv_insn0 insn with
  | None => None
  | Some (ir, false) =>
      Some (ir_set_insn_pc (ir_set_impl (ir_set_imm (ir_set_opcode ir rv_insn_ttinsn)
              (s32 (rotr32 insn 2))) (do_op rv_insn_ttinsn)) pc)
  | Some (ir, true) =>
      let ir := ir_set_insn_pc (ir_set_impl ir (do_op ir.(opcode))) pc in
      Some (if insn_is_indirect_branch ir.(opcode)
            then ir_set_branch_table ir (Some new_bht) else ir)
  end.

Section translate.
Context (fetch : Z -> Z) (Xs : list Z).

Lemma translate_cons fuel pc lui irs pe :
  translate_loop true false fetch Xs fuel pc lui = Some (irs, pe) ->
  exists fuel' ir rest, fuel = S fuel' /\ irs = ir :: rest /\ insn_at fetch pc = Some ir /\
  (rest = [] /\ (insn_is_branch ir.(opcode) || is_ttinsn ir.(opcode)) = true \/
   insn_is_branch ir.(opcode) = false /\ is_ttinsn ir.(opcode) = false /\
   translate_loop true false fetch Xs fuel' (u32 (pc + 4)) lui = Some (rest, pe)).
Proof.
  destruct fuel as [|fuel]; [done|]. cbn [translate_loop]. unfold insn_at. cbv zeta.
  destruct (fetch pc =? 0); [done|].
  destruct (rv_decode true rv_insn0 (fetch pc)) as [[ir []]|] eqn:Hd; [| |done].
  - change (is_compressed true (fetch pc)) with false. cbn [andb].
    set (ir1 := ir_set_insn_pc _ pc).
    assert (is_ttinsn (opcode ir1) = false) as Ht.
    { apply rv_decode_fresh in Hd as [_ Hd]. apply (de_tt _ (Hd eq_refl)). }
    destruct (insn_is_branch (opcode ir1)) eqn:Hb.
    + intros [= <- <-]. eexists _, _, _. split_and!; [done..|]. left. split; [done|].
      change (opcode ir) with (opcode ir1).
      destruct (insn_is_indirect_branch (opcode ir1)); [cbn [opcode ir_set_branch_table]|];
        by rewrite Hb.
    + destruct (translate_loop _ _ _ _ _ _ _) as [[rest pe']|] eqn:Hl; [|done].
      intros [= <- <-].
      change (opcode ir) with (opcode ir1).
      assert (insn_is_indirect_branch (opcode ir1) = false) as ->
        by (destruct (opcode ir1); done).
      eexists _, _, _. split_and!; [done..|]. by right.
  - intros [= <- <-]. eexists _, _, _. split_and!; [done..|]. left. split; [done|].
    done.
Qed.
End translate.

(** ** The reference machine *)

(** Where a finished or chained block sends control. *)
Definition end_pc (rv : riscv) (e : block_end) : option Z :=
  match e with
  | Returned true => Some rv.(PC)
  | Chained _ _ pc _ => Some pc
  | _ => None
  end.

Section ref.
Context {W : Type} (io : riscv_io W) (sf : softfloat).
Context (tt_direct : Z -> Z -> W -> W * bool) (mailbox_stalled : Z -> W -> bool).

Definition ref_step (s : riscv * W) : option (riscv * W) :=
  let '(rv, w) := s in
  match insn_at (io.(mem_ifetch) rv w) rv.(PC) with
  | None => None
  | Some ir =>
      match exec_block io sf (fun _ => None) tt_direct mailbox_stalled [ir] rv w
              rv.(csr_cycle) rv.(PC) with
      | (rv, w, Returned true) => Some (rv, w)
      | _ => None
      end
  end.

Fixpoint ref_run (n : nat) (s : riscv * W) : option (riscv * W) :=
  match n with
  | O => Some s
  | S n => ref_step s ≫= ref_run n
  end.

Lemma ref_run_add n m s : ref_run (n + m) s = ref_run n s ≫= ref_run m.
Proof.
  revert s. induction n as [|n IH]; intros s; [done|]. cbn [ref_run Nat.add].
  destruct (ref_step s) as [s'|]; [apply IH | done].
Qed.

(** ** Safe programs *)

(** What the passes and the tables need of a block. *)
Record block_fine (b : block_t) : Prop := mk_block_fine {
  bf_len : (length b.(ir_list) <= 256)%nat;
  bf_ops : Forall (fun ir => ir.(opcode) <> rv_insn_scw /\ ir.(opcode) <> rv_insn_wfi /\
                             no_counter ir) b.(ir_list)
}.

(** The program [code] is in memory ([code a] is the instruction at [a], 0
    where there is none: what memory holds there may change), [x0] is 0, the
    hart is not NCRISC (which clears memory when it leaves a kernel), and the
    code at the program counter can be translated. *)
Record fine (code : Z -> Z) (tfuel : nat) (s : riscv * W) : Prop := mk_fine {
  fi_code : forall a, code a <> 0 -> io.(mem_ifetch) s.1 s.2 a = code a;
  fi_zero : getX s.1 0 = 0;
  fi_core : s.1.(core_id) <> 3;
  fi_block : exists b, block_translate true false code [] tfuel s.1.(PC) = Some b /\ block_fine b
}.

(** The reference run from [s] never stops and stays fine. *)
Definition safe (code : Z -> Z) (tfuel : nat) (s : riscv * W) : Prop :=
  forall n, exists s', ref_run n s = Some s' /\ fine code tfuel s'.

Lemma safe_run code tfuel n s s' :
  safe code tfuel s -> ref_run n s = Some s' -> safe code tfuel s'.
Proof.
  intros Hs Hn m. destruct (Hs (n + m)%nat) as (s'' & Hm & Hf).
  rewrite ref_run_add, Hn in Hm. eauto.
Qed.
Lemma safe_fine code tfuel s : safe code tfuel s -> fine code tfuel s.
Proof. intros Hs. by destruct (Hs 0%nat) as (s' & [= <-] & ?). Qed.
Lemma safe_step code tfuel s :
  safe code tfuel s -> exists s', ref_step s = Some s' /\ safe code tfuel s'.
Proof.
  intros Hs. destruct (Hs 1%nat) as (s' & H1 & _). exists s'. split; [|by eapply (safe_run _ _ 1)].
  cbn [ref_run] in H1. destruct (ref_step s); simplify_eq/=; done.
Qed.

(** ** A translated block is a run of the reference machine *)

Context (find : Z -> option Z).
Context `{!IoOk io, !SfOk sf, !IoBlind io}.
Notation exec := (exec_block io sf find tt_direct mailbox_stalled).
Notation dispatch f := (dispatch_table io sf f tt_direct).

Lemma rechain_self ir :
  rechain ir ir.(branch_taken) ir.(branch_untaken) ir.(branch_table) = ir.
Proof. by destruct ir. Qed.

Lemma new_bht_live : bht_live new_bht.
Proof.
  intros pc i He. cbn [new_bht bt_PC repeat bht_find].
  destruct (Z.eqb_spec 0xffffffff pc) as [<-|]; [done|]. done.
Qed.

(** The instruction as it was fetched: it has its own handler, it is neither
    fused nor compressed, and its table is empty. *)
Record fetched (ir : rv_insn) : Prop := mk_fetched {
  fe_wf : insn_wf ir;
  fe_impl : ir.(impl) = do_op ir.(opcode);
  fe_fused : is_fused ir.(opcode) = false;
  fe_len : insn_len ir.(opcode) = 4;
  fe_live : table_live ir.(opcode) ir.(branch_table);
  fe_taken : ir.(branch_taken) = None;
  fe_table : ir.(opcode) = rv_insn_jalr -> ir.(branch_table) = Some new_bht
}.

Lemma insn_at_fetched fetch pc ir : insn_at fetch pc = Some ir -> fetched ir.
Proof.
  unfold insn_at. cbv zeta. destruct (fetch pc =? 0); [done|].
  destruct (rv_decode true rv_insn0 (fetch pc)) as [[ir0 b]|] eqn:Hd; [|done].
  apply decode_insn_wf in Hd as Hw. apply rv_decode_fresh in Hd as [[Hfr _] Hdec].
  destruct b; intros [= <-].
  - destruct (Hdec eq_refl) as [Hf _ _ Hl _].
    destruct (insn_is_indirect_branch (opcode ir0)) eqn:Hi;
      (constructor; [destruct Hw; by constructor | done | done | done | | done |]);
      cbn [opcode ir_set_branch_table ir_set_insn_pc ir_set_impl branch_table] in *;
      destruct (opcode ir0); try done.
    exists new_bht. split; [done | apply new_bht_live].
  - constructor; [|done..]. destruct Hw. constructor; simpl; try done. apply s32_range.
Qed.

(** The handler of a fetched instruction, inside a block and on a hart that
    is only alike, follows the reference step. *)
Lemma ref_step_call ir rv w cycle rvr s' :
  insn_at (io.(mem_ifetch) rvr w) rvr.(PC) = Some ir -> no_counter ir ->
  alike rv rvr -> ref_step (rvr, w) = Some s' ->
  let r := dispatch find ir.(opcode) rv w ir cycle rvr.(PC) in
  r.1.2 = s'.2 /\ alike r.1.1 s'.1 /\ goes (r.1.1, r.2) = Go s'.1.(PC).
Proof using IoBlind0.
  intros Hir Hc Ha Hs. destruct (insn_at_fetched _ _ _ Hir) as [_ Hi Hf Hl Ht _ _].
  cbn [ref_step] in Hs. rewrite Hir in Hs. cbn [exec_block] in Hs. rewrite Hi in Hs.
  cbn [call_impl] in Hs. symmetry in Ha. rewrite (alike_inv _ _ Ha).
  pose proof (dispatch_blind io sf (fun _ => None) find tt_direct ir.(opcode) Hf Hl
    rvr w ir rvr.(csr_cycle) cycle rvr.(PC) (PC rv) (csr_cycle rv) (last_pc rv)
    (is_branch_taken rv) (pre_pc rv) (branch_taken ir) (branch_untaken ir) (branch_table ir)
    Hc eq_refl Ht Ht) as (Hw & Hal & Hg).
  rewrite rechain_self in Hw, Hal, Hg. cbv zeta.
  destruct (dispatch find _ _ _ _ _ _) as [[rv1 w1] f1].
  destruct (dispatch _ _ rvr _ _ _ _) as [[rv2 w2] f2]. cbn [fst snd] in *. subst w1.
  destruct f2 as [|[]| |]; simplify_eq/=; (split; [done|]); (split; [|done]).
  - rewrite <- Hal. done.
  - by symmetry.
Qed.

Lemma translate_run code tfuel fuel pc irs pe lui Xs rv w cycle rvr :
  translate_loop true false code Xs fuel pc lui = Some (irs, pe) ->
  Forall no_counter irs -> safe code tfuel (rvr, w) ->
  alike rv rvr -> rvr.(PC) = pc -> rv_wf rv -> 0 <= cycle < 2 ^ 64 -> word pc ->
  exists n s', (0 < n)%nat /\ ref_run n (rvr, w) = Some s' /\
  let r := exec irs rv w cycle pc in
  r.1.2 = s'.2 /\ alike r.1.1 s'.1 /\ end_pc r.1.1 r.2 = Some s'.1.(PC).
Proof using IoOk0 SfOk0 IoBlind0.
  revert pc lui irs rv w cycle rvr.
  induction fuel as [|fuel IH]; intros pc lui irs rv w cycle rvr Ht Hc Hs Ha Hpc Hrv Hcy Hw; [done|].
  destruct (translate_cons _ _ _ _ _ _ _ Ht) as (fuel' & ir & rest & [= <-] & -> & Hir & Hrest).
  apply List.Forall_cons_iff in Hc as [Hc Hcs].
  destruct (safe_step _ _ _ Hs) as (s' & Hstep & Hs').
  assert (insn_at (io.(mem_ifetch) rvr w) rvr.(PC) = Some ir) as Hir'.
  { rewrite Hpc. unfold insn_at in *. cbv zeta in *.
    rewrite (fi_code _ _ _ (safe_fine _ _ _ Hs)); [done|]. intros E. by rewrite E in Hir. }
  pose proof (ref_step_call ir rv w cycle rvr s' Hir' Hc Ha Hstep) as Hcall. cbv zeta in Hcall.
  rewrite Hpc in Hcall. destruct (insn_at_fetched _ _ _ Hir) as [Hwf Hi Hf Hl _ _ _].
  pose proof (dispatch_frame io sf find tt_direct _ Hf rv w ir cycle pc Hrv Hwf) as Hfr.
  pose proof (dispatch_wf io sf find tt_direct (opcode ir) rv w ir cycle pc Hrv Hwf Hcy Hw) as Hdw.
  assert (ref_run 1 (rvr, w) = Some s') as H1 by (cbn [ref_run]; by rewrite Hstep).
  cbn [exec_block]. rewrite Hi. cbn [call_impl].
  destruct (dispatch find _ _ _ _ _ _) as [[rv1 w1] f1]. cbn [fst snd] in *.
  destruct Hcall as (-> & Ha' & Hg), Hdw as [Hrv1 Hf1], s' as [rvr' w'].
  destruct f1 as [c1 p1|[]|tg c1 p1 bt|]; cbn [goes snd fst fin_wf] in *;
    try discriminate Hg; injection Hg as Hg.
  - destruct Hfr as (-> & Hp1 & _). rewrite Hl in Hp1. rewrite Hg in Hp1 |- *.
    destruct Hrest as [[-> _]|(_ & _ & Hrest)].
    + exists 1%nat, (rvr', w'). split_and!; [lia | done..].
    + rewrite <- Hp1 in Hrest.
      destruct (IH _ _ _ rv1 w' (u64 (cycle + 1)) rvr' Hrest Hcs Hs' Ha' eq_refl Hrv1) as
        (n & s'' & Hn & Hr & Hres); [apply u64_range | rewrite Hp1; apply word_u32|].
      exists (S n), s''. split; [lia|]. split; [|done].
      cbn [ref_run]. by rewrite Hstep.
  - exists 1%nat, (rvr', w'). split_and!; [lia | done.. |]. cbn. by rewrite Hg.
  - exists 1%nat, (rvr', w'). split_and!; [lia | done.. |]. cbn. by rewrite Hg.
Qed.
End ref.
