(* ===== verification/StepShape.v ===== *)
(** * The shape of optimised blocks

    A translated block is a run of instructions that go on with the next one
    and a last instruction that leaves the block.  Both optimisation passes
    keep this shape: the last instruction is never fused away, and a
    conditional branch can become a jump but not the reverse.  So every
    execution reaches the last instruction at the same address. *)

From Stdlib Require Import ZArith Lia Bool.
From stdpp Require Import base list numbers gmap.
From S2P Require Import Prelude Decode Riscv Exec ExecWf Memory MemorySpec AluSpec ConstOpt ConstOptSpec Blind Fusion FusionSpec Block DecodeSpec DecodeRvc BlockSpec StepRef.

(** Instructions that end a block, and those that may leave it early. *)
Definition ends (o : insn_op) : bool := insn_is_branch o || is_ttinsn o.
Definition leaves (o : insn_op) : bool :=
  ends o || match o with rv_insn_wfi => true | _ => false end.

Record inner (ir : rv_insn) : Prop := mk_inner {
  in_impl : ir.(impl) = do_op ir.(opcode);
  in_stay : leaves ir.(opcode) = false
}.
Record outer (ir : rv_insn) : Prop := mk_outer {
  ou_impl : ir.(impl) = do_op ir.(opcode);
  ou_ends : ends ir.(opcode) = true;
  ou_len : insn_len ir.(opcode) = 4;
  ou_counter : no_counter ir;
  ou_live : table_live ir.(opcode) ir.(branch_table);
  ou_taken : ir.(branch_taken) = None;
  ou_table : ir.(opcode) = rv_insn_jalr -> ir.(branch_table) = Some new_bht
}.

(** ** Translation *)


Lemma translate_shape fetch Xs fuel pc lui irs pe :
  translate_loop true false fetch Xs fuel pc lui = Some (irs, pe) ->
  Forall (fun ir => ir.(opcode) <> rv_insn_wfi /\ no_counter ir) irs ->
  exists front l, irs = front ++ [l] /\ Forall inner front /\ outer l.
Proof.
  revert pc lui irs. induction fuel as [|fuel IH]; intros pc lui irs Ht Hw; [done|].
  destruct (translate_cons _ _ _ _ _ _ _ Ht) as (fuel' & ir & rest & [= <-] & -> & Hir & Hrest).
  apply insn_at_fetched in Hir as [Hwf Hi Hf Hl Hlv Htk Htb].
  apply List.Forall_cons_iff in Hw as [[Hnw Hc] Hw].
  destruct Hrest as [[-> He]|(Hb & Htt & Hrest)].
  - exists [], ir. split_and!; [done | constructor|]. by constructor.
  - destruct (IH _ _ _ Hrest Hw) as (front & l & -> & Hfr & Hlast).
    exists (ir :: front), l. split_and!; [done | | done]. constructor; [|done].
    constructor; [done|]. unfold leaves, ends. rewrite Hb, Htt. by destruct (opcode ir).
Qed.

(** ** Constant propagation *)

Definition opt_inner (f : opt) : Prop := forall ir info, inner ir -> inner (f ir info).1.

Lemma inner_ri f : opt_inner (fold_ri f).
Proof. intros ir info Hi. unfold fold_ri. by destruct (is_const _ _). Qed.
Lemma inner_rr o f : leaves o = false -> opt_inner (fold_rr o f).
Proof. intros Ho ir info Hi. unfold fold_rr. by destruct (_ && _). Qed.
Lemma inner_rd f : opt_inner (fold_rd f).
Proof. intros ir info Hi. unfold fold_rd. by destruct (is_const _ _). Qed.
Lemma inner_rs1 f : opt_inner (fold_rs1 f).
Proof. intros ir info Hi. unfold fold_rs1. by destruct (is_const _ _). Qed.
Lemma inner_one c (g : rv_insn -> constopt_info_t -> rv_insn * constopt_info_t) h :
  (forall ir info, (g ir info).1.(opcode) = rv_insn_lui /\ (g ir info).1.(impl) = do_op rv_insn_lui \/
     (g ir info).1.(opcode) = rv_insn_clui /\ (g ir info).1.(impl) = do_op rv_insn_clui) ->
  opt_inner (fun ir info => if c info ir : bool then g ir info else (ir, h ir info)).
Proof.
  intros Hg ir info Hi. destruct (c info ir); [|done]. simpl.
  destruct (Hg ir info) as [[E1 E2]|[E1 E2]]; constructor; by rewrite E1.
Qed.

Lemma constopt_inner o : leaves o = false -> opt_inner (constopt_table o).
Proof.
  intros Ho. destruct o; try discriminate Ho; cbn [constopt_table];
  first [ apply inner_ri | apply inner_rr; reflexivity | apply inner_rd | apply inner_rs1
        | intros ir info Hi; exact Hi
        | intros ir info Hi; constructor; reflexivity
        | apply inner_one; intros ir info; right; split; reflexivity ].
Qed.
Lemma constopt_outer ir info : outer ir -> outer (constopt_table ir.(opcode) ir info).1.
Proof.
  intros Hl. pose proof Hl as [Hi He Hn Hc Hlv Htk Htb].
  destruct (opcode ir) eqn:Eo; try discriminate He; try discriminate Hn; cbn [constopt_table];
  first [ exact Hl
        | unfold constopt_beq, constopt_bne, constopt_blt, constopt_bge, constopt_bltu,
            constopt_bgeu, OPT_BRANCH_FUNC;
          repeat case_match; first [ exact Hl | by constructor ] ].
Qed.

Lemma optimize_shape_tail front l info :
  Forall inner front -> outer l ->
  exists front' l', optimize_loop (front ++ [l]) info = front' ++ [l'] /\
  Forall inner front' /\ outer l' /\ length front' = length front.
Proof.
  revert info. induction front as [|ir front IH]; intros info Hf Hl; cbn [app optimize_loop].
  - pose proof (constopt_outer l info Hl) as Ho.
    destruct (constopt_table _ _ _) as [l' info']. exists [], l'. split_and!; try done; constructor.
  - apply List.Forall_cons_iff in Hf as [Hi Hf].
    pose proof (constopt_inner ir.(opcode) (in_stay _ Hi) ir info Hi) as Hi'.
    destruct (constopt_table _ _ _) as [ir' info'].
    destruct (IH info' Hf Hl) as (front' & l' & -> & Hf' & Hl' & Hlen).
    exists (ir' :: front'), l'. split_and!; [done | by constructor | done | simpl; lia].
Qed.

(** ** Fusion *)

Section fusion.
Context (malloc_ok : rv_insn -> bool).

Lemma run_length_tail fits (front : list rv_insn) l :
  fits l.(opcode) = false -> (run_length fits (front ++ [l]) <= length front)%nat.
Proof.
  intros Hl. induction front as [|ir front IH]; cbn [app run_length length].
  - rewrite Hl. lia.
  - destruct (fits (opcode ir)); lia.
Qed.

Lemma drop_tail n (front : list rv_insn) l :
  (n <= length front)%nat -> Forall inner front ->
  exists front', drop n (front ++ [l]) = front' ++ [l] /\ Forall inner front' /\
  (length front' <= length front)%nat.
Proof.
  intros Hn Hf. exists (drop n front). split_and!; [by apply drop_app_le | by apply Forall_drop|].
  rewrite length_drop. lia.
Qed.

Definition tail_kept (front : list rv_insn) (l : rv_insn) (r : rv_insn * list rv_insn * Z) : Prop :=
  exists front', r.1.2 = front' ++ [l] /\ inner r.1.1 /\ Forall inner front' /\
  (length front' <= length front)%nat.

Lemma tail_kept_same ir front l n :
  inner ir -> Forall inner front -> tail_kept front l (ir, front ++ [l], n).
Proof. intros. by exists front. Qed.

Lemma combine_run_tail fits fused first ir front l n :
  fits l.(opcode) = false -> leaves fused = false -> inner ir -> Forall inner front ->
  tail_kept front l (combine_run malloc_ok fits fused first ir (front ++ [l]) n).
Proof.
  intros Hl Hfu Hi Hf. unfold combine_run. cbv zeta. destruct (_ && _); [|by apply tail_kept_same].
  unfold combine, remove_next_nth_ir. cbv zeta. pose proof (run_length_tail fits front l Hl) as Hr.
  set (k := u8 (Z.of_nat (S (run_length fits (front ++ [l]))) - 1)).
  assert (0 <= k <= Z.of_nat (length front)) as Hk.
  { unfold k, u8, wrap. replace (Z.of_nat _ - 1) with (Z.of_nat (run_length fits (front ++ [l]))) by lia.
    pose proof (Z.mod_le (Z.of_nat (run_length fits (front ++ [l]))) (2 ^ 8) ltac:(lia) ltac:(lia)).
    pose proof (Z.mod_pos_bound (Z.of_nat (run_length fits (front ++ [l]))) (2 ^ 8) ltac:(lia)). lia. }
  destruct (drop_tail (Z.to_nat k) front l) as (front' & E & Hf' & Hlen); [lia | done|].
  exists front'. cbn [fst snd]. split_and!; try done.
Qed.

Lemma match_insn_tail ir front l n :
  ends l.(opcode) = true -> inner ir -> Forall inner front ->
  tail_kept front l (match_insn malloc_ok ir (front ++ [l]) n).
Proof.
  intros Hl Hi Hf. unfold match_insn.
  assert (is_lui (opcode l) = false /\ is_sw (opcode l) = false /\ is_lw (opcode l) = false /\
    is_shift (opcode l) = false /\ opcode l <> rv_insn_add) as (H1 & H2 & H3 & H4 & H5)
    by (unfold is_lui, is_sw, is_lw; destruct (opcode l); try discriminate Hl; done).
  destruct (opcode ir) eqn:Eo; try (by apply tail_kept_same);
    try (apply combine_run_tail; done).
  destruct front as [|next front].
  - cbn [app]. destruct (opcode l) eqn:El; try done; by apply (tail_kept_same ir []).
  - cbn [app]. pose proof Hf as Hf0. apply List.Forall_cons_iff in Hf as [Hn Hf].
    destruct (opcode next) eqn:En; try (by apply (tail_kept_same ir (next :: front))).
    + apply (combine_run_tail is_lui rv_insn_fuse1 _ ir (next :: front)); done.
    + unfold fuse_lui_add. destruct (_ || _); [|by apply (tail_kept_same ir (next :: front))].
      exists front. cbn [remove_next_nth_ir fst snd]. split_and!; [done | by constructor | done | simpl; lia].
Qed.

Lemma match_loop_tail fuel i n front l :
  ends l.(opcode) = true -> Forall inner front ->
  exists front', (match_loop malloc_ok fuel i n (front ++ [l])).1 = front' ++ [l] /\
  Forall inner front'.
Proof.
  intros Hl. revert i n front. induction fuel as [|fuel IH]; intros i n front Hf; [by exists front|].
  destruct front as [|ir front].
  - cbn [app match_loop]. destruct (_ <? _); [|by exists []].
    assert (match_insn malloc_ok l [] n = (l, [], n)) as ->
      by (unfold match_insn; destruct (opcode l); done).
    exists []. destruct fuel; cbn; by split.
  - apply List.Forall_cons_iff in Hf as [Hi Hf]. cbn [app match_loop].
    destruct (_ <? _); [|exists (ir :: front); split; [done | by constructor]].
    pose proof (match_insn_tail ir front l n Hl Hi Hf) as (front' & E & Hi' & Hf' & _).
    destruct (match_insn _ _ _ _) as [[ir' rest'] n']. cbn [fst snd] in *. subst rest'.
    destruct (IH (i + 1) n' front' Hf') as (front'' & E & Hf'').
    destruct (match_loop _ _ _ _ _) as [irs n'']. cbn [fst] in *. subst irs.
    exists (ir' :: front''). split; [done | by constructor].
Qed.
(** Fusion keeps the operands in range. *)
Lemma combine_run_wf fits fused first ir rest n :
  insn_wf ir -> Forall insn_wf rest ->
  let r := combine_run malloc_ok fits fused first ir rest n in
  insn_wf r.1.1 /\ Forall insn_wf r.1.2.
Proof.
  intros Hi Hr. unfold combine_run. cbv zeta. destruct (_ && _); [|done].
  split; [destruct Hi; by constructor | by apply Forall_drop].
Qed.

Lemma match_insn_wf ir rest n :
  insn_wf ir -> Forall insn_wf rest ->
  let r := match_insn malloc_ok ir rest n in insn_wf r.1.1 /\ Forall insn_wf r.1.2.
Proof.
  intros Hi Hr. unfold match_insn, COMBINE_MEM_OPS. cbv zeta.
  destruct (opcode ir); try done; try (by apply combine_run_wf).
  destruct rest as [|next rest]; [done|].
  destruct (opcode next); try done; try (by apply combine_run_wf).
  unfold fuse_lui_add. destruct (_ || _); [|done].
  pose proof (Forall_inv Hr) as Hn. split; [|by apply (Forall_drop _ 1)].
  destruct Hi, Hn. constructor; try done. simpl. by destruct (_ =? _).
Qed.

Lemma match_loop_wf fuel i n irs :
  Forall insn_wf irs -> Forall insn_wf (match_loop malloc_ok fuel i n irs).1.
Proof.
  revert i n irs. induction fuel as [|fuel IH]; intros i n irs Hw; [done|].
  destruct irs as [|ir rest]; [done|]. cbn [match_loop]. destruct (_ <? _); [|done].
  apply List.Forall_cons_iff in Hw as [Hi Hr].
  pose proof (match_insn_wf ir rest n Hi Hr) as [Hi' Hr'].
  destruct (match_insn _ _ _ _) as [[ir' rest'] n']. specialize (IH (i + 1) n' rest' Hr').
  destruct (match_loop _ _ _ _ _). by constructor.
Qed.
End fusion.

(** ** The whole pipeline *)

Lemma translate_fetched Xs fetch fuel pc lui irs pe :
  translate_loop true false fetch Xs fuel pc lui = Some (irs, pe) -> Forall fetched irs.
Proof.
  revert pc lui irs. induction fuel as [|fuel IH]; intros pc lui irs Ht; [done|].
  destruct (translate_cons _ _ _ _ _ _ _ Ht) as (fuel' & ir & rest & [= <-] & -> & Hir & Hrest).
  apply insn_at_fetched in Hir.
  constructor; [done|]. destruct Hrest as [[-> _]|(_ & _ & Hrest)]; [done|]. by eapply IH.
Qed.

Lemma optimize_block_wf malloc_ok fetch Xs fuel pc b :
  block_translate true false fetch Xs fuel pc = Some b ->
  Forall insn_wf (optimize_block malloc_ok b).(ir_list).
Proof.
  unfold block_translate. destruct (translate_loop _ _ _ _ _ _ _) as [[irs pe]|] eqn:Ht; [|done].
  intros [= <-]. apply translate_fetched in Ht.
  assert (Forall insn_wf irs) as Hw by (eapply Forall_impl; [exact Ht | by intros ? []]).
  assert (Forall (fun ir => impl ir = do_op (opcode ir)) irs) as Hi
    by (eapply Forall_impl; [exact Ht | by intros ? []]).
  destruct (optimize_shape irs info0 Hw Hi) as (Hw' & _ & _).
  unfold optimize_block, match_pattern. cbn [ir_list n_insn].
  apply (match_loop_wf malloc_ok (length (optimize_constant irs)) 0 (Z.of_nat (length irs))) in Hw'.
  fold (optimize_constant irs) in Hw'. by destruct (match_loop _ _ _ _ _).
Qed.

Lemma optimize_block_shape malloc_ok fetch Xs fuel pc b :
  block_translate true false fetch Xs fuel pc = Some b -> block_fine b ->
  exists front l, (optimize_block malloc_ok b).(ir_list) = front ++ [l] /\
  Forall inner front /\ outer l.
Proof.
  unfold block_translate. destruct (translate_loop _ _ _ _ _ _ _) as [[irs pe]|] eqn:Ht; [|done].
  intros [= <-] [_ Hops]. cbn [ir_list] in Hops.
  destruct (translate_shape _ _ _ _ _ _ _ Ht) as (front & l & -> & Hf & Hl).
  { eapply Forall_impl; [exact Hops|]. intros ? (? & ? & ?). done. }
  destruct (optimize_shape_tail front l info0 Hf Hl) as (front' & l' & E & Hf' & Hl' & _).
  unfold optimize_block, optimize_constant, match_pattern. cbn [ir_list n_insn]. rewrite E.
  destruct (match_loop_tail malloc_ok (length (front' ++ [l'])) 0
    (Z.of_nat (length (front ++ [l]))) front' l' (ou_ends _ Hl') Hf') as (front'' & E' & Hf'').
  destruct (match_loop _ _ _ _ _) as [irs n]. cbn [fst ir_list] in *. subst irs. eauto.
Qed.
