(* ===== verification/StepStay.v ===== *)
(** * Instructions that stay in the block

    The handler of an instruction that does not end a block goes on with the
    next instruction, at a distance that the instruction alone determines,
    or reports a failure; it never returns successfully and never jumps into
    another block.  No handler touches [last_pc], apart from a jump that is
    chained. *)

From Stdlib Require Import ZArith Lia Bool.
From stdpp Require Import base list numbers gmap.
From S2P Require Import Prelude Decode Riscv Exec ExecWf Memory MemorySpec AluSpec ConstOpt ConstOptSpec Blind Fusion FusionSpec Block DecodeSpec DecodeRvc BlockSpec StepRef StepShape.

(** Callbacks that leave [last_pc] alone. *)
Class IoLast {W : Type} (io : riscv_io W) : Prop := {
  last_trap : forall rv, (io.(on_trap) rv).(last_pc) = rv.(last_pc);
  last_ecall : forall rv w, (io.(on_ecall) rv w).1.(last_pc) = rv.(last_pc);
  last_ebreak : forall rv w, (io.(on_ebreak) rv w).1.(last_pc) = rv.(last_pc)
}.

(** The length of an instruction, fused ones included. *)
Definition ilen (ir : rv_insn) : Z :=
  match ir.(opcode) with
  | rv_insn_fuse1 | rv_insn_fuse3 | rv_insn_fuse4 | rv_insn_fuse5 => ir.(imm2) * 4
  | rv_insn_fuse2 => 8
  | o => insn_len o
  end.

Section stay.
Context {W : Type} (io : riscv_io W) (sf : softfloat) (find : Z -> option Z).
Context (tt_direct : Z -> Z -> W -> W * bool) (mailbox_stalled : Z -> W -> bool).
Context `{!IoLast io}.

Definition out_stays (pc : Z) (o : outcome) : Prop :=
  match o with
  | nextop pc' => pc' = pc
  | ret b => b = false
  | unreachable => True
  | _ => False
  end.
Definition stays (c : @code W) : Prop :=
  forall rv w ir cycle pc, let r := c rv w ir cycle pc in
  r.1.1.(last_pc) = rv.(last_pc) /\ out_stays pc r.2.
(** As [stays], but for the outcome. *)
Definition keeps_last (c : @code W) : Prop :=
  forall rv w ir cycle pc, ir.(branch_taken) = None ->
  (c rv w ir cycle pc).1.1.(last_pc) = rv.(last_pc).

Ltac intro_stay := intros rv w ir cycle pc r; unfold r; clear r.

Lemma stays_wr_rd e : stays (wr_rd e).
Proof. by intro_stay. Qed.

Lemma misalign_stay rv w cycle pc addr mask type compress k :
  k.1.1.(last_pc) = rv.(last_pc) /\ out_stays pc k.2 ->
  let r := RV_EXC_MISALIGN_HANDLER io rv w cycle pc addr mask type compress k in
  r.1.1.(last_pc) = rv.(last_pc) /\ out_stays pc r.2.
Proof using IoLast0.
  intros Hk. unfold RV_EXC_MISALIGN_HANDLER. cbv zeta. destruct (_ && _); [|done].
  split; [|done]. cbn [fst snd]. unfold SET_CAUSE_AND_TVAL_THEN_TRAP. cbv zeta.
  rewrite last_trap. by case_match.
Qed.

Lemma stays_amo f : stays (amo_op io f).
Proof using IoLast0.
  intro_stay. unfold amo_op. cbv zeta. apply misalign_stay.
  destruct (mem_read_w _ _ _ _). split; [|done]. by destruct (nz _).
Qed.

Lemma set_fflag_last rv : (set_fflag rv).(last_pc) = rv.(last_pc).
Proof.
  rewrite set_fflag_flags. cbv zeta.
  assert (forall b fl rv, (add_flag b fl rv).(last_pc) = rv.(last_pc)) as Ha by by intros [].
  change (last_pc (set_softfloat_exceptionFlags ?a 0)) with (last_pc a). by rewrite !Ha.
Qed.
Lemma set_rounding_mode_last rv m rv' :
  set_rounding_mode rv m = Some rv' -> rv'.(last_pc) = rv.(last_pc).
Proof. unfold set_rounding_mode. cbv zeta. intros. repeat case_match; simplify_eq; done. Qed.
Lemma setX_nz_last rv r v : (setX_nz rv r v).(last_pc) = rv.(last_pc).
Proof. unfold setX_nz. by case_match. Qed.

Lemma stays_fp_arith e : stays (fp_arith e).
Proof.
  intro_stay. unfold fp_arith. destruct (set_rounding_mode _ _) as [rv'|] eqn:E; [|done].
  destruct (e _ _ _). split; [|done]. cbn [fst snd]. rewrite set_fflag_last.
  by apply (set_rounding_mode_last rv _ rv') in E.
Qed.
Lemma stays_fp_to_int e : stays (fp_to_int e).
Proof.
  intro_stay. unfold fp_to_int. destruct (set_rounding_mode _ _) as [rv'|] eqn:E; [|done].
  destruct (e _ _). split; [|done]. cbn [fst snd]. rewrite set_fflag_last, setX_nz_last.
  by apply (set_rounding_mode_last rv _ rv') in E.
Qed.
Lemma stays_fp_cmp e : stays (fp_cmp e).
Proof.
  intro_stay. unfold fp_cmp. destruct (e _ _). split; [|done]. cbn [fst snd].
  by rewrite set_fflag_last, setX_nz_last.
Qed.
Lemma stays_minmax s : stays (fp_minmax sf s).
Proof.
  intro_stay. unfold fp_minmax. cbv zeta.
  destruct (_ || _); destruct (if s then _ else _) as [[] fl];
  try destruct (f32_eq sf _ _) as [e fl']; done.
Qed.

Lemma fold_last {A} (f : riscv -> A -> riscv) xs rv :
  (forall rv a, (f rv a).(last_pc) = rv.(last_pc)) ->
  (fold_left f xs rv).(last_pc) = rv.(last_pc).
Proof.
  intros Hf. revert rv. induction xs as [|a xs IH]; intros rv; [done|]. simpl. by rewrite IH, Hf.
Qed.

Lemma csr_store_last rv p v : (csr_store rv p v).(last_pc) = rv.(last_pc).
Proof. by destruct p as [| | | | | | | | | |[]| | | | | | | | | | | |]. Qed.
Lemma csr_get_ptr_last rv csr : (csr_get_ptr rv csr).1.(last_pc) = rv.(last_pc).
Proof. unfold csr_get_ptr. cbv zeta. by repeat case_match. Qed.
Lemma csr_access_last rv csr v :
  (csr_csrrw rv csr v).1.(last_pc) = rv.(last_pc) /\
  (csr_csrrs rv csr v).1.(last_pc) = rv.(last_pc) /\
  (csr_csrrc rv csr v).1.(last_pc) = rv.(last_pc).
Proof.
  unfold csr_csrrw, csr_csrrs, csr_csrrc. pose proof (csr_get_ptr_last rv csr) as H.
  destruct (csr_get_ptr rv csr) as [rv' [p|]]; [|done]. cbv zeta. cbn [fst] in *.
  by rewrite !csr_store_last.
Qed.
Lemma stays_csr (f : riscv -> rv_insn -> riscv * Z) :
  (forall rv ir, (f rv ir).1.(last_pc) = rv.(last_pc)) ->
  stays (fun rv w ir cycle pc => wr_csr ir w pc (f rv ir)).
Proof.
  intros Hf. intro_stay. unfold wr_csr. specialize (Hf rv ir). by destruct (f rv ir).
Qed.

Definition impl_stays (h : @impl_t W) (len : rv_insn -> Z) : Prop :=
  forall rv w ir cycle pc, let r := h rv w ir cycle pc in
  r.1.1.(last_pc) = rv.(last_pc) /\
  match r.2 with
  | Next _ pc' => pc' = u32 (pc + len ir)
  | Done b => b = false
  | Undefined => True
  | Tail _ _ _ _ => False
  end.

Lemma RVOP_stays o c : stays c -> impl_stays (RVOP o c) (fun _ => insn_len o).
Proof.
  intros Hc rv w ir cycle pc. unfold RVOP. cbv zeta.
  specialize (Hc rv w ir (u64 (cycle + 1)) pc). cbv zeta in Hc.
  destruct (c _ _ _ _ _) as [[rv' w'] []]; cbn [fst snd out_stays] in *;
    destruct Hc as [? Hc]; subst; done.
Qed.

Ltac mem_stay :=
  intro_stay; cbv zeta; try apply misalign_stay;
  try match goal with |- context [nz ?r] => destruct (nz r) end;
  try match goal with
      | |- context [mem_read_w ?i ?r ?ww ?a] => destruct (mem_read_w i r ww a)
      | |- context [mem_read_s ?i ?r ?ww ?a] => destruct (mem_read_s i r ww a)
      | |- context [mem_read_b ?i ?r ?ww ?a] => destruct (mem_read_b i r ww a)
      end;
  done.

Lemma stays_mem :
  Forall (fun f => stays (f io))
    [do_lb; do_lh; do_lw; do_lbu; do_lhu; do_sb; do_sh; do_sw; do_lrw; do_scw; do_flw;
     do_fsw; do_clw; do_csw; do_clwsp; do_cswsp; do_cflwsp; do_cfswsp; do_cflw; do_cfsw].
Proof using IoLast0.
  repeat apply List.Forall_cons; try apply List.Forall_nil;
  unfold do_lb, do_lh, do_lw, do_lbu, do_lhu, do_sb, do_sh, do_sw, do_lrw, do_scw, do_flw,
    do_fsw, do_clw, do_csw, do_clwsp, do_cswsp, do_cflwsp, do_cfswsp, do_cflw, do_cfsw; mem_stay.
Qed.

Lemma stays_shift : stays do_shift.
Proof. intro_stay. unfold do_shift, shift_func. by destruct (opcode ir). Qed.

Lemma stays_ext n m k : stays (fun rv w ir _ pc =>
  let rv := setX rv ir.(rd) (getX rv ir.(rs1) &. n) in
  let rv := if nz (getX rv ir.(rs1) &. m) then setX rv ir.(rd) (getX rv ir.(rd) |. k)
            else rv in (rv, w, nextop pc)).
Proof. intro_stay. cbv zeta. by destruct (nz _). Qed.

Lemma stays_fold :
  stays do_orcb /\ stays do_csrai.
Proof.
  split; intro_stay; (split; [|done]); cbn [fst do_orcb do_csrai]; rewrite fold_last;
    try done; intros rv' a; try by case_match.
Qed.

Lemma stays_zicsr :
  Forall stays [do_csrrw; do_csrrs; do_csrrc; do_csrrwi; do_csrrsi; do_csrrci].
Proof.
  repeat apply List.Forall_cons; try apply List.Forall_nil;
    apply stays_csr; intros rv ir; apply csr_access_last.
Qed.

Lemma dispatch_stays o :
  is_fused o = false -> leaves o = false ->
  impl_stays (dispatch_table io sf find tt_direct o) (fun _ => insn_len o).
Proof using IoLast0.
  intros Hf Hl. destruct o; try discriminate Hf; try discriminate Hl;
    cbn [dispatch_table]; apply RVOP_stays.
  all: lazymatch goal with
    | |- stays do_slli => apply stays_shift
    | |- stays do_srli => apply stays_shift
    | |- stays do_srai => apply stays_shift
    | |- stays do_orcb => apply stays_fold
    | |- stays do_csrai => apply stays_fold
    | |- stays do_sextb => apply (stays_ext 0xff (1 <<. 7) 0xffffff00)
    | |- stays do_sexth => apply (stays_ext 0xffff (1 <<. 15) 0xffff0000)
    | |- stays (?c io) =>
        first [ solve [ pose proof stays_mem as Hops;
                repeat (apply List.Forall_cons_iff in Hops as [? Hops]; try eassumption) ]
              | apply stays_amo ]
    | |- stays (?c sf) =>
        first [ apply stays_fp_arith | apply stays_minmax | apply stays_fp_to_int
              | apply stays_fp_cmp ]
    | |- stays ?c =>
        first [ apply stays_wr_rd
              | solve [ pose proof stays_zicsr as Hops;
                repeat (apply List.Forall_cons_iff in Hops as [? Hops]; try eassumption) ]
              | intro_stay; unfold do_fmvxw, do_fclasss; split;
                [cbn [fst]; rewrite ?setX_nz_last; done | done] ]
    end.
Qed.

(** Fused instructions: the loops stop with [inr] at a failure. *)
Lemma fuse3_last fs rv w cycle pc :
  match fuse3_loop io fs rv w cycle pc with
  | inl r | inr r => r.1.(last_pc) = rv.(last_pc)
  end.
Proof using IoLast0.
  revert rv w. induction fs as [|f fs IH]; intros rv w; [done|]. cbn [fuse3_loop]. cbv zeta.
  pose proof (misalign_stay rv w cycle pc (u32 (getX rv (f_rs1 f) + f_imm f)) 3 STORE_MISALIGNED
    false (rv, mem_write_w io rv w (u32 (getX rv (f_rs1 f) + f_imm f)) (getX rv (f_rs2 f)), nextop pc)
    (conj eq_refl eq_refl)) as [Hl Ho].
  destruct (RV_EXC_MISALIGN_HANDLER _ _ _ _ _ _ _ _ _ _) as [[rv1 w1] []]; cbn [fst snd] in *;
    try done. specialize (IH rv1 w1).
  destruct (fuse3_loop _ _ _ _ _ _) as [r|r]; by rewrite IH.
Qed.
Lemma fuse4_last fs rv w cycle pc :
  match fuse4_loop io fs rv w cycle pc with
  | inl r | inr r => r.1.(last_pc) = rv.(last_pc)
  end.
Proof using IoLast0.
  revert rv w. induction fs as [|f fs IH]; intros rv w; [done|]. cbn [fuse4_loop]. cbv zeta.
  set (k := let '(v, w') := mem_read_w io rv w (u32 (getX rv (f_rs1 f) + f_imm f)) in
            (setX rv (f_rd f) v, w', nextop pc)).
  assert (k.1.1.(last_pc) = rv.(last_pc) /\ out_stays pc k.2) as Hk
    by (unfold k; by destruct (mem_read_w _ _ _ _)).
  pose proof (misalign_stay rv w cycle pc (u32 (getX rv (f_rs1 f) + f_imm f)) 3 LOAD_MISALIGNED
    false k Hk) as [Hl Ho].
  destruct (RV_EXC_MISALIGN_HANDLER _ _ _ _ _ _ _ _ _ _) as [[rv1 w1] []]; cbn [fst snd] in *;
    try done. specialize (IH rv1 w1).
  destruct (fuse4_loop _ _ _ _ _ _) as [r|r]; by rewrite IH.
Qed.
Lemma fuse5_last fs rv rv' : fuse5_loop fs rv = Some rv' -> rv'.(last_pc) = rv.(last_pc).
Proof.
  revert rv. induction fs as [|f fs IH]; intros rv; cbn [fuse5_loop]; [by intros [= ->]|].
  unfold shift_func. destruct (f_opcode f); try done; intros H; by apply IH in H.
Qed.

(** Every inner instruction stays. *)
Lemma inner_stays ir rv w cycle pc :
  inner ir ->
  let r := call_impl io sf find tt_direct mailbox_stalled ir.(impl) rv w ir cycle pc in
  r.1.1.(last_pc) = rv.(last_pc) /\
  match r.2 with
  | Next _ pc' => pc' = u32 (pc + ilen ir)
  | Done b => b = false
  | Undefined => True
  | Tail _ _ _ _ => False
  end.
Proof using IoLast0.
  intros [Hi Hs]. rewrite Hi. cbn [call_impl]. destruct (is_fused (opcode ir)) eqn:Hf.
  - unfold ilen. destruct (opcode ir); try discriminate Hf; cbn [dispatch_table].
    + split; [|done]. cbn [fst do_fuse1]. by apply fold_last.
    + done.
    + unfold do_fuse3. cbv zeta. pose proof (fuse3_last (take (Z.to_nat (imm2 ir)) (fuse ir)) rv w
        (u64 (cycle + imm2 ir)) pc) as H. by destruct (fuse3_loop _ _ _ _ _ _) as [[]|[]].
    + unfold do_fuse4. cbv zeta. pose proof (fuse4_last (take (Z.to_nat (imm2 ir)) (fuse ir)) rv w
        (u64 (cycle + imm2 ir)) pc) as H. by destruct (fuse4_loop _ _ _ _ _ _) as [[]|[]].
    + unfold do_fuse5. cbv zeta.
      destruct (fuse5_loop _ _) as [rv'|] eqn:E; [|done]. split; [|done]. by apply fuse5_last in E.
  - pose proof (dispatch_stays (opcode ir) Hf Hs rv w ir cycle pc) as H. cbv zeta in *.
    assert (ilen ir = insn_len (opcode ir)) as ->
      by (unfold ilen; destruct (opcode ir); try discriminate Hf; done).
    done.
Qed.
End stay.

(** The callbacks of the emulator keep [rv->last_pc], if the host's system
    calls do. *)
Lemma trap_vector_last rv base mode cause :
  (trap_vector rv base mode cause).(last_pc) = rv.(last_pc).
Proof. unfold trap_vector. by repeat case_match. Qed.
Lemma trap_last rv : (trap_handler rv).(last_pc) = rv.(last_pc).
Proof.
  unfold trap_handler, _trap_handler. destruct (RV_PRIV_IS_U_OR_S_MODE rv); cbv zeta.
  - by rewrite trap_vector_last.
  - destruct (_ =? 0); [done|]. by rewrite trap_vector_last.
Qed.
Lemma cause_trap_last rv cause tval :
  (SET_CAUSE_AND_TVAL_THEN_TRAP trap_handler rv cause tval).(last_pc) = rv.(last_pc).
Proof.
  unfold SET_CAUSE_AND_TVAL_THEN_TRAP. cbv zeta. rewrite trap_last.
  by destruct (RV_PRIV_IS_U_OR_S_MODE rv).
Qed.
Lemma rv_io_last {T} rd wr (sys : riscv -> world T -> riscv * world T) :
  (forall rv w, (sys rv w).1.(last_pc) = rv.(last_pc)) -> IoLast (rv_io rd wr sys).
Proof.
  intros Hsys. split.
  - apply trap_last.
  - intros rv w. cbn [rv_io on_ecall]. unfold ecall_handler. cbv zeta.
    by rewrite Hsys, cause_trap_last.
  - intros rv w. apply cause_trap_last.
Qed.
