(* ===== verification/StepChain.v ===== *)
(** * Chained blocks

    The blocks of the map with their links: what the last instruction does
    with them ([outer_call]), the invariant of the links ([tail_ok],
    [links_ok]), and that a linked block does what the freshly translated
    code at its address does ([linked_run]). *)

From Stdlib Require Import ZArith Lia Bool.
From stdpp Require Import base list numbers gmap.
From S2P Require Import Prelude Decode Riscv Exec ExecWf Memory MemorySpec AluSpec ConstOpt ConstOptSpec Blind Fusion FusionSpec Block BlockMapSpec DecodeSpec DecodeRvc BlockSpec Step StepRef StepShape StepStay.

(** ** The last instruction *)

(** What a history table becomes on a jump to [pc], and the target. *)
Inductive bht_step (find : Z -> option Z) (bt : branch_history_table) (pc t : Z)
    : option branch_history_table -> Prop :=
  | bht_hit i : bht_find bt.(bt_PC) pc = Some i -> bt.(bt_target) !!! i = Some t ->
      bht_step find bt pc t (Some bt)
  | bht_miss : bht_find bt.(bt_PC) pc = None -> find pc = Some t ->
      bht_step find bt pc t
        (Some (mk_bht (<[Z.to_nat bt.(bt_idx) := pc]> bt.(bt_PC))
                 ((bt.(bt_idx) + 1) mod HISTORY_SIZE)
                 (<[Z.to_nat bt.(bt_idx) := Some t]> bt.(bt_target)))).

Definition jump_target (ir : rv_insn) (pc : Z) : Z := u32 (pc + ir.(imm)).

Section outer.
Context {W : Type} (io : riscv_io W) (sf : softfloat) (find : Z -> option Z).
Context (tt_direct : Z -> Z -> W -> W * bool) (mailbox_stalled : Z -> W -> bool).
Context `{!IoLast io}.

(** Results of the last instruction, executed at [pc]. *)
Definition outer_result (ir : rv_insn) (pc : Z) (rv rv' : riscv) (f : fin) : Prop :=
  match f with
  | Tail t _ pc' bt =>
      ir.(opcode) = rv_insn_jal /\ ir.(branch_taken) = Some t /\ pc' = jump_target ir pc /\
        bt = ir.(branch_table) /\ rv'.(last_pc) = pc' \/
      ir.(opcode) = rv_insn_jalr /\ rv'.(last_pc) = rv.(last_pc) /\ Z.even pc' = true /\
        exists bt0, ir.(branch_table) = Some bt0 /\ bht_step find bt0 pc' t bt
  | Done true =>
      rv'.(last_pc) = rv.(last_pc) /\
      (ir.(opcode) = rv_insn_jal -> rv'.(PC) = jump_target ir pc)
  | Next _ _ => rv'.(last_pc) = rv.(last_pc) /\ ir.(opcode) <> rv_insn_jal
  | _ => True
  end.

Lemma outer_jalr ir rv w cycle pc :
  ir.(opcode) = rv_insn_jalr ->
  let r := RVOP rv_insn_jalr (do_jalr find) rv w ir cycle pc in
  outer_result ir pc rv (r : riscv * W * fin).1.1 r.2.
Proof.
  intros Eo. unfold RVOP, do_jalr, LOOKUP_OR_UPDATE_BRANCH_HISTORY_TABLE. cbv zeta.
  set (a := u32 (getX rv (rs1 ir) + imm ir) &. u32 (Z.lnot 1)).
  assert (Z.even a = true) as He by apply even_masked, word_u32.
  set (rv1 := if nz (rd ir) then _ else _).
  assert (last_pc rv1 = last_pc rv) as Hl by (unfold rv1; by destruct (nz _)).
  destruct (branch_table ir) as [bt|] eqn:Eb; [|done].
  destruct (bht_find (bt_PC bt) a) as [i|] eqn:Ei.
  - destruct (bt_target bt !!! i) as [t|] eqn:Et; [|done]. right. split_and!; [done..|].
    exists bt. split; [done|]. by apply (bht_hit _ _ _ _ i).
  - destruct (find a) as [t|] eqn:Ef.
    + right. split_and!; [done..|]. exists bt. split; [done|]. by apply bht_miss.
    + split; [done|]. by rewrite Eo.
Qed.

Lemma outer_branch f ir o rv w cycle pc :
  ir.(opcode) = o -> o <> rv_insn_jal ->
  let r := RVOP o (BRANCH_FUNC f) rv w ir cycle pc in
  outer_result ir pc rv (r : riscv * W * fin).1.1 r.2.
Proof.
  intros Eo Ho. unfold RVOP, BRANCH_FUNC. cbv zeta.
  destruct (f _ _); [destruct (branch_untaken ir)|]; (split; [done|]); by rewrite Eo.
Qed.

Lemma outer_call ir rv w cycle pc :
  ir.(impl) = do_op ir.(opcode) -> ends ir.(opcode) = true -> insn_len ir.(opcode) = 4 ->
  let r := call_impl io sf find tt_direct mailbox_stalled ir.(impl) rv w ir cycle pc in
  outer_result ir pc rv r.1.1 r.2.
Proof using IoLast0.
  intros Hi He Hl. rewrite Hi. cbn [call_impl].
  destruct (opcode ir) eqn:Eo; try discriminate He; try discriminate Hl; cbn [dispatch_table].
  - unfold RVOP, do_jal, jump_taken. cbv zeta.
    destruct (nz (rd ir)), (branch_taken ir) as [t|] eqn:Eb; cbn [outer_result fst snd];
      first [ by left | by split ].
  - by apply outer_jalr.
  - by apply outer_branch.
  - by apply outer_branch.
  - by apply outer_branch.
  - by apply outer_branch.
  - by apply outer_branch.
  - by apply outer_branch.
  - split; [done|]. by rewrite Eo.
  - unfold RVOP, do_ecall. cbv zeta. set (rv1 := set_PC _ _).
    pose proof (last_ecall rv1 w) as H. destruct (on_ecall io rv1 w). split; [done|]. by rewrite Eo.
  - unfold RVOP, do_ebreak. cbv zeta. set (rv1 := set_PC _ _).
    pose proof (last_ebreak rv1 w) as H. destruct (on_ebreak io rv1 w). split; [done|]. by rewrite Eo.
  - split; [done|]. by rewrite Eo.
  - split; [done|]. by rewrite Eo.
  - split; [done|]. by rewrite Eo.
  - pose proof (@stays_zicsr W) as Hz. apply List.Forall_cons_iff in Hz as [Hz _].
    pose proof (RVOP_stays rv_insn_csrrw (@do_csrrw W) Hz rv w ir cycle pc) as H. cbv zeta in H.
    destruct (RVOP _ _ _ _ _ _ _) as [[rv' w'] [| [] | |]], H as [H1 H2];
      cbn [fst snd outer_result] in *; try done; (split; [done|]); by rewrite Eo.
  - unfold do_ttinsn. cbv zeta. destruct (tt_direct _ _ _) as [w' []]; [|done].
    split; [done|]. by rewrite Eo.
Qed.
End outer.

(** ** The links *)

Record bht_ok (g : gmap Z block_t) (bt : branch_history_table) : Prop := mk_bht_ok {
  bh_pcs : length bt.(bt_PC) = 16%nat;
  bh_targets : length bt.(bt_target) = 16%nat;
  bh_idx : 0 <= bt.(bt_idx) < 16;
  bh_entry : forall i p, bt.(bt_PC) !! i = Some p -> Z.even p = true ->
    bt.(bt_target) !!! i = Some p /\ is_Some (g !! p)
}.

(** The links of a last instruction at [pc]: a jump leads to the block at its
    target, and the entries of a history table to the blocks they name. *)
Record tail_ok (g : gmap Z block_t) (pc : Z) (ir : rv_insn) : Prop := mk_tail_ok {
  tl_jal : forall t, ir.(opcode) = rv_insn_jal -> ir.(branch_taken) = Some t ->
    t = jump_target ir pc /\ is_Some (g !! t);
  tl_jalr : ir.(opcode) = rv_insn_jalr ->
    exists bt, ir.(branch_table) = Some bt /\ bht_ok g bt
}.

Lemma bht_find_lookup pcs pc i : bht_find pcs pc = Some i -> pcs !! i = Some pc.
Proof.
  revert i. induction pcs as [|p pcs IH]; intros i; [done|]. cbn [bht_find].
  destruct (Z.eqb_spec p pc) as [->|]; [by intros [= <-]|].
  destruct (bht_find pcs pc) as [j|]; [|done]. intros [= <-]. by apply IH.
Qed.
Lemma bht_ok_live g bt : bht_ok g bt -> bht_live bt.
Proof.
  intros H pc i He Hi. apply bht_find_lookup in Hi.
  destruct (bh_entry _ _ H i pc Hi He) as [-> _]. eauto.
Qed.
Lemma tail_ok_live g pc ir : tail_ok g pc ir -> table_live ir.(opcode) ir.(branch_table).
Proof.
  intros [_ Hj]. unfold table_live. destruct (opcode ir); try done.
  destruct (Hj eq_refl) as (bt & -> & Hb). exists bt. split; [done | by eapply bht_ok_live].
Qed.

Lemma new_bht_ok g : bht_ok g new_bht.
Proof.
  split; [done.. | simpl; lia|]. intros i p Hp He. exfalso.
  apply list_elem_of_lookup_2 in Hp.
  assert (Forall (fun p => p = 0xffffffff) (bt_PC new_bht)) as Ha by by repeat constructor.
  rewrite Forall_forall in Ha. apply Ha in Hp as ->. done.
Qed.

(** More blocks in the map keep the links. *)
Lemma tail_ok_mono g g' pc ir :
  (forall a, is_Some (g !! a) -> is_Some (g' !! a)) -> tail_ok g pc ir -> tail_ok g' pc ir.
Proof.
  intros Hg [H1 H2]. split.
  - intros t Ho Ht. destruct (H1 t Ho Ht). auto.
  - intros Ho. destruct (H2 Ho) as (bt & -> & [? ? ? He]). exists bt. split; [done|].
    split; try done. intros i p Hp Hev. destruct (He i p Hp Hev). auto.
Qed.

(** A jump through a history table: the target is the block at [pc], and the
    new table is good. *)
Lemma bht_step_ok g find bt pc t bt' :
  (forall p t, find p = Some t -> t = p /\ is_Some (g !! p)) ->
  bht_ok g bt -> Z.even pc = true -> bht_step find bt pc t bt' ->
  t = pc /\ is_Some (g !! t) /\ exists b, bt' = Some b /\ bht_ok g b.
Proof.
  intros Hfind Hb He [i Hi Ht|Hm Hf].
  - apply bht_find_lookup in Hi. destruct (bh_entry _ _ Hb i pc Hi He) as [Ht' Hg].
    assert (t = pc) as -> by congruence. eauto.
  - destruct (Hfind _ _ Hf) as [-> Hg]. split_and!; [done..|]. eexists. split; [done|].
    destruct Hb as [Hl1 Hl2 Hx Hent]. split; cbn [bt_PC bt_target bt_idx].
    + by rewrite length_insert.
    + by rewrite length_insert.
    + unfold HISTORY_SIZE. apply Z.mod_pos_bound. lia.
    + intros j p Hp Hpe. destruct (decide (j = Z.to_nat (bt_idx bt))) as [->|Hne].
      * rewrite list_lookup_insert_eq in Hp by lia. injection Hp as ->.
        rewrite list_lookup_total_insert_eq by lia. done.
      * rewrite list_lookup_insert_ne in Hp by done.
        rewrite list_lookup_total_insert_ne by done. by apply Hent.
Qed.

(** ** Execution up to the last instruction *)

(** The length of a run of instructions in bytes. *)
Fixpoint flen (irs : list rv_insn) : Z :=
  match irs with [] => 0 | ir :: irs => ilen ir + flen irs end.

(** Where the last instruction of the block at [a] is executed. *)
Definition tail_pc (a : Z) (front : list rv_insn) : Z := u32 (a + flen front).

Lemma u32_add_l a b : u32 (u32 a + b) = u32 (a + b).
Proof. unfold u32. apply Z.add_mod_idemp_l. lia. Qed.

Section linked.
Context {W : Type} (io : riscv_io W) (sf : softfloat) (find : Z -> option Z).
Context (tt_direct : Z -> Z -> W -> W * bool) (mailbox_stalled : Z -> W -> bool).
Context `{!IoOk io, !SfOk sf, !IoBlind io, !IoLast io}.
Notation exec := (exec_block io sf find tt_direct mailbox_stalled).
Notation call := (call_impl io sf find tt_direct mailbox_stalled).

Lemma exec_front front l rv w cycle pc :
  Forall inner front -> word pc ->
  (exists rv1 w1 c1, last_pc rv1 = last_pc rv /\
     forall l, exec (front ++ [l]) rv w cycle pc = exec [l] rv1 w1 c1 (tail_pc pc front)) \/
  end_pc (exec (front ++ [l]) rv w cycle pc).1.1 (exec (front ++ [l]) rv w cycle pc).2 = None.
Proof using IoLast0.
  intros Hf. unfold tail_pc. revert rv w cycle pc.
  induction Hf as [|ir front Hi Hf IH]; intros rv w cycle pc Hpc.
  - left. exists rv, w, cycle. split; [done|]. intros l'. cbn [app flen].
    rewrite Z.add_0_r, u32_word by done. done.
  - cbn [app]. pose proof (inner_stays io sf find tt_direct mailbox_stalled ir rv w cycle pc Hi) as H.
    cbv zeta in H. cbn [exec_block].
    destruct (call _ _ _ _ _ _) as [[rv1 w1] [c1 p1|b| |]]; cbn [fst snd] in *;
      destruct H as [Hl Hr]; [|subst b; by right|done|by right].
    subst p1. destruct (IH rv1 w1 c1 (u32 (pc + ilen ir)) (word_u32 _))
      as [(rv2 & w2 & c2 & Hl2 & E)|E]; [|by right].
    left. exists rv2, w2, c2. split; [congruence|]. intros l'.
    etrans; [exact (E l')|]. change (flen (ir :: front)) with (ilen ir + flen front).
    rewrite Z.add_assoc, <- (u32_add_l (pc + ilen ir)). done.
Qed.

(** Links change the way control is passed on, but not where to. *)
Lemma exec_rechain front l x y z rv w cycle pc :
  Forall inner front -> outer l -> table_live l.(opcode) z -> word pc ->
  let r := exec (front ++ [l]) rv w cycle pc in
  let r' := exec (front ++ [rechain l x y z]) rv w cycle pc in
  end_pc r.1.1 r.2 <> None ->
  r'.1.2 = r.1.2 /\ alike r.1.1 r'.1.1 /\ end_pc r'.1.1 r'.2 = end_pc r.1.1 r.2.
Proof using IoLast0 IoBlind0.
  intros Hf [Hi He Hn Hc Hlv _ _] Hz Hpc. cbv zeta. intros Hend.
  destruct (exec_front front l rv w cycle pc Hf Hpc) as [(rv1 & w1 & c1 & _ & E)|E];
    [|by rewrite E in Hend].
  rewrite (E l) in *. rewrite (E (rechain l x y z)). cbn [exec_block] in *.
  change (impl (rechain l x y z)) with (impl l). rewrite Hi in *. cbn [call_impl] in *.
  assert (is_fused (opcode l) = false) as Hfu by (by destruct (opcode l)).
  pose proof (dispatch_blind io sf find find tt_direct (opcode l) Hfu Hn rv1 w1 l c1 c1
    (tail_pc pc front) (PC rv1) (csr_cycle rv1) (last_pc rv1) (is_branch_taken rv1) (pre_pc rv1)
    x y z Hc eq_refl Hlv Hz) as (Hw & Ha & Hg).
  rewrite over_self in *.
  destruct (dispatch_table _ _ _ _ _ _ _ l _ _) as [[rv2 w2] f2].
  destruct (dispatch_table _ _ _ _ _ _ _ (rechain l x y z) _ _) as [[rv3 w3] f3].
  cbn [fst snd] in *. subst w3.
  destruct f2 as [|[]| |], f3 as [|[]| |]; cbn [goes fst snd] in Hg; try discriminate Hg;
    try (by cbn in Hend); injection Hg as Hg; subst; split_and!;
    first [ done | exact Ha | etrans; [|exact Ha]; done | etrans; [exact Ha|]; done
          | cbn; congruence ].
Qed.

(** ** Linked blocks follow the reference machine *)

Context (code : Z -> Z) (tfuel : nat) (malloc_ok : rv_insn -> bool).

(** The block [b] of the map [g]: the optimised translation of the code at
    [a], with good links. *)
Record linked (g : gmap Z block_t) (a : Z) (b : block_t) (front : list rv_insn) (l : rv_insn)
    : Prop := mk_linked {
  lk_start : b.(pc_start) = a;
  lk_list : b.(ir_list) = front ++ [l];
  lk_wf : Forall insn_wf b.(ir_list);
  lk_tail : tail_ok g (tail_pc a front) l;
  lk_fresh : exists b0 l0 x y z,
    block_translate true false code [] tfuel a = Some b0 /\ block_fine b0 /\
    (optimize_block malloc_ok b0).(ir_list) = front ++ [l0] /\
    Forall inner front /\ outer l0 /\ l = rechain l0 x y z
}.

Lemma same_hart_alike rv rv' : same_hart rv rv' -> alike rv rv' /\ rv.(PC) = rv'.(PC).
Proof.
  intros H. split.
  - apply (f_equal blur) in H. exact H.
  - apply (f_equal PC) in H. exact H.
Qed.

(** What the execution of a linked block at [a] leaves behind. *)
Definition linked_result (g : gmap Z block_t) (a : Z) (front : list rv_insn) (l : rv_insn)
    (rv : riscv) (rv' : riscv) (e : block_end) : Prop :=
  match e with
  | Chained t c p bt =>
      t = p /\ is_Some (g !! t) /\ 0 <= c < 2 ^ 64 /\ word p /\
      tail_ok g (tail_pc a front) (ir_set_branch_table l bt) /\
      (rv'.(last_pc) = t \/ rv'.(last_pc) = rv.(last_pc) /\ l.(opcode) = rv_insn_jalr)
  | Returned true =>
      rv'.(last_pc) = rv.(last_pc) /\
      (l.(opcode) = rv_insn_jal -> rv'.(PC) = jump_target l (tail_pc a front))
  | _ => False
  end.

Lemma linked_end g a b front l rv w cycle :
  (forall p t, find p = Some t -> t = p /\ is_Some (g !! p)) ->
  linked g a b front l -> word a ->
  let r := exec b.(ir_list) rv w cycle a in
  end_pc r.1.1 r.2 <> None ->
  match r.2 with Chained _ c p _ => 0 <= c < 2 ^ 64 /\ word p | _ => True end ->
  linked_result g a front l rv r.1.1 r.2.
Proof using IoLast0.
  intros Hfind [Hst Hl _ Ht (b0 & l0 & x & y & z & _ & _ & _ & Hf & Ho & El)] Ha. cbv zeta.
  rewrite Hl. intros Hend Hcw.
  destruct (exec_front front l rv w cycle a Hf Ha) as [(rv1 & w1 & c1 & Hl1 & E)|E];
    [|by rewrite E in Hend].
  rewrite (E l) in *. cbn [exec_block] in *.
  pose proof (outer_call io sf find tt_direct mailbox_stalled l rv1 w1 c1 (tail_pc a front)) as Hc.
  cbv zeta in Hc. destruct Ho as [Hi He Hn _ _ _ _].
  assert (opcode l = opcode l0) as Eop by (by rewrite El).
  assert (impl l = impl l0) as Eim by (by rewrite El).
  rewrite Eop, Eim in Hc. specialize (Hc Hi He Hn). rewrite Eim in *.
  destruct (call (impl l0) _ _ _ _ _) as [[rv2 w2] f]. cbn [fst snd] in *.
  destruct f as [c p|[]|t c p bt|]; cbn [fst snd end_pc outer_result linked_result] in *; try done.
  - destruct Hc as [Hc Hj]. split; [cbn; congruence|]. intros Hjal. done.
  - destruct Hc as [Hc Hj]. split; [congruence|]. intros Hjal. by apply Hj.
  - destruct Hcw as [[Hcy0 Hcy] Hp].
    destruct Hc as [(Hop & Hbt & -> & -> & Hlast)|(Hop & Hlast & Hev & bt0 & Hb & Hs)].
    + destruct (tl_jal _ _ _ Ht t Hop Hbt) as [-> Hg]. split_and!; try done; [|by left].
      assert (ir_set_branch_table l (branch_table l) = l) as -> by (by destruct l). done.
    + destruct (tl_jalr _ _ _ Ht Hop) as (bt1 & Hb1 & Hok).
      assert (bt1 = bt0) as -> by congruence.
      destruct (bht_step_ok g find bt0 p t bt Hfind Hok Hev Hs) as (-> & Hg & b' & -> & Hok').
      split_and!; try done; [|right; split; [congruence | done]].
      split; cbn [opcode branch_taken branch_table ir_set_branch_table].
      * rewrite Hop. done.
      * intros _. eauto.
Qed.

Lemma linked_run g a b front l rv w cycle rvr :
  (forall p t, find p = Some t -> t = p /\ is_Some (g !! p)) ->
  linked g a b front l -> safe io sf tt_direct mailbox_stalled code tfuel (rvr, w) ->
  alike rv rvr -> rvr.(PC) = a -> rv_wf rv -> 0 <= cycle < 2 ^ 64 -> word a ->
  exists n s', (0 < n)%nat /\
  ref_run io sf tt_direct mailbox_stalled n (rvr, w) = Some s' /\
  let r := exec b.(ir_list) rv w cycle a in
  r.1.2 = s'.2 /\ alike r.1.1 s'.1 /\ end_pc r.1.1 r.2 = Some s'.1.(PC) /\
  rv_wf r.1.1 /\ linked_result g a front l rv r.1.1 r.2.
Proof using IoOk0 SfOk0 IoBlind0 IoLast0.
  intros Hfind Hlk Hs Ha Hpc Hrv Hcy Hwa.
  pose proof Hlk as [Hst Hl Hwf Ht (b0 & l0 & x & y & z & Htr & [Hlen Hops] & Ho & Hfr & Hou & El)].
  pose proof Htr as Htr0. unfold block_translate in Htr0.
  destruct (translate_loop _ _ _ _ _ _ _) as [[irs pe]|] eqn:Htl; [|done].
  injection Htr0 as <-. cbn [ir_list] in *.
  destruct (translate_run io sf tt_direct mailbox_stalled find code tfuel tfuel a irs pe (repeat 0 32)
    [] rv w cycle rvr Htl) as (n & s' & Hn & Hrun & Hw1 & Ha1 & He1); try done.
  { eapply Forall_impl; [exact Hops|]. by intros ? (? & ? & ?). }
  pose proof (optimize_block_ok io sf find tt_direct mailbox_stalled malloc_ok false code [] tfuel a _
    rv w cycle Htr Hlen) as Hopt. cbn [ir_list] in Hopt.
  destruct Hopt as [(Hh & Hw2 & He2) _]; try done.
  { apply Forall_and. split; [|eapply Forall_impl; [by eapply translate_fetched | by intros ? []]].
    eapply Forall_impl; [exact Hops|]. by intros ? (? & ? & ?). }
  { pose proof (fi_zero _ _ _ _ (safe_fine _ _ _ _ _ _ _ Hs)) as H0. cbn [fst] in H0.
    rewrite (alike_inv _ _ (symmetry Ha)). exact H0. }
  { intros E. by rewrite E in He1. }
  apply same_hart_alike in Hh as [Hh Hhpc]. rewrite Ho in *.
  assert (end_pc (exec (front ++ [l0]) rv w cycle a).1.1 (exec (front ++ [l0]) rv w cycle a).2 =
    Some (PC s'.1)) as He0.
  { rewrite <- He2, <- He1. unfold end_pc. rewrite Hhpc. done. }
  pose proof (exec_rechain front l0 x y z rv w cycle a Hfr Hou) as Hre. cbv zeta in Hre.
  rewrite <- El in Hre.
  destruct Hre as (Hw3 & Ha3 & He3); [|done|by rewrite He0|].
  { rewrite El in Ht. apply (tail_ok_live _ _ _ Ht). }
  pose proof (exec_keeps_wf io sf find tt_direct mailbox_stalled b.(ir_list) rv w cycle a Hrv Hwf Hcy Hwa)
    as [Hwf1 Hcw].
  pose proof (linked_end g a b front l rv w cycle Hfind Hlk Hwa) as Hend. cbv zeta in Hend.
  rewrite Hl in *. exists n, s'. split_and!; try done.
  - congruence.
  - rewrite <- Ha3, <- Hh. done.
  - congruence.
  - apply Hend; [|done]. by rewrite He3, He0.
Qed.
End linked.
