(* ===== verification/StepSpec.v ===== *)
(** * The execution loop refines the reference interpreter

    [rv_step] looks blocks up, translates and optimises missing ones, links
    blocks to each other and runs chains of linked blocks.  On a hart
    without a coprocessor all of this is invisible: as long as the reference
    interpreter of [StepRef] keeps running, every iteration of the loop is a
    number of reference steps ([step_block_ok]), nothing fails, and the
    invariant of the map and of its links ([inv]) is kept. *)

From Stdlib Require Import ZArith Lia Bool.
From stdpp Require Import base list numbers gmap.
From S2P Require Import Prelude Decode Riscv Exec ExecWf Memory MemorySpec AluSpec ConstOpt ConstOptSpec Blind Fusion FusionSpec Block BlockMapSpec DecodeSpec DecodeRvc BlockSpec Step StepRef StepShape StepStay StepChain.

(** ** Changing a block in place *)

Lemma slot_fmap (h : block_t -> block_t) s i :
  length s = 1024%nat -> slot (List.map (option_map h) s) i = option_map h (slot s i).
Proof.
  intros Hl. unfold slot. pose proof (mod_cap_range i) as Hr. unfold cap in *.
  destruct (lookup_lt_is_Some_2 s (Z.to_nat (i mod 1024))) as [o Ho]; [lia|].
  rewrite (list_lookup_total_correct _ _ _ Ho). apply list_lookup_total_correct.
  change (List.map (option_map h) s) with (option_map h <$> s). rewrite list_lookup_fmap, Ho. done.
Qed.

Lemma used_fmap (h : block_t -> block_t) s : used (List.map (option_map h) s) = used s.
Proof.
  unfold used. induction s as [|o s IH]; [done|]. simpl. rewrite !filter_cons.
  destruct o as [b|]; simpl; by rewrite IH.
Qed.

Lemma update_repr m g t f :
  repr m g -> (forall b, (f b).(pc_start) = b.(pc_start)) ->
  repr (map_update m t f) (alter f t g) /\ (map_update m t f).(map_size) = m.(map_size).
Proof.
  intros [Hc [Hl Hr Hu] Hs Hm] Hf. split; [|done].
  set (h := fun b => if pc_start b =? t then f b else b).
  assert (forall b, pc_start (h b) = pc_start b) as Hh by (intros b; unfold h; by destruct (_ =? _)).
  assert (forall i, slot (List.map (option_map h) m.(slots)) i = option_map h (slot m.(slots) i))
    as Hsl by (intros; by apply slot_fmap).
  assert (forall i, slot (List.map (option_map h) m.(slots)) i <> None <-> slot m.(slots) i <> None)
    as Hn by (intros; rewrite Hsl; by destruct (slot _ _)).
  split; [done | split | |]; cbn [map_update slots map_size]; fold h.
  - by rewrite List.length_map.
  - intros j b Hj. rewrite Hsl. destruct (slot m.(slots) j) as [b0|] eqn:E; [|done].
    intros [= <-]. rewrite Hh. destruct (Hr j b0 Hj E) as (d & ? & ? & Hi). exists d.
    split_and!; [done..|]. intros i ?. rewrite Hn. by apply Hi.
  - intros j j' b b' Hj Hj'. rewrite !Hsl.
    destruct (slot m.(slots) j) as [b0|] eqn:E; [|done].
    destruct (slot m.(slots) j') as [b1|] eqn:E'; [|done]. intros [= <-] [= <-]. rewrite !Hh.
    by apply (Hu j j').
  - by rewrite used_fmap.
  - intros a b. rewrite lookup_alter_Some. split.
    + intros [(<- & b0 & E & ->)|(Hne & E)]; apply Hm in E as [E (j & Hj & Hb)];
        (split; [by rewrite ?Hf|]); exists j; rewrite Hsl, Hb; (split; [done|]); simpl; unfold h; rewrite E.
      * by rewrite Z.eqb_refl.
      * by rewrite (proj2 (Z.eqb_neq _ _)) by done.
    + intros [E (j & Hj & Hb)]. rewrite Hsl in Hb.
      destruct (slot m.(slots) j) as [b0|] eqn:Hb0; [|done]. injection Hb as <-. rewrite Hh in E.
      assert (g !! a = Some b0) as Hg by (apply Hm; split; [done|]; by exists j).
      unfold h. rewrite E. destruct (Z.eqb_spec a t) as [->|]; [left; eauto | by right].
Qed.

Lemma update_last_app f front l : update_last f (front ++ [l]) = front ++ [f l].
Proof.
  induction front as [|ir front IH]; [done|]. cbn [app update_last]. rewrite IH.
  destruct (front ++ [l]) eqn:E; [by destruct front | done].
Qed.

(** ** Translation reads the program only *)

Lemma translate_loop_sub fetch code Xs Ys fuel pc lui lui' r :
  (forall a, code a <> 0 -> fetch a = code a) ->
  translate_loop true false code Ys fuel pc lui' = Some r ->
  translate_loop true false fetch Xs fuel pc lui = Some r.
Proof.
  intros Hf. revert pc r. induction fuel as [|fuel IH]; intros pc r; [done|]. cbn [translate_loop].
  destruct (Z.eqb_spec (code pc) 0) as [|Hne]; [done|]. rewrite (Hf pc Hne), (proj2 (Z.eqb_neq _ _) Hne). cbn [andb].
  destruct (rv_decode _ _ _) as [[ir []]|]; [|done..]. destruct (insn_is_branch _); [done|].
  destruct (translate_loop _ _ code _ _ _ _) as [[irs pe]|] eqn:E; [|done]. by rewrite (IH _ _ E).
Qed.

Lemma block_translate_sub fetch code Xs fuel pc b :
  (forall a, code a <> 0 -> fetch a = code a) ->
  block_translate true false code [] fuel pc = Some b -> block_translate true false fetch Xs fuel pc = Some b.
Proof.
  intros Hf. unfold block_translate. destruct (translate_loop _ _ code _ _ _ _) as [[irs pe]|] eqn:E; [|done].
  by rewrite (translate_loop_sub _ _ _ _ _ _ _ _ _ Hf E).
Qed.

(** ** The invariant of the links *)

Section links.
Context (code : Z -> Z) (tfuel : nat) (malloc_ok : rv_insn -> bool).
Notation linked := (linked code tfuel malloc_ok).

Definition links (g : gmap Z block_t) : Prop :=
  forall a b, g !! a = Some b -> exists front l, linked g a b front l.

Lemma linked_mono g g' a b front l :
  (forall a, is_Some (g !! a) -> is_Some (g' !! a)) -> linked g a b front l -> linked g' a b front l.
Proof. intros Hg [H1 H2 H3 H4 H5]. split; try done. by eapply tail_ok_mono. Qed.

Lemma links_empty : links ∅.
Proof. intros a b. by rewrite lookup_empty. Qed.

(** A freshly translated and optimised block has no links to other blocks. *)
Lemma linked_new g a b0 :
  block_translate true false code [] tfuel a = Some b0 -> block_fine b0 ->
  exists front l, linked g a (optimize_block malloc_ok b0) front l.
Proof.
  intros Ht Hf. destruct (optimize_block_shape malloc_ok _ _ _ _ _ Ht Hf) as (front & l & E & Hi & Ho).
  exists front, l. split.
  - unfold block_translate in Ht. destruct (translate_loop _ _ _ _ _ _ _) as [[irs pe]|]; [|done].
    injection Ht as <-. unfold optimize_block. by destruct (match_pattern _ _ _).
  - done.
  - by eapply optimize_block_wf.
  - split.
    + intros t _. by rewrite (ou_taken _ Ho).
    + intros Hj. rewrite (ou_table _ Ho Hj). eexists. split; [done | apply new_bht_ok].
  - exists b0, l, (branch_taken l), (branch_untaken l), (branch_table l).
    split_and!; try done. symmetry. apply rechain_self.
Qed.

Lemma links_insert g a b0 :
  links g -> block_translate true false code [] tfuel a = Some b0 -> block_fine b0 ->
  links (<[a := optimize_block malloc_ok b0]> g).
Proof.
  intros Hg Ht Hf a' b. rewrite lookup_insert_Some. intros [[<- <-]|[Hne Hb]].
  - by apply linked_new.
  - destruct (Hg a' b Hb) as (front & l & Hl). exists front, l. eapply linked_mono, Hl.
    intros k Hk. apply lookup_insert_is_Some'. by right.
Qed.

(** Changing the links of one last instruction. *)
Lemma links_alter g t h :
  links g ->
  (forall b front l, g !! t = Some b -> linked g t b front l ->
     tail_ok g (tail_pc t front) (h l) /\ exists x y z, h l = rechain l x y z) ->
  links (alter (update_tail h) t g).
Proof.
  intros Hg Hh a b. rewrite lookup_alter_Some.
  assert (forall k, is_Some (g !! k) -> is_Some (alter (update_tail h) t g !! k)) as Hm
    by (intros k; by rewrite lookup_alter_is_Some).
  intros [(<- & b0 & Hb & ->)|[Hne Hb]]; destruct (Hg _ _ Hb) as (front & l & Hl).
  - destruct (Hh _ _ _ Hb Hl) as (Ht & x & y & z & E).
    destruct Hl as [H1 H2 H3 H4 (c & l0 & x0 & y0 & z0 & H5 & H6 & H7 & H8 & H9 & H10)].
    assert (ir_list (update_tail h b0) = front ++ [h l]) as El
      by (cbn [update_tail ir_list]; by rewrite H2, update_last_app).
    exists front, (h l). split; [done | done | | by eapply tail_ok_mono |].
    + rewrite H2 in H3. apply Forall_app in H3 as [H3 Hw]. rewrite El. apply Forall_app.
      split; [done|]. apply List.Forall_cons_iff in Hw as [Hw _]. rewrite E.
      constructor; [destruct Hw; by constructor | done].
    + exists c, l0, x, y, z. split_and!; try done. rewrite E, H10. done.
  - exists front, l. by eapply linked_mono.
Qed.
End links.

(** ** What the last instruction of a block says about its target *)

(** The block at [a], if it ends in a [jal], jumps to an address in [P]. *)
Definition tails (g : gmap Z block_t) (a : Z) (P : Z -> Prop) : Prop :=
  forall b front l, g !! a = Some b -> b.(ir_list) = front ++ [l] ->
  l.(opcode) = rv_insn_jal -> P (jump_target l (tail_pc a front)).

Lemma tails_alter g a P t h :
  (forall l, opcode (h l) = opcode l /\ imm (h l) = imm l) ->
  tails g a P -> tails (alter (update_tail h) t g) a P.
Proof.
  intros Hh Ht b front l Hb Hl Hj. rewrite lookup_alter_Some in Hb.
  destruct Hb as [(<- & b0 & Hb & ->)|[_ Hb]]; [|by eapply Ht].
  cbn [update_tail ir_list] in Hl. destruct (ir_list b0) as [|ir0 irs] eqn:E0; [by destruct front|].
  destruct (exists_last (l := ir0 :: irs)) as (f0 & l0 & E1); [done|].
  rewrite E1, update_last_app in Hl. apply app_inj_tail in Hl as [-> <-].
  destruct (Hh l0) as [Ho Hi]. rewrite Ho in Hj. unfold jump_target. rewrite Hi.
  apply (Ht b0 front l0 Hb); [by rewrite E0 | done].
Qed.

Lemma tails_insert g a P k b :
  g !! k = None -> is_Some (g !! a) -> tails g a P -> tails (<[k := b]> g) a P.
Proof.
  intros Hk [b0 Ha] Ht b' front l. rewrite lookup_insert_ne by congruence. apply Ht.
Qed.

Lemma tails_one g a b front l P :
  g !! a = Some b -> b.(ir_list) = front ++ [l] ->
  (l.(opcode) = rv_insn_jal -> P (jump_target l (tail_pc a front))) -> tails g a P.
Proof.
  intros Hb Hl HP b' front' l' Hb' Hl' Hj. assert (b' = b) as -> by congruence.
  rewrite Hl in Hl'. apply app_inj_tail in Hl' as [-> ->]. auto.
Qed.

(** ** Chains of blocks *)

Section refine.
Context {W : Type} (io : riscv_io W) (sf : softfloat) (tt : tensix_link W).
Context (tt_direct : Z -> Z -> W -> W * bool) (mailbox_stalled : Z -> W -> bool).
Context (malloc_ok : rv_insn -> bool) (exit_addr : Z) (tfuel : nat) (code : Z -> Z).
Context `{!IoOk io, !SfOk sf, !IoBlind io, !IoLast io}.
Notation links := (links code tfuel malloc_ok).
Notation safe := (safe io sf tt_direct mailbox_stalled code tfuel).
Notation ref_run := (ref_run io sf tt_direct mailbox_stalled).
Notation chain := (run_chain io sf tt_direct mailbox_stalled).

Lemma find_block_repr map g a : repr map g -> map.(map_size) < cap -> find_block map a = g !! a.
Proof. intros Hr Hs. unfold find_block. by rewrite (find_repr _ _ _ Hr Hs). Qed.

Lemma find_pc_links map g p t :
  repr map g -> map.(map_size) < cap -> links g -> find_pc map p = Some t ->
  t = p /\ is_Some (g !! p).
Proof.
  intros Hr Hs Hl. unfold find_pc. rewrite (find_block_repr map g p Hr Hs).
  destruct (g !! p) as [b|] eqn:Hb; [|done]. intros [= <-].
  destruct (Hl p b Hb) as (front & l & [-> _ _ _ _]). eauto.
Qed.

(** What a chain leaves behind, after [n] reference steps to [s']. *)
Definition chain_result (fuel n : nat) (g' : gmap Z block_t) (s' : riscv * W)
    (rv' : riscv) (e : chain_end) : Prop :=
  match e with
  | Ended true =>
      (0 < n)%nat /\ PC rv' = PC s'.1 /\ tails g' (last_pc rv') (eq (PC rv'))
  | Running t c p => (fuel <= n)%nat /\ t = p /\ p = PC s'.1 /\ is_Some (g' !! t)
  | _ => False
  end.

Lemma run_chain_ok fuel map g pc rv w cycle rvr :
  repr map g -> map.(map_size) < cap -> links g -> is_Some (g !! pc) ->
  safe (rvr, w) -> alike rv rvr -> PC rvr = pc -> rv_wf rv -> 0 <= cycle < 2 ^ 64 -> word pc ->
  last_pc rv = pc \/ tails g (last_pc rv) (fun _ => False) ->
  exists n s' g', ref_run n (rvr, w) = Some s' /\
  let '(map', rv', w', e) := chain fuel map pc rv w cycle pc in
  repr map' g' /\ map'.(map_size) = map.(map_size) /\ links g' /\
  (forall a, is_Some (g !! a) -> is_Some (g' !! a)) /\
  w' = s'.2 /\ alike rv' s'.1 /\ rv_wf rv' /\ chain_result fuel n g' s' rv' e.
Proof using IoOk0 SfOk0 IoBlind0 IoLast0.
  revert map g pc rv w cycle rvr.
  induction fuel as [|fuel IH]; intros map g pc rv w cycle rvr Hr Hs Hg Hpc Hsafe Ha Ep Hrv Hc Hw HL.
  - exists 0%nat, (rvr, w), g. split; [done|]. cbn [run_chain]. split_and!; try done.
  - cbn [run_chain]. rewrite (find_block_repr map g pc Hr Hs).
    destruct Hpc as [b Hb]. rewrite Hb. destruct (Hg pc b Hb) as (front & l & Hl).
    pose proof (lk_list _ _ _ _ _ _ _ _ Hl) as El.
    destruct (linked_run io sf (find_pc map) tt_direct mailbox_stalled code tfuel malloc_ok g pc b
      front l rv w cycle rvr) as (n & s' & Hn & Hrun & Hres); try done.
    { intros p t. by apply find_pc_links. }
    cbv zeta in Hres.
    destruct (exec_block _ _ _ _ _ _ _ _ _ _) as [[rv1 w1] e1]. cbn [fst snd] in Hres.
    destruct Hres as (Hw1 & Ha1 & He1 & Hrv1 & Hlr).
    destruct e1 as [[]|t c p bt|]; cbn [linked_result end_pc] in *; try done.
    + destruct Hlr as [Hlast Hjal]. injection He1 as He1. exists n, s', g. split_and!; try done.
      split_and!; try done. rewrite Hlast. destruct HL as [->|HL].
      * by apply (tails_one g pc b front l).
      * intros b' front' l' H1 H2 H3. by destruct (HL b' front' l' H1 H2 H3).
    + destruct Hlr as (-> & Hgt & Hcy & Hwp & Htl & Hlast). injection He1 as He1.
      set (h := fun ir => ir_set_branch_table ir bt).
      assert (forall ir, opcode (h ir) = opcode ir /\ imm (h ir) = imm ir) as Hh by done.
      destruct (update_repr map g pc (update_tail h) Hr) as [Hr' Hs']; [done|].
      assert (forall k, is_Some (g !! k) -> is_Some (alter (update_tail h) pc g !! k)) as Hm
        by (intros k; by rewrite lookup_alter_is_Some).
      destruct s' as [rvr' w']. cbn [fst snd] in *. subst w1.
      destruct (IH (map_update map pc (update_tail h)) (alter (update_tail h) pc g) p rv1 w' c rvr')
        as (n' & s'' & g' & Hrun' & Hres); try done.
      * apply links_alter; [done|]. intros b' front' l' Hb' Hl'.
        assert (b' = b) as -> by congruence.
        pose proof (lk_list _ _ _ _ _ _ _ _ Hl') as El'. rewrite El in El'.
        apply app_inj_tail in El' as [<- <-]. split; [done|].
        exists (branch_taken l), (branch_untaken l), bt. by destruct l.
      * by apply Hm.
      * by eapply safe_run.
      * destruct Hlast as [->|[Hlast Hj]]; [by left|]. right. rewrite Hlast.
        apply tails_alter; [done|]. destruct HL as [->|HL]; [|done].
        apply (tails_one g pc b front l); [done..|]. by rewrite Hj.
      * exists (n + n')%nat, s'', g'. split; [by rewrite ref_run_add, Hrun|].
        destruct (chain _ _ _ _ _ _ _) as [[[map' rv'] w''] e].
        destruct Hres as (H1 & H2 & H3 & H4 & H5 & H6 & H7 & H8). split_and!; try done.
        -- intros k Hk. by apply H4, Hm.
        -- destruct e as [[]|t c' p'|]; cbn [chain_result] in *; try done;
             destruct H8; (split; [lia | done]).
Qed.

(** ** One iteration *)

(** The machine [m] implements the reference state [s], its block map the
    finite map [g]. *)
Record inv (g : gmap Z block_t) (m : machine W) (s : riscv * W) : Prop := mk_inv {
  i_repr : repr m.(m_map) g;
  i_size : m.(m_map).(map_size) <= 820;
  i_links : links g;
  i_prev : forall p, m.(m_prev) = Some p -> is_Some (g !! p) /\
    tails g m.(m_rv).(last_pc) (eq m.(m_rv).(PC));
  i_alike : alike m.(m_rv) s.1;
  i_pc : m.(m_rv).(PC) = s.1.(PC);
  i_w : m.(m_w) = s.2;
  i_wf : rv_wf m.(m_rv)
}.

(** The pointer [rv->prev] once it is up to date. *)
Definition prev_ok (g : gmap Z block_t) (m : machine W) : Prop :=
  forall p, m.(m_prev) = Some p -> p = m.(m_rv).(last_pc) /\ is_Some (g !! p) /\
  tails g p (eq m.(m_rv).(PC)).

Lemma refresh_prev_ok g m s :
  inv g m s ->
  exists prev, refresh_prev m = set_prev m prev /\ prev_ok g (set_prev m prev).
Proof.
  intros [Hr Hs Hl Hp _ _ _ _]. unfold refresh_prev.
  destruct (m_prev m) as [p|] eqn:Em.
  - destruct (Hp p eq_refl) as [Hg Ht]. destruct (Z.eqb_spec p (last_pc (m_rv m))) as [->|Hne].
    + exists (Some (last_pc (m_rv m))). split; [rewrite <- Em; by destruct m|].
      intros p [= <-]. by split_and!.
    + eexists. split; [done|]. intros p' Hp'. cbn [m_prev set_prev m_rv] in *.
      apply (find_pc_links _ g) in Hp' as [-> Hg']; [| done | unfold cap; lia | done].
      by split_and!.
  - exists None. split; [rewrite <- Em; by destruct m | done].
Qed.

Context (no_tensix : forall w, tt.(has_tensix) w = false).

Lemma kernel_transition_none m :
  m.(m_rv).(core_id) <> 3 ->
  kernel_transition tt m = set_rv m (set_pre_pc m.(m_rv) m.(m_rv).(PC)).
Proof using no_tensix.
  intros Hc. unfold kernel_transition. cbv zeta. rewrite no_tensix. cbn [andb].
  by rewrite (proj2 (Z.eqb_neq _ _) Hc).
Qed.

Lemma find_or_translate_fine g m s :
  repr m.(m_map) g -> m.(m_map).(map_size) <= 820 -> links g -> prev_ok g m ->
  alike m.(m_rv) s.1 -> PC m.(m_rv) = PC s.1 -> m.(m_w) = s.2 -> fine io code tfuel s ->
  exists map prev b g', find_or_translate io tt malloc_ok tfuel m =
    Some (set_prev (set_map m map) prev, Some b) /\
  repr map g' /\ map.(map_size) <= 820 /\ links g' /\ g' !! PC m.(m_rv) = Some b /\
  prev_ok g' (set_prev (set_map m map) prev).
Proof using no_tensix IoBlind0.
  intros Hr Hs Hl Hp Ha Epc Ew [Hcode _ _ (b0 & Hb0 & Hfine)].
  assert (forall a, code a <> 0 -> mem_ifetch io (m_rv m) (m_w m) a = code a) as Hf.
  { intros a Hc. rewrite <- Hcode, Ew, (alike_inv _ _ (symmetry Ha)) by done. apply bl_ifetch. }
  rewrite <- Epc in Hb0. unfold find_or_translate. rewrite no_tensix.
  set (tr := block_translate _ _ _ _ _).
  assert (tr (PC (m_rv m)) = Some b0) as Htr by by apply (block_translate_sub _ code).
  destruct (find_or_translate_run tr malloc_ok (m_map m) g (m_prev m) (PC (m_rv m)) Hr Hs)
    as (m' & prev' & r & -> & Hs' & Hres).
  { rewrite Htr. intros b [= <-]. unfold block_translate in Hb0.
    destruct (translate_loop _ _ _ _ _ _ _) as [[]|]; [|done]. by injection Hb0 as <-. }
  destruct (g !! PC (m_rv m)) as [b|] eqn:Eg.
  - destruct Hres as (-> & -> & ->). by exists (m_map m), (m_prev m), b, g.
  - destruct Hres as (-> & -> & Hr'). rewrite Htr in *. cbn [fmap option_fmap option_map] in *.
    eexists _, _, _, _. split; [done|]. split; [exact Hr'|]. split_and!; [done | | by rewrite lookup_insert_eq|].
    + apply links_insert; [|done..]. destruct (_ <=? _); [apply links_empty | done].
    + destruct (820 <=? _); [done|]. intros p Hpp. destruct (Hp p Hpp) as (-> & Hg & Ht).
      split_and!; [done | by apply lookup_insert_is_Some'; right | by apply tails_insert].
Qed.

Lemma chain_tail_rechain taken t l :
  exists x y z, chain_tail taken t l = rechain l x y z.
Proof.
  exists (branch_taken (chain_tail taken t l)), (branch_untaken (chain_tail taken t l)), (branch_table l).
  unfold chain_tail. destruct l. repeat case_match; done.
Qed.

Lemma chain_tail_ok g pc taken t l :
  tail_ok g pc l -> (l.(opcode) = rv_insn_jal -> t = jump_target l pc /\ is_Some (g !! t)) ->
  tail_ok g pc (chain_tail taken t l).
Proof.
  intros Hok Hg. pose proof Hok as [H1 H2]. unfold chain_tail.
  destruct (opcode l) eqn:E; cbn [insn_is_unconditional_branch insn_is_direct_branch negb];
    repeat case_match; try exact Hok;
    (split; cbn [opcode ir_set_branch_taken ir_set_branch_untaken branch_table branch_taken imm];
     rewrite ?E; try done).
  intros t' _ [= <-]. by apply Hg.
Qed.

(** The new block is linked to the last instruction of the previous one. *)
Lemma chain_block_ok g m b :
  repr m.(m_map) g -> links g -> prev_ok g m -> b.(pc_start) = PC m.(m_rv) ->
  is_Some (g !! PC m.(m_rv)) ->
  exists map g', chain_block m b = set_map m map /\ repr map g' /\
  map.(map_size) = m.(m_map).(map_size) /\ links g' /\
  (forall a, is_Some (g !! a) -> is_Some (g' !! a)).
Proof.
  intros Hr Hl Hp Hb Hg. unfold chain_block. destruct (m_prev m) as [p|] eqn:Em.
  - destruct (Hp p Em) as (_ & Hpg & Ht).
    set (h := chain_tail (is_branch_taken (m_rv m)) (pc_start b)).
    destruct (update_repr (m_map m) g p (update_tail h) Hr) as [Hr' Hs']; [done|].
    eexists _, _. split; [done|]. split; [exact Hr'|]. split; [done|]. split.
    + apply links_alter; [done|]. intros b' front l Hb' Hlk. split; [|apply chain_tail_rechain].
      apply chain_tail_ok; [by eapply lk_tail|]. rewrite Hb. intros Hj. split; [|done].
      apply (Ht b' front l Hb'); [by eapply lk_list | done].
    + intros k. by rewrite lookup_alter_is_Some.
  - exists (m_map m), g. split_and!; try done. by destruct m.
Qed.

Context (cfuel : nat).
Notation step_block := (step_block io sf tt tt_direct mailbox_stalled malloc_ok exit_addr tfuel cfuel).

(** A chain that is still running: the machine follows the reference run. *)
Definition unfinished_ok (m : machine W) (s : riscv * W) (t pc : Z) : Prop :=
  t = pc /\ pc = PC s.1 /\ alike m.(m_rv) s.1 /\ m.(m_w) = s.2.

Lemma step_block_ok g m s :
  inv g m s -> safe s ->
  match step_block m with
  | (m', Again) => exists n s' g', (0 < n)%nat /\ ref_run n s = Some s' /\ inv g' m' s'
  | (m', Unfinished t _ pc) => exists n s', (cfuel <= n)%nat /\ ref_run n s = Some s' /\
      unfinished_ok m' s' t pc
  | _ => False
  end.
Proof using no_tensix IoOk0 SfOk0 IoBlind0 IoLast0.
  intros Hinv Hsafe. pose proof (safe_fine _ _ _ _ _ _ _ Hsafe) as Hfine.
  destruct (refresh_prev_ok g m s Hinv) as (prev & Em & Hprev).
  destruct Hinv as [Hr Hs Hl _ Ha Epc Ew Hwf].
  assert (core_id (m_rv m) <> 3) as Hcore.
  { rewrite (alike_inv _ _ (symmetry Ha)). apply (fi_core _ _ _ _ Hfine). }
  unfold Step.step_block. cbv zeta. rewrite Em, kernel_transition_none by done.
  set (rv0 := set_pre_pc (m_rv (set_prev m prev)) (PC (m_rv (set_prev m prev)))).
  assert (alike rv0 s.1) as Ha0 by (rewrite <- Ha; done).
  assert (rv_wf rv0) as Hwf0 by (destruct Hwf; by constructor).
  destruct (find_or_translate_fine g (set_rv (set_prev m prev) rv0) s)
    as (map1 & prev1 & b & g1 & -> & Hr1 & Hs1 & Hl1 & Hb & Hp1); try done.
  set (m1 := set_prev _ prev1) in *.
  set (m2 := if _ =? exit_addr then set_on_exit m1 true else m1).
  assert (m_rv m2 = rv0 /\ m_map m2 = map1 /\ m_prev m2 = prev1 /\ m_w m2 = m_w m) as (E1 & E2 & E3 & E4)
    by (unfold m2; by destruct (_ =? exit_addr)).
  assert (pc_start b = PC rv0) as Hbs.
  { destruct (Hl1 _ _ Hb) as (front & l & Hlk). by apply lk_start in Hlk. }
  destruct (chain_block_ok g1 m2 b) as (map3 & g3 & -> & Hr3 & Hs3 & Hl3 & Hg3).
  { by rewrite E2. } { done. }
  { intros p. rewrite E3, E1. apply Hp1. }
  { by rewrite E1. } { rewrite E1. eauto. }
  rewrite E2 in Hs3. cbn [m_map set_map m_rv m_w]. rewrite E1, E4, Hbs.
  destruct s as [rvr w]. cbn [fst snd] in *. rewrite Ew.
  set (rv1 := set_last_pc rv0 (PC rv0)).
  assert (rv_wf rv1) as Hwf1 by (destruct Hwf0; by constructor).
  destruct (run_chain_ok cfuel map3 g3 (PC rv0) rv1 w (csr_cycle rv1) rvr)
    as (n & s' & g4 & Hrun & Hres); try done.
  { unfold cap. lia. } { apply Hg3. by exists b. }
  { by apply wf_cycle. } { by apply (wf_PC _ Hwf0). } { by left. }
  change (PC rv1) with (PC rv0).
  destruct (chain _ _ _ _ _ _ _) as [[[map' rv'] w'] e].
  destruct Hres as (H1 & H2 & H3 & H4 & H5 & H6 & H7 & H8).
  destruct e as [[]|t c p|]; cbn [chain_result] in H8; try done.
  - destruct H8 as (Hn & Hpc & Ht). rewrite no_tensix. cbn [andb].
    exists n, s', g4. split; [done|]. split; [done|].
    split; cbn [m_map m_prev m_rv m_w set_prev set_w set_rv set_map]; try done; try lia.
    intros p [= <-]. split; [|done]. apply H4, Hg3. by exists b.
  - destruct H8 as (Hn & -> & -> & _). exists n, s'. split_and!; done.
Qed.

Context (cycle_per_step : Z).
Notation loop := (step_loop io sf tt tt_direct mailbox_stalled malloc_ok exit_addr tfuel cfuel).

(** What the loop leaves behind. *)
Definition loop_result (fuel : nat) (target : Z) (s : riscv * W) (r : machine W * verdict) : Prop :=
  let m' := r.1 in
  match r.2 with
  | Again => exists n s' g', (fuel <= n)%nat /\ ref_run n s = Some s' /\ inv g' m' s'
  | Leave => exists n s' g', ref_run n s = Some s' /\ inv g' m' s' /\
      (target <= m'.(m_rv).(csr_cycle) \/ m'.(m_rv).(halt) = true)
  | Unfinished t _ pc => exists n s', (cfuel <= n)%nat /\ ref_run n s = Some s' /\
      unfinished_ok m' s' t pc
  | Crash => False
  end.

Lemma loop_result_after fuel target n s s' r :
  (0 < n)%nat -> ref_run n s = Some s' -> loop_result fuel target s' r ->
  loop_result (S fuel) target s r.
Proof.
  intros Hn Hrun. unfold loop_result. destruct r.2; try done.
  - intros (n' & s'' & g' & ? & ? & ?). exists (n + n')%nat, s'', g'.
    rewrite ref_run_add, Hrun. split_and!; [lia | done..].
  - intros (n' & s'' & g' & ? & ?). exists (n + n')%nat, s'', g'. by rewrite ref_run_add, Hrun.
  - intros (n' & s'' & ? & ?). exists (n + n')%nat, s''. rewrite ref_run_add, Hrun.
    split; [lia | done].
Qed.

Lemma step_loop_ok fuel target g m s :
  inv g m s -> safe s -> loop_result fuel target s (loop fuel target m).
Proof using no_tensix IoOk0 SfOk0 IoBlind0 IoLast0.
  revert g m s. induction fuel as [|fuel IH]; intros g m s Hi Hs; cbn [step_loop].
  - exists 0%nat, s, g. by split_and!.
  - destruct (Z.ltb_spec (csr_cycle (m_rv m)) target) as [Hlt|Hge]; cbn [andb].
    2: { exists 0%nat, s, g. split_and!; [done.. | by left]. }
    destruct (halt (m_rv m)) eqn:Hh; cbn [negb].
    { exists 0%nat, s, g. split_and!; [done.. | by right]. }
    pose proof (step_block_ok g m s Hi Hs) as Hb.
    destruct (Step.step_block _ _ _ _ _ _ _ _ _ m) as [m' []]; try done.
    destruct Hb as (n & s' & g' & Hn & Hrun & Hi').
    apply (loop_result_after fuel target n s s'); [done..|]. apply (IH g'); [done|].
    by eapply safe_run.
Qed.


(** A new machine implements its own hart. *)
Lemma inv_new rv w on_exit k :
  rv_wf rv -> inv ∅ (mk_machine rv w (block_map_init BLOCK_MAP_CAPACITY_BITS) None on_exit k) (rv, w).
Proof. intros Hw. split; try done; first [apply init_repr | apply links_empty]. Qed.
End refine.

(** ** A loop in memory *)

Lemma no_tensix_last : IoLast no_tensix.
Proof. by apply rv_io_last. Qed.

(** [addi x5, x5, 1; jal x0, -4] at address 0. *)
Definition loop_world : world unit :=
  set_heap mem0 (memory_write_w mem0.(w_mem)
    (memory_write_w mem0.(w_mem) ∅ 0 0x00128293) 4 0xffdff06f).
Definition loop_code (a : Z) : Z := memory_ifetch loop_world.(w_mem) loop_world.(w_heap) a.
Definition no_link : tensix_link (world unit) :=
  mk_tensix_link (world unit) (fun _ => false) (fun _ => 0) (fun w _ => w) (fun _ => false)
    (fun w _ => w) (fun w => w) (fun w _ => w) clear_rta_l1_base.

Record in_loop (s : riscv * world unit) : Prop := mk_in_loop {
  il_w : s.2 = loop_world;
  il_zero : getX s.1 0 = 0;
  il_core : s.1.(core_id) = 0;
  il_pc : s.1.(PC) = 0 \/ s.1.(PC) = 4
}.
Notation loop_step := (ref_step no_tensix sf_zero (fun _ _ w => (w, true)) (fun _ _ => false)).

Lemma in_loop_step s : in_loop s -> exists s', loop_step s = Some s' /\ in_loop s'.
Proof.
  destruct s as [rv w]. intros [Hw Hz Hc Hpc]. cbn [fst snd] in *. subst w. cbn [ref_step].
  destruct Hpc as [-> | ->].
  - destruct (insn_at _ 0) as [ir|] eqn:E; [|by vm_compute in E].
    vm_compute in E. injection E as <-. cbn [exec_block impl call_impl dispatch_table].
    eexists. split; [reflexivity|]. constructor; cbn [fst snd PC set_PC]; try done.
    + change (getX (setX rv 5 (u32 (getX rv 5 + 1))) 0 = 0). rewrite getX_setX_ne; [done | lia..].
    + by right.
  - destruct (insn_at _ 4) as [ir|] eqn:E; [|by vm_compute in E].
    vm_compute in E. injection E as <-. cbn [exec_block impl call_impl dispatch_table].
    eexists. split; [reflexivity|]. constructor; cbn [fst snd PC set_PC]; try done. by left.
Qed.

Lemma in_loop_fine s : in_loop s -> fine no_tensix loop_code 8 s.
Proof.
  destruct s as [rv w]. intros [Hw Hz Hc Hpc]. cbn [fst snd] in *. subst w. split; cbn [fst snd].
  - done.
  - done.
  - by rewrite Hc.
  - destruct Hpc as [-> | ->].
    + destruct (block_translate true false loop_code [] 8 0) as [b|] eqn:E; [|by vm_compute in E].
      exists b. split; [done|]. vm_compute in E. injection E as <-.
      constructor; [simpl; lia|]. repeat apply List.Forall_cons; try apply List.Forall_nil; by split_and!.
    + destruct (block_translate true false loop_code [] 8 4) as [b|] eqn:E; [|by vm_compute in E].
      exists b. split; [done|]. vm_compute in E. injection E as <-.
      constructor; [simpl; lia|]. repeat apply List.Forall_cons; try apply List.Forall_nil; by split_and!.
Qed.

Lemma in_loop_safe s :
  in_loop s -> safe no_tensix sf_zero (fun _ _ w => (w, true)) (fun _ _ => false) loop_code 8 s.
Proof.
  intros Hs n. revert s Hs. induction n as [|n IH]; intros s Hs.
  - exists s. split; [done | by apply in_loop_fine].
  - destruct (in_loop_step s Hs) as (s' & H & Hs'). destruct (IH s' Hs') as (s'' & Hn & Hf).
    exists s''. split; [|done]. cbn [ref_run]. by rewrite H.
Qed.

Definition loop_machine : machine (world unit) :=
  mk_machine (rv_zero 0) loop_world (block_map_init BLOCK_MAP_CAPACITY_BITS) None false 0.


(** ** A chain that never ends *)

Section endless.
Context {W : Type} (io : riscv_io W) (sf : softfloat) (tt : tensix_link W).
Context (tt_direct : Z -> Z -> W -> W * bool) (mailbox_stalled : Z -> W -> bool).
Context (malloc_ok : rv_insn -> bool) (cycle_per_step exit_addr : Z) (tfuel : nat).
Notation chain := (run_chain io sf tt_direct mailbox_stalled).
Notation step k := (step_block io sf tt tt_direct mailbox_stalled malloc_ok exit_addr tfuel k).
Notation rv_step k := (rv_step io sf tt tt_direct mailbox_stalled malloc_ok cycle_per_step exit_addr tfuel k).

Lemma run_chain_split k map t rv w c pc :
  chain (S k) map t rv w c pc =
  match chain 1 map t rv w c pc with
  | (map, rv, w, Running t c pc) => chain k map t rv w c pc
  | r => r
  end.
Proof. cbn [run_chain]. repeat case_match; done. Qed.

(** More fuel for chains matters only to those that were cut short. *)
Lemma step_block_again k m m' : step 1 m = (m', Again) -> step (S k) m = (m', Again).
Proof.
  unfold step_block. destruct (find_or_translate _ _ _ _ _) as [[m1 [b|]]|]; [|done..]. cbv zeta.
  rewrite (run_chain_split k). by destruct (chain 1 _ _ _ _ _ _) as [[[map rv] w] [[]| |]].
Qed.
Lemma step_block_unfinished k m m' t c pc t' c' pc' :
  step 1 m = (m', Unfinished t c pc) ->
  (chain k m'.(m_map) t m'.(m_rv) m'.(m_w) c pc).2 = Running t' c' pc' ->
  (step (S k) m).2 = Unfinished t' c' pc'.
Proof.
  unfold step_block. destruct (find_or_translate _ _ _ _ _) as [[m1 [b|]]|]; [|done..]. cbv zeta.
  rewrite (run_chain_split k). destruct (chain 1 _ _ _ _ _ _) as [[[map rv] w] [[]| |]]; try done.
  intros [= <- -> -> ->]. cbn [m_map m_rv m_w set_w set_rv set_map].
  destruct (chain k _ _ _ _ _ _) as [[[map' rv'] w'] e]. cbn [snd]. by intros ->.
Qed.
End endless.

Lemma find_loop_update (h : block_t -> block_t) fuel s mask i a :
  (forall b, (h b).(pc_start) = b.(pc_start)) ->
  find_loop fuel (List.map (option_map h) s) mask i a =
  option_map (option_map h) (find_loop fuel s mask i a).
Proof.
  intros Hh. revert i. induction fuel as [|fuel IH]; intros i; [done|]. cbn [find_loop].
  assert (List.map (option_map h) s !!! Z.to_nat (i &. mask) =
    option_map h (s !!! Z.to_nat (i &. mask))) as ->.
  { rewrite !list_lookup_total_alt. change (List.map (option_map h) s) with (option_map h <$> s).
    rewrite list_lookup_fmap. by destruct (s !! _). }
  destruct (s !!! _) as [b|]; [|done]. cbn [option_map]. rewrite Hh. by destruct (_ =? _).
Qed.

Lemma find_block_update map a b f :
  find_block map a = Some b -> (forall b, (f b).(pc_start) = b.(pc_start)) ->
  find_block (map_update map a f) a = Some (f b).
Proof.
  unfold find_block, block_find. intros Hb Hf. cbn [map_update slots block_capacity].
  rewrite find_loop_update by (intros b'; by destruct (_ =? _)).
  destruct (find_loop _ _ _ _ _) as [[b'|]|] eqn:E; try done. cbn in Hb |- *. injection Hb as ->.
  assert (pc_start b = a) as ->; [|by rewrite Z.eqb_refl].
  revert E. generalize (map_hash a). generalize (Z.to_nat (block_capacity map)).
  intros n. induction n as [|n IH]; intros i; [done|]. cbn [find_loop].
  destruct (_ !!! _) as [b'|]; [|done]. destruct (Z.eqb_spec (pc_start b') a); [congruence | apply IH].
Qed.

(** The block of the loop, linked to itself. *)
Definition self_linked (b : block_t) : Prop :=
  b.(ir_list) = update_last (fun ir => ir_set_branch_taken ir (Some 0))
    (default [] (ir_list <$> block_translate true false loop_code [] 8 0)).
Notation loop_chain := (run_chain no_tensix sf_zero (fun _ _ w => (w, true)) (fun _ _ => false)).

Lemma self_chain k map b rv w c :
  find_block map 0 = Some b -> self_linked b ->
  exists c', (loop_chain k map 0 rv w c 0).2 = Running 0 c' 0.
Proof.
  revert map b rv c. induction k as [|k IH]; intros map b rv c Hb Hs; [by exists c|].
  cbn [run_chain]. rewrite Hb. pose proof Hs as Hl. unfold self_linked in Hl.
  set (irs := update_last _ _) in Hl. rewrite Hl.
  set (r := exec_block _ _ _ _ _ irs _ _ _ _).
  assert (exists rv' c', r = (rv', w, Chained 0 c' 0 None)) as (rv' & c' & ->)
    by (unfold r; vm_compute irs; by eexists _, _).
  apply (IH _ (update_tail (fun ir => ir_set_branch_table ir None) b)).
  - by apply find_block_update.
  - unfold self_linked. fold irs. cbn [update_tail ir_list]. rewrite Hl. by vm_compute.
Qed.

