(* ===== verification/Float32.v ===== *)
(** * Single-precision arithmetic of the host

    The coprocessor computes on the host's [float].  A value is its 32-bit
    pattern; the operations decode it into the standard library's [SpecFloat]
    (precision 24, largest exponent 128), compute with round to nearest even
    and encode the result.  SSE gives the results that IEEE 754 leaves open:
    an operation with a NaN operand returns the first one, made quiet; an
    invalid operation returns the default NaN; a conversion to [int] out of
    range returns [0x80000000]. *)

From Stdlib Require Import ZArith Lia Bool SpecFloat.
From stdpp Require Import base numbers.
From S2P Require Import Prelude.

Definition f32_sign (b : Z) : bool := nz (bits 31 1 b).
Definition f32_exp (b : Z) : Z := bits 23 8 b.
Definition f32_man (b : Z) : Z := bits 0 23 b.

Definition f32_is_nan (b : Z) : bool := (f32_exp b =? 255) && nz (f32_man b).

Definition f32_decode (b : Z) : spec_float :=
  let s := f32_sign b in
  let m := f32_man b in
  if f32_exp b =? 255 then if m =? 0 then S754_infinity s else S754_nan
  else if f32_exp b =? 0 then
    match m with Zpos p => S754_finite s p (-149) | _ => S754_zero s end
  else
    match m + 2 ^ 23 with
    | Zpos p => S754_finite s p (f32_exp b - 150)
    | _ => S754_zero s
    end.

Definition f32_nan_default : Z := 0xffc00000.

Definition f32_encode (x : spec_float) : Z :=
  match x with
  | S754_zero s => b2z s * 2 ^ 31
  | S754_infinity s => b2z s * 2 ^ 31 + 255 * 2 ^ 23
  | S754_nan => f32_nan_default
  | S754_finite s m e =>
      if Zpos m <? 2 ^ 23 then b2z s * 2 ^ 31 + Zpos m
      else b2z s * 2 ^ 31 + (e + 150) * 2 ^ 23 + (Zpos m - 2 ^ 23)
  end.

Definition f32_quiet (b : Z) : Z := b |. 0x400000.

Definition f32_op (op : spec_float -> spec_float -> spec_float) (a b : Z) : Z :=
  if f32_is_nan a then f32_quiet a
  else if f32_is_nan b then f32_quiet b
  else f32_encode (op (f32_decode a) (f32_decode b)).

Definition f32_add : Z -> Z -> Z := f32_op (SFadd 24 128).
Definition f32_sub : Z -> Z -> Z := f32_op (SFsub 24 128).
Definition f32_mul : Z -> Z -> Z := f32_op (SFmul 24 128).

(** [a < b]; false when an operand is a NaN. *)
Definition f32_lt (a b : Z) : bool := SFltb (f32_decode a) (f32_decode b).

(** [-a], [fabsf a] and [copysignf a b] act on the sign bit alone. *)
Definition f32_neg (a : Z) : Z := a ^. 0x80000000.
Definition f32_abs (a : Z) : Z := a &. 0x7fffffff.
Definition f32_copysign (a b : Z) : Z := (a &. 0x7fffffff) |. (b &. 0x80000000).

(** [(float)z] *)
Definition f32_of_Z (z : Z) : Z := f32_encode (binary_normalize 24 128 z 0 false).

(** [(int32_t)f]: truncation. *)
Definition f32_to_i32 (b : Z) : Z :=
  match f32_decode b with
  | S754_zero _ => 0
  | S754_finite s m e =>
      let v := if 0 <=? e then Zpos m * 2 ^ e else Zpos m / 2 ^ (- e) in
      let v := if s then - v else v in
      if (- 2 ^ 31 <=? v) && (v <? 2 ^ 31) then v else - 2 ^ 31
  | _ => - 2 ^ 31
  end.

(** ** The encoding is a bijection off the NaNs *)

Lemma f32_fields b :
  word b -> b = b2z (f32_sign b) * 2 ^ 31 + f32_exp b * 2 ^ 23 + f32_man b.
Proof.
  unfold word, f32_sign, f32_exp, f32_man, nz. intros Hb.
  assert (b2z (negb (bits 31 1 b =? 0)) = bits 31 1 b) as ->.
  { pose proof (bits_range 31 1 b ltac:(lia)). destruct (Z.eqb_spec (bits 31 1 b) 0); simpl; lia. }
  unfold bits. norm_pow. div_lia.
Qed.

Lemma f32_exp_range b : 0 <= f32_exp b < 256.
Proof. apply (bits_range 23 8). lia. Qed.
Lemma f32_man_range b : 0 <= f32_man b < 2 ^ 23.
Proof. apply (bits_range 0 23). lia. Qed.

Lemma f32_encode_decode b :
  word b -> f32_is_nan b = false -> f32_encode (f32_decode b) = b.
Proof.
  intros Hb Hn. unfold f32_decode, f32_is_nan in *.
  pose proof (f32_exp_range b). pose proof (f32_man_range b).
  pose proof (f32_fields b Hb) as Hf.
  destruct (Z.eqb_spec (f32_exp b) 255) as [E|E]; cbn [andb] in Hn.
  - unfold nz in Hn. apply negb_false_iff in Hn. rewrite Hn.
    apply Z.eqb_eq in Hn. cbn [f32_encode]. lia.
  - destruct (Z.eqb_spec (f32_exp b) 0) as [E0|E0].
    + destruct (f32_man b) eqn:Em; try lia; cbn [f32_encode]; [lia|].
      destruct (Z.ltb_spec (Zpos p) (2 ^ 23)); lia.
    + destruct (f32_man b + 2 ^ 23) eqn:Em; try lia. cbn [f32_encode].
      destruct (Z.ltb_spec (Zpos p) (2 ^ 23)); lia.
Qed.

Lemma f32_decode_encode s m e :
  2 ^ 23 <= Zpos m < 2 ^ 24 -> -149 <= e <= 104 ->
  f32_decode (f32_encode (S754_finite s m e)) = S754_finite s m e.
Proof.
  intros Hm He. cbn [f32_encode]. replace (Zpos m <? 2 ^ 23) with false by lia.
  set (b := b2z s * 2 ^ 31 + (e + 150) * 2 ^ 23 + (Zpos m - 2 ^ 23)).
  assert (E1 : f32_exp b = e + 150).
  { unfold f32_exp, bits, b. destruct s; cbn [b2z]; norm_pow; div_lia. }
  assert (E2 : f32_man b = Zpos m - 2 ^ 23).
  { unfold f32_man, bits, b. destruct s; cbn [b2z]; norm_pow; div_lia. }
  assert (E3 : f32_sign b = s).
  { unfold f32_sign, nz, bits, b. destruct s; cbn [b2z]; norm_pow.
    - replace (_ mod _) with 1 by div_lia. done.
    - replace (_ mod _) with 0 by div_lia. done. }
  unfold f32_decode. rewrite E1, E2, E3.
  replace (e + 150 =? 255) with false by lia. replace (e + 150 =? 0) with false by lia.
  replace (Zpos m - 2 ^ 23 + 2 ^ 23) with (Zpos m) by lia. f_equal. lia.
Qed.

(** ** Integers below 2^24 are exact *)

Lemma digits2_bound p : 2 ^ (Zpos (digits2_pos p) - 1) <= Zpos p < 2 ^ Zpos (digits2_pos p).
Proof.
  induction p as [p IH|p IH|]; cbn [digits2_pos]; [| |done];
    rewrite Pos2Z.inj_succ; (replace (Z.succ _ - 1) with (Zpos (digits2_pos p) - 1 + 1) by lia);
    rewrite Z.pow_add_r, Z.pow_succ_r by lia; lia.
Qed.

Lemma digits2_unique p n : 2 ^ (n - 1) <= Zpos p < 2 ^ n -> 0 < n -> Zpos (digits2_pos p) = n.
Proof.
  intros Hp Hn. pose proof (digits2_bound p) as Hd. set (d := Zpos (digits2_pos p)) in *.
  destruct (Z.lt_trichotomy d n) as [H|[H|H]]; [|done|].
  - pose proof (Z.pow_le_mono_r 2 d (n - 1) ltac:(lia) ltac:(lia)). lia.
  - pose proof (Z.pow_le_mono_r 2 n (d - 1) ltac:(lia) ltac:(lia)). lia.
Qed.

Lemma iter_xO p k : Zpos (Pos.iter xO p k) = Zpos p * 2 ^ Zpos k.
Proof.
  induction k as [|k IH] using Pos.peano_ind; [cbn; lia|].
  rewrite Pos.iter_succ, Pos2Z.inj_xO, IH, Pos2Z.inj_succ, Z.pow_succ_r by lia. lia.
Qed.

Lemma digits2_24 p : Zpos p < 2 ^ 24 -> 1 <= Zpos (digits2_pos p) <= 24.
Proof.
  intros Hp. split; [lia|]. destruct (Z_lt_le_dec 24 (Zpos (digits2_pos p))); [|done].
  pose proof (digits2_bound p).
  pose proof (Z.pow_le_mono_r 2 24 (Zpos (digits2_pos p) - 1) ltac:(lia) ltac:(lia)). lia.
Qed.

(** The float of a nonzero integer below [2^24]: its digits moved up to 24. *)
Lemma binary_round_exact s p :
  Zpos p < 2 ^ 24 ->
  exists m, binary_round 24 128 s p 0 = S754_finite s m (Zpos (digits2_pos p) - 24) /\
    Zpos m = Zpos p * 2 ^ (24 - Zpos (digits2_pos p)) /\ 2 ^ 23 <= Zpos m < 2 ^ 24.
Proof.
  intros Hp. pose proof (digits2_bound p) as Hd. set (d := Zpos (digits2_pos p)) in *.
  pose proof (digits2_24 p Hp) as H24. fold d in H24.
  assert (Hm : exists m, shl_align p 0 (d - 24) = (m, d - 24) /\ Zpos m = Zpos p * 2 ^ (24 - d)).
  { unfold shl_align. rewrite Z.sub_0_r. destruct (d - 24) as [|k|k] eqn:E; [| lia |].
    - exists p. replace (24 - d) with 0 by lia. split; [done | lia].
    - exists (Pos.iter xO p k). rewrite iter_xO. replace (24 - d) with (Zpos k) by lia. done. }
  destruct Hm as (m & Ha & Hm). exists m.
  assert (Hb : 2 ^ 23 <= Zpos m < 2 ^ 24).
  { rewrite Hm. change (2 ^ 23) with (2 ^ (24 - 1)).
    replace (24 - 1) with ((d - 1) + (24 - d)) by lia.
    replace (2 ^ 24) with (2 ^ d * 2 ^ (24 - d)) by (rewrite <- Z.pow_add_r by lia; f_equal; lia).
    rewrite Z.pow_add_r by lia. nia. }
  split; [|done]. unfold binary_round. fold d.
  replace (fexp 24 128 (d + 0)) with (d - 24) by (unfold fexp, emin; lia). rewrite Ha.
  assert (Hs : shr_fexp 24 128 (Zpos m) (d - 24) loc_Exact =
               ({| shr_m := Zpos m; shr_r := false; shr_s := false |}, d - 24)).
  { unfold shr_fexp. cbn [Zdigits2]. rewrite (digits2_unique m 24) by (done || lia).
    replace (fexp 24 128 (24 + (d - 24)) - (d - 24)) with 0 by (unfold fexp, emin; lia). done. }
  unfold binary_round_aux. rewrite Hs. cbn [shr_m loc_of_shr_record round_nearest_even].
  rewrite Hs. cbn [shr_m]. by replace (d - 24 <=? 128 - 24) with true by lia.
Qed.

Lemma f32_to_i32_of_Z z : Z.abs z < 2 ^ 24 -> f32_to_i32 (f32_of_Z z) = z.
Proof.
  intros Hz. unfold f32_of_Z, binary_normalize.
  assert (Hp : forall s p, Zpos p < 2 ^ 24 ->
    f32_to_i32 (f32_encode (binary_round 24 128 s p 0)) = if s then Zneg p else Zpos p).
  { intros s p Hp. destruct (binary_round_exact s p Hp) as (m & -> & Hm & Hb).
    pose proof (digits2_24 p Hp) as Hd. set (d := Zpos (digits2_pos p)) in *.
    unfold f32_to_i32. rewrite f32_decode_encode by lia.
    set (v := if 0 <=? d - 24 then _ else _).
    assert (Hv : v = Zpos p).
    { unfold v. destruct (Z.leb_spec 0 (d - 24)).
      - replace (d - 24) with 0 by lia. rewrite Hm. replace (24 - d) with 0 by lia. lia.
      - rewrite Hm. replace (- (d - 24)) with (24 - d) by lia.
        apply Z.div_mul. apply Z.pow_nonzero; lia. }
    rewrite Hv. change (2 ^ 24) with 16777216 in *. destruct s; cbn [Z.opp].
    - change (Zneg p) with (- Zpos p).
      by replace ((- 2 ^ 31 <=? - Zpos p) && (- Zpos p <? 2 ^ 31)) with true by lia.
    - by replace ((- 2 ^ 31 <=? Zpos p) && (Zpos p <? 2 ^ 31)) with true by lia. }
  destruct z as [|p|p]; [done | apply (Hp false) | apply (Hp true)]; lia.
Qed.
