(* ===== verification/Tensix.v ===== *)
(** * The state of the Tensix coprocessor (src/tt_cop/tensix.h, tensix_cop.h)

    [tensix_t] and [tensix_cop_t] point at each other; here they are the one
    record [tensix].  An array is a finite map from the flat (row-major)
    index of a cell, absent cells being 0: the state of a structure that
    [memset] has cleared.  The fields of [tensix_t] that no function reads
    ([addr_mod], [pack_configs], [cfg_reg], the templates and the like) are
    left out, as are the memory callbacks of [tensix_cop_t], which are never
    called.  Floats are bit patterns (Float32.v).

    The regions of [tensix_memory_t] are host addresses into the same [heap]
    that the harts use; [u_heap] is the heap while an instruction runs. *)

From Stdlib Require Import ZArith Lia Bool.
From stdpp Require Import base list numbers gmap.
From S2P Require Import Prelude Memory.

(** ** Arrays and loops *)

Notation arr := (gmap Z Z).
Notation flags := (gmap Z bool).

(** A cell of an array of [uint32_t] (or of floats). *)
Definition aget (a : arr) (i : Z) : Z := u32 (default 0 (a !! i)).
Definition aset (a : arr) (i v : Z) : arr := <[i := u32 v]> a.

(** A cell of an array of [bool]. *)
Definition bget (a : flags) (i : Z) : bool := default false (a !! i).
Definition bset (a : flags) (i : Z) (v : bool) : flags := <[i := v]> a.

(** [for (i = lo; i < lo + n; i++) s = f(i, s)] *)
Definition for_loop {S : Type} (lo n : Z) (f : Z -> S -> S) (s : S) : S :=
  fold_left (fun s i => f i s) (seqZ lo n) s.

(** [__builtin_popcount] *)
Definition popcount (z : Z) : Z :=
  for_loop 0 32 (fun i n => n + bits i 1 z) 0.

Definition SRCA_ROWS : Z := 64.
Definition SRCB_ROWS : Z := 64.
Definition DEST_ROWS : Z := 1024.
Definition ROW_SIZE : Z := 16.
Definition LREG_LANES : Z := 32.
Definition DMA_REG_COUNT : Z := 64.
Definition MUTEX_NONE : Z := 0xff.
Definition THD_REG_COUNT : Z := 57.
Definition CFG_STATE_REGS : Z := 56 * 4.
Definition CFG_REG_COUNT : Z := CFG_STATE_REGS * 2.
Definition TENSIX_CFG_OFFSET_IN_HIGH_MEM : Z := 0x3F0000.
Definition FLAG_STACK_DEPTH : Z := 8.
Definition TENSIX_FIFO_SIZE : Z := 32.

(** Flat indices: [src[bank][row][col]], [dest[row][col]], [lreg[r][lane]],
    [thd_reg[tid][r]], [dma_reg[tid][r]], [replay_buffer[tid][i]]. *)
Definition src_ix (bank row col : Z) : Z := (bank * 64 + row) * 16 + col.
Definition dest_ix (row col : Z) : Z := row * 16 + col.
Definition lreg_ix (r lane : Z) : Z := r * 32 + lane.
Definition thd_ix (tid r : Z) : Z := tid * 57 + r.
Definition dma_ix (tid r : Z) : Z := tid * 64 + r.
Definition replay_ix (tid i : Z) : Z := tid * 32 + i.

(** The counters of [AddrCtrl] that [SETADC*] control: channel, dimension
    (x, y, z, w), and whether it is the [_cr] copy; [adc[unit]]. *)
Definition adc_ix (unit ch dim : Z) : Z := unit * 16 + ch * 4 + dim.
Definition adc_cr_ix (unit ch dim : Z) : Z := unit * 16 + 8 + ch * 4 + dim.

(** ** Records *)

(** [tensix_memory_t]: host addresses, 0 for [NULL]. *)
Record tensix_memory : Type := mk_tmem {
  l1_scratchpad : Z; high_mem : Z; t0_ldm : Z; t1_ldm : Z; t2_ldm : Z
}.
Definition set_l1_scratchpad (m : tensix_memory) (a : Z) : tensix_memory :=
  mk_tmem a m.(high_mem) m.(t0_ldm) m.(t1_ldm) m.(t2_ldm).
Definition set_high_mem (m : tensix_memory) (a : Z) : tensix_memory := mk_tmem
  m.(l1_scratchpad) a m.(t0_ldm) m.(t1_ldm) m.(t2_ldm).
Definition set_t0_ldm (m : tensix_memory) (a : Z) : tensix_memory := mk_tmem
  m.(l1_scratchpad) m.(high_mem) a m.(t1_ldm) m.(t2_ldm).
Definition set_t1_ldm (m : tensix_memory) (a : Z) : tensix_memory := mk_tmem
  m.(l1_scratchpad) m.(high_mem) m.(t0_ldm) a m.(t2_ldm).
Definition set_t2_ldm (m : tensix_memory) (a : Z) : tensix_memory := mk_tmem
  m.(l1_scratchpad) m.(high_mem) m.(t0_ldm) m.(t1_ldm) a.

(** The source banks ([srca[2][64][16]], [srcb[2][64][16]]), the destination
    register ([dest[1024][16]]), who owns which bank, and the packer. *)
Record matrix : Type := mk_matrix {
  srca : arr; srcb : arr; srca_dvalid : flags; srcb_dvalid : flags;
  srcb_zeroed : flags; unp_srca_bank : Z; unp_srcb_bank : Z;
  math_srca_bank : Z; math_srcb_bank : Z; last_unp_srca_bank : Z;
  mova2d_bank_valid : bool; dest : arr; dest_dvalid : bool;
  pack_l1_write_offset : Z; pack_l1_dest_addr_raw : Z; neginf : Z
}.
Definition set_srca (m : matrix) (a : arr) : matrix := mk_matrix a m.(srcb)
  m.(srca_dvalid) m.(srcb_dvalid) m.(srcb_zeroed) m.(unp_srca_bank)
  m.(unp_srcb_bank) m.(math_srca_bank) m.(math_srcb_bank)
  m.(last_unp_srca_bank) m.(mova2d_bank_valid) m.(dest) m.(dest_dvalid)
  m.(pack_l1_write_offset) m.(pack_l1_dest_addr_raw) m.(neginf).
Definition set_srcb (m : matrix) (a : arr) : matrix := mk_matrix m.(srca) a
  m.(srca_dvalid) m.(srcb_dvalid) m.(srcb_zeroed) m.(unp_srca_bank)
  m.(unp_srcb_bank) m.(math_srca_bank) m.(math_srcb_bank)
  m.(last_unp_srca_bank) m.(mova2d_bank_valid) m.(dest) m.(dest_dvalid)
  m.(pack_l1_write_offset) m.(pack_l1_dest_addr_raw) m.(neginf).
Definition set_srca_dvalid (m : matrix) (a : flags) : matrix := mk_matrix
  m.(srca) m.(srcb) a m.(srcb_dvalid) m.(srcb_zeroed) m.(unp_srca_bank)
  m.(unp_srcb_bank) m.(math_srca_bank) m.(math_srcb_bank)
  m.(last_unp_srca_bank) m.(mova2d_bank_valid) m.(dest) m.(dest_dvalid)
  m.(pack_l1_write_offset) m.(pack_l1_dest_addr_raw) m.(neginf).
Definition set_srcb_dvalid (m : matrix) (a : flags) : matrix := mk_matrix
  m.(srca) m.(srcb) m.(srca_dvalid) a m.(srcb_zeroed) m.(unp_srca_bank)
  m.(unp_srcb_bank) m.(math_srca_bank) m.(math_srcb_bank)
  m.(last_unp_srca_bank) m.(mova2d_bank_valid) m.(dest) m.(dest_dvalid)
  m.(pack_l1_write_offset) m.(pack_l1_dest_addr_raw) m.(neginf).
Definition set_srcb_zeroed (m : matrix) (a : flags) : matrix := mk_matrix
  m.(srca) m.(srcb) m.(srca_dvalid) m.(srcb_dvalid) a m.(unp_srca_bank)
  m.(unp_srcb_bank) m.(math_srca_bank) m.(math_srcb_bank)
  m.(last_unp_srca_bank) m.(mova2d_bank_valid) m.(dest) m.(dest_dvalid)
  m.(pack_l1_write_offset) m.(pack_l1_dest_addr_raw) m.(neginf).
Definition set_unp_srca_bank (m : matrix) (a : Z) : matrix := mk_matrix
  m.(srca) m.(srcb) m.(srca_dvalid) m.(srcb_dvalid) m.(srcb_zeroed) a
  m.(unp_srcb_bank) m.(math_srca_bank) m.(math_srcb_bank)
  m.(last_unp_srca_bank) m.(mova2d_bank_valid) m.(dest) m.(dest_dvalid)
  m.(pack_l1_write_offset) m.(pack_l1_dest_addr_raw) m.(neginf).
Definition set_unp_srcb_bank (m : matrix) (a : Z) : matrix := mk_matrix
  m.(srca) m.(srcb) m.(srca_dvalid) m.(srcb_dvalid) m.(srcb_zeroed)
  m.(unp_srca_bank) a m.(math_srca_bank) m.(math_srcb_bank)
  m.(last_unp_srca_bank) m.(mova2d_bank_valid) m.(dest) m.(dest_dvalid)
  m.(pack_l1_write_offset) m.(pack_l1_dest_addr_raw) m.(neginf).
Definition set_math_srca_bank (m : matrix) (a : Z) : matrix := mk_matrix
  m.(srca) m.(srcb) m.(srca_dvalid) m.(srcb_dvalid) m.(srcb_zeroed)
  m.(unp_srca_bank) m.(unp_srcb_bank) a m.(math_srcb_bank)
  m.(last_unp_srca_bank) m.(mova2d_bank_valid) m.(dest) m.(dest_dvalid)
  m.(pack_l1_write_offset) m.(pack_l1_dest_addr_raw) m.(neginf).
Definition set_math_srcb_bank (m : matrix) (a : Z) : matrix := mk_matrix
  m.(srca) m.(srcb) m.(srca_dvalid) m.(srcb_dvalid) m.(srcb_zeroed)
  m.(unp_srca_bank) m.(unp_srcb_bank) m.(math_srca_bank) a
  m.(last_unp_srca_bank) m.(mova2d_bank_valid) m.(dest) m.(dest_dvalid)
  m.(pack_l1_write_offset) m.(pack_l1_dest_addr_raw) m.(neginf).
Definition set_last_unp_srca_bank (m : matrix) (a : Z) : matrix := mk_matrix
  m.(srca) m.(srcb) m.(srca_dvalid) m.(srcb_dvalid) m.(srcb_zeroed)
  m.(unp_srca_bank) m.(unp_srcb_bank) m.(math_srca_bank) m.(math_srcb_bank) a
  m.(mova2d_bank_valid) m.(dest) m.(dest_dvalid) m.(pack_l1_write_offset)
  m.(pack_l1_dest_addr_raw) m.(neginf).
Definition set_mova2d_bank_valid (m : matrix) (a : bool) : matrix := mk_matrix
  m.(srca) m.(srcb) m.(srca_dvalid) m.(srcb_dvalid) m.(srcb_zeroed)
  m.(unp_srca_bank) m.(unp_srcb_bank) m.(math_srca_bank) m.(math_srcb_bank)
  m.(last_unp_srca_bank) a m.(dest) m.(dest_dvalid) m.(pack_l1_write_offset)
  m.(pack_l1_dest_addr_raw) m.(neginf).
Definition set_dest (m : matrix) (a : arr) : matrix := mk_matrix m.(srca)
  m.(srcb) m.(srca_dvalid) m.(srcb_dvalid) m.(srcb_zeroed) m.(unp_srca_bank)
  m.(unp_srcb_bank) m.(math_srca_bank) m.(math_srcb_bank)
  m.(last_unp_srca_bank) m.(mova2d_bank_valid) a m.(dest_dvalid)
  m.(pack_l1_write_offset) m.(pack_l1_dest_addr_raw) m.(neginf).
Definition set_dest_dvalid (m : matrix) (a : bool) : matrix := mk_matrix
  m.(srca) m.(srcb) m.(srca_dvalid) m.(srcb_dvalid) m.(srcb_zeroed)
  m.(unp_srca_bank) m.(unp_srcb_bank) m.(math_srca_bank) m.(math_srcb_bank)
  m.(last_unp_srca_bank) m.(mova2d_bank_valid) m.(dest) a
  m.(pack_l1_write_offset) m.(pack_l1_dest_addr_raw) m.(neginf).
Definition set_pack_l1_write_offset (m : matrix) (a : Z) : matrix := mk_matrix
  m.(srca) m.(srcb) m.(srca_dvalid) m.(srcb_dvalid) m.(srcb_zeroed)
  m.(unp_srca_bank) m.(unp_srcb_bank) m.(math_srca_bank) m.(math_srcb_bank)
  m.(last_unp_srca_bank) m.(mova2d_bank_valid) m.(dest) m.(dest_dvalid) a
  m.(pack_l1_dest_addr_raw) m.(neginf).
Definition set_pack_l1_dest_addr_raw (m : matrix) (a : Z) : matrix :=
  mk_matrix m.(srca) m.(srcb) m.(srca_dvalid) m.(srcb_dvalid) m.(srcb_zeroed)
  m.(unp_srca_bank) m.(unp_srcb_bank) m.(math_srca_bank) m.(math_srcb_bank)
  m.(last_unp_srca_bank) m.(mova2d_bank_valid) m.(dest) m.(dest_dvalid)
  m.(pack_l1_write_offset) a m.(neginf).
Definition set_neginf (m : matrix) (a : Z) : matrix := mk_matrix m.(srca)
  m.(srcb) m.(srca_dvalid) m.(srcb_dvalid) m.(srcb_zeroed) m.(unp_srca_bank)
  m.(unp_srcb_bank) m.(math_srca_bank) m.(math_srcb_bank)
  m.(last_unp_srca_bank) m.(mova2d_bank_valid) m.(dest) m.(dest_dvalid)
  m.(pack_l1_write_offset) m.(pack_l1_dest_addr_raw) a.

(** The read and write counters, per thread. *)
Record rwcs : Type := mk_rwcs {
  srca_rwc : arr; srca_rwc_cr : arr; srcb_rwc : arr; srcb_rwc_cr : arr;
  dest_rwc : arr; dest_rwc_cr : arr; fidelity : arr
}.
Definition set_srca_rwc (r : rwcs) (a : arr) : rwcs := mk_rwcs a
  r.(srca_rwc_cr) r.(srcb_rwc) r.(srcb_rwc_cr) r.(dest_rwc) r.(dest_rwc_cr)
  r.(fidelity).
Definition set_srca_rwc_cr (r : rwcs) (a : arr) : rwcs := mk_rwcs r.(srca_rwc)
  a r.(srcb_rwc) r.(srcb_rwc_cr) r.(dest_rwc) r.(dest_rwc_cr) r.(fidelity).
Definition set_srcb_rwc (r : rwcs) (a : arr) : rwcs := mk_rwcs r.(srca_rwc)
  r.(srca_rwc_cr) a r.(srcb_rwc_cr) r.(dest_rwc) r.(dest_rwc_cr) r.(fidelity).
Definition set_srcb_rwc_cr (r : rwcs) (a : arr) : rwcs := mk_rwcs r.(srca_rwc)
  r.(srca_rwc_cr) r.(srcb_rwc) a r.(dest_rwc) r.(dest_rwc_cr) r.(fidelity).
Definition set_dest_rwc (r : rwcs) (a : arr) : rwcs := mk_rwcs r.(srca_rwc)
  r.(srca_rwc_cr) r.(srcb_rwc) r.(srcb_rwc_cr) a r.(dest_rwc_cr) r.(fidelity).
Definition set_dest_rwc_cr (r : rwcs) (a : arr) : rwcs := mk_rwcs r.(srca_rwc)
  r.(srca_rwc_cr) r.(srcb_rwc) r.(srcb_rwc_cr) r.(dest_rwc) a r.(fidelity).
Definition set_fidelity (r : rwcs) (a : arr) : rwcs := mk_rwcs r.(srca_rwc)
  r.(srca_rwc_cr) r.(srcb_rwc) r.(srcb_rwc_cr) r.(dest_rwc) r.(dest_rwc_cr) a.

(** Mutexes and semaphores. *)
Record syncs : Type := mk_syncs {
  mutex : arr; sem : arr; sem_max : arr
}.
Definition set_mutex (s : syncs) (a : arr) : syncs := mk_syncs a s.(sem)
  s.(sem_max).
Definition set_sem (s : syncs) (a : arr) : syncs := mk_syncs s.(mutex) a
  s.(sem_max).
Definition set_sem_max (s : syncs) (a : arr) : syncs := mk_syncs s.(mutex)
  s.(sem) a.

(** The vector unit: [lreg[17][32]], the flags of each lane and the stack
    [flag_stack[8]] of flags. *)
Record sfpu : Type := mk_sfpu {
  prng_state : arr; lreg : arr; lane_flags : flags; use_lane_flags :
  flags; stack_lane_flags : flags; stack_use_lane_flags : flags;
  flag_stack_top : Z
}.
Definition set_prng_state (s : sfpu) (a : arr) : sfpu := mk_sfpu a s.(lreg)
  s.(lane_flags) s.(use_lane_flags) s.(stack_lane_flags)
  s.(stack_use_lane_flags) s.(flag_stack_top).
Definition set_lreg (s : sfpu) (a : arr) : sfpu := mk_sfpu s.(prng_state) a
  s.(lane_flags) s.(use_lane_flags) s.(stack_lane_flags)
  s.(stack_use_lane_flags) s.(flag_stack_top).
Definition set_lane_flags (s : sfpu) (a : flags) : sfpu := mk_sfpu
  s.(prng_state) s.(lreg) a s.(use_lane_flags) s.(stack_lane_flags)
  s.(stack_use_lane_flags) s.(flag_stack_top).
Definition set_use_lane_flags (s : sfpu) (a : flags) : sfpu := mk_sfpu
  s.(prng_state) s.(lreg) s.(lane_flags) a s.(stack_lane_flags)
  s.(stack_use_lane_flags) s.(flag_stack_top).
Definition set_stack_lane_flags (s : sfpu) (a : flags) : sfpu := mk_sfpu
  s.(prng_state) s.(lreg) s.(lane_flags) s.(use_lane_flags) a
  s.(stack_use_lane_flags) s.(flag_stack_top).
Definition set_stack_use_lane_flags (s : sfpu) (a : flags) : sfpu := mk_sfpu
  s.(prng_state) s.(lreg) s.(lane_flags) s.(use_lane_flags)
  s.(stack_lane_flags) a s.(flag_stack_top).
Definition set_flag_stack_top (s : sfpu) (a : Z) : sfpu := mk_sfpu
  s.(prng_state) s.(lreg) s.(lane_flags) s.(use_lane_flags)
  s.(stack_lane_flags) s.(stack_use_lane_flags) a.

(** The replay expander, per thread ([replay_buffer[3][32]]). *)
Record replays : Type := mk_replays {
  replay_buffer : arr; replay_index : arr; replay_left : arr;
  replay_execute_while_loading : flags; replay_recording : flags;
  replay_expanding : flags; replay_expand_start : arr; replay_expand_count
  : arr; replay_expand_current : arr
}.
Definition set_replay_buffer (r : replays) (a : arr) : replays := mk_replays a
  r.(replay_index) r.(replay_left) r.(replay_execute_while_loading)
  r.(replay_recording) r.(replay_expanding) r.(replay_expand_start)
  r.(replay_expand_count) r.(replay_expand_current).
Definition set_replay_index (r : replays) (a : arr) : replays := mk_replays
  r.(replay_buffer) a r.(replay_left) r.(replay_execute_while_loading)
  r.(replay_recording) r.(replay_expanding) r.(replay_expand_start)
  r.(replay_expand_count) r.(replay_expand_current).
Definition set_replay_left (r : replays) (a : arr) : replays := mk_replays
  r.(replay_buffer) r.(replay_index) a r.(replay_execute_while_loading)
  r.(replay_recording) r.(replay_expanding) r.(replay_expand_start)
  r.(replay_expand_count) r.(replay_expand_current).
Definition set_replay_execute_while_loading (r : replays) (a : flags) :
  replays := mk_replays r.(replay_buffer) r.(replay_index) r.(replay_left) a
  r.(replay_recording) r.(replay_expanding) r.(replay_expand_start)
  r.(replay_expand_count) r.(replay_expand_current).
Definition set_replay_recording (r : replays) (a : flags) : replays :=
  mk_replays r.(replay_buffer) r.(replay_index) r.(replay_left)
  r.(replay_execute_while_loading) a r.(replay_expanding)
  r.(replay_expand_start) r.(replay_expand_count) r.(replay_expand_current).
Definition set_replay_expanding (r : replays) (a : flags) : replays :=
  mk_replays r.(replay_buffer) r.(replay_index) r.(replay_left)
  r.(replay_execute_while_loading) r.(replay_recording) a
  r.(replay_expand_start) r.(replay_expand_count) r.(replay_expand_current).
Definition set_replay_expand_start (r : replays) (a : arr) : replays :=
  mk_replays r.(replay_buffer) r.(replay_index) r.(replay_left)
  r.(replay_execute_while_loading) r.(replay_recording) r.(replay_expanding) a
  r.(replay_expand_count) r.(replay_expand_current).
Definition set_replay_expand_count (r : replays) (a : arr) : replays :=
  mk_replays r.(replay_buffer) r.(replay_index) r.(replay_left)
  r.(replay_execute_while_loading) r.(replay_recording) r.(replay_expanding)
  r.(replay_expand_start) a r.(replay_expand_current).
Definition set_replay_expand_current (r : replays) (a : arr) : replays :=
  mk_replays r.(replay_buffer) r.(replay_index) r.(replay_left)
  r.(replay_execute_while_loading) r.(replay_recording) r.(replay_expanding)
  r.(replay_expand_start) r.(replay_expand_count) a.

(** What an instruction acts on: everything of [tensix_t] but the mailboxes
    and the state of the dispatcher.  [adc] is [AddrCtrl adc[3]], [thd_reg] is
    [thd_reg[3][57]], [dma_reg] is [dma_reg[3][64]]. *)
Record units : Type := mk_units {
  u_mem : tensix_memory; u_heap : heap; u_matrix : matrix; u_rwc : rwcs;
  adc : arr; u_sync : syncs; thd_reg : arr; dma_reg : arr; u_sfpu : sfpu;
  u_replay : replays
}.
Definition set_u_mem (u : units) (a : tensix_memory) : units := mk_units a
  u.(u_heap) u.(u_matrix) u.(u_rwc) u.(adc) u.(u_sync) u.(thd_reg) u.(dma_reg)
  u.(u_sfpu) u.(u_replay).
Definition set_u_heap (u : units) (a : heap) : units := mk_units u.(u_mem) a
  u.(u_matrix) u.(u_rwc) u.(adc) u.(u_sync) u.(thd_reg) u.(dma_reg) u.(u_sfpu)
  u.(u_replay).
Definition set_u_matrix (u : units) (a : matrix) : units := mk_units u.(u_mem)
  u.(u_heap) a u.(u_rwc) u.(adc) u.(u_sync) u.(thd_reg) u.(dma_reg) u.(u_sfpu)
  u.(u_replay).
Definition set_u_rwc (u : units) (a : rwcs) : units := mk_units u.(u_mem)
  u.(u_heap) u.(u_matrix) a u.(adc) u.(u_sync) u.(thd_reg) u.(dma_reg)
  u.(u_sfpu) u.(u_replay).
Definition set_adc (u : units) (a : arr) : units := mk_units u.(u_mem)
  u.(u_heap) u.(u_matrix) u.(u_rwc) a u.(u_sync) u.(thd_reg) u.(dma_reg)
  u.(u_sfpu) u.(u_replay).
Definition set_u_sync (u : units) (a : syncs) : units := mk_units u.(u_mem)
  u.(u_heap) u.(u_matrix) u.(u_rwc) u.(adc) a u.(thd_reg) u.(dma_reg)
  u.(u_sfpu) u.(u_replay).
Definition set_thd_reg (u : units) (a : arr) : units := mk_units u.(u_mem)
  u.(u_heap) u.(u_matrix) u.(u_rwc) u.(adc) u.(u_sync) a u.(dma_reg)
  u.(u_sfpu) u.(u_replay).
Definition set_dma_reg (u : units) (a : arr) : units := mk_units u.(u_mem)
  u.(u_heap) u.(u_matrix) u.(u_rwc) u.(adc) u.(u_sync) u.(thd_reg) a
  u.(u_sfpu) u.(u_replay).
Definition set_u_sfpu (u : units) (a : sfpu) : units := mk_units u.(u_mem)
  u.(u_heap) u.(u_matrix) u.(u_rwc) u.(adc) u.(u_sync) u.(thd_reg) u.(dma_reg)
  a u.(u_replay).
Definition set_u_replay (u : units) (a : replays) : units := mk_units
  u.(u_mem) u.(u_heap) u.(u_matrix) u.(u_rwc) u.(adc) u.(u_sync) u.(thd_reg)
  u.(dma_reg) u.(u_sfpu) a.

Record tensix_fifo : Type := mk_fifo {
  buffer : arr; head : Z; tail : Z; count : Z
}.
Definition set_buffer (f : tensix_fifo) (a : arr) : tensix_fifo := mk_fifo a
  f.(head) f.(tail) f.(count).
Definition set_head (f : tensix_fifo) (a : Z) : tensix_fifo := mk_fifo
  f.(buffer) a f.(tail) f.(count).
Definition set_tail (f : tensix_fifo) (a : Z) : tensix_fifo := mk_fifo
  f.(buffer) f.(head) a f.(count).
Definition set_count (f : tensix_fifo) (a : Z) : tensix_fifo := mk_fifo
  f.(buffer) f.(head) f.(tail) a.

Record tensix_wait_gate : Type := mk_gate {
  active : bool; gate_opcode : Z; condition_mask : Z; block_mask : Z;
  semaphore_mask : Z; target_value : Z; stream_select : Z
}.
Definition set_active (g : tensix_wait_gate) (a : bool) : tensix_wait_gate :=
  mk_gate a g.(gate_opcode) g.(condition_mask) g.(block_mask)
  g.(semaphore_mask) g.(target_value) g.(stream_select).
Definition set_gate_opcode (g : tensix_wait_gate) (a : Z) : tensix_wait_gate
  := mk_gate g.(active) a g.(condition_mask) g.(block_mask) g.(semaphore_mask)
  g.(target_value) g.(stream_select).
Definition set_condition_mask (g : tensix_wait_gate) (a : Z) :
  tensix_wait_gate := mk_gate g.(active) g.(gate_opcode) a g.(block_mask)
  g.(semaphore_mask) g.(target_value) g.(stream_select).
Definition set_block_mask (g : tensix_wait_gate) (a : Z) : tensix_wait_gate :=
  mk_gate g.(active) g.(gate_opcode) g.(condition_mask) a g.(semaphore_mask)
  g.(target_value) g.(stream_select).
Definition set_semaphore_mask (g : tensix_wait_gate) (a : Z) :
  tensix_wait_gate := mk_gate g.(active) g.(gate_opcode) g.(condition_mask)
  g.(block_mask) a g.(target_value) g.(stream_select).
Definition set_target_value (g : tensix_wait_gate) (a : Z) : tensix_wait_gate
  := mk_gate g.(active) g.(gate_opcode) g.(condition_mask) g.(block_mask)
  g.(semaphore_mask) a g.(stream_select).
Definition set_stream_select (g : tensix_wait_gate) (a : Z) : tensix_wait_gate
  := mk_gate g.(active) g.(gate_opcode) g.(condition_mask) g.(block_mask)
  g.(semaphore_mask) g.(target_value) a.

Inductive tensix_thread_state : Type :=
  | THREAD_STATE_IDLE | THREAD_STATE_RUNNING | THREAD_STATE_WAITING | THREAD_STATE_STALLED.

Record mop_expand_state : Type := mk_mop {
  mop_active : bool; tmpl : Z; tmpl0_mask : Z; tmpl0_i : Z; tmpl0_count :
  Z; tmpl0_sub : Z; tmpl0_num_sub : Z; tmpl0_sub_insns : arr; tmpl1_j : Z;
  tmpl1_i : Z; tmpl1_outer : Z; tmpl1_inner : Z; tmpl1_phase : Z;
  tmpl1_loop_op : Z; tmpl1_loop_op_flip : Z
}.
Definition set_mop_active (m : mop_expand_state) (a : bool) : mop_expand_state
  := mk_mop a m.(tmpl) m.(tmpl0_mask) m.(tmpl0_i) m.(tmpl0_count)
  m.(tmpl0_sub) m.(tmpl0_num_sub) m.(tmpl0_sub_insns) m.(tmpl1_j) m.(tmpl1_i)
  m.(tmpl1_outer) m.(tmpl1_inner) m.(tmpl1_phase) m.(tmpl1_loop_op)
  m.(tmpl1_loop_op_flip).
Definition set_tmpl (m : mop_expand_state) (a : Z) : mop_expand_state :=
  mk_mop m.(mop_active) a m.(tmpl0_mask) m.(tmpl0_i) m.(tmpl0_count)
  m.(tmpl0_sub) m.(tmpl0_num_sub) m.(tmpl0_sub_insns) m.(tmpl1_j) m.(tmpl1_i)
  m.(tmpl1_outer) m.(tmpl1_inner) m.(tmpl1_phase) m.(tmpl1_loop_op)
  m.(tmpl1_loop_op_flip).
Definition set_tmpl0_mask (m : mop_expand_state) (a : Z) : mop_expand_state :=
  mk_mop m.(mop_active) m.(tmpl) a m.(tmpl0_i) m.(tmpl0_count) m.(tmpl0_sub)
  m.(tmpl0_num_sub) m.(tmpl0_sub_insns) m.(tmpl1_j) m.(tmpl1_i)
  m.(tmpl1_outer) m.(tmpl1_inner) m.(tmpl1_phase) m.(tmpl1_loop_op)
  m.(tmpl1_loop_op_flip).
Definition set_tmpl0_i (m : mop_expand_state) (a : Z) : mop_expand_state :=
  mk_mop m.(mop_active) m.(tmpl) m.(tmpl0_mask) a m.(tmpl0_count)
  m.(tmpl0_sub) m.(tmpl0_num_sub) m.(tmpl0_sub_insns) m.(tmpl1_j) m.(tmpl1_i)
  m.(tmpl1_outer) m.(tmpl1_inner) m.(tmpl1_phase) m.(tmpl1_loop_op)
  m.(tmpl1_loop_op_flip).
Definition set_tmpl0_count (m : mop_expand_state) (a : Z) : mop_expand_state
  := mk_mop m.(mop_active) m.(tmpl) m.(tmpl0_mask) m.(tmpl0_i) a m.(tmpl0_sub)
  m.(tmpl0_num_sub) m.(tmpl0_sub_insns) m.(tmpl1_j) m.(tmpl1_i)
  m.(tmpl1_outer) m.(tmpl1_inner) m.(tmpl1_phase) m.(tmpl1_loop_op)
  m.(tmpl1_loop_op_flip).
Definition set_tmpl0_sub (m : mop_expand_state) (a : Z) : mop_expand_state :=
  mk_mop m.(mop_active) m.(tmpl) m.(tmpl0_mask) m.(tmpl0_i) m.(tmpl0_count) a
  m.(tmpl0_num_sub) m.(tmpl0_sub_insns) m.(tmpl1_j) m.(tmpl1_i)
  m.(tmpl1_outer) m.(tmpl1_inner) m.(tmpl1_phase) m.(tmpl1_loop_op)
  m.(tmpl1_loop_op_flip).
Definition set_tmpl0_num_sub (m : mop_expand_state) (a : Z) : mop_expand_state
  := mk_mop m.(mop_active) m.(tmpl) m.(tmpl0_mask) m.(tmpl0_i) m.(tmpl0_count)
  m.(tmpl0_sub) a m.(tmpl0_sub_insns) m.(tmpl1_j) m.(tmpl1_i) m.(tmpl1_outer)
  m.(tmpl1_inner) m.(tmpl1_phase) m.(tmpl1_loop_op) m.(tmpl1_loop_op_flip).
Definition set_tmpl0_sub_insns (m : mop_expand_state) (a : arr) :
  mop_expand_state := mk_mop m.(mop_active) m.(tmpl) m.(tmpl0_mask)
  m.(tmpl0_i) m.(tmpl0_count) m.(tmpl0_sub) m.(tmpl0_num_sub) a m.(tmpl1_j)
  m.(tmpl1_i) m.(tmpl1_outer) m.(tmpl1_inner) m.(tmpl1_phase)
  m.(tmpl1_loop_op) m.(tmpl1_loop_op_flip).
Definition set_tmpl1_j (m : mop_expand_state) (a : Z) : mop_expand_state :=
  mk_mop m.(mop_active) m.(tmpl) m.(tmpl0_mask) m.(tmpl0_i) m.(tmpl0_count)
  m.(tmpl0_sub) m.(tmpl0_num_sub) m.(tmpl0_sub_insns) a m.(tmpl1_i)
  m.(tmpl1_outer) m.(tmpl1_inner) m.(tmpl1_phase) m.(tmpl1_loop_op)
  m.(tmpl1_loop_op_flip).
Definition set_tmpl1_i (m : mop_expand_state) (a : Z) : mop_expand_state :=
  mk_mop m.(mop_active) m.(tmpl) m.(tmpl0_mask) m.(tmpl0_i) m.(tmpl0_count)
  m.(tmpl0_sub) m.(tmpl0_num_sub) m.(tmpl0_sub_insns) m.(tmpl1_j) a
  m.(tmpl1_outer) m.(tmpl1_inner) m.(tmpl1_phase) m.(tmpl1_loop_op)
  m.(tmpl1_loop_op_flip).
Definition set_tmpl1_outer (m : mop_expand_state) (a : Z) : mop_expand_state
  := mk_mop m.(mop_active) m.(tmpl) m.(tmpl0_mask) m.(tmpl0_i) m.(tmpl0_count)
  m.(tmpl0_sub) m.(tmpl0_num_sub) m.(tmpl0_sub_insns) m.(tmpl1_j) m.(tmpl1_i)
  a m.(tmpl1_inner) m.(tmpl1_phase) m.(tmpl1_loop_op) m.(tmpl1_loop_op_flip).
Definition set_tmpl1_inner (m : mop_expand_state) (a : Z) : mop_expand_state
  := mk_mop m.(mop_active) m.(tmpl) m.(tmpl0_mask) m.(tmpl0_i) m.(tmpl0_count)
  m.(tmpl0_sub) m.(tmpl0_num_sub) m.(tmpl0_sub_insns) m.(tmpl1_j) m.(tmpl1_i)
  m.(tmpl1_outer) a m.(tmpl1_phase) m.(tmpl1_loop_op) m.(tmpl1_loop_op_flip).
Definition set_tmpl1_phase (m : mop_expand_state) (a : Z) : mop_expand_state
  := mk_mop m.(mop_active) m.(tmpl) m.(tmpl0_mask) m.(tmpl0_i) m.(tmpl0_count)
  m.(tmpl0_sub) m.(tmpl0_num_sub) m.(tmpl0_sub_insns) m.(tmpl1_j) m.(tmpl1_i)
  m.(tmpl1_outer) m.(tmpl1_inner) a m.(tmpl1_loop_op) m.(tmpl1_loop_op_flip).
Definition set_tmpl1_loop_op (m : mop_expand_state) (a : Z) : mop_expand_state
  := mk_mop m.(mop_active) m.(tmpl) m.(tmpl0_mask) m.(tmpl0_i) m.(tmpl0_count)
  m.(tmpl0_sub) m.(tmpl0_num_sub) m.(tmpl0_sub_insns) m.(tmpl1_j) m.(tmpl1_i)
  m.(tmpl1_outer) m.(tmpl1_inner) m.(tmpl1_phase) a m.(tmpl1_loop_op_flip).
Definition set_tmpl1_loop_op_flip (m : mop_expand_state) (a : Z) :
  mop_expand_state := mk_mop m.(mop_active) m.(tmpl) m.(tmpl0_mask)
  m.(tmpl0_i) m.(tmpl0_count) m.(tmpl0_sub) m.(tmpl0_num_sub)
  m.(tmpl0_sub_insns) m.(tmpl1_j) m.(tmpl1_i) m.(tmpl1_outer) m.(tmpl1_inner)
  m.(tmpl1_phase) m.(tmpl1_loop_op) a.

Record tensix_thread_cop : Type := mk_thread {
  insn_fifo : tensix_fifo; state : tensix_thread_state; wait_gate :
  tensix_wait_gate; current_insn : Z; has_current_insn : bool; direct_insn
  : Z; has_direct_insn : bool; mop_cfg : arr; zmask_hi16 : Z; mop_state :
  mop_expand_state; insn_executed : Z; cycles_idle : Z; cycles_waiting : Z
}.
Definition set_insn_fifo (t : tensix_thread_cop) (a : tensix_fifo) :
  tensix_thread_cop := mk_thread a t.(state) t.(wait_gate) t.(current_insn)
  t.(has_current_insn) t.(direct_insn) t.(has_direct_insn) t.(mop_cfg)
  t.(zmask_hi16) t.(mop_state) t.(insn_executed) t.(cycles_idle)
  t.(cycles_waiting).
Definition set_state (t : tensix_thread_cop) (a : tensix_thread_state) :
  tensix_thread_cop := mk_thread t.(insn_fifo) a t.(wait_gate)
  t.(current_insn) t.(has_current_insn) t.(direct_insn) t.(has_direct_insn)
  t.(mop_cfg) t.(zmask_hi16) t.(mop_state) t.(insn_executed) t.(cycles_idle)
  t.(cycles_waiting).
Definition set_wait_gate (t : tensix_thread_cop) (a : tensix_wait_gate) :
  tensix_thread_cop := mk_thread t.(insn_fifo) t.(state) a t.(current_insn)
  t.(has_current_insn) t.(direct_insn) t.(has_direct_insn) t.(mop_cfg)
  t.(zmask_hi16) t.(mop_state) t.(insn_executed) t.(cycles_idle)
  t.(cycles_waiting).
Definition set_current_insn (t : tensix_thread_cop) (a : Z) :
  tensix_thread_cop := mk_thread t.(insn_fifo) t.(state) t.(wait_gate) a
  t.(has_current_insn) t.(direct_insn) t.(has_direct_insn) t.(mop_cfg)
  t.(zmask_hi16) t.(mop_state) t.(insn_executed) t.(cycles_idle)
  t.(cycles_waiting).
Definition set_has_current_insn (t : tensix_thread_cop) (a : bool) :
  tensix_thread_cop := mk_thread t.(insn_fifo) t.(state) t.(wait_gate)
  t.(current_insn) a t.(direct_insn) t.(has_direct_insn) t.(mop_cfg)
  t.(zmask_hi16) t.(mop_state) t.(insn_executed) t.(cycles_idle)
  t.(cycles_waiting).
Definition set_direct_insn (t : tensix_thread_cop) (a : Z) : tensix_thread_cop
  := mk_thread t.(insn_fifo) t.(state) t.(wait_gate) t.(current_insn)
  t.(has_current_insn) a t.(has_direct_insn) t.(mop_cfg) t.(zmask_hi16)
  t.(mop_state) t.(insn_executed) t.(cycles_idle) t.(cycles_waiting).
Definition set_has_direct_insn (t : tensix_thread_cop) (a : bool) :
  tensix_thread_cop := mk_thread t.(insn_fifo) t.(state) t.(wait_gate)
  t.(current_insn) t.(has_current_insn) t.(direct_insn) a t.(mop_cfg)
  t.(zmask_hi16) t.(mop_state) t.(insn_executed) t.(cycles_idle)
  t.(cycles_waiting).
Definition set_mop_cfg (t : tensix_thread_cop) (a : arr) : tensix_thread_cop
  := mk_thread t.(insn_fifo) t.(state) t.(wait_gate) t.(current_insn)
  t.(has_current_insn) t.(direct_insn) t.(has_direct_insn) a t.(zmask_hi16)
  t.(mop_state) t.(insn_executed) t.(cycles_idle) t.(cycles_waiting).
Definition set_zmask_hi16 (t : tensix_thread_cop) (a : Z) : tensix_thread_cop
  := mk_thread t.(insn_fifo) t.(state) t.(wait_gate) t.(current_insn)
  t.(has_current_insn) t.(direct_insn) t.(has_direct_insn) t.(mop_cfg) a
  t.(mop_state) t.(insn_executed) t.(cycles_idle) t.(cycles_waiting).
Definition set_mop_state (t : tensix_thread_cop) (a : mop_expand_state) :
  tensix_thread_cop := mk_thread t.(insn_fifo) t.(state) t.(wait_gate)
  t.(current_insn) t.(has_current_insn) t.(direct_insn) t.(has_direct_insn)
  t.(mop_cfg) t.(zmask_hi16) a t.(insn_executed) t.(cycles_idle)
  t.(cycles_waiting).
Definition set_insn_executed (t : tensix_thread_cop) (a : Z) :
  tensix_thread_cop := mk_thread t.(insn_fifo) t.(state) t.(wait_gate)
  t.(current_insn) t.(has_current_insn) t.(direct_insn) t.(has_direct_insn)
  t.(mop_cfg) t.(zmask_hi16) t.(mop_state) a t.(cycles_idle)
  t.(cycles_waiting).
Definition set_cycles_idle (t : tensix_thread_cop) (a : Z) : tensix_thread_cop
  := mk_thread t.(insn_fifo) t.(state) t.(wait_gate) t.(current_insn)
  t.(has_current_insn) t.(direct_insn) t.(has_direct_insn) t.(mop_cfg)
  t.(zmask_hi16) t.(mop_state) t.(insn_executed) a t.(cycles_waiting).
Definition set_cycles_waiting (t : tensix_thread_cop) (a : Z) :
  tensix_thread_cop := mk_thread t.(insn_fifo) t.(state) t.(wait_gate)
  t.(current_insn) t.(has_current_insn) t.(direct_insn) t.(has_direct_insn)
  t.(mop_cfg) t.(zmask_hi16) t.(mop_state) t.(insn_executed) t.(cycles_idle)
  a.

(** [mailbox_fifo[4][4][4]], [mailbox_head[4][4]], [mailbox_count[4][4]]. *)
Record mailboxes : Type := mk_mailboxes {
  mailbox_fifo : arr; mailbox_head : arr; mailbox_count : arr;
  mailbox_stall : flags
}.
Definition set_mailbox_fifo (b : mailboxes) (a : arr) : mailboxes :=
  mk_mailboxes a b.(mailbox_head) b.(mailbox_count) b.(mailbox_stall).
Definition set_mailbox_head (b : mailboxes) (a : arr) : mailboxes :=
  mk_mailboxes b.(mailbox_fifo) a b.(mailbox_count) b.(mailbox_stall).
Definition set_mailbox_count (b : mailboxes) (a : arr) : mailboxes :=
  mk_mailboxes b.(mailbox_fifo) b.(mailbox_head) a b.(mailbox_stall).
Definition set_mailbox_stall (b : mailboxes) (a : flags) : mailboxes :=
  mk_mailboxes b.(mailbox_fifo) b.(mailbox_head) b.(mailbox_count) a.

(** [tensix_t] with its [tensix_cop_t].  [aborted] records that an [assert]
    has failed, which ends the process. *)
Record tensix : Type := mk_tensix {
  t_units : units; thread0 : tensix_thread_cop; thread1 :
  tensix_thread_cop; thread2 : tensix_thread_cop; halted : bool;
  total_cycles : Z; t_mailbox : mailboxes; noc_xy : Z; cores_in_kernel :
  Z; had_trisc_in_kernel : bool; dbg_array_rd_cmd : Z; aborted : bool
}.
Definition set_t_units (t : tensix) (a : units) : tensix := mk_tensix a
  t.(thread0) t.(thread1) t.(thread2) t.(halted) t.(total_cycles)
  t.(t_mailbox) t.(noc_xy) t.(cores_in_kernel) t.(had_trisc_in_kernel)
  t.(dbg_array_rd_cmd) t.(aborted).
Definition set_thread0 (t : tensix) (a : tensix_thread_cop) : tensix :=
  mk_tensix t.(t_units) a t.(thread1) t.(thread2) t.(halted) t.(total_cycles)
  t.(t_mailbox) t.(noc_xy) t.(cores_in_kernel) t.(had_trisc_in_kernel)
  t.(dbg_array_rd_cmd) t.(aborted).
Definition set_thread1 (t : tensix) (a : tensix_thread_cop) : tensix :=
  mk_tensix t.(t_units) t.(thread0) a t.(thread2) t.(halted) t.(total_cycles)
  t.(t_mailbox) t.(noc_xy) t.(cores_in_kernel) t.(had_trisc_in_kernel)
  t.(dbg_array_rd_cmd) t.(aborted).
Definition set_thread2 (t : tensix) (a : tensix_thread_cop) : tensix :=
  mk_tensix t.(t_units) t.(thread0) t.(thread1) a t.(halted) t.(total_cycles)
  t.(t_mailbox) t.(noc_xy) t.(cores_in_kernel) t.(had_trisc_in_kernel)
  t.(dbg_array_rd_cmd) t.(aborted).
Definition set_halted (t : tensix) (a : bool) : tensix := mk_tensix
  t.(t_units) t.(thread0) t.(thread1) t.(thread2) a t.(total_cycles)
  t.(t_mailbox) t.(noc_xy) t.(cores_in_kernel) t.(had_trisc_in_kernel)
  t.(dbg_array_rd_cmd) t.(aborted).
Definition set_total_cycles (t : tensix) (a : Z) : tensix := mk_tensix
  t.(t_units) t.(thread0) t.(thread1) t.(thread2) t.(halted) a t.(t_mailbox)
  t.(noc_xy) t.(cores_in_kernel) t.(had_trisc_in_kernel) t.(dbg_array_rd_cmd)
  t.(aborted).
Definition set_t_mailbox (t : tensix) (a : mailboxes) : tensix := mk_tensix
  t.(t_units) t.(thread0) t.(thread1) t.(thread2) t.(halted) t.(total_cycles)
  a t.(noc_xy) t.(cores_in_kernel) t.(had_trisc_in_kernel)
  t.(dbg_array_rd_cmd) t.(aborted).
Definition set_noc_xy (t : tensix) (a : Z) : tensix := mk_tensix t.(t_units)
  t.(thread0) t.(thread1) t.(thread2) t.(halted) t.(total_cycles)
  t.(t_mailbox) a t.(cores_in_kernel) t.(had_trisc_in_kernel)
  t.(dbg_array_rd_cmd) t.(aborted).
Definition set_cores_in_kernel (t : tensix) (a : Z) : tensix := mk_tensix
  t.(t_units) t.(thread0) t.(thread1) t.(thread2) t.(halted) t.(total_cycles)
  t.(t_mailbox) t.(noc_xy) a t.(had_trisc_in_kernel) t.(dbg_array_rd_cmd)
  t.(aborted).
Definition set_had_trisc_in_kernel (t : tensix) (a : bool) : tensix :=
  mk_tensix t.(t_units) t.(thread0) t.(thread1) t.(thread2) t.(halted)
  t.(total_cycles) t.(t_mailbox) t.(noc_xy) t.(cores_in_kernel) a
  t.(dbg_array_rd_cmd) t.(aborted).
Definition set_dbg_array_rd_cmd (t : tensix) (a : Z) : tensix := mk_tensix
  t.(t_units) t.(thread0) t.(thread1) t.(thread2) t.(halted) t.(total_cycles)
  t.(t_mailbox) t.(noc_xy) t.(cores_in_kernel) t.(had_trisc_in_kernel) a
  t.(aborted).
Definition set_aborted (t : tensix) (a : bool) : tensix := mk_tensix
  t.(t_units) t.(thread0) t.(thread1) t.(thread2) t.(halted) t.(total_cycles)
  t.(t_mailbox) t.(noc_xy) t.(cores_in_kernel) t.(had_trisc_in_kernel)
  t.(dbg_array_rd_cmd) a.


(** [cop->threads[core_id]] for a core 0, 1 or 2. *)
Definition thread (t : tensix) (core_id : Z) : tensix_thread_cop :=
  if core_id =? 0 then t.(thread0) else if core_id =? 1 then t.(thread1)
  else t.(thread2).
Definition set_thread (t : tensix) (core_id : Z) (th : tensix_thread_cop) : tensix :=
  if core_id =? 0 then set_thread0 t th else if core_id =? 1 then set_thread1 t th
  else set_thread2 t th.

(** Updates through the records. *)
Definition on_matrix (f : matrix -> matrix) (u : units) : units :=
  set_u_matrix u (f u.(u_matrix)).
Definition on_rwc (f : rwcs -> rwcs) (u : units) : units := set_u_rwc u (f u.(u_rwc)).
Definition on_sync (f : syncs -> syncs) (u : units) : units :=
  set_u_sync u (f u.(u_sync)).
Definition on_sfpu (f : sfpu -> sfpu) (u : units) : units := set_u_sfpu u (f u.(u_sfpu)).
Definition on_replay (f : replays -> replays) (u : units) : units :=
  set_u_replay u (f u.(u_replay)).
Definition on_units (f : units -> units) (t : tensix) : tensix :=
  set_t_units t (f t.(t_units)).

(** ** Configuration registers: words of [high_mem] *)

Definition cfg_addr (m : tensix_memory) (reg_idx : Z) : Z :=
  m.(high_mem) + TENSIX_CFG_OFFSET_IN_HIGH_MEM + reg_idx * 4.

Definition tensix_read_cfg (u : units) (reg_idx : Z) : Z :=
  if nz u.(u_mem).(high_mem) && (reg_idx <? CFG_REG_COUNT) then
    load 4 u.(u_heap) (cfg_addr u.(u_mem) reg_idx)
  else 0.

Definition tensix_write_cfg (u : units) (reg_idx value : Z) : units :=
  if nz u.(u_mem).(high_mem) && (reg_idx <? CFG_REG_COUNT) then
    set_u_heap u (store 4 u.(u_heap) (cfg_addr u.(u_mem) reg_idx) value)
  else u.

(** ** Initial state *)

Definition tensix_fifo_init : tensix_fifo := mk_fifo ∅ 0 0 0.
Definition gate0 : tensix_wait_gate := mk_gate false 0 0 0 0 0 0.
Definition mop0 : mop_expand_state := mk_mop false 0 0 0 0 0 0 ∅ 0 0 0 0 0 0 0.

(** [tensix_cop_init_thread]; [mop_cfg] and [zmask_hi16] keep their values. *)
Definition tensix_cop_init_thread (th : tensix_thread_cop) : tensix_thread_cop :=
  mk_thread tensix_fifo_init THREAD_STATE_IDLE gate0 0 false 0 false
    th.(mop_cfg) th.(zmask_hi16) mop0 0 0 0.

(** A thread after [memset(cop, 0, ...)]; [THREAD_STATE_IDLE] is 0. *)
Definition thread_zero : tensix_thread_cop :=
  mk_thread tensix_fifo_init THREAD_STATE_IDLE gate0 0 false 0 false ∅ 0 mop0 0 0 0.

Definition matrix0 : matrix := mk_matrix ∅ ∅ ∅ ∅ ∅ 0 0 0 0 0 false ∅ false 0 0 0.
Definition rwcs0 : rwcs := mk_rwcs ∅ ∅ ∅ ∅ ∅ ∅ ∅.
Definition syncs0 : syncs := mk_syncs ∅ ∅ ∅.
Definition sfpu0 : sfpu := mk_sfpu ∅ ∅ ∅ ∅ ∅ ∅ 0.
Definition replays0 : replays := mk_replays ∅ ∅ ∅ ∅ ∅ ∅ ∅ ∅ ∅.
Definition units0 (mem : tensix_memory) : units :=
  mk_units mem ∅ matrix0 rwcs0 ∅ syncs0 ∅ ∅ sfpu0 replays0.
Definition mailboxes0 : mailboxes := mk_mailboxes ∅ ∅ ∅ ∅.

(** [for (i = 0; i < n; i++) a[i] = v] *)
Definition afill (lo n v : Z) (a : arr) : arr := for_loop lo n (fun i a => aset a i v) a.
Definition bfill (lo n : Z) (v : bool) (a : flags) : flags :=
  for_loop lo n (fun i a => bset a i v) a.

(** The constant registers of the vector unit: 0.8373, 0, 1, -1 and [2 * lane];
    the bit pattern of [0.8373f] is [0x3f56594b]. *)
Definition init_lreg_constants (a : arr) : arr :=
  for_loop 0 LREG_LANES (fun i a =>
    aset (aset (aset (aset (aset a
      (lreg_ix 8 i) 0x3f56594b) (lreg_ix 9 i) 0) (lreg_ix 10 i) 0x3F800000)
      (lreg_ix 11 i) 0xBF800000) (lreg_ix 15 i) (2 * i)) a.

Definition NEG_INF : Z := 0xFF800000.

(** [tensix_cop_init]: clear, then initialise every thread. *)
Definition tensix_cop_init (t : tensix) : tensix :=
  mk_tensix t.(t_units) (tensix_cop_init_thread thread_zero)
    (tensix_cop_init_thread thread_zero) (tensix_cop_init_thread thread_zero) false 0
    t.(t_mailbox) t.(noc_xy) t.(cores_in_kernel) t.(had_trisc_in_kernel)
    t.(dbg_array_rd_cmd) t.(aborted).

(** [tensix_init], on a structure that [memset] has cleared.  The allocation
    of the dispatcher is taken to succeed. *)
Definition tensix_init (l1_scratchpad_mem high_mem t0_ldm t1_ldm t2_ldm noc_xy : Z)
    : tensix :=
  let mem := mk_tmem l1_scratchpad_mem high_mem t0_ldm t1_ldm t2_ldm in
  let sync := mk_syncs (afill 0 8 MUTEX_NONE ∅) (afill 0 8 0 ∅)
                (aset (aset (aset (afill 0 8 0 ∅) 2 1) 4 1) 7 1) in
  let vec := mk_sfpu ∅ (init_lreg_constants ∅) (bfill 0 LREG_LANES true ∅)
               (bfill 0 LREG_LANES true ∅) ∅ ∅ (-1) in
  let u := set_u_matrix (set_u_sfpu (set_u_sync (units0 mem) sync) vec)
             (set_neginf matrix0 NEG_INF) in
  tensix_cop_init
    (mk_tensix u thread_zero thread_zero thread_zero false 0 mailboxes0 (u16 noc_xy)
       0 false 0 false).

Definition tensix_cop_reset (t : tensix) : tensix :=
  set_total_cycles (set_halted
    (set_thread2 (set_thread1 (set_thread0 t
       (tensix_cop_init_thread t.(thread0))) (tensix_cop_init_thread t.(thread1)))
       (tensix_cop_init_thread t.(thread2))) false) 0.

Definition tensix_cop_halt (t : tensix) : tensix := set_halted t true.
Definition tensix_cop_resume (t : tensix) : tensix := set_halted t false.

Definition tensix_reset (t : tensix) : tensix :=
  let t := tensix_cop_reset t in
  on_units (fun u =>
    on_sync (fun s => mk_syncs (afill 0 8 MUTEX_NONE s.(mutex)) (afill 0 8 0 s.(sem))
                        s.(sem_max))
      (on_matrix (fun m =>
         mk_matrix ∅ ∅ (bset (bset m.(srca_dvalid) 1 false) 0 false)
           (bset (bset m.(srcb_dvalid) 1 false) 0 false) m.(srcb_zeroed) 0 0 0 0
           m.(last_unp_srca_bank) m.(mova2d_bank_valid) ∅ false 0 0 m.(neginf)) u)) t.

(** ** tensix_clear *)

(** [memset(a, 0, n)]: absent cells are 0. *)
Definition heap_zero (h : heap) (a n : Z) : heap :=
  filter (fun p => ~ (a <= p.1 < a + n)) h.

(** [memset(cop, 0, ...)] with [mop_cfg] and [zmask_hi16] put back. *)
Definition clear_thread (th : tensix_thread_cop) : tensix_thread_cop :=
  set_zmask_hi16 (set_mop_cfg thread_zero th.(mop_cfg)) th.(zmask_hi16).

(** Clear [high_mem] up to 6 MB, except the configuration registers. *)
Definition clear_high_mem (m : tensix_memory) (h : heap) : heap :=
  if nz m.(high_mem) then
    let cfg_start := TENSIX_CFG_OFFSET_IN_HIGH_MEM in
    let cfg_end := cfg_start + CFG_REG_COUNT * 4 in
    let h := heap_zero h m.(high_mem) cfg_start in
    if cfg_end <? 0x600000 then
      heap_zero h (m.(high_mem) + cfg_end) (0x600000 - cfg_end)
    else h
  else h.

Definition tensix_clear (t : tensix) : tensix :=
  let u := t.(t_units) in
  let s := u.(u_sfpu) in
  let sync := mk_syncs (afill 0 8 MUTEX_NONE ∅) ∅
                (for_loop 0 8 (fun i a => aset a i (aget u.(u_sync).(sem_max) i)) ∅) in
  let saved (f : flags) := for_loop 0 LREG_LANES (fun i a => bset a i (bget f i)) ∅ in
  let vec := mk_sfpu ∅ (init_lreg_constants ∅) (saved s.(lane_flags))
               (saved s.(use_lane_flags)) ∅ ∅ (-1) in
  let u' := mk_units u.(u_mem) (clear_high_mem u.(u_mem) u.(u_heap))
              (set_neginf matrix0 NEG_INF) rwcs0 ∅ sync ∅ ∅ vec replays0 in
  mk_tensix u' (clear_thread t.(thread0)) (clear_thread t.(thread1))
    (clear_thread t.(thread2)) false 0 mailboxes0 t.(noc_xy) t.(cores_in_kernel) false 0
    t.(aborted).

(** ** Lemmas on arrays and loops *)

Lemma aget_word a i : word (aget a i).
Proof. apply word_u32. Qed.
Lemma aget_set a i v : aget (aset a i v) i = u32 v.
Proof. unfold aget, aset. rewrite lookup_insert_eq. apply u32_idemp. Qed.
Lemma aget_set_ne a i j v : i <> j -> aget (aset a i v) j = aget a j.
Proof. intros H. unfold aget, aset. by rewrite lookup_insert_ne. Qed.
Lemma bget_set a i v : bget (bset a i v) i = v.
Proof. unfold bget, bset. by rewrite lookup_insert_eq. Qed.
Lemma bget_set_ne a i j v : i <> j -> bget (bset a i v) j = bget a j.
Proof. intros H. unfold bget, bset. by rewrite lookup_insert_ne. Qed.

#[export] Hint Resolve aget_word : word.

(** [arr_cases] splits on every comparison of the index read with the index
    written. *)
Ltac arr_case :=
  match goal with
  | |- context [aget (aset ?a ?i ?v) ?j] =>
      destruct (decide (i = j)) as [->|];
      [rewrite aget_set | rewrite (aget_set_ne a i j v) by done]
  | |- context [bget (bset ?a ?i ?v) ?j] =>
      destruct (decide (i = j)) as [->|];
      [rewrite bget_set | rewrite (bget_set_ne a i j v) by done]
  end.

(** Invariants of loops: the index runs from [lo] to [lo + n]. *)
Lemma for_loop_inv {A : Type} (P : Z -> A -> Prop) lo n (f : Z -> A -> A) s :
  0 <= n -> P lo s ->
  (forall i s, lo <= i < lo + n -> P i s -> P (i + 1) (f i s)) ->
  P (lo + n) (for_loop lo n f s).
Proof.
  intros Hn Hs Hf. unfold for_loop.
  replace n with (Z.of_nat (Z.to_nat n)) in * by lia.
  generalize (Z.to_nat n) as k, lo, s, Hs, Hf. clear.
  induction k as [|k IH]; intros lo s Hs Hf.
  - replace (lo + Z.of_nat 0) with lo by lia. done.
  - rewrite seqZ_cons by lia. cbn [fold_left].
    replace (lo + Z.of_nat (S k)) with (Z.succ lo + Z.of_nat k) by lia.
    replace (Z.pred (Z.of_nat (S k))) with (Z.of_nat k) by lia.
    apply IH; [replace (Z.succ lo) with (lo + 1) by lia; apply Hf; [lia | done]|].
    intros i s' Hi. apply Hf. lia.
Qed.

(** What a loop keeps. *)
Lemma for_loop_keep {A : Type} (P : A -> Prop) lo n (f : Z -> A -> A) s :
  P s -> (forall i s, lo <= i < lo + n -> P s -> P (f i s)) -> P (for_loop lo n f s).
Proof.
  intros Hs Hf. destruct (Z_lt_le_dec n 0) as [Hn|Hn].
  - unfold for_loop. by rewrite seqZ_nil by lia.
  - by apply (for_loop_inv (fun _ => P)).
Qed.

(** Iteration [i0] is the only one that touches what [proj] sees. *)
Lemma loop_one {S A : Type} lo n (f : Z -> S -> S) (proj : S -> A) (G : A -> A) i0 s :
  (forall i s, lo <= i < lo + n -> i <> i0 -> proj (f i s) = proj s) ->
  (forall s, lo <= i0 < lo + n -> proj (f i0 s) = G (proj s)) ->
  proj (for_loop lo n f s) =
    if (lo <=? i0) && (i0 <? lo + n) then G (proj s) else proj s.
Proof.
  intros Hne Heq. destruct (Z_lt_le_dec n 0) as [Hn|Hn].
  { unfold for_loop. rewrite seqZ_nil by lia. cbn. replace (_ && _) with false by lia. done. }
  apply (for_loop_inv (fun m a => proj a =
    if (lo <=? i0) && (i0 <? m) then G (proj s) else proj s)); [done | |].
  - by replace ((lo <=? i0) && (i0 <? lo)) with false by lia.
  - intros i a Hi Ha. destruct (Z.eq_dec i i0) as [->|Hd].
    + rewrite Heq, Ha by done. replace ((lo <=? i0) && (i0 <? i0)) with false by lia.
      by replace ((lo <=? i0) && (i0 <? i0 + 1)) with true by lia.
    + rewrite Hne, Ha by done. by replace (i0 <? i + 1) with (i0 <? i) by lia.
Qed.
Lemma loop_none {S A : Type} lo n (f : Z -> S -> S) (proj : S -> A) s :
  (forall i s, lo <= i < lo + n -> proj (f i s) = proj s) -> proj (for_loop lo n f s) = proj s.
Proof.
  intros H. apply (for_loop_keep (fun a => proj a = proj s)); [done|].
  intros i a Hi <-. by apply H.
Qed.
