(* ===== verification/Mailbox.v ===== *)
(** * The mailboxes (src/tt_cop/mailbox.c, mailbox.h)

    Sixteen bounded queues, one per pair of cores; a core reads the queues
    that end at it and writes those that start at it. *)

From Stdlib Require Import ZArith Lia Bool.
From stdpp Require Import base list numbers gmap.
From S2P Require Import Prelude Memory Tensix.

Definition MAILBOX_ADDR_BASE : Z := 0xFFEC0000.
Definition MAILBOX_ADDR_END : Z := 0xFFEC3FFF.
Definition MAILBOX_FIFO_DEPTH : Z := 4.

(** [mailbox_count[src][dst]] and [mailbox_fifo[src][dst][i]] *)
Definition mb_ix (src dst : Z) : Z := src * 4 + dst.
Definition mb_slot (src dst i : Z) : Z := mb_ix src dst * 4 + i.

(** BRISC is core -1 and comes first; -1 for NCRISC and everything else. *)
Definition mailbox_core_index (core_id : Z) : Z :=
  if core_id =? -1 then 0
  else if (0 <=? core_id) && (core_id <=? 2) then core_id + 1
  else -1.

Definition mailbox_target (addr : Z) : Z := u32 (addr - MAILBOX_ADDR_BASE) >>. 12.
Definition in_mailbox_range (addr : Z) : bool :=
  (MAILBOX_ADDR_BASE <=? addr) && (addr <=? MAILBOX_ADDR_END).

Definition fifo_push (b : mailboxes) (src dst value : Z) : mailboxes * bool :=
  let cnt := s32 (aget b.(mailbox_count) (mb_ix src dst)) in
  if MAILBOX_FIFO_DEPTH <=? cnt then (b, false)
  else
    let idx := Z.rem (s32 (aget b.(mailbox_head) (mb_ix src dst)) + cnt) MAILBOX_FIFO_DEPTH in
    (set_mailbox_count
       (set_mailbox_fifo b (aset b.(mailbox_fifo) (mb_slot src dst idx) value))
       (aset b.(mailbox_count) (mb_ix src dst) (cnt + 1)), true).

Definition fifo_pop (b : mailboxes) (src dst : Z) : mailboxes * option Z :=
  let cnt := s32 (aget b.(mailbox_count) (mb_ix src dst)) in
  if cnt <=? 0 then (b, None)
  else
    let hd := s32 (aget b.(mailbox_head) (mb_ix src dst)) in
    let value := aget b.(mailbox_fifo) (mb_slot src dst hd) in
    (set_mailbox_count
       (set_mailbox_head b
          (aset b.(mailbox_head) (mb_ix src dst) (Z.rem (hd + 1) MAILBOX_FIFO_DEPTH)))
       (aset b.(mailbox_count) (mb_ix src dst) (cnt - 1)), Some value).

(** A write by NCRISC, and one to a full queue, is accepted and dropped. *)
Definition mailbox_write (b : mailboxes) (core_id addr value : Z) : mailboxes * bool :=
  if negb (in_mailbox_range addr) then (b, false)
  else
    let src := mailbox_core_index core_id in
    if src <? 0 then (b, true)
    else
      let dst := mailbox_target addr in
      ((fifo_push b src dst value).1, true).

(** [Some value] when the address is a mailbox's: bit 2 of the address asks
    whether the queue has an element; otherwise the read pops it, and sets
    the core's stall flag when there is none. *)
Definition mailbox_read (b : mailboxes) (core_id addr : Z) : mailboxes * option Z :=
  if negb (in_mailbox_range addr) then (b, None)
  else
    let reader := mailbox_core_index core_id in
    if reader <? 0 then (b, Some 0)
    else
      let src := mailbox_target addr in
      let dst := reader in
      if nz (addr &. 4) then
        (b, Some (b2z (0 <? s32 (aget b.(mailbox_count) (mb_ix src dst)))))
      else
        match fifo_pop b src dst with
        | (b, Some v) => (b, Some v)
        | (b, None) => (set_mailbox_stall b (bset b.(mailbox_stall) reader true), Some 0)
        end.

(** Test and clear the stall flag of a core. *)
Definition mailbox_process (b : mailboxes) (core_id : Z) : mailboxes * bool :=
  let mci := mailbox_core_index core_id in
  if mci <? 0 then (b, false)
  else if bget b.(mailbox_stall) mci then
    (set_mailbox_stall b (bset b.(mailbox_stall) mci false), true)
  else (b, false).
