(* ===== verification/MailboxSpec.v ===== *)
(** * The mailboxes are bounded queues

    [boxes] is what mailbox.c promises: a queue per pair of cores, at most
    four words long, and the set of cores that wait for a word.
    [mailbox_refines] runs any sequence of calls on both. *)

From Stdlib Require Import ZArith Lia Bool.
From stdpp Require Import base list numbers gmap.
From S2P Require Import Prelude Memory Tensix Mailbox.

(** ** The specification *)

Record boxes : Type := mk_boxes {
  queue : gmap (Z * Z) (list Z); waiting : gset Z
}.
Definition box (s : boxes) (src dst : Z) : list Z := default [] (s.(queue) !! (src, dst)).

Definition box_push (s : boxes) (src dst v : Z) : boxes :=
  if decide (length (box s src dst) < 4)%nat then
    mk_boxes (<[(src, dst) := box s src dst ++ [v]]> s.(queue)) s.(waiting)
  else s.

(** The calls of the interface, and their results: the boolean of the C
    function, and the word that it stores. *)
Inductive mailbox_call : Type :=
  | Write (core_id addr value : Z)
  | Read (core_id addr : Z)
  | Process (core_id : Z).

Definition spec_call (s : boxes) (c : mailbox_call) : boxes * (bool * Z) :=
  match c with
  | Write core_id addr v =>
      if decide (0xFFEC0000 <= addr <= 0xFFEC3FFF) then
        let src := mailbox_core_index core_id in
        (if decide (0 <= src)
         then box_push s src ((addr - 0xFFEC0000) / 4096) (u32 v) else s, (true, 0))
      else (s, (false, 0))
  | Read core_id addr =>
      if decide (0xFFEC0000 <= addr <= 0xFFEC3FFF) then
        let src := (addr - 0xFFEC0000) / 4096 in
        let dst := mailbox_core_index core_id in
        if decide (dst < 0) then (s, (true, 0))
        else
          match Z.testbit addr 2, box s src dst with
          | true, [] => (s, (true, 0))
          | true, _ :: _ => (s, (true, 1))
          | false, [] => (mk_boxes s.(queue) ({[dst]} ∪ s.(waiting)), (true, 0))
          | false, v :: l => (mk_boxes (<[(src, dst) := l]> s.(queue)) s.(waiting), (true, v))
          end
      else (s, (false, 0))
  | Process core_id =>
      let c := mailbox_core_index core_id in
      if decide (0 <= c /\ c ∈ s.(waiting)) then
        (mk_boxes s.(queue) (s.(waiting) ∖ {[c]}), (true, 0))
      else (s, (false, 0))
  end.

Definition code_call (b : mailboxes) (c : mailbox_call) : mailboxes * (bool * Z) :=
  match c with
  | Write core_id addr v => let '(b, r) := mailbox_write b core_id addr v in (b, (r, 0))
  | Read core_id addr =>
      match mailbox_read b core_id addr with
      | (b, Some v) => (b, (true, v))
      | (b, None) => (b, (false, 0))
      end
  | Process core_id => let '(b, r) := mailbox_process b core_id in (b, (r, 0))
  end.

Fixpoint results {S} (call : S -> mailbox_call -> S * (bool * Z)) (s : S)
    (cs : list mailbox_call) : list (bool * Z) :=
  match cs with
  | [] => []
  | c :: cs => (call s c).2 :: results call (call s c).1 cs
  end.

(** ** The representation *)

Record ring (b : mailboxes) (src dst : Z) (l : list Z) : Prop := {
  ring_count : aget b.(mailbox_count) (mb_ix src dst) = Z.of_nat (length l);
  ring_length : (length l <= 4)%nat;
  ring_head : 0 <= aget b.(mailbox_head) (mb_ix src dst) < 4;
  ring_slots : forall i, (i < length l)%nat ->
    aget b.(mailbox_fifo)
      (mb_slot src dst ((aget b.(mailbox_head) (mb_ix src dst) + Z.of_nat i) mod 4)) =
    nth i l 0
}.

Definition index4 (i : Z) : Prop := 0 <= i < 4.

Record mb_repr (b : mailboxes) (s : boxes) : Prop := {
  repr_ring : forall src dst, index4 src -> index4 dst -> ring b src dst (box s src dst);
  repr_stall : forall i, bget b.(mailbox_stall) i = bool_decide (i ∈ s.(waiting))
}.

Lemma mb_repr0 : mb_repr mailboxes0 (mk_boxes ∅ ∅).
Proof.
  split; [|done]. intros src dst _ _.
  replace (box _ _ _) with (@nil Z) by (unfold box; cbn [queue]; by rewrite lookup_empty).
  split; try done; cbn; lia.
Qed.

Lemma core_index_range c : -1 <= mailbox_core_index c < 4.
Proof. unfold mailbox_core_index. bool_cases; simpl; lia. Qed.

Lemma mb_ix_inj s d s' d' :
  index4 d -> index4 d' -> mb_ix s d = mb_ix s' d' -> (s, d) = (s', d').
Proof. unfold mb_ix, index4. intros. f_equal; lia. Qed.

Lemma mb_slot_inj s d i s' d' i' :
  index4 i -> index4 i' -> mb_slot s d i = mb_slot s' d' i' ->
  mb_ix s d = mb_ix s' d' /\ i = i'.
Proof. unfold mb_slot, index4. lia. Qed.

Lemma mod4 z : index4 (z mod 4).
Proof. apply Z.mod_pos_bound. lia. Qed.

Lemma u32_mod4 z : u32 (z mod 4) = z mod 4.
Proof. pose proof (mod4 z) as Hz. unfold index4 in Hz. apply u32_small. lia. Qed.

Lemma box_insert s k l w src dst :
  box (mk_boxes (<[k := l]> s.(queue)) w) src dst =
  if decide (k = (src, dst)) then l else box s src dst.
Proof.
  unfold box. simpl. destruct (decide (k = (src, dst))) as [->|].
  - by rewrite lookup_insert_eq.
  - by rewrite lookup_insert_ne.
Qed.

Lemma s32_count b src dst l : ring b src dst l ->
  s32 (aget b.(mailbox_count) (mb_ix src dst)) = Z.of_nat (length l).
Proof. intros [-> Hl _ _]. apply s32_small. lia. Qed.
Lemma s32_head b src dst l : ring b src dst l ->
  s32 (aget b.(mailbox_head) (mb_ix src dst)) = aget b.(mailbox_head) (mb_ix src dst).
Proof. intros [_ _ Hh _]. apply s32_small. lia. Qed.

Lemma repr_waiting b s f w :
  mb_repr b s -> (forall i, bget f i = bool_decide (i ∈ w)) ->
  mb_repr (set_mailbox_stall b f) (mk_boxes s.(queue) w).
Proof.
  intros Hr Hw. split; [|done]. intros src dst Hsrc Hdst.
  destruct (repr_ring _ _ Hr src dst Hsrc Hdst). by split.
Qed.

(** ** The operations on one queue *)

Lemma fifo_push_ring b s src dst v :
  index4 src -> index4 dst -> mb_repr b s ->
  mb_repr (fifo_push b src dst v).1 (box_push s src dst (u32 v)).
Proof.
  intros Hsrc Hdst Hr. pose proof (repr_ring _ _ Hr src dst Hsrc Hdst) as Hq.
  unfold fifo_push, box_push. rewrite (s32_count _ _ _ _ Hq), (s32_head _ _ _ _ Hq).
  destruct Hq as [Hc Hl Hh Hs]. unfold MAILBOX_FIFO_DEPTH.
  destruct (decide _) as [Hlt|]; destruct (Z.leb_spec 4 (Z.of_nat (length (box s src dst))));
    try lia; [|done]. cbv zeta. cbn [fst].
  rewrite Z.rem_mod_nonneg by lia.
  set (h := aget _ _) in *. set (n := length _) in *.
  split; [|apply Hr]. intros src' dst' Hsrc' Hdst'. rewrite box_insert.
  destruct (repr_ring _ _ Hr src' dst' Hsrc' Hdst') as [Hc' Hl' Hh' Hs'].
  destruct (decide ((src, dst) = (src', dst'))) as [E|E].
  - injection E as <- <-. split; cbn.
    + rewrite aget_set, length_app, u32_small by (simpl; lia). simpl. lia.
    + rewrite length_app. simpl. lia.
    + done.
    + intros i Hi. rewrite length_app in Hi. simpl in Hi. fold h.
      destruct (decide (i = n)) as [->|Hin].
      * rewrite aget_set. unfold n. by rewrite nth_middle.
      * rewrite aget_set_ne; [rewrite app_nth1 by lia; apply Hs; lia|].
        intros Es. apply mb_slot_inj in Es; try apply mod4. destruct Es. div_lia.
  - assert (mb_ix src dst <> mb_ix src' dst') by (intros ?; by apply E, mb_ix_inj).
    split; cbn; try done.
    + by rewrite aget_set_ne.
    + intros i Hi. rewrite aget_set_ne; [by apply Hs'|].
      intros Es. apply mb_slot_inj in Es; try apply mod4. by destruct Es.
Qed.

Lemma fifo_pop_ring b s src dst :
  index4 src -> index4 dst -> mb_repr b s ->
  match box s src dst with
  | [] => fifo_pop b src dst = (b, None)
  | v :: l =>
      (fifo_pop b src dst).2 = Some v /\
      mb_repr (fifo_pop b src dst).1 (mk_boxes (<[(src, dst) := l]> s.(queue)) s.(waiting))
  end.
Proof.
  intros Hsrc Hdst Hr. pose proof (repr_ring _ _ Hr src dst Hsrc Hdst) as Hq.
  unfold fifo_pop. rewrite (s32_count _ _ _ _ Hq), (s32_head _ _ _ _ Hq).
  destruct Hq as [Hc Hl Hh Hs].
  destruct (box s src dst) as [|v l] eqn:Eb; [done|]. cbn [length] in *.
  destruct (Z.leb_spec (Z.of_nat (S (length l))) 0); [lia|]. cbv zeta. cbn [fst snd].
  set (h := aget _ _) in *. split.
  { pose proof (Hs 0%nat ltac:(lia)) as E0. cbn [nth Z.of_nat] in E0.
    rewrite Z.add_0_r, Z.mod_small in E0 by lia. by rewrite E0. }
  unfold MAILBOX_FIFO_DEPTH. rewrite Z.rem_mod_nonneg by lia.
  split; [|apply Hr]. intros src' dst' Hsrc' Hdst'. rewrite box_insert.
  destruct (repr_ring _ _ Hr src' dst' Hsrc' Hdst') as [Hc' Hl' Hh' Hs'].
  destruct (decide ((src, dst) = (src', dst'))) as [E|E].
  - injection E as <- <-. split; cbn.
    + rewrite aget_set, u32_small by lia. lia.
    + lia.
    + rewrite aget_set, u32_mod4.
      apply mod4.
    + intros i Hi. rewrite aget_set, u32_mod4.
      change (nth i l 0) with (nth (S i) (v :: l) 0).
      rewrite <- (Hs (S i)) by lia. do 2 f_equal.
      rewrite Zplus_mod_idemp_l. f_equal. lia.
  - assert (mb_ix src dst <> mb_ix src' dst') by (intros ?; by apply E, mb_ix_inj).
    split; cbn; try done; rewrite ?aget_set_ne by done; done.
Qed.

(** ** The calls *)

Lemma in_range_spec addr :
  in_mailbox_range addr = bool_decide (0xFFEC0000 <= addr <= 0xFFEC3FFF).
Proof.
  unfold in_mailbox_range, MAILBOX_ADDR_BASE, MAILBOX_ADDR_END.
  case_bool_decide; bool_cases; simpl; lia.
Qed.

Lemma mailbox_target_spec addr :
  0xFFEC0000 <= addr <= 0xFFEC3FFF ->
  mailbox_target addr = (addr - 0xFFEC0000) / 4096 /\ index4 (mailbox_target addr).
Proof.
  intros Ha. unfold mailbox_target, MAILBOX_ADDR_BASE, index4.
  rewrite u32_small, Z.shiftr_div_pow2 by lia. change (2 ^ 12) with 4096. div_lia.
Qed.

Lemma nz_bit2 a : nz (a &. 4) = Z.testbit a 2.
Proof.
  rewrite (land_mask a 2 1) by done. unfold nz, bits.
  rewrite <- Z.shiftr_div_pow2, Z.testbit_odd by lia.
  change (2 ^ 1) with 2. rewrite Zmod_odd. by destruct (Z.odd _).
Qed.

Lemma call_repr b s c :
  mb_repr b s ->
  (code_call b c).2 = (spec_call s c).2 /\ mb_repr (code_call b c).1 (spec_call s c).1.
Proof.
  intros Hr. destruct c as [core addr v | core addr | core]; cbn [code_call spec_call].
  all: pose proof (core_index_range core).
  - unfold mailbox_write. rewrite in_range_spec. case_bool_decide as Ha; cbn [negb].
    2: by rewrite decide_False by done.
    rewrite decide_True by done. destruct (mailbox_target_spec addr Ha) as [<- Ht].
    destruct (Z.ltb_spec (mailbox_core_index core) 0); cbn [fst snd].
    + by rewrite decide_False by lia.
    + rewrite decide_True by lia. split; [done|]. apply fifo_push_ring; unfold index4; auto; lia.
  - unfold mailbox_read. rewrite in_range_spec. case_bool_decide as Ha; cbn [negb].
    2: by rewrite decide_False by done.
    rewrite decide_True by done. destruct (mailbox_target_spec addr Ha) as [<- Ht].
    destruct (Z.ltb_spec (mailbox_core_index core) 0); cbn [fst snd].
    { by rewrite decide_True by lia. }
    rewrite decide_False by lia. rewrite nz_bit2.
    assert (index4 (mailbox_core_index core)) as Hd by (unfold index4; lia).
    destruct (Z.testbit addr 2).
    + rewrite (s32_count _ _ _ _ (repr_ring _ _ Hr _ _ Ht Hd)).
      by destruct (box s _ _).
    + pose proof (fifo_pop_ring b s _ _ Ht Hd Hr) as Hp.
      destruct (box s _ _) as [|x l].
      * rewrite Hp. cbn. split; [done|].
        apply repr_waiting; [done|]. intros i.
        destruct (decide (i = mailbox_core_index core)) as [->|].
        -- rewrite bget_set. symmetry. apply bool_decide_eq_true. set_solver.
        -- rewrite bget_set_ne, (repr_stall _ _ Hr) by done. apply bool_decide_ext. set_solver.
      * destruct Hp as [Hv Hp]. destruct (fifo_pop b _ _) as [b' r]. cbn in Hv, Hp.
        by subst r.
  - unfold mailbox_process. rewrite (repr_stall _ _ Hr).
    destruct (Z.ltb_spec (mailbox_core_index core) 0).
    { by rewrite decide_False by lia. }
    case_bool_decide as Hw.
    + rewrite decide_True by (split; [lia | done]). cbn. split; [done|].
      apply repr_waiting; [done|]. intros i.
      destruct (decide (i = mailbox_core_index core)) as [->|].
      * rewrite bget_set. symmetry. apply bool_decide_eq_false. set_solver.
      * rewrite bget_set_ne, (repr_stall _ _ Hr) by done. apply bool_decide_ext. set_solver.
    + rewrite decide_False by tauto. done.
Qed.

Lemma results_eq b s cs :
  mb_repr b s -> results code_call b cs = results spec_call s cs.
Proof.
  revert b s. induction cs as [|c cs IH]; intros b s Hr; [done|]. cbn [results].
  destruct (call_repr b s c Hr) as [-> Hr']. f_equal. by apply IH.
Qed.

