(* ===== verification/TtInsn.v ===== *)
(** * Tensix instructions: dispatch helpers, synchronisation, configuration,
      scalar unit, counters, replay (src/tt_cop/tt_insn.c)

    A handler takes the units, the 24-bit operand and the thread, and returns
    the units and the C boolean: [false] when the instruction has to wait.
    Printing (warnings, debug output, timing) is not modelled. *)

From Stdlib Require Import ZArith Lia Bool.
From stdpp Require Import base list numbers gmap.
From S2P Require Import Prelude Memory Tensix.

Definition handler : Type := units -> Z -> Z -> units * bool.

(** [(x >> lo) & mask] *)
Definition field (x lo mask : Z) : Z := (x >>. lo) &. mask.

Definition ttnop : handler := fun u _ _ => (u, true).
Definition ttdmanop : handler := fun u _ _ => (u, true).
Definition ttgatesrcrst : handler := fun u _ _ => (u, true).

(** ** Address modifiers *)

(** The register pairs of [apply_addr_mod]: clear, then carriage return, then
    plain increment. *)
Definition rwc_src_mod (incr cr clr tid : Z) (p : arr * arr) : arr * arr :=
  let '(c, c_cr) := p in
  if nz clr then (aset c tid 0, aset c_cr tid 0)
  else if nz cr then
    let c_cr := aset c_cr tid (aget c_cr tid + incr) in
    (aset c tid (aget c_cr tid), c_cr)
  else (aset c tid (aget c tid + incr), c_cr).

Definition rwc_dest_mod (incr cr clr c2cr tid : Z) (p : arr * arr) : arr * arr :=
  let '(c, c_cr) := p in
  if nz clr then (aset c tid 0, aset c_cr tid 0)
  else if nz c2cr then
    let c := aset c tid (aget c tid + incr) in
    (c, aset c_cr tid (aget c tid))
  else if nz cr then
    let c_cr := aset c_cr tid (aget c_cr tid + incr) in
    (aset c tid (aget c_cr tid), c_cr)
  else (aset c tid (aget c tid + incr), c_cr).

Definition thd (u : units) (tid r : Z) : Z := aget u.(thd_reg) (thd_ix tid r).

Definition apply_addr_mod (u : units) (mod_idx tid : Z) : units :=
  if 8 <=? mod_idx then u
  else
    let ab_reg := thd u tid (12 + mod_idx) in
    let dst_reg := thd u tid (28 + mod_idx) in
    on_rwc (fun r =>
      let '(a, a_cr) := rwc_src_mod (ab_reg &. 0x3F) (field ab_reg 6 1) (field ab_reg 7 1)
                          tid (r.(srca_rwc), r.(srca_rwc_cr)) in
      let '(b, b_cr) := rwc_src_mod (field ab_reg 8 0x3F) (field ab_reg 14 1)
                          (field ab_reg 15 1) tid (r.(srcb_rwc), r.(srcb_rwc_cr)) in
      let '(d, d_cr) := rwc_dest_mod (dst_reg &. 0x3FF) (field dst_reg 10 1)
                          (field dst_reg 11 1) (field dst_reg 12 1) tid
                          (r.(dest_rwc), r.(dest_rwc_cr)) in
      let fid := if nz (field dst_reg 15 1) then aset r.(fidelity) tid 0
                 else aset r.(fidelity) tid (aget r.(fidelity) tid + field dst_reg 13 3) in
      mk_rwcs a a_cr b b_cr d d_cr fid) u.

(** ** Bank ownership *)

(** [srcX_dvalid[bank] = v; bank ^= 1] of either side. *)
Definition flip_srca_math (m : matrix) : matrix :=
  set_math_srca_bank (set_srca_dvalid m (bset m.(srca_dvalid) m.(math_srca_bank) false))
    (m.(math_srca_bank) ^. 1).
Definition flip_srcb_math (m : matrix) : matrix :=
  set_math_srcb_bank (set_srcb_dvalid m (bset m.(srcb_dvalid) m.(math_srcb_bank) false))
    (m.(math_srcb_bank) ^. 1).
Definition flip_srca_unp (m : matrix) : matrix :=
  set_unp_srca_bank (set_srca_dvalid m (bset m.(srca_dvalid) m.(unp_srca_bank) true))
    (m.(unp_srca_bank) ^. 1).
Definition flip_srcb_unp (m : matrix) : matrix :=
  set_unp_srcb_bank (set_srcb_dvalid m (bset m.(srcb_dvalid) m.(unp_srcb_bank) true))
    (m.(unp_srcb_bank) ^. 1).

Definition srca_ready (m : matrix) : bool := bget m.(srca_dvalid) m.(math_srca_bank).
Definition srcb_ready (m : matrix) : bool := bget m.(srcb_dvalid) m.(math_srcb_bank).

(** The end of every matrix instruction: release the banks that the operand
    selects, then modify the counters. *)
Definition when {A : Type} (b : bool) (f : A -> A) (a : A) : A := if b then f a else a.
Definition flip_banks (clear_dvalid : Z) (m : matrix) : matrix :=
  when (nz ((clear_dvalid >>. 1) &. 1)) flip_srcb_math
    (when (nz (clear_dvalid &. 1)) flip_srca_math m).

Definition ttcleardvalid : handler := fun u imm tid =>
  let flip := field imm 22 3 in
  let reset := imm &. 1 in
  (on_matrix (fun m =>
     if nz reset then
       let m := set_srca_dvalid m (bset (bset m.(srca_dvalid) 1 false) 0 false) in
       let m := set_srcb_dvalid m (bset (bset m.(srcb_dvalid) 1 false) 0 false) in
       let m := set_unp_srca_bank (set_unp_srcb_bank m 0) 0 in
       let m := set_math_srca_bank (set_math_srcb_bank m 0) 0 in
       set_dest_dvalid m false
     else
       when (nz (flip &. 2)) flip_srcb_math (when (nz (flip &. 1)) flip_srca_math m)) u,
   true).

Definition ttsetdvalid : handler := fun u imm tid =>
  let setvalid := imm &. 3 in
  (on_matrix (fun m =>
     when (nz (setvalid &. 2)) flip_srcb_unp (when (nz (setvalid &. 1)) flip_srca_unp m)) u,
   true).

(** ** Read and write counters *)

Definition ttsetrwc : handler := fun u imm tid =>
  let clear_ab_vld := field imm 22 3 in
  let rwc_cr := field imm 18 0xF in
  let rwc_d := field imm 14 0xF in
  let rwc_b := field imm 10 0xF in
  let rwc_a := field imm 6 0xF in
  let bitmask := imm &. 0x3F in
  let m := u.(u_matrix) in
  if nz (clear_ab_vld &. 1) && negb (srca_ready m) then (u, false)
  else if nz (clear_ab_vld &. 2) && negb (srcb_ready m) then (u, false)
  else
    let r := u.(u_rwc) in
    let r := if nz (bitmask &. 1) then
        let val := rwc_a + (if nz (rwc_cr &. 1) then aget r.(srca_rwc_cr) tid else 0) in
        set_srca_rwc_cr (set_srca_rwc r (aset r.(srca_rwc) tid val))
          (aset r.(srca_rwc_cr) tid val)
      else r in
    let r := if nz (bitmask &. 2) then
        let val := rwc_b + (if nz (rwc_cr &. 2) then aget r.(srcb_rwc_cr) tid else 0) in
        set_srcb_rwc_cr (set_srcb_rwc r (aset r.(srcb_rwc) tid val))
          (aset r.(srcb_rwc_cr) tid val)
      else r in
    let r := if nz (bitmask &. 4) then
        let val := rwc_d + (if nz (rwc_cr &. 8) then aget r.(dest_rwc) tid
                            else if nz (rwc_cr &. 4) then aget r.(dest_rwc_cr) tid else 0) in
        set_dest_rwc_cr (set_dest_rwc r (aset r.(dest_rwc) tid val))
          (aset r.(dest_rwc_cr) tid val)
      else r in
    let r := if nz (bitmask &. 8) then set_fidelity r (aset r.(fidelity) tid 0) else r in
    let m := if nz (clear_ab_vld &. 1) then when (srca_ready m) flip_srca_math m else m in
    let m := if nz (clear_ab_vld &. 2) then when (srcb_ready m) flip_srcb_math m else m in
    (set_u_matrix (set_u_rwc u r) m, true).

Definition rwc_incr (cr incr tid : Z) (p : arr * arr) : arr * arr :=
  let '(c, c_cr) := p in
  if nz cr then
    let c_cr := aset c_cr tid (aget c_cr tid + incr) in
    (aset c tid (aget c_cr tid), c_cr)
  else (aset c tid (aget c tid + incr), c_cr).

Definition ttincrwc : handler := fun u imm tid =>
  let rwc_cr := field imm 18 7 in
  (on_rwc (fun r =>
     let '(a, a_cr) := rwc_incr (rwc_cr &. 1) (field imm 6 0xF) tid
                         (r.(srca_rwc), r.(srca_rwc_cr)) in
     let '(b, b_cr) := rwc_incr (rwc_cr &. 2) (field imm 10 0xF) tid
                         (r.(srcb_rwc), r.(srcb_rwc_cr)) in
     let '(d, d_cr) := rwc_incr (rwc_cr &. 4) (field imm 14 0xF) tid
                         (r.(dest_rwc), r.(dest_rwc_cr)) in
     mk_rwcs a a_cr b b_cr d d_cr r.(fidelity)) u, true).

(** ** Replay *)

Definition ttreplay : handler := fun u imm tid =>
  let start_idx := field imm 14 0x1F in
  let count := field imm 4 0x3FF in
  let exec := field imm 1 1 in
  let load := imm &. 1 in
  let count := if count =? 0 then 64 else count in
  (on_replay (fun r =>
     if nz load then
       mk_replays r.(replay_buffer) (aset r.(replay_index) tid start_idx)
         (aset r.(replay_left) tid count)
         (bset r.(replay_execute_while_loading) tid (nz exec))
         (bset r.(replay_recording) tid true) r.(replay_expanding)
         r.(replay_expand_start) r.(replay_expand_count) r.(replay_expand_current)
     else
       mk_replays r.(replay_buffer) r.(replay_index) r.(replay_left)
         r.(replay_execute_while_loading) r.(replay_recording)
         (bset r.(replay_expanding) tid true) (aset r.(replay_expand_start) tid start_idx)
         (aset r.(replay_expand_count) tid count) (aset r.(replay_expand_current) tid 0)) u,
   true).

(** ** Address counters (ADC): units 0 and 1 are the unpackers, 2 the packer *)

(** The loop over the units that [CntSetMask] selects. *)
Definition for_adc (cnt_set_mask : Z) (f : Z -> arr -> arr) (u : units) : units :=
  set_adc u (for_loop 0 3 (fun t a =>
    if nz ((cnt_set_mask >>. t) &. 1) then f t a else a) u.(adc)).

(** Set a counter and its [_cr] copy; increment a counter; increment the
    [_cr] copy and load it into the counter. *)
Definition adc_set (t ch dim v : Z) (a : arr) : arr :=
  aset (aset a (adc_ix t ch dim) v) (adc_cr_ix t ch dim) v.
Definition adc_inc (t ch dim v : Z) (a : arr) : arr :=
  aset a (adc_ix t ch dim) (aget a (adc_ix t ch dim) + v).
Definition adc_inc_cr (t ch dim v : Z) (a : arr) : arr :=
  let a := aset a (adc_cr_ix t ch dim) (aget a (adc_cr_ix t ch dim) + v) in
  aset a (adc_ix t ch dim) (aget a (adc_cr_ix t ch dim)).

Definition ttsetadc : handler := fun u imm tid =>
  (for_adc (field imm 21 7) (fun t a =>
     adc_set t (field imm 20 1) (field imm 18 3) (imm &. 0x3FFFF) a) u, true).

(** The pair of dimensions [d], [d + 1] of both channels, under a bit mask. *)
Definition adc_pair (op : Z -> Z -> Z -> Z -> arr -> arr) (d bitmask imm t : Z) (a : arr) : arr :=
  let a := when (nz (bitmask &. 1)) (op t 0 d (field imm 6 7)) a in
  let a := when (nz (bitmask &. 2)) (op t 0 (d + 1) (field imm 9 7)) a in
  let a := when (nz (bitmask &. 4)) (op t 1 d (field imm 12 7)) a in
  when (nz (bitmask &. 8)) (op t 1 (d + 1) (field imm 15 7)) a.

Definition ttsetadcxy : handler := fun u imm tid =>
  (for_adc (field imm 21 7) (adc_pair adc_set 0 (imm &. 0xF) imm) u, true).
Definition ttincadcxy : handler := fun u imm tid =>
  (for_adc (field imm 21 7) (adc_pair adc_inc 0 0xF imm) u, true).
Definition ttaddrcrxy : handler := fun u imm tid =>
  (for_adc (field imm 21 7) (adc_pair adc_inc_cr 0 (imm &. 0xF) imm) u, true).
Definition ttsetadczw : handler := fun u imm tid =>
  (for_adc (field imm 21 7) (adc_pair adc_set 2 (imm &. 0xF) imm) u, true).
Definition ttincadczw : handler := fun u imm tid =>
  (for_adc (field imm 21 7) (adc_pair adc_inc 2 0xF imm) u, true).
Definition ttaddrcrzw : handler := fun u imm tid =>
  (for_adc (field imm 21 7) (adc_pair adc_inc_cr 2 (imm &. 0xF) imm) u, true).

Definition ttsetadcxx : handler := fun u imm tid =>
  (for_adc (field imm 21 7) (fun t a =>
     adc_set t 1 0 (field imm 10 0x3FF) (adc_set t 0 0 (imm &. 0x3FF) a)) u, true).

(** ** Scalar unit: the general-purpose registers [dma_reg] *)

Definition gpr (u : units) (tid r : Z) : Z := aget u.(dma_reg) (dma_ix tid r).
Definition set_gpr (u : units) (tid r v : Z) : units :=
  set_dma_reg u (aset u.(dma_reg) (dma_ix tid r) v).

(** Half registers: [(uint16_t * )dma_reg[tid]], little endian. *)
Definition set_gpr_half (u : units) (tid half v : Z) : units :=
  let r := half / 2 in
  let old := gpr u tid r in
  set_gpr u tid r (if half mod 2 =? 0 then (old &. 0xFFFF0000) |. v
                   else (old &. 0x0000FFFF) |. (v <<. 16)).

(** The special mode stores zeros: the packer state is not modelled by the
    coprocessor either. *)
Definition ttsetdmareg : handler := fun u imm tid =>
  let set_signals := field imm 7 1 in
  let reg_index := imm &. 0x7F in
  (if set_signals =? 0 then
     if reg_index <? DMA_REG_COUNT * 2 then set_gpr_half u tid reg_index (field imm 8 0xFFFF)
     else u
   else
     let result_size := field imm 22 3 in
     let base := (reg_index >>. 1) &. 0x3C in
     if result_size =? 0 then
       if reg_index <? DMA_REG_COUNT * 2 then set_gpr_half u tid reg_index 0 else u
     else if result_size =? 1 then
       if reg_index >>. 1 <? DMA_REG_COUNT then set_gpr u tid (reg_index >>. 1) 0 else u
     else if result_size =? 2 then
       for_loop 0 4 (fun i u =>
         if base + i <? DMA_REG_COUNT then set_gpr u tid (base + i) 0 else u) u
     else if base + 3 <? DMA_REG_COUNT then
       let u := set_gpr u tid base (gpr u tid base &. 0xFFFF0000) in
       let u := set_gpr u tid (base + 1) (gpr u tid (base + 1) &. 0xFF00FFFF) in
       set_gpr u tid (base + 2) 0
     else u, true).

(** The operand fields that the arithmetic instructions share. *)
Definition dma_alu (op : Z -> Z -> Z -> Z) (right_mask : Z) : handler := fun u imm tid =>
  let is_const := field imm 23 1 in
  let mode := field imm 18 7 in
  let result_r := field imm 12 0x3F in
  let opb_field := field imm 6 0x3F in
  let opa_r := imm &. 0x3F in
  let left := if opa_r <? DMA_REG_COUNT then gpr u tid opa_r else 0 in
  let right := if nz is_const then opb_field &. right_mask
               else if opb_field <? DMA_REG_COUNT then gpr u tid opb_field &. right_mask
               else 0 in
  (if result_r <? DMA_REG_COUNT then set_gpr u tid result_r (op mode left right) else u, true).

Definition ALL32 : Z := 0xFFFFFFFF.
Definition ttadddmareg : handler := dma_alu (fun _ l r => l + r) ALL32.
Definition ttsubdmareg : handler := dma_alu (fun _ l r => l - r) ALL32.
Definition ttmuldmareg : handler :=
  dma_alu (fun _ l r => (l &. 0xFFFF) * (r &. 0xFFFF)) ALL32.
Definition ttbitwopdmareg : handler :=
  dma_alu (fun mode l r =>
    if mode =? 0 then l &. r else if mode =? 1 then l |. r
    else if mode =? 2 then l ^. r else 0) ALL32.
Definition ttshiftdmareg : handler :=
  dma_alu (fun mode l r =>
    if mode =? 0 then l <<. r else if mode =? 1 then l >>. r else 0) 0x1F.
Definition ttcmpdmareg : handler :=
  dma_alu (fun mode l r =>
    if mode =? 0 then b2z (r <? l) else if mode =? 1 then b2z (l <? r)
    else if mode =? 2 then b2z (l =? r) else 0) ALL32.

(** [*(uint32_t * )(high_mem + offset)] *)
Definition high_load (u : units) (offset : Z) : Z :=
  load 4 u.(u_heap) (u.(u_mem).(high_mem) + offset).
Definition high_store (u : units) (offset v : Z) : units :=
  set_u_heap u (store 4 u.(u_heap) (u.(u_mem).(high_mem) + offset) v).

(** The 17-bit signed increment in bits 22:6 of a stream's UPDATE register,
    as the 32-bit word that is added to its AVAILABLE register. *)
Definition update_increment (value : Z) : Z :=
  let raw := field value 6 0x1FFFF in
  if nz (raw &. 0x10000) then raw |. 0xFFFE0000 else raw.

Definition ttstorereg : handler := fun u imm tid =>
  let data_reg := field imm 18 0x3F in
  let addr_lo := imm &. 0x3FFFF in
  let target_addr := u32 (0xFFB00000 + (addr_lo <<. 2)) in
  if target_addr <? 0xFFB11000 then (u, true)
  else
    let value := gpr u tid data_reg in
    let offset := u32 (target_addr - 0xFFB00000) in
    if nz u.(u_mem).(high_mem) && (offset <? 0x400000) then
      let u := high_store u offset value in
      if (0xFFB40000 <=? target_addr) && (target_addr <? 0xFFB80000) &&
         (((target_addr - 0xFFB40000) &. 0xFFF) =? 0x438) &&
         (offset + 0x6C <? 0x400000)
      then (high_store u (offset + 0x6C)
              (high_load u (offset + 0x6C) + update_increment value), true)
      else (u, true)
    else (u, true).

Definition ttloadreg : handler := fun u imm tid =>
  let result_reg := field imm 18 0x3F in
  let addr_lo := imm &. 0x3FFFF in
  let target_addr := u32 (0xFFB00000 + (addr_lo <<. 2)) in
  if target_addr <? 0xFFB11000 then (u, true)
  else
    let offset := u32 (target_addr - 0xFFB00000) in
    let value := if nz u.(u_mem).(high_mem) && (offset <? 0x400000)
                 then high_load u offset else 0 in
    (if result_reg <? DMA_REG_COUNT then set_gpr u tid result_reg value else u, true).

(** ** Synchronisation *)

(** A mutex that another thread holds does not stop the instruction. *)
Definition ttatgetm : handler := fun u imm tid =>
  let mutex_id := imm &. 7 in
  (on_sync (fun s =>
     if aget s.(mutex) mutex_id =? MUTEX_NONE
     then set_mutex s (aset s.(mutex) mutex_id tid) else s) u, true).

Definition ttatrelm : handler := fun u imm tid =>
  let mutex_id := imm &. 7 in
  (on_sync (fun s =>
     if aget s.(mutex) mutex_id =? tid
     then set_mutex s (aset s.(mutex) mutex_id MUTEX_NONE) else s) u, true).

(** The loop over the semaphores that a mask selects. *)
Definition for_sems (sem_mask : Z) (f : Z -> syncs -> syncs) (u : units) : units :=
  on_sync (for_loop 0 8 (fun i s => if nz (sem_mask &. (1 <<. i)) then f i s else s)) u.

Definition ttseminit : handler := fun u imm tid =>
  let max_val := field imm 20 0xF in
  let init_val := field imm 16 0xF in
  (for_sems (field imm 2 0xFF) (fun i s =>
     set_sem_max (set_sem s (aset s.(sem) i init_val)) (aset s.(sem_max) i max_val)) u, true).

Definition sem_post (i : Z) (s : syncs) : syncs :=
  if aget s.(sem) i <? 15 then set_sem s (aset s.(sem) i (aget s.(sem) i + 1)) else s.
Definition sem_get (i : Z) (s : syncs) : syncs :=
  if 0 <? aget s.(sem) i then set_sem s (aset s.(sem) i (aget s.(sem) i - 1)) else s.

(** A post by the math thread also marks the destination register valid. *)
Definition ttsempost : handler := fun u imm tid =>
  let u := for_sems (field imm 2 0xFF) sem_post u in
  (when (tid =? 1) (on_matrix (fun m => set_dest_dvalid m true)) u, true).

Definition ttsemget : handler := fun u imm tid =>
  (for_sems (field imm 2 0xFF) sem_get u, true).

(** ** Configuration *)

(** A write of configuration register 69 restarts the packer's output. *)
Definition reset_pack_offset (u : units) : units :=
  on_matrix (fun m => set_pack_l1_write_offset m 0) u.

Definition seed_prng (value : Z) (u : units) : units :=
  on_sfpu (fun s => set_prng_state s
    (for_loop 0 LREG_LANES (fun lane a => aset a lane (value + lane)) s.(prng_state))) u.

Definition ttwrcfg : handler := fun u imm tid =>
  let gpr_addr := field imm 16 0x3F in
  let wr128b := field imm 15 1 in
  let cfg_index := imm &. 0x7FFF in
  (if nz wr128b then
     let cfg_base := cfg_index &. 0xFFFFFFFC in
     let gpr_base := gpr_addr &. 0xFFFFFFFC in
     for_loop 0 4 (fun i u =>
       if (cfg_base + i <? CFG_REG_COUNT) && (gpr_base + i <? DMA_REG_COUNT) then
         let u := tensix_write_cfg u (cfg_base + i) (gpr u tid (gpr_base + i)) in
         when (cfg_base + i =? 69) reset_pack_offset u
       else u) u
   else if (cfg_index <? CFG_REG_COUNT) && (gpr_addr <? DMA_REG_COUNT) then
     let value := gpr u tid gpr_addr in
     let u := tensix_write_cfg u cfg_index value in
     let u := when (cfg_index =? 69) reset_pack_offset u in
     when (cfg_index =? 186) (seed_prng value) u
   else u, true).

Definition ttrdcfg : handler := fun u imm tid =>
  let gpr_addr := field imm 16 0x3F in
  let cfg_index := imm &. 0xFFFF in
  (if (cfg_index <? CFG_REG_COUNT) && (gpr_addr <? DMA_REG_COUNT)
   then set_gpr u tid gpr_addr (tensix_read_cfg u cfg_index) else u, true).

Definition ttsetc16 : handler := fun u imm tid =>
  let cfg_index := field imm 16 0xFF in
  let value := imm &. 0xFFFF in
  (if cfg_index <? THD_REG_COUNT
   then set_thd_reg u (aset u.(thd_reg) (thd_ix tid cfg_index) value) else u, true).

Definition rmwcib_common (byte_offset : Z) : handler := fun u imm tid =>
  let mask := field imm 16 0xFF in
  let new_value := field imm 8 0xFF in
  let index4 := imm &. 0xFF in
  if (CFG_REG_COUNT <=? index4) || negb (nz u.(u_mem).(high_mem)) then (u, true)
  else
    let a := cfg_addr u.(u_mem) index4 + byte_offset in
    let old_byte := heap_get u.(u_heap) a in
    let u := set_u_heap u
               (<[a := u8 ((new_value &. mask) |. (old_byte &. Z.lnot mask))]> u.(u_heap)) in
    (when (index4 =? 69) reset_pack_offset u, true).
Definition ttrmwcib0 : handler := rmwcib_common 0.
Definition ttrmwcib1 : handler := rmwcib_common 1.
Definition ttrmwcib2 : handler := rmwcib_common 2.
Definition ttrmwcib3 : handler := rmwcib_common 3.

(** For [n = 0] the source shifts by 32, which x86 takes modulo 32. *)
Definition rotr32 (v n : Z) : Z :=
  let n := n &. 31 in
  (v >>. n) |. u32 (v <<. ((32 - n) &. 31)).

Definition ttcfgshiftmask : handler := fun u imm tid =>
  let mask_mode := field imm 23 1 in
  let alu_mode := field imm 20 7 in
  let mask_width := field imm 15 0x1F in
  let rotate_amt := field imm 10 0x1F in
  let scratch_sel := field imm 8 3 in
  let cfg_index := imm &. 0xFF in
  if CFG_STATE_REGS <=? cfg_index then (u, true)
  else
    let scratch_idx := if scratch_sel <? 3 then scratch_sel else tid in
    let scratch_val := tensix_read_cfg u (209 + scratch_idx) in
    let mask := u32 (u32 (2 <<. mask_width) - 1) in
    let scratch_val := rotr32 (scratch_val &. mask) rotate_amt in
    let state_id := thd u tid 0 &. 1 in
    let cfg_actual := cfg_index + state_id * CFG_STATE_REGS in
    let cfg_val := tensix_read_cfg u cfg_actual in
    let cfg_val := if mask_mode =? 0 then cfg_val &. u32 (Z.lnot (rotr32 mask rotate_amt))
                   else cfg_val in
    let inv := u32 (Z.lnot scratch_val) in
    let cfg_val :=
      if alu_mode =? 0 then cfg_val |. scratch_val
      else if alu_mode =? 1 then cfg_val &. scratch_val
      else if alu_mode =? 2 then cfg_val ^. scratch_val
      else if alu_mode =? 3 then u32 (cfg_val + scratch_val)
      else if alu_mode =? 4 then cfg_val |. inv
      else if alu_mode =? 5 then cfg_val &. inv
      else if alu_mode =? 6 then cfg_val ^. inv
      else u32 (cfg_val - scratch_val) in
    (tensix_write_cfg u cfg_actual cfg_val, true).
