(* ===== verification/TtMatrix.v ===== *)
(** * Tensix instructions of the matrix unit (src/tt_cop/tt_insn.c)

    Moves between SrcA, SrcB and Dest, clearing, the multiply-accumulate and
    the element-wise operations, and pooling. *)

From Stdlib Require Import ZArith Lia Bool.
From stdpp Require Import base list numbers gmap.
From S2P Require Import Prelude Float32 Memory Tensix TtInsn.

(** ** Moves *)

(** [n] rows, from row [s0] of [src] to row [d0] of [dst]; a row outside
    either register is skipped. *)
Definition copy_rows (n d0 s0 drows srows : Z) (dix six : Z -> Z -> Z) (src dst : arr) : arr :=
  for_loop 0 n (fun i dst =>
    if (drows <=? d0 + i) || (srows <=? s0 + i) then dst
    else for_loop 0 ROW_SIZE (fun j dst =>
           aset dst (dix (d0 + i) j) (aget src (six (s0 + i) j))) dst) dst.

(** The row that Dest instructions start from, before alignment. *)
Definition dest_row (u : units) (tid dst_row : Z) : Z :=
  u32 (dst_row + thd u tid 1 + aget u.(u_rwc).(dest_rwc) tid).
Definition srca_row (u : units) (tid row : Z) : Z :=
  u32 (row + aget u.(u_rwc).(srca_rwc) tid).
Definition srcb_row (u : units) (tid row : Z) : Z :=
  u32 (row + aget u.(u_rwc).(srcb_rwc) tid).

Definition ttmovd2a : handler := fun u imm tid =>
  let addr_mode := field imm 14 7 in
  let instr_mod := field imm 12 3 in
  let move4rows := nz (field instr_mod 1 1) in
  let dest_base := dest_row u tid (imm &. 0xFFF) in
  let row := srca_row u tid (field imm 17 0x3F) in
  let num_rows := if move4rows then 4 else 1 in
  let dest_base := dest_base &. (if move4rows then 0x3FC else 0x3FF) in
  let row := row &. (if move4rows then 0x3C else 0x3F) in
  let bank := u.(u_matrix).(math_srca_bank) in
  let u := on_matrix (fun m =>
    set_srca_dvalid
      (set_srca m (copy_rows num_rows row dest_base SRCA_ROWS DEST_ROWS (src_ix bank) dest_ix
                     m.(dest) m.(srca)))
      (bset m.(srca_dvalid) bank true)) u in
  (apply_addr_mod u addr_mode tid, true).

Definition ttmovd2b : handler := fun u imm tid =>
  let addr_mode := field imm 14 7 in
  let instr_mod := field imm 12 3 in
  let move4rows := nz (field instr_mod 1 1) in
  let dest_base := dest_row u tid (imm &. 0xFFF) in
  let row := srcb_row u tid (field imm 17 0x3F) in
  let num_rows := if move4rows then 4 else 1 in
  let dest_base := dest_base &. (if move4rows then 0x3FC else 0x3FF) in
  let row := row &. (if move4rows then 0x3C else 0x3F) in
  let bank := u.(u_matrix).(math_srcb_bank) in
  let u := on_matrix (fun m =>
    set_srcb_dvalid
      (set_srcb m (copy_rows num_rows row dest_base SRCB_ROWS DEST_ROWS (src_ix bank) dest_ix
                     m.(dest) m.(srcb)))
      (bset m.(srcb_dvalid) bank true)) u in
  (apply_addr_mod u addr_mode tid, true).

Definition ttmovb2a : handler := fun u imm tid =>
  let addr_mode := field imm 14 7 in
  let instr_mod := field imm 12 3 in
  let move4rows := nz (field instr_mod 1 1) in
  let num_rows := if move4rows then 4 else 1 in
  let mask := if move4rows then 0x3C else 0x3F in
  let arow := srca_row u tid (field imm 17 0x3F) &. mask in
  let brow := srcb_row u tid (imm &. 0x3F) &. mask in
  let banka := u.(u_matrix).(math_srca_bank) in
  let bankb := u.(u_matrix).(math_srcb_bank) in
  let u := on_matrix (fun m =>
    set_srca_dvalid
      (set_srca m (copy_rows num_rows arow brow SRCA_ROWS SRCB_ROWS (src_ix banka) (src_ix bankb)
                     m.(srcb) m.(srca)))
      (bset m.(srca_dvalid) banka true)) u in
  (apply_addr_mod u addr_mode tid, true).

Definition ttmova2d : handler := fun u imm tid =>
  let addr_mode := field imm 14 7 in
  let instr_mod := field imm 12 3 in
  let move8rows := nz (field instr_mod 1 1) in
  let row := srca_row u tid (field imm 17 0x3F) in
  let dest_base := dest_row u tid (imm &. 0xFFF) in
  let num_rows := if move8rows then 8 else 1 in
  let dest_base := dest_base &. (if move8rows then 0x3F8 else 0x3FF) in
  let row := row &. (if move8rows then 0x38 else 0x3F) in
  if negb (srca_ready u.(u_matrix)) then (u, false)
  else
    let bank := u.(u_matrix).(math_srca_bank) in
    let u := on_matrix (fun m =>
      set_dest m (copy_rows num_rows dest_base row DEST_ROWS SRCA_ROWS dest_ix (src_ix bank)
                    m.(srca) m.(dest))) u in
    (apply_addr_mod u addr_mode tid, true).

Definition ttmovb2d : handler := fun u imm tid =>
  let addr_mode := field imm 14 7 in
  let instr_mod := field imm 11 7 in
  let move4rows := nz (field instr_mod 2 1) in
  let dest_base := dest_row u tid (imm &. 0x7FF) in
  let row := srcb_row u tid (field imm 17 0x3F) in
  let num_rows := if move4rows then 4 else 1 in
  let dest_base := dest_base &. (if move4rows then 0x3FC else 0x3FF) in
  let row := row &. (if move4rows then 0x3C else 0x3F) in
  let bank := u.(u_matrix).(math_srcb_bank) in
  let u := on_matrix (fun m =>
    set_dest m (copy_rows num_rows dest_base row DEST_ROWS SRCB_ROWS dest_ix (src_ix bank)
                  m.(srcb) m.(dest))) u in
  (apply_addr_mod u addr_mode tid, true).

(** ** Clearing and transposing *)

(** Rows [lo .. lo + n - 1] of Dest; rows that do not exist are skipped. *)
Definition zero_dest_rows (lo n : Z) (d : arr) : arr :=
  for_loop lo n (fun i d =>
    if i <? DEST_ROWS then for_loop 0 ROW_SIZE (fun j d => aset d (dest_ix i j) 0) d else d) d.

Definition ttzeroacc : handler := fun u imm tid =>
  let clear_mode := field imm 19 0x1F in
  let use_32b := nz (field imm 18 1) in
  let clear_zero_flags := field imm 17 1 in
  let where_ := imm &. 0x3FFF in
  let mode := clear_mode &. 3 in
  if nz clear_zero_flags then (u, true)
  else
    let zero lo n := on_matrix (fun m => set_dest m (zero_dest_rows lo n m.(dest))) u in
    (if mode =? 0 then zero (dest_row u tid where_) 1
     else if mode =? 1 then
       let math_offset := thd u tid 1 in
       let face_offset := if use_32b then math_offset / 32 else math_offset / 16 in
       let base := u32 ((where_ &. 0xFF) + face_offset) in
       zero (u32 (if use_32b then base * 32 else base * 16)) 16
     else if mode =? 2 then zero (if nz (where_ &. 1) then 512 else 0) 512
     else zero 0 DEST_ROWS, true).

(** One bank of a source register, filled with a pattern. *)
Definition fill_bank (bank v : Z) (a : arr) : arr :=
  for_loop 0 64 (fun i a => for_loop 0 ROW_SIZE (fun j a => aset a (src_ix bank i j) v) a) a.

(** The loop over the two banks of ZEROSRC. *)
Definition fill_banks (both : bool) (target v : Z) (a : arr) : arr :=
  for_loop 0 2 (fun b a => when (both || (b =? target)) (fill_bank b v) a) a.

Definition ttzerosrc : handler := fun u imm tid =>
  let neg_inf := nz (field imm 4 1) in
  let write_mode := nz (field imm 3 1) in
  let both := nz (field imm 2 1) in
  let src_mask := imm &. 3 in
  let u := when (nz (src_mask &. 1)) (on_matrix (fun m =>
    set_srca m (fill_banks both (if write_mode then m.(math_srca_bank) else m.(unp_srca_bank))
                  (if neg_inf then m.(neginf) else 0) m.(srca)))) u in
  let u := when (nz (src_mask &. 2)) (on_matrix (fun m =>
    set_srcb m (fill_banks both (if write_mode then m.(math_srcb_bank) else m.(unp_srcb_bank))
                  0 m.(srcb)))) u in
  (u, true).

(** Transpose rows 16 to 31 of SrcB in place. *)
Definition tttrnspsrcb : handler := fun u imm tid =>
  let bank := u.(u_matrix).(math_srcb_bank) in
  (on_matrix (fun m => set_srcb m
     (for_loop 0 16 (fun i a => for_loop 0 i (fun j a =>
        let tmp := aget a (src_ix bank (16 + i) j) in
        let a := aset a (src_ix bank (16 + i) j) (aget a (src_ix bank (16 + j) i)) in
        aset a (src_ix bank (16 + j) i) tmp) a) m.(srcb))) u, true).

(** ** Matrix multiplication *)

(** [sum_k SrcB[sb][k] * SrcA[sa + k][j]], in the order of the loop; the mask
    drops bit 16 of the SrcB operand in the low-fidelity modes. *)
Definition dot_row (m : matrix) (sa sb j : Z) (mask_bit16 : bool) : Z :=
  for_loop 0 ROW_SIZE (fun k sum =>
    if SRCA_ROWS <=? sa + k then sum
    else
      let b := aget m.(srcb) (src_ix m.(math_srcb_bank) sb k) in
      let b := if mask_bit16 then b &. 0xFFFEFFFF else b in
      f32_add sum (f32_mul b (aget m.(srca) (src_ix m.(math_srca_bank) (sa + k) j)))) 0.

Definition mvmul_compute (m : matrix) (num_rows sa sb dest_base : Z)
    (bcast mask_bit16 : bool) : matrix :=
  set_dest m (for_loop 0 num_rows (fun i d =>
    let sb_idx := sb + (if bcast then 0 else i) in
    let d_idx := dest_base + i in
    if (SRCB_ROWS <=? sb_idx) || (DEST_ROWS <=? d_idx) then d
    else for_loop 0 ROW_SIZE (fun j d =>
      aset d (dest_ix d_idx j)
        (f32_add (aget d (dest_ix d_idx j)) (dot_row m sa sb_idx j mask_bit16))) d) m.(dest)).

(** A bank that ZEROSRC cleared is skipped when the other one has data. *)
Definition skip_zeroed_srcb (m : matrix) : matrix :=
  let b := m.(math_srcb_bank) in
  if bget m.(srcb_zeroed) b && bget m.(srcb_dvalid) (b ^. 1) &&
     negb (bget m.(srcb_zeroed) (b ^. 1))
  then set_math_srcb_bank
         (set_srcb_zeroed (set_srcb_dvalid m (bset m.(srcb_dvalid) b false))
            (bset m.(srcb_zeroed) b false)) (b ^. 1)
  else m.

(** [mop_cfg1] is [mop_cfg[1]] of the thread: its inner loop count tells the
    fidelity mode. *)
Definition ttmvmul (mop_cfg1 : Z) : handler := fun u imm tid =>
  let m := u.(u_matrix) in
  if negb (srca_ready m) then (u, false)
  else if negb (srcb_ready m) then (u, false)
  else
    let u := on_matrix skip_zeroed_srcb u in
    let clear_dvalid := field imm 22 3 in
    let instr_mod19 := field imm 19 7 in
    let addr_mode := field imm 14 0x1F in
    let bcast := nz (instr_mod19 &. 1) in
    let num_rows := if bcast then 7 else 8 in
    let sa := aget u.(u_rwc).(srca_rwc) tid &. 0x38 in
    let sb := aget u.(u_rwc).(srcb_rwc) tid &. (if bcast then 0x3F else 0x38) in
    let dest_base := dest_row u tid (imm &. 0x3FFF) &. (0x400 - num_rows) in
    let mask_bit16 := (mop_cfg1 &. 127) <=? 2 in
    let u := if nz (aget u.(u_rwc).(fidelity) tid) then u
             else on_matrix (fun m =>
                    mvmul_compute m num_rows sa sb dest_base bcast mask_bit16) u in
    let u := on_matrix (flip_banks clear_dvalid) u in
    (apply_addr_mod u (addr_mode &. 7) tid, true).

(** ** Element-wise operations *)

(** The slices of the operands that a fidelity phase multiplies. *)
Definition elwmul_srca_bits (x phase : Z) : Z :=
  if (phase &. 1) =? 0 then x &. 0xfff80000 else f32_sub x (x &. 0xfff83fff).
Definition elwmul_srcb_bits (x phase : Z) : Z :=
  if (phase &. 2) =? 0 then x &. 0xfffe0000 else f32_sub x (x &. 0xfffe1fff).

(** Eight rows of Dest from eight rows of SrcA and SrcB; [f a b d] is the new
    value of a cell. *)
Definition elw_compute (f : Z -> Z -> Z -> Z) (sa sb dest_base : Z) (bcast_row bcast_col0 : bool)
    (m : matrix) : matrix :=
  set_dest m (for_loop 0 8 (fun i d =>
    let sa_idx := sa + i in
    let sb_idx := sb + (if bcast_row then 0 else i) in
    let d_idx := dest_base + i in
    if (SRCA_ROWS <=? sa_idx) || (SRCB_ROWS <=? sb_idx) || (DEST_ROWS <=? d_idx) then d
    else for_loop 0 ROW_SIZE (fun j d =>
      aset d (dest_ix d_idx j)
        (f (aget m.(srca) (src_ix m.(math_srca_bank) sa_idx j))
           (aget m.(srcb) (src_ix m.(math_srcb_bank) sb_idx (if bcast_col0 then 0 else j)))
           (aget d (dest_ix d_idx j)))) d) m.(dest)).

(** What ELWMUL, ELWADD and ELWSUB share; [f] may look at the operand
    ([dest_accum]) and at the fidelity phase. *)
Definition elw_insn (f : Z -> Z -> Z -> Z -> Z -> Z) : handler := fun u imm tid =>
  let m := u.(u_matrix) in
  if negb (srca_ready m) then (u, false)
  else if negb (srcb_ready m) then (u, false)
  else
    let clear_dvalid := field imm 22 3 in
    let dest_accum := field imm 21 1 in
    let instr_mod19 := field imm 19 3 in
    let addr_mode := field imm 14 7 in
    let bcast_row := nz (field instr_mod19 1 1) in
    let bcast_col0 := nz (instr_mod19 &. 1) in
    let sa := aget u.(u_rwc).(srca_rwc) tid &. 0x38 in
    let sb := aget u.(u_rwc).(srcb_rwc) tid &. (if bcast_row then 0x3F else 0x38) in
    let dest_base := dest_row u tid (imm &. 0x3FFF) &. 0x3F8 in
    let fid := aget u.(u_rwc).(fidelity) tid &. 3 in
    let u := on_matrix (elw_compute (f dest_accum fid) sa sb dest_base bcast_row bcast_col0) u in
    let u := on_matrix (flip_banks clear_dvalid) u in
    (apply_addr_mod u addr_mode tid, true).

Definition ttelwmul : handler :=
  elw_insn (fun _ fid a b d =>
    f32_add d (f32_mul (elwmul_srca_bits a fid) (elwmul_srcb_bits b fid))).
Definition ttelwadd : handler :=
  elw_insn (fun accum _ a b d =>
    let result := f32_add a b in if nz accum then f32_add result d else result).
Definition ttelwsub : handler :=
  elw_insn (fun accum _ a b d =>
    let result := f32_sub a b in if nz accum then f32_add result d else result).

(** ** Pooling *)

(** The maximum of [cur] and a column of SrcA. *)
Definition col_max (m : matrix) (sa j cur : Z) : Z :=
  for_loop 0 ROW_SIZE (fun k cur =>
    let a := if sa + k <? SRCA_ROWS
             then aget m.(srca) (src_ix m.(math_srca_bank) (sa + k) j) else 0 in
    if f32_lt cur a then a else cur) cur.

Definition ttgmpool : handler := fun u imm tid =>
  if negb (srca_ready u.(u_matrix)) then (u, false)
  else
    let clear_dvalid := field imm 22 3 in
    let addr_mode := field imm 15 0xF in
    let sa := aget u.(u_rwc).(srca_rwc) tid &. 0x30 in
    let dest_base := dest_row u tid (imm &. 0x3FFF) &. 0x3FF in
    let u := on_matrix (fun m =>
      if dest_base <? DEST_ROWS then
        set_dest m (for_loop 0 ROW_SIZE (fun j d =>
          let d := aset d (dest_ix dest_base j)
                     (col_max m sa j (aget d (dest_ix dest_base j))) in
          for_loop 1 3 (fun i d =>
            if dest_base + i <? DEST_ROWS then aset d (dest_ix (dest_base + i) j) 0 else d) d)
          m.(dest))
      else m) u in
    let u := on_matrix (flip_banks clear_dvalid) u in
    (apply_addr_mod u (addr_mode &. 7) tid, true).

Definition gapool_sum (m : matrix) (sa sb j : Z) : Z :=
  for_loop 0 ROW_SIZE (fun k sum =>
    let a := if sa + k <? SRCA_ROWS
             then aget m.(srca) (src_ix m.(math_srca_bank) (sa + k) j) else 0 in
    let b := if sb <? SRCB_ROWS then aget m.(srcb) (src_ix m.(math_srcb_bank) sb k) else 0 in
    f32_add sum (f32_mul b a)) 0.

Definition ttgapool : handler := fun u imm tid =>
  if negb (srca_ready u.(u_matrix)) then (u, false)
  else
    let clear_dvalid := field imm 22 3 in
    let addr_mode := field imm 15 0xF in
    let u :=
      if aget u.(u_rwc).(fidelity) tid =? 0 then
        let sa := aget u.(u_rwc).(srca_rwc) tid &. 0x38 in
        let sb := aget u.(u_rwc).(srcb_rwc) tid &. 0x38 in
        let dest_base := dest_row u tid (imm &. 0x3FFF) &. 0x3FF in
        on_matrix (fun m =>
          if dest_base <? DEST_ROWS then
            set_dest m (for_loop 0 ROW_SIZE (fun j d =>
              aset d (dest_ix dest_base j)
                (f32_add (aget d (dest_ix dest_base j)) (gapool_sum m sa sb j))) m.(dest))
          else m) u
      else u in
    let u := on_matrix (flip_banks clear_dvalid) u in
    (apply_addr_mod u (addr_mode &. 7) tid, true).
