(* ===== verification/TtPack.v ===== *)
(** * Tensix instructions that move tiles between L1 and the register files
      (src/tt_cop/tt_insn.c): the data formats, PACR, UNPACR, UNPACR_NOP *)

From Stdlib Require Import ZArith Lia Bool.
From stdpp Require Import base list numbers gmap.
From S2P Require Import Prelude Float32 Memory Tensix TtInsn TtMatrix.

(** ** Data formats *)

Definition get_datum_size (fmt : Z) : Z :=
  if (fmt =? 0) || (fmt =? 4) || (fmt =? 8) then 4
  else if (fmt =? 1) || (fmt =? 5) || (fmt =? 9) || (fmt =? 12) then 2
  else if (fmt =? 10) || (fmt =? 14) || (fmt =? 30) then 1
  else if (fmt =? 2) || (fmt =? 6) then 1
  else if (fmt =? 3) || (fmt =? 7) || (fmt =? 11) || (fmt =? 15) then 1
  else 4.

(** [while (!(mant & 0x400)) { mant <<= 1; exp--; }] on a half-precision
    denormal: ten rounds are enough for ten bits. *)
Fixpoint normalize_half (fuel : nat) (mant exp : Z) : Z * Z :=
  match fuel with
  | O => (mant, exp)
  | S fuel =>
      if nz (mant &. 0x400) then (mant, exp)
      else normalize_half fuel (mant <<. 1) (exp - 1)
  end.

Definition half_to_float (b : Z) : Z :=
  let sign := field b 15 1 in
  let exp := field b 10 0x1F in
  let mant := b &. 0x3FF in
  if exp =? 0 then
    if mant =? 0 then sign <<. 31
    else
      let '(mant, exp) := normalize_half 10 mant 1 in
      (sign <<. 31) |. ((exp + 112) <<. 23) |. ((mant &. 0x3FF) <<. 13)
  else if exp =? 31 then (sign <<. 31) |. 0x7F800000 |. (mant <<. 13)
  else (sign <<. 31) |. ((exp + 112) <<. 23) |. (mant <<. 13).

Definition datum_to_float (b fmt : Z) : Z :=
  if (fmt =? 0) || (fmt =? 4) then b
  else if fmt =? 5 then u32 (b <<. 16)
  else if fmt =? 1 then half_to_float b
  else if fmt =? 8 then f32_of_Z (s32 b)
  else if fmt =? 9 then f32_of_Z (u16 b)
  else if fmt =? 12 then f32_of_Z (s16 b)
  else if fmt =? 14 then
    let b := u8 b in
    if nz (b &. 0x80) then f32_neg (f32_of_Z (b &. 0x7F)) else f32_of_Z (b &. 0x7F)
  else if fmt =? 30 then f32_of_Z (u8 b)
  else 0.

Definition float_to_half (f : Z) : Z :=
  let sign := field f 31 1 in
  let exp := field f 23 0xFF - 127 + 15 in
  let mant := field f 13 0x3FF in
  if field f 23 0xFF =? 0 then sign <<. 15
  else if field f 23 0xFF =? 0xFF then (sign <<. 15) |. 0x7C00 |. mant
  else if exp <=? 0 then sign <<. 15
  else if 31 <=? exp then (sign <<. 15) |. 0x7C00
  else (sign <<. 15) |. (exp <<. 10) |. mant.

Definition float_to_datum (f fmt : Z) : Z :=
  if (fmt =? 0) || (fmt =? 4) then f
  else if fmt =? 5 then field f 16 0xFFFF
  else if fmt =? 1 then float_to_half f
  else if fmt =? 8 then u32 (f32_to_i32 f)
  else if fmt =? 9 then u16 (f32_to_i32 f)
  else if fmt =? 12 then u16 (f32_to_i32 f)
  else if fmt =? 14 then
    let sign := f32_lt f 0 in
    let mag := f32_to_i32 (if sign then f32_neg f else f) in
    let mag := if 127 <? mag then 127 else mag in
    u32 ((b2z sign <<. 7) |. mag)
  else if fmt =? 30 then u8 (f32_to_i32 f)
  else 0.

(** ** PACR: Dest to L1 *)

Definition l1_write8 (u : units) (off v : Z) : units :=
  set_u_heap u (<[u.(u_mem).(l1_scratchpad) + off := u8 v]> u.(u_heap)).

(** The block-float byte of a value, given the exponent of its group. *)
Definition bfp8_mantissa (b shared_exp : Z) : Z :=
  let mant := b &. 0x7FFFFF in
  let exp := field b 23 0xFF in
  let sign := field b 31 1 in
  let '(mant, sign) :=
    if exp =? 0 then (0, 0)
    else
      let mant := 0x800000 |. mant in
      let diff := if exp <? shared_exp then shared_exp - exp else 0 in
      let mant := (mant >>. diff) >>. 17 in
      let mant := if 127 <? mant then 127 else mant in
      (mant, if mant =? 0 then 0 else sign) in
  u8 ((sign <<. 7) |. mant).

(** One packer's source block: [y_count] rows of [x_count] columns of Dest. *)
Definition pack_value (u : units) (zero_write : bool) (src_addr row col : Z) : Z :=
  let d_idx := src_addr + row * 16 + col in
  let d_row := field d_idx 4 0x3FF in
  let d_col := d_idx &. 0xF in
  if negb zero_write && (d_row <? DEST_ROWS)
  then aget u.(u_matrix).(dest) (dest_ix d_row d_col) else 0.

(** Bfp8: 64 exponent bytes, then the mantissas, in groups of 16 values.  The
    source collects the values in a local array first; the cells that the two
    loops leave unset are taken as 0. *)
Definition pack_bfp8 (u : units) (zero_write : bool)
    (src_addr y_count x_count num_datums l1_base tile_off : Z) : units :=
  let bvals := for_loop 0 y_count (fun row a => for_loop 0 x_count (fun col a =>
    aset a (row * x_count + col) (pack_value u zero_write src_addr row col)) a) ∅ in
  for_loop 0 ((num_datums + 15) / 16) (fun g u =>
    let gi := g * 16 in
    let gend := if gi + 16 <=? num_datums then gi + 16 else num_datums in
    let shared_exp := for_loop gi (gend - gi) (fun k e =>
      let e' := field (aget bvals k) 23 0xFF in if e <? e' then e' else e) 0 in
    let exp_addr := u32 (l1_base + u32 (tile_off + gi) / 16) in
    let u := when (exp_addr <? 0x180000) (fun u => l1_write8 u exp_addr shared_exp) u in
    for_loop gi (gend - gi) (fun k u =>
      let mant_addr := u32 (l1_base + 64 + tile_off + k) in
      when (mant_addr <? 0x180000)
        (fun u => l1_write8 u mant_addr (bfp8_mantissa (aget bvals k) shared_exp)) u) u) u.

(** The other formats: one datum after the other. *)
Definition pack_plain (u : units) (zero_write : bool)
    (src_addr y_count x_count out_fmt out_dsb l1_addr : Z) : units :=
  for_loop 0 y_count (fun row u => for_loop 0 x_count (fun col u =>
    let raw := float_to_datum (pack_value u zero_write src_addr row col) out_fmt in
    let l1_off := u32 (l1_addr + (row * x_count + col) * out_dsb) in
    when (u32 (l1_off + out_dsb) <=? 0x180000) (fun u =>
      set_u_heap u (store (Z.to_nat out_dsb) u.(u_heap)
                      (u.(u_mem).(l1_scratchpad) + l1_off) raw)) u) u) u.

Definition adc_get (u : units) (t ch dim : Z) : Z := aget u.(adc) (adc_ix t ch dim).

(** Clear, carriage return or increment of a packer counter. *)
Definition pack_y_mod (ch incr cr clr : Z) (a : arr) : arr :=
  if nz clr then adc_set 2 ch 1 0 a
  else if nz cr then adc_inc_cr 2 ch 1 incr a
  else adc_inc 2 ch 1 incr a.
Definition pack_z_mod (ch incr clr : Z) (a : arr) : arr :=
  if nz clr then adc_set 2 ch 2 0 a else adc_inc 2 ch 2 incr a.

Definition pack_addr_mod (u : units) (pack_reg : Z) : units :=
  let a := u.(adc) in
  let a := pack_y_mod 0 (pack_reg &. 0xF) (field pack_reg 4 1) (field pack_reg 5 1) a in
  let a := pack_z_mod 0 (field pack_reg 12 1) (field pack_reg 13 1) a in
  let a := pack_y_mod 1 (field pack_reg 6 0xF) (field pack_reg 10 1) (field pack_reg 11 1) a in
  let a := pack_z_mod 1 (field pack_reg 14 1) (field pack_reg 15 1) a in
  set_adc u a.

(** Where packer [pck] reads Dest, in datums.  The strides are read once, before
    the packers write ([u0]), the offset of the packer when its turn comes. *)
Definition pack_src_addr (u0 u : units) (dst_access_mode : bool) (in_fmt pck : Z) : Z :=
  let cfg := tensix_read_cfg u0 in
  let m := in_fmt &. 3 in
  let bytes_per_datum := if m =? 0 then 4 else if m =? 1 then 2 else 1 in
  let adc_x_mask := if m =? 0 then 3 else if m =? 1 then 7 else 0xf in
  let ch0_x := adc_get u 2 0 0 in
  let addr_raw := u32 ((cfg 16 &. 0x3FFFF)
    + ch0_x * ((cfg 12 &. 0xFFFF) &. 0xF)
    + adc_get u 2 0 1 * field (cfg 12) 16 0xFFFF
    + adc_get u 2 0 2 * (cfg 13 &. 0xFFFF)
    + adc_get u 2 0 3 * field (cfg 13) 16 0xFFFF) in
  let addr := ((addr_raw / bytes_per_datum) &. u32 (Z.lnot adc_x_mask)) + (ch0_x &. adc_x_mask) in
  let dest_off_idx := if dst_access_mode then 180 else 180 + pck in
  let addr := addr + ((tensix_read_cfg u dest_off_idx &. 0xFFF) <<. 4) in
  let addr := addr + (if dst_access_mode then pck * 256 else 0) in
  addr &. 0x3FFF.

Definition ttpacr : handler := fun u imm tid =>
  let dst_access_mode := nz (field imm 17 1) in
  let addr_mode := field imm 15 3 in
  let zero_write := nz (field imm 12 1) in
  let read_intf_sel := field imm 8 0xF in
  let flush := nz (field imm 1 1) in
  let read_intf_sel := if read_intf_sel =? 0 then 1 else read_intf_sel in
  let cfg70 := tensix_read_cfg u 70 in
  let in_fmt := field cfg70 8 0xF in
  let out_fmt := field cfg70 4 0xF in
  let out_dsb := get_datum_size out_fmt in
  let cfg69 := tensix_read_cfg u 69 in
  let u := on_matrix (fun m => set_pack_l1_dest_addr_raw m cfg69) u in
  let l1_base := ((cfg69 + 1) &. 0x1FFFF) <<. 4 in
  let ysrc_incr0 := thd u tid 37 &. 0xF in
  let y_count := if 0 <? ysrc_incr0 then ysrc_incr0 else 1 in
  let num_datums :=
    if flush then 0
    else
      let x_count := if adc_get u 2 0 0 <=? adc_get u 2 1 0
                     then u32 (adc_get u 2 1 0 - adc_get u 2 0 0 + 1) else 0 in
      u32 (x_count * y_count) in
  let num_datums := if 1024 <? num_datums then 1024 else num_datums in
  let num_datums := if negb dst_access_mode && (read_intf_sel =? 0xA) then 0 else num_datums in
  let l1_p0 := u32 (l1_base + u.(u_matrix).(pack_l1_write_offset)) in
  let num_active := popcount (read_intf_sel &. 0xF) in
  let num_active := if num_active =? 0 then 1 else num_active in
  let byte_lane_dup := negb dst_access_mode && ((read_intf_sel =? 5) || (read_intf_sel =? 0xA)) in
  let num_active := if byte_lane_dup then 1 else num_active in
  let x_count := if 0 <? num_datums then num_datums / y_count else 0 in
  let u0 := u in
  let '(_, u) := for_loop 0 4 (fun pck p =>
    let '(active_idx, u) := p in
    if negb (nz (read_intf_sel &. (1 <<. pck))) then (active_idx, u)
    else if byte_lane_dup && ((pck =? 2) || (pck =? 3)) then (active_idx, u)
    else
      let src_addr := pack_src_addr u0 u dst_access_mode in_fmt pck in
      let l1_addr := u32 (l1_p0 + active_idx * num_datums * out_dsb) in
      (active_idx + 1,
       if negb (nz u.(u_mem).(l1_scratchpad)) || (num_datums =? 0) then u
       else if (out_fmt =? 6) || (out_fmt =? 2) then
         pack_bfp8 u zero_write src_addr y_count x_count num_datums l1_base
           (u32 (l1_addr - l1_base))
       else pack_plain u zero_write src_addr y_count x_count out_fmt out_dsb l1_addr)) (0, u) in
  let u := when (0 <? num_datums) (on_matrix (fun m =>
    set_pack_l1_write_offset m
      (u32 (m.(pack_l1_write_offset) + num_active * num_datums * out_dsb)))) u in
  (pack_addr_mod u (thd u tid (37 + addr_mode)), true).

(** ** UNPACR: L1 to SrcA, SrcB or Dest *)

(** A [uint8_t] and a datum of [dsb] bytes of the scratchpad. *)
Definition l1_read8 (u : units) (off : Z) : Z :=
  heap_get u.(u_heap) (u.(u_mem).(l1_scratchpad) + off).
Definition l1_read (u : units) (dsb off : Z) : Z :=
  load (Z.to_nat dsb) u.(u_heap) (u.(u_mem).(l1_scratchpad) + off).

(** Tileize mode: where datum [eff_i] of the tile lies in row-major L1. *)
Definition tileize_addr (in_addr shift_amount dsb input_num_datums eff_i : Z) : Z :=
  let tile_row_bytes := u32 (shift_amount * 16) in
  let num_face_cols := if 512 <? input_num_datums then 2 else 1 in
  let face_idx := eff_i / 256 in
  let pos_in_face := eff_i mod 256 in
  let row_in_face := pos_in_face / 16 in
  let col_in_face := pos_in_face mod 16 in
  let face_col := face_idx mod num_face_cols in
  let face_row := face_idx / num_face_cols in
  let global_row := face_row * 16 + row_in_face in
  let global_col := face_col * 16 + col_in_face in
  u32 (in_addr + global_row * tile_row_bytes + global_col * dsb).

(** The float of a Bfp8 datum: 0 when either part is 0. *)
Definition bfp8_float (sh_exp mant_b : Z) : Z :=
  let sign7 := mant_b >>. 7 in
  let mant7 := mant_b &. 0x7F in
  if nz mant7 && nz sh_exp
  then (sign7 <<. 31) |. (sh_exp <<. 23) |. ((mant7 <<. 17) &. 0x7FFFFF) else 0.

(** The fields that UNPACR collects before its loop. *)
Record unpack_cfg : Type := mk_unpack_cfg {
  uc_in_fmt : Z; uc_out_fmt : Z; uc_haloize : bool; uc_tileize : bool;
  uc_shift_amount : Z; uc_to_dst : bool; uc_in_addr : Z; uc_in_addr_datums : Z;
  uc_first_datum : Z; uc_num_datums : Z; uc_out_addr : Z
}.

(** The value of datum [i], its raw bits, and whether it was read. *)
Definition unpack_datum (u : units) (c : unpack_cfg) (i : Z) : Z * Z * bool :=
  let dsb := get_datum_size c.(uc_in_fmt) in
  let generic l1_byte :=
    if u32 (l1_byte + dsb) <=? 0x180000 then
      let raw := l1_read u dsb l1_byte in
      (datum_to_float raw c.(uc_in_fmt), raw, true)
    else (0, 0, false) in
  let eff_i := u32 (c.(uc_first_datum) + i) in
  if c.(uc_tileize) && (0 <? c.(uc_shift_amount)) then
    generic (tileize_addr c.(uc_in_addr) c.(uc_shift_amount) dsb c.(uc_num_datums) eff_i)
  else if (c.(uc_in_fmt) =? 6) || (c.(uc_in_fmt) =? 2) then
    let face := eff_i / 256 in
    let pos := eff_i mod 256 in
    let exp_a := u32 (c.(uc_in_addr) + face * 16 + pos / 16) in
    let mant_a := u32 (c.(uc_in_addr) + 64 + face * 256 + pos) in
    if (exp_a <? 0x180000) && (mant_a <? 0x180000)
    then (bfp8_float (l1_read8 u exp_a) (l1_read8 u mant_a), 0, true)
    else (0, 0, false)
  else generic (u32 (c.(uc_in_addr_datums) + i * dsb)).

(** Datum [i] goes to SrcB, to Dest, or to SrcA (transposed within its face in
    haloize mode). *)
Definition unpack_store (c : unpack_cfg) (which_unp i : Z) (v : Z * Z * bool) (m : matrix)
    : matrix :=
  let '(val, raw, has_raw) := v in
  let datum_idx := u32 (c.(uc_out_addr) + i) in
  let row := datum_idx / 16 in
  let col := datum_idx &. 15 in
  if which_unp =? 1 then
    let row := row &. 0x3F in
    let m := set_srcb m (aset m.(srcb) (src_ix m.(unp_srcb_bank) row col) val) in
    set_srcb_zeroed m (bset m.(srcb_zeroed) m.(unp_srcb_bank) false)
  else if c.(uc_to_dst) then
    let row := u32 (row - 4) &. 0x3FF in
    let write_raw := has_raw && (c.(uc_in_fmt) =? 0) &&
      ((c.(uc_out_fmt) =? 0) || (c.(uc_out_fmt) =? 4) || (c.(uc_out_fmt) =? 8)) in
    set_dest m (aset m.(dest) (dest_ix row col) (if write_raw then raw else val))
  else
    let '(row, col) := if c.(uc_haloize)
                       then ((row &. 0xFFFFFFF0) |. col, row &. 0xf) else (row, col) in
    let row := row &. 0x3F in
    set_srca m (aset m.(srca) (src_ix m.(unp_srca_bank) row col) val).

(** The configuration of this call, from ThreadConfig, the configuration
    registers and the address counters. *)
Definition unpack_config (u : units) (imm tid : Z) : unpack_cfg :=
  let cfg := tensix_read_cfg u in
  let which_unp := field imm 23 1 in
  let multi_ctx := nz (field imm 7 1) in
  let bank := (thd u tid 0 &. 1) * 224 in
  let misc_cfg := thd u tid 41 in
  let which_ctx :=
    if multi_ctx
    then (if which_unp =? 0 then misc_cfg &. 0xF else field misc_cfg 8 0xF) &. 3 else 0 in
  let sec a b := (if which_unp =? 0 then a else b) + bank in
  let td_base := sec 64 112 in
  let reg2_off := sec 72 120 in
  let reg3_off := sec 76 124 + which_ctx in
  let reg7_off := sec 92 140 + which_ctx in
  let td0 := cfg td_base in
  let td1 := cfg (td_base + 1) in
  let td3 := cfg (td_base + 3) in
  let x_dim :=
    if multi_ctx && (which_unp =? 0) then
      let reg_val := cfg (if which_ctx <? 2 then 86 + bank else 87 + bank) in
      field reg_val (if nz (which_ctx &. 1) then 16 else 0) 0xFFFF
    else field td0 16 0xFFFF in
  let y_dim := td1 &. 0xFF in
  let z_dim := field td1 16 0xFF in
  let z_dim := if z_dim =? 0 then 1 else z_dim in
  let digest_size := field td3 24 0xFF in
  let reg2 := cfg reg2_off in
  let ovrd := multi_ctx && nz (field reg2 12 1) in
  let in_fmt := if ovrd then cfg reg7_off &. 0xF else td0 &. 0xF in
  let out_fmt := if ovrd then field (cfg reg7_off) 4 0xF else reg2 &. 0xF in
  let to_dst := (which_unp =? 0) &&
    (nz (field (cfg (73 + bank)) (4 + which_ctx) 1) || nz (field (cfg (72 + bank)) 11 1)) in
  let offset_addr := cfg reg7_off &. 0xFFFF in
  let in_addr := u32 ((cfg reg3_off + offset_addr + 1 + digest_size) * 16) in
  let dsb := get_datum_size in_fmt in
  let g := adc_get u which_unp in
  let x_pos := g 0 0 in
  let x_end := u32 (g 1 0 + 1) in
  let num := if x_pos <? x_end then x_end - x_pos else 0 in
  let num := if 1024 <? num then 1024 else num in
  let face_stride := if 0 <? x_dim then x_dim else num in
  let first := u32 (((g 0 3 * z_dim + g 0 2) * y_dim + g 0 1) * face_stride + x_pos) in
  let out_addr := u32 ((cfg (sec 49 61) &. 0x3FFFF)
    + g 1 1 * field (cfg (sec 56 58)) 16 0xFFFF
    + g 1 2 * (cfg (sec 57 59) &. 0xFFFF)
    + g 1 3 * field (cfg (sec 57 59)) 16 0xFFFF) in
  let out_addr :=
    if (out_fmt =? 0) || (out_fmt =? 4) || (out_fmt =? 8) then out_addr >>. 2
    else if (out_fmt =? 1) || (out_fmt =? 5) || (out_fmt =? 9) || (out_fmt =? 12)
    then out_addr >>. 1 else out_addr in
  let out_addr :=
    if to_dst then
      let dst_ctx := thd u tid 41 &. 1 in
      u32 (out_addr + (if dst_ctx =? 0 then cfg 84 &. 0xFFFF else field (cfg 84) 16 0xFFFF))
    else out_addr in
  mk_unpack_cfg in_fmt out_fmt (nz (field reg2 8 1)) (nz (field reg2 9 1))
    (field reg2 16 0xFFFF) to_dst in_addr (u32 (in_addr + first * dsb)) first num out_addr.

Definition unp_busy (m : matrix) (which_unp : Z) : bool :=
  if which_unp =? 0 then bget m.(srca_dvalid) m.(unp_srca_bank)
  else bget m.(srcb_dvalid) m.(unp_srcb_bank).

Definition ttunpacr : handler := fun u imm tid =>
  let which_unp := field imm 23 1 in
  let addr_mode_field := field imm 15 0xFF in
  let set_dat_valid := nz (field imm 6 1) in
  let zero_write := nz (field imm 4 1) in
  if nz (field imm 1 1) then (u, true)
  else if nz (field imm 13 3) then (u, true)
  else if unp_busy u.(u_matrix) which_unp then (u, false)
  else
    let c := unpack_config u imm tid in
    let u :=
      if nz u.(u_mem).(l1_scratchpad) && (0 <? c.(uc_num_datums)) then
        on_matrix (for_loop 0 c.(uc_num_datums) (fun i m =>
          unpack_store c which_unp i
            (if zero_write then (0, 0, false) else unpack_datum u c i) m)) u
      else u in
    let u := when set_dat_valid (on_matrix (fun m =>
      if which_unp =? 0
      then flip_srca_unp (set_last_unp_srca_bank m m.(unp_srca_bank))
      else flip_srcb_unp m)) u in
    let inc ch dim lo := adc_inc which_unp ch dim (field addr_mode_field lo 3) in
    (set_adc u (inc 1 2 4 (inc 1 1 6 (inc 0 2 0 (inc 0 1 2 u.(adc))))), true).

(** ** UNPACR_NOP *)

Definition ttunpacr_nop : handler := fun u imm tid =>
  let which_unp := field imm 23 1 in
  let give := on_matrix (if which_unp =? 0 then flip_srca_unp else flip_srcb_unp) in
  if (imm &. 3) =? 1 then
    let wait_like_unpacr := nz (field imm 4 1) in
    let both_banks := nz (field imm 3 1) in
    let neg_inf_srca := nz (field imm 2 1) in
    let set_dvalid := field imm 8 0xF in
    let m := u.(u_matrix) in
    let busy :=
      if which_unp =? 0
      then bget m.(srca_dvalid) (if wait_like_unpacr then m.(unp_srca_bank) else m.(math_srca_bank))
      else bget m.(srcb_dvalid) (if wait_like_unpacr then m.(unp_srcb_bank) else m.(math_srcb_bank)) in
    if busy then (u, false)
    else
      let u := on_matrix (fun m =>
        if which_unp =? 0 then
          set_mova2d_bank_valid
            (set_srca m (fill_banks both_banks m.(unp_srca_bank)
                           (if neg_inf_srca then 0xFFFFFFFF else 0) m.(srca))) false
        else
          set_srcb_zeroed
            (set_srcb m (fill_banks both_banks m.(unp_srcb_bank) 0 m.(srcb)))
            (for_loop 0 2 (fun b z =>
               when (both_banks || (b =? m.(unp_srcb_bank))) (fun z => bset z b true) z)
               m.(srcb_zeroed))) u in
      (when (nz set_dvalid) give u, true)
  else if (imm &. 7) =? 7 then (give u, true)
  else (u, true).
