(* ===== verification/TtSfpu.v ===== *)
(** * Tensix instructions of the vector unit (src/tt_cop/tt_insn.c, sfp...)

    Every instruction is a loop over the 32 lanes; a lane takes part when its
    flags enable it.  [VD] has four bits, so the tests for register 16 of the
    source never hold; they are kept where they guard a write. *)

From Stdlib Require Import ZArith Lia Bool.
From stdpp Require Import base list numbers gmap.
From S2P Require Import Prelude Float32 Memory Tensix TtInsn TtMatrix.

Definition lr (s : sfpu) (r lane : Z) : Z := aget s.(lreg) (lreg_ix r lane).
Definition set_lr (s : sfpu) (r lane v : Z) : sfpu :=
  set_lreg s (aset s.(lreg) (lreg_ix r lane) v).

(** [vd < 8 || vd == 16]: the registers that most instructions may write. *)
Definition writable (vd : Z) : bool := (vd <? 8) || (vd =? 16).
Definition put_lr (s : sfpu) (vd lane v : Z) : sfpu :=
  if writable vd then set_lr s vd lane v else s.

Definition lane_enabled (s : sfpu) (lane : Z) : bool :=
  negb (bget s.(use_lane_flags) lane) || bget s.(lane_flags) lane.

Definition set_flag (s : sfpu) (lane : Z) (b : bool) : sfpu :=
  set_lane_flags s (bset s.(lane_flags) lane b).
Definition set_use_flag (s : sfpu) (lane : Z) (b : bool) : sfpu :=
  set_use_lane_flags s (bset s.(use_lane_flags) lane b).

(** The loop over all lanes, and over those that are enabled when their turn
    comes. *)
Definition for_all_lanes (f : Z -> sfpu -> sfpu) (s : sfpu) : sfpu :=
  for_loop 0 LREG_LANES f s.
Definition for_lanes (f : Z -> sfpu -> sfpu) : sfpu -> sfpu :=
  for_all_lanes (fun lane s => if lane_enabled s lane then f lane s else s).

Definition sfp_vb (imm : Z) : Z := field imm 12 0xF.
Definition sfp_vc (imm : Z) : Z := field imm 8 0xF.
Definition sfp_vd (imm : Z) : Z := field imm 4 0xF.
Definition sfp_mod1 (imm : Z) : Z := imm &. 0xF.
Definition sfp_imm12 (imm : Z) : Z := field imm 12 0xFFF.

(** An instruction that acts on the vector unit alone and always completes. *)
Definition sfp (f : Z -> sfpu -> sfpu) : handler := fun u imm tid => (on_sfpu (f imm) u, true).

(** [if (vd >= 8 && vd != 16) return true;] before the loop. *)
Definition sfp_write (f : Z -> Z -> sfpu -> sfpu) : handler :=
  sfp (fun imm s => if writable (sfp_vd imm) then for_lanes (f imm) s else s).

(** The sign-extended 12-bit immediate, as a signed number. *)
Definition simm12 (imm12 : Z) : Z := sext 12 imm12.

Definition sfpnop : handler := fun u _ _ => (u, true).

(** ** Loads, stores and immediates *)

(** Lane [lane] of a transfer at [addr]: row and column of Dest. *)
Definition sfp_row (addr lane : Z) : Z := u32 ((addr &. 0xFFFFFFFC) + lane / 8).
Definition sfp_col (addr lane : Z) : Z := (lane &. 7) * 2 + (if nz (addr &. 2) then 1 else 0).

Definition sfpload : handler := fun u imm tid =>
  let lreg_ind := field imm 20 0xF in
  let sfpu_addr_mode := field imm 13 7 in
  if 8 <=? lreg_ind then (apply_addr_mod u sfpu_addr_mode tid, true)
  else
    let addr := dest_row u tid (imm &. 0x1FFF) in
    let d := u.(u_matrix).(dest) in
    let u := on_sfpu (for_all_lanes (fun lane s =>
      let row := sfp_row addr lane in
      let col := sfp_col addr lane in
      if (row <? DEST_ROWS) && (col <? ROW_SIZE)
      then set_lr s lreg_ind lane (aget d (dest_ix row col)) else s)) u in
    (apply_addr_mod u sfpu_addr_mode tid, true).

Definition sfpstore : handler := fun u imm tid =>
  let lreg_ind := field imm 20 0xF in
  let instr_mod0 := field imm 16 0xF in
  let sfpu_addr_mode := field imm 13 7 in
  let addr := dest_row u tid (imm &. 0x1FFF) in
  let s := u.(u_sfpu) in
  let u := on_matrix (fun m => set_dest m
    (for_loop 0 LREG_LANES (fun lane d =>
       if negb (lane_enabled s lane) && negb (instr_mod0 =? 10) then d
       else
         let row := sfp_row addr lane in
         let col := sfp_col addr lane in
         if (row <? DEST_ROWS) && (col <? ROW_SIZE)
         then aset d (dest_ix row col) (lr s lreg_ind lane) else d) m.(dest))) u in
  (apply_addr_mod u sfpu_addr_mode tid, true).

Definition loadi_value (mod0 imm16 old : Z) : Z :=
  if mod0 =? 0 then imm16 <<. 16
  else if mod0 =? 2 then imm16
  else if mod0 =? 4 then u32 (s16 imm16)
  else if mod0 =? 8 then (imm16 <<. 16) |. (old &. 0xFFFF)
  else if mod0 =? 10 then (old &. 0xFFFF0000) |. imm16
  else if mod0 =? 1 then
    (field imm16 15 1 <<. 31) |. ((field imm16 10 0x1f + 112) <<. 23) |. ((imm16 &. 0x3ff) <<. 13)
  else imm16 <<. 16.

Definition sfploadi : handler := sfp (fun imm s =>
  let vd := field imm 20 0xF in
  if 8 <=? vd then s
  else for_lanes (fun lane s =>
         set_lr s vd lane (loadi_value (field imm 16 0xF) (imm &. 0xFFFF) (lr s vd lane))) s).

(** ** Floating point *)

(** [(mod1 & 8) && vd != 16 ? (lreg[7][lane] & 15) : vd] *)
Definition indirect_vd (s : sfpu) (mod1 vd lane : Z) : Z :=
  if nz (mod1 &. 8) && negb (vd =? 16) then lr s 7 lane &. 15 else vd.

Definition sfp_imm_op (op : Z -> Z -> Z) : handler := sfp (fun imm s =>
  let bf16 := field imm 8 0xFFFF <<. 16 in
  let vd := sfp_vd imm in
  let mod1 := sfp_mod1 imm in
  for_lanes (fun lane s =>
    let c := lr s vd lane in
    let c := if nz (mod1 &. 2) then f32_neg c else c in
    put_lr s (indirect_vd s mod1 vd lane) lane (op bf16 c)) s).
Definition sfpmuli : handler := sfp_imm_op (fun a c => f32_add (f32_mul a c) 0).
Definition sfpaddi : handler := sfp_imm_op (fun a c => f32_add a c).

Definition sfp_mad_common : handler := sfp (fun imm s =>
  let va := field imm 16 0xF in
  let vb := sfp_vb imm in
  let vc := sfp_vc imm in
  let vd := sfp_vd imm in
  let mod1 := sfp_mod1 imm in
  if 12 <=? vd then s
  else for_lanes (fun lane s =>
    let src_a := if nz (mod1 &. 4) then lr s 7 lane &. 15 else va in
    let a := lr s src_a lane in
    let b := lr s vb lane in
    let c := lr s vc lane in
    let a := if nz (mod1 &. 1) then a ^. 0x80000000 else a in
    let c := if nz (mod1 &. 2) then c ^. 0x80000000 else c in
    put_lr s (indirect_vd s mod1 vd lane) lane (f32_add (f32_mul a b) c)) s).
Definition sfpmad : handler := sfp_mad_common.
Definition sfpadd : handler := sfp_mad_common.
Definition sfpmul : handler := sfp_mad_common.

Definition sfpexexp : handler := sfp_write (fun imm lane s =>
  let vd := sfp_vd imm in
  let mod1 := sfp_mod1 imm in
  let exp := field (lr s (sfp_vc imm) lane) 23 0xFF in
  let exp := if nz (mod1 &. 1) then exp else exp - 127 in
  let s := put_lr s vd lane exp in
  if vd <? 8 then
    let s := if nz (mod1 &. 2) then set_flag s lane (exp <? 0) else s in
    if nz (mod1 &. 8) then set_flag s lane (negb (bget s.(lane_flags) lane)) else s
  else s).

Definition sfpexman : handler := sfp_write (fun imm lane s =>
  let mantissa := lr s (sfp_vc imm) lane &. 0x7FFFFF in
  let mantissa := if nz (sfp_mod1 imm &. 1) then mantissa else mantissa |. 0x800000 in
  put_lr s (sfp_vd imm) lane mantissa).

Definition sfpsetexp : handler := sfp_write (fun imm lane s =>
  let vd := sfp_vd imm in
  let mod1 := sfp_mod1 imm in
  let c := lr s (sfp_vc imm) lane in
  let exp := if nz (mod1 &. 1) then sfp_imm12 imm &. 0xFF
             else if nz (mod1 &. 2) then field (lr s vd lane) 23 0xFF
             else lr s vd lane &. 0xFF in
  put_lr s vd lane ((c &. 0x80000000) |. (exp <<. 23) |. (c &. 0x7FFFFF))).

Definition sfpsetsgn : handler := sfp_write (fun imm lane s =>
  let vd := sfp_vd imm in
  let c := lr s (sfp_vc imm) lane in
  let sign := if nz (sfp_mod1 imm &. 1) then sfp_imm12 imm &. 1 else lr s vd lane >>. 31 in
  set_lr s vd lane ((sign <<. 31) |. (c &. 0x7FFFFFFF))).

(** ** Integers and bits *)

Definition sfpiadd : handler := sfp_write (fun imm lane s =>
  let vc := sfp_vc imm in
  let vd := sfp_vd imm in
  let mod1 := sfp_mod1 imm in
  let result := u32
    (if nz (mod1 &. 1) then lr s vc lane + simm12 (sfp_imm12 imm)
     else if nz (mod1 &. 2) then lr s vc lane - lr s vd lane
     else lr s vc lane + lr s vd lane) in
  let s := set_lr s vd lane result in
  if vd <? 8 then
    let s := if nz (mod1 &. 4) then s else set_flag s lane (s32 result <? 0) in
    if nz (mod1 &. 8) then set_flag s lane (negb (bget s.(lane_flags) lane)) else s
  else s).

Definition sfpshft : handler := sfp_write (fun imm lane s =>
  let vc := sfp_vc imm in
  let vd := sfp_vd imm in
  let mod1 := sfp_mod1 imm in
  let val := if nz (mod1 &. 1) && nz (mod1 &. 4) then lr s vc lane else lr s vd lane in
  let shift := if nz (mod1 &. 1) then simm12 (sfp_imm12 imm) else s32 (lr s vc lane) in
  let result :=
    if 0 <=? shift then val <<. (shift &. 31)
    else
      let n := (- shift) &. 31 in
      if nz (mod1 &. 2) then s32 val >>. n else val >>. n in
  put_lr s vd lane result).

Definition sfpabs : handler := sfp_write (fun imm lane s =>
  let x := lr s (sfp_vc imm) lane in
  let x :=
    if 0x80000000 <=? x then
      if nz (sfp_mod1 imm &. 1) then if x <=? 0xff800000 then x &. 0x7fffffff else x
      else u32 (- s32 x)
    else x in
  set_lr s (sfp_vd imm) lane x).

Definition sfp_bitop (op : Z -> Z -> Z) : handler := sfp_write (fun imm lane s =>
  let vd := sfp_vd imm in
  let src := if nz (sfp_mod1 imm &. 1) then sfp_vb imm else vd in
  set_lr s vd lane (op (lr s src lane) (lr s (sfp_vc imm) lane))).
Definition sfpand : handler := sfp_bitop Z.land.
Definition sfpor : handler := sfp_bitop Z.lor.
Definition sfpxor : handler := sfp_write (fun imm lane s =>
  set_lr s (sfp_vd imm) lane (lr s (sfp_vd imm) lane ^. lr s (sfp_vc imm) lane)).
Definition sfpnot : handler := sfp_write (fun imm lane s =>
  set_lr s (sfp_vd imm) lane (Z.lnot (lr s (sfp_vc imm) lane))).

(** The pseudo-random generator of a lane: a shift register. *)
Definition advance_prng (s : sfpu) (lane : Z) : sfpu * Z :=
  let result := aget s.(prng_state) lane in
  let taps := popcount (result &. 0x80200003) in
  (set_prng_state s (aset s.(prng_state) lane
     (u32 (Z.lnot taps <<. 31) |. (result >>. 1))), result).

Definition sfpmov : handler := sfp (fun imm s =>
  let vc := sfp_vc imm in
  let vd := sfp_vd imm in
  let mod1 := sfp_mod1 imm in
  if 12 <=? vd then s
  else for_all_lanes (fun lane s =>
    if negb (lane_enabled s lane) && negb (mod1 =? 2) then s
    else
      let '(s, x) :=
        if nz (mod1 &. 8) then if vc =? 9 then advance_prng s lane else (s, 0)
        else (s, if nz (mod1 &. 1) then lr s vc lane ^. 0x80000000 else lr s vc lane) in
      put_lr s vd lane x) s).

(** Stochastic rounding of a float to 10 or 7 mantissa bits. *)
Definition stochrnd_value (rnd_mode mod1 prng x : Z) : Z :=
  let prng_bits := if rnd_mode =? 0 then 0x400000 else if rnd_mode =? 2 then 0x7fffff
                   else prng &. 0x7fffff in
  if mod1 <=? 1 then
    let exp := field x 23 0xFF in
    if exp =? 0 then 0
    else if exp =? 0xFF then x &. 0xff800000
    else if mod1 =? 0 then
      let discarded := x &. 0x1fff in
      u32 (x - discarded + (if (prng_bits >>. 10) <=? discarded then 0x2000 else 0))
    else
      let discarded := x &. 0xffff in
      u32 (x - discarded + (if (prng_bits >>. 7) <=? discarded then 0x10000 else 0))
  else x.

Definition sfpstochrnd : handler := sfp (fun imm s =>
  let vd := sfp_vd imm in
  if 12 <=? vd then s
  else for_lanes (fun lane s =>
    let '(s, prng) := advance_prng s lane in
    put_lr s vd lane
      (stochrnd_value (field imm 21 7) (sfp_mod1 imm) prng (lr s (sfp_vc imm) lane))) s).

Definition sfpcast : handler := sfp_write (fun imm lane s =>
  let mod1 := sfp_mod1 imm in
  let c := lr s (sfp_vc imm) lane in
  let sign := c &. 0x80000000 in
  let result :=
    if mod1 =? 3 then if nz sign then sign |. u32 (- s32 c) else c
    else if mod1 =? 2 then u32 (if s32 c <? 0 then - s32 c else s32 c)
    else (f32_of_Z (c &. 0x7FFFFFFF) &. 0x7FFFFFFF) |. sign in
  put_lr s (sfp_vd imm) lane result).

(** ** Conditions *)

(** [VD >= 12] disables the condition instructions. *)
Definition sfp_cond (f : Z -> Z -> sfpu -> sfpu) : handler :=
  sfp (fun imm s => if 12 <=? sfp_vd imm then s else for_all_lanes (f imm) s).

Definition sfpsetcc : handler := sfp_cond (fun imm lane s =>
  let mod1 := sfp_mod1 imm in
  if negb (lane_enabled s lane) then s
  else if negb (bget s.(use_lane_flags) lane) then set_flag s lane false
  else if nz (mod1 &. 8) then set_flag s lane false
  else if nz (mod1 &. 1) then set_flag s lane (nz (sfp_imm12 imm &. 1))
  else
    let c := s32 (lr s (sfp_vc imm) lane) in
    if mod1 =? 0 then set_flag s lane (c <? 0)
    else if mod1 =? 2 then set_flag s lane (negb (c =? 0))
    else if mod1 =? 4 then set_flag s lane (0 <=? c)
    else if mod1 =? 6 then set_flag s lane (c =? 0)
    else s).

Definition sfpencc : handler := sfp_cond (fun imm lane s =>
  let mod1 := sfp_mod1 imm in
  let imm2 := sfp_imm12 imm &. 3 in
  let s := if nz (mod1 &. 2) then set_use_flag s lane (nz (imm2 &. 1))
           else if nz (mod1 &. 1) then set_use_flag s lane (negb (bget s.(use_lane_flags) lane))
           else s in
  set_flag s lane (if nz (mod1 &. 8) then nz (imm2 &. 2) else true)).

(** The cells of the flag stack. *)
Definition stack_ix (depth lane : Z) : Z := depth * 32 + lane.
Definition stack_flag (s : sfpu) (lane : Z) : bool :=
  bget s.(stack_lane_flags) (stack_ix s.(flag_stack_top) lane).
Definition stack_use (s : sfpu) (lane : Z) : bool :=
  bget s.(stack_use_lane_flags) (stack_ix s.(flag_stack_top) lane).
Definition set_stack (s : sfpu) (lane : Z) (use flag : bool) : sfpu :=
  set_stack_lane_flags
    (set_stack_use_lane_flags s
       (bset s.(stack_use_lane_flags) (stack_ix s.(flag_stack_top) lane) use))
    (bset s.(stack_lane_flags) (stack_ix s.(flag_stack_top) lane) flag).

(** The boolean functions 1 to 12 of SFPPUSHC and SFPPOPC. *)
Definition boolean_op (mod1 : Z) (a b : bool) : bool :=
  if mod1 =? 1 then b else if mod1 =? 2 then negb b
  else if mod1 =? 3 then a && b else if mod1 =? 4 then a || b
  else if mod1 =? 5 then a && negb b else if mod1 =? 6 then a || negb b
  else if mod1 =? 7 then negb a && b else if mod1 =? 8 then negb a || b
  else if mod1 =? 9 then negb a && negb b else if mod1 =? 10 then negb a || negb b
  else if mod1 =? 11 then xorb a b else if mod1 =? 12 then eqb a b else false.

Definition sfppushc : handler := sfp (fun imm s =>
  let vd := sfp_vd imm in
  let mod1 := sfp_mod1 imm in
  let s := if (mod1 =? 0) && (vd <? 12) && (s.(flag_stack_top) <? FLAG_STACK_DEPTH - 1)
           then set_flag_stack_top s (s.(flag_stack_top) + 1) else s in
  if 12 <=? vd then s
  else for_all_lanes (fun lane s =>
    let use := bget s.(use_lane_flags) lane in
    let flag := bget s.(lane_flags) lane in
    if s.(flag_stack_top) <? 0 then s
    else if mod1 =? 0 then set_stack s lane use flag
    else if mod1 <=? 12 then set_stack s lane use (boolean_op mod1 (stack_flag s lane) flag)
    else if mod1 =? 13 then
      let s := set_flag s lane (negb flag) in set_stack s lane use (negb flag)
    else if mod1 =? 14 then set_stack s lane true true
    else set_stack s lane true false) s).

Definition sfppopc : handler := sfp (fun imm s =>
  let vd := sfp_vd imm in
  let mod1 := sfp_mod1 imm in
  let s := if 12 <=? vd then s
    else for_all_lanes (fun lane s =>
      let has := 0 <=? s.(flag_stack_top) in
      let top_use := has && stack_use s lane in
      let top_flag := has && stack_flag s lane in
      let flag := bget s.(lane_flags) lane in
      if mod1 =? 0 then set_flag (set_use_flag s lane top_use) lane top_flag
      else if mod1 <=? 12 then
        set_flag (set_use_flag s lane top_use) lane (boolean_op mod1 flag top_flag)
      else if mod1 =? 13 then set_flag s lane (negb flag)
      else if mod1 =? 14 then set_flag (set_use_flag s lane true) lane true
      else set_flag (set_use_flag s lane true) lane false) s in
  if (mod1 =? 0) && (0 <=? s.(flag_stack_top))
  then set_flag_stack_top s (s.(flag_stack_top) - 1) else s).

Definition sfpcompc : handler := sfp_cond (fun imm lane s =>
  let has := 0 <=? s.(flag_stack_top) in
  let top_use := negb has || stack_use s lane in
  let top_flag := negb has || stack_flag s lane in
  if top_use && bget s.(use_lane_flags) lane
  then set_flag s lane (top_flag && negb (bget s.(lane_flags) lane))
  else set_flag s lane false).

(** ** Lane exchanges and configuration *)

(** Registers 0 to 3 and 4 to 7 as 4x4x8 tensors, first two axes swapped. *)
Definition sfptransp : handler := sfp (fun imm s =>
  if 12 <=? sfp_vd imm then s
  else for_loop 0 2 (fun b s =>
    let base := b * 4 in
    for_loop 0 8 (fun col => for_loop 0 4 (fun i => for_loop 0 i (fun j s =>
      let lane_ij := j * 8 + col in
      let lane_ji := i * 8 + col in
      let ij := lr s (base + i) lane_ij in
      let ji := lr s (base + j) lane_ji in
      let s := if lane_enabled s lane_ij then set_lr s (base + i) lane_ij ji else s in
      if lane_enabled s lane_ji then set_lr s (base + j) lane_ji ij else s))) s) s).

Definition sfpconfig : handler := sfp (fun imm s =>
  let imm16 := field imm 8 0xFFFF in
  let vd := sfp_vd imm in
  let mod1 := sfp_mod1 imm in
  if (11 <=? vd) && (vd <=? 14) then
    for_all_lanes (fun lane s =>
      set_lr s vd lane (if nz (mod1 &. 1) then imm16 <<. 16 else lr s 0 (lane &. 7))) s
  else s).

Definition sfpswap : handler := sfp_write (fun imm lane s =>
  let vc := sfp_vc imm in
  let vd := sfp_vd imm in
  let mod1 := sfp_mod1 imm in
  let d := lr s vd lane in
  let c := lr s vc lane in
  if (mod1 =? 0) || ((mod1 =? 1) && f32_lt c d)
  then put_lr (put_lr s vd lane c) vc lane d else s).

(** ** Tables *)

Definition lut16_to_fp32 (x : Z) : Z :=
  let exp := field x 10 0x1f in
  ((x >>. 15) <<. 31) |. ((if exp =? 0x1f then 0 else 112 + exp) <<. 23) |. ((x &. 0x3ff) <<. 13).

Definition F_0_5 : Z := 0x3F000000.
Definition F_1 : Z := 0x3F800000.
Definition F_1_5 : Z := 0x3FC00000.
Definition F_2 : Z := 0x40000000.
Definition F_3 : Z := 0x40400000.
Definition F_4 : Z := 0x40800000.

(** The coefficients [a] and [c] for the argument [b >= 0]. *)
Definition lut_coefficients (s : sfpu) (mod1 lane b : Z) : Z * Z :=
  let i := if f32_lt b F_1 then 0 else if f32_lt b F_2 then 1 else 2 in
  if nz (mod1 &. 2) then
    if (mod1 &. 10) =? 10 then
      (lut16_to_fp32 (field (lr s i lane) 16 0xffff), lut16_to_fp32 (lr s i lane &. 0xffff))
    else
      let cut := if (mod1 &. 3) =? 3 then F_4 else F_3 in
      let j := if f32_lt b F_0_5 then 0 else if f32_lt b F_1 then 16
               else if f32_lt b F_1_5 then 0 else if f32_lt b F_2 then 16
               else if f32_lt b cut then 0 else 16 in
      (lut16_to_fp32 (field (lr s i lane) j 0xffff),
       lut16_to_fp32 (field (lr s (4 + i) lane) j 0xffff))
  else (lr s i lane, lr s (4 + i) lane).

Definition sfplutfp32 : handler := sfp (fun imm s =>
  let vd := sfp_vd imm in
  let mod1 := sfp_mod1 imm in
  if 12 <=? vd then s
  else for_lanes (fun lane s =>
    let l3 := lr s 3 lane in
    let b := f32_abs l3 in
    let '(a, c) := lut_coefficients s mod1 lane b in
    let d := f32_add (f32_mul a b) c in
    let d := if nz (mod1 &. 4) then f32_copysign d l3 else d in
    put_lr s (indirect_vd s mod1 vd lane) lane d) s).

(** The table of [sfparecip_approx_recip]. *)
Definition recip_lut : list Z :=
  [127; 125; 123; 121; 119; 117; 116; 114; 112; 110; 109; 107; 105; 104; 102; 100; 99;
   97; 96; 94; 93; 91; 90; 88; 87; 85; 84; 83; 81; 80; 79; 77; 76; 75; 74; 72; 71; 70;
   69; 68; 66; 65; 64; 63; 62; 61; 60; 59; 58; 57; 56; 55; 54; 53; 52; 51; 50; 49; 48;
   47; 46; 45; 44; 43; 42; 41; 40; 40; 39; 38; 37; 36; 35; 35; 34; 33; 32; 31; 31; 30;
   29; 28; 28; 27; 26; 25; 25; 24; 23; 23; 22; 21; 21; 20; 19; 19; 18; 17; 17; 16; 15;
   15; 14; 14; 13; 12; 12; 11; 11; 10; 9; 9; 8; 8; 7; 7; 6; 5; 5; 4; 4; 3; 3; 2; 2; 1;
   1; 0].

(** The table of [sfparecip_approx_exp]. *)
Definition exp_lut : list Z :=
  [2; 2; 2; 2; 2; 2; 2; 2; 2; 2; 2; 2; 2; 2; 2; 2; 2; 2; 2; 2; 2; 2; 2; 2; 2; 2; 2; 2; 2;
   2; 2; 2; 2; 2; 2; 2; 2; 2; 2; 2; 2; 2; 2; 2; 2; 2; 2; 2; 2; 2; 2; 2; 2; 2; 2; 2; 2;
   2; 2; 2; 2; 2; 3; 3; 3; 3; 3; 3; 3; 3; 3; 3; 3; 3; 3; 3; 3; 3; 3; 3; 3; 3; 3; 3; 3;
   3; 3; 3; 3; 3; 3; 3; 3; 3; 3; 3; 3; 3; 3; 3; 3; 3; 3; 3; 3; 3; 3; 3; 3; 3; 3; 3; 3;
   3; 3; 3; 3; 3; 3; 3; 3; 3; 3; 3; 3; 4; 4; 4; 4; 4; 4; 4; 4; 4; 4; 4; 4; 4; 4; 4; 4;
   4; 4; 4; 4; 4; 4; 4; 4; 4; 4; 4; 4; 4; 4; 4; 4; 5; 5; 5; 5; 5; 5; 5; 5; 5; 5; 5; 5;
   5; 5; 5; 5; 5; 5; 5; 5; 5; 5; 5; 5; 5; 5; 5; 5; 5; 5; 5; 6; 6; 6; 6; 6; 6; 6; 6; 6;
   6; 6; 6; 6; 6; 6; 6; 6; 6; 6; 6; 6; 6; 6; 6; 6; 6; 6; 6; 6; 6; 6; 7; 7; 7; 7; 7; 7;
   7; 7; 7; 7; 7; 7; 7; 7; 7; 7; 7; 7; 7; 7; 7; 7; 7; 7; 7; 7; 7; 7; 7; 7; 8; 8; 8; 8;
   8; 8; 8; 8; 8; 8; 8; 8; 8; 8; 8; 8; 8; 8; 8; 9; 9; 9; 9; 9; 9; 9; 9; 9; 9; 9; 9; 9;
   9; 9; 10; 10; 10; 10; 10; 10; 10; 10; 10; 10; 10; 10; 10; 10; 11; 11; 11; 11; 11;
   11; 11; 11; 11; 11; 11; 11; 11; 11; 11; 12; 12; 12; 12; 12; 12; 12; 12; 12; 12; 12;
   12; 12; 12; 12; 13; 13; 13; 13; 13; 13; 13; 13; 13; 13; 13; 13; 13; 13; 14; 14; 14;
   14; 14; 14; 14; 14; 14; 14; 14; 14; 14; 14; 15; 15; 15; 15; 15; 15; 15; 15; 15; 15;
   15; 15; 15; 15; 15; 16; 16; 16; 16; 16; 16; 16; 16; 16; 16; 16; 16; 16; 16; 17; 17;
   17; 17; 17; 17; 17; 18; 18; 18; 18; 18; 18; 18; 19; 19; 19; 19; 19; 19; 19; 20; 20;
   20; 20; 20; 20; 20; 21; 21; 21; 21; 21; 21; 21; 22; 22; 22; 22; 22; 22; 22; 23; 23;
   23; 23; 23; 23; 24; 24; 24; 24; 24; 24; 24; 25; 25; 25; 25; 25; 25; 25; 26; 26; 26;
   26; 26; 26; 27; 27; 27; 27; 27; 27; 27; 28; 28; 28; 28; 28; 28; 28; 29; 29; 29; 29;
   29; 29; 30; 30; 30; 30; 30; 30; 30; 31; 31; 31; 31; 31; 31; 32; 32; 32; 32; 32; 32;
   33; 33; 33; 33; 33; 33; 33; 34; 34; 34; 34; 34; 34; 35; 35; 35; 35; 35; 35; 36; 36;
   36; 36; 36; 37; 37; 37; 38; 38; 38; 39; 39; 39; 40; 40; 40; 41; 41; 41; 42; 42; 42;
   43; 43; 43; 44; 44; 44; 45; 45; 45; 46; 46; 46; 47; 47; 47; 48; 48; 49; 49; 49; 50;
   50; 50; 51; 51; 51; 52; 52; 52; 53; 53; 53; 54; 54; 54; 55; 55; 56; 56; 56; 57; 57;
   57; 58; 58; 58; 59; 59; 60; 60; 60; 61; 61; 61; 62; 62; 63; 63; 63; 64; 64; 64; 65;
   65; 66; 66; 66; 67; 67; 67; 68; 68; 69; 69; 69; 70; 70; 71; 71; 71; 72; 72; 72; 73;
   73; 74; 74; 74; 75; 75; 76; 76; 76; 77; 77; 78; 78; 78; 79; 79; 80; 80; 80; 81; 81;
   82; 82; 83; 83; 84; 85; 86; 87; 88; 88; 89; 90; 91; 92; 93; 94; 94; 95; 96; 97; 98;
   99; 100; 101; 101; 102; 103; 104; 105; 106; 107; 108; 109; 110; 111; 112; 113; 113;
   114; 115; 116; 117; 118; 119; 120; 121; 122; 123; 124; 125; 126; 127; 0; 0; 1; 1;
   2; 2; 3; 3; 4; 4; 5; 5; 6; 6; 7; 8; 8; 9; 9; 10; 10; 11; 11; 12; 12; 13; 13; 14;
   15; 15; 16; 16; 17; 17; 18; 19; 19; 20; 20; 21; 21; 22; 23; 23; 24; 24; 25; 26; 26;
   27; 27; 28; 29; 29; 30; 31; 31; 32; 32; 33; 34; 34; 35; 36; 36; 37; 38; 38; 39; 39;
   40; 41; 41; 42; 43; 43; 44; 45; 45; 47; 48; 50; 51; 52; 54; 55; 57; 58; 60; 61; 63;
   64; 66; 67; 69; 70; 72; 73; 75; 76; 78; 80; 81; 83; 85; 86; 88; 90; 91; 93; 95; 97;
   98; 100; 102; 104; 106; 107; 109; 111; 113; 115; 117; 119; 121; 123; 125; 127; 128;
   129; 130; 131; 132; 133; 134; 135; 136; 137; 139; 140; 141; 142; 143; 144; 145;
   146; 147; 149; 150; 151; 152; 153; 155; 156; 157; 158; 159; 161; 162; 163; 165;
   166; 167; 168; 170; 171; 172; 174; 175; 177; 178; 179; 181; 182; 184; 185; 187;
   188; 189; 191; 192; 194; 196; 197; 199; 200; 202; 203; 205; 207; 208; 210; 211;
   213; 215; 216; 218; 220; 222; 223; 225; 227; 229; 230; 232; 234].

Definition lut_get (l : list Z) (i : Z) : Z := nth (Z.to_nat i) l 0.

Definition sfparecip_approx_recip (x : Z) : Z :=
  if x <? 0x00800000 then 0x7f800000
  else if x <? 0x7e800000
  then ((253 - (x >>. 23)) <<. 23) |. (lut_get recip_lut (field x 16 0x7f) <<. 16)
  else 0.

Definition sfparecip_approx_exp (x : Z) : Z :=
  if x <? 0x00800000 then 0x3f800000
  else if x <? 0x3c800000 then 0x3f810000 |. u16 x
  else if x <? 0x3f320000
  then 0x3f800000 |. (lut_get exp_lut ((x >>. 16) - 0x3c80) <<. 16) |. u16 x
  else if x <? 0x40000000
  then 0x40000000 |. (lut_get exp_lut ((x >>. 16) - 0x3c80) <<. 16) |. u16 x
  else 0x40800000 |. u16 x.

Definition sfparecip : handler := sfp_write (fun imm lane s =>
  let mod1 := sfp_mod1 imm in
  let x := lr s (sfp_vc imm) lane in
  let sign := x &. 0x80000000 in
  let result :=
    if mod1 =? 0 then sign + sfparecip_approx_recip (x - sign)
    else if mod1 =? 1 then
      if s32 (lr s (field imm 16 0xF) lane) <? 0 then sfparecip_approx_recip (x - sign) else x
    else sign + sfparecip_approx_exp (x - sign) in
  set_lr s (sfp_vd imm) lane result).
