(* ===== verification/TensixCop.v ===== *)
(** * The dispatcher of the coprocessor (src/tt_cop/tensix_cop.c, and the
      jump table of tt_insn.c)

    Each of the three threads has an instruction FIFO, a wait gate, an
    instruction that waits for its turn, a direct instruction from its hart,
    and a MOP expander.  A loop of the source without an evident bound has
    fuel; [None] is a loop that has not ended. *)

From Stdlib Require Import ZArith Lia Bool.
From stdpp Require Import base list numbers gmap.
From S2P Require Import Prelude Memory Tensix TtInsn TtMatrix TtPack TtSfpu.

(** ** Instruction FIFOs *)

Definition tensix_fifo_is_empty (f : tensix_fifo) : bool := f.(count) =? 0.
Definition tensix_fifo_is_full (f : tensix_fifo) : bool := TENSIX_FIFO_SIZE <=? f.(count).
Definition tensix_fifo_count (f : tensix_fifo) : Z := f.(count).

Definition tensix_fifo_push (f : tensix_fifo) (insn : Z) : tensix_fifo * bool :=
  if tensix_fifo_is_full f then (f, false)
  else (mk_fifo (aset f.(buffer) f.(tail) insn) f.(head)
          (u32 (f.(tail) + 1) mod TENSIX_FIFO_SIZE) (u32 (f.(count) + 1)), true).

Definition tensix_fifo_pop (f : tensix_fifo) : tensix_fifo * option Z :=
  if tensix_fifo_is_empty f then (f, None)
  else (mk_fifo f.(buffer) (u32 (f.(head) + 1) mod TENSIX_FIFO_SIZE) f.(tail)
          (u32 (f.(count) - 1)), Some (aget f.(buffer) f.(head))).

Definition valid_core (core_id : Z) : bool := (0 <=? core_id) && (core_id <? 3).

Definition on_thread (core_id : Z) (f : tensix_thread_cop -> tensix_thread_cop) (t : tensix)
    : tensix :=
  set_thread t core_id (f (thread t core_id)).

Definition tensix_cop_push (t : tensix) (core_id insn : Z) : tensix * bool :=
  if negb (valid_core core_id) then (t, false)
  else
    let th := thread t core_id in
    let '(f, ok) := tensix_fifo_push th.(insn_fifo) insn in
    (set_thread t core_id (set_insn_fifo th f), ok).
Definition tensix_cop_push_t0 (t : tensix) (insn : Z) := tensix_cop_push t 0 insn.
Definition tensix_cop_push_t1 (t : tensix) (insn : Z) := tensix_cop_push t 1 insn.
Definition tensix_cop_push_t2 (t : tensix) (insn : Z) := tensix_cop_push t 2 insn.

Definition tensix_cop_t0_fifo_full (t : tensix) : bool :=
  tensix_fifo_is_full t.(thread0).(insn_fifo).
Definition tensix_cop_t1_fifo_full (t : tensix) : bool :=
  tensix_fifo_is_full t.(thread1).(insn_fifo).
Definition tensix_cop_t2_fifo_full (t : tensix) : bool :=
  tensix_fifo_is_full t.(thread2).(insn_fifo).

Definition tensix_cop_is_waiting (t : tensix) (core_id : Z) : bool :=
  if negb (valid_core core_id) then false else (thread t core_id).(wait_gate).(active).
Definition tensix_cop_fifo_empty (t : tensix) (core_id : Z) : bool :=
  if negb (valid_core core_id) then true
  else tensix_fifo_is_empty (thread t core_id).(insn_fifo).
Definition tensix_cop_fifo_full (t : tensix) (core_id : Z) : bool :=
  if negb (valid_core core_id) then false
  else tensix_fifo_is_full (thread t core_id).(insn_fifo).
Definition tensix_cop_fifo_count (t : tensix) (core_id : Z) : Z :=
  if negb (valid_core core_id) then 0 else tensix_fifo_count (thread t core_id).(insn_fifo).

Definition tensix_insn_opcode (insn : Z) : Z := field insn 24 0xFF.
Definition tensix_insn_param (insn : Z) : Z := insn &. 0x00FFFFFF.

(** ** The MOP expander *)

Definition mop_is_nop (insn : Z) : bool := field insn 24 0xFF =? 0x02.

(** The instructions of one iteration of template 0. *)
Definition tmpl0_insns (cfg : arr) (skip : bool) : list Z :=
  let flags := aget cfg 1 in
  let has_b := nz (flags &. 1) in
  let has_a123 := nz (flags &. 2) in
  if skip then aget cfg 7 :: (if has_b then [aget cfg 8] else [])
  else aget cfg 3 :: (if has_a123 then [aget cfg 4; aget cfg 5; aget cfg 6] else [])
         ++ (if has_b then [aget cfg 2] else []).

Definition sub_array (l : list Z) (a : arr) : arr :=
  fold_left (fun a p => aset a p.1 p.2) (zip (seqZ 0 (Z.of_nat (length l))) l) a.

Definition mop_generate_next_t0 (cfg : arr) (st : mop_expand_state)
    : mop_expand_state * option Z :=
  if st.(tmpl0_sub) <? st.(tmpl0_num_sub) then
    (set_tmpl0_sub st (u32 (st.(tmpl0_sub) + 1)), Some (aget st.(tmpl0_sub_insns) st.(tmpl0_sub)))
  else if st.(tmpl0_count) <=? st.(tmpl0_i) then (set_mop_active st false, None)
  else
    let l := tmpl0_insns cfg (nz (st.(tmpl0_mask) &. 1)) in
    let st := set_tmpl0_sub_insns st (sub_array l st.(tmpl0_sub_insns)) in
    let st := set_tmpl0_num_sub st (Z.of_nat (length l)) in
    let st := set_tmpl0_mask st (st.(tmpl0_mask) >>. 1) in
    let st := set_tmpl0_i st (u32 (st.(tmpl0_i) + 1)) in
    (set_tmpl0_sub st 1, Some (aget st.(tmpl0_sub_insns) 0)).

(** One turn of the [for (;;)] of template 1: an instruction, the end, or the
    next turn. *)
Definition tmpl1_turn (cfg : arr) (st : mop_expand_state) : mop_expand_state * option (option Z) :=
  let start_op := aget cfg 2 in
  let end_op0 := aget cfg 3 in
  let end_op1 := aget cfg 4 in
  let loop0_last := aget cfg 7 in
  let loop1_last := aget cfg 8 in
  if st.(tmpl1_outer) <=? st.(tmpl1_j) then (set_mop_active st false, Some None)
  else if st.(tmpl1_phase) =? 0 then
    let st := set_tmpl1_i (set_tmpl1_phase st 1) 0 in
    (st, if mop_is_nop start_op then None else Some (Some start_op))
  else if st.(tmpl1_phase) =? 1 then
    if st.(tmpl1_i) <? st.(tmpl1_inner) then
      let insn :=
        if negb (st.(tmpl1_i) =? st.(tmpl1_inner) - 1) then st.(tmpl1_loop_op)
        else if negb (st.(tmpl1_j) =? st.(tmpl1_outer) - 1) then loop1_last
        else loop0_last in
      let st := set_tmpl1_loop_op st (st.(tmpl1_loop_op) ^. st.(tmpl1_loop_op_flip)) in
      (set_tmpl1_i st (u32 (st.(tmpl1_i) + 1)), Some (Some insn))
    else (set_tmpl1_phase st 2, None)
  else if st.(tmpl1_phase) =? 2 then
    (set_tmpl1_phase st 3, if mop_is_nop end_op0 then None else Some (Some end_op0))
  else
    (set_tmpl1_phase (set_tmpl1_j st (u32 (st.(tmpl1_j) + 1))) 0,
     if mop_is_nop end_op1 then None else Some (Some end_op1)).

Fixpoint mop_generate_next_t1 (fuel : nat) (cfg : arr) (st : mop_expand_state)
    : option (mop_expand_state * option Z) :=
  match fuel with
  | O => None
  | S fuel =>
      match tmpl1_turn cfg st with
      | (st, Some r) => Some (st, r)
      | (st, None) => mop_generate_next_t1 fuel cfg st
      end
  end.

(** Between two instructions of template 1 the loop takes at most four turns
    per outer iteration that is left. *)
Definition tmpl1_fuel (st : mop_expand_state) : nat :=
  Z.to_nat (4 * (st.(tmpl1_outer) - st.(tmpl1_j)) + 4).

Definition mop_generate_next (t : tensix) (core_id : Z) : option (tensix * option Z) :=
  let th := thread t core_id in
  let st := th.(mop_state) in
  if negb st.(mop_active) then Some (t, None)
  else
    let store p := (set_thread t core_id (set_mop_state th p.1), p.2) in
    if st.(tmpl) =? 0 then Some (store (mop_generate_next_t0 th.(mop_cfg) st))
    else match mop_generate_next_t1 (tmpl1_fuel st) th.(mop_cfg) st with
         | Some p => Some (store p)
         | None => None
         end.

Definition tensix_cop_mop_expand (t : tensix) (core_id param : Z) : tensix :=
  on_thread core_id (fun th =>
    let cfg := th.(mop_cfg) in
    let tmpl := field param 23 1 in
    let st := set_tmpl (set_mop_active mop0 true) tmpl in
    let th := set_has_current_insn th false in
    if tmpl =? 0 then
      let count1 := field param 16 0x7F in
      let mask := u32 (th.(zmask_hi16) <<. 16) |. (param &. 0xFFFF) in
      set_mop_state th (set_tmpl0_count (set_tmpl0_mask st mask) (count1 + 1))
    else
      let outer_count := aget cfg 0 &. 127 in
      let inner_count := aget cfg 1 &. 127 in
      let loop_op := aget cfg 5 in
      let loop_op1 := aget cfg 6 in
      let start_op := aget cfg 2 in
      let end_op0 := aget cfg 3 in
      let '(loop_op_flip, inner_count) :=
        if mop_is_nop loop_op1 then (0, inner_count)
        else (loop_op ^. loop_op1, inner_count * 2) in
      let outer_count :=
        if (outer_count =? 1) && mop_is_nop start_op && (inner_count =? 0) &&
           negb (mop_is_nop end_op0)
        then outer_count + 128 else outer_count in
      let st := set_tmpl1_inner (set_tmpl1_outer st outer_count) inner_count in
      set_mop_state th (set_tmpl1_loop_op_flip (set_tmpl1_loop_op st loop_op) loop_op_flip)) t.

(** ** Execution of one instruction *)

(** An entry of the jump table: a reserved opcode, a function that only prints
    a report, a handler on the units, or one of the three that reach the
    dispatcher. *)
Inductive insn_impl : Type :=
  | Unimp | Report | U (h : handler) | Mop | MopCfg | Mvmul.

Definition tt_jump_table : list insn_impl :=
  [
   (* 0x00 *)
   Unimp; Mop; U ttnop; MopCfg; U ttreplay; Report; Unimp; Unimp; U ttmovd2a; Report;
   U ttmovd2b; U ttmovb2a; Report; Unimp; Unimp; Unimp;
   (* 0x10 *)
   U ttzeroacc; U ttzerosrc; U ttmova2d; U ttmovb2d; Report; Report; U tttrnspsrcb;
   Report; Report; Unimp; Report; Report; Report; Report; Report; Unimp;
   (* 0x20 *)
   Unimp; Report; Report; Report; Report; Report; Mvmul; U ttelwmul; U ttelwadd;
   Report; Unimp; Unimp; Unimp; Unimp; Unimp; Unimp;
   (* 0x30 *)
   U ttelwsub; Report; Report; U ttgmpool; U ttgapool; U ttgatesrcrst; U ttcleardvalid; U ttsetrwc; U ttincrwc; Report; Report; Unimp; Unimp; Unimp; Unimp;
   Unimp;
   (* 0x40 *)
   Report; U ttpacr; U ttunpacr; U ttunpacr_nop; Report; U ttsetdmareg; Report; Unimp;
   Report; Report; Report; Report; Unimp; Unimp; Unimp; Unimp;
   (* 0x50 *)
   U ttsetadc; U ttsetadcxy; U ttincadcxy; U ttaddrcrxy; U ttsetadczw; U ttincadczw; U ttaddrcrzw; U ttsetdvalid; U ttadddmareg; U ttsubdmareg; U ttmuldmareg; U ttbitwopdmareg; U ttshiftdmareg; U ttcmpdmareg; U ttsetadcxx; Unimp;
   (* 0x60 *)
   U ttdmanop; Report; Report; Report; Report; Unimp; Report; U ttstorereg; U ttloadreg; Unimp; Unimp; Unimp; Unimp; Unimp; Unimp; Unimp;
   (* 0x70 *)
   U sfpload; U sfploadi; U sfpstore; Report; U sfpmuli; U sfpaddi; Report; U sfpexexp; U sfpexman; U sfpiadd; U sfpshft; U sfpsetcc; U sfpmov; U sfpabs; U sfpand; U sfpor;
   (* 0x80 *)
   U sfpnot; Report; U sfpsetexp; Report; U sfpmad; U sfpadd; U sfpmul; U sfppushc; U sfppopc; U sfpsetsgn; U sfpencc; U sfpcompc; U sfptransp; U sfpxor; U sfpstochrnd;
   U sfpnop;
   (* 0x90 *)
   U sfpcast; U sfpconfig; U sfpswap; Report; Report; U sfplutfp32; Report; Report;
   Report; U sfparecip; Unimp; Unimp; Unimp; Unimp; Unimp; Unimp;
   (* 0xa0 *)
   U ttatgetm; U ttatrelm; Report; U ttseminit; U ttsempost; U ttsemget; Report;
   Report; Unimp; Unimp; Unimp; Unimp; Unimp; Unimp; Unimp; Unimp;
   (* 0xb0 *)
   U ttwrcfg; U ttrdcfg; U ttsetc16; U ttrmwcib0; U ttrmwcib1; U ttrmwcib2; U ttrmwcib3; Report; U ttcfgshiftmask; Unimp; Unimp; Unimp; Unimp; Unimp; Unimp;
   Unimp;
   (* 0xc0 *)
   Unimp; Unimp; Unimp; Unimp; Unimp; Unimp; Unimp; Unimp; Unimp; Unimp; Unimp; Unimp;
   Unimp; Unimp; Unimp; Unimp;
   (* 0xd0 *)
   Unimp; Unimp; Unimp; Unimp; Unimp; Unimp; Unimp; Unimp; Unimp; Unimp; Unimp; Unimp;
   Unimp; Unimp; Unimp; Unimp;
   (* 0xe0 *)
   Unimp; Unimp; Unimp; Unimp; Unimp; Unimp; Unimp; Unimp; Unimp; Unimp; Unimp; Unimp;
   Unimp; Unimp; Unimp; Unimp;
   (* 0xf0 *)
   Unimp; Unimp; Unimp; Unimp; Unimp; Unimp; Unimp; Unimp; Unimp; Unimp; Unimp; Unimp;
   Unimp; Unimp; Unimp; Unimp].

Definition ttmop (t : tensix) (imm tid : Z) : tensix * bool :=
  (tensix_cop_mop_expand t tid imm, true).

Definition ttmop_cfg (t : tensix) (imm tid : Z) : tensix * bool :=
  let cfg_idx := field imm 20 0xF in
  let cfg_value := imm &. 0xFFFFF in
  (on_thread tid (fun th =>
     if cfg_idx <? 9 then set_mop_cfg th (aset th.(mop_cfg) cfg_idx cfg_value)
     else if cfg_idx =? 9 then set_zmask_hi16 th (cfg_value &. 0xFFFF) else th) t, true).

Definition run_handler (h : handler) (t : tensix) (imm tid : Z) : tensix * bool :=
  let '(u, ok) := h t.(t_units) imm tid in (set_t_units t u, ok).

Definition tensix_execute_insn (t : tensix) (insn tid : Z) : tensix * bool :=
  let opcode := field insn 24 0xFF in
  let imm := insn &. 0x00FFFFFF in
  match nth (Z.to_nat opcode) tt_jump_table Unimp with
  | Unimp | Report => (t, true)
  | U h => run_handler h t imm tid
  | Mop => ttmop t imm tid
  | MopCfg => ttmop_cfg t imm tid
  | Mvmul => run_handler (ttmvmul (aget (thread t tid).(mop_cfg) 1)) t imm tid
  end.

Definition tensix_cop_execute_insn (t : tensix) (core_id insn : Z) : tensix * bool :=
  tensix_execute_insn t insn core_id.

Definition tensix_cop_execute (t : tensix) (thread_id insn : Z) : tensix :=
  let '(t, _) := tensix_execute_insn t insn thread_id in
  on_thread thread_id (fun th => set_insn_executed th (u64 (th.(insn_executed) + 1))) t.

(** ** What an instruction waits for *)

Definition OPCODE_NOP : Z := 0x02.
Definition OPCODE_STALLWAIT : Z := 0xA2.
Definition OPCODE_SEMWAIT : Z := 0xA6.
Definition OPCODE_STREAMWAIT : Z := 0xA7.
Definition OPCODE_PACR : Z := 0x41.
Definition OPCODE_UNPACR : Z := 0x42.

(** [switch] on a list of cases *)
Definition one_of (opcode : Z) (l : list Z) : bool := existsb (Z.eqb opcode) l.

Definition insn_needs_srca (opcode : Z) : bool :=
  one_of opcode [0x28; 0x27; 0x30; 0x29; 0x26; 0x22; 0x23; 0x24; 0x25; 0x31; 0x32; 0x33;
                 0x34; 0x3a; 0x12].
Definition insn_needs_srcb (opcode : Z) : bool :=
  one_of opcode [0x28; 0x27; 0x30; 0x29; 0x26; 0x22; 0x23].
Definition insn_needs_dest (opcode : Z) : bool := opcode =? OPCODE_PACR.

(** The bits of the block mask that stop an instruction. *)
Definition insn_get_block_bits (opcode : Z) : Z :=
  if one_of opcode [0x53; 0x56; 0x52; 0x55; 0x44; 0x50; 0x5e; 0x51; 0x54; 0x57] then 0x001
  else if one_of opcode [0xa0; 0xa1; 0xa5; 0xa3; 0xa4] then 0x002
  else if one_of opcode [0x41; 0x4a] then 0x005
  else if one_of opcode [0x42; 0x43] then 0x009
  else if one_of opcode [0x40] then 0x011
  else if one_of opcode [0x58; 0x64; 0x61; 0x62; 0x63; 0x5b; 0x5d; 0x60; 0x46; 0x49; 0x68;
                         0x5a; 0x48; 0x45; 0x5c; 0x66; 0x67; 0x59] then 0x021
  else if one_of opcode [0x25; 0x32; 0x36; 0x21; 0x22; 0x23; 0x29; 0x28; 0x27; 0x30; 0x34;
                         0x35; 0x33; 0x38; 0x3a; 0x12; 0x0b; 0x13; 0x08; 0x0a; 0x09; 0x24;
                         0x31; 0x26; 0x37; 0x17; 0x18; 0x16; 0x10; 0x11] then 0x040
  else if one_of opcode [0xb8; 0xb1; 0xb3; 0xb4; 0xb5; 0xb6; 0xb2; 0xb7; 0xb0] then 0x080
  else if one_of opcode [0x7d; 0x85; 0x75; 0x7e; 0x99; 0x90; 0x8b; 0x91; 0x76; 0x8a; 0x77;
                         0x78; 0x97; 0x79; 0x96; 0x70; 0x71; 0x93; 0x73; 0x95; 0x81; 0x84;
                         0x7c; 0x86; 0x98; 0x74; 0x8f; 0x80; 0x7f; 0x88; 0x87; 0x7b; 0x82;
                         0x83; 0x89; 0x7a; 0x94; 0x8e; 0x72; 0x92; 0x8c; 0x8d] then 0x100
  else if one_of opcode [0xa2; 0xa6; 0xa7] then 0x1FF
  else 0.

(** The gate that a wait instruction sets; the fields it does not mention keep
    their values. *)
Definition latch_gate (g : tensix_wait_gate) (insn : Z) : tensix_wait_gate :=
  let opcode := tensix_insn_opcode insn in
  let param := tensix_insn_param insn in
  let g := set_gate_opcode (set_active g true) opcode in
  let block := field param 15 0x1FF in
  let block := if block =? 0 then 0x40 else block in
  if opcode =? OPCODE_STALLWAIT then
    let cond := param &. 0x7FFF in
    let cond := if cond =? 0 then 0x0F else cond in
    set_semaphore_mask (set_condition_mask (set_block_mask g block) cond) 0
  else if opcode =? OPCODE_SEMWAIT then
    let cond := param &. 3 in
    let g := set_block_mask g block in
    if cond =? 0 then
      set_semaphore_mask (set_condition_mask (set_gate_opcode g OPCODE_STALLWAIT) 0x0F) 0
    else set_condition_mask (set_semaphore_mask g (field param 2 0x1FFF)) cond
  else if opcode =? OPCODE_STREAMWAIT then
    let g := set_stream_select (set_block_mask g block) (param &. 7) in
    set_target_value (set_condition_mask g (1 <<. field param 3 1)) (field param 4 0x7FF)
  else g.

Definition wait_gate_latch (t : tensix) (core_id insn : Z) : tensix :=
  on_thread core_id (fun th => set_wait_gate th (latch_gate th.(wait_gate) insn)) t.

(** [if (sem_mask & (1 << i)) { if (bad i) return false; }] over [i < 8] *)
Definition sems_ok (sem_mask : Z) (bad : Z -> bool) : bool :=
  negb (existsb (fun i => nz (sem_mask &. (1 <<. i)) && bad i) (seqZ 0 8)).

Definition wait_gate_check (t : tensix) (core_id : Z) : bool :=
  let g := (thread t core_id).(wait_gate) in
  let m := t.(t_units).(u_matrix) in
  let s := t.(t_units).(u_sync) in
  let cond := g.(condition_mask) in
  if negb g.(active) then true
  else if g.(gate_opcode) =? OPCODE_STALLWAIT then
    if nz (cond &. 0x020) && bget m.(srca_dvalid) m.(unp_srca_bank) then false
    else if nz (cond &. 0x040) && bget m.(srcb_dvalid) m.(unp_srcb_bank) then false
    else if nz (cond &. 0x080) && negb (bget m.(srca_dvalid) m.(math_srca_bank)) then false
    else if nz (cond &. 0x100) && negb (bget m.(srcb_dvalid) m.(math_srcb_bank)) then false
    else true
  else if g.(gate_opcode) =? OPCODE_SEMWAIT then
    (negb (nz (cond &. 1)) || sems_ok g.(semaphore_mask) (fun i => aget s.(sem) i =? 0)) &&
    (negb (nz (cond &. 2)) ||
     sems_ok g.(semaphore_mask) (fun i => aget s.(sem_max) i <=? aget s.(sem) i))
  else true.

Definition wait_gate_clear (t : tensix) (core_id : Z) : tensix :=
  on_thread core_id (fun th => set_wait_gate th gate0) t.

(** Does the gate of the thread stop this opcode (before its conditions are
    looked at)? *)
Definition gate_matches (g : tensix_wait_gate) (opcode : Z) : bool :=
  let block_bits :=
    if (opcode =? OPCODE_NOP) && (g.(block_mask) =? 0x1FF) then 0x1FF
    else insn_get_block_bits opcode in
  nz (block_bits &. g.(block_mask)).

(** The automatic waits: data for the matrix unit, Dest for the packer, and a
    free bank for the unpackers. *)
Definition dvalid_blocked (m : matrix) (insn : Z) : bool :=
  let opcode := tensix_insn_opcode insn in
  let which_unp := field insn 23 1 in
  (insn_needs_srca opcode && negb (srca_ready m)) ||
  (insn_needs_srcb opcode && negb (srcb_ready m)) ||
  (insn_needs_dest opcode && negb m.(dest_dvalid)) ||
  ((opcode =? OPCODE_UNPACR) && unp_busy m which_unp).

(** ** Stepping a thread *)

Definition executed (th : tensix_thread_cop) : tensix_thread_cop :=
  set_insn_executed (set_state th THREAD_STATE_RUNNING) (u64 (th.(insn_executed) + 1)).
Definition waited (th : tensix_thread_cop) : tensix_thread_cop :=
  set_cycles_waiting th (u64 (th.(cycles_waiting) + 1)).
Definition waiting_state (th : tensix_thread_cop) : tensix_thread_cop :=
  set_state th THREAD_STATE_WAITING.
(** Keep the instruction for the next step. *)
Definition pend (insn : Z) (th : tensix_thread_cop) : tensix_thread_cop :=
  set_has_current_insn (set_current_insn th insn) true.

Definition is_wait_insn (opcode : Z) : bool :=
  (opcode =? OPCODE_STALLWAIT) || (opcode =? OPCODE_SEMWAIT) || (opcode =? OPCODE_STREAMWAIT).

(** Steps 2 to 5 of [tensix_cop_step], with the instruction at hand. *)
Definition step_insn (t : tensix) (core_id insn : Z) : tensix * bool :=
  let opcode := tensix_insn_opcode insn in
  let on := on_thread core_id in
  let g := (thread t core_id).(wait_gate) in
  if opcode =? 0x03 then
    (on (fun th => executed (set_zmask_hi16 th (insn &. 0x00FFFFFF))) t, true)
  else if g.(active) && gate_matches g opcode && negb (wait_gate_check t core_id) then
    (on (fun th => waited (waiting_state (pend insn th))) t, false)
  else
    let t := if g.(active) && gate_matches g opcode then wait_gate_clear t core_id else t in
    if is_wait_insn opcode then (on executed (wait_gate_latch t core_id insn), true)
    else if dvalid_blocked t.(t_units).(u_matrix) insn then
      (on (fun th => waiting_state (pend insn th)) t, false)
    else
      match tensix_cop_execute_insn t core_id insn with
      | (t, false) => (on (fun th => waited (waiting_state (pend insn th))) t, false)
      | (t, true) => (on executed t, true)
      end.

Definition tensix_cop_step (t : tensix) (core_id : Z) : tensix * bool :=
  if negb (valid_core core_id) then (t, false)
  else if t.(halted) then (t, false)
  else
    let th := thread t core_id in
    if th.(has_current_insn) then
      step_insn (set_thread t core_id (set_has_current_insn th false)) core_id th.(current_insn)
    else
      match tensix_fifo_pop th.(insn_fifo) with
      | (f, None) =>
          (set_thread t core_id
             (set_cycles_idle (set_state (set_insn_fifo th f) THREAD_STATE_IDLE)
                (u64 (th.(cycles_idle) + 1))), false)
      | (f, Some insn) => step_insn (set_thread t core_id (set_insn_fifo th f)) core_id insn
      end.

Definition tensix_cop_step_all (t : tensix) : tensix * Z :=
  let '(t, a) := tensix_cop_step t 0 in
  let '(t, b) := tensix_cop_step t 1 in
  let '(t, c) := tensix_cop_step t 2 in
  (set_total_cycles t (u64 (t.(total_cycles) + 1)), b2z a + b2z b + b2z c).

(** [max_insns] is the [int] bound of the loop. *)
Fixpoint run_until_wait (n : nat) (t : tensix) (core_id executed : Z) : tensix * Z :=
  match n with
  | O => (t, executed)
  | S n =>
      match tensix_cop_step t core_id with
      | (t, true) => run_until_wait n t core_id (executed + 1)
      | (t, false) => (t, executed)
      end
  end.
Definition tensix_cop_run_until_wait (t : tensix) (core_id max_insns : Z) : tensix * Z :=
  run_until_wait (Z.to_nat max_insns) t core_id 0.
Definition tensix_cop_run_until_wait_all (t : tensix) (max_insns : Z) : tensix * Z :=
  let '(t, a) := tensix_cop_run_until_wait t 0 max_insns in
  let '(t, b) := tensix_cop_run_until_wait t 1 max_insns in
  let '(t, c) := tensix_cop_run_until_wait t 2 max_insns in
  (t, a + b + c).

(** ** Replay and MOP expansion *)

Definition replay_flag (f : replays -> flags) (t : tensix) (core_id : Z) : bool :=
  bget (f t.(t_units).(u_replay)) core_id.
Definition replay_val (f : replays -> arr) (t : tensix) (core_id : Z) : Z :=
  aget (f t.(t_units).(u_replay)) core_id.
Definition on_replays (f : replays -> replays) (t : tensix) : tensix :=
  on_units (on_replay f) t.

(** Take the next instruction of the replay buffer and make it current. *)
Definition replay_next (t : tensix) (core_id : Z) : tensix :=
  let cur := replay_val replay_expand_current t core_id in
  let buf_idx := u32 (replay_val replay_expand_start t core_id + cur) &. 31 in
  let insn := aget t.(t_units).(u_replay).(replay_buffer) (replay_ix core_id buf_idx) in
  on_thread core_id (pend insn)
    (on_replays (fun r =>
       set_replay_expand_current r (aset r.(replay_expand_current) core_id (cur + 1))) t).

Fixpoint drain_replay_expansion (fuel : nat) (t : tensix) (core_id : Z)
    : option (tensix * bool) :=
  match fuel with
  | O => None
  | S fuel =>
      if negb (replay_flag replay_expanding t core_id) then Some (t, true)
      else
        match (if (thread t core_id).(has_current_insn) then tensix_cop_step t core_id
               else (t, true)) with
        | (t, false) => Some (t, false)
        | (t, true) =>
            if replay_val replay_expand_count t core_id
               <=? replay_val replay_expand_current t core_id
            then Some (on_replays (fun r =>
                   set_replay_expanding r (bset r.(replay_expanding) core_id false)) t, true)
            else
              match tensix_cop_step (replay_next t core_id) core_id with
              | (t, false) => Some (t, false)
              | (t, true) => drain_replay_expansion fuel t core_id
              end
        end
  end.

(** Drain the replay expansion, if one is active. *)
Definition drain_if_expanding (fuel : nat) (t : tensix) (core_id : Z)
    : option (tensix * bool) :=
  if replay_flag replay_expanding t core_id then drain_replay_expansion fuel t core_id
  else Some (t, true).

(** The [while (mop_generate_next(...))] loop, and what follows it. *)
Fixpoint mop_loop (fuel : nat) (t : tensix) (core_id : Z) : option (tensix * bool) :=
  match fuel with
  | O => None
  | S fuel' =>
      match mop_generate_next t core_id with
      | None => None
      | Some (t, None) =>
          Some (on_thread core_id (fun th =>
                  executed (set_has_direct_insn
                    (set_mop_state th (set_mop_active th.(mop_state) false)) false)) t, true)
      | Some (t, Some next_insn) =>
          match tensix_cop_step (on_thread core_id (pend next_insn) t) core_id with
          | (t, false) => Some (t, false)
          | (t, true) =>
              match drain_if_expanding fuel t core_id with
              | Some (t, true) => mop_loop fuel' t core_id
              | r => r
              end
          end
      end
  end.

Definition mop_continue_execution (fuel : nat) (t : tensix) (core_id : Z)
    : option (tensix * bool) :=
  match drain_if_expanding fuel t core_id with
  | Some (t, true) =>
      if (thread t core_id).(has_current_insn) then
        match tensix_cop_step t core_id with
        | (t, false) => Some (t, false)
        | (t, true) =>
            let t := on_thread core_id (fun th => set_has_current_insn th false) t in
            match drain_if_expanding fuel t core_id with
            | Some (t, true) => mop_loop fuel t core_id
            | r => r
            end
        end
      else mop_loop fuel t core_id
  | r => r
  end.

(** ** Direct instructions *)

Definition tensix_cop_set_direct (t : tensix) (core_id insn : Z) : tensix :=
  if negb (valid_core core_id) then t
  else on_thread core_id (fun th => set_has_direct_insn (set_direct_insn th insn) true) t.

(** [while (tensix_cop_step(cop, core_id)) ;] *)
Fixpoint drain_fifo (fuel : nat) (t : tensix) (core_id : Z) : option tensix :=
  match fuel with
  | O => None
  | S fuel =>
      match tensix_cop_step t core_id with
      | (t, true) => drain_fifo fuel t core_id
      | (t, false) => Some t
      end
  end.

(** One step per instruction in the FIFO, one for an instruction that waits,
    and the step that fails. *)
Definition drain_fuel (t : tensix) (core_id : Z) : nat :=
  Z.to_nat ((thread t core_id).(insn_fifo).(count) + 2).

Definition restore_direct (core_id saved : Z) (t : tensix) : tensix :=
  on_thread core_id (fun th => set_has_direct_insn (set_direct_insn th saved) true) t.

(** [while (thread->mop_state.active) ...]: [true] when no MOP is left. *)
Fixpoint finish_mop (fuel : nat) (loop_fuel : nat) (t : tensix) (core_id saved : Z)
    : option (tensix * bool) :=
  match loop_fuel with
  | O => None
  | S loop_fuel =>
      if negb (thread t core_id).(mop_state).(mop_active) then Some (restore_direct core_id saved t, true)
      else
        match mop_continue_execution fuel t core_id with
        | Some (t, true) => finish_mop fuel loop_fuel t core_id saved
        | Some (t, false) => Some (restore_direct core_id saved t, false)
        | None => None
        end
  end.

Definition direct_done (th : tensix_thread_cop) : tensix_thread_cop :=
  executed (set_has_direct_insn th false).

(** Replay recording stores the instruction instead of executing it. *)
Definition record_insn (t : tensix) (core_id insn : Z) : tensix :=
  let exec := replay_flag replay_execute_while_loading t core_id in
  let t := on_replays (fun r =>
    let idx := aget r.(replay_index) core_id in
    let left := u32 (aget r.(replay_left) core_id - 1) in
    mk_replays (aset r.(replay_buffer) (replay_ix core_id (idx &. 31)) insn)
      (aset r.(replay_index) core_id (idx + 1)) (aset r.(replay_left) core_id left)
      r.(replay_execute_while_loading)
      (if left =? 0 then bset r.(replay_recording) core_id false else r.(replay_recording))
      r.(replay_expanding) r.(replay_expand_start) r.(replay_expand_count)
      r.(replay_expand_current)) t in
  let t := if exec then (tensix_cop_execute_insn t core_id insn).1 else t in
  on_thread core_id direct_done t.

(** The direct instruction itself, once nothing is ahead of it. *)
Definition direct_insn_step (fuel : nat) (t : tensix) (core_id : Z) : option (tensix * bool) :=
  let insn := (thread t core_id).(direct_insn) in
  let opcode := tensix_insn_opcode insn in
  let on := on_thread core_id in
  let g := (thread t core_id).(wait_gate) in
  if opcode =? 0x03 then
    Some (on (fun th => direct_done (set_zmask_hi16 th (insn &. 0x00FFFFFF))) t, true)
  else if replay_flag replay_recording t core_id then Some (record_insn t core_id insn, true)
  else if g.(active) && gate_matches g opcode && negb (wait_gate_check t core_id) then
    Some (on (fun th => waited (waiting_state th)) t, false)
  else
    let t := if g.(active) && gate_matches g opcode then wait_gate_clear t core_id else t in
    if is_wait_insn opcode then Some (on direct_done (wait_gate_latch t core_id insn), true)
    else if dvalid_blocked t.(t_units).(u_matrix) insn then
      Some (if insn_needs_dest opcode then on waiting_state t else t, false)
    else
      match tensix_cop_execute_insn t core_id insn with
      | (t, false) => Some (on (fun th => waited (waiting_state th)) t, false)
      | (t, true) =>
          if opcode =? 0x01 then mop_continue_execution fuel t core_id
          else
            match drain_if_expanding fuel t core_id with
            | Some (t, true) => Some (on direct_done t, true)
            | r => r
            end
      end.

(** After the MOP in progress: drain the FIFO, finish a MOP that it started,
    then the direct instruction. *)
Definition direct_after_mop (fuel : nat) (t : tensix) (core_id : Z) : option (tensix * bool) :=
  match drain_fifo (drain_fuel t core_id) t core_id with
  | None => None
  | Some t =>
      if (thread t core_id).(mop_state).(mop_active) then
        match finish_mop fuel fuel t core_id (thread t core_id).(direct_insn) with
        | Some (t, true) => direct_insn_step fuel t core_id
        | r => r
        end
      else direct_insn_step fuel t core_id
  end.

Definition tensix_cop_step_direct (fuel : nat) (t : tensix) (core_id : Z)
    : option (tensix * bool) :=
  if negb (valid_core core_id) then Some (t, false)
  else if t.(halted) then Some (t, false)
  else if negb (thread t core_id).(has_direct_insn) then Some (t, true)
  else if (thread t core_id).(mop_state).(mop_active) then
    let saved := (thread t core_id).(direct_insn) in
    match mop_continue_execution fuel t core_id with
    | Some (t, true) =>
        if tensix_insn_opcode saved =? 0x01 then Some (t, true)
        else direct_after_mop fuel (restore_direct core_id saved t) core_id
    | Some (t, false) => Some (restore_direct core_id saved t, false)
    | None => None
    end
  else direct_after_mop fuel t core_id.
