(* ===== verification/TensixMmio.v ===== *)
(** * The interface of the coprocessor to the harts (src/tt_cop/tensix_impl.c)

    Direct instructions, the MMIO addresses that the coprocessor decodes, and
    the instances of the parameters that the interpreter leaves open:
    [tensix_mmio_read], [tensix_mmio_write] (Memory.v), [tt_direct],
    [mailbox_stalled] (Exec.v) and [tensix_link] (Step.v). *)

From Stdlib Require Import ZArith Lia Bool.
From stdpp Require Import base list numbers gmap.
From S2P Require Import Prelude Memory Tensix Mailbox TtInsn TensixCop.

Definition tensix_push (t : tensix) (insn core_id : Z) : tensix * bool :=
  if (core_id <? 0) || (2 <? core_id) then (t, false) else tensix_cop_push t core_id insn.

Definition tensix_write_mop_cfg (t : tensix) (core_id offset data : Z) : tensix :=
  if (core_id <? 0) || (2 <? core_id) then t
  else
    let reg_idx := offset / 4 in
    if reg_idx <? 9
    then on_thread core_id (fun th => set_mop_cfg th (aset th.(mop_cfg) reg_idx data)) t
    else t.

Definition tensix_step (t : tensix) (core_id : Z) : tensix * bool := tensix_cop_step t core_id.

Definition tensix_set_direct (t : tensix) (insn core_id : Z) : tensix :=
  if (core_id <? 0) || (2 <? core_id) then t else tensix_cop_set_direct t core_id insn.

Definition tensix_step_direct (fuel : nat) (t : tensix) (core_id : Z) : option (tensix * bool) :=
  tensix_cop_step_direct fuel t core_id.

Definition tensix_step_all (t : tensix) : tensix := (tensix_cop_step_all t).1.

(** ** Addresses private to a core *)

Definition get_core_ldm (t : tensix) (core_id : Z) : Z :=
  let m := t.(t_units).(u_mem) in
  if core_id =? 0 then m.(t0_ldm) else if core_id =? 1 then m.(t1_ldm)
  else if core_id =? 2 then m.(t2_ldm) else 0.

Definition in_range (lo hi addr : Z) : bool := (lo <=? addr) && (addr <=? hi).

Definition is_per_core_addr (addr : Z) : bool :=
  in_range 0xFFB80000 0xFFB80023 addr || in_range 0xFFE00000 0xFFE00FFF addr ||
  in_range 0xFFE80000 0xFFE8001F addr.

Definition addr_to_ldm_offset (addr : Z) : Z :=
  if in_range 0xFFB80000 0xFFB80023 addr then 0x2000 + (addr - 0xFFB80000)
  else if in_range 0xFFE00000 0xFFE00FFF addr then 0x2100 + (addr - 0xFFE00000)
  else if in_range 0xFFE80000 0xFFE8001F addr then 0x3100 + (addr - 0xFFE80000)
  else 0xFFFFFFFF.

Definition is_trisc (core_id : Z) : bool := (0 <=? core_id) && (core_id <=? 2).

(** ** Reads *)

(** Two neighbouring cells of Dest, 16 bits each. *)
Definition dbg_array_read (t : tensix) : Z :=
  let cmd := t.(dbg_array_rd_cmd) in
  let row_addr := cmd &. 0xFFF in
  let row_32b_sel := field cmd 12 0xF in
  let array_id := field cmd 16 7 in
  let d := t.(t_units).(u_matrix).(dest) in
  if (array_id =? 2) && (row_addr <? DEST_ROWS) then
    let col0 := row_32b_sel * 2 in
    let col1 := col0 + 1 in
    let v0 := if col0 <? ROW_SIZE then aget d (dest_ix row_addr col0) else 0 in
    let v1 := if col1 <? ROW_SIZE then aget d (dest_ix row_addr col1) else 0 in
    (v0 &. 0xFFFF) |. ((v1 &. 0xFFFF) <<. 16)
  else 0.

Definition mem_load (t : tensix) (a : Z) : Z := load 4 t.(t_units).(u_heap) a.
Definition mem_store (t : tensix) (a v : Z) : tensix :=
  on_units (fun u => set_u_heap u (store 4 u.(u_heap) a v)) t.

(** [None] when the address is not handled. *)
Definition tensix_mmio_read (t : tensix) (core_id addr : Z) : tensix * option Z :=
  let ldm := get_core_ldm t core_id in
  let ldm_off := addr_to_ldm_offset addr in
  let high := t.(t_units).(u_mem).(high_mem) in
  if in_range 0xFFEC0000 0xFFEC3FFF addr then
    let '(b, r) := mailbox_read t.(t_mailbox) core_id addr in (set_t_mailbox t b, r)
  else if in_range 0xFFE80020 0xFFE8003F addr then
    (t, Some (aget t.(t_units).(u_sync).(sem) ((addr - 0xFFE80020) / 4)))
  else if is_per_core_addr addr && is_trisc core_id && nz ldm && (ldm_off <? 0x4000) then
    (t, Some (mem_load t (ldm + ldm_off)))
  else if in_range 0xFFE40000 0xFFE6FFFF addr then (t, Some 0)
  else if in_range 0xFFB40000 0xFFB7FFFF addr then
    let offset := addr - 0xFFB00000 in
    if nz high && (offset <? 0x400000) then (t, Some (mem_load t (high + offset)))
    else (t, None)
  else if in_range 0xFFEF0000 0xFFEFFFFF addr then (t, None)
  else if (addr =? 0xFFB121F0) || (addr =? 0xFFB121F8) then (t, Some 0xFFFFFFFF)
  else if addr =? 0xFFB1206C then (t, Some (dbg_array_read t))
  else (t, None).

(** ** Writes *)

Definition mmio_sem_write (data i : Z) (s : syncs) : syncs :=
  if data =? 0 then sem_post i s
  else if data =? 1 then sem_get i s
  else set_sem s (aset s.(sem) i (data &. 0xF)).

(** The thread that an instruction buffer feeds, -1 for none. *)
Definition push_target (core_id addr : Z) : Z :=
  if addr <=? 0xFFE4FFFF then
    if is_trisc core_id then core_id else if core_id =? -1 then 0 else -1
  else if addr <=? 0xFFE5FFFF then if core_id =? -1 then 1 else -1
  else if core_id =? -1 then 2 else -1.

(** [while (!tensix_push(...)) { if (!tensix_step(...)) assert(0); }] *)
Fixpoint push_loop (fuel : nat) (t : tensix) (data target : Z) : option tensix :=
  match fuel with
  | O => None
  | S fuel =>
      match tensix_push t data target with
      | (t, true) => Some t
      | (t, false) =>
          match tensix_step t target with
          | (t, true) => push_loop fuel t data target
          | (t, false) => Some (set_aborted t true)
          end
      end
  end.

(** Two steps make room, as [push_loop_ends] shows. *)
Definition push_fuel : nat := 3.

Definition instrn_push (t : tensix) (core_id addr data : Z) : tensix :=
  let target := push_target core_id addr in
  if 0 <=? target then default t (push_loop push_fuel t data target) else t.

Definition stream_write (t : tensix) (addr data : Z) : tensix :=
  let high := t.(t_units).(u_mem).(high_mem) in
  let off_in_stream := (addr - 0xFFB40000) &. 0xFFF in
  let offset := addr - 0xFFB00000 in
  let t :=
    if (off_in_stream =? 0x438) && nz high && (offset + 0x6C <? 0x400000)
    then mem_store t (high + (offset + 0x6C))
           (mem_load t (high + (offset + 0x6C)) + update_increment data)
    else t in
  if nz high && (offset <? 0x400000) then mem_store t (high + offset) data else t.

Definition cfg_mmio_write (t : tensix) (addr data : Z) : tensix :=
  let reg_idx := (addr - 0xFFEF0000) / 4 in
  let t := when (reg_idx =? 69) (on_units reset_pack_offset) t in
  when ((reg_idx =? 186) || (reg_idx =? 186 + 224)) (on_units (seed_prng data)) t.

(** The boolean says that no memory write is to follow. *)
Definition tensix_mmio_write (t : tensix) (core_id addr data : Z) : tensix * bool :=
  if in_range 0xFFEC0000 0xFFEC3FFF addr then
    (set_t_mailbox t (mailbox_write t.(t_mailbox) core_id addr data).1, false)
  else if in_range 0xFFE80020 0xFFE8003F addr then
    (on_units (on_sync (mmio_sem_write data ((addr - 0xFFE80020) / 4))) t, true)
  else if is_per_core_addr addr && is_trisc core_id then
    let ldm := get_core_ldm t core_id in
    let ldm_off := addr_to_ldm_offset addr in
    let t := when (nz ldm && (ldm_off <? 0x4000)) (fun t => mem_store t (ldm + ldm_off) data) t in
    (when (in_range 0xFFB80000 0xFFB80023 addr)
       (fun t => tensix_write_mop_cfg t core_id (addr - 0xFFB80000) data) t, true)
  else if in_range 0xFFE40000 0xFFE6FFFF addr then (instrn_push t core_id addr data, true)
  else if in_range 0xFFB40000 0xFFB7FFFF addr then (stream_write t addr data, true)
  else if in_range 0xFFEF0000 0xFFEFFFFF addr then (cfg_mmio_write t addr data, false)
  else if addr =? 0xFFB12064 then (set_dbg_array_rd_cmd t data, true)
  else if addr =? 0xFFB12060 then (t, true)
  else (t, false).

(** ** The parameters of the interpreter

    The heap of the world is lent to the coprocessor for the call. *)

Definition lend (h : heap) (t : tensix) : tensix := on_units (fun u => set_u_heap u h) t.
Definition settle (t : tensix) : tensix * heap := (lend ∅ t, t.(t_units).(u_heap)).

Definition mmio_read (core_id addr : Z) (t : tensix) (h : heap) : option (Z * tensix * heap) :=
  match tensix_mmio_read (lend h t) core_id addr with
  | (t, Some v) => let '(t, h) := settle t in Some (v, t, h)
  | (_, None) => None
  end.

Definition mmio_write (core_id addr data : Z) (t : tensix) (h : heap) : tensix * heap * bool :=
  let '(t, handled) := tensix_mmio_write (lend h t) core_id addr data in
  (settle t, handled).
