(* ===== verification/MopSpec.v ===== *)
(** * The MOP expander produces its template's instruction sequence

    [mop_generate_next] is a resumable iterator.  Here it is run to its end
    and compared with the templates written as plain loops. *)

From Stdlib Require Import ZArith Lia Bool.
From stdpp Require Import base list numbers gmap.
From S2P Require Import Prelude Memory Tensix TtInsn TensixCop.

(** ** The templates as loops *)

(** Template 0: per iteration, the instructions that the bit of the mask
    selects. *)
Definition template0 (cfg : arr) (mask : Z) (n : nat) : list Z :=
  concat (map (fun i => tmpl0_insns cfg (Z.testbit mask (Z.of_nat i))) (seq 0 n)).

(** Template 1: a nested loop.  The loop instruction alternates between two,
    also across outer iterations; the last inner instruction is replaced. *)
Definition unless_nop (insn : Z) : list Z := if mop_is_nop insn then [] else [insn].

Definition alternate (a b : Z) (n : nat) : Z := if Nat.even n then a else b.

Definition inner_insn (cfg : arr) (last_outer : bool) (flip : Z) (inner j i : nat) : Z :=
  if (S i =? inner)%nat then aget cfg (if last_outer then 7 else 8)
  else alternate (aget cfg 5) (aget cfg 5 ^. flip) (j * inner + i).

Definition outer_insns (cfg : arr) (flip : Z) (outer inner j : nat) : list Z :=
  unless_nop (aget cfg 2)
  ++ map (inner_insn cfg (S j =? outer)%nat flip inner j) (seq 0 inner)
  ++ unless_nop (aget cfg 3) ++ unless_nop (aget cfg 4).

Definition template1 (cfg : arr) : list Z :=
  let two := negb (mop_is_nop (aget cfg 6)) in
  let flip := if two then aget cfg 5 ^. aget cfg 6 else 0 in
  let inner := Z.to_nat ((aget cfg 1 &. 127) * (if two then 2 else 1)) in
  let outer := Z.to_nat (aget cfg 0 &. 127) in
  let outer := if (outer =? 1)%nat && mop_is_nop (aget cfg 2) && (inner =? 0)%nat
                  && negb (mop_is_nop (aget cfg 3)) then 129%nat else outer in
  concat (map (outer_insns cfg flip outer inner) (seq 0 outer)).

Definition template (cfg : arr) (zmask_hi16 param : Z) : list Z :=
  if field param 23 1 =? 0 then
    template0 cfg (u32 (zmask_hi16 <<. 16) |. (param &. 0xFFFF))
      (Z.to_nat (field param 16 0x7F + 1))
  else template1 cfg.

(** ** Running the iterator *)

(** One call of [mop_generate_next] on the expander alone. *)
Definition next (cfg : arr) (st : mop_expand_state) : option (mop_expand_state * option Z) :=
  if negb st.(mop_active) then Some (st, None)
  else if st.(tmpl) =? 0 then Some (mop_generate_next_t0 cfg st)
  else mop_generate_next_t1 (tmpl1_fuel st) cfg st.

(** [emits cfg st l]: called until it reports the end, the iterator yields
    exactly [l]. *)
Inductive emits (cfg : arr) : mop_expand_state -> list Z -> Prop :=
  | emits_end st st' : next cfg st = Some (st', None) -> emits cfg st []
  | emits_insn st st' x l :
      next cfg st = Some (st', Some x) -> emits cfg st' l -> emits cfg st (x :: l).

(** ** Template 0 *)

Lemma sub_array_get l a i :
  (i < length l)%nat -> aget (sub_array l a) (Z.of_nat i) = u32 (nth i l 0).
Proof.
  unfold sub_array. revert a i.
  assert (forall k l a i, (i < length l)%nat ->
    aget (fold_left (fun a p => aset a p.1 p.2) (zip (seqZ k (Z.of_nat (length l))) l) a)
      (k + Z.of_nat i) = u32 (nth i l 0)) as H.
  { clear. intros k l. revert k.
    induction l as [|x l IH]; intros k a i Hi; cbn [length] in *; [lia|].
    rewrite seqZ_cons by lia. cbn [zip zip_with fold_left fst snd].
    replace (Z.pred (Z.of_nat (S (length l)))) with (Z.of_nat (length l)) by lia.
    destruct i as [|i].
    - clear IH. replace (k + Z.of_nat 0) with k by lia. cbn [nth].
      assert (forall k' l a, k < k' -> aget (fold_left (fun a p => aset a p.1 p.2)
        (zip (seqZ k' (Z.of_nat (length l))) l) a) k = aget a k) as Hk.
      { clear. intros k' l. revert k'.
        induction l as [|x l IH]; intros k' a Hk; cbn [length]; [done|].
        rewrite seqZ_cons by lia. cbn [zip zip_with fold_left fst snd].
        replace (Z.pred (Z.of_nat (S (length l)))) with (Z.of_nat (length l)) by lia.
        rewrite IH by lia. by rewrite aget_set_ne by lia. }
      rewrite Hk by lia. by rewrite aget_set.
    - replace (k + Z.of_nat (S i)) with (Z.succ k + Z.of_nat i) by lia.
      rewrite IH by lia. done. }
  intros a i Hi. specialize (H 0 l a i Hi). by rewrite Z.add_0_l in H.
Qed.

Lemma tmpl0_insns_words cfg b i :
  (i < length (tmpl0_insns cfg b))%nat ->
  u32 (nth i (tmpl0_insns cfg b) 0) = nth i (tmpl0_insns cfg b) 0.
Proof.
  intros Hi. apply u32_word.
  assert (Forall word (tmpl0_insns cfg b)) as Hw.
  { unfold tmpl0_insns. repeat case_match; repeat constructor; apply aget_word. }
  rewrite Forall_forall in Hw. apply Hw, list_elem_of_In, nth_In, Hi.
Qed.
Lemma tmpl0_insns_length cfg b : (1 <= length (tmpl0_insns cfg b) <= 5)%nat.
Proof. unfold tmpl0_insns. repeat case_match; cbn; lia. Qed.

Lemma template0_S cfg mask n :
  template0 cfg mask (S n) =
  tmpl0_insns cfg (Z.testbit mask 0) ++ template0 cfg (mask >>. 1) n.
Proof.
  unfold template0. cbn [seq map concat Z.of_nat]. f_equal. f_equal.
  rewrite <- seq_shift, map_map. apply map_ext. intros i. f_equal.
  rewrite Z.shiftr_spec by lia. f_equal. lia.
Qed.

Lemma nz_bit0 a : nz (a &. 1) = Z.testbit a 0.
Proof.
  rewrite (land_mask a 0 1) by done. unfold nz, bits.
  rewrite <- Z.bit0_mod, Z.div_1_r. by destruct (Z.testbit a 0).
Qed.

(** The state in the middle of an iteration: [l] is what is left of it. *)
Record in_template0 (st : mop_expand_state) (l : list Z) (n : nat) : Prop := {
  t0_active : st.(mop_active) = true;
  t0_tmpl : st.(tmpl) = 0;
  t0_sub : 0 <= st.(tmpl0_sub) /\ st.(tmpl0_num_sub) = st.(tmpl0_sub) + Z.of_nat (length l) /\
           st.(tmpl0_num_sub) <= 5;
  t0_insns : forall i, (i < length l)%nat ->
    aget st.(tmpl0_sub_insns) (st.(tmpl0_sub) + Z.of_nat i) = nth i l 0;
  t0_left : 0 <= st.(tmpl0_i) /\ st.(tmpl0_count) = st.(tmpl0_i) + Z.of_nat n /\
            st.(tmpl0_count) <= 128
}.

Lemma t0_emit_sub cfg st x l n :
  in_template0 st (x :: l) n ->
  exists st', next cfg st = Some (st', Some x) /\ in_template0 st' l n /\
              st'.(tmpl0_mask) = st.(tmpl0_mask).
Proof.
  intros [Ha Ht (Hs & Hn & H5) Hi Hl]. cbn [length] in *.
  exists (set_tmpl0_sub st (u32 (st.(tmpl0_sub) + 1))).
  unfold next, mop_generate_next_t0. rewrite Ha, Ht. cbn [negb Z.eqb].
  rewrite (proj2 (Z.ltb_lt _ _)) by lia. rewrite u32_small by lia.
  split_and!; [|split; cbn; try done; try lia|done].
  - pose proof (Hi 0%nat ltac:(lia)) as E0. cbn [nth Z.of_nat] in E0.
    rewrite Z.add_0_r in E0. by rewrite E0.
  - intros i Hil. rewrite <- Z.add_assoc.
    replace (1 + Z.of_nat i) with (Z.of_nat (S i)) by lia. apply (Hi (S i)). lia.
Qed.

Lemma t0_emit_next cfg st n :
  in_template0 st [] (S n) ->
  exists st' x l, tmpl0_insns cfg (Z.testbit st.(tmpl0_mask) 0) = x :: l /\
    next cfg st = Some (st', Some x) /\ in_template0 st' l n /\
    st'.(tmpl0_mask) = st.(tmpl0_mask) >>. 1.
Proof.
  intros [Ha Ht (Hs & Hn & H5) Hi (Hl & Hc & Hm)]. cbn [length] in *.
  pose proof (tmpl0_insns_length cfg (Z.testbit st.(tmpl0_mask) 0)) as Hlen.
  pose proof (tmpl0_insns_words cfg (Z.testbit st.(tmpl0_mask) 0)) as Hw.
  rewrite <- nz_bit0 in *.
  destruct (tmpl0_insns cfg _) as [|x l] eqn:El; cbn [length] in Hlen; [lia|]. eexists _, x, l.
  split; [done|]. unfold next, mop_generate_next_t0. rewrite Ha, Ht. cbn [negb Z.eqb].
  rewrite (proj2 (Z.ltb_ge _ _)), (proj2 (Z.leb_gt _ _)) by lia.
  rewrite El.
  assert (forall i a, (i < length (x :: l))%nat ->
    aget (sub_array (x :: l) a) (Z.of_nat i) = nth i (x :: l) 0) as Hget.
  { intros i a Hil. rewrite sub_array_get by done. by apply Hw. }
  split.
  { apply f_equal, f_equal2; [reflexivity|]. f_equal. apply (Hget 0%nat). cbn. lia. }
  split; [|reflexivity]. split; cbn -[sub_array]; try done; try lia.
  - intros i Hil. replace (1 + Z.of_nat i) with (Z.of_nat (S i)) by lia.
    apply (Hget (S i)). cbn. lia.
  - rewrite u32_small by lia. lia.
Qed.

Lemma t0_end cfg st : in_template0 st [] 0 -> emits cfg st [].
Proof.
  intros [Ha Ht (Hs & Hn & H5) Hi (Hl & Hc & Hm)]. cbn [length] in *. eapply emits_end.
  unfold next, mop_generate_next_t0. rewrite Ha, Ht. cbn [negb Z.eqb].
  by rewrite (proj2 (Z.ltb_ge _ _)), (proj2 (Z.leb_le _ _)) by lia.
Qed.

Lemma t0_emits cfg n : forall l st,
  in_template0 st l n -> emits cfg st (l ++ template0 cfg st.(tmpl0_mask) n).
Proof.
  induction n as [|n IHn]; induction l as [|x l IHl]; intros st Hst.
  - by apply t0_end.
  - destruct (t0_emit_sub cfg st x l _ Hst) as (st' & Hn & Hst' & Hm).
    cbn [app]. eapply emits_insn; [exact Hn|]. rewrite <- Hm. by apply IHl.
  - destruct (t0_emit_next cfg st n Hst) as (st' & x & l & El & Hn & Hst' & Hm).
    rewrite template0_S, El. cbn [app]. eapply emits_insn; [exact Hn|].
    rewrite <- Hm. by apply IHn.
  - destruct (t0_emit_sub cfg st x l _ Hst) as (st' & Hn & Hst' & Hm).
    cbn [app]. eapply emits_insn; [exact Hn|]. rewrite <- Hm. by apply IHl.
Qed.

(** ** Template 1 *)

Section template1.
Context (cfg : arr) (flip : Z) (outer inner : nat).
Context (Houter : (outer <= 255)%nat) (Hinner : (inner <= 254)%nat).

(** The instructions from the start of outer iteration [j]. *)
Definition from_outer (j : nat) : list Z :=
  concat (map (outer_insns cfg flip outer inner) (seq j (outer - j))).

(** ... and from the middle of it. *)
Definition rest (ph j i : nat) : list Z :=
  let e0 := unless_nop (aget cfg 3) in
  let e1 := unless_nop (aget cfg 4) in
  match ph with
  | 0%nat => from_outer j
  | 1%nat => map (inner_insn cfg (S j =? outer)%nat flip inner j) (seq i (inner - i))
           ++ e0 ++ e1 ++ from_outer (S j)
  | 2%nat => e0 ++ e1 ++ from_outer (S j)
  | _ => e1 ++ from_outer (S j)
  end.

(** How many inner instructions have been produced. *)
Definition produced (ph j i : nat) : nat :=
  match ph with
  | 0%nat => j * inner
  | 1%nat => j * inner + i
  | _ => S j * inner
  end.

Record in_template1 (st : mop_expand_state) (ph j i : nat) : Prop := {
  t1_active : st.(mop_active) = true;
  t1_tmpl : (st.(tmpl) =? 0) = false;
  t1_outer : st.(tmpl1_outer) = Z.of_nat outer;
  t1_inner : st.(tmpl1_inner) = Z.of_nat inner;
  t1_flip : st.(tmpl1_loop_op_flip) = flip;
  t1_phase : st.(tmpl1_phase) = Z.of_nat ph /\ (ph <= 3)%nat;
  t1_j : st.(tmpl1_j) = Z.of_nat j /\ (j <= outer)%nat /\ (ph <> 0%nat -> (j < outer)%nat);
  t1_i : ph = 1%nat -> st.(tmpl1_i) = Z.of_nat i /\ (i <= inner)%nat;
  t1_op : st.(tmpl1_loop_op) =
    alternate (aget cfg 5) (aget cfg 5 ^. flip) (produced ph j i)
}.

Lemma alternate_flip a n : alternate a (a ^. flip) n ^. flip = alternate a (a ^. flip) (S n).
Proof.
  unfold alternate. rewrite Nat.even_succ, <- Nat.negb_even.
  destruct (Nat.even n); cbn [negb]; [done|].
  by rewrite Z.lxor_assoc, Z.lxor_nilpotent, Z.lxor_0_r.
Qed.

Lemma from_outer_S j :
  (j < outer)%nat -> from_outer j = outer_insns cfg flip outer inner j ++ from_outer (S j).
Proof.
  intros Hj. unfold from_outer. replace (outer - j)%nat with (S (outer - S j)) by lia. done.
Qed.

Lemma rest_0 j :
  (j < outer)%nat -> rest 0 j 0 = unless_nop (aget cfg 2) ++ rest 1 j 0.
Proof.
  intros Hj. cbn [rest]. rewrite from_outer_S by done. unfold outer_insns.
  rewrite Nat.sub_0_r, <- !app_assoc. done.
Qed.

(** One turn of the loop: the end, one instruction, or a silent change. *)
Definition turn_ok (st st' : mop_expand_state) (r : option (option Z)) (ph j i : nat) : Prop :=
  match r with
  | Some None => rest ph j i = []
  | Some (Some x) =>
      exists ph' j' i', in_template1 st' ph' j' i' /\ rest ph j i = x :: rest ph' j' i'
  | None =>
      exists ph' j' i', in_template1 st' ph' j' i' /\ rest ph j i = rest ph' j' i' /\
        (4 * (outer - j') + 1 + ph < 4 * (outer - j) + 1 + ph')%nat /\
        (ph' <= 4 * (outer - j'))%nat
  end.

(** A phase that emits its instruction unless it is a NOP. *)
Lemma turn_optional st st' x ph j i ph' j' i' :
  in_template1 st' ph' j' i' -> rest ph j i = unless_nop x ++ rest ph' j' i' ->
  (4 * (outer - j') + 1 + ph < 4 * (outer - j) + 1 + ph')%nat ->
  (ph' <= 4 * (outer - j'))%nat ->
  turn_ok st st' (if mop_is_nop x then None else Some (Some x)) ph j i.
Proof.
  intros Hst' Hr Hm Hp. unfold unless_nop in Hr. destruct (mop_is_nop x); cbn [app] in Hr.
  - by exists ph', j', i'.
  - by exists ph', j', i'.
Qed.

Lemma turn_start st j i :
  in_template1 st 0 j i -> (j < outer)%nat ->
  turn_ok st (tmpl1_turn cfg st).1 (tmpl1_turn cfg st).2 0 j i.
Proof.
  intros [Ha Ht Ho Hi Hf [Hp _] [Hj Hjo] Hii Hop] Hlt. unfold tmpl1_turn.
  rewrite Ho, Hj, Hp, (proj2 (Z.leb_gt _ _)) by lia.
  change (Z.of_nat 0 =? 0) with true. cbv iota. cbn [fst snd].
  apply (turn_optional _ _ _ _ _ _ 1%nat j 0%nat); [|by apply (rest_0 j)|lia|lia].
  split; cbn -[alternate]; try done; try lia. rewrite Hop. cbn [produced]. by rewrite Nat.add_0_r.
Qed.

Lemma turn_inner st j i :
  in_template1 st 1 j i -> turn_ok st (tmpl1_turn cfg st).1 (tmpl1_turn cfg st).2 1 j i.
Proof.
  intros [Ha Ht Ho Hi Hf [Hp _] [Hj [Hjo Hjl]] Hii Hop].
  specialize (Hjl ltac:(lia)). destruct (Hii eq_refl) as [Hiz Hil].
  unfold tmpl1_turn.
  rewrite Ho, Hj, Hp, Hi, Hiz, (proj2 (Z.leb_gt _ _)) by lia.
  change (Z.of_nat 1 =? 0) with false. change (Z.of_nat 1 =? 1) with true. cbv iota.
  destruct (Z.ltb_spec (Z.of_nat i) (Z.of_nat inner)) as [Hlt|Hge]; cbn [fst snd turn_ok].
  - exists 1%nat, j, (S i). split.
    + split; cbn; try done; try lia.
      * intros _. rewrite u32_small by lia. lia.
      * rewrite Hop, Hf. cbn [produced].
        replace (j * inner + S i)%nat with (S (j * inner + i)) by lia. apply alternate_flip.
    + cbn [rest]. replace (inner - i)%nat with (S (inner - S i)) by lia.
      cbn [seq map app]. f_equal. unfold inner_insn.
      destruct (Nat.eqb_spec (S i) inner) as [E|E].
      * rewrite (proj2 (Z.eqb_eq _ _)) by lia. cbn [negb].
        destruct (Nat.eqb_spec (S j) outer); [rewrite (proj2 (Z.eqb_eq _ _)) by lia|
          rewrite (proj2 (Z.eqb_neq _ _)) by lia]; done.
      * rewrite (proj2 (Z.eqb_neq _ _)) by lia. cbn [negb]. by rewrite Hop.
  - exists 2%nat, j, i. split; [|split; [|lia]].
    + split; cbn -[alternate]; try done; try lia. rewrite Hop. cbn [produced]. f_equal. lia.
    + cbn [rest]. by replace (inner - i)%nat with 0%nat by lia.
Qed.

Lemma turn_end0 st j i :
  in_template1 st 2 j i -> turn_ok st (tmpl1_turn cfg st).1 (tmpl1_turn cfg st).2 2 j i.
Proof.
  intros [Ha Ht Ho Hi Hf [Hp _] [Hj [Hjo Hjl]] Hii Hop]. specialize (Hjl ltac:(lia)).
  unfold tmpl1_turn. rewrite Ho, Hj, Hp, (proj2 (Z.leb_gt _ _)) by lia.
  change (Z.of_nat 2 =? 0) with false. change (Z.of_nat 2 =? 1) with false.
  change (Z.of_nat 2 =? 2) with true. cbv iota. cbn [fst snd].
  apply (turn_optional _ _ _ _ _ _ 3%nat j i); [|done|lia|lia].
  split; cbn; try done; lia.
Qed.

Lemma turn_end1 st j i :
  in_template1 st 3 j i -> turn_ok st (tmpl1_turn cfg st).1 (tmpl1_turn cfg st).2 3 j i.
Proof.
  intros [Ha Ht Ho Hi Hf [Hp _] [Hj [Hjo Hjl]] Hii Hop]. specialize (Hjl ltac:(lia)).
  unfold tmpl1_turn. rewrite Ho, Hj, Hp, (proj2 (Z.leb_gt _ _)) by lia.
  change (Z.of_nat 3 =? 0) with false. change (Z.of_nat 3 =? 1) with false.
  change (Z.of_nat 3 =? 2) with false. cbv iota. cbn [fst snd].
  apply (turn_optional _ _ _ _ _ _ 0%nat (S j) 0%nat); [|done|lia|lia].
  split; cbn; try done; try lia. rewrite u32_small by lia. split; [lia|]. lia.
Qed.

Lemma turn_spec st ph j i :
  in_template1 st ph j i -> turn_ok st (tmpl1_turn cfg st).1 (tmpl1_turn cfg st).2 ph j i.
Proof.
  intros Hst. destruct (t1_phase _ _ _ _ Hst) as [_ Hph].
  destruct ph as [|[|[|[|]]]]; [| by apply turn_inner | by apply turn_end0 | by apply turn_end1 | lia].
  destruct (t1_j _ _ _ _ Hst) as [Hj [Hle _]].
  destruct (decide (j < outer)%nat) as [Hlt|Hge]; [by apply turn_start|].
  unfold tmpl1_turn. rewrite (t1_outer _ _ _ _ Hst), Hj, (proj2 (Z.leb_le _ _)) by lia.
  cbn [fst snd turn_ok rest]. unfold from_outer. by replace (outer - j)%nat with 0%nat by lia.
Qed.

(** The fuel of [mop_generate_next] reaches the next instruction. *)
Lemma next_t1 fuel st ph j i :
  in_template1 st ph j i -> (4 * (outer - j) + 1 - ph <= fuel)%nat ->
  (ph <= 4 * (outer - j))%nat ->
  match rest ph j i with
  | [] => exists st', mop_generate_next_t1 fuel cfg st = Some (st', None)
  | x :: l => exists st' ph' j' i',
      mop_generate_next_t1 fuel cfg st = Some (st', Some x) /\ in_template1 st' ph' j' i' /\
      l = rest ph' j' i'
  end.
Proof.
  revert st ph j i. induction fuel as [|fuel IH]; intros st ph j i Hst Hfuel Hph; [lia|].
  cbn [mop_generate_next_t1]. pose proof (turn_spec st ph j i Hst) as Ht.
  destruct (tmpl1_turn cfg st) as [st' [[x|]|]]; cbn [fst snd turn_ok] in Ht.
  - destruct Ht as (ph' & j' & i' & Hst' & ->). by exists st', ph', j', i'.
  - rewrite Ht. by exists st'.
  - destruct Ht as (ph' & j' & i' & Hst' & -> & Hm & Hp). apply IH; [done|lia|done].
Qed.

Lemma t1_emits l : forall st ph j i, in_template1 st ph j i -> rest ph j i = l -> emits cfg st l.
Proof.
  induction l as [|x l IH]; intros st ph j i Hst Hr.
  all: pose proof (t1_phase _ _ _ _ Hst) as [_ Hp].
  all: pose proof (t1_j _ _ _ _ Hst) as [Hj [Hle Hlt]].
  all: pose proof (next_t1 (tmpl1_fuel st) st ph j i Hst) as Hn; rewrite Hr in Hn.
  all: destruct Hn as (st' & Hn);
    [unfold tmpl1_fuel; rewrite (t1_outer _ _ _ _ Hst), Hj; lia
    | destruct (decide (ph = 0%nat)); [lia|specialize (Hlt ltac:(done)); lia] |].
  - apply (emits_end _ _ st'). unfold next. by rewrite (t1_active _ _ _ _ Hst), (t1_tmpl _ _ _ _ Hst).
  - destruct Hn as (ph' & j' & i' & Hn & Hst' & ->).
    apply (emits_insn _ _ st' x); [|by apply (IH st' ph' j' i')].
    unfold next. by rewrite (t1_active _ _ _ _ Hst), (t1_tmpl _ _ _ _ Hst).
Qed.
End template1.

(** ** The expander in its thread *)

(** Called until it reports the end, [mop_generate_next] yields [l]. *)
Inductive mop_yields (core_id : Z) : tensix -> list Z -> Prop :=
  | yields_end t t' : mop_generate_next t core_id = Some (t', None) -> mop_yields core_id t []
  | yields_insn t t' x l :
      mop_generate_next t core_id = Some (t', Some x) -> mop_yields core_id t' l ->
      mop_yields core_id t (x :: l).

Lemma thread_set t c th : thread (set_thread t c th) c = th.
Proof. unfold thread, set_thread. by destruct (c =? 0); [|destruct (c =? 1)]. Qed.

Lemma generate_next t c st' r :
  next (thread t c).(mop_cfg) (thread t c).(mop_state) = Some (st', r) ->
  exists t', mop_generate_next t c = Some (t', r) /\
    (thread t' c).(mop_state) = st' /\ (thread t' c).(mop_cfg) = (thread t c).(mop_cfg).
Proof.
  unfold next, mop_generate_next. destruct (negb _).
  - intros [= <- <-]. by exists t.
  - destruct (_ =? 0).
    + intros [= E]. rewrite E. eexists. by rewrite thread_set.
    + destruct (mop_generate_next_t1 _ _ _) as [p|]; [|done]. intros [= ->].
      eexists. by rewrite thread_set.
Qed.

Lemma emits_yields cfg st l : emits cfg st l -> forall t c,
  (thread t c).(mop_cfg) = cfg -> (thread t c).(mop_state) = st -> mop_yields c t l.
Proof.
  induction 1 as [st st' Hn | st st' x l Hn He IH]; intros t c <- <-.
  - destruct (generate_next t c _ _ Hn) as (t' & Ht & _). by eapply yields_end.
  - destruct (generate_next t c _ _ Hn) as (t' & Ht & Hs & Hc).
    eapply yields_insn; [done|]. by apply IH.
Qed.

Lemma land_range x m : 0 <= m -> 0 <= x &. m <= m.
Proof.
  intros Hm. split; [apply Z.land_nonneg; by right|].
  destruct (Z.eq_dec m 0) as [->|]; [by rewrite Z.land_0_r|].
  apply Z.ldiff_le; [done|]. apply Z.bits_inj'. intros i Hi.
  rewrite Z.ldiff_spec, Z.land_spec, Z.bits_0. by destruct (Z.testbit x i), (Z.testbit m i).
Qed.

Lemma to_nat_eqb a n : 0 <= a -> (Z.to_nat a =? n)%nat = (a =? Z.of_nat n).
Proof.
  intros Ha. destruct (Z.eqb_spec a (Z.of_nat n)), (Nat.eqb_spec (Z.to_nat a) n); lia.
Qed.

(** The state that [tensix_cop_mop_expand] starts from. *)
Lemma expand_template0 cfg mask count1 :
  0 <= count1 <= 127 ->
  emits cfg (set_tmpl0_count (set_tmpl0_mask (set_tmpl (set_mop_active mop0 true) 0) mask)
               (count1 + 1))
    (template0 cfg mask (Z.to_nat (count1 + 1))).
Proof.
  intros Hc. apply (t0_emits cfg (Z.to_nat (count1 + 1)) []).
  split; cbn; try done; try lia.
Qed.

Lemma expand_template1 cfg tm flip outer inner :
  (tm =? 0) = false -> 0 <= outer <= 255 -> 0 <= inner <= 254 ->
  emits cfg (set_tmpl1_loop_op_flip (set_tmpl1_loop_op
      (set_tmpl1_inner (set_tmpl1_outer (set_tmpl (set_mop_active mop0 true) tm) outer) inner)
      (aget cfg 5)) flip)
    (concat (map (outer_insns cfg flip (Z.to_nat outer) (Z.to_nat inner))
               (seq 0 (Z.to_nat outer)))).
Proof.
  intros Ht Ho Hi.
  apply (t1_emits cfg flip (Z.to_nat outer) (Z.to_nat inner) ltac:(lia) ltac:(lia) _ _ 0 0 0).
  - split; cbn -[alternate]; try done; try lia.
  - cbn [rest]. unfold from_outer. by rewrite Nat.sub_0_r.
Qed.

(** With the workaround for a single outer iteration that is only an end. *)
Lemma expand_nested cfg tm flip outer inner (b : bool) :
  (tm =? 0) = false -> 0 <= outer <= 127 -> (b = true -> outer = 1) -> 0 <= inner <= 254 ->
  let n := if b then 129%nat else Z.to_nat outer in
  emits cfg (set_tmpl1_loop_op_flip (set_tmpl1_loop_op
      (set_tmpl1_inner (set_tmpl1_outer (set_tmpl (set_mop_active mop0 true) tm)
         (if b then outer + 128 else outer)) inner)
      (aget cfg 5)) flip)
    (concat (map (outer_insns cfg flip n (Z.to_nat inner)) (seq 0 n))).
Proof.
  intros Ht Ho Hb Hi n. unfold n. destruct b.
  - rewrite (Hb eq_refl). by apply (expand_template1 cfg tm flip 129 inner).
  - apply expand_template1; lia || done.
Qed.

(** C12. The MOP expander, started by [tensix_cop_mop_expand] on any operand,
    yields exactly the instruction sequence of its template and then reports
    the end: for template 0 the instructions that each bit of the 32-bit mask
    selects, for template 1 the nested loop with its start, loop, last and end
    instructions; in particular it always terminates, and the search for the
    next instruction between two calls does as well. *)
Theorem mop_expand_correct t c param :
  mop_yields c (tensix_cop_mop_expand t c param)
    (template (thread t c).(mop_cfg) (thread t c).(zmask_hi16) param).
Proof.
  set (th := thread t c). set (cfg := th.(mop_cfg)).
  apply (emits_yields cfg (thread (tensix_cop_mop_expand t c param) c).(mop_state)); [| |done].
  all: unfold tensix_cop_mop_expand, on_thread; rewrite thread_set; fold th; cbv zeta.
  2: by repeat case_match.
  unfold template. destruct (Z.eqb_spec (field param 23 1) 0) as [E|E].
  - rewrite E. apply expand_template0. apply land_range. lia.
  - cbn [mop_cfg set_has_current_insn]. fold cfg. unfold template1.
    pose proof (land_range (aget cfg 0) 127 ltac:(lia)).
    pose proof (land_range (aget cfg 1) 127 ltac:(lia)).
    rewrite to_nat_eqb by lia.
    destruct (mop_is_nop (aget cfg 6)); cbn [negb]; rewrite ?Z.mul_1_r, to_nat_eqb by lia.
    all: apply expand_nested; [by apply Z.eqb_neq | lia | | lia].
    all: rewrite !andb_true_iff, Z.eqb_eq; tauto.
Qed.
