(* ===== verification/TensixCopSpec.v ===== *)
(** * The dispatcher: order, blocking and termination

    The instructions of a thread that have not run yet are [pending]: the one
    that waits, then the FIFO.  A step takes the first one or changes nothing
    that matters; from this the loops over steps end. *)

From Stdlib Require Import ZArith Lia Bool.
From stdpp Require Import base list numbers gmap.
From S2P Require Import Prelude Memory Tensix TtInsn TtMatrix TtPack TtSfpu TensixCop TensixMmio MopSpec.

(** ** An instruction that waits has done nothing *)

Definition blocked_keeps (h : handler) : Prop :=
  forall u imm tid, (h u imm tid).2 = false -> (h u imm tid).1 = u.

Ltac blocked := intros u imm tid; cbv beta delta [
  ttmovd2a ttmovd2b ttmovb2a ttmova2d ttmovb2d ttzeroacc ttzerosrc tttrnspsrcb ttmvmul
  ttelwmul ttelwadd ttelwsub elw_insn ttgmpool ttgapool ttpacr ttunpacr ttunpacr_nop
  ttsetrwc ttstorereg ttloadreg rmwcib_common ttrmwcib0 ttrmwcib1 ttrmwcib2 ttrmwcib3
  ttcfgshiftmask sfpload ] iota zeta;
  repeat (match goal with |- context [if ?b then _ else _] => destruct b end);
  try discriminate; try reflexivity;
  repeat (match goal with |- context [let '(_, _) := ?x in _] => destruct x end);
  try discriminate; try reflexivity.

Lemma table_blocked :
  Forall (fun i => match i with U h => blocked_keeps h | _ => True end) tt_jump_table.
Proof.
  unfold tt_jump_table.
  repeat (apply List.Forall_cons; [first [exact I | solve [blocked]]|]). apply List.Forall_nil.
Qed.

Lemma mvmul_blocked c : blocked_keeps (ttmvmul c).
Proof. blocked. Qed.

Lemma run_handler_blocked h t imm tid :
  blocked_keeps h -> (run_handler h t imm tid).2 = false -> (run_handler h t imm tid).1 = t.
Proof.
  intros Hh. unfold run_handler. specialize (Hh t.(t_units) imm tid).
  destruct (h _ _ _) as [u ok]; cbn [fst snd] in *. intros E. rewrite (Hh E). by destruct t.
Qed.

Lemma jump_table_blocked n h : nth n tt_jump_table Unimp = U h -> blocked_keeps h.
Proof.
  intros E. pose proof table_blocked as Ht. rewrite Forall_forall in Ht.
  destruct (decide (n < length tt_jump_table)%nat) as [Hn|Hn].
  - specialize (Ht (nth n tt_jump_table Unimp)). rewrite E in Ht. apply Ht.
    rewrite <- E. by apply list_elem_of_In, nth_In.
  - rewrite nth_overflow in E by lia. done.
Qed.

Lemma execute_blocked_keeps t insn tid :
  (tensix_execute_insn t insn tid).2 = false -> (tensix_execute_insn t insn tid).1 = t.
Proof.
  unfold tensix_execute_insn. destruct (nth _ _ _) as [| |h| | |] eqn:E; try done.
  - apply run_handler_blocked. by eapply jump_table_blocked.
  - apply run_handler_blocked, mvmul_blocked.
Qed.

(** ** What an instruction leaves alone *)

(** Apart from the units, an instruction changes the MOP state and the MOP
    registers of its own thread, and a MOP drops the thread's waiting
    instruction. *)
Record same_thread (a b : tensix_thread_cop) : Prop := {
  st_fifo : b.(insn_fifo) = a.(insn_fifo);
  st_gate : b.(wait_gate) = a.(wait_gate);
  st_current : b.(has_current_insn) = true -> a.(has_current_insn) = true;
  st_insn : b.(current_insn) = a.(current_insn);
  st_direct : b.(direct_insn) = a.(direct_insn);
  st_has_direct : b.(has_direct_insn) = a.(has_direct_insn)
}.

Lemma same_thread_refl a : same_thread a a.
Proof. by split. Qed.

(** [thread] and [set_thread] have three slots. *)
Definition slot (c : Z) : Z := if c =? 0 then 0 else if c =? 1 then 1 else 2.
Lemma thread_set_slot t c c' th :
  thread (set_thread t c th) c' = if slot c =? slot c' then th else thread t c'.
Proof.
  unfold thread, set_thread, slot.
  by destruct (c =? 0), (c' =? 0); try done; destruct (c =? 1); try done; destruct (c' =? 1).
Qed.
Lemma thread_slot t c c' : slot c = slot c' -> thread t c = thread t c'.
Proof.
  unfold thread, slot. destruct (c =? 0), (c' =? 0); try done;
    destruct (c =? 1); try done; destruct (c' =? 1); done.
Qed.
Lemma thread_on t c f : thread (on_thread c f t) c = f (thread t c).
Proof. apply thread_set. Qed.
Lemma thread_on_slot t c c' f :
  thread (on_thread c f t) c' = if slot c =? slot c' then f (thread t c') else thread t c'.
Proof.
  unfold on_thread. rewrite thread_set_slot. destruct (Z.eqb_spec (slot c) (slot c')); [|done].
  by rewrite (thread_slot t c c').
Qed.
Lemma units_set_thread t c th : t_units (set_thread t c th) = t_units t.
Proof. unfold set_thread. by destruct (c =? 0); [|destruct (c =? 1)]. Qed.
Lemma halted_set_thread t c th : halted (set_thread t c th) = halted t.
Proof. unfold set_thread. by destruct (c =? 0); [|destruct (c =? 1)]. Qed.

Lemma same_thread_on t c c' f :
  (forall th, same_thread th (f th)) -> same_thread (thread t c') (thread (on_thread c f t) c').
Proof.
  intros Hf. rewrite thread_on_slot. destruct (_ =? _); [apply Hf | apply same_thread_refl].
Qed.

Lemma execute_threads t insn tid c :
  same_thread (thread t c) (thread (tensix_execute_insn t insn tid).1 c).
Proof.
  unfold tensix_execute_insn. destruct (nth _ _ _) as [| |h| | |]; try apply same_thread_refl.
  - unfold run_handler. destruct (h _ _ _). apply same_thread_refl.
  - apply same_thread_on. intros th. cbv zeta. repeat case_match; by split.
  - apply same_thread_on. intros th. repeat case_match; by split.
  - unfold run_handler. destruct (ttmvmul _ _ _ _). apply same_thread_refl.
Qed.

Lemma execute_halted t insn tid : (tensix_execute_insn t insn tid).1.(halted) = t.(halted).
Proof.
  unfold tensix_execute_insn, run_handler, ttmop, ttmop_cfg, tensix_cop_mop_expand, on_thread.
  destruct (nth _ _ _); try done; repeat case_match; cbn [fst]; rewrite ?halted_set_thread; done.
Qed.

(** ** The FIFO as a list *)

Definition fifo_wf (f : tensix_fifo) : Prop :=
  0 <= f.(head) < 32 /\ 0 <= f.(count) <= 32 /\ f.(tail) = (f.(head) + f.(count)) mod 32.

Definition fifo_list (f : tensix_fifo) : list Z :=
  (fun i => aget f.(buffer) ((f.(head) + i) mod 32)) <$> seqZ 0 f.(count).

Lemma fifo_list_length f : length (fifo_list f) = Z.to_nat f.(count).
Proof. unfold fifo_list. by rewrite length_fmap, length_seqZ. Qed.

Lemma fifo_push_list f insn :
  fifo_wf f ->
  (tensix_fifo_push f insn).2 = (length (fifo_list f) <? 32)%nat /\
  fifo_wf (tensix_fifo_push f insn).1 /\
  fifo_list (tensix_fifo_push f insn).1 =
    if (length (fifo_list f) <? 32)%nat then fifo_list f ++ [u32 insn] else fifo_list f.
Proof.
  intros (Hh & Hc & Ht). rewrite fifo_list_length.
  unfold tensix_fifo_push, tensix_fifo_is_full, TENSIX_FIFO_SIZE.
  destruct (Z.leb_spec 32 f.(count)), (Nat.ltb_spec (Z.to_nat f.(count)) 32); try lia;
    cbn [fst snd]; [done|]. split; [done|].
  assert (0 <= f.(tail) < 32) by (rewrite Ht; apply Z.mod_pos_bound; lia).
  rewrite !u32_small by lia. split.
  - split_and!; cbn; try lia. rewrite Ht, Zplus_mod_idemp_l. f_equal. lia.
  - unfold fifo_list. cbn [buffer head count]. rewrite seqZ_app by lia.
    rewrite fmap_app. cbn [seqZ]. f_equal.
    + apply list_fmap_ext. intros _ i Hi%list_elem_of_lookup_2. apply elem_of_seqZ in Hi.
      apply aget_set_ne. rewrite Ht. intros E. div_lia.
    + rewrite (seqZ_cons _ 1) by lia. cbn [seqZ fmap list_fmap Z.pred]. rewrite Z.add_0_l, <- Ht.
      by rewrite aget_set.
Qed.

Lemma fifo_pop_list f :
  fifo_wf f ->
  match fifo_list f with
  | [] => tensix_fifo_pop f = (f, None)
  | x :: l => exists f', tensix_fifo_pop f = (f', Some x) /\ fifo_wf f' /\ fifo_list f' = l
  end.
Proof.
  intros (Hh & Hc & Ht). unfold tensix_fifo_pop, tensix_fifo_is_empty, TENSIX_FIFO_SIZE.
  destruct (Z.eqb_spec f.(count) 0) as [E|E].
  - unfold fifo_list. by rewrite E.
  - unfold fifo_list. rewrite seqZ_cons by lia. cbn [fmap list_fmap].
    rewrite Z.add_0_r, (Z.mod_small f.(head)) by lia. eexists. split; [done|].
    rewrite !u32_small by lia. split.
    + split_and!; cbn; try lia; [apply Z.mod_pos_bound; lia | apply Z.mod_pos_bound; lia|].
      rewrite Ht, Zplus_mod_idemp_l. f_equal. lia.
    + cbn [buffer head count]. change (Z.succ 0) with (1 + 0).
      rewrite <- fmap_add_seqZ, <- list_fmap_compose.
      replace (Z.pred f.(count)) with (f.(count) - 1) by lia.
      apply list_fmap_ext. intros _ i _. unfold compose.
      by rewrite Zplus_mod_idemp_l, Z.add_assoc.
Qed.

(** ** Order of the instructions of a thread *)

Definition pending (th : tensix_thread_cop) : list Z :=
  (if th.(has_current_insn) then [th.(current_insn)] else []) ++ fifo_list th.(insn_fifo).

(** May the instruction leave the thread now?  Only a gate that stops it and
    whose conditions do not hold, a missing or occupied register bank, or its
    own unit can make it wait. *)
Definition issues (t : tensix) (c insn : Z) : bool :=
  let opcode := tensix_insn_opcode insn in
  let g := (thread t c).(wait_gate) in
  (opcode =? 0x03) ||
  (negb (g.(active) && gate_matches g opcode && negb (wait_gate_check t c)) &&
   (is_wait_insn opcode ||
    (negb (dvalid_blocked t.(t_units).(u_matrix) insn) && (tensix_execute_insn t insn c).2))).

Lemma execute_result t t' insn c :
  t'.(t_units) = t.(t_units) -> (thread t' c).(mop_cfg) = (thread t c).(mop_cfg) ->
  (tensix_execute_insn t' insn c).2 = (tensix_execute_insn t insn c).2.
Proof.
  intros Hu Hm. unfold tensix_execute_insn, run_handler. rewrite Hu, Hm.
  destruct (nth _ _ _); try done; by destruct (_ : units * bool).
Qed.

(** What a step leaves in the thread it runs. *)
Definition taken (th th' : tensix_thread_cop) : Prop :=
  th'.(insn_fifo) = th.(insn_fifo) /\ th'.(has_current_insn) = false.
Definition kept (insn : Z) (th th' : tensix_thread_cop) : Prop :=
  th'.(insn_fifo) = th.(insn_fifo) /\ th'.(has_current_insn) = true /\ th'.(current_insn) = insn.

Lemma thread_on_other t c c' f : slot c <> slot c' -> thread (on_thread c f t) c' = thread t c'.
Proof. intros H. rewrite thread_on_slot. by destruct (Z.eqb_spec (slot c) (slot c')). Qed.
Lemma units_on_thread t c f : t_units (on_thread c f t) = t_units t.
Proof. apply units_set_thread. Qed.
Lemma halted_on_thread t c f : halted (on_thread c f t) = halted t.
Proof. apply halted_set_thread. Qed.

Lemma execute_other t insn c c' :
  slot c <> slot c' -> thread (tensix_execute_insn t insn c).1 c' = thread t c'.
Proof.
  intros Hc. unfold tensix_execute_insn, run_handler, ttmop, ttmop_cfg, tensix_cop_mop_expand.
  destruct (nth _ _ _); try done; repeat case_match; try done; by apply thread_on_other.
Qed.

Lemma execute_current t insn c :
  (thread t c).(has_current_insn) = false ->
  (thread (tensix_execute_insn t insn c).1 c).(has_current_insn) = false.
Proof.
  intros H. pose proof (st_current _ _ (execute_threads t insn c c)) as Hi.
  apply not_true_is_false. intros E. apply Hi in E. congruence.
Qed.

(** The step's outcome for the instruction it has taken. *)
Record step_outcome (t : tensix) (c insn : Z) (r : tensix * bool) : Prop := {
  so_issues : r.2 = issues t c insn;
  so_thread : if r.2 then taken (thread t c) (thread r.1 c) else kept insn (thread t c) (thread r.1 c);
  so_units : r.2 = false -> r.1.(t_units) = t.(t_units);
  so_stuck : r.2 = false -> issues r.1 c insn = false;
  so_others : forall c', slot c <> slot c' -> thread r.1 c' = thread t c';
  so_halted : r.1.(halted) = t.(halted)
}.

Create Rewrite HintDb tensix.
#[local] Hint Rewrite thread_on units_on_thread halted_on_thread : tensix.

Lemma gate_check_on t c f :
  (f (thread t c)).(wait_gate) = (thread t c).(wait_gate) ->
  wait_gate_check (on_thread c f t) c = wait_gate_check t c.
Proof. intros H. unfold wait_gate_check. autorewrite with tensix. by rewrite H. Qed.

Lemma step_insn_outcome t c insn :
  (thread t c).(has_current_insn) = false -> step_outcome t c insn (step_insn t c insn).
Proof.
  intros Hcur. unfold step_insn.
  set (g := (thread t c).(wait_gate)). set (op := tensix_insn_opcode insn).
  destruct (op =? 3) eqn:E3; [|destruct (g.(active) && gate_matches g op && _) eqn:Eg].
  - split; cbn [fst snd]; autorewrite with tensix; try done.
    + unfold issues. fold op. by rewrite E3.
    + intros c' Hc. by rewrite thread_on_other.
  - split; cbn [fst snd]; autorewrite with tensix; try done.
    + unfold issues. fold op g. by rewrite E3, Eg.
    + intros _. unfold issues. rewrite (gate_check_on t) by done. autorewrite with tensix.
      change (wait_gate (waited _)) with g. fold op. by rewrite E3, Eg.
    + intros c' Hc. by rewrite thread_on_other.
  - set (t1 := if _ && _ then _ else t).
    assert (H1 : t_units t1 = t_units t /\ halted t1 = halted t /\
       (thread t1 c).(insn_fifo) = (thread t c).(insn_fifo) /\
       (thread t1 c).(has_current_insn) = false /\ (thread t1 c).(mop_cfg) = (thread t c).(mop_cfg) /\
       forall c', slot c <> slot c' -> thread t1 c' = thread t c').
    { unfold t1, wait_gate_clear. case_match; [|done]. autorewrite with tensix.
      split_and!; try done. intros c' Hc. by rewrite thread_on_other. }
    clearbody t1. destruct H1 as (Hu & Hh & Hf & Hc1 & Hm & Ho).
    assert (Hi : issues t c insn = is_wait_insn op ||
      (negb (dvalid_blocked t1.(t_units).(u_matrix) insn) && (tensix_execute_insn t1 insn c).2)).
    { unfold issues. fold op g. rewrite E3, Eg, Hu. by rewrite (execute_result t t1) by done. }
    assert (Hstuck : forall f, (forall th, (f th).(mop_cfg) = th.(mop_cfg)) ->
      is_wait_insn op || (negb (dvalid_blocked t1.(t_units).(u_matrix) insn) &&
        (tensix_execute_insn t1 insn c).2) = false -> issues (on_thread c f t1) c insn = false).
    { intros f Hf1 E. unfold issues. fold op. rewrite (execute_result t1), units_on_thread;
        autorewrite with tensix; [|done..]. by rewrite E3, E, andb_false_r. }
    destruct (is_wait_insn op); [|destruct (dvalid_blocked _ insn)].
    + unfold wait_gate_latch. split; cbn [fst snd]; autorewrite with tensix; try done.
      intros c' Hc. rewrite !thread_on_other by done. auto.
    + split; cbn [fst snd]; autorewrite with tensix; try done.
      * intros _. by apply Hstuck.
      * intros c' Hc. rewrite !thread_on_other by done. auto.
    + unfold tensix_cop_execute_insn. cbn [negb andb orb] in Hi.
      pose proof (execute_threads t1 insn c c) as [Hf' _ _ _ _ _].
      pose proof (execute_current t1 insn c Hc1) as Hc2.
      pose proof (execute_halted t1 insn c) as Hh2.
      pose proof (execute_other t1 insn c) as Ho2.
      pose proof (execute_blocked_keeps t1 insn c) as Hk.
      destruct (tensix_execute_insn t1 insn c) as [t2 []]; cbn [fst snd] in *;
        split; cbn [fst snd]; autorewrite with tensix; try congruence;
        try (split; [cbn; congruence | done]).
      * intros c' Hc. rewrite !thread_on_other, Ho2 by done. auto.
      * intros _. rewrite Hk; congruence.
      * intros _. rewrite Hk by done. by apply Hstuck.
      * intros c' Hc. rewrite !thread_on_other, Ho2 by done. auto.
Qed.

(** What a step promises about the instructions of its thread. *)
Record step_promise (t : tensix) (c : Z) (r : tensix * bool) : Prop := {
  sp_result : r.2 = match pending (thread t c) with
                    | [] => false
                    | insn :: _ => negb t.(halted) && issues t c insn
                    end;
  sp_pending : pending (thread r.1 c) =
                 if r.2 then drop 1 (pending (thread t c)) else pending (thread t c);
  sp_units : r.2 = false -> r.1.(t_units) = t.(t_units);
  sp_stuck : r.2 = false -> match pending (thread t c) with
                            | [] => True
                            | insn :: _ => r.1.(halted) || negb (issues r.1 c insn) = true
                            end;
  sp_others : forall c', slot c <> slot c' -> thread r.1 c' = thread t c';
  sp_wf : fifo_wf (thread r.1 c).(insn_fifo)
}.

Lemma issues_thread t c th insn :
  th.(wait_gate) = (thread t c).(wait_gate) -> th.(mop_cfg) = (thread t c).(mop_cfg) ->
  issues (set_thread t c th) c insn = issues t c insn.
Proof.
  intros Hg Hm. unfold issues, wait_gate_check.
  rewrite (execute_result t); rewrite ?thread_set, ?units_set_thread, ?Hg; done.
Qed.

Lemma outcome_promise t c th insn r :
  th.(wait_gate) = (thread t c).(wait_gate) -> th.(mop_cfg) = (thread t c).(mop_cfg) ->
  th.(has_current_insn) = false -> fifo_wf th.(insn_fifo) -> t.(halted) = false ->
  pending (thread t c) = insn :: fifo_list th.(insn_fifo) ->
  step_outcome (set_thread t c th) c insn r -> step_promise t c r.
Proof.
  intros Hg Hm Hc Hw Hh Hp [Hr Ht Hu Hs Ho Hl]. rewrite thread_set in Ht. split.
  - by rewrite Hp, Hh, Hr, issues_thread.
  - rewrite Hp. unfold pending. destruct r.2.
    + destruct Ht as [-> ->]. done.
    + destruct Ht as (-> & -> & ->). done.
  - intros E. rewrite Hu by done. apply units_set_thread.
  - intros E. rewrite Hp, Hs by done. apply orb_true_r.
  - intros c' H. rewrite Ho by done. rewrite thread_set_slot.
    by destruct (Z.eqb_spec (slot c) (slot c')).
  - destruct r.2; [destruct Ht as [-> _] | destruct Ht as (-> & _ & _)]; done.
Qed.

Lemma step_promised t c :
  valid_core c = true -> fifo_wf (thread t c).(insn_fifo) ->
  step_promise t c (tensix_cop_step t c).
Proof.
  intros Hv Hw. unfold tensix_cop_step. rewrite Hv. cbn [negb].
  destruct (halted t) eqn:Hh.
  { split; cbn [fst snd]; rewrite ?Hh; try done; by destruct (pending _). }
  destruct (has_current_insn (thread t c)) eqn:Hcur.
  - eapply outcome_promise; [..|apply step_insn_outcome]; rewrite ?thread_set; try done.
    unfold pending. by rewrite Hcur.
  - pose proof (fifo_pop_list _ Hw) as Hpop. unfold pending in *.
    assert (Hp : pending (thread t c) = fifo_list (thread t c).(insn_fifo))
      by (unfold pending; by rewrite Hcur).
    destruct (fifo_list _) as [|x l] eqn:El.
    + rewrite Hpop. split; cbn [fst snd]; rewrite ?thread_set, ?Hp; try done.
      * intros _. apply units_set_thread.
      * intros c' H. rewrite thread_set_slot. by destruct (Z.eqb_spec (slot c) (slot c')).
    + destruct Hpop as (f' & -> & Hw' & <-).
      eapply outcome_promise; [..|apply step_insn_outcome]; rewrite ?thread_set; done.
Qed.

(** ** The loops over steps end *)

Lemma step_stuck t c :
  valid_core c = true -> fifo_wf (thread t c).(insn_fifo) ->
  (tensix_cop_step t c).2 = false -> (tensix_cop_step (tensix_cop_step t c).1 c).2 = false.
Proof.
  intros Hv Hw E. destruct (step_promised t c Hv Hw) as [Hr Hp Hu Hs Ho Hw'].
  destruct (step_promised _ c Hv Hw') as [-> _ _ _ _ _]. rewrite Hp, E. specialize (Hs E).
  destruct (pending _) as [|z l]; [done|].
  by destruct (halted (tensix_cop_step t c).1), (issues (tensix_cop_step t c).1 c z).
Qed.

Lemma pending_length t c :
  fifo_wf (thread t c).(insn_fifo) ->
  (length (pending (thread t c)) < drain_fuel t c)%nat.
Proof.
  intros (_ & Hc & _). unfold pending, drain_fuel. rewrite length_app, fifo_list_length.
  destruct (has_current_insn _); cbn [length]; lia.
Qed.

(** The steps of a loop that has run [drain_fifo] or [run_until_wait]: the
    instructions that left, in order, and a thread that cannot go on. *)
Lemma drain_fifo_ends c : valid_core c = true -> forall fuel t,
  fifo_wf (thread t c).(insn_fifo) -> (length (pending (thread t c)) < fuel)%nat ->
  exists t', drain_fifo fuel t c = Some t' /\ fifo_wf (thread t' c).(insn_fifo) /\
    (exists l, pending (thread t c) = l ++ pending (thread t' c)) /\
    (tensix_cop_step t' c).2 = false.
Proof.
  intros Hv. induction fuel as [|fuel IH]; intros t Hw Hf; [lia|]. cbn [drain_fifo].
  pose proof (step_stuck t c Hv Hw) as Hk.
  destruct (step_promised t c Hv Hw) as [Hr Hp Hu _ Ho Hw'].
  destruct (tensix_cop_step t c) as [t1 []]; cbn [fst snd] in *.
  - destruct (pending (thread t c)) as [|x l]; [done|].
    cbn [drop length] in Hp, Hf. rewrite drop_0 in Hp.
    destruct (IH t1 Hw') as (t' & E & Hwf & [l' Hd] & Hs); [rewrite Hp; lia|].
    exists t'. split_and!; try done. exists (x :: l'). cbn. congruence.
  - exists t1. split_and!; try done; [|by apply Hk]. by exists [].
Qed.

(** ** Pushing an instruction *)

Lemma tensix_push_list t c insn :
  valid_core c = true -> fifo_wf (thread t c).(insn_fifo) ->
  let full := (32 <=? (thread t c).(insn_fifo).(count)) in
  tensix_push t insn c = ((tensix_push t insn c).1, negb full) /\
  pending (thread (tensix_push t insn c).1 c) =
    pending (thread t c) ++ (if full then [] else [u32 insn]) /\
  fifo_wf (thread (tensix_push t insn c).1 c).(insn_fifo).
Proof.
  intros Hv Hw full. unfold tensix_push, tensix_cop_push. rewrite Hv.
  replace ((c <? 0) || (2 <? c)) with false by (unfold valid_core in Hv; lia). cbn [negb].
  destruct (fifo_push_list _ insn Hw) as (H1 & H2 & H3). rewrite fifo_list_length in H1, H3.
  replace (Z.to_nat (count _) <? 32)%nat with (negb full) in H1, H3.
  2:{ unfold full. destruct Hw as (_ & Hc & _).
      destruct (Z.leb_spec 32 (thread t c).(insn_fifo).(count)),
        (Nat.ltb_spec (Z.to_nat (thread t c).(insn_fifo).(count)) 32); lia || done. }
  destruct (tensix_fifo_push _ _) as [f ok]; cbn [fst snd] in *. rewrite thread_set.
  split_and!; [by rewrite H1| |done]. unfold pending. cbn [insn_fifo].
  change (has_current_insn (set_insn_fifo _ f)) with (thread t c).(has_current_insn).
  change (current_insn (set_insn_fifo _ f)) with (thread t c).(current_insn).
  change (insn_fifo (set_insn_fifo _ f)) with f.
  rewrite H3, <- app_assoc. f_equal. destruct full; cbn [negb]; by rewrite ?app_nil_r.
Qed.

Lemma issues_aborted t b c insn : issues (set_aborted t b) c insn = issues t c insn.
Proof. unfold issues. by rewrite (execute_result t). Qed.

Lemma push_loop_ends c insn : valid_core c = true -> forall fuel t,
  fifo_wf (thread t c).(insn_fifo) -> (1 <= fuel)%nat ->
  (length (pending (thread t c)) < fuel + 31)%nat ->
  exists t' l rest, push_loop fuel t insn c = Some t' /\
    fifo_wf (thread t' c).(insn_fifo) /\ pending (thread t c) = l ++ rest /\
    (pending (thread t' c) = rest ++ [u32 insn] \/
     pending (thread t' c) = rest /\ t'.(aborted) = true /\ (tensix_step t' c).2 = false).
Proof.
  intros Hv. induction fuel as [|fuel IH]; intros t Hw Hf Hl; [lia|]. cbn [push_loop].
  destruct (tensix_push_list t c insn Hv Hw) as (Ep & Hp & Hwp).
  assert (Hcount : 32 <= (thread t c).(insn_fifo).(count) ->
                   (32 <= length (pending (thread t c)))%nat)
    by (unfold pending; rewrite length_app, fifo_list_length; lia).
  destruct (tensix_push t insn c) as [t1 ok]; cbn [fst snd] in *.
  apply pair_equal_spec in Ep as [_ ->].
  destruct (Z.leb_spec 32 (thread t c).(insn_fifo).(count)) as [Hge|_]; cbn [negb];
    [|exists t1, [], (pending (thread t c)); split_and!; try done; by left].
  specialize (Hcount Hge). rewrite app_nil_r in Hp. unfold tensix_step.
  pose proof (step_stuck t1 c Hv Hwp) as Hk.
  destruct (step_promised t1 c Hv Hwp) as [_ Hp1 _ _ _ Hw1].
  destruct (tensix_cop_step t1 c) as [t2 []]; cbn [fst snd] in *; rewrite Hp in Hp1.
  - destruct (pending (thread t c)) as [|x l]; [cbn in Hcount; lia|]. cbn [drop length] in *.
    rewrite drop_0 in Hp1.
    destruct (IH t2 Hw1) as (t' & l' & rest & E & Hw' & Hd & Hr); [lia|rewrite Hp1; lia|].
    exists t', (x :: l'), rest. split_and!; try done. cbn. congruence.
  - exists (set_aborted t2 true), [], (pending (thread t c)). split_and!; try done.
    right. split_and!; [done..|]. transitivity (tensix_cop_step t2 c).2; [|by apply Hk].
    rewrite (sp_result _ _ _ (step_promised (set_aborted t2 true) c Hv Hw1)).
    rewrite (sp_result _ _ _ (step_promised t2 c Hv Hw1)).
    change (thread (set_aborted t2 true) c) with (thread t2 c).
    destruct (pending (thread t2 c)); [reflexivity|]. by rewrite (issues_aborted t2 true).
Qed.

(** ** Behaviours to know *)

(** MOP register 3 posts semaphore 0; a MOP with one iteration of template 0. *)
Definition t_mop : tensix := tensix_write_mop_cfg (tensix_init 0 0 0 0 0 0) 1 12 0xA4000004.
Definition mop_once : Z := 0x01000000.
Definition sem0_after (r : option (tensix * bool)) : option (Z * bool) :=
  (fun p => (aget p.1.(t_units).(u_sync).(sem) 0, p.2)) <$> r.

(** Two MOPs that arrive through the FIFO, followed by a direct NOP: the second
    one replaces the first before it has run, and the semaphore is posted once.
    The same two as direct instructions post it twice. *)
Lemma fifo_mop_lost :
  sem0_after (tensix_step_direct 9 (tensix_set_direct
    (tensix_push (tensix_push t_mop mop_once 1).1 mop_once 1).1 0x02000000 1) 1) = Some (1, true) /\
  (r ← tensix_step_direct 9 (tensix_set_direct t_mop mop_once 1) 1;
   sem0_after (tensix_step_direct 9 (tensix_set_direct r.1 mop_once 1) 1)) = Some (2, true).
Proof. split; vm_compute; reflexivity. Qed.

(** Thread 0 holds mutex 2; ATGETM of thread 1 does not wait for it. *)
Lemma atgetm_not_exclusive :
  let u := (ttatgetm (tensix_init 0 0 0 0 0 0).(t_units) 2 0).1 in
  ttatgetm u 2 1 = (u, true).
Proof. vm_compute. reflexivity. Qed.

(** ** Claims *)


Definition t_demo : tensix :=
  (tensix_push (tensix_push (tensix_init 0 0 0 0 0 0) (0x02 <<. 24) 1).1 (0x41 <<. 24) 1).1.

Lemma t_demo_wf : fifo_wf (thread t_demo 1).(insn_fifo).
Proof. vm_compute. split_and!; congruence. Qed.


(** C28. [tensix_cop_step_direct] drains the FIFO before a direct instruction
    runs, in a loop without a bound in the source.  The loop ends: the
    instructions that left were the first ones, in order, and the thread that
    remains has nothing pending or cannot make a step. *)
Theorem drain_fifo_in_order t c :
  valid_core c = true -> fifo_wf (thread t c).(insn_fifo) ->
  exists t' l, drain_fifo (drain_fuel t c) t c = Some t' /\
    fifo_wf (thread t' c).(insn_fifo) /\
    pending (thread t c) = l ++ pending (thread t' c) /\
    (tensix_cop_step t' c).2 = false.
Proof.
  intros Hv Hw. destruct (drain_fifo_ends c Hv _ t Hw (pending_length t c Hw)) as (t' & E & H1 & [l H2] & H3).
  by exists t', l.
Qed.

Lemma drain_fifo_in_order_witness :
  (thread t_demo 1).(insn_fifo).(count) = 2 /\
  exists t' l, drain_fifo (drain_fuel t_demo 1) t_demo 1 = Some t' /\
    fifo_wf (thread t' 1).(insn_fifo) /\
    pending (thread t_demo 1) = l ++ pending (thread t' 1) /\ (tensix_cop_step t' 1).2 = false.
Proof.
  split; [vm_compute; reflexivity|]. exact (drain_fifo_in_order t_demo 1 eq_refl t_demo_wf).
Defined.

(** C29. A store to an instruction buffer (INSTRN_BUF) pushes into the FIFO of
    the thread and, while this is full, steps the thread; the source loops
    until the push succeeds.  The loop ends after at most two steps: the
    instruction is then the last pending one and those that left were the
    first, in order; or the thread cannot make a step, which the source
    reports with an [assert], with nothing lost. *)
Theorem instrn_push_in_order t c insn :
  valid_core c = true -> fifo_wf (thread t c).(insn_fifo) ->
  exists t' l rest, push_loop push_fuel t insn c = Some t' /\
    fifo_wf (thread t' c).(insn_fifo) /\ pending (thread t c) = l ++ rest /\
    (pending (thread t' c) = rest ++ [u32 insn] \/
     pending (thread t' c) = rest /\ t'.(aborted) = true /\ (tensix_step t' c).2 = false).
Proof.
  intros Hv Hw. apply push_loop_ends; [done..|unfold push_fuel; lia|].
  pose proof (pending_length t c Hw). unfold drain_fuel in *. destruct Hw as (_ & Hc & _).
  unfold push_fuel. lia.
Qed.

Lemma instrn_push_in_order_witness :
  (thread t_demo 1).(insn_fifo).(count) = 2 /\
  exists t' l rest, push_loop push_fuel t_demo 0x37000000 1 = Some t' /\
    fifo_wf (thread t' 1).(insn_fifo) /\ pending (thread t_demo 1) = l ++ rest /\
    (pending (thread t' 1) = rest ++ [u32 0x37000000] \/
     pending (thread t' 1) = rest /\ t'.(aborted) = true /\ (tensix_step t' 1).2 = false).
Proof.
  split; [vm_compute; reflexivity|].
  exact (instrn_push_in_order t_demo 1 0x37000000 eq_refl t_demo_wf).
Defined.
