(* ===== verification/TensixLink.v ===== *)
(** * A hart with its coprocessor

    The interpreter (Exec.v, Memory.v, Step.v) takes the coprocessor as a
    parameter; this file gives it the one of src/tt_cop and shows what the
    interpreter's theorems ask of it.  Then the two kinds of instruction by
    which a hart and the coprocessor meet: accesses to a mailbox, and Tensix
    instructions in the instruction stream. *)

From Stdlib Require Import ZArith Lia Bool.
From stdpp Require Import base list numbers gmap.
From S2P Require Import Prelude Decode Riscv Exec Memory ExecWf MemorySpec ExecMem Tensix Mailbox MailboxSpec TtInsn TensixCop TensixMmio MopSpec TensixCopSpec Step.

(** ** The parameters *)

Notation tworld := (world tensix).

(** Call a function of the coprocessor with the memory of the world.  Without
    a coprocessor the source would follow a null pointer: [none]. *)
Definition with_tensix {A : Type} (f : tensix -> tensix * A) (none : A) (w : tworld)
    : tworld * A :=
  match w.(w_tensix) with
  | Some t =>
      let '(t, a) := f (lend w.(w_heap) t) in
      let '(t, h) := settle t in
      (mk_world w.(w_mem) h (Some t), a)
  | None => (w, none)
  end.
Definition update_tensix (f : tensix -> tensix) (w : tworld) : tworld :=
  (with_tensix (fun t => (f t, tt)) tt w).1.
Definition read_tensix {A : Type} (f : tensix -> A) (none : A) (w : tworld) : A :=
  match w.(w_tensix) with Some t => f t | None => none end.

(** [tensix_set_direct] and [tensix_step_direct], as [do_ttinsn] calls them.  A
    call that does not return within the fuel counts as blocked: in both
    cases the hart does not get past the instruction. *)
Definition tt_direct (fuel : nat) (insn core : Z) : tworld -> tworld * bool :=
  with_tensix (fun t =>
    let t := tensix_set_direct t insn core in
    default (t, false) (tensix_step_direct fuel t core)) false.

Definition mailbox_stalled (core : Z) (w : tworld) : bool :=
  let mci := mailbox_core_index core in
  (0 <=? mci) && read_tensix (fun t => bget t.(t_mailbox).(mailbox_stall) mci) false w.

Definition tt_link : tensix_link tworld := {|
  Step.has_tensix w := match w.(w_tensix) with Some _ => true | None => false end;
  Step.cores_in_kernel := read_tensix Tensix.cores_in_kernel 0;
  Step.set_cores_in_kernel w v := update_tensix (fun t => Tensix.set_cores_in_kernel t v) w;
  Step.had_trisc_in_kernel := read_tensix Tensix.had_trisc_in_kernel false;
  Step.set_had_trisc_in_kernel w b :=
    update_tensix (fun t => Tensix.set_had_trisc_in_kernel t b) w;
  Step.tensix_clear := update_tensix Tensix.tensix_clear;
  Step.tensix_step w core := update_tensix (fun t => (TensixMmio.tensix_step t core).1) w;
  Step.clear_rta := clear_rta_l1_base
|}.

Definition tt_io (sys : riscv -> tworld -> riscv * tworld) : riscv_io tworld :=
  rv_io mmio_read mmio_write sys.

(** ** What the interpreter relies on *)

Lemma load_word h a : word (load 4 h a).
Proof. apply (load_range 4). Qed.

Lemma mailbox_read_word b core a v : (mailbox_read b core a).2 = Some v -> word v.
Proof.
  unfold mailbox_read. destruct (negb _); [done|]. destruct (_ <? 0).
  { cbn. intros [= <-]. by split. }
  destruct (nz _); cbn.
  { intros [= <-]. destruct (0 <? _); by split. }
  unfold fifo_pop. destruct (_ <=? 0); cbn; intros [= <-]; [by split | apply aget_word].
Qed.

Lemma tensix_mmio_read_word t core a v : (tensix_mmio_read t core a).2 = Some v -> word v.
Proof.
  unfold tensix_mmio_read.
  destruct (in_range 0xFFEC0000 _ a).
  { pose proof (mailbox_read_word t.(t_mailbox) core a v) as H.
    destruct (mailbox_read _ _ _). exact H. }
  repeat case_match; cbn; intros E; simplify_eq; try apply aget_word; try apply load_word;
    try (by split).
  unfold dbg_array_read. case_match; [|by split]. apply word_lor.
  - apply word_land_l; [|done]. case_match; [apply aget_word | by split].
  - rewrite Z.shiftl_mul_pow2 by done. unfold word.
    match goal with |- context [?x &. 65535] => pose proof (land_range x 65535 ltac:(lia)) end. lia.
Qed.

(** A read that the coprocessor does not answer has not changed it. *)
Lemma tensix_mmio_read_none t core a :
  (tensix_mmio_read t core a).2 = None -> (tensix_mmio_read t core a).1 = t.
Proof.
  unfold tensix_mmio_read. destruct (in_range 0xFFEC0000 _ a) eqn:E; [|by repeat case_match].
  unfold mailbox_read. change (in_mailbox_range a) with (in_range 0xFFEC0000 0xFFEC3FFF a).
  rewrite E. cbn [negb]. by repeat case_match; simplify_eq.
Qed.

Lemma tt_mmio_ok sys :
  (forall rv w, rv_wf rv -> rv_wf (sys rv w).1) -> MmioOk mmio_read sys.
Proof.
  intros Hs. split; [|done]. intros c a t h v t' h'. unfold mmio_read.
  pose proof (tensix_mmio_read_word (lend h t) c a) as Hw.
  destruct (tensix_mmio_read _ _ _) as [t1 [x|]]; [|done]. cbn in *. intros [= <- _ _]. auto.
Qed.

(** ** Mailbox accesses by a hart *)

Section mailbox.
Context (sys : riscv -> tworld -> riscv * tworld) (sf : softfloat) (find : Z -> option Z).
Context (fuel : nat).
Notation io := (tt_io sys).

(** The world after the coprocessor's mailboxes have become [b]. *)
Definition with_boxes (w : tworld) (t : tensix) (b : mailboxes) : tworld :=
  mk_world w.(w_mem) w.(w_heap) (Some (set_t_mailbox (lend ∅ t) b)).

Lemma boxes_in_range a : 0xFFEC0000 <= a <= 0xFFEC3FFF -> in_range 0xFFEC0000 0xFFEC3FFF a = true.
Proof. intros H. unfold in_range. lia. Qed.

Lemma mailbox_load rv w t a b v :
  w.(w_tensix) = Some t -> 0xFFEC0000 <= a <= 0xFFEC3FFF ->
  mailbox_read t.(t_mailbox) rv.(core_id) a = (b, Some v) ->
  io.(mem_read_w) rv w a = (v, with_boxes w t b).
Proof.
  intros Ht Ha Hr. cbn [mem_read_w tt_io rv_io]. unfold on_mem_read_w, mmio_read, tensix_mmio_read.
  rewrite Ht, boxes_in_range by done. change (t_mailbox (lend _ t)) with t.(t_mailbox).
  by rewrite Hr.
Qed.

Lemma mailbox_stalled_boxes c w t b s :
  0 <= mailbox_core_index c -> mb_repr b s ->
  mailbox_stalled c (with_boxes w t b) = bool_decide (mailbox_core_index c ∈ s.(waiting)).
Proof.
  intros Hc Hr. unfold mailbox_stalled. replace (0 <=? _) with true by lia. cbn.
  apply (repr_stall _ _ Hr).
Qed.

(** C30. A load that the translator has marked as a mailbox access, on a hart
    with the coprocessor, whose mailboxes stand for the queues [s].  If the
    queue from the addressed core to this one has a word, it goes to [rd] and
    the hart continues with the next instruction.  If it is empty, the hart
    stays at the load, is marked as waiting, and [rs1] keeps its value, even
    when [rd] is the same register, so that the retry computes the same
    address.  Memory is not touched. *)
Theorem lw_mailbox_exec rv w t s ir cycle pc :
  let a := u32 (getX rv ir.(rs1) + ir.(imm)) in
  let src := (a - 0xFFEC0000) / 4096 in
  let dst := mailbox_core_index rv.(core_id) in
  w.(w_tensix) = Some t -> mb_repr t.(t_mailbox) s ->
  0xFFEC0000 <= a <= 0xFFEC3FFF -> Z.testbit a 2 = false ->
  0 <= dst -> dst ∉ s.(waiting) ->
  exists b,
    match box s src dst with
    | v :: l =>
        mb_repr b (mk_boxes (<[(src, dst) := l]> s.(queue)) s.(waiting)) /\
        do_lw_mailbox io mailbox_stalled rv w ir cycle pc =
          (set_PC (set_csr_cycle (setX rv ir.(rd) v) (u64 (cycle + 1))) (u32 (pc + 4)),
           with_boxes w t b, Done true)
    | [] =>
        mb_repr b (mk_boxes s.(queue) ({[dst]} ∪ s.(waiting))) /\
        do_lw_mailbox io mailbox_stalled rv w ir cycle pc =
          (set_PC (set_csr_cycle (setX (setX rv ir.(rd) 0) ir.(rs1) (getX rv ir.(rs1)))
                     (u64 (cycle + 1))) pc,
           with_boxes w t b, Done false)
    end.
Proof.
  intros a src dst Ht Hr Ha H2 Hd Hw.
  destruct (call_repr _ s (Read rv.(core_id) a) Hr) as [Hres Hrep].
  cbn [code_call spec_call] in Hres, Hrep. fold dst src in Hres, Hrep.
  rewrite decide_True in Hres, Hrep by done. rewrite decide_False in Hres, Hrep by lia.
  rewrite H2 in Hres, Hrep.
  destruct (mailbox_read _ _ _) as [b [v|]] eqn:E; cbn [fst snd] in *.
  2:{ by destruct (box s src dst). }
  exists b. unfold do_lw_mailbox. fold a. rewrite (mailbox_load _ _ _ _ _ _ Ht Ha E).
  change (core_id (setX _ _ _)) with rv.(core_id).
  rewrite (mailbox_stalled_boxes _ _ _ _ _ Hd Hrep).
  destruct (box s src dst) as [|x l]; cbn [fst snd] in *; apply pair_equal_spec in Hres as [_ ->];
    (split; [done|]); cbn [waiting]; fold dst.
  - rewrite bool_decide_eq_true_2; [done|]. apply elem_of_union_l, elem_of_singleton. done.
  - by rewrite bool_decide_eq_false_2.
Qed.

(** A store to a mailbox appends its word to the queue from this core to
    the addressed one, unless four words are waiting there, in which case the
    queues are unchanged; then the word is also written to guest memory at the
    address, since the source reports the access as not handled.  The hart
    continues with the next instruction. *)
Theorem sw_mailbox_exec rv w t s ir cycle pc :
  let a := u32 (getX rv ir.(rs1) + ir.(imm)) in
  let src := mailbox_core_index rv.(core_id) in
  let v := getX rv ir.(rs2) in
  w.(w_tensix) = Some t -> mb_repr t.(t_mailbox) s ->
  0xFFEC0000 <= a <= 0xFFEC3FFF -> a mod 4 = 0 -> 0 <= src ->
  exists b,
    mb_repr b (box_push s src ((a - 0xFFEC0000) / 4096) (u32 v)) /\
    dispatch_table io sf find (tt_direct fuel) rv_insn_sw rv w ir cycle pc =
      (rv, set_heap (with_boxes w t b) (memory_write_w w.(w_mem) w.(w_heap) a v),
       Next (u64 (cycle + 1)) (u32 (pc + 4))).
Proof.
  intros a src v Ht Hr Ha H4 Hs.
  destruct (call_repr _ s (Write rv.(core_id) a v) Hr) as [_ Hrep].
  cbn [code_call spec_call] in Hrep. fold src in Hrep.
  rewrite !decide_True in Hrep by done.
  destruct (mailbox_write _ _ _ _) as [b r] eqn:E; cbn [fst] in Hrep.
  exists b. split; [done|].
  cbn [dispatch_table]. unfold RVOP, do_sw, load_addr. cbv zeta. fold a v.
  change 3 with (2 ^ 2 - 1). unfold tt_io. rewrite misalign_pass by (done || by left).
  cbn [mem_write_w rv_io]. unfold on_mem_write_w, mmio_write, tensix_mmio_write.
  rewrite Ht, boxes_in_range by done. change (t_mailbox (lend _ t)) with t.(t_mailbox).
  by rewrite E.
Qed.
End mailbox.

(** BRISC (core -1) sends a word to T0 (core 0), which then receives it. *)
Definition no_sys (rv : riscv) (w : tworld) : riscv * tworld := (rv, w).
Definition w_demo : tworld :=
  mk_world (rv32_create_mem 0x10000 0x1000 0x80000000 0x2000) ∅ (Some (tensix_init 0 0 0 0 0 0)).
Definition rv_demo (core : Z) : riscv := setX (setX (rv_zero core) 5 0xFFEC1000) 6 42.
Definition sw_demo : rv_insn := ir_set_rs2 (ir_set_rs1 rv_insn0 5) 6.
Definition lw_demo : rv_insn := ir_set_rd (ir_set_rs1 rv_insn0 5) 5.

Lemma w_demo_repr : mb_repr (tensix_init 0 0 0 0 0 0).(t_mailbox) (mk_boxes ∅ ∅).
Proof. apply mb_repr0. Qed.

Lemma sw_mailbox_exec_witness :
  exists b, mb_repr b (box_push (mk_boxes ∅ ∅) 0 1 42) /\
    dispatch_table (tt_io no_sys) sf_zero (fun _ => None) (tt_direct 0) rv_insn_sw
      (rv_demo (-1)) w_demo sw_demo 0 0x100 =
    (rv_demo (-1),
     set_heap (with_boxes w_demo (tensix_init 0 0 0 0 0 0) b)
       (memory_write_w w_demo.(w_mem) ∅ 0xFFEC1000 42), Next 1 0x104).
Proof.
  refine (sw_mailbox_exec no_sys sf_zero (fun _ => None) 0 (rv_demo (-1)) w_demo
           (tensix_init 0 0 0 0 0 0) (mk_boxes ∅ ∅) sw_demo 0 0x100 _ _ _ _ _).
  - reflexivity.
  - exact w_demo_repr.
  - vm_compute. split; congruence.
  - reflexivity.
  - vm_compute. congruence.
Defined.

(** With an empty queue, the load into its own address register stays. *)
Lemma lw_mailbox_exec_witness :
  exists b, mb_repr b (mk_boxes ∅ ({[1]} ∪ ∅)) /\
    do_lw_mailbox (tt_io no_sys) mailbox_stalled (rv_demo 0) w_demo lw_demo 0 0x100 =
    (set_PC (set_csr_cycle (setX (setX (rv_demo 0) 5 0) 5 0xFFEC1000) 1) 0x100,
     with_boxes w_demo (tensix_init 0 0 0 0 0 0) b, Done false).
Proof.
  refine (lw_mailbox_exec no_sys (rv_demo 0) w_demo
           (tensix_init 0 0 0 0 0 0) (mk_boxes ∅ ∅) lw_demo 0 0x100 _ _ _ _ _ _).
  - reflexivity.
  - exact w_demo_repr.
  - vm_compute. split; congruence.
  - reflexivity.
  - vm_compute. congruence.
  - vm_compute. intros H. inversion H.
Defined.
