(* ===== verification/TensixInv.v ===== *)
(** * The invariant of the coprocessor

    What keeps its array accesses in bounds and its counters in range: the
    current banks are 0 or 1, a semaphore and its maximum fit in four bits,
    the flag stack has -1 to 7 as its top, and every instruction FIFO is a ring.
    Every call of the interface keeps it, from [tensix_init] on. *)

From Stdlib Require Import ZArith Lia Bool.
From stdpp Require Import base list numbers gmap.
From S2P Require Import Prelude Memory Tensix Mailbox TtInsn TtMatrix TtPack TtSfpu TensixCop TensixMmio MopSpec TensixCopSpec.

Definition bank_ok (b : Z) : Prop := b = 0 \/ b = 1.

Definition matrix_wf (m : matrix) : Prop :=
  bank_ok m.(unp_srca_bank) /\ bank_ok m.(unp_srcb_bank) /\
  bank_ok m.(math_srca_bank) /\ bank_ok m.(math_srcb_bank).
Definition sync_wf (s : syncs) : Prop :=
  forall i, aget s.(sem) i <= 15 /\ aget s.(sem_max) i <= 15.
Definition sfpu_wf (s : sfpu) : Prop := -1 <= s.(flag_stack_top) <= 7.

Record units_wf (u : units) : Prop := mk_units_wf {
  wf_matrix : matrix_wf u.(u_matrix);
  wf_sync : sync_wf u.(u_sync);
  wf_sfpu : sfpu_wf u.(u_sfpu)
}.

Record tensix_wf (t : tensix) : Prop := mk_tensix_wf {
  wf_units : units_wf t.(t_units);
  wf_fifo : forall c, fifo_wf (thread t c).(insn_fifo)
}.

(** ** The parts *)

Lemma bank_flip b : bank_ok b -> bank_ok (b ^. 1).
Proof. intros [-> | ->]; [by right | by left]. Qed.

Lemma on_matrix_wf f u : (forall m, matrix_wf m -> matrix_wf (f m)) -> units_wf u -> units_wf (on_matrix f u).
Proof. intros Hf [Hm Hs Hv]. split; [by apply Hf | done..]. Qed.
Lemma on_sync_wf f u : (forall s, sync_wf s -> sync_wf (f s)) -> units_wf u -> units_wf (on_sync f u).
Proof. intros Hf [Hm Hs Hv]. split; [done | by apply Hf | done]. Qed.
Lemma on_sfpu_wf f u : (forall s, sfpu_wf s -> sfpu_wf (f s)) -> units_wf u -> units_wf (on_sfpu f u).
Proof. intros Hf [Hm Hs Hv]. split; [done.. | by apply Hf]. Qed.
Lemma frame_wf u u' :
  u'.(u_matrix) = u.(u_matrix) -> u'.(u_sync) = u.(u_sync) -> u'.(u_sfpu) = u.(u_sfpu) ->
  units_wf u -> units_wf u'.
Proof. intros E1 E2 E3 [Hm Hs Hv]. split; by rewrite ?E1, ?E2, ?E3. Qed.

(** The matrix unit: flips keep the banks. *)
Lemma flip_srca_math_wf m : matrix_wf m -> matrix_wf (flip_srca_math m).
Proof. intros (? & ? & ? & ?). split_and!; try done. by apply bank_flip. Qed.
Lemma flip_srcb_math_wf m : matrix_wf m -> matrix_wf (flip_srcb_math m).
Proof. intros (? & ? & ? & ?). split_and!; try done. by apply bank_flip. Qed.
Lemma flip_srca_unp_wf m : matrix_wf m -> matrix_wf (flip_srca_unp m).
Proof. intros (? & ? & ? & ?). split_and!; try done. by apply bank_flip. Qed.
Lemma flip_srcb_unp_wf m : matrix_wf m -> matrix_wf (flip_srcb_unp m).
Proof. intros (? & ? & ? & ?). split_and!; try done. by apply bank_flip. Qed.
Lemma when_keep {A} (P : A -> Prop) b f a : P a -> (P a -> P (f a)) -> P (when b f a).
Proof. destruct b; cbn; auto. Qed.
Lemma flip_banks_wf c m : matrix_wf m -> matrix_wf (flip_banks c m).
Proof.
  intros Hm. unfold flip_banks, when.
  repeat case_match; auto using flip_srca_math_wf, flip_srcb_math_wf.
Qed.
Lemma skip_zeroed_wf m : matrix_wf m -> matrix_wf (skip_zeroed_srcb m).
Proof.
  unfold skip_zeroed_srcb. case_match; [|done]. intros (? & ? & ? & ?).
  split_and!; try done. by apply bank_flip.
Qed.
Lemma unpack_store_wf c w i v m : matrix_wf m -> matrix_wf (unpack_store c w i v m).
Proof. intros Hm. unfold unpack_store. by repeat case_match. Qed.

(** Semaphores. *)
Lemma sync_set_sem s i v : 0 <= v <= 15 -> sync_wf s -> sync_wf (set_sem s (aset s.(sem) i v)).
Proof.
  intros Hv Hs j. destruct (Hs j) as [H1 H2]. cbn. split; [|done].
  arr_case; [|done]. rewrite u32_small; lia.
Qed.
Lemma sync_set_max s i v : 0 <= v <= 15 -> sync_wf s -> sync_wf (set_sem_max s (aset s.(sem_max) i v)).
Proof.
  intros Hv Hs j. destruct (Hs j) as [H1 H2]. cbn. split; [done|].
  arr_case; [|done]. rewrite u32_small; lia.
Qed.
Lemma sem_post_wf i s : sync_wf s -> sync_wf (sem_post i s).
Proof.
  intros Hs. unfold sem_post. destruct (Z.ltb_spec (aget s.(sem) i) 15); [|done].
  apply sync_set_sem; [|done]. pose proof (aget_word s.(sem) i) as [? ?]. lia.
Qed.
Lemma sem_get_wf i s : sync_wf s -> sync_wf (sem_get i s).
Proof.
  intros Hs. unfold sem_get. destruct (Z.ltb_spec 0 (aget s.(sem) i)); [|done].
  apply sync_set_sem; [|done]. destruct (Hs i). lia.
Qed.
Lemma field_range x lo mask : 0 <= mask -> 0 <= field x lo mask <= mask.
Proof. apply land_range. Qed.
Lemma for_sems_wf mask f u :
  (forall i s, sync_wf s -> sync_wf (f i s)) -> units_wf u -> units_wf (for_sems mask f u).
Proof.
  intros Hf. apply on_sync_wf. intros s Hs. apply (for_loop_keep sync_wf); [done|].
  intros i s' _ Hs'. case_match; auto.
Qed.
Lemma mmio_sem_write_wf data i s : sync_wf s -> sync_wf (mmio_sem_write data i s).
Proof.
  intros Hs. unfold mmio_sem_write. repeat case_match; auto using sem_post_wf, sem_get_wf.
  apply sync_set_sem; [|done]. by apply land_range.
Qed.

(** The vector unit: a loop over lanes keeps what its body keeps. *)
Lemma for_all_lanes_wf f s :
  (forall lane s, sfpu_wf s -> sfpu_wf (f lane s)) -> sfpu_wf s -> sfpu_wf (for_all_lanes f s).
Proof. intros Hf Hs. apply (for_loop_keep sfpu_wf); auto. Qed.
Lemma for_lanes_wf f s :
  (forall lane s, sfpu_wf s -> sfpu_wf (f lane s)) -> sfpu_wf s -> sfpu_wf (for_lanes f s).
Proof. intros Hf. apply for_all_lanes_wf. intros. case_match; auto. Qed.
Lemma put_lr_wf s vd lane v : sfpu_wf s -> sfpu_wf (put_lr s vd lane v).
Proof. unfold put_lr. by case_match. Qed.

(** ** The handlers *)

Definition keeps_wf (h : handler) : Prop :=
  forall u imm tid, units_wf u -> units_wf (h u imm tid).1.

Lemma sfp_wf f : (forall imm s, sfpu_wf s -> sfpu_wf (f imm s)) -> keeps_wf (sfp f).
Proof. intros Hf u imm tid. apply on_sfpu_wf. auto. Qed.
Lemma sfp_write_wf f :
  (forall imm lane s, sfpu_wf s -> sfpu_wf (f imm lane s)) -> keeps_wf (sfp_write f).
Proof. intros Hf. apply sfp_wf. intros imm s Hs. case_match; auto using for_lanes_wf. Qed.
Lemma sfp_cond_wf f :
  (forall imm lane s, sfpu_wf s -> sfpu_wf (f imm lane s)) -> keeps_wf (sfp_cond f).
Proof. intros Hf. apply sfp_wf. intros imm s Hs. case_match; auto using for_all_lanes_wf. Qed.

(** Goals [sfpu_wf _]: go into branches, loops and register writes. *)
Ltac sfpu_step :=
  match goal with
  | H : sfpu_wf ?s |- sfpu_wf _ => exact H
  | |- sfpu_wf (if ?b then _ else _) => destruct b
  | |- sfpu_wf (set_lr ?s _ _ _) => change (sfpu_wf s)
  | |- sfpu_wf (set_flag ?s _ _) => change (sfpu_wf s)
  | |- sfpu_wf (set_use_flag ?s _ _) => change (sfpu_wf s)
  | |- sfpu_wf (set_stack ?s _ _ _) => change (sfpu_wf s)
  | |- sfpu_wf (put_lr _ _ _ _) => apply put_lr_wf
  | |- sfpu_wf (for_all_lanes _ _) => apply for_all_lanes_wf; [intros|]
  | |- sfpu_wf (for_lanes _ _) => apply for_lanes_wf; [intros|]
  | |- sfpu_wf (for_loop _ _ _ _) => apply (for_loop_keep sfpu_wf); [|intros]
  | |- sfpu_wf (let '(_, _) := (if ?b then _ else _) in _) => destruct b
  | |- sfpu_wf (let '(_, _) := (_, _) in _) => cbv beta iota
  | |- sfpu_wf (let '(_, _) := advance_prng _ _ in _) => unfold advance_prng; cbv beta iota zeta
  | |- sfpu_wf (let '(_, _) := ?x in _) => destruct x
  | |- sfpu_wf (let x := _ in _) => cbv zeta
  end.

Ltac sfpu_wf := repeat first [sfpu_step | progress cbv beta zeta].

Lemma sfp_mad_common_wf : keeps_wf sfp_mad_common.
Proof. apply sfp_wf. intros. sfpu_wf. Qed.
Lemma sfp_imm_op_wf op : keeps_wf (sfp_imm_op op).
Proof. apply sfp_wf. intros. sfpu_wf. Qed.
Lemma sfp_bitop_wf op : keeps_wf (sfp_bitop op).
Proof. apply sfp_write_wf. intros. sfpu_wf. Qed.
Lemma sfppushc_wf : keeps_wf sfppushc.
Proof.
  apply sfp_wf. intros imm s Hs. cbv zeta.
  set (s1 := if _ : bool then set_flag_stack_top s _ else s).
  assert (H1 : sfpu_wf s1).
  { unfold s1, sfpu_wf in *. destruct ((sfp_mod1 imm =? 0) && (sfp_vd imm <? 12) && _) eqn:E; [|done].
    cbn. unfold FLAG_STACK_DEPTH in E. lia. }
  clearbody s1. sfpu_wf.
Qed.
Lemma sfppopc_wf : keeps_wf sfppopc.
Proof.
  apply sfp_wf. intros imm s Hs. cbv zeta.
  set (s1 := if 12 <=? _ then s else _).
  assert (H1 : sfpu_wf s1) by (unfold s1; sfpu_wf).
  clearbody s1. destruct ((sfp_mod1 imm =? 0) && _) eqn:E; [|done]. unfold sfpu_wf in *. cbn. lia.
Qed.

Lemma sfpmov_wf : keeps_wf sfpmov.
Proof. apply sfp_wf. intros. sfpu_wf. Qed.

(** Goals [units_wf _] and [matrix_wf _]. *)
Lemma apply_addr_mod_wf u i tid : units_wf u -> units_wf (apply_addr_mod u i tid).
Proof.
  intros Hu. unfold apply_addr_mod. case_match; [done|]. by apply (frame_wf u).
Qed.
Lemma write_cfg_wf u i v : units_wf u -> units_wf (tensix_write_cfg u i v).
Proof. intros Hu. unfold tensix_write_cfg. repeat case_match; by apply (frame_wf u). Qed.
Lemma reset_pack_offset_wf u : units_wf u -> units_wf (reset_pack_offset u).
Proof. by apply on_matrix_wf. Qed.
Lemma seed_prng_wf v u : units_wf u -> units_wf (seed_prng v u).
Proof. by apply on_sfpu_wf. Qed.
Lemma set_gpr_wf u tid r v : units_wf u -> units_wf (set_gpr u tid r v).
Proof. by apply frame_wf. Qed.

Ltac matrix_step :=
  match goal with
  | H : matrix_wf ?m |- matrix_wf _ => exact H
  | |- matrix_wf (if ?b then _ else _) => destruct b
  | |- matrix_wf ((if ?b then _ else _) _) => destruct b
  | |- matrix_wf (when ?b _ _) => unfold when at 1
  | |- matrix_wf (flip_banks _ _) => apply flip_banks_wf
  | |- matrix_wf (flip_srca_math _) => apply flip_srca_math_wf
  | |- matrix_wf (flip_srcb_math _) => apply flip_srcb_math_wf
  | |- matrix_wf (flip_srca_unp _) => apply flip_srca_unp_wf
  | |- matrix_wf (flip_srcb_unp _) => apply flip_srcb_unp_wf
  | |- matrix_wf (skip_zeroed_srcb _) => apply skip_zeroed_wf
  | |- matrix_wf (unpack_store _ _ _ _ _) => apply unpack_store_wf
  | |- matrix_wf (for_loop _ _ _ _) => apply (for_loop_keep matrix_wf); [|intros]
  end.
Ltac units_step :=
  match goal with
  | H : units_wf ?u |- units_wf ?u => exact H
  | |- units_wf (if ?b then _ else _) => destruct b
  | |- units_wf (fst (if ?b then _ else _)) => destruct b
  | |- units_wf (fst (_, _)) => cbn [fst]
  | |- units_wf (let _ := _ in _) => cbv zeta
  | |- units_wf (when ?b _ _) => unfold when at 1
  | |- units_wf (apply_addr_mod _ _ _) => apply apply_addr_mod_wf
  | |- units_wf (tensix_write_cfg _ _ _) => apply write_cfg_wf
  | |- units_wf (reset_pack_offset _) => apply reset_pack_offset_wf
  | |- units_wf (seed_prng _ _) => apply seed_prng_wf
  | |- units_wf (set_gpr _ _ _ _) => apply set_gpr_wf
  | |- units_wf (on_matrix _ _) => apply on_matrix_wf; [intros; repeat matrix_step|]
  | |- units_wf (on_sfpu _ _) => apply on_sfpu_wf; [intros; sfpu_wf|]
  | |- units_wf (set_adc ?u _) => apply (frame_wf u); [reflexivity..|]
  | |- units_wf (for_sems _ _ _) => apply for_sems_wf; [intros|]
  | |- units_wf (for_loop _ _ _ _) => apply (for_loop_keep units_wf); [|intros]
  | H : units_wf ?u |- units_wf _ => apply (frame_wf u); [reflexivity..|exact H]
  end.
Ltac units_wf := intros u imm tid Hu; cbv beta delta [
  ttmovd2a ttmovd2b ttmovb2a ttmova2d ttmovb2d ttzeroacc ttzerosrc tttrnspsrcb ttmvmul
  ttelwmul ttelwadd ttelwsub elw_insn ttgmpool ttgapool mvmul_compute elw_compute
  ttunpacr ttunpacr_nop ttsetadc ttsetadcxy ttincadcxy ttaddrcrxy ttsetadczw ttincadczw
  ttaddrcrzw ttsetadcxx ttsetdmareg ttadddmareg ttsubdmareg ttmuldmareg ttbitwopdmareg
  ttshiftdmareg ttcmpdmareg dma_alu ttstorereg ttloadreg ttatgetm ttatrelm ttwrcfg ttrdcfg
  ttsetc16 rmwcib_common ttrmwcib0 ttrmwcib1 ttrmwcib2 ttrmwcib3 ttcfgshiftmask ttincrwc
  ttreplay ttnop ttdmanop ttgatesrcrst sfpload sfpstore sfpnop ttsempost ttsemget ttsetdvalid
  set_gpr_half ] zeta;
  repeat units_step.

Lemma mvmul_wf c : keeps_wf (ttmvmul c).
Proof. units_wf. Qed.

Lemma cleardvalid_wf : keeps_wf ttcleardvalid.
Proof.
  intros u imm tid Hu. apply on_matrix_wf; [|done]. intros m Hm.
  destruct (nz (imm &. 1)); [|by repeat matrix_step]. split_and!; by left.
Qed.
Lemma setrwc_wf : keeps_wf ttsetrwc.
Proof.
  intros u imm tid Hu. unfold ttsetrwc. cbv zeta.
  repeat match goal with |- units_wf (fst (if ?b then _ else _)) => destruct b; [exact Hu|] end.
  cbn [fst]. destruct Hu as [Hm Hs Hv]. split; [|done..]. cbn [u_matrix set_u_matrix].
  change (matrix_wf
    (let m := u.(u_matrix) in
     let m := if nz (field imm 22 3 &. 1) then when (srca_ready m) flip_srca_math m else m in
     if nz (field imm 22 3 &. 2) then when (srcb_ready m) flip_srcb_math m else m)).
  cbv zeta. repeat matrix_step.
Qed.
Lemma seminit_wf : keeps_wf ttseminit.
Proof.
  intros u imm tid Hu. apply for_sems_wf; [|done]. intros i s Hs.
  apply (sync_set_max (set_sem s _)); [by apply field_range|].
  apply sync_set_sem; [by apply field_range | done].
Qed.
Lemma sempost_wf : keeps_wf ttsempost.
Proof. units_wf; by apply sem_post_wf. Qed.
Lemma semget_wf : keeps_wf ttsemget.
Proof. units_wf. by apply sem_get_wf. Qed.

Lemma l1_write8_wf u off v : units_wf u -> units_wf (l1_write8 u off v).
Proof. by apply frame_wf. Qed.
Lemma pack_bfp8_wf u z a y x n l o : units_wf u -> units_wf (pack_bfp8 u z a y x n l o).
Proof.
  intros Hu. unfold pack_bfp8. cbv zeta. apply (for_loop_keep units_wf); [done|].
  intros g u1 _ H1. apply (for_loop_keep units_wf).
  - by apply (when_keep units_wf); [|apply l1_write8_wf].
  - intros k u2 _ H2. by apply (when_keep units_wf); [|apply l1_write8_wf].
Qed.
Lemma pack_plain_wf u z a y x f d l : units_wf u -> units_wf (pack_plain u z a y x f d l).
Proof.
  intros Hu. unfold pack_plain. apply (for_loop_keep units_wf); [done|].
  intros row u1 _ H1. apply (for_loop_keep units_wf); [done|]. intros col u2 _ H2. cbv zeta.
  apply (when_keep units_wf); [done|]. by apply frame_wf.
Qed.

Lemma pacr_wf : keeps_wf ttpacr.
Proof.
  intros u imm tid Hu. unfold ttpacr. cbv zeta.
  match goal with |- context [for_loop 0 4 ?f ?p] => set (F := f); set (P := p) end.
  assert (H : units_wf (for_loop 0 4 F P).2).
  { apply (for_loop_keep (fun p : Z * units => units_wf p.2)); [by apply on_matrix_wf|].
    intros i [k u1] _ H1. unfold F. repeat case_match; cbn [snd] in *;
      auto using pack_bfp8_wf, pack_plain_wf. }
  destruct (for_loop 0 4 F P) as [k u1]. cbn [snd fst] in *.
  match goal with |- units_wf (pack_addr_mod ?u _) => set (u2 := u) end.
  assert (H2 : units_wf u2) by (unfold u2; repeat units_step). clearbody u2.
  by apply (frame_wf u2).
Qed.
Lemma sfptransp_wf : keeps_wf sfptransp.
Proof. apply sfp_wf. intros. cbv zeta. sfpu_wf. Qed.

Lemma unpacr_wf : keeps_wf ttunpacr.
Proof. units_wf. Qed.
Lemma unpacr_nop_wf : keeps_wf ttunpacr_nop.
Proof. units_wf. Qed.

(** The handlers of the table by their shape. *)
Ltac table_entry :=
  lazymatch goal with
  | |- keeps_wf ttcleardvalid => exact cleardvalid_wf
  | |- keeps_wf ttsetrwc => exact setrwc_wf
  | |- keeps_wf ttseminit => exact seminit_wf
  | |- keeps_wf ttsempost => exact sempost_wf
  | |- keeps_wf ttsemget => exact semget_wf
  | |- keeps_wf ttpacr => exact pacr_wf
  | |- keeps_wf sfppushc => exact sfppushc_wf
  | |- keeps_wf sfppopc => exact sfppopc_wf
  | |- keeps_wf ttunpacr => exact unpacr_wf
  | |- keeps_wf ttunpacr_nop => exact unpacr_nop_wf
  | |- keeps_wf ttatgetm => intros u imm tid; apply on_sync_wf; intros s Hs; by case_match
  | |- keeps_wf ttatrelm => intros u imm tid; apply on_sync_wf; intros s Hs; by case_match
  | |- keeps_wf (sfp _) => apply sfp_wf; intros; cbv zeta; sfpu_wf
  | |- keeps_wf (sfp_write _) => apply sfp_write_wf; intros; cbv zeta; sfpu_wf
  | |- keeps_wf (sfp_cond _) => apply sfp_cond_wf; intros; cbv zeta; sfpu_wf
  | |- keeps_wf (sfp_imm_op _) => apply sfp_imm_op_wf
  | |- keeps_wf (sfp_bitop _) => apply sfp_bitop_wf
  | |- keeps_wf sfp_mad_common => exact sfp_mad_common_wf
  | |- keeps_wf (elw_insn _) => units_wf
  | |- keeps_wf (dma_alu _ _) => units_wf
  | |- keeps_wf (rmwcib_common _) => units_wf
  | |- keeps_wf (fun _ => _) => units_wf
  | |- keeps_wf ?h => unfold h; table_entry
  end.

Lemma table_wf :
  Forall (fun i => match i with U h => keeps_wf h | _ => True end) tt_jump_table.
Proof.
  unfold tt_jump_table.
  repeat (apply List.Forall_cons; [first [exact I | solve [table_entry]]|]).
  apply List.Forall_nil.
Qed.

Lemma keeps_nth n h : nth n tt_jump_table Unimp = U h -> keeps_wf h.
Proof.
  intros E. pose proof table_wf as Ht. rewrite Forall_forall in Ht.
  destruct (decide (n < length tt_jump_table)%nat) as [Hn|Hn].
  - specialize (Ht (nth n tt_jump_table Unimp)). rewrite E in Ht. apply Ht.
    rewrite <- E. by apply list_elem_of_In, nth_In.
  - rewrite nth_overflow in E by lia. done.
Qed.

(** ** The dispatcher *)

Lemma set_units_wf t u : units_wf u -> tensix_wf t -> tensix_wf (set_t_units t u).
Proof. intros Hu [_ Hf]. by split. Qed.
Lemma on_units_wf f t :
  (forall u, units_wf u -> units_wf (f u)) -> tensix_wf t -> tensix_wf (on_units f t).
Proof. intros Hf Ht. apply set_units_wf; [apply Hf, Ht | done]. Qed.
Lemma set_thread_wf t c th : fifo_wf th.(insn_fifo) -> tensix_wf t -> tensix_wf (set_thread t c th).
Proof.
  intros Hf [Hu Ht]. split; [by rewrite units_set_thread|]. intros c'.
  rewrite thread_set_slot. case_match; auto.
Qed.
Lemma on_thread_wf t c f :
  (forall th, fifo_wf th.(insn_fifo) -> fifo_wf (f th).(insn_fifo)) ->
  tensix_wf t -> tensix_wf (on_thread c f t).
Proof. intros Hf Ht. apply set_thread_wf; [apply Hf, Ht | done]. Qed.

Lemma run_handler_wf h t imm tid :
  keeps_wf h -> tensix_wf t -> tensix_wf (run_handler h t imm tid).1.
Proof.
  intros Hh Ht. unfold run_handler. pose proof (Hh t.(t_units) imm tid (wf_units _ Ht)) as H.
  destruct (h _ _ _) as [u ok]. by apply set_units_wf.
Qed.

Lemma execute_wf t insn tid : tensix_wf t -> tensix_wf (tensix_execute_insn t insn tid).1.
Proof.
  intros Ht. unfold tensix_execute_insn. destruct (nth _ _ _) as [| |h| | |] eqn:E; try done.
  - apply run_handler_wf; [by eapply keeps_nth | done].
  - apply on_thread_wf; [|done]. intros th Hf. cbv zeta. by repeat case_match.
  - apply on_thread_wf; [|done]. intros th Hf. by repeat case_match.
  - apply run_handler_wf; [apply mvmul_wf | done].
Qed.

Ltac thread_wf := apply on_thread_wf; [by intros|].

Lemma step_insn_wf t c insn : tensix_wf t -> tensix_wf (step_insn t c insn).1.
Proof.
  intros Ht. unfold step_insn, wait_gate_clear, wait_gate_latch, tensix_cop_execute_insn. cbv zeta.
  destruct (_ =? 3); [by thread_wf|]. destruct (_ && negb _); [by thread_wf|].
  set (t1 := if _ : bool then _ else t).
  assert (H1 : tensix_wf t1) by (unfold t1; case_match; [by thread_wf | done]). clearbody t1.
  destruct (is_wait_insn _); [by do 2 thread_wf|]. destruct (dvalid_blocked _ _); [by thread_wf|].
  pose proof (execute_wf t1 insn c H1) as H2.
  destruct (tensix_execute_insn _ _ _) as [t2 []]; by thread_wf.
Qed.

Lemma step_wf t c : tensix_wf t -> tensix_wf (tensix_cop_step t c).1.
Proof.
  intros Ht. unfold tensix_cop_step. destruct (negb _); [done|]. destruct (halted t); [done|].
  destruct (has_current_insn _).
  - apply step_insn_wf, set_thread_wf; [apply Ht | done].
  - pose proof (fifo_pop_list _ (wf_fifo _ Ht c)) as Hp.
    destruct (fifo_list _) as [|x l].
    + rewrite Hp. apply set_thread_wf; [apply Ht | done].
    + destruct Hp as (f & -> & Hf & _). by apply step_insn_wf, set_thread_wf.
Qed.

Lemma push_wf t c insn : tensix_wf t -> tensix_wf (tensix_cop_push t c insn).1.
Proof.
  intros Ht. unfold tensix_cop_push. destruct (negb _); [done|].
  destruct (fifo_push_list _ insn (wf_fifo _ Ht c)) as (_ & H & _).
  destruct (tensix_fifo_push _ _) as [f ok]. by apply set_thread_wf.
Qed.

(** A loop that may run out of fuel keeps the invariant when it ends. *)
Definition some_wf {A : Type} (r : option (tensix * A)) : Prop :=
  match r with Some (t, _) => tensix_wf t | None => True end.

Ltac step_wf :=
  match goal with
  | H : tensix_wf ?t |- context [tensix_cop_step ?t ?c] =>
      let H' := fresh in pose proof (step_wf t c H) as H';
      destruct (tensix_cop_step t c) as [? []]; cbn [fst] in H'
  end.

Lemma drain_fifo_wf fuel c : forall t, tensix_wf t ->
  match drain_fifo fuel t c with Some t' => tensix_wf t' | None => True end.
Proof.
  induction fuel as [|fuel IH]; intros t Ht; cbn [drain_fifo]; [done|].
  step_wf; [by apply IH | done].
Qed.
Lemma replay_next_wf t c : tensix_wf t -> tensix_wf (replay_next t c).
Proof.
  intros Ht. unfold replay_next. cbv zeta. thread_wf. apply on_units_wf; [|done].
  intros u. by apply frame_wf.
Qed.
Lemma drain_replay_wf fuel c : forall t, tensix_wf t -> some_wf (drain_replay_expansion fuel t c).
Proof.
  induction fuel as [|fuel IH]; intros t Ht; cbn [drain_replay_expansion]; [done|].
  destruct (negb _); [done|].
  assert (H1 : tensix_wf (if (thread t c).(has_current_insn) then tensix_cop_step t c
                          else (t, true)).1) by (case_match; [by apply step_wf | done]).
  destruct (if has_current_insn _ then _ else _) as [t1 []]; [|done]. cbn [fst] in H1.
  destruct (_ <=? _).
  - apply on_units_wf; [|done]. intros u. by apply frame_wf.
  - pose proof (replay_next_wf t1 c H1). step_wf; [by apply IH | done].
Qed.
Lemma drain_if_wf fuel t c : tensix_wf t -> some_wf (drain_if_expanding fuel t c).
Proof. intros Ht. unfold drain_if_expanding. case_match; [by apply drain_replay_wf | done]. Qed.

Lemma generate_next_wf t c : tensix_wf t -> some_wf (mop_generate_next t c).
Proof.
  intros Ht. unfold mop_generate_next. destruct (negb _); [done|]. destruct (_ =? 0).
  - apply set_thread_wf; [apply Ht | done].
  - destruct (mop_generate_next_t1 _ _ _) as [[st r]|]; [|done]. apply set_thread_wf; [apply Ht | done].
Qed.
Lemma mop_loop_wf c : forall fuel t, tensix_wf t -> some_wf (mop_loop fuel t c).
Proof.
  induction fuel as [|fuel IH]; intros t Ht; cbn [mop_loop]; [done|].
  pose proof (generate_next_wf t c Ht) as Hg.
  destruct (mop_generate_next t c) as [[t1 [insn|]]|]; [| |done].
  - assert (H1 : tensix_wf (on_thread c (pend insn) t1)) by by thread_wf.
    step_wf; [|done]. pose proof (drain_if_wf (S fuel) t0 c H) as Hd.
    destruct (drain_if_expanding _ _ _) as [[t2 []]|]; [by apply IH | done..].
  - by thread_wf.
Qed.

Lemma mop_continue_wf fuel t c : tensix_wf t -> some_wf (mop_continue_execution fuel t c).
Proof.
  intros Ht. unfold mop_continue_execution. pose proof (drain_if_wf fuel t c Ht) as Hd.
  destruct (drain_if_expanding fuel t c) as [[t1 []]|]; [|done..]. cbn in Hd.
  destruct (has_current_insn _); [|by apply mop_loop_wf]. step_wf; [|done].
  assert (H1 : tensix_wf (on_thread c (fun th => set_has_current_insn th false) t0)) by by thread_wf.
  pose proof (drain_if_wf fuel _ c H1) as Hd2.
  destruct (drain_if_expanding fuel _ c) as [[t2 []]|]; [by apply mop_loop_wf | done..].
Qed.

Lemma finish_mop_wf fuel c saved : forall k t, tensix_wf t -> some_wf (finish_mop fuel k t c saved).
Proof.
  induction k as [|k IH]; intros t Ht; cbn [finish_mop]; [done|].
  destruct (negb _); [by thread_wf|]. pose proof (mop_continue_wf fuel t c Ht) as H.
  destruct (mop_continue_execution fuel t c) as [[t1 []]|]; [by apply IH | by thread_wf | done].
Qed.

Lemma direct_insn_wf fuel t c : tensix_wf t -> some_wf (direct_insn_step fuel t c).
Proof.
  intros Ht. unfold direct_insn_step, wait_gate_clear, wait_gate_latch, record_insn,
    tensix_cop_execute_insn. cbv zeta.
  destruct (_ =? 3); [by thread_wf|].
  destruct (replay_flag replay_recording t c).
  { thread_wf. match goal with |- context [on_replays ?f t] => set (F := f) end.
    assert (H1 : tensix_wf (on_replays F t)) by (apply on_units_wf; [intros u; by apply frame_wf | done]).
    case_match; [by apply execute_wf | done]. }
  destruct (_ && negb _); [by thread_wf|].
  set (t1 := if _ : bool then _ else t).
  assert (H1 : tensix_wf t1) by (unfold t1; case_match; [by thread_wf | done]). clearbody t1.
  destruct (is_wait_insn _); [by do 2 thread_wf|]. destruct (dvalid_blocked _ _).
  { case_match; [by thread_wf | done]. }
  match goal with |- context [tensix_execute_insn t1 ?i c] =>
    pose proof (execute_wf t1 i c H1) as H2; destruct (tensix_execute_insn t1 i c) as [t2 []] end;
    cbn [fst] in H2; [|by thread_wf].
  destruct (_ =? 1); [by apply mop_continue_wf|]. pose proof (drain_if_wf fuel t2 c H2) as Hd.
  destruct (drain_if_expanding fuel t2 c) as [[t3 []]|]; [by thread_wf | done..].
Qed.

Lemma direct_after_wf fuel t c : tensix_wf t -> some_wf (direct_after_mop fuel t c).
Proof.
  intros Ht. unfold direct_after_mop. pose proof (drain_fifo_wf (drain_fuel t c) c t Ht) as Hd.
  destruct (drain_fifo _ t c) as [t1|]; [|done]. destruct (mop_active _); [|by apply direct_insn_wf].
  pose proof (finish_mop_wf fuel c (thread t1 c).(direct_insn) fuel t1 Hd) as Hm.
  destruct (finish_mop _ _ _ _ _) as [[t2 []]|]; [by apply direct_insn_wf | done..].
Qed.

Lemma step_direct_wf fuel t c : tensix_wf t -> some_wf (tensix_cop_step_direct fuel t c).
Proof.
  intros Ht. unfold tensix_cop_step_direct, restore_direct. cbv zeta. destruct (negb _); [done|].
  destruct (halted t); [done|]. destruct (negb _); [done|].
  destruct (mop_active _); [|by apply direct_after_wf].
  pose proof (mop_continue_wf fuel t c Ht) as H.
  destruct (mop_continue_execution fuel t c) as [[t1 []]|]; [|by thread_wf|done].
  case_match; [done|]. apply direct_after_wf. by thread_wf.
Qed.

(** ** The interface *)

Lemma push_loop_wf c data : forall fuel t, tensix_wf t ->
  match push_loop fuel t data c with Some t' => tensix_wf t' | None => True end.
Proof.
  induction fuel as [|fuel IH]; intros t Ht; cbn [push_loop]; [done|].
  assert (Hp : tensix_wf (tensix_push t data c).1)
    by (unfold tensix_push; case_match; [done | by apply push_wf]).
  destruct (tensix_push t data c) as [t1 []]; [done|]. cbn [fst] in Hp. unfold tensix_step.
  step_wf; [by apply IH|]. destruct H as [Hu Hf]. by split.
Qed.

Lemma mem_store_wf t a v : tensix_wf t -> tensix_wf (mem_store t a v).
Proof. apply on_units_wf. intros u. by apply frame_wf. Qed.

Lemma mmio_write_wf t c a v : tensix_wf t -> tensix_wf (tensix_mmio_write t c a v).1.
Proof.
  intros Ht. unfold tensix_mmio_write, instrn_push, stream_write, cfg_mmio_write,
    tensix_write_mop_cfg, when. cbv zeta.
  repeat (match goal with |- tensix_wf (fst (if ?b then _ else _)) => destruct b end); cbn [fst].
  - destruct Ht as [Hu Hf]. by split.
  - apply on_units_wf; [|done]. intros u. apply on_sync_wf. intros s. apply mmio_sem_write_wf.
  - repeat case_match; try thread_wf; auto using mem_store_wf.
  - case_match; [|done]. pose proof (push_loop_wf (push_target c a) v push_fuel t Ht) as Hp.
    by destruct (push_loop _ _ _ _).
  - repeat case_match; auto using mem_store_wf.
  - assert (forall t, tensix_wf t -> tensix_wf (on_units reset_pack_offset t)) as H1
      by (intros t' ?; apply on_units_wf; [apply reset_pack_offset_wf | done]).
    assert (forall t, tensix_wf t -> tensix_wf (on_units (seed_prng v) t)) as H2
      by (intros t' ?; apply on_units_wf; [apply seed_prng_wf | done]).
    repeat case_match; auto.
  - destruct Ht as [Hu Hf]. by split.
  - done.
  - done.
Qed.

Lemma mmio_read_wf t c a : tensix_wf t -> tensix_wf (tensix_mmio_read t c a).1.
Proof.
  intros Ht. unfold tensix_mmio_read. cbv zeta.
  destruct (in_range 0xFFEC0000 _ a); [|by repeat case_match].
  destruct (mailbox_read _ _ _) as [b r]. destruct Ht as [Hu Hf]. by split.
Qed.

Lemma fifo_init_wf : fifo_wf tensix_fifo_init.
Proof. split_and!; done. Qed.
Lemma afill_small lo n v a :
  0 <= v <= 15 -> (forall i, aget a i <= 15) -> forall i, aget (afill lo n v a) i <= 15.
Proof.
  intros Hv Ha. apply (for_loop_keep (fun a => forall i, aget a i <= 15)); [done|].
  intros i a' _ H j. arr_case; [|done]. rewrite u32_small; lia.
Qed.
Lemma aget_empty i : aget ∅ i = 0.
Proof. unfold aget. by rewrite lookup_empty. Qed.

Lemma clear_wf t : tensix_wf t -> tensix_wf (tensix_clear t).
Proof.
  intros [[_ Hs _] _]. split; [split|].
  - split_and!; by left.
  - intros j. split; [by rewrite aget_empty|]. revert j. cbn [sem_max tensix_clear u_sync t_units].
    apply (for_loop_keep (fun a => forall i, aget a i <= 15)); [intros j; by rewrite aget_empty|].
    intros i a _ Ha j. arr_case; [|done]. destruct (Hs j).
    rewrite u32_word by apply aget_word. done.
  - unfold sfpu_wf. cbn. lia.
  - intros c. unfold thread. repeat case_match; apply fifo_init_wf.
Qed.

Lemma reset_wf t : tensix_wf t -> tensix_wf (tensix_reset t).
Proof.
  intros [[Hm Hs Hv] _]. split; [split|].
  - split_and!; by left.
  - intros j. cbn. destruct (Hs j). split; [|done]. apply afill_small; [lia|]. intros i. by apply Hs.
  - done.
  - intros c. unfold thread. repeat case_match; apply fifo_init_wf.
Qed.

Lemma init_wf l1 high l0 l1' l2 noc : tensix_wf (tensix_init l1 high l0 l1' l2 noc).
Proof.
  split; [split|].
  - split_and!; by left.
  - intros j. cbn [tensix_init tensix_cop_init t_units u_sync sem sem_max set_u_matrix set_u_sfpu set_u_sync].
    split; [apply afill_small; [lia | intros i; by rewrite aget_empty]|].
    assert (H0 : forall i, aget (afill 0 8 0 ∅) i <= 15)
      by (apply afill_small; [lia | intros i; by rewrite aget_empty]).
    cbn. repeat (arr_case; [rewrite u32_small; lia|]). apply H0.
  - unfold sfpu_wf. cbn. lia.
  - intros c. unfold thread. repeat case_match; apply fifo_init_wf.
Qed.

(** ** Reachable states *)

(** The calls that reach the coprocessor: those of the harts (direct
    instructions, memory accesses, the step after each block, the bookkeeping
    of kernels), of the mailbox coroutine and of the simulator that owns it,
    with any arguments and in any order. *)
Inductive tensix_call (t : tensix) : tensix -> Prop :=
  | call_push c insn : tensix_call t (tensix_push t insn c).1
  | call_step c : tensix_call t (tensix_step t c).1
  | call_step_all : tensix_call t (tensix_step_all t)
  | call_set_direct c insn : tensix_call t (tensix_set_direct t insn c)
  | call_step_direct fuel c t' ok :
      tensix_step_direct fuel t c = Some (t', ok) -> tensix_call t t'
  | call_mop_cfg c off v : tensix_call t (tensix_write_mop_cfg t c off v)
  | call_read c a : tensix_call t (tensix_mmio_read t c a).1
  | call_write c a v : tensix_call t (tensix_mmio_write t c a v).1
  | call_mailbox c : tensix_call t (set_t_mailbox t (mailbox_process t.(t_mailbox) c).1)
  | call_clear : tensix_call t (tensix_clear t)
  | call_reset : tensix_call t (tensix_reset t)
  | call_halt : tensix_call t (tensix_cop_halt t)
  | call_resume : tensix_call t (tensix_cop_resume t)
  | call_execute c insn : tensix_call t (tensix_cop_execute t c insn)
  | call_run c n : tensix_call t (tensix_cop_run_until_wait t c n).1
  | call_memory h : tensix_call t (lend h t)
  | call_kernel v b :
      tensix_call t (set_had_trisc_in_kernel (set_cores_in_kernel t v) b).

Lemma run_until_wait_wf c : forall n t k, tensix_wf t -> tensix_wf (run_until_wait n t c k).1.
Proof.
  induction n as [|n IH]; intros t k Ht; cbn [run_until_wait]; [done|].
  step_wf; [by apply IH | done].
Qed.

Lemma call_wf t t' : tensix_call t t' -> tensix_wf t -> tensix_wf t'.
Proof.
  intros Hc Ht. destruct Hc as [c insn|c| |c insn|fuel c t' ok E|c off v|c a|c a v|c| | | | |c insn|c n|h|v b];
    try (destruct Ht as [Hu Hf]; by split).
  - unfold tensix_push. case_match; [done | by apply push_wf].
  - by apply step_wf.
  - unfold tensix_step_all, tensix_cop_step_all.
    pose proof (step_wf t 0 Ht) as H0. destruct (tensix_cop_step t 0) as [t0 a]. cbn [fst] in H0.
    pose proof (step_wf t0 1 H0) as H1. destruct (tensix_cop_step t0 1) as [t1 b]. cbn [fst] in H1.
    pose proof (step_wf t1 2 H1) as H2. destruct (tensix_cop_step t1 2) as [t2 d]. cbn [fst] in H2.
    destruct H2 as [Hu Hf]. by split.
  - unfold tensix_set_direct, tensix_cop_set_direct. repeat case_match; [done..|]. by thread_wf.
  - pose proof (step_direct_wf fuel t c Ht) as H. unfold tensix_step_direct in E. by rewrite E in H.
  - unfold tensix_write_mop_cfg. repeat case_match; try done. by thread_wf.
  - by apply mmio_read_wf.
  - by apply mmio_write_wf.
  - by apply clear_wf.
  - by apply reset_wf.
  - unfold tensix_cop_execute. pose proof (execute_wf t insn c Ht) as H.
    destruct (tensix_execute_insn t insn c) as [t1 ok]. by thread_wf.
  - by apply run_until_wait_wf.
  - apply on_units_wf; [|done]. intros u. by apply frame_wf.
Qed.

(** C5. In every state that the coprocessor can reach from [tensix_init] by
    any sequence of calls of its interface, with any arguments, the current
    bank of each side of SrcA and SrcB is 0 or 1, every semaphore and its
    maximum are at most 15, the top of the vector unit's flag stack is between
    -1 and 7, and every instruction FIFO holds at most 32 instructions with its
    tail [count] places after its head: the arrays indexed by them are not
    overrun. *)
Theorem tensix_reachable_wf l1 high ldm0 ldm1 ldm2 noc t :
  rtc tensix_call (tensix_init l1 high ldm0 ldm1 ldm2 noc) t -> tensix_wf t.
Proof.
  intros H. pose proof (init_wf l1 high ldm0 ldm1 ldm2 noc) as Hi.
  induction H as [|t t1 t2 Hc _ IH]; [done|]. apply IH. by apply (call_wf t).
Qed.

(** SEMPOST of semaphores 0 and 1 by thread 1, then CLEARDVALID with reset. *)
Lemma tensix_reachable_wf_witness :
  let t0 := tensix_init 0 0 0 0 0 0 in
  let t1 := tensix_cop_execute t0 1 0xA400000C in
  let t2 := tensix_cop_execute t1 1 0x36000001 in
  aget t2.(t_units).(u_sync).(sem) 1 = 1 /\ tensix_wf t2.
Proof.
  intros t0 t1 t2. split; [vm_compute; reflexivity|].
  apply (tensix_reachable_wf 0 0 0 0 0 0). apply (rtc_l _ _ t1); [exact (call_execute t0 1 _)|].
  apply (rtc_l _ _ t2); [exact (call_execute t1 1 _) | apply rtc_refl].
Defined.
