(* ===== verification/MatrixSpec.v ===== *)
(** * What the matrix unit computes

    Loops over arrays, cell by cell; the element-wise operations, the matrix
    product, the row moves and the transposition against their mathematical
    descriptions; the data formats of the packers. *)

From Stdlib Require Import ZArith Lia Bool.
From stdpp Require Import base list numbers gmap.
From S2P Require Import Prelude Float32 Memory Tensix TtInsn TtMatrix TtPack MopSpec.

(** ** Loops over rows and columns *)

Lemma dest_ix_inj r c r' c' :
  0 <= c < 16 -> 0 <= c' < 16 -> dest_ix r c = dest_ix r' c' -> r = r' /\ c = c'.
Proof. unfold dest_ix. lia. Qed.
Lemma src_ix_inj b r c r' c' :
  0 <= c < 16 -> 0 <= c' < 16 -> src_ix b r c = src_ix b r' c' -> r = r' /\ c = c'.
Proof. unfold src_ix. lia. Qed.

(** A loop over the cells of one row of a register file with the index
    function [ix]; [v j d] is the new value of column [j]. *)
Definition columns (ix : Z -> Z -> Z) : Prop := forall r c r' c',
  0 <= c < 16 -> 0 <= c' < 16 -> ix r c = ix r' c' -> r = r' /\ c = c'.
Lemma dest_columns : columns dest_ix.
Proof. intros r c r' c'. apply dest_ix_inj. Qed.
Lemma src_columns b : columns (src_ix b).
Proof. intros r c r' c'. apply src_ix_inj. Qed.

Lemma row_cell ix (v : Z -> Z -> Z) r r' c d :
  columns ix -> 0 <= c < 16 ->
  aget (for_loop 0 ROW_SIZE (fun j d => aset d (ix r j) (v j (aget d (ix r j)))) d) (ix r' c) =
    if r =? r' then u32 (v c (aget d (ix r c))) else aget d (ix r' c).
Proof.
  intros Hix Hc. destruct (Z.eqb_spec r r') as [->|Hr].
  - rewrite (loop_one _ _ _ (fun d => aget d (ix r' c)) (fun x => u32 (v c x)) c).
    + by replace (_ && _) with true by (unfold ROW_SIZE; lia).
    + intros j a Hj Hd. apply aget_set_ne. intros E. by apply Hix in E as [_ E].
    + intros a _. apply aget_set.
  - apply (loop_none _ _ _ (fun d => aget d (ix r' c))).
    intros j a Hj. apply aget_set_ne. intros E. by apply Hix in E as [E _].
Qed.

(** A loop over [n] rows from [r0]; a row that [skip] excludes is left out. *)
Lemma rows_cell ix (skip : Z -> bool) (v : Z -> Z -> Z -> Z) r0 n r c d :
  columns ix -> 0 <= c < 16 ->
  aget (for_loop 0 n (fun i d =>
          if skip i then d
          else for_loop 0 ROW_SIZE (fun j d =>
                 aset d (ix (r0 + i) j) (v i j (aget d (ix (r0 + i) j)))) d) d) (ix r c) =
    if (r0 <=? r) && (r <? r0 + n) && negb (skip (r - r0))
    then u32 (v (r - r0) c (aget d (ix r c))) else aget d (ix r c).
Proof.
  intros Hix Hc.
  rewrite (loop_one _ _ _ (fun d => aget d (ix r c))
             (fun x => if skip (r - r0) then x else u32 (v (r - r0) c x)) (r - r0)).
  - replace (0 <=? r - r0) with (r0 <=? r) by lia.
    replace (r - r0 <? 0 + n) with (r <? r0 + n) by lia.
    by destruct (_ && _), (skip (r - r0)).
  - intros i a Hi Hd. destruct (skip i); [done|].
    rewrite (row_cell ix (v i)) by done. by replace (r0 + i =? r) with false by lia.
  - intros a Hi. destruct (skip (r - r0)); [done|].
    rewrite (row_cell ix (v (r - r0))) by done. replace (r0 + (r - r0)) with r by lia.
    by rewrite Z.eqb_refl.
Qed.

(** ** What follows the computation does not change Dest *)

Lemma dest_flip_banks c m : (flip_banks c m).(dest) = m.(dest).
Proof. unfold flip_banks, when. by repeat case_match. Qed.
Lemma matrix_addr_mod u i tid : (apply_addr_mod u i tid).(u_matrix) = u.(u_matrix).
Proof. unfold apply_addr_mod. by case_match. Qed.
Lemma dest_skip_zeroed m : (skip_zeroed_srcb m).(dest) = m.(dest).
Proof. unfold skip_zeroed_srcb. by case_match. Qed.
Lemma srca_skip_zeroed m :
  (skip_zeroed_srcb m).(srca) = m.(srca) /\ (skip_zeroed_srcb m).(srcb) = m.(srcb) /\
  (skip_zeroed_srcb m).(math_srca_bank) = m.(math_srca_bank).
Proof. unfold skip_zeroed_srcb. by case_match. Qed.

(** A cell of the bank that the matrix unit owns. *)
Definition SrcA (m : matrix) (r c : Z) : Z := aget m.(srca) (src_ix m.(math_srca_bank) r c).
Definition SrcB (m : matrix) (r c : Z) : Z := aget m.(srcb) (src_ix m.(math_srcb_bank) r c).
Definition Dest (m : matrix) (r c : Z) : Z := aget m.(dest) (dest_ix r c).

(** [x & mask] for a mask with low zeros, plus a small number. *)
Lemma land_38 x i : 0 <= i < 8 -> 0 <= (x &. 0x38) + i < 64.
Proof. intros Hi. pose proof (land_range x 0x38 ltac:(lia)). lia. Qed.

(** ** Element-wise operations *)

(** ELWMUL, ELWADD and ELWSUB, with both operands ready: the eight rows
    of Dest from the aligned row [d0] become [f] of the eight rows of SrcA, the
    eight rows of SrcB (or one row, or one column, when the operand
    broadcasts) and the old contents; every other cell of Dest keeps its value.
    No row of the block lies outside a register, so none is left out. *)
Theorem elw_exec f u imm tid r c :
  srca_ready u.(u_matrix) = true -> srcb_ready u.(u_matrix) = true -> 0 <= c < 16 ->
  let m := u.(u_matrix) in
  let one_row := nz (field (field imm 19 3) 1 1) in
  let one_col := nz (field imm 19 3 &. 1) in
  let sa := aget u.(u_rwc).(srca_rwc) tid &. 0x38 in
  let sb := aget u.(u_rwc).(srcb_rwc) tid &. (if one_row then 0x3F else 0x38) in
  let d0 := dest_row u tid (imm &. 0x3FFF) &. 0x3F8 in
  let fid := aget u.(u_rwc).(fidelity) tid &. 3 in
  let '(u', ok) := elw_insn f u imm tid in
  ok = true /\
  Dest u'.(u_matrix) r c =
    if (d0 <=? r) && (r <? d0 + 8)
    then u32 (f (field imm 21 1) fid (SrcA m (sa + (r - d0)) c)
                (SrcB m (sb + (if one_row then 0 else r - d0)) (if one_col then 0 else c))
                (Dest m r c))
    else Dest m r c.
Proof.
  intros Ha Hb Hc m one_row one_col sa sb d0 fid. unfold elw_insn.
  rewrite Ha, Hb. cbn [negb]. cbv zeta. fold one_row one_col sa sb d0 fid m.
  split; [done|]. rewrite matrix_addr_mod. unfold Dest. cbn [on_matrix u_matrix set_u_matrix].
  rewrite dest_flip_banks. unfold elw_compute. cbn [dest set_dest]. fold m.
  rewrite (rows_cell dest_ix _ (fun i j x => f (field imm 21 1) fid (SrcA m (sa + i) j)
    (SrcB m (sb + (if one_row then 0 else i)) (if one_col then 0 else j)) x) d0)
    by (apply dest_columns || done).
  destruct ((d0 <=? r) && (r <? d0 + 8)) eqn:E; [|done]. cbn [andb].
  replace (negb _) with true; [done|]. symmetry.
  pose proof (land_38 (aget u.(u_rwc).(srca_rwc) tid) (r - d0) ltac:(lia)) as H1.
  assert (H2 : 0 <= sb + (if one_row then 0 else r - d0) < 64).
  { unfold sb. destruct one_row; [|apply land_38; lia].
    pose proof (land_range (aget u.(u_rwc).(srcb_rwc) tid) 0x3F ltac:(lia)). lia. }
  pose proof (land_range (dest_row u tid (imm &. 0x3FFF)) 0x3F8 ltac:(lia)) as H3.
  fold sa in H1. fold d0 in H3. unfold SRCA_ROWS, SRCB_ROWS, DEST_ROWS. lia.
Qed.

(** Both banks of the matrix unit hold 1.0 and 2.0 in their first cells. *)
Definition u_demo : units :=
  on_matrix (fun m => set_srcb (set_srca m (aset m.(srca) 0 0x3F800000))
                        (aset m.(srcb) 0 0x40000000))
    (ttsetdvalid (tensix_init 0 0 0 0 0 0).(t_units) 3 0).1.

(** ELWADD: 1.0 + 2.0 = 3.0 *)
Lemma elw_exec_witness :
  srca_ready u_demo.(u_matrix) = true /\ srcb_ready u_demo.(u_matrix) = true /\
  Dest (ttelwadd u_demo 0 1).1.(u_matrix) 0 0 = 0x40400000.
Proof.
  split; [vm_compute; reflexivity|]. split; [vm_compute; reflexivity|].
  unfold ttelwadd. set (f := fun accum _ a b d : Z => _).
  pose proof (elw_exec f u_demo 0 1 0 0 ltac:(vm_compute; reflexivity)
                ltac:(vm_compute; reflexivity) ltac:(lia)) as H.
  cbv zeta in H. destruct (elw_insn f u_demo 0 1) as [u' ok].
  destruct H as [_ H]. cbn [fst]. rewrite H. vm_compute. reflexivity.
Defined.

(** ** Matrix product *)

(** The sum of products, from left to right, as the loop adds them. *)
Definition dot (l : list (Z * Z)) : Z :=
  fold_left (fun sum p => f32_add sum (f32_mul p.1 p.2)) l 0.

Definition low_bits (mask_bit16 : bool) (b : Z) : Z := if mask_bit16 then b &. 0xFFFEFFFF else b.

Lemma fold_left_same {A B} (f : A -> B -> A) l a :
  (forall b, b ∈ l -> f a b = a) -> fold_left f l a = a.
Proof.
  intros H. induction l as [|b l IH]; [done|]. cbn. rewrite H by left.
  apply IH. intros b' Hb. apply H. by right.
Qed.
Lemma fold_left_fmap {A B C} (g : C -> B) (f : A -> B -> A) l a :
  fold_left f (g <$> l) a = fold_left (fun a c => f a (g c)) l a.
Proof. revert a. induction l as [|c l IH]; intros a; [done|]. apply IH. Qed.
Lemma fold_left_agree {A B} (f g : A -> B -> A) l a :
  (forall a b, b ∈ l -> f a b = g a b) -> fold_left f l a = fold_left g l a.
Proof.
  revert a. induction l as [|b l IH]; intros a H; [done|]. cbn. rewrite H by left.
  apply IH. intros a' b' Hb. apply H. by right.
Qed.

Lemma dot_row_spec m sa sb j mask :
  0 <= sa <= 63 ->
  dot_row m sa sb j mask =
    dot ((fun k => (low_bits mask (SrcB m sb k), SrcA m (sa + k) j)) <$> seqZ 0 (Z.min 16 (64 - sa))).
Proof.
  intros Hsa. unfold dot_row, dot, for_loop.
  replace ROW_SIZE with (Z.min 16 (64 - sa) + (16 - Z.min 16 (64 - sa))) by (unfold ROW_SIZE; lia).
  rewrite seqZ_app, fold_left_app by lia. rewrite fold_left_fmap.
  rewrite fold_left_same.
  - apply fold_left_agree. intros sum k Hk%elem_of_seqZ. unfold SRCA_ROWS.
    by replace (64 <=? sa + k) with false by lia.
  - intros k Hk%elem_of_seqZ. unfold SRCA_ROWS. by replace (64 <=? sa + k) with true by lia.
Qed.

(** C15. MVMUL in the first fidelity phase, with both operands ready: the
    eight (broadcasting: seven) rows of Dest from [d0] gain the product of the
    rows of SrcB from [sb] with the 16x16 block of SrcA from row [sa]; each
    cell is the old value plus the sum of products from left to right, in
    single precision.  Rows of SrcA past its end do not take part.  Every other
    cell of Dest keeps its value; in the later phases all of them do. *)
Theorem mvmul_exec cfg1 u imm tid r c :
  srca_ready u.(u_matrix) = true -> srcb_ready u.(u_matrix) = true -> 0 <= c < 16 ->
  let m := skip_zeroed_srcb u.(u_matrix) in
  let bcast := nz (field imm 19 7 &. 1) in
  let n := if bcast then 7 else 8 in
  let sa := aget u.(u_rwc).(srca_rwc) tid &. 0x38 in
  let sb := aget u.(u_rwc).(srcb_rwc) tid &. (if bcast then 0x3F else 0x38) in
  let d0 := dest_row u tid (imm &. 0x3FFF) &. (0x400 - n) in
  let low := (cfg1 &. 127) <=? 2 in
  let '(u', ok) := ttmvmul cfg1 u imm tid in
  ok = true /\
  Dest u'.(u_matrix) r c =
    if (aget u.(u_rwc).(fidelity) tid =? 0) && (d0 <=? r) && (r <? d0 + n)
    then u32 (f32_add (Dest m r c)
           (dot ((fun k => (low_bits low (SrcB m (sb + (if bcast then 0 else r - d0)) k),
                            SrcA m (sa + k) c)) <$> seqZ 0 (Z.min 16 (64 - sa)))))
    else Dest m r c.
Proof.
  intros Ha Hb Hc m bcast n sa sb d0 low. unfold ttmvmul.
  rewrite Ha, Hb. cbn [negb]. cbv zeta. change (u_rwc (on_matrix _ u)) with u.(u_rwc).
  change (dest_row (on_matrix skip_zeroed_srcb u)) with (dest_row u).
  fold bcast. fold n. fold sa sb d0 low.
  split; [done|]. rewrite matrix_addr_mod. unfold Dest. cbn [on_matrix u_matrix set_u_matrix].
  rewrite dest_flip_banks. unfold nz at 1.
  destruct (Z.eqb_spec (aget u.(u_rwc).(fidelity) tid) 0) as [E0|E0]; cbn [negb andb]; [|done].
  cbn [on_matrix u_matrix set_u_matrix]. fold m. unfold mvmul_compute. cbn [dest set_dest].
  rewrite (rows_cell dest_ix _ (fun i j x => f32_add x (dot_row m sa
    (sb + (if bcast then 0 else i)) j low)) d0) by (apply dest_columns || done).
  destruct ((d0 <=? r) && (r <? d0 + n)) eqn:E; [|done]. cbn [andb].
  pose proof (land_range (aget u.(u_rwc).(srca_rwc) tid) 0x38 ltac:(lia)) as H1. fold sa in H1.
  rewrite dot_row_spec by lia. replace (negb _) with true; [done|]. symmetry.
  assert (H2 : 0 <= sb + (if bcast then 0 else r - d0) < 64).
  { unfold sb, n in *. destruct bcast; [|apply land_38; lia].
    pose proof (land_range (aget u.(u_rwc).(srcb_rwc) tid) 0x3F ltac:(lia)). lia. }
  assert (H3 : 0 <= d0 <= 0x400 - n) by (apply land_range; unfold n; destruct bcast; lia).
  unfold SRCB_ROWS, DEST_ROWS. lia.
Qed.

(** 2.0 x 1.0 *)
Lemma mvmul_exec_witness :
  srca_ready u_demo.(u_matrix) = true /\ srcb_ready u_demo.(u_matrix) = true /\
  Dest (ttmvmul 0 u_demo 0 1).1.(u_matrix) 0 0 = 0x40000000.
Proof.
  split; [vm_compute; reflexivity|]. split; [vm_compute; reflexivity|].
  pose proof (mvmul_exec 0 u_demo 0 1 0 0 ltac:(vm_compute; reflexivity)
                ltac:(vm_compute; reflexivity) ltac:(lia)) as H.
  cbv zeta in H. destruct (ttmvmul 0 u_demo 0 1) as [u' ok].
  destruct H as [_ H]. cbn [fst]. rewrite H. vm_compute. reflexivity.
Defined.

(** ** Transposition *)

Section transpose.
Context (ix : Z -> Z -> Z) (Hix : columns ix).
Notation swap_cells i j a :=
  (aset (aset a (ix (16 + i) j) (aget a (ix (16 + j) i))) (ix (16 + j) i) (aget a (ix (16 + i) j))).
Notation transposed a :=
  (for_loop 0 16 (fun i a => for_loop 0 i (fun j a => swap_cells i j a) a) a).

(** A swap does not touch cells other than its two. *)
Lemma swap_other i j a r c :
  0 <= j < i -> i < 16 -> 0 <= c < 16 -> (r, c) <> (16 + i, j) -> (r, c) <> (16 + j, i) ->
  aget (swap_cells i j a) (ix r c) = aget a (ix r c).
Proof.
  intros Hj Hi Hc H1 H2. rewrite !aget_set_ne; try done; intros E; apply Hix in E as [? ?];
    try lia; subst; congruence.
Qed.
Lemma swap_pair i j a :
  0 <= j < i -> i < 16 ->
  aget (swap_cells i j a) (ix (16 + i) j) = aget a (ix (16 + j) i) /\
  aget (swap_cells i j a) (ix (16 + j) i) = aget a (ix (16 + i) j).
Proof.
  intros Hj Hi. split.
  - rewrite aget_set_ne, aget_set by (intros E; apply Hix in E; lia).
    apply u32_word, aget_word.
  - rewrite aget_set. apply u32_word, aget_word.
Qed.

Lemma transposed_pair a i0 j0 :
  0 <= j0 < i0 -> i0 < 16 ->
  (aget (transposed a) (ix (16 + i0) j0), aget (transposed a) (ix (16 + j0) i0)) =
  (aget a (ix (16 + j0) i0), aget a (ix (16 + i0) j0)).
Proof.
  intros Hj Hi.
  set (proj := fun a => (aget a (ix (16 + i0) j0), aget a (ix (16 + j0) i0))).
  assert (Hother : forall i j b, 0 <= j < i -> i < 16 -> (i, j) <> (i0, j0) ->
            proj (swap_cells i j b) = proj b).
  { intros i j b H1 H2 H3. unfold proj. f_equal; apply swap_other; try lia; intros [= E1 E2];
      apply H3; f_equal; lia. }
  change (proj (transposed a) = (fun p => (p.2, p.1)) (proj a)).
  rewrite (loop_one _ _ _ proj (fun p => (p.2, p.1)) i0).
  - by replace (_ && _) with true by lia.
  - intros i b Hi' Hne. apply loop_none. intros j b' Hj'. apply Hother; [lia..|congruence].
  - intros b _. rewrite (loop_one _ _ _ proj (fun p => (p.2, p.1)) j0).
    + by replace (_ && _) with true by lia.
    + intros j b' Hj' Hne. apply Hother; [lia..|congruence].
    + intros b' _. unfold proj. destruct (swap_pair i0 j0 b' Hj Hi) as [-> ->]. done.
Qed.

Lemma transposed_cell a r c :
  0 <= c < 16 ->
  aget (transposed a) (ix r c) =
    if (16 <=? r) && (r <? 32) then aget a (ix (16 + c) (r - 16)) else aget a (ix r c).
Proof.
  intros Hc. destruct (Z.eq_dec (r - 16) c) as [Hd|Hd].
  { transitivity (aget a (ix r c)).
    - apply (loop_none _ _ _ (fun a => aget a (ix r c))). intros i b Hi.
      apply (loop_none _ _ _ (fun a => aget a (ix r c))). intros j b' Hj.
      apply swap_other; try lia; intros [= ? ?]; lia.
    - replace (16 + c) with r by lia. replace (r - 16) with c by lia. by case_match. }
  destruct ((16 <=? r) && (r <? 32)) eqn:E.
  - destruct (Z_lt_le_dec c (r - 16)).
    + pose proof (transposed_pair a (r - 16) c ltac:(lia) ltac:(lia)) as H.
      replace (16 + (r - 16)) with r in H by lia. congruence.
    + pose proof (transposed_pair a c (r - 16) ltac:(lia) ltac:(lia)) as H.
      replace (16 + (r - 16)) with r in H by lia. congruence.
  - apply (loop_none _ _ _ (fun a => aget a (ix r c))). intros i b Hi.
    apply (loop_none _ _ _ (fun a => aget a (ix r c))). intros j b' Hj.
    apply swap_other; try lia; intros [= ? ?]; lia.
Qed.
End transpose.

(** TRNSPSRCB replaces rows 16 to 31 of the matrix unit's bank of SrcB by
    their transpose, and changes no other cell of SrcB. *)
Theorem trnspsrcb_exec u imm tid r c :
  0 <= c < 16 ->
  let m := u.(u_matrix) in
  let '(u', ok) := tttrnspsrcb u imm tid in
  ok = true /\
  SrcB u'.(u_matrix) r c =
    if (16 <=? r) && (r <? 32) then SrcB m (16 + c) (r - 16) else SrcB m r c.
Proof.
  intros Hc m. unfold tttrnspsrcb. cbv zeta. split; [done|]. unfold SrcB.
  cbn [on_matrix u_matrix set_u_matrix srcb set_srcb math_srcb_bank]. fold m.
  apply (transposed_cell (src_ix m.(math_srcb_bank)) (src_columns _)). done.
Qed.

Lemma trnspsrcb_exec_witness :
  let u := on_matrix (fun m => set_srcb m (aset m.(srcb) (src_ix 0 16 3) 7)) u_demo in
  SrcB (tttrnspsrcb u 0 1).1.(u_matrix) 19 0 = 7.
Proof.
  intros u. pose proof (trnspsrcb_exec u 0 1 19 0 ltac:(lia)) as H.
  destruct (tttrnspsrcb u 0 1) as [u' ok]. destruct H as [_ H]. cbn [fst]. rewrite H.
  vm_compute. reflexivity.
Defined.

(** ** Moves of rows *)

Lemma copy_rows_cell n d0 s0 drows srows dix six src dst r c :
  columns dix -> 0 <= c < 16 -> d0 + n <= drows -> s0 + n <= srows ->
  aget (copy_rows n d0 s0 drows srows dix six src dst) (dix r c) =
    if (d0 <=? r) && (r <? d0 + n) then aget src (six (s0 + (r - d0)) c) else aget dst (dix r c).
Proof.
  intros Hix Hc Hd Hs. unfold copy_rows.
  rewrite (rows_cell dix _ (fun i j _ => aget src (six (s0 + i) j)) d0) by done.
  destruct ((d0 <=? r) && (r <? d0 + n)) eqn:E; [|done]. cbn [andb].
  replace (negb _) with true by lia. apply u32_word, aget_word.
Qed.

(** The number of rows of a move, and a row number aligned to it. *)
Definition move_rows (many : bool) (n : Z) : Z := if many then n else 1.
Definition aligned_row (many : bool) (n size x : Z) : Z :=
  x &. (if many then size - n else size - 1).

Lemma aligned_row_range many n size x :
  0 < n <= size -> 0 <= aligned_row many n size x <= size - move_rows many n.
Proof.
  intros Hn. unfold aligned_row, move_rows.
  destruct many; [apply land_range; lia|]. pose proof (land_range x (size - 1) ltac:(lia)). lia.
Qed.

(** A register file after [n] rows from [s0] of another have replaced its rows
    from [d0]. *)
Definition moved (dst src dst' : Z -> Z -> Z) (d0 s0 n : Z) : Prop := forall r c, 0 <= c < 16 ->
  dst' r c = if (d0 <=? r) && (r <? d0 + n) then src (s0 + (r - d0)) c else dst r c.

