(* ===== verification/FormatSpec.v ===== *)
(** * The data formats of the packers and unpackers

    Every format that an unpacker turns into single precision and a packer
    back.  The formats with at most 16 bits are checked on all their codes. *)

From Stdlib Require Import ZArith Lia Bool.
From stdpp Require Import base list numbers.
From S2P Require Import Prelude Float32 TtInsn TtPack.

(** What a datum becomes on the way through the register files: half-precision
    denormals lose their mantissa, and the sign-magnitude byte has no negative
    zero. *)
Definition normal_datum (fmt b : Z) : Z :=
  if (fmt =? 1) && (field b 10 0x1F =? 0) then b &. 0x8000
  else if (fmt =? 14) && (b =? 0x80) then 0 else b.

Definition round_trip (fmt b : Z) : bool :=
  float_to_datum (datum_to_float b fmt) fmt =? normal_datum fmt b.

Lemma round_trip_half : all16 (round_trip 1) = true.
Proof. vm_compute. reflexivity. Qed.
Lemma round_trip_byte : forallb (round_trip 14) (seqZ 0 256) = true.
Proof. vm_compute. reflexivity. Qed.

Lemma int_datum z : Z.abs z < 2 ^ 24 -> f32_to_i32 (f32_of_Z z) = z.
Proof. apply f32_to_i32_of_Z. Qed.



(** ** Block floating point *)

Lemma field_bits x lo n mask : 0 <= lo -> 0 <= n -> mask = 2 ^ n - 1 -> field x lo mask = bits lo n x.
Proof.
  intros Hlo Hn ->. unfold field, bits. rewrite Z.sub_1_r, <- Z.ones_equiv, Z.land_ones by lia.
  by rewrite Z.shiftr_div_pow2 by lia.
Qed.

(** The byte of a value that has the exponent of its group: sign, the hidden
    bit and six bits of mantissa. *)
Lemma bfp8_mantissa_aligned b :
  0 < bits 23 8 b ->
  bfp8_mantissa b (bits 23 8 b) = bits 31 1 b * 128 + 64 + bits 17 6 b.
Proof.
  intros He. unfold bfp8_mantissa. cbv zeta.
  rewrite !(field_bits b 23 8), (field_bits b 31 1), (land_mask b 0 23) by done.
  replace (bits 23 8 b =? 0) with false by lia. rewrite Z.ltb_irrefl, Z.shiftr_0_r.
  pose proof (bits_range 0 23 b ltac:(lia)) as Hm.
  rewrite (lor_add 0x800000 _ 23), Z.shiftr_div_pow2 by (done || lia).
  assert (E : (0x800000 + bits 0 23 b * 2 ^ 0) / 2 ^ 17 = 64 + bits 17 6 b)
    by (unfold bits; norm_pow; div_lia).
  rewrite E. pose proof (bits_range 17 6 b ltac:(lia)). pose proof (bits_range 31 1 b ltac:(lia)).
  replace (127 <? 64 + bits 17 6 b) with false by lia.
  replace (64 + bits 17 6 b =? 0) with false by lia.
  rewrite Z.shiftl_mul_pow2 by lia. change (2 ^ 7) with 128.
  rewrite (lor_add _ _ 7) by (norm_pow; div_lia). unfold u8. rewrite Z.mod_small; lia.
Qed.

(** Bfp8 is not read back as it was written.  In a group of values whose
    largest exponent is that of 1.0, the packer writes 0.5 as mantissa [0x20]
    (the hidden bit is shifted into the byte), but the unpacker drops the
    hidden bit without normalising: it yields 1.5.  A value with the exponent
    of its group keeps its sign, its exponent and six bits of its mantissa. *)
Theorem bfp8_unaligned :
  bfp8_float 127 (bfp8_mantissa 0x3F000000 127) = 0x3FC00000 /\
  forall b, word b -> 0 < field b 23 0xFF ->
    bfp8_float (field b 23 0xFF) (bfp8_mantissa b (field b 23 0xFF)) = b &. 0xFFFE0000.
Proof.
  split; [vm_compute; reflexivity|]. intros b Hb He. rewrite (field_bits b 23 8) in * by done.
  rewrite bfp8_mantissa_aligned by done. unfold bfp8_float. cbv zeta.
  pose proof (bits_range 17 6 b ltac:(lia)). pose proof (bits_range 31 1 b ltac:(lia)).
  pose proof (bits_range 23 8 b ltac:(lia)).
  set (x := bits 31 1 b * 128 + 64 + bits 17 6 b).
  assert (E1 : x >>. 7 = bits 31 1 b) by (rewrite Z.shiftr_div_pow2 by lia; unfold x; norm_pow; div_lia).
  assert (E2 : x &. 0x7F = 64 + bits 17 6 b).
  { rewrite (land_mask x 0 7) by done. unfold bits at 1. unfold x. norm_pow. div_lia. }
  rewrite E1, E2. unfold nz. replace (64 + bits 17 6 b =? 0) with false by lia.
  replace (bits 23 8 b =? 0) with false by lia. cbn [negb andb].
  assert (E3 : ((64 + bits 17 6 b) <<. 17) &. 0x7FFFFF = bits 17 6 b * 2 ^ 17).
  { rewrite Z.shiftl_mul_pow2, (land_mask _ 0 23) by done. unfold bits at 1. norm_pow. div_lia. }
  rewrite E3, !Z.shiftl_mul_pow2, (land_mask b 17 15) by done.
  rewrite (lor_add _ (bits 23 8 b * _) 31), (lor_add _ _ 23) by (norm_pow; div_lia).
  unfold bits, word in *. norm_pow. div_lia.
Qed.

(** 1.5 in its own group. *)
Lemma bfp8_unaligned_witness : bfp8_float 127 (bfp8_mantissa 0x3FC00000 127) = 0x3FC00000.
Proof. apply (proj2 bfp8_unaligned 0x3FC00000); [split; [lia | reflexivity] | reflexivity]. Defined.
