(* ===== verification/SfpuSpec.v ===== *)
(** * The vector unit is a SIMD unit

    The source runs a vector instruction as a loop over the 32 lanes, each
    iteration changing the state that the next one reads.  This file shows
    that the loop computes what the lanes would compute in parallel: an
    enabled lane ends with the instruction applied to its own initial
    contents, a disabled lane ends as it was. *)

From Stdlib Require Import ZArith Lia Bool.
From stdpp Require Import base list numbers gmap.
From S2P Require Import Prelude Float32 Memory Tensix TtInsn TtMatrix TtSfpu.

(** What lane [l] sees of the vector unit: its column of the registers, its
    flags and its random number generator; and the flag stack. *)
Record lane_eq (l : Z) (s s' : sfpu) : Prop := {
  le_reg : forall r, lr s r l = lr s' r l;
  le_flag : bget s.(lane_flags) l = bget s'.(lane_flags) l;
  le_use : bget s.(use_lane_flags) l = bget s'.(use_lane_flags) l;
  le_prng : aget s.(prng_state) l = aget s'.(prng_state) l;
  le_top : s.(flag_stack_top) = s'.(flag_stack_top)
}.

#[global] Instance lane_eq_equiv l : Equivalence (lane_eq l).
Proof.
  split; [by split | |].
  - intros s s' [H1 H2 H3 H4 H5]. split; congruence.
  - intros s1 s2 s3 [H1 H2 H3 H4 H5] [K1 K2 K3 K4 K5]. split; congruence.
Qed.

Lemma lane_enabled_eq l s s' : lane_eq l s s' -> lane_enabled s l = lane_enabled s' l.
Proof. intros [_ Hf Hu _ _]. unfold lane_enabled. by rewrite Hf, Hu. Qed.

(** A body of a lane loop: it changes no other lane, and what it does to its
    own depends on this lane alone. *)
Class LaneLocal (f : Z -> sfpu -> sfpu) : Prop := {
  ll_other : forall l l' s, 0 <= l < 32 -> 0 <= l' < 32 -> l <> l' -> lane_eq l' (f l s) s;
  ll_own : forall l s s', 0 <= l < 32 -> lane_eq l s s' -> lane_eq l (f l s) (f l s')
}.

(** The state in which the lanes have worked in parallel, as lane [l] sees it. *)
Lemma lanes_parallel f s l :
  LaneLocal f -> 0 <= l < 32 ->
  lane_eq l (for_lanes f s) (if lane_enabled s l then f l s else s).
Proof.
  intros [Hother Hown] Hl.
  set (g := fun lane s => if lane_enabled s lane then f lane s else s).
  change (for_lanes f s) with (for_loop 0 32 g s).
  pose proof (for_loop_inv (fun m a => lane_eq l a (if l <? m then g l s else s)) 0 32 g s) as H.
  cbv beta in H. replace (l <? 0 + 32) with true in H by lia. apply H; clear H.
  - lia.
  - by replace (l <? 0) with false by lia.
  - intros i a Hi Ha. destruct (Z.eq_dec i l) as [->|Hne].
    + replace (l <? l + 1) with true by lia. replace (l <? l) with false in Ha by lia.
      unfold g. rewrite (lane_enabled_eq l a s Ha). destruct (lane_enabled s l); [by apply Hown | done].
    + replace (l <? i + 1) with (l <? i) by lia. unfold g at 1. etransitivity; [|exact Ha].
      destruct (lane_enabled a i); [apply Hother; lia | done].
Qed.

(** ** The writes of a lane *)

Lemma lreg_ix_inj r l r' l' :
  0 <= l < 32 -> 0 <= l' < 32 -> lreg_ix r l = lreg_ix r' l' -> r = r' /\ l = l'.
Proof. unfold lreg_ix. lia. Qed.

Lemma set_lr_other l l' s r v :
  0 <= l < 32 -> 0 <= l' < 32 -> l <> l' -> lane_eq l' (set_lr s r l v) s.
Proof.
  intros Hl Hl' Hne. split; try done. intros r'. unfold lr, set_lr. cbn.
  apply aget_set_ne. intros E. by apply lreg_ix_inj in E as [_ E].
Qed.
Lemma set_lr_own l s s' r v :
  0 <= l < 32 -> lane_eq l s s' -> lane_eq l (set_lr s r l v) (set_lr s' r l v).
Proof.
  intros Hl [Hr Hf Hu Hp Ht]. split; try done. intros r'. specialize (Hr r').
  unfold lr, set_lr in *. cbn. by arr_case; [rewrite aget_set | rewrite aget_set_ne].
Qed.
Lemma set_flag_other l l' s b : l <> l' -> lane_eq l' (set_flag s l b) s.
Proof. intros Hne. split; try done. cbn. by apply bget_set_ne. Qed.
Lemma set_flag_own l s s' b : lane_eq l s s' -> lane_eq l (set_flag s l b) (set_flag s' l b).
Proof. intros [Hr Hf Hu Hp Ht]. split; try done. cbn. by rewrite !bget_set. Qed.
Lemma invert_flag_own l s s' :
  lane_eq l s s' ->
  lane_eq l (set_flag s l (negb (bget s.(lane_flags) l)))
    (set_flag s' l (negb (bget s'.(lane_flags) l))).
Proof. intros H. rewrite (le_flag _ _ _ H). by apply set_flag_own. Qed.
Lemma prng_other l l' s : l <> l' -> lane_eq l' (advance_prng s l).1 s.
Proof. intros Hne. split; try done. cbn. by apply aget_set_ne. Qed.
Lemma prng_own l s s' :
  lane_eq l s s' ->
  lane_eq l (advance_prng s l).1 (advance_prng s' l).1 /\ (advance_prng s l).2 = (advance_prng s' l).2.
Proof.
  intros [Hr Hf Hu Hp Ht]. split; [|done]. split; try done. cbn. by rewrite !aget_set, Hp.
Qed.

(** The bodies are made of these writes. *)
Ltac lane_other :=
  lazymatch goal with
  | |- lane_eq _ (if ?b then _ else _) _ => destruct b; lane_other
  | |- lane_eq _ (put_lr _ _ _ _) _ => unfold put_lr; lane_other
  | |- lane_eq _ (set_lr ?a _ _ _) ?s => transitivity a; [by apply set_lr_other | lane_other]
  | |- lane_eq _ (set_flag ?a _ _) ?s => transitivity a; [by apply set_flag_other | lane_other]
  | |- lane_eq _ ?s ?s => reflexivity
  | |- lane_eq _ (let '(_, _) := _ in _) _ => case_match; lane_other
  end.
Ltac lane_reads H :=
  repeat first [rewrite (le_reg _ _ _ H) | rewrite (le_flag _ _ _ H) | rewrite (le_use _ _ _ H)].
Ltac lane_own H :=
  lazymatch goal with
  | |- lane_eq _ (if ?b then _ else _) (if ?b then _ else _) => destruct b; lane_own H
  | |- lane_eq ?l (set_lr ?a ?r ?l ?v) (set_lr ?b ?r ?l ?v) =>
      apply set_lr_own; [assumption | lane_own H]
  | |- lane_eq ?l (set_flag ?a ?l (negb (bget (lane_flags ?a) ?l))) _ =>
      apply invert_flag_own; lane_own H
  | |- lane_eq ?l (set_flag ?a ?l ?v) (set_flag ?b ?l ?v) => apply set_flag_own; lane_own H
  | |- lane_eq _ ?s ?s' => exact H
  end.
Ltac lane_local :=
  split; [intros l l' s ? ? ?; cbv zeta; lane_other
         | intros l s s' ? H; cbv zeta; unfold put_lr, indirect_vd; lane_reads H; lane_own H].

(** ** The instructions *)

(** A vector instruction that is predicated: for every lane, what it does is a
    function of this lane, nothing if the lane is disabled; it always
    completes and changes nothing outside the vector unit. *)
Definition simd (h : handler) : Prop := forall u imm tid l, 0 <= l < 32 ->
  let s := u.(u_sfpu) in
  (h u imm tid).2 = true /\ (h u imm tid).1 = set_u_sfpu u (h u imm tid).1.(u_sfpu) /\
  (lane_enabled s l = false -> lane_eq l (h u imm tid).1.(u_sfpu) s) /\
  (forall u', lane_eq l s u'.(u_sfpu) ->
     lane_eq l (h u imm tid).1.(u_sfpu) (h u' imm tid).1.(u_sfpu)).

Lemma sfp_simd (g : Z -> sfpu -> sfpu) :
  (forall imm, (forall s, g imm s = s) \/
     exists f, LaneLocal f /\ forall s, g imm s = for_lanes f s) ->
  simd (sfp g).
Proof.
  intros Hg u imm tid l Hl s. split; [done|]. split; [done|].
  change (sfp g u imm tid).1.(u_sfpu) with (g imm s).
  destruct (Hg imm) as [Hi|(f & Hf & Hi)].
  { split; [intros _; by rewrite Hi|]. intros u' Heq.
    change (sfp g u' imm tid).1.(u_sfpu) with (g imm u'.(u_sfpu)). by rewrite !Hi. }
  split.
  - intros He. pose proof (lanes_parallel f s l Hf Hl) as H. rewrite He in H. by rewrite Hi.
  - intros u' Heq. change (sfp g u' imm tid).1.(u_sfpu) with (g imm u'.(u_sfpu)). rewrite !Hi.
    etransitivity; [by apply lanes_parallel|].
    etransitivity; [|symmetry; by apply lanes_parallel].
    rewrite <- (lane_enabled_eq l s _ Heq). destruct (lane_enabled s l); [|done]. by apply Hf.
Qed.

Lemma sfp_guard_simd (c : Z -> bool) (f : Z -> Z -> sfpu -> sfpu) :
  (forall imm, LaneLocal (f imm)) ->
  simd (sfp (fun imm s => if c imm then s else for_lanes (f imm) s)).
Proof.
  intros Hf. apply sfp_simd. intros imm. destruct (c imm); [by left|]. right. by exists (f imm).
Qed.
Lemma sfp_write_simd f : (forall imm, LaneLocal (f imm)) -> simd (sfp_write f).
Proof.
  intros Hf. apply sfp_simd. intros imm. destruct (writable _); [|by left]. right. by exists (f imm).
Qed.

Definition predicated : list handler :=
  [sfploadi; sfpmuli; sfpaddi; sfpmad; sfpadd; sfpmul; sfpexexp; sfpexman; sfpsetexp; sfpsetsgn;
   sfpiadd; sfpshft; sfpabs; sfpand; sfpor; sfpxor; sfpnot; sfpstochrnd; sfpcast; sfpswap;
   sfplutfp32; sfparecip].

Lemma imm_op_simd op : simd (sfp_imm_op op).
Proof. apply sfp_simd. intros imm. right. eexists. split; [|intros s; reflexivity]. lane_local. Qed.
Lemma mad_simd : simd sfp_mad_common.
Proof. apply sfp_guard_simd. intros imm. lane_local. Qed.
Lemma bitop_simd op : simd (sfp_bitop op).
Proof. apply sfp_write_simd. intros imm. lane_local. Qed.
Lemma loadi_simd : simd sfploadi.
Proof. apply (sfp_guard_simd (fun imm => 8 <=? field imm 20 0xF)). intros imm. lane_local. Qed.
Lemma exexp_simd : simd sfpexexp.
Proof. apply sfp_write_simd. intros imm. lane_local. Qed.

Lemma stochrnd_simd : simd sfpstochrnd.
Proof.
  apply (sfp_guard_simd (fun imm => 12 <=? sfp_vd imm)). intros imm. split.
  - intros l l' s Hl Hl' Hne. etransitivity; [|by apply (prng_other l)].
    cbn [advance_prng fst]. lane_other.
  - intros l s s' Hl H. destruct (prng_own l s s' H) as [Ho Hv].
    destruct (advance_prng s l) as [s1 x], (advance_prng s' l) as [s1' x']. cbn [fst snd] in *.
    subst x'. unfold put_lr. lane_reads H. rewrite (le_reg _ _ _ Ho). lane_own Ho.
Qed.
Lemma lut_coefficients_eq s s' mod1 l b :
  lane_eq l s s' -> lut_coefficients s mod1 l b = lut_coefficients s' mod1 l b.
Proof. intros H. unfold lut_coefficients. cbv zeta. by lane_reads H. Qed.
Lemma lut_simd : simd sfplutfp32.
Proof.
  apply (sfp_guard_simd (fun imm => 12 <=? sfp_vd imm)). intros imm. split.
  - intros l l' s Hl Hl' Hne. cbv zeta. lane_other.
  - intros l s s' Hl H. cbv zeta. rewrite (lut_coefficients_eq s s' _ _ _ H).
    unfold put_lr, indirect_vd. lane_reads H. destruct (lut_coefficients _ _ _ _). lane_own H.
Qed.

Ltac simd_entry :=
  lazymatch goal with
  | |- simd sfploadi => exact loadi_simd
  | |- simd sfpstochrnd => exact stochrnd_simd
  | |- simd sfplutfp32 => exact lut_simd
  | |- simd sfp_mad_common => exact mad_simd
  | |- simd (sfp_imm_op _) => apply imm_op_simd
  | |- simd (sfp_bitop _) => apply bitop_simd
  | |- simd (sfp_write _) => apply sfp_write_simd; intros imm; lane_local
  | |- simd ?h => unfold h; simd_entry
  end.

(** C14. The predicated vector instructions are SIMD: the loop over the lanes
    leaves every lane as if the lanes had worked in parallel.  What becomes of
    a lane (its column of the registers, its flags, its random numbers) depends
    only on its own contents before the instruction, whatever the other lanes
    hold; a disabled lane is unchanged; nothing outside the vector unit
    changes, and the instruction never waits. *)
Theorem sfpu_simd h : h ∈ predicated -> simd h.
Proof.
  unfold predicated. intros Hh.
  repeat (apply elem_of_cons in Hh as [->|Hh]); [..|by apply elem_of_nil in Hh].
  all: simd_entry.
Qed.

(** Lane 3 is switched off; SFPLOADI of 1.0 into register 0. *)
Definition u_lanes : units :=
  on_sfpu (fun s => set_flag s 3 false) (tensix_init 0 0 0 0 0 0).(t_units).
Lemma sfpu_simd_witness :
  lane_enabled u_lanes.(u_sfpu) 3 = false /\
  lane_eq 3 (sfploadi u_lanes 0x3F80 0).1.(u_sfpu) u_lanes.(u_sfpu) /\
  lr (sfploadi u_lanes 0x3F80 0).1.(u_sfpu) 0 4 = 0x3F800000.
Proof.
  split; [vm_compute; reflexivity|]. split; [|vm_compute; reflexivity].
  assert (H : sfploadi ∈ predicated) by (left).
  destruct (sfpu_simd sfploadi H u_lanes 0x3F80 0 3 ltac:(lia)) as (_ & _ & Hd & _).
  apply Hd. vm_compute. reflexivity.
Defined.

(** ** The flag stack *)

Lemma stack_ix_inj d l l' : stack_ix d l = stack_ix d l' -> l = l'.
Proof. unfold stack_ix. lia. Qed.

(** SFPPUSHC and SFPPOPC in mode 0, with [VD < 12]. *)
Definition plain_stack_op (imm : Z) : Prop := sfp_mod1 imm = 0 /\ sfp_vd imm < 12.

Lemma push_cells u imm tid l :
  plain_stack_op imm -> -1 <= u.(u_sfpu).(flag_stack_top) < 7 -> 0 <= l < 32 ->
  let s := u.(u_sfpu) in
  let s' := (sfppushc u imm tid).1.(u_sfpu) in
  s'.(flag_stack_top) = s.(flag_stack_top) + 1 /\
  stack_flag s' l = bget s.(lane_flags) l /\ stack_use s' l = bget s.(use_lane_flags) l /\
  s'.(lane_flags) = s.(lane_flags) /\ s'.(use_lane_flags) = s.(use_lane_flags).
Proof.
  intros [Hm Hv] Ht Hl s s'.
  set (s1 := set_flag_stack_top s (s.(flag_stack_top) + 1)).
  assert (E : s' = for_all_lanes (fun lane a => if a.(flag_stack_top) <? 0 then a
    else set_stack a lane (bget a.(use_lane_flags) lane) (bget a.(lane_flags) lane)) s1).
  { unfold s'. cbn [sfppushc sfp fst on_sfpu u_sfpu set_u_sfpu]. fold s.
    rewrite Hm. cbn [Z.eqb andb]. replace (12 <=? sfp_vd imm) with false by lia.
    replace (sfp_vd imm <? 12) with true by lia.
    by replace (flag_stack_top s <? FLAG_STACK_DEPTH - 1) with true by (unfold FLAG_STACK_DEPTH, s; lia). }
  set (P m a := a.(flag_stack_top) = s.(flag_stack_top) + 1 /\
    a.(lane_flags) = s.(lane_flags) /\ a.(use_lane_flags) = s.(use_lane_flags) /\
    (l < m -> stack_flag a l = bget s.(lane_flags) l /\ stack_use a l = bget s.(use_lane_flags) l)).
  assert (HP : P (0 + 32) s').
  { rewrite E. apply (for_loop_inv P); [lia | split_and!; try done; lia |].
    intros i a Hi (P1 & P2 & P3 & P4). replace (flag_stack_top a <? 0) with false by (unfold s in *; lia).
    split_and!; try done. intros Hlt. unfold stack_flag, stack_use. cbn.
    destruct (Z.eq_dec i l) as [->|Hne].
    - by rewrite !bget_set, P2, P3.
    - rewrite !bget_set_ne by (intros e; by apply stack_ix_inj in e). apply P4. lia. }
  destruct HP as (P1 & P2 & P3 & P4). destruct (P4 ltac:(lia)). done.
Qed.

Lemma pop_cells u imm tid l :
  plain_stack_op imm -> 0 <= u.(u_sfpu).(flag_stack_top) -> 0 <= l < 32 ->
  let s := u.(u_sfpu) in
  let s' := (sfppopc u imm tid).1.(u_sfpu) in
  s'.(flag_stack_top) = s.(flag_stack_top) - 1 /\
  bget s'.(lane_flags) l = stack_flag s l /\ bget s'.(use_lane_flags) l = stack_use s l.
Proof.
  intros [Hm Hv] Ht Hl s s'.
  set (F := fun lane a => set_flag (set_use_flag a lane ((0 <=? a.(flag_stack_top)) && stack_use a lane))
    lane ((0 <=? a.(flag_stack_top)) && stack_flag a lane)).
  set (P m a := a.(flag_stack_top) = s.(flag_stack_top) /\
    a.(stack_lane_flags) = s.(stack_lane_flags) /\
    a.(stack_use_lane_flags) = s.(stack_use_lane_flags) /\
    (l < m -> bget a.(lane_flags) l = stack_flag s l /\ bget a.(use_lane_flags) l = stack_use s l)).
  assert (HP : P (0 + 32) (for_all_lanes F s)).
  { apply (for_loop_inv P); [lia | split_and!; try done; lia |].
    intros i a Hi (P1 & P2 & P3 & P4). split_and!; try done. intros Hlt. cbn.
    unfold stack_flag, stack_use in *. rewrite P1, P2, P3.
    replace (0 <=? flag_stack_top s) with true by (unfold s in *; lia). cbn [andb].
    destruct (Z.eq_dec i l) as [->|Hne]; [by rewrite !bget_set|].
    rewrite !bget_set_ne by done. apply P4. lia. }
  assert (E : s' = set_flag_stack_top (for_all_lanes F s) ((for_all_lanes F s).(flag_stack_top) - 1)).
  { destruct HP as (P1 & _). unfold s'. cbn [sfppopc sfp fst on_sfpu u_sfpu set_u_sfpu]. fold s.
    rewrite Hm. cbn [Z.eqb andb]. replace (12 <=? sfp_vd imm) with false by lia.
    change (for_all_lanes _ s) with (for_all_lanes F s). rewrite P1.
    by replace (0 <=? flag_stack_top s) with true by (unfold s; lia). }
  clearbody s'. revert HP E. generalize (for_all_lanes F s). intros a (P1 & P2 & P3 & P4) ->.
  destruct (P4 ltac:(lia)) as [H1 H2].
  cbn [flag_stack_top lane_flags use_lane_flags set_flag_stack_top]. by rewrite P1.
Qed.

(** SFPPUSHC followed by SFPPOPC (both in mode 0, with room on the stack)
    restores the flags of all lanes, whatever the instructions in between did
    to the flags and the registers, as long as they left the flag stack
    alone; the stack is as high as before. *)
Theorem flag_stack_round_trip u u2 imm imm' tid tid' l :
  plain_stack_op imm -> plain_stack_op imm' ->
  -1 <= u.(u_sfpu).(flag_stack_top) < 7 -> 0 <= l < 32 ->
  let s := u.(u_sfpu) in
  let s1 := (sfppushc u imm tid).1.(u_sfpu) in
  let s2 := u2.(u_sfpu) in
  s2.(flag_stack_top) = s1.(flag_stack_top) ->
  s2.(stack_lane_flags) = s1.(stack_lane_flags) ->
  s2.(stack_use_lane_flags) = s1.(stack_use_lane_flags) ->
  let s3 := (sfppopc u2 imm' tid').1.(u_sfpu) in
  s3.(flag_stack_top) = s.(flag_stack_top) /\
  bget s3.(lane_flags) l = bget s.(lane_flags) l /\
  bget s3.(use_lane_flags) l = bget s.(use_lane_flags) l.
Proof.
  intros Hp Hp' Ht Hl s s1 s2 E1 E2 E3 s3.
  destruct (push_cells u imm tid l Hp Ht Hl) as (T1 & F1 & U1 & _).
  assert (H0 : 0 <= u2.(u_sfpu).(flag_stack_top)) 
    by (fold s1 s in T1; fold s in Ht; fold s2; lia).
  destruct (pop_cells u2 imm' tid' l Hp' H0 Hl) as (T3 & F3 & U3).
  fold s s1 in T1, F1, U1. fold s2 s3 in T3, F3, U3. unfold stack_flag, stack_use in *.
  rewrite F3, U3, E1, E2, E3, F1, U1. split; [lia | done].
Qed.

(** Push, switch lane 3 on, pop. *)
Lemma set_flag_stack u l b :
  let u' := on_sfpu (fun s => set_flag s l b) u in
  u'.(u_sfpu).(flag_stack_top) = u.(u_sfpu).(flag_stack_top) /\
  u'.(u_sfpu).(stack_lane_flags) = u.(u_sfpu).(stack_lane_flags) /\
  u'.(u_sfpu).(stack_use_lane_flags) = u.(u_sfpu).(stack_use_lane_flags).
Proof. done. Qed.

Lemma flag_stack_round_trip_witness :
  let u1 := (sfppushc u_lanes 0 0).1 in
  let u2 := on_sfpu (fun s => set_flag s 3 true) u1 in
  bget u2.(u_sfpu).(lane_flags) 3 = true /\
  bget (sfppopc u2 0 0).1.(u_sfpu).(lane_flags) 3 = false.
Proof.
  intros u1 u2. split; [vm_compute; reflexivity|].
  destruct (set_flag_stack u1 3 true) as (E1 & E2 & E3).
  assert (H0 : plain_stack_op 0) by (split; reflexivity).
  assert (Ht : -1 <= u_lanes.(u_sfpu).(flag_stack_top) < 7)
    by (vm_compute; split; [congruence | reflexivity]).
  destruct (flag_stack_round_trip u_lanes u2 0 0 0 0 3 H0 H0 Ht ltac:(lia) E1 E2 E3) as (_ & H & _).
  rewrite H. vm_compute. reflexivity.
Defined.
