(* ===== verification/Map.v ===== *)
(** * The red-black tree map (src/rv32emu/src/map.c and map.h)

    Nodes live in a store, from addresses to [map_node_t]; a pointer is a
    [Z], with [NULL] as 0, and the colour of a node is the lowest bit of its
    field [right_red].  Functions are programs over the store in the monad
    [M]; [None] is undefined behaviour (a [NULL] or freed pointer, an index
    beyond the array [path]) or a failed assertion.

    The array [path] of a search is a list with the deepest entry first, so
    that the head of the list is [pathp[-1]].  The bytes of keys and values
    are elements of the types [K] and [V]; [malloc] is an argument. *)

From Stdlib Require Import ZArith Lia Bool.
From stdpp Require Import base list numbers gmap.
From S2P Require Import Prelude.

Inductive map_cmp_t : Type := MAP_CMP_LESS | MAP_CMP_EQUAL | MAP_CMP_GREATER.

(** [(map_cmp_t) ((a > b) - (a < b))] *)
Definition map_cmp_of (z : Z) : map_cmp_t :=
  if z <? 0 then MAP_CMP_LESS else if z =? 0 then MAP_CMP_EQUAL else MAP_CMP_GREATER.
Definition map_cmp_int (x y : Z) : map_cmp_t :=
  let a := s32 x in let b := s32 y in map_cmp_of (b2z (b <? a) - b2z (a <? b)).
Definition map_cmp_uint (x y : Z) : map_cmp_t :=
  let a := u32 x in let b := u32 y in map_cmp_of (b2z (b <? a) - b2z (a <? b)).

(** Sizes on the 64-bit host. *)
Definition sizeof_ptr : Z := 8.
Definition sizeof_map_node : Z := 32.
Definition SIZE_MAX : Z := 2 ^ 64 - 1.
Definition RB_MAX_DEPTH : nat := 128.

Definition RB_COLOR_MASK : Z := 1.
Definition RB_BLACK : bool := false.
Definition RB_RED : bool := true.

Section map.
Context {K V : Type} (kzero : K) (vzero : V).

Record map_node_t : Type := mk_map_node {
  node_key : K; node_data : V; node_left : Z; right_red : Z
}.
Local Notation store := (gmap Z map_node_t).

Record map_internal : Type := mk_map {
  root : Z; key_size : Z; data_size : Z; tree_size : Z;
  comparator : K -> K -> map_cmp_t
}.
Definition set_root (m : map_internal) (r : Z) : map_internal :=
  mk_map r m.(key_size) m.(data_size) m.(tree_size) m.(comparator).
Definition set_tree_size (m : map_internal) (n : Z) : map_internal :=
  mk_map m.(root) m.(key_size) m.(data_size) n m.(comparator).

(** ** Programs over the store *)

Definition M (A : Type) : Type := store -> option (A * store).
#[global] Instance M_ret : MRet M := fun A x h => Some (x, h).
#[global] Instance M_bind : MBind M := fun A B k e h =>
  match e h with Some (x, h) => k x h | None => None end.

Definition deref (n : Z) : M map_node_t := fun h =>
  match h !! n with Some nd => Some (nd, h) | None => None end.
Definition assign (n : Z) (nd : map_node_t) : M unit := fun h => Some (tt, <[n := nd]> h).
Definition free (n : Z) : M unit := fun h => Some (tt, delete n h).
Definition crash {A} : M A := fun h => None.
Definition assert (b : bool) : M unit := fun h => if b then Some (tt, h) else None.

(** ** Accessors *)

Definition with_left (nd : map_node_t) (l : Z) : map_node_t :=
  mk_map_node nd.(node_key) nd.(node_data) l nd.(right_red).
Definition with_right_red (nd : map_node_t) (r : Z) : map_node_t :=
  mk_map_node nd.(node_key) nd.(node_data) nd.(node_left) r.

Definition rb_node_get_left (node : Z) : M Z :=
  nd ← deref node; mret nd.(node_left).
Definition rb_node_set_left (node left : Z) : M unit :=
  nd ← deref node; assign node (with_left nd left).
Definition rb_node_get_right (node : Z) : M Z :=
  nd ← deref node; mret (nd.(right_red) &. Z.lnot RB_COLOR_MASK).
Definition rb_node_set_right (node right : Z) : M unit :=
  nd ← deref node;
  assign node (with_right_red nd (right |. (nd.(right_red) &. RB_COLOR_MASK))).
Definition rb_node_get_color (node : Z) : M bool :=
  nd ← deref node; mret (nz (nd.(right_red) &. RB_COLOR_MASK)).
Definition rb_node_set_color (node : Z) (color : bool) : M unit :=
  nd ← deref node;
  assign node (with_right_red nd ((nd.(right_red) &. Z.lnot RB_COLOR_MASK) |. b2z color)).
Definition rb_node_set_red (node : Z) : M unit :=
  nd ← deref node; assign node (with_right_red nd (nd.(right_red) |. b2z RB_RED)).
Definition rb_node_set_black (node : Z) : M unit :=
  nd ← deref node; assign node (with_right_red nd (nd.(right_red) &. Z.lnot RB_COLOR_MASK)).

(** [node && RB_IS_RED(node)] *)
Definition is_red_node (node : Z) : M bool :=
  if node =? 0 then mret false else rb_node_get_color node.

Definition rb_node_rotate_left (x_node : Z) : M Z :=
  r_node ← rb_node_get_right x_node;
  l ← rb_node_get_left r_node;
  rb_node_set_right x_node l;;
  rb_node_set_left r_node x_node;;
  mret r_node.
Definition rb_node_rotate_right (x_node : Z) : M Z :=
  r_node ← rb_node_get_left x_node;
  r ← rb_node_get_right r_node;
  rb_node_set_left x_node r;;
  rb_node_set_right r_node x_node;;
  mret r_node.

(** ** Creation *)

Definition map_new (malloc_ok : bool) (key_size data_size : Z)
    (cmp : option (K -> K -> map_cmp_t)) : option map_internal :=
  if (key_size =? 0) || (data_size =? 0) then None else
  match cmp with
  | None => None
  | Some cmp =>
      let max_size := SIZE_MAX / 4 in
      if (max_size <? key_size) || (max_size <? data_size)
         || (max_size - sizeof_map_node <? u64 (key_size + data_size)) then None
      else if negb malloc_ok then None
      else Some (mk_map 0 key_size data_size 0 cmp)
  end.

Context (malloc : Z -> store -> option Z).

Definition map_create_node (key : option K) (value : option V) (ksize vsize : Z) : M Z := fun h =>
  let align_mask := sizeof_ptr - 1 in
  let key_offset := u64 (sizeof_map_node + align_mask) &. Z.lnot align_mask in
  let data_offset := u64 (key_offset + ksize + align_mask) &. Z.lnot align_mask in
  let total_size := u64 (data_offset + vsize) in
  if (total_size <? vsize) || (total_size <? ksize) then Some (0, h) else
  match malloc total_size h with
  | None => Some (0, h)
  | Some mem =>
      if nz (mem &. RB_COLOR_MASK) then None (* rb_node_init asserts the alignment *)
      else Some (mem, <[mem := mk_map_node (default kzero key) (default vzero value) 0 (b2z RB_RED)]> h)
  end.

(** ** Insertion *)

Record rb_path_entry_t : Type := mk_entry { path_node : Z; path_cmp : map_cmp_t }.

Inductive insert_pos : Type :=
  | Existing (node : Z)
  | Too_deep
  | Position (path : list rb_path_entry_t).

Fixpoint insert_descend (depth : nat) (cmp : K -> K -> map_cmp_t) (key : K)
    (path : list rb_path_entry_t) (node : Z) : M insert_pos :=
  match depth with
  | O => mret Too_deep
  | S depth =>
      if node =? 0 then mret (Position path) else
      nd ← deref node;
      match cmp key nd.(node_key) with
      | MAP_CMP_LESS =>
          left ← rb_node_get_left node;
          insert_descend depth cmp key (mk_entry node MAP_CMP_LESS :: path) left
      | MAP_CMP_GREATER =>
          right ← rb_node_get_right node;
          insert_descend depth cmp key (mk_entry node MAP_CMP_GREATER :: path) right
      | MAP_CMP_EQUAL => mret (Existing node)
      end
  end.
Definition rb_insert_unique (rb : map_internal) (key : K) : M insert_pos :=
  insert_descend (RB_MAX_DEPTH - 1) rb.(comparator) key [] rb.(root).

(** [path->node], when the loop over [path] ends early. *)
Definition path_root (path : list rb_path_entry_t) (node : Z) : Z :=
  default node (path_node <$> last path).

(** The loop that fixes the colours up; [child] is [pathp[1].node].  The
    result is [path->node]. *)
Fixpoint insert_fixup (path : list rb_path_entry_t) (child : Z) : M Z :=
  match path with
  | [] => mret child
  | mk_entry cnode MAP_CMP_LESS :: path =>
      rb_node_set_left cnode child;;
      red ← rb_node_get_color child;
      if negb red then mret (path_root path cnode) else
      leftleft ← rb_node_get_left child;
      red ← is_red_node leftleft;
      if (red : bool) then
        rb_node_set_black leftleft;;
        tnode ← rb_node_rotate_right cnode;
        insert_fixup path tnode
      else insert_fixup path cnode
  | mk_entry cnode _ :: path =>
      rb_node_set_right cnode child;;
      red ← rb_node_get_color child;
      if negb red then mret (path_root path cnode) else
      left ← rb_node_get_left cnode;
      red ← is_red_node left;
      if (red : bool) then
        rb_node_set_black left;;
        rb_node_set_black child;;
        rb_node_set_red cnode;;
        insert_fixup path cnode
      else
        tcolor ← rb_node_get_color cnode;
        tnode ← rb_node_rotate_left cnode;
        rb_node_set_color tnode tcolor;;
        rb_node_set_red cnode;;
        insert_fixup path tnode
  end.

Definition map_insert (obj : option map_internal) (key : option K) (val : option V)
    : M (option map_internal * bool) :=
  match obj, key with
  | Some m, Some k =>
      existing ← rb_insert_unique m k;
      match existing with
      | Too_deep | Existing _ => mret (obj, false)
      | Position path =>
          node ← map_create_node key val m.(key_size) m.(data_size);
          if node =? 0 then mret (obj, false) else
          r ← insert_fixup path node;
          rb_node_set_black r;;
          mret (Some (set_tree_size (set_root m r) (u64 (m.(tree_size) + 1))), true)
      end
  | _, _ => mret (obj, false)
  end.

(** ** Removal *)

(** [t] becomes the root, or the child of [pathp[-1].node]; the result is
    [rb->root]. *)
Definition attach (path : list rb_path_entry_t) (t root : Z) : M Z :=
  match path with
  | [] => mret t
  | mk_entry p MAP_CMP_LESS :: _ => rb_node_set_left p t;; mret root
  | mk_entry p _ :: _ => rb_node_set_right p t;; mret root
  end.

(** The search for the successor, in the right subtree. *)
Fixpoint succ_descend (fuel : nat) (path : list rb_path_entry_t) (node : Z)
    : M (list rb_path_entry_t) :=
  match fuel with
  | O => crash
  | S fuel =>
      if node =? 0 then mret path else
      left ← rb_node_get_left node;
      succ_descend fuel (mk_entry node MAP_CMP_LESS :: path) left
  end.

(** The search for the key: the path above the node, the node ([nodep]) and
    the path from its right child to its successor. *)
Fixpoint remove_descend (fuel : nat) (cmp : K -> K -> map_cmp_t) (key : K)
    (path : list rb_path_entry_t) (node : Z)
    : M (list rb_path_entry_t * Z * list rb_path_entry_t) :=
  match fuel with
  | O => crash
  | S fuel =>
      if node =? 0 then crash else
      nd ← deref node;
      match cmp key nd.(node_key) with
      | MAP_CMP_LESS =>
          left ← rb_node_get_left node;
          remove_descend fuel cmp key (mk_entry node MAP_CMP_LESS :: path) left
      | MAP_CMP_GREATER =>
          right ← rb_node_get_right node;
          remove_descend fuel cmp key (mk_entry node MAP_CMP_GREATER :: path) right
      | MAP_CMP_EQUAL =>
          right ← rb_node_get_right node;
          lower ← succ_descend fuel [] right;
          mret (path, node, lower)
      end
  end.

(** The two rotations that lift the left child of the right child. *)
Definition rotate_right_left (node right : Z) : M Z :=
  tnode ← rb_node_rotate_right right;
  rb_node_set_right node tnode;;
  rb_node_rotate_left node.

(** The loop that restores the balance; [child] is [pathp[1].node]. *)
Fixpoint remove_fixup (root : Z) (path : list rb_path_entry_t) (child : Z) : M Z :=
  match path with
  | [] =>
      red ← rb_node_get_color child;
      assert (negb red);;
      mret child
  | mk_entry node MAP_CMP_EQUAL :: _ => crash
  | mk_entry node MAP_CMP_LESS :: path =>
      rb_node_set_left node child;;
      red ← rb_node_get_color node;
      right ← rb_node_get_right node;
      rightleft ← rb_node_get_left right;
      rightleft_red ← is_red_node rightleft;
      if (red : bool) then
        tnode ← (if (rightleft_red : bool) then
                   rb_node_set_black node;;
                   rotate_right_left node right
                 else rb_node_rotate_left node);
        assert (match path with [] => false | _ => true end);;
        attach path tnode root
      else if (rightleft_red : bool) then
        rb_node_set_black rightleft;;
        tnode ← rotate_right_left node right;
        attach path tnode root
      else
        rb_node_set_red node;;
        tnode ← rb_node_rotate_left node;
        remove_fixup root path tnode
  | mk_entry node MAP_CMP_GREATER :: path =>
      rb_node_set_right node child;;
      left ← rb_node_get_left node;
      left_red ← rb_node_get_color left;
      if (left_red : bool) then
        leftright ← rb_node_get_right left;
        leftrightleft ← rb_node_get_left leftright;
        red ← is_red_node leftrightleft;
        tnode ← (if (red : bool) then
                   rb_node_set_black leftrightleft;;
                   unode ← rb_node_rotate_right node;
                   tnode ← rb_node_rotate_right node;
                   rb_node_set_right unode tnode;;
                   rb_node_rotate_left unode
                 else
                   assert (nz leftright);;
                   rb_node_set_red leftright;;
                   tnode ← rb_node_rotate_right node;
                   rb_node_set_black tnode;;
                   mret tnode);
        attach path tnode root
      else
        red ← rb_node_get_color node;
        leftleft ← rb_node_get_left left;
        leftleft_red ← is_red_node leftleft;
        if (red : bool) then
          if (leftleft_red : bool) then
            rb_node_set_black node;;
            rb_node_set_red left;;
            rb_node_set_black leftleft;;
            tnode ← rb_node_rotate_right node;
            assert (match path with [] => false | _ => true end);;
            attach path tnode root
          else
            rb_node_set_red left;;
            rb_node_set_black node;;
            mret root
        else if (leftleft_red : bool) then
          rb_node_set_black leftleft;;
          tnode ← rb_node_rotate_right node;
          attach path tnode root
        else
          rb_node_set_red left;;
          remove_fixup root path node
  end.

(** The node at the end of [path] has no right child and is cut off. *)
Definition prune (root : Z) (path : list rb_path_entry_t) (node : Z) : M Z :=
  red ← rb_node_get_color node;
  if (red : bool) then
    match path with
    | mk_entry p MAP_CMP_LESS :: _ => rb_node_set_left p 0;; mret root
    | _ => crash
    end
  else remove_fixup root path 0.

(** The node takes the place of its successor in the tree, and the other way
    round. *)
Definition swap_successor (root : Z) (upper : list rb_path_entry_t) (node succ : Z) : M Z :=
  tcolor ← rb_node_get_color succ;
  color ← rb_node_get_color node;
  rb_node_set_color succ color;;
  left ← rb_node_get_left node;
  rb_node_set_left succ left;;
  right ← rb_node_get_right node;
  rb_node_set_right succ right;;
  rb_node_set_color node tcolor;;
  attach upper succ root.

Definition rb_remove (rb : map_internal) (node : Z) : M map_internal :=
  nd ← deref node;
  '(upper, found, lower) ← remove_descend RB_MAX_DEPTH rb.(comparator) nd.(node_key) [] rb.(root);
  assert (found =? node);;
  r ← match lower with
      | mk_entry succ _ :: lower =>
          r ← swap_successor rb.(root) upper node succ;
          prune r (lower ++ mk_entry succ MAP_CMP_GREATER :: upper) node
      | [] =>
          left ← rb_node_get_left node;
          if nz left then
            red ← rb_node_get_color node;
            assert (negb red);;
            red ← rb_node_get_color left;
            assert red;;
            rb_node_set_black left;;
            attach upper left rb.(root)
          else
            match upper with
            | [] => mret 0
            | _ => prune rb.(root) upper node
            end
      end;
  mret (set_root rb r).

(** ** Lookup and traversal

    The loops down the tree have the number of nodes as fuel: a path that is
    longer runs in a circle. *)

Record map_iter_t : Type := mk_iter { it_node : Z; it_prev : Z; it_count : Z }.
Definition set_it_node (it : map_iter_t) (n : Z) : map_iter_t :=
  mk_iter n it.(it_prev) it.(it_count).

Definition with_fuel {A} (f : nat -> M A) : M A := fun h => f (S (size h)) h.

Fixpoint find_node (fuel : nat) (cmp : K -> K -> map_cmp_t) (key : K) (node : Z) : M Z :=
  match fuel with
  | O => crash
  | S fuel =>
      if node =? 0 then mret 0 else
      nd ← deref node;
      match cmp key nd.(node_key) with
      | MAP_CMP_EQUAL => mret node
      | MAP_CMP_LESS => find_node fuel cmp key nd.(node_left)
      | MAP_CMP_GREATER => right ← rb_node_get_right node; find_node fuel cmp key right
      end
  end.
Definition map_find (obj : option map_internal) (it : map_iter_t) (key : K) : M map_iter_t :=
  match obj with
  | None => mret (set_it_node it 0)
  | Some m =>
      n ← with_fuel (fun fuel => find_node fuel m.(comparator) key m.(root));
      mret (set_it_node it n)
  end.

Definition map_empty (obj : option map_internal) : bool :=
  match obj with None => true | Some m => m.(root) =? 0 end.
Definition map_at_end (it : map_iter_t) : bool := it.(it_node) =? 0.
Definition map_size (obj : option map_internal) : Z :=
  match obj with None => 0 | Some m => m.(tree_size) end.

Definition map_erase (obj : option map_internal) (it : map_iter_t)
    : M (option map_internal * map_iter_t) :=
  match obj with
  | None => mret (obj, it)
  | Some m =>
      if it.(it_node) =? 0 then mret (obj, it) else
      if m.(tree_size) =? 0 then mret (obj, it) else
      m ← rb_remove m it.(it_node);
      free it.(it_node);;
      mret (Some (if 0 <? m.(tree_size) then set_tree_size m (m.(tree_size) - 1) else m),
            set_it_node it 0)
  end.

Fixpoint destroy_loop (fuel : nat) (node : Z) : M unit :=
  match fuel with
  | O => crash
  | S fuel =>
      if node =? 0 then mret tt else
      left ← rb_node_get_left node;
      destroy_loop fuel left;;
      rb_node_set_left node 0;;
      right ← rb_node_get_right node;
      destroy_loop fuel right;;
      rb_node_set_right node 0;;
      free node
  end.
Definition rb_destroy_recurse (node : Z) : M unit := with_fuel (fun fuel => destroy_loop fuel node).

Definition map_clear (obj : option map_internal) : M (option map_internal) :=
  match obj with
  | None => mret None
  | Some m =>
      rb_destroy_recurse m.(root);;
      mret (Some (set_tree_size (set_root m 0) 0))
  end.

(** The store after [map_delete]; the handle is freed too. *)
Definition map_delete (obj : option map_internal) : M unit := map_clear obj;; mret tt.

Fixpoint leftmost (fuel : nat) (node : Z) : M Z :=
  match fuel with
  | O => crash
  | S fuel =>
      nd ← deref node;
      if nd.(node_left) =? 0 then mret node else leftmost fuel nd.(node_left)
  end.
Fixpoint rightmost (fuel : nat) (node : Z) : M Z :=
  match fuel with
  | O => crash
  | S fuel =>
      right ← rb_node_get_right node;
      if right =? 0 then mret node else rightmost fuel right
  end.

Definition map_first (obj : option map_internal) (it : map_iter_t) : M map_iter_t :=
  match obj with
  | None => mret (set_it_node it 0)
  | Some m =>
      n ← (if m.(root) =? 0 then mret 0 else with_fuel (fun fuel => leftmost fuel m.(root)));
      mret (mk_iter n 0 0)
  end.
Definition map_last (obj : option map_internal) (it : map_iter_t) : M map_iter_t :=
  match obj with
  | None => mret (set_it_node it 0)
  | Some m =>
      n ← (if m.(root) =? 0 then mret 0 else with_fuel (fun fuel => rightmost fuel m.(root)));
      mret (mk_iter n 0 0)
  end.

(** The search from the root, for a node without a right (left) child. *)
Fixpoint succ_search (fuel : nat) (cmp : K -> K -> map_cmp_t) (key : K) (succ curr : Z) : M Z :=
  match fuel with
  | O => crash
  | S fuel =>
      if curr =? 0 then mret succ else
      nd ← deref curr;
      match cmp key nd.(node_key) with
      | MAP_CMP_LESS => succ_search fuel cmp key curr nd.(node_left)
      | MAP_CMP_GREATER => right ← rb_node_get_right curr; succ_search fuel cmp key succ right
      | MAP_CMP_EQUAL => mret succ
      end
  end.
Fixpoint pred_search (fuel : nat) (cmp : K -> K -> map_cmp_t) (key : K) (pred curr : Z) : M Z :=
  match fuel with
  | O => crash
  | S fuel =>
      if curr =? 0 then mret pred else
      nd ← deref curr;
      match cmp key nd.(node_key) with
      | MAP_CMP_GREATER => right ← rb_node_get_right curr; pred_search fuel cmp key curr right
      | MAP_CMP_LESS => pred_search fuel cmp key pred nd.(node_left)
      | MAP_CMP_EQUAL => mret pred
      end
  end.

Definition map_next (obj : option map_internal) (it : map_iter_t) : M map_iter_t :=
  match obj with
  | None => mret (set_it_node it 0)
  | Some m =>
      if it.(it_node) =? 0 then mret (set_it_node it 0) else
      right ← rb_node_get_right it.(it_node);
      n ← (if nz right then with_fuel (fun fuel => leftmost fuel right)
           else nd ← deref it.(it_node);
                with_fuel (fun fuel => succ_search fuel m.(comparator) nd.(node_key) 0 m.(root)));
      mret (set_it_node it n)
  end.
Definition map_prev (obj : option map_internal) (it : map_iter_t) : M map_iter_t :=
  match obj with
  | None => mret (set_it_node it 0)
  | Some m =>
      if it.(it_node) =? 0 then mret (set_it_node it 0) else
      nd ← deref it.(it_node);
      n ← (if nz nd.(node_left) then with_fuel (fun fuel => rightmost fuel nd.(node_left))
           else with_fuel (fun fuel => pred_search fuel m.(comparator) nd.(node_key) 0 m.(root)));
      mret (set_it_node it n)
  end.
End map.
Notation store K V := (gmap Z (@map_node_t K V)).
Arguments map_internal : clear implicits.
