(* ===== verification/MapTree.v ===== *)
(** * Trees in the store of the map

    [rep h t] says that the nodes of the tree [t] are in the store [h];
    [rep_ctx h fs p] that the path [fs] is, above a hole that points to [p].
    That no address occurs twice is expressed by counting occurrences
    ([occ], [octx]), so that [lia] decides which writes leave which subtree
    alone.  The lemmas on the accessors run programs of Map.v on stores of
    this form ([run]). *)

From Stdlib Require Import ZArith Lia Bool.
From stdpp Require Import base list numbers gmap.
From S2P Require Import Prelude Map.

(** ** The colour bit *)

Definition tag (r : Z) (c : bool) : Z := r |. b2z c.

Lemma even_bit0 r : Z.even r = true -> Z.testbit r 0 = false.
Proof. rewrite Z.bit0_odd, <- Z.negb_even. by intros ->. Qed.

Lemma testbit_1 i : 0 <= i -> Z.testbit 1 i = (i =? 0).
Proof. intros Hi. change 1 with (2 ^ 0). rewrite Z.pow2_bits_eqb by lia. apply Z.eqb_sym. Qed.

Lemma testbit_b2z c i : 0 <= i -> Z.testbit (b2z c) i = c && (i =? 0).
Proof. intros Hi. destruct c; cbn [b2z]; [by apply testbit_1 | apply Z.bits_0]. Qed.

Lemma tag_ptr r c : Z.even r = true -> tag r c &. Z.lnot RB_COLOR_MASK = r.
Proof.
  intros Hr. apply Z.bits_inj'. intros i Hi. unfold tag, RB_COLOR_MASK.
  rewrite Z.land_spec, Z.lor_spec, Z.lnot_spec, testbit_1, testbit_b2z by lia.
  destruct (Z.eqb_spec i 0) as [->|]; [rewrite even_bit0 by done|];
    destruct c; cbn [andb orb negb]; rewrite ?andb_true_r, ?andb_false_r, ?orb_false_r; done.
Qed.
Lemma tag_mask r c : Z.even r = true -> tag r c &. RB_COLOR_MASK = b2z c.
Proof.
  intros Hr. apply Z.bits_inj'. intros i Hi. unfold tag, RB_COLOR_MASK.
  rewrite Z.land_spec, Z.lor_spec, testbit_1, testbit_b2z by lia.
  destruct (Z.eqb_spec i 0) as [->|]; [rewrite even_bit0 by done|];
    destruct c; cbn [andb orb negb]; rewrite ?andb_true_r, ?andb_false_r, ?orb_false_r; done.
Qed.
Lemma tag_color r c : Z.even r = true -> nz (tag r c &. RB_COLOR_MASK) = c.
Proof. intros Hr. rewrite tag_mask by done. by destruct c. Qed.
Lemma tag_red r c : tag r c |. b2z RB_RED = tag r RB_RED.
Proof. unfold tag. rewrite <- Z.lor_assoc. by destruct c. Qed.
Lemma tag_black r : tag r RB_BLACK = r.
Proof. apply Z.lor_0_r. Qed.

(** ** Trees *)

Section tree.
Context {K V : Type}.
Notation store := (store K V).
Notation M := (@M K V).

Inductive tree : Type :=
  | E
  | T (c : bool) (l : tree) (a : Z) (k : K) (v : V) (r : tree).

Definition ptr (t : tree) : Z := match t with E => 0 | T _ _ a _ _ _ => a end.
Definition color (t : tree) : bool := match t with E => RB_BLACK | T c _ _ _ _ _ => c end.

(** The nodes from left to right: address, key and value. *)
Fixpoint nodes (t : tree) : list (Z * (K * V)) :=
  match t with E => [] | T _ l a k v r => nodes l ++ (a, (k, v)) :: nodes r end.

(** How often an address occurs. *)
Definition hit (a x : Z) : nat := if a =? x then 1%nat else 0%nat.
Fixpoint occ (x : Z) (t : tree) : nat :=
  match t with E => 0%nat | T _ l a _ _ r => (hit a x + occ x l + occ x r)%nat end.

Lemma hit_refl a : hit a a = 1%nat.
Proof. unfold hit. by rewrite Z.eqb_refl. Qed.
Lemma hit_ne a b : hit a b = 0%nat -> a <> b.
Proof. unfold hit. by destruct (Z.eqb_spec a b). Qed.
Lemma hit_0 a b : a <> b -> hit a b = 0%nat.
Proof. unfold hit. by destruct (Z.eqb_spec a b). Qed.

(** A node, and a pointer to one. *)
Definition cell (k : K) (v : V) (l r : Z) (c : bool) : map_node_t := mk_map_node k v l (tag r c).
Definition good (a : Z) : Prop := 0 < a < 2 ^ 64 /\ Z.even a = true.

Fixpoint rep (h : store) (t : tree) : Prop :=
  match t with
  | E => True
  | T c l a k v r =>
      good a /\ h !! a = Some (cell k v (ptr l) (ptr r) c) /\ rep h l /\ rep h r
  end.

Lemma ptr_even h t : rep h t -> Z.even (ptr t) = true.
Proof. destruct t; [done|]. by intros [[_ ?] _]. Qed.
Lemma ptr_0 h t : rep h t -> (ptr t =? 0) = match t with E => true | _ => false end.
Proof. destruct t; [done|]. intros [[[? _] _] _]. cbn [ptr]. lia. Qed.

Lemma rep_insert h t a nd : occ a t = 0%nat -> rep h t -> rep (<[a := nd]> h) t.
Proof.
  induction t as [|c l IHl b k v r IHr]; cbn [occ rep]; [done|]. intros Ho (Hg & Hb & Hl & Hr).
  rewrite lookup_insert_ne by (apply not_eq_sym, hit_ne; lia).
  split_and!; try done; [apply IHl | apply IHr]; (lia || done).
Qed.
Lemma rep_delete h t a : occ a t = 0%nat -> rep h t -> rep (delete a h) t.
Proof.
  induction t as [|c l IHl b k v r IHr]; cbn [occ rep]; [done|]. intros Ho (Hg & Hb & Hl & Hr).
  rewrite lookup_delete_ne by (apply not_eq_sym, hit_ne; lia).
  split_and!; try done; [apply IHl | apply IHr]; (lia || done).
Qed.

(** ** Paths *)

Record frame : Type := mk_frame {
  f_left : bool; f_color : bool; f_addr : Z; f_key : K; f_val : V; f_sib : tree
}.
Definition fill (f : frame) (t : tree) : tree :=
  if f.(f_left) then T f.(f_color) t f.(f_addr) f.(f_key) f.(f_val) f.(f_sib)
  else T f.(f_color) f.(f_sib) f.(f_addr) f.(f_key) f.(f_val) t.
Fixpoint plug (fs : list frame) (t : tree) : tree :=
  match fs with [] => t | f :: fs => plug fs (fill f t) end.

Definition f_entry (f : frame) : rb_path_entry_t :=
  mk_entry f.(f_addr) (if f.(f_left) then MAP_CMP_LESS else MAP_CMP_GREATER).

Fixpoint octx (x : Z) (fs : list frame) : nat :=
  match fs with [] => 0%nat | f :: fs => (hit f.(f_addr) x + occ x f.(f_sib) + octx x fs)%nat end.

Definition f_cell (f : frame) (p : Z) : map_node_t :=
  if f.(f_left) then cell f.(f_key) f.(f_val) p (ptr f.(f_sib)) f.(f_color)
  else cell f.(f_key) f.(f_val) (ptr f.(f_sib)) p f.(f_color).

Fixpoint rep_ctx (h : store) (fs : list frame) (p : Z) : Prop :=
  match fs with
  | [] => True
  | f :: fs => good f.(f_addr) /\ h !! f.(f_addr) = Some (f_cell f p) /\
      rep h f.(f_sib) /\ rep_ctx h fs f.(f_addr)
  end.

(** The root of a tree with the path [fs]. *)
Definition top (fs : list frame) (p : Z) : Z := default p (f_addr <$> last fs).

Lemma plug_app fs gs t : plug (fs ++ gs) t = plug gs (plug fs t).
Proof. revert t. induction fs as [|f fs IH]; intros t; [done|]. apply IH. Qed.
Lemma octx_app x fs gs : octx x (fs ++ gs) = (octx x fs + octx x gs)%nat.
Proof. induction fs as [|f fs IH]; cbn [octx app]; lia. Qed.
Lemma occ_fill x f t : occ x (fill f t) = (hit f.(f_addr) x + occ x f.(f_sib) + occ x t)%nat.
Proof. unfold fill. destruct (f_left f); cbn [occ]; lia. Qed.
Lemma occ_plug x fs t : occ x (plug fs t) = (octx x fs + occ x t)%nat.
Proof.
  revert t. induction fs as [|f fs IH]; intros t; cbn [plug octx]; [done|].
  rewrite IH, occ_fill. lia.
Qed.

Lemma rep_ctx_insert h fs p a nd :
  octx a fs = 0%nat -> rep_ctx h fs p -> rep_ctx (<[a := nd]> h) fs p.
Proof.
  revert p. induction fs as [|f fs IH]; cbn [octx rep_ctx]; [done|]. intros p Ho (Hg & Hb & Hs & Hr).
  rewrite lookup_insert_ne by (apply not_eq_sym, hit_ne; lia).
  split_and!; try done; [apply rep_insert | apply IH]; (lia || done).
Qed.

Lemma top_cons f fs p : top (f :: fs) p = top fs f.(f_addr).
Proof. unfold top. rewrite last_cons. by destruct (last fs). Qed.

Lemma rep_fill h f fs t :
  rep_ctx h (f :: fs) (ptr t) -> rep h t -> rep h (fill f t) /\ rep_ctx h fs (ptr (fill f t)).
Proof.
  cbn [rep_ctx]. intros (Hg & Hb & Hs & Hr) Ht. unfold fill, f_cell in *.
  by destruct (f_left f).
Qed.
Lemma rep_plug h fs t :
  rep_ctx h fs (ptr t) -> rep h t -> rep h (plug fs t) /\ ptr (plug fs t) = top fs (ptr t).
Proof.
  revert t. induction fs as [|f fs IH]; intros t Hc Ht; [done|].
  destruct (rep_fill h f fs t Hc Ht) as [H1 H2]. destruct (IH _ H2 H1) as [H3 H4].
  split; [done|]. cbn [plug]. rewrite H4, top_cons. unfold fill. by destruct (f_left f).
Qed.
Lemma rep_unplug h fs t : rep h (plug fs t) -> rep h t /\ rep_ctx h fs (ptr t).
Proof.
  revert t. induction fs as [|f fs IH]; intros t; cbn [plug]; [done|]. intros Hp.
  destruct (IH _ Hp) as [Hf Hc]. cbn [rep_ctx]. unfold fill, f_cell in *.
  destruct (f_left f); cbn [rep ptr] in *; by destruct Hf as (? & ? & ? & ?).
Qed.

(** ** Running programs *)

Section rules.
Context {A : Type} (h : store) (n : Z) (k : K) (v : V) (l r : Z) (c : bool).

Lemma bind_assoc {B C} (e : M B) (g : B -> M C) (f : C -> M A) :
  ((e ≫= g) ≫= f) h = (e ≫= fun x => g x ≫= f) h.
Proof. unfold mbind, M_bind. by destruct (e h) as [[x h']|]. Qed.
Lemma bind_ret {B} (x : B) (f : B -> M A) : (mret x ≫= f) h = f x h.
Proof. done. Qed.
Lemma bind_run {B} (e : M B) (f : B -> M A) x h' : e h = Some (x, h') -> (e ≫= f) h = f x h'.
Proof. unfold mbind, M_bind. by intros ->. Qed.
Lemma bind_assert (f : unit -> M A) : (assert true ≫= f) h = f tt h.
Proof. done. Qed.
Lemma bind_deref nd (f : map_node_t -> M A) : h !! n = Some nd -> (deref n ≫= f) h = f nd h.
Proof. unfold mbind, M_bind, deref. by intros ->. Qed.
Lemma bind_free (f : unit -> M A) : (free n ≫= f) h = f tt (delete n h).
Proof. done. Qed.

Hypothesis Hn : h !! n = Some (cell k v l r c).

Lemma bind_get_left (f : Z -> M A) : (rb_node_get_left n ≫= f) h = f l h.
Proof. unfold rb_node_get_left. by rewrite bind_assoc, (bind_deref _ _ Hn). Qed.
Lemma bind_set_left x (f : unit -> M A) :
  (rb_node_set_left n x ≫= f) h = f tt (<[n := cell k v x r c]> h).
Proof. unfold rb_node_set_left. by rewrite bind_assoc, (bind_deref _ _ Hn). Qed.

Hypothesis Hr : Z.even r = true.

Lemma bind_get_right (f : Z -> M A) : (rb_node_get_right n ≫= f) h = f r h.
Proof.
  unfold rb_node_get_right. rewrite bind_assoc, (bind_deref _ _ Hn). cbn [right_red cell].
  by rewrite bind_ret, tag_ptr.
Qed.
Lemma bind_set_right x (f : unit -> M A) :
  (rb_node_set_right n x ≫= f) h = f tt (<[n := cell k v l x c]> h).
Proof.
  unfold rb_node_set_right. rewrite bind_assoc, (bind_deref _ _ Hn).
  unfold cell, with_right_red. cbn [right_red node_key node_data node_left]. by rewrite tag_mask.
Qed.
Lemma bind_get_color (f : bool -> M A) : (rb_node_get_color n ≫= f) h = f c h.
Proof.
  unfold rb_node_get_color. rewrite bind_assoc, (bind_deref _ _ Hn). cbn [right_red cell].
  by rewrite bind_ret, tag_color.
Qed.
Lemma bind_set_color x (f : unit -> M A) :
  (rb_node_set_color n x ≫= f) h = f tt (<[n := cell k v l r x]> h).
Proof.
  unfold rb_node_set_color. rewrite bind_assoc, (bind_deref _ _ Hn).
  unfold cell, with_right_red. cbn [right_red node_key node_data node_left]. by rewrite tag_ptr.
Qed.
Lemma bind_set_red (f : unit -> M A) :
  (rb_node_set_red n ≫= f) h = f tt (<[n := cell k v l r RB_RED]> h).
Proof using Hn.
  unfold rb_node_set_red. rewrite bind_assoc, (bind_deref _ _ Hn).
  unfold cell, with_right_red. cbn [right_red node_key node_data node_left]. by rewrite tag_red.
Qed.
Lemma bind_set_black (f : unit -> M A) :
  (rb_node_set_black n ≫= f) h = f tt (<[n := cell k v l r RB_BLACK]> h).
Proof.
  unfold rb_node_set_black. rewrite bind_assoc, (bind_deref _ _ Hn).
  unfold cell, with_right_red. cbn [right_red node_key node_data node_left].
  by rewrite tag_ptr, tag_black.
Qed.
End rules.

Lemma bind_is_red {A} h t (f : bool -> M A) :
  rep h t -> (is_red_node (ptr t) ≫= f) h = f (color t) h.
Proof.
  intros Ht. unfold is_red_node. rewrite (ptr_0 h t Ht). destruct t as [|c l a k v r]; [done|].
  destruct Ht as (_ & Ha & _ & Hr). apply (bind_get_color h a k v (ptr l) (ptr r) c); [done|].
  by apply (ptr_even h).
Qed.

(** A program without anything after it. *)
Lemma bind_mret {A} (e : M A) h : e h = (e ≫= mret) h.
Proof. unfold mbind, M_bind, mret, M_ret. by destruct (e h) as [[]|]. Qed.

Lemma bind_rotate_left {A} h x kx vx lx y cx ky vy ly ry cy (f : Z -> M A) :
  h !! x = Some (cell kx vx lx y cx) -> h !! y = Some (cell ky vy ly ry cy) ->
  Z.even y = true -> x <> y ->
  (rb_node_rotate_left x ≫= f) h =
  f y (<[y := cell ky vy x ry cy]> (<[x := cell kx vx lx ly cx]> h)).
Proof.
  intros Hx Hy Ey Hne. unfold rb_node_rotate_left.
  rewrite bind_assoc, (bind_get_right _ _ _ _ _ _ _ Hx Ey).
  rewrite bind_assoc, (bind_get_left _ _ _ _ _ _ _ Hy).
  rewrite bind_assoc, (bind_set_right _ _ _ _ _ _ _ Hx Ey), bind_assoc.
  erewrite bind_set_left by (rewrite lookup_insert_ne by done; exact Hy). done.
Qed.
Lemma bind_rotate_right {A} h x kx vx rx y cx ky vy ly ry cy (f : Z -> M A) :
  h !! x = Some (cell kx vx y rx cx) -> h !! y = Some (cell ky vy ly ry cy) ->
  Z.even ry = true -> x <> y ->
  (rb_node_rotate_right x ≫= f) h =
  f y (<[y := cell ky vy ly x cy]> (<[x := cell kx vx ry rx cx]> h)).
Proof.
  intros Hx Hy Ey Hne. unfold rb_node_rotate_right.
  rewrite bind_assoc, (bind_get_left _ _ _ _ _ _ _ Hx).
  rewrite bind_assoc, (bind_get_right _ _ _ _ _ _ _ Hy Ey).
  rewrite bind_assoc, (bind_set_left _ _ _ _ _ _ _ Hx), bind_assoc.
  erewrite bind_set_right; [done | by rewrite lookup_insert_ne by done | done].
Qed.

(** ** Contents *)

Fixpoint before (fs : list frame) : list (Z * (K * V)) :=
  match fs with
  | [] => []
  | f :: fs => before fs ++
      (if f.(f_left) then [] else nodes f.(f_sib) ++ [(f.(f_addr), (f.(f_key), f.(f_val)))])
  end.
Fixpoint after (fs : list frame) : list (Z * (K * V)) :=
  match fs with
  | [] => []
  | f :: fs =>
      (if f.(f_left) then (f.(f_addr), (f.(f_key), f.(f_val))) :: nodes f.(f_sib) else []) ++ after fs
  end.

Lemma nodes_plug fs t : nodes (plug fs t) = before fs ++ nodes t ++ after fs.
Proof.
  revert t. induction fs as [|f fs IH]; intros t; cbn [plug before after app]; [by rewrite app_nil_r|].
  rewrite IH. unfold fill. destruct (f_left f); cbn [nodes app]; rewrite ?app_nil_r, <- ?app_assoc; done.
Qed.
Lemma nodes_plug_eq fs t t' : nodes t' = nodes t -> nodes (plug fs t') = nodes (plug fs t).
Proof. intros H. by rewrite !nodes_plug, H. Qed.

(** ** Balance: left-leaning red-black trees

    The index is the number of black nodes on each path, the boolean the
    colour of the root. *)

Inductive rb : nat -> bool -> tree -> Prop :=
  | rb_E : rb 0 RB_BLACK E
  | rb_red n l a k v r :
      rb n RB_BLACK l -> rb n RB_BLACK r -> rb n RB_RED (T RB_RED l a k v r)
  | rb_black n c l a k v r :
      rb n c l -> rb n RB_BLACK r -> rb (S n) RB_BLACK (T RB_BLACK l a k v r).

(** Paths that end in a hole for a tree of this height and colour. *)
Inductive rbctx : nat -> bool -> list frame -> Prop :=
  | rbctx_nil n : rbctx n RB_BLACK []
  | rbctx_left_black n c a k v r fs :
      rb n RB_BLACK r -> rbctx (S n) RB_BLACK fs ->
      rbctx n c (mk_frame true RB_BLACK a k v r :: fs)
  | rbctx_left_red n a k v r fs :
      rb n RB_BLACK r -> rbctx n RB_RED fs ->
      rbctx n RB_BLACK (mk_frame true RB_RED a k v r :: fs)
  | rbctx_right_black n c a k v l fs :
      rb n c l -> rbctx (S n) RB_BLACK fs ->
      rbctx n RB_BLACK (mk_frame false RB_BLACK a k v l :: fs)
  | rbctx_right_red n a k v l fs :
      rb n RB_BLACK l -> rbctx n RB_RED fs ->
      rbctx n RB_BLACK (mk_frame false RB_RED a k v l :: fs).

Lemma rb_color n c t : rb n c t -> color t = c.
Proof. by destruct 1. Qed.

(** A black tree fits wherever a red one does. *)
Lemma rbctx_weaken n fs : rbctx n RB_RED fs -> rbctx n RB_BLACK fs.
Proof. inversion 1; subst. by constructor. Qed.

Lemma rb_fill f fs n c t :
  rbctx n c (f :: fs) -> rb n c t ->
  exists n', rbctx n' f.(f_color) fs /\ rb n' f.(f_color) (fill f t).
Proof. intros Hc Ht. inversion Hc; subst; eexists; (split; [eassumption | by econstructor]). Qed.
Lemma rb_plug fs n c t : rbctx n c fs -> rb n c t -> exists N, rb N RB_BLACK (plug fs t).
Proof.
  revert n c t. induction fs as [|f fs IH]; intros n c t Hc Ht; cbn [plug].
  - inversion Hc; subst. by exists n.
  - destruct (rb_fill f fs n c t Hc Ht) as (n' & H1 & H2). by eapply IH.
Qed.
Lemma rb_unplug fs N t :
  rb N RB_BLACK (plug fs t) -> exists n c, rbctx n c fs /\ rb n c t.
Proof.
  revert t. induction fs as [|[left c0 a k v s] fs IH]; intros t; cbn [plug].
  - intros H. exists N, RB_BLACK. split; [constructor | done].
  - intros H. destruct (IH _ H) as (n & c & Hc & Hf). unfold fill in Hf.
    destruct left; cbn [f_left f_color f_addr f_key f_val f_sib] in Hf; inversion Hf; subst;
      eexists _, _; (split; [|eassumption]); by econstructor.
Qed.
End tree.
Arguments tree : clear implicits.
Arguments frame : clear implicits.

(** ** Automation *)

(** [map_ne] separates two addresses by their counts, [map_lk] looks an
    address up in an updated store, [map_ev] shows that a pointer is even. *)
Ltac map_ne := first [ apply hit_ne; lia | apply not_eq_sym, hit_ne; lia ].
Ltac map_lk :=
  first [ eassumption
        | rewrite lookup_insert_eq; reflexivity
        | rewrite lookup_insert_ne by map_ne; map_lk ].
Ltac map_ev :=
  match goal with
  | H : good ?a |- Z.even ?a = true => exact (proj2 H)
  | H : rep _ ?t |- Z.even (ptr ?t) = true => exact (ptr_even _ _ H)
  | |- _ => first [ assumption | reflexivity ]
  end.

(** [map_rep] shows that a tree or a path is in an updated store. *)
Ltac map_rep :=
  lazymatch goal with
  | |- True => exact I
  | |- good _ => first [ assumption | by split ]
  | |- rep _ _ =>
      first [ assumption | apply rep_insert; [lia | map_rep]
            | cbn [rep ptr]; map_rep ]
  | |- _ /\ _ => split; map_rep
  | |- _ !! _ = _ => map_lk
  | |- rep_ctx _ _ _ => first [ eassumption | apply rep_ctx_insert; [lia | map_rep] ]
  end.

(** [run] executes the next access of a program. *)
Ltac run1 :=
  lazymatch goal with
  | |- context [@mbind _ _ _ _ _ (@mbind _ _ _ _ _ _) _] => rewrite bind_assoc
  | |- context [@mbind _ _ _ _ _ (mret _) _] => rewrite bind_ret
  | |- context [@mbind _ _ _ _ _ (assert true) _] => rewrite bind_assert
  | |- context [@mbind _ _ _ _ _ (rb_node_get_left _) _] => erewrite bind_get_left; [|map_lk]
  | |- context [@mbind _ _ _ _ _ (rb_node_set_left _ _) _] => erewrite bind_set_left; [|map_lk]
  | |- context [@mbind _ _ _ _ _ (rb_node_get_right _) _] => erewrite bind_get_right; [|map_lk|map_ev]
  | |- context [@mbind _ _ _ _ _ (rb_node_set_right _ _) _] => erewrite bind_set_right; [|map_lk|map_ev]
  | |- context [@mbind _ _ _ _ _ (rb_node_get_color _) _] => erewrite bind_get_color; [|map_lk|map_ev]
  | |- context [@mbind _ _ _ _ _ (rb_node_set_color _ _) _] => erewrite bind_set_color; [|map_lk|map_ev]
  | |- context [@mbind _ _ _ _ _ (rb_node_set_red _) _] => erewrite bind_set_red; [|map_lk]
  | |- context [@mbind _ _ _ _ _ (rb_node_set_black _) _] => erewrite bind_set_black; [|map_lk|map_ev]
  | |- context [@mbind _ _ _ _ _ (rb_node_rotate_left _) _] => erewrite bind_rotate_left; [|map_lk|map_lk|map_ev|map_ne]
  | |- context [@mbind _ _ _ _ _ (rb_node_rotate_right _) _] => erewrite bind_rotate_right; [|map_lk|map_lk|map_ev|map_ne]
  | |- context [@mbind _ _ _ _ _ (is_red_node (ptr ?t)) _] =>
      rewrite (bind_is_red _ t) by map_rep
  end; cbv beta iota delta [RB_RED RB_BLACK].
Ltac run := repeat run1.

(** [at_node HN a] is what the counts [HN] say about the address [a]. *)
Ltac at_node HN a :=
  let H := fresh "Hocc" in
  pose proof (HN a) as H;
  cbn [occ octx f_addr f_sib] in H; rewrite ?(hit_refl a) in H.
