(* ===== verification/MapFix.v ===== *)
(** * Insertion and removal in the red-black tree

    [insert_fixup] walks up the path of the new node: the subtree that it
    carries is balanced, or a red node with a red left child below a black
    node ([almost]); the rest of the path is as it was.  [remove_fixup] walks
    up the path of the node that was cut off: the subtree that it carries is
    balanced and black, but one black node too low for its place. *)

From Stdlib Require Import ZArith Lia Bool.
From stdpp Require Import base list numbers gmap.
From S2P Require Import Prelude Map MapTree.

(** * Insertion *)

Section insert.
Context {K V : Type}.
Notation store := (store K V).
Notation tree := (tree K V).
Notation frame := (frame K V).

Inductive almost : nat -> tree -> Prop :=
  | almost_red n l a k v r a' k' v' r' :
      rb n RB_BLACK l -> rb n RB_BLACK r -> rb n RB_BLACK r' ->
      almost n (T RB_RED (T RB_RED l a k v r) a' k' v' r').

(** What the loop has above it, for a hole of height [n] and colour [c]. *)
Definition carried (n : nat) (c : bool) (t : tree) : Prop :=
  (exists c', rb n c' t) \/ c = RB_RED /\ almost n t.

(** The result of a fix-up of the tree [t0] in the store [h]: a balanced tree
    with the same nodes, all other nodes untouched, and with a black root if
    [black] is set. *)
Record fixed (black : bool) (h : store) (t0 : tree) (r : option (Z * store)) : Prop := mk_fixed {
  fixed_result : exists h' t n c, r = Some (ptr t, h') /\ rep h' t /\ rb n c t /\
    nodes t = nodes t0 /\ (forall x, occ x t = occ x t0) /\
    (forall x, occ x t0 = 0%nat -> h' !! x = h !! x) /\ (black = true -> c = RB_BLACK)
}.

(** One turn of the loop: the tree below the rest of the path changes. *)
Lemma fixed_step b h h' fs t t' r :
  fixed b h' (plug fs t') r -> nodes t' = nodes t -> (forall x, occ x t' = occ x t) ->
  (forall x, occ x t = 0%nat -> h' !! x = h !! x) ->
  fixed b h (plug fs t) r.
Proof.
  intros [(h2 & t2 & n & c & -> & H1 & H2 & H3 & H4 & H5 & H6)] Hn Ho Hh. split.
  exists h2, t2, n, c. split_and!; try done.
  - rewrite H3. by apply nodes_plug_eq.
  - intros x. rewrite H4, !occ_plug, Ho. done.
  - intros x Hx. rewrite occ_plug in Hx. rewrite H5, Hh; [done | lia|].
    rewrite occ_plug, Ho. lia.
Qed.

Lemma path_root_top (fs : list frame) a : path_root (f_entry <$> fs) a = top fs a.
Proof. unfold path_root, top. rewrite fmap_last. by destruct (last fs). Qed.

(** The loop stops below the path [fs]. *)
Lemma fixed_break b h h' fs t n c :
  rbctx n c fs -> rb n c t -> rep h' t -> rep_ctx h' fs (ptr t) ->
  (forall x, occ x t = 0%nat -> h' !! x = h !! x) ->
  fixed b h (plug fs t) (Some (path_root (f_entry <$> fs) (ptr t), h')).
Proof.
  intros Hc Ht Hr Hrc Hh. split. destruct (rep_plug h' fs t Hrc Hr) as [H1 H2].
  destruct (rb_plug fs n c t Hc Ht) as [N HN].
  exists h', (plug fs t), N, RB_BLACK. split_and!; try done.
  - by rewrite path_root_top, H2.
  - intros x. rewrite occ_plug. intros Hx. apply Hh. lia.
Qed.

(** ** The balance of the subtree that is carried up *)

Lemma carried_black n c f fs t :
  rbctx n c (f :: fs) -> carried n c t -> color t = RB_BLACK ->
  exists n', rbctx n' f.(f_color) fs /\ rb n' f.(f_color) (fill f t).
Proof.
  intros Hc [[c' Ht]|[_ Ht]] Hb; [|by destruct Ht].
  rewrite (rb_color _ _ _ Ht) in Hb. subst c'. apply (rb_fill f fs n RB_BLACK); [|done].
  destruct c; [by apply rbctx_weaken | done].
Qed.
Lemma carried_left n c0 c a k v s fs t :
  rbctx n c0 (mk_frame true c a k v s :: fs) -> rb n RB_RED t ->
  exists n', rbctx n' c fs /\ carried n' c (T c t a k v s).
Proof.
  intros Hc Ht. inversion Hc; subst; eexists; (split; [eassumption|]).
  - left. eexists. by econstructor.
  - right. split; [done|]. inversion Ht; subst. by constructor.
Qed.
End insert.

(** [frame_tac] shows that the writes of a turn stay in the subtree. *)
Ltac frame_tac :=
  let x := fresh "x" in let Hx := fresh "Hx" in
  intros x Hx; cbn [occ] in Hx; repeat rewrite lookup_insert_ne by map_ne; reflexivity.
(** [occ_tac HN] shows that the new tree has no address twice. *)
Ltac occ_tac HN :=
  let x := fresh "x" in
  intros x; pose proof (HN x); cbn [occ octx f_addr f_sib] in *; lia.
(** [nodes_tac] shows that two trees have the same nodes in the same order. *)
Ltac nodes_tac := cbn [nodes]; repeat (progress (rewrite <- ?app_assoc; cbn [app])); reflexivity.
(** [turn IH t HN] goes on with the tree [t] below the rest of the path. *)
Ltac turn IH t HN :=
  eapply (fixed_step _ _ _ _ _ t);
  [ eapply (IH _ t); [| | done | map_rep | map_rep | map_ev | occ_tac HN]
  | nodes_tac
  | let x := fresh "x" in intros x; cbn [occ]; lia
  | frame_tac ].

Section fixup.
Context {K V : Type}.
Notation store := (store K V).
Notation tree := (tree K V).
Notation frame := (frame K V).

Definition fixup_ok (fs : list frame) : Prop := forall h t n c p,
  rbctx n c fs -> carried n c t -> t <> E -> rep h t -> rep_ctx h fs p -> Z.even p = true ->
  (forall x, occ x t + octx x fs <= 1)%nat ->
  fixed false h (plug fs t) (insert_fixup (f_entry <$> fs) (ptr t) h).

(** A left child was inserted into. *)
Lemma fixup_left fs c a k v s : fixup_ok fs -> fixup_ok (mk_frame true c a k v s :: fs).
Proof.
  intros IH h t n c0 p Hc Ht Hne Hr (Hg & Ha & Hs & Hrc) Hp HN.
  cbn [f_addr f_sib f_cell f_left f_key f_val f_color plug fill fmap list_fmap f_entry] in *.
  destruct t as [|ct tl b kb vb tr]; [done|]. destruct Hr as (Hgb & Hb & Htl & Htr).
  at_node HN a. at_node HN b. cbn [insert_fixup f_entry f_addr f_left ptr]. run. destruct ct; cbn [negb].
  2:{ destruct (carried_black _ _ _ _ _ Hc Ht eq_refl) as (n' & H1 & H2).
      eapply (fixed_break _ h _ fs (T c _ a k v s)); [exact H1 | exact H2 | map_rep | map_rep | frame_tac]. }
  run. destruct (color tl) eqn:Etl.
  - destruct tl as [|ctl tll d kd vd tlr]; [done|]. cbn [color] in Etl. subst ctl.
    destruct Htl as (Hgd & Hd & Htll & Htlr). at_node HN d. cbn [ptr occ] in *. run.
    destruct Ht as [[c' Ht]|[-> Ht]]; [inversion Ht; subst; by match goal with H : rb _ _ (T true _ _ _ _ _) |- _ => inversion H end|].
    inversion Ht; subst. inversion Hc; subst.
    turn IH (T RB_RED (T RB_BLACK tll d kd vd tlr) b kb vb (T RB_BLACK tr a k v s)) HN;
      [eassumption | left; eexists; by repeat econstructor].
  - destruct Ht as [[c' Ht]|[_ Ht]]; [|by inversion Ht; subst].
    pose proof (rb_color _ _ _ Ht) as E. cbn [color] in E. subst c'.
    destruct (carried_left _ _ _ _ _ _ _ _ _ Hc Ht) as (n' & H1 & H2).
    turn IH (T c (T true tl b kb vb tr) a k v s) HN; [exact H1 | exact H2].
Qed.

(** A right child was inserted into: the hole is black, and so was the child. *)
Lemma carried_right n c0 c a k v (s t : tree) fs :
  rbctx n c0 (mk_frame false c a k v s :: fs) -> carried n c0 t -> color t = RB_RED ->
  rb n RB_RED t /\ (c = RB_BLACK /\ rbctx (S n) c fs /\ rb n (color s) s \/
                  c = RB_RED /\ rbctx n c fs /\ rb n RB_BLACK s).
Proof.
  intros Hc [[c' Ht]|[-> Ht]] Ec; [|by inversion Hc].
  pose proof (rb_color _ _ _ Ht) as E. rewrite Ec in E. subst c'. split; [done|].
  inversion Hc; subst; [left | by right]. split_and!; [done..|].
  match goal with H : rb n ?c s |- _ => by rewrite (rb_color _ _ _ H) end.
Qed.

Lemma fixup_right fs c a k v s : fixup_ok fs -> fixup_ok (mk_frame false c a k v s :: fs).
Proof.
  intros IH h t n c0 p Hc Ht Hne Hr (Hg & Ha & Hs & Hrc) Hp HN.
  cbn [f_addr f_sib f_cell f_left f_key f_val f_color plug fill fmap list_fmap f_entry] in *.
  destruct t as [|ct tl b kb vb tr]; [done|]. destruct Hr as (Hgb & Hb & Htl & Htr).
  at_node HN a. at_node HN b. cbn [insert_fixup f_entry f_addr f_left ptr].
  run. destruct ct; cbn [negb].
  2:{ destruct (carried_black _ _ _ _ _ Hc Ht eq_refl) as (n' & H1 & H2).
      eapply (fixed_break _ h _ fs (T c s a k v _)); [exact H1 | exact H2 | map_rep | map_rep | frame_tac]. }
  destruct (carried_right _ _ _ _ _ _ _ _ _ Hc Ht eq_refl) as [Htr' Hcase]. inversion Htr'; subst.
  run. destruct (color s) eqn:Es.
  - destruct Hcase as [(-> & H1 & H2)|(_ & _ & H2)]; [|by rewrite (rb_color _ _ _ H2) in Es].
    destruct s as [|cs sl d kd vd sr]; [done|]. cbn [color] in Es. subst cs. inversion H2; subst.
    destruct Hs as (Hgd & Hd & Hsl & Hsr). at_node HN d. cbn [ptr occ] in *. run.
    turn IH (T RB_RED (T RB_BLACK sl d kd vd sr) a k v (T RB_BLACK tl b kb vb tr)) HN.
    + exact H1.
    + left. eexists. by repeat econstructor.
  - run. assert (exists n', rbctx n' c fs /\ carried n' c (T c (T RB_RED s a k v tl) b kb vb tr)) as (n' & H1 & H2).
    { destruct Hcase as [(-> & H1 & H2)|(-> & H1 & H2)]; eexists; (split; [exact H1|]).
      - left. eexists. by repeat econstructor.
      - right. split; [done|]. by constructor. }
    turn IH (T c (T RB_RED s a k v tl) b kb vb tr) HN; [exact H1 | exact H2].
Qed.

Lemma insert_fixup_ok fs : fixup_ok fs.
Proof.
  induction fs as [|[[] c a k v s] fs IH]; [|by apply fixup_left | by apply fixup_right].
  intros h t n c p Hc Ht Hne Hr _ _ _. destruct Ht as [[c' Ht]|[-> Ht]]; [|by inversion Hc].
  split. by exists h, t, n, c'.
Qed.
End fixup.

(** * Removal *)

Section attach.
Context {K V : Type}.
Notation store := (store K V).
Notation tree := (tree K V).
Notation frame := (frame K V).

(** [rb->root] while the path is not empty. *)
Definition at_root (fs : list frame) (root : Z) : Prop := forall q, fs <> [] -> top fs q = root.

(** The hole of a path is filled with a pointer. *)
Lemma attach_run (fs : list frame) q root h p :
  rep_ctx h fs p -> Z.even p = true -> at_root fs root ->
  (forall x, octx x fs <= 1)%nat ->
  exists h', attach (f_entry <$> fs) q root h = Some (top fs q, h') /\ rep_ctx h' fs q /\
    forall x, octx x fs = 0%nat \/ h !! x = None -> h' !! x = h !! x.
Proof.
  intros Hrc Hp Hroot HN. destruct fs as [|[left c0 a k v s] fs]; [by exists h|].
  rewrite (Hroot q) by done. destruct Hrc as (Hg & Ha & Hs & Hrc'). cbn [f_addr f_sib] in *. at_node HN a.
  assert (forall nd x, (hit a x + occ x s + octx x fs)%nat = 0%nat \/ h !! x = None ->
    <[a := nd]> h !! x = h !! x) as Hfr.
  { intros nd x Hx. rewrite lookup_insert_ne; [done|]. intros <-. rewrite hit_refl, Ha in Hx.
    destruct Hx; [lia | done]. }
  destruct left; cbn [fmap list_fmap f_entry attach f_addr f_left f_cell f_sib f_key f_val f_color octx] in *; run;
    (eexists; split; [reflexivity|]; split; [|by apply Hfr]);
    cbn [rep_ctx f_addr f_sib]; (split; [done|]; split; [map_lk | split; map_rep]).
Qed.

(** Only the nodes of the path change. *)
Lemma attach_rep (fs : list frame) q root h h' p (t : tree) :
  attach (f_entry <$> fs) q root h = Some (p, h') ->
  (forall x, octx x fs = 0%nat -> h' !! x = h !! x) ->
  rep h t -> (forall x, occ x t + octx x fs <= 1)%nat -> rep h' t.
Proof.
  intros _ Hh. induction t as [|c l IHl a k v r IHr]; [done|]. intros (Hg & Ha & Hl & Hr) HN. at_node HN a.
  split; [done|]. split; [rewrite Hh by lia; done|]. split; [apply IHl | apply IHr]; try done;
    intros x; specialize (HN x); cbn [occ] in HN; lia.
Qed.

Lemma attach_ok fs (t : tree) root h n c p :
  rbctx n c fs -> rb n c t -> rep h t -> rep_ctx h fs p -> Z.even p = true -> at_root fs root ->
  (forall x, occ x t + octx x fs <= 1)%nat ->
  fixed true h (plug fs t) (attach (f_entry <$> fs) (ptr t) root h).
Proof.
  intros Hc Ht Hr Hrc Hp Hroot HN. destruct (rb_plug fs n c t Hc Ht) as [N HNt].
  destruct (attach_run fs (ptr t) root h p Hrc Hp Hroot) as (h' & E & H1 & H3);
    [intros x; specialize (HN x); lia|].
  assert (rep h' t) as H2 by (eapply attach_rep; eauto).
  destruct (rep_plug _ _ _ H1 H2) as [H4 H5]. split. rewrite E, <- H5.
  exists h', (plug fs t), N, RB_BLACK. split_and!; try done.
  intros x. rewrite occ_plug. intros Hx. apply H3. lia.
Qed.

(** The root of the subtree has not moved. *)
Lemma stay_ok fs (t : tree) root h n c :
  rbctx n c fs -> rb n c t -> rep h t -> rep_ctx h fs (ptr t) -> at_root fs root -> fs <> [] ->
  fixed true h (plug fs t) (Some (root, h)).
Proof.
  intros Hc Ht Hr Hrc Hroot Hne. destruct (rb_plug fs n c t Hc Ht) as [N HNt].
  destruct (rep_plug _ _ _ Hrc Hr) as [H4 H5]. split.
  exists h, (plug fs t), N, RB_BLACK. split_and!; try done. rewrite H5. by rewrite Hroot.
Qed.
End attach.

(** [rb_tac] shows that a tree of given pieces is balanced. *)
Ltac rb_tac := first [ eassumption | eapply rb_red; rb_tac | eapply rb_black; rb_tac ].

(** [finish t HN] attaches the tree [t], [again IH t HN] goes on with it. *)
Ltac finish t HN :=
  eapply (fixed_step _ _ _ _ _ t);
  [ eapply (attach_ok _ t);
    [ eassumption | rb_tac | map_rep | map_rep | map_ev | assumption | occ_tac HN ]
  | nodes_tac
  | let x := fresh "x" in intros x; cbn [occ]; lia
  | frame_tac ].
Ltac again IH t HN :=
  eapply (fixed_step _ _ _ _ _ t);
  [ eapply (IH _ t);
    [ eassumption | rb_tac | done | map_rep | map_rep | map_ev | assumption | occ_tac HN ]
  | nodes_tac
  | let x := fresh "x" in intros x; cbn [occ]; lia
  | frame_tac ].

Section fixup.
Context {K V : Type}.
Notation store := (store K V).
Notation tree := (tree K V).
Notation frame := (frame K V).

Definition refill_ok (fs : list frame) : Prop := forall h t n root p,
  rbctx (S n) RB_BLACK fs -> rb n RB_BLACK t -> (fs = [] -> t <> E) -> rep h t ->
  rep_ctx h fs p -> Z.even p = true -> at_root fs root ->
  (forall x, occ x t + octx x fs <= 1)%nat ->
  fixed true h (plug fs t) (remove_fixup root (f_entry <$> fs) (ptr t) h).

Lemma at_root_tail f fs (root : Z) : @at_root K V (f :: fs) root -> at_root fs root.
Proof. intros H q Hne. rewrite <- (H q) by done. rewrite top_cons. unfold top.
  destruct fs as [|g fs]; [done|]. by destruct (last (g :: fs)) as [x|] eqn:E; [|by apply last_None in E].
Qed.
Lemma rbctx_red_path n (fs : list frame) :
  rbctx n RB_RED fs -> match f_entry <$> fs with [] => false | _ => true end = true.
Proof. by inversion 1. Qed.

(** The pieces of a sibling that is not empty. *)
Lemma rb_node n (t : tree) :
  rb (S n) RB_BLACK t -> exists l a k v r, t = T RB_BLACK l a k v r /\ rb n (color l) l /\ rb n RB_BLACK r.
Proof.
  inversion 1; subst. eexists _, _, _, _, _. split; [done|]. split; [|done].
  match goal with H : rb n ?c ?l |- rb n (color ?l) ?l => by rewrite (rb_color _ _ _ H) end.
Qed.

(** The left subtree is too low. *)
Lemma refill_left fs c a k v s : refill_ok fs -> refill_ok (mk_frame true c a k v s :: fs).
Proof.
  intros IH h t n root p Hc Ht _ Hr (Hg & Ha & Hs & Hrc) Hp Hroot HN.
  apply at_root_tail in Hroot.
  cbn [f_addr f_sib f_cell f_left f_key f_val f_color plug fill fmap list_fmap f_entry] in *.
  assert (rb (S n) RB_BLACK s) as Hsb by by inversion Hc.
  destruct (rb_node _ _ Hsb) as (sl & d & kd & vd & sr & -> & Hsl & Hsr).
  destruct Hs as (Hgd & Hd & Hrl & Hrr). at_node HN a. at_node HN d. cbn [ptr occ] in *.
  cbn [remove_fixup f_entry f_addr f_left]. run.
  destruct c; [assert (rbctx (S n) RB_RED fs) as Hc' by by inversion Hc
              |assert (rbctx (S (S n)) RB_BLACK fs) as Hc' by by inversion Hc].
  - destruct (color sl) eqn:El.
    + destruct sl as [|cl sll e ke ve slr]; [done|]. cbn [color] in El. subst cl. inversion Hsl; subst.
      destruct Hrl as (Hge & He & Hll & Hlr). at_node HN e. cbn [ptr occ] in *.
      unfold rotate_right_left. run. rewrite (rbctx_red_path _ _ Hc'). run.
      finish (T RB_RED (T RB_BLACK t a k v sll) e ke ve (T RB_BLACK slr d kd vd sr)) HN.
    + run. rewrite (rbctx_red_path _ _ Hc'). run. apply rbctx_weaken in Hc'.
      finish (T RB_BLACK (T RB_RED t a k v sl) d kd vd sr) HN.
  - destruct (color sl) eqn:El.
    + destruct sl as [|cl sll e ke ve slr]; [done|]. cbn [color] in El. subst cl. inversion Hsl; subst.
      destruct Hrl as (Hge & He & Hll & Hlr). at_node HN e. cbn [ptr occ] in *.
      unfold rotate_right_left. run.
      finish (T RB_BLACK (T RB_BLACK t a k v sll) e ke ve (T RB_BLACK slr d kd vd sr)) HN.
    + run. again IH (T RB_BLACK (T RB_RED t a k v sl) d kd vd sr) HN.
Qed.

(** The right subtree is too low and its sibling is red. *)
Lemma refill_right_red fs a k v s : refill_ok (mk_frame false RB_BLACK a k v s :: fs) \/ color s = RB_BLACK.
Proof.
  destruct (color s) eqn:Es; [left | by right].
  intros h t n root p Hc Ht _ Hr (Hg & Ha & Hs & Hrc) Hp Hroot HN. apply at_root_tail in Hroot.
  cbn [f_addr f_sib f_cell f_left f_key f_val f_color plug fill fmap list_fmap f_entry] in *.
  destruct s as [|cs ll d kd vd lr]; [done|]. cbn [color] in Es. subst cs.
  assert (rb (S n) RB_BLACK ll /\ rb (S n) RB_BLACK lr /\ rbctx (S (S n)) RB_BLACK fs) as (Hll & Hlr & Hc').
  { inversion Hc; subst. match goal with H : rb _ _ (T true _ _ _ _ _) |- _ => by inversion H end. }
  destruct (rb_node _ _ Hlr) as (lrl & e & ke & ve & lrr & -> & Hlrl & Hlrr).
  destruct Hs as (Hgd & Hd & Hrll & Hge & He & Hrlrl & Hrlrr).
  at_node HN a. at_node HN d. at_node HN e. cbn [ptr occ] in *.
  cbn [remove_fixup f_entry f_addr f_left]. run. destruct (color lrl) eqn:El.
  - destruct lrl as [|cl x b kb vb y]; [done|]. cbn [color] in El. subst cl. inversion Hlrl; subst.
    destruct Hrlrl as (Hgb & Hb & Hrx & Hry). at_node HN b. cbn [ptr occ] in *. run.
    finish (T RB_BLACK (T RB_RED ll d kd vd (T RB_BLACK x b kb vb y)) e ke ve (T RB_BLACK lrr a k v t)) HN.
  - assert (nz e = true) as -> by (destruct Hge as [[? _] _]; unfold nz; lia). run.
    finish (T RB_BLACK ll d kd vd (T RB_BLACK (T RB_RED lrl e ke ve lrr) a k v t)) HN.
Qed.

Lemma refill_right fs c a k v s : refill_ok fs -> refill_ok (mk_frame false c a k v s :: fs).
Proof.
  intros IH h t n root p Hc. destruct (color s) eqn:Es.
  { assert (c = RB_BLACK) as ->.
    { inversion Hc; subst; [done|].
      match goal with H : rb _ _ s |- _ => by rewrite (rb_color _ _ _ H) in Es end. }
    destruct (refill_right_red fs a k v s) as [H|H]; [by apply H | by rewrite H in Es]. }
  intros Ht _ Hr (Hg & Ha & Hs & Hrc) Hp Hroot HN. apply at_root_tail in Hroot.
  cbn [f_addr f_sib f_cell f_left f_key f_val f_color plug fill fmap list_fmap f_entry] in *.
  assert (rb (S n) RB_BLACK s) as Hsb.
  { inversion Hc; subst; [|done].
    match goal with H : rb _ ?c s |- _ => by rewrite (rb_color _ _ _ H) in Es; subst c end. }
  destruct (rb_node _ _ Hsb) as (ll & d & kd & vd & lr & -> & Hll & Hlr).
  destruct Hs as (Hgd & Hd & Hrll & Hrlr). at_node HN a. at_node HN d. cbn [ptr occ] in *.
  cbn [remove_fixup f_entry f_addr f_left]. run.
  destruct c; [assert (rbctx (S n) RB_RED fs) as Hc' by by inversion Hc
              |assert (rbctx (S (S n)) RB_BLACK fs) as Hc' by by inversion Hc].
  - destruct (color ll) eqn:El.
    + destruct ll as [|cl x b kb vb y]; [done|]. cbn [color] in El. subst cl. inversion Hll; subst.
      destruct Hrll as (Hgb & Hb & Hrx & Hry). at_node HN b. cbn [ptr occ] in *.
      run. rewrite (rbctx_red_path _ _ Hc'). run.
      finish (T RB_RED (T RB_BLACK x b kb vb y) d kd vd (T RB_BLACK lr a k v t)) HN.
    + run. assert (fs <> []) as Hne by (intros ->; inversion Hc'). apply rbctx_weaken in Hc'.
      eapply (fixed_step _ _ _ _ _ (T RB_BLACK (T RB_RED ll d kd vd lr) a k v t));
        [| nodes_tac | intros x; cbn [occ]; lia |].
      * eapply stay_ok; [exact Hc' | rb_tac | map_rep | map_rep | done | done].
      * frame_tac.
  - destruct (color ll) eqn:El.
    + destruct ll as [|cl x b kb vb y]; [done|]. cbn [color] in El. subst cl. inversion Hll; subst.
      destruct Hrll as (Hgb & Hb & Hrx & Hry). at_node HN b. cbn [ptr occ] in *. run.
      finish (T RB_BLACK (T RB_BLACK x b kb vb y) d kd vd (T RB_BLACK lr a k v t)) HN.
    + run. again IH (T RB_BLACK (T RB_RED ll d kd vd lr) a k v t) HN.
Qed.

Lemma remove_fixup_ok fs : refill_ok fs.
Proof.
  induction fs as [|[[] c a k v s] fs IH]; [|by apply refill_left | by apply refill_right].
  intros h t n root p _ Ht Hne Hr _ _ _ _. specialize (Hne eq_refl).
  destruct t as [|c l a k v r]; [done|]. pose proof (rb_color _ _ _ Ht) as E. cbn [color] in E. subst c.
  destruct Hr as (Hg & Ha & Hl & Hr). cbn [fmap list_fmap remove_fixup ptr]. run. split.
  exists h, (T false l a k v r), n, RB_BLACK. by split_and!.
Qed.

(** ** The node that is cut off *)

(** The node [a] at the end of [fs] has the colour [c] and no children. *)
Lemma prune_ok (fs : list frame) (c : bool) a k v l r (h : store) root p :
  rbctx (if c then 0 else 1)%nat c fs -> fs <> [] -> rep_ctx h fs p -> Z.even p = true ->
  at_root fs root -> h !! a = Some (cell k v l r c) -> Z.even r = true ->
  (forall x, octx x fs <= 1)%nat ->
  fixed true h (plug fs E) (prune root (f_entry <$> fs) a h).
Proof.
  intros Hc Hne Hrc Hp Hroot Ha Hr HN. unfold prune. run. destruct c.
  - assert ((match f_entry <$> fs return @M K V Z with
             | mk_entry p MAP_CMP_LESS :: _ => rb_node_set_left p 0;; mret root
             | _ => crash
             end) = attach (f_entry <$> fs) (ptr (@E K V)) root) as -> by by inversion Hc; subst.
    apply rbctx_weaken in Hc. by eapply attach_ok; [exact Hc | constructor | ..].
  - by apply (remove_fixup_ok fs h E 0%nat root p); [| constructor | ..].
Qed.

(** The frame of the node becomes that of its successor [s]. *)
Lemma rbctx_rename n c (lw : list frame) b c0 a k v (t : tree) gs a' k' v' :
  rbctx n c (lw ++ mk_frame b c0 a k v t :: gs) -> rbctx n c (lw ++ mk_frame b c0 a' k' v' t :: gs).
Proof.
  revert n c. induction lw as [|f lw IH]; intros n c; cbn [app]; intros H; inversion H; subst;
    econstructor; eauto.
Qed.
Lemma rep_ctx_app h lw gs p :
  @rep_ctx K V h (lw ++ gs) p <-> rep_ctx h lw p /\ rep_ctx h gs (top lw p).
Proof.
  revert p. induction lw as [|f lw IH]; intros p; cbn [app rep_ctx]; [naive_solver|].
  rewrite IH, top_cons. naive_solver.
Qed.
Lemma rep_ctx_frame h h' fs p :
  (forall x, octx x fs <> 0%nat -> h' !! x = h !! x) -> rep_ctx h fs p -> @rep_ctx K V h' fs p.
Proof.
  revert p. induction fs as [|f fs IH]; intros p Hh; [done|]. intros (Hg & Ha & Hs & Hrc).
  cbn [octx] in Hh. split; [done|]. split; [rewrite Hh; [done | rewrite hit_refl; lia]|]. split.
  - assert (forall x, occ x (f_sib f) <> 0%nat -> h' !! x = h !! x) as Hh' by (intros x Hx; apply Hh; lia).
    clear -Hs Hh'. induction (f_sib f) as [|c l IHl b k v r IHr]; [done|]. destruct Hs as (H1 & H2 & H3 & H4).
    cbn [occ] in Hh'. split; [done|]. split; [rewrite Hh'; [done | rewrite hit_refl; lia]|].
    split; [apply IHl | apply IHr]; try done; intros x Hx; apply Hh'; lia.
  - apply IH; [|done]. intros x Hx. apply Hh. lia.
Qed.
End fixup.
