(* ===== verification/MapSearch.v ===== *)
(** * Searching in the tree

    [locate] is the descent that insertion, removal and lookup share: the
    path to the place of a key and the subtree there.  The loops of Map.v
    are shown to follow it; their bounds (the length of the array [path], the
    number of nodes) are enough because the tree is balanced and its nodes
    have distinct even addresses. *)

From Stdlib Require Import ZArith Lia Bool Sorted.
From stdpp Require Import base list sorting numbers gmap.
From S2P Require Import Prelude Map MapTree MapFix.

(** What the map relies on in a comparator: a total order, up to an
    equivalence. *)
Class CmpOk {K : Type} (cmp : K -> K -> map_cmp_t) : Prop := {
  cmp_refl : forall x, cmp x x = MAP_CMP_EQUAL;
  cmp_flip : forall x y, cmp x y = MAP_CMP_LESS <-> cmp y x = MAP_CMP_GREATER;
  cmp_trans : forall x y z, cmp x y = MAP_CMP_LESS -> cmp y z = MAP_CMP_LESS -> cmp x z = MAP_CMP_LESS;
  cmp_eq_l : forall x y z, cmp x y = MAP_CMP_EQUAL -> cmp x z = cmp y z
}.

Lemma map_cmp_of_spec a b :
  map_cmp_of (b2z (b <? a) - b2z (a <? b)) =
  if a <? b then MAP_CMP_LESS else if a =? b then MAP_CMP_EQUAL else MAP_CMP_GREATER.
Proof.
  unfold map_cmp_of, b2z. destruct (Z.ltb_spec a b), (Z.ltb_spec b a), (Z.eqb_spec a b); (done || lia).
Qed.
Ltac cmp_tac := intros; rewrite ?map_cmp_of_spec in *; repeat case_match; try done; try (split; intros); (done || lia || congruence).
#[global] Instance map_cmp_int_ok : CmpOk map_cmp_int.
Proof. split; unfold map_cmp_int; cbv zeta; cmp_tac. Qed.
#[global] Instance map_cmp_uint_ok : CmpOk map_cmp_uint.
Proof. split; unfold map_cmp_uint; cbv zeta; cmp_tac. Qed.

(** ** Height *)

Section height.
Context {K V : Type}.
Notation store := (store K V).
Notation tree := (tree K V).
Notation frame := (frame K V).
Implicit Types (t : tree) (h : store) (fs : list frame).

Fixpoint height (t : tree) : nat :=
  match t with E => 0%nat | T _ l _ _ _ r => S (height l `max` height r) end.

Lemma rb_height n c t : rb n c t -> (height t <= 2 * n + if c then 1 else 0)%nat.
Proof. induction 1 as [|n l a k v r _ IHl _ IHr|n c l a k v r _ IHl _ IHr]; cbn [height];
  unfold RB_RED, RB_BLACK in *; [lia | lia|]. destruct c; lia. Qed.
Lemma rb_count n c t : rb n c t -> 2 ^ Z.of_nat n - 1 <= Z.of_nat (length (nodes t)).
Proof.
  induction 1 as [|n l a k v r _ IHl _ IHr|n c l a k v r _ IHl _ IHr]; cbn [nodes];
    rewrite ?length_app; cbn [length]; [done | lia|].
  rewrite Nat2Z.inj_succ, Z.pow_succ_r by lia. lia.
Qed.
Lemma height_count t : (height t <= length (nodes t))%nat.
Proof.
  induction t as [|c l IHl a k v r IHr]; cbn [nodes height]; [done|].
  rewrite length_app. cbn [length]. lia.
Qed.

(** ** The addresses of a tree *)

Lemma occ_elem x t : occ x t <> 0%nat <-> x ∈ (nodes t).*1.
Proof.
  induction t as [|c l IHl a k v r IHr]; cbn [occ nodes].
  - split; [done|]. by intros H%not_elem_of_nil.
  - rewrite fmap_app, fmap_cons, elem_of_app, elem_of_cons, <- IHl, <- IHr. cbn [fst].
    destruct (Z.eq_dec a x) as [->|Hne]; [rewrite hit_refl | rewrite hit_0 by done]; split; (lia || naive_solver lia).
Qed.
Lemma occ_nodup t : (forall x, occ x t <= 1)%nat -> NoDup (nodes t).*1.
Proof.
  induction t as [|c l IHl a k v r IHr]; cbn [occ nodes]; intros Hx; [constructor|].
  rewrite fmap_app, fmap_cons, NoDup_app, NoDup_cons. cbn [fst]. split_and!.
  - apply IHl. intros x. specialize (Hx x). lia.
  - intros x Hl Hr. apply occ_elem in Hl. apply elem_of_cons in Hr as [->|Hr];
      [specialize (Hx a); rewrite hit_refl in Hx; lia|].
    apply occ_elem in Hr. specialize (Hx x). lia.
  - intros Ha%occ_elem. specialize (Hx a). rewrite hit_refl in Hx. lia.
  - apply IHr. intros x. specialize (Hx x). lia.
Qed.
Lemma rep_elem h t a k v :
  rep h t -> (a, (k, v)) ∈ nodes t -> good a /\ exists l r c, h !! a = Some (cell k v l r c) /\ Z.even r = true.
Proof.
  induction t as [|c l IHl b k' v' r IHr]; cbn [nodes rep]; [by intros _ H%not_elem_of_nil|].
  intros (Hg & Hb & Hl & Hr). rewrite elem_of_app, elem_of_cons. intros [H|[[= -> -> ->]|H]]; [by apply IHl | | by apply IHr].
  split; [done|]. eexists _, _, _. split; [done|]. by apply (ptr_even h).
Qed.

Lemma fresh_occ h t a : rep h t -> h !! a = None -> occ a t = 0%nat.
Proof.
  intros Hr Ha. destruct (Nat.eq_dec (occ a t) 0%nat) as [|Hne]; [done|]. exfalso.
  apply occ_elem, list_elem_of_fmap in Hne as ([b [k v]] & -> & Hin).
  destruct (rep_elem _ _ _ _ _ Hr Hin) as (_ & ? & ? & ? & Hl & _). cbn [fst] in *. congruence.
Qed.

(** The array [path] is long enough. *)
Lemma evens_bound (l : list Z) :
  NoDup l -> Forall good l -> Z.of_nat (length l) <= 2 ^ 63 - 1.
Proof.
  intros Hnd Hg. set (m := 2 ^ 63 - 1).
  assert (0 <= m) by done.
  assert ((fun x => x / 2) <$> l ⊆+ seqZ 1 m) as Hs.
  { apply NoDup_submseteq.
    - apply NoDup_fmap_2_strong; [|done]. intros x y Hx Hy Hxy.
      rewrite Forall_forall in Hg. destruct (Hg x Hx) as [_ Ex], (Hg y Hy) as [_ Ey].
      apply Zeven_bool_iff, Zeven_div2 in Ex. apply Zeven_bool_iff, Zeven_div2 in Ey.
      rewrite !Z.div2_div in *. lia.
    - intros x (y & -> & Hy)%list_elem_of_fmap. rewrite Forall_forall in Hg.
      destruct (Hg y Hy) as [? Ey]. apply Zeven_bool_iff, Zeven_div2 in Ey. rewrite Z.div2_div in Ey.
      apply elem_of_seqZ. unfold m. change (2 ^ 64) with (2 * 2 ^ 63) in *. lia. }
  apply submseteq_length in Hs. rewrite length_fmap, length_seqZ in Hs. lia.
Qed.
Lemma rb_depth n h t :
  rb n RB_BLACK t -> rep h t -> (forall x, occ x t <= 1)%nat ->
  (height t < RB_MAX_DEPTH - 1)%nat /\ Z.of_nat (length (nodes t)) < 2 ^ 63.
Proof.
  intros Hb Hr Hn. apply occ_nodup, evens_bound in Hn.
  - rewrite length_fmap in Hn. split; [|lia]. pose proof (rb_count _ _ _ Hb).
    pose proof (rb_height _ _ _ Hb) as Hh. cbn [RB_BLACK] in Hh.
    assert (Z.of_nat n < 64) as Hn64.
    { apply (Z.pow_lt_mono_r_iff 2); [lia..|]. change (2 ^ 64) with (2 * 2 ^ 63). lia. }
    unfold RB_MAX_DEPTH, RB_BLACK in *. lia.
  - rewrite Forall_forall. intros x ([? [k v]] & -> & Hx)%list_elem_of_fmap.
    by destruct (rep_elem h t _ k v Hr Hx).
Qed.
End height.

(** ** The descent *)

Section locate.
Context {K V : Type} (cmp : K -> K -> map_cmp_t).
Notation store := (store K V).
Notation tree := (tree K V).
Notation frame := (frame K V).
Implicit Types (t : tree) (h : store) (fs gs : list frame).

Fixpoint locate (key : K) fs t : list frame * tree :=
  match t with
  | E => (fs, E)
  | T c l a k v r =>
      match cmp key k with
      | MAP_CMP_LESS => locate key (mk_frame true c a k v r :: fs) l
      | MAP_CMP_GREATER => locate key (mk_frame false c a k v l :: fs) r
      | MAP_CMP_EQUAL => (fs, t)
      end
  end.

Lemma locate_plug key fs t gs s : locate key fs t = (gs, s) -> plug gs s = plug fs t.
Proof.
  revert fs. induction t as [|c l IHl a k v r IHr]; cbn [locate]; intros fs; [by intros [= <- <-]|].
  destruct (cmp key k); [intros H; by rewrite (IHl _ H) | by intros [= <- <-] | intros H; by rewrite (IHr _ H)].
Qed.
Lemma locate_found key fs t gs c l a k v r :
  locate key fs t = (gs, T c l a k v r) -> cmp key k = MAP_CMP_EQUAL.
Proof.
  revert fs. induction t as [|c' l' IHl a' k' v' r' IHr]; cbn [locate]; intros fs; [done|].
  destruct (cmp key k') eqn:Ec; [apply IHl | | apply IHr]. intros [= <- <- <- <- <- <- <-]. done.
Qed.
(** The place of the key is between the keys to its left and to its right. *)
Definition above (key : K) (l : list (Z * (K * V))) : Prop :=
  Forall (fun x => cmp key x.2.1 = MAP_CMP_GREATER) l.
Definition below (key : K) (l : list (Z * (K * V))) : Prop :=
  Forall (fun x => cmp key x.2.1 = MAP_CMP_LESS) l.
Definition sorted (l : list (Z * (K * V))) : Prop :=
  StronglySorted (fun x y => cmp x.2.1 y.2.1 = MAP_CMP_LESS) l.

Context `{!CmpOk cmp}.

Lemma cmp_flip_ge x y : cmp x y = MAP_CMP_GREATER <-> cmp y x = MAP_CMP_LESS.
Proof. by rewrite cmp_flip. Qed.

Lemma sorted_mid l x r :
  sorted (l ++ x :: r) <-> sorted l /\ sorted r /\
  Forall (fun y => cmp y.2.1 x.2.1 = MAP_CMP_LESS) l /\ Forall (fun y => cmp x.2.1 y.2.1 = MAP_CMP_LESS) r /\
  (forall y z, y ∈ l -> z ∈ r -> cmp y.2.1 z.2.1 = MAP_CMP_LESS).
Proof.
  unfold sorted. rewrite StronglySorted_app, StronglySorted_cons, !Forall_forall. split.
  - intros (H & Hl & Hx & Hr). split_and!; try done.
    + intros y Hy. apply H; [done | by left].
    + intros y z Hy Hz. apply H; [done | by right].
  - intros (Hl & Hr & H1 & H2 & H3). split_and!; try done.
    intros y z Hy [->|Hz]%elem_of_cons; auto.
Qed.

Lemma locate_between key fs t gs s :
  locate key fs t = (gs, s) -> sorted (nodes t) -> above key (before fs) -> below key (after fs) ->
  above key (before gs) /\ below key (after gs).
Proof.
  revert fs. induction t as [|c l IHl a k v r IHr]; cbn [locate nodes]; intros fs; [by intros [= <- <-]|].
  intros Hloc (Hl & Hr & H1 & H2 & _)%sorted_mid Hb Ha. cbn [snd fst] in *.
  destruct (cmp key k) eqn:Ek; [apply (IHl _ Hloc) | by injection Hloc as <- <- | apply (IHr _ Hloc)];
    try done; cbn [before after f_left f_sib f_addr f_key f_val app]; rewrite ?app_nil_r; try done.
  - unfold below. rewrite Forall_cons, Forall_app. split; [done|]. split; [|done].
    eapply Forall_impl; [exact H2|]. intros x Hx. by apply (cmp_trans _ k).
  - unfold above. rewrite !Forall_app, Forall_singleton. split_and!; [done| |done].
    eapply Forall_impl; [exact H1|]. intros x Hx. apply cmp_flip_ge. apply (cmp_trans _ k); [done|].
    by apply cmp_flip_ge.
Qed.

(** A key that is in the tree is found at its node. *)
Lemma locate_elem t a k v :
  sorted (nodes t) -> (a, (k, v)) ∈ nodes t ->
  exists gs c l r, locate k [] t = (gs, T c l a k v r) /\ plug gs (T c l a k v r) = t.
Proof.
  intros Hs Hin. destruct (locate k [] t) as [gs s] eqn:Hloc.
  pose proof (locate_plug _ _ _ _ _ Hloc) as Hp. cbn [plug] in Hp.
  destruct (locate_between _ _ _ _ _ Hloc Hs) as [Hb Ha]; [constructor..|].
  rewrite <- Hp, nodes_plug, !elem_of_app in Hin. unfold above, below in *. rewrite Forall_forall in Hb, Ha.
  destruct Hin as [Hin|[Hin|Hin]].
  - apply Hb in Hin. cbn [fst snd] in Hin. by rewrite cmp_refl in Hin.
  - destruct s as [|c l a' k' v' r]; [by apply not_elem_of_nil in Hin|].
    assert (cmp k k' = MAP_CMP_EQUAL) as Ek by by eapply locate_found.
    assert (sorted (nodes (T c l a' k' v' r))) as Hsm.
    { rewrite <- Hp, nodes_plug in Hs. by apply StronglySorted_app_1_r, StronglySorted_app_1_l in Hs. }
    cbn [nodes] in Hin, Hsm. apply sorted_mid in Hsm as (_ & _ & H1 & H2 & _). rewrite Forall_forall in H1, H2.
    cbn [fst snd] in *. apply elem_of_app in Hin as [Hin|[[= -> -> ->]|Hin]%elem_of_cons].
    + apply H1 in Hin. cbn [fst snd] in Hin. congruence.
    + eauto 10.
    + apply H2 in Hin. cbn [fst snd] in Hin. apply cmp_flip in Hin. congruence.
  - apply Ha in Hin. cbn [fst snd] in Hin. by rewrite cmp_refl in Hin.
Qed.
End locate.

(** ** The loops follow the descent *)

Section loops.
Context {K V : Type} (cmp : K -> K -> map_cmp_t).
Notation store := (store K V).
Notation tree := (tree K V).
Notation frame := (frame K V).
Implicit Types (t : tree) (h : store) (fs gs : list frame).

(** The test for [NULL], and the node behind a pointer. *)
Lemma rep_null {A} h t (x y : A) :
  rep h t -> (if ptr t =? 0 then x else y) = match t with E => x | _ => y end.
Proof. intros H. rewrite (ptr_0 h t H). by destruct t. Qed.

Lemma insert_descend_ok key fs t depth h :
  rep h t -> (height t < depth)%nat ->
  insert_descend depth cmp key (f_entry <$> fs) (ptr t) h =
  Some (match locate cmp key fs t with
        | (gs, E) => Position (f_entry <$> gs)
        | (_, T _ _ a _ _ _) => Existing a
        end, h).
Proof.
  revert fs depth. induction t as [|c l IHl a k v r IHr]; intros fs [|depth] Ht Hd; try (cbn [height] in Hd; lia); [done|].
  cbn [insert_descend height] in *. rewrite (rep_null _ _ _ _ Ht). destruct Ht as (Hg & Ha & Hl & Hr). cbn [ptr].
  erewrite bind_deref by exact Ha. cbn [node_key cell locate]. destruct (cmp key k); [run | done | run].
  - apply (IHl (mk_frame true c a k v r :: fs)); [done | lia].
  - apply (IHr (mk_frame false c a k v l :: fs)); [done | lia].
Qed.

Fixpoint leftpath fs t : list frame :=
  match t with E => fs | T c l a k v r => leftpath (mk_frame true c a k v r :: fs) l end.

Lemma succ_descend_ok fs t fuel h :
  rep h t -> (height t < fuel)%nat ->
  succ_descend fuel (f_entry <$> fs) (ptr t) h = Some (f_entry <$> leftpath fs t, h).
Proof.
  revert fs fuel. induction t as [|c l IHl a k v r IHr]; intros fs [|fuel] Ht Hd; try (cbn [height] in Hd; lia); [done|].
  cbn [succ_descend height] in *. rewrite (rep_null _ _ _ _ Ht). destruct Ht as (Hg & Ha & Hl & Hr). cbn [ptr].
  run. apply (IHl (mk_frame true c a k v r :: fs)); [done | lia].
Qed.
Lemma remove_descend_ok key fs t fuel h :
  rep h t -> (height t < fuel)%nat ->
  remove_descend fuel cmp key (f_entry <$> fs) (ptr t) h =
  match locate cmp key fs t with
  | (gs, T _ _ a _ _ r) => Some (f_entry <$> gs, a, f_entry <$> leftpath [] r, h)
  | (_, E) => None
  end.
Proof.
  revert fs fuel. induction t as [|c l IHl a k v r IHr]; intros fs [|fuel] Ht Hd; try (cbn [height] in Hd; lia); [done|].
  cbn [remove_descend height] in *. rewrite (rep_null _ _ _ _ Ht). destruct Ht as (Hg & Ha & Hl & Hr). cbn [ptr].
  erewrite bind_deref by exact Ha. cbn [node_key cell locate]. destruct (cmp key k); run.
  - apply (IHl (mk_frame true c a k v r :: fs)); [done | lia].
  - unfold mbind, M_bind. change (@nil rb_path_entry_t) with (f_entry (K := K) (V := V) <$> []).
    by rewrite succ_descend_ok by (done || lia).
  - apply (IHr (mk_frame false c a k v l :: fs)); [done | lia].
Qed.
Lemma find_node_ok key fs t fuel h :
  rep h t -> (height t < fuel)%nat ->
  find_node fuel cmp key (ptr t) h = Some (ptr (locate cmp key fs t).2, h).
Proof.
  revert fs fuel. induction t as [|c l IHl a k v r IHr]; intros fs [|fuel] Ht Hd; try (cbn [height] in Hd; lia); [done|].
  cbn [find_node height] in *. rewrite (rep_null _ _ _ _ Ht). destruct Ht as (Hg & Ha & Hl & Hr). cbn [ptr].
  erewrite bind_deref by exact Ha. cbn [node_key node_left cell locate]. destruct (cmp key k); [| done | run].
  - apply IHl; [done | lia].
  - apply IHr; [done | lia].
Qed.

(** The path to the smallest key of a tree. *)
Lemma leftpath_plug fs t : plug (leftpath fs t) E = plug fs t.
Proof. revert fs. induction t as [|c l IHl a k v r IHr]; intros fs; [done|]. apply IHl. Qed.
Lemma leftpath_app fs t : leftpath fs t = leftpath [] t ++ fs.
Proof.
  revert fs. induction t as [|c l IHl a k v r IHr]; intros fs; [done|]. cbn [leftpath].
  rewrite IHl, (IHl [_]). by rewrite <- app_assoc.
Qed.
Lemma leftpath_left t : Forall (fun f => f.(f_left) = true) (leftpath [] t).
Proof.
  induction t as [|c l IHl a k v r IHr]; [constructor|]. cbn [leftpath]. rewrite leftpath_app.
  apply Forall_app. split; [done|]. by constructor.
Qed.
Lemma left_before fs : Forall (fun f => f.(f_left) = true) fs -> before fs = [].
Proof. induction 1 as [|f fs Hf _ IH]; cbn [before]; [done|]. by rewrite Hf, IH. Qed.

(** The nodes of a tree are no more than those of the store. *)
Lemma rep_size h t : rep h t -> (forall x, occ x t <= 1)%nat -> (length (nodes t) <= size h)%nat.
Proof.
  intros Hr Hn. apply occ_nodup in Hn. rewrite <- size_dom, <- (length_fmap fst).
  rewrite <- (size_list_to_set (C := gset Z)) by done.
  apply subseteq_size. intros x (y & -> & Hy)%elem_of_list_to_set%list_elem_of_fmap. destruct y as [x [k v]].
  destruct (rep_elem h t x k v Hr Hy) as (_ & l & r & c & Hx & _). by apply elem_of_dom_2 in Hx.
Qed.
Lemma height_fuel h t : rep h t -> (forall x, occ x t <= 1)%nat -> (height t < S (size h))%nat.
Proof. intros Hr Hn. pose proof (rep_size h t Hr Hn). pose proof (height_count t). lia. Qed.
End loops.
