(* ===== verification/MapSpec.v ===== *)
(** * The map is a sorted association list

    [repr] relates a map and its store to the list of its entries; every
    operation is described by what it does to this list. *)

From Stdlib Require Import ZArith Lia Bool Sorted.
From stdpp Require Import base list sorting numbers gmap.
From S2P Require Import Prelude Map MapTree MapFix MapSearch.

Section remove.
Context {K V : Type}.
Notation store := (store K V).
Notation tree := (tree K V).
Notation frame := (frame K V).
Implicit Types (t : tree) (h : store) (fs gs lw : list frame).

Lemma top_even h fs p : rep_ctx h fs p -> Z.even p = true -> Z.even (top fs p) = true.
Proof.
  revert p. induction fs as [|f fs IH]; intros p; [done|]. intros ([_ Hf] & _ & _ & Hrc) Hp.
  rewrite top_cons. by apply IH.
Qed.

(** The successor [s] takes the place of the node [a]. *)
Lemma swap_ok h lw gs c a k v l s ks vs cs root :
  let F := mk_frame false c a k v l in let F' := mk_frame false c s ks vs l in
  rep_ctx h (lw ++ F :: gs) s -> good s -> h !! s = Some (cell ks vs 0 0 cs) ->
  at_root (F :: gs) root -> (forall x, hit s x + octx x (lw ++ F :: gs) <= 1)%nat ->
  exists h', swap_successor root (f_entry <$> gs) a s h = Some (top gs s, h') /\
    rep_ctx h' (lw ++ F' :: gs) s /\
    h' !! a = Some (cell k v (ptr l) (top lw s) cs) /\
    (forall x, (hit s x + octx x (lw ++ F :: gs))%nat = 0%nat -> h' !! x = h !! x).
Proof.
  intros F F' Hrc Hgs Hs Hroot HN. apply at_root_tail in Hroot.
  apply rep_ctx_app in Hrc as [Hlw (Hga & Ha & Hl & Hgs')].
  pose proof (top_even _ _ _ Hlw (proj2 Hgs)) as Hev.
  cbn [f_addr f_cell f_left f_sib f_key f_val f_color F] in *.
  assert (forall x, hit s x + (octx x lw + (hit a x + occ x l + octx x gs)) <= 1)%nat as HN'.
  { intros x. specialize (HN x). rewrite octx_app in HN. exact HN. }
  at_node HN' a. at_node HN' s. unfold swap_successor. run.
  match goal with |- context [attach _ _ _ ?h0] => set (h1 := h0) end.
  destruct (attach_run gs s root h1 a) as (h' & E & H1 & H3); try done.
  { unfold h1. map_rep. } { map_ev. } { intros x. specialize (HN' x). lia. }
  exists h'. rewrite E. split; [done|].
  assert (forall x, octx x gs = 0%nat -> hit a x = 0%nat -> hit s x = 0%nat -> h' !! x = h !! x) as Hfr.
  { intros x Hx Hax Hsx. rewrite H3 by (by left). unfold h1. repeat rewrite lookup_insert_ne by map_ne. done. }
  split; [apply rep_ctx_app; split|split].
  - eapply rep_ctx_frame; [|exact Hlw]. intros x Hx. specialize (HN' x). apply Hfr; lia.
  - cbn [rep_ctx f_addr f_cell f_left f_sib f_key f_val f_color F']. split; [done|].
    split; [rewrite H3 by (left; lia); unfold h1; map_lk|]. split; [|done].
    assert (rep h1 l) as Hl1 by (unfold h1; map_rep).
    eapply attach_rep; [exact E | eauto | exact Hl1|]. intros x. specialize (HN' x). lia.
  - rewrite H3 by (left; lia). unfold h1. map_lk.
  - intros x. rewrite octx_app. cbn [octx f_addr f_sib F]. intros Hx. apply Hfr; lia.
Qed.

Lemma rb_0 c t : rb 0 c t -> c = RB_BLACK -> t = E.
Proof. by inversion 1. Qed.
(** Nodes without a left child have no right child, and nodes without a right
    child at most a red one. *)
Lemma rb_no_left n c c' a k v r :
  rb n c (T c' E a k v r : tree) -> r = E /\ c = c' /\ n = (if c' then 0 else 1)%nat.
Proof.
  inversion 1 as [|? ? ? ? ? ? Hl Hr|? c0 ? ? ? ? ? Hl Hr]; subst; inversion Hl; subst;
    by rewrite (rb_0 _ _ Hr eq_refl).
Qed.
Lemma rb_no_right n c c' l a k v :
  rb n c (T c' l a k v E : tree) ->
  c = c' /\ n = (if c' then 0 else 1)%nat /\ (l = E \/ c' = RB_BLACK /\ rb 0 RB_RED l).
Proof.
  inversion 1 as [|? ? ? ? ? ? Hl Hr|? c0 ? ? ? ? ? Hl Hr]; subst; inversion Hr; subst.
  - rewrite (rb_0 _ _ Hl eq_refl). split_and!; by try left.
  - split_and!; [done..|]. destruct c0; [by right | left; by apply (rb_0 RB_BLACK)].
Qed.

(** What is left of the tree [t0] without its node [a]. *)
Definition removed (h : store) (t0 : tree) (a : Z) (e : K * V) (r : option (Z * store)) : Prop :=
  exists h' t n, r = Some (ptr t, h') /\ rep h' t /\ rb n RB_BLACK t /\
    (exists l1 l2, nodes t0 = l1 ++ (a, e) :: l2 /\ nodes t = l1 ++ l2) /\
    (forall x, occ x t0 = (hit a x + occ x t)%nat) /\
    (forall x, occ x t0 = 0%nat -> h' !! x = h !! x).

Lemma removed_fixed h h' t0 t a e r :
  fixed true h' t r -> (exists l1 l2, nodes t0 = l1 ++ (a, e) :: l2 /\ nodes t = l1 ++ l2) ->
  (forall x, occ x t0 = (hit a x + occ x t)%nat) -> (forall x, occ x t0 = 0%nat -> h' !! x = h !! x) ->
  removed h t0 a e r.
Proof.
  intros [(h2 & t2 & n & c & -> & H1 & H2 & H3 & H4 & H5 & H6)] Hn Ho Hh.
  rewrite (H6 eq_refl) in H2. exists h2, t2, n. split_and!; try done.
  - by rewrite H3.
  - intros x. by rewrite Ho, H4.
  - intros x Hx. rewrite H5, Hh; [done..|]. specialize (Ho x). lia.
Qed.

(** The node has no successor below it. *)
Lemma remove_leaf h gs c l a k v root N :
  let t := T c l a k v E in
  rep h (plug gs t) -> rb N RB_BLACK (plug gs t) -> at_root gs root ->
  (forall x, occ x (plug gs t) <= 1)%nat ->
  removed h (plug gs t) a (k, v)
    ((left ← rb_node_get_left a;
      if nz left then
        red ← rb_node_get_color a;
        assert (negb red);;
        red ← rb_node_get_color left;
        assert red;;
        rb_node_set_black left;;
        attach (f_entry <$> gs) left root
      else
        match f_entry <$> gs with
        | [] => mret 0
        | _ => prune root (f_entry <$> gs) a
        end) h).
Proof.
  intros t Hr Hb Hroot HN. destruct (rep_unplug _ _ _ Hr) as [(Hg & Ha & Hl & _) Hrc].
  destruct (rb_unplug _ _ _ Hb) as (n & c1 & Hc & Ht).
  destruct (rb_no_right _ _ _ _ _ _ _ Ht) as (-> & -> & Hcase).
  assert (forall x, octx x gs + (hit a x + occ x l) <= 1)%nat as HN'.
  { intros x. specialize (HN x). rewrite occ_plug in HN. cbn [occ t] in HN. lia. }
  assert (forall t', nodes l = nodes t' -> exists l1 l2, nodes (plug gs t) = l1 ++ (a, (k, v)) :: l2 /\
    nodes (plug gs t') = l1 ++ l2) as Hnodes.
  { intros t' E. rewrite !nodes_plug. cbn [nodes t]. rewrite E.
    exists (before gs ++ nodes t'), (after gs). split; by rewrite <- !app_assoc. }
  cbn [ptr] in *. run. destruct Hcase as [->|[-> Hlr]].
  - cbn [ptr]. change (nz 0) with false. cbv iota. destruct gs as [|g gs].
    + exists h, E, 0%nat. split_and!; [done | done | constructor | | | done].
      * by exists [], [].
      * intros x. cbn [plug occ t]. lia.
    + eapply (removed_fixed h h); [| by apply (Hnodes E) | | done].
      * apply (prune_ok (g :: gs) c a k v 0 0 h root a); try done; [map_ev|].
        intros x. specialize (HN' x). lia.
      * intros x. rewrite !occ_plug. cbn [occ t]. lia.
  - destruct l as [|cl ll b kb vb lr]; [by inversion Hlr|]. pose proof (rb_color _ _ _ Hlr) as E.
    cbn [color] in E. subst cl. destruct Hl as (Hgb & Hlb & Hll & Hlr').
    assert (nz b = true) as Hnz by (destruct Hgb; unfold nz; lia). cbn [ptr occ] in *. rewrite Hnz.
    at_node HN' a. at_node HN' b. cbn [negb RB_BLACK] in *. run. cbn [negb]. run. inversion Hlr; subst.
    eapply (removed_fixed h _ _ (plug gs (T RB_BLACK ll b kb vb lr))).
    + eapply (attach_ok gs (T RB_BLACK ll b kb vb lr));
        [exact Hc | rb_tac | map_rep | map_rep | map_ev | done |].
      intros x. specialize (HN' x). cbn [occ]. lia.
    + by apply Hnodes.
    + intros x. rewrite !occ_plug. cbn [occ t]. lia.
    + intros x. rewrite occ_plug. cbn [occ t]. intros Hx. by rewrite lookup_insert_ne by map_ne.
Qed.

(** The node changes places with its successor, at the end of the path [lw]
    of left children. *)
Lemma remove_inner h lw gs c l a k v cs s ks vs rs root N :
  let F := mk_frame false c a k v l in let Sn := T cs E s ks vs rs in
  let t := plug (lw ++ F :: gs) Sn in
  rep h t -> rb N RB_BLACK t -> at_root (F :: gs) root -> before lw = [] ->
  (forall x, occ x t <= 1)%nat ->
  removed h t a (k, v)
    ((r ← swap_successor root (f_entry <$> gs) a s;
      prune r ((f_entry <$> lw) ++ mk_entry s MAP_CMP_GREATER :: (f_entry <$> gs)) a) h).
Proof.
  intros F Sn t Hr Hb Hroot Hlw HN. set (F' := mk_frame false c s ks vs l).
  destruct (rep_unplug _ _ _ Hr) as [(Hg & Hs & _ & _) Hrc].
  destruct (rb_unplug _ _ _ Hb) as (n & c1 & Hc & Ht).
  destruct (rb_no_left _ _ _ _ _ _ _ Ht) as (-> & -> & ->).
  assert (forall x, hit s x + octx x (lw ++ F :: gs) <= 1)%nat as HN'.
  { intros x. specialize (HN x). unfold t in HN. rewrite occ_plug in HN. cbn [occ Sn] in HN. lia. }
  destruct (swap_ok h lw gs c a k v l s ks vs cs root Hrc Hg Hs Hroot HN') as (h1 & E1 & Hrc1 & Ha1 & Hfr).
  unfold mbind, M_bind. rewrite E1.
  assert ((f_entry <$> lw) ++ mk_entry s MAP_CMP_GREATER :: (f_entry <$> gs) =
    f_entry <$> (lw ++ F' :: gs)) as -> by by rewrite fmap_app.
  apply (removed_fixed h h1 t (plug (lw ++ F' :: gs) E)).
  - apply (prune_ok _ cs a k v (ptr l) (top lw s) _ _ s); try done.
    + by apply (rbctx_rename _ _ _ _ _ a k v).
    + by destruct lw.
    + map_ev.
    + intros q _. unfold top. rewrite last_app, last_cons. by destruct (last gs).
    + apply (top_even h1); [by apply rep_ctx_app in Hrc1 as [? _] | map_ev].
    + intros x. specialize (HN' x). rewrite octx_app in *. cbn [octx f_addr f_sib F F'] in *. lia.
  - exists (before gs ++ nodes l), ((s, (ks, vs)) :: after lw ++ after gs). unfold t.
    rewrite !nodes_plug. cbn [nodes Sn]. clear -Hlw.
    assert (forall f, before (lw ++ f :: gs) = before (f :: gs) ++ before lw /\
      after (lw ++ f :: gs) = after lw ++ after (f :: gs)) as Happ.
    { intros f. clear Hlw. induction lw as [|g lw IH]; cbn [app]; [by rewrite app_nil_r|].
      cbn [before after]. destruct IH as [-> ->]. cbn [before after]. by rewrite <- !app_assoc. }
    rewrite (proj1 (Happ F)), (proj2 (Happ F)), (proj1 (Happ F')), (proj2 (Happ F')), Hlw.
    cbn [before after f_left f_sib f_addr f_key f_val F F' app].
    split; repeat (rewrite <- ?app_assoc; cbn [app]); done.
  - intros x. unfold t. rewrite !occ_plug, !octx_app. cbn [octx f_addr f_sib F F' occ Sn]. lia.
  - intros x. unfold t. rewrite occ_plug. cbn [occ Sn]. intros Hx. apply Hfr. fold F. lia.
Qed.
End remove.

Section rb_remove.
Context {K V : Type}.
Notation store := (store K V).
Notation tree := (tree K V).
Notation frame := (frame K V).
Implicit Types (t : tree) (h : store) (fs gs lw : list frame).

Lemma at_root_plug h fs t root : rep h (plug fs t) -> ptr (plug fs t) = root -> at_root fs root.
Proof.
  intros Hr <- q Hne. destruct (rep_unplug _ _ _ Hr) as [Ht Hc].
  destruct (rep_plug _ _ _ Hc Ht) as [_ ->]. unfold top.
  destruct (last fs) as [f|] eqn:E; [done | by apply last_None in E].
Qed.

Lemma rb_remove_ok h (m : map_internal K) t N a k v `{!CmpOk m.(comparator)} :
  rep h t -> ptr t = m.(root) -> rb N RB_BLACK t -> sorted m.(comparator) (nodes t) ->
  (forall x, occ x t <= 1)%nat -> (a, (k, v)) ∈ nodes t ->
  exists r, rb_remove m a h = (fun p => (set_root m p.1, p.2)) <$> r /\ removed h t a (k, v) r.
Proof.
  intros Hr Hroot Hb Hs HN Hin. destruct (rep_elem _ _ _ _ _ Hr Hin) as (_ & pl & pr & ca & Ha & _).
  destruct (rb_depth _ _ _ Hb Hr HN) as [Hdepth _].
  destruct (locate_elem m.(comparator) t a k v Hs Hin) as (gs & c & l & r & Hloc & <-).
  unfold rb_remove. erewrite bind_deref by exact Ha. cbn [node_key cell]. rewrite <- Hroot.
  change (@nil rb_path_entry_t) with (f_entry (K := K) (V := V) <$> []).
  unfold mbind at 1, M_bind at 1. rewrite remove_descend_ok, Hloc by (done || (unfold RB_MAX_DEPTH in *; lia)).
  rewrite Z.eqb_refl, bind_assert. pose proof (at_root_plug _ _ _ _ Hr eq_refl) as Hat.
  set (body := match f_entry <$> leftpath [] r with [] => _ | _ => _ end).
  assert (removed h (plug gs (T c l a k v r)) a (k, v) (body h)) as Hrem.
  { unfold body. destruct r as [|c0 l0 a0 k0 v0 r0].
    - by apply (remove_leaf h gs c l a k v _ N).
    - set (r := T c0 l0 a0 k0 v0 r0) in *.
      destruct (leftpath [] r) as [|[b0 cs s ks vs rs] lw] eqn:El.
      { pose proof (leftpath_plug [] r) as Hp. by rewrite El in Hp. }
      pose proof (leftpath_left r) as Hleft. rewrite El in Hleft.
      apply Forall_cons in Hleft as [Hb0 Hleft]. cbn [f_left] in Hb0. subst b0.
      pose proof (leftpath_plug [] r) as Hp. rewrite El in Hp. cbn [plug fill f_left f_color f_addr f_key f_val f_sib] in Hp.
      assert (plug gs (T c l a k v r) = plug (lw ++ mk_frame false c a k v l :: gs) (T cs E s ks vs rs)) as Et
        by by rewrite plug_app, Hp.
      pose proof (at_root_plug h (mk_frame false c a k v l :: gs) r (ptr (plug gs (T c l a k v r)))) as Hat'.
      revert Hr Hb HN Hat Hat'. rewrite Et. intros Hr Hb HN Hat Hat'.
      apply (remove_inner h lw gs c l a k v cs s ks vs rs _ N); try done.
      + apply Hat'; [|]; cbn [plug fill f_left f_color f_addr f_key f_val f_sib]; by rewrite Et.
      + by apply left_before. }
  exists (body h). split; [|done]. unfold mbind, M_bind. by destruct (body h) as [[p h']|].
Qed.
End rb_remove.
