(* ===== verification/MapRefine.v ===== *)
(** * The map refines a sorted association list

    [repr h m l]: the map [m] in the store [h] holds the entries [l], in the
    order of their keys.  One lemma per operation describes its effect on
    [l]; [map_refines] runs any sequence of operations on the tree and on
    the specification [spec_op]. *)

From Stdlib Require Import ZArith Lia Bool Sorted.
From stdpp Require Import base list sorting numbers gmap.
From S2P Require Import Prelude Map MapTree MapFix MapSearch MapSpec.

(** ** The specification *)

Section spec.
Context {K V : Type} (cmp : K -> K -> map_cmp_t).

Definition same (k : K) (e : K * V) : bool :=
  match cmp k e.1 with MAP_CMP_EQUAL => true | _ => false end.
Definition al_lookup (k : K) (s : list (K * V)) : option V := snd <$> List.find (same k) s.
Definition al_delete (k : K) (s : list (K * V)) : list (K * V) := List.filter (fun e => negb (same k e)) s.
Fixpoint al_insert (k : K) (v : V) (s : list (K * V)) : list (K * V) :=
  match s with
  | [] => [(k, v)]
  | e :: s => match cmp k e.1 with MAP_CMP_LESS => (k, v) :: e :: s | _ => e :: al_insert k v s end
  end.

Inductive map_op : Type :=
  | Insert (k : K) (v : V) | Lookup (k : K) | Erase (k : K) | Count | Clear | Walk | Walk_back.
Inductive map_res : Type :=
  | Flag (b : bool) | Found (v : option V) | Number (n : Z) | Entries (s : list (K * V)) | Done.

(** [memory] tells whether there is memory for another node. *)
Definition spec_op (memory : bool) (s : list (K * V)) (o : map_op) : map_res * list (K * V) :=
  match o with
  | Insert k v =>
      if List.existsb (same k) s then (Flag false, s)
      else if memory then (Flag true, al_insert k v s) else (Flag false, s)
  | Lookup k => (Found (al_lookup k s), s)
  | Erase k => (Flag (List.existsb (same k) s), al_delete k s)
  | Count => (Number (Z.of_nat (length s)), s)
  | Clear => (Done, [])
  | Walk => (Entries s, s)
  | Walk_back => (Entries (reverse s), s)
  end.
Fixpoint spec_run (s : list (K * V)) (os : list (bool * map_op)) : list map_res :=
  match os with [] => [] | (b, o) :: os => let '(r, s) := spec_op b s o in r :: spec_run s os end.

(** ** The place of a key in a sorted list *)

Definition place (k : K) (l1 l2 : list (K * V)) : Prop :=
  Forall (fun e => cmp k e.1 = MAP_CMP_GREATER) l1 /\ Forall (fun e => cmp k e.1 = MAP_CMP_LESS) l2.

Lemma same_off k e : cmp k e.1 <> MAP_CMP_EQUAL -> same k e = false.
Proof. unfold same. by destruct (cmp k e.1). Qed.
Lemma place_off k l1 l2 : place k l1 l2 -> Forall (fun e => same k e = false) (l1 ++ l2).
Proof.
  intros [H1 H2]. apply Forall_app. split; [eapply Forall_impl; [exact H1|]|eapply Forall_impl; [exact H2|]];
    cbn beta; intros e He; apply same_off; by rewrite He.
Qed.
Lemma off_absent k s :
  Forall (fun e => same k e = false) s ->
  List.existsb (same k) s = false /\ List.find (same k) s = None /\ al_delete k s = s.
Proof.
  induction 1 as [|e s He _ (IH1 & IH2 & IH3)]; [done|]. unfold al_delete in *.
  cbn [List.existsb List.find List.filter]. by rewrite He, IH1, IH2, IH3.
Qed.
Lemma off_present k e l1 l2 :
  Forall (fun e => same k e = false) (l1 ++ l2) -> same k e = true ->
  List.existsb (same k) (l1 ++ e :: l2) = true /\ List.find (same k) (l1 ++ e :: l2) = Some e /\
  al_delete k (l1 ++ e :: l2) = l1 ++ l2.
Proof.
  intros [H1 H2]%Forall_app He. unfold al_delete.
  destruct (off_absent _ _ H2) as (_ & _ & E2). unfold al_delete in E2.
  induction H1 as [|e' s He' _ (IH1 & IH2 & IH3)]; cbn [app List.existsb List.find List.filter].
  - by rewrite He, E2.
  - by rewrite He', IH1, IH2, IH3.
Qed.
Lemma al_insert_place k v l1 l2 : place k l1 l2 -> al_insert k v (l1 ++ l2) = l1 ++ (k, v) :: l2.
Proof.
  intros [H1 H2]. induction H1 as [|e s He _ IH]; cbn [app al_insert].
  - destruct H2 as [|e s He _]; cbn [al_insert]; [done|]. by rewrite He.
  - by rewrite He, IH.
Qed.
End spec.
Arguments map_op : clear implicits.
Arguments map_res : clear implicits.

(** ** The representation *)

Section repr.
Context {K V : Type} (kzero : K) (vzero : V) (malloc : Z -> store K V -> option Z).
Notation store := (store K V).
Notation tree := (tree K V).
Notation frame := (frame K V).
Implicit Types (t : tree) (h : store) (m : map_internal K) (l : list (Z * (K * V))).

(** The sizes that [map_new] accepts. *)
Definition sizes_ok m : Prop :=
  0 < m.(key_size) /\ 0 < m.(data_size) /\ m.(key_size) + m.(data_size) <= SIZE_MAX / 4 - sizeof_map_node.

Record repr (h : store) (m : map_internal K) (l : list (Z * (K * V))) (t : tree) : Prop := mk_repr {
  re_rep : rep h t;
  re_root : ptr t = m.(root);
  re_rb : exists n, rb n RB_BLACK t;
  re_once : forall x, (occ x t <= 1)%nat;
  re_nodes : nodes t = l;
  re_sorted : sorted m.(comparator) l;
  re_size : m.(tree_size) = Z.of_nat (length l);
  re_store : forall x, occ x t = 0%nat -> h !! x = None;
  re_sizes : sizes_ok m
}.

(** What the map relies on in [malloc]: fresh memory, aligned to at least two
    bytes. *)
Class MallocOk : Prop := malloc_ok : forall n h a, malloc n h = Some a -> good a /\ h !! a = None.

Lemma map_new_ok ks ds cmp m :
  0 <= ks < 2 ^ 64 -> 0 <= ds < 2 ^ 64 ->
  map_new true ks ds (Some cmp) = Some m -> repr ∅ m [] E /\ m.(comparator) = cmp.
Proof.
  intros Hk Hd. unfold map_new. destruct ((ks =? 0) || (ds =? 0)) eqn:E1; [done|]. cbv zeta.
  destruct (_ || _ || _) eqn:E2; [done|]. cbn [negb]. intros [= <-]. split; [|done].
  split; cbn [rep ptr root nodes tree_size length comparator]; try done.
  - exists 0%nat. constructor.
  - intros x. cbn [occ]. lia.
  - constructor.
  - unfold sizes_ok. cbn [key_size data_size]. apply orb_false_iff in E1 as [? ?].
    apply orb_false_iff in E2 as [[? ?]%orb_false_iff ?]. unfold SIZE_MAX, sizeof_map_node, u64 in *.
    change ((2 ^ 64 - 1) / 4) with (2 ^ 62 - 1) in *. change (2 ^ 64) with (4 * 2 ^ 62) in *.
    rewrite Z.mod_small in * by lia. lia.
Qed.

(** ** Insertion *)

Definition node_bytes m : Z := Z.land (32 + m.(key_size) + 7) (Z.lnot 7) + m.(data_size).

Lemma land_lnot7 x : 0 <= x -> x - 7 <= Z.land x (Z.lnot 7) <= x.
Proof.
  intros Hx. change (Z.lnot 7) with (Z.lnot (Z.ones 3)). rewrite <- Z.ldiff_land.
  rewrite Z.ldiff_ones_r, Z.shiftr_div_pow2, Z.shiftl_mul_pow2 by lia. change (2 ^ 3) with 8. div_lia.
Qed.

Lemma create_node_ok h m k v :
  MallocOk -> sizes_ok m ->
  map_create_node kzero vzero malloc (Some k) v m.(key_size) m.(data_size) h =
  Some match malloc (node_bytes m) h with
       | Some a => (a, <[a := cell k (default vzero v) 0 0 RB_RED]> h)
       | None => (0, h)
       end.
Proof.
  intros Hm (Hk & Hd & Hs). unfold map_create_node, sizeof_ptr. cbv zeta.
  unfold SIZE_MAX, sizeof_map_node in *. change ((2 ^ 64 - 1) / 4) with (2 ^ 62 - 1) in *.
  change (Z.land (u64 (32 + (8 - 1))) (Z.lnot (8 - 1))) with 32. change (8 - 1) with 7.
  pose proof (land_lnot7 (32 + key_size m + 7)). unfold u64. change (2 ^ 64) with (4 * 2 ^ 62).
  rewrite (Z.mod_small (32 + _ + 7)) by lia. rewrite Z.mod_small by lia. fold (node_bytes m).
  assert ((node_bytes m <? data_size m) || (node_bytes m <? key_size m) = false) as ->.
  { unfold node_bytes in *. apply orb_false_iff. lia. }
  destruct (malloc _ h) as [a|] eqn:E; [|done]. destruct (Hm _ _ _ E) as [[_ Ha] _].
  assert (nz (Z.land a RB_COLOR_MASK) = false) as ->; [|done].
  rewrite <- (tag_black a). by apply tag_color.
Qed.

(** A new node at the end of a path, with its root made black. *)
Lemma insert_at h h0 (gs : list frame) a k v N :
  rb N RB_BLACK (plug gs E) -> rep h (plug gs E) -> (forall x, octx x gs <= 1)%nat ->
  good a -> octx a gs = 0%nat -> h0 = <[a := cell k v 0 0 RB_RED]> h ->
  exists h' t n, (r ← insert_fixup (f_entry <$> gs) a; rb_node_set_black r;; mret r) h0 = Some (ptr t, h') /\
    rep h' t /\ rb n RB_BLACK t /\ nodes t = before gs ++ (a, (k, v)) :: after gs /\
    (forall x, occ x t = (hit a x + octx x gs)%nat) /\
    (forall x, (hit a x + octx x gs)%nat = 0%nat -> h' !! x = h !! x).
Proof.
  intros Hb Hr HN Hg Ha ->. destruct (rb_unplug _ _ _ Hb) as (n & c & Hc & Ht). inversion Ht; subst n c.
  destruct (rep_unplug _ _ _ Hr) as [_ Hrc].
  assert (forall x, hit a x + octx x gs <= 1)%nat as HN'.
  { intros x. destruct (Z.eq_dec a x) as [<-|Hne]; [rewrite hit_refl; lia | rewrite hit_0 by done; apply HN]. }
  destruct (insert_fixup_ok gs (<[a := cell k v 0 0 RB_RED]> h) (T RB_RED E a k v E) 0%nat RB_BLACK 0)
    as [(h1 & t & n & c & E1 & H1 & H2 & H3 & H4 & H5 & _)].
  { done. } { left. exists RB_RED. by repeat constructor. } { done. } { map_rep. } { map_rep. } { done. }
  { intros x. cbn [occ]. specialize (HN' x). lia. }
  rewrite nodes_plug in H3. cbn [nodes app] in H3.
  assert (forall x, occ x t = (hit a x + octx x gs)%nat) as Ho by (intros x; rewrite H4, occ_plug; cbn [occ]; lia).
  destruct t as [|ct l b kb vb r].
  { specialize (Ho a). cbn [occ] in Ho. rewrite hit_refl in Ho. lia. }
  destruct H1 as (Hgb & Hb1 & Hl & Hr'). cbn [ptr] in E1. rewrite (bind_run _ _ _ _ _ E1). cbn [ptr].
  assert (hit b b + occ b l + occ b r <= 1)%nat as Hbl.
  { specialize (Ho b). cbn [occ] in Ho. specialize (HN' b). lia. }
  rewrite hit_refl in Hbl. run.
  eexists _, (T RB_BLACK l b kb vb r), (if c then S n else n). split; [reflexivity|]. split; [map_rep|]. split.
  { inversion H2; subst; cbn [RB_RED RB_BLACK]; rb_tac. }
  split; [done|]. split; [done|]. intros x Hx. specialize (Ho x). cbn [occ] in Ho.
  rewrite lookup_insert_ne by map_ne. rewrite H5 by (rewrite occ_plug; cbn [occ]; lia).
  by rewrite lookup_insert_ne by map_ne.
Qed.

Context (Hmalloc : MallocOk).

(** A key that is not in the tree: its place. *)
Lemma locate_place h m l t k gs :
  CmpOk m.(comparator) -> repr h m l t -> locate m.(comparator) k [] t = (gs, E) ->
  plug gs E = t /\ l = before gs ++ after gs /\ place m.(comparator) k (before gs).*2 (after gs).*2.
Proof.
  intros Hcmp [Hr Hroot [n Hb] HN Hn Hs Hsz Hst _] Hloc.
  pose proof (locate_plug _ _ _ _ _ _ Hloc) as Hp. cbn [plug] in Hp. subst t l.
  destruct (locate_between _ _ _ _ _ _ Hloc Hs) as [H1 H2]; [constructor..|].
  rewrite nodes_plug. cbn [nodes app]. split; [done|]. split; [done|].
  by split; apply Forall_fmap.
Qed.
(** A key that is in the tree: its node. *)
Lemma locate_entry h m l t k gs c tl a k' v tr :
  CmpOk m.(comparator) -> repr h m l t -> locate m.(comparator) k [] t = (gs, T c tl a k' v tr) ->
  exists l1 l2, l = l1 ++ (a, (k', v)) :: l2 /\ same m.(comparator) k (k', v) = true /\
    Forall (fun e => same m.(comparator) k e = false) (l1.*2 ++ l2.*2).
Proof.
  intros Hcmp [Hr Hroot [n Hb] HN Hn Hs Hsz Hst _] Hloc.
  pose proof (locate_plug _ _ _ _ _ _ Hloc) as Hp. cbn [plug] in Hp.
  pose proof (locate_found _ _ _ _ _ _ _ _ _ _ _ Hloc) as Heq.
  exists (before gs ++ nodes tl), (nodes tr ++ after gs).
  assert (l = (before gs ++ nodes tl) ++ (a, (k', v)) :: nodes tr ++ after gs) as El.
  { rewrite <- Hn, <- Hp, nodes_plug. cbn [nodes]. by rewrite <- !app_assoc. }
  split; [done|]. split; [unfold same; cbn [fst]; by rewrite Heq|].
  rewrite El in Hs. apply sorted_mid in Hs as (_ & _ & H1 & H2 & _). cbn [fst snd] in *.
  apply Forall_app. split; apply Forall_fmap.
  - eapply Forall_impl; [exact H1|]. intros x Hx. apply same_off. rewrite (cmp_eq_l _ _ _ Heq).
    apply cmp_flip in Hx. cbn [compose]. by rewrite Hx.
  - eapply Forall_impl; [exact H2|]. intros x Hx. apply same_off. rewrite (cmp_eq_l _ _ _ Heq).
    by rewrite Hx.
Qed.

(** The operations keep everything of the handle but root and size. *)
Definition same_map m m' : Prop :=
  m'.(comparator) = m.(comparator) /\ m'.(key_size) = m.(key_size) /\ m'.(data_size) = m.(data_size).

Lemma sorted_place cmp k v a (l1 l2 : list (Z * (K * V))) :
  CmpOk cmp -> sorted cmp (l1 ++ l2) -> place cmp k l1.*2 l2.*2 -> sorted cmp (l1 ++ (a, (k, v)) :: l2).
Proof.
  intros Hcmp Hs [H1 H2]. apply StronglySorted_app in Hs as (H3 & Hs1 & Hs2). apply sorted_mid.
  rewrite Forall_fmap in H1, H2. split_and!; try done.
  eapply Forall_impl; [exact H1|]. intros x Hx. by apply cmp_flip.
Qed.

Lemma map_insert_ok h m l t k v :
  CmpOk m.(comparator) -> repr h m l t ->
  exists b h' m' l' t', map_insert kzero vzero malloc (Some m) (Some k) (Some v) h = Some ((Some m', b), h') /\
    repr h' m' l' t' /\ same_map m m' /\
    (Flag b, l'.*2) = spec_op m.(comparator) (bool_decide (is_Some (malloc (node_bytes m) h))) l.*2 (Insert k v).
Proof.
  intros Hcmp Hre. pose proof Hre as [Hr Hroot [n Hb] HN Hn Hs Hsz Hst Hok].
  destruct (rb_depth _ _ _ Hb Hr HN) as [Hdepth Hlen].
  unfold map_insert, rb_insert_unique. rewrite <- Hroot.
  change (@nil rb_path_entry_t) with (f_entry (K := K) (V := V) <$> []).
  rewrite (bind_run _ _ _ _ _ (insert_descend_ok _ _ _ _ _ _ Hr Hdepth)).
  destruct (locate _ k [] t) as [gs [|c tl a k' v' tr]] eqn:Hloc.
  - destruct (locate_place _ _ _ _ _ _ Hcmp Hre Hloc) as (Et & El & Hpl).
    pose proof (place_off _ _ _ _ Hpl) as Hoff. rewrite <- fmap_app, <- El in Hoff.
    apply off_absent in Hoff as (Eex & _ & _). cbn [spec_op]. rewrite Eex.
    pose proof (create_node_ok h m k (Some v) Hmalloc Hok) as Ecr.
    destruct (malloc (node_bytes m) h) as [a|] eqn:Em; rewrite (bind_run _ _ _ _ _ Ecr).
    + rewrite bool_decide_true by by eexists. destruct (Hmalloc _ _ _ Em) as [Hg Hfresh].
      assert ((a =? 0) = false) as -> by (destruct Hg; lia).
      assert (forall x, octx x gs = occ x t) as Hoc by (intros x; rewrite <- Et, occ_plug; cbn [occ]; lia).
      pose proof (fresh_occ _ _ _ Hr Hfresh) as Hfo.
      destruct (insert_at h (<[a := cell k v 0 0 RB_RED]> h) gs a k v n) as (h' & t' & n' & E1 & H1 & H2 & H3 & H4 & H5).
      { by rewrite Et. } { by rewrite Et. } { intros x. by rewrite Hoc. } { done. }
      { by rewrite Hoc. }
      { reflexivity. }
      assert (length (nodes t') = S (length l)) as Hlen'
        by (rewrite H3, El, !length_app; cbn [length]; lia).
      exists true, h', (set_tree_size (set_root m (ptr t')) (u64 (tree_size m + 1))), (nodes t'), t'.
      split; [|split; [|split; [done|]]].
      * revert E1. unfold mbind, M_bind. cbn [default from_option]. destruct (insert_fixup _ _ _) as [[r h1]|]; [|done].
        destruct (rb_node_set_black r h1) as [[[] h2]|]; [|done]. by intros [= -> ->].
      * split; cbn [root tree_size comparator set_root set_tree_size]; try done.
        -- by exists n'.
        -- intros x. rewrite H4, Hoc. destruct (Z.eq_dec a x) as [<-|Hne].
           ++ rewrite hit_refl. lia.
           ++ rewrite hit_0 by done. apply HN.
        -- rewrite H3. apply sorted_place; [done | by rewrite <- El | done].
        -- rewrite Hlen', Hsz. unfold u64. rewrite Z.mod_small; [lia|]. rewrite Hn in Hlen.
           change (2 ^ 64) with (2 * 2 ^ 63). lia.
        -- intros x. rewrite H4. intros Hx. rewrite H5 by done. apply Hst. rewrite <- Hoc. lia.
      * rewrite El, fmap_app, al_insert_place by done. rewrite H3, fmap_app. done.
    + rewrite bool_decide_false by (by intros []). exists false, h, m, l, t. by split_and!.
  - destruct (locate_entry _ _ _ _ _ _ _ _ _ _ _ _ Hcmp Hre Hloc) as (l1 & l2 & El & Hsame & Hoff).
    destruct (off_present _ _ _ _ _ Hoff Hsame) as (Eex & _ & _).
    exists false, h, m, l, t. split; [done|]. split; [done|]. split; [done|]. cbn [spec_op].
    rewrite El, fmap_app, fmap_cons. cbn [snd]. by rewrite Eex.
Qed.

(** ** Lookup and removal *)

Lemma map_find_ok h m l t it k :
  CmpOk m.(comparator) -> repr h m l t ->
  exists a, map_find (Some m) it k h = Some (set_it_node it a, h) /\
    (a = 0 /\ Forall (fun e => same m.(comparator) k e = false) l.*2 \/
     exists l1 l2 k' v, good a /\ l = l1 ++ (a, (k', v)) :: l2 /\ same m.(comparator) k (k', v) = true /\
       Forall (fun e => same m.(comparator) k e = false) (l1.*2 ++ l2.*2)).
Proof.
  intros Hcmp Hre. pose proof Hre as [Hr Hroot _ HN Hn _ _ _ _].
  unfold map_find, with_fuel. rewrite <- Hroot.
  erewrite bind_run by (apply (find_node_ok _ k [] t); [done | by apply height_fuel]).
  eexists. split; [reflexivity|]. destruct (locate _ k [] t) as [gs [|c tl a k' v' tr]] eqn:Hloc; cbn [snd ptr].
  - left. split; [done|]. destruct (locate_place _ _ _ _ _ _ Hcmp Hre Hloc) as (_ & -> & Hpl).
    rewrite fmap_app. by apply place_off.
  - right. destruct (locate_entry _ _ _ _ _ _ _ _ _ _ _ _ Hcmp Hre Hloc) as (l1 & l2 & El & Hsame & Hoff).
    exists l1, l2, k', v'. split_and!; try done. assert ((a, (k', v')) ∈ nodes t) as Hin.
    { rewrite Hn, El. apply elem_of_app. right. by left. }
    by destruct (rep_elem _ _ _ _ _ Hr Hin).
Qed.

Lemma map_erase_ok h m l t it a k v :
  CmpOk m.(comparator) -> repr h m l t -> (a, (k, v)) ∈ l -> it.(it_node) = a ->
  exists h' m' l1 l2 t', map_erase (Some m) it h = Some ((Some m', set_it_node it 0), h') /\
    same_map m m' /\ l = l1 ++ (a, (k, v)) :: l2 /\ repr h' m' (l1 ++ l2) t'.
Proof.
  intros Hcmp [Hr Hroot [n Hb] HN Hn Hs Hsz Hst Hok] Hin <-. set (a := it_node it) in *.
  assert (good a) as Hg by (rewrite <- Hn in Hin; by destruct (rep_elem _ _ _ _ _ Hr Hin)).
  unfold map_erase. fold a. assert ((a =? 0) = false) as -> by (destruct Hg; lia).
  assert ((tree_size m =? 0) = false) as ->.
  { rewrite Hsz. apply list_elem_of_split in Hin as (l1 & l2 & ->). rewrite length_app. cbn [length]. apply Z.eqb_neq. lia. }
  destruct (rb_remove_ok h m t n a k v) as (r & Er & (h1 & t' & n' & -> & H1 & H2 & (l1 & l2 & E1 & E2) & H4 & H5));
    [done.. | by rewrite Hn | done | by rewrite Hn |].
  cbn [fmap option_fmap option_map fst snd] in Er. rewrite (bind_run _ _ _ _ _ Er), bind_free.
  assert (l = l1 ++ (a, (k, v)) :: l2) as El by congruence.
  assert ((0 <? tree_size (set_root m (ptr t'))) = true) as ->.
  { cbn [tree_size set_root]. rewrite Hsz, El, length_app. cbn [length]. apply Z.ltb_lt. lia. }
  assert (occ a t' = 0%nat) as Ho by (specialize (H4 a); specialize (HN a); rewrite hit_refl in H4; lia).
  eexists (delete a h1), _, l1, l2, t'. split; [reflexivity|]. split; [done|]. split; [done|].
  split; cbn [root tree_size comparator set_root set_tree_size]; try done.
  - by apply rep_delete.
  - by exists n'.
  - intros x. specialize (H4 x). specialize (HN x). lia.
  - rewrite El in Hs. apply sorted_mid in Hs as (Hs1 & Hs2 & _ & _ & Hs3). by apply StronglySorted_app.
  - rewrite Hsz, El, !length_app. cbn [length]. lia.
  - intros x Hx. destruct (Z.eq_dec a x) as [<-|Hne]; [by rewrite lookup_delete_eq|].
    rewrite lookup_delete_ne by done. rewrite H5; [apply Hst|]; rewrite H4, hit_0; (done || lia).
Qed.

(** ** Clearing *)

Lemma destroy_loop_ok t : forall fuel h,
  (height t < fuel)%nat -> rep h t -> (forall x, occ x t <= 1)%nat ->
  exists h', destroy_loop fuel (ptr t) h = Some (tt, h') /\
    (forall x, occ x t = 0%nat -> h' !! x = h !! x) /\ (forall x, occ x t <> 0%nat -> h' !! x = None).
Proof.
  induction t as [|c l IHl a k v r IHr]; intros [|fuel] h Hf Hr HN; cbn [height] in Hf; try lia.
  { by exists h. }
  cbn [destroy_loop]. rewrite (rep_null _ _ _ _ Hr). destruct Hr as (Hg & Ha & Hl & Hr). cbn [ptr].
  at_node HN a. run. destruct (IHl fuel h) as (h1 & E1 & H1 & H2); [lia | done | |].
  { intros x. specialize (HN x). cbn [occ] in HN. lia. }
  rewrite (bind_run _ _ _ _ _ E1).
  assert (h1 !! a = Some (cell k v (ptr l) (ptr r) c)) as Ha1 by (rewrite H1 by lia; done).
  pose proof (ptr_even _ _ Hr) as Hev. run.
  set (h2 := <[a := cell k v 0 (ptr r) c]> h1).
  assert (rep h2 r) as Hr2.
  { apply rep_insert; [lia|]. clear -Hr H1 HN. revert Hr HN.
    assert (forall s, (forall x, occ x s <= occ x r)%nat -> rep h s ->
      (forall x, occ x (T c l a k v r) <= 1)%nat -> rep h1 s) as Hgen.
    { induction s as [|c' l' IHl a' k' v' r' IHr]; [done|]. intros Hle (? & ? & ? & ?) HN. cbn [occ] in *.
      split; [done|]. split; [|split; [apply IHl | apply IHr]; try done; intros x; specialize (Hle x); lia].
      rewrite H1; [done|]. specialize (HN a'). specialize (Hle a'). rewrite hit_refl in Hle. lia. }
    intros Hr HN. by apply Hgen. }
  destruct (IHr fuel h2) as (h3 & E3 & H3 & H4); [lia | done | |].
  { intros x. specialize (HN x). cbn [occ] in HN. lia. }
  rewrite (bind_run _ _ _ _ _ E3).
  assert (h3 !! a = Some (cell k v 0 (ptr r) c)) as Ha3 by (rewrite H3 by lia; apply lookup_insert_eq).
  run. eexists. split; [reflexivity|]. cbn [occ]. split.
  - intros x Hx. rewrite lookup_delete_ne, lookup_insert_ne by map_ne. rewrite H3 by lia.
    unfold h2. rewrite lookup_insert_ne by map_ne. apply H1. lia.
  - intros x Hx. destruct (Z.eq_dec a x) as [<-|Hne]; [apply lookup_delete_eq|].
    rewrite lookup_delete_ne, lookup_insert_ne by done. rewrite hit_0 in Hx by done.
    destruct (Nat.eq_dec (occ x r) 0%nat) as [Hxr|]; [|by apply H4].
    rewrite H3 by done. unfold h2. rewrite lookup_insert_ne by done. apply H2. lia.
Qed.

Lemma map_clear_ok h m l t :
  repr h m l t ->
  exists m', map_clear (Some m) h = Some (Some m', ∅) /\ same_map m m' /\ repr ∅ m' [] E.
Proof.
  intros [Hr Hroot _ HN Hn Hs Hsz Hst Hok]. unfold map_clear, rb_destroy_recurse, with_fuel. rewrite <- Hroot.
  destruct (destroy_loop_ok t (S (size h)) h) as (h' & E1 & H1 & H2); [by apply height_fuel | done..|].
  erewrite bind_run by exact E1. assert (h' = ∅) as ->.
  { apply map_eq. intros x. rewrite lookup_empty. destruct (Nat.eq_dec (occ x t) 0%nat); [|by apply H2].
    rewrite H1 by done. by apply Hst. }
  eexists. split; [reflexivity|]. split; [done|].
  split; cbn [root tree_size comparator set_root set_tree_size rep ptr nodes length]; try done.
  - exists 0%nat. constructor.
  - intros x. cbn [occ]. lia.
  - constructor.
Qed.
End repr.

(** ** Traversal *)

Section walk.
Context {K V : Type}.
Notation store := (store K V).
Notation tree := (tree K V).
Notation frame := (frame K V).
Implicit Types (t : tree) (h : store) (m : map_internal K) (l : list (Z * (K * V))) (fs gs : list frame).

(** The pointer to a node of a list, [NULL] beyond its end. *)
Definition addr (o : option (Z * (K * V))) : Z := default 0 (fst <$> o).

Lemma leftmost_ok t fuel h :
  (height t <= fuel)%nat -> rep h t -> t <> E -> leftmost fuel (ptr t) h = Some (addr (head (nodes t)), h).
Proof.
  revert fuel. induction t as [|c l IHl a k v r _]; intros [|fuel] Hf Hr Hne; cbn [height] in Hf; try done; try lia.
  destruct Hr as (Hg & Ha & Hl & Hr). cbn [leftmost ptr]. erewrite bind_deref by exact Ha. cbn [node_left cell].
  rewrite (rep_null _ _ _ _ Hl). destruct l as [|c' l' a' k' v' r']; [done|].
  rewrite IHl by (done || lia). cbn [nodes]. by destruct (nodes l').
Qed.
Lemma rightmost_ok t fuel h :
  (height t <= fuel)%nat -> rep h t -> t <> E -> rightmost fuel (ptr t) h = Some (addr (last (nodes t)), h).
Proof.
  revert fuel. induction t as [|c l _ a k v r IHr]; intros [|fuel] Hf Hr Hne; cbn [height] in Hf; try done; try lia.
  destruct Hr as (Hg & Ha & Hl & Hr). cbn [rightmost ptr]. run.
  rewrite (rep_null _ _ _ _ Hr). cbn [nodes]. rewrite last_app, last_cons.
  destruct r as [|c' l' a' k' v' r']; [done|]. rewrite IHr by (done || lia). cbn [nodes].
  rewrite last_app, last_cons. by destruct (last (nodes r')).
Qed.

Lemma succ_search_ok cmp key fs t fuel h :
  rep h t -> (height t < fuel)%nat ->
  succ_search fuel cmp key (addr (head (after fs))) (ptr t) h =
  Some (addr (head (after (locate cmp key fs t).1)), h).
Proof.
  revert fs fuel. induction t as [|c l IHl a k v r IHr]; intros fs [|fuel] Ht Hd; try (cbn [height] in Hd; lia); [done|].
  cbn [succ_search height] in *. rewrite (rep_null _ _ _ _ Ht). destruct Ht as (Hg & Ha & Hl & Hr). cbn [ptr].
  erewrite bind_deref by exact Ha. cbn [node_key node_left cell locate]. destruct (cmp key k); [| done | run].
  - apply (IHl (mk_frame true c a k v r :: fs)); [done | lia].
  - apply (IHr (mk_frame false c a k v l :: fs)); [done | lia].
Qed.
Lemma pred_search_ok cmp key fs t fuel h :
  rep h t -> (height t < fuel)%nat ->
  pred_search fuel cmp key (addr (last (before fs))) (ptr t) h =
  Some (addr (last (before (locate cmp key fs t).1)), h).
Proof.
  revert fs fuel. induction t as [|c l IHl a k v r IHr]; intros fs [|fuel] Ht Hd; try (cbn [height] in Hd; lia); [done|].
  cbn [pred_search height] in *. rewrite (rep_null _ _ _ _ Ht). destruct Ht as (Hg & Ha & Hl & Hr). cbn [ptr].
  erewrite bind_deref by exact Ha. cbn [node_key node_left cell locate]. destruct (cmp key k); [| done | run].
  - rewrite <- (IHl (mk_frame true c a k v r :: fs) fuel) by (done || lia). cbn [before f_left]. by rewrite app_nil_r.
  - rewrite <- (IHr (mk_frame false c a k v l :: fs) fuel) by (done || lia).
    cbn [before f_left f_sib f_addr f_key f_val]. by rewrite app_assoc, last_snoc.
Qed.

Lemma map_first_ok h m l t it :
  repr h m l t -> map_first (Some m) it h = Some (mk_iter (addr (head l)) 0 0, h).
Proof.
  intros [Hr Hroot _ HN Hn _ _ _ _]. unfold map_first, with_fuel. rewrite <- Hroot, <- Hn.
  rewrite (rep_null _ _ _ _ Hr). destruct t as [|c tl a k v tr]; [done|].
  erewrite bind_run by (apply leftmost_ok; [|done..]; pose proof (height_fuel _ _ Hr HN); lia). done.
Qed.
Lemma map_last_ok h m l t it :
  repr h m l t -> map_last (Some m) it h = Some (mk_iter (addr (last l)) 0 0, h).
Proof.
  intros [Hr Hroot _ HN Hn _ _ _ _]. unfold map_last, with_fuel. rewrite <- Hroot, <- Hn.
  rewrite (rep_null _ _ _ _ Hr). destruct t as [|c tl a k v tr]; [done|].
  erewrite bind_run by (apply rightmost_ok; [|done..]; pose proof (height_fuel _ _ Hr HN); lia). done.
Qed.

(** The node of an iterator in its tree. *)
Lemma repr_split h m l t l1 a k v l2 :
  CmpOk m.(comparator) -> repr h m l t -> l = l1 ++ (a, (k, v)) :: l2 ->
  exists gs c tl tr, locate m.(comparator) k [] t = (gs, T c tl a k v tr) /\ rep h (T c tl a k v tr) /\
    (height (T c tl a k v tr) <= size h)%nat /\
    l1 = before gs ++ nodes tl /\ l2 = nodes tr ++ after gs.
Proof.
  intros Hcmp [Hr Hroot _ HN Hn Hs _ _ _] El.
  assert ((a, (k, v)) ∈ nodes t) as Hin by (rewrite Hn, El; apply elem_of_app; right; by left).
  destruct (locate_elem m.(comparator) t a k v) as (gs & c & tl & tr & Hloc & Hp); [by rewrite Hn | done|].
  exists gs, c, tl, tr. split; [done|]. rewrite <- Hp in Hr. destruct (rep_unplug _ _ _ Hr) as [Hrt _].
  split; [done|]. split.
  { assert (forall x, occ x (T c tl a k v tr) <= 1)%nat as HN'
      by (intros x; specialize (HN x); rewrite <- Hp, occ_plug in HN; lia).
    pose proof (height_fuel _ _ Hrt HN'). lia. }
  assert (NoDup (nodes t).*1) as Hnd by by apply occ_nodup.
  assert (nodes t = (before gs ++ nodes tl) ++ (a, (k, v)) :: nodes tr ++ after gs) as E2.
  { rewrite <- Hp, nodes_plug. cbn [nodes]. by rewrite <- !app_assoc. }
  rewrite Hn, El in E2. rewrite Hn, El in Hnd. clear -E2 Hnd. revert E2 Hnd.
  generalize (before gs ++ nodes tl), (nodes tr ++ after gs). intros l1' l2'.
  revert l1'. induction l1 as [|x l1 IH]; intros [|y l1']; cbn [app]; intros E2 Hnd.
  - by injection E2 as ->.
  - injection E2 as <- ->. rewrite fmap_cons, fmap_app, fmap_cons in Hnd. apply NoDup_cons in Hnd as [Hnd _].
    exfalso. apply Hnd, elem_of_app. right. by left.
  - injection E2 as -> <-. rewrite fmap_cons, fmap_app, fmap_cons in Hnd. apply NoDup_cons in Hnd as [Hnd _].
    exfalso. apply Hnd, elem_of_app. right. by left.
  - injection E2 as <- E2. rewrite fmap_cons in Hnd. apply NoDup_cons in Hnd as [_ Hnd].
    destruct (IH l1' E2 Hnd) as [-> ->]. done.
Qed.

Lemma head_after t gs : t <> E -> head (nodes t ++ after gs) = head (nodes t).
Proof. destruct t as [|? l]; [done|]. intros _. cbn [nodes]. by destruct (nodes l). Qed.
Lemma last_before t gs : t <> E -> last (before gs ++ nodes t) = last (nodes t).
Proof.
  destruct t as [|c l a k v r]; [done|]. intros _. rewrite last_app. cbn [nodes]. rewrite last_app, last_cons.
  by destruct (last (nodes r)).
Qed.

Lemma map_next_ok h m l t it l1 a k v l2 :
  CmpOk m.(comparator) -> repr h m l t -> l = l1 ++ (a, (k, v)) :: l2 -> it.(it_node) = a ->
  map_next (Some m) it h = Some (set_it_node it (addr (head l2)), h).
Proof.
  intros Hcmp Hre El Hit. destruct (repr_split _ _ _ _ _ _ _ _ _ Hcmp Hre El)
    as (gs & c & tl & tr & Hloc & (Hg & Ha & Hl & Hr) & Hh & -> & ->).
  pose proof Hre as [Hrep Hroot _ HN _ _ _ _ _]. unfold map_next. rewrite Hit.
  assert ((a =? 0) = false) as -> by (destruct Hg; lia). run.
  cbn [height] in Hh. unfold nz. rewrite (ptr_0 _ _ Hr). destruct tr as [|c' l' a' k' v' r'] eqn:Etr; cbn [negb].
  - erewrite bind_run; [reflexivity|]. erewrite bind_deref by exact Ha. cbn [node_key cell].
    rewrite <- Hroot. change 0 with (addr (head (after (@nil frame)))) at 1.
    unfold with_fuel. rewrite succ_search_ok by (done || by apply height_fuel). by rewrite Hloc.
  - rewrite <- Etr in *. erewrite bind_run; [|apply leftmost_ok; [lia | done | by rewrite Etr]].
    by rewrite head_after by by rewrite Etr.
Qed.
Lemma map_prev_ok h m l t it l1 a k v l2 :
  CmpOk m.(comparator) -> repr h m l t -> l = l1 ++ (a, (k, v)) :: l2 -> it.(it_node) = a ->
  map_prev (Some m) it h = Some (set_it_node it (addr (last l1)), h).
Proof.
  intros Hcmp Hre El Hit. destruct (repr_split _ _ _ _ _ _ _ _ _ Hcmp Hre El)
    as (gs & c & tl & tr & Hloc & (Hg & Ha & Hl & Hr) & Hh & -> & ->).
  pose proof Hre as [Hrep Hroot _ HN _ _ _ _ _]. unfold map_prev. rewrite Hit.
  assert ((a =? 0) = false) as -> by (destruct Hg; lia). erewrite bind_deref by exact Ha.
  cbn [height node_left node_key cell] in *. unfold nz. rewrite (ptr_0 _ _ Hl).
  destruct tl as [|c' l' a' k' v' r'] eqn:Etl; cbn [negb nodes].
  - rewrite app_nil_r. erewrite bind_run; [reflexivity|].
    rewrite <- Hroot. change 0 with (addr (last (before (@nil frame)))) at 1.
    unfold with_fuel. rewrite pred_search_ok by (done || by apply height_fuel). by rewrite Hloc.
  - rewrite <- Etl in *. erewrite bind_run; [|apply rightmost_ok; [lia | done | by rewrite Etl]].
    change (nodes l' ++ (a', (k', v')) :: nodes r') with (nodes (T c' l' a' k' v' r')). rewrite <- Etl.
    by rewrite last_before by by rewrite Etl.
Qed.
End walk.

(** ** Sequences of operations *)

Section runs.
Context {K V : Type} (kzero : K) (vzero : V) (malloc : Z -> store K V -> option Z).
Notation store := (store K V).
Notation M := (@M K V).
Implicit Types (h : store) (m : map_internal K) (l : list (Z * (K * V))).

Definition it0 : map_iter_t := mk_iter 0 0 0.

(** A whole traversal, with the function that moves the iterator. *)
Fixpoint walk (fuel : nat) (move : map_iter_t -> M map_iter_t) (it : map_iter_t) : M (list (K * V)) :=
  match fuel with
  | O => crash
  | S fuel =>
      if map_at_end it then mret [] else
      nd ← deref it.(it_node);
      it ← move it;
      s ← walk fuel move it;
      mret ((nd.(node_key), nd.(node_data)) :: s)
  end.

Definition code_op (m : option (map_internal K)) (o : map_op K V) : M (option (map_internal K) * map_res K V) :=
  match o with
  | Insert k v => '(m, b) ← map_insert kzero vzero malloc m (Some k) (Some v); mret (m, Flag b)
  | Lookup k =>
      it ← map_find m it0 k;
      if map_at_end it then mret (m, Found None) else
      nd ← deref it.(it_node);
      mret (m, Found (Some nd.(node_data)))
  | Erase k =>
      it ← map_find m it0 k;
      if map_at_end it then mret (m, Flag false) else
      '(m, _) ← map_erase m it;
      mret (m, Flag true)
  | Count => mret (m, Number (map_size m))
  | Clear => m ← map_clear m; mret (m, Done)
  | Walk => it ← map_first m it0; s ← with_fuel (fun fuel => walk fuel (map_next m) it); mret (m, Entries s)
  | Walk_back => it ← map_last m it0; s ← with_fuel (fun fuel => walk fuel (map_prev m) it); mret (m, Entries s)
  end.

(** Each result comes with whether there was memory for a node. *)
Fixpoint code_run (m : option (map_internal K)) (os : list (map_op K V)) : M (list (bool * map_res K V)) :=
  match os with
  | [] => mret []
  | o :: os => fun h =>
      let memory := match m with Some m => bool_decide (is_Some (malloc (node_bytes m) h)) | None => false end in
      ('(m, r) ← code_op m o; l ← code_run m os; mret ((memory, r) :: l)) h
  end.

Lemma walk_ok h m l t (move : map_iter_t -> M map_iter_t) fuel (l' : list (Z * (K * V))) it :
  repr h m l t -> (forall x, x ∈ l' -> x ∈ l) -> it.(it_node) = addr (head l') ->
  (forall it l1 x l2, l' = l1 ++ x :: l2 -> it.(it_node) = x.1 ->
     exists it', move it h = Some (it', h) /\ it'.(it_node) = addr (head l2)) ->
  (length l' < fuel)%nat -> walk fuel move it h = Some (l'.*2, h).
Proof.
  intros Hre. revert it l'. induction fuel as [|fuel IH]; intros it l' Hsub Hit Hmove Hf; [lia|].
  cbn [walk]. unfold map_at_end. rewrite Hit. destruct l' as [|[a [k v]] l']; [done|]. change (addr (head ((a, (k, v)) :: l'))) with a.
  assert ((a, (k, v)) ∈ nodes t) as Hin by (rewrite (re_nodes _ _ _ _ Hre); apply Hsub; by left).
  destruct (rep_elem _ _ _ _ _ (re_rep _ _ _ _ Hre) Hin) as (Hg & pl & pr & c & Ha & _).
  assert ((a =? 0) = false) as -> by (destruct Hg; lia). erewrite bind_deref by exact Ha.
  destruct (Hmove it [] _ l' eq_refl Hit) as (it' & E & Hit'). rewrite (bind_run _ _ _ _ _ E).
  erewrite bind_run; [reflexivity|]. apply IH; [| done | | cbn [length] in Hf; lia].
  - intros x Hx. apply Hsub. by right.
  - intros it1 l1 x l2 -> Hx. by apply (Hmove it1 ((a, (k, v)) :: l1) x l2).
Qed.

Context (Hmalloc : MallocOk malloc).

Lemma code_op_ok h m l t o :
  CmpOk m.(comparator) -> repr h m l t ->
  exists r h' m' l' t', code_op (Some m) o h = Some ((Some m', r), h') /\ repr h' m' l' t' /\ same_map m m' /\
    (r, l'.*2) = spec_op m.(comparator) (bool_decide (is_Some (malloc (node_bytes m) h))) l.*2 o.
Proof.
  intros Hcmp Hre. pose proof (rep_size _ _ (re_rep _ _ _ _ Hre) (re_once _ _ _ _ Hre)) as Hsize.
  rewrite (re_nodes _ _ _ _ Hre) in Hsize. destruct o as [k v|k|k| | | |]; cbn [code_op].
  - destruct (map_insert_ok kzero vzero malloc Hmalloc h m l t k v Hcmp Hre) as (b & h' & m' & l' & t' & E & H1 & H2 & H3).
    rewrite (bind_run _ _ _ _ _ E). by exists (Flag b), h', m', l', t'.
  - destruct (map_find_ok h m l t it0 k Hcmp Hre) as (a & E & Hcase). rewrite (bind_run _ _ _ _ _ E).
    unfold map_at_end. cbn [it_node set_it_node spec_op].
    destruct Hcase as [[-> Hoff]|(l1 & l2 & k' & v & Hg & El & Hsame & Hoff)].
    + exists (Found None), h, m, l, t. split_and!; try done. unfold al_lookup.
      by destruct (off_absent _ _ _ Hoff) as (_ & -> & _).
    + assert ((a =? 0) = false) as -> by (destruct Hg; lia).
      assert ((a, (k', v)) ∈ nodes t) as Hin.
      { rewrite (re_nodes _ _ _ _ Hre), El. apply elem_of_app. right. by left. }
      destruct (rep_elem _ _ _ _ _ (re_rep _ _ _ _ Hre) Hin) as (_ & pl & pr & c & Ha & _).
      erewrite bind_deref by exact Ha. exists (Found (Some v)), h, m, l, t. split_and!; try done.
      unfold al_lookup. rewrite El, fmap_app, fmap_cons. cbn [snd].
      by destruct (off_present _ _ _ _ _ Hoff Hsame) as (_ & -> & _).
  - destruct (map_find_ok h m l t it0 k Hcmp Hre) as (a & E & Hcase). rewrite (bind_run _ _ _ _ _ E).
    unfold map_at_end. cbn [it_node set_it_node spec_op].
    destruct Hcase as [[-> Hoff]|(l1 & l2 & k' & v & Hg & El & Hsame & Hoff)].
    + exists (Flag false), h, m, l, t. split_and!; try done.
      by destruct (off_absent _ _ _ Hoff) as (-> & _ & ->).
    + assert ((a =? 0) = false) as -> by (destruct Hg; lia).
      destruct (map_erase_ok h m l t (set_it_node it0 a) a k' v) as (h' & m' & l1' & l2' & t' & E1 & Hm & El' & H1);
        [done | done | rewrite El; apply elem_of_app; right; by left | done|].
      rewrite (bind_run _ _ _ _ _ E1). exists (Flag true), h', m', (l1' ++ l2'), t'. split; [done|]. split; [done|].
      split; [done|].
      destruct (repr_split _ _ _ _ _ _ _ _ _ Hcmp Hre El) as (gs & c & tl & tr & Hloc & _ & _ & -> & ->).
      destruct (repr_split _ _ _ _ _ _ _ _ _ Hcmp Hre El') as (gs' & c' & tl' & tr' & Hloc' & _ & _ & -> & ->).
      rewrite Hloc' in Hloc. injection Hloc as -> -> -> ->.
      rewrite El, (fmap_app snd _ (_ :: _)), fmap_cons. cbn [snd].
      destruct (off_present _ _ _ _ _ Hoff Hsame) as (-> & _ & ->). by rewrite fmap_app.
  - exists (Number (tree_size m)), h, m, l, t. split_and!; try done. cbn [spec_op].
    by rewrite length_fmap, (re_size _ _ _ _ Hre).
  - destruct (map_clear_ok h m l t Hre) as (m' & E1 & Hm & H1). rewrite (bind_run _ _ _ _ _ E1).
    by exists Done, ∅, m', [], E.
  - erewrite bind_run by by eapply map_first_ok.
    erewrite bind_run; [by exists (Entries l.*2), h, m, l, t|]. unfold with_fuel.
    eapply walk_ok; [done | done | done | | lia].
    intros it l1 [a [k v]] l2 El Hit. eexists. split; [by eapply map_next_ok | done].
  - erewrite bind_run by by eapply map_last_ok.
    erewrite bind_run; [exists (Entries (reverse l).*2), h, m, l, t; split_and!; try done; cbn [spec_op]; by rewrite fmap_reverse|].
    unfold with_fuel. eapply (walk_ok h m l t _ _ (reverse l)); [done | | | | rewrite length_reverse; lia].
    + intros x. by rewrite elem_of_reverse.
    + cbn [it_node]. by rewrite <- head_reverse.
    + intros it l1 [a [k v]] l2 El Hit. apply (f_equal reverse) in El.
      rewrite reverse_involutive, reverse_app, reverse_cons, <- app_assoc in El. cbn [app] in El.
      eexists. split; [by eapply map_prev_ok|]. cbn [it_node set_it_node]. by rewrite <- head_reverse, reverse_involutive.
Qed.

Lemma code_run_ok os h m l t :
  CmpOk m.(comparator) -> repr h m l t ->
  exists tr h', code_run (Some m) os h = Some (tr, h') /\ length tr = length os /\
    tr.*2 = spec_run m.(comparator) l.*2 (zip tr.*1 os).
Proof using Hmalloc.
  revert h m l t. induction os as [|o os IH]; intros h m l t Hcmp Hre; [by exists [], h|].
  destruct (code_op_ok h m l t o Hcmp Hre) as (r & h1 & m1 & l1 & t1 & E1 & H1 & (Hc & _) & Hs).
  rewrite <- Hc in Hcmp. destruct (IH h1 m1 l1 t1 Hcmp H1) as (tr & h' & E2 & Hlen & Htr).
  cbn [code_run]. rewrite (bind_run _ _ _ _ _ E1), (bind_run _ _ _ _ _ E2). rewrite Hc in Htr.
  eexists _, h'. split; [reflexivity|]. split; [cbn [length]; by rewrite Hlen|].
  rewrite !fmap_cons. cbn [fst snd zip zip_with spec_run]. by rewrite <- Hs, Htr.
Qed.
End runs.

(** C11.  A map of map.c behaves like a sorted association list: whatever
    sequence of insertions, lookups, removals, size queries, clearings and
    forward or backward traversals is run on a new map, with a comparator
    that is a total order and an allocator that may fail at any time, no call
    is undefined, no assertion fails, no path overflows its array, and every
    result is that of the specification. *)
Theorem map_refines {K V} (kzero : K) (vzero : V) malloc ks ds cmp m (os : list (map_op K V)) :
  CmpOk cmp -> MallocOk malloc -> 0 <= ks < 2 ^ 64 -> 0 <= ds < 2 ^ 64 ->
  map_new true ks ds (Some cmp) = Some m ->
  exists tr h, code_run kzero vzero malloc (Some m) os ∅ = Some (tr, h) /\ length tr = length os /\
    tr.*2 = spec_run cmp [] (zip tr.*1 os).
Proof.
  intros Hcmp Hmal Hk Hd Hm. destruct (map_new_ok (V := V) ks ds cmp m Hk Hd Hm) as [Hre <-].
  by apply (code_run_ok kzero vzero malloc Hmal os ∅ m [] E).
Qed.

(** An allocator: the even address above all others. *)
Definition bump {K V} (n : Z) (h : store K V) : option Z :=
  let a := 2 * (foldr Z.max 0 (map_to_list h).*1 / 2 + 1) in
  if a <? 2 ^ 64 then Some a else None.
Lemma max_ge x l : x ∈ l -> x <= foldr Z.max 0 l.
Proof. induction l as [|y l IH]; [by intros H%not_elem_of_nil|]. intros [->|H]%elem_of_cons; cbn [foldr]; [lia|]. specialize (IH H). lia. Qed.
Lemma bump_ok {K V} : MallocOk (@bump K V).
Proof.
  intros n h a. unfold bump. cbv zeta. set (mx := foldr _ _ _).
  assert (0 <= mx) as Hmx by (unfold mx; generalize ((map_to_list h).*1); intros l; induction l; cbn [foldr]; lia).
  destruct (Z.ltb_spec (2 * (mx / 2 + 1)) (2 ^ 64)) as [Hlt|]; [|done]. intros [= <-]. split.
  - split; [div_lia | by rewrite Z.even_mul].
  - destruct (h !! _) as [nd|] eqn:E; [|done]. exfalso. apply elem_of_map_to_list in E.
    apply (list_elem_of_fmap_2 fst) in E. apply max_ge in E. fold mx in E. cbn [fst] in E. div_lia.
Qed.

Lemma map_refines_witness :
  exists m tr h, map_new true 4 8 (Some map_cmp_uint) = Some m /\
    code_run 0 0 bump (Some m) [Insert 5 50; Insert 3 30; Insert 7 70; Insert 5 51; Lookup 5; Erase 3; Erase 4; Walk; Count] ∅ = Some (tr, h) /\
    tr.*2 = [Flag true; Flag true; Flag true; Flag false; Found (Some 50); Flag true; Flag false;
             Entries [(5, 50); (7, 70)]; Number 2].
Proof.
  destruct (map_refines 0 0 bump 4 8 map_cmp_uint (mk_map 0 4 8 0 map_cmp_uint)
    [Insert 5 50; Insert 3 30; Insert 7 70; Insert 5 51; Lookup 5; Erase 3; Erase 4; Walk; Count])
    as (tr & h & E1 & E2 & E3); [apply map_cmp_uint_ok | apply bump_ok | lia | lia | reflexivity|].
  exists (mk_map 0 4 8 0 map_cmp_uint), tr, h. split; [reflexivity|]. split; [exact E1|].
  vm_compute in E1. injection E1 as <- _. vm_compute. reflexivity.
Defined.
