(* ===== verification/Mpool.v ===== *)
(** * The memory pool (src/rv32emu/src/mpool.c)

    A pool owns areas of memory, all of the same size, cut into chunks.  A
    chunk is a header (the pointer to the next free chunk) and the bytes of
    the user.  The words of the areas are a map from addresses, with 0 for
    what was never written, as in fresh anonymous mappings.  The arguments
    [mem_arena] (the mapping of a new area) and [area_malloc] (whether the
    descriptor of an area can be allocated) stand for the host. *)

From Stdlib Require Import ZArith Lia Bool.
From stdpp Require Import base list numbers gmap.
From S2P Require Import Prelude.

Definition sizeof_memchunk : Z := 8.
Definition size_max : Z := 2 ^ 64 - 1.

Record mpool_t : Type := mk_mpool {
  chunk_count : Z; page_count : Z; chunk_size : Z; free_chunk_head : Z;
  area_mapped : list Z
}.
Notation words := (gmap Z Z).
Definition chunk_next (w : words) (c : Z) : Z := default 0 (w !! c).

Definition set_free (mp : mpool_t) (head count : Z) : mpool_t :=
  mk_mpool count mp.(page_count) mp.(chunk_size) head mp.(area_mapped).

(** The loop that chains [n + 1] chunks; the result is the last one. *)
Fixpoint link_chunks (n : nat) (step cur : Z) (w : words) : Z * words :=
  match n with
  | O => (cur, w)
  | S n => link_chunks n step (cur + step) (<[cur := cur + step]> w)
  end.

Section mpool.
Context (getpagesize : Z) (mem_arena : Z -> list Z -> option Z) (area_malloc : list Z -> bool).

Definition mpool_create (malloc_ok : bool) (pool_size chunk_size : Z) (w : words)
    : option (mpool_t * words) :=
  if negb malloc_ok then None else
  let pgsz := getpagesize in
  if size_max - sizeof_memchunk <? chunk_size then None else
  let pool_size :=
    if pool_size <? chunk_size + sizeof_memchunk then u64 (pool_size + sizeof_memchunk) else pool_size in
  if size_max - pgsz + 1 <? pool_size then None else
  let page_count := u64 (pool_size + pgsz - 1) / pgsz in
  if size_max / pgsz <? page_count then None else
  match mem_arena (page_count * pgsz) [] with
  | None => None
  | Some p =>
      let chunk_count := pool_size / (sizeof_memchunk + chunk_size) in
      let '(cur, w) := link_chunks (Z.to_nat (u64 (chunk_count - 1))) (sizeof_memchunk + chunk_size) p w in
      Some (mk_mpool chunk_count page_count chunk_size p [p], <[cur := 0]> w)
  end.

Definition mpool_extend (mp : mpool_t) (w : words) : option (mpool_t * words) :=
  let pool_size := mp.(page_count) * getpagesize in
  match mem_arena pool_size mp.(area_mapped) with
  | None => None
  | Some p =>
      if negb (area_malloc mp.(area_mapped)) then None else
      let count := pool_size / (sizeof_memchunk + mp.(chunk_size)) in
      let '(_, w) := link_chunks (Z.to_nat (u64 (count - 1))) (sizeof_memchunk + mp.(chunk_size)) p w in
      Some (mk_mpool (mp.(chunk_count) + count) mp.(page_count) mp.(chunk_size) p (mp.(area_mapped) ++ [p]), w)
  end.

Definition mpool_alloc_helper (mp : mpool_t) (w : words) : mpool_t * Z :=
  let ptr := mp.(free_chunk_head) + sizeof_memchunk in
  (set_free mp (chunk_next w mp.(free_chunk_head)) (mp.(chunk_count) - 1), ptr).

(** The pool and the chunk, 0 if there is no memory. *)
Definition mpool_alloc (mp : mpool_t) (w : words) : mpool_t * words * Z :=
  match (if mp.(chunk_count) =? 0 then mpool_extend mp w else Some (mp, w)) with
  | None => (mp, w, 0)
  | Some (mp, w) => let '(mp, p) := mpool_alloc_helper mp w in (mp, w, p)
  end.

(** [memset(ptr, 0, n)] *)
Definition memset0 (p n : Z) (w : words) : words :=
  filter (fun x => ~ (p <= x.1 < p + n)) w.

Definition mpool_calloc (mp : mpool_t) (w : words) : mpool_t * words * Z :=
  match (if mp.(chunk_count) =? 0 then mpool_extend mp w else Some (mp, w)) with
  | None => (mp, w, 0)
  | Some (mp, w) => let '(mp, p) := mpool_alloc_helper mp w in (mp, memset0 p mp.(chunk_size) w, p)
  end.

Definition mpool_free (mp : mpool_t) (w : words) (target : Z) : mpool_t * words :=
  let ptr := target - sizeof_memchunk in
  (set_free mp ptr (mp.(chunk_count) + 1), <[ptr := mp.(free_chunk_head)]> w).

(** The loop over the areas: the chunks of each one are chained, and the last
    one leads to the next area. *)
Fixpoint refresh_areas (n : nat) (step : Z) (areas : list Z) (w : words) : words :=
  match areas with
  | [] => w
  | a :: areas =>
      let '(cur, w) := link_chunks n step a w in
      refresh_areas n step areas (<[cur := default 0 (head areas)]> w)
  end.
Definition mpool_refresh_all (mp : mpool_t) (w : words) : mpool_t * words :=
  let pool_size := mp.(page_count) * getpagesize in
  let per_area := pool_size / (sizeof_memchunk + mp.(chunk_size)) in
  (set_free mp (default 0 (head mp.(area_mapped))) (per_area * Z.of_nat (length mp.(area_mapped))),
   refresh_areas (Z.to_nat (u64 (per_area - 1))) (sizeof_memchunk + mp.(chunk_size)) mp.(area_mapped) w).

(** The areas that are unmapped, with their size. *)
Definition mpool_destroy (mp : mpool_t) : list (Z * Z) :=
  (fun a => (a, mp.(page_count) * getpagesize)) <$> mp.(area_mapped).
End mpool.
