(* ===== verification/MpoolSpec.v ===== *)
(** * Chunks of a pool do not overlap

    [pool_inv]: the free list has as many chunks as the pool counts, and the
    chunks of the free list and those in use are different chunks of the
    areas.  Every call keeps it, and so do writes of the users into their own
    chunks. *)

From Stdlib Require Import ZArith Lia Bool.
From stdpp Require Import base list numbers gmap.
From S2P Require Import Prelude Mpool.

(** ** Chains of chunks *)

(** The first chunks of the free list are [l]; what follows does not matter. *)
Fixpoint chain (w : words) (head : Z) (l : list Z) : Prop :=
  match l with [] => True | c :: l => head = c /\ chain w (chunk_next w c) l end.

(** The chunks of an area. *)
Definition cut (step base : Z) (n : nat) : list Z := (fun i => base + Z.of_nat i * step) <$> seq 0 n.

Lemma chain_ext w w' head l :
  (forall c, c ∈ l -> chunk_next w' c = chunk_next w c) -> chain w head l -> chain w' head l.
Proof.
  revert head. induction l as [|c l IH]; intros head Hw; [done|]. intros [-> Hl]. split; [done|].
  rewrite Hw by by left. apply IH; [|done]. intros c' Hc'. apply Hw. by right.
Qed.
(** The last chunk of a chain may lead anywhere. *)
Lemma chain_ext_last w w' head l :
  NoDup l -> (forall c, c ∈ l -> last l <> Some c -> chunk_next w' c = chunk_next w c) ->
  chain w head l -> chain w' head l.
Proof.
  revert head. induction l as [|c l IH]; intros head Hnd Hw; [done|]. intros [-> Hl]. split; [done|].
  apply NoDup_cons in Hnd as [Hc Hnd]. destruct l as [|d l]; [done|]. rewrite Hw; [| by left |].
  - apply IH; try done. intros e He Hlast. apply Hw; [by right | done].
  - intros Hlast. apply Hc. apply last_Some_elem_of. by rewrite last_cons_cons in Hlast.
Qed.
Lemma chain_app w head l1 l2 b :
  chain w head l1 -> (forall c, last l1 = Some c -> chunk_next w c = b) -> l1 <> [] ->
  chain w b l2 -> chain w head (l1 ++ l2).
Proof.
  revert head. induction l1 as [|c l1 IH]; intros head Hc Hlast Hne H2; [done|]. destruct Hc as [-> Hc].
  split; [done|]. destruct l1 as [|c' l1].
  - cbn [app]. by rewrite (Hlast c eq_refl).
  - by apply IH.
Qed.

Lemma cut_S step base n : cut step base (S n) = base :: cut step (base + step) n.
Proof.
  unfold cut. cbn [seq]. rewrite fmap_cons, <- fmap_S_seq, <- list_fmap_compose.
  rewrite Z.add_0_r. f_equal. apply list_fmap_ext. intros _ i _. cbn [compose]. lia.
Qed.
Lemma elem_of_cut step base n c :
  c ∈ cut step base n <-> exists i, (i < n)%nat /\ c = base + Z.of_nat i * step.
Proof.
  unfold cut. rewrite list_elem_of_fmap. split.
  - intros (i & -> & [_ Hi]%elem_of_seq). exists i. split; [lia | done].
  - intros (i & Hi & ->). exists i. split; [done|]. apply elem_of_seq. lia.
Qed.
Lemma cut_nodup step base n : 0 < step -> NoDup (cut step base n).
Proof. intros Hs. apply NoDup_fmap_2; [|apply NoDup_seq]. intros i j Hij. nia. Qed.
Lemma cut_last step base n : last (cut step base (S n)) = Some (base + Z.of_nat n * step).
Proof. unfold cut. rewrite seq_S, fmap_app. cbn [fmap list_fmap Nat.add]. by rewrite last_snoc. Qed.

Lemma link_chunks_ok n step cur w :
  0 < step ->
  let r := link_chunks n step cur w in
  r.1 = cur + Z.of_nat n * step /\ chain r.2 cur (cut step cur (S n)) /\
  (forall a, a ∉ cut step cur n -> r.2 !! a = w !! a).
Proof.
  intros Hs. cbv zeta. revert cur w. induction n as [|n IH]; intros cur w; cbn [link_chunks].
  - split_and!; [cbn [fst]; lia | | done]. rewrite cut_S. by split.
  - destruct (IH (cur + step) (<[cur := cur + step]> w)) as (H1 & H2 & H3). split_and!.
    + rewrite H1. lia.
    + rewrite cut_S. split; [done|]. unfold chunk_next. rewrite H3, lookup_insert_eq; [done|].
      intros (i & Hi & E)%elem_of_cut. nia.
    + intros a. rewrite cut_S, not_elem_of_cons. intros [Hne Ha]. rewrite H3 by done.
      by rewrite lookup_insert_ne.
Qed.

(** ** The invariant *)

Section inv.
Context (getpagesize : Z) (mem_arena : Z -> list Z -> option Z) (area_malloc : list Z -> bool).
Context (page_pos : 0 < getpagesize).

(** Fresh mappings are apart from the older ones, which have the same size. *)
Class ArenaOk : Prop := arena_ok : forall n areas p,
  mem_arena n areas = Some p ->
  0 < p /\ p + n <= 2 ^ 64 /\ Forall (fun a => p + n <= a \/ a + n <= p) areas.
Context (Harena : ArenaOk).

Definition step_of (mp : mpool_t) : Z := sizeof_memchunk + mp.(chunk_size).
Definition area_size (mp : mpool_t) : Z := mp.(page_count) * getpagesize.

Definition is_chunk (mp : mpool_t) (c : Z) : Prop :=
  exists a i, a ∈ mp.(area_mapped) /\ (0 <= i) /\ c = a + i * step_of mp /\
    c + step_of mp <= a + area_size mp.

Record geometry (mp : mpool_t) : Prop := mk_geometry {
  ge_size : 0 <= mp.(chunk_size);
  ge_area : step_of mp <= area_size mp < 2 ^ 64;
  ge_pos : Forall (fun a => 0 < a) mp.(area_mapped);
  ge_some : mp.(area_mapped) <> [];
  ge_apart : forall i j a b, mp.(area_mapped) !! i = Some a -> mp.(area_mapped) !! j = Some b ->
    i <> j -> a + area_size mp <= b \/ b + area_size mp <= a
}.

(** The headers of chunks, as the users know them. *)
Definition headers (live : list Z) : list Z := (fun p => p - sizeof_memchunk) <$> live.

(** [live] are the chunks in use, as the users know them. *)
Record pool_inv (mp : mpool_t) (w : words) (live : list Z) (free : list Z) : Prop := mk_pool_inv {
  pi_geometry : geometry mp;
  pi_chain : chain w mp.(free_chunk_head) free;
  pi_count : mp.(chunk_count) = Z.of_nat (length free);
  pi_nodup : NoDup (free ++ headers live);
  pi_chunks : Forall (is_chunk mp) (free ++ headers live)
}.

Lemma area_apart mp a b :
  geometry mp -> a ∈ mp.(area_mapped) -> b ∈ mp.(area_mapped) ->
  a = b \/ a + area_size mp <= b \/ b + area_size mp <= a.
Proof.
  intros Hg [i Hi]%list_elem_of_lookup [j Hj]%list_elem_of_lookup.
  destruct (decide (i = j)) as [->|Hne]; [left; congruence | right]. by eapply ge_apart.
Qed.
(** Different chunks do not overlap. *)
Lemma chunk_apart mp c d :
  geometry mp -> is_chunk mp c -> is_chunk mp d -> c <> d ->
  c + step_of mp <= d \/ d + step_of mp <= c.
Proof.
  intros Hg (a & i & Ha & Hi & Ec & Hc) (b & j & Hb & Hj & Ed & Hd) Hne.
  assert (0 < step_of mp) by (destruct Hg; unfold step_of, sizeof_memchunk; lia).
  destruct (area_apart mp a b Hg Ha Hb) as [->|[Hab|Hab]]; [|nia | nia].
  destruct (Z.lt_trichotomy i j) as [Hij|[->|Hij]]; [left; nia | lia | right; nia].
Qed.
Lemma chunk_pos mp c : geometry mp -> is_chunk mp c -> 0 < c.
Proof.
  intros Hg (a & i & Ha & Hi & -> & _). pose proof (ge_pos _ Hg) as Hp. rewrite Forall_forall in Hp.
  specialize (Hp a Ha). assert (0 < step_of mp) by (destruct Hg; unfold step_of, sizeof_memchunk; lia). nia.
Qed.

(** ** The calls *)

(** The number of chunks of an area. *)
Definition per_area (mp : mpool_t) : nat := Z.to_nat (area_size mp / step_of mp).

Lemma step_pos mp : geometry mp -> 0 < step_of mp.
Proof. intros Hg. destruct Hg. unfold step_of, sizeof_memchunk. lia. Qed.
Lemma per_area_ok mp :
  geometry mp -> per_area mp = S (Z.to_nat (u64 (area_size mp / step_of mp - 1))).
Proof.
  intros Hg. pose proof (step_pos _ Hg). pose proof (ge_area _ Hg). unfold per_area, u64.
  assert (1 <= area_size mp / step_of mp) by (apply Z.div_le_lower_bound; lia).
  assert (area_size mp / step_of mp <= area_size mp) by (apply Z.div_le_upper_bound; nia).
  rewrite Z.mod_small by lia. lia.
Qed.
(** The chunks of an area are chunks. *)
Lemma cut_chunks mp a n :
  geometry mp -> a ∈ mp.(area_mapped) -> Z.of_nat n * step_of mp <= area_size mp ->
  Forall (is_chunk mp) (cut (step_of mp) a n).
Proof.
  intros Hg Ha Hn. apply Forall_forall. intros c (i & Hi & ->)%elem_of_cut.
  pose proof (step_pos _ Hg). exists a, (Z.of_nat i). split_and!; [done | lia | done | nia].
Qed.
Lemma per_area_fits mp : geometry mp -> Z.of_nat (per_area mp) * step_of mp <= area_size mp.
Proof.
  intros Hg. pose proof (step_pos _ Hg). pose proof (ge_area _ Hg). unfold per_area.
  rewrite Z2Nat.id by (apply Z.div_pos; lia). rewrite Z.mul_comm. by apply Z.mul_div_le.
Qed.

(** A larger pool has the old chunks, and they are apart from those of a new
    area. *)
Definition grown (mp : mpool_t) (p head count : Z) : mpool_t :=
  mk_mpool count mp.(page_count) mp.(chunk_size) head (mp.(area_mapped) ++ [p]).
Lemma grown_geometry mp p head count :
  geometry mp -> mem_arena (area_size mp) mp.(area_mapped) = Some p -> geometry (grown mp p head count).
Proof using Harena.
  intros [H1 H2 H3 H4 H5] Hp. destruct (Harena _ _ _ Hp) as (Hpos & _ & Hap). split; cbn [area_mapped grown]; try done.
  - apply Forall_app. split; [done|]. by constructor.
  - by destruct (area_mapped mp).
  - assert (forall i a, area_mapped mp !! i = Some a -> p + area_size mp <= a \/ a + area_size mp <= p) as Hap'.
    { intros i a Hi. rewrite Forall_forall in Hap. apply Hap. by eapply list_elem_of_lookup_2. }
    intros i j a b. rewrite !lookup_app. destruct (area_mapped mp !! i) as [a'|] eqn:Ei, (area_mapped mp !! j) as [b'|] eqn:Ej.
    + intros [= <-] [= <-]. by eapply H5.
    + intros [= <-] [_ ->]%list_lookup_singleton_Some _. destruct (Hap' _ _ Ei); tauto.
    + intros [_ ->]%list_lookup_singleton_Some [= <-] _. destruct (Hap' _ _ Ej); tauto.
    + intros [Hi _]%list_lookup_singleton_Some [Hj _]%list_lookup_singleton_Some Hne.
      apply lookup_ge_None in Ei, Ej. lia.
Qed.
Lemma grown_chunk mp p head count c : is_chunk mp c -> is_chunk (grown mp p head count) c.
Proof. intros (a & i & Ha & H). exists a, i. split; [|done]. cbn [area_mapped grown]. apply elem_of_app. by left. Qed.

Lemma extend_ok mp w live :
  pool_inv mp w live [] -> chunk_count mp = 0 ->
  match mpool_extend getpagesize mem_arena area_malloc mp w with
  | None => True
  | Some (mp', w') => chunk_size mp' = chunk_size mp /\ page_count mp' = page_count mp /\
      exists free, pool_inv mp' w' live free /\ free <> []
  end.
Proof using Harena page_pos.
  intros [Hg _ _ Hnd Hch] Hcnt. unfold mpool_extend. fold (area_size mp).
  destruct (mem_arena _ _) as [p|] eqn:Ep; [|done]. destruct (negb _); [done|]. fold (step_of mp).
  pose proof (step_pos _ Hg) as Hs. pose proof (per_area_ok mp Hg) as Hper.
  set (n := Z.to_nat (u64 _)) in *. destruct (link_chunks n (step_of mp) p w) as [cur w'] eqn:El.
  destruct (link_chunks_ok n (step_of mp) p w Hs) as (_ & Hc & _). rewrite El, <- Hper in Hc. cbn [snd] in Hc.
  set (cnt := _ + _). change (mk_mpool cnt _ _ p _) with (grown mp p p cnt).
  split; [done|]. split; [done|]. pose proof (grown_geometry mp p p cnt Hg Ep) as Hg'.
  exists (cut (step_of mp) p (per_area mp)). split; [|rewrite Hper, cut_S; done].
  assert (Forall (is_chunk (grown mp p p cnt)) (cut (step_of mp) p (per_area mp))) as Hnew.
  { apply (cut_chunks (grown mp p p cnt)); [done | apply elem_of_app; right; by left | exact (per_area_fits mp Hg)]. }
  split; try done.
  - cbn [chunk_count grown]. unfold cnt, cut, per_area. rewrite length_fmap, length_seq, Hcnt.
    rewrite Z2Nat.id; [lia|]. apply Z.div_pos; [destruct (ge_area _ Hg) |]; lia.
  - rewrite NoDup_app. split_and!; [by apply cut_nodup | | done].
    intros c Hc1 Hc2. rewrite Forall_forall in Hch. destruct (Hch c) as (a & i & Ha & Hi & -> & Hle); [done|].
    apply elem_of_cut in Hc1 as (j & Hj & Ej). destruct (Harena _ _ _ Ep) as (_ & _ & Hap).
    rewrite Forall_forall in Hap. pose proof (per_area_fits mp Hg). destruct (Hap a Ha); nia.
  - apply Forall_app. split; [done|]. eapply Forall_impl; [exact Hch|]. apply grown_chunk.
Qed.

(** The chunk that the next allocation takes, and the words it leaves. *)
Lemma helper_ok mp w live c free :
  pool_inv mp w live (c :: free) ->
  mpool_alloc_helper mp w = (set_free mp (chunk_next w c) (Z.of_nat (length free)), c + sizeof_memchunk) /\
  pool_inv (set_free mp (chunk_next w c) (Z.of_nat (length free))) w (c + sizeof_memchunk :: live) free.
Proof.
  intros [Hg [Eh Hc] Hcnt Hnd Hch]. unfold mpool_alloc_helper. rewrite Eh, Hcnt. cbn [length].
  split; [f_equal; f_equal; lia|]. destruct Hg as [G1 G2 G3 G4 G5].
  assert (headers (c + sizeof_memchunk :: live) = c :: headers live) as E
    by (cbn [headers fmap list_fmap]; f_equal; lia).
  split; try done.
  - rewrite E. rewrite <- Permutation_middle. exact Hnd.
  - rewrite E. change (is_chunk (set_free _ _ _)) with (is_chunk mp). rewrite <- Permutation_middle. exact Hch.
Qed.

(** An allocation, before the chunk is cleared. *)
Lemma ready_ok mp w live free :
  pool_inv mp w live free ->
  match (if mp.(chunk_count) =? 0 then mpool_extend getpagesize mem_arena area_malloc mp w
         else Some (mp, w)) with
  | None => chunk_count mp = 0
  | Some (mp1, w1) =>
      let '(mp', p) := mpool_alloc_helper mp1 w1 in
      p <> 0 /\ chunk_size mp' = chunk_size mp /\ page_count mp' = page_count mp /\
      exists free', pool_inv mp' w1 (p :: live) free'
  end.
Proof using Harena page_pos.
  intros Hinv. pose proof (pi_count _ _ _ _ Hinv) as Hcnt.
  assert (forall mp1 w1 free1, pool_inv mp1 w1 live free1 -> free1 <> [] ->
    chunk_size mp1 = chunk_size mp -> page_count mp1 = page_count mp ->
    let '(mp', p) := mpool_alloc_helper mp1 w1 in
    p <> 0 /\ chunk_size mp' = chunk_size mp /\ page_count mp' = page_count mp /\
    exists free', pool_inv mp' w1 (p :: live) free') as Hhelp.
  { intros mp1 w1 [|c free1] Hinv1 Hne E1 E2; [done|]. destruct (helper_ok _ _ _ _ _ Hinv1) as [-> H].
    split_and!; [|done..|by exists free1]. pose proof (pi_chunks _ _ _ _ Hinv1) as Hch.
    apply Forall_cons in Hch as [Hc _]. pose proof (chunk_pos _ _ (pi_geometry _ _ _ _ Hinv1) Hc).
    unfold sizeof_memchunk. lia. }
  destruct (Z.eqb_spec (chunk_count mp) 0) as [E0|E0].
  - assert (free = []) as -> by (destruct free; [done | cbn [length] in Hcnt; lia]).
    pose proof (extend_ok mp w live Hinv E0) as Hext. destruct (mpool_extend _ _ _ _ _) as [[mp1 w1]|]; [|done].
    destruct Hext as (E1 & E2 & free1 & H1 & Hne). exact (Hhelp mp1 w1 free1 H1 Hne E1 E2).
  - assert (free <> []) as Hne by (intros ->; done). exact (Hhelp mp w free Hinv Hne eq_refl eq_refl).
Qed.

(** Writes inside a chunk in use leave the free list alone. *)
Lemma free_apart mp w live free c p a :
  pool_inv mp w live free -> c ∈ free -> p ∈ live -> p <= a < p + chunk_size mp -> c <> a.
Proof.
  intros [Hg _ _ Hnd Hch] Hc Hp Ha. rewrite NoDup_app in Hnd. destruct Hnd as (_ & Hnd & _).
  rewrite Forall_app, !Forall_forall in Hch. destruct Hch as [Hch1 Hch2].
  assert (p - sizeof_memchunk ∈ headers live) as Hh
    by exact (list_elem_of_fmap_2 (fun p => p - sizeof_memchunk) live p Hp).
  destruct (chunk_apart mp c (p - sizeof_memchunk)) as [H|H]; try done; [by apply Hch1 | by apply Hch2 | | |];
    [intros ->; by apply (Hnd _ Hc)| |]; unfold step_of, sizeof_memchunk in *; destruct Hg; lia.
Qed.
Lemma inv_words mp w w' live free :
  pool_inv mp w live free -> (forall c, c ∈ free -> chunk_next w' c = chunk_next w c) ->
  pool_inv mp w' live free.
Proof. intros [H1 H2 H3 H4 H5] Hw. split; try done. by eapply chain_ext. Qed.
Lemma store_ok mp w live free p a v :
  pool_inv mp w live free -> p ∈ live -> p <= a < p + chunk_size mp ->
  pool_inv mp (<[a := v]> w) live free.
Proof.
  intros Hinv Hp Ha. apply (inv_words mp w); [done|]. intros c Hc. unfold chunk_next.
  rewrite lookup_insert_ne; [done|]. apply not_eq_sym. by eapply free_apart.
Qed.
Lemma memset0_next p n w a :
  chunk_next (memset0 p n w) a = if decide (p <= a < p + n) then 0 else chunk_next w a.
Proof.
  unfold chunk_next, memset0. rewrite map_lookup_filter.
  destruct (w !! a) as [v|]; cbn [mbind option_bind default from_option]; [|by destruct (decide _)].
  destruct (decide (p <= a < p + n)); [by rewrite option_guard_False by tauto | by rewrite option_guard_True by tauto].
Qed.

Lemma free_ok mp w live1 p live2 free :
  pool_inv mp w (live1 ++ p :: live2) free ->
  let '(mp', w') := mpool_free mp w p in
  pool_inv mp' w' (live1 ++ live2) (p - sizeof_memchunk :: free).
Proof.
  intros [Hg Hc Hcnt Hnd Hch]. unfold mpool_free. set (c := p - sizeof_memchunk).
  assert (headers (live1 ++ p :: live2) ≡ₚ c :: headers (live1 ++ live2)) as E.
  { unfold headers. rewrite !fmap_app. cbn [fmap list_fmap]. by rewrite Permutation_middle. }
  rewrite E, <- Permutation_middle in Hnd, Hch. destruct Hg as [G1 G2 G3 G4 G5]. split; try done.
  - cbn [free_chunk_head set_free chain]. split; [done|]. unfold chunk_next at 1. rewrite lookup_insert_eq.
    eapply chain_ext; [|exact Hc]. intros d Hd. unfold chunk_next. rewrite lookup_insert_ne; [done|].
    intros <-. apply NoDup_cons in Hnd as [Hn _]. apply Hn, elem_of_app. by left.
  - cbn [chunk_count set_free length]. lia.
Qed.

(** All chunks of all areas. *)
Definition all_chunks (step : Z) (n : nat) (areas : list Z) : list Z :=
  areas ≫= fun a => cut step a n.

Lemma refresh_areas_ok n step areas w :
  0 < step -> NoDup (all_chunks step (S n) areas) ->
  let w' := refresh_areas n step areas w in
  chain w' (default 0 (head areas)) (all_chunks step (S n) areas) /\
  (forall a, a ∉ all_chunks step (S n) areas -> w' !! a = w !! a).
Proof.
  intros Hs. revert w. induction areas as [|a areas IH]; intros w; [done|].
  unfold all_chunks. rewrite bind_cons. fold (all_chunks step (S n) areas).
  rewrite NoDup_app. intros (_ & Hdis & Hnd). cbn [refresh_areas].
  destruct (link_chunks_ok n step a w Hs) as (Hcur & Hc & Hw). destruct (link_chunks n step a w) as [cur w1].
  cbn [fst snd] in *. set (b := default 0 (head areas)).
  destruct (IH (<[cur := b]> w1) Hnd) as [IH1 IH2]. fold b in IH1.
  assert (cur ∈ cut step a (S n)) as Hin by (apply elem_of_cut; exists n; split; [lia | done]).
  split.
  - apply (chain_app _ _ _ _ b); [| | by rewrite cut_S | done].
    + eapply chain_ext_last; [by apply cut_nodup | | exact Hc]. intros c Hc' Hlast. unfold chunk_next.
      rewrite IH2 by by apply Hdis. rewrite lookup_insert_ne; [done|]. intros <-. apply Hlast.
      by rewrite cut_last, Hcur.
    + intros c. rewrite cut_last, <- Hcur. intros [= <-]. unfold chunk_next.
      by rewrite IH2, lookup_insert_eq by by apply Hdis.
  - intros c. rewrite not_elem_of_app. intros [Hc1 Hc2]. rewrite IH2 by done.
    rewrite lookup_insert_ne by (by intros ->). apply Hw. intros (i & Hi & ->)%elem_of_cut. apply Hc1, elem_of_cut.
    exists i. split; [lia | done].
Qed.

Lemma all_chunks_nodup mp n :
  geometry mp -> Z.of_nat n * step_of mp <= area_size mp -> NoDup (all_chunks (step_of mp) n mp.(area_mapped)).
Proof.
  intros Hg Hn. pose proof (step_pos _ Hg) as Hs. pose proof (ge_apart _ Hg) as Hap. unfold all_chunks.
  induction (area_mapped mp) as [|a areas IH]; [constructor|]. rewrite bind_cons, NoDup_app. split_and!.
  - by apply cut_nodup.
  - intros c (i & Hi & ->)%elem_of_cut (b & (j & Hj & E)%elem_of_cut & [k Hb]%list_elem_of_lookup)%list_elem_of_bind.
    assert (0 <= Z.of_nat i * step_of mp < Z.of_nat n * step_of mp) by nia.
    assert (0 <= Z.of_nat j * step_of mp < Z.of_nat n * step_of mp) by nia.
    destruct (Hap 0%nat (S k) a b eq_refl Hb) as [Hab|Hab]; (done || lia).
  - apply IH. intros i j x y Hi Hj Hne. apply (Hap (S i) (S j)); [done..|]. lia.
Qed.
Lemma all_chunks_length step n areas : length (all_chunks step n areas) = (n * length areas)%nat.
Proof.
  unfold all_chunks. induction areas as [|a areas IH]; [cbn; lia|]. rewrite bind_cons, length_app, IH.
  unfold cut. rewrite length_fmap, length_seq. cbn [length]. lia.
Qed.
Lemma all_chunks_are mp n :
  geometry mp -> Z.of_nat n * step_of mp <= area_size mp ->
  Forall (is_chunk mp) (all_chunks (step_of mp) n mp.(area_mapped)).
Proof.
  intros Hg Hn. apply Forall_forall. intros c (a & Hc & Ha)%list_elem_of_bind.
  pose proof (cut_chunks mp a n Hg Ha Hn) as H. rewrite Forall_forall in H. by apply H.
Qed.

Lemma refresh_ok mp w :
  geometry mp ->
  let '(mp', w') := mpool_refresh_all getpagesize mp w in
  chunk_size mp' = chunk_size mp /\ page_count mp' = page_count mp /\ exists free, pool_inv mp' w' [] free.
Proof using page_pos.
  intros Hg. unfold mpool_refresh_all. fold (area_size mp) (step_of mp). set (mp' := set_free mp _ _).
  split; [done|]. split; [done|]. pose proof (per_area_ok mp Hg) as Hper. set (n := Z.to_nat (u64 _)) in *.
  pose proof (per_area_fits mp Hg) as Hfit.
  exists (all_chunks (step_of mp) (per_area mp) mp.(area_mapped)).
  pose proof (all_chunks_nodup mp (per_area mp) Hg Hfit) as Hnd.
  assert (headers [] = []) as Eh by done. split; rewrite ?Eh, ?app_nil_r; try done.
  - by destruct Hg.
  - cbn [free_chunk_head mp' set_free]. rewrite Hper in *. by apply refresh_areas_ok, Hnd; apply step_pos.
  - cbn [chunk_count mp' set_free]. rewrite all_chunks_length. unfold per_area.
    rewrite Nat2Z.inj_mul, Z2Nat.id; [done|]. apply Z.div_pos; [|by apply step_pos].
    pose proof (ge_area _ Hg). pose proof (step_pos _ Hg). lia.
  - exact (all_chunks_are mp (per_area mp) Hg Hfit).
Qed.

Lemma create_ok pool_size cs mp w :
  0 <= cs -> cs + sizeof_memchunk <= pool_size < 2 ^ 64 ->
  mpool_create getpagesize mem_arena true pool_size cs ∅ = Some (mp, w) ->
  mp.(chunk_size) = cs /\ exists free, pool_inv mp w [] free.
Proof using Harena page_pos.
  intros Hcs Hps. unfold mpool_create. cbn [negb]. cbv zeta.
  destruct (Z.ltb_spec (size_max - sizeof_memchunk) cs) as [|Hc1]; [done|].
  destruct (Z.ltb_spec pool_size (cs + sizeof_memchunk)) as [|_]; [lia|].
  destruct (Z.ltb_spec (size_max - getpagesize + 1) pool_size) as [|Hc2]; [done|].
  unfold size_max in *. set (pages := u64 _ / _).
  assert (pages = (pool_size + getpagesize - 1) / getpagesize) as Epages
    by (unfold pages, u64; rewrite Z.mod_small by (unfold sizeof_memchunk in *; lia); done).
  destruct (Z.ltb_spec ((2 ^ 64 - 1) / getpagesize) pages) as [|Hc3]; [done|].
  destruct (mem_arena _ _) as [p|] eqn:Ep; [|done]. destruct (Harena _ _ _ Ep) as (Hp & Hle & _).
  assert (0 < sizeof_memchunk + cs) as Hs by (unfold sizeof_memchunk; lia).
  set (step := sizeof_memchunk + cs) in *. set (cnt := pool_size / step).
  assert (1 <= cnt) as H1 by (apply Z.div_le_lower_bound; unfold step in *; lia).
  assert (cnt <= pool_size) as H2 by (apply Z.div_le_upper_bound; nia).
  assert (u64 (cnt - 1) = cnt - 1) as -> by (unfold u64; rewrite Z.mod_small; lia).
  assert (pool_size <= pages * getpagesize) as Hfit by (rewrite Epages; div_lia).
  assert (pages * getpagesize < 2 ^ 64) as Hlt.
  { assert (pages * getpagesize <= (2 ^ 64 - 1) / getpagesize * getpagesize) by nia.
    pose proof (Z.mul_div_le (2 ^ 64 - 1) getpagesize page_pos). lia. }
  destruct (link_chunks_ok (Z.to_nat (cnt - 1)) step p ∅ Hs) as (Hcur & Hc & _).
  destruct (link_chunks _ step p ∅) as [cur w1]. cbn [fst snd] in *. intros [= <- <-]. split; [done|].
  assert (S (Z.to_nat (cnt - 1)) = Z.to_nat cnt) as En by lia. rewrite En in Hc.
  exists (cut step p (Z.to_nat cnt)). set (mp := mk_mpool _ _ _ _ _).
  assert (geometry mp) as Hg.
  { split; cbn [area_mapped mp]; try done.
    - unfold step_of, area_size. cbn [mp chunk_size page_count]. fold step. unfold step in *. lia.
    - by constructor.
    - intros i j a b [-> _]%list_lookup_singleton_Some [-> _]%list_lookup_singleton_Some. done. }
  assert (headers [] = []) as Eh by done. split; rewrite ?Eh, ?app_nil_r; try done.
  - eapply chain_ext_last; [by apply cut_nodup | | exact Hc]. intros c _ Hlast. unfold chunk_next.
    rewrite lookup_insert_ne; [done|]. intros <-. apply Hlast. rewrite <- En, cut_last. by rewrite Hcur.
  - cbn [chunk_count mp]. unfold cut. rewrite length_fmap, length_seq. lia.
  - by apply cut_nodup.
  - apply (cut_chunks mp); [done | by left|]. rewrite Z2Nat.id by lia. change (step_of mp) with step.
    change (area_size mp) with (pages * getpagesize). pose proof (Z.mul_div_le pool_size step Hs). unfold cnt. lia.
Qed.

(** The result of an allocation: no memory and nothing changed, or a chunk. *)
Definition allocated (mp : mpool_t) (w : words) (live : list Z) (r : mpool_t * words * Z) : Prop :=
  let '(mp', w', p) := r in
  p = 0 /\ mp' = mp /\ w' = w /\ chunk_count mp = 0 \/
  p <> 0 /\ chunk_size mp' = chunk_size mp /\ page_count mp' = page_count mp /\
    exists free', pool_inv mp' w' (p :: live) free'.

Lemma alloc_ok mp w live free :
  pool_inv mp w live free -> allocated mp w live (mpool_alloc getpagesize mem_arena area_malloc mp w).
Proof using Harena page_pos.
  intros Hinv. pose proof (ready_ok mp w live free Hinv) as H. unfold mpool_alloc.
  destruct (if _ : bool then _ else _) as [[mp1 w1]|]; [|by left].
  destruct (mpool_alloc_helper mp1 w1) as [mp' p]. by right.
Qed.
Lemma calloc_ok mp w live free :
  pool_inv mp w live free ->
  let r := mpool_calloc getpagesize mem_arena area_malloc mp w in
  allocated mp w live r /\
  (r.2 <> 0 -> forall a, r.2 <= a < r.2 + chunk_size mp -> chunk_next r.1.2 a = 0).
Proof using Harena page_pos.
  intros Hinv. pose proof (ready_ok mp w live free Hinv) as H. unfold mpool_calloc.
  destruct (if _ : bool then _ else _) as [[mp1 w1]|]; [|split; [by left | done]].
  destruct (mpool_alloc_helper mp1 w1) as [mp' p]. destruct H as (Hp & E1 & E2 & free' & H). split.
  - right. split_and!; [done..|]. exists free'. apply (inv_words mp' w1); [done|]. intros c Hc.
    rewrite memset0_next, decide_False; [done|]. intros Hr.
    by apply (free_apart _ _ _ _ c p c H Hc (list_elem_of_here _ _)).
  - cbn [fst snd]. intros _ a Ha. rewrite memset0_next, E1. by rewrite decide_True.
Qed.

(** ** Reachable pools *)

(** [live] are the chunks in use.  A user may write into his chunks, and gives
    back only what is in use. *)
Inductive pool_reach : mpool_t -> words -> list Z -> Prop :=
  | reach_create pool_size cs mp w :
      0 <= cs -> cs + sizeof_memchunk <= pool_size < 2 ^ 64 ->
      mpool_create getpagesize mem_arena true pool_size cs ∅ = Some (mp, w) ->
      pool_reach mp w []
  | reach_alloc mp w live mp' w' p :
      pool_reach mp w live ->
      mpool_alloc getpagesize mem_arena area_malloc mp w = (mp', w', p) ->
      pool_reach mp' w' (if p =? 0 then live else p :: live)
  | reach_calloc mp w live mp' w' p :
      pool_reach mp w live ->
      mpool_calloc getpagesize mem_arena area_malloc mp w = (mp', w', p) ->
      pool_reach mp' w' (if p =? 0 then live else p :: live)
  | reach_store mp w live p a v :
      pool_reach mp w live -> p ∈ live -> p <= a < p + mp.(chunk_size) ->
      pool_reach mp (<[a := v]> w) live
  | reach_free mp w live1 p live2 mp' w' :
      pool_reach mp w (live1 ++ p :: live2) -> mpool_free mp w p = (mp', w') ->
      pool_reach mp' w' (live1 ++ live2)
  | reach_refresh mp w live mp' w' :
      pool_reach mp w live -> mpool_refresh_all getpagesize mp w = (mp', w') ->
      pool_reach mp' w' [].

Lemma allocated_inv mp w live free mp' w' p :
  pool_inv mp w live free -> allocated mp w live (mp', w', p) ->
  exists free', pool_inv mp' w' (if p =? 0 then live else p :: live) free'.
Proof.
  intros Hinv [(-> & -> & -> & _)|(Hp & _ & _ & free' & H)]; [by exists free|].
  exists free'. by destruct (Z.eqb_spec p 0).
Qed.
Lemma reach_inv mp w live : pool_reach mp w live -> exists free, pool_inv mp w live free.
Proof using Harena page_pos.
  induction 1 as [ps cs mp w Hcs Hps E|mp w live mp' w' p _ [free Hinv] E|mp w live mp' w' p _ [free Hinv] E
    |mp w live p a v _ [free Hinv] Hp Ha|mp w live1 p live2 mp' w' _ [free Hinv] E|mp w live mp' w' _ [free Hinv] E].
  - by destruct (create_ok _ _ _ _ Hcs Hps E) as [_ ?].
  - pose proof (alloc_ok _ _ _ _ Hinv) as H. rewrite E in H. by eapply allocated_inv.
  - destruct (calloc_ok _ _ _ _ Hinv) as [H _]. rewrite E in H. by eapply allocated_inv.
  - exists free. by apply (store_ok _ _ _ _ p).
  - eexists. pose proof (free_ok _ _ _ _ _ _ Hinv) as H. rewrite E in H. exact H.
  - pose proof (refresh_ok mp w (pi_geometry _ _ _ _ Hinv)) as H. rewrite E in H. by destruct H as (_ & _ & ?).
Qed.

Lemma live_apart mp w live free i j p q :
  pool_inv mp w live free -> live !! i = Some p -> live !! j = Some q -> i <> j ->
  p + chunk_size mp <= q \/ q + chunk_size mp <= p.
Proof.
  intros [Hg _ _ Hnd Hch] Hi Hj Hne. rewrite NoDup_app in Hnd. destruct Hnd as (_ & _ & Hnd).
  rewrite Forall_app, !Forall_forall in Hch. destruct Hch as [_ Hch].
  assert (headers live !! i = Some (p - sizeof_memchunk)) as Hi' by (unfold headers; by rewrite list_lookup_fmap, Hi).
  assert (headers live !! j = Some (q - sizeof_memchunk)) as Hj' by (unfold headers; by rewrite list_lookup_fmap, Hj).
  destruct (chunk_apart mp (p - sizeof_memchunk) (q - sizeof_memchunk)) as [H|H]; try done.
  - by eapply Hch, list_elem_of_lookup_2.
  - by eapply Hch, list_elem_of_lookup_2.
  - intros E. rewrite E in Hi'. apply Hne. by eapply NoDup_lookup.
  - unfold step_of, sizeof_memchunk in *. lia.
  - unfold step_of, sizeof_memchunk in *. lia.
Qed.
End inv.

(** C33.  The pool of mpool.c never hands memory out twice.  After any
    sequence of allocations, frees of chunks in use, refreshes and writes of
    the users into their chunks, on a pool that is created with room for one
    chunk: the chunks in use lie inside the areas and do not overlap; an
    allocation succeeds while the pool counts a free chunk; and the chunk that
    [mpool_calloc] returns is cleared. *)
Theorem mpool_disjoint pgsz mem_arena area_malloc mp w live :
  0 < pgsz -> ArenaOk mem_arena -> pool_reach pgsz mem_arena area_malloc mp w live ->
  (forall i j p q, live !! i = Some p -> live !! j = Some q -> i <> j ->
     p + mp.(chunk_size) <= q \/ q + mp.(chunk_size) <= p) /\
  (forall p, p ∈ live -> exists a, a ∈ mp.(area_mapped) /\ a + sizeof_memchunk <= p /\
     p + mp.(chunk_size) <= a + mp.(page_count) * pgsz) /\
  (0 < mp.(chunk_count) -> (mpool_alloc pgsz mem_arena area_malloc mp w).2 <> 0) /\
  (let '(_, w', p) := mpool_calloc pgsz mem_arena area_malloc mp w in
   p <> 0 -> forall a, p <= a < p + mp.(chunk_size) -> chunk_next w' a = 0).
Proof.
  intros Hpg Har Hreach. destruct (reach_inv _ _ _ Hpg Har _ _ _ Hreach) as [free Hinv]. split_and!.
  - intros i j p q. by eapply live_apart.
  - intros p Hp. pose proof (pi_chunks _ _ _ _ _ Hinv) as Hch. rewrite Forall_app, !Forall_forall in Hch.
    destruct Hch as [_ Hch].
    destruct (Hch (p - sizeof_memchunk)) as (a & i & Ha & Hi & E & Hle);
      [exact (list_elem_of_fmap_2 (fun p => p - sizeof_memchunk) live p Hp)|].
    exists a. pose proof (step_pos _ _ (pi_geometry _ _ _ _ _ Hinv)).
    unfold step_of, area_size, sizeof_memchunk in *. split; [done|]. nia.
  - intros Hc. pose proof (alloc_ok _ _ area_malloc Hpg Har _ _ _ _ Hinv) as H.
    destruct (mpool_alloc _ _ _ _ _) as [[mp' w'] p]. destruct H as [(_ & _ & _ & H)|[H _]]; [lia | done].
  - destruct (calloc_ok _ _ area_malloc Hpg Har _ _ _ _ Hinv) as [_ H].
    by destruct (mpool_calloc _ _ _ _ _) as [[mp' w'] p].
Qed.

(** Areas one after the other. *)
Definition demo_arena (n : Z) (areas : list Z) : option Z :=
  let p := foldr (fun a m => Z.max (a + Z.max n 0) m) 4096 areas in
  if p + n <=? 2 ^ 64 then Some p else None.
Lemma demo_arena_ok : ArenaOk demo_arena.
Proof.
  intros n areas p. unfold demo_arena. cbv zeta. set (q := foldr _ _ _).
  assert (4096 <= q /\ Forall (fun a => a + n <= q) areas) as [H1 H2].
  { unfold q. clear q. induction areas as [|a areas [IH1 IH2]]; cbn [foldr]; [split; [lia | constructor]|].
    revert IH1 IH2. generalize (foldr (fun a m => Z.max (a + Z.max n 0) m) 4096 areas). intros m IH1 IH2.
    split; [lia|]. constructor; [lia|]. eapply Forall_impl; [exact IH2|]. cbn beta. intros b Hb. lia. }
  destruct (Z.leb_spec (q + n) (2 ^ 64)); [|done]. intros [= <-]. split_and!; [lia | lia|].
  eapply Forall_impl; [exact H2|]. cbn beta. tauto.
Qed.

Definition demo_pool : mpool_t * words :=
  default (mk_mpool 0 0 0 0 [], ∅) (mpool_create 64 demo_arena true 48 16 ∅).
Definition demo_alloc (s : mpool_t * words) : mpool_t * words * Z :=
  mpool_alloc 64 demo_arena (fun _ => true) s.1 s.2.

Lemma mpool_disjoint_witness :
  let s1 := demo_alloc demo_pool in let s2 := demo_alloc s1.1 in let s3 := demo_alloc s2.1 in
  let live := [s3.2; s2.2; s1.2] in
  live = [4168; 4128; 4104] /\
  (forall i j p q, live !! i = Some p -> live !! j = Some q -> i <> j ->
     p + 16 <= q \/ q + 16 <= p).
Proof.
  cbv zeta. split; [vm_compute; reflexivity|].
  refine (proj1 (mpool_disjoint 64 demo_arena (fun _ => true) (demo_alloc (demo_alloc (demo_alloc demo_pool).1).1).1.1
    (demo_alloc (demo_alloc (demo_alloc demo_pool).1).1).1.2
    [(demo_alloc (demo_alloc (demo_alloc demo_pool).1).1).2; (demo_alloc (demo_alloc demo_pool).1).2;
     (demo_alloc demo_pool).2] _ demo_arena_ok _)).
  - lia.
  - refine (reach_alloc 64 demo_arena (fun _ => true) (demo_alloc (demo_alloc demo_pool).1).1.1
      (demo_alloc (demo_alloc demo_pool).1).1.2 [(demo_alloc (demo_alloc demo_pool).1).2; (demo_alloc demo_pool).2]
      _ _ (demo_alloc (demo_alloc (demo_alloc demo_pool).1).1).2 _ _); [|vm_compute; reflexivity].
    refine (reach_alloc 64 demo_arena (fun _ => true) (demo_alloc demo_pool).1.1
      (demo_alloc demo_pool).1.2 [(demo_alloc demo_pool).2]
      _ _ (demo_alloc (demo_alloc demo_pool).1).2 _ _); [|vm_compute; reflexivity].
    refine (reach_alloc 64 demo_arena (fun _ => true) demo_pool.1 demo_pool.2 []
      _ _ (demo_alloc demo_pool).2 _ _); [|vm_compute; reflexivity].
    apply (reach_create 64 demo_arena (fun _ => true) 48 16); [lia | unfold sizeof_memchunk; lia | vm_compute; reflexivity].
Defined.
