(* ===== verification/Utils.v ===== *)
(** * Paths and sets (src/rv32emu/src/utils.c)

    Characters are the codes of C's [char]; a C string is the list of its
    characters without the terminator.  [sanitize_path] works on a buffer of
    [n + 1] bytes; [None] is an access beyond it.  A [set_t] is a table of
    buckets, each a zero-terminated list of keys. *)

From Stdlib Require Import ZArith Lia Bool.
From stdpp Require Import base list numbers.
From S2P Require Import Prelude.

Definition MAX_PATH_LEN : nat := 1024.
Definition slash : Z := 47.
Definition dot : Z := 46.

(** [input[i]], with the terminator behind the last character. *)
Definition char_at (input : list Z) (i : nat) : Z := default 0 (input !! i).
Definition store_char (ret : list Z) (w : nat) (c : Z) : option (list Z) :=
  if decide (w < length ret)%nat then Some (<[w := c]> ret) else None.

(** [while (w > dotdot && ret[w] != '/') w--;] *)
Fixpoint backtrack (ret : list Z) (dotdot w : nat) : nat :=
  match w with
  | O => O
  | S w' => if decide (dotdot < w)%nat then
              if char_at ret w =? slash then w else backtrack ret dotdot w'
            else w
  end.

(** [for (; r < n && input[r] != '/'; r++) ret[w++] = input[r];] *)
Fixpoint copy_element (fuel : nat) (input : list Z) (n r w : nat) (ret : list Z)
    : option (nat * nat * list Z) :=
  match fuel with
  | O => Some (r, w, ret)
  | S fuel =>
      if decide (r < n)%nat then
        if char_at input r =? slash then Some (r, w, ret) else
        ret ← store_char ret w (char_at input r);
        copy_element fuel input n (S r) (S w) ret
      else Some (r, w, ret)
  end.

(** The main loop; every turn reads at least one character. *)
Fixpoint sanitize_loop (fuel : nat) (input : list Z) (n : nat) (is_root : bool)
    (r w dotdot : nat) (ret : list Z) : option (nat * list Z) :=
  match fuel with
  | O => None
  | S fuel =>
      if decide (r < n)%nat then
        if char_at input r =? slash then
          sanitize_loop fuel input n is_root (S r) w dotdot ret
        else if (char_at input r =? dot)
                && (bool_decide (S r = n) || (char_at input (S r) =? slash)) then
          sanitize_loop fuel input n is_root (S r) w dotdot ret
        else if (char_at input r =? dot) && (char_at input (S r) =? dot)
                && (bool_decide (S (S r) = n) || (char_at input (S (S r)) =? slash)) then
          let r := S (S r) in
          if decide (dotdot < w)%nat then
            sanitize_loop fuel input n is_root r (backtrack ret dotdot (pred w)) dotdot ret
          else if negb is_root then
            '(w, ret) ← (if decide (0 < w)%nat then ret ← store_char ret w slash; Some (S w, ret)
                         else Some (w, ret));
            ret ← store_char ret w dot;
            ret ← store_char ret (S w) dot;
            sanitize_loop fuel input n is_root r (S (S w)) (S (S w)) ret
          else sanitize_loop fuel input n is_root r w dotdot ret
        else
          '(w, ret) ← (if (is_root && bool_decide (w <> 1%nat)) || (negb is_root && bool_decide (w <> 0%nat))
                       then ret ← store_char ret w slash; Some (S w, ret)
                       else Some (w, ret));
          '(r, w, ret) ← copy_element n input n r w ret;
          sanitize_loop fuel input n is_root r w dotdot ret
      else Some (w, ret)
  end.

(** The whole buffer; [Some None] is the result [NULL]. *)
Definition sanitize_path (calloc_ok : bool) (input : list Z) : option (option (list Z)) :=
  let n := Nat.min (length input) MAX_PATH_LEN in
  if negb calloc_ok then Some None else
  let ret := replicate (S n) 0 in
  if decide (n = 0%nat) then Some (Some (<[0%nat := dot]> ret)) else
  let is_root := char_at input 0 =? slash in
  '(w, ret) ← (if is_root then
                 ret ← store_char ret 0 slash;
                 sanitize_loop (S n) input n is_root 1 1 1 ret
               else sanitize_loop (S n) input n is_root 0 0 0 ret);
  '(w, ret) ← (if decide (w = 0%nat) then ret ← store_char ret w dot; Some (S w, ret)
               else Some (w, ret));
  Some (Some (take w ret ++ replicate (S n - w) 0)).

(** ** Sets of keys *)

Definition SET_SIZE_BITS : Z := 10.
Definition SET_SLOTS_SIZE : nat := 32.

Definition set_hash (val : Z) : Z :=
  (u32 (val * 0x61C88647) >>. (32 - SET_SIZE_BITS)) &. ((1 <<. SET_SIZE_BITS) - 1).

Definition set_t : Type := list (list Z).
Definition set_reset : set_t := replicate 1024 (replicate SET_SLOTS_SIZE 0).

(** The search in a bucket: found, or the first free slot; [None] is a read
    behind the end of a full bucket. *)
Fixpoint bucket_search (bucket : list Z) (key : Z) (count : nat) : option (bool * nat) :=
  match bucket with
  | [] => None
  | k :: bucket =>
      if k =? 0 then Some (false, count)
      else if k =? key then Some (true, count) else bucket_search bucket key (S count)
  end.

Definition set_add (set : set_t) (key : Z) : option (set_t * bool) :=
  let index := Z.to_nat (set_hash key) in
  '(found, count) ← bucket_search (set !!! index) key 0;
  if (found : bool) then Some (set, false)
  else Some (<[index := <[count := key]> (set !!! index)]> set, true).

Definition set_has (set : set_t) (key : Z) : option bool :=
  let index := Z.to_nat (set_hash key) in
  '(found, _) ← bucket_search (set !!! index) key 0;
  Some found.
