(* ===== verification/UtilsSpec.v ===== *)
(** * Sanitised paths

    [clean] is the lexical processing that utils.h describes, on the elements
    of the path; [sanitize_path_clean] shows that the loop over characters
    computes it, inside its buffer. *)

From Stdlib Require Import ZArith Lia Bool.
From stdpp Require Import base list numbers gmap.
From S2P Require Import Prelude Utils.

(** ** The specification *)

Notation dotdot_elem := [dot; dot].

(** The elements between slashes. *)
Fixpoint split (s : list Z) : list (list Z) :=
  match s with
  | [] => [[]]
  | c :: s =>
      if c =? slash then [] :: split s
      else match split s with e :: es => (c :: e) :: es | [] => [[c]] end
  end.

(** A clean path: how many [..] it begins with, and the names after them. *)
Definition add_elem (rooted : bool) (st : nat * list (list Z)) (e : list Z) : nat * list (list Z) :=
  let '(ups, names) := st in
  if decide (e = [] \/ e = [dot]) then st
  else if decide (e = dotdot_elem) then
    match names with
    | [] => if rooted then st else (S ups, [])
    | _ => (ups, removelast names)
    end
  else (ups, names ++ [e]).

Fixpoint join (l : list (list Z)) : list Z :=
  match l with [] => [] | [e] => e | e :: l => e ++ slash :: join l end.
Definition render (rooted : bool) (st : nat * list (list Z)) : list Z :=
  (if rooted then [slash] else []) ++ join (replicate st.1 dotdot_elem ++ st.2).
Definition clean (s : list Z) : list Z :=
  let rooted := char_at s 0 =? slash in
  match render rooted (foldl (add_elem rooted) (0%nat, []) (split s)) with [] => [dot] | p => p end.

(** ** Elements *)

Fixpoint span (s : list Z) : list Z * list Z :=
  match s with
  | [] => ([], [])
  | c :: s' => if c =? slash then ([], s) else let '(e, r) := span s' in (c :: e, r)
  end.

Definition behind (r : list Z) : list (list Z) := match r with [] => [] | _ :: r => split r end.

Lemma split_span s : split s = (span s).1 :: behind (span s).2.
Proof.
  induction s as [|c s IH]; [done|]. cbn [split span]. destruct (c =? slash); [done|].
  rewrite IH. by destruct (span s) as [e r].
Qed.
Lemma span_app s : s = (span s).1 ++ (span s).2.
Proof.
  induction s as [|c s IH]; [done|]. cbn [span]. destruct (c =? slash); [done|].
  destruct (span s) as [e r]. cbn [fst snd app] in *. by f_equal.
Qed.
Lemma span_name s : Forall (fun c => c <> slash) (span s).1.
Proof.
  induction s as [|c s IH]; [constructor|]. cbn [span]. destruct (Z.eqb_spec c slash); [constructor|].
  destruct (span s) as [e r]. by constructor.
Qed.
Lemma span_rest s : (span s).2 = [] \/ exists r, (span s).2 = slash :: r.
Proof.
  induction s as [|c s IH]; [by left|]. cbn [span]. destruct (Z.eqb_spec c slash) as [->|]; [right; by exists s|].
  destruct (span s) as [e r]. exact IH.
Qed.

(** ** Joining *)

Lemma join_snoc l e : join (l ++ [e]) = match l with [] => e | _ => join l ++ slash :: e end.
Proof.
  induction l as [|x l IH]; [done|]. destruct l as [|y l]; [done|].
  change (join ((x :: y :: l) ++ [e])) with (x ++ slash :: join ((y :: l) ++ [e])). rewrite IH.
  change (join (x :: y :: l)) with (x ++ slash :: join (y :: l)). by rewrite <- app_assoc.
Qed.
Lemma join_nil l : Forall (fun e => e <> []) l -> join l = [] -> l = [].
Proof.
  intros H. destruct H as [|x l Hx H]; [done|]. destruct l as [|y l]; cbn [join]; [done|].
  intros E. by apply app_nil in E as [_ ?].
Qed.

(** The separator before a new element, and the path without its last one. *)
Definition sep (rooted : bool) (st : nat * list (list Z)) : list Z :=
  match replicate st.1 dotdot_elem ++ st.2 with [] => [] | _ => [slash] end.

Lemma render_snoc rooted ups names e :
  render rooted (ups, names ++ [e]) = render rooted (ups, names) ++ sep rooted (ups, names) ++ e.
Proof.
  unfold render, sep. cbn [fst snd]. rewrite app_assoc, join_snoc.
  destruct (replicate ups dotdot_elem ++ names); rewrite <- ?app_assoc; done.
Qed.
Lemma render_up rooted ups :
  render rooted (S ups, []) = render rooted (ups, []) ++ sep rooted (ups, []) ++ dotdot_elem.
Proof.
  unfold render, sep. cbn [fst snd]. rewrite !app_nil_r.
  assert (replicate (S ups) dotdot_elem = replicate ups dotdot_elem ++ [dotdot_elem]) as ->
    by by rewrite <- replicate_cons_app.
  rewrite join_snoc. destruct (replicate ups dotdot_elem); rewrite <- ?app_assoc; done.
Qed.

Definition name_ok (e : list Z) : Prop := e <> [] /\ Forall (fun c => c <> slash) e.
Lemma render_grow rooted ups names :
  (length (render rooted (ups, [])) <= length (render rooted (ups, names)))%nat.
Proof.
  induction names as [|e names IH] using rev_ind; [done|]. rewrite render_snoc, length_app. lia.
Qed.

(** ** The buffer *)

Lemma store_char_ok ret w c :
  (w < length ret)%nat ->
  exists ret', store_char ret w c = Some ret' /\ length ret' = length ret /\ take (S w) ret' = take w ret ++ [c].
Proof.
  intros Hw. unfold store_char. rewrite decide_True by done. eexists. split; [done|].
  split; [by rewrite length_insert|]. rewrite (take_S_r _ _ c) by by apply list_lookup_insert_eq.
  by rewrite take_insert_ge.
Qed.

(** The last name is cut off: back to its slash, or to the [..] prefix. *)
Lemma backtrack_ok ret dd p w :
  (dd <= p <= w)%nat -> p = dd \/ char_at ret p = slash ->
  (forall j, (p < j <= w)%nat -> char_at ret j <> slash) -> backtrack ret dd w = p.
Proof.
  intros Hp Hat Hj. induction w as [|w IH]; [cbn [backtrack]; lia|]. cbn [backtrack].
  destruct (decide (dd < S w)%nat) as [Hlt|Hge]; [|lia].
  destruct (decide (p = S w)) as [->|Hne].
  - destruct Hat as [E|Hat]; [lia|]. by rewrite Hat.
  - destruct (Z.eqb_spec (char_at ret (S w)) slash) as [E|_]; [by apply Hj in E; [|lia]|].
    apply IH; [lia|]. intros j Hj'. apply Hj. lia.
Qed.

Section loop.
Context (input : list Z) (n : nat) (Hn : (n <= length input)%nat).
Notation s := (take n input).

(** What is left to read at [r]. *)
Lemma at_char r c t : drop r s = c :: t -> (r < n)%nat /\ char_at input r = c /\ drop (S r) s = t.
Proof using Hn.
  intros E. assert (s !! r = Some c) as Hr.
  { rewrite <- (Nat.add_0_r r), <- lookup_drop, E. done. }
  pose proof Hr as Hlt. apply lookup_lt_Some in Hlt. rewrite length_take in Hlt.
  split; [lia|]. split.
  - unfold char_at. rewrite lookup_take_lt in Hr by lia. by rewrite Hr.
  - rewrite <- Nat.add_1_r, <- drop_drop, E. done.
Qed.
Lemma at_end r : drop r s = [] -> (n <= r)%nat.
Proof using Hn. intros E. apply (f_equal length) in E. rewrite length_drop, length_take in E. cbn [length] in E. lia. Qed.
Lemma at_rest r t : drop r s = t -> (r <= n)%nat -> (r + length t)%nat = n.
Proof using Hn. intros <- Hr. rewrite length_drop, length_take. lia. Qed.

Lemma copy_ok e : forall fuel r w ret rest,
  drop r s = e ++ rest -> Forall (fun c => c <> slash) e -> rest = [] \/ (exists t, rest = slash :: t) ->
  (length e <= fuel)%nat -> (w + length e < length ret)%nat ->
  exists ret', copy_element fuel input n r w ret = Some ((r + length e)%nat, (w + length e)%nat, ret') /\
    length ret' = length ret /\ take (w + length e) ret' = take w ret ++ e.
Proof using Hn.
  induction e as [|c e IH]; intros fuel r w ret rest Hd Hname Hrest Hf Hw; cbn [length app] in *.
  - exists ret. rewrite !Nat.add_0_r, app_nil_r. split; [|done]. destruct fuel as [|fuel]; [done|]. cbn [copy_element].
    destruct Hrest as [->|[t ->]].
    + apply at_end in Hd. by rewrite decide_False by lia.
    + apply at_char in Hd as (Hr & -> & _). by rewrite decide_True by done.
  - destruct fuel as [|fuel]; [lia|]. cbn [copy_element]. apply at_char in Hd as (Hr & -> & Hd).
    rewrite decide_True by done. apply Forall_cons in Hname as [Hc Hname].
    destruct (Z.eqb_spec c slash) as [|_]; [done|].
    destruct (store_char_ok ret w c) as (ret1 & -> & Hl & Ht); [lia|]. cbn [mbind option_bind].
    destruct (IH fuel (S r) (S w) ret1 rest) as (ret' & E & H1 & H2); try done; [lia | lia|].
    exists ret'. rewrite E. replace (S r + length e)%nat with (r + S (length e))%nat by lia.
    replace (S w + length e)%nat with (w + S (length e))%nat in * by lia.
    split; [done|]. split; [congruence|]. rewrite H2, Ht, <- app_assoc. done.
Qed.

(** The state of the loop: the buffer holds the clean path so far. *)
Record holds (rooted : bool) (st : nat * list (list Z)) (w dd : nat) (ret : list Z) : Prop := mk_holds {
  ho_len : length ret = S n;
  ho_fit : (w <= n)%nat;
  ho_path : take w ret = render rooted st;
  ho_dd : dd = length (render rooted (st.1, []));
  ho_names : Forall name_ok st.2;
  ho_root : rooted = true -> st.1 = 0%nat
}.
Lemma ho_w rooted st w dd ret : holds rooted st w dd ret -> w = length (render rooted st).
Proof. intros [H1 H2 H3 _ _ _]. rewrite <- H3, length_take. lia. Qed.

(** An element can be written without the separator only if it is the first. *)
Lemma sep_empty rooted st :
  Forall name_ok st.2 -> length (render rooted st) = (if rooted then 1 else 0)%nat <-> sep rooted st = [].
Proof.
  intros Hn'. unfold render, sep. rewrite length_app. destruct (replicate st.1 dotdot_elem ++ st.2) as [|e l] eqn:El.
  { destruct rooted; done. }
  split; [|done]. intros E. exfalso.
  assert (Forall (fun e => e <> []) (e :: l)) as Hne.
  { rewrite <- El. apply Forall_app. split; [apply Forall_replicate; done|].
    eapply Forall_impl; [exact Hn'|]. by intros x [? _]. }
  assert (join (e :: l) = []) as Ej by (apply nil_length_inv; destruct rooted; cbn [length] in E; lia).
  by apply join_nil in Ej.
Qed.

Lemma sep_cases rooted st : sep rooted st = [] \/ sep rooted st = [slash].
Proof. unfold sep. destruct (_ ++ _); auto. Qed.

(** The separator is written when it is needed. *)
Lemma put_sep rooted st w dd ret (b : bool) :
  holds rooted st w dd ret -> b = bool_decide (w <> (if rooted then 1 else 0)%nat) ->
  (w + length (sep rooted st) < S n)%nat ->
  exists ret', (if b then ret ← store_char ret w slash; Some (S w, ret) else Some (w, ret)) =
    Some ((w + length (sep rooted st))%nat, ret') /\ length ret' = S n /\
    take (w + length (sep rooted st)) ret' = render rooted st ++ sep rooted st.
Proof.
  intros Hh -> Hfit. pose proof (ho_w _ _ _ _ _ Hh) as Ew. pose proof (sep_empty rooted st (ho_names _ _ _ _ _ Hh)) as Hsep.
  rewrite <- Ew in Hsep. destruct (sep_cases rooted st) as [E|E]; rewrite E in *; cbn [length] in *.
  - rewrite bool_decide_false by tauto. exists ret. rewrite Nat.add_0_r, app_nil_r.
    by destruct Hh.
  - rewrite bool_decide_true by (intros H; apply Hsep in H; done).
    destruct (store_char_ok ret w slash) as (ret' & -> & H1 & H2); [rewrite (ho_len _ _ _ _ _ Hh); lia|].
    exists ret'. cbn [mbind option_bind]. rewrite Nat.add_1_r. split; [done|].
    rewrite H1, H2, (ho_path _ _ _ _ _ Hh). by destruct Hh.
Qed.

(** The tests for the elements [.] and [..]. *)
Lemma test_dot r e rest :
  drop r s = e ++ rest -> e <> [] -> Forall (fun c => c <> slash) e -> rest = [] \/ (exists t, rest = slash :: t) ->
  (char_at input r =? dot) && (bool_decide (S r = n) || (char_at input (S r) =? slash)) = bool_decide (e = [dot]).
Proof using Hn.
  intros Hd Hne Hname Hrest. destruct e as [|c e]; [done|]. cbn [app] in Hd.
  apply at_char in Hd as (Hr & -> & Hd). destruct (Z.eqb_spec c dot) as [->|Hc]; [|symmetry; apply bool_decide_false; congruence].
  cbn [andb]. destruct e as [|d e]; cbn [app] in Hd.
  - rewrite (bool_decide_true (_ = [dot])) by done. destruct Hrest as [->|[t ->]].
    + apply at_end in Hd. by rewrite bool_decide_true by lia.
    + apply at_char in Hd as (_ & -> & _). apply orb_true_r.
  - apply at_char in Hd as (Hr' & -> & _). rewrite bool_decide_false by lia.
    apply Forall_cons in Hname as [_ Hname]. apply Forall_cons in Hname as [Hname _].
    destruct (Z.eqb_spec d slash); [done|]. symmetry. by apply bool_decide_false.
Qed.
Lemma test_dotdot r e rest :
  drop r s = e ++ rest -> e <> [] -> e <> [dot] -> Forall (fun c => c <> slash) e ->
  rest = [] \/ (exists t, rest = slash :: t) ->
  (char_at input r =? dot) && (char_at input (S r) =? dot)
  && (bool_decide (S (S r) = n) || (char_at input (S (S r)) =? slash)) = bool_decide (e = dotdot_elem).
Proof using Hn.
  intros Hd Hne Hne' Hname Hrest. destruct e as [|c e]; [done|]. cbn [app] in Hd.
  apply at_char in Hd as (Hr & -> & Hd). destruct (Z.eqb_spec c dot) as [->|Hc]; [|symmetry; apply bool_decide_false; congruence].
  cbn [andb]. destruct e as [|d e]; [done|]. pose proof Hd as Hd'. cbn [app] in Hd. apply at_char in Hd as (Hr' & Ec & _).
  apply Forall_cons in Hname as [_ Hname]. rewrite Ec.
  pose proof (test_dot (S r) (d :: e) rest Hd' ltac:(done) Hname Hrest) as H. rewrite Ec in H. rewrite H.
  apply bool_decide_ext. split; [intros [= -> ->]; done | by intros [= -> ->]].
Qed.

(** A name, [..] at the beginning, and [..] after a name. *)
Lemma push_name rooted ups names w dd ret e r rest (b : bool) :
  holds rooted (ups, names) w dd ret -> b = bool_decide (w <> (if rooted then 1 else 0)%nat) ->
  drop r s = e ++ rest -> name_ok e -> rest = [] \/ (exists t, rest = slash :: t) ->
  (w + length (sep rooted (ups, names)) <= r)%nat -> (r + length e <= n)%nat ->
  exists ret', ('(w, ret) ← (if b then ret ← store_char ret w slash; Some (S w, ret) else Some (w, ret));
                copy_element n input n r w ret) =
    Some ((r + length e)%nat, (w + length (sep rooted (ups, names)) + length e)%nat, ret') /\
    holds rooted (ups, names ++ [e]) (w + length (sep rooted (ups, names)) + length e) dd ret'.
Proof using Hn.
  intros Hh Hb Hd [He Hname] Hrest Hw Hr.
  destruct (put_sep rooted (ups, names) w dd ret b Hh Hb) as (ret1 & -> & H1 & H2); [destruct e; [done | cbn [length] in *; lia]|].
  cbn [mbind option_bind].
  destruct (copy_ok e n r (w + length (sep rooted (ups, names))) ret1 rest) as (ret' & E & H3 & H4); try done; [lia | lia|].
  exists ret'. split; [exact E|]. destruct Hh as [G1 G2 G3 G4 G5 G6]. cbn [fst snd] in *. split; try done.
  - congruence.
  - lia.
  - rewrite H4, H2, render_snoc. by rewrite <- app_assoc.
  - cbn [snd]. apply Forall_app. split; [done|]. by repeat constructor.
Qed.
Lemma push_up ups w dd ret :
  holds false (ups, []) w dd ret -> (w + length (sep false (ups, [])) + 2 <= n)%nat ->
  exists ret', ('(w, ret) ← (if decide (0 < w)%nat then ret ← store_char ret w slash; Some (S w, ret)
                             else Some (w, ret));
                ret ← store_char ret w dot; ret ← store_char ret (S w) dot; Some (S (S w), ret)) =
    Some ((w + length (sep false (ups, [])) + 2)%nat, ret') /\
    let w' := (w + length (sep false (ups, [])) + 2)%nat in holds false (S ups, []) w' w' ret'.
Proof.
  intros Hh Hw. assert (Eb : forall A (x y : A), (if decide (0 < w)%nat then x else y) = (if bool_decide (w <> 0%nat) then x else y)).
  { intros A x y. destruct (decide (0 < w)%nat); [by rewrite bool_decide_true by lia | by rewrite bool_decide_false by lia]. }
  rewrite Eb. destruct (put_sep false (ups, []) w dd ret _ Hh eq_refl) as (ret1 & -> & H1 & H2); [lia|].
  cbn [mbind option_bind]. set (w1 := (w + length _)%nat) in *.
  destruct (store_char_ok ret1 w1 dot) as (ret2 & -> & H3 & H4); [lia|]. cbn [mbind option_bind].
  destruct (store_char_ok ret2 (S w1) dot) as (ret3 & -> & H5 & H6); [lia|]. cbn [mbind option_bind].
  exists ret3. split; [repeat f_equal; lia|]. cbv zeta. replace (w1 + 2)%nat with (S (S w1)) by lia.
  assert (take (S (S w1)) ret3 = render false (S ups, [])) as Ht.
  { rewrite H6, H4, H2, render_up. by rewrite <- !app_assoc. }
  split; cbn [fst snd]; try done; [congruence | lia|]. rewrite <- Ht, length_take. lia.
Qed.
Lemma pop_name rooted ups names e w dd ret :
  holds rooted (ups, names ++ [e]) w dd ret ->
  (dd < w)%nat /\ (backtrack ret dd (pred w) <= w)%nat /\
  holds rooted (ups, names) (backtrack ret dd (pred w)) dd ret.
Proof.
  intros Hh. pose proof (ho_w _ _ _ _ _ Hh) as Ew. destruct Hh as [G1 G2 G3 G4 G5 G6]. cbn [fst snd] in *.
  apply Forall_app in G5 as [G5 [[He Hname] _]%Forall_cons]. set (p := length (render rooted (ups, names))).
  rewrite render_snoc in Ew, G3. rewrite !length_app in Ew. fold p in Ew.
  assert (0 < length e)%nat by (destruct e; [done | cbn [length]; lia]).
  pose proof (render_grow rooted ups names) as Hgrow. fold p in Hgrow.
  assert (forall j, (j < w)%nat -> char_at ret j = char_at (render rooted (ups, names) ++ sep rooted (ups, names) ++ e) j) as Hat.
  { intros j Hj. unfold char_at. rewrite <- G3. by rewrite lookup_take_lt by lia. }
  assert (backtrack ret dd (pred w) = p) as ->.
  { apply backtrack_ok.
    - destruct (sep_cases rooted (ups, names)) as [E|E]; rewrite E in *; cbn [length] in *; lia.
    - destruct (sep_cases rooted (ups, names)) as [E|E].
      + left. apply sep_empty in E; [|done]. fold p in E. rewrite G4.
        assert ((if rooted then 1 else 0) <= length (render rooted (ups, [])))%nat
          by (unfold render; rewrite length_app; destruct rooted; cbn [length]; lia). lia.
      + right. rewrite Hat by (rewrite E in Ew; cbn [length] in Ew; lia). unfold char_at.
        rewrite lookup_app_r by (unfold p; lia). by rewrite E, Nat.sub_diag.
    - intros j Hj. rewrite Hat by lia. unfold char_at. rewrite lookup_app_r by (fold p; lia). fold p.
      assert (exists k, (k < length e)%nat /\ (sep rooted (ups, names) ++ e) !! (j - p)%nat = e !! k) as (k & Hk & ->).
      { destruct (sep_cases rooted (ups, names)) as [E|E]; rewrite E in *; cbn [length app] in *.
        - exists (j - p)%nat. split; [lia | done].
        - exists (j - p - 1)%nat. split; [lia|]. destruct (j - p)%nat as [|m] eqn:Em; [lia|].
          cbn [lookup list_lookup]. by rewrite Nat.sub_1_r. }
      destruct (lookup_lt_is_Some_2 e k Hk) as [c Hc]. rewrite Hc. cbn [default from_option].
      rewrite Forall_lookup in Hname. by apply (Hname k). }
  split; [lia|]. split; [lia|]. split; cbn [fst snd]; try done; [lia|].
  assert (take p ret = take p (take w ret)) as -> by by rewrite take_take, Nat.min_l by lia.
  rewrite G3. unfold p. by rewrite take_app_length.
Qed.

(** The loop at the beginning of an element, or behind one. *)
Definition starts (rooted : bool) (st : nat * list (list Z)) (r w : nat) (todo : list (list Z)) : Prop :=
  todo = split (drop r s) /\ (w + length (sep rooted st) <= r)%nat.
Definition ends_elem (r w : nat) (todo : list (list Z)) : Prop :=
  (drop r s = [] \/ exists t, drop r s = slash :: t) /\ todo = behind (drop r s) /\ (w <= r)%nat.

Lemma sep_le rooted st : (length (sep rooted st) <= 1)%nat.
Proof. destruct (sep_cases rooted st) as [-> | ->]; cbn [length]; lia. Qed.

(** What the loop promises with this much fuel. *)
Definition loop_spec (rooted : bool) (fuel : nat) : Prop := forall r w dd ret st todo,
  holds rooted st w dd ret -> (r <= n)%nat -> (n - r < fuel)%nat ->
  starts rooted st r w todo \/ ends_elem r w todo ->
  exists w' dd' ret', sanitize_loop fuel input n rooted r w dd ret = Some (w', ret') /\
    holds rooted (foldl (add_elem rooted) st todo) w' dd' ret'.

(** One element, in front of [rest]. *)
Lemma loop_elem rooted fuel r w dd ret st e rest :
  loop_spec rooted fuel -> holds rooted st w dd ret -> (n - r < S fuel)%nat ->
  drop r s = e ++ rest -> name_ok e -> rest = [] \/ (exists t, rest = slash :: t) ->
  (w + length (sep rooted st) <= r)%nat ->
  exists w' dd' ret', sanitize_loop (S fuel) input n rooted r w dd ret = Some (w', ret') /\
    holds rooted (foldl (add_elem rooted) (add_elem rooted st e) (behind rest)) w' dd' ret'.
Proof using Hn.
  intros IH Hh Hf Hd [Hne Hname] Hrest Hw.
  assert (0 < length e)%nat as Hlen by (destruct e; [done | cbn [length]; lia]).
  assert (r < n)%nat as Hlt.
  { destruct e as [|c e]; [done|]. by apply at_char in Hd as (? & _ & _). }
  assert ((r + length e)%nat <= n)%nat as Hre.
  { apply at_rest in Hd; [|lia]. rewrite length_app in Hd. lia. }
  assert (drop (r + length e) s = rest) as Hdrop.
  { rewrite <- drop_drop, Hd. by rewrite drop_app_length. }
  assert (forall st' w1 dd1 ret1, holds rooted st' w1 dd1 ret1 -> (w1 <= r + length e)%nat ->
    exists w' dd' ret', sanitize_loop fuel input n rooted (r + length e) w1 dd1 ret1 = Some (w', ret') /\
      holds rooted (foldl (add_elem rooted) st' (behind rest)) w' dd' ret') as Hgo.
  { intros st' w1 dd1 ret1 Hh1 Hw1. apply (IH (r + length e)%nat); [done | lia | lia|]. right.
    split; [by rewrite Hdrop|]. by rewrite Hdrop. }
  cbn [sanitize_loop]. rewrite decide_True by done.
  assert ((char_at input r =? slash) = false) as ->.
  { destruct e as [|c e]; [done|]. apply Forall_cons in Hname as [Hc _].
    apply at_char in Hd as (_ & -> & _). by apply Z.eqb_neq. }
  rewrite (test_dot r e rest) by done. destruct (decide (e = [dot])) as [->|Hdot].
  { rewrite bool_decide_true by done. cbn [length] in *. rewrite Nat.add_1_r in *.
    assert (add_elem rooted st [dot] = st) as -> by by destruct st. apply (Hgo st w dd ret); [done | lia]. }
  rewrite bool_decide_false by done. rewrite (test_dotdot r e rest) by done.
  destruct st as [ups names]. destruct (decide (e = dotdot_elem)) as [->|Hdd].
  - rewrite bool_decide_true by done. cbn [length] in *. replace (r + 2)%nat with (S (S r)) in * by lia.
    destruct names as [|x names _] using rev_ind.
    + pose proof (ho_w _ _ _ _ _ Hh) as Ew. pose proof (ho_dd _ _ _ _ _ Hh) as Edd. cbn [fst] in Edd.
      rewrite decide_False by lia. destruct rooted; cbn [negb].
      * apply (Hgo (ups, []) w dd ret); [done | lia].
      * destruct (push_up ups w dd ret Hh) as (ret' & E & Hh'); [lia|]. cbv zeta in Hh'.
        destruct (if decide (0 < w)%nat then _ else _) as [[w1 ret1]|]; [|done]. cbn [mbind option_bind] in *.
        destruct (store_char ret1 w1 dot) as [ret2|]; [|done]. cbn [mbind option_bind] in *.
        destruct (store_char ret2 (S w1) dot) as [ret3|]; [|done]. cbn [mbind option_bind] in *.
        injection E as Ew1 ->. rewrite Ew1. apply (Hgo (S ups, [])); [done | lia].
    + destruct (pop_name _ _ _ _ _ _ _ Hh) as (Hdw & Hb & Hh'). rewrite decide_True by done.
      assert (add_elem rooted (ups, names ++ [x]) dotdot_elem = (ups, names)) as ->.
      { unfold add_elem. rewrite decide_False, decide_True by (done || by intros [?|?]).
        rewrite removelast_last. by destruct names. }
      apply (Hgo (ups, names)); [done | lia].
  - rewrite bool_decide_false by done.
    destruct (push_name rooted ups names w dd ret e r rest
      ((rooted && bool_decide (w <> 1%nat)) || (negb rooted && bool_decide (w <> 0%nat)))) as (ret' & E & Hh');
      try done; [by destruct rooted; rewrite ?orb_false_r|].
    destruct (if _ : bool then _ else _) as [[w1 ret1]|]; [|done]. cbn [mbind option_bind] in E |- *.
    rewrite E. cbn [mbind option_bind].
    assert (add_elem rooted (ups, names) e = (ups, names ++ [e])) as ->.
    { unfold add_elem. rewrite !decide_False; [done | done | tauto]. }
    apply (Hgo (ups, names ++ [e])); [done | lia].
Qed.

Lemma loop_ok rooted fuel : loop_spec rooted fuel.
Proof using Hn.
  induction fuel as [|fuel IH]; intros r w dd ret st todo Hh Hr Hf Hcase; [lia|].
  destruct (drop r s) as [|c t] eqn:Ed.
  { apply at_end in Ed as Hend. cbn [sanitize_loop]. rewrite decide_False by lia. exists w, dd, ret. split; [done|].
    destruct Hcase as [[-> _]|(_ & -> & _)]; rewrite Ed; [|done]. by destruct st. }
  pose proof (sep_le rooted st) as Hsep. destruct (Z.eq_dec c slash) as [->|Hc].
  - apply at_char in Ed as Hat. destruct Hat as (Hlt & Ec & Ed').
    cbn [sanitize_loop]. rewrite decide_True by done. rewrite Ec. change (slash =? slash) with true. cbv iota.
    assert (starts rooted st (S r) w (split t)) as Hst.
    { split; [by rewrite Ed'|]. destruct Hcase as [[_ Hw]|(_ & _ & Hw)]; lia. }
    replace (foldl (add_elem rooted) st todo) with (foldl (add_elem rooted) st (split t));
      [apply (IH (S r)); (done || lia || by left)|].
    destruct Hcase as [[-> _]|(_ & -> & _)]; rewrite Ed; [|done]. cbn [split]. change (slash =? slash) with true. by destruct st.
  - destruct Hcase as [[-> Hw]|([E|[t' E]] & _ & _)]; [|congruence..]. rewrite Ed.
    pose proof (span_app (c :: t)) as Hsp. rewrite split_span. cbn [foldl].
    apply loop_elem; try done; [by rewrite Ed | | apply span_rest].
    split; [|apply span_name]. cbn [span]. destruct (Z.eqb_spec c slash); [done|]. by destruct (span t).
Qed.
End loop.


(** "/a/./b/../../c/" *)
Definition demo_path : list Z := [47; 97; 47; 46; 47; 98; 47; 46; 46; 47; 46; 46; 47; 99; 47].

(** The empty path: the only byte of the buffer is the dot, so that the
    result has no terminator. *)
Lemma sanitize_empty : sanitize_path true [] = Some (Some [dot]).
Proof. reflexivity. Qed.
