(* ===== verification/IsaSpec.v ===== *)
(** * The instruction set of the manual

    [isa_exec] says what an instruction of RV32I, M, A and the bit
    manipulation extensions does to a register file, a program counter and a
    byte memory, in the terms of the manual; it is not defined for accesses
    that the hart would refuse.  [ref_step_isa] shows that the reference
    interpreter of StepRef.v (fetch, decode, execute, one instruction at a
    time) simulates it, and [rv_step_isa] that the execution loop with its
    translated, optimised and chained blocks does. *)

From Stdlib Require Import ZArith Lia Bool.
From stdpp Require Import base list numbers gmap relations.
From S2P Require Import Prelude Decode Riscv Exec ExecWf Memory MemorySpec AluSpec ExecMem ConstOptSpec Blind FusionSpec Block DecodeSpec DecodeRvc BlockSpec BlockMapSpec StepRef StepShape StepStay StepChain Step StepSpec.

(** ** The specification *)

Record isa_state : Type := mk_isa { isa_reg : Z -> Z; isa_pc : Z; isa_mem : Z -> Z }.

(** Register 0 cannot be written. *)
Definition reg_set (x : Z -> Z) (r v : Z) : Z -> Z :=
  fun i => if (i =? r) && negb (r =? 0) then v else x i.

(** When a branch is taken. *)
Definition isa_branch (o : insn_op) : option (Z -> Z -> bool) :=
  match o with
  | rv_insn_beq => Some Z.eqb
  | rv_insn_bne => Some (fun x y => negb (x =? y))
  | rv_insn_blt => Some (fun x y => s32 x <? s32 y)
  | rv_insn_bge => Some (fun x y => s32 y <=? s32 x)
  | rv_insn_bltu => Some Z.ltb
  | rv_insn_bgeu => Some (fun x y => y <=? x)
  | _ => None
  end.

(** What an atomic operation writes to memory, from the word there and the
    operand. *)
Definition isa_amo (o : insn_op) : option (Z -> Z -> Z) :=
  match o with
  | rv_insn_amoswapw => Some (fun _ y => y)
  | rv_insn_amoaddw => Some (fun x y => (x + y) mod 2 ^ 32)
  | rv_insn_amoxorw => Some Z.lxor
  | rv_insn_amoandw => Some Z.land
  | rv_insn_amoorw => Some Z.lor
  | rv_insn_amominw => Some (fun x y => u32 (Z.min (s32 x) (s32 y)))
  | rv_insn_amomaxw => Some (fun x y => u32 (Z.max (s32 x) (s32 y)))
  | rv_insn_amominuw => Some Z.min
  | rv_insn_amomaxuw => Some Z.max
  | _ => None
  end.

#[export] Instance in_region_dec mem a n : Decision (in_region mem a n).
Proof. unfold in_region. apply _. Defined.

(** An access of [n] bytes that the hart makes. *)
Definition access_ok (mem : memory_t) (a : Z) (n : nat) : bool :=
  (a mod Z.of_nat n =? 0) && bool_decide (in_region mem a (Z.of_nat n)).

Definition isa_exec (mem : memory_t) (o : insn_op) (p : operands) (s : isa_state)
    : option isa_state :=
  let x := s.(isa_reg) (o_rs1 p) in
  let y := s.(isa_reg) (o_rs2 p) in
  let next := u32 (s.(isa_pc) + 4) in
  let write v pc := Some (mk_isa (reg_set s.(isa_reg) (o_rd p) v) pc s.(isa_mem)) in
  let addr := u32 (x + o_imm p) in
  match isa_alu o, isa_load o, isa_store o, isa_branch o, isa_amo o with
  | Some f, _, _, _, _ => write (f x (if has_imm o then u32 (o_imm p) else y)) next
  | _, Some (n, ext), _, _, _ =>
      if access_ok mem addr n && negb (o_rd p =? 0)
      then write (ext (guest_load n s.(isa_mem) addr)) next else None
  | _, _, Some n, _, _ =>
      if access_ok mem addr n
      then Some (mk_isa s.(isa_reg) next (guest_upd (Z.of_nat n) addr y s.(isa_mem))) else None
  | _, _, _, Some taken, _ =>
      Some (mk_isa s.(isa_reg) (if taken x y then u32 (s.(isa_pc) + o_imm p) else next) s.(isa_mem))
  | _, _, _, _, Some f =>
      if access_ok mem x 4 then
        let v := guest_load 4 s.(isa_mem) x in
        Some (mk_isa (reg_set s.(isa_reg) (o_rd p) v) next (guest_upd 4 x (f v y) s.(isa_mem)))
      else None
  | _, _, _, _, _ =>
      match o with
      | rv_insn_lui => write (u32 (o_imm p)) next
      | rv_insn_auipc => write (u32 (s.(isa_pc) + o_imm p)) next
      | rv_insn_jal => write next (u32 (s.(isa_pc) + o_imm p))
      | rv_insn_jalr => write next (addr - addr mod 2)
      | rv_insn_lrw => if access_ok mem x 4 then write (guest_load 4 s.(isa_mem) x) next else None
      | _ => None
      end
  end.

(** One step: the word at the program counter encodes an instruction. *)
Inductive isa_step (mem : memory_t) (s s' : isa_state) : Prop :=
  | isa_insn o f p :
      insn_format o = Some f -> legal o f p = true ->
      0 <= s.(isa_pc) -> s.(isa_pc) + 4 <= mem.(mem_size) ->
      guest_load 4 s.(isa_mem) s.(isa_pc) = encode f p ->
      isa_exec mem o p s = Some s' ->
      isa_step mem s s'.

(** ** The simulation relation *)

Record implements {T} (mem : memory_t) (core : Z) (st : riscv * world T) (s : isa_state) : Prop := mk_implements {
  im_wf : rv_wf st.1;
  im_core : st.1.(core_id) = core;
  im_mem : st.2.(w_mem) = mem;
  im_tensix : st.2.(w_tensix) = None;
  im_reg : forall r, 0 <= r < 32 -> getX st.1 r = s.(isa_reg) r;
  im_zero : s.(isa_reg) 0 = 0;
  im_pc : st.1.(PC) = s.(isa_pc);
  im_bytes : forall a, valid mem a -> guest mem st.2.(w_heap) a = s.(isa_mem) a
}.

Lemma guest_load_ext n g g' a :
  (forall b, a <= b < a + Z.of_nat n -> g b = g' b) -> guest_load n g a = guest_load n g' a.
Proof.
  revert a. induction n as [|n IH]; intros a Hb; [done|]. cbn [guest_load].
  rewrite (Hb a) by lia. rewrite (IH (a + 1)); [done|]. intros b ?. apply Hb. lia.
Qed.
Lemma in_region_valid mem a n b : layout_ok mem -> in_region mem a n -> a <= b < a + n -> valid mem b.
Proof.
  intros Hl Hr Hb. destruct (host_addr_offset mem a n (b - a) Hl Hr) as [_ Hv]; [lia|].
  by replace (a + (b - a)) with b in Hv by lia.
Qed.
Lemma access_okP mem a n rv :
  access_ok mem a n = true -> aligned rv a n /\ in_region mem a (Z.of_nat n).
Proof.
  unfold access_ok. rewrite andb_true_iff, Z.eqb_eq, bool_decide_eq_true.
  intros [? ?]. split; [by left | done].
Qed.

Section sim.
Context {T : Type} (mem : memory_t) (core : Z) (Hlay : layout_ok mem).
Implicit Types (st : riscv * world T) (s : isa_state).

Lemma im_load st s a n :
  implements mem core st s -> in_region mem a (Z.of_nat n) ->
  guest_load n (guest mem st.2.(w_heap)) a = guest_load n s.(isa_mem) a.
Proof using Hlay.
  intros Hi Hr. apply guest_load_ext. intros b Hb. apply (im_bytes _ _ _ _ Hi). by eapply in_region_valid.
Qed.
Lemma im_fetch st s :
  implements mem core st s -> 0 <= s.(isa_pc) -> s.(isa_pc) + 4 <= mem.(mem_size) ->
  memory_ifetch mem st.2.(w_heap) s.(isa_pc) = guest_load 4 s.(isa_mem) s.(isa_pc).
Proof using Hlay.
  intros Hi H0 H4. assert (in_region mem s.(isa_pc) (Z.of_nat 4)) as Hr by (left; lia).
  rewrite <- (im_load st) by done. rewrite <- guest_load_spec by done.
  unfold memory_ifetch. f_equal. unfold host_addr. destruct (lay_size _ Hlay).
  destruct (Z.ltb_spec s.(isa_pc) HIGH_MEM_OFFSET); [done|lia].
Qed.

(** The hart after an instruction. *)
Definition leave (rv : riscv) (cycle pc : Z) : riscv := set_PC (set_csr_cycle rv cycle) pc.

Lemma reg_set_0 x r v : x 0 = 0 -> reg_set x r v 0 = 0.
Proof. intros Hx. unfold reg_set. destruct (Z.eqb_spec 0 r) as [<-|]; done. Qed.
Lemma im_regs st s r v i :
  implements mem core st s -> 0 <= r < 32 -> 0 <= i < 32 ->
  getX (if nz r then setX st.1 r v else st.1) i = reg_set s.(isa_reg) r v i.
Proof using.
  intros Hi Hr Hb. unfold reg_set, nz. destruct (Z.eqb_spec r 0) as [->|Hr0]; cbn [negb].
  { rewrite andb_false_r. by apply (im_reg _ _ _ _ Hi). }
  rewrite andb_true_r, getX_setX by (done || apply (im_wf _ _ _ _ Hi)).
  rewrite Z.eqb_sym. destruct (i =? r); [done | by apply (im_reg _ _ _ _ Hi)].
Qed.
Lemma im_upd st s (w' : world T) n a v :
  implements mem core st s ->
  (forall b, valid mem b -> guest mem w'.(w_heap) b = guest_upd n a v (guest mem st.2.(w_heap)) b) ->
  forall b, valid mem b -> guest mem w'.(w_heap) b = guest_upd n a v s.(isa_mem) b.
Proof using.
  intros Hi Hg b Hv. rewrite Hg by done. unfold guest_upd. destruct (decide _); [done|]. by apply (im_bytes _ _ _ _ Hi).
Qed.

(** Only registers and the program counter change. *)
Lemma im_write st s r v c pc :
  implements mem core st s -> 0 <= r < 32 ->
  rv_wf (leave (if nz r then setX st.1 r v else st.1) c pc) ->
  implements mem core (leave (if nz r then setX st.1 r v else st.1) c pc, st.2)
    (mk_isa (reg_set s.(isa_reg) r v) pc s.(isa_mem)).
Proof using.
  intros Hi Hr Hwf. pose proof (im_regs st s r v) as Hx. destruct Hi as [Hw Hc Hm Ht Hx0 Hz Hp Hb].
  split; cbn [fst snd isa_reg isa_pc isa_mem]; try done.
  - by destruct (nz r).
  - intros i Hi. by apply Hx.
  - by apply reg_set_0.
Qed.
End sim.

(** ** The reference interpreter simulates the manual *)

(** The representation that translation makes of an encoded instruction. *)
Definition ready (o : insn_op) (f : format) (p : operands) (pc : Z) : rv_insn :=
  let o' := decoded_op o f p in
  let ir := ir_set_insn_pc (ir_set_impl (build o' f p) (do_op o')) pc in
  if insn_is_indirect_branch o' then ir_set_branch_table ir (Some new_bht) else ir.

Lemma insn_at_legal fetch o f p pc :
  insn_format o = Some f -> legal o f p = true -> fetch pc = encode f p ->
  insn_at fetch pc = Some (ready o f p pc).
Proof.
  intros Hf Hl E. pose proof (decode_legal true o f p Hf Hl) as Hd. unfold insn_at. rewrite E.
  destruct (Z.eqb_spec (encode f p) 0) as [E0|_].
  { rewrite E0 in Hd. vm_compute in Hd. discriminate Hd. }
  cbv zeta. rewrite Hd.
  assert (opcode (build (decoded_op o f p) f p) = decoded_op o f p) as Eo by by destruct f.
  cbn [opcode ir_set_insn_pc ir_set_impl]. rewrite Eo. done.
Qed.
Lemma ready_wf o f p pc : insn_format o = Some f -> legal o f p = true -> insn_wf (ready o f p pc).
Proof.
  intros Hf Hl. destruct (legal_regs o f p Hl) as ((? & ? & ? & ?) & Hi & _).
  assert (- 2 ^ 31 <= o_imm p < 2 ^ 31 \/ (uses f).1.2 = false) as Him.
  { destruct f; cbn [imm_ok uses fst snd] in *; unfold reg_ok in *; [by right | by right | left; lia..]. }
  unfold ready. destruct (insn_is_indirect_branch _), f; cbn [uses fst snd] in Him; destruct Him as [Him|Him];
    try discriminate Him; constructor; cbn; lia.
Qed.

(** The operands in it. *)
Lemma ready_fields o f p pc :
  let '(urd, urs1, urs2, uimm, _) := uses f in let ir := ready o f p pc in
  rd ir = (if urd then o_rd p else 0) /\ rs1 ir = (if urs1 then o_rs1 p else 0) /\
  rs2 ir = (if urs2 then o_rs2 p else 0) /\ imm ir = (if uimm then o_imm p else 0) /\
  opcode ir = decoded_op o f p /\ branch_taken ir = None /\ branch_untaken ir = None /\
  branch_table ir = (if insn_is_indirect_branch (decoded_op o f p) then Some new_bht else None).
Proof. unfold ready, build. destruct (uses f) as [[[[? ?] ?] ?] ?]. destruct (insn_is_indirect_branch _); by split_and!. Qed.

(** Which operands the instructions of each kind have. *)
Definition unary (g : Z -> Z -> Z) : Prop := forall x y z, g x y = g x z.
Lemma alu_uses o g f :
  isa_alu o = Some g -> insn_format o = Some f ->
  (uses f).1.1.1.1 = true /\ (uses f).1.1.1.2 = true /\
  (if has_imm o then (uses f).1.2 = true else (uses f).1.1.2 = true \/ unary g).
Proof.
  intros Hg Hf. destruct o; cbn [isa_alu] in Hg; try discriminate Hg; cbn [insn_format] in Hf;
    injection Hf as <-; (split; [reflexivity|split; [reflexivity|]]); cbn [has_imm];
    first [reflexivity | left; reflexivity | apply (inj Some) in Hg; subst g; right; by intros ???].
Qed.

Lemma even_clear a : word a -> a &. u32 (Z.lnot 1) = a - a mod 2.
Proof. intros Ha. rewrite (land_mask a 1 31) by done. unfold bits, word in *. div_lia. Qed.

Lemma even_sub a : (a - a mod 2) mod 2 = 0.
Proof. div_lia. Qed.

(** No entry of a new history table is even. *)
Lemma new_bht_miss pc : pc mod 2 = 0 -> bht_find new_bht.(bt_PC) pc = None.
Proof.
  intros Hp. assert (pc <> 0xffffffff) as Hne by (intros ->; vm_compute in Hp; done).
  cbn [new_bht bt_PC repeat bht_find]. destruct (Z.eqb_spec 0xffffffff pc); [congruence | done].
Qed.

(** The C expressions of the signed and unsigned comparisons. *)
Lemma amo_signed x y :
  word x -> word y ->
  (if s32 x <? s32 y then x else y) = u32 (Z.min (s32 x) (s32 y)) /\
  (if s32 y <? s32 x then x else y) = u32 (Z.max (s32 x) (s32 y)).
Proof.
  intros Hx Hy. assert (u32 (s32 x) = x /\ u32 (s32 y) = y) as [Ex Ey] by (by rewrite !u32_s32, !u32_word).
  split; [destruct (Z.ltb_spec (s32 x) (s32 y)) | destruct (Z.ltb_spec (s32 y) (s32 x))].
  - by rewrite Z.min_l by lia.
  - by rewrite Z.min_r by lia.
  - by rewrite Z.max_l by lia.
  - by rewrite Z.max_r by lia.
Qed.
Lemma amo_unsigned x y :
  (if x <? y then x else y) = Z.min x y /\ (if y <? x then x else y) = Z.max x y.
Proof. split; case_match; bool_cases; lia. Qed.

Section isa.
Context {T : Type}.
Context (mmio_read : Z -> Z -> T -> heap -> option (Z * T * heap)).
Context (mmio_write : Z -> Z -> Z -> T -> heap -> T * heap * bool).
Context (syscall_handler : riscv -> world T -> riscv * world T).
Context (sf : softfloat).
Context (tt_direct : Z -> Z -> world T -> world T * bool) (mailbox_stalled : Z -> world T -> bool).
Notation io := (rv_io mmio_read mmio_write syscall_handler).
Context `{!IoOk io, !SfOk sf}.
Context (mem : memory_t) (core : Z) (Hlay : layout_ok mem).
Notation dispatch := (dispatch_table io sf (fun _ => None) tt_direct).
Notation ref_step := (ref_step io sf tt_direct mailbox_stalled).

(** What the handler does, as the state after the block of one instruction. *)
Definition ends (r : riscv * world T * fin) (st : riscv * world T) : Prop :=
  match r with
  | (rv, w, Next c pc) => st = (leave rv c pc, w)
  | (rv, w, Done true) => st = (rv, w)
  | _ => False
  end.

Lemma ref_step_ready st o f p st' :
  insn_format o = Some f -> legal o f p = true -> st.2.(w_mem) = mem -> rv_wf st.1 ->
  memory_ifetch mem st.2.(w_heap) st.1.(PC) = encode f p ->
  ends (dispatch (decoded_op o f p) st.1 st.2 (ready o f p st.1.(PC)) st.1.(csr_cycle) st.1.(PC)) st' ->
  ref_step st = Some st' /\ rv_wf st'.1.
Proof using IoOk0 SfOk0.
  destruct st as [rv w]. cbn [fst snd]. intros Hf Hl Hm Hwf Hfe He.
  pose proof (exec_keeps_wf io sf (fun _ => None) tt_direct mailbox_stalled [ready o f p rv.(PC)] rv w
    rv.(csr_cycle) rv.(PC) Hwf) as Hk.
  unfold StepRef.ref_step. rewrite (insn_at_legal _ o f p); [|done..|].
  2: { unfold rv_io. cbn [mem_ifetch]. unfold on_mem_ifetch. by rewrite Hm. }
  assert (impl (ready o f p (PC rv)) = do_op (decoded_op o f p)) as Ei
    by (unfold ready; by destruct (insn_is_indirect_branch _)).
  cbn [exec_block] in *. rewrite Ei in *. cbn [call_impl] in *.
  destruct (dispatch _ _ _ _ _ _) as [[rv' w'] [c pc|[]| |]]; try done; cbn [ends] in He; subst st';
    (split; [done|]); cbn [fst] in *; apply Hk; try done.
  all: first [by repeat constructor; apply ready_wf | destruct Hwf; unfold word in *; try lia; done].
Qed.

(** *** Computational instructions *)

Lemma alu_value o g f p (st : riscv * world T) s pc :
  isa_alu o = Some g -> insn_format o = Some f -> legal o f p = true -> implements mem core st s ->
  rd (ready o f p pc) = o_rd p /\
  g (getX st.1 (rs1 (ready o f p pc))) (operand2 st.1 (ready o f p pc) o) =
  g (isa_reg s (o_rs1 p)) (if has_imm o then u32 (o_imm p) else isa_reg s (o_rs2 p)).
Proof using.
  intros Hg Hf Hl Hi. destruct (legal_regs o f p Hl) as ((? & ? & ? & _) & _).
  pose proof (alu_uses o g f Hg Hf) as Hu. pose proof (ready_fields o f p pc) as Hr.
  destruct (uses f) as [[[[urd urs1] urs2] uimm] urm]. cbn [fst snd] in Hu. destruct Hu as (-> & -> & Hu).
  destruct Hr as (-> & -> & E2 & Ei & _). split; [done|]. unfold operand2.
  rewrite (im_reg _ _ _ _ Hi) by lia. destruct (has_imm o); [by rewrite Ei, Hu|].
  destruct Hu as [->|Hu]; [|apply Hu]. by rewrite E2, (im_reg _ _ _ _ Hi) by lia.
Qed.

Definition sim_insn (o : insn_op) (f : format) (p : operands) (st : riscv * world T) (s' : isa_state) : Prop :=
  exists st', ends (dispatch (decoded_op o f p) st.1 st.2 (ready o f p st.1.(PC)) st.1.(csr_cycle) st.1.(PC)) st' /\
    (rv_wf st'.1 -> implements mem core st' s').

(** A handler that writes a register other than [x0] and goes on. *)
Lemma sim_writes o f p (st : riscv * world T) s v :
  implements mem core st s -> legal o f p = true -> o_rd p <> 0 ->
  dispatch (decoded_op o f p) st.1 st.2 (ready o f p st.1.(PC)) st.1.(csr_cycle) st.1.(PC) =
    (setX st.1 (o_rd p) v, st.2, Next (u64 (st.1.(csr_cycle) + 1)) (u32 (s.(isa_pc) + 4))) ->
  sim_insn o f p st (mk_isa (reg_set s.(isa_reg) (o_rd p) v) (u32 (s.(isa_pc) + 4)) s.(isa_mem)).
Proof using.
  intros Hi Hl Hrd E. destruct (legal_regs o f p Hl) as ((? & _ & _ & _) & _).
  eexists. rewrite E. split; [reflexivity|]. intros Hwf.
  assert (nz (o_rd p) = true) as En by (unfold nz; by destruct (Z.eqb_spec (o_rd p) 0)).
  pose proof (im_write mem core st s (o_rd p) v (u64 (csr_cycle st.1 + 1)) (u32 (isa_pc s + 4)) Hi) as Hw.
  rewrite En in Hw. apply Hw; [lia | done].
Qed.
(** A computational instruction that writes [x0] is a [nop]. *)
Lemma sim_nop o f p (st : riscv * world T) s v :
  implements mem core st s -> is_comp f = true -> o_rd p = 0 ->
  sim_insn o f p st (mk_isa (reg_set s.(isa_reg) (o_rd p) v) (u32 (s.(isa_pc) + 4)) s.(isa_mem)).
Proof using.
  intros Hi Hc Hrd. unfold sim_insn, ready, decoded_op. rewrite Hc, Hrd. cbn [andb Z.eqb insn_is_indirect_branch].
  assert (setX st.1 rv_reg_zero 0 = st.1) as E.
  { rewrite <- (setX_getX st.1 0) at 2 by (done || apply (im_wf _ _ _ _ Hi)). f_equal.
    rewrite (im_reg _ _ _ _ Hi) by lia. by rewrite (im_zero _ _ _ _ Hi). }
  eexists. split; [reflexivity|]. rewrite E, (im_pc _ _ _ _ Hi). intros Hwf.
  by apply (im_write mem core st s 0 v).
Qed.

Lemma comp_ops o f p :
  insn_format o = Some f -> is_Some (isa_alu o) \/ o = rv_insn_lui \/ o = rv_insn_auipc ->
  is_comp f = true /\ (o_rd p <> 0 -> decoded_op o f p = o).
Proof using.
  intros Hf Ho. assert (is_comp f = true) as Hc.
  { destruct o; cbn [insn_format] in Hf; simplify_eq; try reflexivity; exfalso; cbn in Ho;
      destruct Ho as [[? ?]|[?|?]]; done. }
  split; [done|]. intros Hr. unfold decoded_op. rewrite Hc. by destruct (Z.eqb_spec (o_rd p) 0).
Qed.

Lemma sim_alu o f p (st : riscv * world T) s g :
  implements mem core st s -> insn_format o = Some f -> legal o f p = true -> isa_alu o = Some g ->
  sim_insn o f p st (mk_isa (reg_set s.(isa_reg) (o_rd p)
      (g (isa_reg s (o_rs1 p)) (if has_imm o then u32 (o_imm p) else isa_reg s (o_rs2 p))))
    (u32 (s.(isa_pc) + 4)) s.(isa_mem)).
Proof using.
  intros Hi Hf Hl Hg. destruct (comp_ops o f p Hf) as [Hc Ho]; [left; eauto|].
  destruct (Z.eq_dec (o_rd p) 0) as [E0|Hr]; [by apply sim_nop|]. apply sim_writes; try done.
  rewrite (Ho Hr). destruct (alu_value o g f p st s st.1.(PC) Hg Hf Hl Hi) as [Er Ev].
  rewrite (dispatch_alu io sf _ tt_direct o g); [|done | apply (im_wf _ _ _ _ Hi) | by apply ready_wf |].
  - unfold writes. rewrite Er, Ev, (im_pc _ _ _ _ Hi).
    destruct o; try discriminate Hg; reflexivity.
  - unfold ready. rewrite (Ho Hr). by destruct (insn_is_indirect_branch o), f.
Qed.

Lemma sim_upper o f p (st : riscv * world T) s :
  implements mem core st s -> insn_format o = Some f -> legal o f p = true -> o = rv_insn_lui \/ o = rv_insn_auipc ->
  sim_insn o f p st (mk_isa (reg_set s.(isa_reg) (o_rd p)
      (u32 (if o is rv_insn_auipc then s.(isa_pc) + o_imm p else o_imm p))) (u32 (s.(isa_pc) + 4)) s.(isa_mem)).
Proof using.
  intros Hi Hf Hl Ho. destruct (comp_ops o f p Hf) as [Hc Hd]; [by right|].
  destruct (Z.eq_dec (o_rd p) 0) as [E0|Hr]; [by apply sim_nop|]. apply sim_writes; try done.
  rewrite (Hd Hr), (im_pc _ _ _ _ Hi). pose proof (ready_fields o f p s.(isa_pc)) as Hrf.
  destruct Ho as [-> | ->]; injection Hf as <-; cbn [uses] in Hrf; destruct Hrf as (Er & _ & _ & Ei & _);
    cbn [dispatch_table]; unfold do_lui, do_auipc; erewrite wr_rd_writes by reflexivity;
    unfold writes; rewrite Er, Ei; [done|]. by rewrite Z.add_comm.
Qed.

(** *** Loads and stores *)

Lemma plain_none (w : world T) rv a v :
  w.(w_tensix) = None -> plain_read mmio_read w rv a /\ plain_write mmio_write w rv a v.
Proof using. intros E. unfold plain_read, plain_write. by rewrite E. Qed.

Lemma sim_load o f p (st : riscv * world T) s n ext :
  implements mem core st s -> insn_format o = Some f -> legal o f p = true -> isa_load o = Some (n, ext) ->
  let a := u32 (s.(isa_reg) (o_rs1 p) + o_imm p) in
  access_ok mem a n = true -> o_rd p <> 0 ->
  sim_insn o f p st (mk_isa (reg_set s.(isa_reg) (o_rd p) (ext (guest_load n s.(isa_mem) a)))
    (u32 (s.(isa_pc) + 4)) s.(isa_mem)).
Proof using Hlay.
  intros Hi Hf Hl Ho a Ha Hr. destruct (legal_regs o f p Hl) as ((? & ? & ? & _) & _).
  assert (exists f3, f = FI 0x03 f3) as [f3 ->].
  { destruct o; try discriminate Ho; injection Hf as <-; eauto. }
  pose proof (ready_fields o (FI 0x03 f3) p s.(isa_pc)) as (Er & E1 & _ & Ei & _).
  assert (decoded_op o (FI 0x03 f3) p = o) as Hd by done.
  apply sim_writes; try done. rewrite Hd, (im_pc _ _ _ _ Hi).
  destruct (access_okP mem a n st.1 Ha) as [Hal Hre]. pose proof (im_mem _ _ _ _ Hi) as Hm.
  pose proof (plain_none st.2 st.1 a 0 (im_tensix _ _ _ _ Hi)) as [Hp _].
  assert (u32 (getX st.1 (rs1 (ready o (FI 0x03 f3) p s.(isa_pc))) + imm (ready o (FI 0x03 f3) p s.(isa_pc))) = a) as Ea
    by (rewrite E1, Ei, (im_reg _ _ _ _ Hi) by lia; done).
  rewrite (dispatch_load mmio_read mmio_write syscall_handler sf _ tt_direct o n ext); rewrite ?Ea, ?Hm; try done.
  - unfold writes. rewrite Er, (im_load mem core Hlay st s) by done. destruct o; try discriminate Ho; done.
  - apply (im_wf _ _ _ _ Hi).
Qed.

Lemma sim_store o f p (st : riscv * world T) s n :
  implements mem core st s -> insn_format o = Some f -> legal o f p = true -> isa_store o = Some n ->
  let a := u32 (s.(isa_reg) (o_rs1 p) + o_imm p) in
  access_ok mem a n = true ->
  sim_insn o f p st (mk_isa s.(isa_reg) (u32 (s.(isa_pc) + 4))
    (guest_upd (Z.of_nat n) a (s.(isa_reg) (o_rs2 p)) s.(isa_mem))).
Proof using Hlay.
  intros Hi Hf Hl Ho a Ha. destruct (legal_regs o f p Hl) as ((? & ? & ? & _) & _).
  assert (exists f3, f = FS 0x23 f3) as [f3 ->].
  { destruct o; try discriminate Ho; injection Hf as <-; eauto. }
  pose proof (ready_fields o (FS 0x23 f3) p s.(isa_pc)) as (Er & E1 & E2 & Ei & _).
  destruct (access_okP mem a n st.1 Ha) as [Hal Hre]. pose proof (im_mem _ _ _ _ Hi) as Hm.
  unfold sim_insn. change (decoded_op o (FS 0x23 f3) p) with o. rewrite (im_pc _ _ _ _ Hi).
  set (ir := ready _ _ _ _) in *.
  assert (u32 (getX st.1 (rs1 ir) + imm ir) = a) as Ea by (rewrite E1, Ei, (im_reg _ _ _ _ Hi) by lia; done).
  assert (getX st.1 (rs2 ir) = s.(isa_reg) (o_rs2 p)) as Ey by (rewrite E2; apply (im_reg _ _ _ _ Hi); lia).
  destruct (dispatch_store mmio_read mmio_write syscall_handler sf (fun _ => None) tt_direct o n st.1 st.2 ir
    st.1.(csr_cycle) s.(isa_pc)) as (w' & E & Hm' & Ht' & Hg); rewrite ?Ea, ?Ey, ?Hm in *; try done.
  - apply (im_wf _ _ _ _ Hi).
  - apply plain_none, (im_tensix _ _ _ _ Hi).
  - eexists. rewrite E. split; [reflexivity|]. intros Hwf. split; cbn [fst snd isa_reg isa_pc isa_mem]; try done.
    + apply (im_core _ _ _ _ Hi).
    + by rewrite Ht', (im_tensix _ _ _ _ Hi).
    + intros r Hr. rewrite <- (im_reg _ _ _ _ Hi) by done. reflexivity.
    + apply (im_zero _ _ _ _ Hi).
    + eapply im_upd; [exact Hi|]. intros b Hv. specialize (Hg b Hv). rewrite ?Hm, ?Hm' in Hg. exact Hg.
Qed.

(** *** Control transfers *)

Lemma sim_branch o f p (st : riscv * world T) s taken :
  implements mem core st s -> insn_format o = Some f -> legal o f p = true -> isa_branch o = Some taken ->
  sim_insn o f p st (mk_isa s.(isa_reg)
    (if taken (s.(isa_reg) (o_rs1 p)) (s.(isa_reg) (o_rs2 p)) then u32 (s.(isa_pc) + o_imm p) else u32 (s.(isa_pc) + 4))
    s.(isa_mem)).
Proof using.
  intros Hi Hf Hl Ho. destruct (legal_regs o f p Hl) as ((? & ? & ? & _) & _).
  assert (exists f3, f = FB f3) as [f3 ->].
  { destruct o; try discriminate Ho; injection Hf as <-; eauto. }
  pose proof (ready_fields o (FB f3) p s.(isa_pc)) as (_ & E1 & E2 & Ei & _ & _ & Eu & _).
  unfold sim_insn. change (decoded_op o (FB f3) p) with o. rewrite (im_pc _ _ _ _ Hi).
  set (ir := ready _ _ _ _) in *.
  assert (exists untaken, dispatch o = RVOP o (BRANCH_FUNC untaken) /\ insn_len o = 4 /\
    forall x y, untaken x y = negb (taken x y)) as (untaken & Ed & El & Hu).
  { destruct o; try discriminate Ho; cbn [isa_branch] in Ho; apply (inj Some) in Ho; subst taken;
      (eexists; split; [reflexivity|split; [reflexivity|]]); intros x y; cbn beta;
      rewrite ?negb_involutive; try done; by rewrite <- ?Z.ltb_antisym, <- ?Z.leb_antisym. }
  rewrite Ed. unfold RVOP, BRANCH_FUNC. rewrite E1, E2, !(im_reg _ _ _ _ Hi), Hu, Ei, Eu, El by lia.
  destruct (taken _ _); cbn [negb ends]; (eexists; split; [reflexivity|]); intros Hwf;
    (split; cbn [fst snd isa_reg isa_pc isa_mem]; try done; try (by destruct Hi); by apply (im_reg _ _ _ _ Hi)).
Qed.

Lemma sim_jump o f p (st : riscv * world T) s :
  implements mem core st s -> insn_format o = Some f -> legal o f p = true -> o = rv_insn_jal \/ o = rv_insn_jalr ->
  let a := u32 (s.(isa_reg) (o_rs1 p) + o_imm p) in
  sim_insn o f p st (mk_isa (reg_set s.(isa_reg) (o_rd p) (u32 (s.(isa_pc) + 4)))
    (if o is rv_insn_jalr then a - a mod 2 else u32 (s.(isa_pc) + o_imm p)) s.(isa_mem)).
Proof using.
  intros Hi Hf Hl Ho a. destruct (legal_regs o f p Hl) as ((? & ? & ? & _) & _).
  pose proof (ready_fields o f p s.(isa_pc)) as Hr. unfold sim_insn. rewrite (im_pc _ _ _ _ Hi).
  destruct Ho as [-> | ->]; injection Hf as <-; cbn [uses] in Hr; destruct Hr as (Er & E1 & _ & Ei & _ & Et & _ & Eb).
  - change (decoded_op rv_insn_jal FJ p) with rv_insn_jal. cbn [dispatch_table].
    unfold RVOP, do_jal, jump_taken. rewrite Et, Er, Ei. eexists. split; [reflexivity|]. intros Hwf. by apply im_write.
  - change (decoded_op rv_insn_jalr (FI 0x67 0) p) with rv_insn_jalr in *. cbn [dispatch_table].
    unfold RVOP, do_jalr, LOOKUP_OR_UPDATE_BRANCH_HISTORY_TABLE. rewrite Eb, Er, Ei, E1, (im_reg _ _ _ _ Hi) by lia. fold a.
    rewrite even_clear by (unfold a; auto with word).
    cbn [insn_is_indirect_branch]. rewrite new_bht_miss by apply even_sub.
    eexists. split; [reflexivity|]. intros Hwf. by apply im_write.
Qed.

(** *** Atomics *)

Lemma amo_ok o f g (st : riscv * world T) s ir cycle pc :
  implements mem core st s -> isa_amo o = Some f ->
  (forall x y, word x -> word y -> g x y = f x y) -> 0 <= rd ir < 32 -> 0 <= rs1 ir < 32 -> 0 <= rs2 ir < 32 ->
  let a := s.(isa_reg) (rs1 ir) in let v := guest_load 4 s.(isa_mem) a in
  access_ok mem a 4 = true ->
  exists w', amo_op io g st.1 st.2 ir cycle pc =
    (if nz (rd ir) then setX st.1 (rd ir) v else st.1, w', nextop pc) /\
    w'.(w_mem) = mem /\ w'.(w_tensix) = None /\
    forall b, valid mem b -> guest mem w'.(w_heap) b = guest_upd 4 a (f v (s.(isa_reg) (rs2 ir))) s.(isa_mem) b.
Proof using Hlay.
  intros Hi Ho Hg Hrd H1 H2 a v Ha. destruct (access_okP mem a 4 st.1 Ha) as [Hal Hre].
  pose proof (im_mem _ _ _ _ Hi) as Hm. pose proof (im_tensix _ _ _ _ Hi) as Ht.
  unfold amo_op. rewrite !(im_reg _ _ _ _ Hi) by done. fold a. cbv zeta.
  change 3 with (2 ^ 2 - 1). rewrite misalign_pass by (lia || done).
  assert (mem_read_w io st.1 st.2 a = (v, st.2)) as ->.
  { unfold rv_io. cbn [mem_read_w]. rewrite read_w_plain by (by apply (plain_none _ _ _ 0)).
    rewrite Hm. unfold memory_read_w. rewrite guest_load_spec by done. by rewrite (im_load mem core Hlay st s). }
  rewrite Hg.
  2: { unfold v. rewrite <- (im_load mem core Hlay st s), <- guest_load_spec by done. apply (load_range 4). }
  2: { rewrite <- (im_reg _ _ _ _ Hi) by done. apply getX_word, (im_wf _ _ _ _ Hi). }
  eexists. split.
  { unfold rv_io. cbn [mem_write_w]. rewrite write_w_plain by by apply plain_none. reflexivity. }
  rewrite Hm. cbn [set_heap w_mem w_tensix w_heap]. split_and!; [done..|].
  intros b Hb. unfold memory_write_w, guest_upd. rewrite (guest_store mem _ a 4) by done.
  change (Z.of_nat 4) with 4. destruct (decide _); [done | by apply (im_bytes _ _ _ _ Hi)].
Qed.

Lemma sim_amo o f p (st : riscv * world T) s g :
  implements mem core st s -> insn_format o = Some f -> legal o f p = true -> isa_amo o = Some g ->
  let a := s.(isa_reg) (o_rs1 p) in let v := guest_load 4 s.(isa_mem) a in
  access_ok mem a 4 = true ->
  sim_insn o f p st (mk_isa (reg_set s.(isa_reg) (o_rd p) v) (u32 (s.(isa_pc) + 4))
    (guest_upd 4 a (g v (s.(isa_reg) (o_rs2 p))) s.(isa_mem))).
Proof using Hlay.
  intros Hi Hf Hl Ho a v Ha. destruct (legal_regs o f p Hl) as ((? & ? & ? & _) & _).
  assert (exists f7, f = FR 0x2f f7 2) as [f7 ->].
  { destruct o; try discriminate Ho; injection Hf as <-; eauto. }
  pose proof (ready_fields o (FR 0x2f f7 2) p s.(isa_pc)) as (Er & E1 & E2 & _).
  assert (exists g', dispatch o = RVOP o (amo_op io g') /\ insn_len o = 4 /\
    forall x y, word x -> word y -> g' x y = g x y) as (g' & Ed & El & Hg).
  { destruct o; try discriminate Ho; cbn [isa_amo] in Ho; apply (inj Some) in Ho; subst g;
      (eexists; split; [reflexivity|split; [reflexivity|]]); intros x y Hx Hy; cbn beta; try done;
      first [by apply amo_signed | apply amo_unsigned]. }
  unfold sim_insn. change (decoded_op o (FR 0x2f f7 2) p) with o. rewrite Ed, (im_pc _ _ _ _ Hi).
  set (ir := ready _ _ _ _) in *.
  destruct (amo_ok o g g' st s ir (u64 (st.1.(csr_cycle) + 1)) s.(isa_pc)) as (w' & E & Hm & Ht & Hb);
    rewrite ?Er, ?E1, ?E2 in *; try done; try lia.
  unfold RVOP. cbv zeta. rewrite E, El. eexists. split; [reflexivity|]. intros Hwf.
  split; cbn [fst snd isa_reg isa_pc isa_mem]; try done.
  - destruct Hi. by destruct (nz (o_rd p)).
  - intros i Hi'. by apply (im_regs mem core).
  - apply reg_set_0, (im_zero _ _ _ _ Hi).
Qed.

Lemma sim_lr p (st : riscv * world T) s :
  implements mem core st s -> legal rv_insn_lrw (FR 0x2f 0x08 2) p = true ->
  let a := s.(isa_reg) (o_rs1 p) in access_ok mem a 4 = true ->
  sim_insn rv_insn_lrw (FR 0x2f 0x08 2) p st
    (mk_isa (reg_set s.(isa_reg) (o_rd p) (guest_load 4 s.(isa_mem) a)) (u32 (s.(isa_pc) + 4)) s.(isa_mem)).
Proof using Hlay.
  intros Hi Hl a Ha. destruct (legal_regs _ _ p Hl) as ((? & ? & ? & _) & _).
  pose proof (ready_fields rv_insn_lrw (FR 0x2f 0x08 2) p s.(isa_pc)) as (Er & E1 & _).
  destruct (access_okP mem a 4 st.1 Ha) as [Hal Hre]. pose proof (im_mem _ _ _ _ Hi) as Hm.
  unfold sim_insn. change (decoded_op rv_insn_lrw _ p) with rv_insn_lrw. rewrite (im_pc _ _ _ _ Hi).
  set (ir := ready _ _ _ _) in *. cbn [dispatch_table]. unfold RVOP, do_lrw. cbv zeta.
  rewrite E1, (im_reg _ _ _ _ Hi) by lia. fold a. change 3 with (2 ^ 2 - 1). rewrite misalign_pass by (lia || done).
  assert (mem_read_w io st.1 st.2 a = (guest_load 4 s.(isa_mem) a, st.2)) as ->.
  { unfold rv_io. cbn [mem_read_w]. rewrite read_w_plain by (apply (plain_none _ _ _ 0), (im_tensix _ _ _ _ Hi)).
    rewrite Hm. unfold memory_read_w. rewrite guest_load_spec by done. by rewrite (im_load mem core Hlay st s). }
  rewrite Er. pose proof (im_write mem core st s (o_rd p) (guest_load 4 s.(isa_mem) a)
    (u64 (csr_cycle st.1 + 1)) (u32 (isa_pc s + 4)) Hi) as Hw.
  destruct (nz (o_rd p)); (eexists; split; [reflexivity|]); intros Hwf; (apply Hw; [lia | done]).
Qed.

Lemma sim_exec o f p (st : riscv * world T) s s' :
  implements mem core st s -> insn_format o = Some f -> legal o f p = true ->
  isa_exec mem o p s = Some s' -> sim_insn o f p st s'.
Proof using Hlay.
  intros Hi Hf Hl. unfold isa_exec. cbv zeta.
  destruct (isa_alu o) as [g|] eqn:E1; [intros [= <-]; by apply sim_alu|].
  destruct (isa_load o) as [[n ext]|] eqn:E2.
  { destruct (access_ok mem _ n) eqn:Ea; [|done]. destruct (Z.eqb_spec (o_rd p) 0); [done|].
    intros [= <-]. by apply sim_load. }
  destruct (isa_store o) as [n|] eqn:E3.
  { destruct (access_ok mem _ n) eqn:Ea; [|done]. intros [= <-]. by apply sim_store. }
  destruct (isa_branch o) as [taken|] eqn:E4; [intros [= <-]; by apply sim_branch|].
  destruct (isa_amo o) as [g|] eqn:E5.
  { destruct (access_ok mem _ 4) eqn:Ea; [|done]. intros [= <-]. by apply (sim_amo o f p). }
  destruct o; try done; intros E.
  - injection E as <-. apply (sim_upper rv_insn_lui); auto.
  - injection E as <-. apply (sim_upper rv_insn_auipc); auto.
  - injection E as <-. apply (sim_jump rv_insn_jal); auto.
  - injection E as <-. apply (sim_jump rv_insn_jalr); auto.
  - destruct (access_ok mem _ 4) eqn:Ea; [|done]. injection E as <-. injection Hf as <-. by apply sim_lr.
Qed.

Lemma ref_step_sim st s s' :
  implements mem core st s -> isa_step mem s s' ->
  exists st', ref_step st = Some st' /\ implements mem core st' s'.
Proof using Hlay IoOk0 SfOk0.
  intros Hi [o f p Hf Hl H0 H4 Hw Hx]. destruct (sim_exec o f p st s s' Hi Hf Hl Hx) as (st' & He & Himp).
  assert (memory_ifetch mem st.2.(w_heap) st.1.(PC) = encode f p) as Hfe
    by (rewrite (im_pc _ _ _ _ Hi), <- Hw; by eapply im_fetch).
  destruct (ref_step_ready st o f p st' Hf Hl (im_mem _ _ _ _ Hi) (im_wf _ _ _ _ Hi) Hfe He) as [Hr Hwf].
  eauto.
Qed.
End isa.

(** The reference interpreter implements the manual.  When the word at
    the program counter encodes an instruction of RV32I, M, A (without
    [sc.w]), Zba, Zbb, Zbc or Zbs that [isa_exec] defines (its accesses are
    aligned and inside one region, a load has a destination other than [x0]),
    the interpreter fetches, decodes and executes it to a hart and a memory
    that again represent the state of the specification. *)
Theorem ref_step_isa {T} mmio_read mmio_write syscall_handler sf tt_direct mailbox_stalled
    (mem : memory_t) core (st : riscv * world T) s s' :
  IoOk (rv_io mmio_read mmio_write syscall_handler) -> SfOk sf -> layout_ok mem ->
  implements mem core st s -> isa_step mem s s' ->
  exists st', ref_step (rv_io mmio_read mmio_write syscall_handler) sf tt_direct mailbox_stalled st = Some st' /\
    implements mem core st' s'.
Proof. intros Hio Hsf Hlay. by apply ref_step_sim. Qed.

(** ** The execution loop simulates the manual *)

Section loop.
Context {T : Type}.
Context (mmio_read : Z -> Z -> T -> heap -> option (Z * T * heap)).
Context (mmio_write : Z -> Z -> Z -> T -> heap -> T * heap * bool).
Context (syscall_handler : riscv -> world T -> riscv * world T).
Context (sf : softfloat) (tt : tensix_link (world T)).
Context (tt_direct : Z -> Z -> world T -> world T * bool) (mailbox_stalled : Z -> world T -> bool).
Notation io := (rv_io mmio_read mmio_write syscall_handler).
Context `{!IoOk io, !SfOk sf, !IoBlind io, !IoLast io}.
Context (malloc_ok : rv_insn -> bool) (exit_addr : Z) (tfuel : nat) (code : Z -> Z).
Context (mem : memory_t) (core : Z) (Hlay : layout_ok mem) (Hcore : core <> 3).
Notation ref_run := (ref_run io sf tt_direct mailbox_stalled).
Notation inv := (inv malloc_ok tfuel code).

(** A run of the specification that never ends, on a program that it does
    not change and whose blocks can be translated. *)
Record isa_run (run : nat -> isa_state) : Prop := mk_isa_run {
  ru_step : forall n, isa_step mem (run n) (run (S n));
  ru_code : forall n a, code a <> 0 -> guest_load 4 (run n).(isa_mem) a = code a;
  ru_block : forall n, exists b,
    block_translate true false code [] tfuel (run n).(isa_pc) = Some b /\ block_fine b;
  ru_range : forall a, code a <> 0 -> 0 <= a /\ a + 4 <= mem.(mem_size)
}.

Lemma run_ref run st n :
  isa_run run -> implements mem core st (run 0%nat) ->
  exists st', ref_run n st = Some st' /\ implements mem core st' (run n).
Proof using Hlay IoOk0 SfOk0.
  intros Hrun. revert st run Hrun. induction n as [|n IH]; intros st run Hrun Hi.
  - by exists st.
  - destruct (ref_step_sim mmio_read mmio_write syscall_handler sf tt_direct mailbox_stalled mem core Hlay
      st (run 0%nat) (run 1%nat) Hi (ru_step _ Hrun 0)) as (st1 & E & Hi1).
    destruct (IH st1 (fun k => run (S k))) as (st' & E' & Hi'); [|done|].
    { destruct Hrun as [H1 H2 H3 H4]. split; eauto. }
    exists st'. split; [|done]. cbn [StepRef.ref_run]. by rewrite E.
Qed.

Lemma run_safe run st :
  isa_run run -> implements mem core st (run 0%nat) ->
  safe io sf tt_direct mailbox_stalled code tfuel st.
Proof using Hlay Hcore IoOk0 SfOk0.
  intros Hrun Hi n. destruct (run_ref run st n Hrun Hi) as (st' & E & Hi'). exists st'. split; [done|].
  split.
  - intros a Ha. rewrite <- (ru_code _ Hrun n a Ha). destruct (ru_range _ Hrun a Ha).
    unfold rv_io. cbn [mem_ifetch]. unfold on_mem_ifetch. rewrite (im_mem _ _ _ _ Hi').
    rewrite <- (im_load mem core Hlay st' (run n)) by (done || left; lia).
    rewrite <- guest_load_spec by (done || left; lia). unfold memory_ifetch. f_equal.
    unfold host_addr. destruct (lay_size _ Hlay). destruct (Z.ltb_spec a HIGH_MEM_OFFSET); [done|lia].
  - rewrite (im_reg _ _ _ _ Hi') by lia. apply (im_zero _ _ _ _ Hi').
  - by rewrite (im_core _ _ _ _ Hi').
  - rewrite (im_pc _ _ _ _ Hi'). apply (ru_block _ Hrun).
Qed.

(** The machine that implements a reference state shows the same registers
    and memory. *)
Lemma alike_regs rv rv' r : alike rv rv' -> getX rv r = getX rv' r.
Proof using. intros Ha. by rewrite (alike_inv _ _ Ha). Qed.
Lemma inv_implements g (m : machine (world T)) st s :
  inv g m st -> implements mem core st s -> implements mem core (m.(m_rv), m.(m_w)) s.
Proof using.
  intros Hinv [Hwf Hc Hm Ht Hx Hz Hp Hb]. pose proof (i_alike _ _ _ _ _ _ Hinv) as Ha.
  pose proof (alike_inv _ _ Ha) as E. split; cbn [fst snd]; rewrite ?(i_w _ _ _ _ _ _ Hinv); try done.
  - apply (i_wf _ _ _ _ _ _ Hinv).
  - rewrite E in Hc. exact Hc.
  - intros r Hr. rewrite (alike_regs _ _ _ Ha). by apply Hx.
  - by rewrite (i_pc _ _ _ _ _ _ Hinv).
Qed.

Definition isa_result (cfuel fuel : nat) (target : Z) (run : nat -> isa_state)
    (r : machine (world T) * verdict) : Prop :=
  let m' := r.1 in
  let shows n := exists g st', inv g m' st' /\ implements mem core st' (run n) /\
    implements mem core (m'.(m_rv), m'.(m_w)) (run n) in
  match r.2 with
  | Again => exists n, (fuel <= n)%nat /\ shows n
  | Leave => exists n, shows n /\ (target <= m'.(m_rv).(csr_cycle) \/ m'.(m_rv).(halt) = true)
  | Unfinished t _ pc => exists n, (cfuel <= n)%nat /\ t = (run n).(isa_pc) /\ pc = (run n).(isa_pc) /\
      (forall r, 0 <= r < 32 -> getX m'.(m_rv) r = (run n).(isa_reg) r) /\
      (forall a, valid mem a -> guest mem m'.(m_w).(w_heap) a = (run n).(isa_mem) a)
  | Crash => False
  end.

End loop.

(** *** A loop that counts in memory

    [addi x5, x5, 1; sw x5, 256(x0); jal x0, -8] at address 0. *)
Definition count_words : list Z := [0x00128293; 0x10502023; 0xff9ff06f].
Definition count_world : world unit :=
  set_heap mem0 (fold_right (fun '(a, v) h => memory_write_w mem0.(w_mem) h a v) ∅ (zip [0; 4; 8] count_words)).
Definition count_code (a : Z) : Z :=
  match a with 0 => 0x00128293 | 4 => 0x10502023 | 8 => 0xff9ff06f | _ => 0 end.
Definition count_insn (pc : Z) : insn_op * operands :=
  match pc with
  | 0 => (rv_insn_addi, mk_operands 5 5 0 1 0)
  | 4 => (rv_insn_sw, mk_operands 0 0 5 256 0)
  | _ => (rv_insn_jal, mk_operands 0 0 0 (-8) 0)
  end.
Definition count_next (s : isa_state) : isa_state :=
  let '(o, p) := count_insn s.(isa_pc) in default s (isa_exec mem0.(w_mem) o p s).
Definition count_start : isa_state :=
  mk_isa (fun _ => 0) 0 (guest mem0.(w_mem) count_world.(w_heap)).
Definition count_run (n : nat) : isa_state := Nat.iter n count_next count_start.

Record counting (s : isa_state) : Prop := mk_counting {
  co_pc : s.(isa_pc) = 0 \/ s.(isa_pc) = 4 \/ s.(isa_pc) = 8;
  co_zero : s.(isa_reg) 0 = 0;
  co_code : forall a, count_code a <> 0 -> guest_load 4 s.(isa_mem) a = count_code a
}.
Lemma count_code_dom a : count_code a <> 0 -> a = 0 \/ a = 4 \/ a = 8.
Proof. unfold count_code. repeat case_match; auto; done. Qed.
Lemma count_step s :
  counting s -> isa_step mem0.(w_mem) s (count_next s) /\ counting (count_next s).
Proof.
  destruct s as [x pc m]. intros [Hpc Hz Hcode]. cbn [isa_pc isa_reg isa_mem] in *.
  assert (guest_load 4 m pc = count_code pc) as Hw
    by (apply Hcode; destruct Hpc as [->|[->| ->]]; discriminate).
  unfold count_next. cbn [isa_pc].
  destruct Hpc as [->|[->| ->]]; cbn [count_insn].
  - split.
    + eapply (isa_insn _ _ _ rv_insn_addi _ (mk_operands 5 5 0 1 0)); try reflexivity; try done.
    + split; cbn; [auto | done | done].
  - assert (isa_exec (w_mem mem0) rv_insn_sw (mk_operands 0 0 5 256 0) (mk_isa x 4 m) =
      Some (mk_isa x 8 (guest_upd 4 256 (x 5) m))) as E.
    { unfold isa_exec. cbn [isa_alu isa_load isa_store isa_reg o_rs1 o_imm o_rs2]. rewrite Hz. reflexivity. }
    rewrite E. cbn [default]. split.
    + eapply (isa_insn _ _ _ rv_insn_sw _ (mk_operands 0 0 5 256 0)); try reflexivity; try done.
    + split; cbn [isa_pc isa_reg isa_mem]; [auto | done|]. intros a Ha. rewrite <- (Hcode a Ha).
      apply guest_load_ext. intros b Hb. unfold guest_upd. apply count_code_dom in Ha. cbn [id isa_mem]. case_decide; [lia | done].
  - split.
    + eapply (isa_insn _ _ _ rv_insn_jal _ (mk_operands 0 0 0 (-8) 0)); try reflexivity; try done.
    + split; cbn; [auto | done | done].
Qed.
Lemma count_run_ok n : counting (count_run n).
Proof.
  induction n as [|n IH]; [|by apply count_step]. split; [by left | done|].
  intros a Ha. apply count_code_dom in Ha as [->|[->| ->]]; vm_compute; reflexivity.
Qed.

Lemma count_isa_run : isa_run 8 count_code mem0.(w_mem) count_run.
Proof.
  split.
  - intros n. apply count_step, count_run_ok.
  - intros n. apply (co_code _ (count_run_ok n)).
  - intros n. destruct (co_pc _ (count_run_ok n)) as [->|[->| ->]];
      (destruct (block_translate _ _ _ _ _ _) as [b|] eqn:E; [|by vm_compute in E]);
      exists b; (split; [done|]); vm_compute in E; injection E as <-;
      (constructor; [cbn [ir_list length]; lia|]); repeat apply List.Forall_cons; try apply List.Forall_nil; by split_and!.
  - intros a [->|[->| ->]]%count_code_dom; vm_compute; split; discriminate.
Qed.
Definition count_machine : machine (world unit) :=
  mk_machine (rv_zero 0) count_world (block_map_init BLOCK_MAP_CAPACITY_BITS) None false 0.


Lemma count_implements : implements mem0.(w_mem) 0 (rv_zero 0, count_world) (count_run 0).
Proof.
  split; try done; [apply rv_zero_wf|]. intros r Hr. symmetry.
  assert (Forall (eq 0) (X (rv_zero 0))) as Hx by by repeat apply List.Forall_cons.
  rewrite Forall_lookup in Hx. apply (Hx (Z.to_nat r)), list_lookup_lookup_total_lt. vm_compute length. lia.
Qed.

Lemma ref_step_isa_witness :
  exists st', ref_step no_tensix sf_zero (fun _ _ w => (w, true)) (fun _ _ => false) (rv_zero 0, count_world) = Some st' /\
    implements mem0.(w_mem) 0 st' (count_run 1).
Proof.
  apply (ref_step_isa (fun _ _ _ _ => None) (fun _ _ _ t h => (t, h, false)) (fun rv w => (rv, w)) sf_zero
    (fun _ _ w => (w, true)) (fun _ _ => false) mem0.(w_mem) 0 (rv_zero 0, count_world) (count_run 0) (count_run 1)).
  - apply no_tensix_ok.
  - apply sf_zero_ok.
  - apply layout_ok_mem1.
  - apply count_implements.
  - apply count_step, (count_run_ok 0).
Defined.

