(* ===== verification/Cache.v ===== *)
(** * The block cache (src/rv32emu/src/cache.c)

    The cache of translated blocks of the JIT builds.  Entries live in a store
    indexed by their addresses; a [list_head] is the list of the entries it
    links, first to last, and an [hlist_head] the list of its nodes.  Taking
    an entry out of a list is taking its address out of every list that holds
    it, since the C code unlinks a node without knowing the list.

    [cache_size_bits] is the static variable of that name, which
    [cache_create] sets, and [cache_size] its power of two.  [calloc] chooses
    the address of a new entry. *)

From Stdlib Require Import ZArith Lia Bool.
From stdpp Require Import base list numbers gmap.
From S2P Require Import Prelude.

Definition THRESHOLD : Z := 4096.

Record cache_entry_t : Type := mk_cache_entry { value : Z; alive : bool; key : Z; freq : Z }.
Definition set_alive (e : cache_entry_t) (b : bool) : cache_entry_t :=
  mk_cache_entry e.(value) b e.(key) e.(freq).
Definition set_freq (e : cache_entry_t) (n : Z) : cache_entry_t :=
  mk_cache_entry e.(value) e.(alive) e.(key) n.

Notation entries := (gmap Z cache_entry_t).

(** [c_list] and [ghost_list] begin with the entry added last. *)
Record cache_t : Type := mk_cache {
  c_list : list Z; ghost_list : list Z; ht_list_head : list (list Z);
  c_size : Z; ghost_list_size : Z; capacity : Z;
  c_entries : entries
}.

Definition entry (c : cache_t) (a : Z) : option cache_entry_t := c.(c_entries) !! a.
Definition set_entry (c : cache_t) (a : Z) (e : cache_entry_t) : cache_t :=
  mk_cache c.(c_list) c.(ghost_list) c.(ht_list_head) c.(c_size) c.(ghost_list_size) c.(capacity)
    (<[a := e]> c.(c_entries)).
Definition free_entry (c : cache_t) (a : Z) : cache_t :=
  mk_cache c.(c_list) c.(ghost_list) c.(ht_list_head) c.(c_size) c.(ghost_list_size) c.(capacity)
    (delete a c.(c_entries)).

(** [a] taken out of a list. *)
Definition unlink (a : Z) (l : list Z) : list Z := List.filter (fun b => negb (b =? a)) l.

Definition list_del_init (c : cache_t) (a : Z) : cache_t :=
  mk_cache (unlink a c.(c_list)) (unlink a c.(ghost_list)) c.(ht_list_head) c.(c_size)
    c.(ghost_list_size) c.(capacity) c.(c_entries).
Definition list_add_live (c : cache_t) (a : Z) : cache_t :=
  mk_cache (a :: c.(c_list)) c.(ghost_list) c.(ht_list_head) c.(c_size) c.(ghost_list_size)
    c.(capacity) c.(c_entries).
Definition list_add_ghost (c : cache_t) (a : Z) : cache_t :=
  mk_cache c.(c_list) (a :: c.(ghost_list)) c.(ht_list_head) c.(c_size) c.(ghost_list_size)
    c.(capacity) c.(c_entries).
Definition hlist_del_init (c : cache_t) (a : Z) : cache_t :=
  mk_cache c.(c_list) c.(ghost_list) (unlink a <$> c.(ht_list_head)) c.(c_size)
    c.(ghost_list_size) c.(capacity) c.(c_entries).
Definition hlist_add_head (c : cache_t) (a : Z) (i : nat) : cache_t :=
  mk_cache c.(c_list) c.(ghost_list) (<[i := a :: c.(ht_list_head) !!! i]> c.(ht_list_head))
    c.(c_size) c.(ghost_list_size) c.(capacity) c.(c_entries).
Definition add_size (c : cache_t) (n g : Z) : cache_t :=
  mk_cache c.(c_list) c.(ghost_list) c.(ht_list_head) (u32 (c.(c_size) + n))
    (u32 (c.(ghost_list_size) + g)) c.(capacity) c.(c_entries).

Section cache.
Context (cache_size_bits : Z) (calloc : entries -> Z).

Definition cache_size : Z := 1 <<. cache_size_bits.
Definition cache_hash (val : Z) : Z :=
  (u32 (val * 0x61C88647) >>. (32 - cache_size_bits)) &. (cache_size - 1).
Definition bucket (c : cache_t) (k : Z) : list Z := c.(ht_list_head) !!! Z.to_nat (cache_hash k).

(** [None] is the result [NULL]; the flags are the results of the two calls
    of [malloc]. *)
Definition cache_create (cache_malloc table_malloc : bool) : option cache_t :=
  if 32 <=? cache_size_bits then None else
  if negb cache_malloc then None else
  if negb table_malloc then None else
  Some (mk_cache [] [] (replicate (Z.to_nat cache_size) []) 0 0 cache_size ∅).

Definition has_key (c : cache_t) (k : Z) (a : Z) : bool :=
  match entry c a with Some e => e.(key) =? k | None => false end.
Definition chain_find (c : cache_t) (k : Z) : option (Z * cache_entry_t) :=
  a ← List.find (has_key c k) (bucket c k);
  e ← entry c a;
  Some (a, e).

(** The value, 0 for [NULL]. *)
Definition cache_get (c : cache_t) (k : Z) (update : bool) : cache_t * Z :=
  if c.(capacity) =? 0 then (c, 0) else
  match chain_find c k with
  | None => (c, 0)
  | Some (a, e) =>
      if negb e.(alive) then (c, 0) else
      (if update then set_entry c a (set_freq e (u32 (e.(freq) + 1))) else c, e.(value))
  end.

(** [None] is a failed assertion, here and below. *)
Definition cache_ghost_list_update (c : cache_t) : option cache_t :=
  if c.(ghost_list_size) <=? c.(capacity) then Some c else
  a ← last c.(ghost_list);
  e ← entry c a;
  if (e.(alive) : bool) then None else
  let c := hlist_del_init c a in
  let c := list_del_init c a in
  let c := add_size c 0 (-1) in
  Some (free_entry c a).

(** The search loop of [cache_put]: the entry to be replaced and the one to be
    revived. *)
Definition put_search (c : cache_t) (k v : Z) : option (option Z * option Z) :=
  match chain_find c k with
  | None => Some (None, None)
  | Some (a, e) =>
      if negb e.(alive) then Some (None, Some a)
      else if negb (e.(value) =? v) then Some (Some a, None)
      else None
  end.

Definition evict (c : cache_t) (a : Z) : option (cache_t * Z) :=
  e ← entry c a;
  if negb e.(alive) then None else
  let c := set_entry c a (set_alive e false) in
  let c := list_del_init c a in
  let c := add_size c (-1) 0 in
  let c := list_add_ghost c a in
  Some (add_size c 0 1, e.(value)).

Definition restore (c : cache_t) (a : Z) : option cache_t :=
  e ← entry c a;
  let c := set_entry c a (set_alive e true) in
  let c := list_del_init c a in
  let c := list_add_live c a in
  Some (add_size c 1 (-1)).

(** The frequency that a new entry starts with, and the history that it
    inherits removed. *)
Definition inherit (c : cache_t) (revived : option Z) : option (cache_t * Z) :=
  match revived with
  | None => Some (c, 1)
  | Some a =>
      e ← entry c a;
      let c := hlist_del_init c a in
      let c := list_del_init c a in
      let c := add_size c 0 (-1) in
      Some (free_entry c a, u32 (e.(freq) + 1))
  end.

(** [calloc_ok]: the allocation of the new entry succeeds.  Its fields are
    written at once, when its frequency is known. *)
Definition cache_put (calloc_ok : bool) (c : cache_t) (k v : Z) : option (cache_t * Z) :=
  if c.(capacity) <? c.(c_size) then None else
  '(replaced, revived) ← put_search c k v;
  replaced ← match replaced with
             | Some a => Some (Some a)
             | None => if c.(c_size) =? c.(capacity) then a ← last c.(c_list); Some (Some a) else Some None
             end;
  '(c, replaced_value) ← match replaced with Some a => evict c a | None => Some (c, 0) end;
  if negb calloc_ok then
    c ← match replaced with Some a => restore c a | None => Some c end;
    Some (c, 0)
  else
  let new_entry := calloc c.(c_entries) in
  '(c, f) ← inherit c revived;
  let c := set_entry c new_entry (mk_cache_entry v true k f) in
  let c := list_add_live c new_entry in
  let c := hlist_add_head c new_entry (Z.to_nat (cache_hash k)) in
  let c := add_size c 1 0 in
  c ← cache_ghost_list_update c;
  if (c.(capacity) <? c.(c_size)) || (c.(capacity) <? c.(ghost_list_size)) then None
  else Some (c, replaced_value).

(** The first entry of a bucket with key [k] that satisfies [p]. *)
Definition chain_find_if (c : cache_t) (k : Z) (p : cache_entry_t -> bool) : option cache_entry_t :=
  a ← List.find (fun a => match entry c a with Some e => (e.(key) =? k) && p e | None => false end) (bucket c k);
  entry c a.

Definition cache_freq (c : cache_t) (k : Z) : Z :=
  if c.(capacity) =? 0 then 0 else
  match chain_find_if c k alive with Some e => e.(freq) | None => 0 end.
Definition cache_hot (c : cache_t) (k : Z) : bool :=
  if c.(capacity) =? 0 then false else
  match chain_find_if c k (fun e => e.(alive) && (THRESHOLD <=? e.(freq))) with Some _ => true | None => false end.

(** The arguments of the calls of the callbacks. *)
Definition cache_profile (c : cache_t) : list (Z * Z) :=
  omap (fun a => (fun e => (e.(value), e.(freq))) <$> entry c a) c.(c_list).
Definition clear_cache_hot (c : cache_t) : list Z :=
  omap (fun a => value <$> entry c a) c.(c_list).
End cache.
