(* ===== verification/CacheSpec.v ===== *)
(** * The cache refines two bounded lists

    The specification of cache.c has no hash table and no addresses: a list
    of live entries and a list of the histories of evicted ones, both newest
    first.  [cache_refines] runs any sequence of operations on both. *)

From Stdlib Require Import ZArith Lia Bool.
From stdpp Require Import base list numbers gmap.
From S2P Require Import Prelude Cache.

(** ** The specification *)

Record item : Type := mk_item { it_key : Z; it_value : Z; it_freq : Z }.
Record history : Type := mk_history { hi_key : Z; hi_freq : Z }.
Record spec : Type := mk_spec { live : list item; ghosts : list history }.

Definition find_item (k : Z) (l : list item) : option item := List.find (fun i => i.(it_key) =? k) l.
Definition find_history (k : Z) (l : list history) : option history := List.find (fun i => i.(hi_key) =? k) l.
Definition drop_item (k : Z) (l : list item) : list item := List.filter (fun i => negb (i.(it_key) =? k)) l.
Fixpoint drop_history (k : Z) (l : list history) : list history :=
  match l with [] => [] | h :: l => if h.(hi_key) =? k then l else h :: drop_history k l end.

Definition spec_get (s : spec) (k : Z) (update : bool) : spec * Z :=
  match find_item k s.(live) with
  | None => (s, 0)
  | Some i =>
      (if update
       then mk_spec ((fun i => if i.(it_key) =? k then mk_item k i.(it_value) (u32 (i.(it_freq) + 1)) else i) <$> s.(live))
              s.(ghosts)
       else s, i.(it_value))
  end.

(** The entry that makes room for key [k]. *)
Definition victim (cap : Z) (s : spec) (k : Z) : option item :=
  match find_item k s.(live) with
  | Some i => Some i
  | None => if Z.of_nat (length s.(live)) =? cap then last s.(live) else None
  end.

Definition spec_put (cap : Z) (memory : bool) (s : spec) (k v : Z) : option (spec * Z) :=
  let hit := find_item k s.(live) in
  if match hit with Some i => i.(it_value) =? v | None => false end then None else
  let out := victim cap s k in
  let rest := match out with Some i => drop_item i.(it_key) s.(live) | None => s.(live) end in
  if negb memory then
    Some (mk_spec (match out with Some i => i :: rest | None => rest end) s.(ghosts), 0)
  else
    let past := if hit is Some _ then None else find_history k s.(ghosts) in
    let gh := match out with Some i => mk_history i.(it_key) i.(it_freq) :: s.(ghosts) | None => s.(ghosts) end in
    let gh := if past is Some _ then drop_history k gh else gh in
    let gh := if cap <? Z.of_nat (length gh) then removelast gh else gh in
    let f := match past with Some h => u32 (h.(hi_freq) + 1) | None => 1 end in
    Some (mk_spec (mk_item k v f :: rest) gh, match out with Some i => i.(it_value) | None => 0 end).

Definition spec_freq (s : spec) (k : Z) : Z :=
  match find_item k s.(live) with Some i => i.(it_freq) | None => 0 end.

Inductive cache_op : Type := Get (k : Z) (update : bool) | Put (memory : bool) (k v : Z) | Freq (k : Z) | Hot (k : Z).

Definition spec_op (cap : Z) (s : spec) (o : cache_op) : option (spec * Z) :=
  match o with
  | Get k u => Some (spec_get s k u)
  | Put m k v => spec_put cap m s k v
  | Freq k => Some (s, spec_freq s k)
  | Hot k => Some (s, b2z (THRESHOLD <=? spec_freq s k))
  end.
Definition code_op (bits : Z) (calloc : entries -> Z) (c : cache_t) (o : cache_op) : option (cache_t * Z) :=
  match o with
  | Get k u => Some (cache_get bits c k u)
  | Put m k v => cache_put bits calloc m c k v
  | Freq k => Some (c, cache_freq bits c k)
  | Hot k => Some (c, b2z (cache_hot bits c k))
  end.

(** The results of a sequence of operations; it ends with the operation that
    fails an assertion. *)
Fixpoint run {S} (op : S -> cache_op -> option (S * Z)) (s : S) (os : list cache_op) : list (option Z) :=
  match os with
  | [] => []
  | o :: os => match op s o with None => [None] | Some (s, r) => Some r :: run op s os end
  end.

(** ** Lists *)

Lemma find_head {A} (p : A -> bool) l : List.find p l = head (List.filter p l).
Proof. induction l as [|x l IH]; [done|]. cbn. by destruct (p x). Qed.
Lemma find_app {A} (p : A -> bool) l l' :
  List.find p (l ++ l') = match List.find p l with Some x => Some x | None => List.find p l' end.
Proof. induction l as [|x l IH]; [done|]. cbn. by destruct (p x). Qed.
Lemma filter_unlink p a l : List.filter p (unlink a l) = unlink a (List.filter p l).
Proof.
  unfold unlink. induction l as [|b l IH]; [done|]. cbn.
  destruct (p b) eqn:Ep, (b =? a) eqn:Ea; cbn; rewrite ?Ep, ?Ea; cbn; by rewrite IH.
Qed.
Lemma filter_same {A} (p q : A -> bool) l :
  (forall x, x ∈ l -> p x = q x) -> List.filter p l = List.filter q l.
Proof.
  induction l as [|x l IH]; intros H; [done|]. cbn. rewrite (H x) by (by left).
  rewrite IH; [done|]. intros y Hy. apply H. by right.
Qed.
Lemma unlink_cons a b l : unlink a (b :: l) = if b =? a then unlink a l else b :: unlink a l.
Proof. unfold unlink. cbn. by destruct (b =? a). Qed.
Lemma unlink_notin a l : a ∉ l -> unlink a l = l.
Proof.
  induction l as [|b l IH]; [done|]. rewrite not_elem_of_cons. intros [Hne Hl]. rewrite unlink_cons.
  destruct (Z.eqb_spec b a); [congruence|]. by rewrite IH.
Qed.
Lemma unlink_app a l l' : unlink a (l ++ l') = unlink a l ++ unlink a l'.
Proof. apply List.filter_app. Qed.
Lemma unlink_split a l1 l2 : NoDup (l1 ++ a :: l2) -> unlink a (l1 ++ a :: l2) = l1 ++ l2.
Proof.
  intros Hn. apply NoDup_app in Hn as (_ & Hd & [Ha _]%NoDup_cons).
  assert (a ∉ l1) as H1 by (intros Hin; apply (Hd a Hin); by left).
  rewrite unlink_app, (unlink_notin a l1), unlink_cons, Z.eqb_refl by done. by rewrite unlink_notin.
Qed.
Lemma elem_unlink a b l : b ∈ unlink a l <-> b ∈ l /\ b <> a.
Proof.
  unfold unlink. rewrite !list_elem_of_In, List.filter_In, negb_true_iff, Z.eqb_neq. done.
Qed.
Lemma find_split {A} (p : A -> bool) l x :
  List.find p l = Some x -> exists l1 l2, l = l1 ++ x :: l2 /\ p x = true /\ Forall (fun y => p y = false) l1.
Proof.
  induction l as [|y l IH]; [done|]. cbn. destruct (p y) eqn:Ep.
  - intros [= ->]. exists [], l. split_and!; [done | done | constructor].
  - intros H. destruct (IH H) as (l1 & l2 & -> & Hx & Hl). exists (y :: l1), l2. split_and!; [done | done|]. by constructor.
Qed.
Lemma find_none {A} (p : A -> bool) l : List.find p l = None -> Forall (fun y => p y = false) l.
Proof. induction l as [|y l IH]; cbn; [constructor|]. destruct (p y) eqn:Ep; [done|]. constructor; auto. Qed.
Lemma last_split {A} (l : list A) x : last l = Some x -> exists l1, l = l1 ++ [x].
Proof. intros H. apply last_Some in H as [l1 ->]. eauto. Qed.

(** ** The hash table

    [linked]: every bucket holds exactly the entries of its keys, in the order
    in which the two lists hold them. *)

Record linked (bits : Z) (c : cache_t) : Prop := mk_linked {
  li_nodup : NoDup (c.(c_list) ++ c.(ghost_list));
  li_known : Forall (fun a => is_Some (entry c a)) (c.(c_list) ++ c.(ghost_list));
  li_table : length c.(ht_list_head) = Z.to_nat (2 ^ bits);
  li_bucket : Forall (Forall (fun a => is_Some (entry c a))) c.(ht_list_head);
  li_chain : forall k, List.filter (has_key c k) (bucket bits c k) =
    List.filter (has_key c k) (c.(c_list) ++ c.(ghost_list));
  li_unique : forall k, (length (List.filter (has_key c k) c.(c_list)) <= 1)%nat
}.

Section linked.
Context (bits : Z) (Hbits : 0 <= bits < 32).
Implicit Types c : cache_t.

Lemma hash_range k : 0 <= cache_hash bits k < 2 ^ bits.
Proof using Hbits.
  unfold cache_hash, cache_size. rewrite Z.shiftl_1_l.
  replace (2 ^ bits - 1) with (Z.ones bits) by (rewrite Z.ones_equiv; lia).
  rewrite Z.land_ones by lia. apply Z.mod_pos_bound. lia.
Qed.
Lemma bucket_in c k : length c.(ht_list_head) = Z.to_nat (2 ^ bits) -> bucket bits c k ∈ c.(ht_list_head).
Proof using Hbits.
  intros Hl. pose proof (hash_range k). unfold bucket. apply list_elem_of_lookup_total_2. lia.
Qed.
Lemma bucket_known c k a : linked bits c -> a ∈ bucket bits c k -> is_Some (entry c a).
Proof using Hbits.
  intros Hl Ha. pose proof (li_bucket _ _ Hl) as Hb. rewrite Forall_forall in Hb.
  specialize (Hb _ (bucket_in c k (li_table _ _ Hl))). rewrite Forall_forall in Hb. by apply Hb.
Qed.

(** Entries change, but not their keys. *)
Lemma linked_same c c' :
  linked bits c -> c'.(c_list) = c.(c_list) -> c'.(ghost_list) = c.(ghost_list) ->
  c'.(ht_list_head) = c.(ht_list_head) -> (forall a, key <$> entry c' a = key <$> entry c a) -> linked bits c'.
Proof using.
  intros [H1 H2 H3 H4 H5 H6] E1 E2 E3 Hk.
  assert (forall k a, has_key c' k a = has_key c k a) as Hh.
  { intros k a. unfold has_key. specialize (Hk a). destruct (entry c' a), (entry c a); try done.
    injection Hk as ->. done. }
  assert (forall a, is_Some (entry c a) -> is_Some (entry c' a)) as Hs.
  { intros a [e He]. specialize (Hk a). rewrite He in Hk. destruct (entry c' a); [eauto | done]. }
  split; rewrite ?E1, ?E2, ?E3; try done.
  - eapply Forall_impl; [exact H2|]. exact Hs.
  - eapply Forall_impl; [exact H4|]. cbn beta. intros l Hl. eapply Forall_impl; [exact Hl|]. exact Hs.
  - intros k. unfold bucket. rewrite E3. rewrite !(filter_same (has_key c' k) (has_key c k)) by done. apply H5.
  - intros k. rewrite (filter_same (has_key c' k) (has_key c k)) by done. apply H6.
Qed.

(** The live entry of a key is alone. *)
Lemma live_alone c a k :
  linked bits c -> a ∈ c.(c_list) -> has_key c k a = true -> List.filter (has_key c k) c.(c_list) = [a].
Proof using.
  intros Hl Ha Hk. pose proof (li_unique _ _ Hl k) as Hu.
  assert (a ∈ List.filter (has_key c k) (c_list c)) as Hin by (by apply list_elem_of_In, List.filter_In; rewrite <- list_elem_of_In).
  destruct (List.filter _ _) as [|b [|]]; cbn in Hu; [by apply not_elem_of_nil in Hin | | lia].
  by apply list_elem_of_singleton in Hin as ->.
Qed.

(** An entry moves from the front of the order of its key in one list to the
    front of the other list. *)
Lemma linked_move c c' a l g :
  linked bits c -> a ∈ c.(c_list) ++ c.(ghost_list) ->
  c'.(c_list) = l -> c'.(ghost_list) = g -> c'.(ht_list_head) = c.(ht_list_head) ->
  (forall b, key <$> entry c' b = key <$> entry c b) ->
  l ++ g ≡ₚ c.(c_list) ++ c.(ghost_list) ->
  (forall k, List.filter (has_key c k) (l ++ g) = List.filter (has_key c k) (c.(c_list) ++ c.(ghost_list))) ->
  (forall k, (length (List.filter (has_key c k) l) <= 1)%nat) ->
  linked bits c'.
Proof using.
  intros Hl Ha E1 E2 E3 Hk Hp Hf Hu.
  assert (linked bits (mk_cache l g c.(ht_list_head) c.(c_size) c.(ghost_list_size) c.(capacity) c.(c_entries))) as Hl'.
  { destruct Hl as [H1 H2 H3 H4 H5 H6]. split; cbn [c_list ghost_list ht_list_head]; try done.
    - by rewrite Hp.
    - by rewrite Hp.
    - intros k. etrans; [apply H5|]. symmetry. apply Hf. }
  by eapply linked_same; [exact Hl'|done..].
Qed.

(** The live entry of a key becomes its newest history. *)
Lemma linked_evict c c' a l1 l2 :
  linked bits c -> c.(c_list) = l1 ++ a :: l2 -> c'.(c_list) = l1 ++ l2 ->
  c'.(ghost_list) = a :: c.(ghost_list) -> c'.(ht_list_head) = c.(ht_list_head) ->
  (forall b, key <$> entry c' b = key <$> entry c b) -> linked bits c'.
Proof using.
  intros Hl El E1 E2 E3 Hk. apply (linked_move c c' a (l1 ++ l2) (a :: ghost_list c)); try done.
  - rewrite El. apply elem_of_app. left. apply elem_of_app. right. by left.
  - rewrite El. solve_Permutation.
  - intros k. rewrite El, !List.filter_app. cbn [List.filter]. destruct (has_key c k a) eqn:Ek; [|done].
    pose proof (live_alone c a k Hl) as Hal. rewrite El, List.filter_app in Hal. cbn [List.filter] in Hal. rewrite Ek in Hal.
    specialize (Hal ltac:(apply elem_of_app; right; by left) eq_refl).
    destruct (List.filter (has_key c k) l1) as [|x y]; cbn in Hal.
    + injection Hal as ->. done.
    + exfalso. injection Hal as -> Hal. by destruct y.
  - intros k. etrans; [|apply (li_unique _ _ Hl k)]. rewrite El, !List.filter_app, !length_app. cbn [List.filter].
    destruct (has_key c k a); cbn [length]; lia.
Qed.
(** ... and is put back. *)
Lemma linked_restore c c' a g :
  linked bits c -> c.(ghost_list) = a :: g -> c'.(c_list) = a :: c.(c_list) ->
  c'.(ghost_list) = g -> c'.(ht_list_head) = c.(ht_list_head) ->
  (forall k, has_key c k a = true -> List.filter (has_key c k) c.(c_list) = []) ->
  (forall b, key <$> entry c' b = key <$> entry c b) -> linked bits c'.
Proof using.
  intros Hl Eg E1 E2 E3 Hno Hk. apply (linked_move c c' a (a :: c_list c) g); try done.
  - rewrite Eg. apply elem_of_app. right. by left.
  - rewrite Eg. solve_Permutation.
  - intros k. rewrite Eg, !List.filter_app. cbn [List.filter]. destruct (has_key c k a) eqn:Ek; [|done].
    by rewrite (Hno k Ek).
  - intros k. cbn [List.filter]. destruct (has_key c k a) eqn:Ek; [by rewrite (Hno k Ek) | apply (li_unique _ _ Hl k)].
Qed.

(** An address disappears. *)
Lemma linked_drop c c' a :
  linked bits c -> c'.(c_list) = unlink a c.(c_list) -> c'.(ghost_list) = unlink a c.(ghost_list) ->
  c'.(ht_list_head) = unlink a <$> c.(ht_list_head) -> c'.(c_entries) = delete a c.(c_entries) -> linked bits c'.
Proof using Hbits.
  intros Hl E1 E2 E3 E4. pose proof Hl as [H1 H2 H3 H4 H5 H6].
  assert (forall b, b <> a -> entry c' b = entry c b) as He.
  { intros b Hb. unfold entry. rewrite E4. by rewrite lookup_delete_ne. }
  assert (forall k l, List.filter (has_key c' k) (unlink a l) = unlink a (List.filter (has_key c k) l)) as Hf.
  { intros k l. rewrite <- filter_unlink. apply filter_same. intros b [_ Hb]%elem_unlink.
    unfold has_key. by rewrite He. }
  split; rewrite ?E1, ?E2, ?E3, <- ?unlink_app.
  - by apply NoDup_ListNoDup, List.NoDup_filter, NoDup_ListNoDup.
  - rewrite Forall_forall in *. intros b [Hb Hne]%elem_unlink. rewrite He by done. by apply H2.
  - by rewrite length_fmap.
  - apply Forall_fmap. eapply Forall_impl; [exact H4|]. cbn beta. intros l Hb. unfold compose. rewrite Forall_forall in *.
    intros b [Hin Hne]%elem_unlink. rewrite He by done. by apply Hb.
  - intros k. unfold bucket. rewrite E3.
    pose proof (hash_range k). rewrite (list_lookup_total_fmap (unlink a) c.(ht_list_head)) by lia. rewrite !Hf. f_equal. apply H5.
  - intros k. rewrite Hf. unfold unlink. etrans; [apply List.filter_length_le | apply H6].
Qed.

(** A new entry. *)
Lemma linked_add c c' a e :
  linked bits c -> entry c a = None -> List.filter (has_key c e.(key)) c.(c_list) = [] ->
  c'.(c_list) = a :: c.(c_list) -> c'.(ghost_list) = c.(ghost_list) ->
  (let i := Z.to_nat (cache_hash bits e.(key)) in
   c'.(ht_list_head) = <[i := a :: c.(ht_list_head) !!! i]> c.(ht_list_head)) ->
  c'.(c_entries) = <[a := e]> c.(c_entries) -> linked bits c'.
Proof using Hbits.
  intros Hl Ha Hno E1 E2 E3 E4. cbv zeta in E3. pose proof Hl as [H1 H2 H3 H4 H5 H6].
  pose proof (hash_range (key e)) as Hr.
  assert (entry c' a = Some e) as Hea by (unfold entry; rewrite E4; apply lookup_insert_eq).
  assert (forall b, is_Some (entry c b) -> b <> a) as Hne by (intros b [e' He'] ->; congruence).
  assert (forall b, is_Some (entry c b) -> entry c' b = entry c b) as He.
  { intros b Hb. unfold entry. rewrite E4. apply lookup_insert_ne. intros <-. by apply (Hne a Hb). }
  assert (forall k b, is_Some (entry c b) -> has_key c' k b = has_key c k b) as Hh
    by (intros k b Hb; unfold has_key; by rewrite He).
  assert (forall k, has_key c' k a = (key e =? k)) as Hka by (intros k; unfold has_key; by rewrite Hea).
  assert (a ∉ c_list c ++ ghost_list c) as Hnot.
  { intros Hin. rewrite Forall_forall in H2. by apply (Hne a (H2 _ Hin)). }
  assert (forall k l, Forall (fun a => is_Some (entry c a)) l -> List.filter (has_key c' k) l = List.filter (has_key c k) l) as Hf.
  { intros k l Hk. rewrite Forall_forall in Hk. apply filter_same. intros b Hb. by apply Hh, Hk. }
  assert (forall l, Forall (fun a => is_Some (entry c a)) l -> Forall (fun a => is_Some (entry c' a)) l) as Hfk.
  { intros l Hk. eapply Forall_impl; [exact Hk|]. cbn beta. intros b Hb. by rewrite He. }
  split; rewrite ?E1, ?E2, ?E3.
  - by constructor.
  - constructor; [rewrite Hea; eauto | by apply Hfk].
  - by rewrite length_insert.
  - apply Forall_insert; [by eapply Forall_impl|]. constructor; [rewrite Hea; eauto|]. apply Hfk.
    rewrite Forall_forall in H4. by apply H4, bucket_in.
  - intros k. change ((a :: c_list c) ++ ghost_list c) with (a :: (c_list c ++ ghost_list c)).
    cbn [List.filter]. rewrite Hka, (Hf _ _ H2), <- H5. unfold bucket. rewrite E3.
    destruct (decide (Z.to_nat (cache_hash bits (key e)) = Z.to_nat (cache_hash bits k))) as [Eh|Nh].
    + rewrite <- Eh, list_lookup_total_insert_eq by lia. cbn [List.filter]. rewrite Hka.
      rewrite (Hf k (ht_list_head c !!! _)); [done|]. rewrite Forall_forall in H4. by apply H4, bucket_in.
    + rewrite list_lookup_total_insert_ne by done. destruct (Z.eqb_spec (key e) k) as [<-|]; [done|].
      rewrite Hf; [done|]. rewrite Forall_forall in H4. by apply H4, bucket_in.
  - intros k. cbn [List.filter]. apply Forall_app in H2 as [H2 _]. rewrite Hka, (Hf _ _ H2).
    destruct (Z.eqb_spec (key e) k) as [<-|]; [by rewrite Hno | apply H6].
Qed.
End linked.

(** ** The representation *)

Definition is_live (c : cache_t) (a : Z) (i : item) : Prop :=
  exists e, entry c a = Some e /\ e.(alive) = true /\ i = mk_item e.(key) e.(value) e.(freq).
Definition is_ghost (c : cache_t) (a : Z) (h : history) : Prop :=
  exists e, entry c a = Some e /\ e.(alive) = false /\ h = mk_history e.(key) e.(freq).

Record held (bits : Z) (c : cache_t) (s : spec) : Prop := mk_held {
  he_linked : linked bits c;
  he_live : Forall2 (is_live c) c.(c_list) s.(live);
  he_ghost : Forall2 (is_ghost c) c.(ghost_list) s.(ghosts);
  he_cap : c.(capacity) = 2 ^ bits;
  he_size : c.(c_size) = Z.of_nat (length s.(live));
  he_gsize : c.(ghost_list_size) = Z.of_nat (length s.(ghosts))
}.
Record repr (bits : Z) (c : cache_t) (s : spec) : Prop := mk_repr {
  re_held : held bits c s;
  re_size : Z.of_nat (length s.(live)) <= 2 ^ bits;
  re_gsize : Z.of_nat (length s.(ghosts)) <= 2 ^ bits
}.

Lemma Forall2_find {A B} (R : A -> B -> Prop) (p : A -> bool) (q : B -> bool) l l' :
  Forall2 R l l' -> (forall x y, R x y -> p x = q y) ->
  List.find p l = None /\ List.find q l' = None \/
  exists x y l1 l2 l1' l2', List.find p l = Some x /\ List.find q l' = Some y /\ R x y /\
    l = l1 ++ x :: l2 /\ l' = l1' ++ y :: l2' /\ Forall2 R l1 l1' /\ Forall2 R l2 l2' /\ Forall (fun y => q y = false) l1'.
Proof.
  intros Hl Hpq. induction Hl as [|x y l l' Hxy Hl IH]; [by left|]. cbn. rewrite (Hpq _ _ Hxy).
  destruct (q y) eqn:Eq.
  - right. exists x, y, [], l, [], l'. split_and!; try done; constructor.
  - destruct IH as [[-> ->]|(x' & y' & l1 & l2 & l1' & l2' & -> & -> & HR & -> & -> & H1 & H2 & H3)]; [by left|].
    right. exists x', y', (x :: l1), l2, (y :: l1'), l2'. split_and!; try done; by constructor.
Qed.
Lemma Forall2_last {A B} (R : A -> B -> Prop) l l' :
  Forall2 R l l' -> last l = None /\ last l' = None \/
  exists x y l1 l1', last l = Some x /\ last l' = Some y /\ R x y /\ l = l1 ++ [x] /\ l' = l1' ++ [y] /\ Forall2 R l1 l1'.
Proof.
  intros Hl. destruct (last l) as [x|] eqn:E.
  - right. apply last_split in E as [l1 ->]. apply Forall2_app_inv_l in Hl as (l1' & l2' & H1 & H2 & ->).
    apply Forall2_cons_inv_l in H2 as (y & l3 & Hxy & H3 & ->). apply Forall2_nil_inv_l in H3 as ->.
    exists x, y, l1, l1'. by rewrite !last_snoc.
  - left. split; [done|]. apply last_None in E as ->. by apply Forall2_nil_inv_l in Hl as ->.
Qed.
Lemma Forall2_same {A B} (R R' : A -> B -> Prop) l l' :
  Forall2 R l l' -> (forall x y, x ∈ l -> R x y -> R' x y) -> Forall2 R' l l'.
Proof.
  intros Hl. induction Hl as [|x y l l' Hxy Hl IH]; intros H; constructor.
  - apply H; [by left | done].
  - apply IH. intros x' y' Hx. apply H. by right.
Qed.

Section repr.
Context (bits : Z) (Hbits : 0 <= bits < 32).
Implicit Types c : cache_t.
Notation held := (held bits).

Lemma live_key c k a i : is_live c a i -> has_key c k a = (it_key i =? k).
Proof using. intros (e & He & _ & ->). unfold has_key. by rewrite He. Qed.
Lemma ghost_key c k a h : is_ghost c a h -> has_key c k a = (hi_key h =? k).
Proof using. intros (e & He & _ & ->). unfold has_key. by rewrite He. Qed.

Lemma chain_find_lists c k :
  linked bits c ->
  chain_find bits c k = a ← List.find (has_key c k) (c.(c_list) ++ c.(ghost_list)); e ← entry c a; Some (a, e).
Proof using. intros Hl. unfold chain_find. by rewrite !find_head, (li_chain _ _ Hl). Qed.

Lemma live_split_unique c k a l1 l2 s1 s2 :
  linked bits c -> c.(c_list) = l1 ++ a :: l2 -> has_key c k a = true ->
  Forall2 (is_live c) l1 s1 -> Forall2 (is_live c) l2 s2 ->
  find_item k (s1 ++ s2) = None /\ drop_item k (s1 ++ s2) = s1 ++ s2.
Proof using.
  intros Hl El Ha H1 H2. pose proof (li_unique _ _ Hl k) as Hu. rewrite El in Hu.
  rewrite List.filter_app, length_app in Hu. cbn [List.filter] in Hu. rewrite Ha in Hu. cbn [length] in Hu.
  assert (forall l s', Forall2 (is_live c) l s' -> length (List.filter (has_key c k) l) = 0%nat ->
    Forall (fun i => (it_key i =? k) = false) s') as Hgo.
  { intros l s' H. induction H as [|b i l s' Hb H IH]; [constructor|]. cbn [List.filter].
    rewrite (live_key c k b i Hb). destruct (it_key i =? k) eqn:E; [done|]. intros. constructor; auto. }
  assert (Forall (fun i => (it_key i =? k) = false) (s1 ++ s2)) as Hall.
  { apply Forall_app. split; [apply (Hgo l1) | apply (Hgo l2)]; try done; lia. }
  unfold find_item, drop_item. induction Hall as [|i l Hi Hall IH]; [done|]. cbn. rewrite Hi. cbn.
  destruct IH as [-> ->]. done.
Qed.

(** Entries that are not touched. *)
Lemma live_frame c c' l s' :
  (forall a, a ∈ l -> entry c' a = entry c a) -> Forall2 (is_live c) l s' -> Forall2 (is_live c') l s'.
Proof using.
  intros He H. eapply Forall2_same; [exact H|]. intros a i Ha (e & Hx & ? & ?). exists e. by rewrite He.
Qed.
Lemma ghost_frame c c' l s' :
  (forall a, a ∈ l -> entry c' a = entry c a) -> Forall2 (is_ghost c) l s' -> Forall2 (is_ghost c') l s'.
Proof using.
  intros He H. eapply Forall2_same; [exact H|]. intros a i Ha (e & Hx & ? & ?). exists e. by rewrite He.
Qed.
Lemma evict_ok c s a l1 l2 s1 i s2 :
  held c s -> c.(c_list) = l1 ++ a :: l2 -> s.(live) = s1 ++ i :: s2 ->
  Forall2 (is_live c) l1 s1 -> is_live c a i -> Forall2 (is_live c) l2 s2 ->
  Z.of_nat (length s.(live)) < 2 ^ 32 -> Z.of_nat (length s.(ghosts)) + 1 < 2 ^ 32 ->
  exists c', evict c a = Some (c', i.(it_value)) /\
    held c' (mk_spec (s1 ++ s2) (mk_history i.(it_key) i.(it_freq) :: s.(ghosts))) /\
    c'.(ghost_list) = a :: c.(ghost_list) /\
    exists e, entry c' a = Some e /\ i = mk_item e.(key) e.(value) e.(freq).
Proof using Hbits.
  intros [Hl Hlive Hgh Hc Hs Hg] El Es H1 (e & He & Ha & ->) H2 Hb1 Hb2.
  pose proof (li_nodup _ _ Hl) as Hnd. rewrite El in Hnd.
  apply NoDup_app in Hnd as (Hnd & Hdis & _). pose proof Hnd as Hnd'.
  apply NoDup_app in Hnd' as (_ & Hd1 & [Hd2 _]%NoDup_cons).
  assert (a ∉ l1) as Hn1 by (intros Hin; apply (Hd1 a Hin); by left).
  assert (a ∉ ghost_list c) as Hng by (apply Hdis, elem_of_app; right; by left).
  assert (unlink a (c_list c) = l1 ++ l2) as Eu by (by rewrite El, unlink_split).
  assert (unlink a (ghost_list c) = ghost_list c) as Eg by by apply unlink_notin.
  unfold evict. rewrite He. cbn [mbind option_bind]. rewrite Ha. cbn [negb].
  unfold add_size, list_add_ghost, list_del_init, set_entry.
  cbn [c_list ghost_list ht_list_head c_size ghost_list_size capacity c_entries]. rewrite Eu, Eg.
  eexists. split; [reflexivity|]. set (c' := mk_cache _ _ _ _ _ _ _).
  assert (entry c' a = Some (set_alive e false)) as Ha' by apply lookup_insert_eq.
  assert (forall b, b <> a -> entry c' b = entry c b) as Hne by (intros b Hb; by apply lookup_insert_ne).
  split; [|split; [done | by eexists]]. split; cbn [live ghosts].
  - apply (linked_evict bits c c' a l1 l2); try done.
    intros b. destruct (decide (b = a)) as [->|Hb]; [by rewrite Ha', He | by rewrite Hne].
  - apply Forall2_app; (eapply live_frame; [|eassumption]); intros b Hb; apply Hne; intros ->; done.
  - constructor; [by eexists|]. eapply ghost_frame; [|exact Hgh]. intros b Hb. apply Hne. intros ->. done.
  - done.
  - unfold c'. cbn [c_size]. rewrite Hs, Es, !length_app. cbn [length]. rewrite Es, length_app in Hb1. cbn [length] in Hb1.
    rewrite Z.add_0_r, (u32_small (Z.of_nat _ + -1)), u32_small by lia. lia.
  - unfold c'. cbn [ghost_list_size length]. rewrite Hg, Z.add_0_r. rewrite (u32_small (Z.of_nat _)) by lia. rewrite u32_small by lia. lia.
Qed.

(** No live entry has the key. *)
Lemma no_live c s k : held c s -> find_item k s.(live) = None -> List.filter (has_key c k) c.(c_list) = [].
Proof using.
  intros Hh Hf. pose proof (he_live _ _ _ Hh) as Hl. apply find_none in Hf. revert Hf.
  induction Hl as [|a i l s' Ha Hl IH]; [done|]. intros [Hi Hf]%Forall_cons. cbn [List.filter].
  rewrite (live_key c k a i Ha), Hi. by apply IH.
Qed.

Lemma restore_ok c a g e sl h gs :
  held c (mk_spec sl (h :: gs)) -> c.(ghost_list) = a :: g -> entry c a = Some e ->
  find_item e.(key) sl = None ->
  Z.of_nat (length sl) + 1 < 2 ^ 32 -> Z.of_nat (length (h :: gs)) < 2 ^ 32 ->
  exists c', restore c a = Some c' /\ held c' (mk_spec (mk_item e.(key) e.(value) e.(freq) :: sl) gs).
Proof using.
  intros Hh Eg He Hf Hb1 Hb2. pose proof Hh as [Hl Hlive Hgh Hc Hs Hg]. cbn [live ghosts] in *.
  pose proof (li_nodup _ _ Hl) as Hnd. rewrite Eg in Hnd, Hgh. apply NoDup_app in Hnd as (_ & Hdis & [Hn _]%NoDup_cons).
  assert (a ∉ c_list c) as Hnl by (intros Hin; apply (Hdis a Hin); by left).
  apply Forall2_cons in Hgh as [Ha Hgh].
  unfold restore. rewrite He. cbn [mbind option_bind]. unfold add_size, list_add_live, list_del_init, set_entry.
  cbn [c_list ghost_list ht_list_head c_size ghost_list_size capacity c_entries].
  rewrite Eg, unlink_cons, Z.eqb_refl, !unlink_notin by done.
  eexists. split; [reflexivity|]. set (c' := mk_cache _ _ _ _ _ _ _).
  assert (entry c' a = Some (set_alive e true)) as Ha' by apply lookup_insert_eq.
  assert (forall b, b <> a -> entry c' b = entry c b) as Hne by (intros b Hb; by apply lookup_insert_ne).
  split; cbn [live ghosts]; try done.
  - apply (linked_restore bits c c' a g); try done.
    + intros k Hk. apply (no_live c (mk_spec sl (h :: gs))); [done|]. cbn [live].
      unfold has_key in Hk. rewrite He in Hk. by apply Z.eqb_eq in Hk as <-.
    + intros b. destruct (decide (b = a)) as [->|Hb]; [by rewrite Ha', He | by rewrite Hne].
  - constructor; [by eexists|]. eapply live_frame; [|exact Hlive]. intros b Hb. apply Hne. intros ->. done.
  - eapply ghost_frame; [|exact Hgh]. intros b Hb. apply Hne. intros ->. done.
  - unfold c'. cbn [c_size length]. rewrite Hs, u32_small by lia. lia.
  - unfold c'. cbn [ghost_list_size length] in *. rewrite Hg, u32_small by lia. lia.
Qed.

(** A history disappears. *)
Lemma forget_ok c s a g1 g2 h1 h h2 :
  held c s -> c.(ghost_list) = g1 ++ a :: g2 -> s.(ghosts) = h1 ++ h :: h2 ->
  Forall2 (is_ghost c) g1 h1 -> Forall2 (is_ghost c) g2 h2 ->
  Z.of_nat (length s.(live)) < 2 ^ 32 -> Z.of_nat (length s.(ghosts)) < 2 ^ 32 ->
  held (free_entry (add_size (list_del_init (hlist_del_init c a) a) 0 (-1)) a) (mk_spec s.(live) (h1 ++ h2)).
Proof using Hbits.
  intros [Hl Hlive Hgh Hc Hs Hg] Eg Es H1 H2 Hb1 Hb2.
  pose proof (li_nodup _ _ Hl) as Hnd. rewrite Eg in Hnd. apply NoDup_app in Hnd as (_ & Hdis & Hnd).
  pose proof Hnd as Hnd'. apply NoDup_app in Hnd' as (_ & Hd1 & [Hd2 _]%NoDup_cons).
  assert (a ∉ g1) as Hn1 by (intros Hin; apply (Hd1 a Hin); by left).
  assert (a ∉ c_list c) as Hnl by (intros Hin; apply (Hdis a Hin), elem_of_app; right; by left).
  set (c' := free_entry _ _).
  assert (forall b, b <> a -> entry c' b = entry c b) as Hne by (intros b Hb; by apply lookup_delete_ne).
  split; cbn [live ghosts].
  - by apply (linked_drop bits Hbits c c' a).
  - unfold c'. cbn [c_list free_entry add_size list_del_init hlist_del_init]. rewrite unlink_notin by done.
    eapply live_frame; [|exact Hlive]. intros b Hb. apply Hne. intros ->. done.
  - unfold c'. cbn [ghost_list free_entry add_size list_del_init hlist_del_init]. rewrite Eg, unlink_split by done.
    apply Forall2_app; (eapply ghost_frame; [|eassumption]); intros b Hb; apply Hne; intros ->; done.
  - done.
  - unfold c'. cbn [c_size free_entry add_size list_del_init hlist_del_init]. rewrite Hs, Z.add_0_r. apply u32_small. lia.
  - unfold c'. cbn [ghost_list_size free_entry add_size list_del_init hlist_del_init].
    rewrite Hg, Es, !length_app. cbn [length]. rewrite Es, length_app in Hb2. cbn [length] in Hb2. rewrite u32_small by lia. lia.
Qed.

(** A new entry. *)
Definition add_entry (c : cache_t) (a k v f : Z) : cache_t :=
  add_size (hlist_add_head (list_add_live (set_entry c a (mk_cache_entry v true k f)) a) a
    (Z.to_nat (cache_hash bits k))) 1 0.
Lemma add_ok c s a k v f :
  held c s -> entry c a = None -> find_item k s.(live) = None ->
  Z.of_nat (length s.(live)) + 1 < 2 ^ 32 -> Z.of_nat (length s.(ghosts)) < 2 ^ 32 ->
  held (add_entry c a k v f) (mk_spec (mk_item k v f :: s.(live)) s.(ghosts)).
Proof using Hbits.
  intros Hh Ha Hf Hb1 Hb2. pose proof Hh as [Hl Hlive Hgh Hc Hs Hg]. set (c' := add_entry _ _ _ _ _).
  assert (entry c' a = Some (mk_cache_entry v true k f)) as Ha' by apply lookup_insert_eq.
  assert (forall b, is_Some (entry c b) -> entry c' b = entry c b) as Hne.
  { intros b Hb. apply lookup_insert_ne. intros <-. rewrite Ha in Hb. by destruct Hb. }
  pose proof (li_known _ _ Hl) as Hk. rewrite Forall_app, !Forall_forall in Hk. destruct Hk as [Hk1 Hk2].
  split; cbn [live ghosts].
  - apply (linked_add bits Hbits c c' a (mk_cache_entry v true k f)); try done. by apply (no_live c s).
  - constructor; [by eexists|]. eapply live_frame; [|exact Hlive]. intros b Hb. by apply Hne, Hk1.
  - eapply ghost_frame; [|exact Hgh]. intros b Hb. by apply Hne, Hk2.
  - done.
  - unfold c', add_entry. cbn. rewrite Hs, u32_small by lia. lia.
  - unfold c', add_entry. cbn. rewrite Hg, Z.add_0_r, u32_small by lia. lia.
Qed.

(** ** The operations *)

Definition item_of (e : cache_entry_t) : item := mk_item e.(key) e.(value) e.(freq).

(** What the search in a bucket finds. *)
Inductive found (c : cache_t) (s : spec) (k : Z) : Prop :=
  | found_live a e l1 l2 s1 s2 :
      find_item k s.(live) = Some (item_of e) -> chain_find bits c k = Some (a, e) ->
      entry c a = Some e -> e.(alive) = true -> e.(key) = k ->
      c.(c_list) = l1 ++ a :: l2 -> s.(live) = s1 ++ item_of e :: s2 ->
      Forall2 (is_live c) l1 s1 -> Forall2 (is_live c) l2 s2 ->
      find_item k (s1 ++ s2) = None -> drop_item k s.(live) = s1 ++ s2 ->
      found c s k
  | found_ghost a e g1 g2 h1 h2 :
      find_item k s.(live) = None -> find_history k s.(ghosts) = Some (mk_history k e.(freq)) ->
      chain_find bits c k = Some (a, e) -> entry c a = Some e -> e.(alive) = false ->
      c.(ghost_list) = g1 ++ a :: g2 -> s.(ghosts) = h1 ++ mk_history k e.(freq) :: h2 ->
      Forall2 (is_ghost c) g1 h1 -> Forall2 (is_ghost c) g2 h2 ->
      drop_history k s.(ghosts) = h1 ++ h2 ->
      found c s k
  | found_none :
      find_item k s.(live) = None -> find_history k s.(ghosts) = None -> chain_find bits c k = None ->
      found c s k.

Lemma drop_history_split k h1 h h2 :
  Forall (fun h => (hi_key h =? k) = false) h1 -> hi_key h = k -> drop_history k (h1 ++ h :: h2) = h1 ++ h2.
Proof using.
  intros Hh E. induction Hh as [|x h1 Hx Hh IH]; cbn [app drop_history]; [by rewrite E, Z.eqb_refl|]. by rewrite Hx, IH.
Qed.

Lemma find_key {A} (f : A -> Z) k l x : List.find (fun y => f y =? k) l = Some x -> f x = k.
Proof using. intros (l1 & l2 & _ & E & _)%find_split. by apply Z.eqb_eq. Qed.

Lemma chain_found c s k : held c s -> found c s k.
Proof using.
  intros Hh. pose proof Hh as [Hl Hlive Hgh _ _ _].
  pose proof (chain_find_lists c k Hl) as Hcf. rewrite find_app in Hcf.
  destruct (Forall2_find (is_live c) (has_key c k) (fun i => it_key i =? k) _ _ Hlive (live_key c k))
    as [[E1 E2]|(a & i & l1 & l2 & s1 & s2 & E1 & E2 & (e & He & Ha & ->) & El & Es & H1 & H2 & _)].
  2: { apply find_key in E2 as Ek. cbn [it_key] in Ek. rewrite E1 in Hcf. cbn [mbind option_bind] in Hcf. rewrite He in Hcf.
       assert (has_key c k a = true) as Hk by (unfold has_key; rewrite He; by apply Z.eqb_eq).
       destruct (live_split_unique c k a l1 l2 s1 s2 Hl El Hk H1 H2) as [Hn Hd].
       apply (found_live c s k a e l1 l2 s1 s2); try done.
       rewrite Es. unfold drop_item in *. rewrite List.filter_app in *. cbn [List.filter item_of it_key].
       rewrite (proj2 (Z.eqb_eq _ _) Ek). exact Hd. }
  rewrite E1 in Hcf.
  destruct (Forall2_find (is_ghost c) (has_key c k) (fun i => hi_key i =? k) _ _ Hgh (ghost_key c k))
    as [[G1 G2]|(a & h & g1 & g2 & h1 & h2 & G1 & G2 & (e & He & Ha & ->) & Eg & Es & H1 & H2 & H3)].
  - rewrite G1 in Hcf. by apply found_none.
  - apply find_key in G2 as Ek. cbn [hi_key] in Ek. rewrite G1 in Hcf. cbn [mbind option_bind] in Hcf. rewrite He in Hcf.
    rewrite Ek in *. apply (found_ghost c s k a e g1 g2 h1 h2); try done.
    rewrite Es. by apply drop_history_split.
Qed.

Lemma get_ok c s k u :
  repr bits c s -> repr bits (cache_get bits c k u).1 (spec_get s k u).1 /\ (cache_get bits c k u).2 = (spec_get s k u).2.
Proof using Hbits.
  intros [Hh Hb1 Hb2]. unfold cache_get, spec_get. rewrite (he_cap _ _ _ Hh).
  destruct (Z.eqb_spec (2 ^ bits) 0); [lia|].
  destruct (chain_found c s k Hh) as [a e l1 l2 s1 s2 -> -> He Ha Hk El Es H1 H2 Hn _ | a e g1 g2 h1 h2 -> _ -> He Ha _ _ _ _ _ | -> _ ->].
  2-3: by rewrite ?Ha.
  rewrite Ha. cbn [negb fst snd item_of it_value]. split; [|done]. destruct u; [|done].
  assert ((fun i => if it_key i =? k then mk_item k (it_value i) (u32 (it_freq i + 1)) else i) <$> live s =
    s1 ++ item_of (set_freq e (u32 (freq e + 1))) :: s2) as El'.
  { apply find_none in Hn. apply Forall_app in Hn as [Hn1 Hn2].
    assert (forall l, Forall (fun i => (it_key i =? k) = false) l ->
      (fun i => if it_key i =? k then mk_item k (it_value i) (u32 (it_freq i + 1)) else i) <$> l = l) as Hid.
    { intros l Hf. induction Hf as [|i l Hi Hf IH]; [done|]. cbn. rewrite Hi. f_equal. exact IH. }
    rewrite Es, fmap_app, fmap_cons, !Hid by done. cbn [item_of it_key it_value it_freq].
    rewrite (proj2 (Z.eqb_eq _ _) Hk). by rewrite <- Hk. }
  rewrite El'. destruct Hh as [Hl Hlive Hgh Hc Hs Hg]. set (c' := set_entry _ _ _).
  pose proof (li_nodup _ _ Hl) as Hnd. rewrite El in Hnd. apply NoDup_app in Hnd as (Hnd & Hdis & _).
  apply NoDup_app in Hnd as (_ & Hd1 & [Hd2 _]%NoDup_cons).
  assert (forall b, b <> a -> entry c' b = entry c b) as Hne by (intros b Hb; by apply lookup_insert_ne).
  assert (length (live s) = length (s1 ++ item_of (set_freq e (u32 (freq e + 1))) :: s2)) as Hlen
    by (rewrite Es, !length_app; done).
  split; [split| |]; cbn [live ghosts]; try done; try (by rewrite <- Hlen).
  - apply (linked_same bits c); try done. intros b. destruct (decide (b = a)) as [->|Hb]; [|by rewrite Hne].
    unfold c', set_entry, entry. cbn [c_entries]. rewrite lookup_insert_eq. unfold entry in He. by rewrite He.
  - change (c_list c') with (c_list c). rewrite El. apply Forall2_app; [|constructor].
    + eapply live_frame; [|exact H1]. intros b Hb. apply Hne. intros ->. apply (Hd1 a Hb). by left.
    + exists (set_freq e (u32 (freq e + 1))). split; [apply lookup_insert_eq | done].
    + eapply live_frame; [|exact H2]. intros b Hb. apply Hne. intros ->. done.
  - eapply ghost_frame; [|exact Hgh]. intros b Hb. apply Hne. intros ->. apply (Hdis a); [|done].
    apply elem_of_app. right. by left.
Qed.

Lemma filter_filter {A} (p q : A -> bool) l : List.filter q (List.filter p l) = List.filter (fun x => p x && q x) l.
Proof using. induction l as [|x l IH]; [done|]. cbn. destruct (p x) eqn:Ep; cbn; [|done]. destruct (q x); by rewrite ?IH. Qed.

(** The searches of [cache_freq] and [cache_hot]. *)
Lemma find_if_ok c s k q :
  held c s ->
  item_of <$> chain_find_if bits c k (fun e => e.(alive) && q (item_of e)) =
  i ← find_item k s.(live); if (q i : bool) then Some i else None.
Proof using.
  intros Hh. pose proof Hh as [Hl Hlive Hgh _ _ _]. unfold chain_find_if. rewrite find_head.
  set (P := fun a => match entry c a with Some e => alive e && q (item_of e) | None => false end).
  rewrite (filter_same _ (fun a => has_key c k a && P a)).
  2: { intros a _. unfold has_key, P. by destruct (entry c a). }
  rewrite <- filter_filter, (li_chain _ _ Hl), List.filter_app, List.filter_app.
  assert (List.filter P (List.filter (has_key c k) (ghost_list c)) = []) as ->.
  { rewrite filter_filter. clear -Hgh. induction Hgh as [|a h l l' (e & He & Ha & _) Hgh IH]; [done|]. cbn [List.filter].
    unfold P at 1. rewrite He, Ha, andb_false_r. exact IH. }
  rewrite app_nil_r.
  destruct (chain_found c s k Hh) as [a e l1 l2 s1 s2 -> _ He Ha Hk El _ _ _ _ _ | a e g1 g2 h1 h2 E _ _ _ _ _ _ _ _ _ | E _ _].
  - rewrite (live_alone bits c a k Hl); [| rewrite El; apply elem_of_app; right; by left | unfold has_key; rewrite He; by apply Z.eqb_eq].
    cbn [List.filter mbind option_bind]. unfold P. rewrite He, Ha. cbn [andb].
    destruct (q (item_of e)); cbn; [by rewrite He | done].
  - by rewrite (no_live c s k Hh E), E.
  - by rewrite (no_live c s k Hh E), E.
Qed.

Lemma freq_ok c s k : repr bits c s -> cache_freq bits c k = spec_freq s k.
Proof using Hbits.
  intros [Hh _ _]. unfold cache_freq, spec_freq. rewrite (he_cap _ _ _ Hh). destruct (Z.eqb_spec (2 ^ bits) 0); [lia|].
  pose proof (find_if_ok c s k (fun _ => true) Hh) as E.
  assert (chain_find_if bits c k (fun e => alive e && true) = chain_find_if bits c k alive) as Ea.
  { unfold chain_find_if. rewrite !find_head. erewrite filter_same; [reflexivity|]. intros a _. cbn beta.
    destruct (entry c a); [by rewrite andb_true_r | done]. }
  cbn beta in E. rewrite Ea in E. destruct (chain_find_if _ _ _ _) as [e|], (find_item k (live s)); simplify_eq/=; done.
Qed.
Lemma hot_ok c s k : repr bits c s -> cache_hot bits c k = (THRESHOLD <=? spec_freq s k).
Proof using Hbits.
  intros [Hh _ _]. unfold cache_hot, spec_freq. rewrite (he_cap _ _ _ Hh). destruct (Z.eqb_spec (2 ^ bits) 0); [lia|].
  pose proof (find_if_ok c s k (fun i => THRESHOLD <=? it_freq i) Hh) as E. cbn [item_of it_freq] in E.
  destruct (chain_find_if _ _ _ _) as [e|], (find_item k (live s)) as [i|]; cbn in *; try done.
  - destruct (THRESHOLD <=? it_freq i); done.
  - destruct (THRESHOLD <=? it_freq i); done.
Qed.

(** *** Insertion *)

Lemma out_ok c s a l1 l2 s1 i s2 :
  held c s -> c.(c_list) = l1 ++ a :: l2 -> s.(live) = s1 ++ i :: s2 ->
  Forall2 (is_live c) l1 s1 -> is_live c a i -> Forall2 (is_live c) l2 s2 ->
  Z.of_nat (length s.(live)) <= 2 ^ bits -> Z.of_nat (length s.(ghosts)) <= 2 ^ bits ->
  exists c1, evict c a = Some (c1, i.(it_value)) /\
    held c1 (mk_spec (s1 ++ s2) (mk_history i.(it_key) i.(it_freq) :: s.(ghosts))) /\
    c1.(ghost_list) = a :: c.(ghost_list) /\ drop_item i.(it_key) s.(live) = s1 ++ s2 /\
    exists c2, restore c1 a = Some c2 /\ held c2 (mk_spec (i :: s1 ++ s2) s.(ghosts)).
Proof using Hbits.
  intros Hh El Es H1 Hi H2 Hb1 Hb2. assert (2 ^ bits <= 2 ^ 31) as Hp by (apply Z.pow_le_mono_r; lia).
  destruct (evict_ok c s a l1 l2 s1 i s2 Hh El Es H1 Hi H2) as (c1 & E & Hh1 & Eg & e & He & ->); [lia | lia|].
  destruct (live_split_unique c (key e) a l1 l2 s1 s2 (he_linked _ _ _ Hh) El) as [Hn Hd]; try done.
  { rewrite (live_key c _ a _ Hi). apply Z.eqb_refl. }
  rewrite Es, length_app in Hb1. cbn [length] in Hb1.
  destruct (restore_ok c1 a (ghost_list c) e (s1 ++ s2) (mk_history (key e) (freq e)) (ghosts s)) as (c2 & E2 & Hh2); try done.
  { rewrite length_app. lia. }
  { cbn [length]. lia. }
  exists c1. split_and!; try done; [|by exists c2].
  rewrite Es. unfold drop_item in *. rewrite List.filter_app in *. cbn [List.filter it_key]. by rewrite Z.eqb_refl.
Qed.

Lemma inherit_ok c s a g1 g2 h1 h h2 :
  held c s -> c.(ghost_list) = g1 ++ a :: g2 -> s.(ghosts) = h1 ++ h :: h2 -> length g1 = length h1 ->
  Z.of_nat (length s.(live)) < 2 ^ 32 -> Z.of_nat (length s.(ghosts)) < 2 ^ 32 ->
  exists c', inherit c (Some a) = Some (c', u32 (h.(hi_freq) + 1)) /\
    held c' (mk_spec s.(live) (h1 ++ h2)) /\ forall b, entry c b = None -> entry c' b = None.
Proof using Hbits.
  intros Hh Eg Es Hlen Hb1 Hb2. pose proof (he_ghost _ _ _ Hh) as Hgh. rewrite Eg, Es in Hgh.
  apply Forall2_app_inv in Hgh as [H1 Hgh]; [|done]. apply Forall2_cons in Hgh as [(e & He & Ha & ->) H2].
  unfold inherit. rewrite He. cbn [mbind option_bind]. eexists. split; [reflexivity|]. split.
  - by eapply forget_ok.
  - intros b Hb. change (delete a (c_entries c) !! b = None). destruct (decide (a = b)) as [->|]; [apply lookup_delete_eq | by rewrite lookup_delete_ne].
Qed.

Lemma removelast_snoc {A} (l : list A) x : removelast (l ++ [x]) = l.
Proof using. rewrite List.removelast_app by done. cbn. apply app_nil_r. Qed.

Lemma ghost_update_ok c s :
  held c s -> Z.of_nat (length s.(live)) < 2 ^ 32 -> Z.of_nat (length s.(ghosts)) < 2 ^ 32 ->
  exists c', cache_ghost_list_update c = Some c' /\
    held c' (mk_spec s.(live) (if 2 ^ bits <? Z.of_nat (length s.(ghosts)) then removelast s.(ghosts) else s.(ghosts))).
Proof using Hbits.
  intros Hh Hb1 Hb2. pose proof Hh as [Hl Hlive Hgh Hc Hs Hg]. unfold cache_ghost_list_update. rewrite Hg, Hc.
  rewrite Z.leb_antisym. destruct (Z.ltb_spec (2 ^ bits) (Z.of_nat (length (ghosts s)))); cbn [negb].
  2: { exists c. split; [done|]. by destruct s. }
  destruct (Forall2_last _ _ _ Hgh) as [[E1 E2]|(a & h & g1 & h1 & E1 & _ & (e & He & Ha & ->) & Eg & Es & H1)].
  { apply last_None in E2. rewrite E2 in *. cbn [length] in *. lia. }
  rewrite E1. cbn [mbind option_bind]. rewrite He. cbn [mbind option_bind]. rewrite Ha. eexists. split; [reflexivity|].
  rewrite Es, removelast_snoc. rewrite <- (app_nil_r h1) at 1.
  eapply (forget_ok c s a g1 [] h1); done.
Qed.

(** What follows the choice of the address of the new entry. *)
Definition put_tail (c : cache_t) (revived : option Z) (a k v r : Z) : option (cache_t * Z) :=
  '(c, f) ← inherit c revived;
  c ← cache_ghost_list_update (add_entry c a k v f);
  if (c.(capacity) <? c.(c_size)) || (c.(capacity) <? c.(ghost_list_size)) then None else Some (c, r).

Lemma tail_ok c s revived a k v r f gs :
  held c s -> entry c a = None -> find_item k s.(live) = None ->
  Z.of_nat (length s.(live)) + 1 <= 2 ^ bits -> Z.of_nat (length gs) <= 2 ^ bits + 1 ->
  (exists c', inherit c revived = Some (c', f) /\ held c' (mk_spec s.(live) gs) /\ entry c' a = None) ->
  exists c', put_tail c revived a k v r = Some (c', r) /\
    repr bits c' (mk_spec (mk_item k v f :: s.(live)) (if 2 ^ bits <? Z.of_nat (length gs) then removelast gs else gs)).
Proof using Hbits.
  intros Hh Ha Hf Hb1 Hb2 (c' & Ei & Hh' & Ha'). assert (2 ^ bits <= 2 ^ 31) as Hp by (apply Z.pow_le_mono_r; lia).
  unfold put_tail. rewrite Ei. cbn [mbind option_bind].
  pose proof (add_ok c' (mk_spec (live s) gs) a k v f Hh' Ha' Hf) as Hadd. cbn [live ghosts] in Hadd.
  destruct (ghost_update_ok (add_entry c' a k v f) (mk_spec (mk_item k v f :: live s) gs)) as (c2 & Eu & Hh2); cbn [live ghosts] in *.
  { apply Hadd; lia. }
  { cbn [length]. lia. }
  { lia. }
  rewrite Eu. cbn [mbind option_bind].
  set (gs' := if 2 ^ bits <? Z.of_nat (length gs) then removelast gs else gs) in *.
  assert (Z.of_nat (length gs') <= 2 ^ bits) as Hg'.
  { unfold gs'. destruct (Z.ltb_spec (2 ^ bits) (Z.of_nat (length gs))) as [Hlt|]; [|lia].
    destruct gs as [|x gs] using rev_ind; [cbn in *; lia|]. rewrite removelast_snoc, length_app in *. cbn [length] in *. lia. }
  rewrite (he_cap _ _ _ Hh2), (he_size _ _ _ Hh2), (he_gsize _ _ _ Hh2). cbn [live ghosts length].
  destruct (Z.ltb_spec (2 ^ bits) (Z.of_nat (S (length (live s))))); [lia|].
  destruct (Z.ltb_spec (2 ^ bits) (Z.of_nat (length gs'))); [lia|]. cbn [orb].
  exists c2. split; [done|]. split; cbn [live ghosts length]; (done || lia).
Qed.

(** Making room in front of a key that is not in the cache. *)
Lemma room_ok c s k :
  repr bits c s -> find_item k s.(live) = None ->
  exists replaced c1 pre,
    (if c.(c_size) =? c.(capacity) then a ← last c.(c_list); Some (Some a) else Some None) = Some replaced /\
    (let out := victim (2 ^ bits) s k in
     let rest := match out with Some i => drop_item i.(it_key) s.(live) | None => s.(live) end in
     let gh := match out with Some i => mk_history i.(it_key) i.(it_freq) :: s.(ghosts) | None => s.(ghosts) end in
     match replaced with Some a => evict c a | None => Some (c, 0) end =
       Some (c1, match out with Some i => i.(it_value) | None => 0 end) /\
     held c1 (mk_spec rest gh) /\ c1.(ghost_list) = pre ++ c.(ghost_list) /\
     find_item k rest = None /\ Z.of_nat (length rest) + 1 <= 2 ^ bits /\
     (exists hpre, gh = hpre ++ s.(ghosts) /\ length hpre = length pre /\ (length hpre <= 1)%nat /\
        (forall l, drop_history k (hpre ++ l) = hpre ++ drop_history k l)) /\
     exists c2, match replaced with Some a => restore c1 a | None => Some c1 end = Some c2 /\
       repr bits c2 (mk_spec (match out with Some i => i :: rest | None => rest end) s.(ghosts))).
Proof using Hbits.
  intros [Hh Hb1 Hb2] Hk. unfold victim. rewrite Hk, (he_size _ _ _ Hh), (he_cap _ _ _ Hh).
  destruct (Z.eqb_spec (Z.of_nat (length (live s))) (2 ^ bits)) as [Efull|].
  2: { exists None, c, []. split; [done|]. cbv zeta. split_and!; try done; [by destruct s | lia | | exists c; split; [done | by destruct s]].
       exists []. split_and!; try done; [cbn; lia]. }
  destruct (Forall2_last _ _ _ (he_live _ _ _ Hh)) as [[_ E]|(a & i & l1 & s1 & E1 & E2 & Hi & El & Es & H1)].
  { apply last_None in E. rewrite E in *. cbn [length] in *. lia. }
  rewrite E1, E2. cbn [mbind option_bind].
  destruct (out_ok c s a l1 [] s1 i []) as (c1 & Ee & Hh1 & Eg & Ed & c2 & Er & Hh2); try done.
  rewrite app_nil_r in *. assert (length (live s) = S (length s1)) as Hlen by (rewrite Es, length_app; cbn; lia).
  assert (it_key i <> k /\ find_item k s1 = None) as [Hne Hs1].
  { unfold find_item in *. rewrite Es, find_app in Hk. destruct (List.find _ s1); [done|]. cbn in Hk.
    by destruct (Z.eqb_spec (it_key i) k). }
  exists (Some a), c1, [a]. split; [done|]. cbv zeta. rewrite Ed. split_and!; try done.
  - lia.
  - exists [mk_history (it_key i) (it_freq i)]. split_and!; try done. intros l. cbn.
    by destruct (Z.eqb_spec (it_key i) k).
  - exists c2. split; [done|]. split; cbn [live ghosts length]; (done || lia).
Qed.

Context (calloc : entries -> Z) (Hcalloc : forall h, h !! calloc h = None).

(** What follows the choice of the entries that are replaced and revived. *)
Definition put_rest (mem : bool) (c : cache_t) (replaced revived : option Z) (k v : Z) : option (cache_t * Z) :=
  '(c, r) ← match replaced with Some a => evict c a | None => Some (c, 0) end;
  if negb mem then
    c ← match replaced with Some a => restore c a | None => Some c end; Some (c, 0)
  else put_tail c revived (calloc c.(c_entries)) k v r.

(** The history that is revived. *)
Inductive reviving (c : cache_t) (s : spec) (k : Z) : option Z -> option history -> Prop :=
  | revive_none : reviving c s k None None
  | revive_some a g1 g2 h1 h h2 :
      c.(ghost_list) = g1 ++ a :: g2 -> s.(ghosts) = h1 ++ h :: h2 -> length g1 = length h1 ->
      drop_history k s.(ghosts) = h1 ++ h2 -> reviving c s k (Some a) (Some h).

Lemma revive_inherit c s k revived past c1 rest pre hpre :
  reviving c s k revived past -> held c1 (mk_spec rest (hpre ++ s.(ghosts))) ->
  c1.(ghost_list) = pre ++ c.(ghost_list) -> length hpre = length pre -> (length hpre <= 1)%nat ->
  (forall l, drop_history k (hpre ++ l) = hpre ++ drop_history k l) ->
  Z.of_nat (length rest) + 1 <= 2 ^ bits -> Z.of_nat (length s.(ghosts)) <= 2 ^ bits ->
  let gs := if past is Some _ then drop_history k (hpre ++ s.(ghosts)) else hpre ++ s.(ghosts) in
  Z.of_nat (length gs) <= 2 ^ bits + 1 /\
  exists c', inherit c1 revived = Some (c', match past with Some h => u32 (h.(hi_freq) + 1) | None => 1 end) /\
    held c' (mk_spec rest gs) /\ forall b, entry c1 b = None -> entry c' b = None.
Proof using Hbits.
  intros Hrev Hh1 Eg1 Hlp Hl1 Hdrop Hb1 Hb2. assert (2 ^ bits <= 2 ^ 31) as Hp by (apply Z.pow_le_mono_r; lia).
  destruct Hrev as [|a g1 g2 h1 h h2 Eg Es Hlen Hd]; cbv zeta.
  { rewrite length_app. split; [lia|]. by exists c1. }
  rewrite Hdrop, Hd. split; [rewrite Es, length_app in Hb2; cbn [length] in Hb2; rewrite !length_app; lia|].
  destruct (inherit_ok c1 (mk_spec rest (hpre ++ ghosts s)) a (pre ++ g1) g2 (hpre ++ h1) h h2)
    as (c3 & Ei & Hh3 & Hno); try done.
  - by rewrite Eg1, Eg, <- app_assoc.
  - cbn [ghosts]. by rewrite Es, <- app_assoc.
  - rewrite !length_app. lia.
  - cbn [live]. lia.
  - cbn [ghosts]. rewrite length_app. lia.
  - exists c3. by rewrite <- app_assoc in Hh3.
Qed.

Lemma miss_ok c s mem k v revived past :
  repr bits c s -> find_item k s.(live) = None -> find_history k s.(ghosts) = past -> reviving c s k revived past ->
  exists c' s' r, spec_put (2 ^ bits) mem s k v = Some (s', r) /\ repr bits c' s' /\
    (replaced ← (if c.(c_size) =? c.(capacity) then a ← last c.(c_list); Some (Some a) else Some None);
     put_rest mem c replaced revived k v) = Some (c', r).
Proof using Hbits Hcalloc.
  intros Hr Ef Ep Hrev. unfold spec_put. cbv zeta. rewrite Ef, Ep.
  destruct (room_ok c s k Hr Ef) as (replaced & c1 & pre & -> & Hroom). cbv zeta in Hroom. cbn [mbind option_bind].
  set (out := victim _ _ _) in *. set (rest := match out with Some i => drop_item _ _ | None => _ end) in *.
  set (gh := match out with Some i => _ :: _ | None => _ end) in *.
  destruct Hroom as (Ee & Hh1 & Eg1 & Hnk & Hlen & (hpre & Egh & Hlp & Hl1 & Hdrop) & c2 & Er & Hr2).
  unfold put_rest. rewrite Ee. cbn [mbind option_bind]. destruct mem; cbn [negb].
  2: { rewrite Er. cbn [mbind option_bind]. by eexists c2, _, _. }
  clearbody gh. subst gh.
  destruct (revive_inherit c s k revived past c1 rest pre hpre) as (Hg & c3 & Ei & Hh3 & Hno); try done.
  { apply (re_gsize _ _ _ Hr). }
  destruct (tail_ok c1 (mk_spec rest (hpre ++ ghosts s)) revived (calloc (c_entries c1)) k v
    (match out with Some i => it_value i | None => 0 end)
    (match past with Some h => u32 (hi_freq h + 1) | None => 1 end) _ Hh1 (Hcalloc _) Hnk Hlen Hg) as (c' & Et & Hr').
  { exists c3. split_and!; [exact Ei | done | apply Hno, Hcalloc]. }
  eexists c', _, _. split_and!; [done | exact Hr' | exact Et].
Qed.

Lemma hit_ok c s mem k v a e l1 l2 s1 s2 :
  repr bits c s -> find_item k s.(live) = Some (item_of e) -> entry c a = Some e -> e.(alive) = true -> e.(key) = k ->
  c.(c_list) = l1 ++ a :: l2 -> s.(live) = s1 ++ item_of e :: s2 ->
  Forall2 (is_live c) l1 s1 -> Forall2 (is_live c) l2 s2 ->
  find_item k (s1 ++ s2) = None -> drop_item k s.(live) = s1 ++ s2 -> e.(value) <> v ->
  exists c' s' r, spec_put (2 ^ bits) mem s k v = Some (s', r) /\ repr bits c' s' /\
    put_rest mem c (Some a) None k v = Some (c', r).
Proof using Hbits Hcalloc.
  intros [Hh Hb1 Hb2] Ef He Ha Ek El Es H1 H2 Hn Hd Hv. unfold spec_put, victim. cbv zeta. rewrite Ef.
  cbn [item_of it_value it_key it_freq]. rewrite Ek, (proj2 (Z.eqb_neq _ _) Hv), Hd.
  destruct (out_ok c s a l1 l2 s1 (item_of e) s2) as (c1 & Ee & Hh1 & _ & _ & c2 & Er & Hh2); try done.
  { by exists e. }
  assert (length (live s) = S (length (s1 ++ s2))) as Hlen by (rewrite Es, !length_app; cbn; lia).
  unfold put_rest. rewrite Ee. cbn [mbind option_bind]. destruct mem; cbn [negb].
  2: { rewrite Er. cbn [mbind option_bind]. eexists c2, _, _. split_and!; [done | | done].
       split; [done | cbn [live length]; lia | done]. }
  cbn [item_of it_key it_freq] in Hh1. rewrite Ek in Hh1.
  destruct (tail_ok c1 _ None (calloc (c_entries c1)) k v (value e) 1 (mk_history k (freq e) :: ghosts s) Hh1 (Hcalloc _) Hn)
    as (c' & Et & Hr'); [cbn [live]; lia | cbn [length]; lia | |].
  { exists c1. split_and!; [done | done | apply Hcalloc]. }
  eexists c', _, _. split_and!; [done | exact Hr' | exact Et].
Qed.

Lemma put_ok c s mem k v :
  repr bits c s ->
  match spec_put (2 ^ bits) mem s k v with
  | None => cache_put bits calloc mem c k v = None
  | Some (s', r) => exists c', cache_put bits calloc mem c k v = Some (c', r) /\ repr bits c' s'
  end.
Proof using Hbits Hcalloc.
  intros Hr. pose proof Hr as [Hh Hb1 Hb2].
  assert (cache_put bits calloc mem c k v = '(replaced, revived) ← put_search bits c k v;
    replaced ← match replaced with Some a => Some (Some a) | None =>
      if c.(c_size) =? c.(capacity) then a ← last c.(c_list); Some (Some a) else Some None end;
    put_rest mem c replaced revived k v) as ->.
  { unfold cache_put. rewrite (he_size _ _ _ Hh), (he_cap _ _ _ Hh).
    destruct (Z.ltb_spec (2 ^ bits) (Z.of_nat (length (live s)))); [lia | reflexivity]. }
  unfold put_search.
  destruct (chain_found c s k Hh) as [a e l1 l2 s1 s2 Ef -> He Ha Ek El Es H1 H2 Hn Hd
    | a e g1 g2 h1 h2 Ef Egh -> He Ha Eg Es H1 H2 Hd | Ef Egh ->].
  - rewrite Ha. cbn [negb]. destruct (Z.eqb_spec (value e) v) as [Hv|Hv]; cbn [negb mbind option_bind].
    { unfold spec_put. cbv zeta. rewrite Ef. cbn [item_of it_value]. by rewrite (proj2 (Z.eqb_eq _ _) Hv). }
    destruct (hit_ok c s mem k v a e l1 l2 s1 s2) as (c' & s' & r & -> & Hr' & E); eauto.
  - rewrite Ha. cbn [negb mbind option_bind].
    destruct (miss_ok c s mem k v (Some a) (Some (mk_history k (freq e))) Hr Ef Egh) as (c' & s' & r & -> & Hr' & E); eauto.
    eapply revive_some; [exact Eg | exact Es | by apply Forall2_length in H1 | exact Hd].
  - cbn [mbind option_bind].
    destruct (miss_ok c s mem k v None None Hr Ef Egh) as (c' & s' & r & -> & Hr' & E); eauto using reviving.
Qed.
End repr.

Lemma create_repr bits c :
  0 <= bits < 32 -> cache_create bits true true = Some c -> repr bits c (mk_spec [] []).
Proof.
  intros Hb. unfold cache_create. destruct (Z.leb_spec 32 bits); [lia|]. cbn [negb]. intros [= <-].
  assert (2 ^ bits > 0) by lia. unfold cache_size. rewrite Z.shiftl_1_l.
  split; cbn [live ghosts length]; [|lia..]. split; try done; [split|constructor..]; cbn [c_list ghost_list ht_list_head app].
  - constructor.
  - constructor.
  - by rewrite length_replicate.
  - apply Forall_replicate. constructor.
  - intros k. pose proof (hash_range bits Hb k). unfold bucket. cbn [ht_list_head].
    rewrite lookup_total_replicate_2 by lia. done.
  - intros k. cbn. lia.
Qed.


