(* ===== verification/Devices.v ===== *)
(** * The devices of system emulation (src/rv32emu/src/devices)

    The interrupt controller (plic.c), the serial port (uart.c) and the block
    device (virtio-blk.c).  Each is a record with one definition per
    operation.  What the serial port does with its file descriptors is the
    record [console] of host operations; the block device reads and writes
    the guest's memory and its disk, both byte maps. *)

From Stdlib Require Import ZArith Lia Bool.
From stdpp Require Import base list numbers gmap.
From S2P Require Import Prelude Decode Riscv Exec Memory.

Definition MASK (n : Z) : Z := u32 (Z.lnot (u32 (0xffffffff <<. n))).
Definition ilog2 (x : Z) : Z := u8 (31 - rv_clz x).
(** [x & ~m] on 32-bit words. *)
Definition clear32 (x m : Z) : Z := x &. u32 (Z.lnot m).

(** ** The interrupt controller *)
Module Plic.
Definition PLIC_INTR_PENDING : Z := 0x1000.
Definition PLIC_INTR_ENABLE : Z := 0x2000.
Definition PLIC_INTR_PRIORITY_THRESHOLD : Z := 0x200000.
Definition PLIC_INTR_CLAIM_OR_COMPLETE : Z := 0x200004.
Definition SIP_SEIP : Z := 1 <<. 9.

Record plic_t : Type := mk_plic { masked : Z; ip : Z; ie : Z; active : Z }.
Definition set_active (p : plic_t) (v : Z) : plic_t := mk_plic p.(masked) p.(ip) p.(ie) v.

Definition plic_new : plic_t := mk_plic 0 0 0 0.

Definition plic_update_interrupts (p : plic_t) (rv : riscv) : plic_t * riscv :=
  let ip := p.(ip) |. clear32 p.(active) p.(masked) in
  let masked := p.(masked) |. p.(active) in
  (mk_plic masked ip p.(ie) p.(active),
   set_csr_sip rv (if nz (ip &. p.(ie)) then rv.(csr_sip) |. SIP_SEIP else clear32 rv.(csr_sip) SIP_SEIP)).

Definition plic_read (p : plic_t) (addr : Z) : plic_t * Z :=
  if addr =? PLIC_INTR_PENDING then (p, p.(ip))
  else if addr =? PLIC_INTR_ENABLE then (p, p.(ie))
  else if addr =? PLIC_INTR_PRIORITY_THRESHOLD then (p, 0)
  else if addr =? PLIC_INTR_CLAIM_OR_COMPLETE then
    let intr_candidate := p.(ip) &. p.(ie) in
    if nz intr_candidate then
      let v := ilog2 intr_candidate in
      (mk_plic p.(masked) (clear32 p.(ip) (shl32 1 v)) p.(ie) p.(active), v)
    else (p, 0)
  else (p, 0).

Definition plic_write (p : plic_t) (addr value : Z) : plic_t :=
  if addr =? PLIC_INTR_ENABLE then mk_plic p.(masked) p.(ip) (clear32 value 1) p.(active)
  else if addr =? PLIC_INTR_CLAIM_OR_COMPLETE then
    if nz (p.(ie) &. shl32 1 value)
    then mk_plic (clear32 p.(masked) (shl32 1 value)) p.(ip) p.(ie) p.(active)
    else p
  else p.
End Plic.

(** ** The serial port *)
Module Uart.
Definition U8250_INTR_THRE : Z := 1.
Definition U8250_THR_RBR_DLL : Z := 0.
Definition U8250_IER_DLH : Z := 1.
Definition U8250_IIR_FCR : Z := 2.
Definition U8250_LCR : Z := 3.
Definition U8250_MCR : Z := 4.
Definition U8250_LSR : Z := 5.
Definition U8250_MSR : Z := 6.

Record u8250_state_t : Type := mk_uart {
  dll : Z; dlh : Z; lcr : Z; ier : Z; current_intr : Z; pending_intrs : Z; mcr : Z; in_ready : bool
}.
Definition set_dll u v := mk_uart v u.(dlh) u.(lcr) u.(ier) u.(current_intr) u.(pending_intrs) u.(mcr) u.(in_ready).
Definition set_dlh u v := mk_uart u.(dll) v u.(lcr) u.(ier) u.(current_intr) u.(pending_intrs) u.(mcr) u.(in_ready).
Definition set_lcr u v := mk_uart u.(dll) u.(dlh) v u.(ier) u.(current_intr) u.(pending_intrs) u.(mcr) u.(in_ready).
Definition set_ier u v := mk_uart u.(dll) u.(dlh) u.(lcr) v u.(current_intr) u.(pending_intrs) u.(mcr) u.(in_ready).
Definition set_current u v := mk_uart u.(dll) u.(dlh) u.(lcr) u.(ier) v u.(pending_intrs) u.(mcr) u.(in_ready).
Definition set_pending u v := mk_uart u.(dll) u.(dlh) u.(lcr) u.(ier) u.(current_intr) v u.(mcr) u.(in_ready).
Definition set_mcr u v := mk_uart u.(dll) u.(dlh) u.(lcr) u.(ier) u.(current_intr) u.(pending_intrs) v u.(in_ready).
Definition set_ready u v := mk_uart u.(dll) u.(dlh) u.(lcr) u.(ier) u.(current_intr) u.(pending_intrs) u.(mcr) v.

Definition u8250_new : u8250_state_t := mk_uart 0 0 0 0 0 0 0 false.

Definition u8250_update_interrupts (u : u8250_state_t) : u8250_state_t :=
  let pending := if u.(in_ready) then u.(pending_intrs) |. 1 else u.(pending_intrs) &. u8 (Z.lnot 1) in
  let pending := pending &. u.(ier) in
  let u := set_pending u pending in
  if nz pending then set_current u (ilog2 pending) else u.

(** The host: [poll] and [read] of the input, [write] of the output, and the
    [getchar] after a control-A.  [read] gives no byte at the end of the
    input or on an error. *)
Record console (H : Type) : Type := mk_console {
  poll_in : H -> bool; read_in : H -> H * option Z; write_out : H -> Z -> H; getchar : H -> H * Z
}.
Arguments poll_in {H}. Arguments read_in {H}. Arguments write_out {H}. Arguments getchar {H}.

Section uart.
Context {H : Type} (con : console H).

Definition u8250_check_ready (u : u8250_state_t) (h : H) : u8250_state_t :=
  if u.(in_ready) then u else if con.(poll_in) h then set_ready u true else u.
Definition u8250_handle_out (h : H) (value : Z) : H := con.(write_out) h value.

(** [None] is the end of the emulator. *)
Definition u8250_handle_in (u : u8250_state_t) (h : H) : option (u8250_state_t * H * Z) :=
  let u := u8250_check_ready u h in
  if negb u.(in_ready) then Some (u, h, 0) else
  let '(h, c) := con.(read_in) h in
  let value := default 0 c in
  let u := set_ready u false in
  if value =? 1 then
    let u := u8250_check_ready u h in
    let '(h, c) := con.(getchar) h in
    if c =? 120 then None else Some (u, h, value)
  else Some (u, h, value).

Definition DLAB (u : u8250_state_t) : bool := nz (u.(lcr) &. (1 <<. 7)).

Definition u8250_read (u : u8250_state_t) (h : H) (addr : Z) : option (u8250_state_t * H * Z) :=
  if addr =? U8250_THR_RBR_DLL then if DLAB u then Some (u, h, u.(dll)) else u8250_handle_in u h
  else if addr =? U8250_IER_DLH then Some (u, h, if DLAB u then u.(dlh) else u.(ier))
  else if addr =? U8250_IIR_FCR then
    let ret := u8 ((u.(current_intr) <<. 1) |. (if nz u.(pending_intrs) then 0 else 1)) in
    let u := if u.(current_intr) =? U8250_INTR_THRE
             then set_pending u (u.(pending_intrs) &. u8 (Z.lnot (1 <<. u.(current_intr)))) else u in
    Some (u, h, ret)
  else if addr =? U8250_LCR then Some (u, h, u.(lcr))
  else if addr =? U8250_MCR then Some (u, h, u.(mcr))
  else if addr =? U8250_LSR then Some (u, h, 0x60 |. (if u.(in_ready) then 1 else 0))
  else if addr =? U8250_MSR then Some (u, h, 0xb0)
  else Some (u, h, 0).

Definition u8250_write (u : u8250_state_t) (h : H) (addr value : Z) : u8250_state_t * H :=
  if addr =? U8250_THR_RBR_DLL then
    if DLAB u then (set_dll u (u8 value), h)
    else (set_pending u (u.(pending_intrs) |. (1 <<. U8250_INTR_THRE)), u8250_handle_out h (u8 value))
  else if addr =? U8250_IER_DLH then
    if DLAB u then (set_dlh u (u8 value), h) else (set_ier u (u8 value), h)
  else if addr =? U8250_LCR then (set_lcr u (u8 value), h)
  else if addr =? U8250_MCR then (set_mcr u (u8 value), h)
  else (u, h).
End uart.
End Uart.

(** ** The block device

    [ram], [disk] and [priv] are host addresses in the heap: the guest's
    memory, the disk image and the configuration space, whose first eight
    bytes are the capacity in sectors. *)
Module Virtio.
Definition DISK_BLK_SIZE : Z := 512.
Definition VBLK_FEATURES_0 : Z := 0.
Definition VBLK_FEATURES_1 : Z := 1.
Definition VBLK_QUEUE_NUM_MAX : Z := 1024.
Definition VIRTIO_VENDOR_ID : Z := 0x12345678.
Definition VIRTIO_MAGIC_NUMBER : Z := 0x74726976.
Definition VIRTIO_VERSION : Z := 2.
Definition VIRTIO_CONFIG_GENERATE : Z := 0.
Definition VIRTIO_STATUS_DRIVER_OK : Z := 4.
Definition VIRTIO_STATUS_DEVICE_NEEDS_RESET : Z := 64.
Definition VIRTIO_INT_USED_RING : Z := 1.
Definition VIRTIO_INT_CONF_CHANGE : Z := 2.
Definition VIRTIO_DESC_F_NEXT : Z := 1.
Definition VIRTIO_BLK_DEV_ID : Z := 2.
Definition VIRTIO_BLK_T_IN : Z := 0.
Definition VIRTIO_BLK_T_OUT : Z := 1.
Definition VIRTIO_BLK_S_OK : Z := 0.
Definition VIRTIO_BLK_S_IOERR : Z := 1.
Definition VIRTIO_BLK_S_UNSUPP : Z := 2.
Definition VIRTIO_BLK_F_RO : Z := 1 <<. 5.
(** [MEM_SIZE] of system emulation. *)
Definition MEM_SIZE : Z := 512 * 1024 * 1024.

(** The registers, by word index. *)
Inductive virtio_reg : Type :=
  | MagicValue | Version | DeviceID | VendorID | DeviceFeatures | DeviceFeaturesSel
  | DriverFeatures | DriverFeaturesSel | QueueSel | QueueNumMax | QueueNum | QueueReady
  | QueueNotify | InterruptStatus | InterruptACK | Status | QueueDescLow | QueueDescHigh
  | QueueDriverLow | QueueDriverHigh | QueueDeviceLow | QueueDeviceHigh | ConfigGeneration
  | Config (index : Z).
Definition virtio_reg_of (w : Z) : virtio_reg :=
  match w with
  | 0x00 => MagicValue | 0x01 => Version | 0x02 => DeviceID | 0x03 => VendorID
  | 0x04 => DeviceFeatures | 0x05 => DeviceFeaturesSel | 0x08 => DriverFeatures
  | 0x09 => DriverFeaturesSel | 0x0c => QueueSel | 0x0d => QueueNumMax | 0x0e => QueueNum
  | 0x11 => QueueReady | 0x14 => QueueNotify | 0x18 => InterruptStatus | 0x19 => InterruptACK
  | 0x1c => Status | 0x20 => QueueDescLow | 0x21 => QueueDescHigh | 0x24 => QueueDriverLow
  | 0x25 => QueueDriverHigh | 0x28 => QueueDeviceLow | 0x29 => QueueDeviceHigh
  | 0x3f => ConfigGeneration
  | _ => Config (u32 (w - 0x40))
  end.

Record virtio_blk_queue_t : Type := mk_queue {
  queue_num : Z; queue_desc : Z; queue_avail : Z; queue_used : Z; last_avail : Z; ready : bool
}.
Definition queue0 : virtio_blk_queue_t := mk_queue 0 0 0 0 0 false.
#[export] Instance queue_inhabited : Inhabited virtio_blk_queue_t := populate queue0.

Record virtio_blk_state_t : Type := mk_vblk {
  device_features : Z; device_features_sel : Z; driver_features : Z; driver_features_sel : Z;
  queue_sel : Z; queues : list virtio_blk_queue_t; status : Z; interrupt_status : Z;
  ram : Z; disk : Z; priv : Z
}.
Definition vblk_new (ram disk priv : Z) : virtio_blk_state_t :=
  mk_vblk 0 0 0 0 0 [queue0; queue0] 0 0 ram disk priv.

Definition set_device_features_sel v x := mk_vblk v.(device_features) x v.(driver_features) v.(driver_features_sel) v.(queue_sel) v.(queues) v.(status) v.(interrupt_status) v.(ram) v.(disk) v.(priv).
Definition set_driver_features v x := mk_vblk v.(device_features) v.(device_features_sel) x v.(driver_features_sel) v.(queue_sel) v.(queues) v.(status) v.(interrupt_status) v.(ram) v.(disk) v.(priv).
Definition set_driver_features_sel v x := mk_vblk v.(device_features) v.(device_features_sel) v.(driver_features) x v.(queue_sel) v.(queues) v.(status) v.(interrupt_status) v.(ram) v.(disk) v.(priv).
Definition set_queue_sel v x := mk_vblk v.(device_features) v.(device_features_sel) v.(driver_features) v.(driver_features_sel) x v.(queues) v.(status) v.(interrupt_status) v.(ram) v.(disk) v.(priv).
Definition set_queue v i q := mk_vblk v.(device_features) v.(device_features_sel) v.(driver_features) v.(driver_features_sel) v.(queue_sel) (<[Z.to_nat i := q]> v.(queues)) v.(status) v.(interrupt_status) v.(ram) v.(disk) v.(priv).
Definition set_status v x := mk_vblk v.(device_features) v.(device_features_sel) v.(driver_features) v.(driver_features_sel) v.(queue_sel) v.(queues) x v.(interrupt_status) v.(ram) v.(disk) v.(priv).
Definition set_interrupt_status v x := mk_vblk v.(device_features) v.(device_features_sel) v.(driver_features) v.(driver_features_sel) v.(queue_sel) v.(queues) v.(status) x v.(ram) v.(disk) v.(priv).

Definition get_queue (v : virtio_blk_state_t) (i : Z) : virtio_blk_queue_t := v.(queues) !!! Z.to_nat i.
Definition VBLK_QUEUE (v : virtio_blk_state_t) : virtio_blk_queue_t := get_queue v v.(queue_sel).

Definition virtio_blk_set_fail (v : virtio_blk_state_t) : virtio_blk_state_t :=
  let v := set_status v (v.(status) |. VIRTIO_STATUS_DEVICE_NEEDS_RESET) in
  if nz (v.(status) &. VIRTIO_STATUS_DRIVER_OK)
  then set_interrupt_status v (v.(interrupt_status) |. VIRTIO_INT_CONF_CHANGE) else v.

Definition vblk_preprocess (v : virtio_blk_state_t) (addr : Z) : virtio_blk_state_t * Z :=
  if (MEM_SIZE <=? addr) || nz (addr &. 3) then (virtio_blk_set_fail v, 0) else (v, addr >>. 2).

(** The first field of the configuration space. *)
Definition capacity (v : virtio_blk_state_t) (h : heap) : Z := load 8 h v.(priv).

(** A reset keeps the capacity in a 32-bit variable. *)
Definition virtio_blk_update_status (v : virtio_blk_state_t) (h : heap) (st : Z) : virtio_blk_state_t * heap :=
  let v := set_status v (v.(status) |. st) in
  if nz st then (v, h)
  else (mk_vblk v.(device_features) 0 0 0 0 [queue0; queue0] 0 0 v.(ram) v.(disk) v.(priv),
        store 8 h v.(priv) (u32 (capacity v h))).

(** *** Memory *)

Definition ram_word (v : virtio_blk_state_t) (h : heap) (i : Z) : Z := load 4 h (v.(ram) + 4 * u32 i).
Definition set_ram_word (v : virtio_blk_state_t) (h : heap) (i x : Z) : heap := store 4 h (v.(ram) + 4 * u32 i) x.

(** [memcpy], on areas that do not overlap. *)
Definition memcpy (h : heap) (dest src len : Z) : heap :=
  fold_left (fun h' i => <[u64 (dest + i) := heap_get h (u64 (src + i))]> h') (seqZ 0 len) h.

Definition virtio_blk_write_handler (v : virtio_blk_state_t) (h : heap) (sector desc_addr len : Z) : heap :=
  memcpy h (u64 (v.(disk) + u64 (sector * DISK_BLK_SIZE))) (u64 (v.(ram) + desc_addr)) len.
Definition virtio_blk_read_handler (v : virtio_blk_state_t) (h : heap) (sector desc_addr len : Z) : heap :=
  memcpy h (u64 (v.(ram) + desc_addr)) (u64 (v.(disk) + u64 (sector * DISK_BLK_SIZE))) len.

(** *** Requests *)

Record virtq_desc : Type := mk_virtq_desc { d_addr : Z; d_len : Z; d_flags : Z; d_next : Z }.
Definition read_desc (v : virtio_blk_state_t) (h : heap) (q : virtio_blk_queue_t) (desc_idx : Z) : virtq_desc :=
  let p := v.(ram) + 4 * u32 (q.(queue_desc) + desc_idx * 4) in
  mk_virtq_desc (load 8 h p) (load 4 h (p + 8)) (load 2 h (p + 12)) (load 2 h (p + 14)).


(** The result is the new state and memory, and the length that was
    transferred or [None] for the error [-1]. *)
Definition virtio_blk_desc_handler (v : virtio_blk_state_t) (h : heap) (q : virtio_blk_queue_t) (desc_idx : Z)
    : virtio_blk_state_t * heap * option Z :=
  let d0 := read_desc v h q desc_idx in
  let d1 := read_desc v h q d0.(d_next) in
  let d2 := read_desc v h q d1.(d_next) in
  if (d0.(d_flags) &. VIRTIO_DESC_F_NEXT =? 0) || (d1.(d_flags) &. VIRTIO_DESC_F_NEXT =? 0)
     || nz (d2.(d_flags) &. VIRTIO_DESC_F_NEXT) then (virtio_blk_set_fail v, h, None)
  else
    let header := u64 (v.(ram) + d0.(d_addr)) in
    let type := load 4 h header in
    let sector := load 8 h (header + 8) in
    let status := u64 (v.(ram) + d2.(d_addr)) in
    let answer h x := <[status := x]> h in
    if u64 (capacity v h - 1) <? sector then (v, answer h VIRTIO_BLK_S_IOERR, None)
    else if type =? VIRTIO_BLK_T_IN then
      let h := virtio_blk_read_handler v h sector d1.(d_addr) d1.(d_len) in
      (v, answer h VIRTIO_BLK_S_OK, Some d1.(d_len))
    else if type =? VIRTIO_BLK_T_OUT then
      if nz (v.(device_features) &. VIRTIO_BLK_F_RO) then (v, answer h VIRTIO_BLK_S_IOERR, None)
      else
        let h := virtio_blk_write_handler v h sector d1.(d_addr) d1.(d_len) in
        (v, answer h VIRTIO_BLK_S_OK, Some d1.(d_len))
    else (v, answer h VIRTIO_BLK_S_UNSUPP, None).

(** The loop over the new requests: [inl] when it ends, [inr] for the return
    after a failed request; [None] is a division by zero.  A 16-bit counter
    reaches any value in [2^16] steps. *)
Definition bump_avail (q : virtio_blk_queue_t) : virtio_blk_queue_t :=
  mk_queue q.(queue_num) q.(queue_desc) q.(queue_avail) q.(queue_used) (u16 (q.(last_avail) + 1)) q.(ready).
Fixpoint notify_loop (fuel : nat) (v : virtio_blk_state_t) (h : heap) (index new_avail new_used : Z)
    : option (virtio_blk_state_t * heap * Z + virtio_blk_state_t * heap) :=
  let q := get_queue v index in
  if q.(last_avail) =? new_avail then Some (inl (v, h, new_used)) else
  match fuel with
  | O => None
  | S fuel =>
      if q.(queue_num) =? 0 then None else
      let queue_idx := u16 (q.(last_avail) mod q.(queue_num)) in
      let buffer_idx := u16 (ram_word v h (q.(queue_avail) + 1 + queue_idx / 2) >>. (16 * (queue_idx mod 2))) in
      match virtio_blk_desc_handler v h q buffer_idx with
      | (v, h, None) => Some (inr (virtio_blk_set_fail v, h))
      | (v, h, Some len) =>
          let vq_used_addr := u32 (q.(queue_used) + 1 + (new_used mod q.(queue_num)) * 2) in
          let h := set_ram_word v h vq_used_addr buffer_idx in
          let h := set_ram_word v h (vq_used_addr + 1) len in
          notify_loop fuel (set_queue v index (bump_avail q)) h index new_avail (u16 (new_used + 1))
      end
  end.

Definition virtio_queue_notify_handler (v : virtio_blk_state_t) (h : heap) (index : Z)
    : option (virtio_blk_state_t * heap) :=
  let q := get_queue v index in
  if nz (v.(status) &. VIRTIO_STATUS_DEVICE_NEEDS_RESET) then Some (v, h) else
  if negb (nz (v.(status) &. VIRTIO_STATUS_DRIVER_OK) && q.(ready)) then Some (virtio_blk_set_fail v, h) else
  let new_avail := u16 (ram_word v h q.(queue_avail) >>. 16) in
  if u16 q.(queue_num) <? new_avail - q.(last_avail) then Some (virtio_blk_set_fail v, h) else
  if q.(last_avail) =? new_avail then Some (v, h) else
  let new_used := u16 (ram_word v h q.(queue_used) >>. 16) in
  match notify_loop (Z.to_nat (2 ^ 16)) v h index new_avail new_used with
  | None => None
  | Some (inr r) => Some r
  | Some (inl (v, h, new_used)) =>
      let h := set_ram_word v h q.(queue_used) (ram_word v h q.(queue_used) &. MASK 16) in
      let h := set_ram_word v h q.(queue_used) (ram_word v h q.(queue_used) |. u32 (new_used <<. 16)) in
      if nz (ram_word v h q.(queue_avail) &. 1) then Some (v, h)
      else Some (set_interrupt_status v (v.(interrupt_status) |. VIRTIO_INT_USED_RING), h)
  end.

(** *** Registers *)

Definition virtio_blk_read (v : virtio_blk_state_t) (h : heap) (addr : Z) : Z :=
  match virtio_reg_of (addr >>. 2) with
  | MagicValue => VIRTIO_MAGIC_NUMBER
  | Version => VIRTIO_VERSION
  | DeviceID => VIRTIO_BLK_DEV_ID
  | VendorID => VIRTIO_VENDOR_ID
  | DeviceFeatures =>
      if v.(device_features_sel) =? 0 then VBLK_FEATURES_0 |. v.(device_features)
      else if v.(device_features_sel) =? 1 then VBLK_FEATURES_1 else 0
  | QueueNumMax => VBLK_QUEUE_NUM_MAX
  | QueueReady => if (VBLK_QUEUE v).(ready) then 1 else 0
  | InterruptStatus => v.(interrupt_status)
  | Status => v.(status)
  | ConfigGeneration => VIRTIO_CONFIG_GENERATE
  | _ => load 4 h (v.(priv) + 4 * u32 ((addr >>. 2) - 0x40))
  end.

Definition set_num q x := mk_queue x q.(queue_desc) q.(queue_avail) q.(queue_used) q.(last_avail) q.(ready).
Definition set_desc q x := mk_queue q.(queue_num) x q.(queue_avail) q.(queue_used) q.(last_avail) q.(ready).
Definition set_avail q x := mk_queue q.(queue_num) q.(queue_desc) x q.(queue_used) q.(last_avail) q.(ready).
Definition set_used q x := mk_queue q.(queue_num) q.(queue_desc) q.(queue_avail) x q.(last_avail) q.(ready).

Definition fail_if (b : bool) (v : virtio_blk_state_t) : virtio_blk_state_t :=
  if b then virtio_blk_set_fail v else v.

Definition virtio_blk_write (v : virtio_blk_state_t) (h : heap) (addr value : Z)
    : option (virtio_blk_state_t * heap) :=
  let q := VBLK_QUEUE v in
  let place set :=
    let '(v, x) := vblk_preprocess v value in Some (set_queue v v.(queue_sel) (set q x), h) in
  match virtio_reg_of (addr >>. 2) with
  | DeviceFeaturesSel => Some (set_device_features_sel v value, h)
  | DriverFeatures => Some (if v.(driver_features_sel) =? 0 then set_driver_features v value else v, h)
  | DriverFeaturesSel => Some (set_driver_features_sel v value, h)
  | QueueSel => Some (if value <? 2 then set_queue_sel v value else virtio_blk_set_fail v, h)
  | QueueNum =>
      Some (if (0 <? value) && (value <=? VBLK_QUEUE_NUM_MAX)
            then set_queue v v.(queue_sel) (set_num q value) else virtio_blk_set_fail v, h)
  | QueueReady =>
      let r := nz (value &. 1) in
      Some (set_queue v v.(queue_sel)
        (mk_queue q.(queue_num) q.(queue_desc) q.(queue_avail) q.(queue_used)
           (if r then u16 (ram_word v h q.(queue_avail) >>. 16) else q.(last_avail)) r), h)
  | QueueDescLow => place set_desc
  | QueueDriverLow => place set_avail
  | QueueDeviceLow => place set_used
  | QueueDescHigh | QueueDriverHigh | QueueDeviceHigh => Some (fail_if (nz value) v, h)
  | QueueNotify => if value <? 2 then virtio_queue_notify_handler v h value else Some (virtio_blk_set_fail v, h)
  | InterruptACK => Some (set_interrupt_status v (clear32 v.(interrupt_status) value), h)
  | Status => Some (virtio_blk_update_status v h value)
  | _ => Some (v, store 4 h (v.(priv) + 4 * u32 ((addr >>. 2) - 0x40)) value)
  end.
End Virtio.
