(* ===== verification/PlicSpec.v ===== *)
(** * The interrupt controller delivers each interrupt once

    A driver's run over plic.c: device lines change, the driver enables
    sources, claims and completes, and the controller is updated after every
    access, as system.c does.  [svc] is what the driver is serving: claimed
    and not completed. *)

From Stdlib Require Import ZArith Lia Bool.
From stdpp Require Import base list numbers gmap.
From S2P Require Import Prelude Decode Riscv Exec Memory Devices.
Import Plic.

Inductive plic_op : Type := Lines (a : Z) | Enable (m : Z) | Claim | Complete (n : Z).

(** One access with the update that follows it.  [None]: the driver
    completes a source that it has not claimed.  A completion of a disabled
    source is ignored. *)
Definition plic_act (p : plic_t) (svc : gset Z) (op : plic_op) : option (plic_t * gset Z) :=
  match op with
  | Lines a => Some (set_active p (u32 a), svc)
  | Enable m => Some (plic_write p PLIC_INTR_ENABLE (u32 m), svc)
  | Claim =>
      let '(p, c) := plic_read p PLIC_INTR_CLAIM_OR_COMPLETE in
      Some (p, if c =? 0 then svc else {[c]} ∪ svc)
  | Complete n =>
      if decide (n ∈ svc)
      then Some (plic_write p PLIC_INTR_CLAIM_OR_COMPLETE n, if Z.testbit p.(ie) n then svc ∖ {[n]} else svc)
      else None
  end.
Fixpoint plic_run (p : plic_t) (rv : riscv) (svc : gset Z) (ops : list plic_op) : option (plic_t * riscv * gset Z) :=
  match ops with
  | [] => Some (p, rv, svc)
  | op :: ops =>
      '(p, svc) ← plic_act p svc op;
      let '(p, rv) := plic_update_interrupts p rv in plic_run p rv svc ops
  end.

(** ** Bits *)

Definition bit (x i : Z) : Prop := Z.testbit x i = true.

Lemma bit_em x i : bit x i \/ ~ bit x i.
Proof. unfold bit. destruct (Z.testbit x i); auto. Qed.
Lemma bit_clear x m i : 0 <= i < 32 -> bit (clear32 x m) i <-> bit x i /\ ~ bit m i.
Proof.
  intros Hi. unfold bit, clear32, u32. rewrite Z.land_spec, Z.mod_pow2_bits_low, Z.lnot_spec by lia.
  by rewrite andb_true_iff, negb_true_iff, not_true_iff_false.
Qed.
Lemma bit_or x y i : bit (x |. y) i <-> bit x i \/ bit y i.
Proof. unfold bit. rewrite Z.lor_spec. apply orb_true_iff. Qed.
Lemma bit_and x y i : bit (x &. y) i <-> bit x i /\ bit y i.
Proof. unfold bit. rewrite Z.land_spec. apply andb_true_iff. Qed.
Lemma bit_one n i : 0 <= n < 32 -> 0 <= i < 32 -> bit (shl32 1 n) i <-> i = n.
Proof.
  intros Hn Hi. unfold bit, shl32, u32. rewrite (Z.mod_small n), Z.shiftl_1_l by lia.
  rewrite Z.mod_pow2_bits_low, Z.pow2_bits_eqb by lia. rewrite Z.eqb_eq. lia.
Qed.

Lemma word_clear x m : word x -> word (clear32 x m).
Proof. intros. apply word_land; [done|apply word_u32]. Qed.

(** The highest bit of a non-zero word. *)
Lemma ilog2_max x : word x -> x <> 0 -> 0 <= ilog2 x < 32 /\ bit x (ilog2 x) /\ forall j, bit x j -> j <= ilog2 x.
Proof.
  intros [Hx0 Hx] Hnz. assert (Hl : Z.log2 x < 32) by (apply Z.log2_lt_pow2; lia).
  pose proof (Z.log2_nonneg x).
  assert (E : ilog2 x = Z.log2 x) by (unfold ilog2, rv_clz, u8; rewrite Z.mod_small; lia).
  rewrite E. splits; [done..| |].
  - apply Z.bit_log2. lia.
  - intros j Hj. destruct (Z_lt_le_dec (Z.log2 x) j); [|done].
    unfold bit in Hj. by rewrite Z.bits_above_log2 in Hj by lia.
Qed.

Lemma nz_iff x : nz x = true <-> x <> 0.
Proof. unfold nz. rewrite negb_true_iff. apply Z.eqb_neq. Qed.

(** ** The invariant *)

(** The gate of a source is closed exactly while it is pending or served, and
    it is never both. *)
Record gates (p : plic_t) (svc : gset Z) : Prop := mk_gates {
  g_ip : word p.(ip); g_ie : word p.(ie); g_active : word p.(active);
  g_zero : ~ bit p.(ie) 0;
  g_svc : forall i, i ∈ svc -> 1 <= i < 32;
  g_masked : forall i, 0 <= i < 32 -> bit p.(masked) i <-> bit p.(ip) i \/ i ∈ svc;
  g_once : forall i, bit p.(ip) i -> i ∉ svc
}.

Definition candidate (p : plic_t) (i : Z) : Prop := bit p.(ip) i /\ bit p.(ie) i.

(** A claim takes the highest enabled pending source, and only it. *)
Lemma claim_ok p svc : gates p svc ->
  let '(p', c) := plic_read p PLIC_INTR_CLAIM_OR_COMPLETE in
  (c = 0 /\ p' = p /\ (forall i, ~ candidate p i))
  \/ (1 <= c < 32 /\ candidate p c /\ (forall j, candidate p j -> j <= c)
      /\ p' = mk_plic p.(masked) (clear32 p.(ip) (shl32 1 c)) p.(ie) p.(active)).
Proof.
  intros G. unfold plic_read. cbn [Z.eqb PLIC_INTR_PENDING PLIC_INTR_ENABLE].
  change (PLIC_INTR_CLAIM_OR_COMPLETE =? PLIC_INTR_PENDING) with false.
  change (PLIC_INTR_CLAIM_OR_COMPLETE =? PLIC_INTR_ENABLE) with false.
  change (PLIC_INTR_CLAIM_OR_COMPLETE =? PLIC_INTR_PRIORITY_THRESHOLD) with false.
  change (PLIC_INTR_CLAIM_OR_COMPLETE =? PLIC_INTR_CLAIM_OR_COMPLETE) with true. cbn iota.
  destruct (nz _) eqn:Hnz.
  - apply nz_iff in Hnz. right.
    destruct (ilog2_max (p.(ip) &. p.(ie))) as (Hr & Hb & Hm); [apply word_land; apply G|done|].
    apply bit_and in Hb as Hc.
    assert (ilog2 (p.(ip) &. p.(ie)) <> 0) by (intros E; rewrite E in Hc; by apply (g_zero _ _ G), Hc).
    splits; [lia|lia|by split; apply Hc| |done]. intros j Hj. apply Hm, bit_and, Hj.
  - left. splits; [done..|]. intros i Hi. apply bit_and in Hi.
    assert (p.(ip) &. p.(ie) = 0) as E by (destruct (Z.eq_dec (p.(ip) &. p.(ie)) 0) as [|Hn]; [done|apply nz_iff in Hn; congruence]).
    rewrite E in Hi. unfold bit in Hi. by rewrite Z.testbit_0_l in Hi.
Qed.

Lemma act_gates p svc op p' svc' : gates p svc -> plic_act p svc op = Some (p', svc') -> gates p' svc'.
Proof.
  intros G. destruct op as [a|m| |n]; cbn [plic_act].
  - intros [= <- <-]. destruct G. constructor; try done. apply word_u32.
  - intros [= <- <-]. unfold plic_write. change (PLIC_INTR_ENABLE =? PLIC_INTR_ENABLE) with true. cbn iota.
    destruct G. constructor; try done; cbn [ie]; [by apply word_clear, word_u32|].
    intros Hb. apply bit_clear in Hb as [_ Hb]; [|lia]. by apply Hb.
  - pose proof (claim_ok p svc G) as Hc. destruct (plic_read _ _) as [p1 c]. intros [= <- <-].
    destruct Hc as [(-> & -> & _)|(Hc & [Hi He] & _ & ->)]; [done|].
    rewrite (proj2 (Z.eqb_neq _ _)) by lia. destruct G as [? ? ? ? Hs Hm Ho].
    constructor; try done; cbn [ip ie active masked].
    + by apply word_clear.
    + intros i. rewrite elem_of_union, elem_of_singleton. intros [->|]; [lia|auto].
    + intros i Hr. rewrite bit_clear, bit_one by lia. rewrite elem_of_union, elem_of_singleton, Hm by done.
      destruct (Z.eq_dec i c) as [->|]; naive_solver.
    + intros i Hb. assert (Hr : 0 <= i < 32).
      { destruct (Z_lt_le_dec i 0); [unfold bit in Hb; by rewrite Z.testbit_neg_r in Hb|].
        destruct (Z_lt_le_dec i 32); [done|]. unfold bit in Hb.
        by rewrite (word_testbit _ _ (word_clear _ _ g_ip0)) in Hb by lia. }
      rewrite bit_clear, bit_one in Hb by lia. rewrite elem_of_union, elem_of_singleton. naive_solver.
  - destruct (decide (n ∈ svc)) as [Hn|]; [|done]. intros [= <- <-]. destruct G as [? ? ? ? Hs Hm Ho].
    pose proof (Hs n Hn) as Hr. unfold plic_write. change (PLIC_INTR_CLAIM_OR_COMPLETE =? PLIC_INTR_ENABLE) with false.
    change (PLIC_INTR_CLAIM_OR_COMPLETE =? PLIC_INTR_CLAIM_OR_COMPLETE) with true. cbn iota.
    assert (En : nz (p.(ie) &. shl32 1 n) = Z.testbit p.(ie) n) by (unfold shl32; rewrite (Z.mod_small n), <- (nz_land_bit _ n), u32_small; [done|rewrite Z.shiftl_1_l; split; [lia|apply Z.pow_lt_mono_r; lia]|lia..]).
    rewrite En. destruct (Z.testbit p.(ie) n); [|done]. constructor; try done; cbn [ip ie active masked].
    + intros i. rewrite elem_of_difference. naive_solver.
    + intros i Hi. rewrite bit_clear, bit_one, Hm, elem_of_difference, elem_of_singleton by lia.
      destruct (Z.eq_dec i n) as [->|]; naive_solver.
    + intros i Hb. rewrite elem_of_difference. naive_solver.
Qed.

Lemma update_gates p rv svc p' rv' : gates p svc -> plic_update_interrupts p rv = (p', rv') ->
  gates p' svc /\ p'.(ie) = p.(ie) /\ p'.(active) = p.(active)
  /\ (forall i, 0 <= i < 32 -> bit p.(active) i -> bit p'.(ip) i \/ i ∈ svc)
  /\ (bit rv'.(csr_sip) 9 <-> exists i, candidate p' i).
Proof.
  intros G. unfold plic_update_interrupts. set (ip' := p.(ip) |. clear32 _ _). intros [= <- <-]. cbn [ip ie active csr_sip].
  destruct G as [Wi We Wa Z0 Hs Hm Ho].
  assert (Hip : forall i, 0 <= i < 32 -> bit ip' i <-> bit p.(ip) i \/ (bit p.(active) i /\ i ∉ svc)).
  { intros i Hi. unfold ip'. rewrite bit_or, bit_clear, Hm by done. destruct (bit_em p.(ip) i); tauto. }
  assert (Wip : word ip') by (apply word_lor; [done|by apply word_clear]).
  splits; [|done..| |].
  - constructor; try done; cbn [ip ie active masked].
    + intros i Hi. rewrite bit_or, Hm, Hip by done. destruct (decide (i ∈ svc)); tauto.
    + intros i Hb. destruct (decide (0 <= i < 32)) as [Hi|Hi]; [|intros Hin; apply Hs in Hin; lia].
      apply Hip in Hb; [|done]. destruct Hb as [Hb|[_ Hb]]; [by apply Ho|done].
  - intros i Hi Ha. rewrite Hip by done. destruct (decide (i ∈ svc)); tauto.
  - assert (Hc : nz (ip' &. p.(ie)) = true <-> exists i, candidate (mk_plic (p.(masked) |. p.(active)) ip' p.(ie) p.(active)) i).
    { rewrite nz_iff. unfold candidate. cbn [ip ie]. split.
      - intros Hn. destruct (ilog2_max (ip' &. p.(ie))) as (_ & Hb & _); [by apply word_land|done|].
        apply bit_and in Hb. by eexists.
      - intros [i Hb] E. apply bit_and in Hb. rewrite E in Hb. unfold bit in Hb. by rewrite Z.testbit_0_l in Hb. }
    rewrite <- Hc. unfold set_csr_sip. cbn [csr_sip]. destruct (nz _).
    + unfold bit. rewrite Z.lor_spec, orb_true_r. done.
    + unfold clear32, bit. rewrite Z.land_spec. change (Z.testbit (u32 _) 9) with false. by rewrite andb_false_r.
Qed.

Lemma run_gates ops : forall p rv svc p' rv' svc', gates p svc ->
  (forall i, 0 <= i < 32 -> bit p.(active) i -> bit p.(ip) i \/ i ∈ svc) ->
  (bit rv.(csr_sip) 9 <-> exists i, candidate p i) ->
  plic_run p rv svc ops = Some (p', rv', svc') ->
  gates p' svc' /\ (forall i, 0 <= i < 32 -> bit p'.(active) i -> bit p'.(ip) i \/ i ∈ svc')
  /\ (bit rv'.(csr_sip) 9 <-> exists i, candidate p' i).
Proof.
  induction ops as [|op ops IH]; intros p rv svc p' rv' svc' G Ha Hb; cbn [plic_run].
  - by intros [= <- <- <-].
  - destruct (plic_act p svc op) as [[p1 svc1]|] eqn:Hact; [|done]. cbn [mbind option_bind].
    destruct (plic_update_interrupts p1 rv) as [p2 rv2] eqn:Hup.
    apply act_gates in Hact; [|done]. apply update_gates with (svc := svc1) in Hup as (G2 & _ & E & H1 & H2); [|done].
    apply IH; [done| |done]. by rewrite E.
Qed.

Lemma gates_new : gates plic_new ∅.
Proof.
  constructor; cbn [plic_new ip ie active masked]; unfold bit; try (split; [lia|reflexivity]).
  - done.
  - set_solver.
  - intros i _. rewrite Z.testbit_0_l. set_solver.
  - set_solver.
Qed.

(** C19. Interrupts are delivered once and none is lost.  After any sequence
    of line changes, enables, claims and completions by a driver that only
    completes what it has claimed: a claim answers the highest source that
    is pending and enabled, which the driver is not already serving, or 0
    when there is none; [SEIP] is set in [sip] exactly when a claim would
    answer a source; and when it is not set, every enabled source whose line
    is up is being served. *)
Theorem plic_delivers ops rv p' rv' svc : ~ bit rv.(csr_sip) 9 ->
  plic_run plic_new rv ∅ ops = Some (p', rv', svc) ->
  let c := (plic_read p' PLIC_INTR_CLAIM_OR_COMPLETE).2 in
  (bit rv'.(csr_sip) 9 <-> c <> 0)
  /\ (c <> 0 -> candidate p' c /\ c ∉ svc /\ forall j, candidate p' j -> j <= c)
  /\ (c = 0 -> forall i, 0 <= i < 32 -> bit p'.(active) i -> bit p'.(ie) i -> i ∈ svc).
Proof.
  intros Hb Hrun. apply run_gates in Hrun as (G & Ha & Hs); [|apply gates_new| |].
  - pose proof (claim_ok p' svc G) as Hc. destruct (plic_read _ _) as [p1 c]. cbn [snd].
    destruct Hc as [(-> & _ & Hno)|(Hr & Hc & Hm & _)].
    + splits; [naive_solver|done|]. intros _ i Hi Hl He.
      destruct (Ha i Hi Hl) as [Hp|]; [|done]. exfalso. by apply (Hno i).
    + splits; [|intros _; splits; [done| |done]|lia].
      * rewrite Hs. split; [lia|by exists c].
      * by apply (g_once _ _ G), Hc.
  - cbn. unfold bit. intros i _. by rewrite Z.testbit_0_l.
  - split; [done|]. intros [i [Hi _]]. unfold bit in Hi. cbn in Hi. by rewrite Z.testbit_0_l in Hi.
Qed.

(** Two lines go up; the higher one is claimed and served, the lower one
    stays pending, and the served one cannot be claimed again. *)
Lemma plic_delivers_witness :
  let ops := [Enable 0xff; Lines 0x0a; Claim] in
  exists p' rv', plic_run plic_new (rv_zero 0) ∅ ops = Some (p', rv', {[3]})
    /\ (plic_read p' PLIC_INTR_CLAIM_OR_COMPLETE).2 = 1 /\ bit rv'.(csr_sip) 9
    /\ 1 ∉ ({[3]} : gset Z).
Proof.
  eexists _, _. split; [vm_compute; reflexivity|]. split; [vm_compute; reflexivity|].
  destruct (plic_delivers [Enable 0xff; Lines 0x0a; Claim] (rv_zero 0)
    (mk_plic 0xa 0x2 0xfe 0xa) (set_csr_sip (rv_zero 0) 0x200) {[3]}) as (H1 & H2 & _).
  { by vm_compute. }
  { vm_compute. reflexivity. }
  assert (Hc : (plic_read (mk_plic 0xa 0x2 0xfe 0xa) PLIC_INTR_CLAIM_OR_COMPLETE).2 = 1) by reflexivity.
  rewrite Hc in *. split; [by apply H1|by apply H2].
Defined.
