(* ===== verification/VirtioSpec.v ===== *)
(** * The block device: what is written to a sector is read back

    The requests of a guest driver are chains of three descriptors in its
    memory: header, data and status byte.  [request] says that a chain is in
    memory; [desc_out] and [desc_in] what the device does with it. *)

From Stdlib Require Import ZArith Lia Bool.
From stdpp Require Import base list numbers gmap.
From S2P Require Import Prelude Decode Riscv Exec Memory MemorySpec Devices.
Import Virtio.

(** ** Copying *)

Lemma copy_get k h0 h d s x : 0 <= d -> d + Z.of_nat k <= 2 ^ 64 ->
  heap_get (fold_left (fun h' i => <[u64 (d + i) := heap_get h0 (u64 (s + i))]> h') (seqZ 0 (Z.of_nat k)) h) x
  = if decide (d <= x < d + Z.of_nat k) then heap_get h0 (u64 (s + (x - d))) else heap_get h x.
Proof.
  intros Hd. induction k as [|k IH]; intros Hle.
  - cbn [seqZ fold_left]. rewrite decide_False by lia. done.
  - rewrite seqZ_S, fold_left_app. cbn [fold_left]. rewrite Z.add_0_l, heap_get_insert.
    assert (E : u64 (d + Z.of_nat k) = d + Z.of_nat k) by (apply Z.mod_small; lia). rewrite E, IH by lia.
    repeat destruct (decide _); try lia; try done. subst x.
    replace (d + Z.of_nat k - d) with (Z.of_nat k) by lia. apply Z.mod_small, heap_get_range.
Qed.

Lemma memcpy_get h d s n x : 0 <= n -> 0 <= d -> d + n <= 2 ^ 64 -> 0 <= s -> s + n <= 2 ^ 64 ->
  heap_get (memcpy h d s n) x = if decide (d <= x < d + n) then heap_get h (s + (x - d)) else heap_get h x.
Proof.
  intros Hn Hd Hdn Hs Hsn. unfold memcpy. rewrite <- (Z2Nat.id n), copy_get by lia. rewrite Z2Nat.id by lia.
  destruct (decide _); [|done]. f_equal. apply Z.mod_small. lia.
Qed.

(** ** Requests *)

Section requests.
Context (v : virtio_blk_state_t) (q : virtio_blk_queue_t).

(** The chain that starts at descriptor [idx]: the type of the request, its
    sector, where the data is in the guest's memory, how long it is, and the
    host address of the status byte. *)
Definition request (h : heap) (idx type sector addr len st : Z) : Prop :=
  let d0 := read_desc v h q idx in
  let d1 := read_desc v h q d0.(d_next) in
  let d2 := read_desc v h q d1.(d_next) in
  Z.testbit d0.(d_flags) 0 = true /\ Z.testbit d1.(d_flags) 0 = true /\ Z.testbit d2.(d_flags) 0 = false
  /\ load 4 h (u64 (v.(ram) + d0.(d_addr))) = type
  /\ load 8 h (u64 (v.(ram) + d0.(d_addr)) + 8) = sector
  /\ d1.(d_addr) = addr /\ d1.(d_len) = len /\ u64 (v.(ram) + d2.(d_addr)) = st.

Lemma next_flag f : f &. VIRTIO_DESC_F_NEXT = if Z.testbit f 0 then 1 else 0.
Proof.
  change VIRTIO_DESC_F_NEXT with (Z.ones 1). rewrite Z.land_ones by lia. change (2 ^ 1) with 2.
  rewrite <- Z.bit0_mod. by destruct (Z.testbit f 0).
Qed.

(** A descriptor is sixteen bytes of memory. *)
Lemma read_desc_ext h h' i :
  (forall x, 0 <= x < 16 -> heap_get h' (v.(ram) + 4 * u32 (q.(queue_desc) + i * 4) + x)
                          = heap_get h (v.(ram) + 4 * u32 (q.(queue_desc) + i * 4) + x)) ->
  read_desc v h' q i = read_desc v h q i.
Proof.
  intros He. unfold read_desc. set (p := v.(ram) + _) in *.
  f_equal; apply load_ext; intros x Hx; rewrite <- ?Z.add_assoc; apply He; lia.
Qed.

(** The answer of the device to a request, whatever it is. *)
Lemma desc_handler_eq h idx type sector addr len st : request h idx type sector addr len st ->
  virtio_blk_desc_handler v h q idx
  = if u64 (capacity v h - 1) <? sector then (v, <[st := VIRTIO_BLK_S_IOERR]> h, None)
    else if type =? VIRTIO_BLK_T_IN then
      (v, <[st := VIRTIO_BLK_S_OK]> (virtio_blk_read_handler v h sector addr len), Some len)
    else if type =? VIRTIO_BLK_T_OUT then
      if nz (v.(device_features) &. VIRTIO_BLK_F_RO) then (v, <[st := VIRTIO_BLK_S_IOERR]> h, None)
      else (v, <[st := VIRTIO_BLK_S_OK]> (virtio_blk_write_handler v h sector addr len), Some len)
    else (v, <[st := VIRTIO_BLK_S_UNSUPP]> h, None).
Proof.
  unfold request. set (d0 := read_desc v h q idx). set (d1 := read_desc v h q (d_next d0)).
  set (d2 := read_desc v h q (d_next d1)). intros (H0 & H1 & H2 & <- & <- & <- & <- & <-).
  unfold virtio_blk_desc_handler. fold d0 d1 d2. unfold nz at 1. by rewrite !next_flag, H0, H1, H2.
Qed.
End requests.

(** ** Writing and reading a sector *)

Definition disjoint (a n b m : Z) : Prop := a + n <= b \/ b + m <= a.
Definition inside (a n b m : Z) : Prop := b <= a /\ a + n <= b + m.

(** Guest memory of [size] bytes, [len] bytes of the disk from [sector] and the
    capacity lie in the host's memory without overlap. *)
Record layout (v : virtio_blk_state_t) (size sector len : Z) : Prop := mk_layout {
  l_pos : 0 <= v.(ram) /\ 0 <= v.(disk) /\ 0 <= sector /\ 0 <= len /\ 0 <= size;
  l_ram : v.(ram) + size < 2 ^ 64;
  l_disk : v.(disk) + sector * 512 + len < 2 ^ 64;
  l_split : disjoint v.(ram) size (v.(disk) + sector * 512) len;
  l_priv : disjoint v.(priv) 8 v.(ram) size /\ disjoint v.(priv) 8 (v.(disk) + sector * 512) len
}.

Lemma capacity_kept v h h' : (forall x, v.(priv) <= x < v.(priv) + 8 -> heap_get h' x = heap_get h x) ->
  capacity v h' = capacity v h.
Proof. intros He. unfold capacity. apply load_ext. intros i Hi. rewrite He; [done|]. lia. Qed.

Section roundtrip.
Context (v : virtio_blk_state_t) (size sector len : Z) (L : layout v size sector len).
Let D := v.(disk) + sector * 512.

Lemma disk_addr : u64 (v.(disk) + u64 (sector * DISK_BLK_SIZE)) = D.
Proof using L.
  destruct L as [(? & ? & ? & ? & ?) ? ? ? ?]. unfold DISK_BLK_SIZE, D, u64.
  rewrite (Z.mod_small (sector * 512)) by lia. apply Z.mod_small. lia.
Qed.

Lemma ram_addr a : inside a len 0 size -> u64 (v.(ram) + a) = v.(ram) + a.
Proof using L. destruct L as [(? & ? & ? & ? & ?) ? ? ? ?]. unfold inside. intros. unfold u64. rewrite Z.mod_small; lia. Qed.

(** The bytes after the two transfers. *)
Lemma write_bytes h a x : inside a len 0 size ->
  heap_get (virtio_blk_write_handler v h sector a len) x
  = if decide (D <= x < D + len) then heap_get h (v.(ram) + a + (x - D)) else heap_get h x.
Proof using L.
  intros Ha. unfold virtio_blk_write_handler. rewrite disk_addr, ram_addr by done.
  destruct L as [(? & ? & ? & ? & ?) ? ? ? ?]. unfold inside in Ha. apply memcpy_get; unfold D; lia.
Qed.
Lemma read_bytes h b x : inside b len 0 size ->
  heap_get (virtio_blk_read_handler v h sector b len) x
  = if decide (v.(ram) + b <= x < v.(ram) + b + len) then heap_get h (D + (x - (v.(ram) + b))) else heap_get h x.
Proof using L.
  intros Hb. unfold virtio_blk_read_handler. rewrite disk_addr, ram_addr by done.
  destruct L as [(? & ? & ? & ? & ?) ? ? ? ?]. unfold inside in Hb. apply memcpy_get; unfold D; lia.
Qed.

(** C20. The block device stores what it is given: a write request for [len]
    bytes of a sector on the disk, and after it a read request for the same
    sector, both succeed; the bytes that the guest reads are those it wrote,
    the status bytes say so, and no other byte of the host's memory changes
    but those of the disk that were written.  The second request is one that
    the disk and the first status byte are no part of. *)
Theorem virtio_round_trip q h i0 i1 a b st0 st1 :
  request v q h i0 VIRTIO_BLK_T_OUT sector a len st0 ->
  (forall h', (forall x, inside x 1 v.(ram) size -> x <> st0 -> heap_get h' x = heap_get h x) ->
     request v q h' i1 VIRTIO_BLK_T_IN sector b len st1) ->
  inside a len 0 size -> inside b len 0 size -> inside st0 1 v.(ram) size -> inside st1 1 v.(ram) size ->
  disjoint st1 1 (v.(ram) + b) len ->
  sector < capacity v h -> Z.testbit v.(device_features) 5 = false ->
  exists h1 h2,
    virtio_blk_desc_handler v h q i0 = (v, h1, Some len)
    /\ virtio_blk_desc_handler v h1 q i1 = (v, h2, Some len)
    /\ (forall i, 0 <= i < len -> heap_get h2 (v.(ram) + b + i) = heap_get h (v.(ram) + a + i))
    /\ heap_get h2 st1 = VIRTIO_BLK_S_OK
    /\ (forall x, ~ inside x 1 D len -> ~ inside x 1 (v.(ram) + b) len -> x <> st0 -> x <> st1 ->
          heap_get h2 x = heap_get h x).
Proof using L.
  intros R0 R1 Ha Hb H0 H1 Hd Hcap Hro. pose proof L as [(? & ? & ? & ? & ?) Lr Ld Ls [Lp1 Lp2]].
  fold D in Ld, Ls, Lp2. unfold inside, disjoint in *.
  assert (Hle : (u64 (capacity v h - 1) <? sector) = false).
  { apply Z.ltb_ge. pose proof (load_range 8 h v.(priv)) as Hr. fold (capacity v h) in Hr.
    change (256 ^ Z.of_nat 8) with (2 ^ 64) in Hr. unfold u64. rewrite Z.mod_small; lia. }
  assert (G1 : forall x, heap_get (<[st0 := VIRTIO_BLK_S_OK]> (virtio_blk_write_handler v h sector a len)) x
    = if decide (st0 = x) then 0 else if decide (D <= x < D + len) then heap_get h (v.(ram) + a + (x - D)) else heap_get h x)
    by (intros x; by rewrite heap_get_insert, write_bytes).
  set (h1 := <[st0 := VIRTIO_BLK_S_OK]> (virtio_blk_write_handler v h sector a len)) in *.
  assert (G2 : forall x, heap_get (<[st1 := VIRTIO_BLK_S_OK]> (virtio_blk_read_handler v h1 sector b len)) x
    = if decide (st1 = x) then 0
      else if decide (v.(ram) + b <= x < v.(ram) + b + len) then heap_get h1 (D + (x - (v.(ram) + b))) else heap_get h1 x)
    by (intros x; by rewrite heap_get_insert, read_bytes).
  set (h2 := <[st1 := VIRTIO_BLK_S_OK]> (virtio_blk_read_handler v h1 sector b len)) in *.
  exists h1, h2. splits.
  - rewrite (desc_handler_eq v q h i0 _ _ _ _ _ R0), Hle.
    unfold VIRTIO_BLK_F_RO. rewrite nz_land_bit, Hro by lia. done.
  - rewrite (desc_handler_eq v q h1 i1 VIRTIO_BLK_T_IN sector b len st1).
    + rewrite (capacity_kept v h h1), Hle; [done|]. intros x Hx. rewrite G1.
      repeat destruct (decide _); done || lia.
    + apply R1. intros x Hx Hne. rewrite G1. repeat destruct (decide _); done || lia.
  - intros i Hi. rewrite G2, !G1. repeat destruct (decide _); try lia. f_equal. lia.
  - rewrite G2. by destruct (decide _).
  - intros x Hx1 Hx2 Hx3 Hx4. rewrite G2, !G1. repeat destruct (decide _); done || lia.
Qed.
End roundtrip.

(** A memory of one page at 0x10000, a disk of four sectors at 0x20000; the
    chain at descriptor 0 writes four bytes to sector 2, the chain at
    descriptor 3 reads them. *)
Definition dev : virtio_blk_state_t := vblk_new 0x10000 0x20000 0x30000.
Definition put_desc (h : heap) (i addr len flags next : Z) : heap :=
  let p := 0x10000 + 16 * i in store 2 (store 2 (store 4 (store 8 h p addr) (p + 8) len) (p + 12) flags) (p + 14) next.
Definition ring : heap :=
  let h := store 8 ∅ 0x30000 4 in
  let h := put_desc (put_desc (put_desc h 0 0x100 16 1 1) 1 0x200 4 1 2) 2 0x300 1 2 0 in
  let h := put_desc (put_desc (put_desc h 3 0x140 16 1 4) 4 0x280 4 3 5) 5 0x304 1 2 0 in
  let h := store 8 (store 4 h 0x10100 1) 0x10108 2 in
  store 4 (store 8 (store 4 h 0x10140 0) 0x10148 2) 0x10200 0x64636261.

Lemma virtio_round_trip_witness :
  layout dev 0x1000 2 4
  /\ exists h1 h2, virtio_blk_desc_handler dev ring queue0 0 = (dev, h1, Some 4)
    /\ virtio_blk_desc_handler dev h1 queue0 3 = (dev, h2, Some 4)
    /\ heap_get h2 0x10280 = 0x61 /\ heap_get h2 0x10283 = 0x64 /\ heap_get h2 0x10304 = 0.
Proof.
  assert (L : layout dev 0x1000 2 4) by (constructor; unfold disjoint; cbn; lia).
  split; [exact L|].
  destruct (virtio_round_trip dev 0x1000 2 4 L queue0 ring 0 3 0x200 0x280 0x10300 0x10304)
    as (h1 & h2 & E1 & E2 & Eb & Es & _).
  - by vm_compute.
  - intros h' He. assert (Ed : forall i, 3 <= i < 6 -> read_desc dev h' queue0 i = read_desc dev ring queue0 i).
    { intros i Hi. apply read_desc_ext. intros x Hx. rewrite u32_small by (cbn; lia).
      apply He; unfold inside; cbn; lia. }
    assert (Eh : forall n a, 0x10000 <= a -> a + Z.of_nat n <= 0x10300 -> load n h' a = load n ring a).
    { intros n a Ha Hn. apply load_ext. intros x Hx. apply He; unfold inside; cbn; lia. }
    assert (N3 : d_next (read_desc dev ring queue0 3) = 4) by reflexivity.
    assert (N4 : d_next (read_desc dev ring queue0 4) = 5) by reflexivity.
    assert (A3 : d_addr (read_desc dev ring queue0 3) = 0x140) by reflexivity.
    unfold request. rewrite !(Ed 3), !N3, !(Ed 4), !N4, !(Ed 5), !A3, !Eh by (lia || by vm_compute). by vm_compute.
  - by split.
  - by split.
  - by split.
  - by split.
  - right. by vm_compute.
  - by vm_compute.
  - reflexivity.
  - exists h1, h2. splits; [exact E1|exact E2| | |exact Es].
    + exact (Eb 0 ltac:(lia)).
    + exact (Eb 3 ltac:(lia)).
Defined.
