(* ===== verification/Mmu.v ===== *)
(** * Address translation and interrupts of system emulation
      (src/rv32emu/src/system.c, system.h; the interrupt check of emulate.c)

    [vm] is what the handlers of system.c reach through [rv]: the hart, the
    fields that exist only in system emulation, the guest's memory, the
    devices and the two flags that are global variables.  The callback
    [rv->io.on_trap] is an argument of the definitions that raise a fault.
    [None] as a result is the dereference of a null page-table entry, a
    point that the source declares unreachable, or the end of the emulator
    (control-A x on the serial port). *)

From Stdlib Require Import ZArith Lia Bool.
From stdpp Require Import base list numbers gmap.
From S2P Require Import Prelude Decode Riscv Exec Memory Devices.

Definition RV_PG_SHIFT : Z := 12.
Definition RV_PG_SIZE : Z := 1 <<. RV_PG_SHIFT.
Definition PTE_V : Z := 1.
Definition PTE_R : Z := 1 <<. 1.
Definition PTE_W : Z := 1 <<. 2.
Definition PTE_X : Z := 1 <<. 3.
Definition PTE_U : Z := 1 <<. 4.
Definition SSTATUS_SUM : Z := 1 <<. 18.
Definition SSTATUS_MXR : Z := 1 <<. 19.
Definition PAGEFAULT_INSN : Z := 12.
Definition PAGEFAULT_LOAD : Z := 13.
Definition PAGEFAULT_STORE : Z := 15.
Definition IRQ_UART_BIT : Z := 1 <<. 1.
Definition IRQ_VBLK_BIT (base i : Z) : Z := shl32 1 (base + i).
Definition RV_INT_STI : Z := 1 <<. 5.
Definition SUPERVISOR_SW_INTR : Z := 0x80000001.
Definition SUPERVISOR_TIMER_INTR : Z := 0x80000005.
Definition SUPERVISOR_EXTERNAL_INTR : Z := 0x80000009.

(** [SV32_PTE_PERM]: the low four bits of a valid entry; [None] is the
    default case of the switch, an entry that is not valid. *)
Inductive SV32_PTE_PERM : Type :=
  | NEXT_PG_TBL | RO_PAGE | RW_PAGE | EO_PAGE | RX_PAGE | RWX_PAGE | RESRV_PAGE1 | RESRV_PAGE2.
Definition XWRV_bit (e : Z) : option SV32_PTE_PERM :=
  match e &. MASK 4 with
  | 1 => Some NEXT_PG_TBL
  | 3 => Some RO_PAGE
  | 7 => Some RW_PAGE
  | 9 => Some EO_PAGE
  | 11 => Some RX_PAGE
  | 15 => Some RWX_PAGE
  | 5 => Some RESRV_PAGE1
  | 13 => Some RESRV_PAGE2
  | _ => None
  end.

(** ** The virtual machine *)

Record vm (H : Type) : Type := mk_vm {
  v_rv : riscv; is_trapped : bool; last_csr_sepc : Z;
  v_mem : memory_t; v_heap : heap; v_mem_size : Z; v_timer : Z;
  v_plic : Plic.plic_t; v_uart : Uart.u8250_state_t; v_host : H;
  v_vblk : list Virtio.virtio_blk_state_t; vblk_curr : nat;
  vblk_mmio_base_hi : Z; vblk_mmio_max_hi : Z; vblk_irq_base : Z;
  need_handle_signal : bool; need_retranslate : bool; peripheral_update_ctr : Z
}.
Arguments mk_vm {H}. Arguments v_rv {H}. Arguments is_trapped {H}. Arguments last_csr_sepc {H}.
Arguments v_mem {H}. Arguments v_heap {H}. Arguments v_mem_size {H}. Arguments v_timer {H}.
Arguments v_plic {H}. Arguments v_uart {H}. Arguments v_host {H}. Arguments v_vblk {H}.
Arguments vblk_curr {H}. Arguments vblk_mmio_base_hi {H}. Arguments vblk_mmio_max_hi {H}.
Arguments vblk_irq_base {H}. Arguments need_handle_signal {H}. Arguments need_retranslate {H}.
Arguments peripheral_update_ctr {H}.

Section mmu.
Context {H : Type}.
Implicit Types v : vm H.

Definition set_rv v x := mk_vm x v.(is_trapped) v.(last_csr_sepc) v.(v_mem) v.(v_heap) v.(v_mem_size) v.(v_timer) v.(v_plic) v.(v_uart) v.(v_host) v.(v_vblk) v.(vblk_curr) v.(vblk_mmio_base_hi) v.(vblk_mmio_max_hi) v.(vblk_irq_base) v.(need_handle_signal) v.(need_retranslate) v.(peripheral_update_ctr).
Definition set_trapped v x := mk_vm v.(v_rv) x v.(last_csr_sepc) v.(v_mem) v.(v_heap) v.(v_mem_size) v.(v_timer) v.(v_plic) v.(v_uart) v.(v_host) v.(v_vblk) v.(vblk_curr) v.(vblk_mmio_base_hi) v.(vblk_mmio_max_hi) v.(vblk_irq_base) v.(need_handle_signal) v.(need_retranslate) v.(peripheral_update_ctr).
Definition set_vheap v x := mk_vm v.(v_rv) v.(is_trapped) v.(last_csr_sepc) v.(v_mem) x v.(v_mem_size) v.(v_timer) v.(v_plic) v.(v_uart) v.(v_host) v.(v_vblk) v.(vblk_curr) v.(vblk_mmio_base_hi) v.(vblk_mmio_max_hi) v.(vblk_irq_base) v.(need_handle_signal) v.(need_retranslate) v.(peripheral_update_ctr).
Definition set_plic v x := mk_vm v.(v_rv) v.(is_trapped) v.(last_csr_sepc) v.(v_mem) v.(v_heap) v.(v_mem_size) v.(v_timer) x v.(v_uart) v.(v_host) v.(v_vblk) v.(vblk_curr) v.(vblk_mmio_base_hi) v.(vblk_mmio_max_hi) v.(vblk_irq_base) v.(need_handle_signal) v.(need_retranslate) v.(peripheral_update_ctr).
Definition set_uart v x (h : H) := mk_vm v.(v_rv) v.(is_trapped) v.(last_csr_sepc) v.(v_mem) v.(v_heap) v.(v_mem_size) v.(v_timer) v.(v_plic) x h v.(v_vblk) v.(vblk_curr) v.(vblk_mmio_base_hi) v.(vblk_mmio_max_hi) v.(vblk_irq_base) v.(need_handle_signal) v.(need_retranslate) v.(peripheral_update_ctr).
Definition set_vblk v x := mk_vm v.(v_rv) v.(is_trapped) v.(last_csr_sepc) v.(v_mem) v.(v_heap) v.(v_mem_size) v.(v_timer) v.(v_plic) v.(v_uart) v.(v_host) x v.(vblk_curr) v.(vblk_mmio_base_hi) v.(vblk_mmio_max_hi) v.(vblk_irq_base) v.(need_handle_signal) v.(need_retranslate) v.(peripheral_update_ctr).
Definition set_curr v x := mk_vm v.(v_rv) v.(is_trapped) v.(last_csr_sepc) v.(v_mem) v.(v_heap) v.(v_mem_size) v.(v_timer) v.(v_plic) v.(v_uart) v.(v_host) v.(v_vblk) x v.(vblk_mmio_base_hi) v.(vblk_mmio_max_hi) v.(vblk_irq_base) v.(need_handle_signal) v.(need_retranslate) v.(peripheral_update_ctr).
Definition set_signal v x := mk_vm v.(v_rv) v.(is_trapped) v.(last_csr_sepc) v.(v_mem) v.(v_heap) v.(v_mem_size) v.(v_timer) v.(v_plic) v.(v_uart) v.(v_host) v.(v_vblk) v.(vblk_curr) v.(vblk_mmio_base_hi) v.(vblk_mmio_max_hi) v.(vblk_irq_base) x v.(need_retranslate) v.(peripheral_update_ctr).
Definition set_ctr v x := mk_vm v.(v_rv) v.(is_trapped) v.(last_csr_sepc) v.(v_mem) v.(v_heap) v.(v_mem_size) v.(v_timer) v.(v_plic) v.(v_uart) v.(v_host) v.(v_vblk) v.(vblk_curr) v.(vblk_mmio_base_hi) v.(vblk_mmio_max_hi) v.(vblk_irq_base) v.(need_handle_signal) v.(need_retranslate) x.

(** ** Interrupts of the devices *)

Definition update_plic v : vm H :=
  let '(p, rv) := Plic.plic_update_interrupts v.(v_plic) v.(v_rv) in set_rv (set_plic v p) rv.
(** Raise or lower the interrupt lines [bit]. *)
Definition drive v (bit : Z) (on : bool) : vm H :=
  set_plic v (Plic.set_active v.(v_plic)
    (if on then v.(v_plic).(Plic.active) |. bit else clear32 v.(v_plic).(Plic.active) bit)).

Definition emu_update_uart_interrupts v : vm H :=
  let v := set_uart v (Uart.u8250_update_interrupts v.(v_uart)) v.(v_host) in
  update_plic (drive v IRQ_UART_BIT (nz v.(v_uart).(Uart.pending_intrs))).

Definition emu_update_vblk_interrupts v : vm H :=
  fold_left (fun v p =>
      update_plic (drive v (IRQ_VBLK_BIT v.(vblk_irq_base) (Z.of_nat p.1)) (nz p.2.(Virtio.interrupt_status))))
    (zip (seq 0 (length v.(v_vblk))) v.(v_vblk)) v.

(** ** The walk *)

Definition ppn_is_valid v (ppn : Z) : bool := ppn <? v.(v_mem_size) / RV_PG_SIZE.
Definition PAGE_TABLE v (ppn : Z) : option Z :=
  if ppn_is_valid v ppn then Some (v.(v_mem).(mem_base) + shl32 ppn RV_PG_SHIFT) else None.

(** The loop from level [i] down; the result is the host address of the
    entry and its level. *)
Fixpoint walk_loop v (vaddr page_table : Z) (i : nat) : option (Z * Z) :=
  let level := 2 - Z.of_nat i in
  let vpn := ((vaddr >>. RV_PG_SHIFT) >>. (Z.of_nat i * (RV_PG_SHIFT - 2))) &. MASK 10 in
  let pte := page_table + 4 * vpn in
  let e := load 4 v.(v_heap) pte in
  match XWRV_bit e with
  | Some NEXT_PG_TBL =>
      match PAGE_TABLE v (e >>. (RV_PG_SHIFT - 2)), i with
      | None, _ | _, O => None
      | Some page_table, S i => walk_loop v vaddr page_table i
      end
  | Some (RO_PAGE | RW_PAGE | EO_PAGE | RX_PAGE | RWX_PAGE) =>
      let ppn := e >>. (RV_PG_SHIFT - 2) in
      if (level =? 1) && nz (ppn &. MASK 10) then None else Some (pte, level)
  | Some (RESRV_PAGE1 | RESRV_PAGE2) | None => None
  end.

Definition mmu_walk v (vaddr : Z) : option (Z * Z) :=
  match PAGE_TABLE v (v.(v_rv).(csr_satp) &. MASK 22) with
  | None => None
  | Some page_table => walk_loop v vaddr page_table 1
  end.

(** ** Permissions *)

(** The two ways a data access names its direction. *)
Definition R : bool := true.
Definition W : bool := false.

Definition fault_cause (access_bits : Z) : Z :=
  if access_bits =? PTE_R then PAGEFAULT_LOAD
  else if access_bits =? PTE_W then PAGEFAULT_STORE else PAGEFAULT_INSN.

(** The tests of the check, in order, on the entry that was found. *)
Definition pte_ok v (pte : option Z) (access_bits : Z) : bool :=
  let e := match pte with Some p => load 4 v.(v_heap) p | None => 0 end in
  let here := match pte with Some _ => true | None => false end in
  let mxr := nz (SSTATUS_MXR &. v.(v_rv).(csr_sstatus)) in
  if here && negb (nz (e &. PTE_V)) then false
  else if negb (here && nz (e &. access_bits)) then false
  else if here && ((negb mxr && negb (nz (e &. PTE_R)) && (access_bits =? PTE_R))
                   || (mxr && negb (nz ((e &. PTE_R) |. (e &. PTE_X))) && (access_bits =? PTE_R))) then false
  else if here && (v.(v_rv).(priv_mode) =? RV_PRIV_S_MODE)
          && negb (nz (SSTATUS_SUM &. v.(v_rv).(csr_sstatus))) && nz (e &. PTE_U) then false
  else here.

Section trap.
(** [rv->io.on_trap]: in system emulation it runs the guest's handler until
    the guest returns from it. *)
Context (on_trap : vm H -> vm H).

(** [SET_CAUSE_AND_TVAL_THEN_TRAP] as system emulation compiles it, for a
    cause other than [ECALL_U]. *)
Definition set_cause_then_trap v (cause tval : Z) : vm H :=
  let v := set_trapped v true in
  on_trap (set_rv v
    (if RV_PRIV_IS_U_OR_S_MODE v.(v_rv)
     then set_csr_stval (set_csr_scause v.(v_rv) cause) tval
     else set_csr_mtval (set_csr_mcause v.(v_rv) cause) tval)).

Definition mmu_fault_check v (pte : option Z) (vaddr access_bits : Z) : vm H * bool :=
  if pte_ok v pte access_bits then (v, true)
  else (set_cause_then_trap v (fault_cause access_bits) vaddr, false).

Definition CHECK_PENDING_SIGNAL v : vm H :=
  set_signal v (negb (v.(v_rv).(csr_sepc) =? v.(last_csr_sepc))).

Definition get_ppn_and_offset v (pte level vaddr : Z) : Z * Z :=
  (shl32 (load 4 v.(v_heap) pte >>. (RV_PG_SHIFT - 2)) RV_PG_SHIFT,
   if level =? 1 then vaddr &. MASK (RV_PG_SHIFT + 10) else vaddr &. MASK RV_PG_SHIFT).

(** The walk and the check; after a fault whose handler left no signal, the
    walk again, without a second check.  [Some (inl _)] stands for the entry
    that is used, [Some (inr _)] for the return with a pending signal. *)
Definition find_pte v (vaddr access_bits : Z) : vm H * (option (Z * Z) + unit) :=
  let found := mmu_walk v vaddr in
  match mmu_fault_check v (fst <$> found) vaddr access_bits with
  | (v, true) => (v, inl found)
  | (v, false) =>
      let v := CHECK_PENDING_SIGNAL v in
      if v.(need_handle_signal) then (v, inr tt) else (v, inl (mmu_walk v vaddr))
  end.

Definition mmu_translate v (vaddr : Z) (rw : bool) : option (vm H * Z) :=
  if v.(v_rv).(csr_satp) =? 0 then Some (v, vaddr) else
  match find_pte v vaddr (if rw then PTE_R else PTE_W) with
  | (v, inr _) => Some (v, 0)
  | (v, inl None) => None
  | (v, inl (Some (pte, level))) =>
      let '(ppn, offset) := get_ppn_and_offset v pte level vaddr in Some (v, ppn |. offset)
  end.

Definition mmu_ifetch v (vaddr : Z) : option (vm H * Z) :=
  if v.(v_rv).(csr_satp) =? 0 then Some (v, memory_ifetch v.(v_mem) v.(v_heap) vaddr) else
  match find_pte v vaddr PTE_X with
  | (v, inr _) => Some (v, 0)
  | (v, inl found) =>
      if v.(need_retranslate) then Some (v, 0) else
      match found with
      | None => None
      | Some (pte, level) =>
          let '(ppn, offset) := get_ppn_and_offset v pte level vaddr in
          Some (v, memory_ifetch v.(v_mem) v.(v_heap) (ppn |. offset))
      end
  end.

(** ** Memory-mapped devices *)

Context (con : Uart.console H).

Inductive SUPPORTED_MMIO : Type := MMIO_PLIC | MMIO_UART | MMIO_VIRTIOBLK (i : nat).
(** The device that an address selects. *)
Definition mmio_device v (addr : Z) : option SUPPORTED_MMIO :=
  if negb (addr >>. 28 =? 0xf) then None else
  let hi := (addr >>. 20) &. MASK 8 in
  if (v.(vblk_mmio_base_hi) <=? hi) && (hi <=? v.(vblk_mmio_max_hi))
  then Some (MMIO_VIRTIOBLK (Z.to_nat (hi - v.(vblk_mmio_base_hi))))
  else if (hi =? 0) || (hi =? 2) then Some MMIO_PLIC
  else if hi =? 0x40 then Some MMIO_UART
  else None.

Definition MMIO_READ v (addr : Z) : option (vm H * Z) :=
  match mmio_device v addr with
  | None => None
  | Some MMIO_PLIC =>
      let '(p, x) := Plic.plic_read v.(v_plic) (addr &. 0x3ffffff) in
      Some (update_plic (set_plic v p), x)
  | Some MMIO_UART =>
      match Uart.u8250_read con v.(v_uart) v.(v_host) (addr &. 0xfffff) with
      | None => None
      | Some (u, h, x) => Some (emu_update_uart_interrupts (set_uart v u h), x)
      end
  | Some (MMIO_VIRTIOBLK i) =>
      match v.(v_vblk) !! i with
      | None => None
      | Some d =>
          Some (emu_update_vblk_interrupts (set_curr v i), Virtio.virtio_blk_read d v.(v_heap) (addr &. 0xfffff))
      end
  end.

Definition MMIO_WRITE v (addr val : Z) : option (vm H) :=
  if negb (addr >>. 28 =? 0xf) then Some v else
  match mmio_device v addr with
  | None => None
  | Some MMIO_PLIC => Some (update_plic (set_plic v (Plic.plic_write v.(v_plic) (addr &. 0x3ffffff) val)))
  | Some MMIO_UART =>
      let '(u, h) := Uart.u8250_write con v.(v_uart) v.(v_host) (addr &. 0xfffff) val in
      Some (emu_update_uart_interrupts (set_uart v u h))
  | Some (MMIO_VIRTIOBLK i) =>
      match v.(v_vblk) !! i with
      | None => None
      | Some d =>
          match Virtio.virtio_blk_write d v.(v_heap) (addr &. 0xfffff) val with
          | None => None
          | Some (d, h) => Some (emu_update_vblk_interrupts (set_vblk (set_vheap (set_curr v i) h) (<[i := d]> v.(v_vblk))))
          end
      end
  end.

(** ** The memory interface *)

(** Main memory or a device. *)
Definition is_ram v (addr vaddr : Z) : bool := (addr =? vaddr) || (addr <? v.(v_mem).(mem_size)).

Definition mmu_read_w v (vaddr : Z) : option (vm H * Z) :=
  match mmu_translate v vaddr R with
  | None => None
  | Some (v, addr) =>
      if v.(need_handle_signal) then Some (v, 0)
      else if is_ram v addr vaddr then Some (v, memory_read_w v.(v_mem) v.(v_heap) addr)
      else MMIO_READ v addr
  end.
Definition mmu_read_s v (vaddr : Z) : option (vm H * Z) :=
  match mmu_translate v vaddr R with
  | None => None
  | Some (v, addr) =>
      if v.(need_handle_signal) then Some (v, 0)
      else Some (v, memory_read_s v.(v_mem) v.(v_heap) addr)
  end.
(** The byte that a device answers is the low byte of its register. *)
Definition mmu_read_b v (vaddr : Z) : option (vm H * Z) :=
  match mmu_translate v vaddr R with
  | None => None
  | Some (v, addr) =>
      if v.(need_handle_signal) then Some (v, 0)
      else if is_ram v addr vaddr then Some (v, memory_read_b v.(v_mem) v.(v_heap) addr)
      else match MMIO_READ v addr with None => None | Some (v, x) => Some (v, u8 x) end
  end.

Definition mmu_write_w v (vaddr val : Z) : option (vm H) :=
  match mmu_translate v vaddr W with
  | None => None
  | Some (v, addr) =>
      if v.(need_handle_signal) then Some v
      else if is_ram v addr vaddr then Some (set_vheap v (memory_write_w v.(v_mem) v.(v_heap) addr val))
      else MMIO_WRITE v addr val
  end.
Definition mmu_write_s v (vaddr val : Z) : option (vm H) :=
  match mmu_translate v vaddr W with
  | None => None
  | Some (v, addr) =>
      if v.(need_handle_signal) then Some v
      else Some (set_vheap v (memory_write_s v.(v_mem) v.(v_heap) addr val))
  end.
Definition mmu_write_b v (vaddr val : Z) : option (vm H) :=
  match mmu_translate v vaddr W with
  | None => None
  | Some (v, addr) =>
      if v.(need_handle_signal) then Some v
      else if is_ram v addr vaddr then Some (set_vheap v (memory_write_b v.(v_mem) v.(v_heap) addr val))
      else MMIO_WRITE v addr val
  end.

(** ** The interrupt check of the main loop (emulate.c) *)

Definition rv_has_plic_trap (rv : riscv) : bool :=
  (nz (rv.(csr_sstatus) &. SSTATUS_SIE) || (rv.(priv_mode) =? 0)) && nz (rv.(csr_sip) &. rv.(csr_sie)).

(** The countdown of the serial port: it is polled every 65th time. *)
Definition poll_uart v : vm H :=
  if v.(peripheral_update_ctr) =? 0 then
    let v := set_ctr v 64 in
    let v := set_uart v (Uart.u8250_check_ready con v.(v_uart) v.(v_host)) v.(v_host) in
    if v.(v_uart).(Uart.in_ready) then emu_update_uart_interrupts v else v
  else set_ctr v (u32 (v.(peripheral_update_ctr) - 1)).

Definition update_sti v : vm H :=
  set_rv v (set_csr_sip v.(v_rv)
    (if v.(v_timer) <? v.(v_rv).(timer) then v.(v_rv).(csr_sip) |. RV_INT_STI
     else clear32 v.(v_rv).(csr_sip) RV_INT_STI)).

Definition rv_check_interrupt v : vm H :=
  let v := update_sti (poll_uart v) in
  if negb (rv_has_plic_trap v.(v_rv)) then v else
  let intr_idx := ilog2 (v.(v_rv).(csr_sip) &. v.(v_rv).(csr_sie)) in
  if intr_idx =? SUPERVISOR_SW_INTR &. 0xf then set_cause_then_trap v SUPERVISOR_SW_INTR 0
  else if intr_idx =? SUPERVISOR_TIMER_INTR &. 0xf then set_cause_then_trap v SUPERVISOR_TIMER_INTR 0
  else if intr_idx =? SUPERVISOR_EXTERNAL_INTR &. 0xf then set_cause_then_trap v SUPERVISOR_EXTERNAL_INTR 0
  else v.
End trap.
End mmu.
