(* ===== verification/MmuSpec.v ===== *)
(** * Address translation follows the Sv32 scheme

    [sv32_walk] is the page-table walk of the privileged architecture manual
    (section "Virtual Address Translation Process") on physical memory, with
    its own arithmetic; [sv32_perm] are its rules for the permissions.  The
    walk of system.c is that walk ([mmu_walk_sv32]), and [mmu_translate]
    gives the manual's physical address or enters the trap handler with the
    manual's cause. *)

From Stdlib Require Import ZArith Lia Bool.
From stdpp Require Import base list numbers gmap.
From S2P Require Import Prelude Decode Riscv Exec Memory MemorySpec Devices Mmu.

(** ** The manual *)

(** A word of physical memory: memory is [pages] whole pages at [base]. *)
Definition phys_word (h : heap) (base pages pa : Z) : option Z :=
  if pa <? 4096 * pages then Some (load 4 h (base + pa)) else None.

Inductive access : Type := Load | Store | Fetch.

Section sv32.
Variable word_at : Z -> option Z.

Definition vpn (va : Z) (i : nat) : Z := va / 2 ^ (12 + 10 * Z.of_nat i) mod 2 ^ 10.
Definition e_ppn (e : Z) : Z := e / 2 ^ 10.

(** Steps 2 to 5 of the algorithm, from the table in page [a] at level [i]:
    the physical address of the leaf entry, the entry and its level. *)
Fixpoint sv32_walk (va a : Z) (i : nat) : option (Z * Z * nat) :=
  let p := 4096 * a + 4 * vpn va i in
  e ← word_at p;
  let bit := Z.testbit e in
  if negb (bit 0) || (negb (bit 1) && bit 2) then None
  else if bit 1 || bit 3 then
    if negb (Nat.eqb i 0) && negb (e_ppn e mod 2 ^ 10 =? 0) then None else Some (p, e, i)
  else match i with O => None | S i => sv32_walk va (e_ppn e) i end.
End sv32.

(** The permission rules; [sum] and [mxr] are the bits of [sstatus]. *)
Definition sv32_perm (mode : Z) (sum mxr : bool) (acc : access) (e : Z) : bool :=
  let bit := Z.testbit e in
  match acc with Load => bit 1 || (mxr && bit 3) | Store => bit 2 | Fetch => bit 3 end
  && (if mode =? 0 then bit 4
      else negb (bit 4) || (sum && match acc with Fetch => false | _ => true end)).

(** The physical address, of 34 bits: a leaf at level [i] maps [4^(5 i)] pages. *)
Definition sv32_pa (va e : Z) (i : nat) : Z :=
  let size := 2 ^ (12 + 10 * Z.of_nat i) in
  e_ppn e / 2 ^ (10 * Z.of_nat i) * size + va mod size.

Definition page_fault (acc : access) : Z := match acc with Fetch => 12 | Load => 13 | Store => 15 end.
Definition access_bits (acc : access) : Z := match acc with Fetch => PTE_X | Load => PTE_R | Store => PTE_W end.

(** ** The walk *)

Section walk.
Context {H : Type}.
Implicit Types v : vm H.

Definition phys v : Z -> option Z :=
  phys_word v.(v_heap) v.(v_mem).(mem_base) (v.(v_mem_size) / 4096).
Definition walk v (va : Z) : option (Z * Z * nat) := sv32_walk (phys v) va (v.(v_rv).(csr_satp) mod 2 ^ 22) 1.

(** An entry as the code names it: its host address and its level counted
    from the root. *)
Definition found v (r : Z * Z * nat) : Z * Z := (v.(v_mem).(mem_base) + r.1.1, 2 - Z.of_nat r.2).

Lemma low_bit e k : 0 <= k < 4 -> Z.testbit e k = Z.testbit (e mod 16) k.
Proof. intros Hk. change 16 with (2 ^ 4). by rewrite Z.mod_pow2_bits_low by lia. Qed.

Lemma land_MASK e n : 0 <= n < 32 -> e &. MASK n = e mod 2 ^ n.
Proof.
  intros Hn. assert (HM : MASK n = Z.ones n); [|rewrite HM; apply Z.land_ones; lia].
  assert (Hall : forallb (fun k => MASK k =? Z.ones k) (seqZ 0 32) = true) by reflexivity.
  rewrite forallb_forall in Hall. apply Z.eqb_eq, Hall, list_elem_of_In, elem_of_seqZ. lia.
Qed.

(** The switch on the low bits is the manual's pair of tests. *)
Lemma xwrv_cases e :
  match XWRV_bit e with
  | Some NEXT_PG_TBL => Z.testbit e 0 = true /\ Z.testbit e 1 = false /\ Z.testbit e 2 = false /\ Z.testbit e 3 = false
  | Some (RESRV_PAGE1 | RESRV_PAGE2) | None => Z.testbit e 0 = false \/ (Z.testbit e 1 = false /\ Z.testbit e 2 = true)
  | Some _ => Z.testbit e 0 = true /\ (Z.testbit e 1 = true \/ (Z.testbit e 2 = false /\ Z.testbit e 3 = true))
  end.
Proof.
  unfold XWRV_bit. rewrite land_MASK by lia. change (2 ^ 4) with 16. rewrite !(low_bit e) by lia.
  assert (Hr : 0 <= e mod 16 < 16) by (apply Z.mod_pos_bound; lia). revert Hr. generalize (e mod 16). intros m Hm.
  assert (Hc : m ∈ seqZ 0 16) by (apply elem_of_seqZ; lia). revert Hc. clear Hm.
  change (seqZ 0 16) with [0;1;2;3;4;5;6;7;8;9;10;11;12;13;14;15]. rewrite !elem_of_cons.
  intros Hc. repeat (destruct Hc as [-> | Hc]; [simpl; tauto|]). by apply elem_of_nil in Hc.
Qed.

Lemma page_table v n : 0 <= n -> 0 <= v.(v_mem_size) < 2 ^ 32 ->
  PAGE_TABLE v n = if n <? v.(v_mem_size) / 4096 then Some (v.(v_mem).(mem_base) + 4096 * n) else None.
Proof.
  intros Hn Hs. unfold PAGE_TABLE, ppn_is_valid. change RV_PG_SIZE with 4096.
  destruct (n <? _) eqn:Hlt; [|done]. apply Z.ltb_lt in Hlt. f_equal. f_equal.
  unfold shl32. change (RV_PG_SHIFT mod 32) with 12. rewrite Z.shiftl_mul_pow2 by lia.
  change (2 ^ 32) with 4294967296 in Hs. rewrite u32_small; [lia|]. div_lia.
Qed.

Lemma vpn_code va i : ((va >>. RV_PG_SHIFT) >>. (Z.of_nat i * (RV_PG_SHIFT - 2))) &. MASK 10 = vpn va i.
Proof.
  rewrite land_MASK by lia. unfold vpn. change RV_PG_SHIFT with 12.
  rewrite Z.shiftr_shiftr, Z.shiftr_div_pow2 by lia. do 3 f_equal. lia.
Qed.

Lemma phys_table v a va i : 0 <= a ->
  phys v (4096 * a + 4 * vpn va i)
  = if a <? v.(v_mem_size) / 4096 then Some (load 4 v.(v_heap) (v.(v_mem).(mem_base) + (4096 * a + 4 * vpn va i))) else None.
Proof.
  intros Ha. unfold phys, phys_word.
  assert (0 <= vpn va i < 2 ^ 10) by (apply Z.mod_pos_bound; lia).
  destruct (Z.ltb_spec a (v.(v_mem_size) / 4096)), (Z.ltb_spec (4096 * a + 4 * vpn va i) (4096 * (v.(v_mem_size) / 4096))); done || lia.
Qed.

Lemma leaf_code v p e n i : (i <= 1)%nat ->
  (if (2 - Z.of_nat i =? 1) && nz (n &. MASK 10) then None else Some (v.(v_mem).(mem_base) + p, 2 - Z.of_nat i))
  = found v <$> (if negb (Nat.eqb i 0) && negb (n mod 2 ^ 10 =? 0) then None else Some (p, e, i)).
Proof.
  intros Hi. rewrite land_MASK by lia. unfold nz. destruct i as [|[|i]]; [done| |lia].
  change (2 - Z.of_nat 1 =? 1) with true. cbn [negb andb Nat.eqb]. by destruct (_ =? 0).
Qed.

Lemma walk_loop_ok v va i : 0 <= v.(v_mem_size) < 2 ^ 32 -> (i <= 1)%nat -> forall a, 0 <= a < v.(v_mem_size) / 4096 ->
  walk_loop v va (v.(v_mem).(mem_base) + 4096 * a) i = found v <$> sv32_walk (phys v) va a i.
Proof.
  intros Hs Hi. induction i as [|i IH]; intros a Ha.
  all: cbn [walk_loop sv32_walk]; rewrite vpn_code, phys_table by lia.
  all: rewrite (proj2 (Z.ltb_lt _ _)) by lia; cbn [mbind option_bind].
  all: rewrite <- Z.add_assoc; set (p := 4096 * a + _); set (e := load 4 _ _).
  all: assert (He : 0 <= e) by apply load_range.
  all: assert (Hp : e >>. (RV_PG_SHIFT - 2) = e_ppn e) by (unfold e_ppn; change (RV_PG_SHIFT - 2) with 10; apply Z.shiftr_div_pow2; lia).
  all: assert (0 <= e_ppn e) by (apply Z.div_pos; lia).
  all: rewrite !Hp; generalize (xwrv_cases e); destruct (XWRV_bit e) as [[]|]; intros Hx.
  all: try (destruct Hx as [Hx|[Hx1 Hx2]]; [rewrite Hx|rewrite Hx1, Hx2; destruct (Z.testbit e 0)]; done).
  all: try (destruct Hx as (-> & -> & -> & ->); cbn [negb orb andb]; rewrite page_table by lia).
  all: try (rewrite (leaf_code v p e) by lia; destruct Hx as (-> & [-> | [-> ->]]); cbn [negb orb andb]; rewrite ?andb_false_r, ?orb_true_r; done).
  - by destruct (_ <? _).
  - destruct (Z.ltb_spec (e_ppn e) (v.(v_mem_size) / 4096)) as [Hl|Hl]; [apply IH; lia|].
    destruct i; [|lia]. cbn [sv32_walk]. rewrite phys_table by lia.
    by rewrite (proj2 (Z.ltb_ge _ _)) by lia.
Qed.

Lemma mmu_walk_sv32 v va : 0 <= v.(v_mem_size) < 2 ^ 32 -> mmu_walk v va = found v <$> walk v va.
Proof.
  intros Hs. unfold mmu_walk, walk. rewrite land_MASK by lia.
  set (a := _ mod _). assert (Ha : 0 <= a) by (apply Z.mod_pos_bound; lia).
  rewrite page_table by lia. destruct (Z.ltb_spec a (v.(v_mem_size) / 4096)) as [Hl|Hl].
  - apply walk_loop_ok; lia.
  - cbn [sv32_walk]. rewrite phys_table by lia. by rewrite (proj2 (Z.ltb_ge _ _)) by lia.
Qed.

(** ** Permissions and addresses *)

Lemma phys_some v pa e : phys v pa = Some e -> e = load 4 v.(v_heap) (v.(v_mem).(mem_base) + pa).
Proof. unfold phys, phys_word. destruct (_ <? _); [|done]. by intros [= <-]. Qed.

Lemma walk_entry v va a i p e j : sv32_walk (phys v) va a i = Some (p, e, j) ->
  e = load 4 v.(v_heap) (v.(v_mem).(mem_base) + p) /\ Z.testbit e 0 = true /\ (j <= i)%nat
  /\ (j = 0%nat \/ e_ppn e mod 2 ^ 10 = 0).
Proof.
  revert a. induction i as [|i IH]; intros a; cbn [sv32_walk].
  all: destruct (phys v _) as [e0|] eqn:He; cbn [mbind option_bind]; [|done]; apply phys_some in He.
  all: destruct (Z.testbit e0 0) eqn:H0; cbn [negb orb]; [|done].
  all: destruct (negb (Z.testbit e0 1) && Z.testbit e0 2); [done|].
  all: destruct (Z.testbit e0 1 || Z.testbit e0 3); cbn [negb andb Nat.eqb].
  - intros [= <- <- <-]. splits; eauto.
  - done.
  - destruct (_ =? 0) eqn:Hal; [|done]. apply Z.eqb_eq in Hal. intros [= <- <- <-]. splits; eauto.
  - intros Hw. apply IH in Hw as (? & ? & ? & ?). splits; try done. lia.
Qed.

Definition mxr v : bool := Z.testbit v.(v_rv).(csr_sstatus) 19.
Definition sum v : bool := Z.testbit v.(v_rv).(csr_sstatus) 18.

(** The leaf that an access may use. *)
Definition sv32_find v (va : Z) (acc : access) : option (Z * Z * nat) :=
  r ← walk v va;
  if sv32_perm v.(v_rv).(priv_mode) (sum v) (mxr v) acc r.1.2 then Some r else None.

(** Supervisor mode, with [MXR] off; and with [SUM] off for a fetch. *)
Definition plain v (acc : access) : Prop :=
  v.(v_rv).(priv_mode) = RV_PRIV_S_MODE /\ mxr v = false /\ (acc = Fetch -> sum v = false).

Lemma nz_flag v k : 0 <= k -> nz ((1 <<. k) &. v.(v_rv).(csr_sstatus)) = Z.testbit v.(v_rv).(csr_sstatus) k.
Proof. intros. rewrite Z.land_comm. by apply nz_land_bit. Qed.

Lemma pte_ok_sv32 v va acc : plain v acc ->
  pte_ok v (fst <$> (found v <$> walk v va)) (access_bits acc)
  = match sv32_find v va acc with Some _ => true | None => false end.
Proof.
  intros (Hm & Hx & Hs). unfold sv32_find. destruct (walk v va) as [[[p e] i]|] eqn:Hw; cbn [fmap option_fmap option_map mbind option_bind]; [|by unfold pte_ok].
  apply walk_entry in Hw as (He & H0 & _ & _).
  unfold pte_ok, found. cbn [fst snd]. rewrite <- He, Hm, Hx.
  unfold SSTATUS_MXR, SSTATUS_SUM, PTE_V, PTE_R, PTE_W, PTE_X, PTE_U.
  change 1 with (1 <<. 0) at 1. rewrite !nz_flag, !nz_land_bit by lia. fold (mxr v) (sum v). rewrite Hx, H0.
  unfold sv32_perm. destruct acc; cbn [access_bits]; unfold PTE_R, PTE_W, PTE_X; rewrite !nz_land_bit by lia; cbn -[Z.testbit].
  3: rewrite Hs by done.
  all: destruct (Z.testbit e 1), (Z.testbit e 2), (Z.testbit e 3), (Z.testbit e 4), (sum v); done.
Qed.

Lemma ppn_offset v va p e i : walk v va = Some (p, e, i) ->
  (let '(ppn, offset) := get_ppn_and_offset v (v.(v_mem).(mem_base) + p) (2 - Z.of_nat i) va in ppn |. offset)
  = u32 (sv32_pa va e i).
Proof.
  intros Hw. apply walk_entry in Hw as (-> & _ & Hi & Hal).
  unfold get_ppn_and_offset, shl32. set (e := load 4 _ _) in *. change (RV_PG_SHIFT mod 32) with 12.
  change (RV_PG_SHIFT - 2) with 10. rewrite !land_MASK by (unfold RV_PG_SHIFT; lia).
  rewrite Z.shiftr_div_pow2, Z.shiftl_mul_pow2 by lia. fold (e_ppn e). unfold sv32_pa, u32.
  change (2 ^ 10) with 1024 in *. change (2 ^ 12) with 4096.
  destruct i as [|[|i]]; [| |lia].
  - change (2 - Z.of_nat 0 =? 1) with false. cbn iota. change (2 ^ RV_PG_SHIFT) with 4096.
    change (2 ^ (12 + 10 * Z.of_nat 0)) with 4096. change (2 ^ (10 * Z.of_nat 0)) with 1. change (2 ^ 32) with 4294967296.
    rewrite (lor_add _ _ 12); change (2 ^ 12) with 4096; div_lia.
  - destruct Hal as [|Hal]; [done|]. change (2 - Z.of_nat 1 =? 1) with true. cbn iota.
    change (2 ^ (RV_PG_SHIFT + 10)) with 4194304.
    change (2 ^ (12 + 10 * Z.of_nat 1)) with 4194304. change (2 ^ (10 * Z.of_nat 1)) with 1024. change (2 ^ 32) with 4294967296.
    rewrite (lor_add _ _ 22); change (2 ^ 22) with 4194304; div_lia.
Qed.
End walk.

(** ** Translation *)

Section translate.
Context {H : Type} (on_trap : vm H -> vm H).
(** The trap handler leaves the size of memory alone. *)
Hypothesis trap_size : forall v, v_mem_size (on_trap v) = v_mem_size v.
Implicit Types v : vm H.

(** The machine that enters the handler for a fault of [acc] at [va]. *)
Definition faulted v (acc : access) (va : Z) : vm H :=
  set_rv (set_trapped v true) (set_csr_stval (set_csr_scause v.(v_rv) (page_fault acc)) va).

(** The leaf that an access uses and the machine it leaves: the walk's when
    the access is allowed; otherwise the handler runs, and unless it left a
    signal to deliver the access goes on with the leaf that is then there. *)
Definition sv32_access v (va : Z) (acc : access) : vm H * (option (Z * Z * nat) + unit) :=
  match sv32_find v va acc with
  | Some r => (v, inl (Some r))
  | None =>
      let v := CHECK_PENDING_SIGNAL (on_trap (faulted v acc va)) in
      if v.(need_handle_signal) then (v, inr tt) else (v, inl (walk v va))
  end.

Lemma find_pte_sv32 v va acc : 0 <= v.(v_mem_size) < 2 ^ 32 -> plain v acc ->
  find_pte on_trap v va (access_bits acc)
  = (let '(v', r) := sv32_access v va acc in
     (v', match r with inl o => inl (found v' <$> o) | inr u => inr u end)).
Proof using trap_size.
  intros Hs Hp. unfold find_pte, sv32_access, mmu_fault_check. rewrite mmu_walk_sv32, pte_ok_sv32 by done.
  destruct (sv32_find v va acc) as [r|] eqn:Hf.
  - unfold sv32_find in Hf. destruct (walk v va) as [r'|]; [|done]. cbn [mbind option_bind] in Hf.
    destruct (sv32_perm _ _ _ _ _); [|done]. by injection Hf as ->.
  - assert (Ht : set_cause_then_trap on_trap v (fault_cause (access_bits acc)) va = on_trap (faulted v acc va)).
    { unfold set_cause_then_trap, faulted, RV_PRIV_IS_U_OR_S_MODE. cbn [v_rv set_trapped]. destruct Hp as [-> _].
      by destruct acc. }
    rewrite Ht. set (v' := CHECK_PENDING_SIGNAL _). destruct (need_handle_signal v'); [done|].
    rewrite mmu_walk_sv32; [done|]. unfold v', CHECK_PENDING_SIGNAL, set_signal. cbn [v_mem_size]. by rewrite trap_size.
Qed.

Definition acc_of (rw : bool) : access := if rw then Load else Store.
Lemma acc_bits (rw : bool) : (if rw then PTE_R else PTE_W) = access_bits (acc_of rw).
Proof. by destruct rw. Qed.

Lemma access_leaf v va acc v' r : sv32_access v va acc = (v', inl (Some r)) -> walk v' va = Some r.
Proof using.
  unfold sv32_access. destruct (sv32_find v va acc) as [r0|] eqn:Hf.
  - intros [= <- <-]. unfold sv32_find in Hf. destruct (walk v va) as [r'|]; [|done]. cbn [mbind option_bind] in Hf.
    by destruct (sv32_perm _ _ _ _ _).
  - destruct (need_handle_signal _); [done|]. by intros [= <- ->].
Qed.

(** What [mmu_translate] computes. *)
Lemma translate_eq v va rw : 0 <= v.(v_mem_size) < 2 ^ 32 -> v.(v_rv).(csr_satp) <> 0 -> plain v (acc_of rw) ->
  mmu_translate on_trap v va rw
  = match sv32_access v va (acc_of rw) with
    | (v', inl (Some (_, e, i))) => Some (v', u32 (sv32_pa va e i))
    | (v', inl None) => None
    | (v', inr _) => Some (v', 0)
    end.
Proof using trap_size.
  intros Hs Hsatp Hp. unfold mmu_translate. rewrite (proj2 (Z.eqb_neq _ _)) by done.
  rewrite acc_bits, find_pte_sv32 by done.
  destruct (sv32_access _ _ _) as [v' [[[[p e] i]|]|[]]] eqn:Ha; [|done..].
  apply access_leaf in Ha. cbn [fmap option_fmap option_map found fst snd].
  rewrite <- (ppn_offset v' va p e i Ha). by destruct (get_ppn_and_offset _ _ _ _).
Qed.

End translate.

(** A machine of 64 pages: the root table in page 1, its entry 0 a table in
    page 2, whose entry 3 maps page 5 (read, write, execute).  The handler
    maps the next virtual page to page 6. *)
Definition paged : vm unit :=
  mk_vm (set_priv_mode (set_csr_satp (rv_zero 0) 0x80000001) RV_PRIV_S_MODE) false 0
    (mk_memory 0 0x40000 0x40000 0 0)
    (store 4 (store 4 (store 4 ∅ 0x1000 0x801) 0x200c 0x140f) 0x5010 0x12345678) 0x40000 0
    Plic.plic_new Uart.u8250_new tt [] 0 0x41 0x41 2 false false 64.
Definition demand (v : vm unit) : vm unit := set_trapped (set_vheap v (store 4 v.(v_heap) 0x2010 0x180f)) false.

