(* ===== verification/InterruptSpec.v ===== *)
(** * From the serial port to the trap handler

    Serial port, interrupt controller and hart composed as system.c and the
    main loop compose them: input that waits on the console becomes an
    external interrupt of the hart. *)

From Stdlib Require Import ZArith Lia Bool.
From stdpp Require Import base list numbers gmap.
From S2P Require Import Prelude Decode Riscv Exec Memory Devices PlicSpec Mmu.
Import Plic Uart.

Section interrupts.
Context {H : Type} (on_trap : vm H -> vm H) (con : console H).
Implicit Types v : vm H.

(** The port is polled in this turn of the loop and has input, its receive
    interrupt is enabled, and so are its line at the controller, whose gate is
    open, and external interrupts of the hart, in user or supervisor mode. *)
Record input_waits v : Prop := mk_input_waits {
  iw_turn : v.(peripheral_update_ctr) = 0;
  iw_input : v.(v_uart).(in_ready) = true \/ con.(poll_in) v.(v_host) = true;
  iw_ier : bit v.(v_uart).(ier) 0;
  iw_ie : bit v.(v_plic).(ie) 1;
  iw_gate : ~ bit v.(v_plic).(masked) 1;
  iw_plic : word v.(v_plic).(ip) /\ word v.(v_plic).(ie) /\ word v.(v_plic).(active);
  iw_sie : bit v.(v_rv).(csr_sie) 9 /\ 0 <= v.(v_rv).(csr_sie) < 2 ^ 10;
  iw_mode : v.(v_rv).(priv_mode) = 0 \/ (v.(v_rv).(priv_mode) = RV_PRIV_S_MODE /\ bit v.(v_rv).(csr_sstatus) 1)
}.

(** The serial port raises its line. *)
Lemma uart_line u : u.(in_ready) = true -> bit u.(ier) 0 ->
  nz (u8250_update_interrupts u).(pending_intrs) = true.
Proof.
  intros Hr Hi. apply nz_iff. intros E.
  assert (Hb : bit ((u.(pending_intrs) |. 1) &. u.(ier)) 0).
  { rewrite bit_and, bit_or. split; [by right|done]. }
  revert E Hb. unfold u8250_update_interrupts. rewrite Hr. set (x := _ &. _).
  destruct (nz x) eqn:Hx; cbn [pending_intrs set_current set_pending]; intros ->; unfold bit; by rewrite Z.testbit_0_l.
Qed.

(** The controller's line to the hart. *)
Lemma seip_set p rv p' rv' i : plic_update_interrupts p rv = (p', rv') -> 0 <= i < 32 ->
  bit p.(active) i -> ~ bit p.(masked) i -> bit p.(ie) i ->
  candidate p' i /\ bit rv'.(csr_sip) 9 /\ rv' = set_csr_sip rv rv'.(csr_sip).
Proof.
  unfold plic_update_interrupts. set (ip' := p.(ip) |. clear32 _ _). intros [= <- <-] Hi Ha Hm He.
  assert (Hip : bit ip' i) by (unfold ip'; rewrite bit_or, bit_clear by done; by right).
  assert (Hn : nz (ip' &. p.(ie)) = true).
  { apply nz_iff. intros E. assert (Hb : bit (ip' &. p.(ie)) i) by (by rewrite bit_and).
    rewrite E in Hb. unfold bit in Hb. by rewrite Z.testbit_0_l in Hb. }
  rewrite Hn. splits; [done| |done]. unfold set_csr_sip. cbn [csr_sip]. rewrite bit_or. by right.
Qed.

Lemma update_ready u : (u8250_update_interrupts u).(in_ready) = u.(in_ready).
Proof. unfold u8250_update_interrupts. by destruct (nz _). Qed.

Lemma poll_ok v : input_waits v ->
  candidate (poll_uart con v).(v_plic) 1 /\ bit (poll_uart con v).(v_rv).(csr_sip) 9
  /\ (poll_uart con v).(v_uart).(in_ready) = true
  /\ exists s, (poll_uart con v).(v_rv) = set_csr_sip v.(v_rv) s.
Proof.
  intros [Ht Hin Hier Hie Hg _ _ _]. unfold poll_uart. rewrite Ht. cbn [Z.eqb]. set (u := u8250_check_ready _ _ _).
  assert (Hu : u.(in_ready) = true /\ u.(ier) = v.(v_uart).(ier)).
  { unfold u, u8250_check_ready. cbn [v_uart v_host set_ctr]. destruct (in_ready (v_uart v)) eqn:Hr; [done|].
    destruct Hin as [|Hp]; [done|]. by rewrite Hp. }
  destruct Hu as [Hu1 Hu2]. cbn [v_uart set_uart]. rewrite Hu1.
  unfold emu_update_uart_interrupts. cbn [v_uart set_uart v_host].
  assert (Hl : nz (u8250_update_interrupts u).(pending_intrs) = true) by (apply uart_line; [done|by rewrite Hu2]).
  rewrite Hl. unfold update_plic. destruct (plic_update_interrupts _ _) as [p' rv'] eqn:Hup.
  cbn [v_plic v_rv v_uart set_rv set_plic].
  apply (seip_set _ _ _ _ 1) in Hup as (Hc & Hb & E).
  - splits; [done|done| |].
    + unfold drive. cbn [v_uart set_plic set_uart]. by rewrite update_ready.
    + exists rv'.(csr_sip). done.
  - lia.
  - unfold drive. cbn [v_plic set_plic active set_active]. rewrite bit_or. by right.
  - done.
  - done.
Qed.

Lemma highest_is x k : word x -> bit x k -> 0 <= k -> x < 2 ^ (k + 1) -> ilog2 x = k.
Proof.
  intros Hw Hb Hk Hx. assert (x <> 0) by (intros ->; unfold bit in Hb; by rewrite Z.testbit_0_l in Hb).
  destruct (ilog2_max x) as (Hr & Hm & Hmax); [done..|]. apply Hmax in Hb.
  destruct (Z.eq_dec (ilog2 x) k) as [|Hne]; [done|]. exfalso.
  unfold bit in Hm. rewrite (testbit_above x (k + 1)) in Hm; [done|lia|]. unfold word in Hw. lia.
Qed.

(** C21. Input reaches the hart: when a byte waits on the console in a turn
    of the loop that polls the serial port, and the interrupt is enabled at
    the port, at the controller and in the hart, the interrupt check enters
    the trap handler with the cause of a supervisor external interrupt; the
    handler then finds the byte announced by the port and its source pending
    at the controller, so that a claim answers it or a higher one. *)
Theorem input_interrupts v : input_waits v ->
  exists v', rv_check_interrupt on_trap con v = on_trap v'
    /\ v'.(is_trapped) = true
    /\ v'.(v_rv).(csr_scause) = SUPERVISOR_EXTERNAL_INTR /\ v'.(v_rv).(csr_stval) = 0
    /\ v'.(v_rv).(PC) = v.(v_rv).(PC)
    /\ v'.(v_uart).(in_ready) = true /\ candidate v'.(v_plic) 1.
Proof.
  intros W. destruct (poll_ok v W) as (Hc & Hb & Hr & s & Es). destruct W as [_ _ _ _ _ _ [Hs9 Hs] Hm].
  unfold rv_check_interrupt. set (v1 := poll_uart con v) in *.
  assert (H9 : bit (update_sti v1).(v_rv).(csr_sip) 9).
  { unfold update_sti, set_csr_sip. cbn [v_rv set_rv csr_sip]. destruct (_ <? _).
    - rewrite bit_or. by left.
    - rewrite bit_clear by lia. split; [done|]. by vm_compute. }
  assert (Ee : (update_sti v1).(v_rv) = set_csr_sip v.(v_rv) (update_sti v1).(v_rv).(csr_sip)).
  { unfold update_sti. cbn [v_rv set_rv]. by rewrite Es. }
  set (v2 := update_sti v1) in *. set (x := v2.(v_rv).(csr_sip) &. v2.(v_rv).(csr_sie)).
  assert (Esie : v2.(v_rv).(csr_sie) = v.(v_rv).(csr_sie)) by (by rewrite Ee).
  assert (Epm : v2.(v_rv).(priv_mode) = v.(v_rv).(priv_mode)) by (by rewrite Ee).
  assert (Ess : v2.(v_rv).(csr_sstatus) = v.(v_rv).(csr_sstatus)) by (by rewrite Ee).
  assert (Hx9 : bit x 9) by (unfold x; rewrite bit_and, Esie; done).
  assert (Hx : 0 <= x < 2 ^ 10).
  { unfold x. rewrite Esie, <- (Z.mod_small (csr_sie _) (2 ^ 10)) by lia.
    rewrite <- Z.land_ones, Z.land_assoc, Z.land_ones by lia. apply Z.mod_pos_bound. lia. }
  assert (Hn : nz x = true) by (apply nz_iff; intros E; rewrite E in Hx9; by vm_compute in Hx9).
  assert (Htrap : rv_has_plic_trap v2.(v_rv) = true).
  { unfold rv_has_plic_trap. fold x. rewrite Hn, andb_true_r, Epm, Ess. apply orb_true_iff.
    destruct Hm as [-> | [_ Hb1]]; [by right|]. left. unfold SSTATUS_SIE, SSTATUS_SIE_SHIFT. by rewrite nz_land_bit. }
  assert (Hi : ilog2 x = 9) by (apply highest_is; [unfold word; lia|done|lia|change (9 + 1) with 10; lia]).
  rewrite Htrap, Hi. cbn [negb].
  change (9 =? SUPERVISOR_SW_INTR &. 0xf) with false. change (9 =? SUPERVISOR_TIMER_INTR &. 0xf) with false.
  change (9 =? SUPERVISOR_EXTERNAL_INTR &. 0xf) with true. cbn iota.
  unfold set_cause_then_trap. cbn [v_rv set_trapped].
  assert (Hus : RV_PRIV_IS_U_OR_S_MODE v2.(v_rv) = true)
    by (unfold RV_PRIV_IS_U_OR_S_MODE; rewrite Epm; destruct Hm as [-> | [-> _]]; done).
  rewrite Hus. eexists. split; [reflexivity|]. cbn [is_trapped set_rv set_trapped v_rv v_uart v_plic].
  splits; try done. by rewrite Ee.
Qed.
End interrupts.

(** A machine in user mode with a console that always has input. *)
Definition waiting : vm unit :=
  mk_vm (set_csr_sie (rv_zero 0) 0x200) false 0 (mk_memory 0 0x40000 0x40000 0 0) ∅ 0x40000 (2 ^ 60 - 1)
    (mk_plic 0 0 2 0) (mk_uart 0 0 0 1 0 0 0 false) tt [] 0 0x41 0x41 2 false false 0.
Definition typing : console unit :=
  mk_console unit (fun _ => true) (fun h => (h, Some 97)) (fun h _ => h) (fun h => (h, 0)).

Lemma input_interrupts_witness :
  exists v', rv_check_interrupt (fun v => v) typing waiting = v'
    /\ v'.(v_rv).(csr_scause) = SUPERVISOR_EXTERNAL_INTR /\ candidate v'.(v_plic) 1.
Proof.
  destruct (input_interrupts (fun v => v) typing waiting) as (v' & E & _ & H1 & _ & _ & _ & H2).
  - constructor; try done; try (by vm_compute); try (by right); by left.
  - by exists v'.
Defined.
