(* ===== verification/Buffers.v ===== *)
(** * Buffers in guest memory

    What the bulk accesses of io.h ([memory_read], [memory_write],
    [memory_fill]) do to the host's bytes, for buffers that lie in one piece
    there; shared by the loader, the system calls and the start of a
    program. *)

From Stdlib Require Import ZArith Lia Bool.
From stdpp Require Import base list numbers gmap.
From S2P Require Import Prelude Decode Riscv Memory MemorySpec.

(** A buffer of the guest in one piece of the host's memory. *)
Definition one_piece (mem : memory_t) (a n : Z) : Prop :=
  0 <= a /\ 0 <= n /\ a + n < 2 ^ 32 /\ forall i, 0 <= i <= n -> host_addr mem (a + i) = host_addr mem a + i.

Lemma read_length mem h a n : 0 <= n -> Z.of_nat (length (memory_read mem h a n)) = n.
Proof. intros. unfold memory_read. rewrite length_fmap, length_seqZ. lia. Qed.

Lemma seqZ_split n m : 0 <= n <= m -> seqZ 0 m = seqZ 0 n ++ (Z.add n <$> seqZ 0 (m - n)).
Proof.
  intros. replace m with (n + (m - n)) at 1 by lia. rewrite seqZ_app by lia. f_equal.
  rewrite fmap_add_seqZ. f_equal. lia.
Qed.

Lemma read_split mem h a n m : one_piece mem a m -> 0 <= n <= m ->
  memory_read mem h a m = memory_read mem h a n ++ memory_read mem h (u32 (a + n)) (m - n).
Proof.
  intros (Ha & Hm & Hs & Hp) Hn. unfold memory_read. rewrite (seqZ_split n m) by lia.
  rewrite fmap_app, <- list_fmap_compose. f_equal. rewrite u32_small by lia. apply list_fmap_ext.
  intros i x Hx. cbn. rewrite Hp by lia. f_equal. lia.
Qed.

Lemma piece_tail mem a n k : one_piece mem a n -> 0 <= k <= n -> one_piece mem (u32 (a + k)) (n - k).
Proof.
  intros (Ha & Hn & Hs & Hp) Hk. rewrite u32_small by lia. split_and!; [lia..|]. intros i Hi.
  rewrite <- Z.add_assoc, !Hp by lia. lia.
Qed.

(** Below the high part of the address space every buffer is in one piece. *)
Lemma low_addr mem a : a < HIGH_MEM_OFFSET -> host_addr mem a = mem.(mem_base) + a.
Proof. intros Ha. unfold host_addr. by rewrite (proj2 (Z.ltb_lt _ _) Ha). Qed.
Lemma low_piece mem a n : 0 <= a -> 0 <= n -> a + n < HIGH_MEM_OFFSET -> one_piece mem a n.
Proof.
  intros Ha Hn Hl. split_and!; [done|done|unfold HIGH_MEM_OFFSET in Hl; lia|]. intros i Hi. rewrite !low_addr by lia. lia.
Qed.

(** The bytes that [memory_write] stores. *)
Lemma write_get mem h a data x :
  heap_get (fst (memory_write mem h a data)) x
  = if decide (host_addr mem a <= x < host_addr mem a + Z.of_nat (length data))
    then u8 (nth (Z.to_nat (x - host_addr mem a)) data 0) else heap_get h x.
Proof.
  unfold memory_write. cbn [fst]. set (p := host_addr mem a). clearbody p.
  induction data as [|d data IH] using rev_ind.
  - cbn [length seqZ zip zip_with fold_left]. rewrite decide_False by (cbn; lia). done.
  - rewrite length_app. cbn [length]. rewrite Nat.add_1_r, seqZ_S, zip_with_app by (rewrite length_seqZ; lia).
    rewrite fold_left_app. cbn [zip_with fold_left fst snd]. rewrite heap_get_insert, IH, Z.add_0_l.
    destruct (decide (p + Z.of_nat (length data) = x)) as [<-|Hne].
    + rewrite decide_True by lia. replace (p + Z.of_nat (length data) - p) with (Z.of_nat (length data)) by lia.
      rewrite Nat2Z.id, app_nth2, Nat.sub_diag by lia. done.
    + repeat destruct (decide _); try lia; try done. rewrite app_nth1 by lia. done.
Qed.

(** [h'] is [h] with [data] in the buffer at [a]. *)
Definition stored (mem : memory_t) (h : heap) (a : Z) (data : list Z) (h' : heap) : Prop :=
  forall x, heap_get h' x
  = if decide (host_addr mem a <= x < host_addr mem a + Z.of_nat (length data))
    then u8 (nth (Z.to_nat (x - host_addr mem a)) data 0) else heap_get h x.

Lemma stored_nil mem h a : stored mem h a [] h.
Proof. intros x. rewrite decide_False by (cbn; lia). done. Qed.

Lemma stored_app mem h a d1 d2 h1 h2 n : one_piece mem a n -> Z.of_nat (length (d1 ++ d2)) <= n ->
  stored mem h a d1 h1 -> stored mem h1 (u32 (a + Z.of_nat (length d1))) d2 h2 -> stored mem h a (d1 ++ d2) h2.
Proof.
  intros (Ha & Hn & Hs & Hp) Hl H1 H2 x. rewrite length_app in *. rewrite Nat2Z.inj_add in *.
  rewrite H2, u32_small, Hp by lia. set (p := host_addr mem a).
  repeat destruct (decide _); try lia; rewrite ?H1; fold p; repeat destruct (decide _); try lia; try done.
  - rewrite app_nth2 by lia. do 2 f_equal. lia.
  - rewrite app_nth1 by lia. done.
Qed.

(** [memory_write] and [memory_fill] as stores of a buffer. *)
Lemma write_stored mem h a data : stored mem h a data (fst (memory_write mem h a data)).
Proof. intros x. apply write_get. Qed.

Lemma fill_write mem h a n v : 0 <= n ->
  memory_fill mem h a n v = memory_write mem h a (replicate (Z.to_nat n) (u8 v)).
Proof.
  intros Hn. unfold memory_fill, memory_write. f_equal. rewrite length_replicate, Z2Nat.id by done.
  assert (Hs : length (seqZ 0 n) = Z.to_nat n) by apply length_seqZ. revert Hs. generalize (seqZ 0 n) (Z.to_nat n). clear.
  intros l. revert h. induction l as [|i l IH]; intros h k Hk; cbn in Hk; subst k; [done|].
  cbn [replicate zip_with fold_left fst snd length]. by apply IH.
Qed.
Lemma fill_stored mem h a n v : 0 <= n -> stored mem h a (replicate (Z.to_nat n) (u8 v)) (fst (memory_fill mem h a n v)).
Proof. intros. rewrite fill_write by done. apply write_stored. Qed.

(** A byte of the buffer. *)
Lemma stored_at mem h a data h' i : one_piece mem a (Z.of_nat (length data)) -> stored mem h a data h' ->
  0 <= i < Z.of_nat (length data) -> guest mem h' (a + i) = u8 (nth (Z.to_nat i) data 0).
Proof.
  intros (_ & _ & _ & Hp) Hs Hi. unfold guest. rewrite Hp, Hs, decide_True by lia. do 2 f_equal. lia.
Qed.

(** A second store over the end of the first. *)
Lemma stored_onto mem h a d1 junk d2 h1 h2 n : one_piece mem a n -> Z.of_nat (length (d1 ++ d2)) <= n ->
  (length junk <= length d2)%nat -> stored mem h a (d1 ++ junk) h1 ->
  stored mem h1 (u32 (a + Z.of_nat (length d1))) d2 h2 -> stored mem h a (d1 ++ d2) h2.
Proof.
  intros Hp Hl Hj H1 H2. apply (stored_app mem h a d1 d2 (fst (memory_write mem h a d1)) h2 n Hp Hl); [apply write_stored|].
  destruct Hp as (Ha & Hn & Hs & Hp). rewrite length_app, Nat2Z.inj_add in Hl. intros x. rewrite H2.
  rewrite u32_small, Hp by lia. destruct (decide _) as [|Hx]; [done|]. rewrite H1, write_get, length_app, Nat2Z.inj_add.
  repeat destruct (decide _); try lia. all: try done. by rewrite app_nth1 by lia.
Qed.

(** Reading a part of the buffer back. *)
Lemma stored_read mem h a data h' o n : one_piece mem a (Z.of_nat (length data)) -> stored mem h a data h' ->
  0 <= o -> 0 <= n -> o + n <= Z.of_nat (length data) ->
  memory_read mem h' (a + o) n = u8 <$> take (Z.to_nat n) (drop (Z.to_nat o) data).
Proof.
  intros (_ & _ & _ & Hp) Hs Ho Hn Hl. unfold memory_read. rewrite Hp by lia. apply list_eq. intros i.
  rewrite !list_lookup_fmap. destruct (decide (i < Z.to_nat n)%nat) as [Hi|Hi].
  - rewrite lookup_seqZ_lt, lookup_take_lt, lookup_drop by lia. cbn [fmap option_fmap option_map].
    rewrite Hs, decide_True by lia. rewrite nth_lookup.
    replace (Z.to_nat (host_addr mem a + o + (0 + Z.of_nat i) - host_addr mem a)) with (Z.to_nat o + i)%nat by lia.
    destruct (lookup_lt_is_Some_2 data (Z.to_nat o + i)) as [b ->]; [lia|]. done.
  - rewrite lookup_take_ge by lia. rewrite lookup_seqZ_ge by lia. done.
Qed.

(** A store elsewhere. *)
Lemma stored_other mem h a data h' b n : stored mem h a data h' ->
  host_addr mem b + n <= host_addr mem a \/ host_addr mem a + Z.of_nat (length data) <= host_addr mem b ->
  memory_read mem h' b n = memory_read mem h b n.
Proof.
  intros Hs Hd. unfold memory_read. apply list_fmap_ext. intros i x Hx. apply lookup_seqZ in Hx as [-> Hi].
  rewrite Hs, decide_False by lia. done.
Qed.

(** Words and their bytes. *)
Fixpoint of_bytes (l : list Z) : Z := match l with [] => 0 | b :: l => b + 256 * of_bytes l end.
Lemma load_read mem h a : memory_read_w mem h a = of_bytes (memory_read mem h a 4).
Proof.
  unfold memory_read_w, memory_read. change (seqZ 0 4) with [0; 1; 2; 3]. cbn [load fmap list_fmap of_bytes].
  set (p := host_addr mem a). rewrite (Z.add_0_r p). replace (p + 1 + 1) with (p + 2) by lia.
  replace (p + 2 + 1) with (p + 3) by lia. done.
Qed.
