(* ===== verification/MapClient.v ===== *)
(** * Maps as their clients see them

    The system calls (syscall.c), the symbol table (elf.c) and the debugger
    (breakpoint.c) keep integer-keyed maps of map.c.  [kv_ops] are the
    operations they use, each a short sequence of calls of map.h; [KvLaws] is
    what a client may rely on, stated on finite maps, and [map_kv_laws] shows
    that the red-black tree provides it.  The clients' theorems are proved
    against the class. *)

From Stdlib Require Import ZArith Lia Bool.
From stdpp Require Import base list numbers gmap.
From S2P Require Import Prelude Map MapTree MapFix MapSearch MapSpec MapRefine.

(** [None] is undefined behaviour.  [kv_find] is [map_find] with
    [map_at_end] and [map_iter_value]; [kv_erase] is [map_find] with
    [map_erase]. *)
Record kv_ops (S V : Type) : Type := mk_kv_ops {
  kv_find : S -> Z -> option (option V);
  kv_insert : S -> Z -> V -> option (S * bool);
  kv_erase : S -> Z -> option S;
  kv_clear : S -> option S;
  kv_empty : S -> bool
}.
Arguments kv_find {S V}. Arguments kv_insert {S V}. Arguments kv_erase {S V}.
Arguments kv_clear {S V}. Arguments kv_empty {S V}.

(** [norm] is the integer that a key stands for; keys of the finite map are
    such integers. *)
Class KvLaws {S V : Type} (ops : kv_ops S V) (norm : Z -> Z) : Type := {
  kv_holds : S -> gmap Z V -> Prop;
  kv_norm s g k : kv_holds s g -> is_Some (g !! k) -> norm k = k;
  kv_find_ok s g k : kv_holds s g -> kv_find ops s k = Some (g !! norm k);
  kv_insert_ok s g k v : kv_holds s g ->
    exists s' b, kv_insert ops s k v = Some (s', b) /\
      if b then g !! norm k = None /\ kv_holds s' (<[norm k := v]> g) else kv_holds s' g;
  kv_erase_ok s g k : kv_holds s g ->
    exists s', kv_erase ops s k = Some s' /\ kv_holds s' (delete (norm k) g);
  kv_clear_ok s g : kv_holds s g -> exists s', kv_clear ops s = Some s' /\ kv_holds s' ∅;
  kv_empty_ok s g : kv_holds s g -> kv_empty ops s = bool_decide (g = ∅)
}.
(** Memory does not run out: insertion fails only for a key that is there. *)
Class KvTotal {S V : Type} (ops : kv_ops S V) (norm : Z -> Z) `{L : KvLaws S V ops norm} : Prop :=
  kv_insert_new s g k v : kv_holds s g -> g !! norm k = None -> exists s', kv_insert ops s k v = Some (s', true).

(** ** The red-black tree *)

Section tree.
Context {V : Type} (vzero : V) (malloc : Z -> store Z V -> option Z) (cmp : Z -> Z -> map_cmp_t) (norm : Z -> Z).
Context (Hmalloc : MallocOk malloc) (Hcmp : CmpOk cmp).
Context (norm_cmp : forall x y, cmp x y = MAP_CMP_EQUAL <-> norm x = norm y).
Context (norm_norm : forall x, norm (norm x) = norm x).

(** A map and the store of its nodes. *)
Definition map_state : Type := option (map_internal Z) * store Z V.

Definition tree_find (s : map_state) (k : Z) : option (option V) :=
  match code_op 0 vzero malloc s.1 (Lookup k) s.2 with
  | Some ((_, Found v), _) => Some v
  | _ => None
  end.
Definition tree_insert (s : map_state) (k : Z) (v : V) : option (map_state * bool) :=
  match code_op 0 vzero malloc s.1 (Insert k v) s.2 with
  | Some ((m, Flag b), h) => Some ((m, h), b)
  | _ => None
  end.
Definition tree_erase (s : map_state) (k : Z) : option map_state :=
  match code_op 0 vzero malloc s.1 (Erase k) s.2 with Some ((m, _), h) => Some (m, h) | None => None end.
Definition tree_clear (s : map_state) : option map_state :=
  match code_op 0 vzero malloc s.1 Clear s.2 with Some ((m, _), h) => Some (m, h) | None => None end.
Definition map_kv : kv_ops map_state V :=
  mk_kv_ops _ _ tree_find tree_insert tree_erase tree_clear (fun s => map_empty s.1).

Definition tree_holds (s : map_state) (g : gmap Z V) : Prop :=
  exists m l t, s.1 = Some m /\ m.(comparator) = cmp /\ repr s.2 m l t /\
    (forall k, g !! norm k = al_lookup cmp k l.*2) /\ (forall k, is_Some (g !! k) -> norm k = k).

Lemma same_norm k (e : Z * V) : same cmp k e = bool_decide (norm k = norm e.1).
Proof using norm_cmp.
  unfold same. destruct (cmp k e.1) eqn:E.
  2: by rewrite bool_decide_true by (by apply norm_cmp).
  all: rewrite bool_decide_false; [done|]; rewrite <- norm_cmp, E; done.
Qed.

Lemma lookup_insert_al k k' v (s : list (Z * V)) : existsb (same cmp k) s = false ->
  al_lookup cmp k' (al_insert cmp k v s) = if bool_decide (norm k' = norm k) then Some v else al_lookup cmp k' s.
Proof using norm_cmp.
  unfold al_lookup. induction s as [|e s IH]; cbn [existsb al_insert List.find].
  - intros _. rewrite same_norm. cbn [fst]. by case_bool_decide.
  - intros [He Hs]%orb_false_iff. rewrite same_norm in He. apply bool_decide_eq_false in He.
    destruct (cmp k e.1) eqn:E; cbn [List.find]; rewrite ?same_norm; cbn [fst]; [by case_bool_decide| |].
    all: repeat case_bool_decide; try congruence; try done; rewrite IH by done; repeat case_bool_decide; done || congruence.
Qed.

Lemma lookup_delete_al k k' (s : list (Z * V)) :
  al_lookup cmp k' (al_delete cmp k s) = if bool_decide (norm k' = norm k) then None else al_lookup cmp k' s.
Proof using norm_cmp.
  unfold al_lookup, al_delete. induction s as [|e s IH]; cbn [List.find List.filter].
  - by case_bool_decide.
  - rewrite same_norm. repeat case_bool_decide; cbn [negb List.find]; rewrite ?same_norm;
      repeat case_bool_decide; try done; try congruence.
Qed.

Lemma lookup_present k (s : list (Z * V)) : existsb (same cmp k) s = true <-> is_Some (al_lookup cmp k s).
Proof using.
  unfold al_lookup. induction s as [|e s IH]; cbn [existsb List.find].
  - split; [done|]. by intros [].
  - destruct (same cmp k e); cbn [orb]; [|done]. split; [|done]. eauto.
Qed.

(** The finite map after an insertion. *)
Lemma holds_insert (g : gmap Z V) k v (s : list (Z * V)) : existsb (same cmp k) s = false ->
  (forall k, g !! norm k = al_lookup cmp k s) -> (forall k, is_Some (g !! k) -> norm k = k) ->
  (forall k', <[norm k := v]> g !! norm k' = al_lookup cmp k' (al_insert cmp k v s)) /\
  (forall k', is_Some (<[norm k := v]> g !! k') -> norm k' = k').
Proof using norm_cmp norm_norm.
  intros He Hg Hn. split; intros k'.
  - rewrite lookup_insert_al by done. case_bool_decide as E; [by rewrite E, lookup_insert_eq|].
    by rewrite lookup_insert_ne.
  - destruct (decide (norm k = k')) as [<-|Hne]; [by rewrite norm_norm|]. rewrite lookup_insert_ne by done. apply Hn.
Qed.

#[export] Program Instance map_kv_laws : KvLaws map_kv norm := { kv_holds := tree_holds }.
Next Obligation. intros s g k (m & l & t & _ & _ & _ & _ & Hn). by apply Hn. Qed.
Next Obligation.
  intros [sm h] g k (m & l & t & Em & Ec & Hre & Hg & _). cbn [fst snd] in *. subst sm.
  destruct (code_op_ok 0 vzero malloc Hmalloc h m l t (Lookup k)) as (r & h' & m' & l' & t' & E & _ & _ & Hs);
    [by rewrite Ec|done|]. cbn [kv_find map_kv]. unfold tree_find. cbn [fst snd]. rewrite E. cbn [spec_op] in Hs.
  injection Hs as -> _. by rewrite Hg, Ec.
Qed.
Next Obligation.
  intros [sm h] g k v (m & l & t & Em & Ec & Hre & Hg & Hn). cbn [fst snd] in *. subst sm.
  destruct (code_op_ok 0 vzero malloc Hmalloc h m l t (Insert k v)) as (r & h' & m' & l' & t' & E & Hre' & (Hc & _) & Hs);
    [by rewrite Ec|done|]. cbn [kv_insert map_kv]. unfold tree_insert. cbn [fst snd]. rewrite E. cbn [spec_op] in Hs.
  rewrite Ec in Hs. destruct (existsb (same cmp k) l.*2) eqn:Hex.
  - injection Hs as -> Hl. exists (Some m', h'), false. split; [done|].
    exists m', l', t'. rewrite Hl. by rewrite Hc.
  - destruct (bool_decide _); injection Hs as -> Hl.
    + exists (Some m', h'), true. split; [done|]. destruct (holds_insert g k v l.*2 Hex Hg Hn) as [H1 H2]. split.
      * rewrite Hg. destruct (al_lookup cmp k l.*2) eqn:Ea; [|done].
        assert (existsb (same cmp k) l.*2 = true) by (apply lookup_present; by rewrite Ea). congruence.
      * exists m', l', t'. rewrite Hl. by rewrite Hc.
    + exists (Some m', h'), false. split; [done|]. exists m', l', t'. rewrite Hl. by rewrite Hc.
Qed.
Next Obligation.
  intros [sm h] g k (m & l & t & Em & Ec & Hre & Hg & Hn). cbn [fst snd] in *. subst sm.
  destruct (code_op_ok 0 vzero malloc Hmalloc h m l t (Erase k)) as (r & h' & m' & l' & t' & E & Hre' & (Hc & _) & Hs);
    [by rewrite Ec|done|]. cbn [kv_erase map_kv]. unfold tree_erase. cbn [fst snd]. rewrite E. cbn [spec_op] in Hs.
  injection Hs as _ Hl. rewrite Ec in Hl. exists (Some m', h'). split; [done|]. exists m', l', t'.
  split_and!; [done|by rewrite Hc|done| |].
  - intros k'. rewrite Hl, lookup_delete_al. case_bool_decide as Ek; [by rewrite Ek, lookup_delete_eq|].
    by rewrite lookup_delete_ne.
  - intros k' [x Hx]. apply Hn. apply lookup_delete_Some in Hx as [_ Hx]. by eexists.
Qed.
Next Obligation.
  intros [sm h] g (m & l & t & Em & Ec & Hre & Hg & Hn). cbn [fst snd] in *. subst sm.
  destruct (code_op_ok 0 vzero malloc Hmalloc h m l t Clear) as (r & h' & m' & l' & t' & E & Hre' & (Hc & _) & Hs);
    [by rewrite Ec|done|]. cbn [kv_clear map_kv]. unfold tree_clear. cbn [fst snd]. rewrite E. cbn [spec_op] in Hs.
  injection Hs as _ Hl. exists (Some m', h'). split; [done|]. exists m', l', t'.
  split_and!; [done|by rewrite Hc|done| |].
  - intros k'. by rewrite Hl, lookup_empty.
  - intros k' [x Hx]. by rewrite lookup_empty in Hx.
Qed.
Next Obligation.
  intros [sm h] g (m & l & t & Em & Ec & Hre & Hg & Hn). cbn [fst snd] in *. subst sm.
  cbn [kv_empty map_kv map_empty fst]. rewrite <- (re_root _ _ _ _ Hre). pose proof (re_nodes _ _ _ _ Hre) as Hl.
  destruct t as [|c tl a k v tr]; cbn [ptr].
  - cbn [nodes] in Hl. subst l. rewrite bool_decide_true; [done|]. apply map_eq. intros i.
    rewrite lookup_empty. destruct (g !! i) as [x|] eqn:Hi; [|done]. rewrite <- (Hn i), Hg in Hi by eauto. done.
  - destruct (re_rep _ _ _ _ Hre) as (Hgd & _). rewrite (proj2 (Z.eqb_neq _ _)) by (destruct Hgd; lia).
    rewrite bool_decide_false; [done|]. intros ->. specialize (Hg k). rewrite lookup_empty in Hg.
    assert (Hin : (k, v) ∈ l.*2).
    { apply list_elem_of_fmap. exists (a, (k, v)). split; [done|]. rewrite <- Hl. cbn [nodes].
      apply elem_of_app. right. by left. }
    assert (existsb (same cmp k) l.*2 = true) as Hex.
    { apply existsb_exists. exists (k, v). split; [by apply list_elem_of_In|]. rewrite same_norm. by apply bool_decide_true. }
    apply lookup_present in Hex. rewrite <- Hg in Hex. by destruct Hex.
Qed.

(** A new map. *)
Lemma map_kv_new ks ds m : 0 <= ks < 2 ^ 64 -> 0 <= ds < 2 ^ 64 -> map_new true ks ds (Some cmp) = Some m ->
  kv_holds (Some m, ∅) ∅.
Proof.
  intros Hk Hd Hm. destruct (map_new_ok (V := V) ks ds cmp m Hk Hd Hm) as [Hre Ec].
  exists m, [], E. split_and!; try done. intros k [x Hx]. by rewrite lookup_empty in Hx.
Qed.
End tree.

(** ** Maps with integer keys *)

Lemma cmp_of_equal a b : map_cmp_of (b2z (b <? a) - b2z (a <? b)) = MAP_CMP_EQUAL <-> a = b.
Proof. unfold map_cmp_of. destruct (Z.ltb_spec b a), (Z.ltb_spec a b); cbn; split; done || lia. Qed.
Lemma cmp_int_norm x y : map_cmp_int x y = MAP_CMP_EQUAL <-> s32 x = s32 y.
Proof. apply cmp_of_equal. Qed.
Lemma cmp_uint_norm x y : map_cmp_uint x y = MAP_CMP_EQUAL <-> u32 x = u32 y.
Proof. apply cmp_of_equal. Qed.
Lemma s32_idemp x : s32 (s32 x) = s32 x.
Proof. apply s32_small, s32_range. Qed.

(** [map_init(int, V, map_cmp_int)] and the same with [map_cmp_uint]. *)
Definition int_kv_laws {V} (vzero : V) malloc (Hm : MallocOk malloc) : KvLaws (map_kv vzero malloc) s32 :=
  map_kv_laws vzero malloc map_cmp_int s32 Hm _ cmp_int_norm s32_idemp.
Definition uint_kv_laws {V} (vzero : V) malloc (Hm : MallocOk malloc) : KvLaws (map_kv vzero malloc) u32 :=
  map_kv_laws vzero malloc map_cmp_uint u32 Hm _ cmp_uint_norm u32_idemp.

(** Descriptors with the allocator of MapRefine.v, as the witnesses use them. *)
#[export] Instance bump_int_laws {V} (vzero : V) : KvLaws (map_kv vzero bump) s32 := int_kv_laws vzero bump bump_ok.
Definition int_map : map_state (V := Z) := (map_new true 4 8 (Some map_cmp_int), ∅).
Lemma int_map_holds : kv_holds (ops := map_kv 0 bump) (norm := s32) int_map ∅.
Proof.
  unfold int_map. destruct (map_new true 4 8 (Some map_cmp_int)) as [m|] eqn:E; [|done].
  by apply (map_kv_new 0 bump map_cmp_int s32 bump_ok _ cmp_int_norm s32_idemp 4 8 m); [lia|lia|exact E].
Qed.

(** ** Finite maps themselves

    The interface without allocation: what a client of [KvTotal] assumes, that
    memory does not run out, can hold. *)
Section reference.
Context {V : Type} (norm : Z -> Z) (norm_norm : forall x, norm (norm x) = norm x).

Definition gmap_kv : kv_ops (gmap Z V) V :=
  mk_kv_ops _ _ (fun g k => Some (g !! norm k))
    (fun g k v => match g !! norm k with Some _ => Some (g, false) | None => Some (<[norm k := v]> g, true) end)
    (fun g k => Some (delete (norm k) g)) (fun _ => Some ∅) (fun g => bool_decide (map_to_list g = [])).

#[export] Program Instance gmap_kv_laws : KvLaws gmap_kv norm :=
  { kv_holds s g := s = g /\ forall k, is_Some (g !! k) -> norm k = k }.
Next Obligation. intros s g k [_ Hn]. apply Hn. Qed.
Next Obligation. by intros s g k [-> _]. Qed.
Next Obligation.
  intros s g k v [-> Hn]. cbn [kv_insert gmap_kv]. destruct (g !! norm k) eqn:E; eexists _, _; (split; [done|]); [done|].
  cbn iota. split; [done|]. split; [done|]. intros k'. destruct (decide (norm k = k')) as [<-|]; [done|].
  rewrite lookup_insert_ne by done. apply Hn.
Qed.
Next Obligation.
  intros s g k [-> Hn]. eexists. split; [done|]. split; [done|]. intros k' [x Hx].
  apply lookup_delete_Some in Hx as [_ Hx]. apply Hn. by eexists.
Qed.
Next Obligation. intros s g [-> _]. eexists. split; [done|]. split; [done|]. intros k [x Hx]. by rewrite lookup_empty in Hx. Qed.
Next Obligation. intros s g [-> _]. cbn [kv_empty gmap_kv]. apply bool_decide_ext. apply map_to_list_empty_iff. Qed.

#[export] Instance gmap_kv_total : KvTotal gmap_kv norm.
Proof. intros s g k v [-> _] Hk. cbn [kv_insert gmap_kv]. rewrite Hk. by eexists. Qed.
End reference.
