(* ===== verification/Syscall.v ===== *)
(** * System calls (src/rv32emu/src/syscall.c)

    The newlib system calls and the SBI calls.  [sys] is what the handlers
    reach: the hart, the guest's memory, the fields of [vm_attr_t] that they
    use, and the host.  The file descriptors are a map of map.c, through the
    interface of MapClient.v; the C library's streams are the record [stdio],
    with a [FILE *] as a number.  [None] is a failed assertion or undefined
    behaviour.

    The SDL calls are the argument [sdl_call]. *)

From Stdlib Require Import ZArith Lia Bool String.
From stdpp Require Import base list numbers gmap strings.
From S2P Require Import Prelude Decode Riscv Memory MapClient.

Definition PREALLOC_SIZE : Z := 4096.
Definition O_RDONLY : Z := 0.
Definition O_WRONLY : Z := 1.
Definition O_RDWR : Z := 2.
Definition O_ACCMODE : Z := 3.
Definition CLOCK_REALTIME : Z := 0.
Definition CLOCK_MONOTONIC : Z := 1.
Definition rv_reg_a6 : Z := 16.
Definition rv_reg_a7 : Z := 17.

Definition SYS_close : Z := 57.
Definition SYS_lseek : Z := 62.
Definition SYS_read : Z := 63.
Definition SYS_write : Z := 64.
Definition SYS_fstat : Z := 80.
Definition SYS_exit : Z := 93.
Definition SYS_gettimeofday : Z := 169.
Definition SYS_brk : Z := 214.
Definition SYS_clock_gettime : Z := 403.
Definition SYS_open : Z := 1024.
Definition SYS_sbi_base : Z := 0x10.
Definition SYS_sbi_timer : Z := 0x54494d45.
Definition SYS_sbi_rst : Z := 0x53525354.

Definition SBI_SUCCESS : Z := 0.
Definition SBI_ERR_NOT_SUPPORTED : Z := -2.
Definition SBI_IMPL_ID : Z := 0x999.
Definition SBI_IMPL_VERSION : Z := 1.

(** The C library.  [fread] gives the bytes that were read and [fwrite] how
    many were written; [fseek] and [fclose] tell whether they failed. *)
Record stdio (H : Type) : Type := mk_stdio {
  fopen : H -> list Z -> string -> H * option Z;
  fclose : H -> Z -> H * bool;
  fread : H -> Z -> Z -> H * list Z;
  fwrite : H -> Z -> list Z -> H * Z;
  fseek : H -> Z -> Z -> Z -> H * bool;
  ftell : H -> Z -> Z;
  ferror : H -> Z -> bool;
  get_time_info : H -> H * (Z * Z);
  malloc_name : H -> bool
}.
Arguments fopen {H}. Arguments fclose {H}. Arguments fread {H}. Arguments fwrite {H}. Arguments fseek {H}.
Arguments ftell {H}. Arguments ferror {H}. Arguments get_time_info {H}. Arguments malloc_name {H}.

Record sys (F H : Type) : Type := mk_sys {
  s_rv : riscv; s_mem : memory_t; s_heap : heap; fd_map : F; s_host : H;
  break_addr : Z; exit_code : Z; error : Z; on_exit : bool; s_timer : Z
}.
Arguments mk_sys {F H}. Arguments s_rv {F H}. Arguments s_mem {F H}. Arguments s_heap {F H}. Arguments fd_map {F H}.
Arguments s_host {F H}. Arguments break_addr {F H}. Arguments exit_code {F H}. Arguments error {F H}.
Arguments on_exit {F H}. Arguments s_timer {F H}.

Section syscalls.
Context {F H : Type} (fds : kv_ops F Z) (lib : stdio H).
Notation sys := (sys F H).
Implicit Types s : sys.

Definition set_srv s x : sys := mk_sys x s.(s_mem) s.(s_heap) s.(fd_map) s.(s_host) s.(break_addr) s.(exit_code) s.(error) s.(on_exit) s.(s_timer).
Definition set_sheap s x : sys := mk_sys s.(s_rv) s.(s_mem) x s.(fd_map) s.(s_host) s.(break_addr) s.(exit_code) s.(error) s.(on_exit) s.(s_timer).
Definition set_fds s x : sys := mk_sys s.(s_rv) s.(s_mem) s.(s_heap) x s.(s_host) s.(break_addr) s.(exit_code) s.(error) s.(on_exit) s.(s_timer).
Definition set_host s x : sys := mk_sys s.(s_rv) s.(s_mem) s.(s_heap) s.(fd_map) x s.(break_addr) s.(exit_code) s.(error) s.(on_exit) s.(s_timer).
Definition set_break s x : sys := mk_sys s.(s_rv) s.(s_mem) s.(s_heap) s.(fd_map) s.(s_host) x s.(exit_code) s.(error) s.(on_exit) s.(s_timer).
Definition set_exit_code s x : sys := mk_sys s.(s_rv) s.(s_mem) s.(s_heap) s.(fd_map) s.(s_host) s.(break_addr) x s.(error) s.(on_exit) s.(s_timer).
Definition set_error s x : sys := mk_sys s.(s_rv) s.(s_mem) s.(s_heap) s.(fd_map) s.(s_host) s.(break_addr) s.(exit_code) x s.(on_exit) s.(s_timer).
Definition set_stimer s x : sys := mk_sys s.(s_rv) s.(s_mem) s.(s_heap) s.(fd_map) s.(s_host) s.(break_addr) s.(exit_code) s.(error) s.(on_exit) x.

Definition reg s (r : Z) : Z := rv_get_reg s.(s_rv) r.
Definition set_reg s (r v : Z) : sys := set_srv s (rv_set_reg s.(s_rv) r (u32 v)).
(** The call's result. *)
Definition ret s (v : Z) : option sys := Some (set_reg s rv_reg_a0 v).

(** ** Files *)

(** The search for a free descriptor has no bound in the source. *)
Fixpoint find_free_fd (fuel : nat) (m : F) (i : Z) : option Z :=
  match fuel with
  | O => None
  | S fuel =>
      match kv_find fds m i with
      | None => None
      | Some None => Some i
      | Some (Some _) => find_free_fd fuel m (i + 1)
      end
  end.

Definition get_mode_str (flags : Z) : option string :=
  let acc := flags &. O_ACCMODE in
  if acc =? O_RDONLY then Some "rb"%string
  else if acc =? O_WRONLY then Some "wb"%string
  else if acc =? O_RDWR then Some "a+"%string
  else None.

(** The loop of [syscall_write]: the bytes written so far and the count that
    is left, or [inr] for the jump to the error exit.  [count / PREALLOC_SIZE]
    turns are enough. *)
Fixpoint write_loop (fuel : nat) s (handle buffer total count : Z) : option (sys * (Z * Z + unit)) :=
  if count <=? PREALLOC_SIZE then Some (s, inl (total, count)) else
  match fuel with
  | O => None
  | S fuel =>
      let tmp := memory_read s.(s_mem) s.(s_heap) (u32 (buffer + total)) PREALLOC_SIZE in
      let '(h, written) := lib.(fwrite) s.(s_host) handle tmp in
      let s := set_host s h in
      if negb (written =? PREALLOC_SIZE) && lib.(ferror) h handle then Some (s, inr tt)
      else write_loop fuel s handle buffer (u32 (total + written)) (u32 (count - PREALLOC_SIZE))
  end.

Definition syscall_write s : option sys :=
  let fd := reg s rv_reg_a0 in
  let buffer := reg s rv_reg_a1 in
  let count := reg s rv_reg_a2 in
  match kv_find fds s.(fd_map) fd with
  | None => None
  | Some None => ret s (-1)
  | Some (Some handle) =>
      match write_loop (Z.to_nat (count / PREALLOC_SIZE)) s handle buffer 0 count with
      | None => None
      | Some (s, inr _) => ret s (-1)
      | Some (s, inl (total, count)) =>
          let tmp := memory_read s.(s_mem) s.(s_heap) (u32 (buffer + total)) count in
          let '(h, written) := lib.(fwrite) s.(s_host) handle tmp in
          let s := set_host s h in
          if negb (written =? count) && lib.(ferror) h handle then ret s (-1) else
          let total := u32 (total + written) in
          if total =? reg s rv_reg_a2 then ret s total else None
      end
  end.

(** One [fread] into the buffer [tmp] and its copy to the guest: the state and
    how much was read; [None] when the stream gives more than [tmp] holds. *)
Definition read_chunk s (handle buf total count : Z) : option (sys * Z) :=
  let '(h, data) := lib.(fread) s.(s_host) handle count in
  let r := Z.of_nat (length data) in
  if PREALLOC_SIZE <? r then None else
  Some (set_sheap (set_host s h) (fst (memory_write s.(s_mem) s.(s_heap) (u32 (buf + total)) data)), r).
Fixpoint read_loop (fuel : nat) s (handle buf total count : Z) : option (sys * Z * Z) :=
  if count <=? PREALLOC_SIZE then Some (s, total, count) else
  match fuel with
  | O => None
  | S fuel =>
      match read_chunk s handle buf total PREALLOC_SIZE with
      | None => None
      | Some (s, r) =>
          let count := u32 (count - r) in
          let total := u32 (total + r) in
          if r =? PREALLOC_SIZE then read_loop fuel s handle buf total count else Some (s, total, count)
      end
  end.
Definition syscall_read s : option sys :=
  let fd := reg s rv_reg_a0 in
  let buf := reg s rv_reg_a1 in
  let count := reg s rv_reg_a2 in
  match kv_find fds s.(fd_map) fd with
  | None => None
  | Some None => ret s (-1)
  | Some (Some handle) =>
      match read_loop (Z.to_nat (count / PREALLOC_SIZE)) s handle buf 0 count with
      | None => None
      | Some (s, total, count) =>
          match read_chunk s handle buf total count with
          | None => None
          | Some (s, r) =>
              let total := u32 (total + r) in
              if negb (total =? reg s rv_reg_a2) && lib.(ferror) s.(s_host) handle then ret s (-1) else ret s total
          end
      end
  end.

Definition syscall_close s : option sys :=
  let fd := reg s rv_reg_a0 in
  if (fd <? 3) && negb s.(on_exit) then ret s (-1)
  else if 3 <=? fd then
    match kv_find fds s.(fd_map) fd with
    | None => None
    | Some None => ret s 0
    | Some (Some handle) =>
        let '(h, failed) := lib.(fclose) s.(s_host) handle in
        let s := set_host s h in
        if (failed : bool) then ret s (-1) else
        match kv_erase fds s.(fd_map) fd with
        | None => None
        | Some m => ret (set_fds s m) 0
        end
    end
  else ret s 0.

(** The offset is unsigned when it is widened to [long]. *)
Definition syscall_lseek s : option sys :=
  let fd := reg s rv_reg_a0 in
  let offset := reg s rv_reg_a1 in
  let whence := reg s rv_reg_a2 in
  match kv_find fds s.(fd_map) fd with
  | None => None
  | Some None => ret s (-1)
  | Some (Some handle) =>
      let '(h, failed) := lib.(fseek) s.(s_host) handle offset (s32 whence) in
      let s := set_host s h in
      if (failed : bool) then ret s (-1) else
      let pos := lib.(ftell) h handle in
      if pos =? -1 then ret s (-1) else ret s pos
  end.

Definition syscall_fstat s : option sys := Some s.

(** [strnlen] of the host string at [a], at most [n]. *)
Fixpoint strnlen (h : heap) (a : Z) (n : nat) : Z :=
  match n with
  | O => 0
  | S n => if heap_get h a =? 0 then 0 else 1 + strnlen h (a + 1) n
  end.

Definition syscall_open (fuel : nat) s : option sys :=
  let name := reg s rv_reg_a0 in
  let flags := reg s rv_reg_a1 in
  if s.(s_mem).(mem_size) <=? name then ret s (-1) else
  let max_len := u64 (s.(s_mem).(mem_size) - name) in
  let name_len := strnlen s.(s_heap) (s.(s_mem).(mem_base) + name) (Z.to_nat max_len) in
  if name_len =? max_len then ret s (-1) else
  if negb (lib.(malloc_name) s.(s_host)) then ret s (-1) else
  let name_str := memory_read s.(s_mem) s.(s_heap) name name_len in
  match get_mode_str flags with
  | None => ret s (-1)
  | Some mode_str =>
      let '(h, handle) := lib.(fopen) s.(s_host) name_str mode_str in
      let s := set_host s h in
      match handle with
      | None => ret s (-1)
      | Some handle =>
          match find_free_fd fuel s.(fd_map) 3 with
          | None => None
          | Some fd =>
              match kv_insert fds s.(fd_map) fd handle with
              | None => None
              | Some (m, _) => ret (set_fds s m) fd
              end
          end
      end
  end.

(** ** Process *)

Definition syscall_exit s : option sys :=
  let s := set_srv s (rv_halt s.(s_rv)) in
  Some (set_exit_code s (s32 (reg s rv_reg_a0))).

Definition syscall_brk s : option sys :=
  let increment := reg s rv_reg_a0 in
  let s := if nz increment then set_break s increment else s in
  ret s s.(break_addr).

(** Two words of the time structure of the guest, at its start and eight
    bytes further. *)
Definition put_time s (p a b : Z) : sys :=
  let h := memory_write_w s.(s_mem) s.(s_heap) (u32 (p + 0)) (u32 a) in
  set_sheap s (memory_write_w s.(s_mem) h (u32 (p + 8)) (u32 b)).
Definition syscall_gettimeofday s : option sys :=
  let tv := reg s rv_reg_a0 in
  let s := if nz tv then
      let '(h, (sec, nsec)) := lib.(get_time_info) s.(s_host) in
      put_time (set_host s h) tv sec (Z.quot nsec 1000)
    else s in
  ret s 0.
Definition syscall_clock_gettime s : option sys :=
  let id := reg s rv_reg_a0 in
  let tp := reg s rv_reg_a1 in
  if negb ((id =? CLOCK_REALTIME) || (id =? CLOCK_MONOTONIC)) then ret s (-1) else
  let s := if nz tp then
      let '(h, (sec, nsec)) := lib.(get_time_info) s.(s_host) in
      put_time (set_host s h) tp sec nsec
    else s in
  ret s 0.

(** ** SBI *)

Definition sbi_ret s (err v : Z) : option sys := Some (set_reg (set_reg s rv_reg_a0 err) rv_reg_a1 v).

Definition syscall_sbi_timer s : option sys :=
  let fid := reg s rv_reg_a6 in
  let a0 := reg s rv_reg_a0 in
  let a1 := reg s rv_reg_a1 in
  if fid =? 0 then sbi_ret (set_stimer s (u64 (a1 <<. 32) |. a0)) SBI_SUCCESS 0
  else sbi_ret s SBI_ERR_NOT_SUPPORTED 0.

Definition syscall_sbi_base s : option sys :=
  let fid := reg s rv_reg_a6 in
  match fid with
  | 1 => sbi_ret s SBI_SUCCESS SBI_IMPL_ID
  | 2 => sbi_ret s SBI_SUCCESS SBI_IMPL_VERSION
  | 4 => sbi_ret s SBI_SUCCESS s.(s_rv).(csr_mvendorid)
  | 5 => sbi_ret s SBI_SUCCESS s.(s_rv).(csr_marchid)
  | 6 => sbi_ret s SBI_SUCCESS s.(s_rv).(csr_mimpid)
  | 0 => sbi_ret s SBI_SUCCESS 3
  | 3 =>
      let eid := reg s rv_reg_a0 in
      let available := (eid =? SYS_sbi_base) || (eid =? SYS_sbi_timer) || (eid =? SYS_sbi_rst) in
      sbi_ret s SBI_SUCCESS (b2z available)
  | _ => sbi_ret s SBI_ERR_NOT_SUPPORTED 0
  end.

Definition syscall_sbi_rst s : option sys :=
  let fid := reg s rv_reg_a6 in
  if fid =? 0 then sbi_ret (set_srv s (rv_halt s.(s_rv))) SBI_SUCCESS 0
  else sbi_ret s SBI_ERR_NOT_SUPPORTED 0.

(** ** The dispatcher

    [system] chooses the build with the SBI calls.  An unknown number is only
    reported. *)
Definition syscall_handler (fuel : nat) (system : bool) (sdl_call : Z -> sys -> option sys) s : option sys :=
  let syscall := reg s rv_reg_a7 in
  let call :=
    if syscall =? SYS_close then syscall_close s
    else if syscall =? SYS_lseek then syscall_lseek s
    else if syscall =? SYS_read then syscall_read s
    else if syscall =? SYS_write then syscall_write s
    else if syscall =? SYS_fstat then syscall_fstat s
    else if syscall =? SYS_exit then syscall_exit s
    else if syscall =? SYS_gettimeofday then syscall_gettimeofday s
    else if syscall =? SYS_brk then syscall_brk s
    else if syscall =? SYS_clock_gettime then syscall_clock_gettime s
    else if syscall =? SYS_open then syscall_open fuel s
    else if system && (syscall =? SYS_sbi_base) then syscall_sbi_base s
    else if system && (syscall =? SYS_sbi_timer) then syscall_sbi_timer s
    else if system && (syscall =? SYS_sbi_rst) then syscall_sbi_rst s
    else sdl_call syscall s in
  match call with
  | None => None
  | Some s => Some (set_error s (s32 (reg s rv_reg_a0)))
  end.
End syscalls.
