(* ===== verification/SyscallSpec.v ===== *)
(** * System calls do what the guest asks of the host

    [StdioOk] describes streams that do not fail: each has what was written
    to it and what is left to be read.  The descriptors are any map with the
    laws of MapClient.v.  [write] and [read] transfer the bytes of the guest's
    buffer whatever their number, although the code moves them in pieces
    through a buffer of its own; descriptors are the smallest free numbers
    from 3. *)

From Stdlib Require Import ZArith Lia Bool String.
From stdpp Require Import base list numbers gmap strings.
From S2P Require Import Prelude Decode Riscv Exec ExecWf Memory MemorySpec Buffers Map MapSearch MapSpec MapRefine MapClient Syscall.

Class StdioOk {H : Type} (lib : stdio H) : Type := {
  sent : H -> Z -> list Z;
  left : H -> Z -> list Z;
  fwrite_ok h f d : exists h', lib.(fwrite) h f d = (h', Z.of_nat (length d))
    /\ sent h' f = sent h f ++ d /\ (forall g, g <> f -> sent h' g = sent h g) /\ (forall g, left h' g = left h g);
  fread_ok h f n : 0 <= n -> exists h', lib.(fread) h f n = (h', take (Z.to_nat n) (left h f))
    /\ left h' f = drop (Z.to_nat n) (left h f) /\ (forall g, g <> f -> left h' g = left h g) /\ (forall g, sent h' g = sent h g);
  ferror_ok h f : lib.(ferror) h f = false
}.

Section calls.
Context {F H : Type} (fds : kv_ops F Z) (lib : stdio H) `{L : KvLaws F Z fds s32} `{O : StdioOk H lib}.
Notation sys := (sys F H).
Implicit Types s : sys.

(** ** Writing *)

Lemma write_loop_ok handle buffer n fuel : forall s total count,
  one_piece s.(s_mem) buffer n -> 0 <= total -> 0 <= count -> total + count = n -> count / PREALLOC_SIZE <= Z.of_nat fuel ->
  exists h' total' count', write_loop lib fuel s handle buffer total count = Some (set_host s h', inl (total', count'))
    /\ 0 <= total' /\ 0 <= count' /\ total' + count' = n
    /\ sent h' handle ++ memory_read s.(s_mem) s.(s_heap) (u32 (buffer + total')) count'
       = sent s.(s_host) handle ++ memory_read s.(s_mem) s.(s_heap) (u32 (buffer + total)) count
    /\ (forall g, g <> handle -> sent h' g = sent s.(s_host) g) /\ (forall k, left h' k = left s.(s_host) k).
Proof.
  unfold PREALLOC_SIZE. induction fuel as [|fuel IH]; intros s total count Hp Ht Hc Hn Hf.
  all: cbn [write_loop]; unfold PREALLOC_SIZE; destruct (Z.leb_spec count 4096) as [Hle|Hgt].
  - exists s.(s_host), total, count. by destruct s.
  - exfalso. assert (1 <= count / 4096) by (apply Z.div_le_lower_bound; lia). lia.
  - exists s.(s_host), total, count. by destruct s.
  - destruct (fwrite_ok s.(s_host) handle (memory_read s.(s_mem) s.(s_heap) (u32 (buffer + total)) 4096))
      as (h1 & E & Hs & Ho & Hl).
    rewrite E, read_length by lia. cbn [Z.eqb negb andb]. change (4096 =? 4096) with true. cbn [negb andb].
    assert (n < 2 ^ 32) as Hn32 by (destruct Hp as (? & ? & ? & _); lia).
    rewrite (u32_small (total + 4096)), (u32_small (count - 4096)) by lia.
    destruct (IH (set_host s h1) (total + 4096) (count - 4096)) as (h' & t' & c' & E' & H1 & H2 & H3 & H4 & H5 & H6); [done|lia..| |].
    { replace (count - 4096) with (count + (-1) * 4096) by lia. rewrite Z.div_add by lia. lia. }
    exists h', t', c'. rewrite E'. split; [done|]. split_and!; [done..| | |].
    + cbn [s_host set_host s_mem s_heap] in H4. rewrite H4, Hs, <- app_assoc. f_equal.
      assert (Hp' : one_piece s.(s_mem) (u32 (buffer + total)) count)
        by (replace count with (n - total) by lia; apply piece_tail; [done|lia]).
      rewrite (read_split _ _ _ 4096 count Hp') by lia. do 2 f_equal.
      destruct Hp as (? & ? & ? & _). rewrite (u32_small (buffer + total)) by lia. f_equal. lia.
    + intros g Hg. rewrite H5 by done. by apply Ho.
    + intros k. rewrite H6. apply Hl.
Qed.

(** The call as a whole, on a descriptor that is open. *)
Lemma write_ok s g f : kv_holds s.(fd_map) g -> g !! s32 (reg s rv_reg_a0) = Some f ->
  one_piece s.(s_mem) (reg s rv_reg_a1) (reg s rv_reg_a2) ->
  exists h', syscall_write fds lib s = Some (set_reg (set_host s h') rv_reg_a0 (reg s rv_reg_a2))
    /\ sent h' f = sent s.(s_host) f ++ memory_read s.(s_mem) s.(s_heap) (reg s rv_reg_a1) (reg s rv_reg_a2)
    /\ (forall k, k <> f -> sent h' k = sent s.(s_host) k) /\ (forall k, left h' k = left s.(s_host) k).
Proof.
  intros Hg Hf Hp. unfold syscall_write. rewrite (kv_find_ok _ _ _ Hg), Hf.
  set (buffer := reg s rv_reg_a1) in *. set (n := reg s rv_reg_a2) in *. pose proof Hp as (Hb & Hn & Hbn & _).
  destruct (write_loop_ok f buffer n (Z.to_nat (n / PREALLOC_SIZE)) s 0 n)
    as (h1 & t & c & E & H1 & H2 & H3 & H4 & H5 & H6); [done|lia|lia|lia| |].
  { rewrite Z2Nat.id; [lia|]. apply Z.div_pos; unfold PREALLOC_SIZE; lia. }
  rewrite E. cbn [s_mem s_heap s_host set_host].
  destruct (fwrite_ok h1 f (memory_read s.(s_mem) s.(s_heap) (u32 (buffer + t)) c)) as (h2 & E2 & Hs & Ho & Hl).
  rewrite E2, read_length, Z.eqb_refl by lia. cbn [negb andb]. rewrite (u32_small (t + c)), H3 by lia.
  change (reg (set_host (set_host s h1) h2) rv_reg_a2) with n. rewrite Z.eqb_refl.
  exists h2. split; [done|]. split_and!.
  - rewrite Hs, H4. rewrite Z.add_0_r, u32_small by lia. done.
  - intros k Hk. rewrite Ho by done. by apply H5.
  - intros k. rewrite Hl. apply H6.
Qed.

(** ** Reading *)

Lemma read_chunk_ok s f buf total count : 0 <= count -> count <= PREALLOC_SIZE \/ left s.(s_host) f = [] ->
  let d := take (Z.to_nat count) (left s.(s_host) f) in
  exists h' m', read_chunk lib s f buf total count = Some (set_sheap (set_host s h') m', Z.of_nat (length d))
    /\ stored s.(s_mem) s.(s_heap) (u32 (buf + total)) d m'
    /\ left h' f = drop (length d) (left s.(s_host) f)
    /\ (forall k, k <> f -> left h' k = left s.(s_host) k) /\ (forall k, sent h' k = sent s.(s_host) k).
Proof.
  intros Hc Hor. unfold read_chunk. destruct (fread_ok s.(s_host) f count Hc) as (h' & E & Hl & Ho & Hs). rewrite E.
  set (d := take _ _) in *. assert (Hd : Z.of_nat (length d) <= PREALLOC_SIZE).
  { unfold d. rewrite length_take. destruct Hor as [|Hnil]; [lia|]. rewrite Hnil. cbn. unfold PREALLOC_SIZE. lia. }
  rewrite (proj2 (Z.ltb_ge _ _)) by done. eexists h', _. split; [done|]. split_and!; try done.
  - intros x. apply write_get.
  - rewrite Hl. unfold d. rewrite length_take. destruct (decide (Z.to_nat count <= length (left (s_host s) f))%nat).
    + f_equal. lia.
    + rewrite !drop_ge by lia. done.
Qed.

Lemma take_add {A} n m (l : list A) : take (n + m) l = take n l ++ take m (drop n l).
Proof. revert l. induction n as [|n IH]; intros [|x l]; cbn; try done; [by rewrite take_nil|]. by rewrite IH. Qed.

Lemma read_loop_ok f buf n fuel : forall s total count,
  one_piece s.(s_mem) buf n -> 0 <= total -> 0 <= count -> total + count = n -> count / PREALLOC_SIZE <= Z.of_nat fuel ->
  exists h' m' total' count', read_loop lib fuel s f buf total count = Some (set_sheap (set_host s h') m', total', count')
    /\ total <= total' /\ 0 <= count' /\ total' + count' = n
    /\ (count' <= PREALLOC_SIZE \/ left h' f = [])
    /\ (let d := take (Z.to_nat (total' - total)) (left s.(s_host) f) in
        Z.of_nat (length d) = total' - total /\ stored s.(s_mem) s.(s_heap) (u32 (buf + total)) d m')
    /\ left h' f = drop (Z.to_nat (total' - total)) (left s.(s_host) f)
    /\ (forall k, k <> f -> left h' k = left s.(s_host) k) /\ (forall k, sent h' k = sent s.(s_host) k).
Proof.
  induction fuel as [|fuel IH]; intros s total count Hp Ht Hc Hn Hf.
  all: assert (Hbase : count <= PREALLOC_SIZE -> exists h' m' total' count',
      Some (s, total, count) = Some (set_sheap (set_host s h') m', total', count')
      /\ total <= total' /\ 0 <= count' /\ total' + count' = n
      /\ (count' <= PREALLOC_SIZE \/ left h' f = [])
      /\ (let d := take (Z.to_nat (total' - total)) (left s.(s_host) f) in
        Z.of_nat (length d) = total' - total /\ stored s.(s_mem) s.(s_heap) (u32 (buf + total)) d m')
      /\ left h' f = drop (Z.to_nat (total' - total)) (left s.(s_host) f)
      /\ (forall k, k <> f -> left h' k = left s.(s_host) k) /\ (forall k, sent h' k = sent s.(s_host) k)).
  1,3: (intros Hle; exists s.(s_host), s.(s_heap), total, count; rewrite Z.sub_diag; cbn [Z.to_nat take drop length];
    split_and!; [by destruct s|lia|lia|lia|by left|done|apply stored_nil|done..]).
  all: cbn [read_loop]; destruct (Z.leb_spec count PREALLOC_SIZE) as [Hle|Hgt]; [by apply Hbase|]; clear Hbase.
  - exfalso. unfold PREALLOC_SIZE in *. assert (1 <= count / 4096) by (apply Z.div_le_lower_bound; lia). lia.
  - destruct (read_chunk_ok s f buf total PREALLOC_SIZE) as (h1 & m1 & E & Hst & Hl & Ho & Hse); [done|left; lia|].
    rewrite E. set (d := take _ _) in *. set (r := Z.of_nat (length d)).
    assert (Hr : r <= PREALLOC_SIZE) by (unfold r, d; rewrite length_take; unfold PREALLOC_SIZE; lia).
    assert (0 <= r) by (unfold r; lia). assert (n < 2 ^ 32) as Hn32 by (destruct Hp as (? & ? & ? & _); lia).
    unfold PREALLOC_SIZE in Hgt. unfold PREALLOC_SIZE in Hr.
    rewrite (u32_small (count - r)), (u32_small (total + r)) by lia.
    destruct (Z.eqb_spec r PREALLOC_SIZE) as [Hfull|Hshort].
    + destruct (IH (set_sheap (set_host s h1) m1) (total + r) (count - r))
        as (h' & m' & t' & c' & E' & H1 & H2 & H3 & H4 & (H5 & H6) & H7 & H8 & H9); [done|lia|lia|lia| |].
      { rewrite Hfull. unfold PREALLOC_SIZE in *. replace (count - 4096) with (count + (-1) * 4096) by lia. rewrite Z.div_add by lia. lia. }
      cbn [s_host s_mem s_heap set_sheap set_host] in *. rewrite Hl in H5, H6, H7.
      assert (Ed : take (Z.to_nat (t' - total)) (left (s_host s) f)
        = d ++ take (Z.to_nat (t' - (total + r))) (drop (length d) (left (s_host s) f))).
      { replace (Z.to_nat (t' - total)) with (length d + Z.to_nat (t' - (total + r)))%nat by lia. rewrite take_add. f_equal.
        unfold d. rewrite length_take. destruct (decide (Z.to_nat PREALLOC_SIZE <= length (left (s_host s) f))%nat).
        - f_equal. lia.
        - rewrite !take_ge by lia. done. }
      exists h', m', t', c'. split; [by rewrite E'|]. cbv zeta. rewrite Ed. split_and!; try done; try lia.
      * rewrite length_app, Nat2Z.inj_add, H5. lia.
      * eapply (stored_app _ _ _ _ _ m1 m' count); [| |done|].
        -- replace count with (n - total) by lia. apply piece_tail; [done|lia].
        -- rewrite length_app, Nat2Z.inj_add, H5. lia.
        -- destruct Hp as (? & ? & ? & _). rewrite (u32_small (buf + total)) by lia.
           replace (buf + total + Z.of_nat (length d)) with (buf + (total + r)) by lia. done.
      * rewrite H7, drop_drop. f_equal. lia.
      * intros k Hk. rewrite H8 by done. by apply Ho.
      * intros k. rewrite H9. apply Hse.
    + exists h1, m1, (total + r), (count - r). split; [done|]. cbv zeta.
      assert (Ed : take (Z.to_nat (total + r - total)) (left (s_host s) f) = d).
      { replace (Z.to_nat (total + r - total)) with (length d) by lia. unfold d. rewrite length_take.
        destruct (decide (Z.to_nat PREALLOC_SIZE <= length (left (s_host s) f))%nat).
        - f_equal. lia.
        - rewrite !take_ge by lia. done. }
      rewrite Ed. split_and!; try done; try lia.
      * right. rewrite Hl. apply drop_ge. unfold r, d in Hshort |- *. rewrite length_take in *. unfold PREALLOC_SIZE in *. lia.
      * rewrite Hl. f_equal. lia.
Qed.

Lemma read_ok s g f : kv_holds s.(fd_map) g -> g !! s32 (reg s rv_reg_a0) = Some f ->
  one_piece s.(s_mem) (reg s rv_reg_a1) (reg s rv_reg_a2) ->
  let d := take (Z.to_nat (reg s rv_reg_a2)) (left s.(s_host) f) in
  exists h' m', syscall_read fds lib s = Some (set_reg (set_sheap (set_host s h') m') rv_reg_a0 (Z.of_nat (length d)))
    /\ stored s.(s_mem) s.(s_heap) (reg s rv_reg_a1) d m'
    /\ left h' f = drop (length d) (left s.(s_host) f)
    /\ (forall k, k <> f -> left h' k = left s.(s_host) k) /\ (forall k, sent h' k = sent s.(s_host) k).
Proof.
  intros Hg Hf Hp. unfold syscall_read. rewrite (kv_find_ok _ _ _ Hg), Hf.
  set (buf := reg s rv_reg_a1) in *. set (n := reg s rv_reg_a2) in *. pose proof Hp as (Hb & Hn & Hbn & _).
  destruct (read_loop_ok f buf n (Z.to_nat (n / PREALLOC_SIZE)) s 0 n)
    as (h1 & m1 & t & c & E & H1 & H2 & H3 & H4 & (H5 & H6) & H7 & H8 & H9); [done|lia|lia|lia| |].
  { rewrite Z2Nat.id; [lia|]. apply Z.div_pos; unfold PREALLOC_SIZE; lia. }
  rewrite E, Z.sub_0_r in *. set (s1 := set_sheap (set_host s h1) m1) in *.
  destruct (read_chunk_ok s1 f buf t c) as (h2 & m2 & E2 & G1 & G2 & G3 & G4); [done|done|].
  change (left (s_host s1) f) with (left h1 f) in *. rewrite E2.
  set (d1 := take (Z.to_nat t) (left (s_host s) f)) in *. set (d2 := take (Z.to_nat c) (left h1 f)) in *.
  assert (Ed : take (Z.to_nat n) (left (s_host s) f) = d1 ++ d2).
  { unfold d1, d2. rewrite H7, <- take_add. f_equal. lia. }
  cbv zeta. rewrite Ed, length_app, Nat2Z.inj_add, H5.
  assert (Hd2 : Z.of_nat (length d2) <= c) by (unfold d2; rewrite length_take; lia).
  rewrite (u32_small (t + _)) by lia. rewrite ferror_ok, andb_false_r.
  exists h2, m2. split; [done|]. split_and!.
  - eapply (stored_app _ _ _ _ _ m1 m2 n Hp).
    + rewrite length_app, Nat2Z.inj_add, H5. lia.
    + rewrite Z.add_0_r, (u32_small buf) in H6 by lia. done.
    + rewrite H5. done.
  - rewrite G2, H7, drop_drop. f_equal. lia.
  - intros k Hk. rewrite G3 by done. by apply H8.
  - intros k. rewrite G4. apply H9.
Qed.


(** ** Descriptors *)

Lemma find_free_ok m (g : gmap Z Z) fuel : kv_holds m g -> forall i, 0 <= i -> i + Z.of_nat fuel < 2 ^ 31 ->
  (size (filter (fun e : Z * Z => (i <= e.1)%Z) g) < fuel)%nat ->
  exists j, find_free_fd fds fuel m i = Some j /\ i <= j < i + Z.of_nat fuel /\ g !! j = None
    /\ forall k, i <= k < j -> is_Some (g !! k).
Proof.
  intros Hg. induction fuel as [|fuel IH]; intros i Hi Hb Hs; [lia|]. cbn [find_free_fd].
  rewrite (kv_find_ok _ _ _ Hg), s32_small by lia. destruct (g !! i) as [x|] eqn:Hx.
  - destruct (IH (i + 1)) as (j & E & Hj & Hn & Hall); [lia|lia| |].
    + assert (Ef : filter (fun e : Z * Z => i + 1 <= e.1) g = delete i (filter (fun e : Z * Z => i <= e.1) g)).
      { apply map_eq. intros k. apply option_eq. intros y. rewrite lookup_delete_Some, !map_lookup_filter_Some. cbn [fst].
        split; [intros [? ?]; split_and!; done || lia|intros (? & ? & ?); split; done || lia]. }
      assert (Hlk : filter (fun e : Z * Z => i <= e.1) g !! i = Some x)
        by (apply map_lookup_filter_Some; cbn [fst]; split; [done|lia]).
      rewrite Ef, map_size_delete_Some by (by exists x).
      assert (size (filter (fun e : Z * Z => (i <= e.1)%Z) g) <> 0%nat); [|lia].
      intros E0. apply map_size_empty_inv in E0. by rewrite E0, lookup_empty in Hlk.
    + exists j. rewrite E. split_and!; [done|lia|lia|done|]. intros k Hk. destruct (Z.eq_dec k i) as [->|]; [by eexists|].
      apply Hall. lia.
  - exists i. split_and!; [done|lia|lia|done|lia].
Qed.

Lemma free_fd m g fuel : kv_holds m g -> (size g < fuel)%nat -> 3 + Z.of_nat fuel < 2 ^ 31 ->
  exists j, find_free_fd fds fuel m 3 = Some j /\ 3 <= j < 2 ^ 31 /\ g !! j = None /\ forall k, 3 <= k < j -> is_Some (g !! k).
Proof.
  intros Hg Hs Hf. destruct (find_free_ok m g fuel Hg 3) as (j & E & Hj & Hn & Hall); [lia|lia| |].
  - eapply Nat.le_lt_trans; [|exact Hs]. apply map_subseteq_size, map_filter_subseteq.
  - exists j. split_and!; try done; lia.
Qed.

(** The name that [syscall_open] takes from memory: the bytes up to the first
    zero, which has to be there. *)
Definition name_ok s (name : Z) (bytes : list Z) : Prop :=
  0 <= name < s.(s_mem).(mem_size) /\ s.(s_mem).(mem_size) < 2 ^ 64
  /\ let n := strnlen s.(s_heap) (s.(s_mem).(mem_base) + name) (Z.to_nat (s.(s_mem).(mem_size) - name)) in
     n <> s.(s_mem).(mem_size) - name /\ bytes = memory_read s.(s_mem) s.(s_heap) name n.

Lemma reg_set_a0 s v : length s.(s_rv).(X) = 32%nat -> reg (set_reg s rv_reg_a0 v) rv_reg_a0 = u32 v.
Proof.
  intros Hl. unfold reg, set_reg, rv_get_reg, rv_set_reg, set_srv. cbn [s_rv]. change (rv_reg_a0 <? N_RV_REGS) with true.
  change (rv_reg_a0 =? rv_reg_zero) with false. cbn [andb negb]. apply getX_setX_eq; [unfold rv_reg_a0; lia|done].
Qed.

Lemma set_reg_len s r v : length (set_reg s r v).(s_rv).(X) = length s.(s_rv).(X).
Proof. unfold set_reg, rv_set_reg, set_srv. cbn [s_rv]. destruct (_ && _); [apply length_setX|done]. Qed.
Lemma u32_fd j : 3 <= j < 2 ^ 31 -> u32 j = j /\ s32 j = j.
Proof. intros. split; [apply u32_small|apply s32_small]; lia. Qed.

(** C38. Opening gives the smallest free descriptor and closing gives it back:
    when the host opens the file that the guest named in its memory, [open]
    ends, returns the least number from 3 that is not in use and binds it to
    the new stream, with no other descriptor changed; and [close] of it
    returns 0 and leaves exactly the descriptors there were before. *)
Theorem open_close `{T : !KvTotal fds s32} s g fuel bytes mode h1 handle h2 :
  length s.(s_rv).(X) = 32%nat -> kv_holds s.(fd_map) g -> (size g < fuel)%nat -> 3 + Z.of_nat fuel < 2 ^ 31 ->
  name_ok s (reg s rv_reg_a0) bytes -> get_mode_str (reg s rv_reg_a1) = Some mode -> lib.(malloc_name) s.(s_host) = true ->
  lib.(fopen) s.(s_host) bytes mode = (h1, Some handle) -> lib.(fclose) h1 handle = (h2, false) ->
  exists fd s1 s2, syscall_open fds lib fuel s = Some s1
    /\ reg s1 rv_reg_a0 = fd /\ 3 <= fd /\ g !! fd = None /\ (forall k, 3 <= k < fd -> is_Some (g !! k))
    /\ kv_holds s1.(fd_map) (<[fd := handle]> g)
    /\ syscall_close fds lib s1 = Some s2 /\ reg s2 rv_reg_a0 = 0 /\ kv_holds s2.(fd_map) g.
Proof.
  intros Hl Hg Hs Hf (Hnm & Hm & Hn & ->) Hmode Hmal Hop Hcl.
  destruct (free_fd _ _ _ Hg Hs Hf) as (fd & Efd & Hfd & Hno & Hall). destruct (u32_fd fd Hfd) as [U S].
  unfold syscall_open. rewrite (proj2 (Z.leb_gt _ _)) by lia.
  assert (E64 : u64 (mem_size (s_mem s) - reg s rv_reg_a0) = mem_size (s_mem s) - reg s rv_reg_a0) by (apply Z.mod_small; lia).
  rewrite !E64, (proj2 (Z.eqb_neq _ _) Hn), Hmal, Hmode. cbn [negb]. rewrite Hop. cbn [fd_map set_host]. rewrite Efd.
  assert (Hno' : g !! s32 fd = None) by (by rewrite S).
  destruct (kv_insert_new _ _ fd handle Hg Hno') as [m1 Em]. rewrite Em.
  destruct (kv_insert_ok _ _ fd handle Hg) as (m1' & b & Em' & Hb). rewrite Em in Em'. injection Em' as <- <-.
  destruct Hb as [_ Hm1]. rewrite S in Hm1. unfold ret.
  set (s1 := set_reg (set_fds (set_host s h1) m1) rv_reg_a0 fd).
  assert (R1 : reg s1 rv_reg_a0 = fd) by (unfold s1; rewrite reg_set_a0, U; done).
  destruct (kv_erase_ok _ _ fd Hm1) as (m2 & Em2 & Hm2). rewrite S, delete_insert_id in Hm2 by done.
  exists fd, s1, (set_reg (set_fds (set_host s1 h2) m2) rv_reg_a0 0). split; [done|]. split_and!; try done; [lia| |].
  - unfold syscall_close. rewrite R1. rewrite (proj2 (Z.ltb_ge _ _)), (proj2 (Z.leb_le _ _)) by lia. cbn [andb].
    change (fd_map s1) with m1. rewrite (kv_find_ok _ _ _ Hm1), S, lookup_insert_eq.
    change (s_host s1) with h1. rewrite Hcl. cbn [fd_map set_host]. change (fd_map s1) with m1. rewrite Em2. reflexivity.
  - rewrite reg_set_a0; [done|]. change (length s1.(s_rv).(X) = 32%nat). unfold s1. by rewrite set_reg_len.
Qed.
End calls.

(** ** A host of streams in memory *)

(** What each stream has been sent and has left; opening makes stream 7. *)
Notation streams := (gmap Z (list Z * list Z)).
Definition stream (h : streams) (f : Z) : list Z * list Z := default ([], []) (h !! f).
Definition mem_stdio : stdio streams :=
  mk_stdio streams (fun h _ _ => (h, Some 7)) (fun h f => (delete f h, false))
    (fun h f n => (<[f := ((stream h f).1, drop (Z.to_nat n) (stream h f).2)]> h, take (Z.to_nat n) (stream h f).2))
    (fun h f d => (<[f := ((stream h f).1 ++ d, (stream h f).2)]> h, Z.of_nat (length d)))
    (fun h _ _ _ => (h, false)) (fun _ _ => 0) (fun _ _ => false) (fun h => (h, (0, 0))) (fun _ => true).

Lemma stream_eq h f x : stream (<[f := x]> h) f = x.
Proof. unfold stream. by rewrite lookup_insert_eq. Qed.
Lemma stream_ne h f g x : g <> f -> stream (<[f := x]> h) g = stream h g.
Proof. intros. unfold stream. by rewrite lookup_insert_ne. Qed.

#[export] Program Instance mem_stdio_ok : StdioOk mem_stdio :=
  { sent h f := (stream h f).1; left h f := (stream h f).2 }.
Next Obligation.
  intros h f d. eexists. split; [done|]. rewrite stream_eq. split_and!; [done| |].
  - intros g Hg. by rewrite stream_ne.
  - intros g. destruct (decide (g = f)) as [->|]; [by rewrite stream_eq|by rewrite stream_ne].
Qed.
Next Obligation.
  intros h f n _. eexists. split; [done|]. rewrite stream_eq. split_and!; [done| |].
  - intros g Hg. by rewrite stream_ne.
  - intros g. destruct (decide (g = f)) as [->|]; [by rewrite stream_eq|by rewrite stream_ne].
Qed.
Next Obligation. done. Qed.

(** A guest with "hi" at address 0x10, whose arguments are [a0], [a1], [a2]. *)
Definition caller {F} (m : F) (h : streams) (a0 a1 a2 : Z) : sys F streams :=
  mk_sys (setX (setX (setX (rv_zero 0) rv_reg_a0 a0) rv_reg_a1 a1) rv_reg_a2 a2)
    (mk_memory 0x1000 0x100 0x1100 0 0) (Memory.store 4 ∅ 0x1010 0x6968) m h 0 0 0 false 0.


(** The file "hi" is opened for reading with descriptor 3 in use. *)
Lemma open_close_witness :
  exists s1 s2, syscall_open (gmap_kv s32) mem_stdio 8 (caller {[3 := 5]} ∅ 0x10 0 0) = Some s1
    /\ reg s1 rv_reg_a0 = 4 /\ syscall_close (gmap_kv s32) mem_stdio s1 = Some s2
    /\ reg s2 rv_reg_a0 = 0 /\ fd_map s2 = {[3 := 5]}.
Proof.
  destruct (open_close (gmap_kv s32) mem_stdio (L := gmap_kv_laws s32 s32_idemp) (T := gmap_kv_total s32 s32_idemp)
    (caller {[3 := 5]} ∅ 0x10 0 0) {[3 := 5]} 8 [0x68; 0x69] "rb"%string ∅ 7 ∅)
    as (fd & s1 & s2 & E1 & E2 & _ & _ & _ & _ & E3 & E4 & [E5 _]).
  - reflexivity.
  - split; [done|]. intros k [x Hx]. apply lookup_singleton_Some in Hx as [<- _]. reflexivity.
  - vm_compute. lia.
  - vm_compute. reflexivity.
  - by vm_compute.
  - reflexivity.
  - reflexivity.
  - reflexivity.
  - reflexivity.
  - exists s1, s2. split; [exact E1|]. split; [|split; [exact E3|split; [exact E4|exact E5]]].
    vm_compute in E1. injection E1 as <-. reflexivity.
Defined.
