(* ===== verification/Elf.v ===== *)
(** * The ELF loader (src/rv32emu/src/elf.c, elf.h)

    A file is the list of its bytes, as the mapping of [elf_open] shows it;
    pointers into it are offsets, and the fields of its structures are read
    where the code reads them, at their offsets in elf.h.  [None] is a read
    outside the file or another undefined operation.  The symbol map is one of
    map.c, through the interface of MapClient.v, with [char *] as an offset and
    [None] for [NULL]. *)

From Stdlib Require Import ZArith Lia Bool String Ascii.
From stdpp Require Import base list numbers gmap strings.
From S2P Require Import Prelude Decode Riscv Memory Utils MapClient.

Definition EM_RISCV : Z := 243.
Definition ELFCLASS32 : Z := 1.
Definition PT_LOAD : Z := 1.
Definition STT_NOTYPE : Z := 0.
Definition STT_OBJECT : Z := 1.
Definition STT_FUNC : Z := 2.
Definition SHT_NOBITS : Z := 8.
Definition EI_CLASS : Z := 4.
Definition ELF_ST_TYPE (x : Z) : Z := x &. 0xf.

(** ** Reading the file *)

Definition byte_at (d : list Z) (o : Z) : option Z :=
  if o <? 0 then None else u8 <$> d !! Z.to_nat o.
Definition half_at (d : list Z) (o : Z) : option Z :=
  b0 ← byte_at d o; b1 ← byte_at d (o + 1); Some (b0 + 256 * b1).
Definition word_at (d : list Z) (o : Z) : option Z :=
  lo ← half_at d o; hi ← half_at d (o + 2); Some (lo + 65536 * hi).

(** The header, at the start of the file. *)
Definition e_machine (d : list Z) : option Z := half_at d 18.
Definition e_entry (d : list Z) : option Z := word_at d 24.
Definition e_phoff (d : list Z) : option Z := word_at d 28.
Definition e_shoff (d : list Z) : option Z := word_at d 32.
Definition e_phentsize (d : list Z) : option Z := half_at d 42.
Definition e_phnum (d : list Z) : option Z := half_at d 44.
Definition e_shentsize (d : list Z) : option Z := half_at d 46.
Definition e_shnum (d : list Z) : option Z := half_at d 48.
Definition e_shstrndx (d : list Z) : option Z := half_at d 50.

(** The fields of a program header, a section header and a symbol at [o]. *)
Definition p_type (d : list Z) (o : Z) : option Z := word_at d o.
Definition p_offset (d : list Z) (o : Z) : option Z := word_at d (o + 4).
Definition p_vaddr (d : list Z) (o : Z) : option Z := word_at d (o + 8).
Definition p_filesz (d : list Z) (o : Z) : option Z := word_at d (o + 16).
Definition p_memsz (d : list Z) (o : Z) : option Z := word_at d (o + 20).
Definition sh_name (d : list Z) (o : Z) : option Z := word_at d o.
Definition sh_type (d : list Z) (o : Z) : option Z := word_at d (o + 4).
Definition sh_addr (d : list Z) (o : Z) : option Z := word_at d (o + 12).
Definition sh_offset (d : list Z) (o : Z) : option Z := word_at d (o + 16).
Definition sh_size (d : list Z) (o : Z) : option Z := word_at d (o + 20).
Definition st_name (d : list Z) (o : Z) : option Z := word_at d o.
Definition st_value (d : list Z) (o : Z) : option Z := word_at d (o + 4).
Definition st_info (d : list Z) (o : Z) : option Z := byte_at d (o + 12).
Definition sizeof_Sym : Z := 16.

(** [strcmp] of the C string [name] with the one at [o]: whether they are
    equal. *)
Fixpoint strcmp_eq (d name : list Z) (o : Z) : option bool :=
  b ← byte_at d o;
  match name with
  | [] => Some (b =? 0)
  | c :: name => if b =? c then strcmp_eq d name (o + 1) else Some false
  end.
Definition c_string (s : string) : list Z := (fun c => Z.of_nat (nat_of_ascii c)) <$> list_ascii_of_string s.

(** The product of two [int]s. *)
Definition int_mul (a b : Z) : option Z := if a * b <? 2 ^ 31 then Some (a * b) else None.

(** ** Headers and sections *)

Definition is_valid (d : list Z) : option bool :=
  b0 ← byte_at d 0; b1 ← byte_at d 1; b2 ← byte_at d 2; b3 ← byte_at d 3;
  if negb ((b0 =? 0x7f) && (b1 =? 0x45) && (b2 =? 0x4c) && (b3 =? 0x46)) then Some false else
  class ← byte_at d EI_CLASS;
  if negb (class =? ELFCLASS32) then Some false else
  machine ← e_machine d;
  if negb (machine =? EM_RISCV) then Some false else Some true.

Definition get_sh_string (d : list Z) (index : Z) : option Z :=
  shoff ← e_shoff d; ndx ← e_shstrndx d; entsize ← e_shentsize d;
  p ← int_mul ndx entsize;
  off ← sh_offset d (u32 (shoff + p));
  Some (off + s32 index).

(** The loop from section [s] on, with [n] sections left. *)
Fixpoint section_loop (d name : list Z) (n : nat) (s : Z) : option (option Z) :=
  match n with
  | O => Some None
  | S n =>
      shoff ← e_shoff d; entsize ← e_shentsize d; p ← int_mul s entsize;
      let shdr := u32 (shoff + p) in
      index ← sh_name d shdr; sname ← get_sh_string d index;
      eq ← strcmp_eq d name sname;
      if (eq : bool) then Some (Some shdr) else section_loop d name n (s + 1)
  end.
Definition get_section_header (d name : list Z) : option (option Z) :=
  shnum ← e_shnum d; section_loop d name (Z.to_nat shnum) 0.

Definition get_strtab (d : list Z) : option (option Z) :=
  shdr ← get_section_header d (c_string ".strtab");
  match shdr with None => Some None | Some shdr => off ← sh_offset d shdr; Some (Some off) end.

(** ** Symbols *)

(** The symbols from [sym] up to [end_]: one turn of the loop for each. *)
Definition sym_count (sym end_ : Z) : nat := Z.to_nat ((end_ - sym + sizeof_Sym - 1) / sizeof_Sym).

Fixpoint symbol_loop (d name : list Z) (strtab : Z) (n : nat) (sym : Z) : option (option Z) :=
  match n with
  | O => Some None
  | S n =>
      nm ← st_name d sym;
      eq ← strcmp_eq d name (strtab + nm);
      if (eq : bool) then Some (Some sym) else symbol_loop d name strtab n (sym + sizeof_Sym)
  end.
Definition elf_get_symbol (d name : list Z) : option (option Z) :=
  strtab ← get_strtab d;
  match strtab with
  | None => Some None
  | Some strtab =>
      shdr ← get_section_header d (c_string ".symtab");
      match shdr with
      | None => Some None
      | Some shdr =>
          sym ← sh_offset d shdr; size ← sh_size d shdr;
          symbol_loop d name strtab (sym_count sym (sym + size)) sym
      end
  end.

Definition elf_get_data_section_range (d : list Z) : option (option (Z * Z)) :=
  shdr ← get_section_header d (c_string ".data");
  match shdr with
  | None => Some None
  | Some shdr =>
      type ← sh_type d shdr;
      if type =? SHT_NOBITS then Some None else
      start ← sh_addr d shdr; size ← sh_size d shdr;
      Some (Some (start, u32 (start + size)))
  end.

Section symbols.
Context {M : Type} (syms : kv_ops M (option Z)).

(** [hdr] is [raw_data]. *)
Record elf_t : Type := mk_elf { raw_data : option (list Z); raw_size : Z; symbols : M }.

Definition elf_new (map : M) : elf_t := mk_elf None 0 map.
Definition release (e : elf_t) : elf_t := mk_elf None 0 e.(symbols).

(** The file at a path, when it can be opened. *)
Context (file : list Z -> option (list Z)).

(** The path is [sanitize_path]'s result up to its terminator. *)
Fixpoint c_str (buf : list Z) : option (list Z) :=
  match buf with
  | [] => None
  | c :: buf => if c =? 0 then Some [] else r ← c_str buf; Some (c :: r)
  end.
Definition elf_open (calloc_ok : bool) (e : elf_t) (input : list Z) : option (elf_t * bool) :=
  let e := match e.(raw_data) with Some _ => release e | None => e end in
  path ← sanitize_path calloc_ok input;
  match path with
  | None => Some (e, false)
  | Some buf =>
      path ← c_str buf;
      match file path with
      | None => Some (release e, false)
      | Some [] => Some (release e, false)
      | Some d =>
          valid ← is_valid d;
          if (valid : bool) then Some (mk_elf (Some d) (u32 (Z.of_nat (length d))) e.(symbols), true)
          else Some (release e, false)
      end
  end.

Fixpoint fill_loop (d : list Z) (strtab : Z) (n : nat) (sym : Z) (m : M) : option M :=
  match n with
  | O => Some m
  | S n =>
      nm ← st_name d sym; info ← st_info d sym;
      let type := ELF_ST_TYPE info in
      m ← (if (type =? STT_NOTYPE) || (type =? STT_OBJECT) || (type =? STT_FUNC) then
             value ← st_value d sym; '(m, _) ← kv_insert syms m value (Some (strtab + nm)); Some m
           else Some m);
      fill_loop d strtab n (sym + sizeof_Sym) m
  end.
Definition fill_symbols (d : list Z) (m : M) : option M :=
  m ← kv_clear syms m; '(m, _) ← kv_insert syms m 0 None;
  strtab ← get_strtab d;
  match strtab with
  | None => Some m
  | Some strtab =>
      shdr ← get_section_header d (c_string ".symtab");
      match shdr with
      | None => Some m
      | Some shdr =>
          sym ← sh_offset d shdr; size ← sh_size d shdr;
          fill_loop d strtab (sym_count sym (sym + size)) sym m
      end
  end.
Definition elf_find_symbol (e : elf_t) (addr : Z) : option (elf_t * option Z) :=
  m ← (if kv_empty syms e.(symbols) then d ← e.(raw_data); fill_symbols d e.(symbols) else Some e.(symbols));
  v ← kv_find syms m addr;
  Some (mk_elf e.(raw_data) e.(raw_size) m, match v with Some name => name | None => None end).
End symbols.
Arguments elf_t : clear implicits.
Arguments mk_elf {M}. Arguments raw_data {M}. Arguments raw_size {M}. Arguments symbols {M}.

(** ** Loading *)

(** [memcpy] of [n] bytes of the file from offset [o]. *)
Definition file_bytes (d : list Z) (o n : Z) : option (list Z) :=
  if o + n <=? Z.of_nat (length d) then Some (take (Z.to_nat n) (drop (Z.to_nat o) d)) else None.

Fixpoint load_loop (d : list Z) (mem : memory_t) (n : nat) (p : Z) (h : heap) : option (heap * bool) :=
  match n with
  | O => Some (h, true)
  | S n =>
      phoff ← e_phoff d; entsize ← e_phentsize d; q ← int_mul p entsize;
      let phdr := u32 (phoff + q) in
      type ← p_type d phdr;
      if negb (type =? PT_LOAD) then load_loop d mem n (p + 1) h else
      memsz ← p_memsz d phdr; filesz ← p_filesz d phdr; vaddr ← p_vaddr d phdr;
      let to_copy := s32 (Z.min memsz filesz) in
      '(h, ok) ← (if nz to_copy then
                    off ← p_offset d phdr; src ← file_bytes d off (u32 to_copy);
                    Some (memory_write mem h vaddr src)
                  else Some (h, true));
      if negb ok then Some (h, false) else
      let to_zero := s32 (u32 (Z.max memsz filesz - to_copy)) in
      let '(h, ok) := if nz to_zero then memory_fill mem h (u32 (vaddr + to_copy)) (u32 to_zero) 0 else (h, true) in
      if negb ok then Some (h, false) else
      load_loop d mem n (p + 1) h
  end.
Definition elf_load (d : list Z) (mem : memory_t) (h : heap) : option (heap * bool) :=
  phnum ← e_phnum d; load_loop d mem (Z.to_nat phnum) 0 h.
