(* ===== verification/ElfSpec.v ===== *)
(** * The ELF loader places the program, and finds its symbols

    The reference reads the tables of the file as lists: the segments to be
    loaded and the symbols.  [elf_load] gives each segment its bytes of the
    file, zeros after them, and changes nothing else; [elf_find_symbol] names
    the first symbol with an address, through a map that it fills once. *)

From Stdlib Require Import ZArith Lia Bool String.
From stdpp Require Import base list numbers gmap strings.
From S2P Require Import Prelude Decode Riscv Memory MemorySpec Buffers MapClient Elf.

(** ** Strings *)

(** The C string [name] is at [o]. *)
Definition holds_string (d name : list Z) (o : Z) : Prop :=
  (forall i c, name !! i = Some c -> byte_at d (o + Z.of_nat i) = Some c) /\ byte_at d (o + Z.of_nat (length name)) = Some 0.

Lemma strcmp_spec d name : forall o, strcmp_eq d name o = Some true <-> holds_string d name o.
Proof.
  unfold holds_string. induction name as [|c name IH]; intros o; cbn [strcmp_eq length].
  - rewrite Z.add_0_r. destruct (byte_at d o) as [b|]; cbn; [|naive_solver].
    destruct (Z.eqb_spec b 0); naive_solver.
  - destruct (byte_at d o) as [b|] eqn:Eb; cbn.
    + destruct (Z.eqb_spec b c) as [->|Hne].
      * rewrite IH, Nat2Z.inj_succ, Z.add_succ_r, <- Z.add_succ_l. split; intros [H1 H2]; (split; [|done]).
        -- intros [|i] x Hx; cbn in Hx; [injection Hx as <-; by rewrite Z.add_0_r|].
           rewrite Nat2Z.inj_succ, Z.add_succ_r, <- Z.add_succ_l. by apply H1.
        -- intros i x Hx. specialize (H1 (S i) x Hx). by rewrite Nat2Z.inj_succ, Z.add_succ_r, <- Z.add_succ_l in H1.
      * split; [done|]. intros [H1 _]. specialize (H1 0%nat c eq_refl). rewrite Z.add_0_r in H1. congruence.
    + split; [done|]. intros [H1 _]. specialize (H1 0%nat c eq_refl). rewrite Z.add_0_r in H1. congruence.
Qed.

(** ** Segments *)

Record segment : Type := mk_segment { seg_vaddr : Z; seg_offset : Z; seg_filesz : Z; seg_memsz : Z }.

(** Program header [p]: [Some None] is one that is not to be loaded. *)
Definition phdr_at (d : list Z) (p : Z) : option (option segment) :=
  phoff ← e_phoff d; entsize ← e_phentsize d; q ← int_mul p entsize;
  let o := u32 (phoff + q) in
  type ← p_type d o;
  if type =? PT_LOAD then
    vaddr ← p_vaddr d o; off ← p_offset d o; filesz ← p_filesz d o; memsz ← p_memsz d o;
    Some (Some (mk_segment vaddr off filesz memsz))
  else Some None.
Definition segments (d : list Z) : option (list segment) :=
  phnum ← e_phnum d; l ← mapM (phdr_at d) (seqZ 0 phnum); Some (omap id l).

Definition seg_copied (s : segment) : Z := Z.min s.(seg_memsz) s.(seg_filesz).
Definition seg_size (s : segment) : Z := Z.max s.(seg_memsz) s.(seg_filesz).
(** The bytes of a segment in memory. *)
Definition image (d : list Z) (s : segment) : list Z :=
  take (Z.to_nat (seg_copied s)) (drop (Z.to_nat s.(seg_offset)) d) ++ replicate (Z.to_nat (seg_size s - seg_copied s)) 0.

Lemma byte_at_range d o b : byte_at d o = Some b -> 0 <= b < 256.
Proof.
  unfold byte_at. destruct (o <? 0); [done|]. destruct (d !! _); [|done]. intros [= <-]. apply u8_range.
Qed.
Lemma half_at_range d o v : half_at d o = Some v -> 0 <= v < 2 ^ 16.
Proof.
  unfold half_at. intros H. repeat apply bind_Some in H as (? & ?%byte_at_range & H). injection H as <-. lia.
Qed.
Lemma word_at_range d o v : word_at d o = Some v -> 0 <= v < 2 ^ 32.
Proof.
  unfold word_at. intros H. repeat apply bind_Some in H as (? & ?%half_at_range & H). injection H as <-. lia.
Qed.

(** A segment's sizes are words, its file part is in the file, and its memory
    is in one piece. *)
Definition seg_ok (d : list Z) (mem : memory_t) (s : segment) : Prop :=
  0 <= s.(seg_offset) /\ s.(seg_offset) + seg_copied s <= Z.of_nat (length d) /\ one_piece mem s.(seg_vaddr) (seg_size s).

Lemma phdr_at_range d p s : phdr_at d p = Some (Some s) -> 0 <= seg_copied s <= seg_size s /\ seg_size s < 2 ^ 32.
Proof.
  unfold phdr_at. intros H. repeat apply bind_Some in H as (? & ? & H). case_match; [|done].
  repeat apply bind_Some in H as (? & ?%word_at_range & H). injection H as <-. unfold seg_copied, seg_size. cbn [seg_memsz seg_filesz]. lia.
Qed.

Lemma image_length d s : 0 <= seg_copied s <= seg_size s -> 0 <= s.(seg_offset) ->
  s.(seg_offset) + seg_copied s <= Z.of_nat (length d) -> Z.of_nat (length (image d s)) = seg_size s.
Proof. intros. unfold image. rewrite length_app, length_take, length_drop, length_replicate. lia. Qed.

(** The sizes go through [int], which does not lose anything. *)
Lemma nz_s32 c : 0 <= c < 2 ^ 32 -> nz (s32 c) = negb (c =? 0).
Proof.
  intros Hc. unfold nz. destruct (Z.eqb_spec c 0) as [->|Hn]; [done|]. apply f_equal, Z.eqb_neq. intros E.
  apply Hn. by rewrite <- (u32_small c), <- u32_s32, E.
Qed.
Lemma u32_sub_s32 a b : u32 (a - s32 b) = u32 (a - b).
Proof. word_lia. Qed.
Lemma u32_add_s32 a b : u32 (a + s32 b) = u32 (a + b).
Proof. word_lia. Qed.

(** One turn of the loop. *)
Lemma load_step d mem n p o h : phdr_at d p = Some o -> (forall s, o = Some s -> seg_ok d mem s) ->
  exists h', load_loop d mem (S n) p h = load_loop d mem n (p + 1) h'
    /\ match o with Some s => stored mem h s.(seg_vaddr) (image d s) h' | None => h' = h end.
Proof.
  intros Hp Hok. assert (Hr : forall s, o = Some s -> 0 <= seg_copied s <= seg_size s /\ seg_size s < 2 ^ 32)
    by (intros s ->; by eapply phdr_at_range).
  unfold phdr_at in Hp. cbn [load_loop].
  apply bind_Some in Hp as (phoff & -> & Hp). apply bind_Some in Hp as (entsize & -> & Hp).
  apply bind_Some in Hp as (q & Hq & Hp). cbn [mbind option_bind]. rewrite Hq. cbn [mbind option_bind]. clear Hq.
  apply bind_Some in Hp as (type & -> & Hp). cbn [mbind option_bind].
  destruct (type =? PT_LOAD); cbn [negb]; [|injection Hp as <-; by exists h].
  apply bind_Some in Hp as (vaddr & -> & Hp). apply bind_Some in Hp as (off & Eo & Hp).
  apply bind_Some in Hp as (filesz & -> & Hp). apply bind_Some in Hp as (memsz & -> & Hp).
  injection Hp as <-. specialize (Hr _ eq_refl). specialize (Hok _ eq_refl) as (Ho & Hf & Hpc). set (s := mk_segment vaddr off filesz memsz) in *.
  cbn [mbind option_bind]. change (Z.min memsz filesz) with (seg_copied s). change (Z.max memsz filesz) with (seg_size s).
  change off with s.(seg_offset) in Eo. change vaddr with s.(seg_vaddr). unfold image. clearbody s.
  set (c := seg_copied s) in *. set (z := seg_size s) in *. set (f := take (Z.to_nat c) _).
  assert (Hfl : Z.of_nat (length f) = c) by (unfold f; rewrite length_take, length_drop; lia).
  rewrite u32_sub_s32, u32_add_s32, !u32_s32, !(u32_small (z - c)), (u32_small c), (nz_s32 c), (nz_s32 (z - c)) by lia.
  set (h1 := if negb (c =? 0) then fst (memory_write mem h s.(seg_vaddr) f) else h).
  assert (H1 : stored mem h s.(seg_vaddr) f h1).
  { unfold h1. destruct (Z.eqb_spec c 0) as [Hc|Hc]; cbn [negb]; [|apply write_stored].
    destruct f; [apply stored_nil|]. cbn in Hfl. lia. }
  set (h2 := if negb (z - c =? 0) then fst (memory_fill mem h1 (u32 (s.(seg_vaddr) + c)) (z - c) 0) else h1).
  assert (H2 : stored mem h1 (u32 (s.(seg_vaddr) + c)) (replicate (Z.to_nat (z - c)) 0) h2).
  { unfold h2. destruct (Z.eqb_spec (z - c) 0) as [->|Hc]; cbn [negb]; [apply stored_nil|].
    apply (fill_stored mem h1 (u32 (s.(seg_vaddr) + c)) (z - c) 0). lia. }
  exists h2. split.
  - replace (if negb (c =? 0) then off ← p_offset d _; _ else _) with (Some (h1, true)); [cbn [mbind option_bind negb]|].
    + unfold h2. by destruct (negb (z - c =? 0)).
    + unfold h1. destruct (negb (c =? 0)); [|done]. rewrite Eo. cbn [mbind option_bind]. unfold file_bytes.
      rewrite (proj2 (Z.leb_le _ _)) by lia. done.
  - apply (stored_app mem h _ f _ h1 h2 z); [done| |done|by rewrite Hfl].
    rewrite length_app, length_replicate. lia.
Qed.

(** The segments stored one after the other. *)
Fixpoint placed (d : list Z) (mem : memory_t) (segs : list segment) (h h' : heap) : Prop :=
  match segs with
  | [] => h' = h
  | s :: segs => exists h1, stored mem h s.(seg_vaddr) (image d s) h1 /\ placed d mem segs h1 h'
  end.

Lemma load_loop_ok d mem n : forall p h l,
  mapM (phdr_at d) (seqZ p (Z.of_nat n)) = Some l -> Forall (seg_ok d mem) (omap id l) ->
  exists h', load_loop d mem n p h = Some (h', true) /\ placed d mem (omap id l) h h'.
Proof.
  induction n as [|n IH]; intros p h l Hl Hok.
  - cbn in Hl. injection Hl as <-. by exists h.
  - rewrite seqZ_cons in Hl by lia. cbn [mapM] in Hl. apply bind_Some in Hl as (o & Ho & Hl).
    apply bind_Some in Hl as (l' & Hl & [= <-]). replace (Z.pred (Z.of_nat (S n))) with (Z.of_nat n) in Hl by lia.
    destruct (load_step d mem n p o h Ho) as (h1 & E & H1).
    { intros s ->. cbn in Hok. by inversion Hok. }
    destruct (IH (p + 1) h1 l' Hl) as (h' & E' & H').
    { destruct o; cbn in Hok; [by inversion Hok|done]. }
    exists h'. rewrite E. split; [done|]. destruct o as [s|]; cbn; [by exists h1|by subst h1].
Qed.

(** The host addresses of a segment. *)
Definition in_seg (mem : memory_t) (s : segment) (x : Z) : Prop :=
  host_addr mem s.(seg_vaddr) <= x < host_addr mem s.(seg_vaddr) + seg_size s.
Definition disjoint_segs (mem : memory_t) : list segment -> Prop :=
  ForallOrdPairs (fun s t => forall x, in_seg mem s x -> ~ in_seg mem t x).
(** [h'] has the segments, and is [h] elsewhere. *)
Definition has_segs (d : list Z) (mem : memory_t) (segs : list segment) (h h' : heap) : Prop :=
  (forall s x, s ∈ segs -> in_seg mem s x -> heap_get h' x = u8 (nth (Z.to_nat (x - host_addr mem s.(seg_vaddr))) (image d s) 0))
  /\ forall x, (forall s, s ∈ segs -> ~ in_seg mem s x) -> heap_get h' x = heap_get h x.

Lemma placed_segs d mem segs : Forall (fun s => Z.of_nat (length (image d s)) = seg_size s) segs -> disjoint_segs mem segs ->
  forall h h', placed d mem segs h h' -> has_segs d mem segs h h'.
Proof.
  intros Hl Hd. induction Hd as [|s segs Hs Hd IH]; intros h h' Hp.
  - cbn in Hp. subst h'. split; [|done]. intros s x Hs. by apply not_elem_of_nil in Hs.
  - destruct Hp as (h1 & H1 & Hp). apply Forall_cons in Hl as [Hl Hls]. destruct (IH Hls h1 h' Hp) as [IH1 IH2].
    rewrite Forall_forall in Hs. split.
    + intros t x [->|Ht]%elem_of_cons Hx; [|by apply IH1]. rewrite IH2 by (intros t Ht; by apply (Hs t Ht x)).
      rewrite H1, Hl, decide_True by done. done.
    + intros x Hx. rewrite IH2 by (intros t Ht; apply Hx; by right). rewrite H1, Hl, decide_False; [done|]. apply (Hx s). by left.
Qed.

Lemma segments_range d segs : segments d = Some segs -> Forall (fun s => 0 <= seg_copied s <= seg_size s /\ seg_size s < 2 ^ 32) segs.
Proof.
  unfold segments. intros H. apply bind_Some in H as (phnum & _ & H). apply bind_Some in H as (l & Hl & [= <-]).
  apply mapM_Some in Hl. rewrite Forall_forall. intros s (o & Ho & Hs)%list_elem_of_omap. cbn in Hs. subst o.
  apply list_elem_of_lookup in Ho as [i Hi]. destruct (Forall2_lookup_r _ _ _ _ _ Hl Hi) as (p & _ & Hp). by eapply phdr_at_range.
Qed.

(** [elf_load] on a file whose segments can be read. *)
Lemma elf_load_segs d mem h segs : segments d = Some segs -> Forall (seg_ok d mem) segs -> disjoint_segs mem segs ->
  exists h', elf_load d mem h = Some (h', true) /\ has_segs d mem segs h h'.
Proof.
  intros Hs Hok Hd. pose proof (segments_range d segs Hs) as Hr. unfold segments in Hs. apply bind_Some in Hs as (phnum & E & Hs).
  apply bind_Some in Hs as (l & Hl & [= <-]). unfold elf_load. rewrite E. cbn [mbind option_bind].
  apply half_at_range in E. destruct (load_loop_ok d mem (Z.to_nat phnum) 0 h l) as (h' & E' & Hp); [by rewrite Z2Nat.id by lia|done|].
  exists h'. split; [done|]. apply placed_segs; [|done..]. rewrite Forall_forall in *. intros s Hs.
  destruct (Hok s Hs) as (? & ? & _). apply image_length; [apply Hr, Hs|done..].
Qed.

(** The bytes of a segment, by the guest's address. *)
Lemma has_segs_at d mem segs h h' s i : has_segs d mem segs h h' -> s ∈ segs -> seg_ok d mem s ->
  0 <= seg_copied s <= seg_size s -> 0 <= i < seg_size s ->
  Some (guest mem h' (s.(seg_vaddr) + i)) = if i <? seg_copied s then byte_at d (s.(seg_offset) + i) else Some 0.
Proof.
  intros [H1 _] Hs (Ho & Hf & (_ & _ & _ & Hp)) Hr Hi. unfold guest. rewrite Hp by lia. rewrite (H1 s) by (done || unfold in_seg; lia).
  rewrite Z.add_simpl_l. unfold image. destruct (Z.ltb_spec i (seg_copied s)).
  - rewrite app_nth1 by (rewrite length_take, length_drop; lia). unfold byte_at. rewrite (proj2 (Z.ltb_ge _ _)) by lia.
    rewrite nth_lookup, lookup_take_lt, lookup_drop, <- Z2Nat.inj_add by lia.
    destruct (lookup_lt_is_Some_2 d (Z.to_nat (s.(seg_offset) + i))) as [b ->]; [lia|]. done.
  - rewrite app_nth2, length_take, length_drop by (rewrite length_take, length_drop; lia).
    rewrite nth_lookup, lookup_replicate_2 by lia. done.
Qed.

(** An instruction word of the file, as the hart fetches it. *)
Lemma has_segs_fetch d mem segs h h' s i : has_segs d mem segs h h' -> s ∈ segs -> seg_ok d mem s -> seg_copied s <= seg_size s ->
  0 <= i -> i + 4 <= seg_copied s -> s.(seg_vaddr) + i + 4 <= HIGH_MEM_OFFSET ->
  Some (memory_ifetch mem h' (s.(seg_vaddr) + i)) = word_at d (s.(seg_offset) + i).
Proof.
  intros Hh Hs Hok Hr Hi Hc Hm. assert (Hb : forall k, 0 <= k < 4 ->
    byte_at d (s.(seg_offset) + i + k) = Some (heap_get h' (mem.(mem_base) + (s.(seg_vaddr) + i) + k))).
  { intros k Hk. rewrite <- Z.add_assoc. pose proof (has_segs_at d mem segs h h' s (i + k) Hh Hs Hok) as H.
    rewrite (proj2 (Z.ltb_lt _ _)) in H by lia. rewrite <- H by lia. unfold guest, host_addr.
    rewrite (proj2 (Z.ltb_lt _ _)) by lia. do 2 f_equal. lia. }
  unfold word_at, half_at. replace (s.(seg_offset) + i + 2 + 1) with (s.(seg_offset) + i + 3) by lia.
  rewrite <- (Z.add_0_r (s.(seg_offset) + i)) at 1. rewrite !Hb by lia. cbn [mbind option_bind]. f_equal.
  unfold memory_ifetch. cbn [load]. set (x := mem.(mem_base) + (s.(seg_vaddr) + i)). rewrite (Z.add_0_r x).
  replace (x + 1 + 1) with (x + 2) by lia. replace (x + 2 + 1) with (x + 3) by lia. lia.
Qed.


(** ** Symbols *)

(** A symbol: its name is the offset of a string. *)
Record symbol : Type := mk_symbol { sym_value : Z; sym_type : Z; sym_str : Z }.
Definition symbol_at (d : list Z) (strtab sym : Z) : option symbol :=
  nm ← st_name d sym; info ← st_info d sym; value ← st_value d sym; Some (mk_symbol value (ELF_ST_TYPE info) (strtab + nm)).
Fixpoint sym_offsets (n : nat) (sym : Z) : list Z :=
  match n with O => [] | S n => sym :: sym_offsets n (sym + sizeof_Sym) end.

(** The symbol table; a file without one has no symbols. *)
Definition symbols_of (d : list Z) : option (list symbol) :=
  strtab ← get_strtab d;
  match strtab with
  | None => Some []
  | Some strtab =>
      shdr ← get_section_header d (c_string ".symtab");
      match shdr with
      | None => Some []
      | Some shdr =>
          sym ← sh_offset d shdr; size ← sh_size d shdr;
          mapM (symbol_at d strtab) (sym_offsets (sym_count sym (sym + size)) sym)
      end
  end.

(** Sections, files and other kinds have no entry in the map. *)
Definition named (s : symbol) : bool :=
  (s.(sym_type) =? STT_NOTYPE) || (s.(sym_type) =? STT_OBJECT) || (s.(sym_type) =? STT_FUNC).
Definition first_named (l : list symbol) (addr : Z) : option Z :=
  sym_str <$> List.find (fun s => named s && (s.(sym_value) =? addr)) l.
(** Address 0 has no name. *)
Definition symbol_name (l : list symbol) (addr : Z) : option Z := if addr =? 0 then None else first_named l addr.

(** What the map holds once it is filled. *)
Definition sym_table (l : list symbol) (g : gmap Z (option Z)) : Prop :=
  forall k, g !! k = if k =? 0 then Some None else Some <$> first_named l k.

Section symbols.
Context {M : Type} (syms : kv_ops M (option Z)) `{L : KvLaws M (option Z) syms u32} `{T : !KvTotal syms u32}.

Lemma fill_loop_ok d strtab n : forall sym m g l,
  mapM (symbol_at d strtab) (sym_offsets n sym) = Some l -> kv_holds m g ->
  exists m' g', fill_loop syms d strtab n sym m = Some m' /\ kv_holds m' g'
    /\ forall k, g' !! k = match g !! k with Some x => Some x | None => Some <$> first_named l k end.
Proof.
  induction n as [|n IH]; intros sym m g l Hl Hg; cbn [sym_offsets mapM] in Hl.
  - injection Hl as <-. exists m, g. split_and!; [done|done|]. intros k. by destruct (g !! k).
  - apply bind_Some in Hl as (s & Hs & Hl). apply bind_Some in Hl as (l' & Hl & [= <-]).
    unfold symbol_at in Hs. apply bind_Some in Hs as (nm & E1 & Hs). apply bind_Some in Hs as (info & E2 & Hs).
    apply bind_Some in Hs as (value & E3 & Hs). injection Hs as <-. cbn [fill_loop]. rewrite E1, E2. cbn [mbind option_bind].
    change ((ELF_ST_TYPE info =? STT_NOTYPE) || (ELF_ST_TYPE info =? STT_OBJECT) || (ELF_ST_TYPE info =? STT_FUNC))
      with (named (mk_symbol value (ELF_ST_TYPE info) (strtab + nm))).
    unfold first_named. cbn [List.find]. set (s := mk_symbol _ _ _). change value with s.(sym_value) in E3. change (strtab + nm) with s.(sym_str).
    clearbody s. destruct (named s); cbn [andb].
    + rewrite E3. cbn [mbind option_bind]. pose proof (word_at_range _ _ _ E3) as Hv.
      destruct (kv_insert_ok m g s.(sym_value) (Some s.(sym_str)) Hg) as (m1 & b & E & Hb). rewrite E. cbn [mbind option_bind].
      rewrite (u32_small s.(sym_value)) in Hb by done.
      assert (Hm1 : exists g1, kv_holds m1 g1 /\ g1 = match g !! s.(sym_value) with Some _ => g | None => <[s.(sym_value) := Some s.(sym_str)]> g end).
      { destruct (g !! s.(sym_value)) eqn:Eg.
        - destruct b; [destruct Hb; congruence|by exists g].
        - destruct (kv_insert_new m g s.(sym_value) (Some s.(sym_str)) Hg) as [m2 E']; [by rewrite u32_small|].
          rewrite E in E'. injection E' as -> ->. destruct Hb as [_ Hb]. by eexists. }
      destruct Hm1 as (g1 & Hg1 & ->). destruct (IH _ _ _ _ Hl Hg1) as (m' & g' & E4 & Hg' & Hk).
      exists m', g'. split_and!; [done|done|]. intros k. rewrite Hk. clear -Hv. destruct (Z.eqb_spec s.(sym_value) k) as [<-|Hne].
      * destruct (g !! s.(sym_value)) eqn:Eg; [by rewrite Eg|by rewrite lookup_insert_eq].
      * destruct (g !! s.(sym_value)); [done|]. by rewrite lookup_insert_ne.
    + apply (IH _ _ _ _ Hl Hg).
Qed.

Lemma sym_table_nil : sym_table [] {[0 := None]}.
Proof.
  intros k. cbn. destruct (Z.eqb_spec k 0) as [->|Hn]; [apply lookup_singleton_eq|]. by rewrite lookup_singleton_ne.
Qed.

Lemma fill_symbols_ok d m g l : symbols_of d = Some l -> kv_holds m g ->
  exists m' g', fill_symbols syms d m = Some m' /\ kv_holds m' g' /\ sym_table l g'.
Proof.
  intros Hl Hg. unfold fill_symbols. destruct (kv_clear_ok m g Hg) as (m1 & -> & H1). cbn [mbind option_bind].
  destruct (kv_insert_new m1 ∅ 0 None H1) as [m2 E2]; [apply lookup_empty|].
  destruct (kv_insert_ok m1 ∅ 0 None H1) as (m2' & b & E2' & H2). rewrite E2 in E2'. injection E2' as <- <-. destruct H2 as [_ H2].
  change (u32 0) with 0 in H2. rewrite E2. cbn [mbind option_bind]. rewrite insert_empty in H2. unfold symbols_of in Hl.
  apply bind_Some in Hl as (strtab & -> & Hl). cbn [mbind option_bind].
  destruct strtab as [strtab|]; [|injection Hl as <-; by exists m2, {[0 := None]}; split_and!; [|done|apply sym_table_nil]].
  apply bind_Some in Hl as (shdr & -> & Hl). cbn [mbind option_bind].
  destruct shdr as [shdr|]; [|injection Hl as <-; by exists m2, {[0 := None]}; split_and!; [|done|apply sym_table_nil]].
  apply bind_Some in Hl as (sym & -> & Hl). apply bind_Some in Hl as (size & -> & Hl). cbn [mbind option_bind].
  destruct (fill_loop_ok d strtab _ _ _ _ _ Hl H2) as (m' & g' & E & Hg' & Hk). exists m', g'. split_and!; [done..|].
  intros k. rewrite Hk. destruct (Z.eqb_spec k 0) as [->|Hn]; [by rewrite lookup_singleton_eq|by rewrite lookup_singleton_ne].
Qed.

(** Looking up an address names the first function, object or untyped symbol
    with that value, or none, and for address 0 always none.  The first lookup
    fills the map; every later one finds it filled with the same table. *)
Theorem elf_find_symbol_ok e d l g addr : e.(raw_data) = Some d -> symbols_of d = Some l ->
  kv_holds e.(symbols) g -> g = ∅ \/ sym_table l g -> 0 <= addr < 2 ^ 32 ->
  exists m' g', elf_find_symbol syms e addr = Some (mk_elf e.(raw_data) e.(raw_size) m', symbol_name l addr)
    /\ kv_holds m' g' /\ sym_table l g'.
Proof.
  intros Hd Hl Hg Ht Ha. unfold elf_find_symbol. rewrite Hd. cbn [mbind option_bind].
  assert (Hm : exists m' g', (if kv_empty syms e.(symbols) then fill_symbols syms d e.(symbols) else Some e.(symbols)) = Some m'
    /\ kv_holds m' g' /\ sym_table l g').
  { rewrite (kv_empty_ok _ _ Hg). case_bool_decide as E; [by apply (fill_symbols_ok d _ g)|]. destruct Ht as [->|Ht]; [done|]. by eexists _, g. }
  destruct Hm as (m' & g' & -> & Hg' & Ht'). cbn [mbind option_bind]. rewrite (kv_find_ok _ _ _ Hg'), u32_small, Ht' by done.
  exists m', g'. split_and!; [|done..]. cbn [mbind option_bind]. unfold symbol_name. destruct (addr =? 0); [done|].
  by destruct (first_named l addr).
Qed.
End symbols.

(** [elf_get_symbol] takes the first symbol of the table with the name. *)
Lemma symbol_loop_first d name strtab n : forall sym bs,
  mapM (fun o => nm ← st_name d o; strcmp_eq d name (strtab + nm)) (sym_offsets n sym) = Some bs ->
  symbol_loop d name strtab n sym = Some (fst <$> List.find snd (zip (sym_offsets n sym) bs)).
Proof.
  induction n as [|n IH]; intros sym bs H; cbn [sym_offsets mapM] in H; [by injection H as <-|].
  apply bind_Some in H as (b & Hb & H). apply bind_Some in H as (bs' & H & [= <-]).
  apply bind_Some in Hb as (nm & E1 & E2). cbn [symbol_loop sym_offsets zip_with List.find snd fst].
  rewrite E1. cbn [mbind option_bind]. rewrite E2. cbn [mbind option_bind]. destruct b; [done|]. by apply IH.
Qed.

(** ** A file with one segment and one function *)

Definition le16 (v : Z) : list Z := [u8 v; u8 (v >>. 8)].
Definition le32 (v : Z) : list Z := le16 v ++ le16 (v >>. 16).
Definition shdr (fields : list Z) : list Z := mjoin (le32 <$> fields).
(** addi x1, x0, 1 and jal x0, 0 at 0x1000, four zeros after them, the symbol
    [main]. *)
Definition elf_file : list Z :=
  [0x7f; 0x45; 0x4c; 0x46; 1; 1; 1; 0] ++ replicate 8 0 ++ le16 2 ++ le16 243 ++ le32 1 ++ le32 0x1000 ++ le32 52 ++ le32 148
  ++ le32 0 ++ le16 52 ++ le16 32 ++ le16 1 ++ le16 40 ++ le16 3 ++ le16 1
  ++ shdr [1; 84; 0x1000; 0x1000; 8; 12; 5; 4]
  ++ le32 0x100093 ++ le32 0x6f
  ++ [0] ++ c_string ".strtab" ++ [0] ++ c_string ".symtab" ++ [0] ++ c_string "main" ++ [0; 0; 0]
  ++ replicate 16 0 ++ le32 17 ++ le32 0x1000 ++ le32 8 ++ [0x12; 0] ++ le16 1
  ++ shdr [0; 0; 0; 0; 0; 0; 0; 0; 0; 0] ++ shdr [1; 3; 0; 0; 92; 24; 0; 0; 1; 0] ++ shdr [9; 2; 0; 0; 116; 32; 1; 0; 4; 16].
Definition elf_mem : memory_t := mk_memory 0x10000 0x100000 0x110000 0 0.


(** Symbols are found twice: the second time in the map. *)
Lemma elf_find_symbol_ok_witness :
  exists m1, elf_find_symbol (gmap_kv u32) (mk_elf (Some elf_file) 268 ∅) 0x1000 = Some (mk_elf (Some elf_file) 268 m1, Some 109)
    /\ holds_string elf_file (c_string "main") 109
    /\ exists m2, elf_find_symbol (gmap_kv u32) (mk_elf (Some elf_file) 268 m1) 0x1004 = Some (mk_elf (Some elf_file) 268 m2, None).
Proof.
  assert (Hs : symbols_of elf_file = Some [mk_symbol 0 0 92; mk_symbol 0x1000 2 109]) by (vm_compute; reflexivity).
  destruct (elf_find_symbol_ok (gmap_kv u32) (L := gmap_kv_laws u32 u32_idemp) (T := gmap_kv_total u32 u32_idemp)
    (mk_elf (Some elf_file) 268 ∅) elf_file _ ∅ 0x1000 eq_refl Hs) as (m1 & g1 & E1 & H1 & T1).
  - split; [done|]. intros k [x Hx]. by rewrite lookup_empty in Hx.
  - by left.
  - done.
  - exists m1. split; [exact E1|]. split; [apply strcmp_spec; vm_compute; reflexivity|].
    destruct (elf_find_symbol_ok (gmap_kv u32) (L := gmap_kv_laws u32 u32_idemp) (T := gmap_kv_total u32 u32_idemp)
      (mk_elf (Some elf_file) 268 m1) elf_file _ g1 0x1004 eq_refl Hs H1) as (m2 & _ & E2 & _); [by right|done|].
    exists m2. exact E2.
Defined.
