(* ===== verification/Boot.v ===== *)
(** * Creating a machine for a program (src/rv32emu/src/riscv.c, io.c)

    [rv_create] of the user build without the JIT: the memory, the reset with
    the program's arguments, the standard streams, and the ELF file.  The
    address and the contents of a new mapping, the program's file and the
    host's streams are arguments.  [None] is a failed assertion or undefined
    behaviour; the pools and the block map are created as in [rv_new]. *)

From Stdlib Require Import ZArith Lia Bool String.
From stdpp Require Import base list numbers gmap strings.
From S2P Require Import Prelude Decode Riscv Memory MapClient Syscall Elf.

(** ** Memory *)

(** [mapped] is the result of [mmap]; [junk] the three fields that the
    function does not initialise. *)
Definition memory_new (size : Z) (malloc_ok : bool) (mapped : option Z) (junk : Z * Z * Z) : option memory_t :=
  if size =? 0 then None else
  if negb malloc_ok then None else
  match mapped with
  | None => None
  | Some base => let '(high, loc, lsize) := junk in Some (mk_memory base size high loc lsize)
  end.

(** ** Reset *)

Definition RV_MVENDORID : Z := 0x12345678.
Definition RV_MARCHID : Z := (1 <<. 31) |. 1.
Definition RV_MIMPID : Z := 1.
(** Bit of an extension's letter, counted from A. *)
Definition MISA_SUPER : Z := 1 <<. 18.
Definition MISA_USER : Z := 1 <<. 20.
Definition MISA_I : Z := 1 <<. 8.
Definition MISA_M : Z := 1 <<. 12.
Definition MISA_A : Z := 1 <<. 0.
Definition MISA_F : Z := 1 <<. 5.
Definition MISA_C : Z := 1 <<. 2.
Definition ARGS_SPACE : Z := 256.

(** The attributes that the caller sets; [argc] is the length of [argv],
    whose strings are without their terminators. *)
Record vm_attr : Type := mk_vm_attr {
  a_mem_size : Z; stack_size : Z; args_offset_size : Z; argv : list (list Z); elf_program : list Z
}.

(** The copies of the arguments: the memory, the pointer after them, their
    total size and the array [args_space]. *)
Fixpoint copy_args (mem : memory_t) (args : list (list Z)) (h : heap) (args_p total : Z) : heap * Z * Z * list Z :=
  match args with
  | [] => (h, args_p, total, [])
  | arg :: args =>
      let args_len := Z.of_nat (length arg) in
      let h := fst (memory_write mem h (u32 args_p) (take (Z.to_nat (u32 (args_len + 1))) (arg ++ [0]))) in
      let '(h, p, t, space) := copy_args mem args h (u64 (args_p + (args_len + 1))) (u64 (total + (args_len + 1))) in
      (h, p, t, (args_len + 1) :: space)
  end.

(** Their addresses, eight bytes each, at every fourth byte. *)
Fixpoint push_args (mem : memory_t) (space : list Z) (h : heap) (args_p sp : Z) : heap * Z :=
  match space with
  | [] => (h, sp)
  | n :: space =>
      let h := fst (memory_write mem h (u32 sp) (bytes_of 8 args_p)) in
      push_args mem space h (u64 (args_p + n)) (u64 (sp + 4))
  end.

Definition rv_reset (a : vm_attr) (mem : memory_t) (rv : riscv) (h : heap) (pc : Z) : option (riscv * heap) :=
  let argc := Z.of_nat (length a.(argv)) in
  if ARGS_SPACE <? argc then None else
  let rv := set_X rv (repeat 0 32) in
  let rv := set_PC rv pc in
  let rv := setX rv rv_reg_sp (u32 (a.(a_mem_size) - a.(stack_size) - a.(args_offset_size))) in
  let args_size := (1 + argc + 1) * 4 in
  let args_bottom := u32 (a.(a_mem_size) - a.(stack_size)) in
  let args_top := u64 (args_bottom - args_size) &. 16 in
  let args_p := args_top in
  let h := fst (memory_write mem h (u32 args_p) (bytes_of 4 argc)) in
  let args_p := u64 (args_p + 8) in
  let '(h, args_p, args_len_total, args_space) := copy_args mem a.(argv) h args_p 0 in
  let args_p := u64 (args_p - args_len_total) in
  let args_p := u64 (args_p - 8) in
  let stack_bottom := getX rv rv_reg_sp in
  let stack_top := u64 (stack_bottom - (1 + argc + 1) * 4) &. u64 (-16) in
  let sp := stack_top in
  let h := fst (memory_write mem h (u32 sp) ((fun i => heap_get h (mem.(mem_base) + args_p + i)) <$> seqZ 0 4)) in
  let args_p := u64 (args_p + 8) in
  let sp := u64 (sp + 4) in
  let '(h, sp) := push_args mem args_space h args_p sp in
  let h := fst (memory_fill mem h (u32 sp) 4 0) in
  let rv := setX rv rv_reg_sp (u32 stack_top) in
  let rv := set_priv_mode rv RV_PRIV_M_MODE in
  let rv := set_csr_mtvec rv 0 in
  let rv := set_csr_cycle rv 0 in
  let rv := set_csr_mstatus rv 0 in
  let rv := set_csr_misa rv (rv.(csr_misa) |. (MISA_SUPER |. MISA_USER)) in
  let rv := set_csr_mvendorid rv RV_MVENDORID in
  let rv := set_csr_marchid rv (u32 RV_MARCHID) in
  let rv := set_csr_mimpid rv RV_MIMPID in
  let rv := set_csr_misa rv (rv.(csr_misa) |. MISA_I) in
  let rv := set_csr_misa rv (rv.(csr_misa) |. MISA_A) in
  let rv := set_csr_misa rv (rv.(csr_misa) |. MISA_C) in
  let rv := set_csr_misa rv (rv.(csr_misa) |. MISA_F) in
  let rv := set_F rv (repeat 0 32) in
  let rv := set_csr_fcsr rv 0 in
  let rv := set_csr_misa rv (rv.(csr_misa) |. MISA_M) in
  Some (set_halt rv false, h).

(** ** Standard streams *)

Definition STDIN_FILENO : Z := 0.
Definition STDOUT_FILENO : Z := 1.
Definition STDERR_FILENO : Z := 2.

(** The machine: what the system calls reach, and the rest of [vm_attr_t]
    that creation sets. *)
Record vm (F H : Type) : Type := mk_vm {
  v_sys : sys F H; exit_addr : Z; fd_stdin : Z; fd_stdout : Z; fd_stderr : Z; log_stdout : option Z
}.
Arguments mk_vm {F H}. Arguments v_sys {F H}. Arguments exit_addr {F H}. Arguments fd_stdin {F H}.
Arguments fd_stdout {F H}. Arguments fd_stderr {F H}. Arguments log_stdout {F H}.

Section create.
Context {F H : Type} (fds : kv_ops F Z) (fileno : H -> Z -> Z).
Notation vm := (vm F H).
Implicit Types v : vm.

Definition set_vsys v x : vm := mk_vm x v.(exit_addr) v.(fd_stdin) v.(fd_stdout) v.(fd_stderr) v.(log_stdout).

(** A pair with a null stream is [None]. *)
Definition remap_one v (p : Z * option Z) : option vm :=
  let '(fd, file) := p in
  match file with
  | None => Some v
  | Some file =>
      if negb ((fd =? STDIN_FILENO) || (fd =? STDOUT_FILENO) || (fd =? STDERR_FILENO)) then Some v else
      it ← kv_find fds v.(v_sys).(fd_map) fd;
      m ← match it with Some _ => kv_erase fds v.(v_sys).(fd_map) fd | None => Some v.(v_sys).(fd_map) end;
      '(m, _) ← kv_insert fds m fd file;
      let v := set_vsys v (set_fds v.(v_sys) m) in
      let new_fd := fileno v.(v_sys).(s_host) file in
      if new_fd =? -1 then None else
      Some (if fd =? STDIN_FILENO then mk_vm v.(v_sys) v.(exit_addr) new_fd v.(fd_stdout) v.(fd_stderr) v.(log_stdout)
            else if fd =? STDOUT_FILENO then mk_vm v.(v_sys) v.(exit_addr) v.(fd_stdin) new_fd v.(fd_stderr) (Some file)
            else mk_vm v.(v_sys) v.(exit_addr) v.(fd_stdin) v.(fd_stdout) new_fd v.(log_stdout))
  end.
Fixpoint rv_remap_stdstream v (fsp : list (Z * option Z)) : option vm :=
  match fsp with
  | [] => Some v
  | p :: fsp => v ← remap_one v p; rv_remap_stdstream v fsp
  end.

(** ** The machine *)

(** [exit(EXIT_FAILURE)] is a result of its own. *)
Inductive created : Type :=
  | Created (v : vm)
  | Exit_failure.

(** A symbol's value, when there is one. *)
Definition symbol_value (d : list Z) (name : string) : option (option Z) :=
  sym ← elf_get_symbol d (c_string name);
  match sym with None => Some None | Some sym => value ← st_value d sym; Some (Some value) end.

Context (file : list Z -> option (list Z)).
(** The host before creation: a new descriptor map and the three streams;
    [brk0] and [exit0] are what the caller left in [break_addr] and
    [exit_addr]. *)
Definition rv_create (a : vm_attr) (malloc_ok calloc_ok : bool) (mapped : option Z) (junk : Z * Z * Z)
    (h : heap) (m : F) (host : H) (stdin stdout stderr : Z) (brk0 exit0 : Z) : option created :=
  mem ← memory_new a.(a_mem_size) malloc_ok mapped junk;
  '(rv, h) ← rv_reset a mem (rv_zero 0) h 0;
  let v := mk_vm (mk_sys rv mem h m host brk0 0 0 false 0) exit0 0 0 0 None in
  v ← rv_remap_stdstream v [(STDIN_FILENO, Some stdin); (STDOUT_FILENO, Some stdout); (STDERR_FILENO, Some stderr)];
  '(elf, ok) ← elf_open file calloc_ok (elf_new tt) a.(elf_program);
  if negb ok then Some Exit_failure else
  d ← elf.(raw_data);
  _end ← symbol_value d "_end";
  let v := match _end with Some x => set_vsys v (set_break v.(v_sys) x) | None => v end in
  _exit ← symbol_value d "exit";
  let v := match _exit with
           | Some x => mk_vm v.(v_sys) x v.(fd_stdin) v.(fd_stdout) v.(fd_stderr) v.(log_stdout)
           | None => v
           end in
  '(h, ok) ← elf_load d mem v.(v_sys).(s_heap);
  if negb ok then None else
  let v := set_vsys v (set_sheap v.(v_sys) h) in
  entry ← e_entry d;
  match rv_set_pc v.(v_sys).(s_rv) entry with
  | (_, false) => None
  | (rv, true) => Some (Created (set_vsys v (set_srv v.(v_sys) rv)))
  end.
End create.
