(* ===== verification/BootSpec.v ===== *)
(** * A program starts with its arguments, its image and its streams

    The start of a C program on RV32 finds [argc] where the stack pointer
    points, the addresses of the arguments after it and a null word after
    them.  [rv_reset] writes each address as eight bytes and moves on by four,
    so that each overwrites a half of the one before; [rv_reset_args] shows
    that the words come out right all the same.  [rv_create_start] puts the
    reset, the loader and the descriptors together. *)

From Stdlib Require Import ZArith Lia Bool String.
From stdpp Require Import base list numbers gmap strings.
From S2P Require Import Prelude Decode Riscv Exec ExecWf Memory MemorySpec Buffers MapClient Syscall Elf ElfSpec Boot.

(** ** Arguments in memory *)

(** The strings one after the other, each with its terminator. *)
Definition arg_strings (args : list (list Z)) : list Z := mjoin ((fun arg => arg ++ [0]) <$> args).
Definition arg_sizes (args : list (list Z)) : list Z := (fun arg => Z.of_nat (length arg) + 1) <$> args.
Definition strings_size (args : list (list Z)) : Z := Z.of_nat (length (arg_strings args)).
(** Where each string begins. *)
Fixpoint arg_addrs (p : Z) (args : list (list Z)) : list Z :=
  match args with [] => [] | arg :: args => p :: arg_addrs (p + (Z.of_nat (length arg) + 1)) args end.

Lemma strings_size_cons arg args : strings_size (arg :: args) = Z.of_nat (length arg) + 1 + strings_size args.
Proof.
  unfold strings_size, arg_strings. cbn [fmap list_fmap mjoin list_join]. rewrite !length_app. cbn [length].
  change (mjoin ((fun x => x ++ [0]) <$> args)) with (arg_strings args). lia.
Qed.
Lemma strings_size_nonneg args : 0 <= strings_size args.
Proof. apply Nat2Z.is_nonneg. Qed.

Lemma u64_small z : 0 <= z < 2 ^ 64 -> u64 z = z.
Proof. apply Z.mod_small. Qed.

Lemma copy_args_ok mem args : forall h p total, 0 <= p -> p + strings_size args < HIGH_MEM_OFFSET ->
  0 <= total -> total + strings_size args < 2 ^ 64 ->
  exists h', copy_args mem args h p total = (h', p + strings_size args, total + strings_size args, arg_sizes args)
    /\ stored mem h p (arg_strings args) h'.
Proof.
  unfold HIGH_MEM_OFFSET. induction args as [|arg args IH]; intros h p total Hp Hm Ht Htm.
  - exists h. split; [|apply stored_nil]. cbn [copy_args arg_sizes fmap list_fmap]. change (strings_size []) with 0. by rewrite !Z.add_0_r.
  - rewrite strings_size_cons in *. pose proof (strings_size_nonneg args). cbn [copy_args].
    rewrite (u32_small p), (u64_small (p + _)), (u64_small (total + _)), (u32_small (Z.of_nat (length arg) + 1)) by lia.
    rewrite take_ge by (rewrite length_app; cbn; lia).
    destruct (IH (fst (memory_write mem h p (arg ++ [0]))) (p + (Z.of_nat (length arg) + 1)) (total + (Z.of_nat (length arg) + 1)))
      as (h' & -> & Hs); [lia..|]. exists h'. split; [do 2 f_equal; [f_equal|]; lia|].
    unfold arg_strings. cbn [fmap list_fmap mjoin list_join]. fold (arg_strings args).
    eapply stored_app; [apply (low_piece mem p (Z.of_nat (length arg) + 1 + strings_size args)); unfold HIGH_MEM_OFFSET; lia| |apply write_stored|].
    + rewrite !length_app. cbn [length]. change (mjoin _) with (arg_strings args). fold (strings_size args). unfold strings_size. lia.
    + rewrite length_app. cbn [length]. rewrite u32_small by lia.
      by replace (p + Z.of_nat (length arg + 1)) with (p + (Z.of_nat (length arg) + 1)) by lia.
Qed.

Lemma bytes_length n : forall v, length (bytes_of n v) = n.
Proof. induction n as [|n IH]; intros v; cbn; [done|]. by rewrite IH. Qed.
Lemma bytes_u8 n : forall v, u8 <$> bytes_of n v = bytes_of n v.
Proof. induction n as [|n IH]; intros v; cbn; [done|]. rewrite IH. f_equal. unfold u8. by rewrite Z.mod_mod. Qed.
Lemma bytes_word v : 0 <= v < 2 ^ 32 -> of_bytes (bytes_of 4 v) = v.
Proof. intros. cbn [bytes_of of_bytes]. unfold u8. norm_pow. div_lia. Qed.
Lemma bytes_wide v : 0 <= v < 2 ^ 32 -> bytes_of 8 v = bytes_of 4 v ++ replicate 4 0.
Proof.
  intros Hv. cbn [bytes_of]. replace (v / 256 / 256 / 256 / 256) with 0; [done|].
  rewrite !Z.div_div by lia. symmetry. apply Z.div_small. lia.
Qed.

(** The words with the addresses. *)
Definition addr_words (p : Z) (args : list (list Z)) : list Z := mjoin (bytes_of 4 <$> arg_addrs p args).
Lemma addr_words_length args : forall p, Z.of_nat (length (addr_words p args)) = 4 * Z.of_nat (length args).
Proof.
  unfold addr_words. induction args as [|arg args IH]; intros p; [done|]. cbn [arg_addrs fmap list_fmap mjoin list_join].
  rewrite length_app, bytes_length. specialize (IH (p + (Z.of_nat (length arg) + 1))). cbn [length] in *.
  change (mjoin (bytes_of 4 <$> _)) with (addr_words (p + (Z.of_nat (length arg) + 1)) args) in IH |- *. lia.
Qed.

Lemma push_args_ok mem args : forall h p sp, 0 <= p -> p + strings_size args < 2 ^ 32 -> 0 <= sp ->
  sp + 4 * Z.of_nat (length args) + 4 < HIGH_MEM_OFFSET ->
  exists h' tail, push_args mem (arg_sizes args) h p sp = (h', sp + 4 * Z.of_nat (length args)) /\ (length tail <= 4)%nat
    /\ (args = [] -> tail = []) /\ (args <> [] -> tail = replicate 4 0) /\ stored mem h sp (addr_words p args ++ tail) h'.
Proof.
  unfold HIGH_MEM_OFFSET. induction args as [|arg args IH]; intros h p sp Hp Hm Hs Hsm.
  - exists h, []. split_and!; [|cbn; lia|done|done|apply stored_nil]. cbn. by rewrite Z.add_0_r.
  - rewrite strings_size_cons in *. pose proof (strings_size_nonneg args). cbn [length] in Hsm |- *. rewrite Nat2Z.inj_succ in *.
    unfold arg_sizes. cbn [fmap list_fmap push_args]. fold (arg_sizes args).
    rewrite (u32_small sp), (u64_small (p + _)), (u64_small (sp + 4)), bytes_wide by lia.
    set (h1 := fst _). destruct (IH h1 (p + (Z.of_nat (length arg) + 1)) (sp + 4)) as (h' & tail & E & Ht & Hn & Hc & Hst); [lia..|].
    exists h', (replicate 4 0). rewrite E. split_and!; [f_equal; lia|done|done|done|].
    assert (H1 : stored mem h sp (bytes_of 4 p ++ replicate 4 0) h1) by apply write_stored.
    unfold addr_words. cbn [arg_addrs fmap list_fmap mjoin list_join]. fold (addr_words (p + (Z.of_nat (length arg) + 1)) args).
    destruct args as [|arg2 args].
    + rewrite Hn in Hst by done. injection E as <- _. cbn. done.
    + rewrite Hc in Hst by done. rewrite <- app_assoc. set (w := addr_words _ _) in *.
      assert (Hw : Z.of_nat (length w) = 4 * Z.of_nat (length (arg2 :: args))) by apply addr_words_length. cbn [length] in Hw, Hsm.
      eapply (stored_onto mem h sp (bytes_of 4 p) (replicate 4 0) (w ++ replicate 4 0) h1 h' (4 + Z.of_nat (length w) + 4));
        [apply low_piece; unfold HIGH_MEM_OFFSET; lia| | |done|].
      * rewrite !length_app, bytes_length, length_replicate. lia.
      * rewrite length_app, !length_replicate. lia.
      * rewrite bytes_length, u32_small by lia. done.
Qed.

(** ** The reset *)

Definition argc (a : vm_attr) : Z := Z.of_nat (length a.(argv)).
Definition stack_bottom (a : vm_attr) : Z := u32 (a.(a_mem_size) - a.(stack_size) - a.(args_offset_size)).
Definition stack_top (a : vm_attr) : Z := u64 (stack_bottom a - (1 + argc a + 1) * 4) &. u64 (-16).
Definition args_top (a : vm_attr) : Z := u64 (u32 (a.(a_mem_size) - a.(stack_size)) - (1 + argc a + 1) * 4) &. 16.

(** There is room for the arguments. *)
Definition args_fit (a : vm_attr) : Prop :=
  argc a <= 256 /\ (1 + argc a + 1) * 4 <= stack_bottom a /\ stack_bottom a < HIGH_MEM_OFFSET
  /\ args_top a + 8 + strings_size a.(argv) <= stack_top a.

Lemma args_top_cases a : args_top a = 0 \/ args_top a = 16.
Proof.
  unfold args_top. rewrite (land_mask _ 4 1 16) by (done || lia). pose proof (bits_range 4 1 (u64 (u32 (a_mem_size a - stack_size a) - (1 + argc a + 1) * 4))).
  lia.
Qed.
Lemma stack_top_align a : (1 + argc a + 1) * 4 <= stack_bottom a ->
  stack_top a mod 16 = 0 /\ stack_bottom a - (1 + argc a + 1) * 4 - 16 < stack_top a <= stack_bottom a - (1 + argc a + 1) * 4
  /\ 0 <= stack_top a.
Proof.
  intros H. unfold stack_top. assert (0 <= stack_bottom a < 2 ^ 32) by apply u32_range. assert (0 <= argc a) by apply Nat2Z.is_nonneg.
  rewrite (land_mask _ 4 60 (u64 (-16))) by (done || lia). rewrite u64_small by lia.
  set (x := stack_bottom a - (1 + argc a + 1) * 4) in *. unfold bits. rewrite (Z.mod_small (x / 2 ^ 4)).
  - split; [apply Z.mod_mul; lia|]. pose proof (Z.div_mod x (2 ^ 4)). pose proof (Z.mod_pos_bound x (2 ^ 4)).
    assert (0 <= x / 2 ^ 4) by (apply Z.div_pos; lia). lia.
  - split; [apply Z.div_pos; lia|]. apply Z.div_lt_upper_bound; lia.
Qed.

(** The memory after the reset, by its three parts. *)
Definition args_placed (a : vm_attr) (mem : memory_t) (h h' : heap) : Prop :=
  exists h1 h2, stored mem h (args_top a) (bytes_of 4 (argc a)) h1
    /\ stored mem h1 (args_top a + 8) (arg_strings a.(argv)) h2
    /\ stored mem h2 (stack_top a) (bytes_of 4 (argc a) ++ addr_words (args_top a + 8) a.(argv) ++ replicate 4 0) h'.
(** The hart after it. *)
Definition hart_reset (rv : riscv) (pc sp : Z) : Prop :=
  rv.(PC) = pc /\ rv.(X) = <[2%nat := sp]> (repeat 0 32) /\ rv.(F) = repeat 0 32 /\ rv.(halt) = false
  /\ rv.(priv_mode) = RV_PRIV_M_MODE /\ rv.(csr_mstatus) = 0 /\ rv.(csr_mtvec) = 0 /\ rv.(csr_cycle) = 0 /\ rv.(csr_fcsr) = 0.

Lemma rv_reset_ok a mem rv h pc : args_fit a ->
  exists rv' h', rv_reset a mem rv h pc = Some (rv', h') /\ hart_reset rv' pc (stack_top a) /\ args_placed a mem h h'.
Proof.
  intros (Hc & Hb & Hh & Hf). destruct (stack_top_align a Hb) as (_ & Hs & Hs0). pose proof (args_top_cases a) as Ht.
  pose proof (strings_size_nonneg a.(argv)) as Hn. assert (0 <= argc a) as Hc0 by apply Nat2Z.is_nonneg.
  unfold rv_reset. fold (argc a). rewrite (proj2 (Z.ltb_ge _ _)) by (unfold ARGS_SPACE; lia). fold (args_top a).
  assert (HH : HIGH_MEM_OFFSET < 2 ^ 32) by done.
  rewrite (u32_small (args_top a)), (u64_small (args_top a + 8)) by lia.
  set (h1 := fst (memory_write mem h (args_top a) (bytes_of 4 (argc a)))).
  assert (H1 : stored mem h (args_top a) (bytes_of 4 (argc a)) h1) by apply write_stored.
  destruct (copy_args_ok mem a.(argv) h1 (args_top a + 8) 0) as (h2 & -> & H2); [lia..|].
  rewrite Z.add_0_l. replace (args_top a + 8 + strings_size (argv a) - strings_size (argv a)) with (args_top a + 8) by lia.
  rewrite (u64_small (args_top a + 8)) by lia. replace (args_top a + 8 - 8) with (args_top a) by lia.
  rewrite (u64_small (args_top a)), (u64_small (args_top a + 8)) by lia.
  match goal with |- context [getX ?r rv_reg_sp] => set (rv1 := r) end.
  assert (Esp : getX rv1 rv_reg_sp = stack_bottom a) by reflexivity. rewrite Esp. fold (stack_top a).
  rewrite (u32_small (stack_top a)), (u64_small (stack_top a + 4)) by lia.
  assert (Er : (fun i => heap_get h2 (mem.(mem_base) + args_top a + i)) <$> seqZ 0 4 = bytes_of 4 (argc a)).
  { rewrite <- low_addr by lia. change (memory_read mem h2 (args_top a) 4 = bytes_of 4 (argc a)).
    rewrite (stored_other mem h1 (args_top a + 8) (arg_strings a.(argv)) h2 _ _ H2) by (left; rewrite !low_addr by lia; lia).
    assert (P1 : one_piece mem (args_top a) (Z.of_nat (length (bytes_of 4 (argc a))))) by (rewrite bytes_length; apply low_piece; lia).
    rewrite <- (Z.add_0_r (args_top a)), (stored_read mem h _ _ h1 0 4 P1 H1) by (rewrite ?bytes_length; lia).
    rewrite drop_0, take_ge, bytes_u8 by (rewrite bytes_length; lia). done. }
  rewrite Er. set (h3 := fst (memory_write mem h2 (stack_top a) (bytes_of 4 (argc a)))).
  assert (H3 : stored mem h2 (stack_top a) (bytes_of 4 (argc a)) h3) by apply write_stored.
  destruct (push_args_ok mem a.(argv) h3 (args_top a + 8) (stack_top a + 4)) as (h4 & tail & -> & Hl & _ & _ & H4); [unfold argc in *; lia..|].
  fold (argc a). rewrite (u32_small (stack_top a + 4 + _)) by lia. set (h5 := fst (memory_fill _ _ _ _ _)).
  assert (H5 : stored mem h4 (stack_top a + 4 + 4 * argc a) (replicate 4 0) h5) by (apply (fill_stored mem h4 _ 4 0); lia).
  eexists _, h5. split; [reflexivity|]. split.
  - unfold hart_reset. split_and!; reflexivity.
  - exists h1, h2. split_and!; [done..|]. assert (Hw := addr_words_length a.(argv) (args_top a + 8)). fold (argc a) in Hw.
    assert (H45 : stored mem h3 (stack_top a + 4) (addr_words (args_top a + 8) a.(argv) ++ replicate 4 0) h5).
    { eapply (stored_onto mem h3 _ _ tail _ h4 h5 (4 * argc a + 4)); [apply low_piece; lia| | |done|].
      - rewrite length_app, length_replicate. lia.
      - by rewrite length_replicate.
      - rewrite Hw, u32_small by lia. done. }
    eapply (stored_app mem h2 _ _ _ h3 h5 (4 + 4 * argc a + 4)); [apply low_piece; lia| |done|].
    + rewrite !length_app, bytes_length, length_replicate. lia.
    + rewrite bytes_length, u32_small by lia. done.
Qed.

(** ** What the program finds *)

Definition arg_addr (a : vm_attr) (i : nat) : Z := args_top a + 8 + strings_size (take i a.(argv)).
(** The stack as the program's start reads it. *)
Definition args_ready (a : vm_attr) (mem : memory_t) (h : heap) : Prop :=
  memory_read_w mem h (stack_top a) = argc a
  /\ (forall i arg, a.(argv) !! i = Some arg ->
        memory_read_w mem h (stack_top a + 4 + 4 * Z.of_nat i) = arg_addr a i
        /\ memory_read mem h (arg_addr a i) (Z.of_nat (length arg) + 1) = (u8 <$> arg) ++ [0])
  /\ memory_read_w mem h (stack_top a + 4 + 4 * argc a) = 0.

Lemma drop_app_len {A} (l k : list A) n m : n = length l -> drop (n + m) (l ++ k) = drop m k.
Proof. intros ->. by rewrite drop_app_add. Qed.
Lemma strings_at args : forall i arg, args !! i = Some arg ->
  exists post, drop (Z.to_nat (strings_size (take i args))) (arg_strings args) = arg ++ [0] ++ post.
Proof.
  induction args as [|a0 args IH]; intros [|i] arg Hi; try done.
  - injection Hi as ->. exists (arg_strings args). unfold arg_strings. cbn. by rewrite <- app_assoc.
  - destruct (IH i arg Hi) as [post E]. exists post. rewrite <- E. cbn [take]. rewrite strings_size_cons.
    pose proof (strings_size_nonneg (take i args)). rewrite Z2Nat.inj_add, Z2Nat.inj_add, Nat2Z.id by lia.
    unfold arg_strings at 1. cbn [fmap list_fmap mjoin list_join]. apply drop_app_len. rewrite length_app. done.
Qed.
Lemma addr_words_at args : forall p i, (i < length args)%nat ->
  exists post, drop (4 * i) (addr_words p args) = bytes_of 4 (p + strings_size (take i args)) ++ post.
Proof.
  induction args as [|a0 args IH]; intros p [|i] Hi; cbn [length] in Hi; try lia.
  - exists (addr_words (p + (Z.of_nat (length a0) + 1)) args). cbn [take]. change (strings_size []) with 0. by rewrite Z.add_0_r.
  - destruct (IH (p + (Z.of_nat (length a0) + 1)) i) as [post E]; [lia|]. exists post. cbn [take]. rewrite strings_size_cons.
    rewrite (Z.add_assoc p), <- E. replace (4 * S i)%nat with (4 + 4 * i)%nat by lia.
    unfold addr_words at 1. cbn [arg_addrs fmap list_fmap mjoin list_join]. by apply drop_app_len.
Qed.

(** The parts of memory that the reset writes for the program. *)
Definition args_area (a : vm_attr) (x : Z) : Prop :=
  args_top a + 8 <= x < args_top a + 8 + strings_size a.(argv) \/ stack_top a <= x < stack_top a + 4 * argc a + 8.

Lemma strings_size_take args : forall i arg, args !! i = Some arg ->
  0 <= strings_size (take i args) /\ strings_size (take i args) + (Z.of_nat (length arg) + 1) <= strings_size args.
Proof.
  intros i arg Hi. split; [apply strings_size_nonneg|]. revert i Hi.
  induction args as [|a0 args IH]; intros [|i] Hi; try done.
  - injection Hi as ->. cbn [take]. change (strings_size []) with 0. rewrite strings_size_cons. pose proof (strings_size_nonneg args). lia.
  - cbn [take]. rewrite !strings_size_cons. specialize (IH i Hi). lia.
Qed.

Lemma read_same mem h h' b n : 0 <= b -> b + n < HIGH_MEM_OFFSET ->
  (forall x, b <= x < b + n -> heap_get h' (mem.(mem_base) + x) = heap_get h (mem.(mem_base) + x)) ->
  memory_read mem h' b n = memory_read mem h b n.
Proof.
  intros Hb Hn Hx. unfold memory_read. apply list_fmap_ext. intros i x Hi. apply lookup_seqZ in Hi as [-> Hi].
  rewrite low_addr by lia. rewrite <- Z.add_assoc. apply Hx. lia.
Qed.

Lemma args_placed_ready a mem h h' h'' : args_fit a -> args_placed a mem h h' ->
  (forall x, args_area a x -> heap_get h'' (mem.(mem_base) + x) = heap_get h' (mem.(mem_base) + x)) -> args_ready a mem h''.
Proof.
  intros (Hc & Hb & Hh & Hf) (h1 & h2 & _ & H2 & H3) Hx. destruct (stack_top_align a Hb) as (_ & Hs & Hs0).
  pose proof (args_top_cases a) as Ht. pose proof (strings_size_nonneg a.(argv)) as Hn. assert (0 <= argc a) as Hc0 by apply Nat2Z.is_nonneg.
  assert (HH : HIGH_MEM_OFFSET < 2 ^ 32) by done. assert (Hw := addr_words_length a.(argv) (args_top a + 8)). fold (argc a) in Hw.
  set (block := bytes_of 4 (argc a) ++ addr_words (args_top a + 8) a.(argv) ++ replicate 4 0) in *.
  assert (Hbl : Z.of_nat (length block) = 4 * argc a + 8) by (unfold block; rewrite !length_app, bytes_length, length_replicate; lia).
  assert (Hword : forall o v post, 0 <= o -> o + 4 <= Z.of_nat (length block) -> 0 <= v < 2 ^ 32 ->
    drop (Z.to_nat o) block = bytes_of 4 v ++ post -> memory_read_w mem h'' (stack_top a + o) = v).
  { intros o v post Ho Hl Hv E. rewrite load_read, (read_same mem h' h'') by (lia || (intros x Hi; apply Hx; right; lia)).
    rewrite (stored_read mem h2 (stack_top a) block h' o 4) by (done || lia || (apply low_piece; lia)).
    rewrite E, take_app_le, take_ge, bytes_u8 by (rewrite bytes_length; lia). by apply bytes_word. }
  split_and!.
  - rewrite <- (Z.add_0_r (stack_top a)). by eapply (Hword 0); [lia|lia|lia|rewrite drop_0; reflexivity].
  - intros i arg Hi. destruct (strings_size_take _ i arg Hi) as [Hi0 Hi1]. split.
    + assert (Hil : (i < length a.(argv))%nat) by (by eapply lookup_lt_Some). unfold argc in *.
      destruct (addr_words_at a.(argv) (args_top a + 8) i Hil) as [post E]. rewrite <- Z.add_assoc.
      apply (Hword _ _ (post ++ replicate 4 0)); [lia|lia|unfold arg_addr; lia|].
      rewrite Z2Nat.inj_add by lia. unfold block. rewrite drop_app_len by (by rewrite bytes_length).
      replace (Z.to_nat (4 * Z.of_nat i)) with (4 * i)%nat by lia. rewrite drop_app_le by lia. rewrite E, <- app_assoc. done.
    + unfold arg_addr. rewrite (read_same mem h' h'') by (lia || (intros x Hi'; apply Hx; left; lia)).
      rewrite (stored_other mem h2 (stack_top a) block h' _ _ H3) by (left; rewrite !low_addr by lia; lia).
      rewrite (stored_read mem h1 (args_top a + 8) (arg_strings a.(argv)) h2) by (done || (unfold strings_size in *; lia) || (apply low_piece; unfold strings_size in *; lia)).
      destruct (strings_at a.(argv) i arg Hi) as [post ->]. rewrite app_assoc, take_app_le, take_ge by (rewrite length_app; cbn; lia).
      rewrite fmap_app. done.
  - rewrite <- Z.add_assoc. apply (Hword _ _ []); [lia|lia|lia|]. rewrite Z2Nat.inj_add by lia. unfold block.
    rewrite drop_app_len by (by rewrite bytes_length). rewrite <- (Nat.add_0_r (Z.to_nat (4 * argc a))), drop_app_len by lia. done.
Qed.

Section create.
Context {F H : Type} (fds : kv_ops F Z) `{L : KvLaws F Z fds s32} `{T : !KvTotal fds s32}.
Context (fileno : H -> Z -> Z) (file : list Z -> option (list Z)).

(** A standard stream is bound, in the place of the one that was there. *)
Lemma remap_one_ok (v : vm F H) g fd f : kv_holds v.(v_sys).(fd_map) g -> 0 <= fd <= 2 -> fileno v.(v_sys).(s_host) f <> -1 ->
  exists v' m', remap_one fds fileno v (fd, Some f) = Some v' /\ v'.(v_sys) = set_fds v.(v_sys) m'
    /\ v'.(exit_addr) = v.(exit_addr) /\ kv_holds m' (<[fd := f]> g).
Proof.
  intros Hg Hfd Hno. unfold remap_one. unfold STDIN_FILENO, STDOUT_FILENO, STDERR_FILENO.
  assert (Es : s32 fd = fd) by (apply s32_small; lia).
  assert (Hm : exists m1, match g !! fd with Some _ => kv_erase fds v.(v_sys).(fd_map) fd | None => Some v.(v_sys).(fd_map) end = Some m1
    /\ kv_holds m1 (delete fd g)).
  { destruct (g !! fd) eqn:E; [destruct (kv_erase_ok _ _ fd Hg) as (m1 & -> & Hm1); rewrite Es in Hm1; by exists m1|].
    exists v.(v_sys).(fd_map). by rewrite delete_id. }
  destruct Hm as (m1 & Em & Hm1).
  destruct (kv_insert_new m1 (delete fd g) fd f Hm1) as [m2 E2]; [by rewrite Es, lookup_delete_eq|].
  destruct (kv_insert_ok m1 (delete fd g) fd f Hm1) as (m2' & b & E2' & H2). rewrite E2 in E2'. injection E2' as <- <-.
  destruct H2 as [_ H2]. rewrite Es, insert_delete_eq in H2.
  replace (negb ((fd =? 0) || (fd =? 1) || (fd =? 2))) with false by (bool_cases; done || lia).
  rewrite (kv_find_ok _ _ _ Hg), Es. cbn [mbind option_bind]. rewrite Em. cbn [mbind option_bind]. rewrite E2. cbn [mbind option_bind].
  cbn [v_sys set_vsys s_host set_fds]. rewrite (proj2 (Z.eqb_neq _ _) Hno). eexists _, m2. split; [reflexivity|].
  destruct (fd =? 0); [done|]. by destruct (fd =? 1).
Qed.

Definition std_streams (stdin stdout stderr : Z) : gmap Z Z := <[2 := stderr]> (<[1 := stdout]> (<[0 := stdin]> ∅)).

Lemma std_remap_ok (v : vm F H) i o e : kv_holds v.(v_sys).(fd_map) ∅ -> Forall (fun f => fileno v.(v_sys).(s_host) f <> -1) [i; o; e] ->
  exists v' m', rv_remap_stdstream fds fileno v [(STDIN_FILENO, Some i); (STDOUT_FILENO, Some o); (STDERR_FILENO, Some e)] = Some v'
    /\ v'.(v_sys) = set_fds v.(v_sys) m' /\ v'.(exit_addr) = v.(exit_addr) /\ kv_holds m' (std_streams i o e).
Proof.
  intros Hg Hno. rewrite !Forall_cons in Hno. destruct Hno as (N1 & N2 & N3 & _).
  destruct (remap_one_ok v ∅ 0 i Hg) as (v1 & m1 & E1 & S1 & X1 & G1); [lia|done|].
  destruct (remap_one_ok v1 (<[0 := i]> ∅) 1 o) as (v2 & m2 & E2 & S2 & X2 & G2); [by rewrite S1|lia|by rewrite S1|].
  destruct (remap_one_ok v2 (<[1 := o]> (<[0 := i]> ∅)) 2 e) as (v3 & m3 & E3 & S3 & X3 & G3); [by rewrite S2|lia|by rewrite S2, S1|].
  exists v3, m3. unfold STDIN_FILENO, STDOUT_FILENO, STDERR_FILENO. cbn [rv_remap_stdstream].
  rewrite E1. cbn [mbind option_bind]. rewrite E2. cbn [mbind option_bind]. rewrite E3. split_and!; [done| |congruence|done].
  by rewrite S3, S2, S1.
Qed.

End create.

(** The program of ElfSpec.v with the arguments "a" and "bc", which land at
    address 24. *)
Definition attr0 : vm_attr := mk_vm_attr 0x100000 0x1000 0x400 [[0x61]; [0x62; 0x63]] [0x61].
