(* ===== verification/Gdb.v ===== *)
(** * The debugger's target operations (src/rv32emu/src/breakpoint.c, gdbstub.c)

    The operations that [rv_debug] hands to the remote stub: registers,
    memory, breakpoints, one step, and running to a breakpoint.  Breakpoints
    are a map of map.c from addresses to [breakpoint_t], through the interface
    of MapClient.v.  The flag [is_interrupted] is set by another thread; what
    the loop of [rv_cont] reads of it in each turn is the argument [intr]. *)

From Stdlib Require Import ZArith Lia Bool.
From stdpp Require Import base list numbers gmap.
From S2P Require Import Prelude Decode Riscv Exec Block Step MapClient.

(** ** Breakpoints *)

Record breakpoint_t : Type := mk_breakpoint { bp_addr : Z; orig_insn : Z }.
Definition BP_SOFTWARE : Z := 0.
Definition EFAULT : Z := 14.

Section breakpoints.
Context {M : Type} (ops : kv_ops M breakpoint_t).

Definition breakpoint_map_insert (map : M) (addr : Z) : option (M * bool) :=
  it ← kv_find ops map addr;
  match it with
  | Some _ => Some (map, false)
  | None => kv_insert ops map addr (mk_breakpoint addr 0)
  end.

(** The function reads the entry's eight bytes as a pointer, and so returns
    the address of the breakpoint as if it were one. *)
Definition breakpoint_map_find (map : M) (addr : Z) : option Z :=
  it ← kv_find ops map addr;
  match it with
  | None => Some 0
  | Some bp => Some (u64 (bp.(bp_addr) + bp.(orig_insn) <<. 32))
  end.

Definition breakpoint_map_del (map : M) (addr : Z) : option (M * bool) :=
  it ← kv_find ops map addr;
  match it with
  | None => Some (map, false)
  | Some _ => map ← kv_erase ops map addr; Some (map, true)
  end.
End breakpoints.

(** ** The target *)

(** The fields of the hart that only the debugger uses. *)
Record target (W M : Type) : Type := mk_target {
  t_m : machine W; breakpoint_map : M; is_interrupted : bool
}.
Arguments mk_target {W M}. Arguments t_m {W M}. Arguments breakpoint_map {W M}. Arguments is_interrupted {W M}.

Section target.
Context {W M : Type} (ops : kv_ops M breakpoint_t).
Context (io : riscv_io W) (sf : softfloat) (tt_direct : Z -> Z -> W -> W * bool) (mailbox_stalled : Z -> W -> bool).
Notation target := (target W M).
Implicit Types t : target.

Definition set_tm t m : target := mk_target m t.(breakpoint_map) t.(is_interrupted).
Definition set_bps t b : target := mk_target t.(t_m) b t.(is_interrupted).
Definition set_interrupted t b : target := mk_target t.(t_m) t.(breakpoint_map) b.

(** [rv_debug] up to [gdbstub_run]: [map] is a new map. *)
Definition rv_debug_start (m : machine W) (map : M) : target := mk_target m map false.

Definition rv_get_reg_bytes (regno : Z) : Z := 4.
(** The error number, and the word that is stored at [data]. *)
Definition rv_read_reg t (regno : Z) : Z * option Z :=
  if 32 <? regno then (EFAULT, None)
  else if regno =? 32 then (0, Some (rv_get_pc t.(t_m).(m_rv)))
  else (0, Some (rv_get_reg t.(t_m).(m_rv) (u32 regno))).
Definition rv_write_reg t (regno data : Z) : target * Z :=
  if 32 <? regno then (t, EFAULT)
  else if regno =? 32 then (set_tm t (set_rv t.(t_m) (fst (rv_set_pc t.(t_m).(m_rv) data))), 0)
  else (set_tm t (set_rv t.(t_m) (rv_set_reg t.(t_m).(m_rv) (u32 regno) data)), 0).

(** The loops over [len] bytes. *)
Fixpoint read_mem_loop (m : machine W) (addr : Z) (len : nat) : machine W * list Z :=
  match len with
  | O => (m, [])
  | S len =>
      let '(b, w) := io.(mem_read_b) m.(m_rv) m.(m_w) (u32 addr) in
      let '(m, l) := read_mem_loop (set_w m w) (addr + 1) len in
      (m, b :: l)
  end.
Definition rv_read_mem t (addr len : Z) : target * list Z * Z :=
  let '(m, l) := read_mem_loop t.(t_m) addr (Z.to_nat len) in (set_tm t m, l, 0).
Fixpoint write_mem_loop (m : machine W) (addr : Z) (val : list Z) : machine W :=
  match val with
  | [] => m
  | b :: val => write_mem_loop (set_w m (io.(mem_write_b) m.(m_rv) m.(m_w) (u32 addr) b)) (addr + 1) val
  end.
Definition rv_write_mem t (addr : Z) (val : list Z) : target * Z := (set_tm t (write_mem_loop t.(t_m) addr val), 0).

Definition rv_set_bp t (addr type : Z) : option (target * bool) :=
  if negb (type =? BP_SOFTWARE) then Some (t, false) else
  '(b, ok) ← breakpoint_map_insert ops t.(breakpoint_map) (u32 addr); Some (set_bps t b, ok).
Definition rv_del_bp t (addr type : Z) : option (target * bool) :=
  if negb (type =? BP_SOFTWARE) then Some (t, false) else
  '(b, _) ← breakpoint_map_del ops t.(breakpoint_map) (u32 addr); Some (set_bps t b, true).

Definition rv_on_interrupt t : target := set_interrupted t true.

Definition rv_stepi t : option target :=
  m ← rv_step_debug io sf tt_direct mailbox_stalled t.(t_m); Some (set_tm t m).

(** The loop of [rv_cont]: it is left, undefined behaviour, or the fuel is
    not enough.  [intr k] is the flag in turn [k]. *)
Inductive cont_end : Type := Stopped | Broken | Busy.

Fixpoint cont_loop (intr : nat -> bool) (fuel k : nat) t : target * cont_end :=
  match fuel with
  | O => (t, Busy)
  | S fuel =>
      if negb (rv_has_halted t.(t_m).(m_rv)) && negb (intr k) then
        match breakpoint_map_find ops t.(breakpoint_map) (rv_get_pc t.(t_m).(m_rv)) with
        | None => (t, Broken)
        | Some p =>
            if nz p then (t, Stopped) else
            match rv_step_debug io sf tt_direct mailbox_stalled t.(t_m) with
            | None => (t, Broken)
            | Some m => cont_loop intr fuel (S k) (set_tm t m)
            end
        end
      else (t, Stopped)
  end.
Definition rv_cont (intr : nat -> bool) (fuel : nat) t : target * cont_end :=
  match cont_loop intr fuel 0 t with
  | (t, Stopped) => (set_interrupted t false, Stopped)
  | r => r
  end.
End target.
