(* ===== verification/GdbSpec.v ===== *)
(** * The debugger stops where it should

    Against a set of addresses: after any sequence of commands that set and
    delete breakpoints the map holds exactly the live ones, each command
    answers as on the set, and [rv_cont] stops at the first state of the
    hart's steps that is halted, interrupted or at a live breakpoint.  Address
    0 is an exception: the code cannot tell its breakpoint from none. *)

From Stdlib Require Import ZArith Lia Bool.
From stdpp Require Import base list numbers gmap sets.
From S2P Require Import Prelude Decode Riscv Exec ExecWf Memory MemorySpec Block BlockMapSpec Step MapClient Gdb.

(** ** Commands on a set of addresses *)

Inductive bp_cmd : Type := SetBp (addr type : Z) | DelBp (addr type : Z).

Definition spec_cmd (live : gset Z) (c : bp_cmd) : gset Z * bool :=
  match c with
  | SetBp addr type =>
      if negb (type =? BP_SOFTWARE) then (live, false)
      else if bool_decide (u32 addr ∈ live) then (live, false) else ({[u32 addr]} ∪ live, true)
  | DelBp addr type => if negb (type =? BP_SOFTWARE) then (live, false) else (live ∖ {[u32 addr]}, true)
  end.
Fixpoint spec_cmds (live : gset Z) (cs : list bp_cmd) : gset Z * list bool :=
  match cs with
  | [] => (live, [])
  | c :: cs => let '(live, r) := spec_cmd live c in let '(live, rs) := spec_cmds live cs in (live, r :: rs)
  end.

Section session.
Context {W M : Type} (ops : kv_ops M breakpoint_t) `{L : KvLaws M breakpoint_t ops u32} `{T : !KvTotal ops u32}.
Context (io : riscv_io W) (sf : softfloat) (tt_direct : Z -> Z -> W -> W * bool) (mailbox_stalled : Z -> W -> bool).
Notation target := (target W M).
Implicit Types t : target.

Definition run_cmd t (c : bp_cmd) : option (target * bool) :=
  match c with SetBp addr type => rv_set_bp ops t addr type | DelBp addr type => rv_del_bp ops t addr type end.
Fixpoint run_cmds t (cs : list bp_cmd) : option (target * list bool) :=
  match cs with
  | [] => Some (t, [])
  | c :: cs => '(t, r) ← run_cmd t c; '(t, rs) ← run_cmds t cs; Some (t, r :: rs)
  end.

(** The map holds the breakpoints of a set. *)
Definition bps_of (b : M) (live : gset Z) : Prop :=
  exists g, kv_holds b g /\ forall k, g !! k = if decide (k ∈ live) then Some (mk_breakpoint k 0) else None.

Lemma run_cmd_ok t live c : bps_of t.(breakpoint_map) live ->
  exists b, run_cmd t c = Some (set_bps t b, snd (spec_cmd live c)) /\ bps_of b (fst (spec_cmd live c)).
Proof.
  intros (g & Hg & Hl). destruct c as [addr type|addr type]; cbn [run_cmd spec_cmd]; [unfold rv_set_bp|unfold rv_del_bp];
    (destruct (type =? BP_SOFTWARE); cbn [negb]; [|exists t.(breakpoint_map); split; [by destruct t|by exists g]]).
  - unfold breakpoint_map_insert. rewrite (kv_find_ok _ _ _ Hg), u32_idemp, Hl. cbn [mbind option_bind].
    destruct (decide (u32 addr ∈ live)) as [Hin|Hout].
    + rewrite bool_decide_true by done. exists t.(breakpoint_map). split; [by destruct t|by exists g].
    + rewrite bool_decide_false by done. cbn [fst snd].
      destruct (kv_insert_new _ g (u32 addr) (mk_breakpoint (u32 addr) 0) Hg) as [b E]; [rewrite u32_idemp, Hl; by rewrite decide_False|].
      destruct (kv_insert_ok _ g (u32 addr) (mk_breakpoint (u32 addr) 0) Hg) as (b' & f & E' & Hb). rewrite E in E'. injection E' as <- <-.
      destruct Hb as [_ Hb]. rewrite u32_idemp in Hb. rewrite E. exists b. split; [done|]. eexists. split; [exact Hb|].
      intros k. destruct (decide (u32 addr = k)) as [<-|Hne]; [rewrite lookup_insert_eq, decide_True by set_solver; done|].
      rewrite lookup_insert_ne, Hl by done. repeat destruct (decide _); try done; set_solver.
  - unfold breakpoint_map_del. rewrite (kv_find_ok _ _ _ Hg), u32_idemp, Hl. cbn [mbind option_bind fst snd].
    destruct (decide (u32 addr ∈ live)) as [Hin|Hout].
    + destruct (kv_erase_ok _ g (u32 addr) Hg) as (b & E & Hb). rewrite E, u32_idemp in *. exists b. split; [done|].
      eexists. split; [exact Hb|]. intros k. destruct (decide (u32 addr = k)) as [<-|Hne].
      * rewrite lookup_delete_eq, decide_False by set_solver. done.
      * rewrite lookup_delete_ne, Hl by done. repeat destruct (decide _); try done; set_solver.
    + exists t.(breakpoint_map). split; [by destruct t|]. exists g. split; [done|]. intros k. rewrite Hl.
      repeat destruct (decide _); try done; set_solver.
Qed.

Lemma run_cmds_ok cs : forall t live, bps_of t.(breakpoint_map) live ->
  exists b, run_cmds t cs = Some (set_bps t b, snd (spec_cmds live cs)) /\ bps_of b (fst (spec_cmds live cs)).
Proof.
  induction cs as [|c cs IH]; intros t live Hb; cbn [run_cmds spec_cmds]; [exists t.(breakpoint_map); by destruct t|].
  destruct (run_cmd_ok t live c Hb) as (b & -> & Hb1). cbn [mbind option_bind]. destruct (spec_cmd live c) as [live1 r]. cbn [fst snd] in *.
  destruct (IH (set_bps t b) live1 Hb1) as (b2 & -> & Hb2). cbn [mbind option_bind]. destruct (spec_cmds live1 cs). by exists b2.
Qed.

(** ** Running *)

Fixpoint dbg_steps (n : nat) (m : machine W) : option (machine W) :=
  match n with
  | O => Some m
  | S n => m ← rv_step_debug io sf tt_direct mailbox_stalled m; dbg_steps n m
  end.
(** Where the debugger takes over, in turn [k]. *)
Definition stops (live : gset Z) (intr : nat -> bool) (k : nat) (m : machine W) : bool :=
  m.(m_rv).(halt) || intr k || (nz (u32 m.(m_rv).(PC)) && bool_decide (u32 m.(m_rv).(PC) ∈ live)).

(** [m'] is the first state of the run from [m], beginning in turn [k], where
    it does, and fewer than [fuel] steps away. *)
Definition first_stop (live : gset Z) (intr : nat -> bool) (k fuel : nat) (m m' : machine W) : Prop :=
  exists n, (n < fuel)%nat /\ dbg_steps n m = Some m' /\ stops live intr (k + n) m' = true
    /\ forall i mi, (i < n)%nat -> dbg_steps i m = Some mi -> stops live intr (k + i) mi = false.

Lemma find_live b live pc : bps_of b live -> exists p, breakpoint_map_find ops b pc = Some p /\ nz p = nz (u32 pc) && bool_decide (u32 pc ∈ live).
Proof.
  intros (g & Hg & Hl). unfold breakpoint_map_find. rewrite (kv_find_ok _ _ _ Hg), Hl. cbn [mbind option_bind].
  destruct (decide (u32 pc ∈ live)); [|exists 0; by rewrite bool_decide_false, andb_false_r].
  eexists. split; [done|]. rewrite bool_decide_true, andb_true_r by done. cbn [bp_addr orig_insn]. rewrite Z.shiftl_0_l, Z.add_0_r.
  f_equal. apply Z.mod_small. pose proof (u32_range pc). lia.
Qed.

Lemma cont_loop_ok live intr fuel : forall k t t', bps_of t.(breakpoint_map) live ->
  cont_loop ops io sf tt_direct mailbox_stalled intr fuel k t = (t', Stopped) <->
  exists m', t' = set_tm t m' /\ first_stop live intr k fuel t.(t_m) m'.
Proof.
  induction fuel as [|fuel IH]; intros k t t' Hb; [split; [done|intros (? & _ & n & ? & _); lia]|].
  destruct (find_live _ live (rv_get_pc t.(t_m).(m_rv)) Hb) as (p & Ep & Hp).
  assert (Hst : stops live intr k t.(t_m) = t.(t_m).(m_rv).(halt) || intr k || nz p) by (by rewrite Hp).
  destruct (stops live intr k t.(t_m)) eqn:Es.
  - assert (Hl : cont_loop ops io sf tt_direct mailbox_stalled intr (S fuel) k t = (t, Stopped)).
    { cbn [cont_loop]. unfold rv_has_halted. rewrite Ep. destruct (halt _), (intr k); cbn in Hst |- *; try done. by rewrite <- Hst. }
    rewrite Hl. split.
    + intros [= <-]. exists t.(t_m). split; [by destruct t|]. exists 0%nat. rewrite Nat.add_0_r. split_and!; [lia|done|done|]. intros; lia.
    + intros (m' & -> & n & _ & En & _ & Hn). destruct n as [|n]; [cbn in En; injection En as <-; by destruct t|].
      specialize (Hn 0%nat t.(t_m) ltac:(lia) eq_refl). rewrite Nat.add_0_r in Hn. congruence.
  - symmetry in Hst. apply orb_false_iff in Hst as [[Eh Ei]%orb_false_iff Hz].
    cbn [cont_loop]. unfold rv_has_halted. rewrite Eh, Ei. cbn [negb andb]. rewrite Ep, Hz. clear Eh Ei.
    destruct (rv_step_debug io sf tt_direct mailbox_stalled t.(t_m)) as [m|] eqn:Em.
    + rewrite (IH (S k) (set_tm t m) t' Hb). cbn [t_m set_tm]. split; intros (m' & -> & n & Hn & En & Ht & Hi); (exists m'; split; [done|]).
      * exists (S n). cbn [dbg_steps]. rewrite Em, Nat.add_succ_r. split_and!; [lia|done|done|].
        intros [|i] mi Hi' Ei; [cbn in Ei; injection Ei as <-; by rewrite Nat.add_0_r|].
        cbn [dbg_steps] in Ei. rewrite Em in Ei. rewrite Nat.add_succ_r. apply (Hi i mi); [lia|done].
      * destruct n as [|n]; [cbn in En; injection En as <-; rewrite Nat.add_0_r in Ht; congruence|].
        cbn [dbg_steps] in En. rewrite Em in En. exists n. rewrite Nat.add_succ_r in Ht. split_and!; [lia|done|done|].
        intros i mi Hi' Ei. specialize (Hi (S i) mi). cbn [dbg_steps] in Hi. rewrite Em, Nat.add_succ_r in Hi. apply Hi; [lia|done].
    + split; [done|]. intros (m' & -> & n & Hn & En & Ht & Hi). destruct n as [|n]; cbn [dbg_steps] in En.
      * injection En as <-. rewrite Nat.add_0_r in Ht. congruence.
      * by rewrite Em in En.
Qed.

(** C39. A debugging session.  Any sequence of commands that set and delete
    breakpoints, from an empty map, answers as on a set of addresses.
    Continuing then stops, with the interrupt flag cleared, in a state exactly
    when it is the first of the hart's single steps that is halted, sees an
    interrupt or stands at a live breakpoint, and it is within the fuel: so it
    stops whenever the run has such a state. *)
Theorem gdb_session m map cs : kv_holds map ∅ ->
  let live := fst (spec_cmds ∅ cs) in
  exists t, run_cmds (rv_debug_start m map) cs = Some (t, snd (spec_cmds ∅ cs)) /\ t.(t_m) = m
    /\ forall intr fuel t', rv_cont ops io sf tt_direct mailbox_stalled intr fuel t = (t', Stopped) <->
         exists m', t' = mk_target m' t.(breakpoint_map) false /\ first_stop live intr 0 fuel m m'.
Proof.
  intros Hm live. assert (Hb0 : bps_of map ∅) by (exists ∅; split; [done|]; intros k; by rewrite lookup_empty, decide_False by set_solver).
  destruct (run_cmds_ok cs (rv_debug_start m map) ∅ Hb0) as (b & -> & Hb). exists (set_bps (rv_debug_start m map) b).
  split_and!; [done..|]. intros intr fuel t'. unfold rv_cont. fold live in Hb.
  pose proof (fun t1 => cont_loop_ok live intr fuel 0 (set_bps (rv_debug_start m map) b) t1 Hb) as Hc.
  cbn [breakpoint_map set_bps t_m rv_debug_start] in Hc. destruct (cont_loop _ _ _ _ _ _ _ _ _) as [t1 r].
  assert (Hr : forall m', first_stop live intr 0 fuel m m' -> (t1, r) = (set_tm (set_bps (rv_debug_start m map) b) m', Stopped)).
  { intros m' Hf. apply Hc. by exists m'. }
  split.
  - destruct r; [|done..]. intros [= <-]. destruct (proj1 (Hc t1) eq_refl) as (m' & -> & Hf). by exists m'.
  - intros (m' & -> & Hf). specialize (Hr m' Hf). by injection Hr as -> ->.
Qed.
End session.

(** Two instructions at 0x100 and a breakpoint at the second; one that was
    deleted again does not count. *)
Definition dbg_machine : machine (world unit) :=
  mk_machine (set_PC (rv_zero 0) 0x100)
    (set_heap mem0 (Memory.store 4 (Memory.store 4 ∅ 0x10100 0x00100093) 0x10104 0x00100093))
    (block_map_init BLOCK_MAP_CAPACITY_BITS) None false 0.
Lemma gdb_session_witness :
  let cont := rv_cont (gmap_kv u32) no_tensix sf_zero (fun _ _ w => (w, true)) (fun _ _ => false) (fun _ => false) 5 in
  exists t t', run_cmds (gmap_kv u32) (rv_debug_start dbg_machine ∅) [SetBp 0x104 0; SetBp 0x100 0; DelBp 0x100 0] = Some (t, [true; true; true])
    /\ cont t = (t', Stopped) /\ t'.(t_m).(m_rv).(PC) = 0x104 /\ t'.(is_interrupted) = false.
Proof.
  intros cont. destruct (gdb_session (gmap_kv u32) (L := gmap_kv_laws u32 u32_idemp) (T := gmap_kv_total u32 u32_idemp)
    no_tensix sf_zero (fun _ _ w => (w, true)) (fun _ _ => false) dbg_machine ∅ [SetBp 0x104 0; SetBp 0x100 0; DelBp 0x100 0])
    as (t & E1 & _ & Hc); [split; [done|]; intros k [x Hx]; by rewrite lookup_empty in Hx|].
  exists t. set (m' := default dbg_machine (dbg_steps no_tensix sf_zero (fun _ _ w => (w, true)) (fun _ _ => false) 1 dbg_machine)).
  exists (mk_target m' t.(breakpoint_map) false). split; [exact E1|]. split; [|split; [vm_compute; reflexivity|reflexivity]].
  apply Hc. exists m'. split; [reflexivity|]. exists 1%nat. split; [lia|]. split; [|split; [vm_compute; reflexivity|]].
  - assert (is_Some (dbg_steps no_tensix sf_zero (fun _ _ w => (w, true)) (fun _ _ => false) 1 dbg_machine)) as [x Hx] by (vm_compute; eauto).
    unfold m'. by rewrite Hx.
  - intros [|i] mi Hi Ei; [|lia]. injection Ei as <-. vm_compute. reflexivity.
Defined.
