(* ===== verification/X64.v ===== *)
(** * The target of the JIT: x86-64

    A reference for the machine that runs the code of jit.c: the instructions
    that it emits, read from their bytes and executed as the processor manual
    says.  Registers are 64-bit numbers, memory the host's bytes, and the code
    a list of bytes of its own; the instruction pointer is an offset into it.
    Flags that an instruction leaves undefined are [None], and using them is
    an error, as is every byte sequence outside the subset. *)

From Stdlib Require Import ZArith Lia Bool.
From stdpp Require Import base list numbers gmap.
From S2P Require Import Prelude Memory.

Definition RAX : Z := 0.
Definition RCX : Z := 1.
Definition RDX : Z := 2.
Definition RBX : Z := 3.
Definition RSP : Z := 4.
Definition RBP : Z := 5.
Definition RSI : Z := 6.
Definition RDI : Z := 7.
Definition R8 : Z := 8.
Definition R9 : Z := 9.
Definition R10 : Z := 10.
Definition R11 : Z := 11.
Definition R13 : Z := 13.
Definition R14 : Z := 14.
Definition R15 : Z := 15.

(** ** Instructions *)

(** Operations on two operands; [Cmp] and [Test] only set flags, [Mov] sets
    none. *)
Inductive alu_op : Type := Add | Or | And | Sub | Xor | Cmp | Test | Mov.
Inductive shift_op : Type := Shl | Shr | Sar.
Inductive cond : Type := CcB | CcAE | CcE | CcNE | CcL | CcGE.

(** Sizes of memory accesses are in bytes. *)
Inductive xinsn : Type :=
  | XAlu (w64 : bool) (op : alu_op) (src dst : Z)
  | XAluImm (w64 : bool) (op : alu_op) (dst imm : Z)
  | XMovImm (dst imm : Z)
  | XShiftImm (w64 : bool) (op : shift_op) (dst imm : Z)
  | XShiftCl (op : shift_op) (dst : Z)
  | XMul (w64 : bool) (src : Z)
  | XDiv (w64 : bool) (src : Z)
  | XLoad (size : nat) (dst base disp : Z)
  | XLoadSx (size : nat) (w64 : bool) (dst base disp : Z)
  | XStore (size : nat) (src base disp : Z)
  | XStoreImm (size : nat) (base disp imm : Z)
  | XInc (base disp : Z)
  | XPush (r : Z)
  | XPop (r : Z)
  | XPushf
  | XPopf
  | XCmovE (dst src : Z)
  | XJcc (c : cond) (rel : Z)
  | XJmp (rel : Z)
  | XJmpReg (r : Z)
  | XCallReg (r : Z)
  | XRet.

(** ** Decoding *)

Fixpoint le_val (l : list Z) : Z := match l with [] => 0 | b :: l => b + 256 * le_val l end.
(** A little-endian field of [n] bytes and what follows it. *)
Definition field (n : nat) (l : list Z) : option (Z * list Z) :=
  if decide (n <= length l)%nat then Some (le_val (take n l), drop n l) else None.

Definition alu_of (b : Z) : option alu_op :=
  match b with
  | 0x01 => Some Add | 0x09 => Some Or | 0x21 => Some And | 0x29 => Some Sub
  | 0x31 => Some Xor | 0x39 => Some Cmp | 0x85 => Some Test | 0x89 => Some Mov | _ => None
  end.
Definition ext_of (n : Z) : option alu_op :=
  match n with 0 => Some Add | 1 => Some Or | 4 => Some And | 5 => Some Sub | 6 => Some Xor | 7 => Some Cmp | _ => None end.
Definition shift_of (n : Z) : option shift_op :=
  match n with 4 => Some Shl | 5 => Some Shr | 7 => Some Sar | _ => None end.
Definition cond_of (b : Z) : option cond :=
  match b with
  | 0x82 => Some CcB | 0x83 => Some CcAE | 0x84 => Some CcE | 0x85 => Some CcNE | 0x8c => Some CcL | 0x8d => Some CcGE
  | _ => None
  end.

(** A ModRM byte with its displacement: the two registers, and [None] for a
    register operand or the displacement of a memory operand.  Forms with a
    SIB byte and those relative to the instruction pointer are not in the
    subset. *)
Definition modrm (r b : Z) (l : list Z) : option (Z * Z * option Z * list Z) :=
  match l with
  | [] => None
  | m :: l =>
      let reg := 8 * r + (m / 8) mod 8 in
      let rm := 8 * b + m mod 8 in
      match m / 64 with
      | 3 => Some (reg, rm, None, l)
      | 0 => if (m mod 8 =? 4) || (m mod 8 =? 5) then None else Some (reg, rm, Some 0, l)
      | 1 => if m mod 8 =? 4 then None else '(d, l) ← field 1 l; Some (reg, rm, Some (s8 d), l)
      | 2 => if m mod 8 =? 4 then None else '(d, l) ← field 4 l; Some (reg, rm, Some (s32 d), l)
      | _ => None
      end
  end.

(** The instruction after its prefixes: operand size override, whether there
    is a REX prefix, and its bits W, R and B.  The result has what follows. *)
Definition decode_op (o16 rex w : bool) (r b : Z) (l : list Z) : option (xinsn * list Z) :=
  match l with
  | [] => None
  | c :: l =>
      if (0x50 <=? c) && (c <=? 0x57) then Some (XPush (8 * b + c mod 8), l)
      else if (0x58 <=? c) && (c <=? 0x5f) then Some (XPop (8 * b + c mod 8), l)
      else if (0xb8 <=? c) && (c <=? 0xbf) then
        '(imm, l) ← field (if w then 8 else 4) l; Some (XMovImm (8 * b + c mod 8) imm, l)
      else
      match c with
      | 0x81 => '(n, rm, d, l) ← modrm 0 b l; op ← ext_of n; '(imm, l) ← field 4 l;
                match d with None => Some (XAluImm w op rm imm, l) | Some _ => None end
      | 0xc1 => '(n, rm, d, l) ← modrm 0 b l; op ← shift_of n; '(imm, l) ← field 1 l;
                match d with None => Some (XShiftImm w op rm imm, l) | Some _ => None end
      | 0xd3 => '(n, rm, d, l) ← modrm 0 b l; op ← shift_of n;
                match d with None => if w then None else Some (XShiftCl op rm, l) | Some _ => None end
      | 0xf7 => '(n, rm, d, l) ← modrm 0 b l;
                match d with
                | None => if n =? 4 then Some (XMul w rm, l) else if n =? 6 then Some (XDiv w rm, l) else None
                | Some _ => None
                end
      | 0xc7 => '(n, rm, d, l) ← modrm 0 b l;
                if negb (n =? 0) then None else
                '(imm, l) ← field (if o16 then 2 else 4) l;
                match d with
                | None => if w then Some (XAluImm true Mov rm imm, l) else None
                | Some d => if w then None else Some (XStoreImm (if o16 then 2 else 4) rm d imm, l)
                end
      | 0xc6 => '(n, rm, d, l) ← modrm 0 b l;
                if negb (n =? 0) then None else
                '(imm, l) ← field 1 l; match d with None => None | Some d => Some (XStoreImm 1 rm d imm, l) end
      | 0x63 => '(reg, rm, d, l) ← modrm r b l; match d with Some d => if w then Some (XLoadSx 4 true reg rm d, l) else None | None => None end
      | 0x8b => '(reg, rm, d, l) ← modrm r b l; match d with Some d => if w then None else Some (XLoad 4 reg rm d, l) | None => None end
      | 0x88 => '(reg, rm, d, l) ← modrm r b l;
                match d with Some d => if rex then Some (XStore 1 reg rm d, l) else None | None => None end
      | 0x9c => Some (XPushf, l)
      | 0x9d => Some (XPopf, l)
      | 0xe9 => '(rel, l) ← field 4 l; Some (XJmp (s32 rel), l)
      | 0xc3 => Some (XRet, l)
      | 0xff => '(n, rm, d, l) ← modrm 0 b l;
                match d with
                | None => if n =? 2 then Some (XCallReg rm, l) else if n =? 4 then Some (XJmpReg rm, l) else None
                | Some d => if (n =? 0) && w then Some (XInc rm d, l) else None
                end
      | 0x0f =>
          match l with
          | 0x44 :: l => '(reg, rm, d, l) ← modrm r b l;
                         match d with None => if w then Some (XCmovE reg rm, l) else None | Some _ => None end
          | 0xb6 :: l => '(reg, rm, d, l) ← modrm r b l; match d with Some d => Some (XLoad 1 reg rm d, l) | None => None end
          | 0xb7 :: l => '(reg, rm, d, l) ← modrm r b l; match d with Some d => Some (XLoad 2 reg rm d, l) | None => None end
          | 0xbe :: l => '(reg, rm, d, l) ← modrm r b l; match d with Some d => Some (XLoadSx 1 w reg rm d, l) | None => None end
          | 0xbf :: l => '(reg, rm, d, l) ← modrm r b l; match d with Some d => Some (XLoadSx 2 w reg rm d, l) | None => None end
          | c :: l => cc ← cond_of c; '(rel, l) ← field 4 l; Some (XJcc cc (s32 rel), l)
          | [] => None
          end
      | _ =>
          op ← alu_of c; '(reg, rm, d, l) ← modrm r b l;
          match d with
          | None => Some (XAlu w op reg rm, l)
          | Some d => if (c =? 0x89) && negb w then Some (XStore (if o16 then 2 else 4) reg rm d, l) else None
          end
      end
  end.

Definition decode_rex (o16 : bool) (l : list Z) : option (xinsn * list Z) :=
  match l with
  | c :: l' => if (0x40 <=? c) && (c <=? 0x4f)
               then decode_op o16 true (Z.testbit c 3) (b2z (Z.testbit c 2)) (b2z (Z.testbit c 0)) l'
               else decode_op o16 false false 0 0 l
  | [] => None
  end.
Definition decode (l : list Z) : option (xinsn * list Z) :=
  match l with
  | 0x66 :: l => decode_rex true l
  | _ => decode_rex false l
  end.

(** ** Execution *)

Record flags : Type := mk_flags { CF : bool; ZF : bool; SF : bool; OF : bool }.
Record xstate : Type := mk_xstate { xr : list Z; xf : option flags; xmem : heap; rip : Z }.

Definition xget (s : xstate) (r : Z) : Z := s.(xr) !!! Z.to_nat r.
Definition xset (s : xstate) (r v : Z) : xstate := mk_xstate (<[Z.to_nat r := v]> s.(xr)) s.(xf) s.(xmem) s.(rip).
Definition xset_flags (s : xstate) (f : option flags) : xstate := mk_xstate s.(xr) f s.(xmem) s.(rip).
Definition xset_mem (s : xstate) (h : heap) : xstate := mk_xstate s.(xr) s.(xf) h s.(rip).
Definition xset_rip (s : xstate) (a : Z) : xstate := mk_xstate s.(xr) s.(xf) s.(xmem) a.

(** Operands of 32 or 64 bits; a 32-bit result clears the upper half. *)
Definition width (w64 : bool) : Z := if w64 then 64 else 32.
Definition trunc (w64 : bool) (v : Z) : Z := v mod 2 ^ width w64.
Definition signed (w64 : bool) (v : Z) : Z := sext (width w64) v.

Definition result_flags (w64 : bool) (cf : bool) (res exact : Z) : flags :=
  mk_flags cf (trunc w64 res =? 0) (signed w64 res <? 0) (negb (signed w64 res =? exact)).
(** The value of an operation, when it has a destination, and its flags. *)
Definition alu (w64 : bool) (op : alu_op) (a b : Z) (f : option flags) : option Z * option flags :=
  let logic v := (Some v, Some (result_flags w64 false v (signed w64 v))) in
  let sub := Some (result_flags w64 (a <? b) (a - b) (signed w64 a - signed w64 b)) in
  match op with
  | Add => (Some (trunc w64 (a + b)), Some (result_flags w64 (2 ^ width w64 <=? a + b) (a + b) (signed w64 a + signed w64 b)))
  | Sub => (Some (trunc w64 (a - b)), sub)
  | Cmp => (None, sub)
  | And => logic (a &. b)
  | Or => logic (a |. b)
  | Xor => logic (a ^. b)
  | Test => (None, snd (logic (a &. b)))
  | Mov => (Some b, f)
  end.
Definition x_alu (s : xstate) (w64 : bool) (op : alu_op) (dst b : Z) : xstate :=
  let '(v, f) := alu w64 op (trunc w64 (xget s dst)) b s.(xf) in
  let s := xset_flags s f in
  match v with Some v => xset s dst v | None => s end.

Definition x_shift (s : xstate) (w64 : bool) (op : shift_op) (dst n : Z) : xstate :=
  let n := n mod width w64 in
  let a := trunc w64 (xget s dst) in
  let v := match op with Shl => trunc w64 (a <<. n) | Shr => a >>. n | Sar => trunc w64 (signed w64 a >>. n) end in
  xset (if n =? 0 then s else xset_flags s None) dst v.

Definition holds (c : cond) (f : flags) : bool :=
  match c with
  | CcB => f.(CF) | CcAE => negb f.(CF) | CcE => f.(ZF) | CcNE => negb f.(ZF)
  | CcL => negb (Bool.eqb f.(SF) f.(OF)) | CcGE => Bool.eqb f.(SF) f.(OF)
  end.

Definition flags_word (f : flags) : Z :=
  b2z f.(CF) + 64 * b2z f.(ZF) + 128 * b2z f.(SF) + 2048 * b2z f.(OF).
Definition word_flags (v : Z) : flags := mk_flags (Z.testbit v 0) (Z.testbit v 6) (Z.testbit v 7) (Z.testbit v 11).

Definition ea (s : xstate) (base disp : Z) : Z := u64 (xget s base + disp).
Definition push (s : xstate) (v : Z) : xstate :=
  let sp := u64 (xget s RSP - 8) in xset (xset_mem s (store 8 s.(xmem) sp v)) RSP sp.
Definition pop (s : xstate) : xstate * Z :=
  let sp := xget s RSP in (xset s RSP (u64 (sp + 8)), load 8 s.(xmem) sp).

Section run.
(** [code] is at address [cb] of the host; [call] is a function of the host,
    by its address. *)
Context (cb : Z) (call : Z -> xstate -> option xstate) (code : list Z).

(** [s] is already at the next instruction. *)
Definition exec (i : xinsn) (s : xstate) : option xstate :=
  match i with
  | XAlu w64 op src dst => Some (x_alu s w64 op dst (trunc w64 (xget s src)))
  | XAluImm w64 op dst imm => Some (x_alu s w64 op dst (trunc w64 (s32 imm)))
  | XMovImm dst imm => Some (xset s dst imm)
  | XShiftImm w64 op dst imm => Some (x_shift s w64 op dst imm)
  | XShiftCl op dst => Some (x_shift s false op dst (xget s RCX mod 256))
  | XMul w64 src =>
      let p := trunc w64 (xget s RAX) * trunc w64 (xget s src) in
      Some (xset (xset (xset_flags s None) RAX (trunc w64 p)) RDX (p / 2 ^ width w64))
  | XDiv w64 src =>
      let n := trunc w64 (xget s RDX) * 2 ^ width w64 + trunc w64 (xget s RAX) in
      let d := trunc w64 (xget s src) in
      if (d =? 0) || (2 ^ width w64 <=? n / d) then None
      else Some (xset (xset (xset_flags s None) RAX (n / d)) RDX (n mod d))
  | XLoad size dst base disp => Some (xset s dst (load size s.(xmem) (ea s base disp)))
  | XLoadSx size w64 dst base disp =>
      Some (xset s dst (trunc w64 (sext (8 * Z.of_nat size) (load size s.(xmem) (ea s base disp)))))
  | XStore size src base disp => Some (xset_mem s (store size s.(xmem) (ea s base disp) (xget s src)))
  | XStoreImm size base disp imm => Some (xset_mem s (store size s.(xmem) (ea s base disp) imm))
  | XInc base disp =>
      let v := load 8 s.(xmem) (ea s base disp) in
      let r := u64 (v + 1) in
      let f := match s.(xf) with
               | Some f => Some (result_flags true f.(CF) (v + 1) (s64 v + 1))
               | None => None
               end in
      Some (xset_flags (xset_mem s (store 8 s.(xmem) (ea s base disp) r)) f)
  | XPush r => Some (push s (xget s r))
  | XPop r => let '(s, v) := pop s in Some (xset s r v)
  | XPushf => match s.(xf) with Some f => Some (push s (flags_word f)) | None => None end
  | XPopf => let '(s, v) := pop s in Some (xset_flags s (Some (word_flags v)))
  | XCmovE dst src =>
      match s.(xf) with Some f => Some (if f.(ZF) then xset s dst (xget s src) else s) | None => None end
  | XJcc c rel =>
      match s.(xf) with Some f => Some (if holds c f then xset_rip s (s.(rip) + rel) else s) | None => None end
  | XJmp rel => Some (xset_rip s (s.(rip) + rel))
  | XJmpReg r => Some (xset_rip s (xget s r - cb))
  | XCallReg r => call (xget s r) s
  | XRet => let '(s, v) := pop s in Some (xset_rip s (v - cb))
  end.

Definition xstep (s : xstate) : option xstate :=
  if s.(rip) <? 0 then None else
  '(i, rest) ← decode (drop (Z.to_nat s.(rip)) code);
  exec i (xset_rip s (Z.of_nat (length code - length rest))).
Fixpoint xrun (n : nat) (s : xstate) : option xstate :=
  match n with O => Some s | S n => s ← xstep s; xrun n s end.
End run.
