(* ===== verification/Jit.v ===== *)
(** * The JIT compiler (src/rv32emu/src/jit.c, jit.h), x86-64

    The code buffer, the emission of x86-64 instructions, the allocation of
    host registers and the translation of blocks, in the build without SYSTEM.
    The static variables of jit.c are fields of [jit_state].  [failed] is set
    by an assertion that does not hold and by [__UNREACHABLE]; nothing that
    follows means anything then.

    The offsets of the fields of [riscv_t] and [qsort] are arguments. *)

From Stdlib Require Import ZArith Lia Bool.
From stdpp Require Import base list numbers.
From S2P Require Import Prelude Decode Memory Utils X64.

(** ** State *)

Definition MAX_JUMPS : Z := 1024.
Definition MAX_BLOCKS : Z := 8192.
Definition IN_JUMP_THRESHOLD : Z := 256.
Definition STACK_SIZE : Z := 512.
Definition TARGET_PC_EXIT : Z := u32 (-1).
Definition TARGET_PC_RETPOLINE : Z := u32 (-3).

Inductive operand_size : Type := S8 | S16 | S32.

Record jump : Type := mk_jump { offset_loc : Z; target_pc : Z; target_offset : Z }.
Record host_reg : Type := mk_host_reg { reg_idx : Z; vm_reg_idx : Z; dirty : bool; alive : bool }.

(** [buf] is the buffer up to [offset]; [offset_map] and [jumps] are the
    arrays up to [n_blocks] and [n_jumps]. *)
Record jit_state : Type := mk_jit {
  set : set_t; buf : list Z; size : Z; exit_loc : Z; org_size : Z;
  offset_map : list (Z * Z); jumps : list jump;
  register_map : list host_reg; liveness : list Z; candidate_queue : list Z; vm_reg : list Z;
  should_flush : bool; failed : bool
}.
Implicit Types st : jit_state.

Definition set_buf st x := mk_jit st.(set) x st.(size) st.(exit_loc) st.(org_size) st.(offset_map) st.(jumps) st.(register_map) st.(liveness) st.(candidate_queue) st.(vm_reg) st.(should_flush) st.(failed).
Definition set_jumps st x := mk_jit st.(set) st.(buf) st.(size) st.(exit_loc) st.(org_size) st.(offset_map) x st.(register_map) st.(liveness) st.(candidate_queue) st.(vm_reg) st.(should_flush) st.(failed).
Definition set_map st x := mk_jit st.(set) st.(buf) st.(size) st.(exit_loc) st.(org_size) st.(offset_map) st.(jumps) x st.(liveness) st.(candidate_queue) st.(vm_reg) st.(should_flush) st.(failed).
Definition set_liveness st x := mk_jit st.(set) st.(buf) st.(size) st.(exit_loc) st.(org_size) st.(offset_map) st.(jumps) st.(register_map) x st.(candidate_queue) st.(vm_reg) st.(should_flush) st.(failed).
Definition set_queue st x := mk_jit st.(set) st.(buf) st.(size) st.(exit_loc) st.(org_size) st.(offset_map) st.(jumps) st.(register_map) st.(liveness) x st.(vm_reg) st.(should_flush) st.(failed).
Definition set_vm st (i : nat) x := mk_jit st.(set) st.(buf) st.(size) st.(exit_loc) st.(org_size) st.(offset_map) st.(jumps) st.(register_map) st.(liveness) st.(candidate_queue) (<[i := x]> st.(vm_reg)) st.(should_flush) st.(failed).
Definition set_flush st x := mk_jit st.(set) st.(buf) st.(size) st.(exit_loc) st.(org_size) st.(offset_map) st.(jumps) st.(register_map) st.(liveness) st.(candidate_queue) st.(vm_reg) x st.(failed).
Definition fail st := mk_jit st.(set) st.(buf) st.(size) st.(exit_loc) st.(org_size) st.(offset_map) st.(jumps) st.(register_map) st.(liveness) st.(candidate_queue) st.(vm_reg) st.(should_flush) true.
Definition set_blocks st x := mk_jit st.(set) st.(buf) st.(size) st.(exit_loc) st.(org_size) x st.(jumps) st.(register_map) st.(liveness) st.(candidate_queue) st.(vm_reg) st.(should_flush) st.(failed).
Definition set_set st x := mk_jit x st.(buf) st.(size) st.(exit_loc) st.(org_size) st.(offset_map) st.(jumps) st.(register_map) st.(liveness) st.(candidate_queue) st.(vm_reg) st.(should_flush) st.(failed).
Definition set_exit_loc st x := mk_jit st.(set) st.(buf) st.(size) x st.(org_size) st.(offset_map) st.(jumps) st.(register_map) st.(liveness) st.(candidate_queue) st.(vm_reg) st.(should_flush) st.(failed).
Definition set_org_size st x := mk_jit st.(set) st.(buf) st.(size) st.(exit_loc) x st.(offset_map) st.(jumps) st.(register_map) st.(liveness) st.(candidate_queue) st.(vm_reg) st.(should_flush) st.(failed).

Definition assert st (b : bool) : jit_state := if b then st else fail st.
Definition offset st : Z := Z.of_nat (length st.(buf)).
Definition n_blocks st : Z := Z.of_nat (length st.(offset_map)).
Definition n_jumps st : Z := Z.of_nat (length st.(jumps)).
Definition vm st (i : nat) : Z := st.(vm_reg) !!! i.

(** ** Registers of the host *)

Definition nonvolatile_reg : list Z := [RBP; RBX; R13; R14; R15].
Definition param0 : Z := RDI.
Definition temp_reg : Z := RCX.
Definition host_regs : list Z := [RAX; RBX; RDX; R8; R9; R10; R11; R13; R14; R15].

Definition set_map_dirty (h : host_reg) (b : bool) : host_reg := mk_host_reg h.(reg_idx) h.(vm_reg_idx) b h.(alive).
(** The first entry of the register. *)
Fixpoint dirty_loop (m : list host_reg) (r : Z) (b : bool) : list host_reg :=
  match m with
  | [] => []
  | h :: m => if h.(reg_idx) =? r then set_map_dirty h b :: m else h :: dirty_loop m r b
  end.
Definition set_dirty st (r : Z) (b : bool) : jit_state := set_map st (dirty_loop st.(register_map) r b).

(** ** Emission *)

Definition emit_bytes st (data : list Z) : jit_state :=
  if st.(size) <? offset st + Z.of_nat (length data) then set_flush st true
  else if n_blocks st =? MAX_BLOCKS then set_flush st true
  else set_buf st (st.(buf) ++ data).

Definition emit1 st (x : Z) : jit_state := emit_bytes st [u8 x].
Definition emit4 st (x : Z) : jit_state := emit_bytes st (bytes_of 4 x).
Definition emit8 st (x : Z) : jit_state := emit_bytes st (bytes_of 8 x).

Definition emit_modrm st (mod_ r m : Z) : jit_state := emit1 st ((mod_ &. 0xc0) |. ((r &. 7) <<. 3) |. (m &. 7)).
Definition emit_modrm_reg2reg st (r m : Z) : jit_state := emit_modrm st 0xc0 r m.
Definition emit_modrm_and_displacement st (r m d : Z) : jit_state :=
  if (d =? 0) && negb (m &. 7 =? RBP) then emit_modrm st 0x00 r m
  else if s8 d =? d then emit1 (emit_modrm st 0x40 r m) d
  else emit4 (emit_modrm st 0x80 r m) d.
Definition emit_rex st (w r x b : Z) : jit_state := emit1 st (0x40 |. (w <<. 3) |. (r <<. 2) |. (x <<. 1) |. b).
Definition emit_basic_rex st (w src dst : Z) : jit_state :=
  if nz w || nz (src &. 8) || nz (dst &. 8) then emit_rex st w (b2z (nz (src &. 8))) 0 (b2z (nz (dst &. 8))) else st.
Definition emit_push st (r : Z) : jit_state :=
  let st := if nz (r &. 8) then emit_basic_rex st 0 0 r else st in
  emit1 st (0x50 |. (r &. 7)).
Definition emit_pop st (r : Z) : jit_state :=
  let st := if nz (r &. 8) then emit_basic_rex st 0 0 r else st in
  emit1 st (0x58 |. (r &. 7)).

Definition add_jump st (j : jump) : jit_state :=
  let st := assert st (n_jumps st <? MAX_JUMPS) in set_jumps st (st.(jumps) ++ [j]).
(** The array of jumps was cleared: the fields that are not set are 0. *)
Definition emit_jump_target_address st (target : Z) : jit_state :=
  emit4 (add_jump st (mk_jump (offset st) (u32 target) 0)) 0.
Definition emit_jump_target_offset st (loc target : Z) : jit_state := add_jump st (mk_jump loc 0 target).

Definition emit_alu32 st (op src dst : Z) : jit_state :=
  let st := if nz (src &. 8) || nz (dst &. 8) then emit_basic_rex st 0 src dst else st in
  set_dirty (emit_modrm_reg2reg (emit1 st op) src dst) dst true.
Definition emit_alu32_imm32 st (op src dst imm : Z) : jit_state := emit4 (emit_alu32 st op src dst) imm.
Definition emit_alu32_imm8 st (op src dst imm : Z) : jit_state := emit1 (emit_alu32 st op src dst) imm.
Definition emit_alu64 st (op src dst : Z) : jit_state :=
  set_dirty (emit_modrm_reg2reg (emit1 (emit_basic_rex st 1 src dst) op) src dst) dst true.
Definition emit_alu64_imm8 st (op src dst imm : Z) : jit_state := emit1 (emit_alu64 st op src dst) imm.
Definition emit_mov st (src dst : Z) : jit_state := emit_alu64 st 0x89 src dst.
Definition emit_alu64_imm32 st (op src dst imm : Z) : jit_state := emit4 (emit_alu64 st op src dst) imm.
Definition emit_cmp_imm32 st (dst imm : Z) : jit_state := emit_alu32_imm32 st 0x81 7 dst imm.
Definition emit_cmp32 st (src dst : Z) : jit_state := emit_alu32 st 0x39 src dst.
Definition emit_jcc_offset st (code : Z) : jit_state :=
  let st := if negb (code =? 0xe9) then emit1 st 0x0f else st in emit4 (emit1 st code) 0.

Definition emit_load_imm st (dst imm : Z) : jit_state :=
  let st := if nz (dst &. 8) then emit_basic_rex st 0 0 dst else st in
  set_dirty (emit4 (emit1 st (0xb8 |. (dst &. 7))) imm) dst true.
Definition emit_load_imm_sext st (dst imm : Z) : jit_state :=
  let st := if s32 imm =? imm then emit_alu64_imm32 st 0xc7 0 dst imm
            else emit8 (emit1 (emit_basic_rex st 1 0 dst) (0xb8 |. (dst &. 7))) imm in
  set_dirty st dst true.

(** Whether the register holds x0. *)
Definition maps_x0 st (r : Z) : bool := existsb (fun h => (h.(reg_idx) =? r) && (h.(vm_reg_idx) =? 0)) st.(register_map).

Definition emit_load st (sz : operand_size) (src dst off : Z) : jit_state :=
  if maps_x0 st dst then set_dirty (emit_load_imm st dst 0) dst true else
  let st := if nz (src &. 8) || nz (dst &. 8) then emit_basic_rex st 0 dst src else st in
  let st := match sz with
            | S8 => emit1 (emit1 st 0x0f) 0xb6
            | S16 => emit1 (emit1 st 0x0f) 0xb7
            | S32 => emit1 st 0x8b
            end in
  set_dirty (emit_modrm_and_displacement st dst src off) dst (negb (nz off)).
Definition emit_load_sext st (sz : operand_size) (src dst off : Z) : jit_state :=
  if maps_x0 st dst then set_dirty (emit_load_imm st dst 0) dst true else
  let st := match sz with
            | S32 => emit1 (emit_basic_rex st 1 dst src) 0x63
            | _ =>
                let st := if nz (src &. 8) || nz (dst &. 8) then emit_basic_rex st 0 dst src else st in
                emit1 (emit1 st 0x0f) (match sz with S8 => 0xbe | _ => 0xbf end)
            end in
  set_dirty (emit_modrm_and_displacement st dst src off) dst (negb (nz off)).

(** [jit_store_x0] when the source holds x0: zero is stored. *)
Definition emit_store_x0 st (sz : operand_size) (src dst off : Z) : jit_state :=
  let st := match sz with S16 => emit1 st 0x66 | _ => st end in
  let st := if nz (dst &. 8) then emit_rex st 0 0 0 (b2z (nz (dst &. 8))) else st in
  let st := emit1 st (match sz with S8 => 0xc6 | _ => 0xc7 end) in
  let st := emit4 (emit1 st (0x80 |. (dst &. 7))) off in
  let st := match sz with S8 => emit1 st 0 | S16 => emit1 (emit1 st 0) 0 | S32 => emit4 st 0 end in
  set_dirty st src false.
Definition emit_store st (sz : operand_size) (src dst off : Z) : jit_state :=
  if maps_x0 st src then emit_store_x0 st sz src dst off else
  let st := match sz with S16 => emit1 st 0x66 | _ => st end in
  let st := if nz (src &. 8) || nz (dst &. 8) || (match sz with S8 => true | _ => false end)
            then emit_rex st 0 (b2z (nz (src &. 8))) 0 (b2z (nz (dst &. 8))) else st in
  let st := emit1 st (match sz with S8 => 0x88 | _ => 0x89 end) in
  let st := emit_modrm_and_displacement st src dst off in
  if nz off then set_dirty st src false else st.

Definition emit_jmp st (target : Z) : jit_state := emit_jump_target_address (emit1 st 0xe9) target.
Definition emit_call st (target : Z) : jit_state := emit1 (emit1 (emit_load_imm_sext st RAX target) 0xff) 0xd0.
Definition emit_exit st : jit_state :=
  let st := emit1 st 0xe9 in
  emit4 (emit_jump_target_offset st (offset st) st.(exit_loc)) 0.
Definition emit_conditional_move st (src dst : Z) : jit_state :=
  emit_modrm_reg2reg (emit1 (emit1 (emit1 st 0x48) 0x0f) 0x44) dst src.

(** ** Register allocation *)

Definition no_reg : Z := -1.

Definition upd_reg st (i : nat) (f : host_reg -> host_reg) : jit_state := set_map st (alter f i st.(register_map)).
Definition unmap_vm_reg st (i : nat) : jit_state :=
  upd_reg (assert st (Nat.ltb i (length host_regs))) i (fun h => mk_host_reg h.(reg_idx) no_reg h.(dirty) h.(alive)).
Definition set_vm_reg st (i : nat) (v : Z) : jit_state :=
  upd_reg (assert st (Nat.ltb i (length host_regs))) i (fun h => mk_host_reg h.(reg_idx) v h.(dirty) true).
Definition reset_reg st : jit_state :=
  set_map st ((fun h => mk_host_reg h.(reg_idx) no_reg false false) <$> st.(register_map)).

(** What [muldivmod] restores. *)
Definition restore_reg st (i : nat) (v : Z) (d : bool) : jit_state :=
  upd_reg st i (fun h => mk_host_reg h.(reg_idx) v d h.(alive)).

Section layout.
(** [offsetof(riscv_t, X)], [PC] and [timer]. *)
Context (off_X off_PC off_timer : Z).

Definition save_reg st (i : nat) : jit_state :=
  match st.(register_map) !! i with
  | None => fail st
  | Some h =>
      if negb h.(dirty) then st else
      let st := emit_store st S32 h.(reg_idx) param0 (off_X + 4 * h.(vm_reg_idx)) in
      upd_reg st i (fun h => set_map_dirty h false)
  end.

Fixpoint store_back_loop st (i n : nat) : jit_state :=
  match n with
  | O => st
  | S n =>
      let st := match st.(register_map) !! i with
                | Some h => if h.(vm_reg_idx) =? no_reg then st else save_reg st i
                | None => st
                end in
      store_back_loop st (S i) n
  end.
Definition store_back st : jit_state := store_back_loop st 0 (length host_regs).

(** The entry of the map that [reg_pick] returns; [None] is
    [__UNREACHABLE]. *)
Definition reg_pick st (reserved : Z) : option nat :=
  match list_find (fun h => h.(reg_idx) <> reserved /\ h.(alive) = false) st.(register_map) with
  | Some (i, _) => Some i
  | None =>
      let entry c := fst <$> list_find (fun h => h.(reg_idx) <> reserved /\ h.(vm_reg_idx) = c) st.(register_map) in
      head (omap entry st.(candidate_queue))
  end.

(** The register that holds [v]. *)
Definition mapped st (v : Z) : option Z :=
  reg_idx <$> (snd <$> list_find (fun h => h.(vm_reg_idx) = v) st.(register_map)).
(** The entry [i] is given to [v]. *)
Definition take_reg st (i : nat) (v : Z) : jit_state * Z :=
  let target := match st.(register_map) !! i with Some h => h.(reg_idx) | None => no_reg end in
  (set_vm_reg (unmap_vm_reg (save_reg st i) i) i v, target).

Definition map_vm_reg st (v : Z) : jit_state * Z :=
  match mapped st v with
  | Some r => (st, r)
  | None =>
      match reg_pick st no_reg with
      | None => (fail st, no_reg)
      | Some i => take_reg st i v
      end
  end.
(** The loop picks again while the reserved register is picked, which it never
    is. *)
Definition map_vm_reg_reserved st (v reserved : Z) : jit_state * Z :=
  match mapped st v with
  | Some r => (st, r)
  | None =>
      match reg_pick st reserved with
      | None => (fail st, no_reg)
      | Some i =>
          match st.(register_map) !! i with
          | Some h => if h.(reg_idx) =? reserved then (fail st, no_reg) else take_reg st i v
          | None => (fail st, no_reg)
          end
      end
  end.

(** The last register that holds [v], or [no_reg]. *)
Definition origin st (v : Z) : Z :=
  fold_left (fun o h => if h.(vm_reg_idx) =? v then h.(reg_idx) else o) st.(register_map) no_reg.

Definition ra_load st (v : Z) : jit_state * Z :=
  let o := origin st v in
  let '(st, target) := map_vm_reg st v in
  (if negb (o =? target) then emit_load st S32 param0 target (off_X + 4 * v) else st, target).

(** The two registers go to [vm_reg[0]] and [vm_reg[1]]; [reserved] is the one
    that the second may not take. *)
Definition ra_map2 st (v1 v2 : Z) (reserved : jit_state -> Z) : jit_state :=
  if v1 =? v2 then let '(st, r) := map_vm_reg st v1 in set_vm (set_vm st 1 r) 0 r
  else
    let '(st, r) := map_vm_reg st v1 in
    let st := set_vm st 0 r in
    let '(st, r) := map_vm_reg_reserved st v2 (reserved st) in
    let st := set_vm st 1 r in
    assert st (negb (vm st 0 =? vm st 1)).
Definition ra_load2 st (v1 v2 : Z) : jit_state :=
  let o1 := origin st v1 in
  let o2 := origin st v2 in
  let st := ra_map2 st v1 v2 (fun st => vm st 0) in
  let st := if negb (o1 =? vm st 0) then emit_load st S32 param0 (vm st 0) (off_X + 4 * v1) else st in
  if negb (o2 =? vm st 1) then emit_load st S32 param0 (vm st 1) (off_X + 4 * v2) else st.
(** Here the second register must differ from the old [vm_reg[1]]. *)
Definition ra_load2_sext st (v1 v2 : Z) (sext1 sext2 : bool) : jit_state :=
  let o1 := origin st v1 in
  let o2 := origin st v2 in
  let st := ra_map2 st v1 v2 (fun st => vm st 1) in
  let load st (sx : bool) r v := (if sx then emit_load_sext else emit_load) st S32 param0 r (off_X + 4 * v) in
  let st := if negb (o1 =? vm st 0) then load st sext1 (vm st 0) v1 else st in
  if negb (o2 =? vm st 1) then load st sext2 (vm st 1) v2 else st.

(** ** Multiplication and division *)

Definition JIT_CLS_MASK : Z := 0x07.
Definition JIT_ALU_OP_MASK : Z := 0xf0.
Definition JIT_CLS_ALU64 : Z := 0x07.
Definition JIT_OP_MUL_IMM : Z := 0x04 |. 0x00 |. 0x20.
Definition JIT_OP_DIV_IMM : Z := 0x04 |. 0x00 |. 0x30.
Definition JIT_OP_MOD_IMM : Z := 0x04 |. 0x00 |. 0x90.

Definition pushfq st : jit_state := emit1 st 0x9c.
Definition popfq st : jit_state := emit1 st 0x9d.

(** The test for the overflow of a signed division: [RCX] has the dividend,
    and [k] emits what follows the comparison. *)
Definition overflow_check st (k : jit_state -> jit_state) : jit_state :=
  let st := popfq st in
  let jump_loc_0 := offset st in
  let st := emit_jcc_offset st 0x85 in
  let st := k (emit_cmp_imm32 st RCX 0x80000000) in
  emit_jump_target_offset st (jump_loc_0 + 2) (offset st).

Definition muldivmod st (opcode src dst : Z) (sign : bool) : jit_state :=
  let mul := opcode &. JIT_ALU_OP_MASK =? JIT_OP_MUL_IMM &. JIT_ALU_OP_MASK in
  let div := opcode &. JIT_ALU_OP_MASK =? JIT_OP_DIV_IMM &. JIT_ALU_OP_MASK in
  let mod_ := opcode &. JIT_ALU_OP_MASK =? JIT_OP_MOD_IMM &. JIT_ALU_OP_MASK in
  let is64 := opcode &. JIT_CLS_MASK =? JIT_CLS_ALU64 in
  let entry i := st.(register_map) !! i in
  let d i := match entry i with Some h => h.(dirty) | None => false end in
  let r i := match entry i with Some h => h.(vm_reg_idx) | None => no_reg end in
  let d1 := d 0%nat in let d2 := d 2%nat in
  let r1 := r 0%nat in let r2 := r 2%nat in
  let st := if negb (dst =? RAX) then emit_push (unmap_vm_reg st 0) RAX else st in
  let st := if negb (dst =? RDX) then emit_push (unmap_vm_reg st 2) RDX else st in
  let st := emit_mov st src RCX in
  let st := emit_mov st dst RAX in
  let st :=
    if div || mod_ then
      let st := if sign then pushfq (emit_cmp32 (emit_load_imm_sext st RDX (-1)) RDX RCX) else st in
      let st := if mod_ || (div && sign) then emit_push st RAX else st in
      let st := pushfq (emit_alu32 st 0x85 RCX RCX) in
      let st := emit_conditional_move (emit_load_imm st RDX 1) RDX RCX in
      emit_alu32 st 0x31 RDX RDX
    else st in
  let st := if is64 then emit_rex st 1 0 0 0 else st in
  let st := emit_alu32 st 0xf7 (if mul then 4 else 6) RCX in
  let st :=
    if div || mod_ then
      let st := popfq st in
      if div then
        let st := emit_conditional_move (emit_load_imm_sext st RCX (-1)) RCX RAX in
        if sign then overflow_check (emit_pop st RCX) (fun st => emit_conditional_move st RCX RAX) else st
      else
        let st := emit_conditional_move (emit_pop st RCX) RCX RDX in
        if sign then overflow_check st (fun st => emit_conditional_move (emit_load_imm st RCX 0) RCX RDX) else st
    else st in
  let st :=
    if negb (dst =? RDX) then
      let st := if mod_ then emit_mov st RDX dst else st in
      restore_reg (emit_pop st RDX) 2 r2 d2
    else st in
  if negb (dst =? RAX) then
    let st := if div || mul then emit_mov st RAX dst else st in
    restore_reg (emit_pop st RAX) 0 r1 d1
  else st.

(** ** Prologue and epilogue *)

Definition nonvolatile_even : bool := Nat.even (length nonvolatile_reg).
Definition prepare_translate st : jit_state :=
  let st := fold_left emit_push nonvolatile_reg st in
  let st := if nonvolatile_even then emit_alu64_imm32 st 0x81 5 RSP 8 else st in
  let st := emit_mov st RSP RBP in
  let st := emit_alu64_imm32 st 0x81 5 RSP STACK_SIZE in
  let st := emit1 (emit1 st 0xff) 0xe6 in
  let st := set_exit_loc st (offset st) in
  let st := emit_mov st RBP RSP in
  let st := if nonvolatile_even then emit_alu64_imm32 st 0x81 0 RSP 8 else st in
  let st := fold_left emit_pop (rev nonvolatile_reg) st in
  let st := emit1 st 0xc3 in
  set_org_size st (offset st).

(** ** Indirect jumps *)

(** [history] are the targets of the branch history table with their counts:
    the most frequent one, among those before the first that was never
    taken. *)
Fixpoint max_loop (l : list (Z * Z)) (best : Z * Z) : Z * Z :=
  match l with
  | [] => best
  | (pc, times) :: l => if times =? 0 then best else max_loop l (if snd best <? times then (pc, times) else best)
  end.
Definition hottest (history : list (Z * Z)) : Z * Z := max_loop history (default (0, 0) (head history)).

Definition parse_branch_history_table st (history : list (Z * Z)) : jit_state :=
  let '(pc, times) := hottest history in
  if nz pc && (IN_JUMP_THRESHOLD <=? times) then
    let st := unmap_vm_reg (save_reg st 0) 0 in
    let st := emit_load_imm st RAX pc in
    let st := emit_cmp32 st temp_reg RAX in
    let jump_loc_0 := offset st in
    let st := emit_jcc_offset st 0x85 in
    let st := emit_jmp st pc in
    emit_jump_target_offset st (jump_loc_0 + 2) (offset st)
  else st.

Definition emit_jit_inc_timer st : jit_state := emit4 (emit1 (emit1 (emit_rex st 1 0 0 0) 0xff) 0x87) off_timer.

(** ** Liveness *)

(** The instructions that were fused. *)
Definition fused (ir : rv_insn) : list opcode_fuse := take (Z.to_nat ir.(imm2)) ir.(fuse).

(** The registers of the hart whose use an instruction records; [None] is
    [__UNREACHABLE]. *)
Definition live_uses (ir : rv_insn) : option (list Z) :=
  match ir.(opcode) with
  | rv_insn_nop | rv_insn_lui | rv_insn_auipc | rv_insn_jal | rv_insn_ecall | rv_insn_ebreak
  | rv_insn_cnop | rv_insn_cjal | rv_insn_cli | rv_insn_clui | rv_insn_cj | rv_insn_cebreak => Some []
  | rv_insn_jalr | rv_insn_lb | rv_insn_lh | rv_insn_lw | rv_insn_lbu | rv_insn_lhu
  | rv_insn_sb | rv_insn_sh | rv_insn_sw
  | rv_insn_addi | rv_insn_slti | rv_insn_sltiu | rv_insn_xori | rv_insn_ori | rv_insn_andi
  | rv_insn_slli | rv_insn_srli | rv_insn_srai
  | rv_insn_clw | rv_insn_csw | rv_insn_csrli | rv_insn_csrai | rv_insn_candi
  | rv_insn_cbeqz | rv_insn_cbnez | rv_insn_cjr | rv_insn_cjalr | rv_insn_fuse2 => Some [ir.(rs1)]
  | rv_insn_beq | rv_insn_bne | rv_insn_blt | rv_insn_bge | rv_insn_bltu | rv_insn_bgeu
  | rv_insn_add | rv_insn_sub | rv_insn_sll | rv_insn_slt | rv_insn_sltu | rv_insn_xor | rv_insn_srl
  | rv_insn_sra | rv_insn_or | rv_insn_and
  | rv_insn_mul | rv_insn_mulh | rv_insn_mulhsu | rv_insn_mulhu | rv_insn_div | rv_insn_divu
  | rv_insn_rem | rv_insn_remu
  | rv_insn_csub | rv_insn_cxor | rv_insn_cor | rv_insn_cand | rv_insn_cadd => Some [ir.(rs1); ir.(rs2)]
  | rv_insn_caddi | rv_insn_caddi16sp | rv_insn_cslli => Some [ir.(rd)]
  | rv_insn_caddi4spn | rv_insn_clwsp => Some [rv_reg_sp]
  | rv_insn_cmv => Some [ir.(rs2)]
  | rv_insn_cswsp => Some [rv_reg_sp; ir.(rs2)]
  | rv_insn_fuse1 => Some (f_rd <$> fused ir)
  | rv_insn_fuse3 => Some (mjoin ((fun f => [f.(f_rs1); f.(f_rs2)]) <$> fused ir))
  | rv_insn_fuse4 | rv_insn_fuse5 => Some (f_rs1 <$> fused ir)
  | _ => None
  end.
Definition liveness_reset st : jit_state := set_liveness st (replicate 32 (-1)).
Fixpoint liveness_loop st (idx : Z) (irs : list rv_insn) : jit_state :=
  match irs with
  | [] => st
  | ir :: irs =>
      let st := match live_uses ir with
                | Some l => set_liveness st (fold_left (fun live r => <[Z.to_nat r := idx]> live) l st.(liveness))
                | None => fail st
                end in
      liveness_loop st (idx + 1) irs
  end.
(** [qsort] with the comparison of two elements. *)
Context (qsort : (Z -> Z -> Z) -> list Z -> list Z).
Definition liveness_cmp st (l r : Z) : Z := (st.(liveness) !!! Z.to_nat l) - (st.(liveness) !!! Z.to_nat r).
Definition liveness_calc st (irs : list rv_insn) : jit_state :=
  let st := liveness_loop st 0 irs in
  set_queue st (qsort (liveness_cmp st) (seqZ 0 32)).

Definition regs_refresh st (idx : Z) : jit_state :=
  set_map st ((fun h => if h.(vm_reg_idx) =? no_reg then h
                        else if (st.(liveness) !!! Z.to_nat h.(vm_reg_idx)) <? idx
                        then mk_host_reg h.(reg_idx) h.(vm_reg_idx) h.(dirty) false else h) <$> st.(register_map)).
End layout.
