(* ===== verification/JitGen.v ===== *)
(** * Code templates of the JIT (src/rv32emu/src/rv32_jit.c, jit.c)

    The code that is emitted for each instruction, the fused instructions, and
    the translation of blocks with the resolution of their jumps, in the build
    without SYSTEM.  A template that is [assert(NULL)] fails. *)

From Stdlib Require Import ZArith Lia Bool.
From stdpp Require Import base list numbers gmap.
From S2P Require Import Prelude Decode Memory Utils X64 Jit.

Section gen.
Context (off_X off_PC off_timer : Z) (qsort : (Z -> Z -> Z) -> list Z -> list Z).
(** [mem_base], the addresses of the callbacks, and the branch history of an
    instruction. *)
Context (mem_base on_ecall on_ebreak : Z) (history : rv_insn -> list (Z * Z)).
Implicit Types (st : jit_state) (ir : rv_insn).

Notation ra_load := (ra_load off_X).
Notation ra_load2 := (ra_load2 off_X).
Notation ra_load2_sext := (ra_load2_sext off_X).
Notation map_vm_reg := (map_vm_reg off_X).
Notation store_back := (store_back off_X).

(** [vm_reg[i] = ra_load(...)] and [vm_reg[i] = map_vm_reg(...)]. *)
Definition vm_load st (i : nat) (v : Z) : jit_state := let '(st, r) := ra_load st v in set_vm st i r.
Definition vm_map st (i : nat) (v : Z) : jit_state := let '(st, r) := map_vm_reg st v in set_vm st i r.

(** The program counter is stored and the block left. *)
Definition leave st : jit_state := emit_exit (emit_store st S32 temp_reg param0 off_PC).
Definition goto_pc st (pc : Z) : jit_state := leave (emit_load_imm st temp_reg pc).

(** A short forward jump over what [k] emits. *)
Definition jump_over st (cc : Z) (k : jit_state -> jit_state) : jit_state :=
  let jump_loc_0 := offset st in
  let st := k (emit_jcc_offset st cc) in
  emit_jump_target_offset st (jump_loc_0 + 2) (offset st).

(** ** Jumps *)

Definition gen_nop st ir : jit_state := st.
Definition gen_lui st ir : jit_state := let st := vm_map st 0 ir.(rd) in emit_load_imm st (vm st 0) ir.(imm).
Definition gen_auipc st ir : jit_state :=
  let st := vm_map st 0 ir.(rd) in emit_load_imm st (vm st 0) (ir.(insn_pc) + ir.(imm)).
Definition gen_jal st ir : jit_state :=
  let st := if nz ir.(rd) then let st := vm_map st 0 ir.(rd) in emit_load_imm st (vm st 0) (ir.(insn_pc) + 4) else st in
  let st := emit_jmp (store_back st) (ir.(insn_pc) + ir.(imm)) in
  goto_pc st (ir.(insn_pc) + ir.(imm)).
Definition gen_jalr st ir : jit_state :=
  let st := vm_load st 0 ir.(rs1) in
  let st := emit_mov st (vm st 0) temp_reg in
  let st := emit_alu32_imm32 st 0x81 0 temp_reg ir.(imm) in
  let st := emit_alu32_imm32 st 0x81 4 temp_reg (u32 (Z.lnot 1)) in
  let st := if nz ir.(rd) then let st := vm_map st 1 ir.(rd) in emit_load_imm st (vm st 1) (ir.(insn_pc) + 4) else st in
  leave (parse_branch_history_table off_X (store_back st) (history ir)).

(** The code of a conditional branch after its comparison: [len] is the
    length of the instruction. *)
Definition gen_branch st ir (cc len : Z) : jit_state :=
  let st := store_back st in
  let st := jump_over st cc (fun st =>
    let st := match ir.(branch_untaken) with Some _ => emit_jmp st (ir.(insn_pc) + len) | None => st end in
    goto_pc st (ir.(insn_pc) + len)) in
  let st := match ir.(branch_taken) with Some _ => emit_jmp st (ir.(insn_pc) + ir.(imm)) | None => st end in
  goto_pc st (ir.(insn_pc) + ir.(imm)).
Definition cmp_branch st ir (cc : Z) : jit_state :=
  let st := ra_load2 st ir.(rs1) ir.(rs2) in
  gen_branch (emit_cmp32 st (vm st 1) (vm st 0)) ir cc 4.
Definition gen_beq st ir : jit_state := cmp_branch st ir 0x84.
Definition gen_bne st ir : jit_state := cmp_branch st ir 0x85.
Definition gen_blt st ir : jit_state := cmp_branch st ir 0x8c.
Definition gen_bge st ir : jit_state := cmp_branch st ir 0x8d.
Definition gen_bltu st ir : jit_state := cmp_branch st ir 0x82.
Definition gen_bgeu st ir : jit_state := cmp_branch st ir 0x83.

(** ** Memory *)

(** The host address of [rs1] plus the immediate goes to the temporary
    register. *)
Definition host_address st (base imm : Z) : jit_state :=
  let st := vm_load st 0 base in
  let st := emit_load_imm_sext st temp_reg (mem_base + imm) in
  emit_alu64 st 0x01 (vm st 0) temp_reg.
Definition gen_load_sx st ir (sz : operand_size) : jit_state :=
  let st := vm_map (host_address st ir.(rs1) ir.(imm)) 1 ir.(rd) in emit_load_sext st sz temp_reg (vm st 1) 0.
Definition gen_load_zx st (base imm dst : Z) (sz : operand_size) : jit_state :=
  let st := vm_map (host_address st base imm) 1 dst in emit_load st sz temp_reg (vm st 1) 0.
Definition gen_store st (base imm src : Z) (sz : operand_size) : jit_state :=
  let st := vm_load (host_address st base imm) 1 src in emit_store st sz (vm st 1) temp_reg 0.
Definition gen_lb st ir : jit_state := gen_load_sx st ir S8.
Definition gen_lh st ir : jit_state := gen_load_sx st ir S16.
Definition gen_lw st ir : jit_state := gen_load_zx st ir.(rs1) ir.(imm) ir.(rd) S32.
Definition gen_lbu st ir : jit_state := gen_load_zx st ir.(rs1) ir.(imm) ir.(rd) S8.
Definition gen_lhu st ir : jit_state := gen_load_zx st ir.(rs1) ir.(imm) ir.(rd) S16.
Definition gen_sb st ir : jit_state := gen_store st ir.(rs1) ir.(imm) ir.(rs2) S8.
Definition gen_sh st ir : jit_state := gen_store st ir.(rs1) ir.(imm) ir.(rs2) S16.
Definition gen_sw st ir : jit_state := gen_store st ir.(rs1) ir.(imm) ir.(rs2) S32.

(** ** Computation *)

(** [rs1] is brought to the register of [rd]. *)
Definition to_dest st (src dst : Z) : jit_state :=
  let st := vm_map (vm_load st 0 src) 1 dst in
  if negb (vm st 0 =? vm st 1) then emit_mov st (vm st 0) (vm st 1) else st.
Definition imm_op st ir (ext : Z) : jit_state :=
  let st := to_dest st ir.(rs1) ir.(rd) in emit_alu32_imm32 st 0x81 ext (vm st 1) ir.(imm).
Definition shift_op st (src dst ext amount : Z) : jit_state :=
  let st := to_dest st src dst in emit_alu32_imm8 st 0xc1 ext (vm st 1) amount.
Definition gen_addi st ir : jit_state := imm_op st ir 0.
Definition gen_xori st ir : jit_state := imm_op st ir 6.
Definition gen_ori st ir : jit_state := imm_op st ir 1.
Definition gen_andi st ir : jit_state := imm_op st ir 4.
Definition gen_slli st ir : jit_state := shift_op st ir.(rs1) ir.(rd) 4 (ir.(imm) &. 0x1f).
Definition gen_srli st ir : jit_state := shift_op st ir.(rs1) ir.(rd) 5 (ir.(imm) &. 0x1f).
Definition gen_srai st ir : jit_state := shift_op st ir.(rs1) ir.(rd) 7 (ir.(imm) &. 0x1f).

(** 1 in the register of [rd], and 0 unless the jump is taken. *)
Definition set_if st (i : nat) (cc : Z) : jit_state :=
  let st := emit_load_imm st (vm st i) 1 in
  jump_over st cc (fun st => emit_load_imm st (vm st i) 0).
Definition gen_slti st ir : jit_state :=
  let st := vm_load st 0 ir.(rs1) in
  let st := emit_cmp_imm32 st (vm st 0) ir.(imm) in set_if (vm_map st 1 ir.(rd)) 1 0x8c.
Definition gen_sltiu st ir : jit_state :=
  let st := vm_load st 0 ir.(rs1) in
  let st := emit_cmp_imm32 st (vm st 0) ir.(imm) in set_if (vm_map st 1 ir.(rd)) 1 0x82.
Definition gen_slt st ir : jit_state :=
  let st := vm_map (ra_load2 st ir.(rs1) ir.(rs2)) 2 ir.(rd) in
  set_if (emit_cmp32 st (vm st 1) (vm st 0)) 2 0x8c.
Definition gen_sltu st ir : jit_state :=
  let st := vm_map (ra_load2 st ir.(rs1) ir.(rs2)) 2 ir.(rd) in
  set_if (emit_cmp32 st (vm st 1) (vm st 0)) 2 0x82.

(** The operands go to [vm_reg[2]] and the temporary register. *)
Definition two_operands st ir : jit_state :=
  let st := vm_map st 2 ir.(rd) in
  emit_mov (emit_mov st (vm st 1) temp_reg) (vm st 0) (vm st 2).
Definition reg_op st ir (op : Z) : jit_state :=
  let st := two_operands (ra_load2 st ir.(rs1) ir.(rs2)) ir in emit_alu32 st op temp_reg (vm st 2).
Definition reg_shift st ir (ext : Z) : jit_state :=
  let st := two_operands (ra_load2 st ir.(rs1) ir.(rs2)) ir in
  let st := emit_alu32_imm32 st 0x81 4 temp_reg 0x1f in emit_alu32 st 0xd3 ext (vm st 2).
Definition gen_add st ir : jit_state := reg_op st ir 0x01.
Definition gen_sub st ir : jit_state := reg_op st ir 0x29.
Definition gen_xor st ir : jit_state := reg_op st ir 0x31.
Definition gen_or st ir : jit_state := reg_op st ir 0x09.
Definition gen_and st ir : jit_state := reg_op st ir 0x21.
Definition gen_sll st ir : jit_state := reg_shift st ir 4.
Definition gen_srl st ir : jit_state := reg_shift st ir 5.
Definition gen_sra st ir : jit_state := reg_shift st ir 7.

Definition mul_op st ir (op : Z) (sign : bool) : jit_state :=
  let st := two_operands st ir in muldivmod st op temp_reg (vm st 2) sign.
Definition high_half st : jit_state := emit_alu64_imm8 st 0xc1 5 (vm st 2) 32.
Definition gen_mul st ir : jit_state := mul_op (ra_load2 st ir.(rs1) ir.(rs2)) ir 0x28 false.
Definition gen_mulh st ir : jit_state := high_half (mul_op (ra_load2_sext st ir.(rs1) ir.(rs2) true true) ir 0x2f false).
Definition gen_mulhsu st ir : jit_state := high_half (mul_op (ra_load2_sext st ir.(rs1) ir.(rs2) true false) ir 0x2f false).
Definition gen_mulhu st ir : jit_state := high_half (mul_op (ra_load2 st ir.(rs1) ir.(rs2)) ir 0x2f false).
Definition gen_div st ir : jit_state := mul_op (ra_load2_sext st ir.(rs1) ir.(rs2) true true) ir 0x38 true.
Definition gen_divu st ir : jit_state := mul_op (ra_load2 st ir.(rs1) ir.(rs2)) ir 0x38 false.
Definition gen_rem st ir : jit_state := mul_op (ra_load2_sext st ir.(rs1) ir.(rs2) true true) ir 0x98 true.
Definition gen_remu st ir : jit_state := mul_op (ra_load2 st ir.(rs1) ir.(rs2)) ir 0x98 false.

(** ** Calls of the host *)

Definition call_host st ir (f : Z) : jit_state :=
  let st := emit_load_imm (store_back st) temp_reg ir.(insn_pc) in
  emit_exit (emit_call (emit_store st S32 temp_reg param0 off_PC) f).
Definition gen_ecall st ir : jit_state := call_host st ir on_ecall.
Definition gen_ebreak st ir : jit_state := call_host st ir on_ebreak.

(** ** Compressed instructions *)

(** An operation with an immediate on the register that holds [v]. *)
Definition in_place st (v ext imm : Z) : jit_state :=
  let st := vm_load st 0 v in emit_alu32_imm32 st 0x81 ext (vm st 0) imm.
Definition shift_in_place st (v ext imm : Z) : jit_state :=
  let st := vm_load st 0 v in emit_alu32_imm8 st 0xc1 ext (vm st 0) imm.
Definition gen_caddi4spn st ir : jit_state :=
  let st := to_dest st rv_reg_sp ir.(rd) in emit_alu32_imm32 st 0x81 0 (vm st 1) (u16 ir.(imm)).
Definition gen_clw st ir : jit_state := gen_load_zx st ir.(rs1) ir.(imm) ir.(rd) S32.
Definition gen_csw st ir : jit_state := gen_store st ir.(rs1) ir.(imm) ir.(rs2) S32.
Definition gen_cnop st ir : jit_state := st.
Definition gen_caddi st ir : jit_state := in_place st ir.(rd) 0 (s16 ir.(imm)).
Definition gen_cjal st ir : jit_state :=
  let st := vm_map st 0 rv_reg_ra in
  let st := store_back (emit_load_imm st (vm st 0) (ir.(insn_pc) + 2)) in
  goto_pc (emit_jmp st (ir.(insn_pc) + ir.(imm))) (ir.(insn_pc) + ir.(imm)).
Definition gen_cli st ir : jit_state := let st := vm_map st 0 ir.(rd) in emit_load_imm st (vm st 0) ir.(imm).
Definition gen_caddi16sp st ir : jit_state := in_place st ir.(rd) 0 ir.(imm).
Definition gen_clui st ir : jit_state := let st := vm_map st 0 ir.(rd) in emit_load_imm st (vm st 0) ir.(imm).
Definition gen_csrli st ir : jit_state := shift_in_place st ir.(rs1) 5 ir.(shamt).
Definition gen_csrai st ir : jit_state := shift_in_place st ir.(rs1) 7 ir.(shamt).
Definition gen_candi st ir : jit_state := in_place st ir.(rs1) 4 ir.(imm).
Definition gen_csub st ir : jit_state := reg_op st ir 0x29.
Definition gen_cxor st ir : jit_state := reg_op st ir 0x31.
Definition gen_cor st ir : jit_state := reg_op st ir 0x09.
Definition gen_cand st ir : jit_state := reg_op st ir 0x21.
Definition gen_cj st ir : jit_state :=
  goto_pc (emit_jmp (store_back st) (ir.(insn_pc) + ir.(imm))) (ir.(insn_pc) + ir.(imm)).
Definition zero_branch st ir (cc : Z) : jit_state :=
  let st := vm_load st 0 ir.(rs1) in gen_branch (emit_cmp_imm32 st (vm st 0) 0) ir cc 2.
Definition gen_cbeqz st ir : jit_state := zero_branch st ir 0x84.
Definition gen_cbnez st ir : jit_state := zero_branch st ir 0x85.
Definition gen_cslli st ir : jit_state := shift_in_place st ir.(rd) 4 (u8 ir.(imm)).
Definition gen_clwsp st ir : jit_state := gen_load_zx st rv_reg_sp ir.(imm) ir.(rd) S32.
Definition gen_cjr st ir : jit_state :=
  let st := vm_load st 0 ir.(rs1) in
  let st := store_back (emit_mov st (vm st 0) temp_reg) in
  leave (parse_branch_history_table off_X st (history ir)).
Definition gen_cmv st ir : jit_state :=
  let st := vm_map (vm_load st 0 ir.(rs2)) 1 ir.(rd) in
  if negb (vm st 0 =? vm st 1) then emit_mov st (vm st 0) (vm st 1) else set_dirty st (vm st 1) true.
Definition gen_cebreak st ir : jit_state := call_host st ir on_ebreak.
Definition gen_cjalr st ir : jit_state :=
  let st := vm_load st 0 ir.(rs1) in
  let st := vm_map (emit_mov st (vm st 0) temp_reg) 1 rv_reg_ra in
  let st := store_back (emit_load_imm st (vm st 1) (ir.(insn_pc) + 2)) in
  leave (parse_branch_history_table off_X st (history ir)).
Definition gen_cadd st ir : jit_state := reg_op st ir 0x01.
Definition gen_cswsp st ir : jit_state := gen_store st rv_reg_sp ir.(imm) ir.(rs2) S32.

(** ** Fused instructions *)

Definition fuse1_step st (f : opcode_fuse) : jit_state :=
  let st := vm_map st 0 f.(f_rd) in emit_load_imm st (vm st 0) f.(f_imm).
Definition gen_fuse1 st ir : jit_state := fold_left fuse1_step (fused ir) st.
Definition gen_fuse2 st ir : jit_state :=
  let st := vm_map st 0 ir.(rd) in
  let st := emit_load_imm st (vm st 0) ir.(imm) in
  let st := emit_mov st (vm st 0) temp_reg in
  let st := vm_map (vm_load st 1 ir.(rs1)) 2 ir.(rs2) in
  let st := emit_mov st (vm st 1) (vm st 2) in
  emit_alu32 st 0x01 temp_reg (vm st 2).
Definition gen_fuse3 st ir : jit_state := fold_left (fun st f => gen_store st f.(f_rs1) f.(f_imm) f.(f_rs2) S32) (fused ir) st.
Definition gen_fuse4 st ir : jit_state := fold_left (fun st f => gen_load_zx st f.(f_rs1) f.(f_imm) f.(f_rd) S32) (fused ir) st.
Definition fuse5_step st (f : opcode_fuse) : jit_state :=
  match f.(f_opcode) with
  | rv_insn_slli => shift_op st f.(f_rs1) f.(f_rd) 4 (f.(f_imm) &. 0x1f)
  | rv_insn_srli => shift_op st f.(f_rs1) f.(f_rd) 5 (f.(f_imm) &. 0x1f)
  | rv_insn_srai => shift_op st f.(f_rs1) f.(f_rd) 7 (f.(f_imm) &. 0x1f)
  | _ => fail st
  end.
Definition gen_fuse5 st ir : jit_state := fold_left fuse5_step (fused ir) st.

(** ** The dispatch table *)

(** [None] is a template that is [assert(NULL)]. *)
Definition template (o : insn_op) : option (jit_state -> rv_insn -> jit_state) :=
  match o with
  | rv_insn_nop => Some gen_nop | rv_insn_lui => Some gen_lui | rv_insn_auipc => Some gen_auipc
  | rv_insn_jal => Some gen_jal | rv_insn_jalr => Some gen_jalr
  | rv_insn_beq => Some gen_beq | rv_insn_bne => Some gen_bne | rv_insn_blt => Some gen_blt
  | rv_insn_bge => Some gen_bge | rv_insn_bltu => Some gen_bltu | rv_insn_bgeu => Some gen_bgeu
  | rv_insn_lb => Some gen_lb | rv_insn_lh => Some gen_lh | rv_insn_lw => Some gen_lw
  | rv_insn_lbu => Some gen_lbu | rv_insn_lhu => Some gen_lhu
  | rv_insn_sb => Some gen_sb | rv_insn_sh => Some gen_sh | rv_insn_sw => Some gen_sw
  | rv_insn_addi => Some gen_addi | rv_insn_slti => Some gen_slti | rv_insn_sltiu => Some gen_sltiu
  | rv_insn_xori => Some gen_xori | rv_insn_ori => Some gen_ori | rv_insn_andi => Some gen_andi
  | rv_insn_slli => Some gen_slli | rv_insn_srli => Some gen_srli | rv_insn_srai => Some gen_srai
  | rv_insn_add => Some gen_add | rv_insn_sub => Some gen_sub | rv_insn_sll => Some gen_sll
  | rv_insn_slt => Some gen_slt | rv_insn_sltu => Some gen_sltu | rv_insn_xor => Some gen_xor
  | rv_insn_srl => Some gen_srl | rv_insn_sra => Some gen_sra | rv_insn_or => Some gen_or
  | rv_insn_and => Some gen_and | rv_insn_ecall => Some gen_ecall | rv_insn_ebreak => Some gen_ebreak
  | rv_insn_mul => Some gen_mul | rv_insn_mulh => Some gen_mulh | rv_insn_mulhsu => Some gen_mulhsu
  | rv_insn_mulhu => Some gen_mulhu | rv_insn_div => Some gen_div | rv_insn_divu => Some gen_divu
  | rv_insn_rem => Some gen_rem | rv_insn_remu => Some gen_remu
  | rv_insn_caddi4spn => Some gen_caddi4spn | rv_insn_clw => Some gen_clw | rv_insn_csw => Some gen_csw
  | rv_insn_cnop => Some gen_cnop | rv_insn_caddi => Some gen_caddi | rv_insn_cjal => Some gen_cjal
  | rv_insn_cli => Some gen_cli | rv_insn_caddi16sp => Some gen_caddi16sp | rv_insn_clui => Some gen_clui
  | rv_insn_csrli => Some gen_csrli | rv_insn_csrai => Some gen_csrai | rv_insn_candi => Some gen_candi
  | rv_insn_csub => Some gen_csub | rv_insn_cxor => Some gen_cxor | rv_insn_cor => Some gen_cor
  | rv_insn_cand => Some gen_cand | rv_insn_cj => Some gen_cj | rv_insn_cbeqz => Some gen_cbeqz
  | rv_insn_cbnez => Some gen_cbnez | rv_insn_cslli => Some gen_cslli | rv_insn_clwsp => Some gen_clwsp
  | rv_insn_cjr => Some gen_cjr | rv_insn_cmv => Some gen_cmv | rv_insn_cebreak => Some gen_cebreak
  | rv_insn_cjalr => Some gen_cjalr | rv_insn_cadd => Some gen_cadd | rv_insn_cswsp => Some gen_cswsp
  | rv_insn_fuse1 => Some gen_fuse1 | rv_insn_fuse2 => Some gen_fuse2 | rv_insn_fuse3 => Some gen_fuse3
  | rv_insn_fuse4 => Some gen_fuse4 | rv_insn_fuse5 => Some gen_fuse5
  | _ => None
  end.
Definition is_fused (o : insn_op) : bool :=
  match o with rv_insn_fuse1 | rv_insn_fuse2 | rv_insn_fuse3 | rv_insn_fuse4 | rv_insn_fuse5 => true | _ => false end.
(** The macro [GEN] counts the instruction; the fused ones do not. *)
Definition jit_dispatch st ir : jit_state :=
  let st := if is_fused ir.(opcode) then st else emit_jit_inc_timer off_timer st in
  match template ir.(opcode) with
  | Some gen => gen st ir
  | None => fail st
  end.

(** ** Blocks *)

Record jit_block : Type := mk_jit_block { jb_pc : Z; jb_irs : list rv_insn; translatable : bool }.

Fixpoint jit_loop st (idx : Z) (irs : list rv_insn) : jit_state :=
  match irs with
  | [] => st
  | ir :: irs =>
      if st.(should_flush) then st else
      jit_loop (jit_dispatch (regs_refresh st idx) ir) (idx + 1) irs
  end.
Definition translate st (b : jit_block) : jit_state :=
  let st := liveness_reset (reset_reg st) in
  jit_loop (liveness_calc qsort st b.(jb_irs)) 0 b.(jb_irs).

Definition offset_map_insert st (b : jit_block) : jit_state :=
  let st := assert st (n_blocks st <? MAX_BLOCKS) in
  set_blocks st (st.(offset_map) ++ [(b.(jb_pc), offset st)]).

(** The displacement goes to the four bytes at [offset_loc]. *)
Definition patch (l : list Z) (at_ v : Z) : list Z :=
  take (Z.to_nat at_) l ++ bytes_of 4 v ++ drop (Z.to_nat (at_ + 4)) l.
Definition target_loc st (j : jump) : Z :=
  if nz j.(target_offset) then j.(target_offset)
  else if j.(target_pc) =? TARGET_PC_EXIT then st.(exit_loc)
  else if j.(target_pc) =? TARGET_PC_RETPOLINE then 0
  else match list_find (fun e => e.1 = j.(target_pc)) st.(offset_map) with
       | Some (_, e) => e.2
       | None => j.(offset_loc) + 4
       end.
Definition resolve_jump st (j : jump) : jit_state :=
  set_buf st (patch st.(buf) j.(offset_loc) (target_loc st j - (j.(offset_loc) + 4))).
Definition resolve_jumps st : jit_state := fold_left resolve_jump st.(jumps) st.

(** [set_has] and [set_add] on the set of translated blocks; a full bucket
    fails. *)
Definition translated st (pc : Z) : bool := default true (set_has st.(set) pc).
Definition add_translated st (pc : Z) : jit_state :=
  match set_add st.(set) pc with
  | Some (s, ok) => assert (set_set st s) ok
  | None => fail st
  end.

(** [cache] is the block cache, by address.  The recursion goes to blocks that
    are not in the set yet. *)
Context (cache : Z -> option jit_block).
Fixpoint translate_chained_block (fuel : nat) st (b : jit_block) : jit_state :=
  match fuel with
  | O => fail st
  | S fuel =>
      if translated st b.(jb_pc) then st else
      if n_blocks st =? MAX_BLOCKS then st else
      let st := translate (offset_map_insert (add_translated st b.(jb_pc)) b) b in
      if st.(should_flush) then st else
      let follow must st pc :=
        if translated st pc then st else
        match cache pc with
        | Some b1 => if b1.(translatable) then translate_chained_block fuel st b1 else st
        | None => if (must : bool) then fail st else st
        end in
      match last b.(jb_irs) with
      | None => st
      | Some ir =>
          let st := match ir.(branch_untaken) with Some pc => follow true st pc | None => st end in
          let st := match ir.(branch_taken) with Some pc => follow true st pc | None => st end in
          match ir.(branch_table) with
          | Some _ =>
              let '(pc, times) := hottest (history ir) in
              if nz pc && (IN_JUMP_THRESHOLD <=? times) then follow false st pc else st
          | None => st
          end
      end
  end.

(** The code of a full buffer is dropped; the blocks are no longer hot. *)
Definition code_cache_flush st : jit_state :=
  set_set (set_blocks (set_buf (set_flush st false) (take (Z.to_nat st.(org_size)) st.(buf))) []) set_reset.

(** The offset of the block's code.  [restarts] bounds the flushes. *)
Fixpoint jit_translate (restarts fuel : nat) st (b : jit_block) : jit_state * Z :=
  if translated st b.(jb_pc) then
    match list_find (fun e => e.1 = b.(jb_pc)) st.(offset_map) with
    | Some (_, e) => (st, e.2)
    | None => (fail st, 0)
    end
  else
  match restarts with
  | O => (fail st, 0)
  | S restarts =>
      let st := set_jumps st [] in
      let entry := offset st in
      let st := translate_chained_block fuel st b in
      if st.(should_flush) then jit_translate restarts fuel (code_cache_flush st) b
      else (resolve_jumps st, entry)
  end.
End gen.

(** [jit_state_init] with a buffer of [size] bytes; the arrays are allocated. *)
Definition jit_state_init (size : Z) : jit_state :=
  let st := mk_jit set_reset [] size 0 0 [] [] ((fun r => mk_host_reg r no_reg false false) <$> host_regs)
              (replicate 32 0) [] [0; 0; 0] false false in
  prepare_translate (reset_reg st).
