(* ===== verification/JitEmit.v ===== *)
(** * What the JIT emits

    The bytes of the forms that jit.c emits decode to the instruction that is
    meant, whatever follows them, and a piece of code runs alike wherever it
    is placed.  A triple [sim st st' P Q] says that the code emitted between
    two states of the compiler takes the machine from states in [P] to states
    in [Q], with the jumps resolved.  Triples compose like the functions of
    jit.c do; each function that emits an instruction has a lemma that says
    which one. *)

From Stdlib Require Import ZArith Lia Bool.
From stdpp Require Import base list numbers gmap.
From S2P Require Import Prelude Memory MemorySpec X64 Jit JitGen.

(** * Encodings and fragments of x86-64 code *)

(** ** Registers *)

Definition reg (r : Z) : Prop := 0 <= r < 16.
Definition hi (r : Z) : Z := b2z (nz (r &. 8)).
Definition lo (r : Z) : Z := r &. 7.

Lemma reg_forall (P : Z -> bool) r : forallb P (seqZ 0 16) = true -> reg r -> P r = true.
Proof. intros H Hr. rewrite forallb_forall in H. apply H, list_elem_of_In, elem_of_seqZ. unfold reg in Hr. lia. Qed.
Lemma reg_forall2 (P : Z -> Z -> bool) r m :
  forallb (fun r => forallb (P r) (seqZ 0 16)) (seqZ 0 16) = true -> reg r -> reg m -> P r m = true.
Proof. intros H Hr Hm. apply (reg_forall (fun m => P r m)); [|done]. by apply (reg_forall (fun r => forallb (P r) (seqZ 0 16))). Qed.

Lemma hi_lo r : reg r -> 8 * hi r + lo r = r /\ 0 <= lo r < 8 /\ (hi r = 0 \/ hi r = 1).
Proof.
  intros Hr. pose proof (reg_forall (fun r => (8 * hi r + lo r =? r) && (0 <=? lo r) && (lo r <? 8) && ((hi r =? 0) || (hi r =? 1)))
    r ltac:(by vm_compute) Hr) as H.
  repeat (apply andb_prop in H as [H ?]). apply orb_prop in H0. bool_cases. lia.
Qed.

Lemma xget_xset s r v r' : length s.(xr) = 16%nat -> reg r -> reg r' -> xget (xset s r v) r' = if r =? r' then v else xget s r'.
Proof.
  intros Hl Hr Hr'. unfold reg in *. unfold xget, xset. cbn [xr]. destruct (Z.eqb_spec r r') as [->|Hne].
  - apply list_lookup_total_insert_eq. lia.
  - apply list_lookup_total_insert_ne. lia.
Qed.
Lemma xset_length s r v : length (xset s r v).(xr) = length s.(xr).
Proof. apply length_insert. Qed.

(** ** Fields *)

Lemma bytes_of_length n v : length (bytes_of n v) = n.
Proof. revert v. induction n as [|n IH]; intros v; cbn; [done|]. by rewrite IH. Qed.
Lemma le_val_bytes n v : le_val (bytes_of n v) = v mod 256 ^ Z.of_nat n.
Proof.
  revert v. induction n as [|n IH]; intros v; cbn [bytes_of le_val]; [by rewrite Z.mod_1_r|].
  rewrite IH, Nat2Z.inj_succ, Z.pow_succ_r by lia. unfold u8. change (2 ^ 8) with 256.
  rewrite (Z.rem_mul_r v 256 (256 ^ Z.of_nat n)) by lia. lia.
Qed.
Lemma field_bytes n v l : field n (bytes_of n v ++ l) = Some (v mod 256 ^ Z.of_nat n, l).
Proof.
  unfold field. rewrite length_app, bytes_of_length. destruct (decide _); [|lia].
  rewrite take_app_length', drop_app_length' by (by rewrite bytes_of_length). by rewrite le_val_bytes.
Qed.

(** ** Prefixes and ModRM *)

Definition rex_byte (w : bool) (r b : Z) : Z := 0x40 |. (b2z w <<. 3) |. (r <<. 2) |. (0 <<. 1) |. b.
Definition modrm_byte (m r b : Z) : Z := (m &. 0xc0) |. ((r &. 7) <<. 3) |. (b &. 7).

Lemma decode_rex_prefix o16 w r b l : reg r -> reg b ->
  decode_rex o16 (rex_byte w (hi r) (hi b) :: l) = decode_op o16 true w (hi r) (hi b) l.
Proof.
  intros Hr Hb. unfold decode_rex.
  destruct (hi_lo r Hr) as (_ & _ & [-> | ->]), (hi_lo b Hb) as (_ & _ & [-> | ->]), w; reflexivity.
Qed.
Lemma decode_prefix w r b l : reg r -> reg b ->
  decode (rex_byte w (hi r) (hi b) :: l) = decode_op false true w (hi r) (hi b) l.
Proof.
  intros Hr Hb. rewrite <- decode_rex_prefix by done. unfold decode.
  destruct (hi_lo r Hr) as (_ & _ & [-> | ->]), (hi_lo b Hb) as (_ & _ & [-> | ->]), w; reflexivity.
Qed.

Lemma modrm_fields m r b : In m [0xc0; 0x80; 0x40; 0] -> reg r -> reg b ->
  modrm_byte m r b / 64 = m / 64 /\ (modrm_byte m r b / 8) mod 8 = lo r /\ modrm_byte m r b mod 8 = lo b.
Proof.
  intros Hm Hr Hb.
  pose proof (reg_forall2 (fun r b => forallb (fun m => (modrm_byte m r b / 64 =? m / 64) && ((modrm_byte m r b / 8) mod 8 =? lo r)
    && (modrm_byte m r b mod 8 =? lo b)) [0xc0; 0x80; 0x40; 0]) r b ltac:(by vm_compute) Hr Hb) as H.
  rewrite forallb_forall in H. specialize (H m Hm). repeat (apply andb_prop in H as [H ?]). bool_cases. lia.
Qed.
Lemma modrm_reg r b l : reg r -> reg b -> modrm (hi r) (hi b) (modrm_byte 0xc0 r b :: l) = Some (r, b, None, l).
Proof.
  intros Hr Hb. destruct (modrm_fields 0xc0 r b) as (E1 & E2 & E3); [by left | done | done |].
  unfold modrm. rewrite E1, E2, E3. cbn. by destruct (hi_lo r Hr) as (-> & _), (hi_lo b Hb) as (-> & _).
Qed.
(** The extension field of an opcode. *)
Lemma modrm_ext n b l : 0 <= n < 8 -> reg b -> modrm 0 (hi b) (modrm_byte 0xc0 n b :: l) = Some (n, b, None, l).
Proof.
  intros Hn Hb. rewrite <- (modrm_reg n b l) by (unfold reg in *; lia). f_equal.
  destruct (hi_lo n) as (? & ? & [E|E]); [unfold reg; lia | by rewrite E | rewrite E in *; lia].
Qed.

(** The bytes of a memory operand. *)
Definition disp_bytes (r b d : Z) : list Z :=
  if (d =? 0) && negb (b &. 7 =? RBP) then [modrm_byte 0 r b]
  else if s8 d =? d then [modrm_byte 0x40 r b; u8 d]
  else modrm_byte 0x80 r b :: bytes_of 4 d.

Lemma s8_u8 d : s8 (u8 d) = s8 d.
Proof. unfold s8, u8, sext. by rewrite Zmod_mod. Qed.
Lemma modrm_disp r b d l : reg r -> reg b -> lo b <> 4 -> - 2 ^ 31 <= d < 2 ^ 31 ->
  modrm (hi r) (hi b) (disp_bytes r b d ++ l) = Some (r, b, Some d, l).
Proof.
  intros Hr Hb H4 Hd. unfold disp_bytes.
  destruct (hi_lo r Hr) as (Er & _), (hi_lo b Hb) as (Eb & _).
  assert ((lo b =? 4) = false) as H4' by lia.
  destruct ((d =? 0) && _) eqn:E0; [|destruct (Z.eqb_spec (s8 d) d) as [E8|E8]]; cbn [app];
    unfold modrm; match goal with |- context [modrm_byte ?m _ _] =>
      destruct (modrm_fields m r b) as (-> & -> & ->); [cbn; tauto | done | done |] end; rewrite H4'.
  - apply andb_prop in E0 as [->%Z.eqb_eq E5]. change (b &. 7) with (lo b) in E5. unfold RBP in E5.
    destruct (lo b =? 5); [done|]. cbn. by rewrite Er, Eb.
  - change (u8 d :: l) with (bytes_of 1 d ++ l). cbn [Z.div Z.div_eucl]. rewrite field_bytes. cbn [mbind option_bind].
    rewrite Er, Eb. change (d mod 256 ^ Z.of_nat 1) with (u8 d). by rewrite s8_u8, E8.
  - cbn [Z.div Z.div_eucl]. rewrite field_bytes. cbn [mbind option_bind]. rewrite Er, Eb.
    change (d mod 256 ^ Z.of_nat 4) with (u32 d).
    by rewrite s32_u32, s32_small.
Qed.

(** ** Instructions *)

(** [bs] is the instruction, whatever follows. *)
Definition encodes (bs : list Z) (i : xinsn) : Prop := bs <> [] /\ forall l, decode (bs ++ l) = Some (i, l).

(** The prefix that [emit_basic_rex] emits. *)
Definition rexb (w : bool) (r b : Z) : list Z := if w || nz (r &. 8) || nz (b &. 8) then [rex_byte w (hi r) (hi b)] else [].

(** Opcodes that are not prefixes. *)
Definition plain_op (c : Z) : bool := negb (((0x40 <=? c) && (c <=? 0x4f)) || (c =? 0x66)).
Lemma rexb_hi w r b : w || nz (r &. 8) || nz (b &. 8) = false -> w = false /\ hi r = 0 /\ hi b = 0.
Proof. unfold hi. destruct w, (nz (r &. 8)), (nz (b &. 8)); done. Qed.
Lemma decode_plain c l : plain_op c = true -> decode (c :: l) = decode_op false false false 0 0 (c :: l).
Proof.
  unfold plain_op, decode. intros Hc. destruct (Z.eqb_spec c 0x66) as [->|Hne]; [by rewrite orb_true_r in Hc|].
  rewrite orb_false_r in Hc. unfold decode_rex.
  assert (((0x40 <=? c) && (c <=? 0x4f)) = false) as -> by (by destruct (_ && _)).
  destruct c as [|p|p]; [done| |done]. do 7 (destruct p as [p|p|]; try done).
Qed.
Lemma decode_op_rex w r b c l : c <> 0x88 -> decode_op false true w r b (c :: l) = decode_op false false w r b (c :: l).
Proof.
  intros Hc. unfold decode_op. destruct (_ && _); [done|]. destruct (_ && _); [done|]. destruct (_ && _); [done|].
  destruct c as [|p|p]; [done| |done]. do 8 (destruct p as [p|p|]; try done).
Qed.
Lemma decode_rexb w r b c l : reg r -> reg b -> plain_op c = true -> c <> 0x88 ->
  decode (rexb w r b ++ c :: l) = decode_op false false w (hi r) (hi b) (c :: l).
Proof.
  intros Hr Hb Hc H88. unfold rexb. destruct (w || _ || _) eqn:E; cbn [app].
  - by rewrite decode_prefix, decode_op_rex.
  - apply rexb_hi in E as (-> & -> & ->). by apply decode_plain.
Qed.

(** The opcode is evaluated, the operands are not. *)
Ltac eval_op := unfold decode_op; cbn -[modrm field bytes_of disp_bytes modrm_byte].
Ltac encode_start :=
  split; [unfold rexb; try case_match; done|]; intros l; rewrite <- ?app_assoc; cbn [app];
  rewrite decode_rexb by (done || unfold reg, RCX in *; lia).
Lemma nonempty_app (l1 l2 : list Z) : l2 <> [] -> l1 ++ l2 <> [].
Proof. by destruct l1, l2. Qed.

Lemma enc_alu w c op src dst : reg src -> reg dst -> alu_of c = Some op ->
  encodes (rexb w src dst ++ [c; modrm_byte 0xc0 src dst]) (XAlu w op src dst).
Proof.
  intros Hs Hd Hc. assert (In c [0x01; 0x09; 0x21; 0x29; 0x31; 0x39; 0x85; 0x89]) as Hin.
  { unfold alu_of in Hc. repeat case_match; simplify_eq; cbn; tauto. }
  repeat (destruct Hin as [<- | Hin]; [injection Hc as <-; encode_start; eval_op; by rewrite modrm_reg|]). done.
Qed.
Lemma hi_small n : 0 <= n < 8 -> hi n = 0.
Proof. intros Hn. destruct (hi_lo n) as (? & ? & [E|E]); [unfold reg; lia | done | lia]. Qed.
Lemma enc_alu_imm w n op dst imm : reg dst -> ext_of n = Some op ->
  encodes (rexb w n dst ++ [0x81; modrm_byte 0xc0 n dst] ++ bytes_of 4 imm) (XAluImm w op dst (u32 imm)).
Proof.
  intros Hd Hn. assert (0 <= n < 8) as Hn8 by (unfold ext_of in Hn; repeat case_match; simplify_eq; lia).
  encode_start. eval_op. rewrite modrm_ext by done. cbn [mbind option_bind]. rewrite Hn. cbn [mbind option_bind].
  by rewrite field_bytes.
Qed.
Lemma enc_mov_imm_sx dst imm : reg dst ->
  encodes (rexb true 0 dst ++ [0xc7; modrm_byte 0xc0 0 dst] ++ bytes_of 4 imm) (XAluImm true Mov dst (u32 imm)).
Proof. intros Hd. encode_start. eval_op. rewrite modrm_ext by (done || lia). cbn [mbind option_bind]. eval_op. by rewrite field_bytes. Qed.
Lemma enc_shift_imm w n op dst imm : reg dst -> shift_of n = Some op ->
  encodes (rexb w n dst ++ [0xc1; modrm_byte 0xc0 n dst] ++ bytes_of 1 imm) (XShiftImm w op dst (u8 imm)).
Proof.
  intros Hd Hn. assert (0 <= n < 8) as Hn8 by (unfold shift_of in Hn; repeat case_match; simplify_eq; lia).
  encode_start. eval_op. rewrite modrm_ext by done. cbn [mbind option_bind]. rewrite Hn. cbn [mbind option_bind].
  by rewrite field_bytes.
Qed.
Lemma enc_shift_cl n op dst : reg dst -> shift_of n = Some op ->
  encodes (rexb false n dst ++ [0xd3; modrm_byte 0xc0 n dst]) (XShiftCl op dst).
Proof.
  intros Hd Hn. assert (0 <= n < 8) as Hn8 by (unfold shift_of in Hn; repeat case_match; simplify_eq; lia).
  encode_start. eval_op. rewrite modrm_ext by done. cbn [mbind option_bind]. by rewrite Hn.
Qed.
Lemma enc_mul w src : reg src -> encodes (rexb w 4 src ++ [0xf7; modrm_byte 0xc0 4 src]) (XMul w src).
Proof. intros Hs. encode_start. eval_op. by rewrite modrm_ext by (done || lia). Qed.
Lemma enc_div w src : reg src -> encodes (rexb w 6 src ++ [0xf7; modrm_byte 0xc0 6 src]) (XDiv w src).
Proof. intros Hs. encode_start. eval_op. by rewrite modrm_ext by (done || lia). Qed.

(** A register in the low bits of the opcode. *)
Lemma op_plus base dst : In base [0x50; 0x58; 0xb8] -> reg dst ->
  base |. (dst &. 7) = base + lo dst /\ (base |. (dst &. 7)) mod 8 = lo dst.
Proof.
  intros Hb Hd. pose proof (reg_forall (fun dst => forallb (fun base => ((base |. (dst &. 7)) =? base + lo dst) &&
    ((base |. (dst &. 7)) mod 8 =? lo dst)) [0x50; 0x58; 0xb8]) dst ltac:(by vm_compute) Hd) as H.
  rewrite forallb_forall in H. specialize (H base Hb). apply andb_prop in H as [H1 H2]. by apply Z.eqb_eq in H1, H2.
Qed.
Lemma rexb_hi0 w dst : rexb w 0 dst = if w || nz (dst &. 8) then [rex_byte w 0 (hi dst)] else [].
Proof. unfold rexb. change (nz (0 &. 8)) with false. by rewrite orb_false_r. Qed.

Lemma enc_mov_imm (w : bool) dst imm : reg dst ->
  encodes (rexb w 0 dst ++ (0xb8 |. (dst &. 7)) :: bytes_of (if w then 8 else 4) imm)
    (XMovImm dst (imm mod 256 ^ Z.of_nat (if w then 8 else 4))).
Proof.
  intros Hd. destruct (op_plus 0xb8 dst) as [E Em]; [cbn; tauto | done |]. destruct (hi_lo dst Hd) as (Ed & Hl & _).
  split; [by apply nonempty_app|]. intros l. rewrite <- ?app_assoc. cbn [app].
  rewrite decode_rexb; [| unfold reg; lia | done | unfold plain_op; rewrite E; lia | rewrite E; lia].
  unfold decode_op. rewrite Em. rewrite E.
  replace ((0x50 <=? 0xb8 + lo dst) && (0xb8 + lo dst <=? 0x57)) with false by lia.
  replace ((0x58 <=? 0xb8 + lo dst) && (0xb8 + lo dst <=? 0x5f)) with false by lia.
  replace ((0xb8 <=? 0xb8 + lo dst) && (0xb8 + lo dst <=? 0xbf)) with true by lia.
  rewrite field_bytes. cbn [mbind option_bind]. by rewrite Ed.
Qed.
Lemma enc_push r : reg r -> encodes (rexb false 0 r ++ [0x50 |. (r &. 7)]) (XPush r).
Proof.
  intros Hd. destruct (op_plus 0x50 r) as [E Em]; [cbn; tauto | done |]. destruct (hi_lo r Hd) as (Ed & Hl & _).
  split; [by apply nonempty_app|]. intros l. rewrite <- ?app_assoc. cbn [app].
  rewrite decode_rexb; [| unfold reg; lia | done | unfold plain_op; rewrite E; lia | rewrite E; lia].
  unfold decode_op. rewrite Em. rewrite E.
  replace ((0x50 <=? 0x50 + lo r) && (0x50 + lo r <=? 0x57)) with true by lia. by rewrite Ed.
Qed.
Lemma enc_pop r : reg r -> encodes (rexb false 0 r ++ [0x58 |. (r &. 7)]) (XPop r).
Proof.
  intros Hd. destruct (op_plus 0x58 r) as [E Em]; [cbn; tauto | done |]. destruct (hi_lo r Hd) as (Ed & Hl & _).
  split; [by apply nonempty_app|]. intros l. rewrite <- ?app_assoc. cbn [app].
  rewrite decode_rexb; [| unfold reg; lia | done | unfold plain_op; rewrite E; lia | rewrite E; lia].
  unfold decode_op. rewrite Em. rewrite E.
  replace ((0x50 <=? 0x58 + lo r) && (0x58 + lo r <=? 0x57)) with false by lia.
  replace ((0x58 <=? 0x58 + lo r) && (0x58 + lo r <=? 0x5f)) with true by lia. by rewrite Ed.
Qed.
Lemma enc_pushf : encodes [0x9c] XPushf.
Proof. done. Qed.
Lemma enc_popf : encodes [0x9d] XPopf.
Proof. done. Qed.
Lemma enc_ret : encodes [0xc3] XRet.
Proof. done. Qed.
Lemma enc_cmov dst src : 0 <= dst < 8 -> 0 <= src < 8 -> encodes [0x48; 0x0f; 0x44; modrm_byte 0xc0 dst src] (XCmovE dst src).
Proof.
  intros Hd Hs. split; [done|]. intros l. change 0x48 with (rex_byte true 0 0). cbn [app].
  rewrite <- (hi_small dst), <- (hi_small src) at 1 by done. rewrite decode_prefix by (unfold reg; lia). eval_op.
  by rewrite modrm_reg by (unfold reg; lia).
Qed.
Lemma enc_jcc c cc rel : cond_of c = Some cc -> encodes ([0x0f; c] ++ bytes_of 4 rel) (XJcc cc (s32 rel)).
Proof.
  intros Hc. split; [done|]. intros l. rewrite <- app_assoc. cbn [app].
  assert (In c [0x82; 0x83; 0x84; 0x85; 0x8c; 0x8d]) as Hin by (unfold cond_of in Hc; repeat case_match; simplify_eq; cbn; tauto).
  rewrite decode_plain by done.
  repeat (destruct Hin as [<- | Hin]; [injection Hc as <-; eval_op; rewrite field_bytes; cbn [mbind option_bind];
    change (rel mod 256 ^ Z.of_nat 4) with (u32 rel); by rewrite s32_u32|]). done.
Qed.
Lemma enc_jmp rel : encodes (0xe9 :: bytes_of 4 rel) (XJmp (s32 rel)).
Proof.
  split; [done|]. intros l. cbn [app]. rewrite decode_plain by done. eval_op. rewrite field_bytes. cbn [mbind option_bind].
  change (rel mod 256 ^ Z.of_nat 4) with (u32 rel). by rewrite s32_u32.
Qed.

(** Memory operands. *)
Lemma enc_load n c dst src off : reg dst -> reg src -> lo src <> 4 -> - 2 ^ 31 <= off < 2 ^ 31 ->
  In (n, c) [(1%nat, [0x0f; 0xb6]); (2%nat, [0x0f; 0xb7]); (4%nat, [0x8b])] ->
  encodes (rexb false dst src ++ c ++ disp_bytes dst src off) (XLoad n dst src off).
Proof.
  intros Hd Hs H4 Ho Hin. assert (disp_bytes dst src off <> []) by (unfold disp_bytes; repeat case_match; done).
  repeat (destruct Hin as [[= <- <-] | Hin]; [split; [by repeat apply nonempty_app|]; intros l; rewrite <- ?app_assoc; cbn [app];
    rewrite decode_rexb by done; eval_op; by rewrite modrm_disp|]). done.
Qed.
Lemma enc_load_sx n c dst src off : reg dst -> reg src -> lo src <> 4 -> - 2 ^ 31 <= off < 2 ^ 31 ->
  In (n, c) [(1%nat, [0x0f; 0xbe]); (2%nat, [0x0f; 0xbf])] ->
  encodes (rexb false dst src ++ c ++ disp_bytes dst src off) (XLoadSx n false dst src off).
Proof.
  intros Hd Hs H4 Ho Hin. assert (disp_bytes dst src off <> []) by (unfold disp_bytes; repeat case_match; done).
  repeat (destruct Hin as [[= <- <-] | Hin]; [split; [by repeat apply nonempty_app|]; intros l; rewrite <- ?app_assoc; cbn [app];
    rewrite decode_rexb by done; eval_op; by rewrite modrm_disp|]). done.
Qed.
Lemma enc_store4 src dst off : reg src -> reg dst -> lo dst <> 4 -> - 2 ^ 31 <= off < 2 ^ 31 ->
  encodes (rexb false src dst ++ 0x89 :: disp_bytes src dst off) (XStore 4 src dst off).
Proof.
  intros Hs Hd H4 Ho. split; [by apply nonempty_app|]. intros l. rewrite <- ?app_assoc. cbn [app].
  rewrite decode_rexb by done. eval_op. by rewrite modrm_disp.
Qed.
Lemma decode_rex_rexb r b c l : reg r -> reg b -> plain_op c = true ->
  exists rex, decode_rex true (rexb false r b ++ c :: l) = decode_op true rex false (hi r) (hi b) (c :: l).
Proof.
  intros Hr Hb Hc. unfold rexb. destruct (false || _ || _) eqn:E; cbn [app].
  - exists true. by rewrite decode_rex_prefix.
  - apply rexb_hi in E as (_ & -> & ->). exists false. unfold decode_rex, plain_op in *.
    by destruct ((_ <=? c) && (c <=? _)).
Qed.
Lemma enc_store2 src dst off : reg src -> reg dst -> lo dst <> 4 -> - 2 ^ 31 <= off < 2 ^ 31 ->
  encodes (0x66 :: rexb false src dst ++ 0x89 :: disp_bytes src dst off) (XStore 2 src dst off).
Proof.
  intros Hs Hd H4 Ho. split; [done|]. intros l. cbn [app]. rewrite <- ?app_assoc. cbn [app].
  change (decode (0x66 :: ?x)) with (decode_rex true x).
  destruct (decode_rex_rexb src dst 0x89 (disp_bytes src dst off ++ l)) as [rex ->]; [done..|]. eval_op. by rewrite modrm_disp.
Qed.
Lemma enc_store1 src dst off : reg src -> reg dst -> lo dst <> 4 -> - 2 ^ 31 <= off < 2 ^ 31 ->
  encodes (rex_byte false (hi src) (hi dst) :: 0x88 :: disp_bytes src dst off) (XStore 1 src dst off).
Proof.
  intros Hs Hd H4 Ho. split; [done|]. intros l. cbn [app]. rewrite decode_prefix by done. eval_op. by rewrite modrm_disp.
Qed.

(** A memory operand with a displacement of four bytes. *)
Lemma modrm_disp4 dst off l : reg dst -> lo dst <> 4 -> - 2 ^ 31 <= off < 2 ^ 31 ->
  modrm 0 (hi dst) ((0x80 |. (dst &. 7)) :: bytes_of 4 off ++ l) = Some (0, dst, Some off, l).
Proof.
  intros Hd H4 Ho. destruct (modrm_fields 0x80 0 dst) as (E1 & E2 & E3); [cbn; tauto | unfold reg; lia | done |].
  change (0x80 |. (dst &. 7)) with (modrm_byte 0x80 0 dst). unfold modrm. rewrite E1, E2, E3. cbn [Z.div Z.div_eucl].
  destruct (Z.eqb_spec (lo dst) 4); [done|]. rewrite field_bytes. cbn [mbind option_bind]. destruct (hi_lo dst Hd) as (-> & _).
  change (off mod 256 ^ Z.of_nat 4) with (u32 off). by rewrite s32_u32, s32_small.
Qed.
Lemma enc_store_imm4 dst off imm : reg dst -> lo dst <> 4 -> - 2 ^ 31 <= off < 2 ^ 31 ->
  encodes (rexb false 0 dst ++ [0xc7; 0x80 |. (dst &. 7)] ++ bytes_of 4 off ++ bytes_of 4 imm) (XStoreImm 4 dst off (u32 imm)).
Proof.
  intros Hd H4 Ho. split; [by apply nonempty_app|]. intros l. rewrite <- ?app_assoc. cbn [app]. rewrite <- ?app_assoc.
  rewrite decode_rexb by (done || unfold reg; lia). eval_op. rewrite modrm_disp4 by done. eval_op. by rewrite field_bytes.
Qed.
Lemma enc_store_imm2 dst off imm : reg dst -> lo dst <> 4 -> - 2 ^ 31 <= off < 2 ^ 31 ->
  encodes (0x66 :: rexb false 0 dst ++ [0xc7; 0x80 |. (dst &. 7)] ++ bytes_of 4 off ++ bytes_of 2 imm) (XStoreImm 2 dst off (u16 imm)).
Proof.
  intros Hd H4 Ho. split; [done|]. intros l. cbn [app]. rewrite <- ?app_assoc. cbn [app]. rewrite <- ?app_assoc.
  change (decode (0x66 :: ?x)) with (decode_rex true x).
  destruct (decode_rex_rexb 0 dst 0xc7 ((0x80 |. (dst &. 7)) :: bytes_of 4 off ++ bytes_of 2 imm ++ l)) as [rex ->];
    [unfold reg; lia | done | done |].
  eval_op. rewrite modrm_disp4 by done. eval_op. by rewrite field_bytes.
Qed.
Lemma enc_store_imm1 dst off imm : reg dst -> lo dst <> 4 -> - 2 ^ 31 <= off < 2 ^ 31 ->
  encodes (rexb false 0 dst ++ [0xc6; 0x80 |. (dst &. 7)] ++ bytes_of 4 off ++ bytes_of 1 imm) (XStoreImm 1 dst off (u8 imm)).
Proof.
  intros Hd H4 Ho. split; [by apply nonempty_app|]. intros l. rewrite <- ?app_assoc. cbn [app]. rewrite <- ?app_assoc.
  rewrite decode_rexb by (done || unfold reg; lia). eval_op. rewrite modrm_disp4 by done. eval_op. by rewrite field_bytes.
Qed.
Lemma enc_inc off : - 2 ^ 31 <= off < 2 ^ 31 -> encodes ([0x48; 0xff; 0x87] ++ bytes_of 4 off) (XInc RDI off).
Proof.
  intros Ho. split; [done|]. intros l. rewrite <- app_assoc. cbn [app].
  change (decode (0x48 :: ?x)) with (decode_op false true true 0 0 x). eval_op.
  pose proof (modrm_disp4 7 off l ltac:(unfold reg; lia) ltac:(done) Ho) as H. change (hi 7) with 0 in H.
  change (128 |. 7 &. 7) with 0x87 in H. by rewrite H.
Qed.

(** ** Running pieces of code *)

Section run.
Context (cb : Z) (call : Z -> xstate -> option xstate).
Notation exec := (exec cb call).
Notation xrun := (xrun cb call).

(** Some number of steps leads from one state to the other. *)
Definition reaches (code : list Z) (s s' : xstate) : Prop := exists n, xrun code n s = Some s'.

Lemma reaches_refl code s : reaches code s s.
Proof. by exists O. Qed.
Lemma xrun_app code n m s s1 : xrun code n s = Some s1 -> xrun code (n + m) s = xrun code m s1.
Proof.
  revert s. induction n as [|n IH]; intros s; cbn [X64.xrun Nat.add]; [by intros [= ->]|].
  destruct (xstep _ _ _ s) as [s2|]; [|done]. cbn [mbind option_bind]. apply IH.
Qed.
Lemma reaches_trans code s1 s2 s3 : reaches code s1 s2 -> reaches code s2 s3 -> reaches code s1 s3.
Proof. intros [n Hn] [m Hm]. exists (n + m)%nat. by rewrite (xrun_app _ _ _ _ s2). Qed.

(** One instruction, in its place. *)
Lemma reaches_insn pre bs post i s s' : encodes bs i -> s.(rip) = Z.of_nat (length pre) ->
  exec i (xset_rip s (Z.of_nat (length pre + length bs))) = Some s' -> reaches (pre ++ bs ++ post) s s'.
Proof.
  intros [Hne Hdec] Hrip Hex. exists 1%nat. cbn [X64.xrun]. unfold xstep. rewrite Hrip.
  destruct (Z.ltb_spec (Z.of_nat (length pre)) 0); [lia|].
  rewrite Nat2Z.id, drop_app_length, Hdec. cbn [mbind option_bind].
  rewrite !length_app. replace (length pre + (length bs + length post) - length post)%nat with (length pre + length bs)%nat by lia.
  by rewrite Hex.
Qed.
End run.

(** * Emission *)

Create Rewrite HintDb jit.

(** Nothing went wrong: the buffer did not overflow, no assertion failed, and
    offsets are far from the end of their type. *)
Definition ok (st : jit_state) : Prop := st.(should_flush) = false /\ st.(failed) = false /\ offset st < 2 ^ 31.

(** ** Fields that emission does not change *)

Definition same (st st' : jit_state) : Prop :=
  st'.(exit_loc) = st.(exit_loc) /\ st'.(offset_map) = st.(offset_map) /\ st'.(candidate_queue) = st.(candidate_queue) /\
  st'.(liveness) = st.(liveness) /\ st'.(size) = st.(size).
#[export] Instance same_refl : Reflexive same.
Proof. by intros st. Qed.
#[export] Instance same_trans : Transitive same.
Proof. intros a b c (? & ? & ? & ? & ?) (? & ? & ? & ? & ?). split_and!; congruence. Qed.

Lemma map_bytes st l : register_map (emit_bytes st l) = register_map st.
Proof. unfold emit_bytes. by repeat case_match. Qed.
Lemma vm_bytes st l : vm_reg (emit_bytes st l) = vm_reg st.
Proof. unfold emit_bytes. by repeat case_match. Qed.
Lemma jumps_bytes st l : jumps (emit_bytes st l) = jumps st.
Proof. unfold emit_bytes. by repeat case_match. Qed.
Lemma same_bytes st l : same st (emit_bytes st l).
Proof. unfold emit_bytes. repeat case_match; done. Qed.
#[export] Hint Rewrite map_bytes vm_bytes jumps_bytes : jit.

(** ** Pieces of code *)

Section sim.
Context (cb : Z) (call : Z -> xstate -> option xstate) (tl : jump -> Z).
(** Where the jumps go. *)
Definition patches (js : list jump) (l : list Z) : list Z :=
  fold_left (fun l j => patch l j.(offset_loc) (tl j - (j.(offset_loc) + 4))) js l.

(** [c] is what becomes of the bytes [raw] when the jumps [js] are resolved. *)
Record piece (st st' : jit_state) (raw c : list Z) (js : list jump) : Prop := mk_piece {
  pc_buf : buf st' = buf st ++ raw;
  pc_jumps : jumps st' = jumps st ++ js;
  pc_length : length c = length raw;
  pc_patch : forall pre post, length pre = length (buf st) -> patches js (pre ++ raw ++ post) = pre ++ c ++ post
}.
Lemma piece_nil st : piece st st [] [] [].
Proof. split; [by rewrite app_nil_r.. | done | done]. Qed.
Lemma piece_app st st1 st2 r1 r2 c1 c2 j1 j2 :
  piece st st1 r1 c1 j1 -> piece st1 st2 r2 c2 j2 -> piece st st2 (r1 ++ r2) (c1 ++ c2) (j1 ++ j2).
Proof.
  intros [B1 J1 L1 P1] [B2 J2 L2 P2]. split.
  - by rewrite B2, B1, app_assoc.
  - by rewrite J2, J1, app_assoc.
  - by rewrite !length_app, L1, L2.
  - intros pre post Hp. unfold patches in *. rewrite fold_left_app, <- app_assoc, P1 by done.
    rewrite (app_assoc pre), P2 by (rewrite length_app, L1, B1, length_app; lia). by rewrite <- !app_assoc.
Qed.
Lemma piece_raw st st' raw : buf st' = buf st ++ raw -> jumps st' = jumps st -> piece st st' raw raw [].
Proof. intros B J. split; [done | by rewrite app_nil_r | done | done]. Qed.

(** The code between the states takes [P] to [Q]; [Q] sees where it ends, [P]
    does not see where it starts. *)
Definition gsim (st st' : jit_state) (P Q : xstate -> Prop) : Prop :=
  ok st' -> ok st /\ exists raw c js, piece st st' raw c js /\
    forall pre post s, length pre = length (buf st) -> P s ->
      exists s', reaches cb call (pre ++ c ++ post) (xset_rip s (offset st)) s' /\ Q s'.
(** It ends at its end. *)
Definition sim (st st' : jit_state) (P Q : xstate -> Prop) : Prop :=
  gsim st st' P (fun s' => exists s, s' = xset_rip s (offset st') /\ Q s).

Lemma gsim_weaken st st' (P P' Q Q' : xstate -> Prop) :
  gsim st st' P Q -> (forall s, P' s -> P s) -> (forall s, Q s -> Q' s) -> gsim st st' P' Q'.
Proof.
  intros H HP HQ Hok. destruct (H Hok) as [? (raw & c & js & Hp & Hs)]. split; [done|]. exists raw, c, js. split; [done|].
  intros pre post s ? ?. destruct (Hs pre post s) as (s' & ? & ?); eauto.
Qed.
Lemma sim_weaken st st' (P P' Q Q' : xstate -> Prop) :
  sim st st' P Q -> (forall s, P' s -> P s) -> (forall s, Q s -> Q' s) -> sim st st' P' Q'.
Proof. intros H HP HQ. eapply gsim_weaken; [done.. |]. intros s (s' & ? & ?). eauto. Qed.
Lemma sim_refl st (P : xstate -> Prop) : sim st st P P.
Proof.
  intros Hok. split; [done|]. exists [], [], []. split; [apply piece_nil|]. 
  intros pre post s ? ?. eexists. split; [apply reaches_refl | eauto].
Qed.

Lemma sim_gsim st st1 st2 (P Q R : xstate -> Prop) : sim st st1 P Q -> gsim st1 st2 Q R -> gsim st st2 P R.
Proof.
  intros H1 H2 Hok. destruct (H2 Hok) as [Hok1 (r2 & c2 & j2 & P2 & S2)]. destruct (H1 Hok1) as [Hok0 (r1 & c1 & j1 & P1 & S1)].
  split; [done|]. exists (r1 ++ r2), (c1 ++ c2), (j1 ++ j2). split; [by eapply piece_app|]. intros pre post s Hl Hs.
  destruct (S1 pre (c2 ++ post) s) as (? & Hr1 & s1 & -> & Hq); [done..|].
  destruct (S2 (pre ++ c1) post s1) as (s2 & Hr2 & ?); [| done |].
  { rewrite length_app, (pc_length _ _ _ _ _ P1), (pc_buf _ _ _ _ _ P1), length_app. lia. }
  exists s2. split; [|done]. rewrite <- app_assoc in *. by eapply reaches_trans.
Qed.
Lemma sim_trans st st1 st2 (P Q R : xstate -> Prop) : sim st st1 P Q -> sim st1 st2 Q R -> sim st st2 P R.
Proof. apply sim_gsim. Qed.
(** A state with the same code. *)
Lemma gsim_ext st st1 st2 (P Q : xstate -> Prop) :
  (ok st2 -> ok st1) -> buf st2 = buf st1 -> jumps st2 = jumps st1 -> gsim st st1 P Q -> gsim st st2 P Q.
Proof.
  intros Ho Eb Ej H Hok. destruct (H (Ho Hok)) as [? (raw & c & js & [B J L Hp] & Hs)]. split; [done|]. exists raw, c, js.
  split; [|done]. split; congruence || done.
Qed.
Lemma sim_ext st st1 st2 (P Q : xstate -> Prop) :
  (ok st2 -> ok st1) -> buf st2 = buf st1 -> jumps st2 = jumps st1 -> sim st st1 P Q -> sim st st2 P Q.
Proof. intros Ho Eb Ej H. unfold sim. replace (offset st2) with (offset st1) by (unfold offset; by rewrite Eb). by apply (gsim_ext st st1). Qed.
Lemma sim_map st st1 m (P Q : xstate -> Prop) : sim st st1 P Q -> sim st (set_map st1 m) P Q.
Proof. by apply sim_ext. Qed.
Lemma sim_vm st st1 i r (P Q : xstate -> Prop) : sim st st1 P Q -> sim st (set_vm st1 i r) P Q.
Proof. by apply sim_ext. Qed.
(** Code that is not reached. *)
Definition emitted (st st' : jit_state) : Prop := ok st' -> ok st /\ exists raw c js, piece st st' raw c js.
Lemma gsim_more st st1 st2 (P Q : xstate -> Prop) : gsim st st1 P Q -> emitted st1 st2 -> gsim st st2 P Q.
Proof.
  intros H1 H2 Hok. destruct (H2 Hok) as [Hok1 (r2 & c2 & j2 & P2)]. destruct (H1 Hok1) as [Hok0 (r1 & c1 & j1 & P1 & S1)].
  split; [done|]. exists (r1 ++ r2), (c1 ++ c2), (j1 ++ j2). split; [by eapply piece_app|]. intros pre post s Hl Hs.
  rewrite <- app_assoc. by apply S1.
Qed.
Lemma gsim_emitted st st' P Q : gsim st st' P Q -> emitted st st'.
Proof. intros H Hok. destruct (H Hok) as [? (raw & c & js & Hp & _)]. eauto 10. Qed.
Lemma emitted_trans st st1 st2 : emitted st st1 -> emitted st1 st2 -> emitted st st2.
Proof.
  intros H1 H2 Hok. destruct (H2 Hok) as [Hok1 (r2 & c2 & j2 & P2)]. destruct (H1 Hok1) as [Hok0 (r1 & c1 & j1 & P1)].
  split; [done|]. eexists _, _, _. by eapply piece_app.
Qed.

(** ** One instruction *)

(** The bytes [bs] are appended. *)
Definition emits (st st' : jit_state) (bs : list Z) : Prop :=
  ok st' -> ok st /\ buf st' = buf st ++ bs /\ jumps st' = jumps st.
(** One instruction is appended. *)
Definition insn (st st' : jit_state) (i : xinsn) : Prop := exists bs, encodes bs i /\ emits st st' bs.

(** Instructions that do not jump or call. *)
Definition straight (i : xinsn) : bool :=
  match i with XJcc _ _ | XJmp _ | XJmpReg _ | XCallReg _ | XRet => false | _ => true end.
Lemma exec_rip i s s' a : straight i = true -> exec cb call i s = Some s' ->
  exec cb call i (xset_rip s a) = Some (xset_rip s' a).
Proof.
  intros Hi He. destruct i; try discriminate Hi; cbn [exec] in *.
  all: unfold x_alu, x_shift, push, pop in *; cbn [xset_rip xset xset_flags xset_mem xr xf xmem rip] in *.
  all: unfold xget, ea, trunc in *; cbn [xset_rip xset xset_flags xset_mem xr xf xmem rip] in *.
  all: repeat case_match; simplify_eq; try done.
Qed.
Lemma sim_insn st st' i (P Q : xstate -> Prop) :
  insn st st' i -> straight i = true -> (forall s, P s -> exists s', exec cb call i s = Some s' /\ Q s') ->
  sim st st' P Q.
Proof.
  intros (bs & Henc & Hem) Hi Hex Hok. destruct (Hem Hok) as (Hok0 & Hb & Hj). split; [done|].
  exists bs, bs, []. split; [by apply piece_raw|]. intros pre post s Hl Hs. destruct (Hex s Hs) as (s' & He & Hq).
  exists (xset_rip s' (offset st')). split; [|by eauto].
  eapply reaches_insn; [done | unfold offset; by rewrite Hl |].
  change (xset_rip (xset_rip s _) ?a) with (xset_rip s a). unfold offset. rewrite Hb, length_app, Hl. by apply exec_rip.
Qed.
End sim.

(** ** The functions that emit *)

Lemma emits_bytes st l : emits st (emit_bytes st l) l.
Proof.
  intros (Hf & Hx & Ho). unfold emit_bytes in *. destruct (_ <? _); [done|]. destruct (_ =? _); [done|].
  split; [|done]. split_and!; [done..|]. unfold offset in *. cbn [buf set_buf] in Ho. rewrite length_app in Ho. lia.
Qed.
Lemma emits_nil st : emits st st [].
Proof. intros Hok. by rewrite app_nil_r. Qed.
Lemma emits_app st st1 st2 l1 l2 : emits st st1 l1 -> emits st1 st2 l2 -> emits st st2 (l1 ++ l2).
Proof.
  intros H1 H2 Hok. destruct (H2 Hok) as (Hok1 & B2 & J2). destruct (H1 Hok1) as (Hok0 & B1 & J1).
  split; [done|]. by rewrite B2, B1, app_assoc, J2.
Qed.
Lemma emits_map st st' m l : emits st st' l -> emits st (set_map st' m) l.
Proof. done. Qed.
Lemma emits_dirty st st' r b l : emits st st' l -> emits st (set_dirty st' r b) l.
Proof. done. Qed.
Lemma emits_eq st st' l l' : emits st st' l -> l = l' -> emits st st' l'.
Proof. by intros H <-. Qed.

Lemma emits1 st x : emits st (emit1 st x) [u8 x].
Proof. apply emits_bytes. Qed.
Lemma emits_byte st x c : u8 x = c -> emits st (emit1 st x) [c].
Proof. intros <-. apply emits1. Qed.
Lemma emits4 st x : emits st (emit4 st x) (bytes_of 4 x).
Proof. apply emits_bytes. Qed.
Lemma emits8 st x : emits st (emit8 st x) (bytes_of 8 x).
Proof. apply emits_bytes. Qed.

Lemma u8_small z : 0 <= z < 256 -> u8 z = z.
Proof. apply Z.mod_small. Qed.
Lemma modrm_byte_range m r b : In m [0xc0; 0x80; 0x40; 0] -> reg r -> reg b -> 0 <= modrm_byte m r b < 256.
Proof.
  intros Hm Hr Hb. pose proof (reg_forall2 (fun r b => forallb (fun m => (0 <=? modrm_byte m r b) && (modrm_byte m r b <? 256))
    [0xc0; 0x80; 0x40; 0]) r b ltac:(by vm_compute) Hr Hb) as H.
  rewrite forallb_forall in H. specialize (H m Hm). lia.
Qed.
Lemma emits_modrm st m r b : In m [0xc0; 0x80; 0x40; 0] -> reg r -> reg b -> emits st (emit_modrm st m r b) [modrm_byte m r b].
Proof. intros Hm Hr Hb. eapply emits_eq; [apply emits1|]. f_equal. by apply u8_small, modrm_byte_range. Qed.
Lemma emits_reg2reg st r b : reg r -> reg b -> emits st (emit_modrm_reg2reg st r b) [modrm_byte 0xc0 r b].
Proof. apply emits_modrm. by left. Qed.
Lemma emits_disp st r b d : reg r -> reg b -> emits st (emit_modrm_and_displacement st r b d) (disp_bytes r b d).
Proof.
  intros Hr Hb. unfold emit_modrm_and_displacement, disp_bytes.
  destruct (_ && _); [|destruct (_ =? _)].
  - apply emits_modrm; cbn; tauto.
  - eapply (emits_app _ _ _ [_] [_]); [apply emits_modrm; cbn; tauto | apply emits1].
  - eapply (emits_app _ _ _ [_] (bytes_of 4 d)); [apply emits_modrm; cbn; tauto | apply emits4].
Qed.
Lemma rex_byte_range w r b : reg r -> reg b -> 0 <= rex_byte w (hi r) (hi b) < 256.
Proof. intros Hr Hb. destruct (hi_lo r Hr) as (_ & _ & [-> | ->]), (hi_lo b Hb) as (_ & _ & [-> | ->]), w; vm_compute; done. Qed.
Lemma emits_rex st (w : bool) r b : reg r -> reg b ->
  emits st (emit_rex st (b2z w) (hi r) 0 (hi b)) [rex_byte w (hi r) (hi b)].
Proof. intros Hr Hb. eapply emits_eq; [apply emits1|]. f_equal. by apply u8_small, rex_byte_range. Qed.
Lemma emits_basic_rex st (w : bool) r b : reg r -> reg b -> emits st (emit_basic_rex st (b2z w) r b) (rexb w r b).
Proof.
  intros Hr Hb. unfold emit_basic_rex, rexb. replace (nz (b2z w)) with w by by destruct w.
  destruct (w || _ || _); [by apply emits_rex | apply emits_nil].
Qed.
(** The prefix behind a test of the registers. *)
Lemma emits_rex_if st r b : reg r -> reg b ->
  emits st (if nz (r &. 8) || nz (b &. 8) then emit_basic_rex st 0 r b else st) (rexb false r b).
Proof.
  intros Hr Hb. destruct (nz (r &. 8) || nz (b &. 8)) eqn:E; [by apply (emits_basic_rex st false)|].
  unfold rexb. cbn [orb]. rewrite E. apply emits_nil.
Qed.
Lemma emits_rex_direct st r b : reg r -> reg b ->
  emits st (if nz (r &. 8) || nz (b &. 8) then emit_rex st 0 (b2z (nz (r &. 8))) 0 (b2z (nz (b &. 8))) else st) (rexb false r b).
Proof.
  intros Hr Hb. unfold rexb. cbn [orb]. destruct (nz (r &. 8) || nz (b &. 8)) eqn:E; [by apply (emits_rex st false) | apply emits_nil].
Qed.
Lemma emits_rex_if1 st b : reg b -> emits st (if nz (b &. 8) then emit_basic_rex st 0 0 b else st) (rexb false 0 b).
Proof. intros Hb. apply (emits_rex_if st 0 b); [unfold reg; lia | done]. Qed.

Ltac one_byte := eapply emits_byte; reflexivity.
Ltac two_bytes := eapply (emits_app _ _ _ [_] [_]); [|one_byte]; one_byte.

Section insn.
Implicit Types st : jit_state.

Lemma insn_dirty st st' r b i : insn st st' i -> insn st (set_dirty st' r b) i.
Proof. intros (bs & ? & ?). by exists bs. Qed.
Lemma insn_of st st' bs i : emits st st' bs -> encodes bs i -> insn st st' i.
Proof. intros. by exists bs. Qed.

Lemma emits_alu32 st op src dst : reg src -> reg dst -> 0 <= op < 256 ->
  emits st (emit_alu32 st op src dst) (rexb false src dst ++ [op; modrm_byte 0xc0 src dst]).
Proof.
  intros Hs Hd Ho. apply emits_dirty. eapply emits_app; [by apply emits_rex_if|]. eapply (emits_app _ _ _ [op]).
  - eapply emits_eq; [apply emits1|]. by rewrite u8_small.
  - by apply emits_reg2reg.
Qed.
Lemma emits_alu64 st op src dst : reg src -> reg dst -> 0 <= op < 256 ->
  emits st (emit_alu64 st op src dst) (rexb true src dst ++ [op; modrm_byte 0xc0 src dst]).
Proof.
  intros Hs Hd Ho. apply emits_dirty. eapply emits_app; [by apply (emits_basic_rex _ true)|]. eapply (emits_app _ _ _ [op]).
  - eapply emits_eq; [apply emits1|]. by rewrite u8_small.
  - by apply emits_reg2reg.
Qed.
Lemma alu_of_range c op : alu_of c = Some op -> 0 <= c < 256.
Proof. unfold alu_of. intros. repeat case_match; simplify_eq; lia. Qed.
Lemma ext_of_range c op : ext_of c = Some op -> 0 <= c < 8.
Proof. unfold ext_of. intros. repeat case_match; simplify_eq; lia. Qed.
Lemma shift_of_range c op : shift_of c = Some op -> 0 <= c < 8.
Proof. unfold shift_of. intros. repeat case_match; simplify_eq; lia. Qed.

Lemma insn_alu32 st c op src dst : reg src -> reg dst -> alu_of c = Some op ->
  insn st (emit_alu32 st c src dst) (XAlu false op src dst).
Proof. intros Hs Hd Hc. eapply insn_of; [apply emits_alu32 | apply enc_alu]; try done. by eapply alu_of_range. Qed.
Lemma insn_alu64 st c op src dst : reg src -> reg dst -> alu_of c = Some op ->
  insn st (emit_alu64 st c src dst) (XAlu true op src dst).
Proof. intros Hs Hd Hc. eapply insn_of; [apply emits_alu64 | apply enc_alu]; try done. by eapply alu_of_range. Qed.
Lemma insn_mov st src dst : reg src -> reg dst -> insn st (emit_mov st src dst) (XAlu true Mov src dst).
Proof. intros. by apply insn_alu64. Qed.
Lemma insn_alu32_imm32 st n op dst imm : reg dst -> ext_of n = Some op ->
  insn st (emit_alu32_imm32 st 0x81 n dst imm) (XAluImm false op dst (u32 imm)).
Proof.
  intros Hd Hn. pose proof (ext_of_range _ _ Hn). eapply insn_of; [|by apply enc_alu_imm].
  rewrite app_assoc. eapply emits_app; [apply emits_alu32; unfold reg in *; lia | apply emits4].
Qed.
Lemma insn_alu64_imm32 st n op dst imm : reg dst -> ext_of n = Some op ->
  insn st (emit_alu64_imm32 st 0x81 n dst imm) (XAluImm true op dst (u32 imm)).
Proof.
  intros Hd Hn. pose proof (ext_of_range _ _ Hn). eapply insn_of; [|by apply enc_alu_imm].
  rewrite app_assoc. eapply emits_app; [apply emits_alu64; unfold reg in *; lia | apply emits4].
Qed.
Lemma insn_alu32_imm8 st n op dst imm : reg dst -> shift_of n = Some op ->
  insn st (emit_alu32_imm8 st 0xc1 n dst imm) (XShiftImm false op dst (u8 imm)).
Proof.
  intros Hd Hn. pose proof (shift_of_range _ _ Hn). eapply insn_of; [|by apply enc_shift_imm].
  rewrite app_assoc. eapply emits_app; [apply emits_alu32; unfold reg in *; lia | apply emits1].
Qed.
Lemma insn_alu64_imm8 st n op dst imm : reg dst -> shift_of n = Some op ->
  insn st (emit_alu64_imm8 st 0xc1 n dst imm) (XShiftImm true op dst (u8 imm)).
Proof.
  intros Hd Hn. pose proof (shift_of_range _ _ Hn). eapply insn_of; [|by apply enc_shift_imm].
  rewrite app_assoc. eapply emits_app; [apply emits_alu64; unfold reg in *; lia | apply emits1].
Qed.
Lemma insn_shift_cl st n op dst : reg dst -> shift_of n = Some op -> insn st (emit_alu32 st 0xd3 n dst) (XShiftCl op dst).
Proof.
  intros Hd Hn. pose proof (shift_of_range _ _ Hn). eapply insn_of; [apply emits_alu32 | by apply enc_shift_cl]; unfold reg in *; lia.
Qed.
Lemma insn_cmp_imm32 st dst imm : reg dst -> insn st (emit_cmp_imm32 st dst imm) (XAluImm false Cmp dst (u32 imm)).
Proof. intros. by apply insn_alu32_imm32. Qed.
Lemma insn_cmp32 st src dst : reg src -> reg dst -> insn st (emit_cmp32 st src dst) (XAlu false Cmp src dst).
Proof. intros. by apply insn_alu32. Qed.

Lemma emits_op_reg st base dst : In base [0x50; 0x58; 0xb8] -> reg dst ->
  emits st (emit1 st (base |. (dst &. 7))) [base |. (dst &. 7)].
Proof.
  intros Hb Hd. eapply emits_eq; [apply emits1|]. f_equal. destruct (op_plus base dst Hb Hd) as [-> _].
  destruct (hi_lo dst Hd) as (_ & ? & _). apply u8_small. cbn in Hb. lia.
Qed.
Lemma insn_load_imm st dst imm : reg dst -> insn st (emit_load_imm st dst imm) (XMovImm dst (u32 imm)).
Proof.
  intros Hd. apply insn_dirty. eapply insn_of; [|by apply (enc_mov_imm false)].
  eapply emits_app; [by apply emits_rex_if1|].
  eapply (emits_app _ _ _ [_]); [apply emits_op_reg; [cbn; tauto | done] | apply emits4].
Qed.
Lemma trunc_s32 imm : s32 imm = imm -> trunc true (s32 (u32 imm)) = u64 imm.
Proof. intros E. by rewrite s32_u32, E. Qed.
(** Either form of the instruction moves the 64-bit number. *)
Lemma insn_load_imm_sext st dst imm : reg dst ->
  exists i, insn st (emit_load_imm_sext st dst imm) i /\ straight i = true /\
    forall cb call s, exec cb call i s = Some (xset s dst (u64 imm)).
Proof.
  intros Hd. unfold emit_load_imm_sext. destruct (Z.eqb_spec (s32 imm) imm) as [E|E].
  - eexists. split_and!.
    + apply insn_dirty. eapply insn_of; [|by apply (enc_mov_imm_sx dst imm)]. rewrite app_assoc.
      eapply emits_app; [apply emits_alu64; unfold reg in *; lia | apply emits4].
    + done.
    + intros cb call s. cbn [exec]. unfold x_alu, alu. cbn [xset_flags]. rewrite trunc_s32 by done. by destruct s.
  - eexists. split_and!.
    + apply insn_dirty. eapply insn_of; [|by apply (enc_mov_imm true dst imm)].
      eapply emits_app; [apply (emits_basic_rex _ true); unfold reg in *; lia|].
      eapply (emits_app _ _ _ [_]); [apply emits_op_reg; [cbn; tauto | done] | apply emits8].
    + done.
    + intros cb call s. done.
Qed.
Lemma insn_push st r : reg r -> insn st (emit_push st r) (XPush r).
Proof.
  intros Hr. eapply insn_of; [|by apply enc_push]. eapply emits_app; [by apply emits_rex_if1|].
  apply emits_op_reg; [cbn; tauto | done].
Qed.
Lemma insn_pop st r : reg r -> insn st (emit_pop st r) (XPop r).
Proof.
  intros Hr. eapply insn_of; [|by apply enc_pop]. eapply emits_app; [by apply emits_rex_if1|].
  apply emits_op_reg; [cbn; tauto | done].
Qed.
Lemma insn_pushfq st : insn st (pushfq st) XPushf.
Proof. eapply insn_of; [apply emits1 | apply enc_pushf]. Qed.
Lemma insn_popfq st : insn st (popfq st) XPopf.
Proof. eapply insn_of; [apply emits1 | apply enc_popf]. Qed.
Lemma insn_cmov st src dst : 0 <= src < 8 -> 0 <= dst < 8 -> insn st (emit_conditional_move st src dst) (XCmovE dst src).
Proof.
  intros Hs Hd. eapply insn_of; [|by apply enc_cmov]. eapply (emits_app _ _ _ [_; _; _] [_]); [|by apply emits_reg2reg; unfold reg; lia].
  eapply (emits_app _ _ _ [_; _] [_]); [|one_byte]. two_bytes.
Qed.
Lemma insn_mul st (w : bool) src : reg src ->
  insn st (emit_alu32 (if w then emit_rex st 1 0 0 0 else st) 0xf7 4 src) (XMul w src) \/ (w = true /\ hi src = 1).
Proof.
  intros Hs. destruct w.
  - destruct (hi_lo src Hs) as (_ & _ & [Eh|Eh]); [|by right]. left. eapply insn_of; [|by apply enc_mul].
    unfold rexb. cbn [orb app]. eapply (emits_app _ _ _ [_] [_; _]).
    + pose proof (emits_rex st true 4 src ltac:(unfold reg; lia) Hs) as H. rewrite Eh in *. exact H.
    + eapply emits_eq; [apply emits_alu32; unfold reg in *; lia|]. unfold rexb.
      assert (nz (src &. 8) = false) as -> by (unfold hi in Eh; by destruct (nz _)). done.
  - left. eapply insn_of; [|by apply enc_mul]. apply emits_alu32; unfold reg in *; lia.
Qed.
Lemma insn_div st src : reg src -> insn st (emit_alu32 st 0xf7 6 src) (XDiv false src).
Proof. intros Hs. eapply insn_of; [|by apply enc_div]. apply emits_alu32; unfold reg in *; lia. Qed.
Lemma insn_inc_timer off st : - 2 ^ 31 <= off < 2 ^ 31 -> insn st (emit_jit_inc_timer off st) (XInc RDI off).
Proof.
  intros Ho. eapply insn_of; [|by apply enc_inc]. eapply (emits_app _ _ _ [_; _; _]); [|apply emits4].
  eapply (emits_app _ _ _ [_; _] [_]); [|one_byte]. eapply (emits_app _ _ _ [_] [_]); [|one_byte].
  apply (emits_rex st true 0 0); unfold reg; lia.
Qed.

(** Sizes of operands in bytes. *)
Definition bytes (sz : operand_size) : nat := match sz with S8 => 1 | S16 => 2 | S32 => 4 end.

Lemma insn_load st sz src dst off : reg src -> reg dst -> lo src <> 4 -> - 2 ^ 31 <= off < 2 ^ 31 -> maps_x0 st dst = false ->
  insn st (emit_load st sz src dst off) (XLoad (bytes sz) dst src off).
Proof.
  intros Hs Hd H4 Ho Hx. unfold emit_load. rewrite Hx. apply insn_dirty. rewrite orb_comm.
  eapply insn_of; [|apply (enc_load (bytes sz) (match sz with S8 => [0x0f; 0xb6] | S16 => [0x0f; 0xb7] | S32 => [0x8b] end));
    [done.. | destruct sz; cbn; tauto]].
  eapply emits_app; [by apply emits_rex_if|]. eapply emits_app; [|by apply emits_disp].
  destruct sz; [two_bytes .. | one_byte].
Qed.
Lemma insn_load_x0 st sz src dst off : reg dst -> maps_x0 st dst = true ->
  insn st (emit_load st sz src dst off) (XMovImm dst 0).
Proof. intros Hd Hx. unfold emit_load. rewrite Hx. apply insn_dirty. by apply (insn_load_imm st dst 0). Qed.
Lemma insn_load_sext st sz src dst off : reg src -> reg dst -> lo src <> 4 -> - 2 ^ 31 <= off < 2 ^ 31 -> maps_x0 st dst = false ->
  sz <> S32 -> insn st (emit_load_sext st sz src dst off) (XLoadSx (bytes sz) false dst src off).
Proof.
  intros Hs Hd H4 Ho Hx Hz. unfold emit_load_sext. rewrite Hx. apply insn_dirty. rewrite orb_comm.
  eapply insn_of; [|apply (enc_load_sx (bytes sz) (match sz with S8 => [0x0f; 0xbe] | _ => [0x0f; 0xbf] end));
    [done.. | destruct sz; cbn; tauto]].
  destruct sz; [..|done]; (eapply emits_app; [by apply emits_rex_if|]; eapply emits_app; [|by apply emits_disp];
    two_bytes).
Qed.
Lemma insn_store st sz src dst off : reg src -> reg dst -> lo dst <> 4 -> - 2 ^ 31 <= off < 2 ^ 31 -> maps_x0 st src = false ->
  insn st (emit_store st sz src dst off) (XStore (bytes sz) src dst off).
Proof.
  intros Hs Hd H4 Ho Hx. unfold emit_store. rewrite Hx.
  assert (forall st', insn st st' (XStore (bytes sz) src dst off) ->
    insn st (if nz off then set_dirty st' src false else st') (XStore (bytes sz) src dst off)) as Hw
    by (intros st' ?; case_match; [by apply insn_dirty | done]).
  apply Hw. clear Hw. destruct sz; cbn [bytes]; rewrite ?orb_false_r, ?orb_true_r.
  - eapply insn_of; [|by apply enc_store1]. eapply (emits_app _ _ _ [_; _]); [|by apply emits_disp].
    eapply (emits_app _ _ _ [_] [_]); [by apply (emits_rex st false) | one_byte].
  - eapply insn_of; [|by apply enc_store2]. rewrite (cons_middle 0x89). rewrite app_comm_cons, app_assoc.
    eapply emits_app; [|by apply emits_disp]. eapply emits_app; [|one_byte].
    apply (emits_app _ (emit1 st 0x66) _ [0x66]); [one_byte|]. by apply emits_rex_direct.
  - eapply insn_of; [|by apply enc_store4]. rewrite (cons_middle 0x89), app_assoc.
    eapply emits_app; [|by apply emits_disp]. eapply emits_app; [|one_byte]. by apply emits_rex_direct.
Qed.
Lemma insn_store_x0 st sz src dst off : reg dst -> lo dst <> 4 -> - 2 ^ 31 <= off < 2 ^ 31 -> maps_x0 st src = true ->
  insn st (emit_store st sz src dst off) (XStoreImm (bytes sz) dst off 0).
Proof.
  intros Hd H4 Ho Hx. unfold emit_store. rewrite Hx. apply insn_dirty.
  assert (0 <= (0x80 |. (dst &. 7)) < 256) as Hm by (apply (modrm_byte_range 0x80 0 dst); [cbn; tauto | unfold reg; lia | done]).
  assert (forall st, emits st (if nz (dst &. 8) then emit_rex st 0 0 0 (b2z (nz (dst &. 8))) else st) (rexb false 0 dst)) as Hrex.
  { intros st'. apply (emits_rex_direct st' 0 dst); [unfold reg; lia | done]. }
  destruct sz; cbn [bytes].
  - eapply insn_of; [|by apply (enc_store_imm1 dst off 0)]. rewrite !app_assoc. eapply emits_app; [|one_byte].
    eapply emits_app; [|apply emits4]. eapply emits_app; [apply Hrex|].
    eapply (emits_app _ _ _ [_] [_]); [|apply emits_byte; by apply u8_small]. one_byte.
  - eapply insn_of; [|by apply (enc_store_imm2 dst off 0)].
    rewrite app_comm_cons, !app_assoc. change (bytes_of 2 0) with ([0] ++ [0]). rewrite app_assoc.
    eapply emits_app; [|one_byte]. eapply emits_app; [|one_byte]. eapply emits_app; [|apply emits4].
    apply (emits_app _ (emit1 st 0x66) _ [0x66]); [one_byte|]. eapply emits_app; [apply Hrex|].
    eapply (emits_app _ _ _ [_] [_]); [|apply emits_byte; by apply u8_small]. one_byte.
  - eapply insn_of; [|by apply (enc_store_imm4 dst off 0)]. rewrite !app_assoc. eapply emits_app; [|apply emits4].
    eapply emits_app; [|apply emits4]. eapply emits_app; [apply Hrex|].
    eapply (emits_app _ _ _ [_] [_]); [|apply emits_byte; by apply u8_small]. one_byte.
Qed.
End insn.

(** ** Jumps *)

Section jumps.
Context (cb : Z) (call : Z -> xstate -> option xstate) (tl : jump -> Z).
Hypothesis tl_off : forall j, j.(target_offset) <> 0 -> tl j = j.(target_offset).
Notation sim := (sim cb call tl).
Notation gsim := (gsim cb call tl).
Notation emitted := (emitted tl).

Lemma ok_add_jump st j : ok (add_jump st j) -> ok st /\ buf (add_jump st j) = buf st /\ jumps (add_jump st j) = jumps st ++ [j].
Proof. unfold add_jump, assert. destruct (_ <? _); [done|]. by intros (_ & ? & _). Qed.
Lemma same_add_jump st j : same st (add_jump st j).
Proof. unfold add_jump, assert. by destruct (_ <? _). Qed.
Lemma map_add_jump st j : register_map (add_jump st j) = register_map st.
Proof. unfold add_jump, assert. by destruct (_ <? _). Qed.
Lemma vm_add_jump st j : vm_reg (add_jump st j) = vm_reg st.
Proof. unfold add_jump, assert. by destruct (_ <? _). Qed.

Lemma offset_add_jump st j : offset (add_jump st j) = offset st.
Proof. unfold add_jump, assert. by destruct (_ <? _). Qed.

(** A displacement in its place. *)
Lemma patch_at pre mid post v at_ : at_ = Z.of_nat (length pre) -> length mid = 4%nat ->
  patch (pre ++ mid ++ post) at_ v = pre ++ bytes_of 4 v ++ post.
Proof.
  intros -> Hm. unfold patch. replace (Z.to_nat (Z.of_nat (length pre) + 4)) with (length pre + 4)%nat by lia.
  rewrite Nat2Z.id, take_app_length. do 2 f_equal. rewrite <- Hm, <- length_app, app_assoc. apply drop_app_length.
Qed.

Lemma emits_jcc st cc : cc <> 0xe9 -> 0 <= cc < 256 -> emits st (emit_jcc_offset st cc) ([0x0f; cc] ++ bytes_of 4 0).
Proof.
  intros Hc Hr. unfold emit_jcc_offset. destruct (Z.eqb_spec cc 0xe9); [done|]. eapply emits_app; [|apply emits4].
  eapply (emits_app _ _ _ [_] [_]); [|apply emits_byte; by apply u8_small]. one_byte.
Qed.
Lemma cond_of_range c cc : cond_of c = Some cc -> c <> 0xe9 /\ 0 <= c < 256.
Proof. unfold cond_of. intros. repeat case_match; simplify_eq; lia. Qed.

(** The piece that a forward jump makes of the piece it jumps over. *)
Lemma piece_jump_over st st1 st2 cc raw c js : emits st st1 ([0x0f; cc] ++ bytes_of 4 0) -> ok st1 ->
  piece tl st1 st2 raw c js -> ok (emit_jump_target_offset st2 (offset st + 2) (offset st2)) ->
  piece tl st (emit_jump_target_offset st2 (offset st + 2) (offset st2))
    (([0x0f; cc] ++ bytes_of 4 0) ++ raw) (([0x0f; cc] ++ bytes_of 4 (Z.of_nat (length c))) ++ c)
    (js ++ [mk_jump (offset st + 2) 0 (offset st2)]).
Proof.
  intros He Hok1 [Pb Pj Pl Pp] Hok. destruct (He Hok1) as (_ & B1 & J1). destruct (ok_add_jump _ _ Hok) as (_ & B2 & J2).
  unfold emit_jump_target_offset in *. split.
  - by rewrite B2, Pb, B1, <- app_assoc.
  - by rewrite J2, Pj, J1, <- app_assoc.
  - rewrite !length_app, Pl, !bytes_of_length. done.
  - intros pre post Hl. unfold patches in *. rewrite fold_left_app. rewrite <- (app_assoc ([15; cc] ++ bytes_of 4 0)).
    rewrite (app_assoc pre ([15; cc] ++ bytes_of 4 0)), Pp by (rewrite B1, !length_app, Hl; done).
    cbn [fold_left offset_loc]. rewrite tl_off by (cbn [target_offset]; unfold offset; rewrite Pb, B1, !length_app; cbn; lia).
    cbn [target_offset]. rewrite (app_assoc pre [15; cc]), <- (app_assoc (pre ++ [15; cc])), patch_at.
    + rewrite <- !app_assoc. do 3 f_equal. unfold offset. rewrite Pb, B1, !length_app, Pl, bytes_of_length. cbn [length].
      f_equal. lia.
    + unfold offset. rewrite length_app, Hl. cbn. lia.
    + apply bytes_of_length.
Qed.

(** A conditional jump over a piece. *)
Lemma sim_jump_over st cc c (k : jit_state -> jit_state) (P Q : xstate -> Prop) :
  cond_of cc = Some c ->
  sim (emit_jcc_offset st cc) (k (emit_jcc_offset st cc)) (fun s => P s /\ holds c <$> s.(xf) = Some false) Q ->
  (forall s, P s -> is_Some s.(xf)) -> (forall s, P s -> holds c <$> s.(xf) = Some true -> Q s) ->
  sim st (jump_over st cc k) P Q.
Proof using tl_off.
  intros Hc Hk Hf Ht Hok. destruct (cond_of_range _ _ Hc) as [Hne Hr]. unfold jump_over in *. cbv zeta in *.
  destruct (ok_add_jump _ _ Hok) as (Hok2 & B2 & J2). destruct (Hk Hok2) as (Hok1 & raw & co & js & Hp & Hs).
  pose proof (emits_jcc st cc Hne Hr) as He. destruct (He Hok1) as (Hok0 & B1 & _). split; [done|].
  assert (offset (k (emit_jcc_offset st cc)) = offset st + 6 + Z.of_nat (length co)) as Eo.
  { unfold offset. rewrite (pc_buf _ _ _ _ _ _ Hp), B1, !length_app, (pc_length _ _ _ _ _ _ Hp), bytes_of_length. cbn. lia. }
  eexists _, _, _. split; [by eapply piece_jump_over|]. intros pre post s Hl HP. destruct (Hf s HP) as [f Ef].
  set (len := Z.of_nat (length co)) in *.
  set (s1 := xset_rip s (offset st + 6)).
  assert (exec cb call (XJcc c (s32 len)) s1 = Some (if holds c f then xset_rip s (offset st + 6 + len) else s1)) as Ex.
  { cbn [exec xf s1 xset_rip rip]. rewrite Ef. destruct (holds c f); [|done]. f_equal. unfold s1, xset_rip. cbn. f_equal.
    rewrite s32_small; [done|]. destruct Hok2 as (_ & _ & ?). unfold offset in *. lia. }
  assert (reaches cb call (pre ++ ([0x0f; cc] ++ bytes_of 4 len) ++ co ++ post) (xset_rip s (offset st))
    (if holds c f then xset_rip s (offset st + 6 + len) else s1)) as Hj.
  { eapply reaches_insn; [by apply enc_jcc | unfold offset; by rewrite Hl |].
    rewrite <- Ex. f_equal. unfold s1, offset, xset_rip. cbn. f_equal. rewrite Hl. lia. }
  rewrite <- (app_assoc ([15; cc] ++ bytes_of 4 len)). destruct (holds c f) eqn:Eh.
  - exists (xset_rip s (offset st + 6 + len)). split; [done|]. exists s. split.
    + f_equal. unfold emit_jump_target_offset. by rewrite offset_add_jump, Eo.
    + apply Ht; [done|]. by rewrite Ef, <- Eh.
  - destruct (Hs (pre ++ [0x0f; cc] ++ bytes_of 4 len) post s) as (? & Hr2 & s2 & -> & HQ).
    + rewrite B1, !length_app, !bytes_of_length, Hl. done.
    + split; [done|]. by rewrite Ef, <- Eh.
    + eexists. split; [|exists s2; split; [|done]; unfold emit_jump_target_offset; by rewrite offset_add_jump].
      eapply reaches_trans; [exact Hj|]. rewrite <- app_assoc in Hr2. unfold s1.
      replace (offset st + 6) with (offset (emit_jcc_offset st cc)); [done|]. unfold offset. rewrite B1, !length_app, bytes_of_length. cbn. lia.
Qed.

(** An unconditional jump: its record and the displacement. *)
Definition jmp_to (st : jit_state) (j : jump) : jit_state := emit4 (add_jump (emit1 st 0xe9) j) 0.
Lemma emit_jmp_to st target :
  emit_jmp st target = jmp_to st (mk_jump (offset (emit1 st 0xe9)) (u32 target) 0).
Proof. done. Qed.
Lemma emit_exit_to st : emit_exit st = jmp_to st (mk_jump (offset (emit1 st 0xe9)) 0 (exit_loc st)).
Proof. unfold emit_exit, emit_jump_target_offset, jmp_to. destruct (same_bytes st [u8 0xe9]) as (E & _). unfold emit1. by rewrite E. Qed.

Lemma gsim_jmp st j (P : xstate -> Prop) : j.(offset_loc) = offset (emit1 st 0xe9) -> (ok (jmp_to st j) -> 0 <= tl j < 2 ^ 31) ->
  gsim st (jmp_to st j) P (fun s' => exists s, s' = xset_rip s (tl j) /\ P s).
Proof using.
  intros Hl Ht Hok. specialize (Ht Hok). unfold jmp_to in *. destruct (emits4 _ _ Hok) as (Hok2 & B3 & J3).
  destruct (ok_add_jump _ _ Hok2) as (Hok1 & B2 & J2). destruct (emits_byte st 0xe9 0xe9 eq_refl Hok1) as (Hok0 & B1 & J1).
  assert (offset (emit1 st 0xe9) = offset st + 1) as Eo by (unfold offset; rewrite B1, length_app; cbn; lia).
  split; [done|]. exists (0xe9 :: bytes_of 4 0), (0xe9 :: bytes_of 4 (tl j - (offset st + 5))), [j]. split.
  - split.
    + by rewrite B3, B2, B1, <- app_assoc.
    + by rewrite J3, J2, J1.
    + done.
    + intros pre post Hp. unfold patches. cbn [fold_left]. rewrite Hl, Eo.
      change (?a :: bytes_of 4 ?x) with ([a] ++ bytes_of 4 x). rewrite <- !app_assoc, (app_assoc pre), patch_at.
      * rewrite <- app_assoc. do 3 f_equal. unfold app. f_equal. lia.
      * unfold offset. rewrite length_app, Hp. cbn. lia.
      * apply bytes_of_length.
  - intros pre post s Hp HP. exists (xset_rip s (tl j)). split; [|by eauto].
    eapply reaches_insn; [apply enc_jmp | unfold offset; by rewrite Hp |].
    cbn [exec]. f_equal. unfold xset_rip. cbn [xr xf xmem rip]. f_equal.
    cbn [length]. destruct Hok as (_ & _ & Hoff). unfold offset in Hoff. rewrite B3, B2, B1, !length_app, bytes_of_length in Hoff.
    cbn [length] in Hoff. rewrite bytes_of_length, Hp, s32_small; unfold offset; lia.
Qed.
End jumps.

(** ** The state around an emission *)

(** The registers change as said, [vm_reg] and the rest do not. *)
Definition around (st st' : jit_state) (m : list host_reg) : Prop :=
  register_map st' = m /\ vm_reg st' = vm_reg st /\ same st st' /\ (ok st' -> ok st).
Lemma around_ok st st' m : around st st' m -> ok st' -> ok st.
Proof. by intros (_ & _ & _ & H). Qed.
Lemma around_refl st : around st st (register_map st).
Proof. by split. Qed.
Lemma around_bytes st st' l m : around st st' m -> around st (emit_bytes st' l) m.
Proof.
  intros (? & ? & ? & Ho). split_and!; [by rewrite map_bytes | by rewrite vm_bytes | |].
  - etransitivity; [done | apply same_bytes].
  - intros Hok. apply Ho. by apply (emits_bytes st' l).
Qed.
Lemma around_dirty st st' r b m : around st st' m -> around st (set_dirty st' r b) (dirty_loop m r b).
Proof. intros (? & ? & ? & ?). split_and!; [|done..]. cbn. by f_equal. Qed.
Lemma around_if st (b : bool) st1 st2 m : around st st1 m -> around st st2 m -> around st (if b then st1 else st2) m.
Proof. by destruct b. Qed.
Lemma around_jump st st' j m : around st st' m -> around st (add_jump st' j) m.
Proof.
  intros (? & ? & ? & Ho). split_and!; [by rewrite map_add_jump | by rewrite vm_add_jump | |].
  - etransitivity; [done | apply same_add_jump].
  - intros Hok. apply Ho. by apply (ok_add_jump st' j).
Qed.
Create HintDb around.
#[export] Hint Resolve around_refl around_bytes around_dirty around_if around_jump : around.
Ltac around := intros; repeat first
  [ apply around_bytes | apply around_dirty | apply around_jump | apply around_if | apply around_refl
  | match goal with |- around _ (match ?sz with _ => _ end) _ => destruct sz end
  | progress unfold emit1, emit4, emit8, emit_modrm_reg2reg, emit_modrm, emit_rex, emit_basic_rex, emit_modrm_and_displacement,
      emit_alu32, emit_alu64, emit_jump_target_offset, emit_jump_target_address, pushfq, popfq
  | progress cbv zeta ].
Section around.
Implicit Types st : jit_state.
Lemma ar_alu32 st op src dst : around st (emit_alu32 st op src dst) (dirty_loop (register_map st) dst true).
Proof. around. Qed.
Lemma ar_alu64 st op src dst : around st (emit_alu64 st op src dst) (dirty_loop (register_map st) dst true).
Proof. around. Qed.
Lemma ar_mov st src dst : around st (emit_mov st src dst) (dirty_loop (register_map st) dst true).
Proof. apply ar_alu64. Qed.
Lemma ar_alu32_imm32 st op src dst imm : around st (emit_alu32_imm32 st op src dst imm) (dirty_loop (register_map st) dst true).
Proof. apply around_bytes, ar_alu32. Qed.
Lemma ar_alu32_imm8 st op src dst imm : around st (emit_alu32_imm8 st op src dst imm) (dirty_loop (register_map st) dst true).
Proof. apply around_bytes, ar_alu32. Qed.
Lemma ar_alu64_imm32 st op src dst imm : around st (emit_alu64_imm32 st op src dst imm) (dirty_loop (register_map st) dst true).
Proof. apply around_bytes, ar_alu64. Qed.
Lemma ar_alu64_imm8 st op src dst imm : around st (emit_alu64_imm8 st op src dst imm) (dirty_loop (register_map st) dst true).
Proof. apply around_bytes, ar_alu64. Qed.
Lemma ar_cmp32 st src dst : around st (emit_cmp32 st src dst) (dirty_loop (register_map st) dst true).
Proof. apply ar_alu32. Qed.
Lemma ar_cmp_imm32 st dst imm : around st (emit_cmp_imm32 st dst imm) (dirty_loop (register_map st) dst true).
Proof. apply ar_alu32_imm32. Qed.
Lemma ar_load_imm st dst imm : around st (emit_load_imm st dst imm) (dirty_loop (register_map st) dst true).
Proof. unfold emit_load_imm. around. Qed.
Lemma dirty_twice m r b b' : dirty_loop (dirty_loop m r b) r b' = dirty_loop m r b'.
Proof.
  induction m as [|h m IH]; [done|]. cbn [dirty_loop]. destruct (reg_idx h =? r) eqn:E; cbn [dirty_loop reg_idx set_map_dirty]; rewrite E.
  - done.
  - by rewrite IH.
Qed.
Lemma ar_load_imm_sext st dst imm : around st (emit_load_imm_sext st dst imm) (dirty_loop (register_map st) dst true).
Proof.
  unfold emit_load_imm_sext. destruct (s32 imm =? imm).
  - rewrite <- (dirty_twice _ dst true). apply around_dirty, ar_alu64_imm32.
  - around.
Qed.
Lemma ar_load st sz src dst off :
  around st (emit_load st sz src dst off) (dirty_loop (register_map st) dst (maps_x0 st dst || negb (nz off))).
Proof.
  unfold emit_load. destruct (maps_x0 st dst); cbn [orb].
  - rewrite <- (dirty_twice _ dst true). apply around_dirty, ar_load_imm.
  - around.
Qed.
Lemma ar_load_sext st sz src dst off :
  around st (emit_load_sext st sz src dst off) (dirty_loop (register_map st) dst (maps_x0 st dst || negb (nz off))).
Proof.
  unfold emit_load_sext. destruct (maps_x0 st dst); cbn [orb].
  - rewrite <- (dirty_twice _ dst true). apply around_dirty, ar_load_imm.
  - destruct sz; around.
Qed.
Lemma ar_store st sz src dst off :
  around st (emit_store st sz src dst off) (if maps_x0 st src || nz off then dirty_loop (register_map st) src false else register_map st).
Proof.
  unfold emit_store. destruct (maps_x0 st src); cbn [orb].
  - unfold emit_store_x0. destruct sz; around.
  - destruct (nz off); destruct sz; around.
Qed.
(** With no displacement. *)
Lemma ar_load0 st sz src dst : around st (emit_load st sz src dst 0) (dirty_loop (register_map st) dst true).
Proof. pose proof (ar_load st sz src dst 0) as A. change (negb (nz 0)) with true in A. by rewrite orb_true_r in A. Qed.
Lemma ar_load_sext0 st sz src dst : around st (emit_load_sext st sz src dst 0) (dirty_loop (register_map st) dst true).
Proof. pose proof (ar_load_sext st sz src dst 0) as A. change (negb (nz 0)) with true in A. by rewrite orb_true_r in A. Qed.
Lemma ar_store0 st sz src dst :
  around st (emit_store st sz src dst 0) (if maps_x0 st src then dirty_loop (register_map st) src false else register_map st).
Proof. pose proof (ar_store st sz src dst 0) as A. change (nz 0) with false in A. by rewrite orb_false_r in A. Qed.
Lemma ar_push st r : around st (emit_push st r) (register_map st).
Proof. unfold emit_push. around. Qed.
Lemma ar_pop st r : around st (emit_pop st r) (register_map st).
Proof. unfold emit_pop. around. Qed.
Lemma ar_cmov st src dst : around st (emit_conditional_move st src dst) (register_map st).
Proof. unfold emit_conditional_move. around. Qed.
Lemma ar_jcc st cc : around st (emit_jcc_offset st cc) (register_map st).
Proof. unfold emit_jcc_offset. around. Qed.
Lemma ar_timer off st : around st (emit_jit_inc_timer off st) (register_map st).
Proof. unfold emit_jit_inc_timer. around. Qed.
Lemma ar_exit st : around st (emit_exit st) (register_map st).
Proof. unfold emit_exit. around. Qed.
Lemma ar_jmp st pc : around st (emit_jmp st pc) (register_map st).
Proof. unfold emit_jmp. around. Qed.
End around.
