(* ===== verification/JitAlloc.v ===== *)
(** * Registers of the hart in registers of the host

    The map of registers during the translation of a block, and the relation
    between a state of the machine that runs the emitted code and the registers
    and memory of the hart: a register that is mapped is in its host register,
    one that is not mapped, or whose host register was not changed, is in
    memory.  Saving, mapping and loading registers keep the relation: the code
    that they emit moves registers of the hart between memory and the host
    without changing their values. *)

From Stdlib Require Import ZArith Lia Bool.
From stdpp Require Import base list numbers gmap.
From S2P Require Import Prelude Decode Memory MemorySpec IsaSpec X64 Jit JitGen JitEmit.

(** * The relation *)

(** ** The map *)

Definition host (r : Z) : Prop := In r host_regs.
Lemma host_reg_range r : host r -> reg r /\ r <> RCX /\ r <> RDI /\ r <> RSP /\ r <> RBP.
Proof. intros H. repeat (destruct H as [<- | H]; [by unfold reg; vm_compute|]). done. Qed.

(** The entry of register [r] is changed. *)
Definition upd (m : list host_reg) (r : Z) (f : host_reg -> host_reg) : list host_reg :=
  (fun h => if h.(reg_idx) =? r then f h else h) <$> m.
Lemma elem_upd m r f h' : h' ∈ upd m r f <-> exists h, h ∈ m /\ h' = if h.(reg_idx) =? r then f h else h.
Proof. unfold upd. rewrite list_elem_of_fmap. naive_solver. Qed.

Record regs_ok (m : list host_reg) : Prop := mk_regs_ok {
  ro_regs : reg_idx <$> m = host_regs;
  ro_inj : forall h h', h ∈ m -> h' ∈ m -> h.(vm_reg_idx) = h'.(vm_reg_idx) -> h.(vm_reg_idx) <> no_reg -> h = h';
  ro_range : forall h, h ∈ m -> h.(vm_reg_idx) = no_reg \/ 0 <= h.(vm_reg_idx) < 32;
  ro_dirty : forall h, h ∈ m -> h.(dirty) = true -> h.(vm_reg_idx) <> no_reg
}.
Lemma host_regs_nodup : NoDup host_regs.
Proof. by apply (bool_decide_unpack _); vm_compute. Qed.
Lemma ro_host m h : regs_ok m -> h ∈ m -> host h.(reg_idx).
Proof. intros Hm Hh. unfold host. rewrite <- (ro_regs _ Hm). apply list_elem_of_In, list_elem_of_fmap. eauto. Qed.
Lemma entry_unique m h h' : regs_ok m -> h ∈ m -> h' ∈ m -> h.(reg_idx) = h'.(reg_idx) -> h = h'.
Proof.
  intros Hm [i Hi]%list_elem_of_lookup [j Hj]%list_elem_of_lookup E.
  assert (i = j) as ->; [|congruence]. apply (NoDup_lookup host_regs i j h.(reg_idx)); [apply host_regs_nodup| .. ];
    rewrite <- (ro_regs _ Hm), list_lookup_fmap; [by rewrite Hi | by rewrite Hj, E].
Qed.
Lemma entry_of m r : regs_ok m -> host r -> exists h, h ∈ m /\ h.(reg_idx) = r.
Proof.
  intros Hm Hr. unfold host in Hr. rewrite <- (ro_regs _ Hm) in Hr. apply list_elem_of_In, list_elem_of_fmap in Hr. naive_solver.
Qed.

(** The functions that change one entry. *)
Lemma upd_notin m r f : r ∉ (reg_idx <$> m) -> upd m r f = m.
Proof.
  intros Hn. unfold upd. rewrite <- (list_fmap_id m) at 2. apply list_fmap_ext. intros i h Hi. cbn [id].
  destruct (Z.eqb_spec (reg_idx h) r) as [<-|]; [|done]. destruct Hn. apply list_elem_of_fmap. exists h. split; [done|].
  by eapply list_elem_of_lookup_2.
Qed.
Lemma dirty_loop_upd m r b : NoDup (reg_idx <$> m) -> dirty_loop m r b = upd m r (fun h => set_map_dirty h b).
Proof.
  induction m as [|h m IH]; [done|]. rewrite fmap_cons, NoDup_cons. intros [Hn Hd].
  cbn [dirty_loop]. unfold upd. rewrite fmap_cons. destruct (Z.eqb_spec (reg_idx h) r) as [E|].
  - f_equal. symmetry. apply upd_notin. by rewrite <- E.
  - f_equal. by apply IH.
Qed.
Lemma set_dirty_upd st r b : regs_ok (register_map st) ->
  register_map (set_dirty st r b) = upd (register_map st) r (fun h => set_map_dirty h b).
Proof. intros Hm. apply dirty_loop_upd. rewrite (ro_regs _ Hm). apply host_regs_nodup. Qed.
Lemma alter_upd m i h f : NoDup (reg_idx <$> m) -> m !! i = Some h -> alter f i m = upd m h.(reg_idx) f.
Proof.
  revert i. induction m as [|h' m IH]; intros i; [done|]. rewrite fmap_cons, NoDup_cons. intros [Hn Hd] Hi.
  unfold upd. rewrite fmap_cons. destruct i as [|i]; cbn [lookup list_lookup] in Hi.
  - injection Hi as ->. rewrite Z.eqb_refl. change (alter f 0%nat (h :: m)) with (f h :: m). f_equal.
    symmetry. by apply upd_notin.
  - change (alter f (S i) (h' :: m)) with (h' :: alter f i m). destruct (Z.eqb_spec (reg_idx h') (reg_idx h)) as [E|].
    + destruct Hn. rewrite E. apply list_elem_of_fmap. exists h. split; [done|]. by eapply list_elem_of_lookup_2.
    + f_equal. by apply IH.
Qed.
Lemma upd_reg_upd st i h f : regs_ok (register_map st) -> register_map st !! i = Some h ->
  register_map (upd_reg st i f) = upd (register_map st) h.(reg_idx) f.
Proof. intros Hm Hi. apply alter_upd; [|done]. rewrite (ro_regs _ Hm). apply host_regs_nodup. Qed.
Lemma upd_upd m r f g : (forall h, reg_idx (f h) = reg_idx h) -> upd (upd m r f) r g = upd m r (fun h => g (f h)).
Proof.
  intros Hf. unfold upd. rewrite <- list_fmap_compose. apply list_fmap_ext. intros i h _. cbn.
  destruct (Z.eqb_spec (reg_idx h) r) as [E|E]; [rewrite Hf, E, Z.eqb_refl; done|].
  by destruct (Z.eqb_spec (reg_idx h) r).
Qed.
Lemma upd_ext m r f g : (forall h, h ∈ m -> reg_idx h = r -> f h = g h) -> upd m r f = upd m r g.
Proof.
  intros H. apply list_fmap_ext. intros i h Hi. destruct (Z.eqb_spec (reg_idx h) r); [|done].
  apply H; [by eapply list_elem_of_lookup_2 | done].
Qed.
Lemma upd_id m r : upd m r (fun h => h) = m.
Proof. unfold upd. rewrite <- (list_fmap_id m) at 2. apply list_fmap_ext. intros i h _. by case_match. Qed.

(** Register [v] of the hart is in register [r] of the host. *)
Definition maps (m : list host_reg) (v r : Z) : Prop := exists h, h ∈ m /\ h.(vm_reg_idx) = v /\ h.(reg_idx) = r.
Definition unmapped (m : list host_reg) (v : Z) : Prop := forall h, h ∈ m -> h.(vm_reg_idx) <> v.

(** Changing the dirty bit of a mapped register. *)
Lemma regs_ok_dirty m r b : regs_ok m -> (b = true -> forall h, h ∈ m -> h.(reg_idx) = r -> h.(vm_reg_idx) <> no_reg) ->
  regs_ok (upd m r (fun h => set_map_dirty h b)).
Proof.
  intros Hm Hb. split.
  - rewrite <- (ro_regs _ Hm). unfold upd. rewrite <- list_fmap_compose. apply list_fmap_ext. intros i h _. cbn. by case_match.
  - intros ? ? (h & Hh & ->)%elem_upd (h' & Hh' & ->)%elem_upd E Hn.
    assert (h = h') as -> by (apply (ro_inj _ Hm); [done..| |]; by destruct (_ =? _), (_ =? _)). done.
  - intros ? (h & Hh & ->)%elem_upd. destruct (ro_range _ Hm h Hh); destruct (_ =? _); cbn; tauto.
  - intros ? (h & Hh & ->)%elem_upd. destruct (Z.eqb_spec (reg_idx h) r); cbn [dirty set_map_dirty vm_reg_idx].
    + intros ->. by apply Hb.
    + by apply (ro_dirty _ Hm).
Qed.
Lemma maps_dirty m r b v r' : maps m v r' <-> maps (upd m r (fun h => set_map_dirty h b)) v r'.
Proof.
  split.
  - intros (h & Hh & <- & <-). exists (if reg_idx h =? r then set_map_dirty h b else h). split; [apply elem_upd; eauto|]. by case_match.
  - intros (? & (h & Hh & ->)%elem_upd & <- & <-). exists h. split; [done|]. by case_match.
Qed.
Lemma maps_host m v r : regs_ok m -> maps m v r -> host r.
Proof. intros Hm (h & Hh & _ & <-). by apply (ro_host m). Qed.
Lemma maps_fun m v r r' : regs_ok m -> v <> no_reg -> maps m v r -> maps m v r' -> r = r'.
Proof. intros Hm Hv (h & Hh & E & <-) (h' & Hh' & E' & <-). f_equal. apply (ro_inj _ Hm); congruence. Qed.
Lemma maps_inj m v v' r : regs_ok m -> maps m v r -> maps m v' r -> v = v'.
Proof. intros Hm (h & Hh & <- & E) (h' & Hh' & <- & E'). f_equal. apply (entry_unique m); congruence. Qed.

(** ** The relation *)

Definition apart (a n b m : Z) : Prop := a + n <= b \/ b + m <= a.

Lemma get_store_apart n h a v b : apart a (Z.of_nat n) b 1 -> heap_get (Memory.store n h a v) b = heap_get h b.
Proof. unfold apart. intros Ha. rewrite store_get. destruct (decide _); [lia | done]. Qed.
Lemma load_store_apart n m h a v b : apart a (Z.of_nat n) b (Z.of_nat m) -> load m (Memory.store n h a v) b = load m h b.
Proof. unfold apart. intros Ha. apply load_ext. intros i Hi. apply get_store_apart. unfold apart. lia. Qed.

Section rel.
(** [rvp] is the address of the [riscv_t], [sp] the stack pointer in the
    emitted code, [bp] its frame pointer; [h0] is the memory of the host
    before. *)
Context (off_X off_PC off_timer rvp sp bp : Z) (mem : memory_t) (h0 : heap).

Definition xslot (v : Z) : Z := rvp + off_X + 4 * v.

(** The fields of the hart, the guest's memory and the stack are apart. *)
Record host_ok : Prop := mk_host_ok {
  ho_X : 0 < off_X /\ off_X + 128 <= 2 ^ 31;
  ho_PC : 0 < off_PC < 2 ^ 31 - 4;
  ho_timer : 0 < off_timer < 2 ^ 31 - 8;
  ho_rv : 0 <= rvp /\ rvp + 2 ^ 31 <= 2 ^ 64;
  ho_sp : 64 <= sp < 2 ^ 64;
  ho_mem : 0 <= mem.(mem_base) < 2 ^ 63 - 2 ^ 33 /\ 0 <= mem.(mem_size) <= 2 ^ 32;
  ho_X_PC : apart off_X 128 off_PC 4;
  ho_X_timer : apart off_X 128 off_timer 8;
  ho_PC_timer : apart off_PC 4 off_timer 8;
  ho_X_mem : apart (rvp + off_X) 128 mem.(mem_base) mem.(mem_size);
  ho_PC_mem : apart (rvp + off_PC) 4 mem.(mem_base) mem.(mem_size);
  ho_timer_mem : apart (rvp + off_timer) 8 mem.(mem_base) mem.(mem_size);
  ho_X_sp : apart (rvp + off_X) 128 (sp - 64) 64;
  ho_PC_sp : apart (rvp + off_PC) 4 (sp - 64) 64;
  ho_timer_sp : apart (rvp + off_timer) 8 (sp - 64) 64;
  ho_mem_sp : apart mem.(mem_base) mem.(mem_size) (sp - 64) 64
}.

(** What emitted code does not write. *)
Definition kept (a : Z) : Prop :=
  apart a 1 (rvp + off_X) 128 /\ apart a 1 (rvp + off_PC) 4 /\ apart a 1 (rvp + off_timer) 8 /\
  apart a 1 mem.(mem_base) mem.(mem_size) /\ apart a 1 (sp - 64) 64.

(** The memory: [X] are the registers of the hart, [T] its timer and [G] the
    guest's memory. *)
Record mrel (m : list host_reg) (X : Z -> Z) (T : Z) (G : Z -> Z) (h : heap) : Prop := mk_mrel {
  mr_slot : forall v, 0 <= v < 32 -> (forall e, e ∈ m -> e.(vm_reg_idx) = v -> e.(dirty) = false) -> load 4 h (xslot v) = X v;
  mr_zero : load 4 h (xslot 0) = 0;
  mr_timer : load 8 h (rvp + off_timer) = T;
  mr_guest : forall a, 0 <= a < mem.(mem_size) -> heap_get h (mem.(mem_base) + a) = G a;
  mr_keep : forall a, kept a -> heap_get h a = heap_get h0 a
}.
(** The registers; those in [ex] need not be loaded yet. *)
Record rrel (ex : list Z) (m : list host_reg) (X : Z -> Z) (s : xstate) : Prop := mk_rrel {
  rr_len : length s.(xr) = 16%nat;
  rr_rdi : xget s RDI = rvp;
  rr_rsp : xget s RSP = sp;
  rr_rbp : xget s RBP = bp;
  rr_reg : forall e, e ∈ m -> e.(vm_reg_idx) <> no_reg -> e.(vm_reg_idx) ∉ ex -> xget s e.(reg_idx) = X e.(vm_reg_idx)
}.
Definition rel (ex : list Z) (m : list host_reg) (X : Z -> Z) (T : Z) (G : Z -> Z) (s : xstate) : Prop :=
  rrel ex m X s /\ mrel m X T G s.(xmem).

(** Registers of the hart are words, and [x0] is 0. *)
Definition words (X : Z -> Z) : Prop := X 0 = 0 /\ forall v, 0 <= v < 32 -> word (X v).

(** *** Changes of the machine *)

Lemma rrel_weaken ex ex' m X s : (forall v, v ∈ ex -> v ∈ ex') -> rrel ex m X s -> rrel ex' m X s.
Proof. intros Hi [? ? ? ? Hr]. split; try done. intros e He Hv Hx. apply Hr; eauto. Qed.
Lemma rel_weaken ex ex' m X T G s : (forall v, v ∈ ex -> v ∈ ex') -> rel ex m X T G s -> rel ex' m X T G s.
Proof. intros Hi [? ?]. split; [|done]. by eapply rrel_weaken. Qed.

(** A register that is not allocated. *)
Lemma rel_temp ex m X T G s v : regs_ok m -> rel ex m X T G s -> rel ex m X T G (xset s RCX v).
Proof.
  intros Hm [[Hl Hd Hs Hb Hr] Hmem]. split; [|done]. assert (reg RCX) by (unfold reg, RCX; lia).
  split; [by rewrite xset_length| | | |].
  1-3: rewrite xget_xset by (done || unfold reg, RDI, RSP, RBP; lia); done.
  intros e He Hv Hx. destruct (host_reg_range (reg_idx e)) as (? & ? & _); [by apply (ro_host m)|].
  rewrite xget_xset by done. destruct (Z.eqb_spec RCX (reg_idx e)); [congruence|]. auto.
Qed.
Lemma rel_flags ex m X T G s f : rel ex m X T G s -> rel ex m X T G (xset_flags s f).
Proof. intros [[? ? ? ? ?] ?]. split; [|done]. by split. Qed.

(** The host register of [v] is written; [b] says whether it is dirty then. *)
Lemma rel_write ex m X X' T G s v r w b : regs_ok m -> maps m v r -> 0 <= v < 32 ->
  (forall u, u <> v -> X' u = X u) -> X' v = w -> (b = false -> load 4 s.(xmem) (xslot v) = w) ->
  rel (v :: ex) m X T G s -> rel ex (upd m r (fun h => set_map_dirty h b)) X' T G (xset s r w).
Proof.
  intros Hm Hmap Hv HX HXv Hb [[Hl Hd Hs Hbp Hr] [Hslot Hz Ht Hg Hk]].
  pose proof (maps_host _ _ _ Hm Hmap) as Hh. destruct (host_reg_range r Hh) as (Hrr & Hne & Hdi & Hsp & Hrb). split.
  - split; [by rewrite xset_length| | | |].
    1-3: rewrite xget_xset by (done || unfold reg, RDI, RSP, RBP; lia); 
      match goal with |- context [?a =? ?b] => destruct (Z.eqb_spec a b); [congruence | done] end.
    intros ? (e & He & ->)%elem_upd Hvm Hx.
    assert (vm_reg_idx (if reg_idx e =? r then set_map_dirty e b else e) = vm_reg_idx e) as Evm by by case_match.
    assert (reg_idx (if reg_idx e =? r then set_map_dirty e b else e) = reg_idx e) as Er by by case_match.
    rewrite Evm in Hvm, Hx |- *. rewrite Er. destruct (host_reg_range (reg_idx e)) as [He16 _]; [by apply (ro_host m)|].
    rewrite xget_xset by done.
    destruct (Z.eqb_spec r (reg_idx e)) as [Ere|Hre].
    + replace (vm_reg_idx e) with v; [done|]. apply (maps_inj m v (vm_reg_idx e) r Hm Hmap). by exists e.
    + assert (vm_reg_idx e <> v) as Hev.
      { intros Ev. apply Hre. apply (maps_fun m v r (reg_idx e) Hm); [congruence | done | by exists e]. }
      rewrite HX by done. apply Hr; [done..|]. by intros [?|?]%elem_of_cons.
  - split; try done. intros u Hu Hcl. destruct (decide (u = v)) as [->|Hne'].
    + rewrite HXv. apply Hb. destruct Hmap as (e & He & <- & <-).
      specialize (Hcl (set_map_dirty e b)). apply Hcl; [|done]. apply elem_upd. exists e. by rewrite Z.eqb_refl.
    + rewrite HX by done. apply Hslot; [done|]. intros e He Evm.
      assert (reg_idx e <> r) as Hre.
      { intros <-. apply Hne'. rewrite <- Evm. apply (maps_inj m _ _ (reg_idx e) Hm); [by exists e | done]. }
      apply (Hcl e); [|done]. apply elem_upd. exists e. split; [done|]. by destruct (Z.eqb_spec (reg_idx e) r).
Qed.

(** A register is marked as changed. *)
Lemma rel_mark ex m X T G s r : rel ex m X T G s -> rel ex (upd m r (fun h => set_map_dirty h true)) X T G s.
Proof.
  intros [[Hl Hd Hs Hbp Hr] [Hslot Hz Ht Hg Hk]]. split; split; try done.
  - intros ? (e & He & ->)%elem_upd. case_match; exact (Hr e He).
  - intros v Hv Hcl. apply Hslot; [done|]. intros e He Evm. specialize (Hcl (if reg_idx e =? r then set_map_dirty e true else e)).
    destruct (reg_idx e =? r) eqn:E; cbn [dirty set_map_dirty vm_reg_idx] in Hcl.
    + assert (true = false); [apply Hcl; [|done] | done]. apply elem_upd. exists e. by rewrite E.
    + apply Hcl; [|done]. apply elem_upd. exists e. by rewrite E.
Qed.

(** *** Changes of the memory *)

Context (Hho : host_ok).

(** The memory changes where nothing is, or where the program counter is. *)
Lemma mrel_store_free m X T G h n a v :
  apart a (Z.of_nat n) (rvp + off_X) 128 -> apart a (Z.of_nat n) (rvp + off_timer) 8 ->
  apart a (Z.of_nat n) mem.(mem_base) mem.(mem_size) -> (forall b, kept b -> apart a (Z.of_nat n) b 1) ->
  mrel m X T G h -> mrel m X T G (Memory.store n h a v).
Proof using.
  unfold apart. intros HX Ht Hm Hk [Hslot Hz Htm Hg Hkp]. split.
  - intros u Hu Hcl. rewrite load_store_apart by (unfold apart, xslot; lia). by apply Hslot.
  - rewrite load_store_apart by (unfold apart, xslot; lia). exact Hz.
  - rewrite load_store_apart by (unfold apart; lia). exact Htm.
  - intros b Hb. rewrite get_store_apart by (unfold apart; lia). by apply Hg.
  - intros b Hb. rewrite get_store_apart by (by apply Hk). by apply Hkp.
Qed.
(** Only the facts that matter, for a procedure that is slow on disjunctions. *)
Local Ltac apart_lia := unfold xslot, apart in *; lia.
Lemma mrel_pc m X T G h v : mrel m X T G h -> mrel m X T G (Memory.store 4 h (rvp + off_PC) v).
Proof using Hho.
  apply mrel_store_free.
  - pose proof (ho_X_PC Hho). clear Hho. apart_lia.
  - pose proof (ho_PC_timer Hho). clear Hho. apart_lia.
  - apply (ho_PC_mem Hho).
  - intros b (_ & Hb & _). clear Hho. apart_lia.
Qed.
Lemma mrel_stack m X T G h a v : sp - 64 <= a -> a + 8 <= sp -> mrel m X T G h -> mrel m X T G (Memory.store 8 h a v).
Proof using Hho.
  intros Ha1 Ha2. apply mrel_store_free.
  - pose proof (ho_X_sp Hho). clear Hho. apart_lia.
  - pose proof (ho_timer_sp Hho). clear Hho. apart_lia.
  - pose proof (ho_mem_sp Hho). clear Hho. apart_lia.
  - intros b (_ & _ & _ & _ & Hb). clear Hho. apart_lia.
Qed.
Lemma mrel_timer m X T G h v : mrel m X T G h -> 0 <= v < 2 ^ 64 -> mrel m X v G (Memory.store 8 h (rvp + off_timer) v).
Proof using Hho.
  intros [Hslot Hz Htm Hg Hkp] Hv. pose proof (ho_X_timer Hho) as H1. pose proof (ho_timer_mem Hho) as H2. clear Hho. split.
  - intros u Hu Hcl. rewrite load_store_apart by (clear H2; apart_lia). by apply Hslot.
  - rewrite load_store_apart by (clear H2; apart_lia). exact Hz.
  - by apply load_store.
  - intros b Hb. rewrite get_store_apart by (clear H1; apart_lia). by apply Hg.
  - intros b Hb. rewrite get_store_apart; [by apply Hkp|]. destruct Hb as (_ & _ & Hb & _). clear H1 H2. apart_lia.
Qed.
Lemma mrel_guest m X T G h n a v : 0 <= a -> a + Z.of_nat n <= mem.(mem_size) -> mrel m X T G h ->
  mrel m X T (guest_upd (Z.of_nat n) a v G) (Memory.store n h (mem.(mem_base) + a) v).
Proof using Hho.
  intros Ha Hn [Hslot Hz Htm Hg Hkp]. pose proof (ho_X_mem Hho) as H1. pose proof (ho_timer_mem Hho) as H2. clear Hho. split.
  - intros u Hu Hcl. rewrite load_store_apart by (clear H2; apart_lia). by apply Hslot.
  - rewrite load_store_apart by (clear H2; apart_lia). exact Hz.
  - by rewrite load_store_apart by (clear H1; apart_lia).
  - intros b Hb. rewrite store_get. unfold guest_upd. destruct (decide _), (decide _); try lia; [|by apply Hg].
    by replace (mem_base mem + b - (mem_base mem + a)) with (b - a) by lia.
  - intros b Hb. rewrite get_store_apart; [by apply Hkp|]. destruct Hb as (_ & _ & _ & Hb & _). clear H1 H2. apart_lia.
Qed.
(** A register of the hart is written back. *)
Lemma mrel_save m X T G h v r : regs_ok m -> maps m v r -> 0 <= v < 32 -> word (X v) -> X 0 = 0 -> mrel m X T G h ->
  mrel (upd m r (fun h => set_map_dirty h false)) X T G (Memory.store 4 h (xslot v) (X v)).
Proof using Hho.
  intros Hm Hmap Hv Hw H0 [Hslot Hz Htm Hg Hkp]. unfold word in Hw.
  pose proof (ho_X_mem Hho) as H1. pose proof (ho_X_timer Hho) as H2. clear Hho. split.
  - intros u Hu Hcl. destruct (decide (u = v)) as [->|Hne]; [by apply load_store|].
    rewrite load_store_apart by (clear H1 H2; apart_lia). apply Hslot; [done|]. intros e He Ee.
    specialize (Hcl (if reg_idx e =? r then set_map_dirty e false else e)). destruct (Z.eqb_spec (reg_idx e) r) as [<-|Hr].
    + exfalso. apply Hne. rewrite <- Ee. apply (maps_inj m _ _ (reg_idx e) Hm); [by exists e | done].
    + apply Hcl; [|done]. apply elem_upd. exists e. split; [done|]. by destruct (Z.eqb_spec (reg_idx e) r).
  - destruct (decide (v = 0)) as [->|Hne]; [etransitivity; [by apply load_store | done]|].
    rewrite load_store_apart by (clear H1 H2; apart_lia). exact Hz.
  - by rewrite load_store_apart by (clear H1; apart_lia).
  - intros b Hb. rewrite get_store_apart by (clear H2; apart_lia). by apply Hg.
  - intros b Hb. rewrite get_store_apart; [by apply Hkp|]. destruct Hb as (Hb & _). clear H1 H2. apart_lia.
Qed.
Lemma rrel_upd ex m X s r f : (forall h, reg_idx (f h) = reg_idx h /\ vm_reg_idx (f h) = vm_reg_idx h) ->
  rrel ex m X s -> rrel ex (upd m r f) X s.
Proof using.
  intros Hf [Hl Hd Hs Hb Hr]. split; try done. intros ? (e & He & ->)%elem_upd. destruct (Hf e) as [E1 E2].
  case_match; [rewrite E1, E2|]; exact (Hr e He).
Qed.
Lemma rrel_mem ex m X s h : rrel ex m X s -> rrel ex m X (xset_mem s h).
Proof using. intros [? ? ? ? ?]. by split. Qed.
Lemma ea_rdi ex m X s off : rrel ex m X s -> 0 <= off < 2 ^ 31 -> ea s RDI off = rvp + off.
Proof using Hho.
  intros Hr Ho. unfold ea. rewrite (rr_rdi _ _ _ _ Hr). pose proof (ho_rv Hho). clear Hho. apply Z.mod_small. lia.
Qed.
End rel.

(** * Register allocation *)

Lemma maps_x0_maps st r : maps_x0 st r = true <-> maps (register_map st) 0 r.
Proof.
  unfold maps_x0, maps. rewrite existsb_exists. split.
  - intros (h & Hh & E). apply andb_prop in E as [? ?]. exists h. rewrite list_elem_of_In. split_and!; [done | lia..].
  - intros (h & Hh & E1 & E2). exists h. rewrite <- list_elem_of_In. split; [done|]. lia.
Qed.
Lemma maps_x0_false st v r : regs_ok (register_map st) -> maps (register_map st) v r -> v <> 0 -> maps_x0 st r = false.
Proof.
  intros Hm Hv Hn. destruct (maps_x0 st r) eqn:E; [|done]. apply maps_x0_maps in E. destruct Hn. by eapply maps_inj.
Qed.
Lemma maps_x0_temp st r : regs_ok (register_map st) -> ~ host r -> maps_x0 st r = false.
Proof. intros Hm Hn. destruct (maps_x0 st r) eqn:E; [|done]. apply maps_x0_maps in E. destruct Hn. by eapply maps_host. Qed.
(** A register that is not allocated has no dirty bit. *)
Lemma dirty_temp m r b : regs_ok m -> ~ host r -> dirty_loop m r b = m.
Proof.
  intros Hm Hn. rewrite dirty_loop_upd by (rewrite (ro_regs _ Hm); apply host_regs_nodup). apply upd_notin.
  rewrite (ro_regs _ Hm), list_elem_of_In. done.
Qed.
Lemma dirty_upd m r b : regs_ok m -> dirty_loop m r b = upd m r (fun h => set_map_dirty h b).
Proof. intros Hm. apply dirty_loop_upd. rewrite (ro_regs _ Hm). apply host_regs_nodup. Qed.
Lemma alter_alter {A} (f g : A -> A) i (l : list A) : alter f i (alter g i l) = alter (fun x => f (g x)) i l.
Proof. revert i. induction l as [|x l IH]; intros [|i]; [done..|]. cbn. f_equal. apply IH. Qed.
Lemma rcx_not_host : ~ host RCX.
Proof. intros H. by destruct (host_reg_range RCX H) as (_ & ? & _). Qed.
Lemma reg_rdi : reg RDI.
Proof. unfold reg, RDI. lia. Qed.
Lemma reg_rcx : reg RCX.
Proof. unfold reg, RCX. lia. Qed.
#[export] Hint Resolve reg_rdi reg_rcx rcx_not_host : core.

Section alloc.
Context (cb : Z) (call : Z -> xstate -> option xstate) (tl : jump -> Z).
Context (off_X off_PC off_timer rvp sp bp : Z) (mem : memory_t) (h0 : heap).
Context (Hho : host_ok off_X off_PC off_timer rvp sp mem).
Notation sim := (sim cb call tl).
Notation rel := (rel off_X off_PC off_timer rvp sp bp mem h0).
Notation xslot := (xslot off_X rvp).
Implicit Types (st : jit_state) (F : list Z -> option flags -> Prop).

Lemma off_slot v : 0 <= v < 32 -> 0 < off_X + 4 * v < 2 ^ 31 /\ nz (off_X + 4 * v) = true.
Proof using Hho.
  intros Hv. pose proof (ho_X _ _ _ _ _ _ Hho). split; [lia|]. unfold nz. destruct (Z.eqb_spec (off_X + 4 * v) 0); [lia | done].
Qed.
Lemma ea_slot ex m X s v : rrel rvp sp bp ex m X s -> 0 <= v < 32 -> ea s RDI (off_X + 4 * v) = xslot v.
Proof using Hho.
  intros Hr Hv. destruct (off_slot v Hv) as [Ho _]. rewrite (ea_rdi off_X off_PC off_timer rvp sp bp mem Hho _ _ _ _ _ Hr) by lia.
  unfold JitAlloc.xslot. lia.
Qed.

(** *** Saving a register *)

Lemma save_reg_ok st i h ex X T G F :
  register_map st !! i = Some h -> regs_ok (register_map st) -> words X -> (h.(dirty) = true -> h.(vm_reg_idx) ∉ ex) ->
  let m' := upd (register_map st) h.(reg_idx) (fun h => set_map_dirty h false) in
  around st (save_reg off_X st i) m' /\
  sim st (save_reg off_X st i) (fun s => rel ex (register_map st) X T G s /\ F s.(xr) s.(xf))
    (fun s => rel ex m' X T G s /\ F s.(xr) s.(xf)).
Proof using Hho.
  intros Hi Hm HX Hex m'. unfold save_reg. rewrite Hi. pose proof (list_elem_of_lookup_2 _ _ _ Hi) as Hh.
  destruct (dirty h) eqn:Ed; cbn [negb].
  - assert (vm_reg_idx h <> no_reg) as Hv by by apply (ro_dirty _ Hm).
    destruct (ro_range _ Hm h Hh) as [?|Hv32]; [done|]. destruct (off_slot _ Hv32) as [Ho Hz].
    pose proof (ar_store st S32 (reg_idx h) param0 (off_X + 4 * vm_reg_idx h)) as Har.
    rewrite Hz, orb_true_r, dirty_upd in Har by done. fold m' in Har. destruct Har as (A1 & A2 & A3 & A4).
    assert (maps (register_map st) (vm_reg_idx h) (reg_idx h)) as Hmap by by exists h.
    assert (register_map (upd_reg (emit_store st S32 (reg_idx h) param0 (off_X + 4 * vm_reg_idx h)) i
      (fun h => set_map_dirty h false)) = m') as Em.
    { unfold upd_reg. cbn [register_map set_map]. rewrite A1. unfold m'.
      rewrite (alter_upd _ i (set_map_dirty h false)).
      - cbn [reg_idx set_map_dirty]. rewrite upd_upd by done. by apply upd_ext.
      - fold m'. rewrite (ro_regs m'); [apply host_regs_nodup|]. by apply regs_ok_dirty.
      - unfold upd. rewrite list_lookup_fmap, Hi. cbn. by rewrite Z.eqb_refl. }
    split; [by split_and!|].
    assert (reg (reg_idx h)) as Hr by (by apply host_reg_range, (ro_host (register_map st))).
    destruct HX as [HX0 HXw].
    assert (forall s, rel ex (register_map st) X T G s /\ F s.(xr) s.(xf) ->
      rel ex m' X T G (xset_mem s (Memory.store 4 s.(xmem) (ea s RDI (off_X + 4 * vm_reg_idx h)) (X (vm_reg_idx h)))) /\ F s.(xr) s.(xf)) as Hstep.
    { intros s [[Hrr Hmr] HF]. split; [|done]. rewrite (ea_slot _ _ _ _ _ Hrr Hv32). split.
      - apply rrel_mem. unfold m'. by apply rrel_upd.
      - apply (mrel_save off_X off_PC off_timer rvp sp mem h0); try done. by apply HXw. }
    destruct (maps_x0 st (reg_idx h)) eqn:E0.
    + apply maps_x0_maps in E0 as E0'. assert (vm_reg_idx h = 0) as Ev by by eapply maps_inj.
      apply (sim_insn _ _ _ _ _ (XStoreImm 4 RDI (off_X + 4 * vm_reg_idx h) 0)); [|done|].
      * apply (insn_store_x0 st S32 (reg_idx h) RDI); [done | done | lia | done].
      * intros s Hs. eexists. split; [done|]. specialize (Hstep s Hs). rewrite Ev, HX0 in Hstep. rewrite Ev. exact Hstep.
    + apply (sim_insn _ _ _ _ _ (XStore 4 (reg_idx h) RDI (off_X + 4 * vm_reg_idx h))); [|done|].
      * apply (insn_store st S32 (reg_idx h) RDI); [done | done | done | lia | done].
      * intros s Hs. eexists. split; [done|]. specialize (Hstep s Hs). destruct Hs as [[Hrr _] _].
        rewrite <- (rr_reg _ _ _ _ _ _ _ Hrr h) in Hstep by auto. exact Hstep.
  - assert (m' = register_map st) as ->.
    { unfold m'. rewrite <- (upd_id (register_map st) (reg_idx h)) at 2. apply upd_ext. intros h' Hh' E.
      assert (h' = h) as -> by by eapply entry_unique. destruct h. cbn in *. by subst. }
    split; [apply around_refl | apply sim_refl].
Qed.

(** *** Giving a register to another register of the hart *)

Definition assign (m : list host_reg) (r v : Z) : list host_reg := upd m r (fun e => mk_host_reg e.(reg_idx) v false true).

Lemma regs_ok_assign m r v : regs_ok m -> unmapped m v -> 0 <= v < 32 -> regs_ok (assign m r v).
Proof using.
  intros Hm Hu Hv. split.
  - rewrite <- (ro_regs _ Hm). unfold assign, upd. rewrite <- list_fmap_compose. apply list_fmap_ext. intros i h _. cbn. by case_match.
  - intros ? ? (h & Hh & ->)%elem_upd (h' & Hh' & ->)%elem_upd.
    destruct (Z.eqb_spec (reg_idx h) r) as [Er|], (Z.eqb_spec (reg_idx h') r) as [Er'|]; cbn [vm_reg_idx]; intros E Hn.
    + by rewrite Er, Er'.
    + symmetry in E. by apply Hu in E.
    + by apply Hu in E.
    + by apply (ro_inj _ Hm).
  - intros ? (h & Hh & ->)%elem_upd. destruct (_ =? _); [by right | by apply (ro_range _ Hm)].
  - intros ? (h & Hh & ->)%elem_upd. destruct (_ =? _); [done | by apply (ro_dirty _ Hm)].
Qed.
Lemma maps_assign m r v h : h ∈ m -> h.(reg_idx) = r -> maps (assign m r v) v r.
Proof using. intros Hh E. eexists. split; [apply elem_upd; exists h; split; [done|]; by rewrite E, Z.eqb_refl|]. done. Qed.
Lemma maps_assign_ne m r v u r' : r' <> r -> maps m u r' -> maps (assign m r v) u r'.
Proof using.
  intros Hn (h & Hh & <- & <-). exists h. split; [|done]. apply elem_upd. exists h. split; [done|]. by destruct (Z.eqb_spec (reg_idx h) r).
Qed.

Lemma rel_assign ex m X T G s h v : regs_ok m -> h ∈ m -> h.(dirty) = false -> unmapped m v -> 0 <= v < 32 ->
  rel ex m X T G s -> rel (v :: ex) (assign m h.(reg_idx) v) X T G s.
Proof using.
  intros Hm Hh Hd Hu Hv [[Hl Hdi Hs Hb Hr] [Hslot Hz Ht Hg Hk]]. split; split; try done.
  - intros ? (e & He & ->)%elem_upd. destruct (reg_idx e =? reg_idx h); cbn [vm_reg_idx reg_idx]; intros Hn Hx.
    + destruct Hx. apply list_elem_of_here.
    + apply Hr; [done..|]. intros Hin. by apply Hx, list_elem_of_further.
  - intros u Hu32 Hcl. apply Hslot; [done|]. intros e He Ee.
    destruct (Z.eqb_spec (reg_idx e) (reg_idx h)) as [E|E].
    + by rewrite (entry_unique m e h).
    + apply Hcl; [|done]. apply elem_upd. exists e. split; [done|]. by destruct (Z.eqb_spec (reg_idx e) (reg_idx h)).
Qed.

Lemma take_reg_ok st i h v ex X T G F :
  register_map st !! i = Some h -> regs_ok (register_map st) -> words X -> unmapped (register_map st) v -> 0 <= v < 32 ->
  (h.(dirty) = true -> h.(vm_reg_idx) ∉ ex) ->
  let st' := (take_reg off_X st i v).1 in let m' := assign (register_map st) h.(reg_idx) v in
  (take_reg off_X st i v).2 = h.(reg_idx) /\ around st st' m' /\
  sim st st' (fun s => rel ex (register_map st) X T G s /\ F s.(xr) s.(xf)) (fun s => rel (v :: ex) m' X T G s /\ F s.(xr) s.(xf)).
Proof using Hho.
  intros Hi Hm HX Hu Hv Hex. unfold take_reg. rewrite Hi. cbn [fst snd].
  set (m' := assign (register_map st) (reg_idx h) v). set (st' := set_vm_reg (unmap_vm_reg (save_reg off_X st i) i) i v).
  split; [done|].
  destruct (save_reg_ok st i h ex X T G F Hi Hm HX Hex) as [(A1 & A2 & A3 & A4) Hsim].
  set (m1 := upd (register_map st) (reg_idx h) (fun h => set_map_dirty h false)) in *.
  assert (regs_ok m1) as Hm1 by by apply regs_ok_dirty.
  assert (Nat.ltb i (length host_regs) = true) as Hlt.
  { rewrite <- (ro_regs _ Hm), length_fmap. apply Nat.ltb_lt. by eapply lookup_lt_Some. }
  assert (m1 !! i = Some (set_map_dirty h false)) as Hi1 by (unfold m1, upd; rewrite list_lookup_fmap, Hi; cbn; by rewrite Z.eqb_refl).
  assert (m' = assign m1 (reg_idx h) v) as Em'.
  { unfold m', assign, m1. rewrite upd_upd by done. by apply upd_ext. }
  assert (register_map st' = m') as Em.
  { unfold st', set_vm_reg, unmap_vm_reg, assert, upd_reg. rewrite Hlt. cbn [register_map set_map]. rewrite A1, alter_alter.
    rewrite (alter_upd _ i (set_map_dirty h false)); [|by rewrite (ro_regs _ Hm1); apply host_regs_nodup | done].
    rewrite Em'. unfold assign. cbn [reg_idx set_map_dirty]. apply upd_ext. intros e He Er. cbn. f_equal.
    apply elem_upd in He as (e' & He' & ->). cbn. destruct (Z.eqb_spec (reg_idx e') (reg_idx h)) as [E|E]; [done|].
    by cbn in Er. }
  split; [split_and!; [done| | |]|].
  - unfold st', set_vm_reg, unmap_vm_reg, assert, upd_reg. rewrite Hlt. done.
  - unfold st', set_vm_reg, unmap_vm_reg, assert, upd_reg. rewrite Hlt. done.
  - unfold st', set_vm_reg, unmap_vm_reg, assert, upd_reg. rewrite Hlt. done.
  - unfold st', set_vm_reg, unmap_vm_reg, assert, upd_reg. rewrite Hlt.
    do 2 apply sim_map.
    eapply sim_weaken; [exact Hsim | done |]. intros s [Hr HF]. split; [|done]. rewrite Em'.
    apply (rel_assign ex m1 X T G s (set_map_dirty h false)); try done; [by eapply list_elem_of_lookup_2|].
    intros ? (e & He & ->)%elem_upd E. apply (Hu e He). by case_match.
Qed.

(** *** Mapping a register *)

Lemma mapped_Some st v r : mapped st v = Some r -> maps (register_map st) v r.
Proof using.
  unfold mapped. intros H. apply fmap_Some in H as (h & H & ->). apply fmap_Some in H as ([i h'] & H & ->). cbn [snd].
  apply list_find_Some in H as (Hi & Hv & _). exists h'. split; [by eapply list_elem_of_lookup_2|]. done.
Qed.
Lemma mapped_None st v : mapped st v = None -> unmapped (register_map st) v.
Proof using.
  unfold mapped. intros H. apply fmap_None, fmap_None, list_find_None in H. rewrite Forall_forall in H. exact H.
Qed.
Lemma reg_pick_Some st res i : reg_pick st res = Some i -> exists h, register_map st !! i = Some h /\ h.(reg_idx) <> res.
Proof using.
  unfold reg_pick. destruct (list_find _ _) as [[j h]|] eqn:E.
  - intros [= <-]. apply list_find_Some in E as (Hi & [? _] & _). eauto.
  - intros Hh. apply head_Some_elem_of in Hh. apply list_elem_of_omap in Hh as (c & _ & Hc).
    apply fmap_Some in Hc as ([j h] & Hf & ->). apply list_find_Some in Hf as (Hi & [? _] & _). cbn. eauto.
Qed.

(** [v] is mapped to [r], which may have been another's. *)
Record mapping (st st' : jit_state) (v r : Z) (ex : list Z) : Prop := mk_mapping {
  mp_ok : regs_ok (register_map st');
  mp_maps : maps (register_map st') v r;
  mp_vm : vm_reg st' = vm_reg st;
  mp_same : same st st';
  mp_mono : ok st' -> ok st;
  mp_case : maps (register_map st) v r /\ st' = st \/
            unmapped (register_map st) v /\ register_map st' = assign (register_map st) r v;
  mp_sim : forall X T G F, words X ->
    sim st st' (fun s => rel ex (register_map st) X T G s /\ F s.(xr) s.(xf))
      (fun s => rel (v :: ex) (register_map st') X T G s /\ F s.(xr) s.(xf))
}.
Lemma mapping_mapped st v r ex : regs_ok (register_map st) -> maps (register_map st) v r -> mapping st st v r ex.
Proof using.
  intros Hm Hmap. split; try done; [by left|]. intros X T G F HX. eapply sim_weaken; [apply sim_refl | exact (fun _ H => H) |].
  intros s [? ?]. split; [|done]. eapply rel_weaken; [|done]. intros ? ?. by apply list_elem_of_further.
Qed.
Lemma mapping_take st i h v ex : regs_ok (register_map st) -> register_map st !! i = Some h -> unmapped (register_map st) v ->
  0 <= v < 32 -> (h.(dirty) = true -> h.(vm_reg_idx) ∉ ex) ->
  mapping st (take_reg off_X st i v).1 v (take_reg off_X st i v).2 ex.
Proof using Hho.
  intros Hm Hi Hu Hv Hex.
  assert (words (fun _ => 0)) as H0 by (by split; [done|]; intros; split).
  destruct (take_reg_ok st i h v ex (fun _ => 0) 0 (fun _ => 0) (fun _ _ => True) Hi Hm H0 Hu Hv Hex) as (Er & (Em & Evm & Hs & Hk) & _).
  rewrite Er. pose proof (list_elem_of_lookup_2 _ _ _ Hi) as Hh. split.
  - rewrite Em. by apply regs_ok_assign.
  - rewrite Em. by apply (maps_assign _ _ _ h).
  - done.
  - done.
  - done.
  - by right.
  - intros X T G F HX. rewrite Em. by apply take_reg_ok.
Qed.
Lemma ok_fail st : ~ ok (fail st).
Proof using. by intros (_ & ? & _). Qed.

Lemma map_vm_reg_ok st v ex : regs_ok (register_map st) -> 0 <= v < 32 -> ok (map_vm_reg off_X st v).1 ->
  (forall h, h ∈ register_map st -> h.(dirty) = true -> h.(vm_reg_idx) ∉ ex) ->
  mapping st (map_vm_reg off_X st v).1 v (map_vm_reg off_X st v).2 ex.
Proof using Hho.
  intros Hm Hv Hok Hex. unfold map_vm_reg in *. destruct (mapped st v) as [r|] eqn:E.
  { apply mapping_mapped; [done|]. by apply mapped_Some. }
  destruct (reg_pick st no_reg) as [i|] eqn:Ep; [|by apply ok_fail in Hok].
  apply reg_pick_Some in Ep as (h & Hi & _). apply (mapping_take st i h); try done; [by apply mapped_None|].
  apply Hex. by eapply list_elem_of_lookup_2.
Qed.
Lemma map_vm_reg_reserved_ok st v res ex : regs_ok (register_map st) -> 0 <= v < 32 ->
  ok (map_vm_reg_reserved off_X st v res).1 ->
  (forall h, h ∈ register_map st -> h.(dirty) = true -> h.(vm_reg_idx) ∉ ex) ->
  let '(st', r) := map_vm_reg_reserved off_X st v res in
  mapping st st' v r ex /\ (unmapped (register_map st) v -> r <> res).
Proof using Hho.
  intros Hm Hv Hok Hex. unfold map_vm_reg_reserved in *. destruct (mapped st v) as [r|] eqn:E.
  { pose proof (mapped_Some _ _ _ E) as Hmap. split; [by apply mapping_mapped|]. intros Hu. destruct Hmap as (h & Hh & Ev & _).
    by apply Hu in Ev. }
  destruct (reg_pick st res) as [i|] eqn:Ep; [|by apply ok_fail in Hok].
  apply reg_pick_Some in Ep as (h & Hi & Hr). rewrite Hi in *. destruct (Z.eqb_spec (reg_idx h) res); [done|].
  apply mapped_None in E. pose proof (list_elem_of_lookup_2 _ _ _ Hi) as Hh.
  pose proof (mapping_take st i h v ex Hm Hi E Hv (Hex h Hh)) as Hmp. destruct (take_reg off_X st i v) as [st' r] eqn:Et.
  cbn [fst snd] in Hmp. split; [done|]. intros _. unfold take_reg in Et. rewrite Hi in Et. by injection Et as _ <-.
Qed.

(** *** Loading a register *)

Definition clean (m : list host_reg) (v : Z) : Prop := forall e, e ∈ m -> e.(vm_reg_idx) = v -> e.(dirty) = false.

Lemma load_slot_ok st v r ex : regs_ok (register_map st) -> maps (register_map st) v r -> 0 <= v < 32 ->
  clean (register_map st) v \/ v = 0 ->
  let st' := emit_load st S32 param0 r (off_X + 4 * v) in
  let m' := upd (register_map st) r (fun h => set_map_dirty h (v =? 0)) in
  around st st' m' /\ regs_ok m' /\
  forall X T G (F : Z -> option flags -> Prop), words X ->
  sim st st' (fun s => rel (v :: ex) (register_map st) X T G s /\ F (xget s RCX) s.(xf))
    (fun s => rel ex m' X T G s /\ F (xget s RCX) s.(xf)).
Proof using Hho.
  intros Hm Hmap Hv Hcl st' m'. destruct (off_slot v Hv) as [Ho Hz].
  assert (maps_x0 st r = (v =? 0)) as E0.
  { destruct (Z.eqb_spec v 0) as [->|Hn]; [by apply maps_x0_maps | by eapply maps_x0_false]. }
  pose proof (ar_load st S32 param0 r (off_X + 4 * v)) as Har. rewrite E0, Hz, orb_false_r, dirty_upd in Har by done.
  assert (forall h, h ∈ register_map st -> reg_idx h = r -> vm_reg_idx h <> no_reg) as Hn.
  { intros h Hh <-. assert (v = vm_reg_idx h) as <- by (eapply maps_inj; [done | done | by exists h]). unfold no_reg. lia. }
  split; [done|]. split; [by apply regs_ok_dirty|]. intros X T G F [HX0 HXw].
  pose proof (maps_host _ _ _ Hm Hmap) as Hh. destruct (host_reg_range r Hh) as (Hr & Hcx & _).
  assert (forall s, rel (v :: ex) (register_map st) X T G s /\ F (xget s RCX) s.(xf) ->
    rel ex m' X T G (xset s r (X v)) /\ F (xget (xset s r (X v)) RCX) s.(xf)) as Hstep.
  { intros s [Hrel HF]. split.
    - apply (rel_write off_X off_PC off_timer rvp sp bp mem h0 ex (register_map st) X X T G s v r); try done.
      intros Hv0. destruct Hrel as [_ Hmr]. apply (mr_slot _ _ _ _ _ _ _ _ _ _ _ _ Hmr); [done|].
      destruct Hcl as [?| ->]; done.
    - destruct Hrel as [Hrr _]. rewrite xget_xset by (done || apply (rr_len _ _ _ _ _ _ _ Hrr)).
      by destruct (Z.eqb_spec r RCX). }
  destruct (v =? 0) eqn:Ev.
  - apply (sim_insn _ _ _ _ _ (XMovImm r 0)); [by apply insn_load_x0 | done |]. intros s Hs. eexists. split; [done|].
    specialize (Hstep s Hs). apply Z.eqb_eq in Ev as ->. by rewrite HX0 in Hstep.
  - apply (sim_insn _ _ _ _ _ (XLoad 4 r RDI (off_X + 4 * v))).
    + apply (insn_load st S32); try done. lia.
    + done.
    + intros s Hs. eexists. split; [done|]. specialize (Hstep s Hs). destruct Hs as [[Hrr Hmr] _].
      rewrite (ea_slot _ _ _ _ _ Hrr Hv). destruct Hcl as [Hcl| ->]; [|done].
      rewrite (mr_slot _ _ _ _ _ _ _ _ _ _ _ _ Hmr v Hv Hcl). exact Hstep.
Qed.

Lemma origin_maps st v r : regs_ok (register_map st) -> v <> no_reg -> maps (register_map st) v r -> origin st v = r.
Proof using.
  intros Hm Hv Hmap. unfold origin.
  assert (forall l o, (forall h, h ∈ l -> h ∈ register_map st) -> (o = r \/ maps l v r) ->
    fold_left (fun o h => if vm_reg_idx h =? v then reg_idx h else o) l o = r) as H; [|by apply H; [|right]].
  induction l as [|h l IH]; intros o Hin Ho; cbn [fold_left].
  - destruct Ho as [->|(h & Hh & _)]; [done | by apply not_elem_of_nil in Hh].
  - apply IH; [intros; apply Hin; by apply list_elem_of_further|]. destruct (Z.eqb_spec (vm_reg_idx h) v) as [E|E].
    + left. eapply maps_fun; [done | done | | done]. exists h. split; [apply Hin, list_elem_of_here | done].
    + destruct Ho as [->|(h' & Hh' & E1 & E2)]; [by left|]. apply elem_of_cons in Hh' as [->|Hh']; [done|]. right. by exists h'.
Qed.
Lemma origin_unmapped st v : unmapped (register_map st) v -> origin st v = no_reg.
Proof using.
  unfold origin, unmapped. generalize (register_map st). intros l. generalize no_reg. induction l as [|h l IH]; intros o Hu; [done|].
  cbn [fold_left]. destruct (Z.eqb_spec (vm_reg_idx h) v) as [E|E].
  - apply Hu in E; [done | apply list_elem_of_here].
  - apply IH. intros h' Hh'. by apply Hu, list_elem_of_further.
Qed.

(** Code that keeps the relation, the temporary register and the flags. *)
Definition keeps (st st' : jit_state) (ex ex' : list Z) : Prop := forall X T G (F : Z -> option flags -> Prop), words X ->
  sim st st' (fun s => rel ex (register_map st) X T G s /\ F (xget s RCX) s.(xf))
    (fun s => rel ex' (register_map st') X T G s /\ F (xget s RCX) s.(xf)).
Lemma keeps_refl st ex : keeps st st ex ex.
Proof using. intros X T G F HX. apply sim_refl. Qed.
Lemma keeps_trans st st1 st2 ex ex1 ex2 : keeps st st1 ex ex1 -> keeps st1 st2 ex1 ex2 -> keeps st st2 ex ex2.
Proof using. intros H1 H2 X T G F HX. eapply sim_trans; [by apply H1 | by apply H2]. Qed.
Lemma keeps_vm st st1 ex ex1 i r : keeps st st1 ex ex1 -> keeps st (set_vm st1 i r) ex ex1.
Proof using. intros H X T G F HX. apply sim_vm. by apply H. Qed.
Lemma keeps_mapping st st' v r ex : mapping st st' v r ex -> keeps st st' ex (v :: ex).
Proof using. intros Hm X T G F HX. apply (mp_sim _ _ _ _ _ Hm X T G (fun x f => F (x !!! 1%nat) f) HX). Qed.
Lemma keeps_ok st st' ex ex' : keeps st st' ex ex' -> ok st' -> ok st.
Proof using.
  intros H Hok. assert (words (fun _ => 0)) as H0 by (by split; [done|]; intros; split).
  by destruct (H (fun _ => 0) 0 (fun _ => 0) (fun _ _ => True) H0 Hok) as [? _].
Qed.
Lemma keeps_load st v r ex : regs_ok (register_map st) -> maps (register_map st) v r -> 0 <= v < 32 -> clean (register_map st) v \/ v = 0 ->
  keeps st (emit_load st S32 param0 r (off_X + 4 * v)) (v :: ex) ex.
Proof using Hho.
  intros Hm Hmap Hv Hcl X T G F HX. destruct (load_slot_ok st v r ex Hm Hmap Hv Hcl) as ((-> & _) & _ & H). by apply H.
Qed.
Lemma assign_clean m r v : regs_ok m -> unmapped m v -> clean (assign m r v) v.
Proof using.
  intros Hm Hu ? (e & He & ->)%elem_upd. destruct (_ =? _); [done|]. intros E. by apply Hu in E.
Qed.

(** The registers [vs] are in the registers [rs]. *)
Record loaded (st st' : jit_state) (l : list (Z * Z)) : Prop := mk_loaded {
  ld_ok : regs_ok (register_map st');
  ld_maps : forall v r, (v, r) ∈ l -> maps (register_map st') v r;
  ld_vm : vm_reg st' = vm_reg st;
  ld_same : same st st';
  ld_keeps : keeps st st' [] []
}.

Lemma not_ex_nil (m : list host_reg) : forall h, h ∈ m -> h.(dirty) = true -> h.(vm_reg_idx) ∉ ([] : list Z).
Proof using. intros. apply not_elem_of_nil. Qed.
Lemma mapped_reg st v r : regs_ok (register_map st) -> maps (register_map st) v r -> r <> no_reg.
Proof using. intros Hm Hmap. destruct (host_reg_range r) as (Hr & _); [by eapply maps_host|]. unfold reg, no_reg in *. lia. Qed.


(** The load after a mapping, when the register was not mapped before. *)
Lemma load_if_ok st st1 v r ex (b : bool) : mapping st st1 v r ex -> 0 <= v < 32 ->
  (b = true -> clean (register_map st1) v \/ v = 0) -> (b = false -> keeps st st1 ex ex) ->
  let st2 := if b then emit_load st1 S32 param0 r (off_X + 4 * v) else st1 in
  regs_ok (register_map st2) /\ (forall u q, maps (register_map st2) u q <-> maps (register_map st1) u q) /\
  vm_reg st2 = vm_reg st /\ same st st2 /\ (ok st2 -> ok st1) /\ keeps st st2 ex ex.
Proof using Hho.
  intros Hmp Hv Hcl Hb. destruct Hmp as [Hm Hmap Hvm Hs Hmono Hc Hsim]. destruct b; cbv zeta.
  - destruct (load_slot_ok st1 v r ex Hm Hmap Hv (Hcl eq_refl)) as ((E1 & E2 & E3 & E4) & Hm' & _).
    split_and!; [by rewrite E1 | intros u q; rewrite E1; symmetry; apply maps_dirty | congruence | by etransitivity | done |].
    eapply keeps_trans; [by eapply keeps_mapping|]. apply keeps_load; auto.
  - split_and!; try done. by apply Hb.
Qed.
Lemma mapping_origin st st1 v r ex : regs_ok (register_map st) -> 0 <= v < 32 -> mapping st st1 v r ex ->
  origin st v = r /\ maps (register_map st) v r /\ st1 = st \/ origin st v <> r /\ unmapped (register_map st) v /\ clean (register_map st1) v.
Proof using.
  intros Hm Hv Hmp. destruct (mp_case _ _ _ _ _ Hmp) as [[Hmap ->]|[Hu E]].
  - left. split; [apply origin_maps; unfold no_reg; (done || lia) | done].
  - right. rewrite origin_unmapped by done. split_and!; [|done|rewrite E; by apply assign_clean].
    intros <-. by apply (mapped_reg st1 v no_reg (mp_ok _ _ _ _ _ Hmp) (mp_maps _ _ _ _ _ Hmp)).
Qed.
Lemma ra_load_ok st v : regs_ok (register_map st) -> 0 <= v < 32 -> ok (ra_load off_X st v).1 ->
  loaded st (ra_load off_X st v).1 [(v, (ra_load off_X st v).2)].
Proof using Hho.
  intros Hm Hv Hok. unfold ra_load in *. pose proof (map_vm_reg_ok st v [] Hm Hv) as Hmp.
  destruct (map_vm_reg off_X st v) as [st1 r]. cbn [fst snd] in *.
  assert (ok st1) as Hok1.
  { destruct (negb _); [|done]. by apply (ar_load st1 S32 param0 r (off_X + 4 * v)). }
  specialize (Hmp Hok1 (not_ex_nil _)).
  destruct (load_if_ok st st1 v r [] (negb (origin st v =? r)) Hmp Hv) as (? & Hmaps & ? & ? & _ & ?).
  - intros Hb. destruct (mapping_origin st st1 v r [] Hm Hv Hmp) as [(E & _)|(_ & _ & ?)]; [|by left]. rewrite E, Z.eqb_refl in Hb. done.
  - intros Hb. destruct (mapping_origin st st1 v r [] Hm Hv Hmp) as [(E & _ & ->)|(E & _)]; [apply keeps_refl|].
    destruct (Z.eqb_spec (origin st v) r); done.
  - split; try done. intros u q Hin. apply list_elem_of_singleton in Hin as [= -> ->]. apply Hmaps, (mp_maps _ _ _ _ _ Hmp).
Qed.

Lemma keeps_weaken st st' ex ex' ex0 ex1 : keeps st st' ex ex' -> (forall v, v ∈ ex0 -> v ∈ ex) -> (forall v, v ∈ ex' -> v ∈ ex1) ->
  keeps st st' ex0 ex1.
Proof using.
  intros H H0 H1 X T G F HX. eapply sim_weaken; [by apply H | |].
  - intros s [? ?]. split; [|done]. by eapply rel_weaken.
  - intros s [? ?]. split; [|done]. by eapply rel_weaken.
Qed.
Lemma clean_assign m r v u : clean m u -> clean (assign m r v) u.
Proof using. intros Hc ? (e & He & ->)%elem_upd. case_match; [done | by apply Hc]. Qed.
Lemma clean_dirty m r b v r' : regs_ok m -> maps m v r' -> v <> no_reg -> r' <> r -> clean m v ->
  clean (upd m r (fun h => set_map_dirty h b)) v.
Proof using.
  intros Hm Hmap Hn Hr Hc ? (e & He & ->)%elem_upd. destruct (Z.eqb_spec (reg_idx e) r) as [E|E]; cbn [vm_reg_idx set_map_dirty]; [|by apply Hc].
  intros Ev. destruct Hr. rewrite <- E. apply (maps_fun m v r' (reg_idx e)); [done..|]. by exists e.
Qed.

(** The second mapping: what it means that the register was already there. *)
Lemma second_origin st st1 q st2 v1 v2 r1 r2 ex : regs_ok (register_map st) -> 0 <= v2 < 32 -> v1 <> v2 ->
  mapping st st1 v1 r1 [] -> mapping (set_vm st1 0 q) st2 v2 r2 ex -> (unmapped (register_map st1) v2 -> r2 <> r1) ->
  r1 <> r2 /\ maps (register_map st2) v1 r1 /\
  (origin st v2 = r2 /\ st2 = set_vm st1 0 q \/ origin st v2 <> r2 /\ clean (register_map st2) v2).
Proof using.
  intros Hm Hv2 Hne M1 M2 Hres. assert (v2 <> no_reg) as Hn by (unfold no_reg; lia).
  pose proof (mp_ok _ _ _ _ _ M1) as Hm1. pose proof (mp_maps _ _ _ _ _ M1) as Hmap1. pose proof (mp_maps _ _ _ _ _ M2) as Hmap2.
  destruct (mp_case _ _ _ _ _ M2) as [[Hin ->]|[Hu E2]]; cbn [register_map set_vm] in *.
  - split; [|split; [done|left; split; [|done]]].
    + intros <-. by apply Hne, (maps_inj _ _ _ _ Hm1 Hmap1).
    + apply origin_maps; [done..|]. destruct (mp_case _ _ _ _ _ M1) as [[_ ->]|[_ E1]]; [done|].
      rewrite E1 in Hin. destruct Hin as (? & (e & He & ->)%elem_upd & Ev & Er). exists e.
      destruct (reg_idx e =? r1); cbn in Ev; [congruence | done].
  - specialize (Hres Hu). split; [done|]. split; [rewrite E2; by apply maps_assign_ne|]. right. split.
    + intros Eo. destruct (mp_case _ _ _ _ _ M1) as [[_ ->]|[Hu1 E1]].
      * rewrite origin_unmapped in Eo by done. by apply (mapped_reg st2 v2 r2 (mp_ok _ _ _ _ _ M2)).
      * destruct (mapped st v2) as [p|] eqn:Em.
        2: { rewrite origin_unmapped in Eo by by apply mapped_None. by apply (mapped_reg st2 v2 r2 (mp_ok _ _ _ _ _ M2)). }
        apply mapped_Some in Em as Hq.
        rewrite (origin_maps st v2 p) in Eo by done. subst p. destruct (decide (r2 = r1)) as [->|Hr]; [done|].
        apply (maps_assign_ne _ r1 v1) in Hq as (e & He & Ev & _); [|done]. rewrite <- E1 in He. by apply Hu in Ev.
    + rewrite E2. by apply assign_clean.
Qed.

(** The state that [ra_map2] leaves, with the two registers. *)
Lemma vm_set st i r : (i < length st.(vm_reg))%nat -> vm (set_vm st i r) i = r.
Proof using. intros Hi. unfold vm. cbn [vm_reg set_vm]. by apply list_lookup_total_insert_eq. Qed.
Lemma vm_set_ne st i j r : i <> j -> vm (set_vm st i r) j = vm st j.
Proof using. intros Hi. unfold vm. cbn [vm_reg set_vm]. by apply list_lookup_total_insert_ne. Qed.

Lemma load_reg_step st v r ex (b : bool) : regs_ok (register_map st) -> maps (register_map st) v r -> 0 <= v < 32 ->
  (b = true -> clean (register_map st) v \/ v = 0) ->
  let st2 := if b then emit_load st S32 param0 r (off_X + 4 * v) else st in
  regs_ok (register_map st2) /\ (forall u q, maps (register_map st2) u q <-> maps (register_map st) u q) /\
  (forall u q, maps (register_map st) u q -> 0 <= u < 32 -> q <> r -> clean (register_map st) u -> clean (register_map st2) u) /\
  vm_reg st2 = vm_reg st /\ same st st2 /\ (ok st2 -> ok st) /\ (b = true -> clean (register_map st2) v \/ v = 0) /\
  keeps st st2 (if b then v :: ex else ex) ex.
Proof using Hho.
  intros Hm Hmap Hv Hcl. destruct b; cbv zeta; [|split_and!; try done; apply keeps_refl].
  specialize (Hcl eq_refl). destruct (load_slot_ok st v r ex Hm Hmap Hv Hcl) as ((E1 & E2 & E3 & E4) & Hm' & _).
  split_and!; try done; try by rewrite E1.
  - intros u q. rewrite E1. symmetry. apply maps_dirty.
  - intros u q Hu Hur Hq Hc. rewrite E1. eapply clean_dirty; try done. unfold no_reg. lia.
  - intros _. rewrite E1. destruct (Z.eqb_spec v 0); [by right|]. left. intros ? (e & He & ->)%elem_upd.
    destruct (Z.eqb_spec (reg_idx e) r); [done|]. destruct Hcl as [Hcl|]; [by apply Hcl | done].
  - by apply keeps_load.
Qed.

Record loaded2 (st st' : jit_state) (v1 v2 : Z) : Prop := mk_loaded2 {
  l2_ok : regs_ok (register_map st');
  l2_maps1 : maps (register_map st') v1 (vm st' 0);
  l2_maps2 : maps (register_map st') v2 (vm st' 1);
  l2_vm : length (vm_reg st') = length (vm_reg st);
  l2_same : same st st';
  l2_mono : ok st' -> ok st;
  l2_keeps : keeps st st' [] []
}.
Lemma ok_load_if st (b : bool) src r off : ok (if b then emit_load st S32 src r off else st) -> ok st.
Proof using. destruct b; [apply (ar_load st S32 src r off) | done]. Qed.

Lemma ra_load2_same st v : regs_ok (register_map st) -> length (vm_reg st) = 3%nat -> 0 <= v < 32 ->
  ok (ra_load2 off_X st v v) -> loaded2 st (ra_load2 off_X st v v) v v.
Proof using Hho.
  intros Hm Hl Hv Hok. unfold ra_load2, ra_map2 in *. rewrite Z.eqb_refl in *. cbv zeta in *.
  pose proof (map_vm_reg_ok st v [] Hm Hv) as Hmp. destruct (map_vm_reg off_X st v) as [st1 r]. cbn [fst snd] in *.
  set (st2 := set_vm (set_vm st1 1 r) 0 r) in *.
  assert (ok st1) as Hok1 by exact (ok_load_if st2 _ _ _ _ (ok_load_if _ _ _ _ _ Hok)).
  specialize (Hmp Hok1 (not_ex_nil _)). pose proof (mp_vm _ _ _ _ _ Hmp) as Evm.
  assert (vm st2 0 = r) as E0 by (apply vm_set; cbn [vm_reg set_vm]; rewrite length_insert, Evm, Hl; lia).
  assert (vm st2 1 = r) as E1 by (unfold st2; rewrite vm_set_ne by done; apply vm_set; rewrite Evm, Hl; lia).
  rewrite E0 in *. set (b := negb (origin st v =? r)) in *.
  assert ((b = true -> clean (register_map st2) v \/ v = 0) /\ keeps st st2 [] (if b then [v] else [])) as [Hcl Hk].
  { unfold b. destruct (mapping_origin st st1 v r [] Hm Hv Hmp) as [(E & _ & Es)|(E & _ & Hc)].
    - rewrite E, Z.eqb_refl. split; [done|]. do 2 apply keeps_vm. rewrite Es. apply keeps_refl.
    - destruct (Z.eqb_spec (origin st v) r); [done|]. split; [by left|]. do 2 apply keeps_vm. by eapply keeps_mapping. }
  destruct (load_reg_step st2 v r [] b (mp_ok _ _ _ _ _ Hmp) (mp_maps _ _ _ _ _ Hmp) Hv Hcl)
    as (Hm3 & Hmaps3 & _ & Evm3 & Hs3 & Ho3 & Hcl3 & Hk3).
  set (st3 := if b then _ else st2) in *.
  assert (vm st3 1 = r) as E13 by (unfold vm in *; by rewrite Evm3).
  rewrite E13 in *. fold b in Hok |- *.
  destruct (load_reg_step st3 v r [] b Hm3 ltac:(by apply Hmaps3, (mp_maps _ _ _ _ _ Hmp)) Hv Hcl3)
    as (Hm4 & Hmaps4 & _ & Evm4 & Hs4 & Ho4 & _ & Hk4).
  set (st4 := if b then _ else st3) in *. split.
  - done.
  - unfold vm in *. rewrite Evm4, Evm3, E0. by apply Hmaps4, Hmaps3, (mp_maps _ _ _ _ _ Hmp).
  - unfold vm in *. rewrite Evm4, Evm3, E1. by apply Hmaps4, Hmaps3, (mp_maps _ _ _ _ _ Hmp).
  - rewrite Evm4, Evm3. cbn [vm_reg set_vm st2]. by rewrite !length_insert, Evm.
  - etransitivity; [|exact Hs4]. etransitivity; [|exact Hs3]. exact (mp_same _ _ _ _ _ Hmp).
  - intros H4. apply (mp_mono _ _ _ _ _ Hmp). exact (Ho3 (Ho4 H4)).
  - eapply keeps_trans; [exact Hk|]. eapply keeps_trans.
    + eapply keeps_weaken; [exact Hk3 | by destruct b | done].
    + eapply keeps_weaken; [exact Hk4 | intros ? []%not_elem_of_nil | done].
Qed.

(** The registers that a mapping leaves to be loaded. *)
Definition pending (b : bool) (v : Z) : list Z := if b then [v] else [].
Lemma first_pending st st1 v r : regs_ok (register_map st) -> 0 <= v < 32 -> mapping st st1 v r [] ->
  let b := negb (origin st v =? r) in
  (b = true -> clean (register_map st1) v) /\ keeps st st1 [] (pending b v) /\
  (forall h, h ∈ register_map st1 -> h.(dirty) = true -> h.(vm_reg_idx) ∉ pending b v).
Proof using.
  intros Hm Hv Hmp b. unfold b. destruct (mapping_origin st st1 v r [] Hm Hv Hmp) as [(E & _ & ->)|(E & _ & Hc)].
  - rewrite E, Z.eqb_refl. split; [done|]. split; [apply keeps_refl | by intros; apply not_elem_of_nil].
  - destruct (Z.eqb_spec (origin st v) r); [done|]. split; [done|]. split; [by eapply keeps_mapping|].
    intros h Hh Hd Hin. apply list_elem_of_singleton in Hin. rewrite (Hc h Hh Hin) in Hd. done.
Qed.

Lemma ok_assert st b : ok (assert st b) -> ok st.
Proof using. unfold assert. destruct b; [done|]. intros H. by apply ok_fail in H. Qed.
Lemma ok_save_reg st i : ok (save_reg off_X st i) -> ok st.
Proof using.
  unfold save_reg. destruct (register_map st !! i) as [h|]; [|by intros ?%ok_fail]. destruct (negb _); [done|].
  intros Hok. by apply (ar_store st S32 (reg_idx h) param0 (off_X + 4 * vm_reg_idx h)).
Qed.
Lemma ok_take_reg st i v : ok (take_reg off_X st i v).1 -> ok st.
Proof using. intros Hok. apply (ok_save_reg st i), (ok_assert _ (Nat.ltb i (length host_regs))). by apply ok_assert in Hok. Qed.
Lemma ok_map_vm_reg st v : ok (map_vm_reg off_X st v).1 -> ok st.
Proof using.
  unfold map_vm_reg. destruct (mapped st v); [done|]. destruct (reg_pick _ _); [apply ok_take_reg | by intros ?%ok_fail].
Qed.
Lemma ok_map_vm_reg_reserved st v res : ok (map_vm_reg_reserved off_X st v res).1 -> ok st.
Proof using.
  unfold map_vm_reg_reserved. destruct (mapped st v); [done|]. destruct (reg_pick _ _) as [i|]; [|by intros ?%ok_fail].
  destruct (register_map st !! i) as [h|]; [|by intros ?%ok_fail]. destruct (_ =? _); [by intros ?%ok_fail | apply ok_take_reg].
Qed.

Lemma ra_load2_diff st v1 v2 : regs_ok (register_map st) -> length (vm_reg st) = 3%nat -> 0 <= v1 < 32 -> 0 <= v2 < 32 -> v1 <> v2 ->
  ok (ra_load2 off_X st v1 v2) -> loaded2 st (ra_load2 off_X st v1 v2) v1 v2.
Proof using Hho.
  intros Hm Hl Hv1 Hv2 Hne Hok. unfold ra_load2, ra_map2 in *. destruct (Z.eqb_spec v1 v2) as [|_]; [done|]. cbv zeta in *.
  pose proof (map_vm_reg_ok st v1 [] Hm Hv1) as M1. destruct (map_vm_reg off_X st v1) as [st1 r1]. cbn [fst snd] in *.
  set (st1' := set_vm st1 0 r1) in *.
  pose proof (map_vm_reg_reserved_ok st1' v2 (vm st1' 0)) as M2. pose proof (ok_map_vm_reg_reserved st1' v2 (vm st1' 0)) as Hmono.
  destruct (map_vm_reg_reserved off_X st1' v2 (vm st1' 0)) as [st2 r2]. cbn [fst snd] in *.
  set (st2' := assert (set_vm st2 1 r2) _) in *.
  assert (ok st2') as Hok2' by exact (ok_load_if st2' _ _ _ _ (ok_load_if _ _ _ _ _ Hok)).
  assert (st2' = set_vm st2 1 r2) as Es2 by (unfold st2', assert in *; destruct (negb _); [done | by apply ok_fail in Hok2']).
  assert (ok st2) as Hok2 by (by rewrite Es2 in Hok2'). pose proof (Hmono Hok2) as Hok1.
  specialize (M1 Hok1 (not_ex_nil _)). destruct (first_pending st st1 v1 r1 Hm Hv1 M1) as (Hc1 & Hk1 & Hex1).
  set (b1 := negb (origin st v1 =? r1)) in *. pose proof (mp_vm _ _ _ _ _ M1) as Evm1.
  destruct (M2 (pending b1 v1) (mp_ok _ _ _ _ _ M1) Hv2 Hok2 Hex1) as [Mp2 Hres]. clear M2.
  assert (vm st1' 0 = r1) as E10 by (apply vm_set; rewrite Evm1, Hl; lia). rewrite E10 in Hres.
  destruct (second_origin st st1 r1 st2 v1 v2 r1 r2 _ Hm Hv2 Hne M1 Mp2 Hres) as (Hr12 & Hmap1 & Ho2).
  set (b2 := negb (origin st v2 =? r2)).
  assert ((b2 = true -> clean (register_map st2) v2) /\ keeps st1' st2 (pending b1 v1) (pending b2 v2 ++ pending b1 v1)) as [Hc2 Hk2].
  { unfold b2. destruct Ho2 as [(E & ->)|(E & ?)].
    - rewrite E, Z.eqb_refl. split; [done|]. apply keeps_refl.
    - destruct (Z.eqb_spec (origin st v2) r2); [done|]. split; [done|]. by eapply keeps_mapping. }
  assert (b1 = true -> clean (register_map st2) v1) as Hc1'.
  { intros Hb. specialize (Hc1 Hb). destruct (mp_case _ _ _ _ _ Mp2) as [[_ ->]|[_ ->]]; [done | by apply clean_assign]. }
  pose proof (mp_ok _ _ _ _ _ Mp2) as Hm2. pose proof (mp_maps _ _ _ _ _ Mp2) as Hmap2. pose proof (mp_vm _ _ _ _ _ Mp2) as Evm2.
  rewrite Es2 in *. clear Es2 st2' Hok2'. set (st2' := set_vm st2 1 r2) in *.
  assert (vm st2' 0 = r1) as E20 by (unfold st2'; rewrite vm_set_ne by done; unfold vm in *; by rewrite Evm2).
  assert (vm st2' 1 = r2) as E21 by (apply vm_set; rewrite Evm2; cbn [vm_reg st1' set_vm]; rewrite length_insert, Evm1, Hl; lia).
  rewrite E20 in *. fold b1 in Hok |- *.
  destruct (load_reg_step st2' v1 r1 (pending b2 v2) b1 Hm2 Hmap1 Hv1 ltac:(auto))
    as (Hm3 & Hmaps3 & Hclean3 & Evm3 & Hs3 & Ho3 & _ & Hk3).
  set (st3 := if b1 then _ else st2') in *.
  assert (vm st3 1 = r2) as E31 by (unfold vm in *; by rewrite Evm3). rewrite E31 in *. fold b2 in Hok |- *.
  destruct (load_reg_step st3 v2 r2 [] b2 Hm3 ltac:(by apply Hmaps3) Hv2) as (Hm4 & Hmaps4 & _ & Evm4 & Hs4 & Ho4 & _ & Hk4).
  { intros Hb. left. eapply Hclean3; [done | done | congruence | auto]. }
  set (st4 := if b2 then _ else st3) in *. split.
  - done.
  - unfold vm in *. rewrite Evm4, Evm3, E20. by apply Hmaps4, Hmaps3.
  - unfold vm in *. rewrite Evm4, Evm3, E21. by apply Hmaps4, Hmaps3.
  - rewrite Evm4, Evm3. cbn [vm_reg set_vm st2']. rewrite length_insert, Evm2. cbn [vm_reg set_vm st1']. by rewrite length_insert, Evm1.
  - etransitivity; [|exact Hs4]. etransitivity; [|exact Hs3]. etransitivity; [exact (mp_same _ _ _ _ _ M1) | exact (mp_same _ _ _ _ _ Mp2)].
  - intros H4. apply (mp_mono _ _ _ _ _ M1), (mp_mono _ _ _ _ _ Mp2). exact (Ho3 (Ho4 H4)).
  - eapply keeps_trans; [apply (keeps_vm st st1 [] (pending b1 v1) 0 r1), Hk1|].
    eapply keeps_trans; [apply (keeps_vm st1' st2 _ (pending b2 v2 ++ pending b1 v1) 1 r2), Hk2|].
    eapply keeps_trans.
    + eapply keeps_weaken; [exact Hk3 | | intros ? H; exact H].
      intros u Hu. apply elem_of_app in Hu. destruct b1; cbn [pending] in Hu; [apply elem_of_cons; rewrite list_elem_of_singleton in Hu; tauto|].
      destruct Hu as [?|[]%not_elem_of_nil]. done.
    + eapply keeps_weaken; [exact Hk4 | by destruct b2 | done].
Qed.
Lemma ra_load2_ok st v1 v2 : regs_ok (register_map st) -> length (vm_reg st) = 3%nat -> 0 <= v1 < 32 -> 0 <= v2 < 32 ->
  ok (ra_load2 off_X st v1 v2) -> loaded2 st (ra_load2 off_X st v1 v2) v1 v2.
Proof using Hho.
  intros Hm Hl Hv1 Hv2 Hok. destruct (decide (v1 = v2)) as [->|Hne]; [by apply ra_load2_same | by apply ra_load2_diff].
Qed.
End alloc.
