(* ===== verification/JitSpec.v ===== *)
(** * The templates of the JIT are correct

    For every template that stays in its block, the code that it emits
    computes a function on the registers and memory of the hart, whatever the
    state of the register allocator.  Multiplication and division work in RAX,
    RDX and RCX, which they save on the stack; their code is run on a view of
    the machine: its registers as a function, and what was pushed. *)

From Stdlib Require Import ZArith Lia Bool.
From stdpp Require Import base list numbers gmap.
From S2P Require Import Prelude Decode Memory MemorySpec AluSpec ExecMem DecodeSpec IsaSpec X64 Jit JitGen JitEmit JitAlloc.

(** * Operations in one register *)

(** ** Comparisons, from the flags *)

Definition cmp_val (c : cond) (x y : Z) : bool :=
  match c with
  | CcB => x <? y | CcAE => y <=? x | CcE => x =? y | CcNE => negb (x =? y) | CcL => s32 x <? s32 y | CcGE => s32 y <=? s32 x
  end.
Definition cmp_flags (x y : Z) : flags := result_flags false (x <? y) (x - y) (s32 x - s32 y).
Lemma sub_sign x y : exists k, s32 (x - y) = s32 x - s32 y + k * 2 ^ 32.
Proof.
  destruct (s32_mod x) as [i Ei], (s32_mod y) as [j Ej], (s32_mod (x - y)) as [k Ek].
  exists (k - i + j). rewrite Ei, Ej, Ek. lia.
Qed.
Lemma cmp_flags_ok c x y : word x -> word y -> holds c (cmp_flags x y) = cmp_val c x y.
Proof.
  intros Hx Hy. unfold cmp_flags, result_flags. change (trunc false ?z) with (u32 z). change (signed false ?z) with (s32 z).
  assert ((u32 (x - y) =? 0) = (x =? y)) as Ez.
  { unfold word in *. destruct (Z.eqb_spec x y) as [->|Hn]; [by rewrite Z.sub_diag|]. apply Z.eqb_neq. unfold u32. norm_pow. div_lia. }
  assert (negb (Bool.eqb (s32 (x - y) <? 0) (negb (s32 (x - y) =? s32 x - s32 y))) = (s32 x <? s32 y)) as El.
  { destruct (sub_sign x y) as [k E]. pose proof (s32_range (x - y)). pose proof (s32_range x). pose proof (s32_range y).
    destruct (Z.ltb_spec (s32 (x - y)) 0), (Z.eqb_spec (s32 (x - y)) (s32 x - s32 y)), (Z.ltb_spec (s32 x) (s32 y)); cbn; try done; exfalso; lia. }
  destruct c; cbn [holds CF ZF SF OF cmp_val]; try done.
  - destruct (Z.ltb_spec x y), (Z.leb_spec y x); try done; lia.
  - by rewrite Ez.
  - rewrite <- (negb_involutive (Bool.eqb _ _)), El. destruct (Z.ltb_spec (s32 x) (s32 y)), (Z.leb_spec (s32 y) (s32 x)); try done; lia.
Qed.

Section spec.
Context (cb : Z) (call : Z -> xstate -> option xstate) (tl : jump -> Z).
Hypothesis tl_off : forall j, j.(target_offset) <> 0 -> tl j = j.(target_offset).
Context (off_X off_PC off_timer rvp sp bp : Z) (mem : memory_t) (h0 : heap).
Context (Hho : host_ok off_X off_PC off_timer rvp sp mem).
Notation sim := (sim cb call tl).
Notation rel := (rel off_X off_PC off_timer rvp sp bp mem h0).
Notation keeps := (keeps cb call tl off_X off_PC off_timer rvp sp bp mem h0).
Notation mapping := (mapping cb call tl off_X off_PC off_timer rvp sp bp mem h0).
Notation loaded := (loaded cb call tl off_X off_PC off_timer rvp sp bp mem h0).
Notation loaded2 := (loaded2 cb call tl off_X off_PC off_timer rvp sp bp mem h0).
Implicit Types (st : jit_state) (ir : rv_insn).

(** What the compiler keeps between instructions. *)
Definition jit_ok st : Prop := regs_ok (register_map st) /\ length (vm_reg st) = 3%nat.

(** The code between two states computes [f] on the registers and memory of
    the hart. *)
Record computes st st' (f : (Z -> Z) -> (Z -> Z) -> option ((Z -> Z) * (Z -> Z))) : Prop := mk_computes {
  cp_ok : jit_ok st';
  cp_same : same st st';
  cp_mono : ok st' -> ok st;
  cp_sim : forall X G X' G' T, words X -> f X G = Some (X', G') ->
    sim st st' (rel [] (register_map st) X T G) (rel [] (register_map st') X' T G')
}.

Lemma computes_ext st st' f f' : computes st st' f -> (forall X G, f' X G = f X G) -> computes st st' f'.
Proof using. intros [? ? ? Hs] E. split; try done. intros X G X' G' T HX Hf. apply Hs; [done|]. by rewrite <- E. Qed.

(** ** Steps of the machine *)

(** The host register of [v] is overwritten, which does not matter when it is
    not loaded. *)
Lemma rel_clobber ex m X T G s v r w : regs_ok m -> maps m v r -> 0 <= v < 32 -> rel (v :: ex) m X T G s ->
  rel (v :: ex) (upd m r (fun h => set_map_dirty h true)) X T G (xset s r w).
Proof using.
  intros Hm Hmap Hv Hrel.
  pose proof (rel_write off_X off_PC off_timer rvp sp bp mem h0 ex m X (fun u => if u =? v then w else X u) T G s v r w true Hm Hmap Hv) as H.
  destruct H as [[Hl Hd Hs Hb Hr] [Hslot Hz Ht Hg Hk]]; [intros u Hu; destruct (Z.eqb_spec u v); done | by rewrite Z.eqb_refl | done | done |].
  split; split; try done.
  - intros e He Hn Hx. rewrite Hr; [|done..|]; [|intros Hin; by apply Hx, list_elem_of_further].
    destruct (Z.eqb_spec (vm_reg_idx e) v) as [E|]; [|done]. destruct Hx. rewrite E. apply list_elem_of_here.
  - intros u Hu Hc. rewrite Hslot by done. destruct (Z.eqb_spec u v) as [->|]; [|done].
    destruct Hmap as (e & He & Ev & Er). assert (true = false); [|done].
    apply (Hc (set_map_dirty e true)); [|done]. apply elem_upd. exists e. by rewrite Er, Z.eqb_refl.
Qed.

(** The instruction [i] puts [w] into the register of [v], which had not been
    loaded. *)
Lemma sim_write st st' i v r w X T G (P : xstate -> Prop) :
  insn st st' i -> straight i = true -> around st st' (dirty_loop (register_map st) r true) ->
  regs_ok (register_map st) -> maps (register_map st) v r -> 0 < v < 32 ->
  (forall s, P s -> rel [v] (register_map st) X T G s /\ exists f, exec cb call i s = Some (xset_flags (xset s r w) f)) ->
  sim st st' P (rel [] (register_map st') (reg_set X v w) T G).
Proof using.
  intros Hi Hst (Em & _) Hm Hmap Hv HP. eapply sim_insn; [done..|]. intros s Hs. destruct (HP s Hs) as [Hr [f Hf]].
  eexists. split; [done|]. apply rel_flags. rewrite Em, dirty_upd by done.
  apply (rel_write off_X off_PC off_timer rvp sp bp mem h0 [] (register_map st) X (reg_set X v w) T G s v r w true); try done; [lia| |].
  - intros u Hu. unfold reg_set. destruct (Z.eqb_spec u v); done.
  - unfold reg_set. rewrite Z.eqb_refl. destruct (Z.eqb_spec v 0); [lia | done].
Qed.
(** It overwrites the register of [v] on the way. *)
Lemma sim_clobber st st' i v r w X T G (P Q : xstate -> Prop) :
  insn st st' i -> straight i = true -> around st st' (dirty_loop (register_map st) r true) ->
  regs_ok (register_map st) -> maps (register_map st) v r -> 0 <= v < 32 ->
  (forall s, P s -> rel [v] (register_map st) X T G s /\ exists f, exec cb call i s = Some (xset_flags (xset s r (w s)) f) /\
    Q (xset_flags (xset s r (w s)) f)) ->
  sim st st' P (fun s => rel [v] (register_map st') X T G s /\ Q s).
Proof using.
  intros Hi Hst (Em & _) Hm Hmap Hv HP. eapply sim_insn; [done..|]. intros s Hs. destruct (HP s Hs) as [Hr (f & Hf & HQ)].
  eexists. split; [done|]. split; [|done]. apply rel_flags. rewrite Em, dirty_upd by done. by apply rel_clobber.
Qed.
(** It writes the temporary register. *)
Lemma sim_temp st st' i X T G ex (P Q : xstate -> Prop) (w : xstate -> Z) :
  insn st st' i -> straight i = true -> around st st' (dirty_loop (register_map st) RCX true) ->
  regs_ok (register_map st) ->
  (forall s, P s -> rel ex (register_map st) X T G s /\ exists f, exec cb call i s = Some (xset_flags (xset s RCX (w s)) f) /\
    Q (xset_flags (xset s RCX (w s)) f)) ->
  sim st st' P (fun s => rel ex (register_map st') X T G s /\ Q s).
Proof using.
  intros Hi Hst (Em & _) Hm HP. eapply sim_insn; [done..|]. intros s Hs. destruct (HP s Hs) as [Hr (f & Hf & HQ)].
  eexists. split; [done|]. split; [|done]. apply rel_flags. rewrite Em, dirty_temp by auto. by apply rel_temp.
Qed.

Lemma trunc_word (w64 : bool) x : word x -> trunc w64 x = x.
Proof using. unfold word, trunc, width. intros. apply Z.mod_small. destruct w64; lia. Qed.
Lemma rel_length ex m X T G s : rel ex m X T G s -> length s.(xr) = 16%nat.
Proof using. intros [[? _ _ _ _] _]. done. Qed.
Lemma rel_get ex m X T G s v r : rel ex m X T G s -> maps m v r -> 0 <= v < 32 -> v ∉ ex -> xget s r = X v.
Proof using. intros [Hr _] (e & He & <- & <-) Hv Hx. apply (rr_reg _ _ _ _ _ _ _ Hr); [done | unfold no_reg; lia | done]. Qed.

(** ** Operands *)

Lemma vm_load_ok st i v : jit_ok st -> (i < 3)%nat -> 0 <= v < 32 -> ok (vm_load off_X st i v) ->
  let st' := vm_load off_X st i v in
  jit_ok st' /\ maps (register_map st') v (vm st' i) /\ (forall j, i <> j -> vm st' j = vm st j) /\ same st st' /\ (ok st' -> ok st) /\
  keeps st st' [] [].
Proof using Hho.
  intros [Hm Hl] Hi Hv Hok. unfold vm_load in *. pose proof (ra_load_ok cb call tl off_X off_PC off_timer rvp sp bp mem h0 Hho st v Hm Hv) as H.
  destruct (ra_load off_X st v) as [st1 r]. cbn [fst snd] in *. destruct (H Hok) as [Hm1 Hmap Evm Hs Hk]. cbv zeta.
  assert (vm (set_vm st1 i r) i = r) as E by (apply vm_set; rewrite Evm; lia). rewrite E.
  split_and!; [split; [exact Hm1 | cbn [vm_reg set_vm]; by rewrite length_insert, Evm] | apply Hmap, list_elem_of_here | | done | |].
  - intros j Hj. rewrite vm_set_ne by done. unfold vm. by rewrite Evm.
  - intros H1. by apply (keeps_ok _ _ _ _ _ _ _ _ _ _ _ _ _ _ _ Hk).
  - by apply keeps_vm.
Qed.
(** A register that is in use. *)
Definition used (m : list host_reg) (r : Z) : Prop := exists v, 0 <= v < 32 /\ maps m v r.
Lemma used_host m r : regs_ok m -> used m r -> host r.
Proof using. intros Hm (v & _ & Hmap). by eapply maps_host. Qed.
Lemma mapping_used st st' v r q : mapping st st' v r [] -> 0 <= v < 32 -> used (register_map st) q -> used (register_map st') q.
Proof using.
  intros Hmp Hv (u & Hu & Hq). destruct (mp_case _ _ _ _ _ _ _ _ _ _ _ _ _ _ _ _ Hmp) as [[_ ->]|[_ E]]; [by exists u|].
  destruct (decide (q = r)) as [->|Hn]; [exists v; split; [done|]; apply (mp_maps _ _ _ _ _ _ _ _ _ _ _ _ _ _ _ _ Hmp)|].
  exists u. split; [done|]. rewrite E. by apply maps_assign_ne.
Qed.
Lemma vm_map_ok st i v : jit_ok st -> (i < 3)%nat -> 0 <= v < 32 -> ok (vm_map off_X st i v) ->
  let st' := vm_map off_X st i v in
  jit_ok st' /\ maps (register_map st') v (vm st' i) /\ (forall j, i <> j -> vm st' j = vm st j) /\ same st st' /\ (ok st' -> ok st) /\
  (forall q, used (register_map st) q -> used (register_map st') q) /\
  forall X T G F, words X -> sim st st' (fun s => rel [] (register_map st) X T G s /\ F s.(xr) s.(xf))
      (fun s => rel [v] (register_map st') X T G s /\ F s.(xr) s.(xf)).
Proof using Hho.
  intros [Hm Hl] Hi Hv Hok. unfold vm_map in *.
  pose proof (map_vm_reg_ok cb call tl off_X off_PC off_timer rvp sp bp mem h0 Hho st v [] Hm Hv) as H.
  destruct (map_vm_reg off_X st v) as [st1 r]. cbn [fst snd] in *. specialize (H Hok (not_ex_nil _)).
  assert (forall q, used (register_map st) q -> used (register_map st1) q) as Hused by (intros q; by apply (mapping_used st st1 v r)).
  destruct H as [Hm1 Hmap Evm Hs Hmono _ Hsim]. cbv zeta.
  assert (vm (set_vm st1 i r) i = r) as E by (apply vm_set; rewrite Evm; lia). rewrite E.
  split_and!; [split; [exact Hm1 | cbn [vm_reg set_vm]; by rewrite length_insert, Evm] | done | | done | done | done |].
  - intros j Hj. rewrite vm_set_ne by done. unfold vm. by rewrite Evm.
  - intros X T G F HX. apply sim_vm. by apply Hsim.
Qed.

(** An emission that marks the register of [v]. *)
Lemma jit_ok_mark st st' v r : jit_ok st -> maps (register_map st) v r -> 0 <= v < 32 ->
  around st st' (dirty_loop (register_map st) r true) ->
  jit_ok st' /\ (forall u q, maps (register_map st') u q <-> maps (register_map st) u q) /\ (forall j, vm st' j = vm st j).
Proof using.
  intros [Hm Hl] Hmap Hv (Em & Evm & _). rewrite dirty_upd in Em by done. split_and!.
  - split; [|by rewrite Evm]. rewrite Em. apply regs_ok_dirty; [done|]. intros _ h Hh Er.
    assert (v = vm_reg_idx h) as <- by (eapply maps_inj; [done.. | by exists h]). unfold no_reg. lia.
  - intros u q. rewrite Em. symmetry. apply maps_dirty.
  - intros j. unfold vm. by rewrite Evm.
Qed.
Lemma jit_ok_temp st st' : jit_ok st -> around st st' (dirty_loop (register_map st) RCX true) ->
  jit_ok st' /\ register_map st' = register_map st /\ (forall j, vm st' j = vm st j).
Proof using.
  intros [Hm Hl] (Em & Evm & _). rewrite dirty_temp in Em by auto. split_and!; [unfold jit_ok; rewrite Em, Evm; done | done |].
  intros j. unfold vm. by rewrite Evm.
Qed.

Lemma exec_mov (w64 : bool) src dst s : word (xget s src) ->
  exec cb call (XAlu w64 Mov src dst) s = Some (xset_flags (xset s dst (xget s src)) s.(xf)).
Proof using. intros Hw. cbn [exec]. unfold x_alu, alu. by rewrite trunc_word. Qed.

(** [to_dest] as the JIT has it: the source is in the register of the
    destination. *)
Record in_dest st st' (v : Z) (val : (Z -> Z) -> Z) : Prop := mk_in_dest {
  id_ok : jit_ok st';
  id_maps : maps (register_map st') v (vm st' 1);
  id_same : same st st';
  id_mono : ok st' -> ok st;
  id_sim : forall X T G, words X ->
    sim st st' (rel [] (register_map st) X T G) (fun s => rel [v] (register_map st') X T G s /\ xget s (vm st' 1) = val X)
}.
(** The source is loaded and the destination mapped. *)
Lemma load_map_ok st src dst : jit_ok st -> 0 <= src < 32 -> 0 <= dst < 32 -> ok (vm_map off_X (vm_load off_X st 0 src) 1 dst) ->
  let st' := vm_map off_X (vm_load off_X st 0 src) 1 dst in
  jit_ok st' /\ maps (register_map st') dst (vm st' 1) /\ reg (vm st' 0) /\ reg (vm st' 1) /\ same st st' /\ (ok st' -> ok st) /\
  forall X T G, words X -> sim st st' (rel [] (register_map st) X T G)
    (fun s => rel [dst] (register_map st') X T G s /\ xget s (vm st' 0) = X src).
Proof using Hho.
  intros Hj Hs Hd HokB stB. set (stA := vm_load off_X st 0 src) in *.
  assert (ok stA) as HokA by (unfold vm_map in HokB; pose proof (ok_map_vm_reg off_X stA dst); destruct (map_vm_reg off_X stA dst); auto).
  destruct (vm_load_ok st 0 src Hj ltac:(lia) Hs HokA) as (HjA & HmapA & _ & HsA & HoA & HkA). fold stA in HjA, HmapA, HsA, HoA, HkA.
  destruct (vm_map_ok stA 1 dst HjA ltac:(lia) Hd HokB) as (HjB & HmapB & HvmB & HsB & HoB & _ & HsimB). fold stB in HjB, HmapB, HvmB, HsB, HoB, HsimB.
  rewrite (HvmB 0%nat) by done. split_and!; [done | done | | | by etransitivity | auto |].
  - apply host_reg_range. eapply maps_host; [apply HjA | done].
  - apply host_reg_range. eapply maps_host; [apply HjB | done].
  - intros X T G HX. eapply sim_trans.
    + eapply sim_weaken; [apply (HkA X T G (fun _ _ => True) HX) | intros s Hs'; split; [exact Hs' | done] |].
      intros s [Hrel _]. exact (conj Hrel (rel_get _ _ _ _ _ _ _ _ Hrel HmapA Hs (not_elem_of_nil src))).
    + exact (HsimB X T G (fun x _ => x !!! Z.to_nat (vm stA 0) = X src) HX).
Qed.
Lemma to_dest_ok st src dst : jit_ok st -> 0 <= src < 32 -> 0 <= dst < 32 -> ok (to_dest off_X st src dst) ->
  in_dest st (to_dest off_X st src dst) dst (fun X => X src).
Proof using Hho.
  intros Hj Hs Hd Hok. unfold to_dest in *. cbv zeta in *. set (stB := vm_map off_X (vm_load off_X st 0 src) 1 dst) in *.
  assert (ok stB) as HokB by (destruct (negb _); [by apply (ar_mov stB (vm stB 0) (vm stB 1)) | done]).
  destruct (load_map_ok st src dst Hj Hs Hd HokB) as (HjB & HmapB & Hr0 & Hr1 & HsB & HoB & HsimB). fold stB in HjB, HmapB, Hr0, Hr1, HsB, HoB, HsimB.
  destruct (Z.eqb_spec (vm stB 0) (vm stB 1)) as [E|E]; cbn [negb].
  - rewrite E in *. by split.
  - pose proof (ar_mov stB (vm stB 0) (vm stB 1)) as Har. destruct (jit_ok_mark _ _ dst (vm stB 1) HjB HmapB Hd Har) as (HjC & HmapC & HvmC).
    split; [done | rewrite HvmC; by apply HmapC | etransitivity; [exact HsB | apply Har] | intros; apply HoB, Har; done |].
    intros X T G HX. eapply sim_trans; [by apply HsimB|]. rewrite HvmC.
    apply (sim_clobber _ _ (XAlu true Mov (vm stB 0) (vm stB 1)) dst (vm stB 1) (fun s => X src)); try done;
      [by apply insn_mov | apply HjB |].
    intros s [Hrel Hx]. split; [done|]. exists s.(xf). destruct HX as [_ HXw]. rewrite exec_mov, Hx by (rewrite Hx; by apply HXw).
    split; [done|]. change (xget (xset s (vm stB 1) (X src)) (vm stB 1) = X src).
    rewrite xget_xset, Z.eqb_refl by (done || by eapply rel_length). done.
Qed.

(** ** Arithmetic of the machine *)

Definition alu_val (op : alu_op) : option (Z -> Z -> Z) :=
  match op with
  | Add => Some (fun x y => u32 (x + y)) | Sub => Some (fun x y => u32 (x - y))
  | Or => Some Z.lor | And => Some Z.land | Xor => Some Z.lxor | _ => None
  end.
Lemma alu_val_ok op g x y f : alu_val op = Some g -> exists f', alu false op x y f = (Some (g x y), f').
Proof using. intros Hg. destruct op; try discriminate Hg; injection Hg as <-; by eexists. Qed.
Lemma trunc32_imm imm : trunc false (s32 (u32 imm)) = u32 imm.
Proof using. change (trunc false ?x) with (u32 x). by rewrite s32_u32, u32_s32. Qed.
Lemma exec_alu_imm op g dst imm s : alu_val op = Some g -> word (xget s dst) ->
  exists f, exec cb call (XAluImm false op dst (u32 imm)) s = Some (xset_flags (xset s dst (g (xget s dst) (u32 imm))) f).
Proof using.
  intros Hg Hw. cbn [exec]. unfold x_alu. rewrite trunc32_imm, trunc_word by done.
  destruct (alu_val_ok op g (xget s dst) (u32 imm) s.(xf) Hg) as [f' ->]. by exists f'.
Qed.
Lemma exec_alu op g src dst s : alu_val op = Some g -> word (xget s dst) -> word (xget s src) ->
  exists f, exec cb call (XAlu false op src dst) s = Some (xset_flags (xset s dst (g (xget s dst) (xget s src))) f).
Proof using.
  intros Hg Hw Hs. cbn [exec]. unfold x_alu. rewrite !trunc_word by done.
  destruct (alu_val_ok op g (xget s dst) (xget s src) s.(xf) Hg) as [f' ->]. by exists f'.
Qed.

Definition shift_val (op : X64.shift_op) (x n : Z) : Z :=
  match op with Shl => u32 (x * 2 ^ (n mod 32)) | Shr => x / 2 ^ (n mod 32) | Sar => u32 (s32 x / 2 ^ (n mod 32)) end.
Lemma x_shift_ok op dst n s : word (xget s dst) ->
  exists f, x_shift s false op dst n = xset_flags (xset s dst (shift_val op (xget s dst) n)) f.
Proof using.
  intros Hw. unfold x_shift, width. cbv zeta. rewrite (trunc_word false (xget s dst)) by done. pose proof (mod32_range n).
  exists (if n mod 32 =? 0 then s.(xf) else None).
  destruct op; cbn [shift_val]; rewrite ?Z.shiftl_mul_pow2, ?Z.shiftr_div_pow2 by lia; destruct (n mod 32 =? 0); try done; by destruct s.
Qed.
Lemma exec_shift_imm op dst n s : word (xget s dst) ->
  exists f, exec cb call (XShiftImm false op dst (u8 (n &. 0x1f))) s = Some (xset_flags (xset s dst (shift_val op (xget s dst) n)) f).
Proof using.
  intros Hw. cbn [exec]. destruct (x_shift_ok op dst (u8 (n &. 31)) s Hw) as [f ->]. exists f. do 3 f_equal. unfold shift_val.
  rewrite land_31. pose proof (mod32_range n). rewrite u8_small by lia. by rewrite Z.mod_mod.
Qed.
Lemma exec_shift_cl op dst s : word (xget s dst) ->
  exists f, exec cb call (XShiftCl op dst) s = Some (xset_flags (xset s dst (shift_val op (xget s dst) (xget s RCX))) f).
Proof using.
  intros Hw. cbn [exec]. destruct (x_shift_ok op dst (xget s RCX mod 256) s Hw) as [f ->]. exists f. do 3 f_equal. unfold shift_val.
  replace ((xget s RCX mod 256) mod 32) with (xget s RCX mod 32); [done|]. div_lia.
Qed.

(** ** Operations with an immediate *)

Definition writes_reg (v : Z) (val : (Z -> Z) -> Z) (X G : Z -> Z) : option ((Z -> Z) * (Z -> Z)) := Some (reg_set X v (val X), G).

(** The last instruction: it takes the value in the register of the
    destination to the result. *)
Lemma finish_dest st st1 st' i v val (g : Z -> Z) : in_dest st st1 v val -> 0 < v < 32 -> (forall X, words X -> word (val X)) ->
  insn st1 st' i -> straight i = true -> around st1 st' (dirty_loop (register_map st1) (vm st1 1) true) ->
  (forall s, word (xget s (vm st1 1)) -> exists f, exec cb call i s = Some (xset_flags (xset s (vm st1 1) (g (xget s (vm st1 1)))) f)) ->
  computes st st' (writes_reg v (fun X => g (val X))).
Proof using.
  intros [Hj Hmap Hs Hmono Hsim] Hv Hw Hi Hst Har Hex.
  destruct (jit_ok_mark _ _ v (vm st1 1) Hj Hmap ltac:(lia) Har) as (Hj' & _ & _). destruct Har as (A1 & A2 & A3 & A4). split.
  - done.
  - by etransitivity.
  - auto.
  - intros X G X' G' T HX [= <- <-]. eapply sim_trans; [by apply Hsim|].
    eapply (sim_write _ _ i v (vm st1 1)); try done; [apply Hj|]. intros s [Hrel Hx]. split; [done|].
    destruct (Hex s) as [f Hf]; [rewrite Hx; by apply Hw|]. exists f. by rewrite Hf, Hx.
Qed.
Lemma imm_op_ok st ir n op g : ext_of n = Some op -> alu_val op = Some g -> jit_ok st -> 0 <= ir.(rs1) < 32 -> 0 < ir.(rd) < 32 ->
  ok (imm_op off_X st ir n) ->
  computes st (imm_op off_X st ir n) (writes_reg ir.(rd) (fun X => g (X ir.(rs1)) (u32 ir.(imm)))).
Proof using Hho.
  intros Hn Hg Hj Hs Hd Hok. unfold imm_op in *. cbv zeta in *. set (st1 := to_dest off_X st (rs1 ir) (rd ir)) in *.
  pose proof (ar_alu32_imm32 st1 0x81 n (vm st1 1) (imm ir)) as Har. assert (ok st1) as Hok1 by by apply Har.
  pose proof (to_dest_ok st (rs1 ir) (rd ir) Hj Hs ltac:(lia) Hok1) as Hd1.
  assert (reg (vm st1 1)) as Hr by (eapply host_reg_range, maps_host; [apply (id_ok _ _ _ _ Hd1) | apply (id_maps _ _ _ _ Hd1)]).
  apply (finish_dest st st1 _ (XAluImm false op (vm st1 1) (u32 (imm ir))) (rd ir) (fun X => X (rs1 ir)) (fun x => g x (u32 (imm ir)))); try done.
  - intros X [_ HX]. by apply HX.
  - by apply insn_alu32_imm32.
  - intros s Hw. by apply exec_alu_imm.
Qed.
Lemma shift_op_ok st src dst n op amount : shift_of n = Some op -> jit_ok st -> 0 <= src < 32 -> 0 < dst < 32 ->
  ok (shift_op off_X st src dst n (amount &. 0x1f)) ->
  computes st (shift_op off_X st src dst n (amount &. 0x1f)) (writes_reg dst (fun X => shift_val op (X src) amount)).
Proof using Hho.
  intros Hn Hj Hs Hd Hok. unfold JitGen.shift_op in *. cbv zeta in *. set (st1 := to_dest off_X st src dst) in *.
  pose proof (ar_alu32_imm8 st1 0xc1 n (vm st1 1) (amount &. 0x1f)) as Har. assert (ok st1) as Hok1 by by apply Har.
  pose proof (to_dest_ok st src dst Hj Hs ltac:(lia) Hok1) as Hd1.
  assert (reg (vm st1 1)) as Hr by (eapply host_reg_range, maps_host; [apply (id_ok _ _ _ _ Hd1) | apply (id_maps _ _ _ _ Hd1)]).
  apply (finish_dest st st1 _ (XShiftImm false op (vm st1 1) (u8 (amount &. 0x1f))) dst (fun X => X src) (fun x => shift_val op x amount)); try done.
  - intros X [_ HX]. by apply HX.
  - by apply insn_alu32_imm8.
  - intros s Hw. by apply exec_shift_imm.
Qed.

(** ** Operations on two registers *)

(** The operands are in the register of the destination and in the temporary
    register. *)
Record in_dest2 st st' (v : Z) (val1 val2 : (Z -> Z) -> Z) : Prop := mk_in_dest2 {
  i2_ok : jit_ok st';
  i2_maps : maps (register_map st') v (vm st' 2);
  i2_same : same st st';
  i2_mono : ok st' -> ok st;
  i2_sim : forall X T G, words X -> sim st st' (rel [] (register_map st) X T G)
    (fun s => rel [v] (register_map st') X T G s /\ xget s (vm st' 2) = val1 X /\ xget s RCX = val2 X)
}.
Lemma ok_vm_map st i v : ok (vm_map off_X st i v) -> ok st.
Proof using. unfold vm_map. pose proof (ok_map_vm_reg off_X st v). destruct (map_vm_reg off_X st v). done. Qed.

(** What holds after both registers are loaded and the destination is mapped. *)
Lemma load2_map_ok st v1 v2 dst : jit_ok st -> 0 <= v1 < 32 -> 0 <= v2 < 32 -> 0 <= dst < 32 ->
  ok (vm_map off_X (ra_load2 off_X st v1 v2) 2 dst) ->
  let st' := vm_map off_X (ra_load2 off_X st v1 v2) 2 dst in
  jit_ok st' /\ maps (register_map st') dst (vm st' 2) /\ used (register_map st') (vm st' 0) /\ used (register_map st') (vm st' 1) /\ same st st' /\ (ok st' -> ok st) /\
  forall X T G, words X -> sim st st' (rel [] (register_map st) X T G)
    (fun s => rel [dst] (register_map st') X T G s /\ xget s (vm st' 0) = X v1 /\ xget s (vm st' 1) = X v2).
Proof using Hho.
  intros [Hm Hl] H1 H2 Hd Hok. set (stA := ra_load2 off_X st v1 v2) in *. pose proof (ok_vm_map _ _ _ Hok) as HokA.
  pose proof (ra_load2_ok cb call tl off_X off_PC off_timer rvp sp bp mem h0 Hho st v1 v2 Hm Hl H1 H2 HokA) as [HmA Ma1 Ma2 HlA HsA HoA HkA].
  fold stA in HmA, Ma1, Ma2, HlA, HsA, HoA, HkA.
  assert (jit_ok stA) as HjA by (split; [done | by rewrite HlA]).
  destruct (vm_map_ok stA 2 dst HjA ltac:(lia) Hd Hok) as (HjB & HmapB & HvmB & HsB & HoB & HuB & HsimB). cbv zeta in *.
  set (stB := vm_map off_X stA 2 dst) in *. rewrite (HvmB 0%nat), (HvmB 1%nat) by lia.
  split_and!; [done | done | apply HuB; by exists v1 | apply HuB; by exists v2 | by etransitivity | auto |].
  intros X T G HX. eapply sim_trans.
  - eapply sim_weaken; [apply (HkA X T G (fun _ _ => True) HX) | intros s Hs'; split; [exact Hs' | done] |].
    intros s [Hrel _]. exact (conj Hrel (conj (rel_get _ _ _ _ _ _ _ _ Hrel Ma1 H1 (not_elem_of_nil v1))
      (rel_get _ _ _ _ _ _ _ _ Hrel Ma2 H2 (not_elem_of_nil v2)))).
  - exact (HsimB X T G (fun x _ => x !!! Z.to_nat (vm stA 0) = X v1 /\ x !!! Z.to_nat (vm stA 1) = X v2) HX).
Qed.
Lemma two_operands_ok st ir : jit_ok st -> 0 <= ir.(rs1) < 32 -> 0 <= ir.(rs2) < 32 -> 0 <= ir.(rd) < 32 ->
  ok (two_operands off_X (ra_load2 off_X st ir.(rs1) ir.(rs2)) ir) ->
  in_dest2 st (two_operands off_X (ra_load2 off_X st ir.(rs1) ir.(rs2)) ir) ir.(rd) (fun X => X ir.(rs1)) (fun X => X ir.(rs2)).
Proof using Hho.
  intros Hj H1 H2 Hd Hok. unfold two_operands in *. cbv zeta in *.
  set (stB := vm_map off_X (ra_load2 off_X st (rs1 ir) (rs2 ir)) 2 (rd ir)) in *.
  set (stC := emit_mov stB (vm stB 1) temp_reg) in *. set (stD := emit_mov stC (vm stB 0) (vm stB 2)) in *.
  assert (around stB stC (dirty_loop (register_map stB) RCX true)) as HarC by apply ar_mov.
  assert (around stC stD (dirty_loop (register_map stC) (vm stB 2) true)) as HarD by apply ar_mov.
  assert (ok stB) as HokB by (apply HarC, HarD; done).
  destruct (load2_map_ok st (rs1 ir) (rs2 ir) (rd ir) Hj H1 H2 Hd HokB) as (HjB & HmapB & Hh0 & Hh1 & HsB & HoB & HsimB).
  fold stB in HjB, HmapB, Hh0, Hh1, HsB, HoB, HsimB.
  destruct (host_reg_range _ (used_host _ _ (proj1 HjB) Hh0)) as (Hr0 & Hn0 & _).
  destruct (host_reg_range _ (used_host _ _ (proj1 HjB) Hh1)) as (Hr1 & Hn1 & _).
  destruct (host_reg_range (vm stB 2)) as (Hr2 & Hn2 & _); [eapply maps_host; [apply HjB | done]|].
  destruct (jit_ok_temp _ _ HjB HarC) as (HjC & EmC & EvC).
  assert (maps (register_map stC) (rd ir) (vm stB 2)) as HmapC by by rewrite EmC.
  destruct (jit_ok_mark _ _ (rd ir) (vm stB 2) HjC HmapC Hd HarD) as (HjD & HmapD & EvD).
  assert (vm stD 2 = vm stB 2) as E2 by by rewrite EvD, EvC.
  split; [done | rewrite E2; by apply HmapD | etransitivity; [exact HsB|]; etransitivity; [apply HarC | apply HarD] |
    intros; apply HoB, HarC, HarD; done |].
  intros X T G HX. eapply sim_trans; [by apply HsimB|]. pose proof HX as [_ HXw].
  eapply (sim_trans _ _ _ _ stC).
  - eapply (sim_temp _ _ (XAlu true Mov (vm stB 1) RCX) X T G [rd ir] _
      (fun s => xget s (vm stB 0) = X (rs1 ir) /\ xget s RCX = X (rs2 ir)) (fun s => X (rs2 ir))); try done; [by apply insn_mov | apply HjB |].
    intros s (Hrel & Hx0 & Hx1). split; [done|]. exists s.(xf). rewrite exec_mov, Hx1 by (rewrite Hx1; by apply HXw).
    split; [done|]. change (xget (xset s RCX (X (rs2 ir))) (vm stB 0) = X (rs1 ir) /\ xget (xset s RCX (X (rs2 ir))) RCX = X (rs2 ir)).
    rewrite !xget_xset, Z.eqb_refl by (done || by eapply rel_length). destruct (Z.eqb_spec RCX (vm stB 0)); [congruence | done].
  - rewrite E2. apply (sim_clobber _ _ (XAlu true Mov (vm stB 0) (vm stB 2)) (rd ir) (vm stB 2) (fun s => X (rs1 ir)) X T G _
      (fun s => xget s (vm stB 2) = X (rs1 ir) /\ xget s RCX = X (rs2 ir))); try done; [by apply insn_mov | apply HjC |].
    intros s (Hrel & Hx0 & Hx1). split; [done|]. exists s.(xf). rewrite exec_mov, Hx0 by (rewrite Hx0; by apply HXw).
    split; [done|]. change (xget (xset s (vm stB 2) (X (rs1 ir))) (vm stB 2) = X (rs1 ir) /\ xget (xset s (vm stB 2) (X (rs1 ir))) RCX = X (rs2 ir)).
    rewrite !xget_xset, Z.eqb_refl by (done || by eapply rel_length). destruct (Z.eqb_spec (vm stB 2) RCX); done.
Qed.

Lemma finish_dest2 st st1 st' i v val1 val2 (g : Z -> Z -> Z) : in_dest2 st st1 v val1 val2 -> 0 < v < 32 ->
  (forall X, words X -> word (val1 X) /\ word (val2 X)) ->
  insn st1 st' i -> straight i = true -> around st1 st' (dirty_loop (register_map st1) (vm st1 2) true) ->
  (forall s, word (xget s (vm st1 2)) -> word (xget s RCX) ->
    exists f, exec cb call i s = Some (xset_flags (xset s (vm st1 2) (g (xget s (vm st1 2)) (xget s RCX))) f)) ->
  computes st st' (writes_reg v (fun X => g (val1 X) (val2 X))).
Proof using.
  intros [Hj Hmap Hs Hmono Hsim] Hv Hw Hi Hst Har Hex.
  destruct (jit_ok_mark _ _ v (vm st1 2) Hj Hmap ltac:(lia) Har) as (Hj' & _ & _). destruct Har as (A1 & A2 & A3 & A4). split.
  - done.
  - by etransitivity.
  - auto.
  - intros X G X' G' T HX [= <- <-]. eapply sim_trans; [by apply Hsim|].
    eapply (sim_write _ _ i v (vm st1 2)); try done; [apply Hj|]. intros s (Hrel & Hx & Hc). split; [done|].
    destruct (Hw X HX). destruct (Hex s) as [f Hf]; [by rewrite Hx | by rewrite Hc |]. exists f. by rewrite Hf, Hx, Hc.
Qed.
Lemma in_dest2_reg st st1 v val1 val2 : in_dest2 st st1 v val1 val2 -> host (vm st1 2) /\ reg (vm st1 2).
Proof using.
  intros H. assert (host (vm st1 2)) as Hh by (eapply maps_host; [apply (i2_ok _ _ _ _ _ H) | apply (i2_maps _ _ _ _ _ H)]).
  split; [done | by apply host_reg_range].
Qed.
Lemma reg_op_ok st ir c op g : alu_of c = Some op -> alu_val op = Some g -> jit_ok st ->
  0 <= ir.(rs1) < 32 -> 0 <= ir.(rs2) < 32 -> 0 < ir.(rd) < 32 -> ok (reg_op off_X st ir c) ->
  computes st (reg_op off_X st ir c) (writes_reg ir.(rd) (fun X => g (X ir.(rs1)) (X ir.(rs2)))).
Proof using Hho.
  intros Hc Hg Hj H1 H2 Hd Hok. unfold reg_op in *. cbv zeta in *.
  set (st1 := two_operands off_X (ra_load2 off_X st (rs1 ir) (rs2 ir)) ir) in *.
  pose proof (ar_alu32 st1 c temp_reg (vm st1 2)) as Har. assert (ok st1) as Hok1 by by apply Har.
  pose proof (two_operands_ok st ir Hj H1 H2 ltac:(lia) Hok1) as Hd1. destruct (in_dest2_reg _ _ _ _ _ Hd1) as [_ Hr].
  apply (finish_dest2 st st1 _ (XAlu false op RCX (vm st1 2)) (rd ir) (fun X => X (rs1 ir)) (fun X => X (rs2 ir)) g); try done.
  - intros X [_ HX]. auto.
  - by apply insn_alu32.
  - intros s Hw1 Hw2. by apply exec_alu.
Qed.
(** The amount of a shift is masked in the temporary register. *)
Lemma mask_temp_ok st st1 v val1 val2 : in_dest2 st st1 v val1 val2 -> (forall X, words X -> word (val2 X)) ->
  in_dest2 st (emit_alu32_imm32 st1 0x81 4 temp_reg 0x1f) v val1 (fun X => val2 X &. 0x1f).
Proof using.
  intros Hd Hw. destruct (in_dest2_reg _ _ _ _ _ Hd) as [Hh Hr]. destruct (host_reg_range _ Hh) as (_ & Hn & _).
  destruct Hd as [Hj Hmap Hs Hmono Hsim].
  assert (around st1 (emit_alu32_imm32 st1 0x81 4 temp_reg 0x1f) (dirty_loop (register_map st1) RCX true)) as Har by apply ar_alu32_imm32.
  destruct (jit_ok_temp _ _ Hj Har) as (Hj' & Em & Ev). split; try done.
  - by rewrite Em, Ev.
  - etransitivity; [done | apply Har].
  - intros. apply Hmono, Har. done.
  - intros X T G HX. eapply sim_trans; [by apply Hsim|]. rewrite Ev.
    apply (sim_temp _ _ (XAluImm false And RCX (u32 0x1f)) X T G [v] _ (fun s => xget s (vm st1 2) = val1 X /\ xget s RCX = val2 X &. 0x1f)
      (fun s => val2 X &. 0x1f)); [by apply insn_alu32_imm32 | done | done | apply Hj |].
    intros s (Hrel & H1 & H2). split; [done|]. destruct (exec_alu_imm And Z.land RCX 0x1f s) as [f Hf]; [done | rewrite H2; auto |].
    exists f. rewrite Hf, H2. split; [done|].
    change (xget (xset s RCX (val2 X &. 31)) (vm st1 2) = val1 X /\ xget (xset s RCX (val2 X &. 31)) RCX = val2 X &. 31).
    rewrite !xget_xset, Z.eqb_refl by (done || by eapply rel_length). destruct (Z.eqb_spec RCX (vm st1 2)); [congruence | done].
Qed.
Lemma reg_shift_ok st ir n op : shift_of n = Some op -> jit_ok st ->
  0 <= ir.(rs1) < 32 -> 0 <= ir.(rs2) < 32 -> 0 < ir.(rd) < 32 -> ok (reg_shift off_X st ir n) ->
  computes st (reg_shift off_X st ir n) (writes_reg ir.(rd) (fun X => shift_val op (X ir.(rs1)) (X ir.(rs2)))).
Proof using Hho.
  intros Hn Hj H1 H2 Hd Hok. unfold reg_shift in *. cbv zeta in *.
  set (st1 := two_operands off_X (ra_load2 off_X st (rs1 ir) (rs2 ir)) ir) in *.
  set (st2 := emit_alu32_imm32 st1 0x81 4 temp_reg 0x1f) in *.
  pose proof (ar_alu32 st2 0xd3 n (vm st2 2)) as Har. assert (ok st2) as Hok2 by by apply Har.
  assert (ok st1) as Hok1 by by apply (ar_alu32_imm32 st1 0x81 4 temp_reg 0x1f).
  pose proof (mask_temp_ok _ _ _ _ _ (two_operands_ok st ir Hj H1 H2 ltac:(lia) Hok1) ltac:(intros X [_ HX]; auto)) as Hd2.
  fold st1 st2 in Hd2. destruct (in_dest2_reg _ _ _ _ _ Hd2) as [_ Hr].
  eapply computes_ext; [apply (finish_dest2 st st2 _ (XShiftCl op (vm st2 2)) (rd ir) (fun X => X (rs1 ir)) (fun X => X (rs2 ir) &. 0x1f)
    (shift_val op) Hd2 Hd); [| by apply insn_shift_cl | done | exact Har |] |].
  - intros X [_ HX]. split; [auto|]. apply word_land_l; [auto | lia].
  - intros s Hw1 Hw2. by apply exec_shift_cl.
  - intros X G. unfold writes_reg, shift_val. rewrite land_31. by rewrite Z.mod_mod.
Qed.

(** ** Comparisons *)

Lemma exec_cmp src dst s : word (xget s src) -> word (xget s dst) ->
  exec cb call (XAlu false Cmp src dst) s = Some (xset_flags s (Some (cmp_flags (xget s dst) (xget s src)))).
Proof using. intros H1 H2. cbn [exec]. unfold x_alu, alu. by rewrite !trunc_word. Qed.
Lemma exec_cmp_imm dst imm s : word (xget s dst) ->
  exec cb call (XAluImm false Cmp dst (u32 imm)) s = Some (xset_flags s (Some (cmp_flags (xget s dst) (u32 imm)))).
Proof using. intros H1. cbn [exec]. unfold x_alu, alu. by rewrite trunc32_imm, trunc_word. Qed.

Lemma xset_same s r v : length s.(xr) = 16%nat -> reg r -> xget s r = v -> xset s r v = s.
Proof using.
  intros Hl Hr <-. unfold xset, xget. rewrite list_insert_id; [by destruct s|].
  apply list_lookup_lookup_total_lt. unfold reg in Hr. lia.
Qed.
Lemma upd_dirty_twice m r : upd (upd m r (fun h => set_map_dirty h true)) r (fun h => set_map_dirty h true) = upd m r (fun h => set_map_dirty h true).
Proof using. by rewrite upd_upd. Qed.

(** 1 or 0 in the register of the destination, from the flags. *)
Lemma set_if_ok st i cc c v b X T G : jit_ok st -> maps (register_map st) v (vm st i) -> 0 < v < 32 -> cond_of cc = Some c ->
  let st' := set_if st i cc in
  around st st' (upd (register_map st) (vm st i) (fun h => set_map_dirty h true)) /\
  sim st st' (fun s => rel [v] (register_map st) X T G s /\ holds c <$> s.(xf) = Some b)
    (rel [] (upd (register_map st) (vm st i) (fun h => set_map_dirty h true)) (reg_set X v (b2z b)) T G).
Proof using tl_off.
  intros Hj Hmap Hv Hc st'. set (r := vm st i) in *. set (m' := upd (register_map st) r (fun h => set_map_dirty h true)).
  set (st1 := emit_load_imm st r 1). set (st2 := emit_jcc_offset st1 cc). set (st3 := emit_load_imm st2 r 0).
  pose proof (ar_load_imm st r 1) as A1. fold st1 in A1. pose proof (ar_jcc st1 cc) as A2. fold st2 in A2.
  pose proof (ar_load_imm st2 r 0) as A3. fold st3 in A3.
  destruct (jit_ok_mark _ _ v r Hj Hmap ltac:(lia) A1) as (Hj1 & Hmap1 & Ev1). rewrite dirty_upd in A1 by apply Hj. fold m' in A1.
  assert (jit_ok st2) as Hj2 by (destruct A2 as (E2 & Ev2 & _); unfold jit_ok; by rewrite E2, Ev2).
  assert (vm st2 i = r) as Ev by (destruct A2 as (_ & Ev2 & _); unfold vm in *; by rewrite Ev2, Ev1).
  rewrite dirty_upd in A3 by apply Hj2.
  assert (upd (register_map st2) r (fun h => set_map_dirty h true) = m') as Em.
  { destruct A2 as (-> & _), A1 as (-> & _). apply upd_dirty_twice. }
  rewrite Em in A3.
  assert (reg r) as Hr by (eapply host_reg_range, maps_host; [apply Hj | done]).
  assert (st' = jump_over st1 cc (fun st => emit_load_imm st (vm st i) 0)) as Est by done.
  assert (st' = emit_jump_target_offset st3 (offset st1 + 2) (offset st3)) as Est'.
  { rewrite Est. unfold jump_over. cbv zeta. fold st2. by rewrite Ev. }
  split.
  { rewrite Est'. apply around_jump. destruct A3 as (B1 & B2 & B3 & B4), A2 as (C1 & C2 & C3 & C4), A1 as (D1 & D2 & D3 & D4).
    split_and!; [done | congruence | by do 2 (etransitivity; [|done]) | auto]. }
  assert (forall s w, rel [v] m' X T G s -> rel [] m' (reg_set X v w) T G (xset s r w)) as Hw.
  { intros s w Hrel. rewrite <- (upd_dirty_twice (register_map st) r : upd m' r _ = m').
    apply (rel_write off_X off_PC off_timer rvp sp bp mem h0 [] m' X (reg_set X v w) T G s v r w true); try done; [| | lia | |].
    - destruct A1 as (<- & _). apply Hj1.
    - destruct A1 as (<- & _). by apply Hmap1.
    - intros u Hu. unfold reg_set. destruct (Z.eqb_spec u v); done.
    - unfold reg_set. rewrite Z.eqb_refl. destruct (Z.eqb_spec v 0); [lia | done]. }
  eapply (sim_trans _ _ _ _ st1 _ _ (fun s => rel [v] m' X T G s /\ xget s r = 1 /\ holds c <$> s.(xf) = Some b)).
  - apply (sim_insn _ _ _ _ _ (XMovImm r 1)); [by apply insn_load_imm | done |]. intros s [Hrel Hf]. eexists. split; [done|]. split.
    + unfold m'. apply rel_clobber; [apply Hj | done | lia | done].
    + split; [|done]. rewrite xget_xset, Z.eqb_refl by (done || by eapply rel_length). done.
  - rewrite Est. apply (sim_jump_over _ _ _ tl_off _ _ c); [done| | |].
    + fold st2. rewrite Ev. fold st3. apply (sim_insn _ _ _ _ _ (XMovImm r 0)); [by apply insn_load_imm | done |].
      intros s [(Hrel & _ & Hf) Hf']. assert (b = false) as -> by congruence. eexists. split; [done|]. by apply Hw.
    + intros s (_ & _ & Hf). by apply fmap_Some in Hf as (f & -> & _).
    + intros s (Hrel & Hx & Hf) Hf'. assert (b = true) as -> by congruence. rewrite <- (xset_same s r 1); [by apply Hw | | done | done].
      by eapply rel_length.
Qed.

(** A comparison: only flags change, and the register is marked. *)
Lemma sim_cmp st st' i r ex X T G (P : xstate -> Prop) (fl : flags) : insn st st' i -> straight i = true ->
  around st st' (dirty_loop (register_map st) r true) -> regs_ok (register_map st) ->
  (forall s, P s -> rel ex (register_map st) X T G s /\ exec cb call i s = Some (xset_flags s (Some fl))) ->
  sim st st' P (fun s => rel ex (register_map st') X T G s /\ s.(xf) = Some fl).
Proof using.
  intros Hi Hst (Em & _) Hm HP. eapply sim_insn; [done..|]. intros s Hs. destruct (HP s Hs) as [Hr Hf].
  eexists. split; [done|]. split; [|done]. apply rel_flags. rewrite Em, dirty_upd by done. by apply rel_mark.
Qed.
(** The rest of a comparison, from its flags. *)
Lemma finish_set_if st st1 i cc c v (val : (Z -> Z) -> bool) : jit_ok st1 -> maps (register_map st1) v (vm st1 i) -> 0 < v < 32 ->
  cond_of cc = Some c -> same st st1 -> (ok st1 -> ok st) ->
  (forall X T G, words X -> sim st st1 (rel [] (register_map st) X T G)
     (fun s => rel [v] (register_map st1) X T G s /\ holds c <$> s.(xf) = Some (val X))) ->
  computes st (set_if st1 i cc) (writes_reg v (fun X => b2z (val X))).
Proof using tl_off.
  intros Hj Hmap Hv Hc Hs Hmono Hsim.
  destruct (set_if_ok st1 i cc c v true (fun _ => 0) 0 (fun _ => 0) Hj Hmap Hv Hc) as ((Em & Evm & Hs' & Hm') & _). split.
  - split; [|rewrite Evm; apply Hj]. rewrite Em. apply regs_ok_dirty; [apply Hj|]. intros _ h Hh Er.
    assert (v = vm_reg_idx h) as <- by (eapply maps_inj; [apply Hj | done | by exists h]). unfold no_reg. lia.
  - by etransitivity.
  - auto.
  - intros X G X' G' T HX [= <- <-]. eapply sim_trans; [by apply Hsim|]. rewrite Em.
    by apply (set_if_ok st1 i cc c v (val X) X T G Hj Hmap Hv Hc).
Qed.

Lemma ok_set_if st i cc : ok (set_if st i cc) -> ok st.
Proof using.
  unfold set_if, jump_over. cbv zeta. intros Hok. apply ok_add_jump in Hok as (Hok & _).
  set (st1 := emit_load_imm st (vm st i) 1) in *. set (st2 := emit_jcc_offset st1 cc) in *.
  apply (ar_load_imm st (vm st i) 1), (ar_jcc st1 cc), (ar_load_imm st2 (vm st2 i) 0). done.
Qed.
Lemma slti_ok st ir cc c : cond_of cc = Some c -> jit_ok st -> 0 <= ir.(rs1) < 32 -> 0 < ir.(rd) < 32 ->
  let st1 := vm_load off_X st 0 ir.(rs1) in let st2 := emit_cmp_imm32 st1 (vm st1 0) ir.(imm) in
  ok (set_if (vm_map off_X st2 1 ir.(rd)) 1 cc) ->
  computes st (set_if (vm_map off_X st2 1 ir.(rd)) 1 cc) (writes_reg ir.(rd) (fun X => b2z (cmp_val c (X ir.(rs1)) (u32 ir.(imm))))).
Proof using Hho tl_off.
  intros Hc Hj H1 Hd st1 st2 Hok. set (st3 := vm_map off_X st2 1 (rd ir)) in *.
  assert (around st1 st2 (dirty_loop (register_map st1) (vm st1 0) true)) as A2 by apply ar_cmp_imm32.
  pose proof (ok_set_if _ _ _ Hok) as Hok3.
  pose proof (ok_vm_map _ _ _ Hok3) as Hok2. assert (ok st1) as Hok1 by by apply A2.
  destruct (vm_load_ok st 0 (rs1 ir) Hj ltac:(lia) H1 Hok1) as (Hj1 & Hmap1 & _ & Hs1 & Ho1 & Hk1). fold st1 in Hj1, Hmap1, Hs1, Ho1, Hk1.
  destruct (jit_ok_mark _ _ _ _ Hj1 Hmap1 H1 A2) as (Hj2 & Hmap2 & Ev2).
  destruct (vm_map_ok st2 1 (rd ir) Hj2 ltac:(lia) ltac:(lia) Hok3) as (Hj3 & Hmap3 & Ev3 & Hs3 & Ho3 & _ & Hsim3). fold st3 in Hj3, Hmap3, Ev3, Hs3, Ho3, Hsim3.
  assert (reg (vm st1 0)) as Hr by (eapply host_reg_range, maps_host; [apply Hj1 | done]).
  eapply (finish_set_if st st3); try done; [etransitivity; [done|]; etransitivity; [apply A2 | done] | intros; apply Ho1, A2; auto |].
  intros X T G HX. pose proof HX as [_ HXw]. eapply sim_trans.
  { eapply sim_weaken; [apply (Hk1 X T G (fun _ _ => True) HX) | intros s Hs'; split; [exact Hs' | done] |]. intros s Hs'. exact Hs'. }
  eapply sim_trans.
  - apply (sim_cmp st1 st2 (XAluImm false Cmp (vm st1 0) (u32 (imm ir))) (vm st1 0) [] X T G _ (cmp_flags (X (rs1 ir)) (u32 (imm ir)))); [by apply insn_cmp_imm32 | done | done | apply Hj1 |].
    intros s [Hrel _]. split; [done|]. pose proof (rel_get _ _ _ _ _ _ _ _ Hrel Hmap1 H1 (not_elem_of_nil _)) as Hx.
    rewrite exec_cmp_imm by (rewrite Hx; auto). by rewrite Hx.
  - eapply sim_weaken; [exact (Hsim3 X T G (fun _ f => f = Some (cmp_flags (X (rs1 ir)) (u32 (imm ir)))) HX) | done |].
    intros s [Hrel Hf]. split; [done|]. rewrite Hf. cbn. f_equal. apply cmp_flags_ok; [auto | apply word_u32].
Qed.
Lemma slt_ok st ir cc c : cond_of cc = Some c -> jit_ok st -> 0 <= ir.(rs1) < 32 -> 0 <= ir.(rs2) < 32 -> 0 < ir.(rd) < 32 ->
  let st1 := vm_map off_X (ra_load2 off_X st ir.(rs1) ir.(rs2)) 2 ir.(rd) in
  ok (set_if (emit_cmp32 st1 (vm st1 1) (vm st1 0)) 2 cc) ->
  computes st (set_if (emit_cmp32 st1 (vm st1 1) (vm st1 0)) 2 cc)
    (writes_reg ir.(rd) (fun X => b2z (cmp_val c (X ir.(rs1)) (X ir.(rs2))))).
Proof using Hho tl_off.
  intros Hc Hj H1 H2 Hd st1 Hok. set (st2 := emit_cmp32 st1 (vm st1 1) (vm st1 0)) in *.
  assert (around st1 st2 (dirty_loop (register_map st1) (vm st1 0) true)) as A2 by apply ar_cmp32.
  assert (ok st1) as Hok1 by (apply A2; by eapply ok_set_if).
  destruct (load2_map_ok st (rs1 ir) (rs2 ir) (rd ir) Hj H1 H2 ltac:(lia) Hok1) as (Hj1 & Hmap1 & Hu0 & Hu1 & Hs1 & Ho1 & Hsim1).
  fold st1 in Hj1, Hmap1, Hu0, Hu1, Hs1, Ho1, Hsim1.
  destruct (host_reg_range _ (used_host _ _ (proj1 Hj1) Hu0)) as [Hr0 _], (host_reg_range _ (used_host _ _ (proj1 Hj1) Hu1)) as [Hr1 _].
  destruct Hu0 as (u & Hu & Hmapu). destruct (jit_ok_mark _ _ _ _ Hj1 Hmapu Hu A2) as (Hj2 & Hmap2 & Ev2).
  eapply (finish_set_if st st2); try done; [by rewrite Ev2; apply Hmap2 | etransitivity; [done | apply A2] | intros; apply Ho1, A2; done |].
  intros X T G HX. pose proof HX as [_ HXw]. eapply sim_trans; [by apply Hsim1|].
  eapply sim_weaken; [apply (sim_cmp st1 st2 (XAlu false Cmp (vm st1 1) (vm st1 0)) (vm st1 0) [rd ir] X T G _ (cmp_flags (X (rs1 ir)) (X (rs2 ir))));
    [by apply insn_cmp32 | done | done | apply Hj1 |] | intros s Hs'; exact Hs' |].
  - intros s (Hrel & Hx0 & Hx1). split; [done|]. rewrite exec_cmp by (rewrite ?Hx0, ?Hx1; auto). by rewrite Hx0, Hx1.
  - intros s [Hrel Hf]. split; [done|]. rewrite Hf. cbn. f_equal. apply cmp_flags_ok; auto.
Qed.

(** ** Constants *)

Lemma const_ok st v k : jit_ok st -> 0 < v < 32 -> ok (emit_load_imm (vm_map off_X st 0 v) (vm (vm_map off_X st 0 v) 0) k) ->
  computes st (emit_load_imm (vm_map off_X st 0 v) (vm (vm_map off_X st 0 v) 0) k) (writes_reg v (fun _ => u32 k)).
Proof using Hho.
  intros Hj Hv Hok. set (st1 := vm_map off_X st 0 v) in *. pose proof (ar_load_imm st1 (vm st1 0) k) as A.
  assert (ok st1) as Hok1 by by apply A.
  destruct (vm_map_ok st 0 v Hj ltac:(lia) ltac:(lia) Hok1) as (Hj1 & Hmap1 & _ & Hs1 & Ho1 & _ & Hsim1). fold st1 in Hj1, Hmap1, Hs1, Ho1, Hsim1.
  destruct (jit_ok_mark _ _ _ _ Hj1 Hmap1 ltac:(lia) A) as (Hj2 & _ & _).
  split; [done | etransitivity; [done | apply A] | intros; apply Ho1, A; done |].
  intros X G X' G' T HX [= <- <-]. eapply sim_trans.
  - eapply sim_weaken; [exact (Hsim1 X T G (fun _ _ => True) HX) | intros s Hs'; split; [exact Hs' | done] | intros s Hs'; exact Hs'].
  - apply (sim_write _ _ (XMovImm (vm st1 0) (u32 k)) v (vm st1 0)); try done; [|apply Hj1|].
    + apply insn_load_imm. eapply host_reg_range, maps_host; [apply Hj1 | done].
    + intros s [Hrel _]. split; [done|]. exists s.(xf). done.
Qed.

(** ** Loads and stores *)

#[local] Opaque emit_load emit_load_sext emit_store.

Notation base_ := mem.(mem_base).

(** An access that the emitted code makes at the right place: the sum does not
    wrap around, and it stays in the guest's memory. *)
Definition direct (X : Z -> Z) (base imm : Z) (n : nat) : Prop :=
  0 <= X base + imm /\ X base + imm + Z.of_nat n <= mem.(mem_size).

Record addressed st st' (base imm : Z) : Prop := mk_addressed {
  ad_ok : jit_ok st';
  ad_same : same st st';
  ad_mono : ok st' -> ok st;
  ad_sim : forall X T G n, words X -> direct X base imm n -> sim st st' (rel [] (register_map st) X T G)
    (fun s => rel [] (register_map st') X T G s /\ xget s RCX = base_ + (X base + imm))
}.
Lemma host_address_ok st base imm : jit_ok st -> 0 <= base < 32 -> ok (host_address off_X base_ st base imm) ->
  addressed st (host_address off_X base_ st base imm) base imm.
Proof using Hho.
  intros Hj Hb Hok. unfold host_address in *. cbv zeta in *. set (st1 := vm_load off_X st 0 base) in *.
  set (st2 := emit_load_imm_sext st1 temp_reg (base_ + imm)) in *.
  assert (around st1 st2 (dirty_loop (register_map st1) RCX true)) as A2 by apply ar_load_imm_sext.
  assert (around st2 (emit_alu64 st2 0x01 (vm st2 0) temp_reg) (dirty_loop (register_map st2) RCX true)) as A3 by apply ar_alu64.
  assert (ok st1) as Hok1 by (apply A2, A3; done).
  destruct (vm_load_ok st 0 base Hj ltac:(lia) Hb Hok1) as (Hj1 & Hmap1 & _ & Hs1 & Ho1 & Hk1). fold st1 in Hj1, Hmap1, Hs1, Ho1, Hk1.
  destruct (jit_ok_temp _ _ Hj1 A2) as (Hj2 & Em2 & Ev2). destruct (jit_ok_temp _ _ Hj2 A3) as (Hj3 & Em3 & Ev3).
  assert (maps (register_map st2) base (vm st2 0)) as Hmap2 by by rewrite Em2, Ev2.
  destruct (host_reg_range (vm st2 0)) as (Hr & Hn & _); [eapply maps_host; [apply Hj2 | done]|].
  split; [done | etransitivity; [done|]; etransitivity; [apply A2 | apply A3] | intros; apply Ho1, A2, A3; done |].
  intros X T G n HX [Hlo Hhi]. eapply sim_trans.
  { eapply sim_weaken; [exact (Hk1 X T G (fun _ _ => True) HX) | intros s Hs'; split; [exact Hs' | done] | intros s Hs'; exact Hs']. }
  eapply (sim_trans _ _ _ _ st2).
  - destruct (insn_load_imm_sext st1 temp_reg (base_ + imm) reg_rcx) as (i & Hi & Hst & Hex).
    apply (sim_temp st1 st2 i X T G [] _ (fun s => xget s RCX = u64 (base_ + imm)) (fun _ => u64 (base_ + imm)) Hi Hst A2 (proj1 Hj1)).
    intros s [Hrel _]. split; [done|]. exists s.(xf). split; [by rewrite Hex; destruct s|].
    change (xget (xset s RCX (u64 (base_ + imm))) RCX = u64 (base_ + imm)).
    rewrite xget_xset, Z.eqb_refl by (done || by eapply rel_length). done.
  - apply (sim_temp st2 _ (XAlu true Add (vm st2 0) RCX) X T G [] _ (fun s => xget s RCX = base_ + (X base + imm))
      (fun _ => base_ + (X base + imm))); [by apply insn_alu64 | done | done | apply Hj2 |].
    intros s [Hrel Hx]. split; [done|]. pose proof (rel_get _ _ _ _ _ _ _ _ Hrel Hmap2 Hb (not_elem_of_nil _)) as Hx0.
    cbn [exec]. unfold x_alu, alu. rewrite Hx, Hx0. rewrite (trunc_word true (X base)) by (by apply HX).
    change (trunc true (trunc true (u64 (base_ + imm)) + X base)) with (u64 (u64 (u64 (base_ + imm)) + X base)).
    assert (u64 (u64 (u64 (base_ + imm)) + X base) = base_ + (X base + imm)) as ->.
    { pose proof (ho_mem _ _ _ _ _ _ Hho) as [? ?]. unfold u64. rewrite Zmod_mod, Zplus_mod_idemp_l. rewrite Z.mod_small; lia. }
    eexists. split; [done|].
    change (xget (xset s RCX (base_ + (X base + imm))) RCX = base_ + (X base + imm)).
    rewrite xget_xset, Z.eqb_refl by (done || by eapply rel_length). done.
Qed.

Lemma load_guest m X T G h n a : mrel off_X off_PC off_timer rvp sp mem h0 m X T G h -> 0 <= a -> a + Z.of_nat n <= mem.(mem_size) ->
  load n h (base_ + a) = guest_load n G a.
Proof using.
  intros Hm. revert a. induction n as [|n IH]; intros a Ha Hn; [done|]. cbn [load guest_load].
  rewrite (mr_guest _ _ _ _ _ _ _ _ _ _ _ _ Hm) by lia. rewrite <- Z.add_assoc, IH by lia. done.
Qed.

(** The value that a load puts into a register. *)
Definition reads (n : nat) (base imm v : Z) (val : Z -> Z) (X G : Z -> Z) : option ((Z -> Z) * (Z -> Z)) :=
  if decide (direct X base imm n) then Some (reg_set X v (val (guest_load n G (X base + imm))), G) else None.
Lemma load_ok st st1 st' i n base imm v val : addressed st st1 base imm -> 0 < v < 32 ->
  let st2 := vm_map off_X st1 1 v in ok st2 ->
  insn st2 st' i -> straight i = true -> around st2 st' (dirty_loop (register_map st2) (vm st2 1) true) ->
  (forall s, exec cb call i s = Some (xset s (vm st2 1) (val (load n s.(xmem) (ea s RCX 0))))) ->
  computes st st' (reads n base imm v val).
Proof using Hho.
  intros [Hj Hs Hmono Hsim] Hv st2 Hok Hi Hst A Hex.
  destruct (vm_map_ok st1 1 v Hj ltac:(lia) ltac:(lia) Hok) as (Hj2 & Hmap2 & _ & Hs2 & Ho2 & _ & Hsim2). fold st2 in Hj2, Hmap2, Hs2, Ho2, Hsim2.
  destruct (jit_ok_mark _ _ _ _ Hj2 Hmap2 ltac:(lia) A) as (Hj3 & _ & _).
  split; [done | etransitivity; [done|]; etransitivity; [done | apply A] | intros; apply Hmono, Ho2, A; done |].
  intros X G X' G' T HX Hf. unfold reads in Hf. destruct (decide _) as [Hdir|]; [|done]. injection Hf as <- <-.
  eapply sim_trans; [by apply (Hsim X T G n)|]. eapply sim_trans.
  - eapply sim_weaken; [exact (Hsim2 X T G (fun x _ => x !!! 1%nat = base_ + (X base + imm)) HX) | intros s Hs'; exact Hs' | intros s Hs'; exact Hs'].
  - apply (sim_write _ _ i v (vm st2 1)); try done; [apply Hj2|]. intros s [Hrel Hx]. split; [done|]. exists s.(xf). rewrite Hex.
    change (xget s RCX = base_ + (X base + imm)) in Hx. unfold ea. rewrite Hx, Z.add_0_r. destruct Hdir as [Hlo Hhi].
    pose proof (ho_mem _ _ _ _ _ _ Hho) as [? ?]. unfold u64. rewrite Z.mod_small by lia. destruct Hrel as [_ Hm].
    rewrite (load_guest _ _ _ _ _ _ _ Hm) by lia. by destruct s.
Qed.

Lemma gen_load_zx_ok st base imm v sz : jit_ok st -> 0 <= base < 32 -> 0 < v < 32 -> ok (gen_load_zx off_X base_ st base imm v sz) ->
  computes st (gen_load_zx off_X base_ st base imm v sz) (reads (bytes sz) base imm v (fun x => x)).
Proof using Hho.
  intros Hj Hb Hv Hok. unfold gen_load_zx in *. cbv zeta in *. set (st1 := host_address off_X base_ st base imm) in *.
  set (st2 := vm_map off_X st1 1 v) in *. pose proof (ar_load0 st2 sz temp_reg (vm st2 1)) as A.
  pose proof (around_ok _ _ _ A Hok) as Hok2. pose proof (ok_vm_map _ _ _ Hok2) as Hok1.
  pose proof (host_address_ok st base imm Hj Hb Hok1) as Had.
  destruct (vm_map_ok st1 1 v (ad_ok _ _ _ _ Had) ltac:(lia) ltac:(lia) Hok2) as (Hj2 & Hmap2 & _). fold st2 in Hj2, Hmap2.
  apply (load_ok st st1 _ (XLoad (bytes sz) (vm st2 1) RCX 0)); [exact Had | exact Hv | exact Hok2 | | reflexivity | exact A | intros s; reflexivity].
  apply insn_load; [apply reg_rcx | eapply host_reg_range, maps_host; [apply Hj2 | exact Hmap2] | discriminate | lia |].
  eapply maps_x0_false; [apply Hj2 | exact Hmap2 | lia].
Qed.
Lemma gen_load_sx_ok st ir sz : jit_ok st -> 0 <= ir.(rs1) < 32 -> 0 < ir.(rd) < 32 -> sz <> S32 -> ok (gen_load_sx off_X base_ st ir sz) ->
  computes st (gen_load_sx off_X base_ st ir sz)
    (reads (bytes sz) ir.(rs1) ir.(imm) ir.(rd) (fun x => u32 (sext (8 * Z.of_nat (bytes sz)) x))).
Proof using Hho.
  intros Hj Hb Hv Hsz Hok. unfold gen_load_sx in *. cbv zeta in *. set (st1 := host_address off_X base_ st (rs1 ir) (imm ir)) in *.
  set (st2 := vm_map off_X st1 1 (rd ir)) in *. pose proof (ar_load_sext0 st2 sz temp_reg (vm st2 1)) as A.
  pose proof (around_ok _ _ _ A Hok) as Hok2. pose proof (ok_vm_map _ _ _ Hok2) as Hok1.
  pose proof (host_address_ok st (rs1 ir) (imm ir) Hj Hb Hok1) as Had.
  destruct (vm_map_ok st1 1 (rd ir) (ad_ok _ _ _ _ Had) ltac:(lia) ltac:(lia) Hok2) as (Hj2 & Hmap2 & _). fold st2 in Hj2, Hmap2.
  apply (load_ok st st1 _ (XLoadSx (bytes sz) false (vm st2 1) RCX 0)); try done.
  apply insn_load_sext; [done | eapply host_reg_range, maps_host; [apply Hj2 | done] | done | lia | | done].
  eapply maps_x0_false; [apply Hj2 | done | lia].
Qed.

Definition writes_mem (n : nat) (base imm src : Z) (X G : Z -> Z) : option ((Z -> Z) * (Z -> Z)) :=
  if decide (direct X base imm n) then Some (X, guest_upd (Z.of_nat n) (X base + imm) (X src) G) else None.

(** [x0] need not be written back: its slot holds 0. *)
Lemma rel_clean0 ex m X T G s r : regs_ok m -> maps m 0 r -> X 0 = 0 -> rel ex m X T G s ->
  rel ex (upd m r (fun h => set_map_dirty h false)) X T G s.
Proof using.
  intros Hm Hmap H0 [Hr [Hslot Hz Ht Hg Hk]]. split; [by apply rrel_upd|]. split; try done.
  intros v Hv Hcl. destruct (decide (v = 0)) as [->|Hn]; [by rewrite H0|]. apply Hslot; [done|]. intros e He Ev.
  apply (Hcl e); [|done]. apply elem_upd. exists e. split; [done|]. destruct (Z.eqb_spec (reg_idx e) r) as [E|]; [|done].
  destruct Hn. rewrite <- Ev. apply (maps_inj m _ 0 r Hm); [by exists e | done].
Qed.
Lemma gen_store_ok st base imm src sz : jit_ok st -> 0 <= base < 32 -> 0 <= src < 32 -> ok (gen_store off_X base_ st base imm src sz) ->
  computes st (gen_store off_X base_ st base imm src sz) (writes_mem (bytes sz) base imm src).
Proof using Hho.
  intros Hj Hb Hv Hok. unfold gen_store in *. cbv zeta in *. set (st1 := host_address off_X base_ st base imm) in *.
  set (st2 := vm_load off_X st1 1 src) in *. pose proof (ar_store0 st2 sz (vm st2 1) temp_reg) as A.
  set (st3 := emit_store st2 sz (vm st2 1) temp_reg 0) in *.
  pose proof (around_ok _ _ _ A Hok) as Hok2.
  assert (ok st1) as Hok1.
  { unfold st2, vm_load, ra_load in Hok2. pose proof (ok_map_vm_reg off_X st1 src) as Hmono.
    destruct (map_vm_reg off_X st1 src) as [st1' r]. apply Hmono. by apply (ok_load_if st1' (negb (origin st1 src =? r)) param0 r (off_X + 4 * src)). }
  pose proof (host_address_ok st base imm Hj Hb Hok1) as [Hj1 Hs1 Ho1 Hsim1]. fold st1 in Hj1, Hs1, Ho1, Hsim1.
  destruct (vm_load_ok st1 1 src Hj1 ltac:(lia) Hv Hok2) as (Hj2 & Hmap2 & _ & Hs2 & Ho2 & Hk2). fold st2 in Hj2, Hmap2, Hs2, Ho2, Hk2.
  assert (reg (vm st2 1)) as Hr by (eapply host_reg_range, maps_host; [apply Hj2 | done]).
  destruct A as (Em & Evm & Hs3 & Ho3).
  assert (jit_ok st3) as Hj3.
  { split; [|rewrite Evm; apply Hj2]. rewrite Em. destruct (maps_x0 _ _); [|apply Hj2]. rewrite dirty_upd by apply Hj2. apply regs_ok_dirty; [apply Hj2 | done]. }
  split; [done | etransitivity; [done|]; by etransitivity | auto |].
  intros X G X' G' T HX Hf. unfold writes_mem in Hf. destruct (decide _) as [Hdir|]; [|done]. injection Hf as <- <-.
  eapply sim_trans; [by apply (Hsim1 X T G (bytes sz))|]. eapply sim_trans.
  { eapply sim_weaken; [exact (Hk2 X T G (fun x _ => x = base_ + (X base + imm)) HX) | intros s Hs'; exact Hs' | intros s Hs'; exact Hs']. }
  destruct Hdir as [Hlo Hhi]. pose proof (ho_mem _ _ _ _ _ _ Hho) as [? ?]. pose proof HX as [HX0 _].
  assert (forall s, rel [] (register_map st2) X T G s /\ xget s RCX = base_ + (X base + imm) ->
    ea s RCX 0 = base_ + (X base + imm) /\ xget s (vm st2 1) = X src /\
    rel [] (register_map st3) X T (guest_upd (Z.of_nat (bytes sz)) (X base + imm) (X src) G)
      (xset_mem s (Memory.store (bytes sz) s.(xmem) (base_ + (X base + imm)) (X src)))) as Hstep.
  { intros s [Hrel Hx]. split; [|split].
    - unfold ea. rewrite Hx, Z.add_0_r. apply Z.mod_small. lia.
    - exact (rel_get _ _ _ _ _ _ _ _ Hrel Hmap2 Hv (not_elem_of_nil _)).
    - assert (rel [] (register_map st2) X T (guest_upd (Z.of_nat (bytes sz)) (X base + imm) (X src) G)
        (xset_mem s (Memory.store (bytes sz) s.(xmem) (base_ + (X base + imm)) (X src)))) as Hrel'.
      { destruct Hrel as [? ?]. split; [by apply rrel_mem|]. by apply mrel_guest. }
      rewrite Em. destruct (maps_x0 st2 (vm st2 1)) eqn:E0; [|done]. rewrite dirty_upd by apply Hj2.
      apply rel_clean0; [apply Hj2 | by apply maps_x0_maps | done | done]. }
  destruct (maps_x0 st2 (vm st2 1)) eqn:E0.
  - apply (sim_insn _ _ _ _ _ (XStoreImm (bytes sz) RCX 0 0)); [apply insn_store_x0; (done || lia) | done |].
    intros s Hs'. destruct (Hstep s Hs') as (Hea & _ & Hr'). eexists. split; [done|]. rewrite Hea.
    apply maps_x0_maps in E0. assert (src = 0) as -> by (eapply maps_inj; [apply Hj2 | done | done]). rewrite HX0 in Hr' at 2. exact Hr'.
  - apply (sim_insn _ _ _ _ _ (XStore (bytes sz) (vm st2 1) RCX 0)); [apply insn_store; (done || lia) | done |].
    intros s Hs'. destruct (Hstep s Hs') as (Hea & Hx & Hr'). eexists. split; [done|]. by rewrite Hea, Hx.
Qed.
End spec.

(** * Multiplication and division *)

(** ** Sequences of instructions *)

Section seq.
Context (cb : Z) (call : Z -> xstate -> option xstate) (tl : jump -> Z).
Notation exec := (exec cb call).
Notation sim := (sim cb call tl).

Fixpoint execs (l : list xinsn) (s : xstate) : option xstate :=
  match l with [] => Some s | i :: l => s ← exec i s; execs l s end.
(** The instructions [l] are appended, one after the other. *)
Inductive insns : jit_state -> jit_state -> list xinsn -> Prop :=
  | insns_nil st st' : (ok st' -> ok st) -> buf st' = buf st -> jumps st' = jumps st -> insns st st' []
  | insns_cons st st1 st2 i l : insn st st1 i -> straight i = true -> insns st1 st2 l -> insns st st2 (i :: l).
Lemma insns_app st st1 st2 l1 l2 : insns st st1 l1 -> insns st1 st2 l2 -> insns st st2 (l1 ++ l2).
Proof.
  intros H. revert st2 l2. induction H as [st st' Ho Eb Ej|st st1 st' i l Hi Hst _ IH]; intros st2 l2 H2.
  - cbn [app]. destruct H2 as [st1 st2 Ho2 Eb2 Ej2|st1 st2 st3 i l (bs & Henc & He) Hst H2].
    + constructor; [auto | congruence..].
    + econstructor; [|done|done]. exists bs. split; [done|]. intros Hok. destruct (He Hok) as (? & ? & ?). split_and!; [auto | congruence..].
  - cbn [app]. econstructor; [done..|]. by apply IH.
Qed.
Lemma insns_one st st' i : insn st st' i -> straight i = true -> insns st st' [i].
Proof. intros Hi Hst. econstructor; [done..|]. by constructor. Qed.
Lemma sim_insns st st' l (P Q : xstate -> Prop) : insns st st' l ->
  (forall s, P s -> exists s', execs l s = Some s' /\ Q s') -> sim st st' P Q.
Proof.
  intros H. revert P. induction H as [st st' Ho Eb Ej|st st1 st' i l Hi Hst _ IH]; intros P HP.
  - apply (sim_ext _ _ _ st st); [done..|]. eapply sim_weaken; [apply sim_refl | exact HP |].
    intros s (s' & [= ->] & ?). done.
  - eapply sim_trans.
    + eapply (sim_insn _ _ _ _ _ i P (fun s => exists s', execs l s = Some s' /\ Q s')); [done..|].
      intros s Hs. destruct (HP s Hs) as (s' & He & Hq). cbn [execs] in He. destruct (exec i s) as [s1|]; [|done]. eauto.
    + by apply IH.
Qed.
Lemma execs_app l1 l2 s : execs (l1 ++ l2) s = (s ← execs l1 s; execs l2 s).
Proof. revert s. induction l1 as [|i l IH]; intros s; [done|]. cbn [app execs]. destruct (exec i s); [apply IH | done]. Qed.
End seq.

(** ** The view *)

Lemma load_store_mod n h a v : load n (Memory.store n h a v) a = v mod 256 ^ Z.of_nat n.
Proof.
  rewrite <- (load_store n h a (v mod 256 ^ Z.of_nat n)) by (apply Z.mod_pos_bound; lia). apply load_ext. intros i Hi.
  rewrite !store_get. destruct (decide _); [|lia]. replace (a + i - a) with i by lia.
  rewrite div_mod_byte by lia. done.
Qed.

Definition fupd (g : Z -> Z) (r v : Z) : Z -> Z := fun q => if q =? r then v else g q.

Section view.
Context (cb : Z) (call : Z -> xstate -> option xstate) (sp : Z) (Hsp : 64 <= sp < 2 ^ 64) (hm : heap).
Notation exec := (exec cb call).

(** Registers [g], pushed values [L] and flags [f]; the memory is [hm] but for
    the stack. *)
Record view (g : Z -> Z) (L : list Z) (f : option flags) (s : xstate) : Prop := mk_view {
  v_len : length s.(xr) = 16%nat;
  v_reg : forall q, reg q -> xget s q = g q;
  v_sp : g RSP = sp - 8 * Z.of_nat (length L);
  v_cap : (length L <= 8)%nat;
  v_stack : forall i x, L !! i = Some x -> load 8 s.(xmem) (sp - 8 * (Z.of_nat (length L) - Z.of_nat i)) = x;
  v_mem : forall a, ~ (sp - 64 <= a < sp) -> heap_get s.(xmem) a = heap_get hm a;
  v_flags : s.(xf) = f
}.
Lemma view_set g L f s r v : view g L f s -> reg r -> r <> RSP -> view (fupd g r v) L f (xset s r v).
Proof using.
  intros [Hl Hr Hs Hc Hst Hm Hf] Hrr Hn. split; try done.
  - by rewrite xset_length.
  - intros q Hq. rewrite xget_xset by done. unfold fupd. rewrite Z.eqb_sym. destruct (q =? r); auto.
  - unfold fupd. destruct (Z.eqb_spec RSP r); [congruence | done].
Qed.
Lemma view_flag g L f f' s : view g L f s -> view g L f' (xset_flags s f').
Proof using. intros [Hl Hr Hs Hc Hst Hm Hf]. by split. Qed.
Lemma view_push g L f s v : view g L f s -> (length L < 8)%nat ->
  view (fupd g RSP (g RSP - 8)) (u64 v :: L) f (push s v).
Proof using Hsp.
  intros [Hl Hr Hs Hc Hst Hm Hf] Hlt. assert (reg RSP) as Hrs by (unfold reg, RSP; lia).
  assert (u64 (xget s RSP - 8) = sp - 8 * Z.of_nat (length (u64 v :: L))) as E.
  { rewrite Hr, Hs by done. cbn [length]. unfold u64. rewrite Z.mod_small; lia. }
  unfold push. cbv zeta. rewrite E. split.
  - by rewrite xset_length.
  - intros q Hq. rewrite xget_xset by done. unfold fupd. rewrite Z.eqb_sym. destruct (Z.eqb_spec q RSP) as [->|]; [rewrite Hs; cbn [length]; lia|].
    by apply Hr.
  - unfold fupd. rewrite Z.eqb_refl, Hs. cbn [length]. lia.
  - cbn [length]. lia.
  - intros [|i] x Hx; cbn [lookup list_lookup] in Hx; cbn [xmem xset xset_mem].
    + injection Hx as <-. replace (sp - 8 * (Z.of_nat (length (u64 v :: L)) - Z.of_nat 0)) with (sp - 8 * Z.of_nat (length (u64 v :: L))) by lia.
      by rewrite load_store_mod.
    + assert (i < length L)%nat by by eapply lookup_lt_Some. rewrite load_store_apart by (unfold apart; cbn [length]; lia).
      rewrite <- (Hst i x Hx). f_equal; cbn [length]; lia.
  - intros a Ha. cbn [xmem xset xset_mem]. rewrite get_store_apart by (unfold apart; cbn [length]; lia). by apply Hm.
  - done.
Qed.
Lemma view_pop g L f s x : view g (x :: L) f s ->
  pop s = (xset s RSP (g RSP + 8), x) /\ view (fupd g RSP (g RSP + 8)) L f (xset s RSP (g RSP + 8)).
Proof using Hsp.
  intros [Hl Hr Hs Hc Hst Hm Hf]. assert (reg RSP) as Hrs by (unfold reg, RSP; lia). cbn [length] in *. split.
  - unfold pop. rewrite Hr, Hs by done. f_equal.
    + f_equal; unfold u64; rewrite Z.mod_small; lia.
    + specialize (Hst 0%nat x eq_refl). rewrite <- Hst. f_equal; lia.
  - split; try done.
    + by rewrite xset_length.
    + intros q Hq. rewrite xget_xset by done. unfold fupd. rewrite Z.eqb_sym. destruct (q =? RSP); auto.
    + unfold fupd. rewrite Z.eqb_refl, Hs. lia.
    + lia.
    + intros i y Hy. rewrite <- (Hst (S i) y Hy). f_equal; lia.
Qed.
End view.

(** ** The code *)

(** Sequences from their end. *)
Definition rinsns (st st' : jit_state) (l : list xinsn) : Prop := insns st st' (rev l).
Lemma rinsns_nil st : rinsns st st [].
Proof. by constructor. Qed.
Lemma rinsns_snoc st st1 st2 i l : insn st1 st2 i -> straight i = true -> rinsns st st1 l -> rinsns st st2 (i :: l).
Proof. intros Hi Hst H. unfold rinsns. cbn [rev]. eapply insns_app; [done|]. by apply insns_one. Qed.
Lemma rinsns_upd st st1 i f l : rinsns st st1 l -> rinsns st (upd_reg st1 i f) l.
Proof. intros H. unfold rinsns. rewrite <- (app_nil_r (rev l)). eapply insns_app; [done|]. by constructor. Qed.
Lemma rinsns_unmap st st1 i l : rinsns st st1 l -> rinsns st (unmap_vm_reg st1 i) l.
Proof.
  intros H. apply rinsns_upd. unfold rinsns. rewrite <- (app_nil_r (rev l)). eapply insns_app; [done|].
  apply insns_nil; unfold assert; destruct (Nat.ltb _ _); (done || by intros ?%ok_fail).
Qed.
Lemma rinsns_restore st st1 i v d l : rinsns st st1 l -> rinsns st (restore_reg st1 i v d) l.
Proof. apply rinsns_upd. Qed.

Lemma insn_minus1 st : insn st (emit_load_imm_sext st RCX (-1)) (XAluImm true Mov RCX (u32 (-1))).
Proof.
  apply insn_dirty. eapply insn_of; [|by apply (enc_mov_imm_sx RCX (-1))]. rewrite app_assoc.
  eapply emits_app; [by apply emits_alu64 | apply emits4].
Qed.
Lemma insn_mul_rcx st (w : bool) : insn st (emit_alu32 (if w then emit_rex st 1 0 0 0 else st) 0xf7 4 RCX) (XMul w RCX).
Proof. destruct (insn_mul st w RCX reg_rcx) as [H|[_ H]]; [exact H | done]. Qed.

(** What is emitted for an unsigned operation, last instruction first; [core]
    is what is between. *)
Definition saves (dst : Z) : list xinsn :=
  [XAlu true Mov dst RAX; XAlu true Mov RCX RCX] ++ (if dst =? RDX then [] else [XPush RDX]) ++ (if dst =? RAX then [] else [XPush RAX]).
Definition restores (from dst : Z) : list xinsn :=
  (if dst =? RAX then [] else XPop RAX :: (if from =? RAX then [XAlu true Mov RAX dst] else [])) ++
  (if dst =? RDX then [] else XPop RDX :: (if from =? RDX then [XAlu true Mov RDX dst] else [])).
Definition core_mul (w : bool) : list xinsn := [XMul w RCX].
Definition core_div : list xinsn :=
  [XCmovE RAX RCX; XAluImm true Mov RCX (u32 (-1)); XPopf; XDiv false RCX; XAlu false Xor RDX RDX; XCmovE RCX RDX; XMovImm RDX (u32 1);
   XPushf; XAlu false Test RCX RCX].
Definition core_mod : list xinsn :=
  [XCmovE RDX RCX; XPop RCX; XPopf; XDiv false RCX; XAlu false Xor RDX RDX; XCmovE RCX RDX; XMovImm RDX (u32 1); XPushf;
   XAlu false Test RCX RCX; XPush RAX].

Ltac snoc tac := eapply rinsns_snoc; [tac | reflexivity |].
Ltac mul_step := match goal with
  | |- rinsns _ (restore_reg _ _ _ _) _ => apply rinsns_restore
  | |- rinsns _ (unmap_vm_reg _ _) _ => apply rinsns_unmap
  | |- rinsns _ (emit_pop _ _) _ => snoc ltac:(apply insn_pop; done)
  | |- rinsns _ (emit_push _ _) _ => snoc ltac:(apply insn_push; done)
  | |- rinsns _ (emit_mov _ _ _) _ => snoc ltac:(apply insn_mov; done)
  | |- rinsns _ (emit_conditional_move _ _ _) _ => snoc ltac:(apply insn_cmov; done)
  | |- rinsns _ (emit_alu32 (emit_rex _ _ _ _ _) _ _ _) _ => snoc ltac:(apply (insn_mul_rcx _ true))
  | |- rinsns _ (emit_alu32 _ 0xf7 4 _) _ => snoc ltac:(apply (insn_mul_rcx _ false))
  | |- rinsns _ (emit_alu32 _ 0xf7 6 _) _ => snoc ltac:(apply insn_div; done)
  | |- rinsns _ (emit_alu32 _ 0x31 _ _) _ => snoc ltac:(by apply (insn_alu32 _ 0x31 Xor))
  | |- rinsns _ (emit_alu32 _ 0x85 _ _) _ => snoc ltac:(by apply (insn_alu32 _ 0x85 Test))
  | |- rinsns _ (emit_load_imm_sext _ _ _) _ => snoc ltac:(apply insn_minus1)
  | |- rinsns _ (emit_load_imm _ _ _) _ => snoc ltac:(apply insn_load_imm; done)
  | |- rinsns _ (popfq _) _ => snoc ltac:(apply insn_popfq)
  | |- rinsns _ (pushfq _) _ => snoc ltac:(apply insn_pushfq)
  | |- rinsns _ _ [] => apply rinsns_nil
  end.
(** The tests of the opcode, and which registers are the same. *)
Ltac op_bools := repeat match goal with
  | |- context [Z.eqb (?a &. ?m) ?b] => let v := eval vm_compute in (Z.eqb (a &. m) b) in change (Z.eqb (a &. m) b) with v
  | |- context [RAX =? RAX] => change (RAX =? RAX) with true
  | |- context [RAX =? RDX] => change (RAX =? RDX) with false
  | |- context [RDX =? RAX] => change (RDX =? RAX) with false
  | |- context [RDX =? RDX] => change (RDX =? RDX) with true
  end.
Ltac mul_cases dst := op_bools;
  destruct (Z.eqb_spec dst RAX) as [E1|N1], (Z.eqb_spec dst RDX) as [E2|N2]; try (subst; discriminate);
  cbv beta iota zeta delta [negb orb andb app].
Lemma mul_insns st dst : host dst -> rinsns st (muldivmod st 0x28 RCX dst false) (restores RAX dst ++ core_mul false ++ saves dst).
Proof.
  intros Hd. destruct (host_reg_range dst Hd) as (Hr & _). unfold muldivmod, restores, core_mul, saves. mul_cases dst; repeat mul_step.
Qed.
Lemma mulhu_insns st dst : host dst -> rinsns st (muldivmod st 0x2f RCX dst false) (restores RAX dst ++ core_mul true ++ saves dst).
Proof.
  intros Hd. destruct (host_reg_range dst Hd) as (Hr & _). unfold muldivmod, restores, core_mul, saves. mul_cases dst; repeat mul_step.
Qed.
Lemma divu_insns st dst : host dst -> rinsns st (muldivmod st 0x38 RCX dst false) (restores RAX dst ++ core_div ++ saves dst).
Proof.
  intros Hd. destruct (host_reg_range dst Hd) as (Hr & _). unfold muldivmod, restores, core_div, saves. mul_cases dst; repeat mul_step.
Qed.
Lemma remu_insns st dst : host dst -> rinsns st (muldivmod st 0x98 RCX dst false) (restores RDX dst ++ core_mod ++ saves dst).
Proof.
  intros Hd. destruct (host_reg_range dst Hd) as (Hr & _). unfold muldivmod, restores, core_mod, saves. mul_cases dst; repeat mul_step.
Qed.

(** ** The map of registers *)

Lemma insns_ok st st' l : insns st st' l -> ok st' -> ok st.
Proof. induction 1 as [|st st1 st' i l (bs & _ & He) _ _ IH]; [done|]. intros Hok. by apply He, IH. Qed.

(** The rest of the state. *)
Definition quiet (st st' : jit_state) : Prop := vm_reg st' = vm_reg st /\ same st st' /\ (ok st' -> ok st).
Lemma quiet_around st st1 st2 m : around st1 st2 m -> quiet st st1 -> quiet st st2.
Proof. intros (_ & Ev & Hs & Ho) (Ev1 & Hs1 & Ho1). split_and!; [congruence | by etransitivity | auto]. Qed.
Lemma quiet_unmap st st1 i : quiet st st1 -> quiet st (unmap_vm_reg st1 i).
Proof.
  intros (Ev1 & Hs1 & Ho1). unfold unmap_vm_reg, assert.
  destruct (Nat.ltb _ _); (split_and!; [done | etransitivity; [exact Hs1|]; done | (exact Ho1 || by intros ?%ok_fail)]).
Qed.
Lemma quiet_restore st st1 i v d : quiet st st1 -> quiet st (restore_reg st1 i v d).
Proof. done. Qed.
Ltac quiet_step := match goal with
  | |- quiet _ (restore_reg _ _ _ _) => apply quiet_restore
  | |- quiet _ (unmap_vm_reg _ _) => apply quiet_unmap
  | |- quiet ?a ?a => done
  | |- quiet _ (emit_pop _ _) => eapply quiet_around; [apply ar_pop|]
  | |- quiet _ (emit_push _ _) => eapply quiet_around; [apply ar_push|]
  | |- quiet _ (emit_mov _ _ _) => eapply quiet_around; [apply ar_mov|]
  | |- quiet _ (emit_alu32 _ _ _ _) => eapply quiet_around; [apply ar_alu32|]
  | |- quiet _ (emit_conditional_move _ _ _) => eapply quiet_around; [apply ar_cmov|]
  | |- quiet _ (emit_load_imm_sext _ _ _) => eapply quiet_around; [apply ar_load_imm_sext|]
  | |- quiet _ (emit_load_imm _ _ _) => eapply quiet_around; [apply ar_load_imm|]
  | |- quiet _ (emit_rex _ _ _ _ _) => eapply quiet_around; [apply around_bytes, around_refl|]
  | |- quiet _ (popfq _) => eapply quiet_around; [apply around_bytes, around_refl|]
  | |- quiet _ (pushfq _) => eapply quiet_around; [apply around_bytes, around_refl|]
  end.
Lemma muldivmod_quiet st op dst : In op [0x28; 0x2f; 0x38; 0x98] -> quiet st (muldivmod st op RCX dst false).
Proof.
  intros Hop. repeat (destruct Hop as [<- | Hop]; [unfold muldivmod; mul_cases dst; repeat quiet_step|]). done.
Qed.

Lemma map_emit (f : jit_state -> jit_state) st m : around st (f st) m -> register_map (f st) = m.
Proof. by intros (? & _). Qed.
Lemma map_unmap st i : (i < 10)%nat ->
  register_map (unmap_vm_reg st i) = alter (fun h => mk_host_reg h.(reg_idx) no_reg h.(dirty) h.(alive)) i (register_map st).
Proof. intros Hi. unfold unmap_vm_reg, assert. change (length host_regs) with 10%nat. by destruct (Nat.ltb_spec i 10); [|lia]. Qed.
Lemma map_restore st i v d :
  register_map (restore_reg st i v d) = alter (fun h => mk_host_reg h.(reg_idx) v d h.(alive)) i (register_map st).
Proof. done. Qed.
Ltac map_step := match goal with
  | |- context [register_map (restore_reg _ _ _ _)] => rewrite map_restore
  | |- context [register_map (unmap_vm_reg _ _)] => rewrite map_unmap by lia
  | |- context [register_map (emit_pop ?s ?r)] => rewrite (proj1 (ar_pop s r))
  | |- context [register_map (emit_push ?s ?r)] => rewrite (proj1 (ar_push s r))
  | |- context [register_map (emit_mov ?s ?a ?b)] => rewrite (proj1 (ar_mov s a b))
  | |- context [register_map (emit_alu32 ?s ?a ?b ?c)] => rewrite (proj1 (ar_alu32 s a b c))
  | |- context [register_map (emit_conditional_move ?s ?a ?b)] => rewrite (proj1 (ar_cmov s a b))
  | |- context [register_map (emit_load_imm_sext ?s ?a ?b)] => rewrite (proj1 (ar_load_imm_sext s a b))
  | |- context [register_map (emit_load_imm ?s ?a ?b)] => rewrite (proj1 (ar_load_imm s a b))
  | |- context [register_map (emit_rex ?s ?a ?b ?c ?d)] => rewrite (proj1 (around_bytes s s _ _ (around_refl s)) : register_map (emit_rex s a b c d) = _)
  | |- context [register_map (popfq ?s)] => rewrite (proj1 (around_bytes s s _ _ (around_refl s)) : register_map (popfq s) = _)
  | |- context [register_map (pushfq ?s)] => rewrite (proj1 (around_bytes s s _ _ (around_refl s)) : register_map (pushfq s) = _)
  end.
(** The ten entries. *)
Lemma regs_entries m : reg_idx <$> m = host_regs -> exists e0 e1 e2 e3 e4 e5 e6 e7 e8 e9 : Z * bool * bool,
  m = zip_with (fun r e => mk_host_reg r e.1.1 e.1.2 e.2) host_regs [e0; e1; e2; e3; e4; e5; e6; e7; e8; e9].
Proof.
  intros E. do 10 (destruct m as [|? m]; [discriminate E|]). destruct m; [|discriminate E].
  cbn in E. injection E as ? ? ? ? ? ? ? ? ? ?.
  repeat match goal with h : host_reg |- _ => destruct h end. cbn in *. subst.
  do 10 eexists (_, _, _). reflexivity.
Qed.
Lemma muldivmod_map st op dst : regs_ok (register_map st) -> In op [0x28; 0x2f; 0x38; 0x98] -> host dst ->
  register_map (muldivmod st op RCX dst false) = dirty_loop (register_map st) dst true.
Proof.
  intros Hm Hop Hd. destruct (regs_entries _ (ro_regs _ Hm)) as (e0 & e1 & e2 & e3 & e4 & e5 & e6 & e7 & e8 & e9 & Em).
  repeat (destruct Hop as [<- | Hop]; [unfold muldivmod; mul_cases dst; repeat map_step; rewrite Em;
    unfold host, host_regs in Hd; cbn [In] in Hd; repeat destruct Hd as [<- | Hd]; try done; cbn; destruct e0 as [[? ?] ?], e2 as [[? ?] ?]; done|]).
  done.
Qed.

(** ** Running on the view *)

Definition vstate : Type := (Z -> Z) * list Z * option flags.
(** A register that may be written. *)
Definition wreg (r : Z) : bool := (0 <=? r) && (r <? 16) && negb (r =? RSP).
Definition rreg (r : Z) : bool := (0 <=? r) && (r <? 16).
Definition vstep (i : xinsn) (v : vstate) : option vstate :=
  let '(g, L, f) := v in
  match i with
  | XAlu w op src dst =>
      if negb (rreg src && wreg dst) then None else
      let '(x, f') := alu w op (trunc w (g dst)) (trunc w (g src)) f in
      Some (match x with Some x => fupd g dst x | None => g end, L, f')
  | XAluImm w op dst imm =>
      if negb (wreg dst) then None else
      let '(x, f') := alu w op (trunc w (g dst)) (trunc w (s32 imm)) f in
      Some (match x with Some x => fupd g dst x | None => g end, L, f')
  | XMovImm dst imm => if wreg dst then Some (fupd g dst imm, L, f) else None
  | XPush r => if rreg r && Nat.ltb (length L) 8 then Some (fupd g RSP (g RSP - 8), u64 (g r) :: L, f) else None
  | XPop r => match L with x :: L => if wreg r then Some (fupd (fupd g RSP (g RSP + 8)) r x, L, f) else None | [] => None end
  | XPushf =>
      match f with
      | Some fl => if Nat.ltb (length L) 8 then Some (fupd g RSP (g RSP - 8), u64 (flags_word fl) :: L, f) else None
      | None => None
      end
  | XPopf => match L with x :: L => Some (fupd g RSP (g RSP + 8), L, Some (word_flags x)) | [] => None end
  | XCmovE dst src =>
      match f with
      | Some fl => if rreg src && wreg dst then Some (if fl.(ZF) then fupd g dst (g src) else g, L, f) else None
      | None => None
      end
  | XMul w src =>
      if negb (rreg src) then None else
      let p := trunc w (g RAX) * trunc w (g src) in Some (fupd (fupd g RAX (trunc w p)) RDX (p / 2 ^ width w), L, None)
  | XDiv w src =>
      let n := trunc w (g RDX) * 2 ^ width w + trunc w (g RAX) in
      let d := trunc w (g src) in
      if negb (rreg src) || (d =? 0) || (2 ^ width w <=? n / d) then None
      else Some (fupd (fupd g RAX (n / d)) RDX (n mod d), L, None)
  | _ => None
  end.
Fixpoint vrun (l : list xinsn) (v : vstate) : option vstate :=
  match l with [] => Some v | i :: l => v ← vstep i v; vrun l v end.
Lemma vrun_app l1 l2 v : vrun (l1 ++ l2) v = (v ← vrun l1 v; vrun l2 v).
Proof. revert v. induction l1 as [|i l IH]; intros v; [done|]. cbn [app vrun]. destruct (vstep i v); [apply IH | done]. Qed.

Lemma wregP r : wreg r = true -> reg r /\ r <> RSP.
Proof. unfold wreg, reg. lia. Qed.
Lemma rregP r : rreg r = true -> reg r.
Proof. unfold rreg, reg. lia. Qed.

Section vrun.
Context (cb : Z) (call : Z -> xstate -> option xstate) (sp : Z) (Hsp : 64 <= sp < 2 ^ 64) (hm : heap).
Notation exec := (exec cb call).
Notation execs := (execs cb call).
Notation view := (view sp hm).
Lemma reg_rax : reg RAX.
Proof using. unfold reg, RAX. lia. Qed.
Lemma reg_rdx : reg RDX.
Proof using. unfold reg, RDX. lia. Qed.

Lemma view_x_alu g L f s w op dst b : view g L f s -> wreg dst = true ->
  let '(x, f') := alu w op (trunc w (g dst)) b f in
  view (match x with Some x => fupd g dst x | None => g end) L f' (x_alu s w op dst b).
Proof using.
  intros Hv [Hr Hn]%wregP. unfold x_alu. rewrite (v_reg _ _ _ _ _ _ Hv dst Hr), (v_flags _ _ _ _ _ _ Hv).
  destruct (alu w op (trunc w (g dst)) b f) as [[x|] f'].
  - apply view_set; [|done..]. by eapply view_flag.
  - by eapply view_flag.
Qed.
Lemma vstep_ok i g L f s g' L' f' : view g L f s -> vstep i (g, L, f) = Some (g', L', f') ->
  exists s', exec i s = Some s' /\ view g' L' f' s'.
Proof using Hsp.
  intros Hv Hs. pose proof (v_reg _ _ _ _ _ _ Hv) as Hr. pose proof (v_flags _ _ _ _ _ _ Hv) as Hf.
  destruct i; cbn [vstep] in Hs; try discriminate Hs; cbn [X64.exec].
  - destruct (rreg src && wreg dst) eqn:E; [|done]. apply andb_prop in E as [E1%rregP E2]. cbn [negb] in Hs.
    pose proof (view_x_alu g L f s w64 op dst (trunc w64 (g src)) Hv E2) as Ha. rewrite Hr by done.
    destruct (alu _ _ _ _ _) as [x f'']. injection Hs as <- <- <-. eauto.
  - destruct (wreg dst) eqn:E2; [|done]. cbn [negb] in Hs.
    pose proof (view_x_alu g L f s w64 op dst (trunc w64 (s32 imm)) Hv E2) as Ha.
    destruct (alu _ _ _ _ _) as [x f'']. injection Hs as <- <- <-. eauto.
  - destruct (wreg dst) eqn:E2; [|done]. injection Hs as <- <- <-. apply wregP in E2 as [? ?]. eexists. split; [done|]. by apply view_set.
  - destruct (rreg src) eqn:E1; [|done]. cbn [negb] in Hs. injection Hs as <- <- <-. apply rregP in E1.
    rewrite !Hr by (done || apply reg_rax). eexists. split; [done|].
    apply view_set; [apply view_set; [by eapply view_flag | apply reg_rax | done] | apply reg_rdx | done].
  - destruct (rreg src) eqn:E1; [|done]. cbn [negb orb] in Hs. apply rregP in E1.
    rewrite !Hr by (done || apply reg_rax || apply reg_rdx). destruct (_ || _); [done|]. injection Hs as <- <- <-. eexists. split; [done|].
    apply view_set; [apply view_set; [by eapply view_flag | apply reg_rax | done] | apply reg_rdx | done].
  - destruct (rreg r && Nat.ltb (length L) 8) eqn:E; [|done]. apply andb_prop in E as [E1%rregP E2%Nat.ltb_lt]. injection Hs as <- <- <-.
    rewrite Hr by done. eexists. split; [done|]. by apply view_push.
  - destruct L as [|x L]; [done|]. destruct (wreg r) eqn:E2; [|done]. injection Hs as <- <- <-. apply wregP in E2 as [? ?].
    destruct (view_pop sp Hsp hm g L f s x Hv) as [-> Hv']. eexists. split; [done|]. by apply view_set.
  - destruct f as [fl|]; [|done]. destruct (Nat.ltb (length L) 8) eqn:E2; [|done]. apply Nat.ltb_lt in E2. injection Hs as <- <- <-.
    rewrite Hf. eexists. split; [done|]. by apply view_push.
  - destruct L as [|x L]; [done|]. injection Hs as <- <- <-. destruct (view_pop sp Hsp hm g L f s x Hv) as [-> Hv'].
    eexists. split; [done|]. by eapply view_flag.
  - destruct f as [fl|]; [|done]. destruct (rreg src && wreg dst) eqn:E; [|done]. apply andb_prop in E as [E1%rregP [? ?]%wregP].
    injection Hs as <- <- <-. rewrite Hf, Hr by done. eexists. split; [done|]. destruct (ZF fl); [by apply view_set | done].
Qed.
Lemma vrun_ok l g L f s g' L' f' : view g L f s -> vrun l (g, L, f) = Some (g', L', f') ->
  exists s', execs l s = Some s' /\ view g' L' f' s'.
Proof using Hsp.
  revert g L f s. induction l as [|i l IH]; intros g L f s Hv Hs; cbn [vrun] in Hs; [injection Hs as <- <- <-; by exists s|].
  destruct (vstep i (g, L, f)) as [[[g1 L1] f1]|] eqn:E; [|done]. cbn [mbind option_bind] in Hs.
  destruct (vstep_ok i g L f s g1 L1 f1 Hv E) as (s1 & He & Hv1). destruct (IH g1 L1 f1 s1 Hv1 Hs) as (s' & He' & Hv').
  exists s'. split; [|done]. cbn [JitSpec.execs]. by rewrite He.
Qed.
End vrun.

(** ** Results *)

Lemma wreg_host r : host r -> wreg r = true /\ rreg r = true.
Proof. intros H. destruct (host_reg_range r H) as (? & _ & _ & ? & _). unfold wreg, rreg, reg in *. lia. Qed.
Lemma trunc64_small x : 0 <= x < 2 ^ 64 -> trunc true x = x.
Proof. apply Z.mod_small. Qed.
Lemma u64_fits x : 0 <= x < 2 ^ 64 -> u64 x = x.
Proof. apply Z.mod_small. Qed.

(** What the core of an operation does, with the operands in RAX and RCX. *)
Definition core_ok (core : list xinsn) (from : Z) (F : Z -> Z -> Z) : Prop := forall g L f,
  (length L <= 2)%nat -> word (g RAX) -> word (g RCX) -> exists g' f',
  vrun (rev core) (g, L, f) = Some (g', L, f') /\ g' from = F (g RAX) (g RCX) /\ (forall q, q <> RAX -> q <> RDX -> q <> RCX -> g' q = g q).

Lemma vstep_mov src dst g L f : rreg src = true -> wreg dst = true ->
  vstep (XAlu true Mov src dst) (g, L, f) = Some (fupd g dst (u64 (g src)), L, f).
Proof. intros H1 H2. cbn [vstep]. by rewrite H1, H2. Qed.
Lemma vstep_push r g L f : rreg r = true -> (length L < 8)%nat ->
  vstep (XPush r) (g, L, f) = Some (fupd g RSP (g RSP - 8), u64 (g r) :: L, f).
Proof. intros H1 H2%Nat.ltb_lt. cbn [vstep]. by rewrite H1, H2. Qed.
Lemma vstep_pop r x g L f : wreg r = true -> vstep (XPop r) (g, x :: L, f) = Some (fupd (fupd g RSP (g RSP + 8)) r x, L, f).
Proof. intros H1. cbn [vstep]. by rewrite H1. Qed.
Ltac vsteps := repeat (cbn [vrun app rev mbind option_bind];
  first [rewrite vstep_mov by done | rewrite vstep_push by (done || cbn [length app]; lia) | rewrite vstep_pop by done]);
  cbn [vrun app rev mbind option_bind].
(** The value of a register after some writes. *)
Ltac fupds := unfold fupd; repeat match goal with |- context [Z.eqb ?a ?b] => destruct (Z.eqb_spec a b) end; try congruence; try (subst; discriminate).

Lemma saves_run dst g f : host dst -> word (g dst) -> word (g RCX) -> exists g',
  vrun (rev (saves dst)) (g, [], f) =
    Some (g', (if dst =? RDX then [] else [u64 (g RDX)]) ++ (if dst =? RAX then [] else [u64 (g RAX)]), f) /\
  g' RAX = g dst /\ g' RCX = g RCX /\
  g' RSP = g RSP - (if dst =? RAX then 0 else 8) - (if dst =? RDX then 0 else 8) /\
  (forall q, q <> RAX -> q <> RCX -> q <> RSP -> g' q = g q).
Proof.
  intros Hd Hw Hc. destruct (wreg_host dst Hd) as [Hwr Hrr]. destruct (host_reg_range dst Hd) as (_ & Hn1 & _ & Hn2 & _). unfold saves.
  assert (forall x, word x -> u64 x = x) as Hu by (intros x ?; apply u64_fits; unfold word in *; lia).
  destruct (Z.eqb_spec dst RDX) as [E2|N2], (Z.eqb_spec dst RAX) as [E1|N1]; try (subst; discriminate); vsteps.
  all: eexists; split; [done|]; split_and!; [..|intros q Hq1 Hq2 Hq3]; fupds; try lia; by apply Hu.
Qed.
Lemma restores_run from dst g x y f : host dst -> from = RAX \/ from = RDX -> 0 <= g from < 2 ^ 64 -> exists g',
  vrun (rev (restores from dst)) (g, (if dst =? RDX then [] else [y]) ++ (if dst =? RAX then [] else [x]), f) = Some (g', [], f) /\
  g' dst = g from /\ (dst <> RAX -> g' RAX = x) /\ (dst <> RDX -> g' RDX = y) /\
  g' RSP = g RSP + (if dst =? RAX then 0 else 8) + (if dst =? RDX then 0 else 8) /\
  (forall q, q <> dst -> q <> RAX -> q <> RDX -> q <> RSP -> g' q = g q).
Proof.
  intros Hd Hf Hu%u64_fits. destruct (wreg_host dst Hd) as [Hwr Hrr]. destruct (host_reg_range dst Hd) as (_ & Hn1 & _ & Hn2 & _). unfold restores.
  destruct Hf as [-> | ->]; op_bools;
    destruct (Z.eqb_spec dst RDX) as [E2|N2], (Z.eqb_spec dst RAX) as [E1|N1]; try (subst; discriminate); vsteps.
  all: eexists; split; [done|]; split_and!; [..|intros q Hq1 Hq2 Hq3 Hq4]; intros; fupds; try lia.
  all: subst; (done || discriminate).
Qed.

(** The whole operation: the result is in the register of the destination,
    and nothing but the temporary register changed besides. *)
Lemma muldiv_run core from F dst g f : core_ok core from F -> from = RAX \/ from = RDX ->
  (forall a b, word a -> word b -> 0 <= F a b < 2 ^ 64) -> host dst -> word (g dst) -> word (g RCX) -> exists g' f',
  vrun (rev (restores from dst ++ core ++ saves dst)) (g, [], f) = Some (g', [], f') /\
  g' dst = F (g dst) (g RCX) /\ g' RSP = g RSP /\ (forall q, q <> dst -> q <> RCX -> q <> RSP -> (q = RAX \/ q = RDX -> 0 <= g q < 2 ^ 64) -> g' q = g q).
Proof.
  intros Hcore Hfrom HF Hd Hw Hc. destruct (host_reg_range dst Hd) as (_ & Hn1 & _ & Hn2 & _).
  destruct (saves_run dst g f Hd Hw Hc) as (g1 & E1 & Ha & Hb & Hs & Ho1).
  destruct (Hcore g1 ((if dst =? RDX then [] else [u64 (g RDX)]) ++ (if dst =? RAX then [] else [u64 (g RAX)])) f)
    as (g2 & f2 & E2 & Hr & Ho2); [by destruct (_ =? _), (_ =? _); cbn; lia | by rewrite Ha | by rewrite Hb |].
  rewrite Ha, Hb in Hr.
  destruct (restores_run from dst g2 (u64 (g RAX)) (u64 (g RDX)) f2 Hd Hfrom) as (g3 & E3 & Hr3 & Hx & Hy & Hs3 & Ho3); [rewrite Hr; by apply HF|].
  exists g3, f2. split_and!.
  - rewrite !rev_app_distr, !vrun_app, E1. cbn [mbind option_bind]. rewrite E2. exact E3.
  - by rewrite Hr3.
  - rewrite Hs3, (Ho2 RSP), Hs by done. lia.
  - intros q Hq1 Hq2 Hq3 Hu. destruct (decide (q = RAX)) as [->|N1]; [rewrite Hx by congruence; apply u64_fits; auto|].
    destruct (decide (q = RDX)) as [->|N2]; [rewrite Hy by congruence; apply u64_fits; auto|].
    rewrite Ho3, Ho2, Ho1 by done. done.
Qed.

(** *** The cores *)

Lemma trunc32_word x : word x -> trunc false x = x.
Proof. apply Z.mod_small. Qed.
Lemma core_mul_ok : core_ok (core_mul false) RAX (fun a b => u32 (a * b)).
Proof.
  intros g L f HL Ha Hb. cbn [core_mul rev app vrun vstep mbind option_bind]. cbn [rreg negb]. rewrite !(trunc32_word (g _)) by done.
  do 2 eexists. split; [reflexivity|]. split; [reflexivity|]. intros q H1 H2 H3. fupds.
Qed.
Lemma core_mulhu_ok : core_ok (core_mul true) RAX (fun a b => a * b).
Proof.
  intros g L f HL Ha Hb. cbn [core_mul rev app vrun vstep mbind option_bind]. cbn [rreg negb]. unfold word in *.
  rewrite !(trunc64_small (g _)) by lia.
  do 2 eexists. split; [reflexivity|]. split; [cbn; apply trunc64_small; nia|]. intros q H1 H2 H3. fupds.
Qed.

(** The flags of a test, through the stack. *)
Lemma word_flags_zf f : ZF (word_flags (u64 (flags_word f))) = ZF f.
Proof. by destruct f as [[] [] [] []]. Qed.
Definition test_flags (b : Z) : flags := result_flags false false b (signed false b).
Lemma test_zf b : word b -> ZF (test_flags b) = (b =? 0).
Proof. intros Hb. unfold test_flags, result_flags. cbn [ZF]. by rewrite trunc32_word. Qed.
Lemma vstep_test g L f : word (g RCX) -> vstep (XAlu false Test RCX RCX) (g, L, f) = Some (g, L, Some (test_flags (g RCX))).
Proof. intros Hb. cbn [vstep]. rewrite !trunc32_word by done. unfold alu. cbn [snd]. by rewrite Z.land_diag. Qed.
Lemma vstep_pushf g L f : (length L < 8)%nat ->
  vstep XPushf (g, L, Some f) = Some (fupd g RSP (g RSP - 8), u64 (flags_word f) :: L, Some f).
Proof. intros H2%Nat.ltb_lt. cbn [vstep]. by rewrite H2. Qed.
Lemma vstep_cmov dst src g L f : rreg src = true -> wreg dst = true ->
  vstep (XCmovE dst src) (g, L, Some f) = Some (if f.(ZF) then fupd g dst (g src) else g, L, Some f).
Proof. intros H1 H2. cbn [vstep]. by rewrite H1, H2. Qed.
Lemma vstep_zero r g L f : rreg r = true -> wreg r = true -> exists f', vstep (XAlu false Xor r r) (g, L, f) = Some (fupd g r 0, L, f').
Proof. intros H1 H2. cbn [vstep]. rewrite H1, H2. cbn [andb negb alu]. rewrite Z.lxor_nilpotent. by eexists. Qed.
Lemma vstep_div g L f : g RDX = 0 -> word (g RAX) -> word (g RCX) -> g RCX <> 0 ->
  vstep (XDiv false RCX) (g, L, f) = Some (fupd (fupd g RAX (g RAX / g RCX)) RDX (g RAX mod g RCX), L, None).
Proof.
  intros H0 Ha Hb Hn. cbn [vstep]. rewrite H0, !(trunc32_word (g _)) by done. change (rreg RCX) with true. change (trunc false 0) with 0.
  destruct (Z.eqb_spec (g RCX) 0); [done|]. cbn [negb orb]. rewrite Z.mul_0_l, Z.add_0_l.
  destruct (Z.leb_spec (2 ^ width false) (g RAX / g RCX)) as [Hle|]; [|done]. unfold word in *.
  assert (g RAX / g RCX <= g RAX) by (apply Z.div_le_upper_bound; nia). change (width false) with 32 in Hle. lia.
Qed.
(** A divisor of 0 becomes 1, and the division is made. *)
Lemma safe_div_run g L b : word (g RAX) -> word (g RCX) -> ZF b = (g RCX =? 0) ->
  let d := if g RCX =? 0 then 1 else g RCX in exists g',
  vrun [XMovImm RDX (u32 1); XCmovE RCX RDX; XAlu false Xor RDX RDX; XDiv false RCX] (g, L, Some b) = Some (g', L, None) /\
  g' RAX = g RAX / d /\ g' RDX = g RAX mod d /\ (forall q, q <> RAX -> q <> RDX -> q <> RCX -> g' q = g q).
Proof.
  intros Ha Hb Ez d.
  assert (0 < d /\ word d) as [Hd Hdw] by (unfold d, word in *; destruct (Z.eqb_spec (g RCX) 0); lia).
  set (g1 := if g RCX =? 0 then fupd (fupd g RDX (u32 1)) RCX 1 else fupd g RDX (u32 1)).
  assert (g1 RAX = g RAX /\ g1 RCX = d /\ forall q, q <> RDX -> q <> RCX -> g1 q = g q) as (E1 & E2 & E3).
  { unfold g1, d. destruct (g RCX =? 0); split_and!; try done; intros q ? ?; fupds. }
  set (g2 := fupd g1 RDX 0). exists (fupd (fupd g2 RAX (g RAX / d)) RDX (g RAX mod d)). split.
  - cbn [vrun]. change (vstep (XMovImm RDX (u32 1)) (g, L, Some b)) with (Some (fupd g RDX (u32 1), L, Some b)). cbn [mbind option_bind].
    rewrite vstep_cmov by done. cbn [mbind option_bind]. rewrite Ez.
    change (if g RCX =? 0 then fupd (fupd g RDX (u32 1)) RCX (fupd g RDX (u32 1) RDX) else fupd g RDX (u32 1)) with g1.
    destruct (vstep_zero RDX g1 L (Some b)) as [f' ->]; [done..|]. cbn [mbind option_bind]. fold g2.
    assert (g2 RCX = d /\ g2 RAX = g RAX) as [F1 F2] by done.
    rewrite vstep_div by (rewrite ?F1, ?F2; (done || lia)). cbn [mbind option_bind]. by rewrite F1, F2.
  - split_and!; [done..|]. intros q H1 H2 H3. unfold g2. fupds. by apply E3.
Qed.
Lemma vstep_popf x g L f : vstep XPopf (g, x :: L, f) = Some (fupd g RSP (g RSP + 8), L, Some (word_flags x)).
Proof. done. Qed.
Lemma fupd_back (g g' : Z -> Z) r q : g' r = g r - 8 -> (q <> r -> g' q = g q) -> fupd g' r (g' r + 8) q = g q.
Proof. intros E H. unfold fupd. destruct (Z.eqb_spec q r) as [->|]; [lia | by apply H]. Qed.
Lemma vrun_cat l1 l2 v v1 : vrun l1 v = Some v1 -> vrun (l1 ++ l2) v = vrun l2 v1.
Proof. intros E. by rewrite vrun_app, E. Qed.
(** The division between the saved flags. *)
Definition guarded : list xinsn :=
  [XAlu false Test RCX RCX; XPushf; XMovImm RDX (u32 1); XCmovE RCX RDX; XAlu false Xor RDX RDX; XDiv false RCX; XPopf].
Lemma guarded_run g L f : (length L <= 3)%nat -> word (g RAX) -> word (g RCX) ->
  let d := if g RCX =? 0 then 1 else g RCX in exists g' f',
  vrun guarded (g, L, f) = Some (g', L, Some f') /\ ZF f' = (g RCX =? 0) /\
  g' RAX = g RAX / d /\ g' RDX = g RAX mod d /\ (forall q, q <> RAX -> q <> RDX -> q <> RCX -> g' q = g q).
Proof.
  intros HL Ha Hb d. set (f1 := test_flags (g RCX)). set (L1 := u64 (flags_word f1) :: L). set (g1 := fupd g RSP (g RSP - 8)).
  assert (vrun [XAlu false Test RCX RCX; XPushf] (g, L, f) = Some (g1, L1, Some f1)) as E0.
  { cbn [vrun]. rewrite vstep_test by done. cbn [mbind option_bind]. rewrite vstep_pushf by lia. done. }
  destruct (safe_div_run g1 L1 f1) as (g2 & E & E1 & E2 & E3); [done | done | by apply test_zf |].
  exists (fupd g2 RSP (g2 RSP + 8)), (word_flags (u64 (flags_word f1))). split_and!.
  - etransitivity; [exact (vrun_cat _ _ _ _ E0)|]. etransitivity; [exact (vrun_cat _ [XPopf] _ _ E)|]. done.
  - rewrite word_flags_zf. by apply test_zf.
  - exact E1.
  - exact E2.
  - intros q H1 H2 H3. apply fupd_back.
    + rewrite E3 by done. unfold g1, fupd. by rewrite Z.eqb_refl.
    + intros Hq. rewrite E3 by done. unfold g1, fupd. by destruct (Z.eqb_spec q RSP).
Qed.
Lemma core_div_ok : core_ok core_div RAX (fun a b => if b =? 0 then 2 ^ 64 - 1 else a / b).
Proof.
  intros g L f HL Ha Hb. destruct (guarded_run g L f) as (g1 & f1 & E & Ez & E1 & E2 & E3); [lia | done | done |].
  do 2 eexists. split; [etransitivity; [exact (vrun_cat guarded [XAluImm true Mov RCX (u32 (-1)); XCmovE RAX RCX] _ _ E)|]|].
  { cbn [vrun]. change (vstep (XAluImm true Mov RCX (u32 (-1))) (g1, L, Some f1)) with (Some (fupd g1 RCX (2 ^ 64 - 1), L, Some f1)).
    cbn [mbind option_bind]. rewrite vstep_cmov by done. cbn [mbind option_bind]. rewrite Ez. reflexivity. }
  split.
  - destruct (g RCX =? 0); [done|]. exact E1.
  - intros q H1 H2 H3. destruct (g RCX =? 0); fupds; by apply E3.
Qed.
Lemma core_mod_ok : core_ok core_mod RDX (fun a b => if b =? 0 then a else a mod b).
Proof.
  intros g L f HL Ha Hb. set (g0 := fupd g RSP (g RSP - 8)). set (L0 := u64 (g RAX) :: L).
  assert (vrun [XPush RAX] (g, L, f) = Some (g0, L0, f)) as E0.
  { cbn [vrun]. rewrite vstep_push by (done || lia). done. }
  destruct (guarded_run g0 L0 f) as (g1 & f1 & E & Ez & E1 & E2 & E3); [cbn [L0 length]; lia | done | done |].
  do 2 eexists. split; [etransitivity; [exact (vrun_cat [XPush RAX] (guarded ++ [XPop RCX; XCmovE RDX RCX]) _ _ E0)|]|].
  { rewrite (vrun_cat _ _ _ _ E). cbn [vrun]. unfold L0. rewrite vstep_pop by done. cbn [mbind option_bind].
    rewrite vstep_cmov by done. cbn [mbind option_bind]. rewrite Ez. change (g0 RCX) with (g RCX). reflexivity. }
  split.
  - change (g0 RAX) with (g RAX) in E2. change (g0 RCX) with (g RCX) in E2. destruct (g RCX =? 0); [|exact E2].
    cbn. apply u64_fits. unfold word in Ha. lia.
  - intros q H1 H2 H3. assert (fupd g1 RSP (g1 RSP + 8) q = g q) as Hq.
    { apply fupd_back; [by rewrite E3 by done|]. intros Hq. rewrite E3 by done. unfold g0, fupd. by destruct (Z.eqb_spec q RSP). }
    rewrite <- Hq. destruct (g RCX =? 0); fupds.
Qed.

(** ** Multiplication and division compute their results *)

Section computes.
Context (cb : Z) (call : Z -> xstate -> option xstate) (tl : jump -> Z).
Context (off_X off_PC off_timer rvp sp bp : Z) (mem : memory_t) (h0 : heap).
Context (Hho : host_ok off_X off_PC off_timer rvp sp mem).
Notation sim := (sim cb call tl).
Notation rel := (rel off_X off_PC off_timer rvp sp bp mem h0).
Notation mrel := (mrel off_X off_PC off_timer rvp sp mem h0).
Notation computes := (computes cb call tl off_X off_PC off_timer rvp sp bp mem h0).
Notation in_dest2 := (in_dest2 cb call tl off_X off_PC off_timer rvp sp bp mem h0).
Implicit Types (st : jit_state) (ir : rv_insn).

Lemma mrel_ext m X T G h h' : (forall a, ~ (sp - 64 <= a < sp) -> heap_get h' a = heap_get h a) -> mrel m X T G h -> mrel m X T G h'.
Proof using Hho.
  intros Hh [Hslot Hz Ht Hg Hk].
  assert (forall n a, apart a (Z.of_nat n) (sp - 64) 64 -> load n h' a = load n h a) as Hl.
  { intros n a Ha. apply load_ext. intros i Hi. apply Hh. unfold apart in Ha. clear Hho. lia. }
  assert (forall v, 0 <= v < 32 -> load 4 h' (xslot off_X rvp v) = load 4 h (xslot off_X rvp v)) as Hx.
  { intros v Hv. apply Hl. pose proof (ho_X_sp _ _ _ _ _ _ Hho). clear Hho. unfold apart, xslot in *. lia. }
  split.
  - intros v Hv Hc. rewrite Hx by done. by apply Hslot.
  - rewrite Hx by lia. done.
  - rewrite Hl; [done|]. pose proof (ho_timer_sp _ _ _ _ _ _ Hho). done.
  - intros a Ha. rewrite Hh; [by apply Hg|]. pose proof (ho_mem_sp _ _ _ _ _ _ Hho). clear Hho. unfold apart in *. lia.
  - intros a Ha. rewrite Hh; [by apply Hk|]. destruct Ha as (_ & _ & _ & _ & Ha). clear Hho. unfold apart in *. lia.
Qed.
(** The register of [v] holds its new value. *)
Lemma rel_settle m X T G s v r : regs_ok m -> maps m v r -> 0 < v < 32 ->
  rel [v] (upd m r (fun h => set_map_dirty h true)) X T G s ->
  rel [] (upd m r (fun h => set_map_dirty h true)) (reg_set X v (xget s r)) T G s.
Proof using.
  intros Hm Hmap Hv Hrel. set (m' := upd m r _) in *.
  assert (regs_ok m') as Hm'.
  { apply regs_ok_dirty; [done|]. intros _ h Hh Er. assert (v = vm_reg_idx h) as <- by (eapply maps_inj; [exact Hm | exact Hmap | by exists h]). unfold no_reg. lia. }
  rewrite <- (xset_same s r (xget s r)) at 2; [|by eapply rel_length | apply host_reg_range, (maps_host m v r Hm Hmap) | done].
  rewrite <- (upd_dirty_twice m r : upd m' r _ = m').
  apply (rel_write off_X off_PC off_timer rvp sp bp mem h0 [] m' X _ T G s v r _ true); try done; [by apply maps_dirty | lia | |].
  - intros u Hu. unfold reg_set. destruct (Z.eqb_spec u v); done.
  - unfold reg_set. rewrite Z.eqb_refl. destruct (Z.eqb_spec v 0); [lia | done].
Qed.

(** The machine before and after the code of an operation. *)
Lemma rel_view m X T G s v dst g' f' s' : regs_ok m -> maps m v dst -> 0 <= v < 32 -> words X -> rel [v] m X T G s ->
  view sp s.(xmem) g' [] f' s' -> g' RSP = xget s RSP ->
  (forall q, q <> dst -> q <> RCX -> q <> RSP -> (q = RAX \/ q = RDX -> 0 <= xget s q < 2 ^ 64) -> g' q = xget s q) ->
  rel [v] m X T G s'.
Proof using Hho.
  intros Hm Hmap Hv [HX0 HX] [[Hl Hd Hs Hb Hr] Hmem] [Hl' Hr' Hs' Hc Hst Hm' Hf] Hsp Ho.
  destruct (host_reg_range dst) as (_ & Hn1 & Hn2 & Hn3 & Hn4); [by eapply maps_host|]. split; [split|].
  - done.
  - rewrite Hr' by (unfold reg, RDI; lia). rewrite Ho; [done | congruence | done | done | by intros [|]].
  - rewrite Hr' by (unfold reg, RSP; lia). by rewrite Hsp.
  - rewrite Hr' by (unfold reg, RBP; lia). rewrite Ho; [done | congruence | done | done | by intros [|]].
  - intros e He Hv' Hx. destruct (host_reg_range (reg_idx e)) as (He1 & He2 & _ & He3 & _); [by apply (ro_host m)|].
    rewrite Hr' by done. rewrite <- Hr by done. apply Ho; [|done..|].
    + intros E. apply Hx. apply list_elem_of_singleton. symmetry. apply (maps_inj m _ _ dst Hm Hmap). by exists e.
    + intros _. rewrite Hr by done. destruct (ro_range _ Hm e He) as [|Hrg]; [done|]. destruct (HX _ Hrg). lia.
  - by eapply mrel_ext.
Qed.
Lemma muldiv_sim st st' core from F v a b X T G : core_ok core from F -> from = RAX \/ from = RDX ->
  (forall a b, word a -> word b -> 0 <= F a b < 2 ^ 64) -> regs_ok (register_map st) -> 0 <= v < 32 -> words X -> word a -> word b ->
  let dst := vm st 2 in maps (register_map st) v dst -> rinsns st st' (restores from dst ++ core ++ saves dst) ->
  register_map st' = dirty_loop (register_map st) dst true ->
  sim st st' (fun s => rel [v] (register_map st) X T G s /\ xget s dst = a /\ xget s RCX = b)
    (fun s => rel [v] (register_map st') X T G s /\ xget s dst = F a b).
Proof using Hho.
  intros Hcore Hfrom HF Hm Hv HX Ha Hb dst Hmap Hi Em. eapply sim_insns; [exact Hi|]. intros s (Hrel & Ea & Eb).
  assert (host dst) as Hd by by eapply maps_host.
  assert (view sp s.(xmem) (xget s) [] s.(xf) s) as Hv0.
  { pose proof Hrel as [[Hl _ Hs _ _] _]. split; try done; cbn [length]; [|lia]. rewrite Hs. lia. }
  destruct (muldiv_run core from F dst (xget s) s.(xf)) as (g' & f' & E & E1 & E2 & E3); [done.. | by rewrite Ea | by rewrite Eb |].
  destruct (vrun_ok cb call sp (ho_sp _ _ _ _ _ _ Hho) s.(xmem) _ _ _ _ _ _ _ _ Hv0 E) as (s' & He & Hv').
  exists s'. split; [done|]. split.
  - rewrite Em, dirty_upd by done. apply rel_mark. by eapply rel_view.
  - rewrite (v_reg _ _ _ _ _ _ Hv') by (by apply host_reg_range). by rewrite E1, Ea, Eb.
Qed.

(** The result of an operation is in the register of its destination. *)
Lemma mul_op_ok st ir op core from F : core_ok core from F -> from = RAX \/ from = RDX ->
  (forall a b, word a -> word b -> 0 <= F a b < 2 ^ 64) -> In op [0x28; 0x2f; 0x38; 0x98] ->
  (forall st dst, host dst -> rinsns st (muldivmod st op RCX dst false) (restores from dst ++ core ++ saves dst)) ->
  jit_ok st -> 0 <= ir.(rs1) < 32 -> 0 <= ir.(rs2) < 32 -> 0 < ir.(rd) < 32 ->
  let st' := mul_op off_X (ra_load2 off_X st ir.(rs1) ir.(rs2)) ir op false in ok st' ->
  jit_ok st' /\ maps (register_map st') ir.(rd) (vm st' 2) /\ same st st' /\ (ok st' -> ok st) /\
  (exists m, regs_ok m /\ maps m ir.(rd) (vm st' 2) /\ register_map st' = upd m (vm st' 2) (fun h => set_map_dirty h true)) /\
  forall X T G, words X -> sim st st' (rel [] (register_map st) X T G)
    (fun s => rel [ir.(rd)] (register_map st') X T G s /\ xget s (vm st' 2) = F (X ir.(rs1)) (X ir.(rs2))).
Proof using Hho.
  intros Hcore Hfrom HF Hop Hi Hj H1 H2 Hd st' Hok. unfold mul_op in st'. cbv zeta in st'.
  set (st1 := two_operands off_X (ra_load2 off_X st (rs1 ir) (rs2 ir)) ir) in *.
  pose proof (muldivmod_quiet st1 op (vm st1 2) Hop : quiet st1 st') as (Evm & Hs' & Ho').
  assert (vm st' 2 = vm st1 2) as Ev by (unfold vm; by rewrite Evm).
  destruct (two_operands_ok cb call tl off_X off_PC off_timer rvp sp bp mem h0 Hho st ir Hj H1 H2 ltac:(lia) (Ho' Hok)) as [Hj1 Hmap1 Hs1 Ho1 Hsim1].
  fold st1 in Hj1, Hmap1, Hs1, Ho1, Hsim1. assert (host (vm st1 2)) as Hh by (eapply maps_host; [apply Hj1 | done]).
  pose proof (muldivmod_map st1 op (vm st1 2) (proj1 Hj1) Hop Hh : register_map st' = _) as Em.
  destruct (jit_ok_mark st1 st' (rd ir) (vm st1 2) Hj1 Hmap1 ltac:(lia)) as (Hj' & Hmap' & _); [done|].
  rewrite Ev. split_and!; [done | by apply Hmap' | by etransitivity | auto | |].
  - exists (register_map st1). rewrite Em, dirty_upd by apply Hj1. split; [apply Hj1 | done].
  - intros X T G HX. pose proof HX as [_ HXw]. eapply sim_trans; [by apply Hsim1|].
    apply (muldiv_sim st1 st' core from F (rd ir)); try done; [apply Hj1 | lia | auto | auto |]. by apply Hi.
Qed.
(** It is a word. *)
Lemma mul_op_computes st ir op core from F : core_ok core from F -> from = RAX \/ from = RDX ->
  (forall a b, word a -> word b -> 0 <= F a b < 2 ^ 64) -> In op [0x28; 0x2f; 0x38; 0x98] ->
  (forall st dst, host dst -> rinsns st (muldivmod st op RCX dst false) (restores from dst ++ core ++ saves dst)) ->
  jit_ok st -> 0 <= ir.(rs1) < 32 -> 0 <= ir.(rs2) < 32 -> 0 < ir.(rd) < 32 ->
  let st' := mul_op off_X (ra_load2 off_X st ir.(rs1) ir.(rs2)) ir op false in ok st' ->
  computes st st' (writes_reg ir.(rd) (fun X => F (X ir.(rs1)) (X ir.(rs2)))).
Proof using Hho.
  intros Hcore Hfrom HF Hop Hi Hj H1 H2 Hd st' Hok.
  destruct (mul_op_ok st ir op core from F Hcore Hfrom HF Hop Hi Hj H1 H2 Hd Hok) as (Hj' & Hmap & Hs & Ho & (m & Hm & Hmm & Em) & Hsim).
  fold st' in Hj', Hmap, Hs, Ho, Hmm, Em, Hsim. split; try done.
  intros X G X' G' T HX [= <- <-]. eapply sim_weaken; [by apply Hsim | done |]. intros s [Hrel <-].
  rewrite Em in *. by apply rel_settle.
Qed.

Lemma gen_mul_ok st ir : jit_ok st -> 0 <= ir.(rs1) < 32 -> 0 <= ir.(rs2) < 32 -> 0 < ir.(rd) < 32 -> ok (gen_mul off_X st ir) ->
  computes st (gen_mul off_X st ir) (writes_reg ir.(rd) (fun X => u32 (X ir.(rs1) * X ir.(rs2)))).
Proof using Hho.
  apply (mul_op_computes st ir 0x28 (core_mul false) RAX (fun a b => u32 (a * b)));
    [apply core_mul_ok | by left | intros; pose proof (word_u32 (a * b)); unfold word in *; lia | cbn; tauto | intros; by apply mul_insns].
Qed.
Lemma gen_remu_ok st ir : jit_ok st -> 0 <= ir.(rs1) < 32 -> 0 <= ir.(rs2) < 32 -> 0 < ir.(rd) < 32 -> ok (gen_remu off_X st ir) ->
  computes st (gen_remu off_X st ir) (writes_reg ir.(rd) (fun X => if X ir.(rs2) =? 0 then X ir.(rs1) else X ir.(rs1) mod X ir.(rs2))).
Proof using Hho.
  apply (mul_op_computes st ir 0x98 core_mod RDX (fun a b => if b =? 0 then a else a mod b));
    [apply core_mod_ok | by right | | cbn; tauto | intros; by apply remu_insns].
  unfold word. intros a b Ha Hb. destruct (Z.eqb_spec b 0); [lia|]. pose proof (Z.mod_pos_bound a b). lia.
Qed.
(** By 0, the register gets all 64 bits. *)
Lemma gen_divu_ok st ir : jit_ok st -> 0 <= ir.(rs1) < 32 -> 0 <= ir.(rs2) < 32 -> 0 < ir.(rd) < 32 -> ok (gen_divu off_X st ir) ->
  computes st (gen_divu off_X st ir) (writes_reg ir.(rd) (fun X => if X ir.(rs2) =? 0 then 2 ^ 64 - 1 else X ir.(rs1) / X ir.(rs2))).
Proof using Hho.
  apply (mul_op_computes st ir 0x38 core_div RAX (fun a b => if b =? 0 then 2 ^ 64 - 1 else a / b));
    [apply core_div_ok | by left | | cbn; tauto | intros; by apply divu_insns].
  unfold word. intros a b Ha Hb. destruct (Z.eqb_spec b 0); [lia|].
  assert (0 <= a / b <= a) by (split; [apply Z.div_pos; lia | apply Z.div_le_upper_bound; nia]). lia.
Qed.
(** The upper half of the product is shifted down. *)
Lemma exec_high r s : 0 <= xget s r < 2 ^ 64 -> exists f,
  exec cb call (XShiftImm true Shr r (u8 32)) s = Some (xset_flags (xset s r (xget s r / 2 ^ 32)) f).
Proof using.
  intros Hx. cbn [exec]. unfold x_shift. change (u8 32 mod width true) with 32. change (32 =? 0) with false. cbv iota.
  rewrite trunc64_small, Z.shiftr_div_pow2 by (done || lia). by exists None.
Qed.
Lemma finish_high st st1 v (val : (Z -> Z) -> Z) : jit_ok st1 -> maps (register_map st1) v (vm st1 2) -> same st st1 -> (ok st1 -> ok st) -> 0 < v < 32 ->
  (forall X, words X -> 0 <= val X < 2 ^ 64) ->
  (forall X T G, words X -> sim st st1 (rel [] (register_map st) X T G)
    (fun s => rel [v] (register_map st1) X T G s /\ xget s (vm st1 2) = val X)) ->
  computes st (high_half st1) (writes_reg v (fun X => val X / 2 ^ 32)).
Proof using.
  intros Hj1 Hmap Hs Ho Hv Hval Hsim. unfold high_half. pose proof (ar_alu64_imm8 st1 0xc1 5 (vm st1 2) 32) as A.
  destruct (jit_ok_mark _ _ _ _ Hj1 Hmap ltac:(lia) A) as (Hj' & _).
  split; [done | etransitivity; [done | apply A] | intros; by apply Ho, A |].
  intros X G X' G' T HX [= <- <-]. eapply sim_trans; [by apply Hsim|].
  apply (sim_write cb call tl off_X off_PC off_timer rvp sp bp mem h0 _ _ (XShiftImm true Shr (vm st1 2) (u8 32)) v (vm st1 2)); try done;
    [apply insn_alu64_imm8; [apply host_reg_range; eapply maps_host; [apply Hj1 | done] | done] | apply Hj1 |].
  intros s [Hrel Hx]. split; [done|]. rewrite <- Hx. apply exec_high. rewrite Hx. by apply Hval.
Qed.
Lemma word_mul_64 a b : word a -> word b -> 0 <= a * b < 2 ^ 64.
Proof using. unfold word. intros. nia. Qed.
Lemma ok_high st : ok (high_half st) -> ok st.
Proof using. apply (ar_alu64_imm8 st 0xc1 5 (vm st 2) 32). Qed.
Lemma gen_mulhu_ok st ir : jit_ok st -> 0 <= ir.(rs1) < 32 -> 0 <= ir.(rs2) < 32 -> 0 < ir.(rd) < 32 -> ok (gen_mulhu off_X st ir) ->
  computes st (gen_mulhu off_X st ir) (writes_reg ir.(rd) (fun X => X ir.(rs1) * X ir.(rs2) / 2 ^ 32)).
Proof using Hho.
  intros Hj H1 H2 Hd. unfold gen_mulhu. intros Hok%ok_high.
  destruct (mul_op_ok st ir 0x2f (core_mul true) RAX (fun a b => a * b) core_mulhu_ok (or_introl eq_refl) word_mul_64
    (or_intror (or_introl eq_refl)) mulhu_insns Hj H1 H2 Hd Hok) as (Hj1 & Hmap & Hs & Ho & _ & Hsim).
  apply (finish_high st _ (rd ir) (fun X => X (rs1 ir) * X (rs2 ir)) Hj1 Hmap Hs Ho Hd); [|exact Hsim].
  intros X [_ HX]. by apply word_mul_64; apply HX.
Qed.
End computes.
